(* ===== verification/_CoqProject ===== *)
-Q . S2P
Prelude.v
Types.v
List2.v
List.v
VbHeap.v
VbIter.v
VbSub.v
VbRep.v
VbWalk.v
VbFrame.v
VbMut.v
VbEdit.v
VbClear.v
VbMake.v
VbCtl.v
VbRead.v
VbSpec.v
VbWrite.v
VbNum.v
VbBits.v
VbNumSpec.v
VbSelect.v
VbSelectSpec.v
VbMap.v
VbExtract.v
VbFlat.v
VbFindings.v
VbStream.v
VbStreamRep.v
VbStreamPush.v
VbStreamPop.v
VbStreamSpec.v
TcpStream.v
TcpSeq.v
TcpPerm.v
TcpVb.v
TcpSpec.v
Checksum.v
Ipv4.v
Ipv4Spec.v
Ipv4Dissect.v
Tcp.v
TcpCsum.v
Ipv4Frag.v
Ipv4FragSpec.v
Ipv4Net.v
Cnx.v
CnxSpec.v
Time.v
Pcap.v
PcapSpec.v
PcapCapture.v
PcapQueue.v
Parameters.v
PcapInit.v
Timer.v
TimerSpec.v
Packet.v
PacketSpec.v
Module.v
ModuleSpec.v
Regexp.v
RegexpSpec.v
RegexpVb.v
Listeners.v
Log.v
LogSpec.v
Alert.v
AlertSpec.v
CtlComm.v
Engine.v
EngineInv.v
EngineSpec.v
Vector.v
StateMachine.v
StateMachineRep.v
StateMachineSim.v
StateMachineSpec.v
StateMachineFire.v
StateMachineReach.v
