(* ===== verification/Prelude.v ===== *)
(** * Haka: a verification library of the C core

    Haka inspects and rewrites network traffic. A capture module delivers packets;
    the protocol modules dissect them over a common memory library, reassemble
    fragments and streams, let security rules (Lua) look at the data and change it,
    and forge the packets again. This library models the C code that carries the
    data on that path and states what makes it correct.

    ** The program and the files that model it

    The order is that of the dependencies; a file [XSpec] holds the theorems on the
    definitions of [X].

    - Prelude (this file): machine integers ([u32], [s64], ... on [Z]), the state
      monad [M S A] (a run either ends with a value and a state or has no result:
      a failed [assert], a null or dangling pointer, an undefined shift), the
      judgement [runs m s Q] ("from [s] the run of [m] returns and [Q] holds of its
      result"), its tactics [step] and [call], the byte-string operations [ztake],
      [zdrop], [zslice] indexed by [Z], and the hint database [haka].
    - Types: include/haka/types.h and container/bitfield.h, verdicts and states of packets
      of include/haka/packet.h and capture_module.h.
    - List2: container/list2.h and list2.c, the intrusive circular lists
      of every component, on a heap of links; refinement to sequences.
    - List: container/list.h and list.c, the lists with null ends.
    - VbHeap, VbIter, VbSub: lib/haka/vbuffer_data.c, vbuffer.c and vbuffer.h. The
      state [vbstate] holds the chunks, the links they embed, the reference-counted
      data blocks, the pending error of the thread (error.c) and an allocator
      that may fail. VbIter has the iterators, VbSub the sub-buffers, in both cases
      one definition per C function.
      VbRep: the abstraction. [buf_rep s e cs] says that the buffer with the end
      chunk [e] consists of the chunks [cs], [content s cs] is its byte string,
      [pos_of e cs c o p] that the iterator (c, o) denotes the byte position [p];
      [heap_ok] is the invariant of the heap (links, blocks, reference counts).
      VbWalk (loops over chunks), VbFrame (what an update leaves alone), VbMut
      (split), VbEdit (insert, append), VbClear, VbMake, VbRead, VbCtl (control
      chunks), VbSelect (selection of a range): the lemmas; VbSpec, VbWrite
      (writing), VbSelectSpec (selection and restoration): the theorems; VbMap: access
      to a header that is mapped at the beginning of a buffer, for the protocols;
      VbExtract: extraction, erasure and replacement of a range; VbFlat: compaction
      and flattening; VbFindings: computations on small heaps.
    - VbNum: the numbers and bit fields of sub-buffers in vbuffer.c. VbBits: bit
      ranges of byte strings and the loops over them; VbNumSpec: the theorems.
    - VbStream: lib/haka/vbuffer_stream.c and vbuffer_sub_stream.c, with their
      descriptors, control chunks and cleanup callback, over VbSub. VbStreamRep
      [stream_view]: a stream as a queue of blocks with user data; VbStreamPush,
      VbStreamPop: the lemmas; VbStreamSpec: the refinement.
    - TcpStream, TcpSeq, TcpPerm, TcpSpec: modules/protocol/tcp/tcp-stream.c. The
      byte stream underneath is the interface [ByteStream]; TcpVb discharges it with
      VbStream.
    - Checksum: the internet checksum of modules/protocol/ipv4/ipv4.c.
    - Ipv4: header access, dissection, creation and forging of packets in ipv4.c and
      haka/ipv4.h, over VbSub; drops and releases of the packet are recorded, reassembled
      packets have no result. Ipv4Spec: the header; Ipv4Dissect: dissection and forging.
    - Tcp: modules/protocol/tcp/tcp.c and haka/tcp.h over Ipv4: header access,
      checksum, dissection, creation and forging with the split at the MTU. TcpCsum:
      the checksum.
    - Ipv4Frag, Ipv4FragSpec: the fragment list of a datagram in ipv4.c, without the table
      that finds it and with pushes to the stream that succeed.
    - Ipv4Net: ipv4-addr.c, ipv4-network.c without the strings.
    - Cnx, CnxSpec: modules/protocol/ipv4/cnx.c over the interface [HashTable] of
      the macros of uthash.
    - Time, Timer, TimerSpec: lib/haka/time.c and timer.c.
    - Pcap: modules/capture/pcap/pcap.c and the operations of main.c on packets, over
      VbSub, List and Time, with what libpcap answers as an argument. PcapSpec: link
      layer headers; PcapCapture: reception and verdict of a frame ([held] is a packet
      between the two); PcapQueue: the packets that the filters send.
    - Parameters: lib/haka/parameters.c over the interface [Iniparser]. PcapInit: the start
      and the end of the pcap module and of its threads in main.c, with the memory and the
      handles of libpcap they take.
    - Packet: lib/haka/packet.c over the interface [CaptureModule] of
      include/haka/capture_module.h, which Pcap discharges, with Timer for the network
      time. PacketSpec: references, and the whole way of a frame.
    - Module, ModuleSpec: lib/haka/module.c and the functions of alert_module.c,
      log_module.c, regexp_module.c and packet.c that keep a module after a test of its
      type; the dynamic loader is an argument.
    - Regexp: modules/regexp/pcre/main.c over the interface [Pcre] of the library, with
      VbSub for the buffers. RegexpSpec: what PCRE documents ([pcre_ok]), streams, and an
      engine for literal strings that meets it; RegexpVb: buffers.
    - Listeners: the lists of loggers and alerters, written twice in log.c and alert.c,
      over List. Log, LogSpec: lib/haka/log.c, sections, levels and messages. Alert,
      AlertSpec: lib/haka/alert.c, numbers, delivery and the text of an alert.
    - CtlComm: src/hakactl/ctl_comm.c, the messages of the control channel.
    - Engine: lib/haka/engine.c with the main loop and the stop of src/haka/thread.c, the
      launch of work on an engine thread by other threads, as interleaved programs over
      List2. EngineInv: the invariant of the threads; EngineSpec: the theorems.
    - Vector: lib/haka/container/vector.c.
    - StateMachine: lib/haka/state_machine.c over Timer and Vector. StateMachineRep
      [clock]: which timers of an instance are armed, also while a check runs;
      StateMachineSim: the abstract machine [a_update] and the simulation;
      StateMachineSpec, StateMachineFire (timeouts), StateMachineReach (runs and
      examples): the theorems.

    ** What the theorems show

    - Buffers: creation, size, advance, availability, split, insertion, append,
      clearing, selection, restoration, replacement, flattening, reading and writing of
      sub-buffers compute the corresponding operation on byte strings, preserve
      [heap_ok], and leave every other buffer untouched; no block is freed while it is referred to and none leaks; error paths (no
      memory, read-only data, a stale registered iterator) end in the documented
      error and change nothing.
    - Numbers and bit fields: the loops over bytes compute the integers the bits
      denote, for offsets below 8 and at most 63 (big-endian) or 31 (little-endian) bits;
      stored values are read back and the other bits stay.
    - Streams: any sequence of pushes and pops gives the answers of a queue of
      blocks, with the user data; a finished stream refuses a push.
    - TCP: segments pushed in any order are delivered in the order of the stream;
      sequence numbers are recovered over the wrap-around of the 32-bit field;
      popped packets and acknowledgements are shifted by the changes of length.
    - IPv4: a packet is dissected into header, datagram and padding, and forging it
      unchanged gives it back; getters and setters are inverse and touch only their
      own bytes; a computed checksum is accepted; a fragment is put at its place in the
      sorted list of its datagram, and fragments in any order, without overlap, are
      reassembled; the unrolled checksum is the one's complement sum for every cutting
      and alignment.
    - TCP packets: the checksum is the sum over the pseudo header, the header and the
      payload, wherever they lie; a computed one is accepted.
    - Connections: at most one connection for a pair of end points, found in both
      directions; drop and close.
    - Captured packets: the protocol of a frame and the offset of its data are those of a
      parser of the bytes; an accepted frame is written to the dump as it is, with the
      changes of its payload; packets that are sent while they are not queued are received
      in their order; from reception
      to release a packet drives the timers, is counted, and leaves no memory behind.
      The start of the module and of a thread keeps the names that were asked for and one
      handle per capture, or nothing, and the end gives all of it back.
    - Parameters: a value that is stored is read under the same section and key.
    - Modules: every module that a client keeps has the type the client casts it to, and
      is referred to as often as it was loaded; it is found at the first path that has it.
    - Regular expressions: for expressions without anchors and lookaround, a match that is
      reported for a stream or a buffer is one of the whole data, wherever pieces and chunks
      cut it, and its positions are right, unless PCRE has asked for a greater workspace
      while a match went on; the workspace grows within its limit, and with memory for its
      growths all that is taken is given back.
    - Timers: exactly the due timers fire, in order, and are armed again correctly.
    - State machines: an update refines a machine without timers and leaves exactly
      the timers of the current state armed; it returns when the enter and leave
      transitions descend in a rank; a timeout that alone is due takes its transition; from
      the initialisation on, calls and such timeouts are always served and keep the
      invariant, in machines whose states have no timeout or all the same number of them.
    - Logs and alerts: sections and levels refine a machine of names, a global level and
      own levels (a section is put back to the global level only while that is the built-in
      one); messages and alerts reach every listener once, in order; the text of an alert
      is the one its fields denote and stays inside its buffer.
    - Control channel: messages are received as they were sent, but for empty strings, which
      the code does not send.
    - Engine threads: in every interleaving launches run in the order of their insertion,
      callers get their own answers, no wake-up is lost, no record is used too late, and
      a call can always be brought to its end; no thread is cancelled, and a thread is freed
      when no call is on its way to it.
    - Lists, vectors, bit sets, byte order, times: refinement of sequences and of
      integers.

    Theorems at the end of the files ("outside the intended domain", VbFindings)
    are closed runs that show where the code departs from what it means to do.

    ** Bounds, fuel, assumptions

    Integers keep their width; each theorem states the range it needs (byte counts
    below 2^32 for the 32-bit meter, streams below 2^31, instants below 2^61 ns,
    checksummed data of at most 65000 bytes, which a 16-bit total length keeps).
    Loops over lists run with a fuel that the code around them chooses, the number
    of cells of the heap plus one: a list cannot have more elements than the heap
    has cells, and every theorem states that the run returns, so that no fuel is
    exhausted. The calls of a state machine to itself run with the fuel 2R+2, R the
    highest rank of a state; without such a rank the code itself does not return. A
    workspace of PCRE doubles at most 10 times below its maximum.
    A callback of a state machine reads and writes its own data only, one of the other
    timers is recorded and leaves the timers alone. The machine is
    little-endian with 64-bit [size_t]. Engine interleaves threads, with their locks,
    atomic counters and semaphores, at every shared access (sequentially consistent); the
    other files model one thread and no locks.

    ** Not modelled

    Lua, its bindings and debugger, the other capture modules, the alert output modules,
    the start of threads and the command line programs are input and output or layers
    over third-party libraries. *)

From stdpp Require Export base tactics options numbers list list_numbers strings fin_maps gmap.
From Stdlib Require Export ZArith Lia.

(** ** Scopes, hint databases *)

Declare Scope haka_scope.
Delimit Scope haka_scope with haka.
Open Scope haka_scope.
Open Scope Z_scope.

Create HintDb haka.

(** Addresses of heap blocks. A pointer is an [option loc], NULL is [None]. *)
Abbreviation loc := positive (only parsing).
Abbreviation ptr := (option positive) (only parsing).

(** ** Machine integers

    A [w]-bit unsigned integer is a [Z] in [0, 2^w); every operation that can
    leave the range is wrapped explicitly. *)

Definition wrap (w x : Z) : Z := x `mod` 2 ^ w.
Definition u8 (x : Z) : Z := wrap 8 x.
Definition u16 (x : Z) : Z := wrap 16 x.
Definition u32 (x : Z) : Z := wrap 32 x.
Definition u64 (x : Z) : Z := wrap 64 x.

(** Two's complement reinterpretation on [w] bits. *)
Definition swrap (w x : Z) : Z := (x + 2 ^ (w - 1)) `mod` 2 ^ w - 2 ^ (w - 1).
Definition s16 (x : Z) : Z := swrap 16 x.
Definition s32 (x : Z) : Z := swrap 32 x.
Definition s64 (x : Z) : Z := swrap 64 x.

(** [(size_t)-1] on a 64-bit target. *)
Definition size_max : Z := 2 ^ 64 - 1.

Lemma wrap_small w x : 0 ≤ x < 2 ^ w → wrap w x = x.
Proof. apply Z.mod_small. Qed.

Lemma wrap_range w x : 0 ≤ w → 0 ≤ wrap w x < 2 ^ w.
Proof. intros. apply Z.mod_pos_bound. lia. Qed.

Lemma swrap_small w x : 0 < w → - 2 ^ (w - 1) ≤ x < 2 ^ (w - 1) → swrap w x = x.
Proof.
  intros Hw Hx. unfold swrap.
  assert (2 ^ w = 2 * 2 ^ (w - 1)) as E.
  { rewrite <- Z.pow_succ_r by lia. f_equal. lia. }
  rewrite Z.mod_small by lia. lia.
Qed.

Lemma u8_small x : 0 ≤ x < 2 ^ 8 → u8 x = x.
Proof. apply wrap_small. Qed.
Lemma u16_small x : 0 ≤ x < 2 ^ 16 → u16 x = x.
Proof. apply wrap_small. Qed.
Lemma u32_small x : 0 ≤ x < 2 ^ 32 → u32 x = x.
Proof. apply wrap_small. Qed.
Lemma u64_small x : 0 ≤ x < 2 ^ 64 → u64 x = x.
Proof. apply wrap_small. Qed.
Lemma u8_range x : 0 ≤ u8 x < 2 ^ 8.
Proof. by apply wrap_range. Qed.
Lemma u16_range x : 0 ≤ u16 x < 2 ^ 16.
Proof. by apply wrap_range. Qed.
Lemma u32_range x : 0 ≤ u32 x < 2 ^ 32.
Proof. by apply wrap_range. Qed.
Lemma u64_range x : 0 ≤ u64 x < 2 ^ 64.
Proof. by apply wrap_range. Qed.

#[export] Hint Resolve u8_range u16_range u32_range u64_range : haka.

(** [wraps] removes the wrap-arounds whose argument [lia] shows to be in range. *)
Ltac wraps :=
  repeat match goal with
  | |- context [u8 ?x] => rewrite (u8_small x) by lia
  | |- context [u16 ?x] => rewrite (u16_small x) by lia
  | |- context [u32 ?x] => rewrite (u32_small x) by lia
  | |- context [u64 ?x] => rewrite (u64_small x) by lia
  end.

(** ** Lists indexed by [Z] *)

Definition zlen {A} (l : list A) : Z := Z.of_nat (length l).
Definition ztake {A} (n : Z) (l : list A) : list A := take (Z.to_nat n) l.
Definition zdrop {A} (n : Z) (l : list A) : list A := drop (Z.to_nat n) l.

(** [l[off .. off+len)] *)
Definition zslice {A} (off len : Z) (l : list A) : list A := ztake len (zdrop off l).

(** Overwrite [l] from index [off] with [bs]. *)
Definition zput {A} (off : Z) (bs l : list A) : list A :=
  ztake off l ++ bs ++ zdrop (off + zlen bs) l.

(** A list of bytes. *)
Definition byte_list (l : list Z) : Prop := Forall (λ b, 0 ≤ b < 256) l.

Definition zsum (l : list Z) : Z := foldr Z.add 0 l.

Section zlist.
Context {A : Type}.
Implicit Types l k : list A.

Lemma zlen_nonneg l : 0 ≤ zlen l.
Proof. unfold zlen. lia. Qed.
Lemma zlen_nil : zlen (@nil A) = 0.
Proof. done. Qed.
Lemma zlen_cons x l : zlen (x :: l) = zlen l + 1.
Proof. unfold zlen. simpl. lia. Qed.
Lemma zlen_app l k : zlen (l ++ k) = zlen l + zlen k.
Proof. unfold zlen. rewrite length_app. lia. Qed.
Lemma zlen_ztake n l : 0 ≤ n ≤ zlen l → zlen (ztake n l) = n.
Proof. unfold zlen, ztake. rewrite length_take. lia. Qed.
Lemma zlen_zdrop n l : 0 ≤ n ≤ zlen l → zlen (zdrop n l) = zlen l - n.
Proof. unfold zlen, zdrop. rewrite length_drop. lia. Qed.
Lemma zlen_zslice off len l :
  0 ≤ off → 0 ≤ len → off + len ≤ zlen l → zlen (zslice off len l) = len.
Proof. intros. unfold zslice. rewrite zlen_ztake; [done|]. rewrite zlen_zdrop; lia. Qed.
Lemma zlen_zput off bs l :
  0 ≤ off → off + zlen bs ≤ zlen l → zlen (zput off bs l) = zlen l.
Proof.
  intros. pose proof (zlen_nonneg bs). unfold zput. rewrite !zlen_app.
  rewrite zlen_ztake, zlen_zdrop; lia.
Qed.
Lemma zlen_0_inv l : zlen l = 0 → l = [].
Proof. destruct l; [done|]. rewrite zlen_cons. pose proof (zlen_nonneg l). lia. Qed.

Lemma ztake_0 l : ztake 0 l = [].
Proof. done. Qed.
Lemma zdrop_0 l : zdrop 0 l = l.
Proof. done. Qed.
Lemma ztake_ge n l : zlen l ≤ n → ztake n l = l.
Proof. intros. apply take_ge. unfold zlen in *. lia. Qed.
Lemma zdrop_ge n l : zlen l ≤ n → zdrop n l = [].
Proof. intros. apply drop_ge. unfold zlen in *. lia. Qed.
Lemma ztake_zdrop n l : ztake n l ++ zdrop n l = l.
Proof. apply take_drop. Qed.
Lemma zdrop_zdrop n m l : 0 ≤ n → 0 ≤ m → zdrop n (zdrop m l) = zdrop (m + n) l.
Proof. intros. unfold zdrop. rewrite drop_drop. f_equal. lia. Qed.
Lemma ztake_ztake n m l : 0 ≤ n ≤ m → ztake n (ztake m l) = ztake n l.
Proof. intros. unfold ztake. rewrite take_take. f_equal. lia. Qed.
Lemma ztake_app_le n l k : n ≤ zlen l → ztake n (l ++ k) = ztake n l.
Proof. intros. apply take_app_le. unfold zlen in *. lia. Qed.
Lemma ztake_app_ge n l k : zlen l ≤ n → ztake n (l ++ k) = l ++ ztake (n - zlen l) k.
Proof. intros. unfold ztake, zlen in *. rewrite take_app_ge by lia. do 2 f_equal. lia. Qed.
Lemma zdrop_app_le n l k : n ≤ zlen l → zdrop n (l ++ k) = zdrop n l ++ k.
Proof. intros. apply drop_app_le. unfold zlen in *. lia. Qed.
Lemma zdrop_app_ge n l k : zlen l ≤ n → zdrop n (l ++ k) = zdrop (n - zlen l) k.
Proof. intros. unfold zdrop, zlen in *. rewrite drop_app_ge by lia. f_equal. lia. Qed.
Lemma zdrop_ztake n m l : 0 ≤ n ≤ m → zdrop n (ztake m l) = ztake (m - n) (zdrop n l).
Proof.
  intros. unfold zdrop, ztake. rewrite take_drop_commute. f_equal. f_equal. lia.
Qed.
Lemma zslice_split off a b l :
  0 ≤ off → 0 ≤ a → 0 ≤ b →
  zslice off (a + b) l = zslice off a l ++ zslice (off + a) b l.
Proof.
  intros. unfold zslice. rewrite <- (ztake_zdrop a (ztake (a + b) (zdrop off l))).
  rewrite ztake_ztake by lia. rewrite zdrop_ztake by lia.
  rewrite zdrop_zdrop by lia. f_equal. f_equal. lia.
Qed.
Lemma zslice_zslice off n i m l :
  0 ≤ off → 0 ≤ i → 0 ≤ m → i + m ≤ n → zslice i m (zslice off n l) = zslice (off + i) m l.
Proof.
  intros. unfold zslice. rewrite zdrop_ztake, ztake_ztake by lia. by rewrite zdrop_zdrop by lia.
Qed.
Lemma zslice_0 off l : zslice off 0 l = [].
Proof. done. Qed.
Lemma zslice_full l : zslice 0 (zlen l) l = l.
Proof. unfold zslice. rewrite zdrop_0. by apply ztake_ge. Qed.

Lemma zslice_zput_same off bs l :
  0 ≤ off → off + zlen bs ≤ zlen l → zslice off (zlen bs) (zput off bs l) = bs.
Proof.
  intros. pose proof (zlen_nonneg bs). unfold zslice, zput.
  rewrite zdrop_app_ge by (rewrite zlen_ztake; lia).
  rewrite zlen_ztake by lia. rewrite Z.sub_diag, zdrop_0.
  rewrite ztake_app_le by lia. by apply ztake_ge.
Qed.

Lemma zslice_zput_before off bs l o n :
  0 ≤ o → 0 ≤ n → o + n ≤ off → off + zlen bs ≤ zlen l →
  zslice o n (zput off bs l) = zslice o n l.
Proof.
  intros. pose proof (zlen_nonneg bs). unfold zslice, zput.
  rewrite zdrop_app_le by (rewrite zlen_ztake; lia).
  rewrite ztake_app_le by (rewrite zlen_zdrop; rewrite zlen_ztake; lia).
  rewrite zdrop_ztake by lia. rewrite ztake_ztake by lia. done.
Qed.

Lemma zslice_zput_after off bs l o n :
  0 ≤ off → 0 ≤ n → off + zlen bs ≤ o → off + zlen bs ≤ zlen l →
  zslice o n (zput off bs l) = zslice o n l.
Proof.
  intros. pose proof (zlen_nonneg bs). unfold zslice, zput.
  rewrite zdrop_app_ge by (rewrite zlen_ztake; lia). rewrite zlen_ztake by lia.
  rewrite zdrop_app_ge by lia. rewrite zdrop_zdrop by lia.
  do 2 f_equal. lia.
Qed.

Lemma ztake_add a b l : 0 ≤ a → 0 ≤ b → ztake (a + b) l = ztake a l ++ ztake b (zdrop a l).
Proof. intros Ha Hb. pose proof (zslice_split 0 a b l) as E. unfold zslice in E. rewrite zdrop_0, Z.add_0_l in E. by apply E. Qed.

Lemma zput_nil off l : 0 ≤ off → zput off [] l = l.
Proof.
  intros. unfold zput. rewrite zlen_nil, Z.add_0_r. simpl. apply ztake_zdrop.
Qed.

(** A store inside the first or the second part, and two stores in a row. *)
Lemma zput_app_l off bs l k : 0 ≤ off → off + zlen bs ≤ zlen l → zput off bs (l ++ k) = zput off bs l ++ k.
Proof.
  intros. pose proof (zlen_nonneg bs). unfold zput. rewrite ztake_app_le by lia. rewrite zdrop_app_le by lia.
  by rewrite <- !app_assoc.
Qed.

Lemma zput_app_r off bs l k : zlen l ≤ off → zput off bs (l ++ k) = l ++ zput (off - zlen l) bs k.
Proof.
  intros. pose proof (zlen_nonneg bs). unfold zput. rewrite ztake_app_ge by lia. rewrite zdrop_app_ge by lia.
  rewrite <- app_assoc. f_equal. f_equal. f_equal. f_equal. lia.
Qed.

Lemma zput_concat off b1 b2 l :
  0 ≤ off → off + zlen b1 + zlen b2 ≤ zlen l → zput (off + zlen b1) b2 (zput off b1 l) = zput off (b1 ++ b2) l.
Proof.
  intros. pose proof (zlen_nonneg b1). pose proof (zlen_nonneg b2). unfold zput at 2.
  assert (zlen (ztake off l) = off) as E by (rewrite zlen_ztake; lia).
  rewrite zput_app_r by lia. rewrite E. rewrite zput_app_r by lia.
  replace (off + zlen b1 - off - zlen b1) with 0 by lia. unfold zput. rewrite ztake_0, zlen_app, <- app_assoc. simpl.
  rewrite zdrop_zdrop by lia. do 4 f_equal. lia.
Qed.

Lemma zslice_zput_inner off n o bs (b : list A) :
  0 ≤ off → 0 ≤ o → o + zlen bs ≤ n → off + n ≤ zlen b →
  zslice off n (zput (off + o) bs b) = zput o bs (zslice off n b).
Proof.
  intros. pose proof (zlen_nonneg bs). unfold zslice, zput.
  rewrite zdrop_app_le by (rewrite zlen_ztake; lia). rewrite zdrop_ztake by lia.
  replace (off + o - off) with o by lia.
  rewrite ztake_app_ge by (rewrite zlen_ztake; rewrite ?zlen_zdrop; lia).
  rewrite zlen_ztake by (rewrite zlen_zdrop; lia).
  rewrite (ztake_app_ge _ bs) by lia. rewrite ztake_ztake by lia. f_equal. f_equal.
  rewrite zdrop_ztake by lia. rewrite zdrop_zdrop by lia. f_equal; [lia|]. f_equal. lia.
Qed.

Lemma zput_zput off b1 b2 (l : list A) :
  0 ≤ off → zlen b1 = zlen b2 → off + zlen b1 ≤ zlen l → zput off b2 (zput off b1 l) = zput off b2 l.
Proof.
  intros Ho El Hl. pose proof (zlen_nonneg b1). unfold zput at 1 3. f_equal; [|f_equal].
  - unfold zput. rewrite ztake_app_le by (rewrite zlen_ztake; lia). by rewrite ztake_ztake by lia.
  - unfold zput. rewrite zdrop_app_ge by (rewrite zlen_ztake; lia). rewrite zlen_ztake by lia.
    rewrite zdrop_app_ge by lia. rewrite <- El. replace (off + zlen b1 - off - zlen b1) with 0 by lia.
    by rewrite zdrop_0.
Qed.
End zlist.

Lemma zsum_cons x l : zsum (x :: l) = x + zsum l.
Proof. done. Qed.
Lemma zsum_app l k : zsum (l ++ k) = zsum l + zsum k.
Proof. induction l; simpl; lia. Qed.
Lemma zsum_nonneg l : Forall (λ x, 0 ≤ x) l → 0 ≤ zsum l.
Proof. induction 1; simpl; lia. Qed.

(** ** The state monad of the models

    A C function is a function from the state of its component to [None] or a
    result with the new state. [None] is the behaviour the source excludes: a
    failed [assert], a dereference of NULL or of a freed block, a loop that
    runs out of its fuel. Error codes are ordinary results. *)

Definition M (S A : Type) : Type := S → option (A * S).

Definition ret {S A} (a : A) : M S A := λ s, Some (a, s).
Definition bind {S A B} (m : M S A) (k : A → M S B) : M S B := λ s,
  match m s with
  | Some (a, s') => k a s'
  | None => None
  end.

Notation "x ← y ; z" := (bind y (λ x, z))
  (at level 20, y at level 100, z at level 200, only parsing) : haka_scope.
Notation "' x ← y ; z" := (bind y (λ x : _, z))
  (at level 20, x pattern, y at level 100, z at level 200, only parsing) : haka_scope.
Notation "y ;; z" := (bind y (λ _, z))
  (at level 100, z at level 200, right associativity) : haka_scope.

Definition stuck {S A} : M S A := λ _, None.
Definition skip {S} : M S unit := ret tt.
Definition gets {S A} (f : S → A) : M S A := λ s, Some (f s, s).
Definition modify {S} (f : S → S) : M S unit := λ s, Some (tt, f s).
Definition c_assert {S} (b : bool) : M S unit := if b then ret tt else stuck.

(** Dereference: the value if there is one. *)
Definition deref {S A} (o : option A) : M S A :=
  match o with Some a => ret a | None => stuck end.

(** Run a computation on one field of a larger state. *)
Definition zoom {S T A} (get : S → T) (set : T → S → S) (m : M T A) : M S A :=
  λ s, match m (get s) with
       | Some (a, t) => Some (a, set t s)
       | None => None
       end.

Definition is_null {A} (o : option A) : bool := match o with Some _ => false | None => true end.

(** [runs m s Q]: [m] started in [s] returns, with a result and a final state
    that satisfy [Q]. It is total correctness: [None] never satisfies it. *)
Definition runs {S A} (m : M S A) (s : S) (Q : A → S → Prop) : Prop :=
  ∃ a s', m s = Some (a, s') ∧ Q a s'.

Section runs.
Context {S : Type}.
Implicit Types s : S.

Lemma runs_ret {A} (a : A) s (Q : A → S → Prop) : Q a s → runs (ret a) s Q.
Proof. intros. by exists a, s. Qed.

Lemma runs_bind {A B} (m : M S A) (k : A → M S B) s Q :
  runs m s (λ a s', runs (k a) s' Q) → runs (bind m k) s Q.
Proof.
  intros (a & s' & Hm & b & s'' & Hk & HQ). exists b, s''. split; [|done].
  unfold bind. by rewrite Hm.
Qed.

Lemma runs_mono {A} (m : M S A) s (P Q : A → S → Prop) :
  runs m s P → (∀ a s', P a s' → Q a s') → runs m s Q.
Proof. intros (a & s' & Hm & HP) HPQ. exists a, s'. auto. Qed.

Lemma runs_seq {A B} (m : M S A) (k : A → M S B) s P Q :
  runs m s P → (∀ a s', P a s' → runs (k a) s' Q) → runs (bind m k) s Q.
Proof. intros Hm HP. apply runs_bind. by eapply runs_mono. Qed.

Lemma runs_assoc {A B C} (m : M S A) (k : A → M S B) (h : B → M S C) s Q :
  runs (bind (bind m k) h) s Q → runs (bind m (λ a, bind (k a) h)) s Q.
Proof. unfold runs, bind. by destruct (m s) as [[a s']|]. Qed.

Lemma runs_gets {A} (f : S → A) s (Q : A → S → Prop) : Q (f s) s → runs (gets f) s Q.
Proof. intros. by exists (f s), s. Qed.

Lemma runs_modify (f : S → S) s (Q : unit → S → Prop) : Q tt (f s) → runs (modify f) s Q.
Proof. intros. by exists tt, (f s). Qed.

Lemma runs_assert b s (Q : unit → S → Prop) :
  b = true → Q tt s → runs (c_assert b) s Q.
Proof. intros -> ?. by exists tt, s. Qed.

Lemma runs_deref {A} (o : option A) a s (Q : A → S → Prop) :
  o = Some a → Q a s → runs (deref o) s Q.
Proof. intros -> ?. by exists a, s. Qed.

Lemma runs_zoom {T A} (get : S → T) set (m : M T A) s Q :
  runs m (get s) (λ a t, Q a (set t s)) → runs (zoom get set m) s Q.
Proof. intros (a & t & Hm & HQ). exists a, (set t s). unfold zoom. by rewrite Hm. Qed.

(** A computation that is known to return. *)
Lemma runs_eq {A} (m : M S A) s a s' Q : m s = Some (a, s') → Q a s' → runs m s Q.
Proof. intros. by exists a, s'. Qed.

Lemma runs_det {A} (m : M S A) s a s' Q : runs m s Q → m s = Some (a, s') → Q a s'.
Proof. intros (a' & s'' & Hm & HQ) E. by simplify_eq. Qed.
End runs.

(** [step] takes the next primitive action of a [runs] goal. *)
Ltac step :=
  lazymatch goal with
  | |- runs (bind _ _) _ _ => apply runs_bind; step
  | |- runs (ret _) _ _ => apply runs_ret
  | |- runs (gets _) _ _ => apply runs_gets
  | |- runs (modify _) _ _ => apply runs_modify
  | |- runs (c_assert _) _ _ => apply runs_assert; [try done|]
  | |- runs (deref _) _ _ => eapply runs_deref; [try done|]
  | |- runs (zoom _ _ _) _ _ => apply runs_zoom
  | |- _ => idtac
  end; cbv beta.

(** [call H] runs the next call of a sequence with a specification in
    continuation style, [post H] with one that states a postcondition. *)
Tactic Notation "call" uconstr(H) := apply runs_bind; eapply H.
Tactic Notation "post" uconstr(H) := eapply runs_seq; [eapply H|cbv beta].

(** Case analysis on the first test of the goal, leaving the hypotheses alone. *)
Tactic Notation "case_test" "as" ident(H) :=
  match goal with |- context [bool_decide ?P] => destruct (bool_decide_reflect P) as [H|H] end.
