(* ===== verification/Types.v ===== *)
(** * Byte order, bit fields, packets (include/haka/types.h, container/bitfield.h, packet.h,
    capture_module.h)

    The macros on the integers of the headers, on a little-endian machine, and the verdicts
    and states of packets. *)

From S2P Require Import Prelude.

(** ** Packets (include/haka/packet.h, capture_module.h) *)

(** The verdict of the filters. *)
Inductive filter_result := FILTER_ACCEPT | FILTER_DROP.

Inductive packet_status := STATUS_NORMAL | STATUS_FORGED | STATUS_SENT.

#[export] Instance filter_result_eq_dec : EqDecision filter_result.
Proof. solve_decision. Defined.
#[export] Instance packet_status_eq_dec : EqDecision packet_status.
Proof. solve_decision. Defined.

(** ** Byte order *)

Definition bswap_16 (x : Z) : Z :=
  Z.lor (Z.shiftl (Z.land x 255) 8) (Z.land (Z.shiftr x 8) 255).
Definition bswap_32 (x : Z) : Z :=
  Z.lor (Z.shiftl (bswap_16 (Z.land x 65535)) 16) (bswap_16 (Z.land (Z.shiftr x 16) 65535)).
Definition bswap_64 (x : Z) : Z :=
  Z.lor (Z.shiftl (bswap_32 (Z.land x (2 ^ 32 - 1))) 32) (bswap_32 (Z.land (Z.shiftr x 32) (2 ^ 32 - 1))).

Definition SWAP (bytes x : Z) : Z :=
  match bytes with 2 => bswap_16 x | 4 => bswap_32 x | 8 => bswap_64 x | _ => x end.
Definition SWAP_TO_BE (bytes x : Z) : Z := SWAP bytes x.
Definition SWAP_FROM_BE (bytes x : Z) : Z := SWAP bytes x.

(** ** Bits *)

Definition GET_BIT (v i : Z) : bool := negb (bool_decide (Z.land v (Z.shiftl 1 i) = 0)).
Definition SET_BIT (v i : Z) (x : bool) : Z :=
  if x then Z.lor v (Z.shiftl 1 i) else Z.land v (Z.lnot (Z.shiftl 1 i)).
Definition GET_BITS_MASK (i j : Z) : Z := Z.shiftl (Z.shiftl 1 (j - i) - 1) i.
Definition GET_BITS (v i j : Z) : Z := Z.shiftr (Z.land v (GET_BITS_MASK i j)) i.
Definition SET_BITS (v i j x : Z) : Z :=
  Z.lor (Z.land v (Z.lnot (GET_BITS_MASK i j))) (Z.land (Z.shiftl x i) (GET_BITS_MASK i j)).

(** ** Bit sets (container/bitfield.h) *)

Record bitfield := Bitfield { bf_size : Z; bf_data : list Z }.

Definition BITFIELD_STATIC_INIT (size : Z) : bitfield :=
  Bitfield size (replicate (Z.to_nat ((size + 31) / 32)) 0).

(** The words are [int32]; the mask is a [long] of 64 bits. The [int] offset is
    compared as a [size_t]: a negative one is above every size. *)
Definition bitfield_get (off : Z) : M bitfield bool :=
  bf ← gets id;
  c_assert (bool_decide (0 ≤ off < bf_size bf));;
  w ← deref (bf_data bf !! Z.to_nat (Z.shiftr off 5));
  ret (negb (bool_decide (Z.land w (Z.shiftl 1 (Z.land off 31)) = 0))).

Definition bitfield_set (off : Z) (val : bool) : M bitfield unit :=
  bf ← gets id;
  c_assert (bool_decide (0 ≤ off < bf_size bf));;
  w ← deref (bf_data bf !! Z.to_nat (Z.shiftr off 5));
  let mask := Z.land off 31 in
  let w := s32 (Z.lor (Z.land w (Z.lnot (Z.shiftl 1 mask))) (Z.shiftl (if val then 1 else 0) mask)) in
  modify (λ bf, Bitfield (bf_size bf) (<[Z.to_nat (Z.shiftr off 5) := w]> (bf_data bf))).

(** ** Bits one by one *)

Section bits.
Lemma mask_bit i j n : 0 ≤ i ≤ j → 0 ≤ n → Z.testbit (GET_BITS_MASK i j) n = bool_decide (i ≤ n < j).
Proof.
  intros Hij Hn. unfold GET_BITS_MASK. rewrite Z.shiftl_spec by lia.
  replace (Z.shiftl 1 (j - i) - 1) with (Z.ones (j - i)).
  2:{ rewrite Z.ones_equiv, Z.shiftl_1_l. lia. }
  destruct (decide (i ≤ n)) as [H|H].
  - destruct (decide (n < j)) as [H'|H'].
    + rewrite Z.ones_spec_low, bool_decide_true by lia. done.
    + rewrite Z.ones_spec_high, bool_decide_false by lia. done.
  - rewrite Z.testbit_neg_r, bool_decide_false by lia. done.
Qed.

Lemma one_bit i n : 0 ≤ i → 0 ≤ n → Z.testbit (Z.shiftl 1 i) n = bool_decide (n = i).
Proof.
  intros Hi Hn. rewrite Z.shiftl_1_l. destruct (decide (n = i)) as [->|Hne].
  - rewrite Z.pow2_bits_true, bool_decide_true by done. done.
  - rewrite Z.pow2_bits_false, bool_decide_false by done. done.
Qed.

Lemma get_bit_testbit v i : 0 ≤ i → GET_BIT v i = Z.testbit v i.
Proof.
  intros Hi. unfold GET_BIT. destruct (Z.testbit v i) eqn:E.
  - rewrite bool_decide_false; [done|]. intros H.
    assert (Z.testbit (Z.land v (Z.shiftl 1 i)) i = false) as Hf by (rewrite H; apply Z.bits_0).
    rewrite Z.land_spec, E, one_bit, bool_decide_true in Hf by done. done.
  - rewrite bool_decide_true; [done|]. apply Z.bits_inj_0. intros n.
    destruct (decide (0 ≤ n)) as [Hn|Hn]; [|by apply Z.testbit_neg_r; lia].
    rewrite Z.land_spec, one_bit by done. case_bool_decide; subst; [by rewrite E|by rewrite andb_false_r].
Qed.

Lemma set_bit_testbit v i x n : 0 ≤ i → 0 ≤ n →
  Z.testbit (SET_BIT v i x) n = if bool_decide (n = i) then x else Z.testbit v n.
Proof.
  intros Hi Hn. unfold SET_BIT. destruct x.
  - rewrite Z.lor_spec, one_bit by done. case_bool_decide; [by rewrite orb_true_r|by rewrite orb_false_r].
  - rewrite Z.land_spec, Z.lnot_spec, one_bit by done.
    case_bool_decide; [by rewrite andb_false_r|by rewrite andb_true_r].
Qed.

Lemma get_bits_testbit v i j n : 0 ≤ i ≤ j → 0 ≤ n →
  Z.testbit (GET_BITS v i j) n = Z.testbit v (n + i) && bool_decide (n < j - i).
Proof.
  intros Hij Hn. unfold GET_BITS. rewrite Z.shiftr_spec, Z.land_spec, mask_bit by lia.
  f_equal. apply bool_decide_ext. lia.
Qed.

Lemma set_bits_testbit v i j x n : 0 ≤ i ≤ j → 0 ≤ n →
  Z.testbit (SET_BITS v i j x) n =
    if bool_decide (i ≤ n < j) then Z.testbit x (n - i) else Z.testbit v n.
Proof.
  intros Hij Hn. unfold SET_BITS.
  rewrite Z.lor_spec, !Z.land_spec, Z.lnot_spec, Z.shiftl_spec, mask_bit by lia.
  case_bool_decide; [by rewrite andb_false_r, andb_true_r|by rewrite andb_true_r, andb_false_r, orb_false_r].
Qed.
End bits.

(** ** Byte strings of integers

    The bytes of an integer in memory, low byte first. *)

Fixpoint le_bytes (n : nat) (x : Z) : list Z :=
  match n with
  | O => []
  | S n => u8 x :: le_bytes n (Z.shiftr x 8)
  end.

Fixpoint le_value (l : list Z) : Z :=
  match l with
  | [] => 0
  | b :: l => b + 256 * le_value l
  end.

Section bytes.
Lemma shiftr8 x : Z.shiftr x 8 = x / 256.
Proof. by rewrite Z.shiftr_div_pow2. Qed.

Lemma le_bytes_length n x : length (le_bytes n x) = n.
Proof. revert x. induction n as [|n IH]; intros x; simpl; [done|by rewrite IH]. Qed.

Lemma le_bytes_app n m x :
  le_bytes (n + m) x = le_bytes n x ++ le_bytes m (x / 2 ^ (8 * Z.of_nat n)).
Proof.
  revert x. induction n as [|n IH]; intros x; simpl le_bytes.
  - simpl. by rewrite Z.div_1_r.
  - simpl app. pose proof (Z.pow_pos_nonneg 2 (8 * Z.of_nat n)). rewrite IH, shiftr8, Z.div_div by lia. repeat f_equal.
    change 256 with (2 ^ 8). rewrite <- Z.pow_add_r by lia. f_equal. lia.
Qed.

Lemma le_bytes_mod n x : le_bytes n (x `mod` 2 ^ (8 * Z.of_nat n)) = le_bytes n x.
Proof.
  revert x. induction n as [|n IH]; intros x; simpl le_bytes; [done|].
  assert (2 ^ (8 * Z.of_nat (S n)) = 256 * 2 ^ (8 * Z.of_nat n)) as ->.
  { change 256 with (2 ^ 8). rewrite <- Z.pow_add_r by lia. f_equal. lia. }
  pose proof (Z.pow_pos_nonneg 2 (8 * Z.of_nat n)). rewrite !shiftr8, Z.rem_mul_r by lia. f_equal.
  - unfold u8, wrap. change (2 ^ 8) with 256.
    replace (x `mod` 256 + 256 * _) with (x `mod` 256 + (x / 256) `mod` 2 ^ (8 * Z.of_nat n) * 256) by lia.
    rewrite Z.mod_add by lia. apply Z.mod_mod. lia.
  - rewrite (Z.mul_comm 256 (_ `mod` _)), Z.div_add by lia.
    rewrite (Z.div_small (x `mod` 256)) by (apply Z.mod_pos_bound; lia). apply IH.
Qed.

Lemma le_value_bytes n x : 0 ≤ x < 2 ^ (8 * Z.of_nat n) → le_value (le_bytes n x) = x.
Proof.
  revert x. induction n as [|n IH]; intros x Hx; simpl le_bytes; simpl le_value.
  - change (2 ^ (8 * Z.of_nat 0)) with 1 in Hx. lia.
  - assert (2 ^ (8 * Z.of_nat (S n)) = 256 * 2 ^ (8 * Z.of_nat n)) as E.
    { change 256 with (2 ^ 8). rewrite <- Z.pow_add_r by lia. f_equal. lia. }
    rewrite shiftr8, IH.
    + unfold u8, wrap. change (2 ^ 8) with 256. pose proof (Z.div_mod x 256). lia.
    + split; [apply Z.div_pos; lia|apply Z.div_lt_upper_bound; lia].
Qed.

Lemma le_bytes_value l : Forall (λ b, 0 ≤ b < 256) l → le_bytes (length l) (le_value l) = l.
Proof.
  induction 1 as [|b l Hb Hl IH]; simpl; [done|]. rewrite shiftr8.
  rewrite (Z.mul_comm 256), Z.div_add, (Z.div_small b), Z.add_0_l, IH by lia. f_equal.
  unfold u8, wrap. change (2 ^ 8) with 256. rewrite Z.mod_add by lia. by apply Z.mod_small.
Qed.

Lemma le_value_range l : Forall (λ b, 0 ≤ b < 256) l → 0 ≤ le_value l < 2 ^ (8 * zlen l).
Proof.
  induction 1 as [|b l Hb Hl IH]; simpl; [done|]. rewrite zlen_cons. pose proof (zlen_nonneg l).
  replace (2 ^ (8 * (zlen l + 1))) with (256 * 2 ^ (8 * zlen l)); [lia|].
  change 256 with (2 ^ 8). rewrite <- Z.pow_add_r by lia. f_equal. lia.
Qed.
End bytes.

(** ** Swapping the halves of an integer

    [bswap_16], [bswap_32] and [bswap_64] exchange the halves of their argument
    and swap each half with [f]. *)

Section halves.
Context (n : nat) (f : Z → Z).
Let w := 8 * Z.of_nat n.
Let B := 2 ^ w.
Definition swap_halves (x : Z) : Z :=
  Z.lor (Z.shiftl (f (Z.land x (2 ^ (8 * Z.of_nat n) - 1))) (8 * Z.of_nat n))
    (f (Z.land (Z.shiftr x (8 * Z.of_nat n)) (2 ^ (8 * Z.of_nat n) - 1))).

Hypothesis f_range : ∀ y, 0 ≤ y < B → 0 ≤ f y < B.
#[local] Set Default Proof Using "f_range".

Lemma halves_sum x : swap_halves x = f ((x / B) `mod` B) + f (x `mod` B) * B.
Proof.
  assert (0 < B) by (apply Z.pow_pos_nonneg; unfold w; lia).
  assert (∀ y, Z.land y (2 ^ (8 * Z.of_nat n) - 1) = y `mod` B) as El.
  { intros y. replace (2 ^ (8 * Z.of_nat n) - 1) with (Z.ones w).
    - rewrite Z.land_ones by (unfold w; lia). done.
    - rewrite Z.ones_equiv. unfold w. lia. }
  unfold swap_halves. rewrite !El. fold w.
  pose proof (f_range (x `mod` B) ltac:(apply Z.mod_pos_bound; lia)).
  pose proof (f_range ((x / B) `mod` B) ltac:(apply Z.mod_pos_bound; lia)).
  rewrite Z.shiftr_div_pow2 by (unfold w; lia). fold B.
  rewrite Z.lor_comm.
  pose proof (Z.add_lor_land (f ((x / B) `mod` B)) (Z.shiftl (f (x `mod` B)) w)) as E.
  assert (Z.land (f ((x / B) `mod` B)) (Z.shiftl (f (x `mod` B)) w) = 0) as E0.
  - apply Z.bits_inj_0. intros k. rewrite Z.land_spec.
    destruct (decide (k < w)) as [Hk|Hk].
    + destruct (decide (0 ≤ k)); [|by rewrite Z.testbit_neg_r by lia].
      rewrite Z.shiftl_spec_low by lia. apply andb_false_r.
    + destruct (decide (f ((x / B) `mod` B) = 0)) as [->|Hn0]; [by rewrite Z.bits_0|].
      rewrite (Z.bits_above_log2 (f _)); [done|lia|].
      apply Z.log2_lt_pow2; [lia|]. eapply Z.lt_le_trans; [apply H1|].
      apply Z.pow_le_mono_r; lia.
  - rewrite E0, Z.add_0_r, Z.shiftl_mul_pow2 in E by (unfold w; lia).
    rewrite Z.shiftl_mul_pow2 by (unfold w; lia). fold B in E |- *. lia.
Qed.

Lemma halves_range x : 0 ≤ swap_halves x < 2 ^ (8 * Z.of_nat (n + n)).
Proof.
  assert (0 < B) by (apply Z.pow_pos_nonneg; unfold w; lia). rewrite halves_sum.
  replace (2 ^ (8 * Z.of_nat (n + n))) with (B * B).
  2:{ unfold B, w. rewrite <- Z.pow_add_r by lia. f_equal. lia. }
  pose proof (f_range (x `mod` B) ltac:(apply Z.mod_pos_bound; lia)).
  pose proof (f_range ((x / B) `mod` B) ltac:(apply Z.mod_pos_bound; lia)). nia.
Qed.

Lemma halves_bytes x :
  (∀ y, le_bytes n (f y) = rev (le_bytes n y)) →
  le_bytes (n + n) (swap_halves x) = rev (le_bytes (n + n) x).
Proof.
  intros Hf. assert (0 < B) by (apply Z.pow_pos_nonneg; unfold w; lia).
  pose proof (f_range (x `mod` B) ltac:(apply Z.mod_pos_bound; lia)).
  pose proof (f_range ((x / B) `mod` B) ltac:(apply Z.mod_pos_bound; lia)).
  rewrite !le_bytes_app, rev_app_distr. fold w B. rewrite halves_sum.
  rewrite Z.div_add, (Z.div_small (f _)), Z.add_0_l, Hf by lia. f_equal.
  - rewrite <- le_bytes_mod. fold w B. rewrite Z.mod_add, Z.mod_small, Hf by lia.
    f_equal. apply le_bytes_mod.
  - f_equal. apply le_bytes_mod.
Qed.
End halves.

Section swap.
Lemma bswap_16_halves x : bswap_16 x = swap_halves 1 id x.
Proof. done. Qed.
Lemma bswap_32_halves x : bswap_32 x = swap_halves 2 bswap_16 x.
Proof. done. Qed.
Lemma bswap_64_halves x : bswap_64 x = swap_halves 4 bswap_32 x.
Proof. done. Qed.

Lemma bswap_16_range x : 0 ≤ bswap_16 x < 2 ^ 16.
Proof. rewrite bswap_16_halves. by apply (halves_range 1). Qed.
Lemma bswap_32_range x : 0 ≤ bswap_32 x < 2 ^ 32.
Proof. rewrite bswap_32_halves. apply (halves_range 2). intros. apply bswap_16_range. Qed.
Lemma bswap_64_range x : 0 ≤ bswap_64 x < 2 ^ 64.
Proof. rewrite bswap_64_halves. apply (halves_range 4). intros. apply bswap_32_range. Qed.

Lemma bswap_16_bytes x : le_bytes 2 (bswap_16 x) = rev (le_bytes 2 x).
Proof. rewrite bswap_16_halves. by apply (halves_bytes 1). Qed.
Lemma bswap_32_bytes x : le_bytes 4 (bswap_32 x) = rev (le_bytes 4 x).
Proof.
  rewrite bswap_32_halves. apply (halves_bytes 2); [|apply bswap_16_bytes].
  intros. apply bswap_16_range.
Qed.
Lemma bswap_64_bytes x : le_bytes 8 (bswap_64 x) = rev (le_bytes 8 x).
Proof.
  rewrite bswap_64_halves. apply (halves_bytes 4); [|apply bswap_32_bytes].
  intros. apply bswap_32_range.
Qed.

(** The widths of the integer types. *)
Definition width_ok (bytes : Z) : Prop := bytes ∈ [1; 2; 4; 8].

Lemma swap_bytes bytes x : width_ok bytes →
  le_bytes (Z.to_nat bytes) (SWAP bytes x) = rev (le_bytes (Z.to_nat bytes) x).
Proof.
  unfold width_ok. rewrite !elem_of_cons. intros [->|[->|[->|[->|H]]]]; [done|..|inversion H].
  - apply bswap_16_bytes.
  - apply bswap_32_bytes.
  - apply bswap_64_bytes.
Qed.

Lemma swap_range bytes x : width_ok bytes → 0 ≤ x < 2 ^ (8 * bytes) → 0 ≤ SWAP bytes x < 2 ^ (8 * bytes).
Proof.
  unfold width_ok. rewrite !elem_of_cons. intros [->|[->|[->|[->|H]]]] Hx; [done|..|inversion H].
  - apply bswap_16_range.
  - apply bswap_32_range.
  - apply bswap_64_range.
Qed.

Lemma swap_swap bytes x : width_ok bytes → 0 ≤ x < 2 ^ (8 * bytes) → SWAP bytes (SWAP bytes x) = x.
Proof.
  intros Hw Hx. assert (0 ≤ bytes).
  { unfold width_ok in Hw. rewrite !elem_of_cons in Hw. destruct Hw as [->|[->|[->|[->|H]]]]; [lia..|inversion H]. }
  rewrite <- (le_value_bytes (Z.to_nat bytes) (SWAP bytes (SWAP bytes x))), !swap_bytes, rev_involutive by
    (try done; rewrite Z2Nat.id by done; by apply swap_range, swap_range).
  apply le_value_bytes. by rewrite Z2Nat.id.
Qed.
End swap.

(** Byte order: a swap reverses the bytes an integer has in memory, and the
    conversions to and from the network byte order are inverse to each other on
    every integer type. *)
Theorem swap_correct bytes x :
  width_ok bytes → 0 ≤ x < 2 ^ (8 * bytes) →
  le_bytes (Z.to_nat bytes) (SWAP_TO_BE bytes x) = rev (le_bytes (Z.to_nat bytes) x) ∧
  SWAP_FROM_BE bytes (SWAP_TO_BE bytes x) = x ∧
  0 ≤ SWAP_TO_BE bytes x < 2 ^ (8 * bytes).
Proof. intros. split_and!; [by apply swap_bytes|by apply swap_swap|by apply swap_range..]. Qed.

Lemma swap_correct_witness :
  SWAP_TO_BE 4 305419896 = 2018915346 ∧ le_bytes 4 305419896 = [120; 86; 52; 18] ∧
  SWAP_FROM_BE 4 (SWAP_TO_BE 4 305419896) = 305419896.
Proof.
  split_and!; [done..|]. apply (swap_correct 4 305419896); [|done].
  unfold width_ok. set_solver.
Defined.

(** Bit ranges: [SET_BITS] stores the low bits of its argument in the range
    [i, j), [GET_BITS] reads them back, and every bit outside the range keeps its
    value; a single bit behaves the same way. *)
Theorem bits_correct v i j x b n :
  0 ≤ i ≤ j → 0 ≤ n →
  GET_BITS (SET_BITS v i j x) i j = x `mod` 2 ^ (j - i) ∧
  (n < i ∨ j ≤ n → Z.testbit (SET_BITS v i j x) n = Z.testbit v n) ∧
  GET_BIT (SET_BIT v i b) n = (if bool_decide (n = i) then b else GET_BIT v n).
Proof.
  intros Hij Hn. split_and!.
  - apply Z.bits_inj'. intros k Hk.
    rewrite get_bits_testbit, set_bits_testbit, Z.testbit_mod_pow2 by lia.
    destruct (decide (k < j - i)) as [E|E].
    + rewrite !bool_decide_true, andb_true_r, (proj2 (Z.ltb_lt _ _)) by lia. simpl. f_equal. lia.
    + rewrite !bool_decide_false, andb_false_r, (proj2 (Z.ltb_ge _ _)) by lia. done.
  - intros Ho. rewrite set_bits_testbit, bool_decide_false by lia. done.
  - rewrite !get_bit_testbit, set_bit_testbit by lia. done.
Qed.

Lemma bits_correct_witness :
  GET_BITS (SET_BITS 65535 0 13 5) 0 13 = 5 ∧ GET_BIT (SET_BIT 0 0 true) 13 = GET_BIT 0 13.
Proof.
  destruct (bits_correct 65535 0 13 5 true 13) as [H1 _]; [lia|lia|].
  destruct (bits_correct 0 0 13 5 true 13) as (_ & _ & H3); [lia|lia|].
  split; [exact H1|exact H3].
Defined.

(** *** Bit sets *)

Section bitfield.
Definition bf_ok (bf : bitfield) : Prop :=
  zlen (bf_data bf) = (bf_size bf + 31) / 32 ∧ 0 ≤ bf_size bf.

Definition bf_mem (bf : bitfield) (off : Z) : bool :=
  match bf_data bf !! Z.to_nat (Z.shiftr off 5) with
  | Some w => Z.testbit w (Z.land off 31)
  | None => false
  end.

Lemma land31 off : Z.land off 31 = off `mod` 32.
Proof. change 31 with (Z.ones 5). by rewrite Z.land_ones. Qed.
Lemma shr5 off : Z.shiftr off 5 = off / 32.
Proof. by rewrite Z.shiftr_div_pow2. Qed.

Lemma bf_word bf off : bf_ok bf → 0 ≤ off < bf_size bf →
  ∃ w, bf_data bf !! Z.to_nat (Z.shiftr off 5) = Some w.
Proof.
  intros [Hl Hs] Ho. apply lookup_lt_is_Some. rewrite shr5. unfold zlen in Hl.
  pose proof (Z.div_mod off 32). pose proof (Z.mod_pos_bound off 32).
  pose proof (Z.div_mod (bf_size bf + 31) 32). pose proof (Z.mod_pos_bound (bf_size bf + 31) 32).
  pose proof (Z.div_pos off 32). lia.
Qed.

Lemma s32_testbit x n : 0 ≤ n < 32 → Z.testbit (s32 x) n = Z.testbit x n.
Proof.
  intros Hn. rewrite <- (Z.mod_pow2_bits_low (s32 x) 32 n), <- (Z.mod_pow2_bits_low x 32 n) by lia. f_equal.
  unfold s32, swrap. rewrite Zminus_mod_idemp_l. f_equal. lia.
Qed.

Lemma get_mask w n : 0 ≤ n → negb (bool_decide (Z.land w (Z.shiftl 1 n) = 0)) = Z.testbit w n.
Proof. apply get_bit_testbit. Qed.
End bitfield.

(** Reading and setting a flag, on the set of offsets [bf_mem]. *)
Lemma runs_bitfield_get bf off (Q : bool → bitfield → Prop) :
  bf_ok bf → 0 ≤ off < bf_size bf → Q (bf_mem bf off) bf → runs (bitfield_get off) bf Q.
Proof.
  intros Hok Ho HQ. destruct (bf_word bf off Hok Ho) as [w Hw]. unfold bitfield_get. step.
  step; [by apply bool_decide_true|]. step. step. unfold bf_mem in HQ. rewrite Hw in HQ.
  rewrite get_mask; [done|]. rewrite land31. apply Z.mod_pos_bound. lia.
Qed.

Record bf_updated (off : Z) (val : bool) (bf bf' : bitfield) : Prop := {
  bu_ok : bf_ok bf';
  bu_size : bf_size bf' = bf_size bf;
  bu_mem : ∀ o, 0 ≤ o < bf_size bf → bf_mem bf' o = if bool_decide (o = off) then val else bf_mem bf o;
}.

Lemma runs_bitfield_set bf off val (Q : unit → bitfield → Prop) :
  bf_ok bf → 0 ≤ off < bf_size bf → (∀ bf', bf_updated off val bf bf' → Q tt bf') →
  runs (bitfield_set off val) bf Q.
Proof.
  intros Hok Ho HQ. destruct (bf_word bf off Hok Ho) as [w Hw].
  unfold bitfield_set. step. step; [by apply bool_decide_true|]. step. step. apply HQ. clear HQ.
  set (w' := s32 _). pose proof Hok as [Hl Hs]. set (bf' := Bitfield _ _).
  assert (bf_ok bf') as Hok'. { split; simpl; [|done]. unfold zlen. by rewrite length_insert. }
  split; [done|done|]. intros o Hoo. destruct (bf_word bf' o Hok' Hoo) as [v Hv]. unfold bf_mem at 1. rewrite Hv.
  pose proof (Z.mod_pos_bound o 32 ltac:(lia)). pose proof (Z.mod_pos_bound off 32 ltac:(lia)).
  assert (∀ n, 0 ≤ n < 32 → Z.testbit w' n = if bool_decide (n = off `mod` 32) then val else Z.testbit w n) as Hw'.
  { intros n Hn. unfold w'. rewrite s32_testbit by done. rewrite land31.
    rewrite Z.lor_spec, Z.land_spec, Z.lnot_spec, one_bit by lia.
    assert (Z.testbit (Z.shiftl (if val then 1 else 0) (off `mod` 32)) n = val && bool_decide (n = off `mod` 32)) as ->.
    { destruct val; [by apply one_bit; lia|]. rewrite Z.shiftl_0_l. apply Z.bits_0. }
    case_bool_decide; simpl; [by rewrite andb_false_r, andb_true_r|by rewrite andb_true_r, andb_false_r, orb_false_r]. }
  simpl in Hv. unfold bf_mem. rewrite land31. destruct (decide (o / 32 = off / 32)) as [E|E].
  - rewrite !shr5, E in *. rewrite list_lookup_insert_eq in Hv by (by eapply lookup_lt_Some).
    simplify_eq. rewrite Hw, Hw' by done. destruct (decide (o = off)) as [->|Hne].
    + by rewrite !bool_decide_true.
    + rewrite !bool_decide_false; [done|done|]. intros Em. apply Hne.
      rewrite (Z.div_mod o 32), (Z.div_mod off 32), E, Em by lia. done.
  - rewrite !shr5 in *. rewrite list_lookup_insert_ne in Hv.
    2:{ pose proof (Z.div_pos o 32). pose proof (Z.div_pos off 32). lia. }
    rewrite Hv, bool_decide_false; [done|]. by intros ->.
Qed.

Lemma bf_init_ok n : 0 ≤ n → bf_ok (BITFIELD_STATIC_INIT n).
Proof.
  intros Hn. split; simpl; [|done]. unfold zlen. rewrite length_replicate.
  pose proof (Z.div_pos (n + 31) 32). lia.
Qed.

Lemma bf_init_mem n off : bf_mem (BITFIELD_STATIC_INIT n) off = false.
Proof.
  unfold bf_mem. simpl. destruct (_ !! _) as [w|] eqn:E; [|done]. apply lookup_replicate in E as [-> _]. apply Z.bits_0.
Qed.

(** Bit sets: on a bit set of any size, setting a flag changes that flag only,
    and reading gives the value that was set last; both return for every offset
    below the size. *)
Theorem bitfield_set_get bf off val :
  bf_ok bf → 0 ≤ off < bf_size bf →
  runs (bitfield_set off val) bf (λ _ bf', bf_ok bf' ∧ bf_size bf' = bf_size bf ∧
    ∀ o, 0 ≤ o < bf_size bf →
      runs (bitfield_get o) bf' (λ r bf'', bf'' = bf' ∧
        r = (if bool_decide (o = off) then val else bf_mem bf o))).
Proof.
  intros Hok Ho. apply runs_bitfield_set; [done..|]. intros bf' [Hok' Hs Hm]. split_and!; [done..|].
  intros o Hoo. apply runs_bitfield_get; [done|by rewrite Hs|]. by rewrite Hm.
Qed.

Lemma bitfield_set_get_witness :
  runs (bitfield_set 40 true) (BITFIELD_STATIC_INIT 64) (λ _ bf',
    runs (bitfield_get 40) bf' (λ r _, r = true)).
Proof.
  eapply runs_mono; [apply (bitfield_set_get (BITFIELD_STATIC_INIT 64) 40 true)|].
  - split; [reflexivity|]. simpl. lia.
  - simpl. lia.
  - intros _ bf' (_ & Hs & H). eapply runs_mono; [apply H; simpl; lia|]. by intros r s [_ ->].
Defined.
