(* ===== verification/List2.v ===== *)
(** * The intrusive doubly linked list of include/haka/container/list2.h

    A [struct list2_elem] lives inside the structure it links; the heap maps
    the address of that structure to its link fields. A list is circular and
    goes through its head, an element like the others whose address is
    [list2_end]. The debug-build fields [is_end] and [is_elem] and the
    [CHECK_LIST] walks they serve are not part of a release build and are not
    modelled.

    The functions of list2.c are proved to implement operations on sequences
    of addresses: [dlist h hd xs] says that the heap [h] holds at [hd] a list
    with elements [xs], and each operation maps it to the [dlist] of the
    sequence it promises, leaving every other address of the heap as it was. *)

From S2P Require Import Prelude.

(** ** Data *)

Record list2_elem := Elem { prev : ptr; next : ptr }.

Abbreviation lmem := (gmap loc list2_elem).

#[export] Instance list2_elem_eq_dec : EqDecision list2_elem.
Proof. solve_decision. Defined.

(** ** Memory access *)

Definition rd_elem (l : loc) : M lmem list2_elem :=
  h ← gets (λ h : lmem, h !! l); deref h.

Definition set_next (l : loc) (v : ptr) : M lmem unit :=
  e ← rd_elem l; modify <[l := Elem (prev e) v]>.

Definition set_prev (l : loc) (v : ptr) : M lmem unit :=
  e ← rd_elem l; modify <[l := Elem v (next e)]>.

(** ** Operations *)

(** Writes the two fields of a block that exists. *)
Definition list2_elem_init (elem : loc) : M lmem unit :=
  modify <[elem := Elem None None]>.

Definition list2_elem_check (elem : loc) : M lmem bool :=
  e ← rd_elem elem; ret (negb (is_null (next e)) && negb (is_null (prev e))).

(** A list is designated by the address of its head, [list2_end]. *)
Definition list2_begin (list : loc) : M lmem ptr := e ← rd_elem list; ret (next e).
Definition list2_end (list : loc) : loc := list.
Definition list2_next (iter : loc) : M lmem ptr := e ← rd_elem iter; ret (next e).
Definition list2_prev (iter : loc) : M lmem ptr := e ← rd_elem iter; ret (prev e).

Definition list2_empty (list : loc) : M lmem bool :=
  b ← list2_begin list; ret (bool_decide (b = Some (list2_end list))).

Definition list2_init (list : loc) : M lmem unit :=
  modify <[list := Elem (Some list) (Some list)]>.

Definition list2_insert (iter elem : loc) : M lmem loc :=
  e ← rd_elem elem;
  c_assert (is_null (next e) && is_null (prev e));;
  set_next elem (Some iter);;
  ip ← list2_prev iter;
  set_prev elem ip;;
  ip ← list2_prev iter;
  p ← deref ip;
  set_next p (Some elem);;
  set_prev iter (Some elem);;
  ret elem.

Definition list2_insert_list (iter begin end_ : loc) : M lmem loc :=
  if bool_decide (begin = end_) then ret iter else
  last ← list2_prev end_;
  bp ← list2_prev begin;
  bpl ← deref bp;
  set_next bpl (Some end_);;
  bp ← list2_prev begin;
  set_prev end_ bp;;
  ip ← list2_prev iter;
  ipl ← deref ip;
  set_next ipl (Some begin);;
  ip ← list2_prev iter;
  set_prev begin ip;;
  lastl ← deref last;
  set_next lastl (Some iter);;
  set_prev iter last;;
  ret iter.

Definition list2_erase (list : loc) : M lmem ptr :=
  next_ ← list2_next list;
  n ← deref next_;
  p ← list2_prev list;
  set_prev n p;;
  p ← list2_prev list;
  pl ← deref p;
  n ← list2_next list;
  set_next pl n;;
  set_prev list None;;
  set_next list None;;
  ret next_.

Definition list2_swap (a b : loc) : M lmem unit :=
  a_empty ← list2_empty a;
  b_empty ← list2_empty b;
  _ ← (if a_empty then skip else
         an ← list2_next a; an ← deref an; set_prev an (Some b);;
         ap ← list2_prev a; ap ← deref ap; set_next ap (Some b));
  _ ← (if b_empty then skip else
         bn ← list2_next b; bn ← deref bn; set_prev bn (Some a);;
         bp ← list2_prev b; bp ← deref bp; set_next bp (Some a));
  tmp ← rd_elem b;
  _ ← (if a_empty then (set_prev b (Some b);; set_next b (Some b))
       else (ea ← rd_elem a; modify <[b := ea]>));
  (if b_empty then (set_prev a (Some a);; set_next a (Some a))
   else modify <[a := tmp]>).

(** ** The list a heap holds *)

Definition nxt (h : lmem) (x : loc) : ptr := h !! x ≫= next.
Definition prv (h : lmem) (x : loc) : ptr := h !! x ≫= prev.

Definition link (h : lmem) (a b : loc) : Prop := nxt h a = Some b ∧ prv h b = Some a.

Fixpoint chain (h : lmem) (l : list loc) : Prop :=
  match l with
  | a :: ((b :: _) as t) => link h a b ∧ chain h t
  | _ => True
  end.

Definition dlist (h : lmem) (hd : loc) (xs : list loc) : Prop :=
  NoDup (hd :: xs) ∧ chain h (hd :: xs ++ [hd]).

(** The element that follows the prefix [l1] in a list [l1 ++ l2]. *)
Definition at_head (hd : loc) (l2 : list loc) : loc :=
  match l2 with [] => hd | x :: _ => x end.
Definition at_last (hd : loc) (l1 : list loc) : loc := default hd (last l1).

(** Two heaps agree outside of [xs]. *)
Definition same_out (xs : list loc) (h h' : lmem) : Prop :=
  ∀ x, x ∉ xs → h' !! x = h !! x.

(** ** Chains *)

Section chain.
Implicit Types h : lmem.

Lemma chain_app h l a r : chain h (l ++ a :: r) ↔ chain h (l ++ [a]) ∧ chain h (a :: r).
Proof.
  induction l as [|x l IH]; [simpl; tauto|].
  destruct l as [|y l]; [simpl; tauto|].
  change (link h x y ∧ chain h ((y :: l) ++ a :: r) ↔
          (link h x y ∧ chain h ((y :: l) ++ [a])) ∧ chain h (a :: r)).
  rewrite IH. tauto.
Qed.

Lemma chain_cut h l a b r :
  chain h (l ++ a :: b :: r) ↔ chain h (l ++ [a]) ∧ link h a b ∧ chain h (b :: r).
Proof. rewrite chain_app. done. Qed.

(** A chain uses the [next] of all its elements but the last and the [prev]
    of all but the first. *)
Lemma chain_ext h h' l :
  (∀ x, x ∈ removelast l → nxt h' x = nxt h x) →
  (∀ x, x ∈ tail l → prv h' x = prv h x) →
  chain h l → chain h' l.
Proof.
  induction l as [|x l IH]; [done|]. destruct l as [|y l]; [done|].
  intros Hn Hp [[Ln Lp] Hc]. split.
  - split.
    + rewrite Hn; [done|]. set_solver.
    + rewrite Hp; [done|]. set_solver.
  - apply IH; [|intros z Hz; apply Hp; simpl in *; set_solver|done].
    intros z Hz. apply Hn. simpl. simpl in Hz. set_solver.
Qed.

Lemma at_last_split hd l1 : ∃ A, hd :: l1 = A ++ [at_last hd l1].
Proof.
  destruct l1 as [|x l1 _] using rev_ind; [by exists []|].
  exists (hd :: l1). unfold at_last. by rewrite last_snoc.
Qed.

Lemma at_head_split hd l2 : ∃ B, l2 ++ [hd] = at_head hd l2 :: B.
Proof. destruct l2; simpl; eauto. Qed.

Lemma at_head_in hd l2 : at_head hd l2 ∈ l2 ++ [hd].
Proof. destruct l2; set_solver. Qed.
Lemma at_last_in hd l1 : at_last hd l1 ∈ hd :: l1.
Proof. destruct (at_last_split hd l1) as [A ->]. set_solver. Qed.

(** The two halves of a list around a cut, and the link between them. *)
Lemma dlist_cut h hd l1 l2 :
  dlist h hd (l1 ++ l2) ↔
  NoDup (hd :: l1 ++ l2) ∧ chain h (hd :: l1) ∧
  link h (at_last hd l1) (at_head hd l2) ∧ chain h (l2 ++ [hd]).
Proof.
  unfold dlist. destruct (at_last_split hd l1) as [A HA], (at_head_split hd l2) as [B HB].
  assert (hd :: (l1 ++ l2) ++ [hd] = A ++ at_last hd l1 :: at_head hd l2 :: B) as ->.
  { rewrite <- app_assoc, HB. rewrite app_comm_cons, HA, <- app_assoc. done. }
  rewrite chain_cut, HA, HB. done.
Qed.

Lemma dlist_link h hd l1 l2 :
  dlist h hd (l1 ++ l2) → link h (at_last hd l1) (at_head hd l2).
Proof. rewrite dlist_cut. tauto. Qed.

Lemma dlist_nodup h hd xs : dlist h hd xs → NoDup (hd :: xs).
Proof. by intros []. Qed.

(** A list only depends on the fields of its own elements. *)
Lemma dlist_ext h h' hd xs :
  (∀ x, x ∈ hd :: xs → nxt h' x = nxt h x ∧ prv h' x = prv h x) →
  dlist h hd xs → dlist h' hd xs.
Proof.
  intros Hx [Hnd Hc]. split; [done|]. revert Hc. apply chain_ext.
  - rewrite app_comm_cons, removelast_last. intros x Hi. by apply Hx.
  - simpl. intros x Hi. apply Hx. apply elem_of_app in Hi as [Hi|Hi%list_elem_of_singleton]; [by right|subst; by left].
Qed.

Lemma dlist_same_out h h' hd xs ys :
  same_out ys h h' → (∀ x, x ∈ hd :: xs → x ∉ ys) → dlist h hd xs → dlist h' hd xs.
Proof.
  intros Ho Hd. apply dlist_ext. intros x Hx. unfold nxt, prv.
  by rewrite (Ho x (Hd x Hx)).
Qed.

Lemma nxt_alloc h x y : nxt h x = Some y → is_Some (h !! x).
Proof. unfold nxt. destruct (h !! x); [eauto|done]. Qed.
Lemma prv_alloc h x y : prv h x = Some y → is_Some (h !! x).
Proof. unfold prv. destruct (h !! x); [eauto|done]. Qed.

(** Every element of a list is allocated and has both its links. *)
Lemma dlist_links h hd xs x :
  dlist h hd xs → x ∈ hd :: xs → ∃ p n, h !! x = Some (Elem (Some p) (Some n)).
Proof.
  intros Hl Hx. apply list_elem_of_split in Hx as (l1 & l2 & E).
  assert (link h x (at_head hd l2)) as [Hn _].
  { destruct l1 as [|y l1]; simplify_eq/=.
    - by apply (dlist_link h x [] l2).
    - rewrite cons_middle, app_assoc in Hl. apply dlist_link in Hl.
      unfold at_last in Hl. by rewrite last_snoc in Hl. }
  assert (∃ p, prv h x = Some p) as [p Hp].
  { destruct l1 as [|y l1]; simplify_eq/=.
    - rewrite <- (app_nil_r l2) in Hl. apply dlist_link in Hl as [_ ?]. eauto.
    - apply dlist_link in Hl as [_ ?]. eauto. }
  unfold nxt, prv in *. destruct (h !! x) as [[]|]; simplify_eq/=. eauto.
Qed.

Lemma dlist_alloc h hd xs x : dlist h hd xs → x ∈ hd :: xs → is_Some (h !! x).
Proof. intros Hl Hx. destruct (dlist_links _ _ _ _ Hl Hx) as (? & ? & ?); eauto. Qed.

(** An element that is in no list is recognised by its null links. *)
Lemma dlist_not_in h hd xs e n : dlist h hd xs → h !! e = Some (Elem None n) → e ∉ hd :: xs.
Proof. intros Hl He Hx. destruct (dlist_links _ _ _ _ Hl Hx) as (? & ? & ?); congruence. Qed.
End chain.

(** ** Specifications of the accesses *)

Section access.
Implicit Types h : lmem.

Lemma runs_rd_elem h l e Q : h !! l = Some e → Q e h → runs (rd_elem l) h Q.
Proof. intros He HQ. unfold rd_elem. step. rewrite He. by step. Qed.

Lemma runs_list2_next h l n Q : nxt h l = Some n → Q (Some n) h → runs (list2_next l) h Q.
Proof.
  unfold nxt. destruct (h !! l) eqn:E; simpl; [|done]. intros Hn HQ.
  unfold list2_next. apply runs_bind. eapply runs_rd_elem; [done|]. step. by rewrite Hn.
Qed.

Lemma runs_list2_prev h l n Q : prv h l = Some n → Q (Some n) h → runs (list2_prev l) h Q.
Proof.
  unfold prv. destruct (h !! l) eqn:E; simpl; [|done]. intros Hn HQ.
  unfold list2_prev. apply runs_bind. eapply runs_rd_elem; [done|]. step. by rewrite Hn.
Qed.

(** The effect of one assignment, as equations on the links. *)
Definition upd (f : loc → ptr) (l : loc) (v : ptr) (x : loc) : ptr :=
  if decide (x = l) then v else f x.

Record writes (h h' : lmem) (ws : list loc) (n p : loc → ptr) : Prop := {
  wr_nxt : ∀ x, nxt h' x = n x;
  wr_prv : ∀ x, prv h' x = p x;
  wr_out : same_out ws h h';
  wr_dom : ∀ x, is_Some (h !! x) → is_Some (h' !! x);
}.

Lemma writes_refl h : writes h h [] (nxt h) (prv h).
Proof. split; try done; by intros. Qed.

Lemma runs_set_next h0 h ws n p l v Q :
  writes h0 h ws n p → is_Some (h !! l) →
  (∀ h', writes h0 h' (l :: ws) (upd n l v) p → Q tt h') →
  runs (set_next l v) h Q.
Proof.
  intros Hw [e He] HQ. unfold set_next. apply runs_bind. eapply runs_rd_elem; [done|].
  step. apply HQ. destruct Hw as [Hn Hp Ho Hd]. split.
  - intros x. unfold upd, nxt. destruct (decide (x = l)) as [->|Hne].
    + by rewrite lookup_insert_eq.
    + rewrite lookup_insert_ne by done. apply Hn.
  - intros x. rewrite <- Hp. unfold prv. destruct (decide (x = l)) as [->|Hne].
    + by rewrite lookup_insert_eq, He.
    + by rewrite lookup_insert_ne by done.
  - intros x Hx. rewrite lookup_insert_ne by set_solver. apply Ho. set_solver.
  - intros x Hx%Hd. destruct (decide (x = l)) as [->|Hne].
    + rewrite lookup_insert_eq. eauto.
    + by rewrite lookup_insert_ne by done.
Qed.

Lemma runs_set_prev h0 h ws n p l v Q :
  writes h0 h ws n p → is_Some (h !! l) →
  (∀ h', writes h0 h' (l :: ws) n (upd p l v) → Q tt h') →
  runs (set_prev l v) h Q.
Proof.
  intros Hw [e He] HQ. unfold set_prev. apply runs_bind. eapply runs_rd_elem; [done|].
  step. apply HQ. destruct Hw as [Hn Hp Ho Hd]. split.
  - intros x. rewrite <- Hn. unfold nxt. destruct (decide (x = l)) as [->|Hne].
    + by rewrite lookup_insert_eq, He.
    + by rewrite lookup_insert_ne by done.
  - intros x. unfold upd, prv. destruct (decide (x = l)) as [->|Hne].
    + by rewrite lookup_insert_eq.
    + rewrite lookup_insert_ne by done. apply Hp.
  - intros x Hx. rewrite lookup_insert_ne by set_solver. apply Ho. set_solver.
  - intros x Hx%Hd. destruct (decide (x = l)) as [->|Hne].
    + rewrite lookup_insert_eq. eauto.
    + by rewrite lookup_insert_ne by done.
Qed.
End access.

(** [upds] evaluates the link functions at addresses the context compares. *)
Ltac upds :=
  unfold upd in *;
  repeat ((rewrite decide_True by done) || (rewrite decide_False by (done || congruence))).

(** One access of list2.c. *)
Ltac lstep :=
  lazymatch goal with
  | |- runs (bind _ _) _ _ => apply runs_bind; lstep
  | |- runs (list2_next _) _ _ => eapply runs_list2_next
  | |- runs (list2_prev _) _ _ => eapply runs_list2_prev
  | |- runs (set_next _ _) _ _ => eapply runs_set_next
  | |- runs (set_prev _ _) _ _ => eapply runs_set_prev
  | |- _ => step
  end; cbv beta.

(** ** The operations on sequences *)

(** What an operation that rearranges the elements [ws] leaves as it was. *)
Definition frame (ws : list loc) (h h' : lmem) : Prop :=
  same_out ws h h' ∧ ∀ x, is_Some (h !! x) → is_Some (h' !! x).

Section operations.
Implicit Types h : lmem.

Lemma writes_frame h h' ws n p ys :
  writes h h' ws n p → (∀ x, x ∈ ws → x ∈ ys) → frame ys h h'.
Proof. intros [_ _ Ho Hd] Hi. split; [|done]. intros x Hx. apply Ho. auto. Qed.

Lemma list2_init_dlist h hd :
  runs (list2_init hd) h (λ _ h', dlist h' hd [] ∧ same_out [hd] h h').
Proof.
  unfold list2_init. step. split.
  - split; [apply NoDup_singleton|]. split; [|done]. unfold link, nxt, prv.
    by rewrite lookup_insert_eq.
  - intros x Hx. rewrite lookup_insert_ne; [done|]. set_solver.
Qed.

(** The sequence of a list cut in two, spelled with the elements at the cut. *)
Lemma cut_names hd l1 l2 :
  ∃ A B, hd :: l1 = A ++ [at_last hd l1] ∧ l2 ++ [hd] = at_head hd l2 :: B ∧
    ∀ m, hd :: (l1 ++ m ++ l2) ++ [hd] = A ++ at_last hd l1 :: m ++ at_head hd l2 :: B.
Proof.
  destruct (at_last_split hd l1) as [A HA], (at_head_split hd l2) as [B HB].
  exists A, B. split_and!; [done..|]. intros m.
  rewrite <- !app_assoc, HB, app_comm_cons, HA, <- app_assoc. done.
Qed.

(** The two ends of a cut list survive any change of the links at the cut. *)
Lemma cut_outer h h' hd l1 l2 A B :
  NoDup (hd :: l1 ++ l2) →
  hd :: l1 = A ++ [at_last hd l1] → l2 ++ [hd] = at_head hd l2 :: B →
  (∀ x, x ∈ hd :: l1 ++ l2 → x ≠ at_last hd l1 → nxt h' x = nxt h x) →
  (∀ x, x ∈ hd :: l1 ++ l2 → x ≠ at_head hd l2 → prv h' x = prv h x) →
  chain h (A ++ [at_last hd l1]) → chain h (at_head hd l2 :: B) →
  chain h' (A ++ [at_last hd l1]) ∧ chain h' (at_head hd l2 :: B).
Proof.
  intros Hnd HA HB Hn Hp C1 C2.
  assert (NoDup (A ++ [at_last hd l1]) ∧ NoDup (at_head hd l2 :: B)) as [N1 N2].
  { rewrite <- HA, <- HB. rewrite app_comm_cons in Hnd.
    apply NoDup_app in Hnd as (? & Hd & ?). split; [done|].
    apply NoDup_app. split_and!; [done| |apply NoDup_singleton].
    intros x Hx ->%list_elem_of_singleton. apply (Hd hd); [by left|done]. }
  assert (∀ x, x ∈ at_last hd l1 :: l1 → x ≠ hd → x ∉ l2) as Hdis.
  { intros x Hx. apply NoDup_cons in Hnd as [_ Hnd].
    apply NoDup_app in Hnd as (_ & Hd & _). pose proof (at_last_in hd l1). set_solver. }
  split.
  - revert C1. apply chain_ext.
    + rewrite removelast_last. intros x Hx. apply Hn.
      * rewrite app_comm_cons, HA. set_solver.
      * intros ->. apply NoDup_app in N1 as (_ & Hd & _). set_solver.
    + rewrite <- HA. simpl. intros x Hx. apply Hp; [set_solver|].
      intros ->. apply NoDup_cons in Hnd as [Hhd _].
      pose proof (at_head_in hd l2) as [Hi|Hi%list_elem_of_singleton]%elem_of_app.
      * apply (Hdis (at_head hd l2)); [set_solver| |done]. intros E. rewrite E in Hx. set_solver.
      * rewrite Hi in Hx. set_solver.
  - revert C2. apply chain_ext.
    + rewrite <- HB, removelast_last. intros x Hx. apply Hn; [set_solver|].
      intros ->. apply (Hdis (at_last hd l1)); [set_solver| |done].
      intros E. rewrite E in Hx. apply NoDup_cons in Hnd as [? _]. set_solver.
    + simpl. intros x Hx. apply Hp.
      * assert (x ∈ l2 ++ [hd]) by (rewrite HB; set_solver). set_solver.
      * intros ->. apply NoDup_cons in N2 as [? _]. done.
Qed.

Lemma at_last_target hd l1 l2 : at_last hd l1 ∈ hd :: l1 ++ l2.
Proof. pose proof (at_last_in hd l1). set_solver. Qed.
Lemma at_head_target hd l1 l2 : at_head hd l2 ∈ hd :: l1 ++ l2.
Proof. pose proof (at_head_in hd l2). set_solver. Qed.

Lemma perm_mid (hd : loc) l1 m l2 : Permutation (hd :: l1 ++ m ++ l2) (m ++ hd :: l1 ++ l2).
Proof.
  rewrite (Permutation_app_comm m (hd :: l1 ++ l2)). simpl. rewrite <- app_assoc.
  constructor. apply Permutation_app_head, Permutation_app_comm.
Qed.

Lemma list2_insert_spec h hd l1 l2 e :
  dlist h hd (l1 ++ l2) → h !! e = Some (Elem None None) →
  runs (list2_insert (at_head hd l2) e) h (λ r h',
    r = e ∧ dlist h' hd (l1 ++ e :: l2) ∧ frame (hd :: e :: l1 ++ l2) h h').
Proof.
  intros Hl He. pose proof (dlist_not_in _ _ _ _ _ Hl He) as Hni.
  pose proof (dlist_nodup _ _ _ Hl) as Hnd. destruct (dlist_link _ _ _ _ Hl) as [Ln Lp].
  pose proof (at_last_in hd l1) as Hil. pose proof (at_head_in hd l2) as Hih.
  assert (at_last hd l1 ≠ e) by (intros <-; set_solver).
  assert (at_head hd l2 ≠ e) by (intros <-; set_solver).
  unfold list2_insert. apply runs_bind. eapply runs_rd_elem; [done|]. step.
  lstep; [apply writes_refl|eauto|]. intros h1 W1.
  lstep; [rewrite (wr_prv _ _ _ _ _ W1); done|].
  lstep; [done|apply W1; eauto|]. intros h2 W2.
  lstep; [rewrite (wr_prv _ _ _ _ _ W2); upds; done|]. step.
  lstep; [done|apply W2; by eapply nxt_alloc|]. intros h3 W3.
  lstep; [done|apply W3; by eapply prv_alloc|]. intros h4 W4. step.
  split_and!; [done| |].
  - destruct (cut_names hd l1 l2) as (A & B & HA & HB & E). destruct Hl as [_ Hc].
    specialize (E []) as E0. simpl in E0. rewrite E0 in Hc.
    apply chain_cut in Hc as (C1 & _ & C2). split.
    + apply NoDup_cons in Hnd as [? Hnd]. apply NoDup_app in Hnd as (? & ? & ?).
      apply NoDup_cons. split; [set_solver|]. apply NoDup_app.
      split_and!; [done|set_solver|]. constructor; [set_solver|done].
    + specialize (E [e]). simpl in E. rewrite E.
      destruct (cut_outer h h4 hd l1 l2 A B Hnd HA HB) as [D1 D2]; [..|done|done|].
      * intros x Hx Hxl. rewrite (wr_nxt _ _ _ _ _ W4). by upds.
      * intros x Hx Hxl. rewrite (wr_prv _ _ _ _ _ W4). by upds.
      * rewrite chain_cut. split_and!; [done| |split; [|done]].
        -- split; [rewrite (wr_nxt _ _ _ _ _ W4)|rewrite (wr_prv _ _ _ _ _ W4)]; by upds.
        -- split; [rewrite (wr_nxt _ _ _ _ _ W4)|rewrite (wr_prv _ _ _ _ _ W4)]; by upds.
  - eapply writes_frame; [done|]. set_solver.
Qed.

Lemma list2_erase_spec h hd l1 l2 e :
  dlist h hd (l1 ++ e :: l2) →
  runs (list2_erase e) h (λ r h',
    r = Some (at_head hd l2) ∧ dlist h' hd (l1 ++ l2) ∧
    h' !! e = Some (Elem None None) ∧ frame (hd :: l1 ++ e :: l2) h h').
Proof.
  intros Hl. pose proof (dlist_nodup _ _ _ Hl) as Hnd.
  assert (link h (at_last hd l1) e) as [Pn Pp] by apply (dlist_link _ _ l1 (e :: l2) Hl).
  assert (link h e (at_head hd l2)) as [Nn Np].
  { rewrite cons_middle, app_assoc in Hl. apply dlist_link in Hl.
    unfold at_last in Hl. by rewrite last_snoc in Hl. }
  assert (NoDup (hd :: l1 ++ l2) ∧ e ∉ hd :: l1 ++ l2) as [Hnd' He].
  { assert (Permutation (hd :: l1 ++ e :: l2) (e :: hd :: l1 ++ l2)) as HP
      by apply (perm_mid hd l1 [e] l2).
    rewrite HP in Hnd. apply NoDup_cons in Hnd. tauto. }
  pose proof (at_last_in hd l1) as Hil. pose proof (at_head_in hd l2) as Hih.
  assert (at_last hd l1 ≠ e) by (intros <-; set_solver).
  assert (at_head hd l2 ≠ e) by (intros <-; set_solver).
  unfold list2_erase.
  lstep; [done|]. step. lstep; [done|].
  lstep; [apply writes_refl|by eapply prv_alloc|]. intros h1 W1.
  lstep; [rewrite (wr_prv _ _ _ _ _ W1); by upds|]. step.
  lstep; [rewrite (wr_nxt _ _ _ _ _ W1); done|].
  lstep; [done|apply W1; by eapply nxt_alloc|]. intros h2 W2.
  lstep; [done|apply W2; by eapply nxt_alloc|]. intros h3 W3.
  lstep; [done|apply W3; by eapply nxt_alloc|]. intros h4 W4. step.
  split_and!; [done| | |].
  - destruct (cut_names hd l1 l2) as (A & B & HA & HB & E). destruct Hl as [_ Hc].
    specialize (E [e]) as E0. simpl in E0. rewrite E0 in Hc.
    apply chain_cut in Hc as (C1 & _ & _ & C2). split; [done|].
    specialize (E []). simpl in E. rewrite E.
    destruct (cut_outer h h4 hd l1 l2 A B Hnd' HA HB) as [D1 D2]; [..|done|done|].
    + intros x Hx Hxl. rewrite (wr_nxt _ _ _ _ _ W4). by upds.
    + intros x Hx Hxl. rewrite (wr_prv _ _ _ _ _ W4). by upds.
    + rewrite chain_cut. split_and!; [done| |done].
      split; [rewrite (wr_nxt _ _ _ _ _ W4)|rewrite (wr_prv _ _ _ _ _ W4)]; by upds.
  - pose proof (wr_nxt _ _ _ _ _ W4 e) as En. pose proof (wr_prv _ _ _ _ _ W4 e) as Ep.
    destruct (wr_dom _ _ _ _ _ W4 e) as [[a b] Hab]; [by eapply nxt_alloc|].
    unfold nxt, prv in En, Ep. rewrite Hab in *. simpl in *. revert En Ep. upds.
    by intros -> ->.
  - eapply writes_frame; [done|]. set_solver.
Qed.

(** Erasing the head of an empty list detaches it. *)
Lemma list2_erase_head h hd :
  dlist h hd [] →
  runs (list2_erase hd) h (λ r h',
    h' !! hd = Some (Elem None None) ∧ frame [hd] h h').
Proof.
  intros [_ [[Hn Hp] _]]. unfold list2_erase.
  lstep; [done|]. step. lstep; [done|].
  lstep; [apply writes_refl|by eapply prv_alloc|]. intros h1 W1.
  lstep; [rewrite (wr_prv _ _ _ _ _ W1); by upds|]. step.
  lstep; [rewrite (wr_nxt _ _ _ _ _ W1); done|].
  lstep; [done|apply W1; by eapply nxt_alloc|]. intros h2 W2.
  lstep; [done|apply W2; by eapply nxt_alloc|]. intros h3 W3.
  lstep; [done|apply W3; by eapply nxt_alloc|]. intros h4 W4. step. split.
  - pose proof (wr_nxt _ _ _ _ _ W4 hd) as En. pose proof (wr_prv _ _ _ _ _ W4 hd) as Ep.
    destruct (wr_dom _ _ _ _ _ W4 hd) as [[a b] Hab]; [by eapply nxt_alloc|].
    unfold nxt, prv in En, Ep. rewrite Hab in *. simpl in *. revert En Ep. upds.
    by intros -> ->.
  - eapply writes_frame; [done|]. set_solver.
Qed.

(** Moving the non-empty range [x :: m] of the list [hs] into the list [hd]. *)
Lemma list2_insert_list_range h hd l1 l2 hs m1 x m m2 :
  dlist h hd (l1 ++ l2) → dlist h hs (m1 ++ (x :: m) ++ m2) →
  (∀ y, y ∈ hd :: l1 ++ l2 → y ∉ hs :: m1 ++ (x :: m) ++ m2) →
  runs (list2_insert_list (at_head hd l2) x (at_head hs m2)) h (λ r h',
    r = at_head hd l2 ∧ dlist h' hd (l1 ++ (x :: m) ++ l2) ∧ dlist h' hs (m1 ++ m2) ∧
    frame ((hd :: l1 ++ l2) ++ hs :: m1 ++ (x :: m) ++ m2) h h').
Proof.
  intros Hl Hs Hdis. pose proof (dlist_nodup _ _ _ Hl) as Nl.
  pose proof (dlist_nodup _ _ _ Hs) as Ns. destruct (dlist_link _ _ _ _ Hl) as [Ln Lp].
  destruct (cut_names hd l1 l2) as (A & B & HA & HB & EL).
  destruct (cut_names hs m1 m2) as (A' & B' & HA' & HB' & ES).
  destruct (at_last_split x m) as [m' Hm'].
  destruct Hl as [_ Cl]. specialize (EL []) as EL0. simpl in EL0. rewrite EL0 in Cl.
  apply chain_cut in Cl as (C1 & _ & C2).
  destruct Hs as [_ Cs]. specialize (ES (x :: m)) as ES0. rewrite ES0 in Cs.
  change (chain h (A' ++ at_last hs m1 :: x :: m ++ at_head hs m2 :: B')) in Cs.
  apply chain_cut in Cs as (D1 & [Qn Qp] & Cs). rewrite app_comm_cons, Hm', <- app_assoc in Cs.
  apply chain_cut in Cs as (Cm & [Yn Yp] & D2).
  assert (at_last x m ∈ x :: m) as Hy by apply at_last_in.
  assert (NoDup (hs :: m1 ++ m2) ∧ NoDup (x :: m) ∧ ∀ z, z ∈ x :: m → z ∉ hs :: m1 ++ m2)
    as (Ns' & Nm & Hmd).
  { assert (Permutation (hs :: m1 ++ (x :: m) ++ m2) ((x :: m) ++ hs :: m1 ++ m2)) as HP
      by apply perm_mid.
    rewrite HP in Ns. apply NoDup_app in Ns as (? & ? & ?). done. }
  assert (∀ z, z ∈ x :: m → z ∈ hs :: m1 ++ (x :: m) ++ m2) as Hin by (clear; set_solver).
  assert (∀ z, z ∈ hs :: m1 ++ m2 → z ∈ hs :: m1 ++ (x :: m) ++ m2) as Hin' by (clear; set_solver).
  assert (at_last hd l1 ∈ hd :: l1 ++ l2) by (eapply at_last_target).
  assert (at_head hd l2 ∈ hd :: l1 ++ l2) by (eapply at_head_target).
  assert (at_last hs m1 ∈ hs :: m1 ++ m2) by (eapply at_last_target).
  assert (at_head hs m2 ∈ hs :: m1 ++ m2) by (eapply at_head_target).
  assert (x ∈ x :: m) by (by left).
  assert (∀ z w, z ∈ hd :: l1 ++ l2 → w ∈ x :: m → z ≠ w) as N1 by naive_solver.
  assert (∀ z w, z ∈ hd :: l1 ++ l2 → w ∈ hs :: m1 ++ m2 → z ≠ w) as N2 by naive_solver.
  assert (∀ z w, z ∈ x :: m → w ∈ hs :: m1 ++ m2 → z ≠ w) as N3 by naive_solver.
  assert (at_last hd l1 ≠ at_last hs m1) by auto.
  assert (at_last hd l1 ≠ at_last x m) by auto.
  assert (at_head hd l2 ≠ at_head hs m2) by auto.
  assert (at_head hd l2 ≠ x) by auto.
  assert (x ≠ at_head hs m2) by auto.
  assert (at_last x m ≠ at_last hs m1) by auto.
  unfold list2_insert_list. rewrite bool_decide_false by done.
  lstep; [done|]. lstep; [done|]. step.
  lstep; [apply writes_refl|by eapply nxt_alloc|]. intros h1 W1.
  lstep; [rewrite (wr_prv _ _ _ _ _ W1); done|].
  lstep; [done|apply W1; by eapply prv_alloc|]. intros h2 W2.
  lstep; [rewrite (wr_prv _ _ _ _ _ W2); by upds|]. step.
  lstep; [done|apply W2; by eapply nxt_alloc|]. intros h3 W3.
  lstep; [rewrite (wr_prv _ _ _ _ _ W3); by upds|].
  lstep; [done|apply W3; by eapply prv_alloc|]. intros h4 W4. step.
  lstep; [done|apply W4; by eapply nxt_alloc|]. intros h5 W5.
  lstep; [done|apply W5; by eapply prv_alloc|]. intros h6 W6. step.
  pose proof (wr_nxt _ _ _ _ _ W6) as Fn. pose proof (wr_prv _ _ _ _ _ W6) as Fp.
  split_and!; [done| | |].
  - split.
    + assert (Permutation (hd :: l1 ++ (x :: m) ++ l2) ((x :: m) ++ hd :: l1 ++ l2)) as ->
        by apply perm_mid.
      apply NoDup_app. split_and!; [done| |done]. intros z Hz Hz'. by apply (Hdis z Hz'), Hin.
    + rewrite (EL (x :: m)).
      change (chain h6 (A ++ at_last hd l1 :: x :: m ++ at_head hd l2 :: B)).
      destruct (cut_outer h h6 hd l1 l2 A B Nl HA HB) as [G1 G2]; [..|done|done|].
      * intros z Hz Hzl. rewrite Fn. unfold upd. rewrite !decide_False by auto. done.
      * intros z Hz Hzl. rewrite Fp. unfold upd. rewrite !decide_False by auto. done.
      * apply chain_cut. split_and!; [done| |].
        { split; [rewrite Fn|rewrite Fp]; by upds. }
        rewrite app_comm_cons, Hm', <- app_assoc. apply chain_cut. split_and!; [| |done].
        { revert Cm. apply chain_ext.
          - rewrite removelast_last. intros z Hz.
            assert (z ∈ x :: m) by (rewrite Hm'; apply elem_of_app; by left).
            assert (z ≠ at_last x m).
            { intros ->. rewrite Hm' in Nm. apply NoDup_app in Nm as (_ & Hd & _).
              apply (Hd _ Hz). by left. }
            rewrite Fn. unfold upd. rewrite !decide_False by auto using not_eq_sym. done.
          - rewrite <- Hm'. simpl. intros z Hz. assert (z ∈ x :: m) by by right.
            assert (z ≠ x) by (intros ->; apply NoDup_cons in Nm as [? _]; done).
            rewrite Fp. unfold upd. rewrite !decide_False by auto using not_eq_sym. done. }
        { split; [rewrite Fn|rewrite Fp]; by upds. }
  - split; [done|]. specialize (ES []). simpl in ES. rewrite ES.
    destruct (cut_outer h h6 hs m1 m2 A' B' Ns' HA' HB') as [G1 G2]; [..|done|done|].
    + intros z Hz Hzl. rewrite Fn. unfold upd.
      rewrite !decide_False by auto using not_eq_sym. done.
    + intros z Hz Hzl. rewrite Fp. unfold upd.
      rewrite !decide_False by auto using not_eq_sym. done.
    + apply chain_cut. split_and!; [done| |done].
      split; [rewrite Fn|rewrite Fp]; unfold upd.
      * rewrite decide_False by auto using not_eq_sym.
        rewrite decide_False by auto using not_eq_sym. by rewrite decide_True.
      * rewrite decide_False by auto using not_eq_sym.
        rewrite decide_False by auto using not_eq_sym. by rewrite decide_True.
  - eapply writes_frame; [done|]. intros z Hz. apply elem_of_app.
    repeat (apply elem_of_cons in Hz as [->|Hz]; [by auto|]). by apply elem_of_nil in Hz.
Qed.

(** [list2_insert_list]: the range [m] moves from the list [hs] into the list
    [hd], before the element that follows [l1]; an empty range moves nothing. *)
Lemma list2_insert_list_spec h hd l1 l2 hs m1 m m2 :
  dlist h hd (l1 ++ l2) → dlist h hs (m1 ++ m ++ m2) →
  (∀ y, y ∈ hd :: l1 ++ l2 → y ∉ hs :: m1 ++ m ++ m2) →
  runs (list2_insert_list (at_head hd l2) (at_head hs (m ++ m2)) (at_head hs m2)) h (λ r h',
    r = at_head hd l2 ∧ dlist h' hd (l1 ++ m ++ l2) ∧ dlist h' hs (m1 ++ m2) ∧
    frame ((hd :: l1 ++ l2) ++ hs :: m1 ++ m ++ m2) h h').
Proof.
  intros Hl Hs Hd. destruct m as [|x m]; [|by apply list2_insert_list_range].
  unfold list2_insert_list. rewrite bool_decide_true by done. step.
  split_and!; [done..|]. split; [by intros x|done].
Qed.

Lemma dlist_begin h hd xs : dlist h hd xs → nxt h hd = Some (at_head hd xs).
Proof. intros Hl. by destruct (dlist_link h hd [] xs Hl). Qed.

Lemma dlist_end h hd xs : dlist h hd xs → prv h hd = Some (at_last hd xs).
Proof.
  intros Hl. rewrite <- (app_nil_r xs) in Hl. by destruct (dlist_link h hd xs [] Hl).
Qed.

Lemma dlist_next h hd l1 x l2 : dlist h hd (l1 ++ x :: l2) → nxt h x = Some (at_head hd l2).
Proof.
  intros Hl. rewrite cons_middle, app_assoc in Hl. apply dlist_link in Hl as [Hn _].
  unfold at_last in Hn. by rewrite last_snoc in Hn.
Qed.

Lemma dlist_prev h hd l1 x l2 : dlist h hd (l1 ++ x :: l2) → prv h x = Some (at_last hd l1).
Proof. intros Hl. by apply dlist_link in Hl as [_ Hp]. Qed.

Lemma list2_empty_spec h hd xs :
  dlist h hd xs →
  runs (list2_empty hd) h (λ b h', h' = h ∧ b = bool_decide (xs = [])).
Proof.
  intros Hl. pose proof (dlist_begin _ _ _ Hl) as Hb.
  unfold list2_empty, list2_begin. apply runs_bind, runs_bind.
  destruct (dlist_links h hd xs hd Hl) as (p & n & E); [by left|].
  eapply runs_rd_elem; [done|]. step. step. split; [done|].
  unfold nxt in Hb. rewrite E in Hb. simpl in *. simplify_eq.
  pose proof (dlist_nodup _ _ _ Hl) as [Hni _]%NoDup_cons.
  unfold list2_end. destruct xs as [|x xs]; simpl.
  - by rewrite !bool_decide_true.
  - rewrite !bool_decide_false; try done. intros [= ->]. apply Hni. by left.
Qed.

Lemma chain_head_change h h' a b xs :
  NoDup (a :: xs) → b ∉ xs → xs ≠ [] →
  (∀ x, x ∈ xs → nxt h' x = if decide (x = at_last a xs) then Some b else nxt h x) →
  (∀ x, x ∈ xs → prv h' x = if decide (x = at_head a xs) then Some b else prv h x) →
  nxt h' b = nxt h a → prv h' b = prv h a →
  dlist h a xs → dlist h' b xs.
Proof.
  intros Hnd Hb Hne Hn Hp Hbn Hbp Hl. split; [by apply NoDup_cons in Hnd as [_ ?]; constructor|].
  destruct xs as [|x xs]; [done|]. clear Hne. simpl in *.
  pose proof (dlist_begin _ _ _ Hl) as Fb. pose proof (dlist_end _ _ _ Hl) as Fe.
  destruct Hl as [_ [_ Hc]].
  destruct (at_last_split x xs) as [A HA].
  assert (at_last a (x :: xs) = at_last x xs) as Ela.
  { rewrite HA. unfold at_last at 1. by rewrite last_snoc. }
  rewrite Ela in *. change (chain h ((x :: xs) ++ [a])) in Hc. rewrite HA, <- app_assoc in Hc.
  apply chain_cut in Hc as (Hc & _ & _).
  split; [split; [by rewrite Hbn|]|].
  { rewrite Hp by (by left). by rewrite decide_True. }
  change (chain h' ((x :: xs) ++ [b])). rewrite HA, <- app_assoc. apply chain_cut.
  split_and!; [| |done].
  - revert Hc. apply chain_ext.
    + rewrite removelast_last. intros z Hz. rewrite Hn by (rewrite HA; apply elem_of_app; by left).
      rewrite decide_False; [done|]. intros ->. apply NoDup_cons in Hnd as [_ Hnd].
      rewrite HA in Hnd. apply NoDup_app in Hnd as (_ & Hd & _). apply (Hd _ Hz). by left.
    + rewrite <- HA. simpl. intros z Hz. rewrite Hp by (by right).
      rewrite decide_False; [done|]. intros ->. apply NoDup_cons in Hnd as [_ Hnd].
      by apply NoDup_cons in Hnd as [? _].
  - split; [|by rewrite Hbp]. rewrite Hn by (rewrite HA; apply elem_of_app; right; by left).
    by rewrite decide_True.
Qed.

Lemma runs_set_elem h0 h ws n p l e Q :
  writes h0 h ws n p →
  (∀ h', writes h0 h' (l :: ws) (upd n l (next e)) (upd p l (prev e)) → Q tt h') →
  runs (modify <[l := e]>) h Q.
Proof.
  intros [Hn Hp Ho Hd] HQ. step. apply HQ. split.
  - intros x. unfold upd, nxt. case_decide; [subst; by rewrite lookup_insert_eq|].
    rewrite lookup_insert_ne by done. apply Hn.
  - intros x. unfold upd, prv. case_decide; [subst; by rewrite lookup_insert_eq|].
    rewrite lookup_insert_ne by done. apply Hp.
  - intros x Hx. rewrite lookup_insert_ne by set_solver. apply Ho. set_solver.
  - intros x Hx%Hd. rewrite lookup_insert. case_decide; eauto.
Qed.

(** Redirecting the two ends of a list to a new head, the first half of
    [list2_swap] for one list. *)
Lemma redirect_spec h0 h ws n p a b xs Q :
  writes h0 h ws n p → dlist h0 a xs →
  (∀ x, x ∈ a :: xs → n x = nxt h0 x ∧ p x = prv h0 x) →
  (∀ h' ws', writes h0 h' ws'
      (if bool_decide (xs = []) then n else upd n (at_last a xs) (Some b))
      (if bool_decide (xs = []) then p else upd p (at_head a xs) (Some b)) →
    (∀ x, x ∈ ws' → x ∈ ws ++ xs) → Q tt h') →
  runs (if bool_decide (xs = []) then skip else
       an ← list2_next a; an ← deref an; set_prev an (Some b);;
       ap ← list2_prev a; ap ← deref ap; set_next ap (Some b)) h Q.
Proof.
  intros W Hl Hnp HQ. case_bool_decide as Hxs.
  { unfold skip. step. apply (HQ h ws); [done|]. set_solver. }
  pose proof (dlist_begin _ _ _ Hl) as Hb. pose proof (dlist_end _ _ _ Hl) as He.
  destruct (Hnp a) as [Na Pa]; [by left|].
  pose proof (dlist_nodup _ _ _ Hl) as [Hni _]%NoDup_cons.
  assert (at_head a xs ∈ xs) as Hh by (destruct xs; [done|by left]).
  assert (at_last a xs ∈ xs) as Hla.
  { destruct xs as [|x xs _] using rev_ind; [done|]. unfold at_last. rewrite last_snoc.
    apply elem_of_app. right. by left. }
  assert (a ≠ at_head a xs) by congruence. assert (a ≠ at_last a xs) by congruence.
  lstep; [by rewrite (wr_nxt _ _ _ _ _ W), Na|]. step.
  lstep; [done|apply W; eapply dlist_alloc; [done|by right]|]. intros h1 W1.
  lstep; [rewrite (wr_prv _ _ _ _ _ W1); upds; by rewrite Pa|]. step.
  lstep; [done|apply W1; eapply dlist_alloc; [done|by right]|]. intros h2 W2.
  apply (HQ h2 _ W2). intros x Hx. repeat (apply elem_of_cons in Hx as [->|Hx]; [set_solver|]).
  set_solver.
Qed.

(** The second half of [list2_swap] for one head: [b] takes the links [a]
    had, or its own address when the list of [a] is empty. *)
Definition headed (h : lmem) (b a : loc) (xs : list loc) (n p : loc → ptr) : Prop :=
  n b = (if bool_decide (xs = []) then Some b else nxt h a) ∧
  p b = (if bool_decide (xs = []) then Some b else prv h a).

Lemma dlist_headed h h' a b xs :
  dlist h a xs → b ∉ xs →
  headed h b a xs (nxt h') (prv h') →
  (xs ≠ [] → ∀ x, x ∈ xs → nxt h' x = if decide (x = at_last a xs) then Some b else nxt h x) →
  (xs ≠ [] → ∀ x, x ∈ xs → prv h' x = if decide (x = at_head a xs) then Some b else prv h x) →
  dlist h' b xs.
Proof.
  intros Hl Hb [Hn Hp] Fn Fp. destruct xs as [|x xs].
  - split; [apply NoDup_singleton|]. by split.
  - eapply chain_head_change; eauto using dlist_nodup.
Qed.

Lemma elem_of_links h x e : h !! x = Some e → e = Elem (prv h x) (nxt h x).
Proof. unfold prv, nxt. intros ->. by destruct e. Qed.

Lemma ends_ne (a : loc) xs :
  a ∉ xs → xs ≠ [] → at_head a xs ∈ xs ∧ at_last a xs ∈ xs.
Proof.
  intros Ha Hne. split; [destruct xs; [done|by left]|].
  destruct xs as [|x xs _] using rev_ind; [done|]. unfold at_last. rewrite last_snoc.
  apply elem_of_app. right. by left.
Qed.

(** [b] becomes the head of [xs]: of nothing, or with the links [e]. *)
Lemma set_head_spec h0 h ws n p b e (xs : list loc) Q :
  writes h0 h ws n p → is_Some (h0 !! b) →
  (∀ h' ws', writes h0 h' ws'
      (upd n b (if bool_decide (xs = []) then Some b else next e))
      (upd p b (if bool_decide (xs = []) then Some b else prev e)) →
    (∀ x, x ∈ ws' → x ∈ b :: ws) → Q tt h') →
  runs (if bool_decide (xs = []) then (set_prev b (Some b);; set_next b (Some b))
        else modify <[b := e]>) h Q.
Proof.
  intros W Hb HQ. case_bool_decide.
  - lstep; [done|by apply W|]. intros h1 W1. lstep; [done|by apply W1|]. intros h2 W2.
    eapply HQ; [apply W2|]. set_solver.
  - eapply runs_set_elem; [done|]. intros h1 W1. by eapply HQ.
Qed.

Lemma copy_head_spec h0 h ws n p b a e (xs : list loc) Q :
  writes h0 h ws n p → h !! a = Some e → is_Some (h0 !! b) →
  (∀ h' ws', writes h0 h' ws'
      (upd n b (if bool_decide (xs = []) then Some b else next e))
      (upd p b (if bool_decide (xs = []) then Some b else prev e)) →
    (∀ x, x ∈ ws' → x ∈ b :: ws) → Q tt h') →
  runs (if bool_decide (xs = []) then (set_prev b (Some b);; set_next b (Some b))
        else (ea ← rd_elem a; modify <[b := ea]>)) h Q.
Proof.
  intros W Ha Hb HQ. pose proof (set_head_spec h0 h ws n p b e xs Q W Hb HQ) as S.
  case_bool_decide; [done|]. apply runs_bind. by eapply runs_rd_elem.
Qed.

Lemma list2_swap_spec h a b xs ys :
  dlist h a xs → dlist h b ys → (∀ x, x ∈ a :: xs → x ∉ b :: ys) →
  runs (list2_swap a b) h (λ _ h',
    dlist h' a ys ∧ dlist h' b xs ∧ frame ((a :: xs) ++ b :: ys) h h').
Proof.
  intros Ha Hb Hd. unfold list2_swap.
  post list2_empty_spec; [done|]. intros ? ? [-> ->].
  post list2_empty_spec; [done|]. intros ? ? [-> ->].
  assert (a ∉ xs ∧ b ∉ ys) as [Hax Hby].
  { pose proof (dlist_nodup _ _ _ Ha) as [? _]%NoDup_cons.
    pose proof (dlist_nodup _ _ _ Hb) as [? _]%NoDup_cons. done. }
  pose proof (ends_ne a xs Hax) as Ex. pose proof (ends_ne b ys Hby) as Ey.
  assert (a ≠ b ∧ (∀ x, x ∈ xs → x ≠ b ∧ x ≠ a) ∧ (∀ x, x ∈ ys → x ≠ a ∧ x ≠ b) ∧
    ∀ x y, x ∈ xs → y ∈ ys → x ≠ y) as (Nab & Nx & Ny & Nxy) by set_solver.
  apply runs_bind. eapply redirect_spec; [apply writes_refl|done|done|].
  intros h1 ws1 W1 Hw1. apply runs_bind. eapply redirect_spec; [done|done| |].
  { intros x Hx. case_bool_decide as E; [done|]. apply Ex in E as [? ?]. unfold upd.
    apply elem_of_cons in Hx as [->|Hx]; rewrite !decide_False; naive_solver. }
  intros h2 ws2 W2 Hw2.
  assert (is_Some (h2 !! a) ∧ is_Some (h2 !! b)) as [[ea Hea] [eb Heb]].
  { split; apply W2; eapply dlist_alloc; [exact Ha|by left|exact Hb|by left]. }
  assert (Elem (prv h a) (nxt h a) = ea ∧ Elem (prv h b) (nxt h b) = eb) as [<- <-].
  { pose proof (wr_nxt _ _ _ _ _ W2) as Fn. pose proof (wr_prv _ _ _ _ _ W2) as Fp.
    split.
    - rewrite (elem_of_links _ _ _ Hea), (Fn a), (Fp a). unfold upd.
      f_equal; repeat case_bool_decide; rewrite ?decide_False by naive_solver; done.
    - rewrite (elem_of_links _ _ _ Heb), (Fn b), (Fp b). unfold upd.
      f_equal; repeat case_bool_decide; rewrite ?decide_False by naive_solver; done. }
  apply runs_bind. eapply runs_rd_elem; [done|].
  apply runs_bind. eapply copy_head_spec; [done|done|eapply dlist_alloc; [exact Hb|by left]|].
  intros h3 ws3 W3 Hw3.
  eapply set_head_spec; [done|eapply dlist_alloc; [exact Ha|by left]|].
  intros h4 ws4 W4 Hw4.
  pose proof (wr_nxt _ _ _ _ _ W4) as Fn. pose proof (wr_prv _ _ _ _ _ W4) as Fp.
  split_and!.
  - eapply (dlist_headed h); [exact Hb|naive_solver| | |].
    + split; [rewrite Fn|rewrite Fp]; unfold upd; by rewrite decide_True.
    + intros E x Hx. rewrite Fn, (bool_decide_false _ E). unfold upd.
      rewrite (decide_False (P:=x=a)), (decide_False (P:=x=b)) by naive_solver.
      destruct (decide (x = at_last b ys)); [done|].
      destruct (bool_decide_reflect (xs = [])) as [E'|E']; [done|].
      rewrite decide_False; [done|]. apply Ex in E'. naive_solver.
    + intros E x Hx. rewrite Fp, (bool_decide_false _ E). unfold upd.
      rewrite (decide_False (P:=x=a)), (decide_False (P:=x=b)) by naive_solver.
      destruct (decide (x = at_head b ys)); [done|].
      destruct (bool_decide_reflect (xs = [])) as [E'|E']; [done|].
      rewrite decide_False; [done|]. apply Ex in E'. naive_solver.
  - eapply (dlist_headed h); [exact Ha|naive_solver| | |].
    + split; [rewrite Fn|rewrite Fp]; unfold upd;
        by rewrite decide_False, decide_True by done.
    + intros E x Hx. rewrite Fn, (bool_decide_false _ E). unfold upd.
      rewrite (decide_False (P:=x=a)), (decide_False (P:=x=b)) by naive_solver.
      destruct (bool_decide_reflect (ys = [])) as [E'|E']; [done|].
      rewrite (decide_False (P:=x=at_last b ys)); [done|]. apply Ey in E'. naive_solver.
    + intros E x Hx. rewrite Fp, (bool_decide_false _ E). unfold upd.
      rewrite (decide_False (P:=x=a)), (decide_False (P:=x=b)) by naive_solver.
      destruct (bool_decide_reflect (ys = [])) as [E'|E']; [done|].
      rewrite (decide_False (P:=x=at_head b ys)); [done|]. apply Ey in E'. naive_solver.
  - eapply writes_frame; [done|]. intros x Hx.
    apply Hw4, elem_of_cons in Hx as [->|Hx]; [set_solver|].
    apply Hw3, elem_of_cons in Hx as [->|Hx]; [set_solver|]. set_solver.
Qed.
End operations.

(** ** The operations as operations on sequences *)

(** C23 The intrusive list refines sequences: on every list of the heap, inserting an
    element that is in no list, erasing an element, moving a range of another list
    and exchanging two lists return, produce the lists of the corresponding sequences,
    detach what they remove, and leave every other link of the heap as it was. *)
Theorem list2_refines_sequences h hd l1 l2 :
  dlist h hd (l1 ++ l2) →
  (∀ e, h !! e = Some (Elem None None) →
    runs (list2_insert (at_head hd l2) e) h (λ r h',
      r = e ∧ dlist h' hd (l1 ++ e :: l2) ∧ frame (hd :: e :: l1 ++ l2) h h')) ∧
  (∀ e l, l2 = e :: l →
    runs (list2_erase e) h (λ r h',
      r = Some (at_head hd l) ∧ dlist h' hd (l1 ++ l) ∧ h' !! e = Some (Elem None None) ∧
      frame (hd :: l1 ++ e :: l) h h')) ∧
  (∀ hs m1 m m2, dlist h hs (m1 ++ m ++ m2) → (∀ y, y ∈ hd :: l1 ++ l2 → y ∉ hs :: m1 ++ m ++ m2) →
    runs (list2_insert_list (at_head hd l2) (at_head hs (m ++ m2)) (at_head hs m2)) h (λ r h',
      r = at_head hd l2 ∧ dlist h' hd (l1 ++ m ++ l2) ∧ dlist h' hs (m1 ++ m2) ∧
      frame ((hd :: l1 ++ l2) ++ hs :: m1 ++ m ++ m2) h h')) ∧
  (∀ b ys, dlist h b ys → (∀ x, x ∈ hd :: l1 ++ l2 → x ∉ b :: ys) →
    runs (list2_swap hd b) h (λ _ h',
      dlist h' hd ys ∧ dlist h' b (l1 ++ l2) ∧ frame ((hd :: l1 ++ l2) ++ b :: ys) h h')).
Proof.
  intros H. split_and!.
  - intros e He. by apply list2_insert_spec.
  - intros e l ->. by apply list2_erase_spec.
  - intros. by apply list2_insert_list_spec.
  - intros. by apply list2_swap_spec.
Qed.

Definition ex_links : lmem :=
  list_to_map [(1%positive, Elem (Some 3%positive) (Some 2%positive));
               (2%positive, Elem (Some 1%positive) (Some 3%positive));
               (3%positive, Elem (Some 2%positive) (Some 1%positive));
               (4%positive, Elem None None)].

Lemma list2_refines_sequences_witness :
  runs (list2_insert 3 4) ex_links (λ _ h', dlist h' 1 [2; 4; 3]%positive) ∧
  runs (list2_erase 3) ex_links (λ _ h', dlist h' 1 [2]%positive).
Proof.
  destruct (list2_refines_sequences ex_links 1 [2]%positive [3]%positive) as (H1 & H2 & _).
  - split; [|by vm_compute]. cbn. repeat (constructor; [set_solver|]). constructor.
  - split.
    + eapply runs_mono; [apply (H1 4%positive); reflexivity|]. by intros r h' (_ & H & _).
    + eapply runs_mono; [apply (H2 3%positive []); reflexivity|]. by intros r h' (_ & H & _).
Defined.
