(* ===== verification/List.v ===== *)
(** * The doubly linked list with null ends (container/list.h, list.c)

    A [struct list] lies inside the structure it links, as a [struct list2_elem]
    does, and has the same two fields; the address of the structure stands for both
    (the [offset] arithmetic of [getuserptr] and [getlistptr] goes from one to the
    other). The ends of a list are null pointers. The caller keeps its first and its
    last element in variables of its own and passes their addresses, or NULL for one
    it does not keep: [head] and [tail] tell whether they are passed. *)

From S2P Require Import Prelude List2.

(** ** Data *)

Record lstate := LS { ls_links : lmem; ls_head : ptr; ls_tail : ptr }.

Abbreviation LM := (M lstate).

Definition set_llinks (h : lmem) (s : lstate) : lstate := LS h (ls_head s) (ls_tail s).
Definition on_links {A} (m : M lmem A) : LM A := zoom ls_links set_llinks m.
Definition set_lhead (v : ptr) : LM unit := modify (λ s, LS (ls_links s) v (ls_tail s)).
Definition set_ltail (v : ptr) : LM unit := modify (λ s, LS (ls_links s) (ls_head s) v).

(** ** Operations *)

Definition _list_init (l : loc) : LM unit := on_links (modify <[l := Elem None None]>).

Definition list_next (a : loc) : LM ptr := on_links (e ← rd_elem a; ret (next e)).
Definition list_prev (a : loc) : LM ptr := on_links (e ← rd_elem a; ret (prev e)).

Definition _list_remove (l : loc) (head tail : bool) : LM unit :=
  n ← list_next l;
  match n with
  | Some n => p ← list_prev l; on_links (set_prev n p)
  | None =>
      if tail then
        t ← gets ls_tail; c_assert (bool_decide (t = Some l));;
        p ← list_prev l; set_ltail p
      else skip
  end;;
  p ← list_prev l;
  match p with
  | Some p => n ← list_next l; on_links (set_next p n)
  | None =>
      if head then
        h ← gets ls_head; c_assert (bool_decide (h = Some l));;
        n ← list_next l; set_lhead n
      else skip
  end;;
  on_links (set_next l None);;
  on_links (set_prev l None).

(** [assert(!elem->next); assert(!elem->prev)]. *)
Definition unlinked (elem : loc) : LM unit :=
  e ← on_links (rd_elem elem); c_assert (is_null (next e));; c_assert (is_null (prev e)).

Definition _list_insert_after (elem : loc) (l : ptr) (head tail : bool) : LM unit :=
  unlinked elem;;
  l ← match l with
      | Some _ => ret l
      | None =>
          c_assert tail;;
          l ← gets ls_tail;
          match l with Some t => n ← list_next t; c_assert (is_null n) | None => skip end;;
          ret l
      end;
  match l with
  | Some l =>
      n ← list_next l;
      on_links (set_next elem n);;
      n ← list_next l;
      match n with
      | Some n => on_links (set_prev n (Some elem))
      | None =>
          if tail then
            t ← gets ls_tail; c_assert (bool_decide (t = Some l));; set_ltail (Some elem)
          else skip
      end;;
      on_links (set_prev elem (Some l));;
      on_links (set_next l (Some elem))
  | None =>
      (if head then set_lhead (Some elem) else skip);;
      (if tail then set_ltail (Some elem) else skip)
  end.

Definition _list_insert_before (elem : loc) (l : ptr) (head tail : bool) : LM unit :=
  unlinked elem;;
  l ← match l with
      | Some _ => ret l
      | None =>
          c_assert head;;
          l ← gets ls_head;
          match l with Some h => p ← list_prev h; c_assert (is_null p) | None => skip end;;
          ret l
      end;
  match l with
  | Some l =>
      p ← list_prev l;
      on_links (set_prev elem p);;
      p ← list_prev l;
      match p with
      | Some p => on_links (set_next p (Some elem))
      | None =>
          if head then
            h ← gets ls_head; c_assert (bool_decide (h = Some l));; set_lhead (Some elem)
          else skip
      end;;
      on_links (set_next elem (Some l));;
      on_links (set_prev l (Some elem))
  | None =>
      (if head then set_lhead (Some elem) else skip);;
      (if tail then set_ltail (Some elem) else skip)
  end.

(** ** The sequence a heap holds *)

Definition first_or (n : ptr) (xs : list loc) : ptr := match xs with [] => n | x :: _ => Some x end.
Definition last_or (p : ptr) (xs : list loc) : ptr := match last xs with None => p | Some x => Some x end.

(** The elements [xs] between [p] and [n]. *)
Fixpoint seg (h : lmem) (p : ptr) (xs : list loc) (n : ptr) : Prop :=
  match xs with
  | [] => True
  | x :: t => h !! x = Some (Elem p (first_or n t)) ∧ seg h (Some x) t n
  end.

(** The variables of the caller, those it keeps, point to the ends. *)
Record llist (head tail : bool) (s : lstate) (xs : list loc) : Prop := {
  ll_nodup : NoDup xs;
  ll_seg : seg (ls_links s) None xs None;
  ll_head : head = true → ls_head s = first_or None xs;
  ll_tail : tail = true → ls_tail s = last_or None xs;
}.

Section seg.
Implicit Types (h : lmem) (xs l k : list loc).

Lemma first_or_app n l k : first_or n (l ++ k) = first_or (first_or n k) l.
Proof. by destruct l. Qed.

Lemma last_or_cons p x l : last_or p (x :: l) = last_or (Some x) l.
Proof. unfold last_or. destruct l as [|y l]; [done|]. rewrite last_cons_cons. by destruct (last (y :: l)) eqn:E; [|apply last_None in E]. Qed.

Lemma last_or_app p l k : last_or p (l ++ k) = last_or (last_or p l) k.
Proof. unfold last_or. rewrite last_app. by destruct (last k). Qed.

Lemma seg_app h p l k n :
  seg h p (l ++ k) n ↔ seg h p l (first_or n k) ∧ seg h (last_or p l) k n.
Proof.
  revert p. induction l as [|x l IH]; intros p; simpl.
  - unfold last_or. simpl. tauto.
  - rewrite IH, first_or_app, last_or_cons. tauto.
Qed.

Lemma seg_ext h h' p xs n : (∀ x, x ∈ xs → h' !! x = h !! x) → seg h p xs n → seg h' p xs n.
Proof.
  revert p. induction xs as [|x xs IH]; intros p Hx; simpl; [done|]. intros [E Hs].
  rewrite Hx by set_solver. split; [done|]. apply IH; [|done]. set_solver.
Qed.

Lemma seg_out h h' p xs n ys : same_out ys h h' → xs ## ys → seg h p xs n → seg h' p xs n.
Proof. intros Ho Hd. apply seg_ext. intros x Hx. apply Ho. set_solver. Qed.

(** The cell of the first or of the last element is written. *)
Lemma seg_first h p q x xs n : NoDup (x :: xs) → seg h p (x :: xs) n →
  seg (<[x := Elem q (first_or n xs)]> h) q (x :: xs) n.
Proof.
  intros [Hx Hnd]%NoDup_cons [E Hs]. simpl. rewrite lookup_insert_eq. split; [done|].
  eapply seg_ext; [|done]. intros y Hy. rewrite lookup_insert_ne; [done|]. set_solver.
Qed.

Lemma seg_last h p x xs n m : NoDup (xs ++ [x]) → seg h p (xs ++ [x]) n →
  seg (<[x := Elem (last_or p xs) m]> h) p (xs ++ [x]) m.
Proof.
  intros (Hnd & Hx & _)%NoDup_app [Hs [E _]]%seg_app. apply seg_app. simpl. rewrite lookup_insert_eq.
  split; [|done]. eapply seg_ext; [|done]. intros y Hy. rewrite lookup_insert_ne; [done|]. set_solver.
Qed.

Lemma seg_cell h p l x k n : seg h p (l ++ x :: k) n → h !! x = Some (Elem (last_or p l) (first_or n k)).
Proof. rewrite seg_app. simpl. tauto. Qed.

Lemma seg_alloc h p xs n x : seg h p xs n → x ∈ xs → is_Some (h !! x).
Proof. intros Hs (l & k & ->)%list_elem_of_split. apply seg_cell in Hs. eauto. Qed.

(** A list has no more elements than the memory has cells. *)
Lemma seg_length h p xs n : NoDup xs → seg h p xs n → (length xs ≤ size h)%nat.
Proof.
  intros Hnd Hs. rewrite <- size_dom. rewrite <- (size_list_to_set (C:=gset loc)) by done. apply subseteq_size.
  intros x. rewrite elem_of_list_to_set, elem_of_dom. by apply (seg_alloc h p xs n).
Qed.
End seg.

(** ** One assignment to the element behind or in front of a cut *)

Definition to_prev (v : ptr) (e : list2_elem) : list2_elem := Elem v (next e).
Definition to_next (v : ptr) (e : list2_elem) : list2_elem := Elem (prev e) v.

(** [v] becomes the [prev] of the first element of [l], the [next] of its last. *)
Definition wprev (v : ptr) (l : list loc) (h : lmem) : lmem :=
  match l with [] => h | x :: _ => alter (to_prev v) x h end.
Definition wnext (v : ptr) (l : list loc) (h : lmem) : lmem :=
  match last l with None => h | Some x => alter (to_next v) x h end.

Section relink.
Implicit Types (h : lmem) (l k : list loc).

Lemma wprev_ne v l h x : x ∉ l → wprev v l h !! x = h !! x.
Proof. intros Hx. destruct l as [|y l]; simpl; [done|]. apply lookup_alter_ne. set_solver. Qed.

Lemma wnext_ne v l h x : x ∉ l → wnext v l h !! x = h !! x.
Proof.
  intros Hx. unfold wnext. destruct (last l) as [y|] eqn:E; [|done]. apply lookup_alter_ne.
  intros ->. apply last_Some in E as [k ->]. set_solver.
Qed.

Lemma seg_wprev h p q l n : NoDup l → seg h p l n → seg (wprev q l h) q l n.
Proof.
  destruct l as [|x l]; [done|]. intros Hnd Hs. pose proof Hs as [E _].
  assert (wprev q (x :: l) h = <[x := Elem q (first_or n l)]> h) as ->; [|by eapply seg_first].
  simpl. apply map_eq. intros y. destruct (decide (y = x)) as [->|].
  - by rewrite lookup_alter_eq, E, lookup_insert_eq.
  - by rewrite lookup_alter_ne, lookup_insert_ne.
Qed.

Lemma seg_wnext h p l n m : NoDup l → seg h p l n → seg (wnext m l h) p l m.
Proof.
  destruct l as [|x l _] using rev_ind; [done|]. intros Hnd Hs. pose proof (seg_cell _ _ _ _ _ _ Hs) as E.
  assert (wnext m (l ++ [x]) h = <[x := Elem (last_or p l) m]> h) as ->; [|by eapply seg_last].
  unfold wnext. rewrite last_snoc. apply map_eq. intros y. destruct (decide (y = x)) as [->|].
  - by rewrite lookup_alter_eq, E, lookup_insert_eq.
  - by rewrite lookup_alter_ne, lookup_insert_ne.
Qed.

(** The same writes in heaps that agree but at [e]. *)
Lemma alter_out (f : list2_elem → list2_elem) x e h h' : same_out [e] h h' → same_out [e] (alter f x h) (alter f x h').
Proof.
  intros Ho y Hy. destruct (decide (y = x)) as [->|].
  - rewrite !lookup_alter_eq. by rewrite Ho.
  - rewrite !lookup_alter_ne by done. by apply Ho.
Qed.
Lemma alter_at (f : list2_elem → list2_elem) e h h' : same_out [e] h h' → same_out [e] h (alter f e h').
Proof. intros Ho y Hy. rewrite lookup_alter_ne by set_solver. by apply Ho. Qed.
Lemma wprev_out v l e h h' : same_out [e] h h' → same_out [e] (wprev v l h) (wprev v l h').
Proof. destruct l; [done|]. apply alter_out. Qed.
Lemma wnext_out v l e h h' : same_out [e] h h' → same_out [e] (wnext v l h) (wnext v l h').
Proof. unfold wnext. destruct (last l); [|done]. apply alter_out. Qed.
Lemma wnext_alter v l (f : list2_elem → list2_elem) x h : x ∉ l → alter f x (wnext v l h) = wnext v l (alter f x h).
Proof.
  intros Hx. unfold wnext. destruct (last l) as [y|] eqn:E; [|done]. apply last_Some in E as [k ->].
  apply alter_alter_ne. set_solver.
Qed.

(** Both sides of a cut are linked to what lies between them. *)
Lemma seg_relink h l1 l2 xs n m h' :
  NoDup (l1 ++ l2) → seg h None l1 n → seg h m l2 None →
  (∀ x, x ∈ l1 ++ l2 → h' !! x = wnext (first_or (first_or None l2) xs) l1 (wprev (last_or (last_or None l1) xs) l2 h) !! x) →
  seg h' (last_or None l1) xs (first_or None l2) →
  seg h' None (l1 ++ xs ++ l2) None.
Proof.
  intros (Hn1 & Hd & Hn2)%NoDup_app H1 H2 Hh Hx. rewrite app_assoc, !seg_app, last_or_app. split_and!; [|done|].
  - eapply seg_ext; [intros; apply Hh; set_solver|]. eapply seg_wnext; [done|].
    eapply seg_ext; [|done]. intros x Hx1. apply wprev_ne. intros Hx2. by apply (Hd x).
  - eapply seg_ext; [intros x Hx2; rewrite Hh, wnext_ne; [done| |set_solver]|by eapply seg_wprev].
    intros Hx1. by apply (Hd x).
Qed.
End relink.

(** ** Runs of the accesses *)

Section lruns.
Implicit Types s : lstate.

Lemma runs_list_next s a e Q : ls_links s !! a = Some e → Q (next e) s → runs (list_next a) s Q.
Proof. intros E HQ. unfold list_next, on_links. step. call runs_rd_elem; [done|]. step. by destruct s. Qed.

Lemma runs_list_prev s a e Q : ls_links s !! a = Some e → Q (prev e) s → runs (list_prev a) s Q.
Proof. intros E HQ. unfold list_prev, on_links. step. call runs_rd_elem; [done|]. step. by destruct s. Qed.

Lemma insert_alter (f : list2_elem → list2_elem) (h : lmem) x e : h !! x = Some e → <[x := f e]> h = alter f x h.
Proof.
  intros E. apply map_eq. intros y. destruct (decide (y = x)) as [->|].
  - by rewrite lookup_alter_eq, E, lookup_insert_eq.
  - by rewrite lookup_alter_ne, lookup_insert_ne.
Qed.

Lemma runs_to_next s x v Q : is_Some (ls_links s !! x) →
  Q tt (set_llinks (alter (to_next v) x (ls_links s)) s) → runs (on_links (set_next x v)) s Q.
Proof.
  intros [e E] HQ. unfold on_links, set_next. step. call runs_rd_elem; [done|]. step.
  by rewrite <- (insert_alter _ _ _ _ E) in HQ.
Qed.

Lemma runs_to_prev s x v Q : is_Some (ls_links s !! x) →
  Q tt (set_llinks (alter (to_prev v) x (ls_links s)) s) → runs (on_links (set_prev x v)) s Q.
Proof.
  intros [e E] HQ. unfold on_links, set_prev. step. call runs_rd_elem; [done|]. step.
  by rewrite <- (insert_alter _ _ _ _ E) in HQ.
Qed.

Lemma runs_unlinked s x Q : ls_links s !! x = Some (Elem None None) → Q tt s → runs (unlinked x) s Q.
Proof.
  intros E HQ. unfold unlinked. apply runs_bind. unfold on_links. step. eapply runs_rd_elem; [done|].
  destruct s. by step; step.
Qed.
End lruns.

(** What an operation leaves alone: cells outside of [ws], variables that are not
    passed. *)
Record lkeeps (head tail : bool) (ws : list loc) (s s' : lstate) : Prop := {
  lk_out : same_out ws (ls_links s) (ls_links s');
  lk_head : head = false → ls_head s' = ls_head s;
  lk_tail : tail = false → ls_tail s' = ls_tail s;
}.

Section ops.
Implicit Types s : lstate.

(** The variables after the list has become [xs]. *)
Definition ends (head tail : bool) (xs : list loc) (s : lstate) : lstate :=
  LS (ls_links s) (if head then first_or None xs else ls_head s) (if tail then last_or None xs else ls_tail s).

Lemma runs_list_remove_eq head tail s l1 x l2 : llist head tail s (l1 ++ x :: l2) →
  runs (_list_remove x head tail) s (λ _ s', s' = ends head tail (l1 ++ l2)
    (set_llinks (alter (to_prev None) x (alter (to_next None) x
      (wnext (first_or None l2) l1 (wprev (last_or None l1) l2 (ls_links s))))) s)).
Proof.
  intros [Hnd Hs Hh Ht]. pose proof (seg_cell _ _ _ _ _ _ Hs) as E.
  assert (x ∉ l1 ∧ x ∉ l2 ∧ l1 ## l2) as (X1 & X2 & D).
  { apply NoDup_app in Hnd as (N1 & D & [N2 _]%NoDup_cons). set_solver. }
  assert (∀ y, y ∈ l1 ++ x :: l2 → is_Some (ls_links s !! y)) as Al by (intros; by eapply seg_alloc).
  unfold _list_remove. call runs_list_next; [done|]. simpl. destruct s as [h hd tl]; simpl in *.
  apply (runs_seq _ _ _ (λ _ s', s' = LS (wprev (last_or None l1) l2 h) hd
    (if tail then match l2 with [] => last_or None l1 | _ => tl end else tl))).
  { destruct l2 as [|n l2]; simpl.
    - destruct tail; [|by apply runs_ret]. step. rewrite Ht, last_or_app by done. step; [by apply bool_decide_true|].
      call runs_list_prev; [done|]. unfold set_ltail. by step.
    - call runs_list_prev; [done|]. apply runs_to_prev; [|by destruct tail]. apply Al. set_solver. }
  intros _ ? ->. call runs_list_prev; [simpl; by rewrite wprev_ne|]. simpl.
  apply (runs_seq _ _ _ (λ _ s', s' = LS (wnext (first_or None l2) l1 (wprev (last_or None l1) l2 h))
    (if head then match l1 with [] => first_or None l2 | _ => hd end else hd)
    (if tail then match l2 with [] => last_or None l1 | _ => tl end else tl))).
  { destruct l1 as [|p l1 _] using rev_ind; simpl.
    - destruct head; [|by apply runs_ret]. step. rewrite Hh by done. step; [by apply bool_decide_true|].
      call runs_list_next; [simpl; by rewrite wprev_ne|]. unfold set_lhead. by step.
    - rewrite last_or_app. simpl. call runs_list_next; [simpl; by rewrite wprev_ne|].
      apply runs_to_next; [simpl; rewrite wprev_ne by set_solver; apply Al; set_solver|].
      unfold wnext. rewrite last_snoc. destruct head; [|done]. by destruct (l1 ++ [p]) eqn:El; [by destruct l1|]. }
  intros _ ? ->. set (h2 := wnext _ _ _).
  assert (h2 !! x = h !! x) as E2 by (unfold h2; by rewrite wnext_ne, wprev_ne).
  apply runs_bind, runs_to_next; [simpl; rewrite E2, E; eauto|].
  apply runs_to_prev; [simpl; rewrite lookup_alter_eq, E2, E; eauto|].
  unfold ends, set_llinks. simpl. f_equal.
  - destruct head; [|done]. destruct l1; simpl; [done|]. by rewrite Hh.
  - destruct tail; [|done]. destruct l2; [by rewrite app_nil_r|]. by rewrite Ht, !last_or_app, !last_or_cons by done.
Qed.

(** The links of the elements of a list, and of one that was taken out. *)
Lemma runs_list_remove head tail s l1 x l2 Q : llist head tail s (l1 ++ x :: l2) →
  (∀ s', llist head tail s' (l1 ++ l2) → ls_links s' !! x = Some (Elem None None) →
    lkeeps head tail (l1 ++ x :: l2) s s' → Q tt s') →
  runs (_list_remove x head tail) s Q.
Proof.
  intros Hl HQ. eapply runs_mono; [by apply runs_list_remove_eq|]. intros [] s' Es. destruct Hl as [Hnd Hs Hh Ht].
  assert (NoDup (l1 ++ l2) ∧ x ∉ l1 ∧ x ∉ l2) as (Hnd' & X1 & X2).
  { rewrite <- Permutation_middle in Hnd. apply NoDup_cons in Hnd as [Hx Hnd]. set_solver. }
  pose proof Hs as [S1 [E S2]]%seg_app. apply HQ; subst s'; simpl.
  - split; simpl; [done| |by intros ->|by intros ->].
    eapply (seg_relink (ls_links s) l1 l2 []); [done..| |done].
    intros y Hy. rewrite !lookup_alter_ne by set_solver. done.
  - rewrite lookup_alter_eq, lookup_alter_eq, wnext_ne, wprev_ne, E by done. done.
  - split; simpl; [|by intros ->|by intros ->]. intros y Hy.
    rewrite !lookup_alter_ne by set_solver. rewrite wnext_ne, wprev_ne by set_solver. done.
Qed.

(** ** Insertion *)

Lemma llist_inserted head tail s l1 l2 elem h' :
  llist head tail s (l1 ++ l2) → elem ∉ l1 ++ l2 →
  same_out [elem] (wnext (Some elem) l1 (wprev (Some elem) l2 (ls_links s))) h' →
  h' !! elem = Some (Elem (last_or None l1) (first_or None l2)) →
  let s' := ends head tail (l1 ++ elem :: l2) (set_llinks h' s) in
  llist head tail s' (l1 ++ elem :: l2) ∧ lkeeps head tail (elem :: l1 ++ l2) s s'.
Proof.
  intros [Hnd Hs Hh Ht] Hx Hy He. simpl. pose proof Hs as [S1 S2]%seg_app. split; split; simpl; try by intros ->.
  - rewrite <- Permutation_middle. by apply NoDup_cons.
  - apply (seg_relink (ls_links s) l1 l2 [elem] (first_or None l2) (last_or None l1)); [done..| |done].
    intros y Hyi. apply Hy. set_solver.
  - intros y Hyo. rewrite Hy, wnext_ne, wprev_ne by set_solver. done.
Qed.

(** The place [l] names for an insertion behind it, or in front of it, is the cut
    between [l1] and [l2]. *)
Definition cut_after (l : ptr) (tail : bool) (l1 l2 : list loc) : Prop :=
  match l with Some x => last l1 = Some x | None => tail = true ∧ l2 = [] end.
Definition cut_before (l : ptr) (head : bool) (l1 l2 : list loc) : Prop :=
  match l with Some x => first_or None l2 = Some x | None => head = true ∧ l1 = [] end.

Lemma runs_list_insert_after head tail s l l1 l2 elem Q :
  llist head tail s (l1 ++ l2) → cut_after l tail l1 l2 →
  ls_links s !! elem = Some (Elem None None) → elem ∉ l1 ++ l2 →
  (∀ s', llist head tail s' (l1 ++ elem :: l2) → lkeeps head tail (elem :: l1 ++ l2) s s' → Q tt s') →
  runs (_list_insert_after elem l head tail) s Q.
Proof.
  intros Hl Hc He Hx HQ. pose proof Hl as [Hnd Hs Hh Ht]. unfold _list_insert_after.
  apply runs_bind, runs_unlinked; [done|].
  apply (runs_seq _ _ _ (λ a s', s' = s ∧ a = last l1 ∧ (l1 = [] → l2 = []))).
  { destruct l as [x|]; simpl in Hc.
    - step. split_and!; [done..|]. by intros ->.
    - destruct Hc as [-> ->]. rewrite app_nil_r in *. step. step. rewrite Ht by done. unfold last_or.
      destruct (last l1) as [x|] eqn:El.
      + apply last_Some in El as [k ->]. apply seg_cell in Hs. apply runs_bind. call runs_list_next; [done|]. by step; step.
      + by apply runs_bind, runs_ret, runs_ret. }
  intros ? ? (-> & -> & H0). destruct (last l1) as [x|] eqn:El.
  2: { apply last_None in El as ->. rewrite H0 in * by done. simpl in *.
    destruct (llist_inserted head tail s [] [] elem (ls_links s)) as [L K]; [done..|].
    destruct s as [h hd tl]. unfold ends, set_llinks in *. simpl in *.
    destruct head, tail; repeat (apply runs_bind || apply runs_modify || apply runs_ret || unfold skip, set_lhead, set_ltail); by apply HQ. }
  apply last_Some in El as [k ->]. rewrite <- app_assoc in Hs. pose proof (seg_cell _ _ _ _ _ _ Hs) as Ex.
  assert (elem ≠ x ∧ elem ∉ l2 ∧ x ∉ l2) as (N1 & N2 & N3).
  { apply NoDup_app in Hnd as (_ & D & _). split_and!; [set_solver..|]. intros Hi. apply (D x); set_solver. }
  call runs_list_next; [done|]. simpl.
  apply runs_bind, runs_to_next; [by rewrite He|].
  call runs_list_next; [simpl; by rewrite lookup_alter_ne|]. simpl.
  apply (runs_seq _ _ _ (λ _ s', s' = ends head tail ((k ++ [x]) ++ elem :: l2)
     (set_llinks (wprev (Some elem) l2 (alter (to_next (first_or None l2)) elem (ls_links s))) s))).
  { assert ((if head then first_or None ((k ++ [x]) ++ elem :: l2) else ls_head s) = ls_head s) as Eh.
    { destruct head; [|done]. rewrite Hh, <- app_assoc by done. by destruct k. }
    unfold ends, set_llinks. simpl. rewrite Eh. destruct l2 as [|n l2]; simpl.
    - destruct tail; [|by apply runs_ret]. step. simpl. rewrite Ht, app_nil_r, last_or_app by done.
      step; [by apply bool_decide_true|]. unfold set_ltail. step. simpl. by rewrite last_or_app.
    - apply runs_to_prev; [simpl; rewrite lookup_alter_ne by set_solver; eapply seg_alloc; [done|set_solver]|].
      unfold set_llinks. simpl. f_equal. destruct tail; [|done]. by rewrite Ht, !last_or_app, !last_or_cons by done. }
  intros _ ? ->. set (h1 := wprev _ _ _).
  apply runs_bind, runs_to_prev; [unfold ends, set_llinks, h1; simpl; rewrite wprev_ne, lookup_alter_eq, He by done; eauto|].
  apply runs_to_next; [unfold ends, set_llinks, h1; simpl; rewrite lookup_alter_ne, wprev_ne, lookup_alter_ne, Ex by done; eauto|].
  unfold ends at 1, set_llinks at 1. simpl.
  destruct (llist_inserted head tail s (k ++ [x]) l2 elem (alter (to_next (Some elem)) x (alter (to_prev (Some x)) elem h1)))
    as [L K]; [done|done|..|by apply HQ].
  - unfold wnext. rewrite last_snoc. apply alter_out, alter_at, wprev_out, alter_at. done.
  - rewrite lookup_alter_ne, lookup_alter_eq by done. unfold h1. rewrite wprev_ne, lookup_alter_eq, He by done.
    by rewrite last_or_app.
Qed.

Lemma runs_list_insert_before head tail s l l1 l2 elem Q :
  llist head tail s (l1 ++ l2) → cut_before l head l1 l2 →
  ls_links s !! elem = Some (Elem None None) → elem ∉ l1 ++ l2 →
  (∀ s', llist head tail s' (l1 ++ elem :: l2) → lkeeps head tail (elem :: l1 ++ l2) s s' → Q tt s') →
  runs (_list_insert_before elem l head tail) s Q.
Proof.
  intros Hl Hc He Hx HQ. pose proof Hl as [Hnd Hs Hh Ht]. unfold _list_insert_before.
  apply runs_bind, runs_unlinked; [done|].
  apply (runs_seq _ _ _ (λ a s', s' = s ∧ a = first_or None l2 ∧ (l2 = [] → l1 = []))).
  { destruct l as [x|]; simpl in Hc.
    - step. split_and!; [done..|]. by intros ->.
    - destruct Hc as [-> ->]. simpl in *. step. step. rewrite Hh by done.
      destruct l2 as [|x k]; simpl; [by apply runs_bind, runs_ret, runs_ret|].
      apply runs_bind. call runs_list_prev; [apply Hs|]. by step; step. }
  intros ? ? (-> & -> & H0). destruct l2 as [|x k]; simpl.
  { rewrite H0 in * by done. simpl in *.
    destruct (llist_inserted head tail s [] [] elem (ls_links s)) as [L K]; [done..|].
    destruct s as [h hd tl]. unfold ends, set_llinks in *. simpl in *.
    destruct head, tail; repeat (apply runs_bind || apply runs_modify || apply runs_ret || unfold skip, set_lhead, set_ltail); by apply HQ. }
  pose proof (seg_cell _ _ _ _ _ _ Hs) as Ex.
  assert (elem ≠ x ∧ elem ∉ l1 ∧ x ∉ l1) as (N1 & N2 & N3).
  { apply NoDup_app in Hnd as (_ & D & _). split_and!; [set_solver..|]. intros Hi. apply (D x); set_solver. }
  call runs_list_prev; [done|]. simpl.
  apply runs_bind, runs_to_prev; [by rewrite He|].
  call runs_list_prev; [simpl; by rewrite lookup_alter_ne|]. simpl.
  apply (runs_seq _ _ _ (λ _ s', s' = ends head tail (l1 ++ elem :: x :: k)
     (set_llinks (wnext (Some elem) l1 (alter (to_prev (last_or None l1)) elem (ls_links s))) s))).
  { assert ((if tail then last_or None (l1 ++ elem :: x :: k) else ls_tail s) = ls_tail s) as Et.
    { destruct tail; [|done]. by rewrite Ht, !last_or_app, !last_or_cons by done. }
    unfold ends, set_llinks. simpl. rewrite Et. destruct l1 as [|p l1 _] using rev_ind; simpl.
    - destruct head; [|by apply runs_ret]. step. simpl. rewrite Hh by done.
      step; [by apply bool_decide_true|]. unfold set_lhead. by step.
    - rewrite last_or_app. simpl. apply runs_to_prev || apply runs_to_next;
        [simpl; rewrite lookup_alter_ne by set_solver; eapply seg_alloc; [done|set_solver]|].
      unfold set_llinks, wnext. rewrite last_snoc. simpl. f_equal. destruct head; [|done].
      rewrite Hh, <- !app_assoc by done. by destruct l1. }
  intros _ ? ->. set (h1 := wnext _ _ _).
  apply runs_bind, runs_to_next; [unfold ends, set_llinks, h1; simpl; rewrite wnext_ne, lookup_alter_eq, He by done; eauto|].
  apply runs_to_prev; [unfold ends, set_llinks, h1; simpl; rewrite lookup_alter_ne, wnext_ne, lookup_alter_ne, Ex by done; eauto|].
  unfold ends at 1, set_llinks at 1. simpl.
  destruct (llist_inserted head tail s l1 (x :: k) elem (alter (to_prev (Some elem)) x (alter (to_next (Some x)) elem h1)))
    as [L K]; [done|done|..|by apply HQ].
  - cbn [wprev]. rewrite <- wnext_alter by done. apply alter_out, alter_at, wnext_out, alter_at. done.
  - rewrite lookup_alter_ne, lookup_alter_eq by done. unfold h1. by rewrite wnext_ne, lookup_alter_eq, He by done.
Qed.
End ops.

(** ** Refinement of sequences *)

Inductive lop :=
  | Remove (x : loc)
  | Insert_after (x : loc) (l : ptr)
  | Insert_before (x : loc) (l : ptr).

Definition exec_lop (head tail : bool) (o : lop) : LM unit :=
  match o with
  | Remove x => _list_remove x head tail
  | Insert_after x l => _list_insert_after x l head tail
  | Insert_before x l => _list_insert_before x l head tail
  end.

Fixpoint exec_lops (head tail : bool) (os : list lop) : LM unit :=
  match os with [] => skip | o :: os => exec_lop head tail o;; exec_lops head tail os end.

(** What the operations do to a sequence of elements out of [pool]. *)
Inductive seq_lops (head tail : bool) (pool : list loc) : list lop → list loc → list loc → Prop :=
  | seq_nil xs : seq_lops head tail pool [] xs xs
  | seq_remove x l1 l2 os ys :
      seq_lops head tail pool os (l1 ++ l2) ys → seq_lops head tail pool (Remove x :: os) (l1 ++ x :: l2) ys
  | seq_after x l l1 l2 os ys :
      x ∈ pool → x ∉ l1 ++ l2 → cut_after l tail l1 l2 →
      seq_lops head tail pool os (l1 ++ x :: l2) ys → seq_lops head tail pool (Insert_after x l :: os) (l1 ++ l2) ys
  | seq_before x l l1 l2 os ys :
      x ∈ pool → x ∉ l1 ++ l2 → cut_before l head l1 l2 →
      seq_lops head tail pool os (l1 ++ x :: l2) ys → seq_lops head tail pool (Insert_before x l :: os) (l1 ++ l2) ys.

(** Elements of the pool that are not in the list have null links. *)
Record pool_ok (pool : list loc) (s : lstate) (xs : list loc) : Prop := {
  po_in : ∀ x, x ∈ xs → x ∈ pool;
  po_free : ∀ x, x ∈ pool → x ∉ xs → ls_links s !! x = Some (Elem None None);
}.

Lemma pool_ok_step pool head tail ws s s' xs ys :
  pool_ok pool s xs → lkeeps head tail ws s s' → (∀ x, x ∈ ys → x ∈ pool) →
  (∀ x, x ∈ ws → x ∈ xs ++ ys) → (∀ x, x ∈ xs → x ∉ ys → ls_links s' !! x = Some (Elem None None)) →
  pool_ok pool s' ys.
Proof.
  intros [Hi Hf] [Ho _ _] Hy Hw Hx. split; [done|]. intros x Hp Hn.
  destruct (decide (x ∈ xs)) as [Hxs|Hxs]; [by apply Hx|]. rewrite Ho; [by apply Hf|].
  intros [?|?]%Hw%elem_of_app; done.
Qed.

Lemma pool_ok_insert pool head tail s s' x l1 l2 :
  pool_ok pool s (l1 ++ l2) → x ∈ pool → lkeeps head tail (x :: l1 ++ l2) s s' →
  pool_ok pool s' (l1 ++ x :: l2) ∧ ∀ y, y ∈ x :: l1 ++ l2 → y ∈ pool.
Proof.
  intros Hp Hx K. assert (∀ y, y ∈ x :: l1 ++ l2 → y ∈ pool) as Hin.
  { intros y [->|Hy]%elem_of_cons; [done|]. by apply (po_in _ _ _ Hp). }
  split; [|done]. eapply pool_ok_step; [done..|intros; apply Hin; set_solver|set_solver|set_solver].
Qed.

Lemma lkeeps_trans head tail ws pool s s' s'' :
  lkeeps head tail ws s s' → (∀ x, x ∈ ws → x ∈ pool) → lkeeps head tail pool s' s'' → lkeeps head tail pool s s''.
Proof.
  intros [O1 H1 T1] Hw [O2 H2 T2]. split.
  - intros x Hx. rewrite O2, O1; [done| |done]. by intros ?%Hw.
  - intros E. by rewrite H2, H1.
  - intros E. by rewrite T2, T1.
Qed.

(** C24 The list of list.c refines sequences: whatever sequence of removals and of
    insertions behind or in front of an element, or at an end, is made, with or
    without a variable for the first and the last element, no assertion fails, the
    memory holds the sequence the operations denote, the variables point to its ends,
    and elements outside of it have null links. *)
Theorem list_refines_sequences head tail pool os s xs ys :
  llist head tail s xs → pool_ok pool s xs → seq_lops head tail pool os xs ys →
  runs (exec_lops head tail os) s (λ _ s', llist head tail s' ys ∧ pool_ok pool s' ys ∧ lkeeps head tail pool s s').
Proof.
  intros Hl Hp Hs. revert s Hl Hp.
  induction Hs as [xs|x l1 l2 os ys Hs IH|x l l1 l2 os ys Hxp Hx Hc Hs IH|x l l1 l2 os ys Hxp Hx Hc Hs IH];
    intros s Hl Hp; simpl.
  - apply runs_ret. split_and!; [done..|]. by split.
  - call runs_list_remove; [done|]. intros s' Hl' E K.
    assert (pool_ok pool s' (l1 ++ l2)) as Hp'.
    { eapply pool_ok_step; [done..| | |]; [|set_solver|]; [intros; apply (po_in _ _ _ Hp); set_solver|].
      intros y Hy Hn. assert (y = x) as -> by set_solver. done. }
    eapply runs_mono; [by apply IH|]. intros [] s'' (? & ? & K'). split_and!; [done..|].
    eapply lkeeps_trans; [done| |done]. apply (po_in _ _ _ Hp).
  - call runs_list_insert_after; [done..|by apply (po_free _ _ _ Hp)|done|]. intros s' Hl' K.
    destruct (pool_ok_insert _ _ _ _ _ _ _ _ Hp Hxp K) as [Hp' Hin].
    eapply runs_mono; [by apply IH|]. intros [] s'' (? & ? & K'). split_and!; [done..|].
    by eapply lkeeps_trans.
  - call runs_list_insert_before; [done..|by apply (po_free _ _ _ Hp)|done|]. intros s' Hl' K.
    destruct (pool_ok_insert _ _ _ _ _ _ _ _ Hp Hxp K) as [Hp' Hin].
    eapply runs_mono; [by apply IH|]. intros [] s'' (? & ? & K'). split_and!; [done..|].
    by eapply lkeeps_trans.
Qed.

(** Three elements go into an empty list, at its end and in front of the second; the
    second is removed. *)
Lemma list_refines_sequences_witness :
  let h := list_to_map [(1%positive, Elem None None); (2%positive, Elem None None); (3%positive, Elem None None)] in
  runs (exec_lops true true [Insert_after 1 None; Insert_after 2 None; Insert_before 3 (Some 2%positive); Remove 2]%positive)
    (LS h None None) (λ _ s', ls_head s' = Some 1%positive ∧ ls_tail s' = Some 3%positive).
Proof.
  set (h := list_to_map _). cbv zeta.
  eapply runs_mono; [apply (list_refines_sequences true true [1; 2; 3]%positive _ _ [] [1; 3]%positive)|].
  - by repeat split; simpl; try constructor.
  - split; [set_solver|]. intros x Hx _. repeat (apply elem_of_cons in Hx as [->|Hx]; [reflexivity|]). set_solver.
  - eapply (seq_after _ _ _ _ _ [] []); [set_solver..|done|]. eapply (seq_after _ _ _ _ _ [1%positive] []); [set_solver..|done|].
    eapply (seq_before _ _ _ _ _ [1%positive] [2%positive]); [set_solver..|done|].
    apply (seq_remove _ _ _ _ [1; 3]%positive []). apply seq_nil.
  - intros [] s' ([_ _ Hh Ht] & _ & _). by rewrite Hh, Ht.
Defined.
