(* ===== verification/VbHeap.v ===== *)
(** * Memory blocks, chunks and buffers (lib/haka/vbuffer_data.c, vbuffer.c)

    The state of the buffer library: the heap of chunks, of data blocks and of
    the list links the chunks embed, the error of the thread (error.c) and the
    allocator. A chunk is designated by its address, which is also the address
    of its [list] member. A buffer is the address of its end chunk.

    The allocator is adversarial: [vb_mem] is the number of [malloc] calls that
    still succeed, and fresh memory holds the arbitrary byte [vb_junk]. *)

From S2P Require Import Prelude List2.

(** ** Data *)

Record vbuffer_chunk_flags := Flags {
  fl_end : bool;
  fl_eof : bool;
  fl_modified : bool;
  fl_writable : bool;
  fl_ctl : bool;
}.

Record vbuffer_chunk := Chunk {
  ch_ref : Z;
  ch_flags : vbuffer_chunk_flags;
  ch_data : ptr;
  ch_offset : Z;
  ch_size : Z;
}.

(** The concrete data blocks; the constructor is the [ops] table of the block. *)
Inductive vbuffer_data_body :=
  | vbuffer_data_basic_ops (size : Z) (buffer : list Z)
  | vbuffer_data_ctl_select_ops
  | vbuffer_data_ctl_push_ops (stream : loc) (chunk : ptr)
  | vbuffer_data_ctl_mark_ops (readonly : bool).

Record vbuffer_data := Data { dt_ref : Z; dt_body : vbuffer_data_body }.

(** [vbuffer_iterator] and [vbuffer], values of the callers. *)
Record vbuffer_iterator := Iter {
  it_chunk : ptr;
  it_offset : Z;
  it_meter : Z;
  it_registered : bool;
}.

Abbreviation vbuffer := (option positive) (only parsing).

Record vbstate := VB {
  vb_links : lmem;
  vb_chunks : gmap loc vbuffer_chunk;
  vb_datas : gmap loc vbuffer_data;
  vb_error : option string;
  vb_mem : nat;
  vb_fresh : loc;
  vb_junk : Z;
}.

Definition set_links (l : lmem) (s : vbstate) : vbstate :=
  VB l (vb_chunks s) (vb_datas s) (vb_error s) (vb_mem s) (vb_fresh s) (vb_junk s).
Definition set_chunks (c : gmap loc vbuffer_chunk) (s : vbstate) : vbstate :=
  VB (vb_links s) c (vb_datas s) (vb_error s) (vb_mem s) (vb_fresh s) (vb_junk s).
Definition set_datas (d : gmap loc vbuffer_data) (s : vbstate) : vbstate :=
  VB (vb_links s) (vb_chunks s) d (vb_error s) (vb_mem s) (vb_fresh s) (vb_junk s).
Definition set_error (e : option string) (s : vbstate) : vbstate :=
  VB (vb_links s) (vb_chunks s) (vb_datas s) e (vb_mem s) (vb_fresh s) (vb_junk s).

Abbreviation VM := (M vbstate).

(** ** Errors (lib/haka/error.c)

    The first error of the thread is kept until it is cleared. *)

Definition raised (msg : string) (s : vbstate) : vbstate :=
  if vb_error s is Some _ then s else set_error (Some msg) s.
Definition error (msg : string) : VM unit := modify (raised msg).

Definition check_error : VM bool :=
  gets (λ s, negb (is_null (vb_error s))).

Definition clear_error : VM (option string) :=
  e ← gets vb_error; modify (set_error None);; ret e.

(** ** Memory *)

Definition malloc : VM ptr := λ s,
  match vb_mem s with
  | O => Some (None, s)
  | S n => Some (Some (vb_fresh s),
      VB (vb_links s) (vb_chunks s) (vb_datas s) (vb_error s) n (Pos.succ (vb_fresh s)) (vb_junk s))
  end.

Definition rd_chunk (c : loc) : VM vbuffer_chunk :=
  o ← gets (λ s, vb_chunks s !! c); deref o.
Definition wr_chunk (c : loc) (ch : vbuffer_chunk) : VM unit :=
  modify (λ s, set_chunks (<[c := ch]> (vb_chunks s)) s).
Definition upd_chunk (c : loc) (f : vbuffer_chunk → vbuffer_chunk) : VM unit :=
  ch ← rd_chunk c; wr_chunk c (f ch).
Definition free_chunk (c : loc) : VM unit :=
  modify (λ s, set_links (delete c (vb_links s)) (set_chunks (delete c (vb_chunks s)) s)).

Definition rd_data (d : loc) : VM vbuffer_data :=
  o ← gets (λ s, vb_datas s !! d); deref o.
Definition wr_data (d : loc) (dt : vbuffer_data) : VM unit :=
  modify (λ s, set_datas (<[d := dt]> (vb_datas s)) s).
Definition free_data (d : loc) : VM unit :=
  modify (λ s, set_datas (delete d (vb_datas s)) s).

(** A list2.c operation on the links of the chunks. *)
Definition lnk {A} (m : M lmem A) : VM A := zoom vb_links set_links m.

(** Fields of a chunk. *)
Definition set_flags (fl : vbuffer_chunk_flags) (c : vbuffer_chunk) : vbuffer_chunk :=
  Chunk (ch_ref c) fl (ch_data c) (ch_offset c) (ch_size c).
Definition set_ref (r : Z) (c : vbuffer_chunk) : vbuffer_chunk :=
  Chunk r (ch_flags c) (ch_data c) (ch_offset c) (ch_size c).
Definition set_data (d : ptr) (c : vbuffer_chunk) : vbuffer_chunk :=
  Chunk (ch_ref c) (ch_flags c) d (ch_offset c) (ch_size c).
Definition set_size (n : Z) (c : vbuffer_chunk) : vbuffer_chunk :=
  Chunk (ch_ref c) (ch_flags c) (ch_data c) (ch_offset c) n.
Definition set_modified (b : bool) (c : vbuffer_chunk) : vbuffer_chunk :=
  let f := ch_flags c in set_flags (Flags (fl_end f) (fl_eof f) b (fl_writable f) (fl_ctl f)) c.
Definition set_writable (b : bool) (c : vbuffer_chunk) : vbuffer_chunk :=
  let f := ch_flags c in set_flags (Flags (fl_end f) (fl_eof f) (fl_modified f) b (fl_ctl f)) c.
Definition set_eof (b : bool) (c : vbuffer_chunk) : vbuffer_chunk :=
  let f := ch_flags c in set_flags (Flags (fl_end f) b (fl_modified f) (fl_writable f) (fl_ctl f)) c.
Definition set_end (b : bool) (c : vbuffer_chunk) : vbuffer_chunk :=
  let f := ch_flags c in set_flags (Flags b (fl_eof f) (fl_modified f) (fl_writable f) (fl_ctl f)) c.
Definition set_ctl (b : bool) (c : vbuffer_chunk) : vbuffer_chunk :=
  let f := ch_flags c in set_flags (Flags (fl_end f) (fl_eof f) (fl_modified f) (fl_writable f) b) c.

(** ** vbuffer_data.c *)

Definition data_addref (d : loc) : VM unit :=
  dt ← rd_data d; wr_data d (Data (u32 (dt_ref dt + 1)) (dt_body dt)).

(** [ops->release]: true when the count reaches zero. *)
Definition data_release (d : loc) : VM bool :=
  dt ← rd_data d;
  let r := u32 (dt_ref dt - 1) in
  wr_data d (Data r (dt_body dt));; ret (bool_decide (r = 0)).

(** [ops->get]: the address of byte 0, a pointer is a block and an offset. *)
Definition data_get (d : loc) (write : bool) : VM (option (loc * Z)) :=
  dt ← rd_data d;
  ret (match dt_body dt with
       | vbuffer_data_basic_ops _ _ => Some (d, 0)
       | _ => None
       end).

Definition vbuffer_data_release (data : ptr) : VM unit :=
  match data with
  | None => skip
  | Some d => b ← data_release d; if b then free_data d else skip
  end.

Definition new_data (body : Z → vbuffer_data_body) : VM ptr :=
  p ← malloc;
  match p with
  | None => error "memory error";; ret None
  | Some d => j ← gets vb_junk; wr_data d (Data 0 (body j));; ret (Some d)
  end.

Definition vbuffer_data_basic (size : Z) (zero : bool) : VM ptr :=
  new_data (λ junk, vbuffer_data_basic_ops size
              (replicate (Z.to_nat size) (if zero then 0 else junk))).
Definition vbuffer_data_ctl_select : VM ptr :=
  new_data (λ _, vbuffer_data_ctl_select_ops).
Definition vbuffer_data_ctl_push (stream : loc) (chunk : ptr) : VM ptr :=
  new_data (λ _, vbuffer_data_ctl_push_ops stream chunk).
Definition vbuffer_data_ctl_mark (readonly : bool) : VM ptr :=
  new_data (λ _, vbuffer_data_ctl_mark_ops readonly).

(** Reads and writes through a byte pointer. *)
Definition ptr_read (p : loc * Z) (len : Z) : VM (list Z) :=
  dt ← rd_data p.1;
  match dt_body dt with
  | vbuffer_data_basic_ops _ b =>
      c_assert (bool_decide (0 ≤ p.2 ∧ p.2 + len ≤ zlen b));; ret (zslice p.2 len b)
  | _ => stuck
  end.

Definition ptr_write (p : loc * Z) (bs : list Z) : VM unit :=
  dt ← rd_data p.1;
  match dt_body dt with
  | vbuffer_data_basic_ops n b =>
      c_assert (bool_decide (0 ≤ p.2 ∧ p.2 + zlen bs ≤ zlen b));;
      wr_data p.1 (Data (dt_ref dt) (vbuffer_data_basic_ops n (zput p.2 bs b)))
  | _ => stuck
  end.

(** ** Chunks *)

Definition vbuffer_chunk_addref (chunk : loc) : VM unit :=
  upd_chunk chunk (λ ch, set_ref (u32 (ch_ref ch + 1)) ch).

Definition vbuffer_chunk_release (chunk : loc) : VM unit :=
  ch ← rd_chunk chunk;
  let r := u32 (ch_ref ch - 1) in
  wr_chunk chunk (set_ref r ch);;
  if bool_decide (r = 0) then
    c_assert (is_null (ch_data ch));;
    linked ← lnk (list2_elem_check chunk);
    c_assert (negb linked);;
    free_chunk chunk
  else skip.

Definition vbuffer_chunk_clear (chunk : loc) : VM unit :=
  e ← lnk (rd_elem chunk);
  (if is_null (next e) then skip
   else c_assert (negb (is_null (prev e)));; _ ← lnk (list2_erase chunk); skip);;
  ch ← rd_chunk chunk;
  vbuffer_data_release (ch_data ch);;
  upd_chunk chunk (set_data None);;
  vbuffer_chunk_release chunk.

Definition vbuffer_chunk_create_end (writable : bool) : VM ptr :=
  p ← malloc;
  match p with
  | None => error "memory error";; ret None
  | Some c =>
      wr_chunk c (Chunk 0 (Flags true true false writable true) None 0 0);;
      lnk (list2_elem_init c);;
      vbuffer_chunk_addref c;;
      lnk (set_prev c (Some c));; lnk (set_next c (Some c));;
      ret (Some c)
  end.

Definition vbuffer_chunk_create (data : ptr) (offset length : Z) : VM ptr :=
  p ← malloc;
  match p with
  | None =>
      (match data with Some d => free_data d | None => skip end);;
      error "memory error";; ret None
  | Some c =>
      wr_chunk c (Chunk 0 (Flags false false false true false) data (u32 offset) (u32 length));;
      (match data with Some d => data_addref d | None => skip end);;
      vbuffer_chunk_addref c;;
      lnk (list2_elem_init c);;
      ret (Some c)
  end.

Definition vbuffer_chunk_clone (chunk : loc) (copy : bool) : VM ptr :=
  ch ← rd_chunk chunk;
  clone ← vbuffer_chunk_create (ch_data ch) (ch_offset ch) (ch_size ch);
  match clone with
  | None => ret None
  | Some c => ch ← rd_chunk chunk; upd_chunk c (set_flags (ch_flags ch));; ret (Some c)
  end.

Definition vbuffer_chunk_insert_ctl (insert : loc) (data : loc) : VM ptr :=
  p ← malloc;
  match p with
  | None => free_data data;; error "memory error";; ret None
  | Some c =>
      ins ← rd_chunk insert;
      wr_chunk c (Chunk 0 (Flags false false false (fl_writable (ch_flags ins)) true) (Some data) 0 0);;
      data_addref data;;
      vbuffer_chunk_addref c;;
      lnk (list2_elem_init c);;
      _ ← lnk (list2_insert insert c);
      ret (Some c)
  end.

Definition vbuffer_chunk_check_writeable (chunk : loc) : VM bool :=
  ch ← rd_chunk chunk;
  if fl_writable (ch_flags ch) then ret true
  else error "read only buffer";; ret false.

Definition vbuffer_chunk_mark_modified (chunk : loc) : VM unit :=
  upd_chunk chunk (set_modified true).

Definition vbuffer_chunk_get_data (chunk : loc) (write : bool) : VM (option (loc * Z)) :=
  w ← (if write then vbuffer_chunk_check_writeable chunk else ret true);
  if negb w then ret None else
  ch ← rd_chunk chunk;
  c_assert (negb (fl_ctl (ch_flags ch)));;
  d ← deref (ch_data ch);
  p ← data_get d write;
  match p with
  | None => c_assert write;; e ← check_error; c_assert e;; ret None
  | Some (b, o) =>
      (if write then vbuffer_chunk_mark_modified chunk else skip);;
      ret (Some (b, o + ch_offset ch))
  end.

Definition vbuffer_chunk_next (chunk : loc) : VM ptr :=
  ch ← rd_chunk chunk;
  if fl_end (ch_flags ch) then ret None else lnk (list2_next chunk).

Definition vbuffer_chunk_prev (chunk : loc) : VM ptr :=
  p ← lnk (list2_prev chunk);
  p ← deref p;
  ch ← rd_chunk p;
  if fl_end (ch_flags ch) then ret None else ret (Some p).

Definition vbuffer_chunk_remove_ctl (chunk : loc) : VM ptr :=
  ch ← rd_chunk chunk;
  c_assert (fl_ctl (ch_flags ch));;
  next ← vbuffer_chunk_next chunk;
  n ← deref next;
  upd_chunk n (λ nc, set_modified (fl_modified (ch_flags nc) || fl_modified (ch_flags ch)) nc);;
  vbuffer_chunk_clear chunk;;
  ret next.

(** ** Buffers *)

Definition vbuffer_isvalid (buffer : vbuffer) : bool := negb (is_null buffer).

Definition vbuffer_init_ (writable : bool) : VM (bool * vbuffer) :=
  c ← vbuffer_chunk_create_end writable;
  ret (negb (is_null c), c).

Definition vbuffer_create_empty : VM (bool * vbuffer) := vbuffer_init_ true.

Definition vbuffer_chunk_end (buf : vbuffer) : VM loc := deref buf.
Definition vbuffer_chunk_list (buf : vbuffer) : VM loc := deref buf.

Definition vbuffer_chunk_begin (buf : vbuffer) : VM loc :=
  e ← deref buf; b ← lnk (list2_next e); deref b.

(** The failure of [_vbuffer_init] is not tested: the end chunk is then NULL. *)
Definition vbuffer_create_from_data (data : ptr) (offset length : Z) : VM (bool * vbuffer) :=
  chunk ← vbuffer_chunk_create data offset length;
  match chunk with
  | None => ret (false, None)
  | Some c =>
      '(_, buffer) ← vbuffer_init_ true;
      e ← vbuffer_chunk_end buffer;
      _ ← lnk (list2_insert e c);
      ret (true, buffer)
  end.

Definition vbuffer_create_new (size : Z) (zero : bool) : VM (bool * vbuffer) :=
  data ← vbuffer_data_basic size zero;
  match data with
  | None => ret (false, None)
  | Some d => vbuffer_create_from_data (Some d) 0 size
  end.

Definition vbuffer_create_from (str : list Z) : VM (bool * vbuffer) :=
  data ← vbuffer_data_basic (zlen str) false;
  match data with
  | None => ret (false, None)
  | Some d =>
      ptr_write (d, 0) str;;
      vbuffer_create_from_data (Some d) 0 (zlen str)
  end.

(** Fuel for the walks: no list is longer than the heap. *)
Definition chunk_fuel : VM nat := gets (λ s, S (size (vb_chunks s))).

(** [VBUFFER_FOR_EACH]: every chunk, the end chunk included. *)
Fixpoint for_each_chunk {A} (fuel : nat) (iter : ptr) (body : A → loc → VM A) (acc : A) : VM A :=
  match fuel, iter with
  | _, None => ret acc
  | O, Some _ => stuck
  | S fuel, Some c =>
      acc ← body acc c;
      n ← vbuffer_chunk_next c;
      for_each_chunk fuel n body acc
  end.

Definition VBUFFER_FOR_EACH {A} (buf : vbuffer) (body : A → loc → VM A) (acc : A) : VM A :=
  b ← vbuffer_chunk_begin buf;
  fuel ← chunk_fuel;
  for_each_chunk (S fuel) (Some b) body acc.

Fixpoint vbuffer_clear_loop (fuel : nat) (iter : loc) : VM unit :=
  ch ← rd_chunk iter;
  if fl_end (ch_flags ch) then skip else
  match fuel with
  | O => stuck
  | S fuel =>
      n ← vbuffer_chunk_next iter;
      n ← deref n;
      vbuffer_chunk_clear iter;;
      vbuffer_clear_loop fuel n
  end.

Definition vbuffer_clear (buf : vbuffer) : VM vbuffer :=
  match buf with
  | None => ret None
  | Some e =>
      b ← vbuffer_chunk_begin buf;
      fuel ← chunk_fuel;
      vbuffer_clear_loop fuel b;;
      vbuffer_chunk_clear e;;
      ret None
  end.

(** The release of the Lua proxy of the buffer has no effect on the chunks. *)
Definition vbuffer_release (buf : vbuffer) : VM vbuffer := vbuffer_clear buf.

Definition vbuffer_size (buf : vbuffer) : VM Z :=
  VBUFFER_FOR_EACH buf (λ size c, ch ← rd_chunk c; ret (u64 (size + ch_size ch))) 0.

Definition vbuffer_isempty (buf : vbuffer) : VM bool :=
  e ← deref buf;
  n ← lnk (list2_next e);
  ret (bool_decide (n = Some e)).

Definition vbuffer_setwritable (buf : vbuffer) (writable : bool) : VM unit :=
  VBUFFER_FOR_EACH buf (λ _ c, upd_chunk c (set_writable writable)) tt.

Definition vbuffer_iswritable (buf : vbuffer) : VM bool :=
  e ← vbuffer_chunk_end buf; ch ← rd_chunk e; ret (fl_writable (ch_flags ch)).

(** The early [return true] of the loop is the accumulator. *)
Definition vbuffer_ismodified (buf : vbuffer) : VM bool :=
  VBUFFER_FOR_EACH buf (λ found c,
    if found : bool then ret true else ch ← rd_chunk c; ret (fl_modified (ch_flags ch))) false.

Definition vbuffer_clearmodified (buf : vbuffer) : VM unit :=
  VBUFFER_FOR_EACH buf (λ _ c, upd_chunk c (set_modified false)) tt.

Definition vbuffer_append (buf buffer : vbuffer) : VM bool :=
  list ← vbuffer_chunk_list buffer;
  e ← vbuffer_chunk_end buf;
  vbuffer_chunk_mark_modified e;;
  b ← lnk (list2_begin list);
  b ← deref b;
  _ ← lnk (list2_insert_list e b (list2_end list));
  empty ← lnk (list2_empty list);
  c_assert empty;;
  ret true.

Definition vbuffer_swap (a b : vbuffer) : VM (vbuffer * vbuffer) :=
  c_assert (vbuffer_isvalid b);; ret (b, a).
