(* ===== verification/VbIter.v ===== *)
(** * Iterators on buffers (lib/haka/vbuffer.c)

    A position is a chunk and an offset in it. The offset may exceed the size
    of the chunk: splitting a chunk leaves the positions behind the cut on the
    first half, and [_vbuffer_iterator_fix] finds the chunk they now denote.
    Every function is the code's, on the state of VbHeap; an iterator argument
    that the code modifies is returned. *)

From S2P Require Import Prelude List2 VbHeap.

Definition vbuffer_iterator_init : vbuffer_iterator := Iter None 0 0 false.

Definition vbuffer_iterator_isvalid (position : vbuffer_iterator) : bool :=
  negb (is_null (it_chunk position)).

Definition _vbuffer_iterator_check (position : vbuffer_iterator) : VM bool :=
  match it_chunk position with
  | None => error "empty iterator";; ret false
  | Some c =>
      ch ← rd_chunk c;
      e ← lnk (rd_elem c);
      if it_registered position &&
         ((is_null (ch_data ch) && negb (fl_end (ch_flags ch))) ||
          bool_decide (it_offset position > ch_size ch) ||
          is_null (next e) || is_null (prev e))
      then error "invalid buffer iterator";; ret false
      else c_assert (negb (is_null (next e)) && negb (is_null (prev e)));; ret true
  end.

Definition vbuffer_iterator_copy (src : vbuffer_iterator) : VM vbuffer_iterator :=
  ok ← _vbuffer_iterator_check src;
  if negb ok then ret vbuffer_iterator_init
  else ret (Iter (it_chunk src) (it_offset src) (it_meter src) false).

Definition vbuffer_iterator_clear (position : vbuffer_iterator) : VM vbuffer_iterator :=
  match it_chunk position with
  | None => ret position
  | Some c =>
      (if it_registered position then vbuffer_chunk_release c else skip);;
      ret (Iter None (it_offset position) (it_meter position) false)
  end.

Definition vbuffer_iterator_build (chunk : loc) (offset meter : Z) : vbuffer_iterator :=
  Iter (Some chunk) offset meter false.

Definition vbuffer_iterator_update (position : vbuffer_iterator) (chunk : loc) (offset : Z)
    : VM vbuffer_iterator :=
  (if bool_decide (it_chunk position = Some chunk) then skip
   else if it_registered position then
     old ← deref (it_chunk position);
     vbuffer_chunk_release old;;
     vbuffer_chunk_addref chunk
   else skip);;
  ret (Iter (Some chunk) (u32 offset) (it_meter position) (it_registered position)).

Definition vbuffer_iterator_move (iter pos : vbuffer_iterator) : VM vbuffer_iterator :=
  a ← _vbuffer_iterator_check iter;
  if negb a then ret iter else
  b ← _vbuffer_iterator_check pos;
  if negb b then ret iter else
  c ← deref (it_chunk pos);
  iter ← vbuffer_iterator_update iter c (it_offset pos);
  ret (Iter (it_chunk iter) (it_offset iter) (it_meter pos) (it_registered iter)).

(** The loop of [_vbuffer_iterator_fix]. *)
Fixpoint fix_loop (fuel : nat) (offset : Z) (iter : loc) : VM (Z * loc) :=
  ch ← rd_chunk iter;
  if fl_end (ch_flags ch) then ret (offset, iter) else
  if bool_decide (offset > ch_size ch) then
    match fuel with
    | O => stuck
    | S fuel =>
        n ← vbuffer_chunk_next iter;
        n ← deref n;
        fix_loop fuel (offset - ch_size ch) n
    end
  else ret (offset, iter).

Definition _vbuffer_iterator_fix (position : vbuffer_iterator) : VM (Z * loc) :=
  c ← deref (it_chunk position);
  ch ← rd_chunk c;
  if bool_decide (it_offset position > ch_size ch) then
    fuel ← chunk_fuel; fix_loop fuel (it_offset position) c
  else ret (it_offset position, c).

(** The loop of [_vbuffer_iterator_check_available]: the result and the value
    stored in [*size], [None] when nothing is stored. *)
Fixpoint available_loop (fuel : nat) (iter : loc) (offset : Z) (enditer : ptr) (endoffset : Z)
    (minsize cursize : Z) : VM (bool * option Z) :=
  ch ← rd_chunk iter;
  if fl_end (ch_flags ch) then ret (false, Some cursize) else
  if bool_decide (enditer = Some iter) then
    if bool_decide (offset > endoffset) then
      error "invalid buffer end";; ret (false, None)
    else
      let cursize := u64 (cursize + (endoffset - offset)) in
      if bool_decide (minsize ≤ cursize) then ret (true, Some minsize)
      else ret (false, Some cursize)
  else
    let cursize := u64 (cursize + u64 (ch_size ch - offset)) in
    if bool_decide (minsize ≤ cursize) then ret (true, Some minsize)
    else
      match fuel with
      | O => stuck
      | S fuel =>
          n ← vbuffer_chunk_next iter;
          n ← deref n;
          available_loop fuel n 0 enditer endoffset minsize cursize
      end.

Definition _vbuffer_iterator_check_available (position : vbuffer_iterator)
    (end_ : option vbuffer_iterator) (minsize : Z) : VM (bool * option Z) :=
  ok ← _vbuffer_iterator_check position;
  if negb ok then ret (false, Some size_max) else
  if bool_decide (minsize = 0) then ret (true, Some minsize) else
  '(offset, iter) ← _vbuffer_iterator_fix position;
  match end_ with
  | None =>
      fuel ← chunk_fuel; available_loop fuel iter offset None 0 minsize 0
  | Some e =>
      ok ← _vbuffer_iterator_check e;
      if negb ok then ret (false, Some size_max) else
      '(endoffset, enditer) ← _vbuffer_iterator_fix e;
      fuel ← chunk_fuel; available_loop fuel iter offset (Some enditer) endoffset minsize 0
  end.

Definition vbuffer_iterator_check_available (position : vbuffer_iterator) (minsize : Z)
    : VM (bool * option Z) :=
  _vbuffer_iterator_check_available position None minsize.

Definition vbuffer_iterator_available (position : vbuffer_iterator) : VM Z :=
  '(_, size) ← vbuffer_iterator_check_available position size_max;
  ret (default 0 size).

Definition vbuffer_iterator_register (position : vbuffer_iterator) : VM (bool * vbuffer_iterator) :=
  ok ← _vbuffer_iterator_check position;
  if negb ok then ret (false, position) else
  if it_registered position then ret (true, position) else
  c ← deref (it_chunk position);
  vbuffer_chunk_addref c;;
  ret (true, Iter (it_chunk position) (it_offset position) (it_meter position) true).

Definition vbuffer_iterator_unregister (position : vbuffer_iterator) : VM (bool * vbuffer_iterator) :=
  ok ← _vbuffer_iterator_check position;
  if negb ok then ret (false, position) else
  if it_registered position then
    c ← deref (it_chunk position);
    vbuffer_chunk_release c;;
    ret (true, Iter (it_chunk position) (it_offset position) (it_meter position) false)
  else ret (true, position).

(** The cut itself, at [offset] in the chunk [iter], once the chunk may be
    modified. The new chunk of the second half is not tested against NULL. *)
Definition split_at (offset : Z) (iter : loc) : VM ptr :=
  ch ← rd_chunk iter;
  if bool_decide (offset = 0) || fl_end (ch_flags ch) then ret (Some iter) else
  if bool_decide (offset = ch_size ch) then vbuffer_chunk_next iter else
  c_assert (negb (fl_ctl (ch_flags ch)));;
  newchunk ← vbuffer_chunk_create (ch_data ch) (ch_offset ch + offset) (ch_size ch - offset);
  upd_chunk iter (set_size (u32 offset));;
  nc ← deref newchunk;
  upd_chunk nc (set_flags (ch_flags ch));;
  n ← lnk (list2_next iter);
  n ← deref n;
  _ ← lnk (list2_insert n nc);
  ret (Some nc).

Definition _vbuffer_iterator_split (position : vbuffer_iterator) (mark_modified : bool) : VM ptr :=
  ok ← _vbuffer_iterator_check position;
  c_assert ok;;
  '(offset, iter) ← _vbuffer_iterator_fix position;
  w ← (if mark_modified then
         w ← vbuffer_chunk_check_writeable iter;
         (if w : bool then vbuffer_chunk_mark_modified iter else skip);; ret w
       else ret true);
  if negb w then ret None else split_at offset iter.

Definition vbuffer_iterator_split (position : vbuffer_iterator) : VM (bool * vbuffer_iterator) :=
  ok ← _vbuffer_iterator_check position;
  if negb ok then ret (false, position) else
  iter ← _vbuffer_iterator_split position false;
  match iter with
  | None => ret (false, position)
  | Some c => p ← vbuffer_iterator_update position c 0; ret (true, p)
  end.

Fixpoint skip_empty_loop (fuel : nat) (offset : Z) (iter : loc) : VM (Z * loc) :=
  ch ← rd_chunk iter;
  if fl_end (ch_flags ch) then ret (offset, iter) else
  if bool_decide (offset = ch_size ch) then
    match fuel with
    | O => stuck
    | S fuel =>
        n ← vbuffer_chunk_next iter;
        n ← deref n;
        skip_empty_loop fuel 0 n
    end
  else ret (offset, iter).

Definition vbuffer_iterator_skip_empty (position : vbuffer_iterator) : VM vbuffer_iterator :=
  ok ← _vbuffer_iterator_check position;
  if negb ok then ret position else
  '(offset, iter) ← _vbuffer_iterator_fix position;
  fuel ← chunk_fuel;
  '(offset, iter) ← skip_empty_loop fuel offset iter;
  vbuffer_iterator_update position iter offset.

(** Returns the chunk, [endoffset] and the remaining length. *)
Fixpoint advance_loop (fuel : nat) (iter : loc) (offset clen : Z) : VM (loc * Z * Z) :=
  ch ← rd_chunk iter;
  if fl_end (ch_flags ch) then ret (iter, 0, clen) else
  let next_ (offset clen : Z) :=
    match fuel with
    | O => stuck
    | S fuel =>
        n ← vbuffer_chunk_next iter;
        n ← deref n;
        advance_loop fuel n offset clen
    end in
  if bool_decide (offset > ch_size ch) then next_ (offset - ch_size ch) clen
  else
    let buflen := ch_size ch - offset in
    if bool_decide (clen ≤ buflen) then ret (iter, offset + clen, 0)
    else next_ 0 (clen - buflen).

Definition vbuffer_iterator_advance (position : vbuffer_iterator) (len : Z)
    : VM (Z * vbuffer_iterator) :=
  ok ← _vbuffer_iterator_check position;
  if negb ok then ret (size_max, position) else
  '(offset, iter) ← _vbuffer_iterator_fix position;
  fuel ← chunk_fuel;
  '(iter, endoffset, clen) ← advance_loop fuel iter offset len;
  p ← vbuffer_iterator_update position iter endoffset;
  ret (len - clen,
       Iter (it_chunk p) (it_offset p) (u32 (it_meter p + (len - clen))) (it_registered p)).

(** [vbuffer_position] leaves the meter of the iterator it fills as it was. *)
Definition vbuffer_position (buf : vbuffer) (position : vbuffer_iterator) (offset : Z)
    : VM vbuffer_iterator :=
  e ← deref buf;
  if bool_decide (offset = size_max) then ret (Iter (Some e) 0 (it_meter position) false)
  else
    b ← vbuffer_chunk_begin buf;
    let p := Iter (Some b) 0 (it_meter position) false in
    if bool_decide (offset > 0) then '(_, p) ← vbuffer_iterator_advance p offset; ret p
    else ret p.

Definition vbuffer_begin (buf : vbuffer) (position : vbuffer_iterator) : VM vbuffer_iterator :=
  vbuffer_position buf position 0.
Definition vbuffer_end (buf : vbuffer) (position : vbuffer_iterator) : VM vbuffer_iterator :=
  vbuffer_position buf position size_max.

Definition vbuffer_last (buf : vbuffer) (position : vbuffer_iterator) : VM vbuffer_iterator :=
  e ← deref buf;
  empty ← vbuffer_isempty buf;
  if empty : bool then ret (Iter (Some e) 0 (it_meter position) false)
  else
    p ← vbuffer_chunk_prev e;
    c ← deref p;
    ch ← rd_chunk c;
    ret (Iter (Some c) (ch_size ch) (it_meter position) false).

(** An iterator variable of the code before its first assignment. *)
Definition uninit_iterator : VM vbuffer_iterator :=
  j ← gets vb_junk; ret (Iter None j j false).

Definition vbuffer_iterator_isend (position : vbuffer_iterator) : VM bool :=
  ok ← _vbuffer_iterator_check position;
  if negb ok then ret false else
  '(offset, iter) ← _vbuffer_iterator_fix position;
  ch ← rd_chunk iter;
  if fl_end (ch_flags ch) then c_assert (bool_decide (offset = 0));; ret true else ret false.

Definition vbuffer_iterator_iseof (position : vbuffer_iterator) : VM bool :=
  ok ← _vbuffer_iterator_check position;
  if negb ok then ret false else
  '(offset, iter) ← _vbuffer_iterator_fix position;
  ch ← rd_chunk iter;
  if fl_end (ch_flags ch) && fl_eof (ch_flags ch)
  then c_assert (bool_decide (offset = 0));; ret true else ret false.

(** The pointer is the data of the chunk plus [offset]; NULL plus an offset
    when [vbuffer_chunk_get_data] fails, which the model keeps apart. *)
Inductive mapped := MapNull | MapPtr (p : loc * Z) (size : Z) | MapBad (offset : Z).

Fixpoint mmap_loop (fuel : nat) (position : vbuffer_iterator) (iter : loc) (offset maxsize : Z)
    (write : bool) : VM (mapped * vbuffer_iterator) :=
  ch ← rd_chunk iter;
  if fl_end (ch_flags ch) then ret (MapNull, position) else
  c_assert (bool_decide (offset ≤ ch_size ch));;
  let len := ch_size ch - offset in
  if negb (fl_ctl (ch_flags ch)) && bool_decide (len > 0) then
    '(size, position) ←
      (if bool_decide (maxsize ≠ size_max) && bool_decide (len > maxsize) then
         p ← vbuffer_iterator_update position iter (offset + maxsize); ret (maxsize, p)
       else
         n ← vbuffer_chunk_next iter;
         n ← deref n;
         p ← vbuffer_iterator_update position n 0; ret (len, p));
    d ← vbuffer_chunk_get_data iter write;
    ret (match d with
         | Some (b, o) => MapPtr (b, o + offset) size
         | None => MapBad offset
         end, position)
  else
    match fuel with
    | O => stuck
    | S fuel =>
        n ← vbuffer_chunk_next iter;
        n ← deref n;
        mmap_loop fuel position n 0 maxsize write
    end.

Definition vbuffer_iterator_mmap (position : vbuffer_iterator) (maxsize : Z) (write : bool)
    : VM (mapped * vbuffer_iterator) :=
  ok ← _vbuffer_iterator_check position;
  if negb ok then ret (MapNull, position) else
  if bool_decide (maxsize = 0) then ret (MapNull, position) else
  '(offset, iter) ← _vbuffer_iterator_fix position;
  fuel ← chunk_fuel;
  mmap_loop fuel position iter offset maxsize write.

(** [return -1] in a [uint8] is 255. A bad pointer is only NULL at offset 0. *)
Definition vbuffer_iterator_getbyte (position : vbuffer_iterator) : VM (Z * vbuffer_iterator) :=
  ok ← _vbuffer_iterator_check position;
  if negb ok then ret (255, position) else
  '(m, p) ← vbuffer_iterator_mmap position 1 false;
  match m with
  | MapPtr a len =>
      if bool_decide (len < 1) then ret (255, p) else
      bs ← ptr_read a 1; ret (default 0 (head bs), p)
  | MapNull => ret (255, p)
  | MapBad o => if bool_decide (o = 0) then ret (255, p) else stuck
  end.

Definition vbuffer_iterator_setbyte (position : vbuffer_iterator) (byte : Z)
    : VM (bool * vbuffer_iterator) :=
  ok ← _vbuffer_iterator_check position;
  if negb ok then ret (false, position) else
  '(m, p) ← vbuffer_iterator_mmap position 1 true;
  match m with
  | MapPtr a len =>
      if bool_decide (len < 1) then ret (false, p) else
      ptr_write a [byte];; ret (true, p)
  | MapNull => ret (false, p)
  | MapBad o => if bool_decide (o = 0) then ret (false, p) else stuck
  end.

Definition vbuffer_iterator_mark (position : vbuffer_iterator) (readonly : bool)
    : VM (bool * vbuffer_iterator) :=
  ok ← _vbuffer_iterator_check position;
  if negb ok then ret (false, position) else
  insert ← _vbuffer_iterator_split position false;
  match insert with
  | None => ret (false, position)
  | Some ins =>
      mark ← vbuffer_data_ctl_mark readonly;
      match mark with
      | None => ret (false, position)
      | Some m =>
          chunk ← vbuffer_chunk_insert_ctl ins m;
          match chunk with
          | None => ret (false, position)
          | Some c => p ← vbuffer_iterator_update position c 0; ret (true, p)
          end
      end
  end.

(** [vbuffer_data_cast]: the block has the given [ops]. *)
Definition data_is (data : ptr) (p : vbuffer_data_body → bool) : VM bool :=
  match data with
  | None => ret false
  | Some d => dt ← rd_data d; ret (p (dt_body dt))
  end.
Definition is_mark (b : vbuffer_data_body) : bool :=
  if b is vbuffer_data_ctl_mark_ops _ then true else false.
Definition is_select (b : vbuffer_data_body) : bool :=
  if b is vbuffer_data_ctl_select_ops then true else false.

Definition vbuffer_iterator_unmark (position : vbuffer_iterator) : VM (bool * vbuffer_iterator) :=
  ok ← _vbuffer_iterator_check position;
  if negb ok then ret (false, position) else
  c ← deref (it_chunk position);
  ch ← rd_chunk c;
  mark ← data_is (ch_data ch) is_mark;
  if negb mark then error "iterator is not a mark";; ret (false, position) else
  next ← vbuffer_chunk_remove_ctl c;
  n ← deref next;
  p ← vbuffer_iterator_update position n 0;
  ret (true, p).

Fixpoint isinsertable_loop (fuel : nat) (iter : ptr) (chunk : ptr) : VM bool :=
  match iter with
  | None => ret true
  | Some c =>
      if bool_decide (iter = chunk) then ret false else
      match fuel with
      | O => stuck
      | S fuel => n ← vbuffer_chunk_next c; isinsertable_loop fuel n chunk
      end
  end.

Definition vbuffer_iterator_isinsertable (position : vbuffer_iterator) (buffer : vbuffer) : VM bool :=
  b ← vbuffer_chunk_begin buffer;
  ok ← _vbuffer_iterator_check position;
  if negb ok then ret false else
  fuel ← chunk_fuel;
  isinsertable_loop fuel (Some b) (it_chunk position).
