(* ===== verification/VbSub.v ===== *)
(** * Sub-buffers (lib/haka/vbuffer.c)

    A sub-buffer is a beginning and either an end position or a length, which
    share their memory in the code: [sub_length] of a sub-buffer that holds an
    end position reads the low bits of the chunk pointer stored there. Reading,
    writing, extraction, selection and restoration, replacement, compaction,
    flattening and cloning are the functions of the code. *)

From S2P Require Import Prelude List2 VbHeap VbIter.

(** ** Data *)

Inductive sub_tail := SubEnd (end_ : vbuffer_iterator) | SubLength (length : Z).

Record vbuffer_sub := Sub {
  sb_begin : vbuffer_iterator;
  sb_use_size : bool;
  sb_tail : sub_tail;
}.

Definition vbuffer_sub_init : vbuffer_sub :=
  Sub vbuffer_iterator_init false (SubEnd vbuffer_iterator_init).

(** The numeric value of a pointer. *)
Definition ptr_bits (p : ptr) : Z := match p with None => 0 | Some c => Zpos c end.

Definition sub_length (sub : vbuffer_sub) : Z :=
  match sb_tail sub with
  | SubLength n => n
  | SubEnd e => u32 (ptr_bits (it_chunk e))
  end.

Definition sub_end (sub : vbuffer_sub) : VM vbuffer_iterator :=
  match sb_tail sub with SubEnd e => ret e | SubLength _ => stuck end.

Record vbuffer_sub_mmap := Mmap { mm_data : ptr; mm_len : Z; mm_meter : Z }.
Definition vbuffer_mmap_init : vbuffer_sub_mmap := Mmap None 0 0.

(** ** Creation and positions *)

Definition _vbuffer_sub_check (data : vbuffer_sub) : VM bool :=
  b ← _vbuffer_iterator_check (sb_begin data);
  if negb b then ret false else
  if sb_use_size data then ret true else
  e ← sub_end data;
  _vbuffer_iterator_check e.

Definition vbuffer_sub_clear (data : vbuffer_sub) : VM vbuffer_sub :=
  b ← vbuffer_iterator_clear (sb_begin data);
  if sb_use_size data then ret (Sub b true (sb_tail data)) else
  e ← sub_end data;
  e ← vbuffer_iterator_clear e;
  ret (Sub b false (SubEnd e)).

Definition vbuffer_sub_register (data : vbuffer_sub) : VM (bool * vbuffer_sub) :=
  '(r, b) ← vbuffer_iterator_register (sb_begin data);
  if sb_use_size data then ret (r, Sub b true (sb_tail data)) else
  e ← sub_end data;
  '(r', e) ← vbuffer_iterator_register e;
  ret (r && r', Sub b false (SubEnd e)).

Definition vbuffer_sub_unregister (data : vbuffer_sub) : VM (bool * vbuffer_sub) :=
  '(r, b) ← vbuffer_iterator_unregister (sb_begin data);
  if sb_use_size data then ret (r, Sub b true (sb_tail data)) else
  e ← sub_end data;
  '(r', e) ← vbuffer_iterator_unregister e;
  ret (r && r', Sub b false (SubEnd e)).

Definition vbuffer_sub_create (buffer : vbuffer) (offset length : Z) : VM vbuffer_sub :=
  b ← vbuffer_begin buffer vbuffer_iterator_init;
  b ← (if bool_decide (offset = 0) then ret b
       else '(_, b) ← vbuffer_iterator_advance b offset; ret b);
  if bool_decide (length = size_max) then
    e ← vbuffer_end buffer vbuffer_iterator_init;
    ret (Sub b false (SubEnd e))
  else
    e ← vbuffer_iterator_copy b;
    '(_, e) ← vbuffer_iterator_advance e length;
    ret (Sub b false (SubEnd e)).

Definition vbuffer_sub_create_from_position (position : vbuffer_iterator) (length : Z)
    : VM (bool * vbuffer_sub) :=
  b ← vbuffer_iterator_copy position;
  ret (true, Sub b true (SubLength (u32 length))).

Definition vbuffer_sub_create_between_position (begin end_ : vbuffer_iterator)
    : VM (bool * vbuffer_sub) :=
  b ← vbuffer_iterator_copy begin;
  e ← vbuffer_iterator_copy end_;
  ret (true, Sub b false (SubEnd e)).

Definition vbuffer_sub_begin (data : vbuffer_sub) : VM vbuffer_iterator :=
  vbuffer_iterator_copy (sb_begin data).

Definition vbuffer_sub_end (data : vbuffer_sub) : VM vbuffer_iterator :=
  if sb_use_size data then
    e ← vbuffer_iterator_copy (sb_begin data);
    '(_, e) ← vbuffer_iterator_advance e (sub_length data);
    ret e
  else
    e ← sub_end data; vbuffer_iterator_copy e.

Definition vbuffer_sub_position (data : vbuffer_sub) (offset : Z) : VM vbuffer_iterator :=
  if bool_decide (offset = size_max) then vbuffer_sub_end data
  else
    it ← vbuffer_iterator_copy (sb_begin data);
    if bool_decide (offset > 0) then '(_, it) ← vbuffer_iterator_advance it offset; ret it
    else ret it.

Definition vbuffer_sub_sub (data : vbuffer_sub) (offset length : Z) : VM (bool * vbuffer_sub) :=
  b ← vbuffer_sub_position data offset;
  if bool_decide (length = size_max) then
    e ← vbuffer_sub_position data size_max;
    ret (true, Sub b false (SubEnd e))
  else ret (true, Sub b true (SubLength (u32 length))).

(** [vbuffer_iterator_sub]: the sub-buffer is not written on failure. *)
Definition vbuffer_iterator_sub (position : vbuffer_iterator) (len : Z) (split : bool)
    : VM (Z * vbuffer_iterator * option vbuffer_sub) :=
  ok ← _vbuffer_iterator_check position;
  if negb ok then ret (size_max, position, None) else
  begin ← vbuffer_iterator_copy position;
  '(len, position) ← vbuffer_iterator_advance position len;
  '(fail, position) ←
    (if split then
       iter ← _vbuffer_iterator_split position false;
       match iter with
       | None =>
           e ← check_error; c_assert e;;
           b ← deref (it_chunk begin);
           p ← vbuffer_iterator_update position b (it_offset begin);
           ret (true, p)
       | Some c => p ← vbuffer_iterator_update position c 0; ret (false, p)
       end
     else ret (false, position));
  if fail : bool then
    _ ← vbuffer_iterator_clear begin; ret (size_max, position, None)
  else
    '(r, sub) ← vbuffer_sub_create_from_position begin len;
    _ ← vbuffer_iterator_clear begin;
    ret (if r : bool then len else size_max, position, Some sub).

Definition vbuffer_sub_check_size (data : vbuffer_sub) (minsize : Z) : VM (bool * option Z) :=
  ok ← _vbuffer_sub_check data;
  if negb ok then ret (false, None) else
  if sb_use_size data then
    let minsize := if bool_decide (minsize = size_max) then sub_length data else minsize in
    vbuffer_iterator_check_available (sb_begin data) minsize
  else
    e ← sub_end data;
    _vbuffer_iterator_check_available (sb_begin data) (Some e) minsize.

Definition vbuffer_sub_size (data : vbuffer_sub) : VM Z :=
  '(_, size) ← vbuffer_sub_check_size data size_max;
  ret (default size_max size).

(** The full-buffer forms of vbuffer.h. *)
Definition vbuffer_check_size (buf : vbuffer) (minsize : Z) : VM (bool * option Z) :=
  sub ← vbuffer_sub_create buf 0 size_max; vbuffer_sub_check_size sub minsize.

(** ** Iteration over the memory blocks *)

(** The chunk and the start in it, [None] at the end; the length there, which an invalid
    end leaves behind too. *)
Definition _vbuffer_sub_iterate (data : vbuffer_sub) (iter : vbuffer_sub_mmap)
    : VM (option (loc * Z) * Z * vbuffer_sub_mmap) :=
  '(offset, iter) ←
    (match mm_data iter with
     | Some _ => ret (0, iter)
     | None =>
         begin ← vbuffer_sub_begin data;
         '(offset, c) ← _vbuffer_iterator_fix begin;
         _ ← vbuffer_iterator_clear begin;
         ret (offset, Mmap (Some c) (if sb_use_size data then sub_length data else u32 (-1))
                (mm_meter iter))
     end);
  chunk ← deref (mm_data iter);
  ch ← rd_chunk chunk;
  if fl_end (ch_flags ch) || bool_decide (mm_len iter = 0) then ret (None, 0, iter) else
  n ← vbuffer_chunk_next chunk;
  let iter := Mmap n (mm_len iter) (mm_meter iter) in
  c_assert (bool_decide (offset ≤ ch_size ch));;
  let len := ch_size ch - offset in
  if sb_use_size data then
    if bool_decide (len ≤ mm_len iter)
    then ret (Some (chunk, offset), len, Mmap n (mm_len iter - len) (mm_meter iter))
    else ret (Some (chunk, offset), mm_len iter, Mmap n 0 (mm_meter iter))
  else
    e ← sub_end data;
    '(endoffset, end_) ← _vbuffer_iterator_fix e;
    if bool_decide (chunk = end_) then
      if bool_decide (endoffset < offset) then
        error "invalid buffer end";; ret (None, len, iter)
      else ret (Some (chunk, offset), endoffset - offset, Mmap n 0 (mm_meter iter))
    else ret (Some (chunk, offset), len, iter).

(** The next non-empty block: its address, its length, and the position of its
    beginning, which the code stores in [iter] when the caller asks for it; then what the
    code leaves in [*len], also when it returns NULL. *)
Fixpoint mmap_blocks (fuel : nat) (data : vbuffer_sub) (write : bool) (it : vbuffer_sub_mmap)
    : VM (option (loc * Z * Z * vbuffer_iterator) * Z * vbuffer_sub_mmap) :=
  '(r, len, it) ← _vbuffer_sub_iterate data it;
  match r with
  | None => ret (None, len, it)
  | Some (chunk, offset) =>
      ch ← rd_chunk chunk;
      if fl_ctl (ch_flags ch) || bool_decide (len = 0) then
        match fuel with
        | O => stuck
        | S fuel => mmap_blocks fuel data write it
        end
      else
        p ← vbuffer_chunk_get_data chunk write;
        match p with
        | None => ret (None, len, it)
        | Some (b, o) =>
            c_assert (bool_decide (offset ≤ ch_size ch));;
            ret (Some (b, o + offset, len, vbuffer_iterator_build chunk (u32 offset) (mm_meter it)), len,
                 Mmap (mm_data it) (mm_len it) (u32 (mm_meter it + len)))
        end
  end.

Definition vbuffer_mmap_len (data : vbuffer_sub) (write : bool) (it : vbuffer_sub_mmap)
    : VM (option (loc * Z * Z * vbuffer_iterator) * Z * vbuffer_sub_mmap) :=
  let it := match mm_data it with
            | None => Mmap None (mm_len it) (it_meter (sb_begin data))
            | Some _ => it
            end in
  fuel ← chunk_fuel;
  mmap_blocks fuel data write it.

(** For the callers that do not look at [*len] behind NULL. *)
Definition vbuffer_mmap (data : vbuffer_sub) (write : bool) (it : vbuffer_sub_mmap)
    : VM (option (loc * Z * Z * vbuffer_iterator) * vbuffer_sub_mmap) :=
  '(r, _, it) ← vbuffer_mmap_len data write it; ret (r, it).

(** The bytes copied to [dst]; the returned count is their number. *)
Fixpoint read_loop (fuel : nat) (data : vbuffer_sub) (it : vbuffer_sub_mmap) (size : Z)
    (dst : list Z) : VM (list Z) :=
  if bool_decide (size ≤ 0) then ret dst else
  '(r, it) ← vbuffer_mmap data false it;
  match r with
  | None => ret dst
  | Some (b, o, len, _) =>
      match fuel with
      | O => stuck
      | S fuel =>
          let len := if bool_decide (len > size) then size else len in
          bs ← ptr_read (b, o) len;
          read_loop fuel data it (size - len) (dst ++ bs)
      end
  end.

Definition vbuffer_sub_read (data : vbuffer_sub) (size : Z) : VM (list Z) :=
  ok ← _vbuffer_sub_check data;
  if negb ok then ret [] else
  fuel ← chunk_fuel;
  read_loop fuel data vbuffer_mmap_init size [].

Fixpoint write_loop (fuel : nat) (data : vbuffer_sub) (it : vbuffer_sub_mmap) (src : list Z)
    (done : Z) : VM Z :=
  if bool_decide (src = []) then ret done else
  '(r, it) ← vbuffer_mmap data true it;
  match r with
  | None => ret done
  | Some (b, o, len, _) =>
      match fuel with
      | O => stuck
      | S fuel =>
          let len := if bool_decide (len > zlen src) then zlen src else len in
          ptr_write (b, o) (ztake len src);;
          write_loop fuel data it (zdrop len src) (done + len)
      end
  end.

Definition vbuffer_sub_write (data : vbuffer_sub) (src : list Z) : VM Z :=
  ok ← _vbuffer_sub_check data;
  if negb ok then ret 0 else
  fuel ← chunk_fuel;
  write_loop fuel data vbuffer_mmap_init src 0.

Fixpoint zero_loop (fuel : nat) (data : vbuffer_sub) (it : vbuffer_sub_mmap) : VM unit :=
  '(r, it) ← vbuffer_mmap data true it;
  match r with
  | None => skip
  | Some (b, o, len, _) =>
      match fuel with
      | O => stuck
      | S fuel => ptr_write (b, o) (replicate (Z.to_nat len) 0);; zero_loop fuel data it
      end
  end.

(** The result is [check_error()]: true when an error is pending. *)
Definition vbuffer_zero (data : vbuffer_sub) : VM bool :=
  ok ← _vbuffer_sub_check data;
  if negb ok then ret false else
  fuel ← chunk_fuel;
  zero_loop fuel data vbuffer_mmap_init;;
  check_error.

(** ** Insertion *)

Definition vbuffer_iterator_insert (position : vbuffer_iterator) (buffer : vbuffer) (want_sub : bool)
    : VM (bool * vbuffer_iterator * option vbuffer_sub) :=
  ok ← _vbuffer_iterator_check position;
  if negb ok then ret (false, position, None) else
  list ← vbuffer_chunk_list buffer;
  empty ← lnk (list2_empty list);
  if empty : bool then
    if want_sub then
      '(_, sub) ← vbuffer_sub_create_between_position position position;
      ret (true, position, Some sub)
    else ret (true, position, None)
  else
    insert ← _vbuffer_iterator_split position true;
    match insert with
    | None => ret (false, position, None)
    | Some ins =>
        u ← uninit_iterator;
        begin ← (if want_sub then vbuffer_begin buffer u else ret u);
        b ← lnk (list2_begin list);
        b ← deref b;
        _ ← lnk (list2_insert_list ins b (list2_end list));
        position ← vbuffer_iterator_update position ins 0;
        sub ← (if want_sub then
                 bc ← deref (it_chunk begin);
                 ch ← rd_chunk bc;
                 '(_, sub) ← (if fl_end (ch_flags ch)
                              then vbuffer_sub_create_between_position position position
                              else vbuffer_sub_create_between_position begin position);
                 ret (Some sub)
               else ret None);
        empty ← lnk (list2_empty list);
        c_assert empty;;
        ret (true, position, sub)
    end.

(** ** Extraction *)

(** The loop over the extracted chunks: [begin], [end] and the insertion point
    of the control chunks that are left in place; [None] is [return NULL]. *)
Fixpoint extract_loop (fuel : nat) (use_size mark_modified insert_ctl : bool)
    (iter begin : loc) (end_ : ptr) (ctl_insert : loc) (size : Z)
    : VM (option (loc * ptr * loc)) :=
  ch ← rd_chunk iter;
  if fl_end (ch_flags ch) then ret (Some (begin, end_, iter)) else
  let body (size : Z) :=
    match fuel with
    | O => stuck
    | S fuel =>
        if fl_ctl (ch_flags ch) && negb insert_ctl then
          if bool_decide (iter = begin) then
            n ← vbuffer_chunk_next begin;
            n ← deref n;
            extract_loop fuel use_size mark_modified insert_ctl n n end_ ctl_insert size
          else
            er ← lnk (list2_erase iter);
            er ← deref er;
            n ← lnk (list2_next ctl_insert);
            n ← deref n;
            ci ← lnk (list2_insert n iter);
            extract_loop fuel use_size mark_modified insert_ctl er begin end_ ci size
        else
          n ← vbuffer_chunk_next iter;
          n ← deref n;
          extract_loop fuel use_size mark_modified insert_ctl n begin end_ ctl_insert size
    end in
  if use_size then
    if bool_decide (size > ch_size ch) then body (size - ch_size ch)
    else
      e ← _vbuffer_iterator_split (Iter (Some iter) (u32 size) 0 false) mark_modified;
      match e with
      | None => ret None
      | Some _ => ret (Some (begin, e, iter))
      end
  else if bool_decide (end_ = Some iter) then ret (Some (begin, end_, iter))
  else body size.

Definition _vbuffer_extract (data : vbuffer_sub) (mark_modified insert_ctl : bool)
    : VM (ptr * vbuffer) :=
  ok ← _vbuffer_sub_check data;
  if negb ok then ret (None, None) else
  (* the end first, to keep the beginning valid *)
  '(fail, end_) ←
    (if sb_use_size data then ret (false, None) else
       it ← vbuffer_sub_end data;
       e ← _vbuffer_iterator_split it mark_modified;
       _ ← vbuffer_iterator_clear it;
       ret (is_null e, e));
  if fail : bool then ret (None, None) else
  it ← vbuffer_sub_begin data;
  b ← _vbuffer_iterator_split it mark_modified;
  _ ← vbuffer_iterator_clear it;
  match b with
  | None => ret (None, None)
  | Some begin =>
      bch ← rd_chunk begin;
      '(_, buffer) ← vbuffer_init_ (fl_writable (ch_flags bch));
      r ← (if sb_use_size data || negb insert_ctl then
             ci ← lnk (list2_prev begin);
             ci ← deref ci;
             fuel ← chunk_fuel;
             extract_loop fuel (sb_use_size data) mark_modified insert_ctl begin begin end_ ci
               (sub_length data)
           else e ← deref end_; ret (Some (begin, end_, e)));
      match r with
      | None => ret (None, buffer)
      | Some (begin, end_, iter) =>
          let e := default iter end_ in
          (if bool_decide (begin = e) then skip
           else be ← vbuffer_chunk_end buffer;
                _ ← lnk (list2_insert_list be begin e); skip);;
          if insert_ctl then
            ctl ← vbuffer_data_ctl_select;
            match ctl with
            | None => b ← vbuffer_clear buffer; ret (None, b)
            | Some d =>
                mark ← vbuffer_chunk_insert_ctl e d;
                match mark with
                | None => b ← vbuffer_clear buffer; ret (None, b)
                | Some m => ret (Some m, buffer)
                end
            end
          else ret (Some e, buffer)
      end
  end.

Definition vbuffer_extract (data : vbuffer_sub) : VM (bool * vbuffer_sub * vbuffer) :=
  '(r, buffer) ← _vbuffer_extract data true false;
  data ← vbuffer_sub_clear data;
  ret (negb (is_null r), data, buffer).

(** The reference iterator is written on success only. *)
Definition vbuffer_select (data : vbuffer_sub)
    : VM (bool * vbuffer_sub * vbuffer * vbuffer_iterator) :=
  '(r, buffer) ← _vbuffer_extract data false true;
  match r with
  | None => ret (false, data, buffer, vbuffer_iterator_init)
  | Some c =>
      data ← vbuffer_sub_clear data;
      ret (true, data, buffer, Iter (Some c) 0 0 false)
  end.

Definition vbuffer_erase (data : vbuffer_sub) : VM bool :=
  '(r, buffer) ← _vbuffer_extract data true false;
  match r with
  | None => ret false
  | Some _ => _ ← vbuffer_release buffer; ret true
  end.

Definition vbuffer_replace (data : vbuffer_sub) (buffer : vbuffer)
    : VM (bool * vbuffer_sub * vbuffer) :=
  '(r, erase) ← _vbuffer_extract data true false;
  match r with
  | None => ret (false, data, buffer)
  | Some iter =>
      _ ← vbuffer_release erase;
      new ← vbuffer_sub_create buffer 0 size_max;
      upd_chunk iter (set_modified true);;
      b ← vbuffer_chunk_begin buffer;
      e ← vbuffer_chunk_end buffer;
      _ ← lnk (list2_insert_list iter b e);
      buffer ← vbuffer_clear buffer;
      nb ← deref (it_chunk (sb_begin new));
      begin ← vbuffer_iterator_update (sb_begin data) nb (it_offset (sb_begin new));
      if sb_use_size data then
        ret (true, Sub begin true (SubLength (sub_length new)), buffer)
      else
        de ← sub_end data;
        de ← vbuffer_iterator_update de iter 0;
        ret (true, Sub begin false (SubEnd de), buffer)
  end.

(** ** Flattening *)

Definition vbuffer_sub_isflat (data : vbuffer_sub) : VM bool :=
  ok ← _vbuffer_sub_check data;
  if negb ok then ret false else
  '(offset, iter) ← _vbuffer_iterator_fix (sb_begin data);
  if sb_use_size data then
    ch ← rd_chunk iter;
    ret (bool_decide (ch_size ch ≤ u64 (offset + sub_length data)))
  else
    e ← sub_end data;
    '(endoffset, enditer) ← _vbuffer_iterator_fix e;
    if bool_decide (iter = enditer) then ret true else
    if bool_decide (endoffset = 0) then
      n ← vbuffer_chunk_next iter; ret (bool_decide (n = Some enditer))
    else ret false.

Definition vbuffer_isflat (buf : vbuffer) : VM bool :=
  sub ← vbuffer_sub_create buf 0 size_max; vbuffer_sub_isflat sub.

Fixpoint compact_loop (fuel : nat) (data : vbuffer_sub) (it : vbuffer_sub_mmap) (prev_ : ptr)
    (size : Z) (has_ctl : bool) : VM (vbuffer_sub * Z * bool) :=
  '(r, len, it) ← _vbuffer_sub_iterate data it;
  match r with
  | None => ret (data, size, has_ctl)
  | Some (chunk, offset) =>
      match fuel with
      | O => stuck
      | S fuel =>
          let size := u64 (size + len) in
          ch ← rd_chunk chunk;
          let has_ctl := has_ctl || fl_ctl (ch_flags ch) in
          merge ← (match prev_ with
                   | None => ret None
                   | Some p =>
                       pc ← rd_chunk p;
                       ret (if bool_decide (ch_data pc = ch_data ch) &&
                               bool_decide (u32 (ch_offset pc + ch_size pc) = ch_offset ch)
                            then Some p else None)
                   end);
          match merge with
          | None => compact_loop fuel data it (Some chunk) size has_ctl
          | Some p =>
              pc ← rd_chunk p;
              data ← (if sb_use_size data then ret data else
                        e ← sub_end data;
                        if bool_decide (it_chunk e = Some chunk) then
                          e ← vbuffer_iterator_update e p (ch_size pc + it_offset e);
                          ret (Sub (sb_begin data) false (SubEnd e))
                        else ret data);
              upd_chunk p (λ pc, set_writable (fl_writable (ch_flags pc) && fl_writable (ch_flags ch))
                (set_modified (fl_modified (ch_flags pc) || fl_modified (ch_flags ch))
                  (set_size (u32 (ch_size pc + ch_size ch)) pc)));;
              vbuffer_chunk_clear chunk;;
              compact_loop fuel data it (Some p) size has_ctl
          end
      end
  end.

Definition _vbuffer_compact (data : vbuffer_sub) : VM (bool * vbuffer_sub * Z * bool) :=
  ok ← _vbuffer_sub_check data;
  if negb ok then ret (false, data, 0, false) else
  fuel ← chunk_fuel;
  '(data, size, has_ctl) ← compact_loop fuel data vbuffer_mmap_init None 0 false;
  ret (true, data, size, has_ctl).

Definition vbuffer_sub_compact (data : vbuffer_sub) : VM (bool * vbuffer_sub) :=
  '(r, data, _, _) ← _vbuffer_compact data; ret (r, data).

Fixpoint flatten_loop (fuel : nat) (data : vbuffer_sub) (it : vbuffer_sub_mmap) (dst : loc) (pos size : Z)
    : VM unit :=
  '(r, len, it) ← _vbuffer_sub_iterate data it;
  match r with
  | None => skip
  | Some (chunk, offset) =>
      match fuel with
      | O => stuck
      | S fuel =>
          ch ← rd_chunk chunk;
          c_assert (negb (fl_ctl (ch_flags ch)));;
          c_assert (bool_decide (len ≤ size));;
          p ← vbuffer_chunk_get_data chunk false;
          '(b, o) ← deref p;
          c_assert (bool_decide (offset ≤ ch_size ch));;
          bs ← ptr_read (b, o + offset) len;
          ptr_write (dst, pos) bs;;
          flatten_loop fuel data it dst (pos + len) (size - len)
      end
  end.

Definition _vbuffer_sub_flatten (data : vbuffer_sub) (size : Z)
    : VM (option (loc * Z) * vbuffer_sub) :=
  '(ok, flat) ← vbuffer_create_new size false;
  if negb ok then ret (None, data) else
  u ← uninit_iterator;
  flatbegin ← vbuffer_begin flat u;
  fc ← deref (it_chunk flatbegin);
  fch ← rd_chunk fc;
  fd ← deref (ch_data fch);
  dst ← data_get fd true;
  '(db, _) ← deref dst;
  fuel ← chunk_fuel;
  flatten_loop fuel data vbuffer_mmap_init db 0 size;;
  '(_, data, flat) ← vbuffer_replace data flat;
  _ ← vbuffer_release flat;
  ret (dst, data).

(** The returned size is what the code stores in [*rsize]. *)
Definition vbuffer_sub_flatten (data : vbuffer_sub) : VM (mapped * vbuffer_sub) :=
  ok ← _vbuffer_sub_check data;
  if negb ok then ret (MapNull, data) else
  let direct (data : vbuffer_sub) :=
    it ← vbuffer_iterator_copy (sb_begin data);
    f ← vbuffer_sub_isflat data;
    c_assert f;;
    '(m, _) ← vbuffer_iterator_mmap it size_max false;
    ret (m, data) in
  flat ← vbuffer_sub_isflat data;
  if flat : bool then direct data else
  '(r, data, size, has_ctl) ← _vbuffer_compact data;
  if negb r || has_ctl then error "buffer cannot be flatten";; ret (MapNull, data) else
  flat ← vbuffer_sub_isflat data;
  if flat : bool then direct data else
  '(p, data) ← _vbuffer_sub_flatten data size;
  ret (match p with Some a => MapPtr a size | None => MapNull end, data).

(** ** Cloning *)

Inductive clone_mode := CLONE_COPY | CLONE_RW | CLONE_RO_ORIG | CLONE_RO_CLONE.

Fixpoint clone_loop (fuel : nat) (data : vbuffer_sub) (it : vbuffer_sub_mmap) (mode : clone_mode)
    (end_ : loc) (size : Z) : VM Z :=
  '(r, len, it) ← _vbuffer_sub_iterate data it;
  match r with
  | None => ret size
  | Some (chunk, _) =>
      match fuel with
      | O => stuck
      | S fuel =>
          ch ← rd_chunk chunk;
          if fl_ctl (ch_flags ch) then clone_loop fuel data it mode end_ size else
          clone ← vbuffer_chunk_clone chunk (if mode is CLONE_COPY then true else false);
          c ← deref clone;
          _ ← lnk (list2_insert end_ c);
          cc ← rd_chunk c;
          (match mode with
           | CLONE_COPY => skip
           | CLONE_RO_CLONE => upd_chunk c (set_writable false)
           | CLONE_RO_ORIG =>
               upd_chunk chunk (set_writable false);;
               upd_chunk end_ (set_writable (fl_writable (ch_flags cc)))
           | CLONE_RW => upd_chunk end_ (set_writable (fl_writable (ch_flags cc)))
           end);;
          clone_loop fuel data it mode end_ (u64 (size + ch_size cc))
      end
  end.

Definition vbuffer_sub_clone (data : vbuffer_sub) (mode : clone_mode)
    : VM (bool * vbuffer_sub * vbuffer) :=
  ok ← _vbuffer_sub_check data;
  if negb ok then ret (false, data, None) else
  '(_, buffer) ← vbuffer_init_ true;
  e ← vbuffer_chunk_end buffer;
  fuel ← chunk_fuel;
  size ← clone_loop fuel data vbuffer_mmap_init mode e 0;
  data ← (match mode with
          | CLONE_COPY =>
              upd_chunk e (set_writable true);;
              '(_, data) ← _vbuffer_sub_flatten data size; ret data
          | CLONE_RO_CLONE => upd_chunk e (set_writable false);; ret data
          | CLONE_RO_ORIG | CLONE_RW => ret data
          end);
  ret (true, data, buffer).

(** [vbuffer_clone] passes its boolean as the mode: 0 is [CLONE_COPY]. *)
Definition vbuffer_clone (data : vbuffer) (copy : bool) : VM (bool * vbuffer) :=
  sub ← vbuffer_sub_create data 0 size_max;
  '(r, _, b) ← vbuffer_sub_clone sub (if copy then CLONE_RW else CLONE_COPY);
  ret (r, b).

Definition vbuffer_flatten (buf : vbuffer) : VM (mapped * vbuffer_sub) :=
  sub ← vbuffer_sub_create buf 0 size_max; vbuffer_sub_flatten sub.

Definition vbuffer_restore (position : vbuffer_iterator) (data : option vbuffer) (clone : bool)
    : VM (bool * vbuffer_iterator * option vbuffer) :=
  ok ← _vbuffer_iterator_check position;
  if negb ok then ret (false, position, data) else
  pc ← deref (it_chunk position);
  ch ← rd_chunk pc;
  sel ← data_is (ch_data ch) is_select;
  if negb sel then error "invalid restore iterator";; ret (false, position, data) else
  data ←
    (match data with
     | None => ret None
     | Some buf =>
         src ← (if clone then
                  u ← uninit_iterator;
                  begin ← vbuffer_begin buf u;
                  end_ ← vbuffer_end buf u;
                  '(_, sub) ← vbuffer_sub_create_between_position begin end_;
                  '(_, _, cb) ← vbuffer_sub_clone sub CLONE_RO_ORIG;
                  ret cb
                else ret buf);
         b ← vbuffer_chunk_begin src;
         e ← vbuffer_chunk_end src;
         _ ← lnk (list2_insert_list pc b e);
         src ← vbuffer_clear src;
         ret (Some (if clone then buf else src))
     end);
  _ ← vbuffer_chunk_remove_ctl pc;
  position ← vbuffer_iterator_clear position;
  ret (true, position, data).

(** ** Bytes and strings *)

(** [str] receives the bytes and a terminator inside its [len] bytes. *)
Definition vbuffer_asstring (data : vbuffer_sub) (len : Z) : VM (option (list Z)) :=
  bs ← vbuffer_sub_read data len;
  e ← check_error;
  if e : bool then ret None else
  c_assert (bool_decide (0 < len));;
  ret (Some (if bool_decide (zlen bs = len) then ztake (len - 1) bs else bs)).

Definition vbuffer_setfixedstring (data : vbuffer_sub) (str : list Z) : VM Z :=
  vbuffer_sub_write data str.

Definition vbuffer_setstring (data : vbuffer_sub) (str : list Z) : VM (bool * vbuffer_sub) :=
  '(ok, newbuf) ← vbuffer_create_from str;
  if negb ok then ret (false, data) else
  '(r, data, newbuf) ← vbuffer_replace data newbuf;
  _ ← vbuffer_release newbuf;
  ret (r, data).

Definition vbuffer_getbyte (data : vbuffer_sub) (offset : Z) : VM Z :=
  it ← vbuffer_iterator_copy (sb_begin data);
  '(_, it) ← vbuffer_iterator_advance it offset;
  '(b, _) ← vbuffer_iterator_getbyte it;
  ret b.

Definition vbuffer_setbyte (data : vbuffer_sub) (offset byte : Z) : VM bool :=
  it ← vbuffer_iterator_copy (sb_begin data);
  '(_, it) ← vbuffer_iterator_advance it offset;
  '(r, _) ← vbuffer_iterator_setbyte it byte;
  ret r.
