(* ===== verification/VbRep.v ===== *)
(** * What a buffer of the heap represents

    [buf_rep s e cs]: in the state [s] the end chunk [e] heads a list whose
    other chunks are [cs], each with its record. [content s cs] is the byte
    string of the buffer and [pos_of] gives the offset in it that a chunk and
    an offset in that chunk denote. [heap_ok] is the invariant of the whole
    heap: fresh addresses are fresh, and the count of every data block is the
    number of chunks that refer to it. *)

From S2P Require Import Prelude List2 VbHeap VbIter.

(** ** Definitions *)

Abbreviation seg := (positive * vbuffer_chunk)%type.

Definition basic_bytes (s : vbstate) (d : ptr) : option (list Z) :=
  d ≫= λ d, vb_datas s !! d ≫= λ dt,
  if dt_body dt is vbuffer_data_basic_ops _ b then Some b else None.

Definition chunk_bytes (s : vbstate) (ch : vbuffer_chunk) : list Z :=
  if fl_ctl (ch_flags ch) then []
  else zslice (ch_offset ch) (ch_size ch) (default [] (basic_bytes s (ch_data ch))).

Definition content (s : vbstate) (cs : list seg) : list Z :=
  concat ((λ x : seg, chunk_bytes s x.2) <$> cs).

(** The size of the chunks [cs]. *)
Definition csize (cs : list seg) : Z := zsum ((λ x : seg, ch_size x.2) <$> cs).

Record chunk_ok (s : vbstate) (ch : vbuffer_chunk) : Prop := {
  co_end : fl_end (ch_flags ch) = false;
  co_ref : 1 ≤ ch_ref ch < 2 ^ 32;
  co_size : 0 ≤ ch_size ch;
  co_ctl : fl_ctl (ch_flags ch) = true →
    ch_size ch = 0 ∧ is_Some (ch_data ch);
  co_data : fl_ctl (ch_flags ch) = false →
    0 ≤ ch_offset ch ∧
    ∃ b, basic_bytes s (ch_data ch) = Some b ∧ ch_offset ch + ch_size ch ≤ zlen b;
  co_small : ch_offset ch + ch_size ch < 2 ^ 32;
}.

Record end_ok (ch : vbuffer_chunk) : Prop := {
  eo_end : fl_end (ch_flags ch) = true;
  eo_ref : 1 ≤ ch_ref ch < 2 ^ 32;
  eo_size : ch_size ch = 0;
}.

Record buf_rep (s : vbstate) (e : loc) (cs : list seg) : Prop := {
  br_list : dlist (vb_links s) e cs.*1;
  br_end : ∃ ch, vb_chunks s !! e = Some ch ∧ end_ok ch;
  br_chunks : ∀ c ch, (c, ch) ∈ cs → vb_chunks s !! c = Some ch ∧ chunk_ok s ch;
  br_small : csize cs < 2 ^ 32;
}.

(** The chunk at the head of a suffix of the buffer. *)
Definition chunk_at (e : loc) (l : list seg) : loc := at_head e l.*1.

(** [norm_pos]: the position [p] as a chunk and an offset within it. *)
Definition norm_pos (e : loc) (cs : list seg) (c : loc) (o p : Z) : Prop :=
  (∃ l1 ch l2, cs = l1 ++ (c, ch) :: l2 ∧ p = csize l1 + o ∧ 0 ≤ o ≤ ch_size ch) ∨
  (c = e ∧ o = 0 ∧ p = csize cs).

(** [pos_of]: the same, with an offset that may run over the next chunks. *)
Definition pos_of (e : loc) (cs : list seg) (c : loc) (o p : Z) : Prop :=
  (∃ l1 ch l2, cs = l1 ++ (c, ch) :: l2 ∧ p = csize l1 + o ∧ 0 ≤ o ∧ p ≤ csize cs) ∨
  (c = e ∧ o = 0 ∧ p = csize cs).

(** [fixed]: [c'], [o'] is what [_vbuffer_iterator_fix] makes of [c], [o]: the
    first chunk from [c] on that the offset does not run over. *)
Definition fixed (e : loc) (cs : list seg) (c : loc) (o : Z) (c' : loc) (o' : Z) : Prop :=
  ∃ l1 lm l2, cs = l1 ++ lm ++ l2 ∧ c = chunk_at e (lm ++ l2) ∧ c' = chunk_at e l2 ∧
    o = csize lm + o' ∧ (lm = [] ∨ 0 < o') ∧ 0 ≤ o' ∧
    match l2 with [] => o' = 0 | x :: _ => o' ≤ ch_size x.2 end.

(** The chunk [c] is not after [c'] in the buffer. *)
Definition le_chunk (e : loc) (cs : list seg) (c c' : loc) : Prop :=
  ∃ l1 lm l2, cs = l1 ++ lm ++ l2 ∧ c = chunk_at e (lm ++ l2) ∧ c' = chunk_at e l2.

Definition nrefs (m : gmap loc vbuffer_chunk) (d : loc) : nat :=
  size (filter (λ x : seg, ch_data x.2 = Some d) m).

Record heap_ok (s : vbstate) : Prop := {
  ho_fresh_chunk : ∀ x, is_Some (vb_chunks s !! x) → (x < vb_fresh s)%positive;
  ho_fresh_link : ∀ x, is_Some (vb_links s !! x) → (x < vb_fresh s)%positive;
  ho_fresh_data : ∀ x, is_Some (vb_datas s !! x) → (x < vb_fresh s)%positive;
  ho_refs : ∀ d dt, vb_datas s !! d = Some dt → dt_ref dt = Z.of_nat (nrefs (vb_chunks s) d);
  ho_data : ∀ c ch d, vb_chunks s !! c = Some ch → ch_data ch = Some d → is_Some (vb_datas s !! d);
  ho_small : Z.of_nat (size (vb_chunks s) + vb_mem s) < 2 ^ 32;
}.

(** ** Sizes and contents *)

Section content.
Implicit Types s : vbstate.

Lemma csize_nil : csize [] = 0.
Proof. done. Qed.
Lemma csize_cons x cs : csize (x :: cs) = ch_size x.2 + csize cs.
Proof. done. Qed.
Lemma csize_app l1 l2 : csize (l1 ++ l2) = csize l1 + csize l2.
Proof. unfold csize. by rewrite fmap_app, zsum_app. Qed.

Lemma content_nil s : content s [] = [].
Proof. done. Qed.
Lemma content_cons s x cs : content s (x :: cs) = chunk_bytes s x.2 ++ content s cs.
Proof. done. Qed.
Lemma content_app s l1 l2 : content s (l1 ++ l2) = content s l1 ++ content s l2.
Proof. unfold content. by rewrite fmap_app, concat_app. Qed.

Lemma chunk_bytes_len s ch : chunk_ok s ch → zlen (chunk_bytes s ch) = ch_size ch.
Proof.
  intros [_ _ Hs Hc Hd _]. unfold chunk_bytes. destruct (fl_ctl (ch_flags ch)).
  - destruct (Hc eq_refl) as [-> _]. done.
  - destruct (Hd eq_refl) as (Ho & b & -> & Hb). simpl. by apply zlen_zslice.
Qed.

Lemma content_len s cs :
  (∀ c ch, (c, ch) ∈ cs → chunk_ok s ch) → zlen (content s cs) = csize cs.
Proof.
  induction cs as [|[c ch] cs IH]; intros H; [done|].
  rewrite content_cons, csize_cons, zlen_app, IH.
  - simpl. rewrite chunk_bytes_len; [done|]. apply (H c). by left.
  - intros c' ch' Hi. apply (H c'). by right.
Qed.

Lemma csize_nonneg s cs : (∀ c ch, (c, ch) ∈ cs → chunk_ok s ch) → 0 ≤ csize cs.
Proof. intros H. rewrite <- (content_len s cs H). apply zlen_nonneg. Qed.

Lemma br_ok s e cs c ch : buf_rep s e cs → (c, ch) ∈ cs → chunk_ok s ch.
Proof. intros H Hi. by destruct (br_chunks _ _ _ H _ _ Hi). Qed.

Lemma br_lookup s e cs c ch : buf_rep s e cs → (c, ch) ∈ cs → vb_chunks s !! c = Some ch.
Proof. intros H Hi. by destruct (br_chunks _ _ _ H _ _ Hi). Qed.

Lemma br_len s e cs : buf_rep s e cs → zlen (content s cs) = csize cs.
Proof. intros H. apply content_len. intros c ch. by eapply br_ok. Qed.

Lemma br_nonneg s e cs : buf_rep s e cs → 0 ≤ csize cs.
Proof. intros H. eapply csize_nonneg. intros c ch. by eapply br_ok. Qed.

(** The sizes of the parts of a buffer. *)
Lemma br_parts s e l1 l2 :
  buf_rep s e (l1 ++ l2) → 0 ≤ csize l1 ∧ 0 ≤ csize l2 ∧ csize l1 + csize l2 < 2 ^ 32.
Proof.
  intros H. split_and!.
  - eapply csize_nonneg. intros c ch Hi. eapply br_ok; [done|]. apply elem_of_app. by left.
  - eapply csize_nonneg. intros c ch Hi. eapply br_ok; [done|]. apply elem_of_app. by right.
  - rewrite <- csize_app. apply (br_small _ _ _ H).
Qed.

Lemma br_size s e l1 c ch l2 :
  buf_rep s e (l1 ++ (c, ch) :: l2) →
  0 ≤ csize l1 ∧ 0 ≤ ch_size ch ∧ 0 ≤ csize l2 ∧ csize l1 + ch_size ch + csize l2 < 2 ^ 32.
Proof.
  intros H. destruct (br_parts _ _ _ _ H) as (? & ? & Hs).
  assert (0 ≤ ch_size ch) by (eapply co_size, br_ok; [done|]; apply elem_of_app; right; by left).
  pose proof H as H'. rewrite cons_middle, app_assoc in H'.
  destruct (br_parts _ _ _ _ H') as (? & ? & ?). rewrite csize_cons in *. simpl in *.
  split_and!; try done; lia.
Qed.

Lemma br_at s e l1 c ch l2 :
  buf_rep s e (l1 ++ (c, ch) :: l2) → vb_chunks s !! c = Some ch ∧ chunk_ok s ch.
Proof. intros H. apply (br_chunks _ _ _ H). apply elem_of_app. right. by left. Qed.

(** A buffer has no more chunks than the heap. *)
Lemma br_fuel s e cs : buf_rep s e cs → (length cs < size (vb_chunks s))%nat.
Proof.
  intros H. pose proof (dlist_nodup _ _ _ (br_list _ _ _ H)) as Hnd.
  rewrite <- size_dom. rewrite <- (length_fmap fst cs).
  change (length (e :: cs.*1) ≤ size (dom (vb_chunks s)))%nat.
  rewrite <- (size_list_to_set (C:=gset loc)) by done. apply subseteq_size.
  intros x Hx. apply elem_of_list_to_set in Hx. apply elem_of_dom.
  apply elem_of_cons in Hx as [->|Hx].
  - destruct (br_end _ _ _ H) as (ch & -> & _). eauto.
  - apply list_elem_of_fmap in Hx as ([c ch] & -> & Hi). simpl.
    rewrite (br_lookup _ _ _ _ _ H Hi). eauto.
Qed.

(** Chunks are identified by their address. *)
Lemma br_inj s e cs c ch ch' : buf_rep s e cs → (c, ch) ∈ cs → (c, ch') ∈ cs → ch = ch'.
Proof.
  intros H H1 H2. apply (br_lookup _ _ _ _ _ H) in H1, H2. congruence.
Qed.

Lemma br_unique s e l1 c ch l2 l1' ch' l2' :
  buf_rep s e (l1 ++ (c, ch) :: l2) →
  l1 ++ (c, ch) :: l2 = l1' ++ (c, ch') :: l2' → l1 = l1' ∧ ch = ch' ∧ l2 = l2'.
Proof.
  intros H E. pose proof (dlist_nodup _ _ _ (br_list _ _ _ H)) as [_ Hnd]%NoDup_cons.
  assert (ch = ch') as <-.
  { eapply br_inj; [done|apply elem_of_app; right; by left|].
    rewrite E. apply elem_of_app. right. by left. }
  assert (NoDup (l1 ++ (c, ch) :: l2)) as Hnd' by (by eapply NoDup_fmap_1).
  clear -E Hnd'. revert l1' E Hnd'.
  induction l1 as [|x l1 IH]; intros [|y l1'] E Hnd; simpl in E, Hnd.
  - injection E as E. done.
  - injection E as Ex E. exfalso. subst. apply NoDup_cons in Hnd as [Hni _]. apply Hni, elem_of_app. right. by left.
  - injection E as Ex E. exfalso. subst. apply NoDup_cons in Hnd as [Hni _].
    apply Hni, elem_of_app. right. by left.
  - injection E as Ex E. subst. apply NoDup_cons in Hnd as [_ Hnd]. destruct (IH _ E Hnd) as (-> & _ & ->). done.
Qed.

Lemma br_ne_end s e cs c ch : buf_rep s e cs → (c, ch) ∈ cs → c ≠ e.
Proof.
  intros H Hi ->. pose proof (dlist_nodup _ _ _ (br_list _ _ _ H)) as [Hni _]%NoDup_cons.
  apply Hni. apply list_elem_of_fmap. by exists (e, ch).
Qed.

Lemma norm_pos_of s e cs c o p : buf_rep s e cs → norm_pos e cs c o p → pos_of e cs c o p.
Proof.
  intros H. intros [(l1 & ch & l2 & -> & -> & Ho)|Hn]; [|by right]. left.
  exists l1, ch, l2. destruct (br_size _ _ _ _ _ _ H) as (? & ? & ? & ?).
  split_and!; try done; [lia|]. rewrite csize_app, csize_cons. simpl. lia.
Qed.

(** A chunk of the buffer or its end determines the suffix it starts. *)
Lemma chunk_at_inj s e l1 l2 l1' l2' :
  buf_rep s e (l1 ++ l2) → l1 ++ l2 = l1' ++ l2' → chunk_at e l2 = chunk_at e l2' →
  l1 = l1' ∧ l2 = l2'.
Proof.
  intros H E Hc. destruct l2 as [|[c ch] l2], l2' as [|[c' ch'] l2']; unfold chunk_at in *; simpl in *.
  - rewrite !app_nil_r in E. by subst.
  - exfalso. eapply (br_ne_end _ _ _ c' ch' H); [rewrite E; apply elem_of_app; right; by left|done].
  - exfalso. eapply (br_ne_end _ _ _ c ch H); [apply elem_of_app; right; by left|done].
  - subst c'. destruct (br_unique _ _ _ _ _ _ _ _ _ H E) as (-> & -> & ->). done.
Qed.

Lemma fixed_norm s e cs c o c' o' p :
  buf_rep s e cs → pos_of e cs c o p → fixed e cs c o c' o' → norm_pos e cs c' o' p.
Proof.
  intros H Hp (l1 & lm & l2 & -> & -> & -> & -> & Hm & Ho & Hl).
  assert (p = csize (l1 ++ lm) + o') as ->.
  { destruct Hp as [(k1 & ch & k2 & E & -> & _)|(Ec & Eo & ->)].
    - destruct (chunk_at_inj s e l1 (lm ++ l2) k1 ((chunk_at e (lm ++ l2), ch) :: k2))
        as [-> _]; [done|done|done|]. rewrite csize_app. lia.
    - destruct (chunk_at_inj s e l1 (lm ++ l2) (l1 ++ lm ++ l2) []) as [_ E];
        [done|by rewrite app_nil_r|done|].
      apply app_nil in E as [-> ->]. subst o'. rewrite !app_nil_r. lia. }
  destruct l2 as [|[c2 ch2] l2]; [right|left].
  - subst o'. rewrite app_nil_r, csize_app. split_and!; [done..|]. lia.
  - exists (l1 ++ lm), ch2, l2. rewrite <- app_assoc. split_and!; try done; lia.
Qed.

Lemma pos_of_range s e cs c o p : buf_rep s e cs → pos_of e cs c o p → 0 ≤ p ≤ csize cs.
Proof.
  intros H [(l1 & ch & l2 & -> & -> & Ho & Hp)|(-> & -> & ->)].
  - destruct (br_size _ _ _ _ _ _ H) as (? & ? & ? & ?). lia.
  - pose proof (br_nonneg _ _ _ H). lia.
Qed.
End content.
