(* ===== verification/VbWalk.v ===== *)
(** * Walks over a buffer

    The functions of vbuffer.c that only read the chunks, proved against the
    abstraction of VbRep: every walk of the code ends (its fuel is enough) and
    computes the position or the size the abstraction says. *)

From S2P Require Import Prelude List2 VbHeap VbIter VbRep.

(** ** Accesses *)

Section access.
Implicit Types s : vbstate.

Lemma runs_rd_chunk s c ch Q : vb_chunks s !! c = Some ch → Q ch s → runs (rd_chunk c) s Q.
Proof. intros H HQ. unfold rd_chunk. step. rewrite H. by step. Qed.

Lemma runs_wr_chunk s c ch Q :
  Q tt (set_chunks (<[c := ch]> (vb_chunks s)) s) → runs (wr_chunk c ch) s Q.
Proof. intros HQ. unfold wr_chunk. by step. Qed.

Lemma runs_upd_chunk s c ch f Q :
  vb_chunks s !! c = Some ch → Q tt (set_chunks (<[c := f ch]> (vb_chunks s)) s) →
  runs (upd_chunk c f) s Q.
Proof.
  intros H HQ. unfold upd_chunk. apply runs_bind. eapply runs_rd_chunk; [done|].
  by apply runs_wr_chunk.
Qed.

Lemma runs_rd_data s d dt Q : vb_datas s !! d = Some dt → Q dt s → runs (rd_data d) s Q.
Proof. intros H HQ. unfold rd_data. step. rewrite H. by step. Qed.

Lemma set_links_id s : set_links (vb_links s) s = s.
Proof. by destruct s. Qed.

(** A link operation that only reads. *)
Lemma runs_lnk_read {A} (m : M lmem A) s Q :
  runs m (vb_links s) (λ a l, l = vb_links s ∧ Q a s) → runs (lnk m) s Q.
Proof.
  intros H. unfold lnk. step. eapply runs_mono; [done|]. intros a l [-> HQ].
  by rewrite set_links_id.
Qed.

Lemma runs_lnk_next s c n Q : nxt (vb_links s) c = Some n → Q (Some n) s →
  runs (lnk (list2_next c)) s Q.
Proof. intros. apply runs_lnk_read. by eapply runs_list2_next. Qed.

Lemma runs_lnk_prev s c n Q : prv (vb_links s) c = Some n → Q (Some n) s →
  runs (lnk (list2_prev c)) s Q.
Proof. intros. apply runs_lnk_read. by eapply runs_list2_prev. Qed.

Lemma runs_chunk_fuel s Q : Q (S (size (vb_chunks s))) s → runs chunk_fuel s Q.
Proof. intros. unfold chunk_fuel. by step. Qed.
End access.

(** ** The chunks of a buffer *)

Section walks.
Implicit Types s : vbstate.

Lemma fmap_split (l1 l2 : list seg) (x : seg) : (l1 ++ x :: l2).*1 = l1.*1 ++ x.1 :: l2.*1.
Proof. by rewrite fmap_app. Qed.

(** The chunk at the head of a suffix is a chunk of the buffer or its end. *)
Lemma chunk_at_cases s e l1 l2 :
  buf_rep s e (l1 ++ l2) →
  (l2 = [] ∧ chunk_at e l2 = e ∧ ∃ ch, vb_chunks s !! e = Some ch ∧ end_ok ch) ∨
  (∃ c ch l, l2 = (c, ch) :: l ∧ chunk_at e l2 = c ∧ vb_chunks s !! c = Some ch ∧ chunk_ok s ch).
Proof.
  intros H. destruct l2 as [|[c ch] l].
  - left. split_and!; [done..|]. apply (br_end _ _ _ H).
  - right. exists c, ch, l. destruct (br_at _ _ _ _ _ _ H). done.
Qed.

Lemma runs_chunk_next s e l1 c ch l2 Q :
  buf_rep s e (l1 ++ (c, ch) :: l2) →
  Q (Some (chunk_at e l2)) s → runs (vbuffer_chunk_next c) s Q.
Proof.
  intros H HQ. destruct (br_at _ _ _ _ _ _ H) as [Hc Ok].
  unfold vbuffer_chunk_next. apply runs_bind. eapply runs_rd_chunk; [done|].
  rewrite (co_end _ _ Ok). eapply runs_lnk_next; [|done].
  pose proof (br_list _ _ _ H) as Hl. rewrite fmap_split in Hl. by apply dlist_next in Hl.
Qed.

Lemma runs_chunk_next_end s e cs Q :
  buf_rep s e cs → Q None s → runs (vbuffer_chunk_next e) s Q.
Proof.
  intros H HQ. destruct (br_end _ _ _ H) as (ch & Hc & Ok).
  unfold vbuffer_chunk_next. apply runs_bind. eapply runs_rd_chunk; [done|].
  rewrite (eo_end _ Ok). by step.
Qed.

Lemma runs_chunk_begin s e cs Q :
  buf_rep s e cs → Q (chunk_at e cs) s → runs (vbuffer_chunk_begin (Some e)) s Q.
Proof.
  intros H HQ. unfold vbuffer_chunk_begin. step. apply runs_bind.
  eapply runs_lnk_next; [by apply dlist_begin, (br_list _ _ _ H)|]. by step.
Qed.

(** [_vbuffer_iterator_check] accepts an unregistered position of a buffer. *)
Lemma runs_iter_check s e cs c o p meter Q :
  buf_rep s e cs → pos_of e cs c o p →
  Q true s → runs (_vbuffer_iterator_check (Iter (Some c) o meter false)) s Q.
Proof.
  intros H Hp HQ. unfold _vbuffer_iterator_check. simpl.
  assert (c ∈ e :: cs.*1 ∧ ∃ ch, vb_chunks s !! c = Some ch) as [Hi [ch Hc]].
  { destruct Hp as [(l1 & ch & l2 & -> & _)|(-> & _ & _)].
    - destruct (br_at _ _ _ _ _ _ H). split; [|eauto]. right. rewrite fmap_split.
      apply elem_of_app. right. by left.
    - destruct (br_end _ _ _ H) as (ch & ? & _). split; [by left|eauto]. }
  destruct (dlist_links _ _ _ _ (br_list _ _ _ H) Hi) as (pp & nn & E).
  apply runs_bind. eapply runs_rd_chunk; [done|]. apply runs_bind.
  apply runs_lnk_read. eapply runs_rd_elem; [done|]. split; [done|]. simpl.
  step. by step.
Qed.

(** *** [_vbuffer_iterator_fix] *)

Lemma fix_loop_spec s e : ∀ l2 l1 fuel o Q,
  buf_rep s e (l1 ++ l2) → (length l2 ≤ fuel)%nat → 0 ≤ o ≤ csize l2 → l2 ≠ [] →
  (∀ lm l2' o', l2 = lm ++ l2' → o = csize lm + o' → (lm = [] ∨ 0 < o') → 0 ≤ o' →
     (∃ x l, l2' = x :: l ∧ o' ≤ ch_size x.2) → Q (o', chunk_at e l2') s) →
  runs (fix_loop fuel o (chunk_at e l2)) s Q.
Proof.
  induction l2 as [|[c ch] l2 IH]; intros l1 fuel o Q H Hf Ho Hne HQ; [done|].
  destruct (br_at _ _ _ _ _ _ H) as [Hc Ok]. destruct (br_size _ _ _ _ _ _ H) as (?&?&?&?).
  rewrite csize_cons in Ho. simpl in Ho, Hf. destruct fuel as [|fuel]; [lia|].
  simpl. apply runs_bind. eapply runs_rd_chunk; [done|]. rewrite (co_end _ _ Ok).
  case_bool_decide as Hgt.
  - call runs_chunk_next; [done|]. step.
    assert (l2 ≠ []) by (intros ->; rewrite csize_nil in *; lia).
    pose proof H as H'. rewrite cons_middle, app_assoc in H'.
    eapply (IH (l1 ++ [(c, ch)])); [done|lia|lia|done|].
    intros lm l2' o' -> Eo Hm Ho' Hx. apply (HQ ((c, ch) :: lm)); try done.
    + rewrite csize_cons. simpl. lia.
    + right. destruct Hm as [->|?]; [rewrite csize_nil in *; lia|done].
  - step. apply (HQ []); [done|rewrite csize_nil; lia|by left|lia|].
    exists (c, ch), l2. split; [done|simpl; lia].
Qed.

Lemma runs_fix s e cs c o p meter reg Q :
  buf_rep s e cs → pos_of e cs c o p →
  (∀ c' o', fixed e cs c o c' o' → norm_pos e cs c' o' p → Q (o', c') s) →
  runs (_vbuffer_iterator_fix (Iter (Some c) o meter reg)) s Q.
Proof.
  intros H Hp HQ'.
  assert (∀ c' o', fixed e cs c o c' o' → Q (o', c') s) as HQ.
  { intros c' o' F. apply HQ'; [done|]. by eapply fixed_norm. }
  clear HQ'. unfold _vbuffer_iterator_fix. simpl. step.
  destruct Hp as [(l1 & ch & l2 & -> & -> & Ho & Hle)|(-> & -> & ->)].
  - destruct (br_at _ _ _ _ _ _ H) as [Hc Ok]. apply runs_bind. eapply runs_rd_chunk; [done|].
    case_bool_decide.
    + call runs_chunk_fuel. eapply (fix_loop_spec s e ((c, ch) :: l2) l1); [done| | |done|].
      * pose proof (br_fuel _ _ _ H) as Hf. rewrite length_app in Hf. lia.
      * rewrite csize_app in Hle. lia.
      * intros lm l2' o' E Eo Hm Ho' (x & l & -> & Hx). apply HQ.
        exists l1, lm, (x :: l). rewrite <- E. done.
    + step. apply HQ. exists l1, [], ((c, ch) :: l2).
      split_and!; try done; try (by left); simpl; lia.
  - destruct (br_end _ _ _ H) as (ch & Hc & Ok). apply runs_bind.
    eapply runs_rd_chunk; [done|]. rewrite (eo_size _ Ok). rewrite bool_decide_false by lia.
    step. apply HQ. exists cs, [], []. rewrite !app_nil_r. split_and!; try done; by left.
Qed.

(** *** [vbuffer_iterator_advance] *)

Lemma advance_loop_spec s e : ∀ l2 l1 fuel o len Q,
  buf_rep s e (l1 ++ l2) → (length l2 ≤ fuel)%nat → 0 ≤ len →
  (o = 0 ∨ ∃ c ch l, l2 = (c, ch) :: l ∧ 0 ≤ o ≤ ch_size ch) →
  (∀ c' o', norm_pos e (l1 ++ l2) c' o' (csize l1 + o + len `min` (csize l2 - o)) →
     Q (c', o', len - len `min` (csize l2 - o)) s) →
  runs (advance_loop fuel (chunk_at e l2) o len) s Q.
Proof.
  induction l2 as [|[c ch] l2 IH]; intros l1 fuel o len Q H Hf Hl Ho HQ.
  - assert (o = 0) as -> by (destruct Ho as [?|(?&?&?&[=]&_)]; done).
    destruct (br_end _ _ _ H) as (ch & Hc & Ok).
    assert (csize [] = 0) as En by done. rewrite En in HQ.
    assert (len `min` (0 - 0) = 0) as Em by lia. rewrite Em in HQ.
    destruct fuel; simpl; (apply runs_bind; eapply runs_rd_chunk; [done|];
      rewrite (eo_end _ Ok); step; replace len with (len - 0) by lia; apply HQ; right;
      rewrite app_nil_r; split_and!; [done..|lia]).
  - destruct (br_at _ _ _ _ _ _ H) as [Hc Ok]. destruct (br_size _ _ _ _ _ _ H) as (?&?&?&?).
    assert (0 ≤ o ≤ ch_size ch) as Ho'.
    { destruct Ho as [->|(?&?&?&[= <- <- <-]&?)]; [lia|done]. }
    rewrite csize_cons in HQ. simpl in HQ. simpl in Hf. destruct fuel as [|fuel]; [lia|].
    simpl. apply runs_bind. eapply runs_rd_chunk; [done|]. rewrite (co_end _ _ Ok).
    rewrite bool_decide_false by lia. case_bool_decide as Hle.
    + step. replace 0 with (len - len `min` (ch_size ch + csize l2 - o)) by lia.
      apply HQ. left. exists l1, ch, l2. split_and!; [done|lia|lia|lia].
    + call runs_chunk_next; [done|]. step.
      pose proof H as H'. rewrite cons_middle, app_assoc in H'.
      eapply (IH (l1 ++ [(c, ch)])); [done|lia|lia|by left|]. intros c' o' Hn.
      assert (len - (ch_size ch - o) - (len - (ch_size ch - o)) `min` (csize l2 - 0) =
              len - len `min` (ch_size ch + csize l2 - o)) as -> by lia.
      apply HQ. rewrite <- app_assoc in Hn. simpl in Hn.
      rewrite csize_app, csize_cons, csize_nil in Hn. simpl in Hn.
      match type of Hn with norm_pos _ _ _ _ ?p => match goal with |- norm_pos _ _ _ _ ?q =>
        replace q with p by lia end end. done.
Qed.

Lemma norm_pos_off s e cs c o p : buf_rep s e cs → norm_pos e cs c o p → 0 ≤ o < 2 ^ 32.
Proof.
  intros H [(l1 & ch & l2 & -> & _ & Ho)|(_ & -> & _)]; [|lia].
  destruct (br_size _ _ _ _ _ _ H) as (?&?&?&?). lia.
Qed.

Lemma runs_iter_update s it c o Q :
  it_registered it = false → 0 ≤ o < 2 ^ 32 →
  Q (Iter (Some c) o (it_meter it) false) s → runs (vbuffer_iterator_update it c o) s Q.
Proof.
  intros Hr Ho HQ. unfold vbuffer_iterator_update. rewrite Hr.
  assert ((if bool_decide (it_chunk it = Some c) then skip else skip : VM unit) = skip) as ->
    by (by case_bool_decide).
  unfold skip. step. step. by rewrite u32_small.
Qed.

(** The position [p] in normal form starts the suffix that remains there. *)
Lemma norm_pos_suffix e cs c o p :
  norm_pos e cs c o p →
  ∃ l1 l2, cs = l1 ++ l2 ∧ c = chunk_at e l2 ∧ p = csize l1 + o ∧
    (o = 0 ∨ ∃ c ch l, l2 = (c, ch) :: l ∧ 0 ≤ o ≤ ch_size ch).
Proof.
  intros [(l1 & ch & l2 & -> & -> & Ho)|(-> & -> & ->)].
  - exists l1, ((c, ch) :: l2). split_and!; try done. right. by exists c, ch, l2.
  - exists cs, []. rewrite app_nil_r. split_and!; try done; [lia|by left].
Qed.

Lemma runs_advance s e cs c o p meter len Q :
  buf_rep s e cs → pos_of e cs c o p → 0 ≤ len →
  (∀ c' o', norm_pos e cs c' o' (p + len `min` (csize cs - p)) →
    Q (len `min` (csize cs - p),
       Iter (Some c') o' (u32 (meter + len `min` (csize cs - p))) false) s) →
  runs (vbuffer_iterator_advance (Iter (Some c) o meter false) len) s Q.
Proof.
  intros H Hp Hl HQ. unfold vbuffer_iterator_advance.
  call runs_iter_check; [done|done|]. simpl.
  call runs_fix; [done|done|]. intros c1 o1 _ Hn.
  call runs_chunk_fuel. apply norm_pos_suffix in Hn as (l1 & l2 & -> & -> & -> & Ho).
  rewrite csize_app in HQ.
  call (advance_loop_spec s e l2 l1); [done| |done|done|].
  { pose proof (br_fuel _ _ _ H) as Hf. rewrite length_app in Hf. lia. }
  intros c' o' Hn. call runs_iter_update; [done|by eapply norm_pos_off|]. simpl. step.
  replace (len - (len - len `min` (csize l2 - o1)))
    with (len `min` (csize l1 + csize l2 - (csize l1 + o1))) by lia.
  apply HQ. match type of Hn with norm_pos _ _ _ _ ?p => match goal with
    |- norm_pos _ _ _ _ ?q => replace q with p by lia end end. done.
Qed.

(** *** Available bytes *)

(** The end position of the walk: in a chunk, or the end of the buffer. *)
Definition end_in (l2 : list seg) (eo : Z) : Prop :=
  0 ≤ eo ∧ match l2 with [] => eo = 0 | x :: _ => eo ≤ ch_size x.2 end.

Lemma available_loop_spec s e enditer eo minsize Q : ∀ lm l1 l2 fuel o cur,
  buf_rep s e (l1 ++ lm ++ l2) → (length (lm ++ l2) ≤ fuel)%nat →
  0 ≤ cur < minsize → cur ≤ csize l1 →
  (o = 0 ∨ ∃ c ch l, lm ++ l2 = (c, ch) :: l ∧ 0 ≤ o ≤ ch_size ch) →
  end_in l2 eo → (lm = [] → o ≤ eo) →
  enditer = Some (chunk_at e l2) ∨ enditer = None ∧ l2 = [] →
  Q (bool_decide (minsize ≤ cur + csize lm - o + eo),
     Some (minsize `min` (cur + csize lm - o + eo))) s →
  runs (available_loop fuel (chunk_at e (lm ++ l2)) o enditer eo minsize cur) s Q.
Proof.
  induction lm as [|[c ch] lm IH]; intros l1 l2 fuel o cur H Hf Hcur Hl1 Ho [He0 He] Hoe Hend HQ.
  - rewrite csize_nil in HQ. destruct l2 as [|[c ch] l2].
    + assert (o = 0) as -> by (destruct Ho as [?|(?&?&?&[=]&_)]; done). subst eo.
      rewrite bool_decide_false in HQ by lia. rewrite Z.min_r in HQ by lia.
      replace (cur + 0 - 0 + 0) with cur in HQ by lia.
      destruct (br_end _ _ _ H) as (ch & Hc & Ok).
      destruct fuel; simpl; (apply runs_bind; eapply runs_rd_chunk; [done|];
        rewrite (eo_end _ Ok); by step).
    + simpl in H. destruct (br_at _ _ _ _ _ _ H) as [Hc Ok].
      destruct (br_size _ _ _ _ _ _ H) as (?&?&?&?).
      destruct Hend as [->|[_ [=]]]. simpl in *. specialize (Hoe eq_refl).
      assert (0 ≤ o) by (destruct Ho as [->|(?&?&?&_&?)]; lia).
      destruct fuel as [|fuel]; [lia|]. simpl. apply runs_bind. eapply runs_rd_chunk; [done|].
      rewrite (co_end _ _ Ok). rewrite bool_decide_true by done. rewrite bool_decide_false by lia.
      rewrite u64_small by lia. replace (cur + 0 - o + eo) with (cur + (eo - o)) in HQ by lia.
      case_test as Hm; step.
      * by rewrite Z.min_l in HQ by lia.
      * by rewrite Z.min_r in HQ by lia.
  - simpl in H, Ho, Hf. destruct (br_at _ _ _ _ _ _ H) as [Hc Ok].
    destruct (br_size _ _ _ _ _ _ H) as (?&?&?&?).
    assert (0 ≤ o ≤ ch_size ch) as Ho'.
    { destruct Ho as [->|(?&?&?&[= <- <- <-]&?)]; [lia|done]. }
    assert (enditer ≠ Some c) as Hne.
    { destruct Hend as [->|[-> _]]; [|done]. intros [= Ec].
      assert ((c, ch) :: lm = []) as [=].
      { destruct (chunk_at_inj s e l1 ((c, ch) :: lm ++ l2) (l1 ++ (c, ch) :: lm) l2) as [E _];
          [done|by rewrite <- app_assoc|done|].
        rewrite <- (app_nil_r l1) in E at 1. by apply app_inv_head in E. } }
    destruct fuel as [|fuel]; [simpl in Hf; lia|]. simpl. apply runs_bind.
    eapply runs_rd_chunk; [done|]. rewrite (co_end _ _ Ok). rewrite bool_decide_false by done.
    rewrite (u64_small (ch_size ch - o)) by lia. rewrite u64_small by lia.
    rewrite csize_cons in HQ. simpl in HQ.
    assert (0 ≤ csize lm) as Hlm.
    { pose proof H as H'. rewrite cons_middle, !app_assoc in H'. rewrite <- app_assoc in H'.
      rewrite <- (app_assoc l1) in H'. simpl in H'.
      eapply csize_nonneg. intros c' ch' Hi. eapply br_ok; [done|].
      apply elem_of_app. right. right. apply elem_of_app. by left. }
    case_test as Hm.
    + step. rewrite bool_decide_true in HQ by lia. by rewrite Z.min_l in HQ by lia.
    + call runs_chunk_next; [done|]. step.
      eapply (IH (l1 ++ [(c, ch)])); try done.
      * by rewrite <- app_assoc.
      * simpl in Hf. lia.
      * lia.
      * rewrite csize_app, csize_cons, csize_nil. simpl. lia.
      * by left.
      * replace (cur + (ch_size ch - o) + csize lm - 0 + eo)
          with (cur + (ch_size ch + csize lm) - o + eo) by lia. done.
Qed.

Lemma fixed_suffix e cs c o c' o' :
  fixed e cs c o c' o' →
  ∃ l1 l2, cs = l1 ++ l2 ∧ c' = chunk_at e l2 ∧ end_in l2 o'.
Proof.
  intros (l1 & lm & l2 & -> & _ & -> & _ & _ & Ho & Hl). exists (l1 ++ lm), l2.
  rewrite <- app_assoc. done.
Qed.

Lemma runs_check_available s e cs c o p meter minsize Q :
  buf_rep s e cs → pos_of e cs c o p → 0 ≤ minsize →
  Q (bool_decide (minsize ≤ csize cs - p), Some (minsize `min` (csize cs - p))) s →
  runs (vbuffer_iterator_check_available (Iter (Some c) o meter false) minsize) s Q.
Proof.
  intros H Hp Hm HQ. pose proof (pos_of_range _ _ _ _ _ _ H Hp) as Hr.
  unfold vbuffer_iterator_check_available, _vbuffer_iterator_check_available.
  call runs_iter_check; [done|done|]. simpl. case_test as H0.
  { subst. step. rewrite bool_decide_true in HQ by lia. by rewrite Z.min_l in HQ by lia. }
  call runs_fix; [done|done|]. intros c1 o1 _ Hn. call runs_chunk_fuel.
  apply norm_pos_suffix in Hn as (l1 & l2 & -> & -> & -> & Ho).
  assert (csize l1 + csize l2 - (csize l1 + o1) = 0 + csize l2 - o1 + 0) as E by lia.
  rewrite csize_app, E in HQ.
  rewrite <- (app_nil_r l2) at 1. destruct (br_parts _ _ _ _ H) as (?&?&?).
  eapply available_loop_spec with (l1 := l1); rewrite ?app_nil_r; try done.
  - pose proof (br_fuel _ _ _ H) as Hf. rewrite length_app in Hf. lia.
  - lia.
  - intros ->. destruct Ho as [->|(?&?&?&[=]&_)]. lia.
  - by right.
Qed.

(** *** Loops over every chunk *)

Lemma for_each_chunk_spec {A} s e (body : A → loc → VM A) (I : list seg → A → Prop) Q :
  ∀ l2 l1 fuel acc,
  buf_rep s e (l1 ++ l2) → (S (length l2) < fuel)%nat → I l1 acc →
  (∀ l1 c ch l2' acc, l1 ++ (c, ch) :: l2' = l1 ++ (c, ch) :: l2' → I l1 acc →
     vb_chunks s !! c = Some ch → chunk_ok s ch → buf_rep s e (l1 ++ (c, ch) :: l2') →
     runs (body acc c) s (λ acc' s', s' = s ∧ I (l1 ++ [(c, ch)]) acc')) →
  (∀ acc ch, I (l1 ++ l2) acc → vb_chunks s !! e = Some ch → end_ok ch →
     runs (body acc e) s (λ acc' s', s' = s ∧ Q acc' s)) →
  runs (for_each_chunk fuel (Some (chunk_at e l2)) body acc) s Q.
Proof.
  induction l2 as [|[c ch] l2 IH]; intros l1 fuel acc H Hf HI Hb He; simpl in Hf;
    (destruct fuel as [|fuel]; [lia|]); simpl.
  - destruct (br_end _ _ _ H) as (ch & Hc & Ok). rewrite app_nil_r in *.
    eapply runs_seq; [by eapply He|]. intros acc' s' [-> HQ].
    call runs_chunk_next_end; [done|]. destruct fuel; by apply runs_ret.
  - destruct (br_at _ _ _ _ _ _ H) as [Hc Ok].
    eapply runs_seq; [by eapply Hb|]. intros acc' s' [-> HI'].
    call runs_chunk_next; [done|]. eapply (IH (l1 ++ [(c, ch)])); try done.
    + by rewrite <- app_assoc.
    + lia.
    + intros acc2 ch2. rewrite <- app_assoc. by apply He.
Qed.
End walks.
