(* ===== verification/VbFrame.v ===== *)
(** * Frames and the heap invariant

    [keeps X s s']: between [s] and [s'] only the chunks of [X] and new ones
    changed; the blocks that other chunks refer to keep their bytes. A buffer
    whose chunks are not in [X] is then the same buffer with the same content.
    The rest of the file shows that the primitive updates of the heap preserve
    [heap_ok] and what they do to a buffer. *)

From S2P Require Import Prelude List2 VbHeap VbIter VbRep VbWalk.

(** ** Frames *)

Record keeps (X : list loc) (s s' : vbstate) : Prop := {
  kp_links : ∀ x, x ∉ X → (x < vb_fresh s)%positive → vb_links s' !! x = vb_links s !! x;
  kp_chunks : ∀ x, x ∉ X → (x < vb_fresh s)%positive → vb_chunks s' !! x = vb_chunks s !! x;
  kp_datas : ∀ d dt c ch, vb_datas s !! d = Some dt → c ∉ X → vb_chunks s !! c = Some ch →
    ch_data ch = Some d → ∃ r, vb_datas s' !! d = Some (Data r (dt_body dt));
  kp_fresh : (vb_fresh s ≤ vb_fresh s')%positive;
}.

(** Every data block keeps its bytes. *)
Definition bodies_kept (s s' : vbstate) : Prop :=
  ∀ d dt, vb_datas s !! d = Some dt → ∃ r, vb_datas s' !! d = Some (Data r (dt_body dt)).

Section frames.
Implicit Types s : vbstate.

Lemma keeps_refl X s : keeps X s s.
Proof. split; try done. intros d [r b] c ch. simpl. eauto. Qed.

Lemma keeps_weaken X Y s s' : keeps X s s' → (∀ x, x ∈ X → x ∈ Y) → keeps Y s s'.
Proof.
  intros [H1 H2 H3 H4] Hi. split; try done.
  - intros x Hx. apply H1. auto.
  - intros x Hx. apply H2. auto.
  - intros d dt c ch Hd Hc. apply (H3 d dt c ch Hd). auto.
Qed.

Lemma keeps_trans X Y s s' s'' :
  heap_ok s → keeps X s s' → keeps Y s' s'' →
  (∀ y, y ∈ Y → y ∈ X ∨ (vb_fresh s ≤ y)%positive) → keeps X s s''.
Proof.
  intros Ok [L1 C1 D1 F1] [L2 C2 D2 F2] HY.
  assert (∀ x, x ∉ X → (x < vb_fresh s)%positive → x ∉ Y) as HN.
  { intros x Hx Hf Hy. destruct (HY x Hy); [done|lia]. }
  split.
  - intros x Hx Hf. rewrite L2 by (auto || lia). by apply L1.
  - intros x Hx Hf. rewrite C2 by (auto || lia). by apply C1.
  - intros d dt c ch Hd Hc Hch Hcd.
    assert (c < vb_fresh s)%positive as Hf by (eapply ho_fresh_chunk; eauto).
    destruct (D1 d dt c ch Hd Hc Hch Hcd) as [r Hr].
    destruct (D2 d (Data r (dt_body dt)) c ch Hr) as [r' Hr']; eauto.
    by rewrite C1.
  - lia.
Qed.

Lemma kept_bytes s s' d b dd :
  (∀ dt, vb_datas s !! dd = Some dt → ∃ r, vb_datas s' !! dd = Some (Data r (dt_body dt))) →
  d = Some dd → basic_bytes s d = Some b → basic_bytes s' d = Some b.
Proof.
  intros Hk -> H. unfold basic_bytes in *. simpl in *.
  destruct (vb_datas s !! dd) as [dt|] eqn:E; simpl in H; [|done].
  destruct (Hk dt eq_refl) as [r ->]. simpl. done.
Qed.

Lemma basic_bytes_some s d b : basic_bytes s d = Some b → ∃ dd, d = Some dd.
Proof. destruct d; [eauto|done]. Qed.

Lemma chunk_ok_kept s s' ch :
  (∀ d dt, ch_data ch = Some d → vb_datas s !! d = Some dt →
     ∃ r, vb_datas s' !! d = Some (Data r (dt_body dt))) →
  chunk_ok s ch → chunk_ok s' ch ∧ chunk_bytes s' ch = chunk_bytes s ch.
Proof.
  intros Hk [He Hr Hs Hc Hd Hsm]. unfold chunk_bytes.
  destruct (fl_ctl (ch_flags ch)) eqn:Ec.
  - split; [|done]. split; try done; [by rewrite Ec|congruence].
  - destruct (Hd eq_refl) as (Ho & b & Hb & Hl).
    destruct (basic_bytes_some _ _ _ Hb) as [dd Edd].
    pose proof (kept_bytes s s' _ b dd (λ dt Hdt, Hk dd dt Edd Hdt) Edd Hb) as Hb'.
    rewrite Hb, Hb'. split; [|done]. split; try done; [congruence|]. intros _. eauto.
Qed.

Lemma content_kept s s' cs :
  (∀ c ch, (c, ch) ∈ cs → chunk_bytes s' ch = chunk_bytes s ch) →
  content s' cs = content s cs.
Proof.
  induction cs as [|[c ch] cs IH]; intros H; [done|]. rewrite !content_cons. simpl.
  rewrite (H c) by (by left). rewrite IH; [done|]. intros c' ch' Hi. apply (H c'). by right.
Qed.

Lemma br_fresh s e cs x :
  heap_ok s → buf_rep s e cs → x ∈ e :: cs.*1 → (x < vb_fresh s)%positive.
Proof.
  intros Ok H Hx. apply (ho_fresh_link _ Ok).
  eapply dlist_alloc; [apply (br_list _ _ _ H)|done].
Qed.

(** The frame rule: a buffer outside of [X] is untouched. *)
Lemma keeps_buf X s s' e cs :
  heap_ok s → keeps X s s' → buf_rep s e cs → (∀ x, x ∈ e :: cs.*1 → x ∉ X) →
  buf_rep s' e cs ∧ content s' cs = content s cs.
Proof.
  intros Ok K H Hd.
  assert (∀ x, x ∈ e :: cs.*1 → vb_links s' !! x = vb_links s !! x ∧
    vb_chunks s' !! x = vb_chunks s !! x) as Hsame.
  { intros x Hx. pose proof (br_fresh _ _ _ _ Ok H Hx).
    split; [apply K|apply K]; auto. }
  assert (∀ c ch, (c, ch) ∈ cs → vb_chunks s' !! c = Some ch ∧
    chunk_ok s' ch ∧ chunk_bytes s' ch = chunk_bytes s ch) as Hcs.
  { intros c ch Hi. destruct (br_chunks _ _ _ H _ _ Hi) as [Hc Oc].
    assert (c ∈ e :: cs.*1) as Hx by (right; apply list_elem_of_fmap; by exists (c, ch)).
    rewrite (proj2 (Hsame c Hx)). split; [done|]. apply chunk_ok_kept; [|done].
    intros d dt Ed Hdt. eapply (kp_datas _ _ _ K); eauto. }
  split.
  - split.
    + eapply dlist_ext; [|apply (br_list _ _ _ H)]. intros x Hx. unfold nxt, prv.
      by rewrite (proj1 (Hsame x Hx)).
    + destruct (br_end _ _ _ H) as (ch & Hc & Oe). exists ch. split; [|done].
      by rewrite (proj2 (Hsame e (list_elem_of_here _ _))).
    + intros c ch Hi. by destruct (Hcs c ch Hi) as (? & ? & ?).
    + apply (br_small _ _ _ H).
  - apply content_kept. intros c ch Hi. by destruct (Hcs c ch Hi) as (? & ? & ?).
Qed.
End frames.

(** ** Counting references *)

Section nrefs.
Implicit Types m : gmap loc vbuffer_chunk.

Definition has_data (d : loc) (ch : vbuffer_chunk) : nat :=
  if decide (ch_data ch = Some d) then 1%nat else 0%nat.

Lemma nrefs_new m c ch d : m !! c = None → nrefs (<[c := ch]> m) d = (has_data d ch + nrefs m d)%nat.
Proof.
  intros Hc. unfold nrefs, has_data. case_decide as E.
  - rewrite map_filter_insert_True by done. rewrite map_size_insert_None; [done|].
    apply map_lookup_filter_None. by left.
  - rewrite map_filter_insert_not'; [done|done|]. intros y. by rewrite Hc.
Qed.

Lemma nrefs_delete m c ch d :
  m !! c = Some ch → nrefs m d = (has_data d ch + nrefs (delete c m) d)%nat.
Proof.
  intros Hc. rewrite <- (insert_delete_id m c ch Hc) at 1.
  apply nrefs_new. apply lookup_delete_eq.
Qed.

Lemma nrefs_update m c ch ch' d :
  m !! c = Some ch →
  (nrefs (<[c := ch']> m) d + has_data d ch = nrefs m d + has_data d ch')%nat.
Proof.
  intros Hc. rewrite (nrefs_delete m c ch d Hc). rewrite <- insert_delete_eq.
  rewrite nrefs_new by apply lookup_delete_eq. lia.
Qed.

Lemma nrefs_same m c ch ch' d :
  m !! c = Some ch → ch_data ch' = ch_data ch → nrefs (<[c := ch']> m) d = nrefs m d.
Proof.
  intros Hc E. pose proof (nrefs_update m c ch ch' d Hc) as H.
  unfold has_data in H. rewrite E in H. lia.
Qed.

Lemma nrefs_le m d : (nrefs m d ≤ size m)%nat.
Proof. apply map_subseteq_size, map_filter_subseteq. Qed.

Lemma nrefs_pos m c ch d : m !! c = Some ch → ch_data ch = Some d → (0 < nrefs m d)%nat.
Proof.
  intros Hc E. rewrite (nrefs_delete m c ch d Hc). unfold has_data.
  rewrite decide_True by done. lia.
Qed.

Lemma nrefs_zero m d :
  (∀ c ch, m !! c = Some ch → ch_data ch ≠ Some d) → nrefs m d = 0%nat.
Proof.
  intros H. unfold nrefs. apply map_size_empty_iff, map_empty. intros c.
  apply map_lookup_filter_None. right. intros ch Hc E. by apply (H c ch Hc).
Qed.
End nrefs.
