(* ===== verification/VbMut.v ===== *)
(** * Changes of a buffer: cutting, inserting, clearing

    The primitive updates of the heap preserve [heap_ok] and change a buffer the
    way the abstraction says. On top of them: [_vbuffer_iterator_split] cuts the
    content at a position and moves no position that exists, insertion and
    concatenation splice contents, clearing frees exactly what is no longer
    referred to. *)

From S2P Require Import Prelude List2 VbHeap VbIter VbRep VbWalk VbFrame.

(** ** The heap invariant *)

Section heap.
Implicit Types s : vbstate.

Lemma heap_ok_set_links s ws l :
  heap_ok s → same_out ws (vb_links s) l → (∀ x, x ∈ ws → (x < vb_fresh s)%positive) →
  heap_ok (set_links l s).
Proof.
  intros [F1 F2 F3 R D S] Hs Hw. split; try done. intros x Hx. simpl in *.
  destruct (decide (x ∈ ws)) as [Hi|Hi]; [auto|]. rewrite Hs in Hx by done. auto.
Qed.

Lemma keeps_set_links s ws l : same_out ws (vb_links s) l → keeps ws s (set_links l s).
Proof.
  intros Hs. split; try done.
  - intros x Hx _. by apply Hs.
  - intros d [r b] c ch Hd _ _ _. eauto.
Qed.

Lemma heap_ok_upd_chunk s c ch ch' :
  heap_ok s → vb_chunks s !! c = Some ch → ch_data ch' = ch_data ch →
  heap_ok (set_chunks (<[c := ch']> (vb_chunks s)) s).
Proof.
  intros [F1 F2 F3 R D S] Hc Ed. split; simpl; try done.
  - intros x [y [[-> _]|[_ Hx]]%lookup_insert_Some]; eauto.
  - intros d dt Hd. rewrite (nrefs_same _ _ ch) by done. auto.
  - intros x y d [[-> <-]|[_ Hx]]%lookup_insert_Some E; [|by eauto]. rewrite Ed in E. eauto.
  - rewrite map_size_insert_Some by eauto. done.
Qed.

Lemma keeps_upd_chunk s c ch' : keeps [c] s (set_chunks (<[c := ch']> (vb_chunks s)) s).
Proof.
  split; try done.
  - intros x Hx _. simpl. rewrite lookup_insert_ne; [done|]. intros <-. apply Hx. by left.
  - intros d [r b] x ch Hd _ _ _. eauto.
Qed.

(** A new chunk [c] on the block [d], not linked yet. *)
Definition add_chunk (ch : vbuffer_chunk) (n : nat) (s : vbstate) : vbstate :=
  VB (<[vb_fresh s := Elem None None]> (vb_links s)) (<[vb_fresh s := ch]> (vb_chunks s))
     (match ch_data ch with
      | Some d => alter (λ dt, Data (dt_ref dt + 1) (dt_body dt)) d (vb_datas s)
      | None => vb_datas s
      end) (vb_error s) n (Pos.succ (vb_fresh s)) (vb_junk s).

Lemma fresh_chunk s : heap_ok s → vb_chunks s !! vb_fresh s = None.
Proof.
  intros Ok. apply eq_None_not_Some. intros H%(ho_fresh_chunk _ Ok). lia.
Qed.

Lemma fresh_link s : heap_ok s → vb_links s !! vb_fresh s = None.
Proof.
  intros Ok. apply eq_None_not_Some. intros H%(ho_fresh_link _ Ok). lia.
Qed.

Lemma fresh_data s : heap_ok s → vb_datas s !! vb_fresh s = None.
Proof.
  intros Ok. apply eq_None_not_Some. intros H%(ho_fresh_data _ Ok). lia.
Qed.

Lemma add_chunk_datas ch n s d dt :
  vb_datas s !! d = Some dt →
  vb_datas (add_chunk ch n s) !! d = Some (Data (dt_ref dt + Z.of_nat (has_data d ch)) (dt_body dt)).
Proof.
  intros Hd. unfold add_chunk, has_data. simpl. destruct (ch_data ch) as [d'|] eqn:E.
  - destruct (decide (d' = d)) as [->|Hne].
    + rewrite lookup_alter_eq, Hd, decide_True by done. simpl. done.
    + rewrite lookup_alter_ne, decide_False by congruence. rewrite Hd, Z.add_0_r.
      by destruct dt.
  - rewrite decide_False, Hd, Z.add_0_r by done. by destruct dt.
Qed.

Lemma heap_ok_add_chunk s ch n :
  heap_ok s → vb_mem s = S n →
  (∀ d, ch_data ch = Some d → is_Some (vb_datas s !! d)) →
  heap_ok (add_chunk ch n s).
Proof.
  intros Ok Em Hd. pose proof (fresh_chunk _ Ok) as Hf. pose proof Ok as [F1 F2 F3 R D Sm].
  assert (∀ d, is_Some (vb_datas (add_chunk ch n s) !! d) ↔ is_Some (vb_datas s !! d)) as Hsome.
  { intros d. unfold add_chunk. simpl. destruct (ch_data ch); [|done].
    by rewrite lookup_alter_is_Some. }
  split; simpl.
  - intros x [y [[-> _]|[_ Hx]]%lookup_insert_Some]; [lia|]. pose proof (F1 x (mk_is_Some _ _ Hx)). lia.
  - intros x [y [[-> _]|[_ Hx]]%lookup_insert_Some]; [lia|]. pose proof (F2 x (mk_is_Some _ _ Hx)). lia.
  - intros x Hx. apply Hsome in Hx. pose proof (F3 x Hx). lia.
  - intros d dt' Hdt. destruct (proj1 (Hsome d) (mk_is_Some _ _ Hdt)) as [dt Hdt0].
    pose proof (add_chunk_datas ch n s d dt Hdt0) as E. simpl in E. rewrite E in Hdt.
    injection Hdt as <-. simpl. rewrite nrefs_new by done. rewrite (R _ _ Hdt0). lia.
  - intros x y d [[<- <-]|[_ Hx]]%lookup_insert_Some Ed; apply Hsome; eauto.
  - rewrite map_size_insert_None by done. lia.
Qed.

Lemma keeps_add_chunk s ch n : keeps [] s (add_chunk ch n s).
Proof.
  split; simpl.
  - intros x _ Hx. rewrite lookup_insert_ne by lia. done.
  - intros x _ Hx. rewrite lookup_insert_ne by lia. done.
  - intros d dt c ch' Hd _ _ _. eexists. apply (add_chunk_datas ch n s d dt Hd).
  - lia.
Qed.

Lemma bodies_add_chunk s ch n : bodies_kept s (add_chunk ch n s).
Proof. intros d dt Hd. eexists. by apply add_chunk_datas. Qed.
End heap.

(** ** Chunks *)

Section chunks.
Implicit Types s : vbstate.

Lemma u32_succ s d dt : heap_ok s → vb_mem s ≠ 0%nat → vb_datas s !! d = Some dt →
  u32 (dt_ref dt + 1) = dt_ref dt + 1.
Proof.
  intros Ok Hm Hd. apply u32_small. rewrite (ho_refs _ Ok _ _ Hd).
  pose proof (ho_small _ Ok). pose proof (nrefs_le (vb_chunks s) d). lia.
Qed.

Lemma runs_chunk_create s n d off len Q :
  heap_ok s → vb_mem s = S n → is_Some (vb_datas s !! d) →
  0 ≤ off < 2 ^ 32 → 0 ≤ len < 2 ^ 32 →
  Q (Some (vb_fresh s))
    (add_chunk (Chunk 1 (Flags false false false true false) (Some d) off len) n s) →
  runs (vbuffer_chunk_create (Some d) off len) s Q.
Proof.
  intros Ok Em [dt Hd] Ho Hl HQ. unfold vbuffer_chunk_create, malloc.
  eapply runs_bind, runs_eq; [by rewrite Em|]. cbv beta.
  call runs_wr_chunk. unfold data_addref. apply runs_bind.
  call runs_rd_data; [done|]. unfold wr_data. step.
  call runs_upd_chunk; [apply lookup_insert_eq|]. unfold list2_elem_init, lnk. step. step.
  step. erewrite (u32_succ s) by (done || lia). wraps.
  match goal with |- Q _ ?s' => match type of HQ with Q _ ?s'' =>
    replace s' with s''; [done|] end end.
  unfold add_chunk. destruct s. unfold set_links, set_chunks, set_datas, set_ref. simpl in *.
  rewrite insert_insert_eq. f_equal.
  apply map_eq. intros x. destruct (decide (x = d)) as [->|?].
  - by rewrite lookup_alter_eq, lookup_insert_eq, Hd.
  - by rewrite lookup_alter_ne, lookup_insert_ne by done.
Qed.

(** Reading the two halves of a cut chunk. *)
Lemma cut_bytes s ch o c1 c2 :
  chunk_ok s ch → 0 < o < ch_size ch →
  c1 = set_size o ch →
  c2 = Chunk 1 (ch_flags ch) (ch_data ch) (ch_offset ch + o) (ch_size ch - o) →
  chunk_ok s c1 ∧ chunk_ok s c2 ∧
  chunk_bytes s c1 = ztake o (chunk_bytes s ch) ∧
  chunk_bytes s c2 = zdrop o (chunk_bytes s ch).
Proof.
  intros [He Hr Hs Hc Hd Hsm] Ho -> ->.
  assert (fl_ctl (ch_flags ch) = false) as Ec.
  { destruct (fl_ctl _); [|done]. destruct (Hc eq_refl). lia. }
  destruct (Hd Ec) as (Hoff & b & Hb & Hl). unfold chunk_bytes. simpl. rewrite Ec.
  split_and!.
  - split; simpl; try done; [lia|congruence| |lia]. intros _. split; [done|]. exists b. split; [done|lia].
  - split; simpl; try done; [lia|congruence| |lia]. intros _. split; [lia|]. exists b. split; [done|lia].
  - unfold zslice. by rewrite ztake_ztake by lia.
  - unfold zslice. rewrite zdrop_ztake by lia. by rewrite zdrop_zdrop by lia.
Qed.
End chunks.

(** ** Updates of one chunk of a buffer *)

Section update.
Implicit Types s : vbstate.

Lemma chunk_ok_same s s' ch : vb_datas s' = vb_datas s → chunk_ok s ch → chunk_ok s' ch.
Proof.
  intros E Ok. apply (chunk_ok_kept s s'); [|done]. intros d [r b] _ Hd. rewrite E. eauto.
Qed.

Lemma content_same s s' cs : vb_datas s' = vb_datas s → content s' cs = content s cs.
Proof.
  intros E. apply content_kept. intros c ch _. unfold chunk_bytes, basic_bytes. by rewrite E.
Qed.

Lemma elem_mid {A} (l1 : list A) x l2 y : y ∈ l1 ++ x :: l2 → y = x ∨ y ∈ l1 ++ l2.
Proof. rewrite !elem_of_app, elem_of_cons. naive_solver. Qed.

Lemma br_mid_ne s e l1 c ch l2 c' ch' :
  buf_rep s e (l1 ++ (c, ch) :: l2) → (c', ch') ∈ l1 ++ l2 → c' ≠ c.
Proof.
  intros H Hi ->. pose proof (dlist_nodup _ _ _ (br_list _ _ _ H)) as [_ Hnd]%NoDup_cons.
  rewrite fmap_split in Hnd. simpl in Hnd. rewrite <- Permutation_middle in Hnd.
  apply NoDup_cons in Hnd as [Hni _]. apply Hni. rewrite <- fmap_app.
  apply list_elem_of_fmap. by exists (c, ch').
Qed.

(** Changing the record of a chunk, not its size nor its bytes. *)
Lemma buf_rep_upd s e l1 c ch l2 ch' :
  buf_rep s e (l1 ++ (c, ch) :: l2) → chunk_ok s ch' → ch_size ch' = ch_size ch →
  buf_rep (set_chunks (<[c := ch']> (vb_chunks s)) s) e (l1 ++ (c, ch') :: l2).
Proof.
  intros H Ok' Es. pose proof (br_at _ _ _ _ _ _ H) as [Hc Ok]. split.
  - rewrite fmap_split. pose proof (br_list _ _ _ H) as Hl. by rewrite fmap_split in Hl.
  - destruct (br_end _ _ _ H) as (ech & He & Oe). exists ech. split; [|done]. simpl.
    rewrite lookup_insert_ne; [done|]. eapply br_ne_end; [done|]. apply elem_of_app. right. by left.
  - intros c1 ch1 [[= -> ->]|Hi]%elem_mid; simpl.
    + rewrite lookup_insert_eq. split; [done|]. by apply (chunk_ok_same s).
    + pose proof (br_mid_ne _ _ _ _ _ _ _ _ H Hi). rewrite lookup_insert_ne by done.
      destruct (br_chunks _ _ _ H c1 ch1) as [E O].
      { apply elem_of_app in Hi as [?|?]; apply elem_of_app; [by left|right; by right]. }
      split; [done|]. by apply (chunk_ok_same s).
  - pose proof (br_small _ _ _ H) as Hs. rewrite csize_app, csize_cons in *. simpl in *. lia.
Qed.

Lemma buf_rep_upd_end s e cs ch' :
  buf_rep s e cs → end_ok ch' →
  buf_rep (set_chunks (<[e := ch']> (vb_chunks s)) s) e cs.
Proof.
  intros H Oe. split; simpl.
  - apply (br_list _ _ _ H).
  - exists ch'. by rewrite lookup_insert_eq.
  - intros c ch Hi. pose proof (br_ne_end _ _ _ _ _ H Hi). rewrite lookup_insert_ne by done.
    destruct (br_chunks _ _ _ H _ _ Hi). split; [done|]. by apply (chunk_ok_same s).
  - apply (br_small _ _ _ H).
Qed.
End update.

(** ** Cutting a buffer at a position *)

(** The first chunk of a cut keeps its place in its block, its size is at most that
    of the first part. *)
Record same_head (ch ch' : vbuffer_chunk) : Prop := {
  sh_data : ch_data ch' = ch_data ch;
  sh_offset : ch_offset ch' = ch_offset ch;
  sh_ctl : fl_ctl (ch_flags ch') = fl_ctl (ch_flags ch);
  sh_writable : fl_writable (ch_flags ch') = fl_writable (ch_flags ch);
}.
Definition first_kept (p : Z) (cs l : list seg) : Prop :=
  ∀ c ch k, cs = (c, ch) :: k → 0 < ch_size ch → 0 < p →
  ∃ ch' k', l = (c, ch') :: k' ∧ same_head ch ch' ∧ ch_size ch' = ch_size ch `min` p.

(** The chunks of a cut have the kind of the chunks they come from. *)
Definition same_kind (ch ch' : vbuffer_chunk) : Prop :=
  fl_ctl (ch_flags ch') = fl_ctl (ch_flags ch) ∧ fl_writable (ch_flags ch') = fl_writable (ch_flags ch).
Definition kinds_kept (cs l : list seg) : Prop :=
  ∀ c ch, (c, ch) ∈ l → ∃ c0 ch0, (c0, ch0) ∈ cs ∧ same_kind ch0 ch.

(** Each chunk ends in its block where the next one begins. *)
Definition joins (ch ch' : vbuffer_chunk) : Prop :=
  ch_data ch' = ch_data ch ∧ ch_offset ch' = ch_offset ch + ch_size ch.
Fixpoint adjacent (cs : list seg) : Prop :=
  match cs with
  | [] => True
  | x :: l => match l with [] => True | y :: _ => joins x.2 y.2 end ∧ adjacent l
  end.

(** The permission to write to a chunk. *)
Definition writable_at (s : vbstate) (c : loc) : Prop :=
  ∃ ch, vb_chunks s !! c = Some ch ∧ fl_writable (ch_flags ch) = true.

(** [splits s e cs p s' l1 l2]: in [s'] the chunks of the buffer are [l1 ++ l2]
    and the cut between them is at [p]; every position of [s] is still there. *)
Record splits (s : vbstate) (e : loc) (cs : list seg) (p : Z) (s' : vbstate)
    (l1 l2 : list seg) : Prop := {
  sp_rep : buf_rep s' e (l1 ++ l2);
  sp_heap : heap_ok s';
  sp_len : csize l1 = p;
  sp_total : csize (l1 ++ l2) = csize cs;
  sp_before : content s' l1 = ztake p (content s cs);
  sp_after : content s' l2 = zdrop p (content s cs);
  sp_pos : ∀ c o q, pos_of e cs c o q → pos_of e (l1 ++ l2) c o q;
  sp_keeps : keeps (e :: cs.*1) s s';
  sp_new : ∀ x, x ∈ (l1 ++ l2).*1 → x ∈ cs.*1 ∨ (vb_fresh s ≤ x)%positive;
  sp_mem : (vb_mem s ≤ S (vb_mem s'))%nat;
  sp_error : vb_error s' = vb_error s;
  sp_first : first_kept p cs l1;
  sp_kinds : kinds_kept cs (l1 ++ l2);
  sp_end : writable_at s e → writable_at s' e;
  sp_adjacent : adjacent cs → adjacent (l1 ++ l2);
}.

Section split.
Implicit Types s : vbstate.

Lemma same_head_refl ch : same_head ch ch.
Proof. by split. Qed.
Lemma same_head_trans ch1 ch2 ch3 : same_head ch1 ch2 → same_head ch2 ch3 → same_head ch1 ch3.
Proof. intros [] []; split; congruence. Qed.

Lemma same_kind_trans ch1 ch2 ch3 : same_kind ch1 ch2 → same_kind ch2 ch3 → same_kind ch1 ch3.
Proof. intros [] []; split; congruence. Qed.

Lemma kinds_kept_refl cs : kinds_kept cs cs.
Proof. intros c ch Hi. exists c, ch. by repeat split. Qed.
Lemma kinds_kept_trans cs l k : kinds_kept cs l → kinds_kept l k → kinds_kept cs k.
Proof.
  intros H1 H2 c ch (c1 & ch1 & Hi1 & S1)%H2. destruct (H1 _ _ Hi1) as (c0 & ch0 & Hi0 & S0).
  exists c0, ch0. split; [done|]. by eapply same_kind_trans.
Qed.

(** A chunk is replaced by chunks of its kind. *)
Lemma kinds_kept_mid l1 c ch l2 k :
  (∀ x chx, (x, chx) ∈ k → same_kind ch chx) → kinds_kept (l1 ++ (c, ch) :: l2) (l1 ++ k ++ l2).
Proof.
  intros Hk x chx. rewrite !elem_of_app. intros [Hi|[Hi|Hi]].
  - exists x, chx. rewrite elem_of_app. split; [by left|by split].
  - exists c, ch. rewrite elem_of_app, elem_of_cons. split; [auto|by eapply Hk].
  - exists x, chx. rewrite elem_of_app, elem_of_cons. split; [auto|by split].
Qed.

(** A chunk is cut in two, or its flags change: adjacent chunks stay adjacent. *)
Lemma adjacent_cut l1 c ch l2 c1 n c2 :
  ch_data c1 = ch_data ch → ch_offset c1 = ch_offset ch → joins c1 c2 → ch_size c1 + ch_size c2 = ch_size ch →
  adjacent (l1 ++ (c, ch) :: l2) → adjacent (l1 ++ (c, c1) :: (n, c2) :: l2).
Proof.
  intros Ed Eo [Jd Jo] Es. induction l1 as [|x l1 IH].
  - intros [Hj Ha]. simpl. split; [by split|]. split; [|done]. destruct l2 as [|y l2]; [done|].
    destruct Hj as [Hj1 Hj2]. simpl in *. split; [congruence|lia].
  - intros [Hj Ha]. simpl. split; [|by apply IH]. destruct l1 as [|y l1]; simpl in *; [|done].
    destruct Hj. split; congruence.
Qed.

Lemma adjacent_mid l1 c ch l2 c' ch' :
  ch_data ch' = ch_data ch → ch_offset ch' = ch_offset ch → ch_size ch' = ch_size ch →
  adjacent (l1 ++ (c, ch) :: l2) → adjacent (l1 ++ (c', ch') :: l2).
Proof.
  intros Ed Eo Es. induction l1 as [|x l1 IH].
  - intros [Hj Ha]. simpl. split; [|done]. destruct l2 as [|y l2]; [done|].
    destruct Hj as [Hj1 Hj2]. simpl in *. split; [congruence|lia].
  - intros [Hj Ha]. simpl. split; [|by apply IH]. destruct l1 as [|y l1]; simpl in *; [|done].
    destruct Hj. split; congruence.
Qed.

Lemma first_kept_prefix l1 l2 : 0 ≤ csize (tail l1) → first_kept (csize l1) (l1 ++ l2) l1.
Proof.
  intros Ht c ch k E Hs Hp. destruct l1 as [|[c' ch'] l1]; [rewrite csize_nil in Hp; lia|].
  simpl in E, Ht. simplify_eq. exists ch, l1. split_and!; [done|apply same_head_refl|].
  rewrite csize_cons. simpl. lia.
Qed.

(** A cut at [q], then one at [p] before it. *)
Lemma first_kept_trans p q cs k1 k2 j :
  first_kept q cs k1 → first_kept p (k1 ++ k2) j → p ≤ q → first_kept p cs j.
Proof.
  intros F1 F2 Hpq c ch k E Hs Hp. destruct (F1 c ch k E Hs) as (ch1 & k' & -> & Hh1 & S1); [lia|].
  destruct (F2 c ch1 (k' ++ k2) eq_refl) as (ch2 & j' & -> & Hh2 & S2); [lia|done|].
  exists ch2, j'. split_and!; [done|by eapply same_head_trans|lia].
Qed.

Lemma csize_tail s e l1 l2 : buf_rep s e (l1 ++ l2) → 0 ≤ csize (tail l1).
Proof.
  intros H. eapply csize_nonneg. intros c ch Hi. eapply br_ok; [exact H|]. apply elem_of_app. left.
  destruct l1; [by apply elem_of_nil in Hi|]. right. exact Hi.
Qed.

Lemma splits_refl s e l1 l2 :
  heap_ok s → buf_rep s e (l1 ++ l2) → splits s e (l1 ++ l2) (csize l1) s l1 l2.
Proof.
  intros Ok H.
  assert (zlen (content s l1) = csize l1) as El.
  { apply content_len. intros c ch Hi. eapply br_ok; [done|]. apply elem_of_app. by left. }
  split; try done; auto using keeps_refl, kinds_kept_refl.
  - rewrite content_app, ztake_app_le by lia. by rewrite ztake_ge by lia.
  - rewrite content_app, zdrop_app_ge by lia. by rewrite El, Z.sub_diag, zdrop_0.
  - eapply first_kept_prefix, csize_tail; exact H.
Qed.

Lemma pos_of_cut e l1 c ch l2 c1 nc c2 x o q :
  ch_size c1 + ch_size c2 = ch_size ch →
  pos_of e (l1 ++ (c, ch) :: l2) x o q → pos_of e (l1 ++ (c, c1) :: (nc, c2) :: l2) x o q.
Proof.
  intros Es.
  assert (∀ k1 k2, csize (k1 ++ (c, c1) :: (nc, c2) :: k2) = csize (k1 ++ (c, ch) :: k2)) as Ec.
  { intros k1 k2. rewrite !csize_app, !csize_cons. simpl. lia. }
  intros [(k1 & chx & k2 & E & -> & Ho & Hle)|(-> & -> & ->)]; [left|right; by rewrite Ec].
  rewrite Ec. apply app_eq_inv in E as [(k & -> & E)|(k & -> & E)];
    (destruct k as [|[x0 ch0] k]; simplify_eq/=; rewrite ?app_nil_r in *).
  - by eexists k1, c1, _.
  - exists k1, ch0, (k ++ (c, c1) :: (nc, c2) :: l2). by rewrite <- app_assoc.
  - by eexists l1, c1, _.
  - exists (l1 ++ (x0, c1) :: (nc, c2) :: k), chx, k2. by rewrite Ec, <- app_assoc.
Qed.
End split.

(** The state after the chunk [c] of a buffer has been cut at [o]: [l'] are the
    links with the new chunk [nc] in them. *)
Section cut.
Context (s : vbstate) (n : nat) (e : loc) (l1 : list seg) (c : loc) (ch : vbuffer_chunk)
  (l2 : list seg) (o : Z) (l' : lmem).

Let nc : loc := vb_fresh s.
Let c1 : vbuffer_chunk := set_size o ch.
Let c0 : vbuffer_chunk :=
  Chunk 1 (Flags false false false true false) (ch_data ch) (ch_offset ch + o) (ch_size ch - o).
Let c2 : vbuffer_chunk := set_flags (ch_flags ch) c0.
Let s1 : vbstate := add_chunk c0 n s.
Let s2 : vbstate := set_chunks (<[c := c1]> (vb_chunks s1)) s1.
Let s3 : vbstate := set_chunks (<[nc := c2]> (vb_chunks s2)) s2.
Let s4 : vbstate := set_links l' s3.

Hypothesis Ok : heap_ok s.
Hypothesis H : buf_rep s e (l1 ++ (c, ch) :: l2).
Hypothesis Em : vb_mem s = S n.
Hypothesis Ho : 0 < o < ch_size ch.
Hypothesis Hl : dlist l' e (l1.*1 ++ c :: nc :: l2.*1).
Hypothesis Hfr : frame (e :: nc :: l1.*1 ++ c :: l2.*1) (vb_links s1) l'.

#[local] Set Default Proof Using "All".

Lemma cut_old x : x ∈ e :: (l1 ++ (c, ch) :: l2).*1 → (x < nc)%positive.
Proof. by apply br_fresh. Qed.

Lemma cut_c_old : (c < nc)%positive.
Proof. apply cut_old. right. rewrite fmap_split. apply elem_of_app. right. by left. Qed.

Lemma cut_heap_s3 : heap_ok s3.
Proof.
  pose proof cut_c_old. destruct (br_at _ _ _ _ _ _ H) as [Hc _].
  assert (heap_ok s2) as Ok2.
  { apply (heap_ok_upd_chunk s1 c ch); [|simpl; by rewrite lookup_insert_ne by lia|done].
    apply heap_ok_add_chunk; [done..|]. intros d Hd. by eapply ho_data. }
  apply (heap_ok_upd_chunk s2 nc c0 c2 Ok2); [|done].
  simpl. rewrite lookup_insert_ne by lia. by rewrite lookup_insert_eq.
Qed.

Lemma cut_heap : heap_ok s4.
Proof.
  eapply heap_ok_set_links; [apply cut_heap_s3|apply Hfr|]. intros x Hx. simpl.
  apply elem_of_cons in Hx as [->|[->|Hx]%elem_of_cons]; [|lia|].
  - pose proof (cut_old e ltac:(by left)). lia.
  - pose proof (cut_old x) as Hy. rewrite fmap_split in Hy. specialize (Hy ltac:(by right)). lia.
Qed.

Lemma cut_kept ch0 : chunk_ok s ch0 → chunk_ok s4 ch0 ∧ chunk_bytes s4 ch0 = chunk_bytes s ch0.
Proof.
  intros O0. apply chunk_ok_kept; [|done]. intros d dt _ Hd. by apply (bodies_add_chunk s c0 n).
Qed.

Lemma cut_content k :
  (∀ x, x ∈ k → x ∈ l1 ++ (c, ch) :: l2) → content s4 k = content s k.
Proof.
  intros Hi. apply content_kept. intros c' ch' Hk'. apply cut_kept.
  eapply br_ok; [done|]. by apply Hi.
Qed.

Lemma cut_halves :
  chunk_ok s4 c1 ∧ chunk_ok s4 c2 ∧
  chunk_bytes s4 c1 = ztake o (chunk_bytes s ch) ∧
  chunk_bytes s4 c2 = zdrop o (chunk_bytes s ch).
Proof.
  destruct (br_at _ _ _ _ _ _ H) as [_ Oc].
  destruct (cut_bytes s ch o c1 c2 Oc Ho eq_refl eq_refl) as (O1 & O2 & <- & <-).
  split_and!; by apply cut_kept.
Qed.

Lemma cut_lookup x chx :
  (x, chx) ∈ l1 ++ l2 ∨ x = e → vb_chunks s4 !! x = vb_chunks s !! x.
Proof.
  intros Hx.
  assert (x ≠ c ∧ (x < nc)%positive) as [? ?].
  { destruct Hx as [Hx| ->]; (split; [|apply cut_old]).
    - by eapply br_mid_ne.
    - right. rewrite fmap_split. apply elem_of_app.
      apply elem_of_app in Hx as [Hx|Hx]; [left|right; right];
        apply list_elem_of_fmap; by exists (x, chx).
    - intros ->. eapply (br_ne_end _ _ _ c ch H); [|done]. apply elem_of_app. right. by left.
    - by left. }
  simpl. by rewrite !lookup_insert_ne by (lia || done).
Qed.

Lemma cut_rep : buf_rep s4 e (l1 ++ (c, c1) :: (nc, c2) :: l2).
Proof.
  pose proof cut_c_old. destruct cut_halves as (O1 & O2 & _ & _). split.
  - by rewrite fmap_app, !fmap_cons.
  - destruct (br_end _ _ _ H) as (ech & He & Oe). exists ech. split; [|done].
    rewrite (cut_lookup e ech) by (by right). done.
  - intros x chx Hx. apply elem_mid in Hx as [E|Hx]; [|apply elem_mid in Hx as [E|Hx]]; simplify_eq.
    + split; [|done]. simpl. rewrite lookup_insert_ne, lookup_insert_eq by lia. done.
    + split; [|done]. simpl. by rewrite lookup_insert_eq.
    + assert ((x, chx) ∈ l1 ++ (c, ch) :: l2) as Hx'.
      { apply elem_of_app in Hx as [?|?]; apply elem_of_app; [by left|right; by right]. }
      destruct (br_chunks _ _ _ H _ _ Hx') as [E O].
      rewrite (cut_lookup x chx) by (by left). split; [done|]. by apply cut_kept.
  - destruct (br_size _ _ _ _ _ _ H) as (?&?&?&?).
    rewrite csize_app, !csize_cons. simpl. lia.
Qed.

Lemma cut_keeps : keeps (e :: (l1 ++ (c, ch) :: l2).*1) s s4.
Proof.
  set (X := e :: (l1 ++ (c, ch) :: l2).*1).
  assert (c ∈ X) as Hc by (right; rewrite fmap_split; apply elem_of_app; right; by left).
  assert (keeps X s s1) as K1.
  { eapply keeps_weaken; [apply keeps_add_chunk|]. by intros x Hx%elem_of_nil. }
  assert (keeps X s s2) as K2.
  { eapply keeps_trans; [done|done|apply keeps_upd_chunk|]. intros y ->%list_elem_of_singleton. by left. }
  assert (keeps X s s3) as K3.
  { eapply keeps_trans; [done|done|apply keeps_upd_chunk|]. intros y ->%list_elem_of_singleton.
    right. done. }
  eapply keeps_trans; [done|done|apply keeps_set_links, Hfr|]. unfold X. rewrite fmap_split.
  intros y [->|[->|Hy]%elem_of_cons]%elem_of_cons; [left; by left|by right|left; by right].
Qed.

Lemma cut_splits :
  splits s e (l1 ++ (c, ch) :: l2) (csize l1 + o) s4 (l1 ++ [(c, c1)]) ((nc, c2) :: l2).
Proof.
  destruct cut_halves as (_ & _ & B1 & B2). destruct (br_at _ _ _ _ _ _ H) as [_ Oc].
  pose proof (chunk_bytes_len _ _ Oc) as Elc.
  assert (zlen (content s l1) = csize l1) as El1.
  { apply content_len. intros c' ch' Hi. eapply br_ok; [done|]. apply elem_of_app; by left. }
  split; rewrite <- ?app_assoc; simpl.
  - apply cut_rep.
  - apply cut_heap.
  - rewrite csize_app, csize_cons, csize_nil. simpl. lia.
  - rewrite !csize_app, !csize_cons. simpl. lia.
  - rewrite !content_app, !content_cons, content_nil, app_nil_r. simpl.
    rewrite ztake_app_ge by lia. rewrite El1. replace (csize l1 + o - csize l1) with o by lia.
    rewrite ztake_app_le by lia. rewrite B1.
    by rewrite cut_content by (intros x Hx; apply elem_of_app; by left).
  - rewrite !content_app, !content_cons. simpl.
    rewrite zdrop_app_ge by lia. rewrite El1. replace (csize l1 + o - csize l1) with o by lia.
    rewrite zdrop_app_le by lia. rewrite B2.
    by rewrite cut_content by (intros x Hx; apply elem_of_app; right; by right).
  - intros x ox q. apply pos_of_cut. simpl. lia.
  - apply cut_keeps.
  - rewrite !fmap_app, !fmap_cons. simpl. intros x [->|Hx]%elem_mid.
    + left. apply elem_of_app. right. by left.
    + apply elem_mid in Hx as [->|Hx]; [by right|left].
      apply elem_of_app in Hx as [?|?]; apply elem_of_app; [by left|right; by right].
  - lia.
  - done.
  - intros x chx k E Hs Hp. destruct l1 as [|[x' chx'] l1']; simpl in E |- *; simplify_eq.
    + exists c1, []. split_and!; [done|by split|]. rewrite csize_nil. simpl. lia.
    + exists chx, (l1' ++ [(c, c1)]). split_and!; [done|apply same_head_refl|]. pose proof (csize_tail _ _ _ _ H).
      rewrite csize_cons. simpl in *. lia.
  - apply (kinds_kept_mid l1 c ch l2 [(c, c1); (nc, c2)]).
    intros x chx [[= _ ->]|[= _ ->]%list_elem_of_singleton]%elem_of_cons; by split.
  - intros (ech & He & Hw). exists ech. split; [|done]. by rewrite (cut_lookup e ech) by (by right).
  - apply adjacent_cut; simpl; [done|done|by split|lia].
Qed.
End cut.

Section split_spec.
Implicit Types s : vbstate.

Lemma runs_lnk {A} (m : M lmem A) s (P : A → lmem → Prop) Q :
  runs m (vb_links s) P → (∀ a l, P a l → Q a (set_links l s)) → runs (lnk m) s Q.
Proof. intros H HQ. unfold lnk. step. eapply runs_mono; [done|]. auto. Qed.

Lemma runs_split_at s e cs c o p Q :
  heap_ok s → buf_rep s e cs → norm_pos e cs c o p → vb_mem s ≠ 0%nat →
  (∀ s' l1 l2, splits s e cs p s' l1 l2 → Q (Some (chunk_at e l2)) s') →
  runs (split_at o c) s Q.
Proof.
  intros Ok H Hp Hm HQ. unfold split_at.
  destruct Hp as [(l1 & ch & l2 & -> & -> & Ho)|(-> & -> & ->)].
  - destruct (br_at _ _ _ _ _ _ H) as [Hc Oc]. call runs_rd_chunk; [done|].
    rewrite (co_end _ _ Oc), orb_false_r. case_test as E0.
    { subst o. rewrite Z.add_0_r in HQ. step. apply (HQ s l1 ((c, ch) :: l2)). by apply splits_refl. }
    case_test as E1.
    { subst o. eapply runs_chunk_next; [done|]. rewrite cons_middle, app_assoc in H.
      pose proof (splits_refl s e (l1 ++ [(c, ch)]) l2 Ok H) as Hs.
      rewrite csize_app, csize_cons, csize_nil, Z.add_0_r, <- app_assoc in Hs.
      by apply HQ in Hs. }
    destruct (br_size _ _ _ _ _ _ H) as (?&?&?&?).
    assert (fl_ctl (ch_flags ch) = false) as Ec.
    { destruct (fl_ctl _) eqn:E; [|done]. destruct (co_ctl _ _ Oc E). lia. }
    rewrite Ec. simpl. step.
    destruct (co_data _ _ Oc Ec) as (Hof & b & Hb & Hlen).
    destruct (basic_bytes_some _ _ _ Hb) as [d Ed]. rewrite Ed.
    destruct (vb_mem s) as [|n] eqn:Em; [done|].
    rewrite <- Ed. pose proof (ho_data _ Ok _ _ _ Hc Ed) as Hd. pose proof (co_small _ _ Oc).
    rewrite Ed at 1. call runs_chunk_create; [done|done|done|lia|lia|].
    pose proof (br_fresh _ _ _ c Ok H) as Hcf. rewrite fmap_split in Hcf.
    specialize (Hcf ltac:(right; apply elem_of_app; right; by left)).
    call runs_upd_chunk; [simpl; by rewrite lookup_insert_ne by lia|]. step.
    call runs_upd_chunk; [simpl; rewrite lookup_insert_ne by lia; apply lookup_insert_eq|].
    rewrite u32_small by lia. rewrite <- Ed.
    pose proof (br_list _ _ _ H) as Hl. rewrite fmap_split in Hl. simpl in Hl.
    set (c0 := Chunk 1 _ _ _ _).
    assert (dlist (vb_links (add_chunk c0 n s)) e (l1.*1 ++ c :: l2.*1)) as Hl1.
    { eapply dlist_ext; [|done]. intros x Hx. unfold nxt, prv. simpl.
      rewrite lookup_insert_ne; [done|]. pose proof (br_fresh _ _ _ x Ok H) as Hxf.
      rewrite fmap_split in Hxf. specialize (Hxf Hx). lia. }
    call runs_lnk_next; [by eapply dlist_next|]. step. rewrite cons_middle, app_assoc in Hl1.
    eapply runs_bind, runs_lnk; [eapply list2_insert_spec; [exact Hl1|apply lookup_insert_eq]|].
    intros r l' (-> & Hl' & Hfr). rewrite <- app_assoc in Hl', Hfr. step.
    eapply (HQ _ (l1 ++ [(c, set_size o ch)]) ((vb_fresh s, _) :: l2)).
    eapply cut_splits; try done. lia.
  - destruct (br_end _ _ _ H) as (ch & Hc & Oe). call runs_rd_chunk; [done|].
    rewrite (eo_end _ Oe), orb_true_r. step. apply (HQ s cs []). 
    pose proof (splits_refl s e cs []) as Hs. rewrite app_nil_r in Hs. auto.
Qed.

(** Marking a chunk as modified changes nothing that [splits] speaks about. *)
Lemma modified_ok s ch : chunk_ok s ch → chunk_ok s (set_modified true ch).
Proof. intros [? ? ? ? ? ?]. by split. Qed.

Lemma splits_marked s e l1 c ch l2 p s' k1 k2 :
  heap_ok s → buf_rep s e (l1 ++ (c, ch) :: l2) →
  let ch' := set_modified true ch in
  let s1 := set_chunks (<[c := ch']> (vb_chunks s)) s in
  splits s1 e (l1 ++ (c, ch') :: l2) p s' k1 k2 →
  splits s e (l1 ++ (c, ch) :: l2) p s' k1 k2.
Proof.
  intros Ok H ch' s1 [R Hp L T B A P K N M E F Kd En Ad].
  assert (∀ k, csize (k ++ (c, ch') :: l2) = csize (k ++ (c, ch) :: l2)) as Ec.
  { intros k. by rewrite !csize_app, !csize_cons. }
  assert (content s1 (l1 ++ (c, ch') :: l2) = content s (l1 ++ (c, ch) :: l2)) as Ect.
  { by rewrite (content_same s s1), !content_app, !content_cons. }
  assert ((l1 ++ (c, ch') :: l2).*1 = (l1 ++ (c, ch) :: l2).*1) as Ef by (by rewrite !fmap_split).
  rewrite Ect in B, A. rewrite Ef in K, N. split; try done.
  - by rewrite T, Ec.
  - intros x o q Hx. apply P. pose proof (pos_of_cut e l1 c ch l2 ch' c ch' x o q) as _.
    destruct Hx as [(m1 & chx & m2 & Em & -> & Ho & Hle)|(-> & -> & ->)];
      [left; rewrite Ec|right; by rewrite Ec].
    apply app_eq_inv in Em as [(m & -> & Em)|(m & -> & Em)];
      (destruct m as [|[x0 ch0] m]; simplify_eq/=; rewrite ?app_nil_r in *).
    + by eexists m1, ch', _.
    + exists m1, ch0, (m ++ (c, ch') :: l2). by rewrite <- app_assoc.
    + by eexists l1, ch', _.
    + exists (l1 ++ (x0, ch') :: m), chx, m2. rewrite <- app_assoc. split_and!; try done.
      by rewrite !csize_app, !csize_cons.
  - eapply (keeps_trans _ (e :: (l1 ++ (c, ch) :: l2).*1)); [done| |done|by left].
    eapply keeps_weaken; [apply keeps_upd_chunk|]. intros x ->%list_elem_of_singleton.
    right. rewrite fmap_split. apply elem_of_app. right. by left.
  - intros x chx k Ek Hs Hpp. destruct l1 as [|[x' chx'] l1']; simpl in Ek; simplify_eq.
    + destruct (F x ch' k eq_refl Hs Hpp) as (ch2 & k' & -> & Hh & Es). exists ch2, k'. split_and!; [done| |done].
      eapply same_head_trans; [|exact Hh]. by split.
    + by apply (F x chx _ eq_refl).
  - eapply kinds_kept_trans; [|exact Kd]. apply (kinds_kept_mid l1 c ch l2 [(c, ch')]).
    intros x chx [= _ ->]%list_elem_of_singleton. by split.
  - intros (ech & He & Hw). apply En. exists ech. split; [|done]. simpl. rewrite lookup_insert_ne; [done|].
    eapply (br_ne_end _ _ _ c ch H). apply elem_of_app. right. by left.
  - intros Ha. apply Ad. by eapply adjacent_mid, Ha.
Qed.

Lemma splits_marked_end s e cs ch ch' p s' k1 k2 :
  heap_ok s → vb_chunks s !! e = Some ch → fl_writable (ch_flags ch') = fl_writable (ch_flags ch) →
  let s1 := set_chunks (<[e := ch']> (vb_chunks s)) s in
  splits s1 e cs p s' k1 k2 → splits s e cs p s' k1 k2.
Proof.
  intros Ok He Ew s1 [R Hp L T B A P K N M E F Kd En Ad]. rewrite (content_same s s1) in B, A by done.
  split; try done.
  - eapply (keeps_trans _ (e :: cs.*1)); [done| |done|by left].
    eapply keeps_weaken; [apply keeps_upd_chunk|]. intros x ->%list_elem_of_singleton. by left.
  - intros (ech & He' & Hw). apply En. exists ch'. split; [simpl; apply lookup_insert_eq|congruence].
Qed.

Lemma runs_mark s e cs c o p Q :
  heap_ok s → buf_rep s e cs → norm_pos e cs c o p → writable_at s c →
  (∀ s1 cs1, heap_ok s1 → buf_rep s1 e cs1 → norm_pos e cs1 c o p → vb_mem s1 = vb_mem s →
     (∀ s' l1 l2, splits s1 e cs1 p s' l1 l2 → splits s e cs p s' l1 l2) → Q true s1) →
  runs (w ← vbuffer_chunk_check_writeable c;
        (if w : bool then vbuffer_chunk_mark_modified c else skip);; ret w) s Q.
Proof.
  intros Ok H Hp (ch & Hc & Hw) HQ. unfold vbuffer_chunk_check_writeable.
  apply runs_bind. call runs_rd_chunk; [done|]. rewrite Hw. step.
  unfold vbuffer_chunk_mark_modified. call runs_upd_chunk; [done|]. step.
  assert (heap_ok (set_chunks (<[c := set_modified true ch]> (vb_chunks s)) s)) as Ok1
    by (by eapply heap_ok_upd_chunk).
  destruct Hp as [(l1 & ch' & l2 & -> & -> & Ho)|(-> & -> & ->)].
  - destruct (br_at _ _ _ _ _ _ H) as [Hc' Oc]. simplify_eq.
    eapply (HQ _ (l1 ++ (c, set_modified true ch) :: l2)); try done.
    + by apply (buf_rep_upd _ _ _ _ ch); [|apply modified_ok|].
    + left. by eexists l1, _, l2.
    + intros s' k1 k2. by apply splits_marked.
  - destruct (br_end _ _ _ H) as (ch' & Hc' & [? ? ?]). simplify_eq.
    eapply (HQ _ cs); try done.
    + by apply buf_rep_upd_end.
    + by right.
    + intros s' k1 k2. by eapply splits_marked_end.
Qed.

(** Every chunk of the buffer may be written. *)
Definition all_writable s (e : loc) (cs : list seg) : Prop :=
  ∀ c, c ∈ e :: cs.*1 → writable_at s c.

Lemma norm_pos_in e cs c o p : norm_pos e cs c o p → c ∈ e :: cs.*1.
Proof.
  intros [(l1 & ch & l2 & -> & _)|(-> & _)]; [|by left]. right. rewrite fmap_split.
  apply elem_of_app. right. by left.
Qed.

Lemma runs_split s e cs c o p meter mark Q :
  heap_ok s → buf_rep s e cs → pos_of e cs c o p → vb_mem s ≠ 0%nat →
  (mark = true → all_writable s e cs) →
  (∀ s' l1 l2, splits s e cs p s' l1 l2 → Q (Some (chunk_at e l2)) s') →
  runs (_vbuffer_iterator_split (Iter (Some c) o meter false) mark) s Q.
Proof.
  intros Ok H Hp Hm Hw HQ. unfold _vbuffer_iterator_split.
  call runs_iter_check; [done|done|]. step. call runs_fix; [done|done|].
  intros c1 o1 _ Hn. apply runs_bind. destruct mark; simpl.
  - eapply runs_mark; [done|done|done|by apply Hw; [|eapply norm_pos_in]|].
    intros s1 cs1 Ok1 H1 Hn1 Em Hs. simpl. eapply runs_split_at; [done..|by rewrite Em|].
    intros s' l1 l2 Hsp. eapply HQ. by apply Hs.
  - step. simpl. by eapply runs_split_at.
Qed.

(** A chunk that is not writable stops the operation: the error is raised and
    nothing else happens. *)
Lemma runs_split_readonly s e cs c o p meter Q :
  buf_rep s e cs → pos_of e cs c o p →
  (∀ x, x ∈ e :: cs.*1 → ¬ writable_at s x) →
  Q None (raised "read only buffer" s) →
  runs (_vbuffer_iterator_split (Iter (Some c) o meter false) true) s Q.
Proof.
  intros H Hp Hro HQ. unfold _vbuffer_iterator_split.
  call runs_iter_check; [done|done|]. step. call runs_fix; [done|done|].
  intros c1 o1 _ Hn. unfold vbuffer_chunk_check_writeable.
  assert (∃ ch, vb_chunks s !! c1 = Some ch) as [ch Hc].
  { destruct Hn as [(l1 & ch & l2 & -> & _)|(-> & _)].
    - destruct (br_at _ _ _ _ _ _ H). eauto.
    - destruct (br_end _ _ _ H) as (ch & ? & _). eauto. }
  apply runs_bind, runs_bind, runs_bind. eapply runs_rd_chunk; [done|].
  destruct (fl_writable (ch_flags ch)) eqn:Ew.
  { exfalso. apply (Hro c1); [by eapply norm_pos_in|]. by exists ch. }
  unfold error, skip. step. step. step. step. simpl. by step.
Qed.
End split_spec.
