(* ===== verification/VbEdit.v ===== *)
(** * Joining buffers: insertion and concatenation

    Two buffers of the heap never share a chunk, so moving the chunks of one
    into the other splices its content at the position and leaves it empty. *)

From S2P Require Import Prelude List2 VbHeap VbIter VbSub VbRep VbWalk VbFrame VbMut.

(** ** Two buffers have no chunk in common *)

Section disjoint.
Implicit Types s : vbstate.

Lemma buf_meet s e e' : ∀ l2 l1 k1 k2,
  buf_rep s e (l1 ++ l2) → buf_rep s e' (k1 ++ k2) →
  chunk_at e l2 = chunk_at e' k2 → e = e'.
Proof.
  assert (∀ e cs e' c ch k1 k2, buf_rep s e cs → buf_rep s e' (k1 ++ (c, ch) :: k2) → e ≠ c) as Hne.
  { intros e0 cs e0' c ch k1 k2 H H' ->. destruct (br_end _ _ _ H) as (ch' & E & Oe).
    destruct (br_at _ _ _ _ _ _ H') as [E' Oc]. simplify_eq.
    pose proof (co_end _ _ Oc). pose proof (eo_end _ Oe). congruence. }
  induction l2 as [|[c ch] l2 IH]; intros l1 k1 [|[c' ch'] k2] H H' E; unfold chunk_at in E; simpl in E.
  - done.
  - exfalso. eapply Hne; [exact H|exact H'|done].
  - exfalso. eapply Hne; [exact H'|exact H|done].
  - subst c'. pose proof (br_list _ _ _ H) as Hl. pose proof (br_list _ _ _ H') as Hl'.
    rewrite fmap_split in Hl, Hl'. apply dlist_next in Hl, Hl'. simpl in Hl, Hl'.
    rewrite cons_middle, app_assoc in H, H'. eapply IH; [exact H|exact H'|].
    unfold chunk_at. congruence.
Qed.

Lemma elem_suffix e (cs : list seg) x :
  x ∈ e :: cs.*1 → ∃ l1 l2, cs = l1 ++ l2 ∧ x = chunk_at e l2.
Proof.
  intros [->|Hx]%elem_of_cons.
  - exists cs, []. by rewrite app_nil_r.
  - apply list_elem_of_fmap in Hx as ([c ch] & -> & (l1 & l2 & ->)%list_elem_of_split).
    by exists l1, ((c, ch) :: l2).
Qed.

Lemma buf_disjoint s e cs e' cs' x :
  buf_rep s e cs → buf_rep s e' cs' → e ≠ e' → x ∈ e :: cs.*1 → x ∉ e' :: cs'.*1.
Proof.
  intros H H' Hne (l1 & l2 & -> & E)%elem_suffix (k1 & k2 & -> & E')%elem_suffix.
  apply Hne. eapply buf_meet; [exact H|exact H'|congruence].
Qed.
End disjoint.

(** ** New links for the same chunks *)

Section relink.
Implicit Types s : vbstate.

Lemma buf_rep_relink s l e cs ch :
  dlist l e cs.*1 → vb_chunks s !! e = Some ch → end_ok ch →
  (∀ c ch, (c, ch) ∈ cs → vb_chunks s !! c = Some ch ∧ chunk_ok s ch) →
  csize cs < 2 ^ 32 → buf_rep (set_links l s) e cs.
Proof.
  intros Hl He Oe Hc Hs. split; try done; [by exists ch|].
  intros c ch' Hi. destruct (Hc c ch' Hi). split; [done|]. by apply (chunk_ok_same s).
Qed.

(** [list2_insert_list] of the range [cs2] of the chunks of [e2] before the suffix
    [l2]: only links change. *)
Lemma runs_splice_range s e l1 l2 e2 m1 cs2 m2 Q :
  heap_ok s → buf_rep s e (l1 ++ l2) → buf_rep s e2 (m1 ++ cs2 ++ m2) → e ≠ e2 →
  csize (l1 ++ l2) + csize cs2 < 2 ^ 32 →
  (∀ r l, let s' := set_links l s in
     heap_ok s' → buf_rep s' e (l1 ++ cs2 ++ l2) → buf_rep s' e2 (m1 ++ m2) →
     keeps ((e :: (l1 ++ l2).*1) ++ e2 :: (m1 ++ cs2 ++ m2).*1) s s' → Q r s') →
  runs (lnk (list2_insert_list (chunk_at e l2) (chunk_at e2 (cs2 ++ m2)) (chunk_at e2 m2))) s Q.
Proof.
  intros Ok H H2 Hne Hs HQ. eapply runs_lnk.
  - pose proof (br_list _ _ _ H) as Hl. pose proof (br_list _ _ _ H2) as Hl2.
    rewrite fmap_app in Hl. rewrite !fmap_app in Hl2.
    pose proof (list2_insert_list_spec _ e l1.*1 l2.*1 e2 m1.*1 cs2.*1 m2.*1 Hl Hl2) as Hi.
    unfold chunk_at. rewrite fmap_app. apply Hi. intros y Hy. rewrite <- !fmap_app in *.
    by apply (buf_disjoint s e (l1 ++ l2) e2 (m1 ++ cs2 ++ m2) y H H2 Hne).
  - intros r l (_ & Hl & Hl2 & Hfr). destruct (br_end _ _ _ H) as (ech & He & Oe).
    destruct (br_end _ _ _ H2) as (ech2 & He2 & Oe2). rewrite <- !fmap_app in Hfr.
    change (frame ((e :: (l1 ++ l2).*1) ++ e2 :: (m1 ++ cs2 ++ m2).*1) (vb_links s) l) in Hfr.
    apply HQ.
    + eapply heap_ok_set_links; [done|apply Hfr|]. intros x [Hx|Hx]%elem_of_app;
        [by apply (br_fresh s e (l1 ++ l2))|by apply (br_fresh s e2 (m1 ++ cs2 ++ m2))].
    + eapply buf_rep_relink; try done.
      * by rewrite !fmap_app.
      * intros c ch. rewrite !elem_of_app. intros [?|[?|?]].
        -- apply (br_chunks _ _ _ H), elem_of_app. by left.
        -- apply (br_chunks _ _ _ H2). rewrite !elem_of_app. auto.
        -- apply (br_chunks _ _ _ H), elem_of_app. by right.
      * rewrite !csize_app in *. lia.
    + destruct (br_parts _ _ _ _ H2) as (? & ? & ?).
      destruct (br_parts s e2 (m1 ++ cs2) m2) as (? & ? & ?); [by rewrite <- app_assoc|].
      rewrite !csize_app in *. eapply buf_rep_relink; try done.
      * by rewrite fmap_app.
      * intros c ch. rewrite !elem_of_app. intros [?|?]; apply (br_chunks _ _ _ H2); rewrite !elem_of_app; auto.
      * rewrite csize_app. assert (0 ≤ csize cs2); [|lia]. eapply csize_nonneg. intros c ch Hi.
        eapply (br_ok _ _ _ c ch H2). rewrite !elem_of_app. auto.
    + apply keeps_set_links, Hfr.
Qed.

(** All the chunks of [e2]. *)
Lemma runs_splice s e l1 l2 e2 cs2 Q :
  heap_ok s → buf_rep s e (l1 ++ l2) → buf_rep s e2 cs2 → e ≠ e2 →
  csize (l1 ++ l2) + csize cs2 < 2 ^ 32 →
  (∀ r l, let s' := set_links l s in
     heap_ok s' → buf_rep s' e (l1 ++ cs2 ++ l2) → buf_rep s' e2 [] →
     keeps ((e :: (l1 ++ l2).*1) ++ e2 :: cs2.*1) s s' → Q r s') →
  runs (lnk (list2_insert_list (chunk_at e l2) (chunk_at e2 cs2) e2)) s Q.
Proof.
  intros Ok H H2 Hne Hs HQ. rewrite <- (app_nil_r cs2) at 1.
  eapply (runs_splice_range s e l1 l2 e2 [] cs2 []); simpl; rewrite ?app_nil_r; done.
Qed.
End relink.

(** ** Insertion *)

Section insert.
Implicit Types s : vbstate.

Lemma runs_vbuffer_begin s e cs it Q :
  buf_rep s e cs → Q (Iter (Some (chunk_at e cs)) 0 (it_meter it) false) s →
  runs (vbuffer_begin (Some e) it) s Q.
Proof.
  intros H HQ. unfold vbuffer_begin, vbuffer_position. step.
  rewrite bool_decide_false by (unfold size_max; lia).
  call runs_chunk_begin; [done|]. rewrite bool_decide_false by lia. by step.
Qed.

Lemma runs_list_empty s e cs Q :
  buf_rep s e cs → Q (bool_decide (cs = [])) s → runs (lnk (list2_empty e)) s Q.
Proof.
  intros H HQ. apply runs_lnk_read. eapply runs_mono; [by eapply list2_empty_spec, (br_list _ _ _ H)|].
  intros b l [-> ->]. split; [done|].
  replace (bool_decide (cs.*1 = [])) with (bool_decide (cs = [])); [done|].
  apply bool_decide_ext. destruct cs; naive_solver.
Qed.

Lemma runs_iter_copy s e cs c o p meter Q :
  buf_rep s e cs → pos_of e cs c o p → Q (Iter (Some c) o meter false) s →
  runs (vbuffer_iterator_copy (Iter (Some c) o meter false)) s Q.
Proof.
  intros H Hp HQ. unfold vbuffer_iterator_copy. call runs_iter_check; [done|done|]. simpl. by step.
Qed.

Lemma runs_create_between s e cs c o p m c' o' p' m' Q :
  buf_rep s e cs → pos_of e cs c o p → pos_of e cs c' o' p' →
  Q (true, Sub (Iter (Some c) o m false) false (SubEnd (Iter (Some c') o' m' false))) s →
  runs (vbuffer_sub_create_between_position (Iter (Some c) o m false) (Iter (Some c') o' m' false)) s Q.
Proof.
  intros H Hp Hp' HQ. unfold vbuffer_sub_create_between_position.
  call runs_iter_copy; [exact H|exact Hp|]. call runs_iter_copy; [exact H|exact Hp'|]. by step.
Qed.

(** The beginning of a part of the buffer as a position. *)
Lemma pos_of_suffix e l1 l2 : 0 ≤ csize l2 → pos_of e (l1 ++ l2) (chunk_at e l2) 0 (csize l1).
Proof.
  intros Hs. destruct l2 as [|[c ch] l2].
  - right. rewrite app_nil_r. done.
  - left. exists l1, ch, l2. rewrite csize_app. split_and!; try done; lia.
Qed.

(** What insertion makes of the two buffers. *)
Record inserted s (e : loc) (cs : list seg) (p : Z) (e2 : loc) (cs2 : list seg)
    (s' : vbstate) (l1 l2 : list seg) : Prop := {
  in_rep : buf_rep s' e (l1 ++ cs2 ++ l2);
  in_rest : buf_rep s' e2 [];
  in_heap : heap_ok s';
  in_len : csize l1 = p;
  in_content : content s' (l1 ++ cs2 ++ l2) =
    ztake p (content s cs) ++ content s cs2 ++ zdrop p (content s cs);
  in_keeps : keeps ((e :: cs.*1) ++ e2 :: cs2.*1) s s';
  in_error : vb_error s' = vb_error s;
}.

Lemma splits_spliced s e cs p e2 cs2 s1 l1 l2 s' :
  heap_ok s → splits s e cs p s1 l1 l2 → buf_rep s e2 cs2 → e ≠ e2 →
  (∀ x, x ∈ e2 :: cs2.*1 → x ∉ e :: cs.*1) →
  heap_ok s' → buf_rep s' e (l1 ++ cs2 ++ l2) → buf_rep s' e2 [] →
  keeps ((e :: (l1 ++ l2).*1) ++ e2 :: cs2.*1) s1 s' →
  vb_datas s' = vb_datas s1 → vb_error s' = vb_error s1 →
  inserted s e cs p e2 cs2 s' l1 l2.
Proof.
  intros Ok Sp H2 Hne Hd Ok' R R2 K Ed Ee. split; try done.
  - apply Sp.
  - rewrite (content_same s1) by done. rewrite !content_app, (sp_before _ _ _ _ _ _ _ Sp),
      (sp_after _ _ _ _ _ _ _ Sp).
    by destruct (keeps_buf _ _ _ _ _ Ok (sp_keeps _ _ _ _ _ _ _ Sp) H2 Hd) as [_ ->].
  - eapply (keeps_trans _ ((e :: (l1 ++ l2).*1) ++ e2 :: cs2.*1)); [done| |done|].
    + eapply keeps_weaken; [apply Sp|]. intros x Hx. apply elem_of_app. by left.
    + intros y Hy. rewrite !elem_of_app, !elem_of_cons in *.
      destruct Hy as [[->|Hy]|Hy]; [by left; left; left| |by left; right].
      destruct (sp_new _ _ _ _ _ _ _ Sp y Hy); [left; left; by right|by right].
  - rewrite Ee. apply Sp.
Qed.

Lemma runs_insert s e cs c o p meter e2 cs2 want Q :
  heap_ok s → buf_rep s e cs → pos_of e cs c o p → buf_rep s e2 cs2 → e ≠ e2 → cs2 ≠ [] →
  all_writable s e cs → vb_mem s ≠ 0%nat → csize cs + csize cs2 < 2 ^ 32 →
  (∀ s' l1 l2 m, inserted s e cs p e2 cs2 s' l1 l2 →
     let position := Iter (Some (chunk_at e l2)) 0 meter false in
     Q (true, position,
        if want : bool
        then Some (Sub (Iter (Some (chunk_at e2 cs2)) 0 m false) false (SubEnd position))
        else None) s') →
  runs (vbuffer_iterator_insert (Iter (Some c) o meter false) (Some e2) want) s Q.
Proof.
  intros Ok H Hp H2 Hne Hne2 Hw Hm Hs HQ. unfold vbuffer_iterator_insert.
  assert (∀ x, x ∈ e2 :: cs2.*1 → x ∉ e :: cs.*1) as Hd by (intros x Hx; apply (buf_disjoint s e2 cs2 e cs); [done|done|by intros ->|done]).
  call runs_iter_check; [exact H|exact Hp|]. simpl. unfold vbuffer_chunk_list. step.
  call runs_list_empty; [exact H2|]. rewrite bool_decide_false by done.
  call runs_split; [exact Ok|exact H|exact Hp|done|done|]. intros s1 l1 l2 Sp.
  destruct (keeps_buf _ _ _ _ _ Ok (sp_keeps _ _ _ _ _ _ _ Sp) H2 Hd) as [H2' _].
  unfold uninit_iterator. apply runs_bind. step. step.
  assert (∀ Q', (∀ u, (want = true → u = Iter (Some (chunk_at e2 cs2)) 0 (vb_junk s1) false) → Q' u s1) →
    runs (if want then vbuffer_begin (Some e2) (Iter None (vb_junk s1) (vb_junk s1) false)
          else ret (Iter None (vb_junk s1) (vb_junk s1) false)) s1 Q') as Hbeg.
  { intros Q' HQ'. destruct want; [|by step; apply HQ'].
    eapply runs_vbuffer_begin; [done|]. by apply HQ'. }
  call Hbeg. intros u Hu. call runs_lnk_next; [by eapply dlist_begin, (br_list _ _ _ H2')|]. step.
  call runs_splice; [apply Sp|apply Sp|done|done|by rewrite (sp_total _ _ _ _ _ _ _ Sp)|].
  intros _ l s' Ok' R R2 K.
  pose proof (splits_spliced s e cs p e2 cs2 s1 l1 l2 s' Ok Sp H2 Hne Hd Ok' R R2 K eq_refl eq_refl) as HI.
  call runs_iter_update; [done|lia|].
  destruct (br_parts _ _ _ _ R) as (? & ? & ?). rewrite csize_app in *.
  destruct want.
  - specialize (Hu eq_refl) as ->. apply runs_bind. step.
    destruct cs2 as [|[b bch] cs2]; [done|]. destruct (br_at _ _ l1 b bch (cs2 ++ l2) R) as [Hb Ob].
    call runs_rd_chunk; [exact Hb|]. rewrite (co_end _ _ Ob).
    pose proof (pos_of_suffix e l1 (((b, bch) :: cs2) ++ l2)) as P1.
    pose proof (pos_of_suffix e (l1 ++ (b, bch) :: cs2) l2) as P2. rewrite <- app_assoc in P2.
    destruct (br_parts s' e (l1 ++ (b, bch) :: cs2) l2) as (_ & P3 & _); [by rewrite <- app_assoc|].
    rewrite !csize_app in P1. specialize (P1 ltac:(lia)). specialize (P2 P3).
    call runs_create_between; [exact R|exact P1|exact P2|]. step.
    call runs_list_empty; [exact R2|]. step. step. by apply (HQ s' l1 l2 (vb_junk s1)).
  - apply runs_bind. step. call runs_list_empty; [exact R2|]. simpl. step. step. by apply (HQ s' l1 l2 0).
Qed.
End insert.

(** ** Concatenation *)

Section append.
Implicit Types s : vbstate.

Record appended s (e : loc) (cs : list seg) (e2 : loc) (cs2 : list seg) (s' : vbstate) : Prop := {
  ap_rep : buf_rep s' e (cs ++ cs2);
  ap_rest : buf_rep s' e2 [];
  ap_heap : heap_ok s';
  ap_content : content s' (cs ++ cs2) = content s cs ++ content s cs2;
  ap_keeps : keeps ((e :: cs.*1) ++ e2 :: cs2.*1) s s';
  ap_error : vb_error s' = vb_error s;
}.

Lemma runs_append s e cs e2 cs2 Q :
  heap_ok s → buf_rep s e cs → buf_rep s e2 cs2 → e ≠ e2 → csize cs + csize cs2 < 2 ^ 32 →
  (∀ s', appended s e cs e2 cs2 s' → Q true s') →
  runs (vbuffer_append (Some e) (Some e2)) s Q.
Proof.
  intros Ok H H2 Hne Hs HQ. unfold vbuffer_append, vbuffer_chunk_list, vbuffer_chunk_end,
    vbuffer_chunk_mark_modified. step. step.
  destruct (br_end _ _ _ H) as (ech & He & [E1 E2 E3]).
  call runs_upd_chunk; [exact He|]. set (s1 := set_chunks _ _).
  assert (heap_ok s1) as Ok1 by (by eapply heap_ok_upd_chunk).
  assert (buf_rep s1 e cs) as H1 by (by apply buf_rep_upd_end).
  assert (keeps [e] s s1) as K1 by apply keeps_upd_chunk.
  destruct (keeps_buf _ _ _ _ _ Ok K1 H2) as [H2' _].
  { intros x Hx ->%list_elem_of_singleton. revert Hx.
    apply (buf_disjoint s e cs e2 cs2); [done..|by left]. }
  call runs_lnk_next; [by eapply dlist_begin, (br_list _ _ _ H2')|]. step.
  call (runs_splice s1 e cs []); [done|by rewrite app_nil_r|exact H2'|done|by rewrite app_nil_r|].
  intros _ l s' Ok' R R2 K. rewrite !app_nil_r in R, K.
  call runs_list_empty; [exact R2|]. step. step. apply HQ. split; try done.
  - by rewrite (content_same s s'), content_app.
  - eapply keeps_trans; [done| |exact K|by left]. eapply keeps_weaken; [done|].
    intros x ->%list_elem_of_singleton. apply elem_of_app. left. by left.
Qed.
End append.
