(* ===== verification/VbClear.v ===== *)
(** * Releasing buffers (lib/haka/vbuffer.c)

    [vbuffer_clear] unlinks every chunk, releases the data block it refers to
    and frees the chunk unless an iterator is registered on it. No block is
    freed while a chunk refers to it and none is left without reference; the
    other buffers of the heap are untouched. *)

From S2P Require Import Prelude List2 VbHeap VbIter VbSub VbRep VbWalk VbFrame VbMut VbEdit.

(** The blocks once a chunk with the record [ch] no longer refers to its own. *)
Definition drop_data (ch : vbuffer_chunk) (ds : gmap loc vbuffer_data) : gmap loc vbuffer_data :=
  match ch_data ch with
  | None => ds
  | Some d =>
      match ds !! d with
      | None => ds
      | Some dt =>
          if bool_decide (dt_ref dt = 1) then delete d ds
          else <[d := Data (dt_ref dt - 1) (dt_body dt)]> ds
      end
  end.

Definition drop_chunk (c : loc) (ch : vbuffer_chunk) (s : vbstate) : vbstate :=
  let freed := bool_decide (ch_ref ch = 1) in
  VB (if freed then delete c (vb_links s) else vb_links s)
     (if freed then delete c (vb_chunks s)
      else <[c := set_ref (ch_ref ch - 1) (set_data None ch)]> (vb_chunks s))
     (drop_data ch (vb_datas s)) (vb_error s) (vb_mem s) (vb_fresh s) (vb_junk s).

(** Every block is referred to. *)
Definition no_leak (s : vbstate) : Prop :=
  ∀ d dt, vb_datas s !! d = Some dt → (0 < nrefs (vb_chunks s) d)%nat.

Section drop.
Implicit Types s : vbstate.

Lemma drop_nrefs s c ch d :
  vb_chunks s !! c = Some ch →
  nrefs (vb_chunks s) d = (has_data d ch + nrefs (vb_chunks (drop_chunk c ch s)) d)%nat.
Proof.
  intros Hc. unfold drop_chunk. simpl. case_bool_decide.
  - by apply nrefs_delete.
  - pose proof (nrefs_update _ c ch (set_ref (ch_ref ch - 1) (set_data None ch)) d Hc) as Hn.
    unfold has_data in *. simpl in Hn. lia.
Qed.

Lemma drop_data_lookup s c ch d dt :
  heap_ok s → vb_chunks s !! c = Some ch → drop_data ch (vb_datas s) !! d = Some dt →
  ∃ dt0, vb_datas s !! d = Some dt0 ∧ dt = Data (dt_ref dt0 - Z.of_nat (has_data d ch)) (dt_body dt0) ∧
    (has_data d ch = 1%nat → dt_ref dt0 ≠ 1).
Proof.
  intros Ok Hc. unfold drop_data, has_data. destruct (ch_data ch) as [d'|] eqn:Ed.
  - destruct (ho_data _ Ok _ _ _ Hc Ed) as [dt' Hd']. rewrite Hd'.
    case_bool_decide as E.
    + rewrite lookup_delete_Some. intros [Hne Hd]. exists dt. rewrite decide_False by congruence.
      split_and!; [done| |done]. rewrite Z.sub_0_r. by destruct dt.
    + rewrite lookup_insert_Some. intros [[-> <-]|[Hne Hd]].
      * exists dt'. by rewrite decide_True.
      * exists dt. rewrite decide_False by congruence. split_and!; [done| |done].
        rewrite Z.sub_0_r. by destruct dt.
  - intros Hd. exists dt. rewrite decide_False by done. split_and!; [done| |done].
    rewrite Z.sub_0_r. by destruct dt.
Qed.

(** A block that another chunk refers to survives. *)
Lemma drop_data_kept s c ch d x chx dt :
  heap_ok s → vb_chunks s !! c = Some ch → vb_chunks s !! x = Some chx → x ≠ c →
  ch_data chx = Some d → vb_datas s !! d = Some dt →
  ∃ r, drop_data ch (vb_datas s) !! d = Some (Data r (dt_body dt)).
Proof.
  intros Ok Hc Hx Hne Ed Hd. unfold drop_data. destruct (ch_data ch) as [d'|] eqn:Ed'; [|destruct dt; eauto].
  destruct (ho_data _ Ok _ _ _ Hc Ed') as [dt' Hd']. rewrite Hd'.
  destruct (decide (d' = d)) as [->|Hdd].
  - simplify_eq. rewrite bool_decide_false; [rewrite lookup_insert_eq; eauto|].
    rewrite (ho_refs _ Ok _ _ Hd). rewrite (nrefs_delete _ c ch d Hc).
    unfold has_data. rewrite decide_True by done.
    pose proof (nrefs_pos (delete c (vb_chunks s)) x chx d) as Hp.
    rewrite lookup_delete_ne in Hp by done. specialize (Hp Hx Ed). lia.
  - case_bool_decide; [rewrite lookup_delete_ne by done|rewrite lookup_insert_ne by done];
      destruct dt; eauto.
Qed.

Lemma drop_chunks_lookup s c ch x :
  x ≠ c → vb_chunks (drop_chunk c ch s) !! x = vb_chunks s !! x.
Proof.
  intros Hne. unfold drop_chunk. simpl.
  case_bool_decide; [by rewrite lookup_delete_ne|by rewrite lookup_insert_ne].
Qed.

Lemma heap_ok_drop s c ch : heap_ok s → vb_chunks s !! c = Some ch → heap_ok (drop_chunk c ch s).
Proof.
  intros Ok Hc. pose proof (drop_nrefs s c ch) as Hn. pose proof Ok as [F1 F2 F3 R D Sm]. split.
  - intros x Hx. apply F1. destruct (decide (x = c)) as [->|?]; [by rewrite Hc|].
    by rewrite drop_chunks_lookup in Hx.
  - intros x. simpl. case_bool_decide; [|auto]. intros [y Hy]. apply F2.
    apply lookup_delete_Some in Hy as [_ Hy]. eauto.
  - simpl. intros x [dt Hx]. destruct (drop_data_lookup s c ch x dt Ok Hc Hx) as (? & ? & _). eauto.
  - intros d dt Hd. destruct (drop_data_lookup s c ch d dt Ok Hc Hd) as (dt0 & H0 & -> & _).
    simpl (dt_ref _). rewrite (R _ _ H0), (Hn d Hc). lia.
  - intros x chx d Hx Ed. destruct (decide (x = c)) as [->|Hne].
    + unfold drop_chunk in Hx. simpl in Hx. case_bool_decide.
      * by rewrite lookup_delete_eq in Hx.
      * rewrite lookup_insert_eq in Hx. by simplify_eq/=.
    + rewrite drop_chunks_lookup in Hx by done. destruct (D _ _ _ Hx Ed) as [dt Hdt].
      destruct (drop_data_kept s c ch d x chx dt) as [r Hr]; [done..|]. simpl. eauto.
  - unfold drop_chunk. simpl. case_bool_decide.
    + rewrite map_size_delete_Some by eauto. lia.
    + rewrite map_size_insert_Some by eauto. lia.
Qed.

Lemma keeps_drop s c ch : heap_ok s → vb_chunks s !! c = Some ch → keeps [c] s (drop_chunk c ch s).
Proof.
  intros Ok Hc. split; try done.
  - intros x Hx _. simpl. case_bool_decide; [|done]. rewrite lookup_delete_ne; [done|].
    intros <-. apply Hx. by left.
  - intros x Hx _. apply drop_chunks_lookup. intros ->. apply Hx. by left.
  - intros d dt x chx Hd Hx Hcx Ed. simpl. eapply drop_data_kept; try done.
    intros ->. apply Hx. by left.
Qed.

Lemma no_leak_drop s c ch :
  heap_ok s → vb_chunks s !! c = Some ch → no_leak s → no_leak (drop_chunk c ch s).
Proof.
  intros Ok Hc Hl d dt Hd. destruct (drop_data_lookup s c ch d dt Ok Hc Hd) as (dt0 & H0 & -> & Hne).
  pose proof (drop_nrefs s c ch d Hc) as Hn. specialize (Hl _ _ H0).
  rewrite (ho_refs _ Ok _ _ H0) in Hne. unfold has_data in *. case_decide; lia.
Qed.
End drop.

(** ** The operations *)

Section clear.
Implicit Types s : vbstate.

Lemma runs_data_release s c ch Q :
  heap_ok s → vb_chunks s !! c = Some ch →
  Q tt (set_datas (drop_data ch (vb_datas s)) s) →
  runs (vbuffer_data_release (ch_data ch)) s Q.
Proof.
  intros Ok Hc HQ. unfold drop_data in HQ. destruct (ch_data ch) as [d|] eqn:Ed; simpl.
  - destruct (ho_data _ Ok _ _ _ Hc Ed) as [dt Hd]. rewrite Hd in HQ.
    unfold data_release. apply runs_bind. call runs_rd_data; [done|]. unfold wr_data. step.
    pose proof (ho_refs _ Ok _ _ Hd) as Er. pose proof (nrefs_pos _ _ _ _ Hc Ed).
    pose proof (nrefs_le (vb_chunks s) d). pose proof (ho_small _ Ok). step.
    rewrite u32_small by lia. case_bool_decide as E1.
    + rewrite bool_decide_true by lia. unfold free_data. step.
      unfold set_datas in *. simpl in *. by rewrite delete_insert_eq.
    + rewrite bool_decide_false by lia. unfold skip. by step.
  - unfold skip. step. by destruct s.
Qed.

(** The end of [vbuffer_chunk_clear], once the chunk is out of its list. *)
Lemma runs_drop s c ch Q :
  heap_ok s → vb_chunks s !! c = Some ch → 1 ≤ ch_ref ch < 2 ^ 32 →
  vb_links s !! c = Some (Elem None None) →
  Q tt (drop_chunk c ch s) →
  runs (ch ← rd_chunk c; vbuffer_data_release (ch_data ch);;
        upd_chunk c (set_data None);; vbuffer_chunk_release c) s Q.
Proof.
  intros Ok Hc Hr Hl HQ. call runs_rd_chunk; [done|]. call runs_data_release; [done|done|].
  call runs_upd_chunk; [done|]. unfold vbuffer_chunk_release.
  call runs_rd_chunk; [apply lookup_insert_eq|]. call runs_wr_chunk. simpl.
  rewrite u32_small by lia. unfold drop_chunk in HQ. case_test as E1.
  - rewrite bool_decide_true in HQ by lia. step.
    call runs_lnk_read. eapply runs_bind, runs_rd_elem; [done|]. step. split; [done|]. simpl. step. unfold free_chunk. step.
    unfold set_links, set_chunks, set_datas in *. simpl in *. by rewrite !delete_insert_eq.
  - rewrite bool_decide_false in HQ by lia. unfold skip. step.
    unfold set_chunks, set_datas in *. simpl in *. by rewrite insert_insert_eq.
Qed.

(** What becomes of a chunk that is cleared: freed, or detached when an
    iterator is registered on it. *)
Definition cleared (s' : vbstate) (c : loc) (ch : vbuffer_chunk) : Prop :=
  if bool_decide (ch_ref ch = 1) then vb_chunks s' !! c = None ∧ vb_links s' !! c = None
  else vb_chunks s' !! c = Some (set_ref (ch_ref ch - 1) (set_data None ch)) ∧
       vb_links s' !! c = Some (Elem None None).

Lemma drop_cleared s c ch :
  vb_links s !! c = Some (Elem None None) → cleared (drop_chunk c ch s) c ch.
Proof.
  intros Hl. unfold cleared, drop_chunk. simpl. case_bool_decide.
  - by rewrite !lookup_delete_eq.
  - by rewrite lookup_insert_eq.
Qed.

Lemma cleared_kept X s s' c ch :
  heap_ok s → keeps X s s' → c ∉ X → (c < vb_fresh s)%positive → cleared s c ch → cleared s' c ch.
Proof.
  intros Ok K Hc Hf. unfold cleared.
  rewrite (kp_links _ _ _ K), (kp_chunks _ _ _ K) by done. done.
Qed.

(** The chunk [c] is out of its list in [l], then it is dropped. *)
Record unlinked_from (l : lmem) (h : lmem) (e : loc) (k1 : list loc) (c : loc) (k2 : list loc) : Prop := {
  uf_list : dlist l e (k1 ++ k2);
  uf_free : l !! c = Some (Elem None None);
  uf_frame : frame (e :: k1 ++ c :: k2) h l;
}.

Lemma unlinked_rep s e l1 c ch l2 l :
  heap_ok s → buf_rep s e (l1 ++ (c, ch) :: l2) → unlinked_from l (vb_links s) e l1.*1 c l2.*1 →
  let s' := drop_chunk c ch (set_links l s) in
  heap_ok (set_links l s) ∧ heap_ok s' ∧ buf_rep s' e (l1 ++ l2) ∧
  content s' (l1 ++ l2) = content s (l1 ++ l2) ∧
  keeps (e :: (l1 ++ (c, ch) :: l2).*1) s s' ∧ cleared s' c ch ∧ (no_leak s → no_leak s').
Proof.
  intros Ok H [Hl' Hc' Hfr] s'. destruct (br_at _ _ _ _ _ _ H) as [Hc Oc]. set (s1 := set_links l s) in *.
  assert (heap_ok s1) as Ok1.
  { eapply heap_ok_set_links; [done|apply Hfr|]. intros x Hx. eapply (br_fresh _ _ _ x Ok H).
    by rewrite fmap_split. }
  assert (buf_rep s1 e (l1 ++ l2)) as H1.
  { destruct (br_end _ _ _ H) as (ech & He & Oe). eapply buf_rep_relink; try done.
    - by rewrite fmap_app.
    - intros x chx Hx. apply (br_chunks _ _ _ H). apply elem_of_app in Hx as [?|?];
        apply elem_of_app; [by left|right; by right].
    - destruct (br_size _ _ _ _ _ _ H) as (?&?&?&?). rewrite csize_app. lia. }
  assert (c ∉ e :: (l1 ++ l2).*1) as Hni.
  { rewrite fmap_app. by eapply dlist_not_in. }
  pose proof (keeps_drop s1 c ch Ok1 Hc) as Kd.
  destruct (keeps_buf _ _ _ _ _ Ok1 Kd H1) as [H2 Ec].
  { intros x Hx ->%list_elem_of_singleton. done. }
  split_and!; try done.
  - by apply heap_ok_drop.
  - eapply keeps_trans; [done| |exact Kd|].
    + rewrite fmap_split. apply keeps_set_links, Hfr.
    + intros y ->%list_elem_of_singleton. left. rewrite fmap_split. right. apply elem_of_app. right. by left.
  - by apply drop_cleared.
  - intros Hnl. by apply no_leak_drop.
Qed.

Lemma runs_unlink s e k1 c ch k2 Q :
  heap_ok s → dlist (vb_links s) e (k1 ++ c :: k2) → (∀ x, x ∈ e :: k1 ++ c :: k2 → (x < vb_fresh s)%positive) →
  vb_chunks s !! c = Some ch → 1 ≤ ch_ref ch < 2 ^ 32 →
  (∀ l, unlinked_from l (vb_links s) e k1 c k2 → Q tt (drop_chunk c ch (set_links l s))) →
  runs (vbuffer_chunk_clear c) s Q.
Proof.
  intros Ok Hl Hold Hc Hr HQ. unfold vbuffer_chunk_clear.
  assert (c ∈ e :: k1 ++ c :: k2) as Hin by (right; apply elem_of_app; right; by left).
  destruct (dlist_links _ _ _ _ Hl Hin) as (pp & nn & E).
  call runs_lnk_read. eapply runs_rd_elem; [done|]. split; [done|]. simpl.
  apply runs_bind. step.
  eapply runs_bind, runs_lnk; [by eapply list2_erase_spec|].
  intros r l' (-> & Hl' & Hc' & Hfr). unfold skip. step.
  assert (heap_ok (set_links l' s)) as Ok1 by (by eapply heap_ok_set_links; [|apply Hfr|]).
  eapply runs_drop; [done|done|done|done|]. by apply HQ.
Qed.

Lemma runs_chunk_unlink s e l1 c ch l2 Q :
  heap_ok s → buf_rep s e (l1 ++ (c, ch) :: l2) →
  (∀ l, let s' := drop_chunk c ch (set_links l s) in
     heap_ok (set_links l s) → heap_ok s' → buf_rep s' e (l1 ++ l2) →
     content s' (l1 ++ l2) = content s (l1 ++ l2) →
     keeps (e :: (l1 ++ (c, ch) :: l2).*1) s s' → cleared s' c ch →
     (no_leak s → no_leak s') → Q tt s') →
  runs (vbuffer_chunk_clear c) s Q.
Proof.
  intros Ok H HQ. destruct (br_at _ _ _ _ _ _ H) as [Hc Oc]. pose proof (br_list _ _ _ H) as Hl.
  rewrite fmap_split in Hl. eapply runs_unlink; [done|exact Hl| |exact Hc|apply (co_ref _ _ Oc)|].
  - intros x Hx. eapply (br_fresh _ _ _ x Ok H). by rewrite fmap_split.
  - intros l Hu. destruct (unlinked_rep s e l1 c ch l2 l Ok H Hu) as (? & ? & ? & ? & ? & ? & ?). by apply HQ.
Qed.

Lemma runs_chunk_clear s e l1 c ch l2 Q :
  heap_ok s → buf_rep s e (l1 ++ (c, ch) :: l2) →
  (∀ s', heap_ok s' → buf_rep s' e (l1 ++ l2) → content s' (l1 ++ l2) = content s (l1 ++ l2) →
     keeps (e :: (l1 ++ (c, ch) :: l2).*1) s s' → cleared s' c ch →
     (no_leak s → no_leak s') → vb_fresh s' = vb_fresh s → vb_error s' = vb_error s →
     vb_mem s' = vb_mem s → Q tt s') →
  runs (vbuffer_chunk_clear c) s Q.
Proof. intros Ok H HQ. eapply runs_chunk_unlink; [done..|]. intros l s' _ ? ? ? ? ? ?. by apply HQ. Qed.

Lemma clear_loop_spec e : ∀ cs s fuel Q,
  heap_ok s → buf_rep s e cs → (length cs ≤ fuel)%nat →
  (∀ s', heap_ok s' → buf_rep s' e [] → keeps (e :: cs.*1) s s' →
     (∀ c ch, (c, ch) ∈ cs → cleared s' c ch) → (no_leak s → no_leak s') →
     vb_fresh s' = vb_fresh s → vb_error s' = vb_error s → vb_mem s' = vb_mem s → Q tt s') →
  runs (vbuffer_clear_loop fuel (chunk_at e cs)) s Q.
Proof.
  induction cs as [|[c ch] cs IH]; intros s fuel Q Ok H Hf HQ.
  - destruct (br_end _ _ _ H) as (ech & He & Oe).
    destruct fuel; simpl; (call runs_rd_chunk; [done|]; rewrite (eo_end _ Oe); unfold skip; step;
      apply HQ; try done; [by apply keeps_refl|by intros ? ? ?%elem_of_nil]).
  - destruct (br_at s e [] c ch cs H) as [Hc Oc]. destruct fuel as [|fuel]; simpl in Hf; [lia|].
    simpl. call runs_rd_chunk; [done|]. rewrite (co_end _ _ Oc).
    call (runs_chunk_next s e []); [exact H|]. step.
    call (runs_chunk_clear s e []); [done|exact H|].
    intros s1 Ok1 H1 _ K1 C1 N1 F1 E1 M1. simpl in H1. eapply IH; [done|done|lia|].
    intros s' Ok' H' K' C' N' F' E' M'.
    assert (c ∉ e :: cs.*1) as Hni.
    { pose proof (dlist_nodup _ _ _ (br_list _ _ _ H)) as Hnd. simpl in Hnd.
      apply NoDup_cons in Hnd as [He [Hc' _]%NoDup_cons]. intros [->|?]%elem_of_cons; [|done].
      apply He. by left. }
    assert (c < vb_fresh s)%positive as Hcf by (apply (ho_fresh_chunk _ Ok); rewrite Hc; eauto).
    apply HQ; try done; [| |auto|congruence..].
    + eapply keeps_trans; [done|exact K1|exact K'|]. simpl.
      intros y [->|?]%elem_of_cons; left; [by left|right; by right].
    + intros x chx [[= -> ->]|Hx]%elem_of_cons; [|by apply C'].
      eapply cleared_kept; [exact Ok1|exact K'|done|lia|done].
Qed.

Record released s (e : loc) (cs : list seg) (s' : vbstate) : Prop := {
  rl_heap : heap_ok s';
  rl_keeps : keeps (e :: cs.*1) s s';
  rl_chunks : ∀ c ch, (c, ch) ∈ cs → cleared s' c ch;
  rl_leak : no_leak s → no_leak s';
  rl_error : vb_error s' = vb_error s;
  rl_mem : vb_mem s' = vb_mem s;
}.

Lemma runs_clear s e cs Q :
  heap_ok s → buf_rep s e cs →
  (∀ s', released s e cs s' → Q None s') → runs (vbuffer_clear (Some e)) s Q.
Proof.
  intros Ok H HQ. unfold vbuffer_clear. call runs_chunk_begin; [done|]. call runs_chunk_fuel.
  call clear_loop_spec; [done|done|pose proof (br_fuel _ _ _ H); lia|].
  intros s1 Ok1 H1 K1 C1 N1 F1 E1 M1. unfold vbuffer_chunk_clear. apply runs_bind.
  destruct (br_end _ _ _ H1) as (ech & He & Oe).
  pose proof (br_list _ _ _ H1) as Hl. simpl in Hl.
  destruct (dlist_links _ _ _ e Hl ltac:(by left)) as (pp & nn & E).
  call runs_lnk_read. eapply runs_rd_elem; [done|]. split; [done|]. simpl. apply runs_bind. step.
  eapply runs_bind, runs_lnk; [by eapply list2_erase_head|].
  intros r l' (Hc' & Hfr). unfold skip. step. set (s2 := set_links l' s1).
  assert (heap_ok s2) as Ok2.
  { eapply heap_ok_set_links; [done|apply Hfr|]. intros x ->%list_elem_of_singleton.
    eapply (br_fresh _ _ _ e Ok1 H1). by left. }
  pose proof (keeps_drop s2 e ech Ok2 He) as Kd.
  eapply runs_drop; [done|done|apply (eo_ref _ Oe)|done|]. step. apply HQ.
  assert (keeps [e] s1 (drop_chunk e ech s2)) as K2.
  { eapply keeps_trans; [done|apply keeps_set_links, Hfr|exact Kd|by left]. }
  split; try done.
  - by apply heap_ok_drop.
  - eapply keeps_trans; [done|exact K1|exact K2|]. intros y ->%list_elem_of_singleton. left. by left.
  - intros c ch Hi. eapply cleared_kept; [exact Ok1|exact K2| | |by apply C1].
    + intros ->%list_elem_of_singleton. by apply (br_ne_end _ _ _ _ _ H Hi).
    + rewrite F1. apply (ho_fresh_chunk _ Ok). rewrite (br_lookup _ _ _ _ _ H Hi). eauto.
  - intros Hnl. apply no_leak_drop; auto.
Qed.
End clear.
