(* ===== verification/VbMake.v ===== *)
(** * New buffers (lib/haka/vbuffer.c)

    [vbuffer_create_empty], [vbuffer_create_from] and [vbuffer_create_new] make
    a buffer with the content they are asked for, apart from every other one. *)

From S2P Require Import Prelude List2 VbHeap VbIter VbSub VbRep VbWalk VbFrame VbMut VbEdit.

(** A new block [vb_fresh s] that nothing refers to. *)
Definition add_data (body : vbuffer_data_body) (n : nat) (s : vbstate) : vbstate :=
  VB (vb_links s) (vb_chunks s) (<[vb_fresh s := Data 0 body]> (vb_datas s)) (vb_error s) n
     (Pos.succ (vb_fresh s)) (vb_junk s).

Section make.
Implicit Types s : vbstate.

Lemma heap_ok_add_data s body n : heap_ok s → vb_mem s = S n → heap_ok (add_data body n s).
Proof.
  intros Ok Em. pose proof Ok as [F1 F2 F3 R D Sm]. split; simpl.
  - intros x Hx. specialize (F1 x Hx). lia.
  - intros x Hx. specialize (F2 x Hx). lia.
  - intros x [y [[-> _]|[_ Hx]]%lookup_insert_Some]; [lia|].
    pose proof (F3 x (mk_is_Some _ _ Hx)). lia.
  - intros d dt [[<- <-]|[_ Hd]]%lookup_insert_Some; [|auto]. simpl.
    rewrite nrefs_zero; [done|]. intros c ch Hc Ed. destruct (D _ _ _ Hc Ed) as [dt Hd].
    pose proof (F3 _ (mk_is_Some _ _ Hd)). lia.
  - intros c ch d Hc Ed. destruct (D _ _ _ Hc Ed) as [dt Hd].
    destruct (decide (d = vb_fresh s)) as [->|?]; [rewrite lookup_insert_eq; eauto|].
    rewrite lookup_insert_ne by done. eauto.
  - lia.
Qed.

Lemma keeps_add_data s body n : heap_ok s → keeps [] s (add_data body n s).
Proof.
  intros Ok. split; simpl; try done; [|lia]. intros d [r b] c ch Hd _ _ _.
  pose proof (ho_fresh_data _ Ok _ (mk_is_Some _ _ Hd)).
  rewrite lookup_insert_ne by lia. eauto.
Qed.

Lemma runs_new_data s n body Q :
  vb_mem s = S n → Q (Some (vb_fresh s)) (add_data (body (vb_junk s)) n s) →
  runs (new_data body) s Q.
Proof.
  intros Em HQ. unfold new_data, malloc. eapply runs_bind, runs_eq; [by rewrite Em|].
  cbv beta. step. unfold wr_data. step. step. by step.
Qed.

(** An address that is taken for something that is not in the heap of buffers. *)
Definition take_address (n : nat) v : vbstate :=
  VB (vb_links v) (vb_chunks v) (vb_datas v) (vb_error v) n (Pos.succ (vb_fresh v)) (vb_junk v).

Lemma runs_malloc v n Q :
  vb_mem v = S n → Q (Some (vb_fresh v)) (take_address n v) → runs malloc v Q.
Proof. intros Em HQ. unfold malloc. eapply runs_eq; [by rewrite Em|]. done. Qed.

Lemma heap_ok_take v n : heap_ok v → vb_mem v = S n → heap_ok (take_address n v).
Proof.
  intros [F1 F2 F3 R D S] Em. split; simpl; try done; [| | |lia].
  - intros x Hx. specialize (F1 x Hx). lia.
  - intros x Hx. specialize (F2 x Hx). lia.
  - intros x Hx. specialize (F3 x Hx). lia.
Qed.

Lemma keeps_take v n : keeps [] v (take_address n v).
Proof. split; simpl; try done; [|lia]. intros d [r b] c ch Hd _ _ _. eauto. Qed.

(** The end chunk of a new buffer, linked to itself. *)
Definition add_end (writable : bool) (n : nat) s : vbstate :=
  set_links (<[vb_fresh s := Elem (Some (vb_fresh s)) (Some (vb_fresh s))]> (vb_links s))
    (add_chunk (Chunk 1 (Flags true true false writable true) None 0 0) n s).

Lemma runs_create_end s n w Q :
  vb_mem s = S n → Q (Some (vb_fresh s)) (add_end w n s) → runs (vbuffer_chunk_create_end w) s Q.
Proof.
  intros Em HQ. unfold vbuffer_chunk_create_end, malloc.
  eapply runs_bind, runs_eq; [by rewrite Em|]. cbv beta.
  call runs_wr_chunk. unfold list2_elem_init, lnk. step. step.
  call runs_upd_chunk; [apply lookup_insert_eq|]. unfold set_prev, set_next.
  apply runs_bind. step. apply runs_bind. eapply runs_rd_elem; [apply lookup_insert_eq|]. step.
  apply runs_bind. step. apply runs_bind. eapply runs_rd_elem; [apply lookup_insert_eq|]. step. step.
  match goal with |- Q _ ?s' => match type of HQ with Q _ ?s'' =>
    replace s' with s''; [done|] end end.
  unfold add_end, add_chunk, set_links, set_chunks, set_ref. simpl.
  by rewrite !insert_insert_eq.
Qed.

Lemma add_end_rep s w n :
  heap_ok s → vb_mem s = S n →
  let s' := add_end w n s in
  heap_ok s' ∧ buf_rep s' (vb_fresh s) [] ∧ keeps [] s s'.
Proof.
  intros Ok Em s'. set (ch := Chunk 1 (Flags true true false w true) None 0 0).
  assert (heap_ok (add_chunk ch n s)) as Ok1 by (by apply heap_ok_add_chunk).
  assert (same_out [vb_fresh s] (vb_links (add_chunk ch n s)) (vb_links s')) as Hs.
  { intros x Hx. simpl. destruct (decide (x = vb_fresh s)) as [->|?]; [exfalso; apply Hx; by left|].
    by rewrite !lookup_insert_ne. }
  split_and!.
  - eapply heap_ok_set_links; [done|exact Hs|]. intros x ->%list_elem_of_singleton. simpl. lia.
  - split; try done.
    + split; [by apply NoDup_singleton|]. simpl. unfold link, nxt, prv.
      rewrite !lookup_insert_eq. done.
    + exists ch. split; [apply lookup_insert_eq|]. by split.
    + by intros ? ? ?%elem_of_nil.
  - eapply (keeps_trans _ [vb_fresh s]); [done|apply keeps_add_chunk|by apply keeps_set_links|].
    intros y ->%list_elem_of_singleton. by right.
Qed.

(** A buffer that was just made with [k] allocations. *)
Record made (k : nat) s (bs : list Z) (e : loc) (cs : list seg) (s' : vbstate) : Prop := {
  mk_heap : heap_ok s';
  mk_rep : buf_rep s' e cs;
  mk_content : content s' cs = bs;
  mk_keeps : keeps [] s s';
  mk_writable : all_writable s' e cs;
  mk_fresh : ∀ x, x ∈ e :: cs.*1 → (vb_fresh s ≤ x)%positive;
  mk_error : vb_error s' = vb_error s;
  mk_mem : vb_mem s = (k + vb_mem s')%nat;
  mk_ctl : ∀ c ch, (c, ch) ∈ cs → fl_ctl (ch_flags ch) = false;
}.

Lemma runs_create_empty s Q :
  heap_ok s → vb_mem s ≠ 0%nat →
  (∀ e s', made 1 s [] e [] s' → Q (true, Some e) s') → runs vbuffer_create_empty s Q.
Proof.
  intros Ok Hm HQ. destruct (vb_mem s) as [|n] eqn:Em; [done|].
  unfold vbuffer_create_empty, vbuffer_init_. call runs_create_end; [done|]. step. apply HQ.
  destruct (add_end_rep s true n Ok Em) as (? & ? & ?). split; try done.
  - intros c ->%list_elem_of_singleton. eexists. split; [apply lookup_insert_eq|done].
  - by intros x ->%list_elem_of_singleton.
  - by intros c ch ?%elem_of_nil.
Qed.

(** The chunk of a new buffer on the block [d]. *)
Definition block_chunk (d : loc) (off len : Z) : vbuffer_chunk :=
  Chunk 1 (Flags false false false true false) (Some d) off len.

Lemma runs_create_from_data s n d r sz b off len Q :
  heap_ok s → vb_mem s = S (S n) → vb_datas s !! d = Some (Data r (vbuffer_data_basic_ops sz b)) →
  0 ≤ off → 0 ≤ len → off + len ≤ zlen b → off + len < 2 ^ 32 →
  (∀ e c s', made 2 s (zslice off len b) e [(c, block_chunk d off len)] s' → Q (true, Some e) s') →
  runs (vbuffer_create_from_data (Some d) off len) s Q.
Proof.
  intros Ok Em Hd Ho Hl Hb Hs HQ. unfold vbuffer_create_from_data.
  call runs_chunk_create; [done|done|by rewrite Hd|lia|lia|].
  set (ch := Chunk 1 _ _ _ _). set (c := vb_fresh s). set (s1 := add_chunk ch (S n) s).
  assert (heap_ok s1) as Ok1.
  { apply heap_ok_add_chunk; [done..|]. intros d' [= <-]. by rewrite Hd. }
  unfold vbuffer_init_. apply runs_bind. call runs_create_end; [done|]. step.
  destruct (add_end_rep s1 true n Ok1 eq_refl) as (Ok2 & R2 & K2).
  set (e := vb_fresh s1) in *. set (s2 := add_end true n s1) in *.
  unfold vbuffer_chunk_end. step.
  assert (c < e)%positive as Hce by (unfold e; simpl; lia).
  eapply runs_bind, runs_lnk.
  { eapply (list2_insert_spec _ e [] [] c); [apply (br_list _ _ _ R2)|]. simpl.
    rewrite lookup_insert_ne by lia. apply lookup_insert_eq. }
  intros _ l' (_ & Hl' & Hfr). step.
  assert (vb_chunks s2 !! c = Some ch) as Hc.
  { simpl. rewrite lookup_insert_ne by lia. apply lookup_insert_eq. }
  assert (vb_datas s2 !! d = Some (Data (r + 1) (vbuffer_data_basic_ops sz b))) as Hd2.
  { simpl. by rewrite lookup_alter_eq, Hd. }
  assert (basic_bytes s2 (Some d) = Some b) as Hbb by (unfold basic_bytes; simpl in *; by rewrite Hd2).
  assert (chunk_ok s2 ch) as Oc.
  { split; simpl; try done. intros _. split; [done|]. by exists b. }
  eapply (HQ e c). change (block_chunk d off len) with ch. split.
  - eapply heap_ok_set_links; [done|apply Hfr|]. simpl.
    intros x [->|[->|?%elem_of_nil]%elem_of_cons]%elem_of_cons; [| |done]; unfold e, c; simpl; lia.
  - destruct (br_end _ _ _ R2) as (ech & He & Oe). eapply buf_rep_relink; try done.
    + by intros x chx [= -> ->]%list_elem_of_singleton.
    + rewrite csize_cons, csize_nil. simpl. lia.
  - rewrite (content_same s2) by done. rewrite content_cons, content_nil, app_nil_r.
    unfold chunk_bytes. simpl (fl_ctl _). cbv iota. simpl (ch_data _). by rewrite Hbb.
  - assert (keeps [] s s2) as K.
    { eapply keeps_trans; [done|apply keeps_add_chunk|exact K2|]. by intros y ?%elem_of_nil. }
    eapply keeps_trans; [done|exact K|apply keeps_set_links, Hfr|]. simpl.
    intros x [->|[->|?%elem_of_nil]%elem_of_cons]%elem_of_cons; [| |done]; right; unfold e, c; simpl; lia.
  - intros x [->|[->|?%elem_of_nil]%elem_of_cons]%elem_of_cons; [| |done].
    + eexists. split; [apply lookup_insert_eq|done].
    + by exists ch.
  - intros x [->|[->|?%elem_of_nil]%elem_of_cons]%elem_of_cons; [| |done]; unfold e, c; simpl; lia.
  - done.
  - done.
  - by intros x chx [= _ ->]%list_elem_of_singleton.
Qed.

Lemma made_frame s s1 k bs e cs s' :
  heap_ok s → keeps [] s s1 → vb_error s1 = vb_error s → vb_mem s = S (vb_mem s1) →
  made k s1 bs e cs s' → made (S k) s bs e cs s'.
Proof.
  intros Ok K Ee Em [M1 M2 M3 M4 M5 M6 M7 M8]. pose proof (kp_fresh _ _ _ K). split; try done.
  - eapply keeps_trans; [done|done|done|]. by intros y ?%elem_of_nil.
  - intros x Hx. specialize (M6 x Hx). lia.
  - congruence.
  - lia.
Qed.

Lemma runs_create_from_at s n bs Q :
  heap_ok s → vb_mem s = S (S (S n)) → zlen bs < 2 ^ 32 →
  (∀ e c s', made 3 s bs e [(c, block_chunk (vb_fresh s) 0 (zlen bs))] s' → Q (true, Some e) s') →
  runs (vbuffer_create_from bs) s Q.
Proof.
  intros Ok Em Hl HQ. unfold vbuffer_create_from, vbuffer_data_basic.
  call runs_new_data; [done|]. pose proof (zlen_nonneg bs).
  set (junk := replicate _ _). set (d := vb_fresh s).
  assert (zlen junk = zlen bs) as Ej by (unfold junk, zlen; rewrite length_replicate; lia).
  unfold ptr_write. apply runs_bind. call runs_rd_data; [apply lookup_insert_eq|].
  cbn [dt_body]. rewrite bool_decide_true by (simpl; lia). step. unfold wr_data. step.
  cbn [fst snd dt_ref]. assert (zput 0 bs junk = bs) as ->.
  { unfold zput. rewrite zdrop_ge by lia. by rewrite ztake_0, app_nil_r. }
  set (body := vbuffer_data_basic_ops (zlen bs) bs).
  match goal with |- runs _ ?x _ => replace x with (add_data body (S (S n)) s) end.
  2:{ unfold add_data, set_datas. simpl. by rewrite insert_insert_eq. }
  eapply runs_create_from_data; [by apply heap_ok_add_data|done|apply lookup_insert_eq|lia..|].
  intros e c s' HM. rewrite zslice_full in HM. eapply HQ.
  eapply made_frame; [done|by apply keeps_add_data| | |exact HM]; done.
Qed.

Lemma runs_create_new_at s n size (zero : bool) Q :
  heap_ok s → vb_mem s = S (S (S n)) → 0 ≤ size < 2 ^ 32 →
  (∀ e c s', made 3 s (replicate (Z.to_nat size) (if zero then 0 else vb_junk s)) e
       [(c, block_chunk (vb_fresh s) 0 size)] s' → Q (true, Some e) s') →
  runs (vbuffer_create_new size zero) s Q.
Proof.
  intros Ok Em Hl HQ. unfold vbuffer_create_new, vbuffer_data_basic.
  call runs_new_data; [done|]. set (bs := replicate _ _) in *.
  assert (zlen bs = size) as Ej by (unfold bs, zlen; rewrite length_replicate; lia).
  eapply runs_create_from_data; [by apply heap_ok_add_data|done|apply lookup_insert_eq|lia..|].
  intros e c s' HM. rewrite <- Ej, zslice_full in HM. rewrite Ej in HM. eapply HQ.
  eapply made_frame; [done|by apply keeps_add_data| | |exact HM]; done.
Qed.

(** The same, for any chunks. *)
Lemma runs_create_from s n bs Q :
  heap_ok s → vb_mem s = S (S (S n)) → zlen bs < 2 ^ 32 →
  (∀ e cs s', made 3 s bs e cs s' → Q (true, Some e) s') →
  runs (vbuffer_create_from bs) s Q.
Proof. intros Ok Em Hl HQ. eapply runs_create_from_at; [done..|]. intros e c s'. apply HQ. Qed.

Lemma runs_create_new s n size (zero : bool) Q :
  heap_ok s → vb_mem s = S (S (S n)) → 0 ≤ size < 2 ^ 32 →
  (∀ e cs s', made 3 s (replicate (Z.to_nat size) (if zero then 0 else vb_junk s)) e cs s' →
     Q (true, Some e) s') →
  runs (vbuffer_create_new size zero) s Q.
Proof. intros Ok Em Hl HQ. eapply runs_create_new_at; [done..|]. intros e c s'. apply HQ. Qed.

(** Without memory for the block, the creation fails and the heap is as it was. *)
Lemma runs_create_from_nomem s bs Q :
  vb_mem s = 0%nat → Q (false, None) (raised "memory error" s) →
  runs (vbuffer_create_from bs) s Q.
Proof.
  intros Em HQ. unfold vbuffer_create_from, vbuffer_data_basic, new_data, malloc, error.
  apply runs_bind. eapply runs_bind, runs_eq; [by rewrite Em|]. cbv beta iota. step. step. by step.
Qed.
End make.

(** ** A concrete heap *)

Definition empty_state (mem : nat) : vbstate := VB ∅ ∅ ∅ None mem 1 85.

Lemma empty_heap_ok mem : Z.of_nat mem < 2 ^ 32 → heap_ok (empty_state mem).
Proof. intros Hm. split; simpl; try done; by intros x [y Hy]. Qed.
