(* ===== verification/VbCtl.v ===== *)
(** * Control chunks

    The insertion of a control chunk in a buffer and its removal: the bytes of the
    buffer stay as they are; the modified flag of a removed chunk goes to the next. *)

From S2P Require Import Prelude List2 VbHeap VbIter VbSub VbRep VbWalk VbFrame VbMut VbEdit VbClear VbMake.

(** A buffer without control chunks. *)
Definition no_ctl (cs : list seg) : Prop := ∀ c ch, (c, ch) ∈ cs → fl_ctl (ch_flags ch) = false.

(** ** Removing a control chunk *)

(** The modified flag [m] of a removed chunk goes to the next chunk. *)
Definition inherit (m : bool) (ch : vbuffer_chunk) : vbuffer_chunk :=
  set_modified (fl_modified (ch_flags ch) || m) ch.
Definition touch (m : bool) (cs : list seg) : list seg :=
  match cs with [] => [] | (c, ch) :: cs => (c, inherit m ch) :: cs end.

Section touch.
Implicit Types v : vbstate.

Lemma touch_fst m cs : (touch m cs).*1 = cs.*1.
Proof. by destruct cs as [|[??]]. Qed.
Lemma touch_chunk_at m e cs : chunk_at e (touch m cs) = chunk_at e cs.
Proof. unfold chunk_at. by rewrite touch_fst. Qed.
Lemma touch_csize m cs : csize (touch m cs) = csize cs.
Proof. by destruct cs as [|[??]]. Qed.
Lemma touch_content m v cs : content v (touch m cs) = content v cs.
Proof. by destruct cs as [|[??]]. Qed.

Lemma touch_in m cs c ch : (c, ch) ∈ touch m cs → ∃ ch0, (c, ch0) ∈ cs ∧ (ch = ch0 ∨ ch = inherit m ch0).
Proof.
  destruct cs as [|[c0 ch0] cs]; [by intros ?%elem_of_nil|]. simpl.
  intros [[= -> ->]|Hi]%elem_of_cons; [exists ch0|exists ch]; split; auto; [by left|by right].
Qed.

Lemma touch_false cs : touch false cs = cs.
Proof. destruct cs as [|[c [r [f1 f2 f3 f4 f5] d o z]] cs]; [done|]. simpl. unfold inherit. simpl. by rewrite orb_false_r. Qed.

Lemma touch_plain m cs : no_ctl cs → no_ctl (touch m cs).
Proof. intros Hp c ch (ch0 & Hi & [->| ->])%touch_in; by apply (Hp c ch0). Qed.

Lemma chunk_ok_inherit v m ch : chunk_ok v ch → chunk_ok v (inherit m ch).
Proof. by intros [? ? ? ? ? ?]; split. Qed.

(** The heap once the chunk after the removed one has inherited its flag. *)
Definition hand_over (m : bool) (n : loc) v : vbstate := set_chunks (alter (inherit m) n (vb_chunks v)) v.

Lemma hand_over_eq v m n nch :
  vb_chunks v !! n = Some nch → hand_over m n v = set_chunks (<[n := inherit m nch]> (vb_chunks v)) v.
Proof.
  intros Hn. unfold hand_over. f_equal. apply map_eq. intros x. destruct (decide (x = n)) as [->|Hx].
  - by rewrite lookup_alter_eq, lookup_insert_eq, Hn.
  - by rewrite lookup_alter_ne, lookup_insert_ne by done.
Qed.

Lemma hand_over_rep v m e l1 l2 :
  heap_ok v → buf_rep v e (l1 ++ l2) →
  heap_ok (hand_over m (chunk_at e l2) v) ∧ buf_rep (hand_over m (chunk_at e l2) v) e (l1 ++ touch m l2) ∧
  content (hand_over m (chunk_at e l2) v) (l1 ++ touch m l2) = content v (l1 ++ l2) ∧
  keeps [chunk_at e l2] v (hand_over m (chunk_at e l2) v).
Proof.
  intros Ok H. set (n := chunk_at e l2).
  assert (∃ nch, vb_chunks v !! n = Some nch) as [nch Hn].
  { destruct l2 as [|[c ch] l2]; [destruct (br_end _ _ _ H) as (ch & ? & _); eauto|].
    exists ch. eapply br_lookup; [exact H|]. apply elem_of_app. right. by left. }
  rewrite (hand_over_eq _ _ _ _ Hn).
  split_and!; [by eapply heap_ok_upd_chunk| | |by apply keeps_upd_chunk].
  2:{ by rewrite !content_app, touch_content. }
  destruct (br_end _ _ _ H) as (ech & He & Oe). destruct l2 as [|[c ch] l2].
  - simpl. apply buf_rep_upd_end; [done|].
    assert (nch = ech) as -> by (unfold n, chunk_at in Hn; simpl in Hn; congruence). by destruct Oe; split.
  - simpl. destruct (br_at _ _ _ _ _ _ H) as [Hc Oc]. change n with c in Hn |- *. simplify_eq.
    assert (c ≠ e) as Hce by (eapply (br_ne_end _ _ _ c nch H), elem_of_app; right; by left).
    destruct H as [L E C S]. split.
    + rewrite fmap_split in *. exact L.
    + exists ech. split; [|done]. simpl. by rewrite lookup_insert_ne.
    + intros x chx Hi. destruct (decide (x = c)) as [->|Hx].
      * assert (chx = inherit m nch) as ->.
        { apply elem_of_app in Hi as [Hi|[[= ->]|Hi]%elem_of_cons]; [|done|];
            exfalso; pose proof (dlist_nodup _ _ _ L) as Hnd; rewrite fmap_split in Hnd; simpl in Hnd;
            apply NoDup_cons in Hnd as [_ Hnd]; apply NoDup_app in Hnd as (_ & Hd & Hnd).
          - apply (Hd c); [|by left]. apply list_elem_of_fmap. by exists (c, chx).
          - apply NoDup_cons in Hnd as [Hnd _]. apply Hnd, list_elem_of_fmap. by exists (c, chx). }
        simpl. rewrite lookup_insert_eq. split; [done|].
        by apply (chunk_ok_same v), chunk_ok_inherit.
      * assert ((x, chx) ∈ l1 ++ (c, nch) :: l2) as Hi0.
        { rewrite elem_of_app, elem_of_cons in *. naive_solver. }
        destruct (C x chx Hi0). split; [simpl; by rewrite lookup_insert_ne|]. by apply (chunk_ok_same v).
    + rewrite csize_app, csize_cons in *. exact S.
Qed.

(** The heap after the removal of a chunk of a buffer. *)
Record removed v (e : loc) (l1 : list seg) (c : loc) (ch : vbuffer_chunk) (l2 : list seg) (v' : vbstate) : Prop := {
  rm_heap : heap_ok v';
  rm_buf : buf_rep v' e (l1 ++ touch (fl_modified (ch_flags ch)) l2);
  rm_content : content v' (l1 ++ touch (fl_modified (ch_flags ch)) l2) = content v (l1 ++ l2);
  rm_keeps : keeps (e :: c :: (l1 ++ l2).*1) v v';
  rm_chunks : ∀ x, x ≠ c → vb_chunks v' !! x =
    alter (inherit (fl_modified (ch_flags ch))) (chunk_at e l2) (vb_chunks v) !! x;
  rm_datas : ∀ d dt x chx, vb_datas v !! d = Some dt → x ≠ c → vb_chunks v !! x = Some chx →
    ch_data chx = Some d → ∃ r, vb_datas v' !! d = Some (Data r (dt_body dt));
  rm_mem : vb_mem v' = vb_mem v;
  rm_fresh : vb_fresh v' = vb_fresh v;
  rm_leak : no_leak v → no_leak v';
  rm_error : vb_error v' = vb_error v;
}.

Lemma runs_remove_ctl v e l1 c ch l2 Q :
  heap_ok v → buf_rep v e (l1 ++ (c, ch) :: l2) → fl_ctl (ch_flags ch) = true →
  (∀ v', removed v e l1 c ch l2 v' → Q (Some (chunk_at e l2)) v') →
  runs (vbuffer_chunk_remove_ctl c) v Q.
Proof.
  intros Ok H Hctl HQ. unfold vbuffer_chunk_remove_ctl. destruct (br_at v e l1 c ch l2 H) as [Hc _].
  call runs_rd_chunk; [exact Hc|]. rewrite Hctl. step. call (runs_chunk_next v e l1); [exact H|]. step.
  set (m := fl_modified (ch_flags ch)). set (n := chunk_at e l2).
  pose proof H as H0. rewrite cons_middle, app_assoc in H0.
  destruct (hand_over_rep v m e (l1 ++ [(c, ch)]) l2 Ok H0) as (Ok1 & H1 & C1 & K1). fold n in Ok1, H1, C1, K1.
  rewrite <- app_assoc in H1, C1. simpl in H1, C1.
  assert (n ∈ e :: l2.*1) as Hin.
  { unfold n, chunk_at. pose proof (at_head_in e l2.*1) as Hi. rewrite elem_of_app, list_elem_of_singleton in Hi.
    rewrite elem_of_cons. naive_solver. }
  assert (n ≠ c) as Hnc.
  { intros Enc. pose proof (dlist_nodup _ _ _ (br_list _ _ _ H)) as Hnd. rewrite fmap_split in Hnd. simpl in Hnd.
    apply NoDup_cons in Hnd as [He Hnd]. apply NoDup_app in Hnd as (_ & _ & Hnd). apply NoDup_cons in Hnd as [Hnd _].
    rewrite Enc in Hin. apply elem_of_cons in Hin as [->|?]; [|done]. apply He, elem_of_app. right. by left. }
  assert (∃ nch, vb_chunks v !! n = Some nch) as [nch Hn].
  { apply elem_of_cons in Hin as [->|([x chx] & E & Hi)%list_elem_of_fmap].
    - destruct (br_end _ _ _ H) as (? & ? & _). eauto.
    - exists chx. rewrite E. eapply br_lookup; [exact H|]. apply elem_of_app. right. by right. }
  call runs_upd_chunk; [exact Hn|].
  change (set_modified _ nch) with (inherit m nch). rewrite <- (hand_over_eq _ _ _ _ Hn).
  set (v1 := hand_over m n v) in *.
  call (runs_chunk_unlink v1 e l1 c ch (touch m l2)); [done|exact H1|].
  intros l v' Ok1' Ok' H' Hcont K' Hcl Hlk. step. apply HQ.
  assert (vb_chunks v1 !! c = Some ch) as Hc1 by (simpl; by rewrite lookup_alter_ne).
  split; try done.
  - fold m. etrans; [exact Hcont|]. rewrite !content_app. rewrite touch_content. by rewrite <- !content_app.
  - eapply keeps_trans; [done| |exact K'|].
    + eapply keeps_weaken; [exact K1|]. intros x ->%list_elem_of_singleton.
      rewrite fmap_app, !elem_of_cons, elem_of_app in *. naive_solver.
    + intros y Hy. left. rewrite fmap_split, touch_fst in Hy. rewrite fmap_app.
      rewrite !elem_of_cons, !elem_of_app, ?elem_of_cons in *. simpl in *. naive_solver.
  - intros x Hx. unfold v'. by rewrite drop_chunks_lookup by done.
  - intros d dt x chx Hd Hx Hcx Hdx. unfold v'. simpl.
    assert (∃ chx1, vb_chunks v1 !! x = Some chx1 ∧ ch_data chx1 = Some d) as (chx1 & Hx1 & Hdx1).
    { simpl. destruct (decide (x = n)) as [->|?].
      - rewrite lookup_alter_eq, Hcx. by eexists.
      - rewrite lookup_alter_ne by done. eauto. }
    by eapply (drop_data_kept (set_links l v1) c ch d x chx1).
  - intros Hnl. apply Hlk. intros d dt Hd. unfold v1. rewrite (hand_over_eq _ _ _ _ Hn). simpl.
    rewrite (nrefs_same _ n nch) by done. by apply (Hnl d dt).
Qed.
End touch.

(** ** Inserting a control chunk *)

Definition ctl_chunk (w : bool) (d : loc) : vbuffer_chunk := Chunk 1 (Flags false false false w true) (Some d) 0 0.

Record ctl_inserted v (e : loc) (l1 l2 : list seg) (c : loc) (ch : vbuffer_chunk) (d : loc) (v' : vbstate) : Prop := {
  ci_heap : heap_ok v';
  ci_buf : buf_rep v' e (l1 ++ (c, ch) :: l2);
  ci_content : ∀ k, (∀ x, x ∈ k → x ∈ l1 ++ l2) → content v' k = content v k;
  ci_chunk : ∃ w, ch = ctl_chunk w d;
  ci_new : c = vb_fresh v;
  ci_keeps : keeps (e :: (l1 ++ l2).*1) v v';
  ci_bodies : bodies_kept v v';
  ci_mem : vb_mem v = S (vb_mem v');
  ci_error : vb_error v' = vb_error v;
  ci_chunks : ∀ x, (x < vb_fresh v)%positive → vb_chunks v' !! x = vb_chunks v !! x;
}.

Section insert_ctl.
Implicit Types v : vbstate.

Lemma chunk_at_old v e l1 l2 : heap_ok v → buf_rep v e (l1 ++ l2) → (chunk_at e l2 < vb_fresh v)%positive.
Proof.
  intros Ok H. eapply br_fresh; [done|exact H|]. unfold chunk_at.
  pose proof (at_head_in e l2.*1) as Hi. rewrite fmap_app. rewrite elem_of_app, list_elem_of_singleton in Hi.
  rewrite elem_of_cons, elem_of_app. tauto.
Qed.

(** The chunk of the position, and the end chunk, are in the heap. *)
Lemma chunk_at_lookup v e l1 l2 : buf_rep v e (l1 ++ l2) → is_Some (vb_chunks v !! chunk_at e l2).
Proof.
  intros H. destruct l2 as [|[c ch] l2]; [destruct (br_end _ _ _ H) as (? & ? & _); by eexists|].
  exists ch. by destruct (br_at _ _ _ _ _ _ H).
Qed.

Lemma add_linked v e l1 l2 n ch l :
  heap_ok v → buf_rep v e (l1 ++ l2) → vb_mem v = S n → fl_end (ch_flags ch) = false → ch_ref ch = 1 →
  fl_ctl (ch_flags ch) = true → ch_size ch = 0 → ch_offset ch = 0 → (∃ d, ch_data ch = Some d ∧ is_Some (vb_datas v !! d)) →
  dlist l e (l1.*1 ++ vb_fresh v :: l2.*1) →
  frame (e :: vb_fresh v :: l1.*1 ++ l2.*1) (vb_links (add_chunk ch n v)) l →
  let v' := set_links l (add_chunk ch n v) in
  heap_ok v' ∧ buf_rep v' e (l1 ++ (vb_fresh v, ch) :: l2) ∧ keeps (e :: (l1 ++ l2).*1) v v'.
Proof.
  intros Ok H Em He Hr Hc Hs Ho (d & Ed & Hd) Hl [Hf _] v'.
  assert (heap_ok (add_chunk ch n v)) as Ok1 by (apply heap_ok_add_chunk; [done|done|]; intros ? ?; congruence).
  assert (∀ x, x ∈ e :: (l1 ++ l2).*1 → (x < vb_fresh v)%positive) as Hold by (intros x; by apply br_fresh).
  rewrite fmap_app in Hold.
  assert (heap_ok v') as Ok2.
  { eapply heap_ok_set_links; [done|exact Hf|]. intros x Hx. simpl.
    rewrite !elem_of_cons in Hx. destruct Hx as [->|[->|Hx]]; [|lia|].
    - specialize (Hold e ltac:(by left)). lia.
    - specialize (Hold x ltac:(by right)). lia. }
  split_and!; [done| |].
  - destruct (br_end _ _ _ H) as (ech & HE & Oe). eapply (buf_rep_relink (add_chunk ch n v) l e _ ech).
    + by rewrite fmap_split.
    + simpl. rewrite lookup_insert_ne; [done|]. specialize (Hold e ltac:(by left)). lia.
    + done.
    + intros x chx Hi. apply elem_mid in Hi as [[= -> ->]|Hi].
      * split; [simpl; apply lookup_insert_eq|]. split; [done|lia|lia|intros _; rewrite Ed; eauto|congruence|lia].
      * destruct (br_chunks _ _ _ H x chx Hi) as [Hx Ox]. split.
        -- simpl. rewrite lookup_insert_ne; [done|]. pose proof (ho_fresh_chunk _ Ok x ltac:(by eexists)). lia.
        -- eapply chunk_ok_kept; [|exact Ox]. intros dd dt _. apply bodies_add_chunk.
    + pose proof (br_small _ _ _ H). rewrite csize_app in *. rewrite csize_cons. simpl. lia.
  - eapply (keeps_trans _ (e :: vb_fresh v :: l1.*1 ++ l2.*1)); [done| |by apply keeps_set_links|].
    + eapply keeps_weaken; [apply keeps_add_chunk|]. by intros x ?%elem_of_nil.
    + intros y Hy. rewrite fmap_app. rewrite !elem_of_cons in Hy. rewrite elem_of_cons.
      destruct Hy as [->|[->|Hy]]; [by left; left|by right|by left; right].
Qed.

Lemma runs_insert_ctl v e l1 l2 d Q :
  heap_ok v → buf_rep v e (l1 ++ l2) → is_Some (vb_datas v !! d) → vb_mem v ≠ 0%nat →
  (∀ v' c ch, ctl_inserted v e l1 l2 c ch d v' → Q (Some c) v') →
  runs (vbuffer_chunk_insert_ctl (chunk_at e l2) d) v Q.
Proof.
  intros Ok H [dt Hd] Hm HQ. destruct (vb_mem v) as [|n] eqn:Em; [done|]. clear Hm.
  destruct (chunk_at_lookup _ _ _ _ H) as [ich Hins]. pose proof (chunk_at_old _ _ _ _ Ok H) as Hold.
  unfold vbuffer_chunk_insert_ctl, malloc. eapply runs_bind, runs_eq; [by rewrite Em|]. cbv beta.
  call runs_rd_chunk; [exact Hins|]. call runs_wr_chunk. unfold data_addref. apply runs_bind.
  call runs_rd_data; [exact Hd|]. unfold wr_data. step.
  call runs_upd_chunk; [apply lookup_insert_eq|]. unfold list2_elem_init, lnk at 1. step. step.
  erewrite (u32_succ v) by (done || lia). set (ch := ctl_chunk (fl_writable (ch_flags ich)) d).
  set (v2 := set_links _ _). assert (v2 = add_chunk ch n v) as ->.
  { unfold v2, add_chunk, ch, ctl_chunk. destruct v. unfold set_links, set_chunks, set_datas, set_ref. simpl in *.
    rewrite insert_insert_eq. wraps. f_equal. apply map_eq. intros x. destruct (decide (x = d)) as [->|?].
    - by rewrite lookup_alter_eq, lookup_insert_eq, Hd.
    - by rewrite lookup_alter_ne, lookup_insert_ne by done. }
  pose proof (br_list _ _ _ H) as Hl. rewrite fmap_app in Hl.
  assert (dlist (vb_links (add_chunk ch n v)) e (l1.*1 ++ l2.*1)) as Hl1.
  { eapply dlist_ext; [|exact Hl]. intros x Hx. unfold nxt, prv. simpl. rewrite lookup_insert_ne; [done|].
    pose proof (br_fresh _ _ _ x Ok H) as Hxf. rewrite fmap_app in Hxf. specialize (Hxf Hx). lia. }
  apply runs_bind. eapply runs_lnk; [eapply list2_insert_spec; [exact Hl1|apply lookup_insert_eq]|].
  intros r l (-> & Hl' & Hfr). step.
  destruct (add_linked v e l1 l2 n ch l) as (Ok' & H' & K'); try done; [exists d; by split|].
  apply (HQ _ _ ch). split; try done.
  - intros k Hk. etrans; [by apply (content_same (add_chunk ch n v))|]. apply content_kept. intros x chx Hi.
    eapply chunk_ok_kept; [|eapply br_ok; [exact H|by apply Hk]]. intros dd ddt _. apply bodies_add_chunk.
  - by eexists.
  - exact (bodies_add_chunk v ch n).
  - intros x Hx. simpl. by rewrite lookup_insert_ne by lia.
Qed.
End insert_ctl.
