(* ===== verification/VbRead.v ===== *)
(** * Reading sub-buffers (lib/haka/vbuffer.c)

    A sub-buffer denotes a range [p, q) of the content of its buffer. The block
    iterator [_vbuffer_sub_iterate] visits exactly that range, chunk after
    chunk, so that [vbuffer_sub_size] is its length and [vbuffer_sub_read] its
    bytes. *)

From S2P Require Import Prelude List2 VbHeap VbIter VbSub VbRep VbWalk VbFrame VbMut VbEdit.

(** ** The range a sub-buffer denotes *)

(** The two ends are in order: the end is after the beginning, or they are the
    same position. (Two different iterators of one position may be in any
    order, and the code only meets an end that is not before the beginning.) *)
Definition sub_range (e : loc) (cs : list seg) (data : vbuffer_sub) (p q : Z) : Prop :=
  match sb_begin data, sb_use_size data, sb_tail data with
  | Iter (Some c) o _ false, true, SubLength n =>
      pos_of e cs c o p ∧ 0 ≤ n < 2 ^ 32 ∧ q = (p + n) `min` csize cs
  | Iter (Some c) o _ false, false, SubEnd (Iter (Some c') o' _ false) =>
      pos_of e cs c o p ∧ pos_of e cs c' o' q ∧ (p < q ∨ c = c' ∧ o = o')
  | _, _, _ => False
  end.

(** ** Order of the fixed positions *)

Section order.
Implicit Types s : vbstate.

Lemma br_part_nonneg s e cs k : buf_rep s e cs → (∀ x, x ∈ k → x ∈ cs) → 0 ≤ csize k.
Proof.
  intros H Hi. eapply csize_nonneg. intros c ch Hk. eapply br_ok; [exact H|]. by apply (Hi (c, ch)).
Qed.

(** The first chunk that an offset does not run over is unique. *)
Lemma overrun_unique s e l1 lm k k2 o1 o2 :
  buf_rep s e (l1 ++ lm ++ k ++ k2) → csize lm + o1 = csize (lm ++ k) + o2 →
  (lm ++ k = [] ∨ 0 < o2) → match k ++ k2 with [] => o1 = 0 | x :: _ => o1 ≤ ch_size x.2 end →
  k = [].
Proof.
  intros H Es Hm Hl. destruct k as [|x k]; [done|]. exfalso. simpl in Hl.
  destruct Hm as [Hm|Hm]; [by destruct lm|].
  assert (0 ≤ csize k) as Hk.
  { eapply br_part_nonneg; [exact H|]. intros y. rewrite !elem_of_app, elem_of_cons. tauto. }
  rewrite csize_app, csize_cons in Es. lia.
Qed.

Lemma fixed_det s e cs c o c1 o1 c2 o2 :
  buf_rep s e cs → fixed e cs c o c1 o1 → fixed e cs c o c2 o2 → c1 = c2 ∧ o1 = o2.
Proof.
  intros H (l1 & lm & l2 & -> & Ec & -> & Eo & Hm & Ho & Hl)
    (k1 & km & k2 & E & Ec' & -> & Eo' & Hm' & Ho' & Hl').
  destruct (chunk_at_inj s e l1 (lm ++ l2) k1 (km ++ k2)) as [<- E2]; [done|done|congruence|].
  clear E. apply app_eq_inv in E2 as [(k & -> & ->)|(k & -> & ->)].
  - assert (k = []) as ->.
    { eapply (overrun_unique s e l1 km k l2 o2 o1); try done; [|lia]. by rewrite <- app_assoc in H. }
    rewrite app_nil_r in *. simpl. split; [done|lia].
  - assert (k = []) as ->.
    { eapply (overrun_unique s e l1 lm k k2 o1 o2); try done. lia. }
    rewrite app_nil_r in *. simpl. split; [done|lia].
Qed.

(** Positions in order are on chunks in order. *)
Lemma norm_pos_order s e cs c o p c' o' q :
  buf_rep s e cs → norm_pos e cs c o p → norm_pos e cs c' o' q → p < q →
  ∃ l1 lm l2, cs = l1 ++ lm ++ l2 ∧ c = chunk_at e (lm ++ l2) ∧ c' = chunk_at e l2 ∧
    p = csize l1 + o ∧ q = csize (l1 ++ lm) + o' ∧ end_in l2 o' ∧ (lm = [] → o ≤ o').
Proof.
  intros H Hp Hq Hlt. pose proof Hq as Hq0. pose proof (norm_pos_off _ _ _ _ _ _ H Hp).
  apply norm_pos_suffix in Hp as (l1 & l2 & -> & -> & -> & Ho).
  assert (∃ k1 k2, l1 ++ l2 = k1 ++ k2 ∧ c' = chunk_at e k2 ∧ q = csize k1 + o' ∧ end_in k2 o')
    as (k1 & k2 & E & -> & -> & He).
  { destruct Hq0 as [(k1 & ch & k2 & -> & -> & ?)|(-> & -> & ->)].
    - exists k1, ((c', ch) :: k2). split_and!; try done; simpl; lia.
    - exists (l1 ++ l2), []. rewrite app_nil_r. split_and!; try done; lia. }
  pose proof E as E'. apply app_eq_inv in E as [(k & -> & ->)|(k & -> & ->)].
  - destruct k as [|[c ch] k].
    + rewrite app_nil_r in *. exists k1, [], l2. rewrite app_nil_r. split_and!; try done; lia.
    + exfalso. simpl in He. destruct He as [_ He].
      rewrite <- app_assoc in H. destruct (br_size s e k1 c ch (k ++ l2)) as (?&?&?&?); [done|].
      assert (0 ≤ csize k) as Hk.
      { eapply br_part_nonneg; [exact H|]. intros y. rewrite !elem_of_app, elem_of_cons. tauto. }
      rewrite csize_app, csize_cons in *. simpl in *. lia.
  - exists l1, k, k2. split_and!; try done. intros ->. rewrite app_nil_r in *. lia.
Qed.
End order.

(** ** The block iterator *)

(** The iterator [it] of [data] stands at the offset [o] of the chunks [l2]. *)
Definition it_starts (e : loc) (cs : list seg) (data : vbuffer_sub) (it : vbuffer_sub_mmap)
    (l2 : list seg) (o : Z) : Prop :=
  match mm_data it with
  | None => ∃ c o0 m p, sb_begin data = Iter (Some c) o0 m false ∧ pos_of e cs c o0 p ∧
      fixed e cs c o0 (chunk_at e l2) o
  | Some c => c = chunk_at e l2 ∧ o = 0
  end.

(** There are [rem] bytes left from there to the end of [data]. *)
Definition it_left (e : loc) (cs : list seg) (data : vbuffer_sub) (it : vbuffer_sub_mmap)
    (l2 : list seg) (o rem : Z) : Prop :=
  if sb_use_size data then
    ∃ n, sb_tail data = SubLength n ∧
      let n := if mm_data it is None then n else mm_len it in
      0 ≤ n ∧ rem = n `min` (csize l2 - o)
  else
    ∃ c' o' m' q, sb_tail data = SubEnd (Iter (Some c') o' m' false) ∧ pos_of e cs c' o' q ∧
      ((mm_data it ≠ None ∧ mm_len it = 0 ∧ rem = 0) ∨
       ((mm_data it ≠ None → mm_len it = u32 (-1)) ∧
        ∃ lm k eo, l2 = lm ++ k ∧ fixed e cs c' o' (chunk_at e k) eo ∧ end_in k eo ∧
          (lm = [] → o ≤ eo) ∧ rem = csize lm - o + eo)).

Record cursor (e : loc) (cs : list seg) (data : vbuffer_sub) (it : vbuffer_sub_mmap)
    (l1 l2 : list seg) (o rem : Z) : Prop := {
  cu_split : cs = l1 ++ l2;
  cu_off : o = 0 ∨ ∃ c ch l, l2 = (c, ch) :: l ∧ 0 ≤ o ≤ ch_size ch;
  cu_starts : it_starts e cs data it l2 o;
  cu_left : it_left e cs data it l2 o rem;
}.

Section iterate.
Context (s : vbstate) (e : loc) (cs : list seg) (H : buf_rep s e cs).

#[local] Set Default Proof Using "H".

(** The first lines of [_vbuffer_sub_iterate] find the current chunk. *)
Lemma iterate_start data it l1 l2 o rem (Q : Z * vbuffer_sub_mmap → vbstate → Prop) :
  cursor e cs data it l1 l2 o rem →
  Q (o, Mmap (Some (chunk_at e l2))
       (if mm_data it is None then (if sb_use_size data then sub_length data else u32 (-1))
        else mm_len it) (mm_meter it)) s →
  runs (match mm_data it with
   | Some _ => ret (0, it)
   | None =>
       begin ← vbuffer_sub_begin data;
       '(offset, c) ← _vbuffer_iterator_fix begin;
       _ ← vbuffer_iterator_clear begin;
       ret (offset, Mmap (Some c) (if sb_use_size data then sub_length data else u32 (-1))
              (mm_meter it))
   end) s Q.
Proof.
  intros [-> Ho Hs _] HQ. unfold it_starts in Hs. destruct it as [[c|] len meter]; simpl in *.
  - destruct Hs as [-> ->]. by step.
  - destruct Hs as (c & o0 & m & p & Eb & Hp & Hf). unfold vbuffer_sub_begin. rewrite Eb.
    call runs_iter_copy; [exact H|exact Hp|]. call runs_fix; [exact H|exact Hp|].
    intros c1 o1 Hf1 _. destruct (fixed_det _ _ _ _ _ _ _ _ _ H Hf Hf1) as [<- <-].
    unfold vbuffer_iterator_clear. simpl. apply runs_bind. apply runs_bind. unfold skip. step. step. by step.
Qed.

(** What one step may do: stop when nothing is left, or give the part of the
    current chunk that is in the range and go on with the next chunk. *)
Definition iterates data it l1 l2 o rem (Q : option (loc * Z) * Z * vbuffer_sub_mmap → vbstate → Prop) : Prop :=
  (rem = 0 → ∀ it', mm_meter it' = mm_meter it → Q (None, 0, it') s) ∧
  (∀ c ch l2' it', l2 = (c, ch) :: l2' → mm_meter it' = mm_meter it →
     0 ≤ (ch_size ch - o) `min` rem →
     cursor e cs data it' (l1 ++ [(c, ch)]) l2' 0 (rem - (ch_size ch - o) `min` rem) →
     Q (Some (c, o), (ch_size ch - o) `min` rem, it') s).

Lemma iterate_step_size data it l1 l2 o rem Q :
  sb_use_size data = true → cursor e cs data it l1 l2 o rem →
  iterates data it l1 l2 o rem Q → runs (_vbuffer_sub_iterate data it) s Q.
Proof.
  intros Eu Hc [HN HS]. unfold _vbuffer_sub_iterate. call iterate_start; [done|].
  destruct Hc as [Ecs Ho _ Hr]. unfold it_left in Hr. rewrite Eu in *.
  destruct Hr as (n & Et & Hn & Hr). unfold sub_length. rewrite Et.
  set (len := if mm_data it is None then n else mm_len it) in *. cbn [mm_data mm_len mm_meter]. step.
  destruct l2 as [|[c ch] l2].
  - destruct (br_end _ _ _ H) as (ech & He & Oe). call runs_rd_chunk; [done|].
    rewrite (eo_end _ Oe). simpl. step. apply HN; [|done]. rewrite csize_nil in Hr.
    destruct Ho as [->|(?&?&?&[=]&_)]. lia.
  - pose proof H as H'. rewrite Ecs in H'.
    destruct (br_at _ _ _ _ _ _ H') as [Hch Oc]. destruct (br_size _ _ _ _ _ _ H') as (?&?&?&?).
    assert (0 ≤ o ≤ ch_size ch) as Ho'.
    { destruct Ho as [->|(?&?&?&[= <- <- <-]&?)]; [lia|done]. }
    rewrite csize_cons in Hr. simpl in Hr.
    assert (∀ len', (len' = len - (ch_size ch - o) ∧ ch_size ch - o ≤ len ∨ len' = 0 ∧ len < ch_size ch - o) →
      cursor e cs data (Mmap (Some (chunk_at e l2)) len' (mm_meter it)) (l1 ++ [(c, ch)]) l2 0
        (rem - (ch_size ch - o) `min` rem)) as Hnext.
    { intros len' Hlen. split; [by rewrite <- app_assoc|by left|done|].
      unfold it_left. rewrite Eu, Et. exists n. split; [done|]. simpl. lia. }
    call runs_rd_chunk; [done|]. rewrite (co_end _ _ Oc). simpl.
    case_test as E0; [step; apply HN; [lia|done]|].
    call runs_chunk_next; [done|]. rewrite bool_decide_true by lia. step. case_test as E1; step.
    + replace (ch_size ch - o) with ((ch_size ch - o) `min` rem) at 1 by lia.
      eapply HS; [done|done|lia|]. apply Hnext. lia.
    + replace len with ((ch_size ch - o) `min` rem) at 1 by lia.
      eapply HS; [done|done|lia|]. apply Hnext. lia.
Qed.

Lemma iterate_step_end data it l1 l2 o rem Q :
  sb_use_size data = false → cursor e cs data it l1 l2 o rem →
  iterates data it l1 l2 o rem Q → runs (_vbuffer_sub_iterate data it) s Q.
Proof.
  intros Eu Hc [HN HS]. unfold _vbuffer_sub_iterate. call iterate_start; [done|].
  destruct Hc as [Ecs Ho _ Hr]. unfold it_left in Hr. rewrite Eu in *.
  destruct Hr as (c' & o' & m' & q & Et & Hq & Hr). cbn [mm_data mm_len mm_meter]. step.
  destruct l2 as [|[c ch] l2].
  { destruct (br_end _ _ _ H) as (ech & He & Oe). call runs_rd_chunk; [done|].
    rewrite (eo_end _ Oe). simpl. step. apply HN; [|done].
    destruct Hr as [(_ & _ & ->)|(_ & lm & k & eo & E & Hf & [He0 Hek] & Hle & ->)]; [done|].
    symmetry in E. apply app_nil in E as [-> ->]. rewrite csize_nil.
    destruct Ho as [->|(?&?&?&[=]&_)]. lia. }
  pose proof H as H'. rewrite Ecs in H'.
  destruct (br_at _ _ _ _ _ _ H') as [Hch Oc]. destruct (br_size _ _ _ _ _ _ H') as (?&?&?&?).
  assert (0 ≤ o ≤ ch_size ch) as Ho'.
  { destruct Ho as [->|(?&?&?&[= <- <- <-]&?)]; [lia|done]. }
  call runs_rd_chunk; [done|]. rewrite (co_end _ _ Oc). simpl.
  destruct Hr as [(Hd & El & ->)|(Hlen & lm & k & eo & E & Hf & Hke & Hle & ->)].
  { destruct (mm_data it) eqn:Ed; [|done]. rewrite El. rewrite bool_decide_true by done.
    step. by apply HN. }
  assert ((if mm_data it is None then u32 (-1) else mm_len it) = u32 (-1)) as ->.
  { destruct (mm_data it); [by apply Hlen|done]. }
  rewrite bool_decide_false by done. call runs_chunk_next; [done|].
  rewrite bool_decide_true by lia. step. unfold sub_end. rewrite Et. step.
  call runs_fix; [exact H|exact Hq|]. intros c1 o1 Hf1 _.
  destruct (fixed_det _ _ _ _ _ _ _ _ _ H Hf Hf1) as [<- <-].
  destruct lm as [|[c0 ch0] lm]; simpl in E.
  - subst k. destruct Hke as [He0 Hek]. simpl in Hek. specialize (Hle eq_refl).
    rewrite bool_decide_true by done. rewrite bool_decide_false by lia. step.
    assert ((ch_size ch - o) `min` (csize [] - o + eo) = eo - o) as Em by (rewrite csize_nil; lia).
    rewrite <- Em. eapply HS; [done|done|lia|]. split; [by rewrite <- app_assoc|by left|done|].
    unfold it_left. rewrite Eu. exists c', o', m', q. split_and!; [done..|]. left.
    split_and!; [done..|]. rewrite Em, csize_nil. lia.
  - injection E as -> -> ->.
    assert (c0 ≠ chunk_at e k) as Hne.
    { intros Ec. destruct (chunk_at_inj s e l1 ((c0, ch0) :: lm ++ k) (l1 ++ (c0, ch0) :: lm) k) as [E _];
        [done|by rewrite <- app_assoc|done|].
      rewrite <- (app_nil_r l1) in E at 1. by apply app_inv_head in E. }
    rewrite bool_decide_false by done. step.
    assert (0 ≤ csize lm) as Hlm.
    { eapply br_part_nonneg; [exact H'|]. intros x. rewrite elem_of_app, elem_of_cons, elem_of_app. tauto. }
    destruct Hke as [He0 Hek].
    assert ((ch_size ch0 - o) `min` (csize ((c0, ch0) :: lm) - o + eo) = ch_size ch0 - o) as Em
      by (rewrite csize_cons; simpl; lia).
    rewrite <- Em. eapply HS; [done|done|lia|]. split; [by rewrite <- app_assoc|by left|done|].
    unfold it_left. rewrite Eu. exists c', o', m', q. split_and!; [done..|]. right.
    split; [done|]. exists lm, k, eo. split_and!; try done. rewrite Em, csize_cons. simpl. lia.
Qed.

Lemma iterate_step data it l1 l2 o rem Q :
  cursor e cs data it l1 l2 o rem →
  iterates data it l1 l2 o rem Q → runs (_vbuffer_sub_iterate data it) s Q.
Proof.
  destruct (sb_use_size data) eqn:Eu; [by apply iterate_step_size|by apply iterate_step_end].
Qed.

Lemma cursor_rem data it l1 l2 o rem :
  cursor e cs data it l1 l2 o rem → 0 ≤ rem ≤ csize l2 - o.
Proof.
  intros [Ecs Ho _ Hr]. pose proof H as H'. rewrite Ecs in H'. destruct (br_parts _ _ _ _ H') as (_ & H2 & _).
  assert (o ≤ csize l2) as Hoc.
  { destruct Ho as [->|(c & ch & l & -> & Ho)]; [done|].
    destruct (br_size _ _ _ _ _ _ H') as (?&?&?&?). rewrite csize_cons. simpl. lia. }
  unfold it_left in Hr. destruct (sb_use_size data).
  - destruct Hr as (n & _ & Hn & ->). lia.
  - destruct Hr as (c' & o' & m' & q & _ & _ & [(_ & _ & ->)|(_ & lm & k & eo & -> & _ & [He0 Hek] & Hle & ->)]);
      [lia|]. 
    assert (0 ≤ csize lm) as Hlm.
    { eapply br_part_nonneg; [exact H'|]. intros x. rewrite !elem_of_app. tauto. }
    assert (eo ≤ csize k) as Hk.
    { destruct k as [|[c ch] k]; [by rewrite csize_nil; lia|]. simpl in Hek.
      assert (0 ≤ csize k).
      { eapply br_part_nonneg; [exact H'|]. intros x. rewrite !elem_of_app, elem_of_cons. tauto. }
      rewrite csize_cons. simpl. lia. }
    rewrite csize_app. split; [|lia]. destruct lm as [|[c ch] lm]; [specialize (Hle eq_refl); rewrite csize_nil; lia|].
    destruct Ho as [->|(?&?&?&[= <- <- <-]&?)]; [lia|].
    assert (0 ≤ csize lm).
    { eapply br_part_nonneg; [exact H'|]. intros x. rewrite !elem_of_app, elem_of_cons. tauto. }
    rewrite csize_cons. simpl. lia.
Qed.
End iterate.

(** ** Reading *)

#[local] Arguments basic_bytes : simpl never.

Section read.
Context (s : vbstate) (e : loc) (cs : list seg) (H : buf_rep s e cs).

#[local] Set Default Proof Using "H".

(** The bytes of a part of a chunk, in the block and in the content. *)
Lemma chunk_slice l1 c ch l2 o n d b :
  cs = l1 ++ (c, ch) :: l2 → fl_ctl (ch_flags ch) = false → ch_data ch = Some d →
  basic_bytes s (Some d) = Some b → 0 ≤ o → 0 ≤ n → o + n ≤ ch_size ch →
  zslice (csize l1 + o) n (content s cs) = zslice (ch_offset ch + o) n b.
Proof.
  intros E Ec Ed Hb Ho Hn Hle. pose proof H as H'. rewrite E in H'.
  destruct (br_at _ _ _ _ _ _ H') as [_ Oc].
  assert (zlen (content s l1) = csize l1) as El.
  { apply content_len. intros c' ch' Hi. eapply br_ok; [exact H'|]. apply elem_of_app. by left. }
  destruct (br_size _ _ _ _ _ _ H') as (?&?&?&?).
  pose proof (chunk_bytes_len _ _ Oc) as Elc. destruct (co_data _ _ Oc Ec) as (Hof & _).
  rewrite E, content_app, content_cons. simpl. unfold zslice at 1.
  rewrite zdrop_app_ge by lia. rewrite El. replace (csize l1 + o - csize l1) with o by lia.
  rewrite zdrop_app_le by lia. rewrite ztake_app_le by (rewrite zlen_zdrop; lia).
  unfold chunk_bytes. rewrite Ec, Ed, Hb. simpl. unfold zslice.
  rewrite zdrop_ztake by lia. rewrite ztake_ztake by lia. by rewrite zdrop_zdrop by lia.
Qed.

(** An access for writing marks the chunk. *)
Definition marked (write : bool) (c : loc) (ch : vbuffer_chunk) : vbstate :=
  if write then set_chunks (<[c := set_modified true ch]> (vb_chunks s)) s else s.

Lemma runs_get_data write c ch d b Q :
  vb_chunks s !! c = Some ch → fl_ctl (ch_flags ch) = false → ch_data ch = Some d →
  basic_bytes s (Some d) = Some b → (write = true → fl_writable (ch_flags ch) = true) →
  Q (Some (d, 0 + ch_offset ch)) (marked write c ch) →
  runs (vbuffer_chunk_get_data c write) s Q.
Proof.
  intros Hc Ec Ed Hb Hw HQ. unfold vbuffer_chunk_get_data.
  assert (∀ P : bool → vbstate → Prop, P true s →
    runs (if write then vbuffer_chunk_check_writeable c else ret true) s P) as Hchk.
  { intros P HP. destruct write; [|by step]. unfold vbuffer_chunk_check_writeable.
    call runs_rd_chunk; [exact Hc|]. rewrite Hw by done. by step. }
  call Hchk. simpl. call runs_rd_chunk; [done|]. rewrite Ec. step. rewrite Ed. step. unfold data_get.
  unfold basic_bytes in Hb. simpl in Hb.
  destruct (vb_datas s !! d) as [dt|] eqn:Hd; [|done]. simpl in Hb.
  apply runs_bind. call runs_rd_data; [done|]. step. destruct (dt_body dt); try done.
  destruct write; [call runs_upd_chunk; [exact Hc|]|unfold skip; step]; by step.
Qed.

(** The block [vbuffer_mmap] gives, the iterator and the heap it leaves. *)
Definition next_block (write : bool) data (l1 l2 : list seg) (o rem : Z)
    (r : option (loc * Z * Z * vbuffer_iterator)) (it' : vbuffer_sub_mmap) (s' : vbstate) : Prop :=
  match r with
  | None => rem = 0 ∧ s' = s
  | Some (d, a, len, _) =>
      ∃ l1' c ch l2' o' b, cs = l1' ++ (c, ch) :: l2' ∧ csize l1' + o' = csize l1 + o ∧
        (length l2' < length l2)%nat ∧ 0 ≤ o' ∧ 0 < len ∧ len ≤ rem ∧ o' + len ≤ ch_size ch ∧
        fl_ctl (ch_flags ch) = false ∧ ch_data ch = Some d ∧ basic_bytes s (Some d) = Some b ∧
        a = ch_offset ch + o' ∧ cursor e cs data it' (l1' ++ [(c, ch)]) l2' 0 (rem - len) ∧
        (o' + len = ch_size ch ∨ rem = len) ∧ s' = marked write c ch
  end.

(** What [*len] holds, and where the block begins. *)
Definition block_at (l1 : list seg) (o : Z) (r : option (loc * Z * Z * vbuffer_iterator)) (n : Z) : Prop :=
  match r with
  | None => n = 0
  | Some (_, _, len, p) => n = len ∧ ∃ c o' m, p = Iter (Some c) o' m false ∧ pos_of e cs c o' (csize l1 + o)
  end.

Lemma block_at_move l1 l1' o o' r n : csize l1' + o' = csize l1 + o → block_at l1' o' r n → block_at l1 o r n.
Proof using. unfold block_at. by intros ->. Qed.

Lemma cursor_meter data it l1 l2 o rem m :
  cursor e cs data it l1 l2 o rem → cursor e cs data (Mmap (mm_data it) (mm_len it) m) l1 l2 o rem.
Proof. intros [? ? ? ?]. by split. Qed.

Lemma mmap_blocks_spec write data : (write = true → all_writable s e cs) → ∀ l2 l1 fuel it o rem Q,
  cursor e cs data it l1 l2 o rem → (length l2 ≤ fuel)%nat →
  (∀ r n it' s', next_block write data l1 l2 o rem r it' s' → block_at l1 o r n → Q (r, n, it') s') →
  runs (mmap_blocks fuel data write it) s Q.
Proof.
  intros Hw.
  induction l2 as [|[c ch] l2 IH]; intros l1 fuel it o rem Q Hc Hf HQ.
  - destruct fuel; simpl; (call iterate_step; [exact H|exact Hc|]; split;
      [intros -> it' _; step; by apply HQ|by intros]).
  - destruct fuel as [|fuel]; simpl in Hf; [lia|]. simpl. pose proof (cu_split _ _ _ _ _ _ _ _ Hc) as Ecs.
    pose proof H as H'. rewrite Ecs in H'. destruct (br_at _ _ _ _ _ _ H') as [Hch Oc].
    assert (0 ≤ o ≤ ch_size ch) as Ho'.
    { pose proof (co_size _ _ Oc). destruct (cu_off _ _ _ _ _ _ _ _ Hc) as [->|(?&?&?&[= <- <- <-]&?)]; lia. }
    call iterate_step; [exact H|exact Hc|]. split; [intros -> it' _; step; by apply HQ|].
    intros c0 ch0 l2' it' [= <- <- <-] _ Hpos Hc'. call runs_rd_chunk; [done|].
    set (len := (ch_size ch - o) `min` rem) in *.
    destruct (fl_ctl (ch_flags ch) || bool_decide (len = 0)) eqn:Et.
    + assert (len = 0) as Hz.
      { apply orb_true_iff in Et as [Et|Et]; [|by apply bool_decide_eq_true in Et].
        pose proof (cursor_rem _ _ _ H _ _ _ _ _ _ Hc). destruct (co_ctl _ _ Oc Et). lia. }
      rewrite Hz, Z.sub_0_r in Hc'. destruct (decide (rem = 0)) as [->|Hr].
      * eapply (IH (l1 ++ [(c, ch)])); [exact Hc'|lia|]. intros r n it2 s2 Hn Hat.
        destruct r as [[[[d a] len'] p]|]; [|by apply HQ]. simpl in *.
        destruct Hn as (l1' & c1 & ch1 & l2' & o' & b & ? & ? & ? & ? & ? & ? & ?). lia.
      * assert (csize (l1 ++ [(c, ch)]) + 0 = csize l1 + o) as Emv.
        { rewrite csize_app, csize_cons, csize_nil. simpl. pose proof (cursor_rem _ _ _ H _ _ _ _ _ _ Hc). lia. }
        eapply (IH (l1 ++ [(c, ch)])); [exact Hc'|lia|]. intros r n it2 s2 Hn Hat.
        apply HQ; [|by eapply block_at_move].
        destruct r as [[[[d a] len'] p]|]; [|done]. simpl in Hn |- *.
        destruct Hn as (l1' & c1 & ch1 & l2' & o' & b & E1 & E2 & E3 & Hn).
        exists l1', c1, ch1, l2', o', b. split; [done|]. split; [lia|split; [lia|exact Hn]].
    + apply orb_false_iff in Et as [Ec E0%bool_decide_eq_false].
      destruct (co_data _ _ Oc Ec) as (Hof & b & Hb & Hbl).
      destruct (basic_bytes_some _ _ _ Hb) as [d Ed]. rewrite Ed in Hb.
      call runs_get_data; [done..| |].
      { intros Hwr. destruct (Hw Hwr c) as (chw & Hcw & ?); [|by simplify_eq].
        right. rewrite Ecs, fmap_split. apply elem_of_app. right. by left. }
      rewrite bool_decide_true by lia. step. step. destruct (br_size _ _ _ _ _ _ H') as (?&?&?&?). apply HQ.
      * simpl. exists l1, c, ch, l2, o, b. split_and!; try done; try by apply cursor_meter.
        all: unfold len in *; simpl; lia.
      * simpl. split; [done|]. pose proof (co_small _ _ Oc). exists c, (u32 o), (mm_meter it'). split; [done|]. left.
        exists l1, ch, l2. rewrite u32_small by lia. rewrite Ecs, csize_app, csize_cons. simpl. split_and!; [done..|lia|lia].
Qed.

Lemma runs_mmap_len write data l2 l1 it o rem Q :
  (write = true → all_writable s e cs) → cursor e cs data it l1 l2 o rem →
  (∀ r n it' s', next_block write data l1 l2 o rem r it' s' → block_at l1 o r n → Q (r, n, it') s') →
  runs (vbuffer_mmap_len data write it) s Q.
Proof.
  intros Hw Hc HQ. unfold vbuffer_mmap_len. call runs_chunk_fuel.
  pose proof (br_fuel _ _ _ H) as Hf. rewrite (cu_split _ _ _ _ _ _ _ _ Hc), length_app in Hf.
  destruct it as [[c|] len m]; cbn [mm_data mm_len]; (eapply (mmap_blocks_spec write data Hw l2 l1); [|lia|exact HQ]); [done|].
  exact (cursor_meter _ _ _ _ _ _ _ Hc).
Qed.

Lemma runs_mmap write data l2 l1 it o rem Q :
  (write = true → all_writable s e cs) → cursor e cs data it l1 l2 o rem →
  (∀ r it' s', next_block write data l1 l2 o rem r it' s' → Q (r, it') s') →
  runs (vbuffer_mmap data write it) s Q.
Proof.
  intros Hw Hc HQ. unfold vbuffer_mmap. call runs_mmap_len; [exact Hw|exact Hc|]. intros r n it' s' Hn _. step. by apply HQ.
Qed.

Lemma read_loop_spec data : ∀ fuel l2 l1 it o rem size dst Q,
  cursor e cs data it l1 l2 o rem → (length l2 ≤ fuel)%nat → 0 ≤ size → 0 ≤ o →
  Q (dst ++ zslice (csize l1 + o) (size `min` rem) (content s cs)) s →
  runs (read_loop fuel data it size dst) s Q.
Proof.
  induction fuel as [|fuel IH]; intros l2 l1 it o rem size dst Q Hc Hf Hs Ho HQ;
    pose proof (cursor_rem _ _ _ H _ _ _ _ _ _ Hc) as Hr; simpl.
  - case_test as E0; [step; replace (size `min` rem) with 0 in HQ by lia;
      by rewrite zslice_0, app_nil_r in HQ|].
    call runs_mmap; [done|done|]. intros [[[[d a] len] p]|] it' s' Hn; simpl in Hn.
    + destruct Hn as (l1' & c & ch & l2' & o' & b & _ & _ & ? & _). lia.
    + destruct Hn as [-> ->]. step. rewrite Z.min_r, zslice_0, app_nil_r in HQ by lia. done.
  - case_test as E0; [step; replace (size `min` rem) with 0 in HQ by lia;
      by rewrite zslice_0, app_nil_r in HQ|].
    call runs_mmap; [done|done|]. intros [[[[d a] len] p]|] it' s' Hn; simpl in Hn.
    2:{ destruct Hn as [-> ->]. step. rewrite Z.min_r, zslice_0, app_nil_r in HQ by lia. done. }
    destruct Hn as (l1' & c & ch & l2' & o' & b & E & Ep & Hlt & Ho' & Hl & Hlr & Hle & Ec & Ed & Hb & -> & Hc' & Hend & ->).
    replace (if bool_decide (len > size) then size else len) with (len `min` size)
      by (case_bool_decide; lia).
    pose proof H as H'. rewrite E in H'. destruct (br_at _ _ _ _ _ _ H') as [_ Oc].
    destruct (co_data _ _ Oc Ec) as (Hof & b' & Hb' & Hbl). rewrite Ed, Hb in Hb'. injection Hb' as <-.
    unfold ptr_read. apply runs_bind. unfold basic_bytes in Hb. simpl in Hb.
    destruct (vb_datas s !! d) as [dt|] eqn:Hd; [|done]. simpl in Hb.
    call runs_rd_data; [done|]. destruct (dt_body dt) eqn:Ebody; try done. injection Hb as ->.
    rewrite bool_decide_true by (simpl; lia). step. step. cbn [fst snd].
    destruct (br_size _ _ _ _ _ _ H') as (?&?&?&?).
    destruct (decide (size ≤ len)) as [Hsl|Hsl].
    + rewrite Z.min_r in * by lia. rewrite Z.sub_diag.
      assert (runs (read_loop fuel data it' 0 (dst ++ zslice (ch_offset ch + o') size b)) s Q); [|done].
      destruct fuel; simpl; step; rewrite <- (chunk_slice l1' c ch l2' o' size d b) by
        (try done; try lia; unfold basic_bytes; simpl; rewrite Hd; simpl; by rewrite Ebody);
        rewrite Ep; by rewrite Z.min_l in HQ by lia.
    + rewrite Z.min_l by lia. eapply (IH l2'); [exact Hc'|lia|lia|lia|].
      rewrite <- (chunk_slice l1' c ch l2' o' len d b) by
        (try done; try lia; unfold basic_bytes; simpl; rewrite Hd; simpl; by rewrite Ebody).
      rewrite <- app_assoc, Ep. rewrite csize_app, csize_cons, csize_nil. simpl.
      replace (size `min` rem) with (len + (size `min` rem - len)) in HQ by lia.
      rewrite zslice_split in HQ by lia.
      replace ((size - len) `min` (rem - len)) with (size `min` rem - len) by lia.
      destruct Hend as [Hend|Hend].
      * replace (csize l1' + (ch_size ch + 0) + 0) with (csize l1 + o + len) by lia. done.
      * replace (size `min` rem - len) with 0 in HQ |- * by lia. by rewrite !zslice_0 in *.
Qed.
End read.

(** ** Sub-buffers as ranges *)

Section range.
Context (s : vbstate) (e : loc) (cs : list seg) (H : buf_rep s e cs).

#[local] Set Default Proof Using "H".

Lemma fixed_exists c o p :
  pos_of e cs c o p → ∃ c' o', fixed e cs c o c' o' ∧ norm_pos e cs c' o' p.
Proof.
  intros Hp.
  destruct (runs_fix s e cs c o p 0 false (λ r _, fixed e cs c o r.2 r.1 ∧ norm_pos e cs r.2 r.1 p))
    as ([o' c'] & s' & _ & HQ); [done..|]. by exists c', o'.
Qed.

Lemma norm_suffix_end c o p :
  norm_pos e cs c o p →
  ∃ l1 l2, cs = l1 ++ l2 ∧ c = chunk_at e l2 ∧ p = csize l1 + o ∧ 0 ≤ o ∧ end_in l2 o ∧
    (o = 0 ∨ ∃ c ch l, l2 = (c, ch) :: l ∧ 0 ≤ o ≤ ch_size ch).
Proof.
  intros [(l1 & ch & l2 & -> & -> & Ho)|(-> & -> & ->)].
  - exists l1, ((c, ch) :: l2). split_and!; try done; try lia. right. by eexists _, _, _.
  - exists cs, []. rewrite app_nil_r. split_and!; try done; try lia.
Qed.

Lemma range_cursor data p q :
  sub_range e cs data p q →
  ∃ l1 l2 o, cursor e cs data vbuffer_mmap_init l1 l2 o (q - p) ∧ csize l1 + o = p ∧ 0 ≤ o.
Proof.
  unfold sub_range. destruct data as [[[c|] o m [|]] [|] [[[c'|] o' m' [|]]|n]]; simpl; try done.
  - intros (Hp & Hn & ->). pose proof (pos_of_range _ _ _ _ _ _ H Hp).
    destruct (fixed_exists _ _ _ Hp) as (c1 & o1 & F1 & N1).
    destruct (norm_suffix_end _ _ _ N1) as (l1 & l2 & E & -> & -> & Ho & _ & Hl).
    exists l1, l2, o1. split; [|done]. split; [done|done| |].
    + by exists c, o, m, (csize l1 + o1).
    + exists n. simpl. split_and!; try done; try lia. rewrite E, csize_app in *. lia.
  - intros (Hp & Hq & Hlt). destruct (fixed_exists _ _ _ Hp) as (c1 & o1 & F1 & N1).
    destruct (fixed_exists _ _ _ Hq) as (c2 & o2 & F2 & N2).
    destruct Hlt as [Hlt|[<- <-]].
    + destruct (norm_suffix_end _ _ _ N1) as (k1 & k2 & Ek & Ec1 & Ep & Ho & _ & Hl).
      destruct (norm_pos_order _ _ _ _ _ _ _ _ _ H N1 N2 Hlt)
        as (l1 & lm & l2 & E & Ec & -> & -> & -> & He & Hle).
      destruct (chunk_at_inj s e k1 k2 l1 (lm ++ l2)) as [<- ->]; [by rewrite <- Ek|congruence|congruence|].
      exists k1, (lm ++ l2), o1. split; [|done]. split; [done|done| |].
      * exists c, o, m, (csize k1 + o1). simpl. by rewrite <- Ec.
      * exists c', o', m', (csize (k1 ++ lm) + o2). split_and!; [done..|]. right. split; [done|].
        exists lm, l2, o2. split_and!; try done. rewrite csize_app. lia.
    + destruct (fixed_det _ _ _ _ _ _ _ _ _ H F1 F2) as [<- <-].
      destruct (norm_suffix_end _ _ _ N1) as (l1 & l2 & E & -> & -> & Ho & He & Hl).
      assert (q = csize l1 + o1) as ->.
      { destruct (norm_suffix_end _ _ _ N2) as (k1 & k2 & Ek & Ec & -> & _).
        destruct (chunk_at_inj s e l1 l2 k1 k2) as [<- _]; [by rewrite <- E|congruence|done|done]. }
      exists l1, l2, o1. split; [|done]. split; [done|done| |].
      * by exists c, o, m, (csize l1 + o1).
      * exists c, o, m', (csize l1 + o1). split_and!; [done..|]. right. split; [done|].
        exists [], l2, o1. split_and!; try done. rewrite csize_nil. lia.
Qed.

Lemma runs_sub_check data p q Q :
  sub_range e cs data p q → Q true s → runs (_vbuffer_sub_check data) s Q.
Proof.
  unfold sub_range, _vbuffer_sub_check. destruct data as [[[c|] o m [|]] [|] [[[c'|] o' m' [|]]|n]]; simpl; try done.
  - intros (Hp & _) HQ. call runs_iter_check; [exact H|exact Hp|]. simpl. by step.
  - intros (Hp & Hq & _) HQ. call runs_iter_check; [exact H|exact Hp|]. simpl. unfold sub_end. simpl. step.
    eapply runs_iter_check; [exact H|exact Hq|done].
Qed.

Lemma runs_sub_read data p q size Q :
  sub_range e cs data p q → 0 ≤ size →
  Q (zslice p (size `min` (q - p)) (content s cs)) s →
  runs (vbuffer_sub_read data size) s Q.
Proof.
  intros Hr Hs HQ. unfold vbuffer_sub_read. call runs_sub_check; [done|]. simpl. call runs_chunk_fuel.
  destruct (range_cursor _ _ _ Hr) as (l1 & l2 & o & Hc & <- & Ho).
  eapply read_loop_spec; [exact H|exact Hc| |done|done|done].
  pose proof (br_fuel _ _ _ H) as Hf. rewrite (cu_split _ _ _ _ _ _ _ _ Hc), length_app in Hf. lia.
Qed.

Lemma runs_check_available_end c o m c' o' m' p q minsize Q :
  pos_of e cs c o p → pos_of e cs c' o' q → (p < q ∨ c = c' ∧ o = o') → 0 < minsize →
  Q (bool_decide (minsize ≤ q - p), Some (minsize `min` (q - p))) s →
  runs (_vbuffer_iterator_check_available (Iter (Some c) o m false)
          (Some (Iter (Some c') o' m' false)) minsize) s Q.
Proof.
  intros Hp Hq Hlt Hm HQ. unfold _vbuffer_iterator_check_available.
  pose proof (range_cursor (Sub (Iter (Some c) o m false) false (SubEnd (Iter (Some c') o' m' false))) p q)
    as (l1 & l2 & oo & [E Ho Hs Hl] & Ep & Hoo); [by split_and!|].
  destruct Hs as (? & ? & ? & ? & [= <- <- <-] & _ & F1).
  destruct Hl as (? & ? & ? & ? & [= <- <- <-] & _ & [(Hno & _)|(_ & lm & k & eo & -> & F2 & He & Hle & Er)]);
    [done|].
  call runs_iter_check; [exact H|exact Hp|]. simpl. rewrite bool_decide_false by lia.
  call runs_fix; [exact H|exact Hp|]. intros c1 o1 F1' _.
  destruct (fixed_det _ _ _ _ _ _ _ _ _ H F1 F1') as [<- <-].
  call runs_iter_check; [exact H|exact Hq|]. simpl.
  call runs_fix; [exact H|exact Hq|]. intros c2 o2 F2' _.
  destruct (fixed_det _ _ _ _ _ _ _ _ _ H F2 F2') as [<- <-]. call runs_chunk_fuel.
  rewrite Er in HQ. pose proof H as H'. rewrite E in H'. destruct (br_parts _ _ _ _ H') as (? & ? & ?).
  eapply (available_loop_spec s e _ _ _ _ lm l1 k); try done.
  - pose proof (br_fuel _ _ _ H) as Hf. rewrite E, length_app in Hf. lia.
  - by left.
Qed.

Lemma runs_sub_size data p q Q :
  sub_range e cs data p q → Q (q - p) s → runs (vbuffer_sub_size data) s Q.
Proof.
  intros Hr HQ. unfold vbuffer_sub_size, vbuffer_sub_check_size. apply runs_bind.
  call runs_sub_check; [done|]. pose proof (br_small _ _ _ H). pose proof (br_nonneg _ _ _ H).
  unfold sub_range in Hr. destruct data as [[[c|] o m [|]] [|] [[[c'|] o' m' [|]]|n]]; simpl in *; try done.
  - destruct Hr as (Hp & Hn & ->). pose proof (pos_of_range _ _ _ _ _ _ H Hp).
    unfold sub_length. simpl.
    eapply runs_check_available; [exact H|exact Hp|lia|]. step. simpl.
    by replace (n `min` (csize cs - p)) with ((p + n) `min` csize cs - p) by lia.
  - destruct Hr as (Hp & Hq & Hlt). pose proof (pos_of_range _ _ _ _ _ _ H Hp).
    pose proof (pos_of_range _ _ _ _ _ _ H Hq). unfold sub_end. simpl. step.
    eapply runs_check_available_end; [exact Hp|exact Hq|done|done|]. step. simpl.
    by rewrite Z.min_r by (unfold size_max; lia).
Qed.
End range.
