(* ===== verification/VbSpec.v ===== *)
(** * What the buffer library promises

    The properties of vbuffer.c, each stated on the functions of the code and
    the content of the buffers, with the concrete runs that show that their
    hypotheses can be met. *)

From S2P Require Import Prelude List2 VbHeap VbIter VbSub VbRep VbWalk VbFrame VbMut VbEdit VbClear VbMake VbRead.

(** ** A concrete heap *)

Definition run {A} (m : VM A) (s : vbstate) : vbstate := default s (snd <$> m s).

Definition ex_bytes : list Z := [104; 101; 108; 108; 111; 33].
Definition ex_more : list Z := [44; 32].

(** One buffer, end chunk 3, on the block 1; then a second one, end chunk 6. *)
Definition ex1 : vbstate := run (vbuffer_create_from ex_bytes) (empty_state 20).
Definition ex2 : vbstate := run (vbuffer_create_from ex_more) ex1.

Definition plain : vbuffer_chunk_flags := Flags false false false true false.
Definition ex_cs : list seg := [(2%positive, Chunk 1 plain (Some 1%positive) 0 6)].
Definition ex_cs2 : list seg := [(5%positive, Chunk 1 plain (Some 4%positive) 0 2)].

Lemma runs_run {A} (m : VM A) s (P : vbstate → Prop) : runs m s (λ _, P) → P (run m s).
Proof. intros (a & s' & E & HP). unfold run. by rewrite E. Qed.

Lemma ex1_heap : heap_ok ex1 ∧ (vb_mem ex1 = 17)%nat.
Proof.
  split; [|by vm_compute]. apply (runs_run _ _ heap_ok).
  eapply runs_create_from; [by apply empty_heap_ok|done|done|]. intros e cs s' M. apply M.
Qed.

Lemma ex2_heap : heap_ok ex2.
Proof.
  apply (runs_run _ _ heap_ok). eapply runs_create_from; [apply ex1_heap|apply ex1_heap|done|].
  intros e cs s' M. apply M.
Qed.

(** The invariant of a concrete heap is checked by computation. *)
Definition heap_check (s : vbstate) : bool :=
  let below {A} (m : gmap loc A) := bool_decide (map_Forall (λ x _, (x < vb_fresh s)%positive) m) in
  below (vb_chunks s) && below (vb_links s) && below (vb_datas s) &&
  bool_decide (map_Forall (λ d dt, dt_ref dt = Z.of_nat (nrefs (vb_chunks s) d)) (vb_datas s)) &&
  bool_decide (map_Forall (λ _ ch, (if ch_data ch is Some d then is_null (vb_datas s !! d) else false) = false) (vb_chunks s)) &&
  bool_decide (Z.of_nat (size (vb_chunks s) + vb_mem s) < 2 ^ 32).

Lemma heap_check_ok s : heap_check s = true → heap_ok s.
Proof.
  unfold heap_check. rewrite !andb_true_iff, !bool_decide_eq_true. intros [[[[[H1 H2] H3] H4] H5] H6]. split; [..|done].
  - intros x [ch Hx]. by apply (H1 x ch).
  - intros x [l Hx]. by apply (H2 x l).
  - intros x [d Hx]. by apply (H3 x d).
  - intros d dt Hd. by apply (H4 d).
  - intros c ch d Hc Hd. specialize (H5 c ch Hc). simpl in H5. rewrite Hd in H5. destruct (vb_datas s !! d); [by eexists|done].
Qed.

(** Concrete buffers are checked by computation. *)
Ltac concrete_chunk :=
  split; cbn [ch_flags ch_ref ch_data ch_offset ch_size fl_end fl_ctl];
  [ reflexivity | split; lia | lia
  | first [discriminate | intros _; split; [reflexivity|eexists; reflexivity]]
  | first [discriminate
      | intros _; split; [lia|]; eexists; split; [vm_compute; reflexivity|vm_compute; discriminate]]
  | lia ].
Ltac concrete_rep :=
  split;
  [ split; [by apply (bool_decide_unpack _); vm_compute|by vm_compute]
  | eexists; split; [vm_compute; reflexivity|by split]
  | intros c ch Hc; repeat (apply elem_of_cons in Hc as [Hc|Hc];
      [injection Hc as -> ->; split; [vm_compute; reflexivity|concrete_chunk]|]);
    apply elem_of_nil in Hc; destruct Hc
  | vm_compute; reflexivity ].

Lemma ex2_rep : buf_rep ex2 3 ex_cs.
Proof. concrete_rep. Qed.

Lemma ex2_rep2 : buf_rep ex2 6 ex_cs2.
Proof. concrete_rep. Qed.

Lemma ex_pos o : 0 ≤ o ≤ 6 → pos_of 3 ex_cs 2 o o.
Proof. intros Ho. left. exists [], (Chunk 1 plain (Some 1%positive) 0 6), []. simpl. rewrite csize_nil. unfold csize. simpl. split_and!; done || lia. Qed.

Lemma ex_writable : all_writable ex2 3 ex_cs.
Proof.
  intros c Hc. simpl in Hc.
  repeat (apply elem_of_cons in Hc as [->|Hc]; [eexists; by split; [vm_compute|]|]).
  by apply elem_of_nil in Hc.
Qed.

(** ** Creation and size *)

(** [vbuffer_create_from]: with memory for a block and two chunks, the call
    succeeds with a new buffer that holds exactly the given bytes; the heap
    stays well formed and every buffer that existed is untouched. *)
Theorem vbuffer_create_from_correct s n bs :
  heap_ok s → vb_mem s = S (S (S n)) → zlen bs < 2 ^ 32 →
  runs (vbuffer_create_from bs) s (λ r s', ∃ e cs, r = (true, Some e) ∧
    heap_ok s' ∧ buf_rep s' e cs ∧ content s' cs = bs ∧ vb_error s' = vb_error s ∧
    (∀ e0 cs0, buf_rep s e0 cs0 → e0 ≠ e ∧ buf_rep s' e0 cs0 ∧ content s' cs0 = content s cs0)).
Proof.
  intros Ok Em Hl. eapply runs_create_from; [done..|]. intros e cs s' M. exists e, cs.
  split; [done|]. destruct M as [M1 M2 M3 M4 M5 M6 M7]. split_and!; try done.
  intros e0 cs0 R. destruct (keeps_buf _ _ _ _ _ Ok M4 R) as [R' C]; [by intros x _ ?%elem_of_nil|].
  split_and!; try done. intros ->. pose proof (br_fresh _ _ _ e Ok R ltac:(by left)).
  specialize (M6 e ltac:(by left)). lia.
Qed.

Lemma vbuffer_create_from_correct_witness :
  runs (vbuffer_create_from ex_bytes) (empty_state 20) (λ r s', ∃ e cs, r = (true, Some e) ∧
    heap_ok s' ∧ buf_rep s' e cs ∧ content s' cs = ex_bytes ∧ vb_error s' = None ∧
    (∀ e0 cs0, buf_rep (empty_state 20) e0 cs0 →
       e0 ≠ e ∧ buf_rep s' e0 cs0 ∧ content s' cs0 = content (empty_state 20) cs0)).
Proof.
  apply (vbuffer_create_from_correct (empty_state 20) 17 ex_bytes); [by apply empty_heap_ok|done|done].
Defined.

(** [vbuffer_create_from] without memory: the call fails with the error of
    the allocator (the first error of the thread is the one kept) and the heap
    does not change. *)
Theorem vbuffer_create_from_nomem s bs :
  vb_mem s = 0%nat →
  runs (vbuffer_create_from bs) s (λ r s', r = (false, None) ∧
    vb_error s' = Some (default "memory error" (vb_error s)) ∧
    vb_chunks s' = vb_chunks s ∧ vb_links s' = vb_links s ∧ vb_datas s' = vb_datas s).
Proof.
  intros Em. eapply runs_create_from_nomem; [done|]. split; [done|]. unfold raised.
  by destruct (vb_error s) eqn:E.
Qed.

Lemma vbuffer_create_from_nomem_witness :
  runs (vbuffer_create_from ex_bytes) (empty_state 0) (λ r s', r = (false, None) ∧
    vb_error s' = Some "memory error" ∧ vb_chunks s' = ∅ ∧ vb_links s' = ∅ ∧ vb_datas s' = ∅).
Proof. apply (vbuffer_create_from_nomem (empty_state 0) ex_bytes). done. Defined.

Lemma runs_size s e cs Q :
  buf_rep s e cs → Q (csize cs) s → runs (vbuffer_size (Some e)) s Q.
Proof.
  intros H HQ. unfold vbuffer_size, VBUFFER_FOR_EACH. call runs_chunk_begin; [done|].
  call runs_chunk_fuel. pose proof (br_fuel _ _ _ H). pose proof (br_small _ _ _ H).
  eapply (for_each_chunk_spec s e _ (λ l n, n = csize l) Q cs []); [done|lia|done| |].
  - intros l1 c ch l2 acc _ -> Hc Oc R. destruct (br_size _ _ _ _ _ _ R) as (?&?&?&?).
    call runs_rd_chunk; [done|]. step. split; [done|].
    rewrite u64_small by lia. rewrite csize_app, csize_cons, csize_nil. simpl. lia.
  - intros acc ch -> Hc Oe. call runs_rd_chunk; [done|]. step. split; [done|].
    rewrite (eo_size _ Oe), Z.add_0_r. simpl. pose proof (br_nonneg _ _ _ H).
    by rewrite u64_small by lia.
Qed.

(** [vbuffer_size] is the length of the content and changes nothing. *)
Theorem vbuffer_size_correct s e cs :
  buf_rep s e cs → vbuffer_size (Some e) s = Some (zlen (content s cs), s).
Proof.
  intros H. rewrite (br_len _ _ _ H).
  destruct (runs_size s e cs (λ n s', n = csize cs ∧ s' = s)) as (n & s' & E & -> & ->); by auto.
Qed.

Lemma vbuffer_size_correct_witness :
  buf_rep ex2 3 ex_cs ∧ vbuffer_size (Some 3%positive) ex2 = Some (6, ex2).
Proof. split; [apply ex2_rep|]. apply (vbuffer_size_correct ex2 3 ex_cs), ex2_rep. Defined.

(** ** Iterators *)

(** [vbuffer_iterator_advance]: from the position [p] of a buffer the iterator
    moves forward by [len] bytes or to the end of the buffer, whichever is
    first; it returns the distance, adds it to the meter (a 32-bit counter) and
    changes nothing in the heap. *)
Theorem vbuffer_iterator_advance_correct s e cs c o p meter len :
  buf_rep s e cs → pos_of e cs c o p → 0 ≤ len →
  runs (vbuffer_iterator_advance (Iter (Some c) o meter false) len) s (λ r s',
    let n := len `min` (zlen (content s cs) - p) in
    ∃ c' o', r = (n, Iter (Some c') o' (u32 (meter + n)) false) ∧ s' = s ∧
      norm_pos e cs c' o' (p + n)).
Proof.
  intros H Hp Hl. eapply runs_advance; [done..|]. intros c' o' Hn. rewrite (br_len _ _ _ H).
  by exists c', o'.
Qed.

Lemma vbuffer_iterator_advance_correct_witness :
  runs (vbuffer_iterator_advance (Iter (Some 2%positive) 1 0 false) 9) ex2 (λ r s',
    ∃ c' o', r = (5, Iter (Some c') o' 5 false) ∧ s' = ex2 ∧ norm_pos 3 ex_cs c' o' 6).
Proof.
  apply (vbuffer_iterator_advance_correct ex2 3 ex_cs 2 1 1 0 9); [apply ex2_rep|by apply ex_pos|done].
Defined.

(** [vbuffer_iterator_check_available]: the call tells whether [minsize] bytes
    follow the position, and gives the smaller of [minsize] and their number. *)
Theorem vbuffer_iterator_check_available_correct s e cs c o p meter minsize :
  buf_rep s e cs → pos_of e cs c o p → 0 ≤ minsize →
  let left := zlen (content s cs) - p in
  vbuffer_iterator_check_available (Iter (Some c) o meter false) minsize s =
    Some ((bool_decide (minsize ≤ left), Some (minsize `min` left)), s).
Proof.
  intros H Hp Hm left. unfold left. rewrite (br_len _ _ _ H).
  destruct (runs_check_available s e cs c o p meter minsize (λ r s', s' = s ∧
    r = (bool_decide (minsize ≤ csize cs - p), Some (minsize `min` (csize cs - p)))))
    as (r & s' & E & -> & ->); by auto.
Qed.

Lemma vbuffer_iterator_check_available_correct_witness :
  vbuffer_iterator_check_available (Iter (Some 2%positive) 2 0 false) 9 ex2 =
    Some ((false, Some 4), ex2).
Proof.
  apply (vbuffer_iterator_check_available_correct ex2 3 ex_cs 2 2 2 0 9);
    [apply ex2_rep|by apply ex_pos|done].
Defined.

(** [vbuffer_iterator_split] cuts the buffer at the position of the iterator:
    the chunks before and after the cut hold the content before and after [p],
    the iterator ends on the first chunk behind the cut, and every position of
    the buffer, also one that now runs over its chunk, still denotes the byte it
    denoted. *)
Theorem vbuffer_iterator_split_correct s e cs c o p meter :
  heap_ok s → buf_rep s e cs → pos_of e cs c o p → vb_mem s ≠ 0%nat →
  runs (vbuffer_iterator_split (Iter (Some c) o meter false)) s (λ r s', ∃ l1 l2,
    r = (true, Iter (Some (chunk_at e l2)) 0 meter false) ∧
    heap_ok s' ∧ buf_rep s' e (l1 ++ l2) ∧
    content s' l1 = ztake p (content s cs) ∧ content s' l2 = zdrop p (content s cs) ∧
    (∀ c0 o0 q, pos_of e cs c0 o0 q → pos_of e (l1 ++ l2) c0 o0 q) ∧
    (∀ e0 cs0, e0 ≠ e → buf_rep s e0 cs0 → buf_rep s' e0 cs0 ∧ content s' cs0 = content s cs0)).
Proof.
  intros Ok H Hp Hm. unfold vbuffer_iterator_split.
  call runs_iter_check; [exact H|exact Hp|]. simpl.
  call runs_split; [exact Ok|exact H|exact Hp|done|done|]. intros s' l1 l2 Sp.
  call runs_iter_update; [done|lia|]. step. exists l1, l2. split; [done|].
  destruct Sp as [R Hp' L T B A P K N M E]. split_and!; try done.
  intros e0 cs0 Hne R0. eapply keeps_buf; [done|done|done|].
  intros x Hx. by apply (buf_disjoint s e0 cs0 e cs).
Qed.

Lemma vbuffer_iterator_split_correct_witness :
  runs (vbuffer_iterator_split (Iter (Some 2%positive) 4 0 false)) ex2 (λ r s', ∃ l1 l2,
    r = (true, Iter (Some (chunk_at 3 l2)) 0 0 false) ∧
    heap_ok s' ∧ buf_rep s' 3 (l1 ++ l2) ∧
    content s' l1 = ztake 4 (content ex2 ex_cs) ∧ content s' l2 = zdrop 4 (content ex2 ex_cs) ∧
    (∀ c0 o0 q, pos_of 3 ex_cs c0 o0 q → pos_of 3 (l1 ++ l2) c0 o0 q) ∧
    (∀ e0 cs0, e0 ≠ 3%positive → buf_rep ex2 e0 cs0 →
       buf_rep s' e0 cs0 ∧ content s' cs0 = content ex2 cs0)).
Proof.
  apply (vbuffer_iterator_split_correct ex2 3 ex_cs 2 4 4 0);
    [apply ex2_heap|apply ex2_rep|by apply ex_pos|by vm_compute].
Defined.

(** ** Editing *)

(** C2 [vbuffer_iterator_insert]: inserting a non-empty buffer at the position
    [p] of a writable one splices its content there and leaves it empty; the
    iterator stands behind the inserted bytes, and the sub-buffer that is
    returned on demand begins at [p]. *)
Theorem vbuffer_iterator_insert_correct s e cs c o p meter e2 cs2 want :
  heap_ok s → buf_rep s e cs → pos_of e cs c o p → buf_rep s e2 cs2 → e ≠ e2 → cs2 ≠ [] →
  all_writable s e cs → vb_mem s ≠ 0%nat → csize cs + csize cs2 < 2 ^ 32 →
  runs (vbuffer_iterator_insert (Iter (Some c) o meter false) (Some e2) want) s (λ r s',
    ∃ cs' c' sub, r = (true, Iter (Some c') 0 meter false, sub) ∧
    heap_ok s' ∧ buf_rep s' e cs' ∧ buf_rep s' e2 [] ∧
    content s' cs' = ztake p (content s cs) ++ content s cs2 ++ zdrop p (content s cs) ∧
    pos_of e cs' c' 0 (p + csize cs2) ∧
    (want = true → ∃ m, sub = Some (Sub (Iter (Some (chunk_at e2 cs2)) 0 m false) false
                               (SubEnd (Iter (Some c') 0 meter false))) ∧
                        pos_of e cs' (chunk_at e2 cs2) 0 p)).
Proof.
  intros Ok H Hp H2 Hne Hne2 Hw Hm Hs. eapply runs_insert; [exact Ok|exact H|exact Hp|exact H2|done..|].
  intros s' l1 l2 m [R R2 Hh <- C K E] position.
  exists (l1 ++ cs2 ++ l2), (chunk_at e l2). eexists. split; [done|].
  assert (buf_rep s' e ((l1 ++ cs2) ++ l2)) as R' by (by rewrite <- app_assoc).
  destruct (br_parts _ _ _ _ R) as (? & ? & _). destruct (br_parts _ _ _ _ R') as (_ & ? & _).
  split_and!; try done.
  - rewrite app_assoc. rewrite <- csize_app. by apply pos_of_suffix.
  - intros ->. exists m. split; [done|].
    replace (chunk_at e2 cs2) with (chunk_at e (cs2 ++ l2)); [by apply pos_of_suffix|].
    by destruct cs2.
Qed.

Lemma vbuffer_iterator_insert_correct_witness :
  runs (vbuffer_iterator_insert (Iter (Some 2%positive) 3 0 false) (Some 6%positive) true) ex2 (λ r s',
    ∃ cs' c' sub, r = (true, Iter (Some c') 0 0 false, sub) ∧
    heap_ok s' ∧ buf_rep s' 3 cs' ∧ buf_rep s' 6 [] ∧
    content s' cs' = [104; 101; 108; 44; 32; 108; 111; 33] ∧
    pos_of 3 cs' c' 0 5 ∧
    (true = true → ∃ m, sub = Some (Sub (Iter (Some 5%positive) 0 m false) false
                               (SubEnd (Iter (Some c') 0 0 false))) ∧
                        pos_of 3 cs' 5 0 3)).
Proof.
  apply (vbuffer_iterator_insert_correct ex2 3 ex_cs 2 3 3 0 6 ex_cs2 true);
    [apply ex2_heap|apply ex2_rep|by apply ex_pos|apply ex2_rep2|done|done|apply ex_writable
    |by vm_compute|by vm_compute].
Defined.

(** The first buffer after [vbuffer_setwritable(.., false)]. *)
Definition ex_ro : vbstate := run (vbuffer_setwritable (Some 3%positive) false) ex2.
Definition ex_ro_cs : list seg :=
  [(2%positive, Chunk 1 (Flags false false false false false) (Some 1%positive) 0 6)].

Lemma ex_ro_rep : buf_rep ex_ro 3 ex_ro_cs.
Proof. concrete_rep. Qed.

Lemma ex_ro_rep2 : buf_rep ex_ro 6 ex_cs2.
Proof. concrete_rep. Qed.

(** [vbuffer_iterator_insert] in a read-only buffer fails with the error
    "read only buffer" (or the error that was pending) and changes nothing. *)
Theorem vbuffer_iterator_insert_readonly s e cs c o p meter e2 cs2 want :
  buf_rep s e cs → pos_of e cs c o p → buf_rep s e2 cs2 → cs2 ≠ [] →
  (∀ x ch, x ∈ e :: cs.*1 → vb_chunks s !! x = Some ch → fl_writable (ch_flags ch) = false) →
  vbuffer_iterator_insert (Iter (Some c) o meter false) (Some e2) want s =
    Some ((false, Iter (Some c) o meter false, None), raised "read only buffer" s).
Proof.
  intros H Hp H2 Hne Hro.
  assert (runs (vbuffer_iterator_insert (Iter (Some c) o meter false) (Some e2) want) s (λ r s',
    r = (false, Iter (Some c) o meter false, None) ∧ s' = raised "read only buffer" s))
    as (r & s' & E & -> & ->); [|done].
  unfold vbuffer_iterator_insert. call runs_iter_check; [exact H|exact Hp|]. simpl.
  unfold vbuffer_chunk_list. step. call runs_list_empty; [exact H2|].
  rewrite bool_decide_false by done. call runs_split_readonly; [exact H|exact Hp| |by step].
  intros x Hx (ch & Hc & Hw). specialize (Hro x ch Hx Hc). congruence.
Qed.

Lemma vbuffer_iterator_insert_readonly_witness :
  vbuffer_iterator_insert (Iter (Some 2%positive) 3 0 false) (Some 6%positive) true ex_ro =
    Some ((false, Iter (Some 2%positive) 3 0 false, None), raised "read only buffer" ex_ro).
Proof.
  apply (vbuffer_iterator_insert_readonly ex_ro 3 ex_ro_cs 2 3 3 0 6 ex_cs2 true);
    [apply ex_ro_rep| |apply ex_ro_rep2|done|].
  - left. by eexists [], _, [].
  - intros x ch Hx Hc. simpl in Hx.
    repeat (apply elem_of_cons in Hx as [Hx|Hx];
      [subst x; vm_compute in Hc; injection Hc as <-; reflexivity|]).
    apply elem_of_nil in Hx. destruct Hx.
Defined.

(** [vbuffer_append] moves every chunk of the second buffer to the end of the
    first: the content is the concatenation and the second buffer is empty. *)
Theorem vbuffer_append_correct s e cs e2 cs2 :
  heap_ok s → buf_rep s e cs → buf_rep s e2 cs2 → e ≠ e2 → csize cs + csize cs2 < 2 ^ 32 →
  runs (vbuffer_append (Some e) (Some e2)) s (λ r s', r = true ∧ heap_ok s' ∧
    buf_rep s' e (cs ++ cs2) ∧ buf_rep s' e2 [] ∧
    content s' (cs ++ cs2) = content s cs ++ content s cs2 ∧
    (∀ e0 cs0, e0 ≠ e → e0 ≠ e2 → buf_rep s e0 cs0 →
       buf_rep s' e0 cs0 ∧ content s' cs0 = content s cs0)).
Proof.
  intros Ok H H2 Hne Hs. eapply runs_append; [exact Ok|exact H|exact H2|done..|].
  intros s' [R R2 Hh C K E]. split_and!; try done. intros e0 cs0 Hn1 Hn2 R0.
  eapply keeps_buf; [done|done|done|]. intros x Hx [Hi|Hi]%elem_of_app; revert Hi.
  - by apply (buf_disjoint s e0 cs0 e cs).
  - by apply (buf_disjoint s e0 cs0 e2 cs2).
Qed.

Lemma vbuffer_append_correct_witness :
  runs (vbuffer_append (Some 3%positive) (Some 6%positive)) ex2 (λ r s', r = true ∧ heap_ok s' ∧
    buf_rep s' 3 (ex_cs ++ ex_cs2) ∧ buf_rep s' 6 [] ∧
    content s' (ex_cs ++ ex_cs2) = [104; 101; 108; 108; 111; 33; 44; 32] ∧
    (∀ e0 cs0, e0 ≠ 3%positive → e0 ≠ 6%positive → buf_rep ex2 e0 cs0 →
       buf_rep s' e0 cs0 ∧ content s' cs0 = content ex2 cs0)).
Proof.
  apply (vbuffer_append_correct ex2 3 ex_cs 6 ex_cs2);
    [apply ex2_heap|apply ex2_rep|apply ex2_rep2|done|by vm_compute].
Defined.

(** ** Release *)

(** C22 [vbuffer_clear] frees each chunk of the buffer that no iterator is
    registered on and detaches the others (their data is released, they are in
    no list); no data block is freed while a chunk of the heap refers to it, none
    is left without a reference if there was none before, and every other buffer
    is untouched. *)
Theorem vbuffer_clear_correct s e cs :
  heap_ok s → buf_rep s e cs →
  runs (vbuffer_clear (Some e)) s (λ r s', r = None ∧ heap_ok s' ∧
    (∀ c ch, (c, ch) ∈ cs → cleared s' c ch) ∧ (no_leak s → no_leak s') ∧
    (∀ e0 cs0, e0 ≠ e → buf_rep s e0 cs0 →
       buf_rep s' e0 cs0 ∧ content s' cs0 = content s cs0)).
Proof.
  intros Ok H. eapply runs_clear; [done..|]. intros s' [Hh K C L E _]. split_and!; try done.
  intros e0 cs0 Hne R0. eapply keeps_buf; [done|done|done|].
  intros x Hx. by apply (buf_disjoint s e0 cs0 e cs).
Qed.

Lemma vbuffer_clear_correct_witness :
  runs (vbuffer_clear (Some 3%positive)) ex2 (λ r s', r = None ∧ heap_ok s' ∧
    (∀ c ch, (c, ch) ∈ ex_cs → cleared s' c ch) ∧ (no_leak ex2 → no_leak s') ∧
    (∀ e0 cs0, e0 ≠ 3%positive → buf_rep ex2 e0 cs0 →
       buf_rep s' e0 cs0 ∧ content s' cs0 = content ex2 cs0)).
Proof. apply (vbuffer_clear_correct ex2 3 ex_cs); [apply ex2_heap|apply ex2_rep]. Defined.

(** The second buffer of [ex2] with an iterator registered on its chunk. *)
Definition ex_reg : vbstate := run (vbuffer_iterator_register (Iter (Some 5%positive) 1 0 false)) ex2.
Definition ex_reg_cs : list seg := [(5%positive, Chunk 2 plain (Some 4%positive) 0 2)].

Lemma ex_reg_rep : buf_rep ex_reg 6 ex_reg_cs.
Proof. concrete_rep. Qed.

Lemma ex_reg_heap : heap_ok ex_reg.
Proof.
  apply (runs_run _ _ heap_ok). unfold vbuffer_iterator_register.
  assert (pos_of 6 ex_cs2 5 1 1) as Hp by (left; by eexists [], _, []).
  call runs_iter_check; [apply ex2_rep2|exact Hp|]. simpl. step. unfold vbuffer_chunk_addref.
  call runs_upd_chunk; [apply (br_at ex2 6 [] 5 _ [] ex2_rep2)|]. step.
  eapply heap_ok_upd_chunk; [apply ex2_heap|apply (br_at ex2 6 [] 5 _ [] ex2_rep2)|done].
Qed.

(** An iterator that is registered on a chunk survives the release of its
    buffer: the chunk is kept for it, and its next use is refused with the error
    "invalid buffer iterator" instead of touching freed memory. *)
Theorem vbuffer_clear_registered s e cs c ch o meter :
  heap_ok s → buf_rep s e cs → (c, ch) ∈ cs → ch_ref ch ≠ 1 →
  runs (_ ← vbuffer_clear (Some e); _vbuffer_iterator_check (Iter (Some c) o meter true)) s
    (λ r s', r = false ∧ vb_error s' = Some (default "invalid buffer iterator" (vb_error s))).
Proof.
  intros Ok H Hi Hr. call runs_clear; [done..|]. intros s' [Hh K C L E _].
  specialize (C c ch Hi). unfold cleared in C. rewrite bool_decide_false in C by done.
  destruct C as [Hc Hl]. unfold _vbuffer_iterator_check. simpl.
  call runs_rd_chunk; [done|]. call runs_lnk_read. eapply runs_rd_elem; [done|]. split; [done|]. simpl.
  rewrite !orb_true_r. unfold error. step. step. split; [done|]. unfold raised.
  rewrite E. by destruct (vb_error s) eqn:E'; simpl.
Qed.

Lemma vbuffer_clear_registered_witness :
  runs (_ ← vbuffer_clear (Some 6%positive); _vbuffer_iterator_check (Iter (Some 5%positive) 1 0 true)) ex_reg
    (λ r s', r = false ∧ vb_error s' = Some "invalid buffer iterator").
Proof.
  apply (vbuffer_clear_registered ex_reg 6 ex_reg_cs 5 (Chunk 2 plain (Some 4%positive) 0 2) 1 0);
    [apply ex_reg_heap|apply ex_reg_rep|by left|done].
Defined.

(** ** Sub-buffers *)

(** The range [1, 5) of the first buffer of [ex2] once it has been cut at 3. *)
Definition ex_cut : vbstate := run (vbuffer_iterator_split (Iter (Some 2%positive) 3 0 false)) ex2.
Definition ex_cut_cs : list seg :=
  [(2%positive, Chunk 1 plain (Some 1%positive) 0 3);
   (7%positive, Chunk 1 plain (Some 1%positive) 3 3)].
Definition ex_sub : vbuffer_sub := Sub (Iter (Some 2%positive) 1 0 false) true (SubLength 4).
(** The same range by its ends; the end offset runs over the chunk 2. *)
Definition ex_sub_end : vbuffer_sub :=
  Sub (Iter (Some 2%positive) 1 0 false) false (SubEnd (Iter (Some 2%positive) 5 0 false)).

Lemma ex_cut_rep : buf_rep ex_cut 3 ex_cut_cs.
Proof. concrete_rep. Qed.

Lemma ex_cut_pos o : 0 ≤ o ≤ 6 → pos_of 3 ex_cut_cs 2 o o.
Proof.
  intros Ho. left. eexists [], _, [_]. split; [reflexivity|]. unfold csize. simpl. lia.
Qed.

Lemma ex_sub_range : sub_range 3 ex_cut_cs ex_sub 1 5.
Proof. split; [by apply ex_cut_pos|]. by vm_compute. Qed.

Lemma ex_sub_end_range : sub_range 3 ex_cut_cs ex_sub_end 1 5.
Proof. split; [by apply ex_cut_pos|]. split; [by apply ex_cut_pos|]. left. lia. Qed.

(** [vbuffer_sub_size]: the size of a sub-buffer, given by a length or by an
    end position, is the length of the range [p, q) it denotes. *)
Theorem vbuffer_sub_size_correct s e cs data p q :
  buf_rep s e cs → sub_range e cs data p q →
  vbuffer_sub_size data s = Some (q - p, s).
Proof.
  intros H Hr.
  destruct (runs_sub_size s e cs H data p q (λ n s', n = q - p ∧ s' = s)) as (n & s' & E & -> & ->); by auto.
Qed.

Lemma vbuffer_sub_size_correct_witness : vbuffer_sub_size ex_sub_end ex_cut = Some (4, ex_cut).
Proof.
  apply (vbuffer_sub_size_correct ex_cut 3 ex_cut_cs ex_sub_end 1 5);
    [apply ex_cut_rep|apply ex_sub_end_range].
Defined.

(** [vbuffer_sub_read] copies the bytes of the range, across the chunks, up
    to the size that is asked for, and changes nothing. *)
Theorem vbuffer_sub_read_correct s e cs data p q size :
  buf_rep s e cs → sub_range e cs data p q → 0 ≤ size →
  vbuffer_sub_read data size s = Some (zslice p (size `min` (q - p)) (content s cs), s).
Proof.
  intros H Hr Hs.
  destruct (runs_sub_read s e cs H data p q size (λ r s',
    r = zslice p (size `min` (q - p)) (content s cs) ∧ s' = s)) as (n & s' & E & -> & ->); by auto.
Qed.

Lemma vbuffer_sub_read_correct_witness :
  vbuffer_sub_read ex_sub 10 ex_cut = Some ([101; 108; 108; 111], ex_cut).
Proof.
  apply (vbuffer_sub_read_correct ex_cut 3 ex_cut_cs ex_sub 1 5 10);
    [apply ex_cut_rep|apply ex_sub_range|done].
Defined.

(** Reading back: what [vbuffer_create_from] stored is what
    [vbuffer_sub_read] returns on the sub-buffer of the whole buffer. *)
Theorem vbuffer_create_read_roundtrip s n bs :
  heap_ok s → vb_mem s = S (S (S n)) → zlen bs < 2 ^ 32 →
  runs ('(_, buf) ← vbuffer_create_from bs;
        begin ← vbuffer_begin buf vbuffer_iterator_init;
        '(_, sub) ← vbuffer_sub_create_from_position begin (zlen bs);
        vbuffer_sub_read sub (zlen bs)) s (λ r _, r = bs).
Proof.
  intros Ok Em Hl. call runs_create_from; [done..|]. intros e cs s' M.
  pose proof (mk_rep _ _ _ _ _ _ M) as R. pose proof (br_len _ _ _ R) as L.
  rewrite (mk_content _ _ _ _ _ _ M) in L. pose proof (zlen_nonneg bs).
  call runs_vbuffer_begin; [exact R|]. unfold vbuffer_sub_create_from_position. apply runs_bind.
  pose proof (pos_of_suffix e [] cs ltac:(lia)) as Hp. simpl in Hp. rewrite csize_nil in Hp.
  call runs_iter_copy; [exact R|exact Hp|]. step. rewrite u32_small by lia.
  eapply (runs_sub_read s' e cs R _ 0 (zlen bs)); [|done|].
  - split; [done|]. split; lia.
  - rewrite (mk_content _ _ _ _ _ _ M). replace (zlen bs `min` (zlen bs - 0)) with (zlen bs) by lia.
    apply zslice_full.
Qed.

Lemma vbuffer_create_read_roundtrip_witness :
  runs ('(_, buf) ← vbuffer_create_from ex_bytes;
        begin ← vbuffer_begin buf vbuffer_iterator_init;
        '(_, sub) ← vbuffer_sub_create_from_position begin (zlen ex_bytes);
        vbuffer_sub_read sub (zlen ex_bytes)) (empty_state 20) (λ r _, r = ex_bytes).
Proof.
  apply (vbuffer_create_read_roundtrip (empty_state 20) 17 ex_bytes); [by apply empty_heap_ok|done|done].
Defined.
