(* ===== verification/VbWrite.v ===== *)
(** * Writing sub-buffers (lib/haka/vbuffer.c)

    [vbuffer_sub_write] goes over the blocks of a sub-buffer as the reader does,
    marks their chunks as modified and stores the bytes. Two chunks of a buffer may
    lie in one block; when their ranges are apart, as those of a buffer that was
    made and split are, a write changes the bytes of its range and no others. *)

From S2P Require Import Prelude List2 VbHeap VbIter VbSub VbRep VbWalk VbFrame VbMut VbEdit VbMake VbRead VbSpec.

(** ** Positions depend on the sizes of the chunks only *)

Definition shape (cs : list seg) : list (loc * Z) := (λ x : seg, (x.1, ch_size x.2)) <$> cs.

Section shape.
Implicit Types cs l : list seg.

Lemma shape_app l1 l2 : shape (l1 ++ l2) = shape l1 ++ shape l2.
Proof. apply fmap_app. Qed.

Lemma shape_split cs' l1 l2 : shape (l1 ++ l2) = shape cs' →
  ∃ l1' l2', cs' = l1' ++ l2' ∧ shape l1 = shape l1' ∧ shape l2 = shape l2'.
Proof. rewrite shape_app. intros E. symmetry in E. apply fmap_app_inv in E as (l1' & l2' & ? & ? & ->). by exists l1', l2'. Qed.

Lemma shape_csize l l' : shape l = shape l' → csize l = csize l'.
Proof.
  intros E. unfold csize. f_equal. change (λ x : seg, ch_size x.2) with (snd ∘ (λ x : seg, (x.1, ch_size x.2))).
  rewrite !list_fmap_compose. unfold shape in E. by rewrite E.
Qed.

Lemma shape_names l l' : shape l = shape l' → l.*1 = l'.*1.
Proof.
  intros E. change (fst : seg → loc) with (fst ∘ (λ x : seg, (x.1, ch_size x.2))).
  rewrite !list_fmap_compose. unfold shape in E. by rewrite E.
Qed.

Lemma shape_chunk_at e l l' : shape l = shape l' → chunk_at e l = chunk_at e l'.
Proof. intros E. unfold chunk_at. by rewrite (shape_names _ _ E). Qed.

Lemma shape_cons c ch l l' : shape ((c, ch) :: l) = shape l' →
  ∃ ch' k, l' = (c, ch') :: k ∧ ch_size ch' = ch_size ch ∧ shape l = shape k.
Proof.
  intros E. destruct l' as [|[c' ch'] k]; simpl in E; [done|]. injection E as -> -> E. by exists ch', k.
Qed.

Lemma shape_length l l' : shape l = shape l' → length l = length l'.
Proof. intros E. apply (f_equal length) in E. unfold shape in E. by rewrite !length_fmap in E. Qed.

Lemma pos_of_shape e cs cs' c o p : shape cs = shape cs' → pos_of e cs c o p → pos_of e cs' c o p.
Proof.
  intros E [(l1 & ch & l2 & -> & -> & Ho & Hp)|(-> & -> & ->)].
  - pose proof (shape_csize _ _ E) as Ec. apply shape_split in E as (l1' & k & -> & E1 & E2).
    apply shape_cons in E2 as (ch' & l2' & -> & _ & _). left. exists l1', ch', l2'.
    rewrite (shape_csize _ _ E1) in *. rewrite <- Ec. done.
  - right. by rewrite (shape_csize _ _ E).
Qed.

Lemma end_in_shape l l' o : shape l = shape l' → end_in l o → end_in l' o.
Proof.
  intros E. destruct l as [|[c ch] l].
  - destruct l'; [done|by simpl in E].
  - by apply shape_cons in E as (ch' & k & -> & Es & _); unfold end_in; simpl; rewrite Es.
Qed.

Lemma fixed_shape e cs cs' c o c' o' : shape cs = shape cs' → fixed e cs c o c' o' → fixed e cs' c o c' o'.
Proof.
  intros E (l1 & lm & l2 & -> & -> & -> & -> & Hm & Ho & Hl).
  apply shape_split in E as (l1' & k & -> & E1 & E2). pose proof E2 as E2'.
  apply shape_split in E2 as (lm' & l2' & -> & E3 & E4). exists l1', lm', l2'.
  rewrite (shape_csize _ _ E3), (shape_chunk_at e _ _ E2'), (shape_chunk_at e _ _ E4). split_and!; try done.
  - destruct Hm as [->|]; [left; by destruct lm'|by right].
  - assert (end_in l2' o') as [_ ?]; [|done]. by eapply end_in_shape.
Qed.

Lemma cursor_shape e cs' data it l1 l2 l1' l2' o rem :
  cursor e (l1 ++ l2) data it l1 l2 o rem → cs' = l1' ++ l2' → shape l1 = shape l1' → shape l2 = shape l2' →
  cursor e cs' data it l1' l2' o rem.
Proof.
  intros [_ Ho Hs Hl] -> E1 E2. assert (shape (l1 ++ l2) = shape (l1' ++ l2')) as E by (rewrite !shape_app; congruence).
  split; [done| | |].
  - destruct Ho as [->|(c & ch & l & -> & Ho)]; [by left|right].
    apply shape_cons in E2 as (ch' & k & -> & Es & _). exists c, ch', k. by rewrite Es.
  - unfold it_starts in *. rewrite <- (shape_chunk_at e _ _ E2). destruct (mm_data it); [done|].
    destruct Hs as (c & o0 & m & p & Eb & Hp & Hf). exists c, o0, m, p.
    split_and!; [done|by eapply pos_of_shape|by eapply fixed_shape].
  - unfold it_left in *. rewrite <- (shape_csize _ _ E2). destruct (sb_use_size data); [done|].
    destruct Hl as (c' & o' & m' & q & Et & Hq & Hl). exists c', o', m', q.
    split_and!; [done|by eapply pos_of_shape|].
    destruct Hl as [Hl|(Hn & lm & k & eo & -> & Hf & He & Hle & ->)]; [by left|right]. split; [done|].
    apply shape_split in E2 as (lm' & k' & -> & E3 & E4). exists lm', k', eo.
    rewrite <- (shape_chunk_at e _ _ E4), <- (shape_csize _ _ E3).
    split_and!; [done|by eapply fixed_shape|by eapply end_in_shape| |done].
    intros ->. apply Hle. by destruct lm.
Qed.
End shape.

(** ** Chunks that are apart *)

(** Two data chunks of one block have disjoint ranges. *)
Definition apart (x y : vbuffer_chunk) : Prop :=
  fl_ctl (ch_flags x) = false → fl_ctl (ch_flags y) = false → ch_data x = ch_data y →
  ch_offset x + ch_size x ≤ ch_offset y ∨ ch_offset y + ch_size y ≤ ch_offset x.

Definition separate (cs : list seg) : Prop :=
  ∀ l1 x l2 y, cs = l1 ++ x :: l2 → y ∈ l1 ++ l2 → apart x.2 y.2.

(** The same chunks, some of them marked as modified. *)
Definition marked_as (x y : seg) : Prop := y = x ∨ y = (x.1, set_modified true x.2).

(** The heap after [bs] was written at the position [p] of the buffer. *)
Record wrote (s : vbstate) (e : loc) (cs : list seg) (p : Z) (bs : list Z) (s' : vbstate) (cs' : list seg) : Prop := {
  wr_buf : buf_rep s' e cs';
  wr_same : Forall2 marked_as cs cs';
  wr_content : content s' cs' = zput p bs (content s cs);
  wr_heap : heap_ok s → heap_ok s';
  wr_links : vb_links s' = vb_links s;
  wr_chunks : ∀ x, x ∉ cs.*1 → vb_chunks s' !! x = vb_chunks s !! x;
  wr_datas : ∀ d, (∀ x, x ∈ cs → ch_data x.2 ≠ Some d) → vb_datas s' !! d = vb_datas s !! d;
  wr_mem : vb_mem s' = vb_mem s;
  wr_error : vb_error s' = vb_error s;
  wr_fresh : vb_fresh s' = vb_fresh s;
}.

Section store.
Implicit Types s : vbstate.

Lemma marked_refl (cs : list seg) : Forall2 marked_as cs cs.
Proof. induction cs; constructor; [by left|done]. Qed.

Lemma marked_trans (cs cs1 cs2 : list seg) :
  Forall2 marked_as cs cs1 → Forall2 marked_as cs1 cs2 → Forall2 marked_as cs cs2.
Proof.
  intros HF. revert cs2. induction HF as [|x y l k Hxy _ IH]; intros cs2 H2.
  - by apply Forall2_nil_inv_l in H2 as ->.
  - apply Forall2_cons_inv_l in H2 as (z & k2 & Hyz & H2 & ->). constructor; [|by apply IH].
    destruct Hxy as [->| ->], Hyz as [->| ->]; [by left|by right..].
Qed.

Lemma marked_shape (cs cs' : list seg) : Forall2 marked_as cs cs' → shape cs = shape cs'.
Proof. induction 1 as [|x y ? ? [->| ->] _ IH]; [done|simpl; f_equal; exact IH..]. Qed.

Lemma marked_in (cs cs' : list seg) y :
  Forall2 marked_as cs cs' → y ∈ cs' → ∃ x, x ∈ cs ∧ marked_as x y.
Proof.
  intros HF [i Hi]%list_elem_of_lookup. destruct (Forall2_lookup_r _ _ _ _ _ HF Hi) as (x & Hx & Hm).
  exists x. split; [by eapply list_elem_of_lookup_2|done].
Qed.

Lemma marked_apart x x' y y' : marked_as x x' → marked_as y y' → apart x.2 y.2 → apart x'.2 y'.2.
Proof. intros [->| ->] [->| ->]; done. Qed.

Lemma separate_marked (cs cs' : list seg) : Forall2 marked_as cs cs' → separate cs → separate cs'.
Proof.
  intros HF Hs l1 x l2 y -> Hy. apply Forall2_app_inv_r in HF as (k1 & k & H1 & H2 & ->).
  apply Forall2_cons_inv_r in H2 as (x0 & k2 & Hx & H2 & ->).
  destruct (marked_in (k1 ++ k2) (l1 ++ l2) y) as (y0 & Hy0 & Hm); [by apply Forall2_app|done|].
  eapply marked_apart; [exact Hx|exact Hm|]. by eapply Hs.
Qed.

(** The block [d] with new bytes [b'] of the same length. *)
Definition put_block (d : loc) (r sz : Z) (b' : list Z) s : vbstate :=
  set_datas (<[d := Data r (vbuffer_data_basic_ops sz b')]> (vb_datas s)) s.

Section block.
Context (s : vbstate) (d : loc) (r sz : Z) (b b' : list Z).
Context (Hd : vb_datas s !! d = Some (Data r (vbuffer_data_basic_ops sz b))) (Hl : zlen b' = zlen b).
#[local] Set Default Proof Using "Hd Hl".

Lemma put_bytes_other dd : dd ≠ Some d → basic_bytes (put_block d r sz b' s) dd = basic_bytes s dd.
Proof.
  intros Hne. unfold basic_bytes. destruct dd as [dd|]; [|done]. simpl. rewrite lookup_insert_ne; [done|].
  intros ->. done.
Qed.
Lemma put_bytes_same : basic_bytes (put_block d r sz b' s) (Some d) = Some b'.
Proof. unfold basic_bytes. simpl. by rewrite lookup_insert_eq. Qed.
Lemma old_bytes : basic_bytes s (Some d) = Some b.
Proof using Hd. unfold basic_bytes. simpl. by rewrite Hd. Qed.

Lemma chunk_ok_put ch : chunk_ok s ch → chunk_ok (put_block d r sz b' s) ch.
Proof.
  intros [He Hr Hs Hc Hdt Hsm]. split; try done. intros Ec. destruct (Hdt Ec) as (Ho & b0 & Hb & Hle).
  split; [done|]. destruct (decide (ch_data ch = Some d)) as [Ed|Hne].
  - rewrite Ed in Hb |- *. rewrite old_bytes in Hb. injection Hb as <-. exists b'. rewrite put_bytes_same. split; [done|lia].
  - exists b0. by rewrite put_bytes_other.
Qed.

(** A chunk that is apart from the written range keeps its bytes. *)
Lemma put_block_apart ch chx off bs :
  b' = zput (ch_offset ch + off) bs b → 0 ≤ ch_offset ch → ch_offset ch + ch_size ch ≤ zlen b →
  0 ≤ off → off + zlen bs ≤ ch_size ch → fl_ctl (ch_flags ch) = false → ch_data ch = Some d →
  chunk_ok s chx → apart ch chx → chunk_bytes (put_block d r sz b' s) chx = chunk_bytes s chx.
Proof.
  intros Eb Hof Hle Ho Hn Ec Ed Ox Hap. unfold chunk_bytes. destruct (fl_ctl (ch_flags chx)) eqn:Ex; [done|].
  destruct (decide (ch_data chx = Some d)) as [Edx|Hne]; [|by rewrite put_bytes_other].
  rewrite Edx, old_bytes, put_bytes_same. simpl.
  destruct (co_data _ _ Ox Ex) as (Hofx & _). pose proof (co_size _ _ Ox). pose proof (zlen_nonneg bs).
  destruct Hap as [Hap|Hap]; [done|done|congruence|..]; rewrite Eb.
  - apply zslice_zput_after; lia.
  - apply zslice_zput_before; lia.
Qed.

Lemma heap_ok_put : heap_ok s → heap_ok (put_block d r sz b' s).
Proof.
  intros [F1 F2 F3 R D Sm]. split; simpl; try done.
  - intros x [y [[-> _]|[_ Hx]]%lookup_insert_Some]; apply F3; eauto.
  - intros x dt [[<- <-]|[_ Hx]]%lookup_insert_Some; [|by apply R]. by apply (R d _ Hd).
  - intros c ch x Hc Ex. destruct (D c ch x Hc Ex) as [dt Hx].
    destruct (decide (x = d)) as [->|?]; [rewrite lookup_insert_eq; eauto|rewrite lookup_insert_ne by done; eauto].
Qed.
End block.

Section put.
Context (s : vbstate) (e : loc) (l1 : list seg) (c : loc) (ch : vbuffer_chunk) (l2 : list seg).
Context (d : loc) (r sz : Z) (b : list Z) (o : Z) (bs : list Z).
Context (H : buf_rep s e (l1 ++ (c, ch) :: l2)) (Hsep : ∀ y, y ∈ l1 ++ l2 → apart ch y.2).
Context (Ec : fl_ctl (ch_flags ch) = false) (Ed : ch_data ch = Some d).
Context (Hd : vb_datas s !! d = Some (Data r (vbuffer_data_basic_ops sz b))).
Context (Ho : 0 ≤ o) (Hn : o + zlen bs ≤ ch_size ch).

Let ch' := set_modified true ch.
Let s1 := set_chunks (<[c := ch']> (vb_chunks s)) s.
Let b' := zput (ch_offset ch + o) bs b.
Let s' := put_block d r sz b' s1.

#[local] Set Default Proof Using "H Hsep Ec Ed Hd Ho Hn".

Lemma put_range : 0 ≤ ch_offset ch ∧ ch_offset ch + ch_size ch ≤ zlen b ∧ zlen b' = zlen b.
Proof using H Ec Ed Hd Ho Hn.
  destruct (br_at _ _ _ _ _ _ H) as [_ Oc]. destruct (co_data _ _ Oc Ec) as (Hof & b0 & Hb & Hle).
  rewrite Ed, (old_bytes s d r sz b Hd) in Hb. injection Hb as <-.
  split_and!; [done|done|]. unfold b'. apply zlen_zput; lia.
Qed.

Lemma put_chunk_ok chx : chunk_ok s chx → chunk_ok s' chx.
Proof.
  intros Ox. destruct put_range as (_ & _ & El). apply (chunk_ok_put s1 d r sz b b' Hd El).
  by apply (chunk_ok_same s).
Qed.

(** The bytes of a chunk that is apart stay. *)
Lemma put_apart chx : chunk_ok s chx → apart ch chx → chunk_bytes s' chx = chunk_bytes s chx.
Proof using H Ec Ed Hd Ho Hn.
  intros Ox Hap. destruct put_range as (Hof & Hle & El).
  apply (put_block_apart s1 d r sz b b' Hd El ch chx o bs); try done. by apply (chunk_ok_same s).
Qed.

Lemma put_other x chx : (x, chx) ∈ l1 ++ l2 → chunk_bytes s' chx = chunk_bytes s chx.
Proof.
  intros Hi. apply put_apart; [|apply (Hsep (x, chx) Hi)].
  eapply br_ok; [exact H|]. rewrite elem_of_app, elem_of_cons. apply elem_of_app in Hi. naive_solver.
Qed.

Lemma put_this : chunk_bytes s' ch' = zput o bs (chunk_bytes s ch).
Proof.
  destruct put_range as (Hof & Hle & El). unfold chunk_bytes. simpl. rewrite Ec, Ed, (old_bytes s d r sz b Hd).
  unfold s'. rewrite (put_bytes_same s1 d r sz b b' Hd El). simpl. apply zslice_zput_inner; lia.
Qed.

Lemma put_content : content s' (l1 ++ (c, ch') :: l2) = zput (csize l1 + o) bs (content s (l1 ++ (c, ch) :: l2)).
Proof.
  destruct (br_at _ _ _ _ _ _ H) as [_ Oc]. pose proof (chunk_bytes_len _ _ Oc) as Elc.
  assert (zlen (content s l1) = csize l1) as El.
  { apply content_len. intros x chx Hi. eapply br_ok; [exact H|]. apply elem_of_app. by left. }
  rewrite !content_app, !content_cons. simpl. rewrite zput_app_r by lia. rewrite El.
  replace (csize l1 + o - csize l1) with o by lia. rewrite zput_app_l by lia. rewrite put_this.
  f_equal; [|f_equal]; apply content_kept; intros x chx Hi; apply (put_other x); apply elem_of_app; [by left|by right].
Qed.

Lemma put_rep : buf_rep s' e (l1 ++ (c, ch') :: l2).
Proof.
  destruct put_range as (_ & _ & El).
  assert (buf_rep s1 e (l1 ++ (c, ch') :: l2)) as [L E C Sm].
  { apply (buf_rep_upd _ _ _ _ ch); [exact H| |done]. apply modified_ok. by destruct (br_at _ _ _ _ _ _ H). }
  split; try done. intros x chx Hi. destruct (C x chx Hi) as [? Ox]. split; [done|].
  by apply (chunk_ok_put s1 d r sz b b' Hd El).
Qed.

Lemma put_marked : Forall2 marked_as (l1 ++ (c, ch) :: l2) (l1 ++ (c, ch') :: l2).
Proof. apply Forall2_app; [apply marked_refl|]. constructor; [by right|apply marked_refl]. Qed.

Lemma put_wrote : wrote s e (l1 ++ (c, ch) :: l2) (csize l1 + o) bs s' (l1 ++ (c, ch') :: l2).
Proof.
  destruct put_range as (_ & _ & El). destruct (br_at _ _ _ _ _ _ H) as [Hc _].
  split; try done; [apply put_rep|apply put_marked|apply put_content| | |].
  - intros Ok. apply (heap_ok_put s1 d r sz b b' Hd El). by apply (heap_ok_upd_chunk _ _ ch).
  - intros x Hx. simpl. rewrite lookup_insert_ne; [done|]. intros <-. apply Hx. rewrite fmap_split.
    apply elem_of_app. right. by left.
  - intros x Hx. simpl. rewrite lookup_insert_ne; [done|]. intros <-. apply (Hx (c, ch)); [|done].
    apply elem_of_app. right. by left.
Qed.

Lemma put_writable : all_writable s e (l1 ++ (c, ch) :: l2) → all_writable s' e (l1 ++ (c, ch') :: l2).
Proof.
  intros Hw x Hx'. assert (x ∈ e :: (l1 ++ (c, ch) :: l2).*1) as Hx by (by rewrite fmap_split in Hx' |- *).
  destruct (Hw x Hx) as (chx & Hcx & Hwx). destruct (br_at _ _ _ _ _ _ H) as [Hc _].
  destruct (decide (x = c)) as [->|Hne]; [exists ch'|exists chx]; simpl.
  - rewrite lookup_insert_eq. simplify_eq. done.
  - by rewrite lookup_insert_ne.
Qed.
End put.
End store.

(** ** The loop *)

#[local] Arguments basic_bytes : simpl never.

Section write.
Implicit Types s : vbstate.

Lemma wrote_refl s e cs p : buf_rep s e cs → 0 ≤ p → wrote s e cs p [] s cs.
Proof. intros H Hp. split; try done; [apply marked_refl|]. rewrite zput_nil; done. Qed.

Lemma marked_data (cs cs' : list seg) d :
  Forall2 marked_as cs cs' → (∀ x, x ∈ cs → ch_data x.2 ≠ Some d) → ∀ x, x ∈ cs' → ch_data x.2 ≠ Some d.
Proof. intros HF Hd x (y & Hy & [->| ->])%(marked_in _ _ _ HF); by apply (Hd y). Qed.

Lemma wrote_trans s e cs p b1 b2 s1 cs1 s2 cs2 :
  buf_rep s e cs → 0 ≤ p → p + zlen b1 + zlen b2 ≤ csize cs →
  wrote s e cs p b1 s1 cs1 → wrote s1 e cs1 (p + zlen b1) b2 s2 cs2 → wrote s e cs p (b1 ++ b2) s2 cs2.
Proof.
  intros H Hp Hle [R1 F1 C1 O1 L1 K1 D1 M1 E1 P1] [R2 F2 C2 O2 L2 K2 D2 M2 E2 P2].
  pose proof (shape_names _ _ (marked_shape _ _ F1)) as En. split; try done; try congruence.
  - by eapply marked_trans.
  - rewrite C2, C1. apply zput_concat; [done|]. by rewrite (br_len _ _ _ H).
  - auto.
  - intros x Hx. rewrite K2 by (by rewrite <- En). by apply K1.
  - intros d Hd. rewrite D2 by (by eapply marked_data). by apply D1.
Qed.

Lemma wrote_nil s e cs p q s' cs' : 0 ≤ p → 0 ≤ q → wrote s e cs p [] s' cs' → wrote s e cs q [] s' cs'.
Proof. intros Hp Hq [R F C O L K D M E P]. split; try done. by rewrite zput_nil in *. Qed.

(** The store of one block. *)
Lemma runs_store_block s d r sz b a bs Q :
  vb_datas s !! d = Some (Data r (vbuffer_data_basic_ops sz b)) → 0 ≤ a → a + zlen bs ≤ zlen b →
  Q tt (put_block d r sz (zput a bs b) s) → runs (ptr_write (d, a) bs) s Q.
Proof.
  intros Hd Ha Hl HQ. unfold ptr_write. cbn [fst snd]. call runs_rd_data; [exact Hd|]. cbn [dt_body dt_ref].
  step; [by apply bool_decide_true|]. unfold wr_data. step. exact HQ.
Qed.

Lemma write_loop_spec data e : ∀ fuel s cs l2 l1 it o rem src dn Q,
  buf_rep s e cs → separate cs → all_writable s e cs → cursor e cs data it l1 l2 o rem →
  (length l2 ≤ fuel)%nat → 0 ≤ o →
  (∀ s' cs', wrote s e cs (csize l1 + o) (ztake (zlen src `min` rem) src) s' cs' →
     Q (dn + zlen src `min` rem) s') →
  runs (write_loop fuel data it src dn) s Q.
Proof.
  induction fuel as [|fuel IH]; intros s cs l2 l1 it o rem src dn Q H Hsep Hw Hc Hf Ho HQ;
    pose proof (cursor_rem _ _ _ H _ _ _ _ _ _ Hc) as Hr; pose proof (zlen_nonneg src) as Hz;
    (assert (0 ≤ csize l1 + o) as Hp by (pose proof H as H'; rewrite (cu_split _ _ _ _ _ _ _ _ Hc) in H';
      destruct (br_parts _ _ _ _ H') as (? & _); lia)); simpl.
  - assert (rem = 0 ∨ src = [] → Q dn s) as Hstop.
    { intros Hs. assert (zlen src `min` rem = 0) as E by (destruct Hs as [->| ->]; [lia|rewrite zlen_nil in *; lia]).
      rewrite E, ztake_0, Z.add_0_r in HQ. by apply (HQ s cs), wrote_refl. }
    case_test as E0; [step; apply Hstop; by right|].
    call runs_mmap; [exact H|done|exact Hc|]. intros [[[[d a] len] p]|] it' s' Hn; simpl in Hn.
    + destruct Hn as (l1' & c & ch & l2' & o' & b & _ & _ & ? & _). lia.
    + destruct Hn as [-> ->]. step. apply Hstop. by left.
  - assert (rem = 0 ∨ src = [] → Q dn s) as Hstop.
    { intros Hs. assert (zlen src `min` rem = 0) as E by (destruct Hs as [->| ->]; [lia|rewrite zlen_nil in *; lia]).
      rewrite E, ztake_0, Z.add_0_r in HQ. by apply (HQ s cs), wrote_refl. }
    case_test as E0; [step; apply Hstop; by right|].
    call runs_mmap; [exact H|done|exact Hc|]. intros [[[[d a] len] p]|] it' s' Hn; simpl in Hn.
    2:{ destruct Hn as [-> ->]. step. apply Hstop. by left. }
    destruct Hn as (l1' & c & ch & l2' & o' & b & E & Ep & Hlt & Ho' & Hl & Hlr & Hle & Ec & Ed & Hb & -> & Hc' & Hend & ->).
    replace (if bool_decide (len > zlen src) then zlen src else len) with (len `min` zlen src)
      by (case_bool_decide; lia).
    set (n := len `min` zlen src). assert (zlen (ztake n src) = n) as En by (apply zlen_ztake; lia).
    pose proof H as H'. rewrite E in H'. destruct (br_at _ _ _ _ _ _ H') as [_ Oc].
    destruct (co_data _ _ Oc Ec) as (Hof & b0 & Hb0 & Hbl). rewrite Ed, Hb in Hb0. injection Hb0 as <-.
    unfold basic_bytes in Hb. simpl in Hb. destruct (vb_datas s !! d) as [[r bd]|] eqn:Hd; [|done].
    simpl in Hb. destruct bd as [sz b0| | |]; [|done..]. injection Hb as ->. simpl.
    call (runs_store_block _ d r sz b); [exact Hd|lia|lia|].
    subst cs. destruct (br_size _ _ _ _ _ _ H') as (?&?&?&?).
    assert (∀ y, y ∈ l1' ++ l2' → apart ch y.2) as Hap by (intros y Hy; by apply (Hsep l1' (c, ch) l2' y)).
    pose proof (put_wrote s e l1' c ch l2' d r sz b o' (ztake n src) H' Hap Ec Ed Hd Ho' ltac:(lia)) as W1.
    pose proof (put_writable s e l1' c ch l2' d r sz b o' (ztake n src) H' Hap Ec Ed Hd Ho' ltac:(lia) Hw) as Hw1.
    pose proof (wr_same _ _ _ _ _ _ _ W1) as F1.
    set (s1 := put_block _ _ _ _ _) in *.
    eapply (IH s1 (l1' ++ (c, set_modified true ch) :: l2') l2' (l1' ++ [(c, set_modified true ch)]) it' 0 (rem - len));
      [apply (wr_buf _ _ _ _ _ _ _ W1)|by eapply separate_marked|exact Hw1| |lia|lia|].
    { eapply (cursor_shape e _ data it' (l1' ++ [(c, ch)]) l2'); [by rewrite <- app_assoc|by rewrite <- app_assoc| |done].
      by rewrite !shape_app. }
    intros s2 cs2 W2. rewrite zlen_zdrop in W2 |- * by lia.
    assert (n + (zlen src - n) `min` (rem - len) = zlen src `min` rem) as Esum by (unfold n in *; lia).
    rewrite <- Z.add_assoc, Esum. apply (HQ s2 cs2). rewrite <- Esum.
    rewrite ztake_add by lia. rewrite <- Ep.
    eapply wrote_trans; [exact H'|lia| |exact W1|].
    + rewrite En, zlen_ztake by (rewrite zlen_zdrop; lia). pose proof (cursor_rem _ _ _ H _ _ _ _ _ _ Hc).
      pose proof (cu_split _ _ _ _ _ _ _ _ Hc) as Ecs. rewrite Ecs, csize_app. lia.
    + rewrite En. rewrite csize_app, csize_cons, csize_nil in W2. simpl in W2.
      destruct (decide (n = len ∧ o' + len = ch_size ch)) as [[En' Eend]|Hno].
      * replace (csize l1' + o' + n) with (csize l1' + (ch_size ch + 0) + 0) by lia. exact W2.
      * assert ((zlen src - n) `min` (rem - len) = 0) as Ez by lia. rewrite Ez, ztake_0 in *.
        eapply wrote_nil; [| |exact W2]; lia.
Qed.

Lemma runs_sub_write s e cs data p q src Q :
  buf_rep s e cs → separate cs → all_writable s e cs → sub_range e cs data p q →
  (∀ s' cs', wrote s e cs p (ztake (zlen src `min` (q - p)) src) s' cs' → Q (zlen src `min` (q - p)) s') →
  runs (vbuffer_sub_write data src) s Q.
Proof.
  intros H Hsep Hw Hr HQ. unfold vbuffer_sub_write. call runs_sub_check; [exact H|exact Hr|]. simpl. call runs_chunk_fuel.
  destruct (range_cursor _ _ _ H _ _ _ Hr) as (l1 & l2 & o & Hc & <- & Ho).
  eapply write_loop_spec; [exact H|done|done|exact Hc| |done|].
  - pose proof (br_fuel _ _ _ H) as Hf. rewrite (cu_split _ _ _ _ _ _ _ _ Hc), length_app in Hf. lia.
  - intros s' cs' W. rewrite Z.add_0_l. by apply (HQ s' cs').
Qed.

Lemma sub_range_shape e cs cs' data p q : shape cs = shape cs' → sub_range e cs data p q → sub_range e cs' data p q.
Proof.
  intros E. unfold sub_range. rewrite <- (shape_csize _ _ E).
  destruct data as [[[c|] o m [|]] [|] [[[c'|] o' m' [|]]|n]]; simpl; try done; intros (Hp & Hq & Ho);
    (split; [by eapply pos_of_shape|split; [first [exact Hq|by eapply pos_of_shape]|exact Ho]]).
Qed.

Lemma sub_range_order s e cs data p q : buf_rep s e cs → sub_range e cs data p q → 0 ≤ p ≤ q ∧ q ≤ csize cs.
Proof.
  intros H Hr. destruct (range_cursor _ _ _ H _ _ _ Hr) as (l1 & l2 & o & Hc & <- & Ho).
  pose proof (cursor_rem _ _ _ H _ _ _ _ _ _ Hc). pose proof H as H'. rewrite (cu_split _ _ _ _ _ _ _ _ Hc) in H' |- *.
  destruct (br_parts _ _ _ _ H') as (? & ? & _). rewrite csize_app. lia.
Qed.

(** A buffer in other blocks does not see the write. *)
Lemma wrote_other s e cs p bs s' cs' e0 cs0 :
  buf_rep s e cs → wrote s e cs p bs s' cs' → buf_rep s e0 cs0 → e0 ≠ e →
  (∀ x y d, x ∈ cs0 → y ∈ cs → ch_data x.2 = Some d → ch_data y.2 ≠ Some d) →
  buf_rep s' e0 cs0 ∧ content s' cs0 = content s cs0.
Proof.
  intros H [_ _ _ _ L K D _ _ _] H0 Hne Hsh.
  assert (∀ x, x ∈ e0 :: cs0.*1 → vb_chunks s' !! x = vb_chunks s !! x) as HK.
  { intros x Hx. apply K. intros Hi. apply (buf_disjoint s e0 cs0 e cs x H0 H Hne Hx). by right. }
  assert (∀ c ch, (c, ch) ∈ cs0 → chunk_ok s' ch ∧ chunk_bytes s' ch = chunk_bytes s ch) as HC.
  { intros c ch Hi. apply chunk_ok_kept; [|by eapply br_ok; [exact H0|]]. intros d [r bd] Ed Hd. exists r.
    rewrite D; [done|]. intros y Hy. by apply (Hsh (c, ch) y d). }
  destruct H0 as [Ls E C Sm]. split; [split|].
  - by rewrite L.
  - destruct E as (ch & ? & ?). exists ch. by rewrite HK by (by left).
  - intros c ch Hi. destruct (C c ch Hi). split; [|by apply (HC c)]. rewrite HK; [done|].
    right. apply list_elem_of_fmap. by exists (c, ch).
  - done.
  - apply content_kept. intros c ch Hi. by apply (HC c).
Qed.
End write.

(** ** The claims *)

(** C34 [vbuffer_sub_write] stores the bytes of [src] from the beginning of the range
    on, as many as the range holds, returns their number, and changes neither the
    bytes before and behind them nor a buffer that lies in other blocks. *)
Theorem vbuffer_sub_write_correct s e cs data p q src :
  heap_ok s → buf_rep s e cs → separate cs → all_writable s e cs → sub_range e cs data p q →
  let n := zlen src `min` (q - p) in
  runs (vbuffer_sub_write data src) s (λ r s', r = n ∧ heap_ok s' ∧ ∃ cs',
    buf_rep s' e cs' ∧ content s' cs' = ztake p (content s cs) ++ ztake n src ++ zdrop (p + n) (content s cs) ∧
    sub_range e cs' data p q ∧ vb_error s' = vb_error s ∧
    (∀ e0 cs0, buf_rep s e0 cs0 → e0 ≠ e →
       (∀ x y d, x ∈ cs0 → y ∈ cs → ch_data x.2 = Some d → ch_data y.2 ≠ Some d) →
       buf_rep s' e0 cs0 ∧ content s' cs0 = content s cs0)).
Proof.
  intros Ok H Hsep Hw Hr n. eapply runs_sub_write; [exact H|done|done|exact Hr|]. intros s' cs' W. fold n in W |- *.
  destruct (sub_range_order _ _ _ _ _ _ H Hr) as [? ?]. pose proof (zlen_nonneg src).
  assert (zlen (ztake n src) = n) as En by (apply zlen_ztake; lia).
  split; [done|]. split; [by apply (wr_heap _ _ _ _ _ _ _ W)|]. exists cs'. split_and!.
  - apply (wr_buf _ _ _ _ _ _ _ W).
  - rewrite (wr_content _ _ _ _ _ _ _ W). unfold zput. by rewrite En.
  - eapply sub_range_shape; [|exact Hr]. apply marked_shape, (wr_same _ _ _ _ _ _ _ W).
  - apply (wr_error _ _ _ _ _ _ _ W).
  - intros e0 cs0 Hb0 Hne Hsh. eapply wrote_other; [exact H|exact W|exact Hb0|exact Hne|exact Hsh].
Qed.

(** What was written to a sub-buffer is what is read from it, over any number of
    chunks. *)
Theorem vbuffer_write_read_roundtrip s e cs data p q src :
  heap_ok s → buf_rep s e cs → separate cs → all_writable s e cs → sub_range e cs data p q → zlen src = q - p →
  runs (_ ← vbuffer_sub_write data src; vbuffer_sub_read data (q - p)) s (λ r _, r = src).
Proof.
  intros Ok H Hsep Hw Hr Hl. call runs_sub_write; [exact H|done|done|exact Hr|]. intros s' cs' [R F C _ _ _ _ _ _ _].
  destruct (sub_range_order _ _ _ _ _ _ H Hr) as [? ?]. rewrite Z.min_l, ztake_ge in C by lia.
  eapply runs_sub_read; [exact R|eapply sub_range_shape; [|exact Hr]; by apply marked_shape|lia|].
  rewrite Z.min_id, C, <- Hl. apply zslice_zput_same; [lia|]. rewrite (br_len _ _ _ H). lia.
Qed.

(** ** Witnesses *)

(** The buffer of the examples, cut at 4: two chunks of one block. *)
Definition ex_cut : vbstate := run (vbuffer_iterator_split (Iter (Some 2%positive) 4 0 false)) ex2.
Definition ex_cut_cs : list seg :=
  [(2%positive, Chunk 1 plain (Some 1%positive) 0 4); (7%positive, Chunk 1 plain (Some 1%positive) 4 2)].
Definition ex_cut_sub : vbuffer_sub := Sub (Iter (Some 2%positive) 3 0 false) true (SubLength 2).

Lemma ex_written_rep : buf_rep ex_cut 3 ex_cut_cs.
Proof. concrete_rep. Qed.

Lemma ex_cut_heap : heap_ok ex_cut.
Proof.
  apply (runs_run _ _ heap_ok). unfold vbuffer_iterator_split.
  call runs_iter_check; [apply ex2_rep|by apply ex_pos|]. cbn [negb].
  call runs_split; [apply ex2_heap|apply ex2_rep|by apply (ex_pos 4)|by vm_compute|done|].
  intros s' l1 l2 Hs. call runs_iter_update; [done|lia|]. step. apply Hs.
Qed.

Lemma ex_cut_separate : separate ex_cut_cs.
Proof.
  unfold ex_cut_cs. intros l1 x l2 y E Hy. destruct l1 as [|x1 [|x2 [|x3 l1]]]; simplify_eq/=; intros _ _ _.
  - apply list_elem_of_singleton in Hy as ->. by left.
  - apply list_elem_of_singleton in Hy as ->. by right.
Qed.

Lemma ex_cut_writable : all_writable ex_cut 3 ex_cut_cs.
Proof.
  intros c Hc. simpl in Hc. repeat (apply elem_of_cons in Hc as [->|Hc]; [eexists; by split; [vm_compute|]|]).
  by apply elem_of_nil in Hc.
Qed.

Lemma ex_cut_range : sub_range 3 ex_cut_cs ex_cut_sub 3 5.
Proof.
  split_and!; [|done|done|done]. left. exists [], (Chunk 1 plain (Some 1%positive) 0 4), [(7%positive, Chunk 1 plain (Some 1%positive) 4 2)].
  split_and!; done.
Qed.

Lemma vbuffer_sub_write_correct_witness :
  runs (vbuffer_sub_write ex_cut_sub [1; 2; 9]) ex_cut (λ r s', r = 2 ∧ ∃ cs',
    buf_rep s' 3 cs' ∧ content s' cs' = [104; 101; 108; 1; 2; 33]).
Proof.
  eapply runs_mono; [apply (vbuffer_sub_write_correct ex_cut 3 ex_cut_cs ex_cut_sub 3 5 [1; 2; 9]);
    [apply ex_cut_heap|apply ex_written_rep|apply ex_cut_separate|apply ex_cut_writable|apply ex_cut_range]|].
  intros r s' (-> & _ & cs' & R & C & _). split; [vm_compute; reflexivity|]. exists cs'. split; [exact R|].
  rewrite C. vm_compute. reflexivity.
Defined.

Lemma vbuffer_write_read_roundtrip_witness :
  runs (_ ← vbuffer_sub_write ex_cut_sub [1; 2]; vbuffer_sub_read ex_cut_sub 2) ex_cut (λ r _, r = [1; 2]).
Proof.
  apply (vbuffer_write_read_roundtrip ex_cut 3 ex_cut_cs ex_cut_sub 3 5 [1; 2]);
    [apply ex_cut_heap|apply ex_written_rep|apply ex_cut_separate|apply ex_cut_writable|apply ex_cut_range|done].
Defined.
