(* ===== verification/VbNum.v ===== *)
(** * Numbers and bit fields of sub-buffers (lib/haka/vbuffer.c)

    [vbuffer_asnumber], [vbuffer_setnumber], [vbuffer_asbits] and [vbuffer_setbits].
    The types are those of the C expressions: [bswap_16], [bswap_32] and [bswap_64]
    are unsigned, so that the conditional expressions of [vbuffer_asnumber] have the
    types [int], [uint32] and [uint64]. A shift by a count out of range, or of an
    [int] or [int64] out of its range, is undefined: the run has no result. *)

From S2P Require Import Prelude Types VbHeap VbIter VbSub.

(** ** Numbers *)

(** The [switch] of [vbuffer_asnumber] on the bytes at [ptr]. *)
Definition number_of (length : Z) (bigendian : bool) (bs : list Z) : option Z :=
  let x := le_value bs in
  match length with
  | 1 => Some x
  | 2 => Some (if bigendian then SWAP_FROM_BE 2 x else s16 x)
  | 4 => Some (if bigendian then SWAP_FROM_BE 4 x else x)
  | 8 => Some (s64 (if bigendian then SWAP_FROM_BE 8 x else x))
  | _ => None
  end.

Definition is_number (length : Z) : bool :=
  match length with 1 | 2 | 4 | 8 => true | _ => false end.

Definition vbuffer_asnumber (data : vbuffer_sub) (bigendian : bool) : VM Z :=
  length ← vbuffer_sub_size data;
  if bool_decide (length = size_max) then ret 0 else
  if bool_decide (length > 8) then error "asnumber: unsupported size %zu";; ret 0 else
  flat ← vbuffer_sub_isflat data;
  let result (bs : VM (list Z)) :=
    if is_number length then bs ← bs; n ← deref (number_of length bigendian bs); ret n
    else error "asnumber: unsupported size %zu";; ret 0 in
  if flat : bool then
    '(r, _) ← vbuffer_mmap data false vbuffer_mmap_init;
    match r with
    | None => ret 0
    | Some (b, o, mmaplen, _) =>
        c_assert (bool_decide (mmaplen = length));; result (ptr_read (b, o) length)
    end
  else
    temp ← vbuffer_sub_read data length;
    (* bytes of [temp] that were not read are not initialised *)
    result (c_assert (bool_decide (zlen temp = length));; ret temp).

(** The bytes [vbuffer_setnumber] stores. *)
Definition number_bytes (length : Z) (bigendian : bool) (num : Z) : list Z :=
  let x := wrap (8 * length) num in
  le_bytes (Z.to_nat length) (if bigendian then SWAP_TO_BE length x else x).

(** The test of the value against a mask of [bits] bits. *)
Definition fits (bits num : Z) : VM bool :=
  c_assert (bool_decide (0 ≤ bits < 64));;
  c_assert (bool_decide (- 2 ^ 63 < num));;
  let mask := u64 (Z.shiftl 1 bits - 1) in
  ret (negb (bool_decide (num < 0) && negb (bool_decide (Z.land (u64 (- num)) mask = u64 (- num))) ||
             bool_decide (0 ≤ num) && negb (bool_decide (Z.land (u64 num) mask = u64 num)))).

Definition vbuffer_setnumber (data : vbuffer_sub) (bigendian : bool) (num : Z) : VM bool :=
  length ← vbuffer_sub_size data;
  if bool_decide (length = size_max) then ret false else
  if bool_decide (length > 8) then error "setnumber: unsupported size %zu";; ret false else
  ok ← fits (length * 8) num;
  if negb ok then error "setnumber: invalid number, value does not fit in %zu bytes";; ret false else
  flat ← vbuffer_sub_isflat data;
  if flat : bool then
    '(r, _) ← vbuffer_mmap data true vbuffer_mmap_init;
    match r with
    | None => ret false
    | Some (b, o, _, _) =>
        if is_number length then ptr_write (b, o) (number_bytes length bigendian num);; ret true
        else error "setnumber: unsupported size %zu";; ret false
    end
  else if is_number length then
    _ ← vbuffer_sub_write data (number_bytes length bigendian num); ret true
  else error "setnumber: unsupported size %zu";; ret false.

(** ** Bit fields *)

Definition bit_pos (off size : Z) (bigendian : bool) : Z := if bigendian then 8 - off - size else off.

Definition getbits (x off size : Z) (bigendian : bool) : VM Z :=
  let off := bit_pos off size bigendian in
  c_assert (bool_decide (0 ≤ off < 32 ∧ 0 ≤ size < 31));;
  ret (u8 (Z.land (Z.shiftr x off) (Z.shiftl 1 size - 1))).

Definition setbits (x off size v : Z) (bigendian : bool) : VM Z :=
  let off := bit_pos off size bigendian in
  c_assert (bool_decide (0 ≤ off < 32 ∧ 0 ≤ size < 31 ∧ (2 ^ size - 1) * 2 ^ off < 2 ^ 31));;
  ret (u8 (Z.lor (Z.land x (Z.lnot (Z.shiftl (Z.shiftl 1 size - 1) off)))
                 (Z.shiftl (Z.land v (Z.shiftl 1 size - 1)) off))).

(** [bits > 8-off ? 8-off : bits], where [8-off] is converted to [size_t]. *)
Definition part_size (bits off : Z) : Z := if bool_decide (bits > u64 (8 - off)) then 8 - off else s32 bits.

(** The loop over the bytes [temp[begin .. end)]. *)
Fixpoint asbits_loop (temp : list Z) (off bits : Z) (bigendian : bool) (acc shiftbits : Z) : VM Z :=
  match temp with
  | [] => ret acc
  | x :: temp =>
      let size := part_size bits off in
      g ← getbits x off size bigendian;
      if bigendian then
        c_assert (bool_decide (0 ≤ size < 64 ∧ 0 ≤ acc ∧ acc * 2 ^ size < 2 ^ 63));;
        asbits_loop temp 0 (u64 (bits - size)) bigendian (Z.lor (Z.shiftl acc size) g) shiftbits
      else
        c_assert (bool_decide (0 ≤ shiftbits < 32 ∧ g * 2 ^ shiftbits < 2 ^ 31));;
        asbits_loop temp 0 (u64 (bits - size)) bigendian (Z.lor acc (Z.shiftl g shiftbits)) (shiftbits + size)
  end.

Definition byte_end (offset bits : Z) : Z := Z.shiftr (u64 (offset + bits + 7)) 3.

(** [off] is the offset of the call, not the one in its byte. *)
Definition vbuffer_asbits (data : vbuffer_sub) (offset bits : Z) (bigendian : bool) : VM Z :=
  length ← vbuffer_sub_size data;
  let off := s32 offset in
  let begin := Z.shiftr offset 3 in
  let end_ := byte_end offset bits in
  if bool_decide (length = size_max) then ret 0 else
  if bool_decide (length ≤ begin) then error "asbits: invalid bit offset";; ret (-1) else
  if bool_decide (end_ > length) then error "asbits: invalid bit size";; ret (-1) else
  if bool_decide (end_ > 8) then error "asbits: unsupported size";; ret (-1) else
  temp ← vbuffer_sub_read data end_;
  c_assert (bool_decide (zlen temp = end_));;
  asbits_loop (zdrop begin temp) off bits bigendian 0 0.

Fixpoint setbits_loop (temp : list Z) (off bits : Z) (bigendian : bool) (num : Z) : VM (list Z) :=
  match temp with
  | [] => ret []
  | x :: temp =>
      let size := part_size bits off in
      let bits := u64 (bits - size) in
      if bigendian then
        c_assert (bool_decide (0 ≤ bits < 64));;
        y ← setbits x off size (u8 (Z.shiftr num bits)) true;
        rest ← setbits_loop temp 0 bits bigendian num;
        ret (y :: rest)
      else
        y ← setbits x off size (u8 num) false;
        c_assert (bool_decide (0 ≤ size < 64));;
        rest ← setbits_loop temp 0 bits bigendian (Z.shiftr num size);
        ret (y :: rest)
  end.

(** [return -1] in a [bool] is true. *)
Definition vbuffer_setbits (data : vbuffer_sub) (offset bits : Z) (bigendian : bool) (num : Z) : VM bool :=
  if bool_decide (bits > 64) then error "setbits: unsupported size %zu";; ret false else
  ok ← fits bits num;
  if negb ok then error "setbits: invalid number, value does not fit in %zd bits";; ret false else
  length ← vbuffer_sub_size data;
  let off := s32 offset in
  let begin := Z.shiftr offset 3 in
  let end_ := byte_end offset bits in
  if bool_decide (length = size_max) then ret false else
  if bool_decide (length ≤ begin) then error "setbits: invalid bit offset";; ret true else
  if bool_decide (end_ > length) then error "setbits: invalid bit size";; ret true else
  if bool_decide (end_ > 8) then error "setbits: unsupported size";; ret false else
  temp ← vbuffer_sub_read data end_;
  c_assert (bool_decide (zlen temp = end_));;
  rest ← setbits_loop (zdrop begin temp) off bits bigendian num;
  _ ← vbuffer_sub_write data (ztake begin temp ++ rest);
  ret true.
