(* ===== verification/VbBits.v ===== *)
(** * Bit fields

    The loops of [vbuffer_asbits] and [vbuffer_setbits] against a definition on
    integers: a field of [bits] bits at the offset [off] is a digit of the big or
    little-endian value of the bytes. *)

From S2P Require Import Prelude Types VbHeap VbIter VbSub VbNum.

(** ** Fields of integers *)

(** The [n] bits of [v] from bit [k] on. *)
Definition digit (v k n : Z) : Z := (v / 2 ^ k) `mod` 2 ^ n.

Fixpoint be_value (bs : list Z) : Z :=
  match bs with [] => 0 | b :: bs => b * 2 ^ (8 * zlen bs) + be_value bs end.

(** The place of a field in the value of the bytes. *)
Definition field_pos (bigendian : bool) (n off bits : Z) : Z := if bigendian then 8 * n - off - bits else off.
Definition value_of (bigendian : bool) (bs : list Z) : Z := if bigendian then be_value bs else le_value bs.
Definition field (bigendian : bool) (bs : list Z) (off bits : Z) : Z :=
  digit (value_of bigendian bs) (field_pos bigendian (zlen bs) off bits) bits.

Section digits.

Lemma digit_range v k n : 0 ≤ n → 0 ≤ digit v k n < 2 ^ n.
Proof. intros. apply Z.mod_pos_bound. lia. Qed.

Lemma digit_small v n : 0 ≤ v < 2 ^ n → digit v 0 n = v.
Proof. intros. unfold digit. rewrite Z.pow_0_r, Z.div_1_r. by apply Z.mod_small. Qed.

Lemma land_ones_digit v k n : 0 ≤ k → 0 ≤ n → Z.land (Z.shiftr v k) (Z.shiftl 1 n - 1) = digit v k n.
Proof.
  intros. rewrite Z.shiftl_1_l, Z.sub_1_r, <- Z.ones_equiv.
  rewrite Z.land_ones by lia. by rewrite Z.shiftr_div_pow2.
Qed.

(** A digit over two others. *)
Lemma digit_split v k a b : 0 ≤ k → 0 ≤ a → 0 ≤ b → digit v k (a + b) = digit v k a + 2 ^ a * digit v (k + a) b.
Proof.
  intros. unfold digit. rewrite Z.pow_add_r, (Z.pow_add_r 2 k) by lia. rewrite <- Z.div_div by lia.
  rewrite Z.rem_mul_r by lia. done.
Qed.

(** Replacing a digit. *)
Lemma digit_put v k n x : 0 ≤ k → 0 ≤ n → digit (v + (x - digit v k n) * 2 ^ k) k n = x `mod` 2 ^ n.
Proof.
  intros. unfold digit at 1. rewrite Z.div_add by lia. unfold digit.
  rewrite Zplus_mod, Zminus_mod, Zmod_mod, <- Zminus_mod, <- Zplus_mod. f_equal. lia.
Qed.

(** The other digits stay. *)
Lemma digit_put_low v k n x : 0 ≤ k → (v + (x - digit v k n) * 2 ^ k) `mod` 2 ^ k = v `mod` 2 ^ k.
Proof. intros. by rewrite Z.mod_add by lia. Qed.

Lemma digit_put_high v k n x : 0 ≤ k → 0 ≤ n → 0 ≤ x < 2 ^ n →
  (v + (x - digit v k n) * 2 ^ k) / 2 ^ (k + n) = v / 2 ^ (k + n).
Proof.
  intros. rewrite Z.pow_add_r by lia. rewrite <- !Z.div_div by lia. rewrite Z.div_add by lia. unfold digit.
  pose proof (Z.div_mod (v / 2 ^ k) (2 ^ n)) as E.
  replace (v / 2 ^ k + (x - (v / 2 ^ k) `mod` 2 ^ n)) with (x + v / 2 ^ k / 2 ^ n * 2 ^ n) by lia.
  rewrite Z.div_add by lia. rewrite (Z.div_small x) by lia. done.
Qed.

Lemma lor_shiftl a n b : 0 ≤ n → 0 ≤ b < 2 ^ n → Z.lor (Z.shiftl a n) b = a * 2 ^ n + b.
Proof.
  intros Hn Hb. rewrite <- Z.shiftl_mul_pow2 by lia. symmetry. rewrite Z.add_nocarry_lxor, Z.lxor_lor; [done|..].
  all: apply Z.bits_inj'; intros i Hi; rewrite Z.land_spec, Z.bits_0, Z.shiftl_spec by lia;
    (destruct (decide (i < n)); [by rewrite Z.testbit_neg_r by lia|]);
    rewrite <- (Z.mod_small b (2 ^ n)), Z.mod_pow2_bits_high by lia; by rewrite andb_false_r.
Qed.

(** The expression of [setbits]. *)
Lemma mask_digit x k n : 0 ≤ k → 0 ≤ n → Z.land x (Z.shiftl (Z.ones n) k) = digit x k n * 2 ^ k.
Proof.
  intros Hk Hn. rewrite <- Z.shiftl_mul_pow2 by lia. unfold digit.
  rewrite <- Z.land_ones, <- Z.shiftr_div_pow2 by lia.
  apply Z.bits_inj'. intros i Hi. rewrite Z.land_spec, !Z.shiftl_spec by lia.
  destruct (decide (i < k)); [rewrite !(Z.testbit_neg_r _ (i - k)) by lia; by rewrite andb_false_r|].
  rewrite Z.land_spec, Z.shiftr_spec by lia. by replace (i - k + k) with i by lia.
Qed.

Lemma put_digit x k n v : 0 ≤ k → 0 ≤ n →
  Z.lor (Z.land x (Z.lnot (Z.shiftl (Z.shiftl 1 n - 1) k))) (Z.shiftl (Z.land v (Z.shiftl 1 n - 1)) k) =
  x + (v `mod` 2 ^ n - digit x k n) * 2 ^ k.
Proof.
  intros Hk Hn. rewrite Z.shiftl_1_l, Z.sub_1_r, <- Z.ones_equiv. set (m := Z.shiftl (Z.ones n) k).
  rewrite <- Z.ldiff_land, Z.land_ones by lia.
  assert (Z.ldiff x m = x - digit x k n * 2 ^ k) as Ed.
  { rewrite <- (mask_digit x k n) by lia. fold m. symmetry. etrans; [apply Z.sub_nocarry_ldiff|];
      apply Z.bits_inj'; intros i Hi; rewrite ?Z.ldiff_spec, ?Z.land_spec, ?Z.ldiff_spec, ?Z.bits_0;
      by destruct (Z.testbit x i), (Z.testbit m i). }
  assert (Z.land (Z.ldiff x m) (Z.shiftl (v `mod` 2 ^ n) k) = 0) as Hd.
  { apply Z.bits_inj'. intros i Hi. rewrite Z.land_spec, Z.ldiff_spec, Z.bits_0. unfold m.
    rewrite !Z.shiftl_spec by lia. destruct (decide (i < k)); [rewrite !(Z.testbit_neg_r _ (i - k)) by lia; by rewrite andb_false_r|].
    destruct (decide (i - k < n)).
    - rewrite Z.ones_spec_low by lia. by rewrite andb_false_r.
    - rewrite Z.mod_pow2_bits_high by lia. by rewrite andb_false_r. }
  rewrite <- Z.lxor_lor by done. rewrite <- Z.add_nocarry_lxor by done. rewrite Ed, Z.shiftl_mul_pow2 by lia. lia.
Qed.
End digits.

(** ** One byte after the other *)

(** The field ends in the last byte. *)
Definition ends_in (n off bits : Z) : Prop := 0 ≤ off < 8 ∧ 0 ≤ bits ∧ 8 * n - 8 < off + bits ≤ 8 * n.

Section step.
Context (x : Z) (temp : list Z) (off bits : Z).
Context (Hx : 0 ≤ x < 256) (Hb : byte_list temp) (He : ends_in (zlen temp + 1) off bits).
Let size := bits `min` (8 - off).
Let bits' := bits - size.
#[local] Set Default Proof Using "Hx Hb He".

Lemma next_ends : ends_in (zlen temp) 0 bits'.
Proof. unfold ends_in, bits', size in *. pose proof (zlen_nonneg temp). lia. Qed.

(** The last byte, or a byte that the field goes through. *)
Lemma step_cases : temp = [] ∧ size = bits ∨ 0 < zlen temp ∧ size = 8 - off.
Proof.
  unfold ends_in, size in *. destruct temp as [|y t]; [left|right].
  - change (zlen (@nil Z)) with 0 in He. split; [done|lia].
  - rewrite zlen_cons in *. pose proof (zlen_nonneg t). lia.
Qed.

Lemma be_range : 0 ≤ be_value temp < 2 ^ (8 * zlen temp).
Proof.
  clear He. induction Hb as [|b l Hbl _ IH]; [done|]. simpl be_value. rewrite zlen_cons.
  pose proof (zlen_nonneg l). replace (8 * (zlen l + 1)) with (8 * zlen l + 8) by lia. rewrite Z.pow_add_r by lia.
  change (2 ^ 8) with 256. apply Forall_cons in Hb as [_ Hb]. specialize (IH Hb). nia.
Qed.

Lemma be_step : field true (x :: temp) off bits = digit x (8 - off - size) size * 2 ^ bits' + field true temp 0 bits'.
Proof.
  pose proof be_range as Hr. unfold field, field_pos, value_of. rewrite zlen_cons. pose proof (zlen_nonneg temp).
  assert (0 ≤ size ∧ 0 ≤ bits') as [Hs Hb'] by (unfold ends_in, bits', size in *; lia).
  destruct step_cases as [[-> Es]|[Hn Es]].
  - assert (bits' = 0) as -> by (unfold bits'; lia). change (zlen (@nil Z)) with 0. simpl be_value.
    replace (8 * (0 + 1) - off - bits) with (8 - off - size) by lia. rewrite <- Es. simpl zlen.
    change (2 ^ (8 * 0)) with 1. rewrite Z.mul_1_r, Z.add_0_r, Z.pow_0_r, Z.mul_1_r.
    unfold digit at 3. rewrite Z.mod_1_r. lia.
  - rewrite Es. replace (8 - off - (8 - off)) with 0 by lia.
    replace bits with (bits' + size) at 2 by (unfold bits'; lia).
    replace (8 * (zlen temp + 1) - off - bits) with (8 * zlen temp - 0 - bits') by (unfold bits'; lia).
    set (k := 8 * zlen temp - 0 - bits'). assert (0 ≤ k) by (unfold k; unfold ends_in, bits' in *; lia).
    rewrite digit_split by lia. replace (k + bits') with (8 * zlen temp) by (unfold k; lia). rewrite Z.add_comm. f_equal.
    + rewrite Z.mul_comm, <- Es. f_equal. unfold digit. simpl be_value.
      rewrite Z.add_comm, Z.div_add, (Z.div_small (be_value temp)) by lia. by rewrite Z.pow_0_r, Z.div_1_r.
    + simpl be_value. unfold digit. replace (8 * zlen temp) with (k + bits') by (unfold k; lia).
      rewrite Z.pow_add_r by lia. replace (x * (2 ^ k * 2 ^ bits')) with (x * 2 ^ bits' * 2 ^ k) by lia.
      rewrite Z.add_comm, Z.div_add by lia. by rewrite Z.mod_add by lia.
Qed.

Lemma le_step : field false (x :: temp) off bits = digit x off size + 2 ^ size * field false temp 0 bits'.
Proof.
  unfold field, field_pos, value_of. assert (0 ≤ size ∧ 0 ≤ bits') as [Hs Hb'] by (unfold ends_in, bits', size in *; lia).
  replace bits with (size + bits') at 1 by (unfold bits'; lia). unfold ends_in in He.
  rewrite digit_split by lia. simpl le_value. destruct step_cases as [[-> Es]|[Hn Es]].
  - simpl. rewrite Z.add_0_r. unfold bits'. rewrite Es, Z.sub_diag. unfold digit. by rewrite !Z.mod_1_r.
  - f_equal.
    + unfold digit. rewrite Es. replace 256 with (2 ^ (8 - off) * 2 ^ off) by (rewrite <- Z.pow_add_r by lia; by replace (8 - off + off) with 8 by lia).
      replace (x + 2 ^ (8 - off) * 2 ^ off * le_value temp) with (x + le_value temp * 2 ^ (8 - off) * 2 ^ off) by lia.
      rewrite Z.div_add by lia. by rewrite Z.mod_add by lia.
    + f_equal. rewrite Es. replace (off + (8 - off)) with 8 by lia. unfold digit. change (2 ^ 8) with 256.
      rewrite (Z.mul_comm 256), Z.div_add, (Z.div_small x) by lia. by rewrite Z.pow_0_r, Z.div_1_r.
Qed.
End step.

(** ** Reading a field *)

Section read.
Implicit Types s : vbstate.

Lemma part_size_min bits off : 0 ≤ off < 8 → 0 ≤ bits < 2 ^ 31 → part_size bits off = bits `min` (8 - off).
Proof.
  intros Ho Hb. unfold part_size. rewrite u64_small by lia. case_bool_decide; [lia|].
  unfold s32. rewrite swrap_small by lia. lia.
Qed.

Lemma runs_getbits s x off size be (Q : Z → vbstate → Prop) :
  0 ≤ off → 0 ≤ size → off + size ≤ 8 → Q (digit x (bit_pos off size be) size) s → runs (getbits x off size be) s Q.
Proof.
  intros Ho Hs Hl HQ. unfold getbits. assert (0 ≤ bit_pos off size be ≤ 8) by (unfold bit_pos; destruct be; lia).
  step; [apply bool_decide_true; lia|]. step. rewrite land_ones_digit by lia.
  pose proof (digit_range x (bit_pos off size be) size Hs). assert (2 ^ size ≤ 2 ^ 8) by (apply Z.pow_le_mono_r; lia).
  by rewrite u8_small by lia.
Qed.

Lemma runs_asbits_be s : ∀ temp off bits acc (Q : Z → vbstate → Prop),
  byte_list temp → ends_in (zlen temp) off bits → 0 ≤ acc → (acc + 1) * 2 ^ bits ≤ 2 ^ 63 → bits < 2 ^ 31 →
  Q (acc * 2 ^ bits + field true temp off bits) s → runs (asbits_loop temp off bits true acc 0) s Q.
Proof.
  induction temp as [|x temp IH]; intros off bits acc Q Hb He Ha Hs Hl HQ; cbn [asbits_loop].
  - unfold ends_in in He. change (zlen (@nil Z)) with 0 in He. assert (off = 0 ∧ bits = 0) as [-> ->] by lia.
    step. rewrite Z.mul_1_r in HQ. unfold field, digit in HQ. rewrite Z.mod_1_r, Z.add_0_r in HQ. exact HQ.
  - apply Forall_cons in Hb as [Hx Hb]. rewrite zlen_cons in He. pose proof (next_ends x temp off bits Hx Hb He) as Hn.
    rewrite (be_step x temp off bits Hx Hb He) in HQ. unfold ends_in in He. rewrite part_size_min by lia.
    set (size := bits `min` (8 - off)) in *. set (bits' := bits - size) in *.
    assert (0 ≤ size ≤ 8 ∧ 0 ≤ bits' ∧ size + off ≤ 8) as (? & ? & ?) by (unfold size, bits'; lia).
    assert (2 ^ bits = 2 ^ size * 2 ^ bits') as Ep by (rewrite <- Z.pow_add_r by lia; f_equal; unfold bits'; lia).
    call runs_getbits; [lia|lia|lia|]. pose proof (digit_range x (bit_pos off size true) size ltac:(lia)) as Hg.
    assert (0 < 2 ^ size) by (apply Z.pow_pos_nonneg; lia). assert (0 < 2 ^ bits') by (apply Z.pow_pos_nonneg; lia).
    step; [apply bool_decide_true; split_and!; [lia|lia|lia|]; nia|].
    rewrite lor_shiftl by lia. rewrite u64_small by (unfold bits', size in *; lia).
    eapply IH; [done|exact Hn|nia|nia|unfold bits', size; lia|].
    replace ((acc * 2 ^ size + digit x (bit_pos off size true) size) * 2 ^ bits' + field true temp 0 bits')
      with (acc * 2 ^ bits + (digit x (8 - off - size) size * 2 ^ bits' + field true temp 0 bits')); [done|].
    rewrite Ep. unfold bit_pos. lia.
Qed.

Lemma runs_asbits_le s : ∀ temp off bits acc shift (Q : Z → vbstate → Prop),
  byte_list temp → ends_in (zlen temp) off bits → 0 ≤ acc < 2 ^ shift → 0 ≤ shift → shift + bits ≤ 31 →
  Q (acc + 2 ^ shift * field false temp off bits) s → runs (asbits_loop temp off bits false acc shift) s Q.
Proof.
  induction temp as [|x temp IH]; intros off bits acc shift Q Hb He Ha Hs Hl HQ; cbn [asbits_loop].
  - unfold ends_in in He. change (zlen (@nil Z)) with 0 in He. assert (off = 0 ∧ bits = 0) as [-> ->] by lia.
    step. unfold field, digit in HQ. rewrite Z.mod_1_r, Z.mul_0_r, Z.add_0_r in HQ. exact HQ.
  - apply Forall_cons in Hb as [Hx Hb]. rewrite zlen_cons in He. pose proof (next_ends x temp off bits Hx Hb He) as Hn.
    rewrite (le_step x temp off bits Hx Hb He) in HQ. unfold ends_in in He. rewrite part_size_min by lia.
    set (size := bits `min` (8 - off)) in *. set (bits' := bits - size) in *.
    assert (0 ≤ size ≤ 8 ∧ 0 ≤ bits' ∧ size + off ≤ 8) as (? & ? & ?) by (unfold size, bits'; lia).
    call runs_getbits; [lia|lia|lia|]. pose proof (digit_range x (bit_pos off size false) size ltac:(lia)) as Hg.
    assert (2 ^ size * 2 ^ shift = 2 ^ (shift + size)) as Ep by (rewrite <- Z.pow_add_r by lia; f_equal; lia).
    assert (2 ^ (shift + size) ≤ 2 ^ 31) by (apply Z.pow_le_mono_r; unfold bits' in *; lia).
    assert (0 < 2 ^ shift) by (apply Z.pow_pos_nonneg; lia).
    step; [apply bool_decide_true; split_and!; [lia|unfold bits' in *; lia|nia]|].
    rewrite Z.lor_comm, lor_shiftl by lia. rewrite u64_small by (unfold bits', size in *; lia).
    eapply IH; [done|exact Hn|rewrite <- Ep; nia|lia|unfold bits', size; lia|].
    replace (digit x (bit_pos off size false) size * 2 ^ shift + acc + 2 ^ (shift + size) * field false temp 0 bits')
      with (acc + 2 ^ shift * (digit x off size + 2 ^ size * field false temp 0 bits')); [done|].
    rewrite <- Ep. unfold bit_pos. lia.
Qed.

(** How many bits the loop can return: the accumulator is an [int64], but a part of a
    little-endian field is shifted as an [int]. *)
Definition bits_max (bigendian : bool) : Z := if bigendian then 63 else 31.

Lemma runs_asbits_loop s temp off bits be (Q : Z → vbstate → Prop) :
  byte_list temp → ends_in (zlen temp) off bits → bits ≤ bits_max be →
  Q (field be temp off bits) s → runs (asbits_loop temp off bits be 0 0) s Q.
Proof.
  intros Hb He Hl HQ. unfold bits_max in Hl. destruct be.
  - apply runs_asbits_be; [done|done|lia| |lia|done]. rewrite Z.add_0_l, Z.mul_1_l. apply Z.pow_le_mono_r; lia.
  - apply runs_asbits_le; [done|done|lia|lia|lia|]. by rewrite Z.pow_0_r, Z.mul_1_l, Z.add_0_l.
Qed.
End read.

(** ** Writing a field *)

(** The bytes [t'] are those of [t] with the field replaced by [num]. *)
Record field_put (be : bool) (t : list Z) (off bits num : Z) (t' : list Z) : Prop := {
  fp_bytes : byte_list t';
  fp_len : zlen t' = zlen t;
  fp_value : value_of be t' =
    value_of be t + (num `mod` 2 ^ bits - field be t off bits) * 2 ^ field_pos be (zlen t) off bits;
}.

Section write.
Implicit Types s : vbstate.

Lemma digit_fits x k n : 0 ≤ x → 0 ≤ k → 0 ≤ n → digit x k n * 2 ^ k ≤ x.
Proof.
  intros. unfold digit. assert (0 < 2 ^ k) by (apply Z.pow_pos_nonneg; lia).
  assert (0 < 2 ^ n) by (apply Z.pow_pos_nonneg; lia).
  pose proof (Z.mod_le (x / 2 ^ k) (2 ^ n) ltac:(apply Z.div_pos; lia) ltac:(lia)).
  pose proof (Z.mul_div_le x (2 ^ k) ltac:(lia)). nia.
Qed.

Lemma put_byte x k n w : 0 ≤ x < 256 → 0 ≤ k → 0 ≤ n → k + n ≤ 8 → 0 ≤ w < 2 ^ n →
  0 ≤ x + (w - digit x k n) * 2 ^ k < 256.
Proof.
  intros Hx Hk Hn Hl Hw. pose proof (digit_fits x k n ltac:(lia) Hk Hn).
  assert (0 < 2 ^ k) by (apply Z.pow_pos_nonneg; lia). split; [nia|].
  pose proof (digit_put_high x k n w Hk Hn Hw) as E. set (y := x + _) in *.
  assert (0 < 2 ^ (k + n)) as Hp by (apply Z.pow_pos_nonneg; lia).
  assert (2 ^ (k + n) * 2 ^ (8 - (k + n)) = 256) as E8 by (rewrite <- Z.pow_add_r by lia; by replace (k + n + (8 - (k + n))) with 8 by lia).
  assert (x / 2 ^ (k + n) < 2 ^ (8 - (k + n))) as Hq by (apply Z.div_lt_upper_bound; lia).
  pose proof (Z.mod_pos_bound y (2 ^ (k + n)) Hp). pose proof (Z.div_mod y (2 ^ (k + n)) ltac:(lia)). nia.
Qed.

Lemma runs_setbits s x off size v be (Q : Z → vbstate → Prop) :
  0 ≤ x < 256 → 0 ≤ off → 0 ≤ size → off + size ≤ 8 →
  (let k := bit_pos off size be in Q (x + (v `mod` 2 ^ size - digit x k size) * 2 ^ k) s) →
  runs (setbits x off size v be) s Q.
Proof.
  intros Hx Ho Hs Hl HQ. unfold setbits. set (k := bit_pos off size be) in *.
  assert (0 ≤ k ∧ k + size ≤ 8) as [Hk Hk'] by (unfold k, bit_pos; destruct be; lia).
  assert (2 ^ size * 2 ^ k ≤ 2 ^ 8) by (rewrite <- Z.pow_add_r by lia; apply Z.pow_le_mono_r; lia).
  assert (0 < 2 ^ k) by (apply Z.pow_pos_nonneg; lia).
  step; [apply bool_decide_true; split_and!; try lia; nia|]. step. rewrite put_digit by lia.
  rewrite u8_small; [done|]. apply put_byte; try lia. apply Z.mod_pos_bound, Z.pow_pos_nonneg; lia.
Qed.

Lemma u8_mod v n : 0 ≤ n ≤ 8 → u8 v `mod` 2 ^ n = v `mod` 2 ^ n.
Proof.
  intros Hn. unfold u8, wrap. replace (2 ^ 8) with (2 ^ n * 2 ^ (8 - n)) by (rewrite <- Z.pow_add_r by lia; f_equal; lia).
  apply Z.mod_mod_divide. apply Z.divide_factor_l.
Qed.

Lemma mod_split v a b : 0 ≤ a → 0 ≤ b → v `mod` 2 ^ (a + b) = v `mod` 2 ^ a + 2 ^ a * ((v / 2 ^ a) `mod` 2 ^ b).
Proof. intros. rewrite Z.pow_add_r by lia. apply Z.rem_mul_r; lia. Qed.

Lemma runs_setbits_be s num : ∀ temp off bits (Q : list Z → vbstate → Prop),
  byte_list temp → ends_in (zlen temp) off bits → bits ≤ 64 →
  (∀ t', field_put true temp off bits num t' → Q t' s) → runs (setbits_loop temp off bits true num) s Q.
Proof.
  induction temp as [|x temp IH]; intros off bits Q Hb He Hl HQ; cbn [setbits_loop].
  - step. unfold ends_in in He. change (zlen (@nil Z)) with 0 in He. assert (off = 0 ∧ bits = 0) as [-> ->] by lia.
    apply HQ. split; try done. unfold field, digit. rewrite !Z.mod_1_r. done.
  - apply Forall_cons in Hb as [Hx Hb]. rewrite zlen_cons in He. pose proof (next_ends x temp off bits Hx Hb He) as Hn.
    pose proof (be_step x temp off bits Hx Hb He) as Hf. pose proof (step_cases x temp off bits Hx Hb He) as Hc.
    unfold ends_in in He. rewrite part_size_min by lia.
    set (size := bits `min` (8 - off)) in *. set (bits' := bits - size) in *. pose proof (zlen_nonneg temp).
    assert (0 ≤ size ≤ 8 ∧ 0 ≤ bits' ∧ size + off ≤ 8 ∧ bits' < 64) as (? & ? & ? & ?) by (unfold size, bits'; lia).
    rewrite u64_small by lia. step; [apply bool_decide_true; lia|]. call runs_setbits; [done|lia|lia|lia|].
    rewrite u8_mod, Z.shiftr_div_pow2 by lia. set (w := (num / 2 ^ bits') `mod` 2 ^ size).
    call IH; [done|exact Hn|lia|]. intros t' [F1 F2 F3]. step. apply HQ.
    change (bit_pos off size true) with (8 - off - size) in *. set (k := 8 - off - size) in *.
    assert (0 ≤ w < 2 ^ size) as Hw by (apply Z.mod_pos_bound, Z.pow_pos_nonneg; lia).
    split.
    + constructor; [|done]. apply put_byte; unfold k; lia.
    + by rewrite !zlen_cons, F2.
    + unfold value_of in *. simpl be_value. rewrite F2, F3, Hf, zlen_cons.
      assert (num `mod` 2 ^ bits = num `mod` 2 ^ bits' + 2 ^ bits' * w) as ->.
      { unfold w. rewrite <- mod_split by lia. do 2 f_equal. unfold bits'. lia. }
      change (field_pos true (zlen temp + 1) off bits) with (8 * (zlen temp + 1) - off - bits).
      change (field_pos true (zlen temp) 0 bits') with (8 * zlen temp - 0 - bits').
      destruct Hc as [[-> Es]|[Hn' Es]].
      * change (zlen (@nil Z)) with 0. assert (bits' = 0) as -> by (unfold bits'; lia).
        replace (8 * (0 + 1) - off - bits) with k by (unfold k; lia). rewrite !Z.mod_1_r. unfold field, digit at 2 4.
        rewrite !Z.mod_1_r. simpl. lia.
      * replace (8 * (zlen temp + 1) - off - bits) with (8 * zlen temp - 0 - bits') by (unfold bits'; lia).
        assert (k = 0) as -> by (unfold k; lia).
        replace (2 ^ (8 * zlen temp)) with (2 ^ bits' * 2 ^ (8 * zlen temp - 0 - bits')).
        { rewrite Z.pow_0_r. ring. }
        rewrite <- Z.pow_add_r by (unfold bits' in *; lia). f_equal. lia.
Qed.

Lemma runs_setbits_le s : ∀ temp off bits num (Q : list Z → vbstate → Prop),
  byte_list temp → ends_in (zlen temp) off bits → bits ≤ 64 →
  (∀ t', field_put false temp off bits num t' → Q t' s) → runs (setbits_loop temp off bits false num) s Q.
Proof.
  induction temp as [|x temp IH]; intros off bits num Q Hb He Hl HQ; cbn [setbits_loop].
  - step. unfold ends_in in He. change (zlen (@nil Z)) with 0 in He. assert (off = 0 ∧ bits = 0) as [-> ->] by lia.
    apply HQ. split; try done. unfold field, digit. rewrite !Z.mod_1_r. done.
  - apply Forall_cons in Hb as [Hx Hb]. rewrite zlen_cons in He. pose proof (next_ends x temp off bits Hx Hb He) as Hn.
    pose proof (le_step x temp off bits Hx Hb He) as Hf. pose proof (step_cases x temp off bits Hx Hb He) as Hc.
    unfold ends_in in He. rewrite part_size_min by lia.
    set (size := bits `min` (8 - off)) in *. set (bits' := bits - size) in *.
    assert (0 ≤ size ≤ 8 ∧ 0 ≤ bits' ∧ size + off ≤ 8 ∧ bits' ≤ 64) as (? & ? & ? & ?) by (unfold size, bits'; lia).
    rewrite u64_small by lia. call runs_setbits; [done|lia|lia|lia|]. cbv zeta. rewrite u8_mod by lia.
    step; [apply bool_decide_true; lia|]. rewrite Z.shiftr_div_pow2 by lia.
    set (w := num `mod` 2 ^ size). assert (0 ≤ w < 2 ^ size) as Hw by (apply Z.mod_pos_bound, Z.pow_pos_nonneg; lia).
    call IH; [done|exact Hn|lia|]. intros t' [F1 F2 F3]. step. apply HQ.
    change (bit_pos off size false) with off in *. split.
    + constructor; [|done]. apply put_byte; lia.
    + by rewrite !zlen_cons, F2.
    + unfold value_of, field_pos in *. simpl le_value. rewrite F3, Hf.
      assert (num `mod` 2 ^ bits = w + 2 ^ size * ((num / 2 ^ size) `mod` 2 ^ bits')) as ->.
      { unfold w. rewrite <- mod_split by lia. do 2 f_equal. unfold bits'. lia. }
      destruct Hc as [[-> Es]|[Hn' Es]].
      * assert (bits' = 0) as -> by (unfold bits'; lia). unfold field, digit at 2 4. rewrite !Z.mod_1_r. simpl. lia.
      * replace 256 with (2 ^ size * 2 ^ off); [ring|]. rewrite <- Z.pow_add_r by lia.
        by replace (size + off) with 8 by lia.
Qed.

Lemma runs_setbits_loop s temp off bits be num (Q : list Z → vbstate → Prop) :
  byte_list temp → ends_in (zlen temp) off bits → bits ≤ 64 →
  (∀ t', field_put be temp off bits num t' → Q t' s) → runs (setbits_loop temp off bits be num) s Q.
Proof. destruct be; [apply runs_setbits_be|apply runs_setbits_le]. Qed.

(** The new field is read back. *)
Lemma field_put_get be t off bits num t' :
  field_put be t off bits num t' → ends_in (zlen t) off bits → 0 ≤ num < 2 ^ bits → field be t' off bits = num.
Proof.
  intros [_ El Ev] He Hn. unfold field at 1. rewrite Ev, El. unfold field.
  assert (0 ≤ field_pos be (zlen t) off bits) by (unfold field_pos, ends_in in *; destruct be; lia).
  unfold ends_in in He. rewrite digit_put by lia. rewrite Zmod_mod. by apply Z.mod_small.
Qed.

(** The bits on both sides of the field stay. *)
Lemma field_put_rest be t off bits num t' :
  field_put be t off bits num t' → ends_in (zlen t) off bits → let k := field_pos be (zlen t) off bits in
  value_of be t' `mod` 2 ^ k = value_of be t `mod` 2 ^ k ∧
  value_of be t' / 2 ^ (k + bits) = value_of be t / 2 ^ (k + bits).
Proof.
  intros [_ El Ev] He k. rewrite Ev. unfold field. fold k.
  assert (0 ≤ k) by (unfold k, field_pos, ends_in in *; destruct be; lia). unfold ends_in in He.
  split; [by apply digit_put_low|]. apply digit_put_high; [lia|lia|]. apply Z.mod_pos_bound, Z.pow_pos_nonneg; lia.
Qed.
End write.
