(* ===== verification/VbNumSpec.v ===== *)
(** * Properties of the typed accessors (lib/haka/vbuffer.c)

    The number and bit field accessors of a sub-buffer read and write the integer
    that its bytes stand for, over any number of chunks. *)

From S2P Require Import Prelude List2 Types VbHeap VbIter VbSub VbRep VbWalk VbFrame VbMut VbEdit VbMake VbRead VbSpec VbWrite VbNum VbBits.

Section bits.
Implicit Types s : vbstate.

Lemma byte_end_spec off bits : 0 ≤ off < 8 → 0 ≤ bits < 2 ^ 32 →
  ends_in (byte_end off bits) off bits ∧ 0 ≤ byte_end off bits.
Proof.
  intros Ho Hb. unfold ends_in, byte_end. rewrite u64_small, Z.shiftr_div_pow2 by lia. change (2 ^ 3) with 8.
  Z.div_mod_to_equations. lia.
Qed.

Lemma runs_fits s bits num (Q : bool → vbstate → Prop) :
  0 ≤ bits < 64 → 0 ≤ num < 2 ^ bits → Q true s → runs (fits bits num) s Q.
Proof.
  intros Hb Hn HQ. unfold fits. assert (2 ^ bits ≤ 2 ^ 63) by (apply Z.pow_le_mono_r; lia).
  step; [apply bool_decide_true; lia|]. step; [apply bool_decide_true; lia|]. step.
  rewrite (bool_decide_false (num < 0)), (bool_decide_true (0 ≤ num)) by lia. cbn [andb orb].
  rewrite Z.shiftl_1_l, (u64_small num), (u64_small (2 ^ bits - 1)) by lia.
  rewrite Z.sub_1_r, <- Z.ones_equiv, Z.land_ones, Z.mod_small by lia. by rewrite bool_decide_true.
Qed.

(** What both accessors do before the loop. *)
Lemma runs_bits_read s e cs data p q off bits Q :
  buf_rep s e cs → sub_range e cs data p q → 0 ≤ off < 8 → 0 ≤ bits → p < q → off + bits ≤ 8 * (8 `min` (q - p)) →
  (zlen (zslice p (byte_end off bits) (content s cs)) = byte_end off bits →
     Q (zslice p (byte_end off bits) (content s cs)) s) →
  runs (vbuffer_sub_read data (byte_end off bits)) s Q.
Proof.
  intros H Hr Ho Hb Hlt Hl HQ. destruct (byte_end_spec off bits) as [He Hn]; [lia|lia|].
  destruct (sub_range_order _ _ _ _ _ _ H Hr). unfold ends_in in He.
  eapply runs_sub_read; [exact H|exact Hr|lia|]. rewrite Z.min_l by lia. apply HQ, zlen_zslice; [lia|lia|].
  rewrite (br_len _ _ _ H). lia.
Qed.

Lemma bytes_slice p n (l : list Z) : byte_list l → byte_list (zslice p n l).
Proof. intros Hb. unfold zslice, ztake, zdrop. by apply Forall_take, Forall_drop. Qed.

Lemma zdrop_shiftr off (l : list Z) : 0 ≤ off < 8 → zdrop (Z.shiftr off 3) l = l ∧ ztake (Z.shiftr off 3) l = [].
Proof.
  intros Ho. rewrite Z.shiftr_div_pow2 by lia. change (2 ^ 3) with 8. rewrite Z.div_small by lia.
  by rewrite zdrop_0, ztake_0.
Qed.

Lemma runs_asbits s e cs data p q off bits be Q :
  buf_rep s e cs → sub_range e cs data p q → byte_list (content s cs) → 0 ≤ off < 8 → 0 ≤ bits ≤ bits_max be →
  p < q → off + bits ≤ 8 * (8 `min` (q - p)) →
  Q (field be (zslice p (byte_end off bits) (content s cs)) off bits) s →
  runs (vbuffer_asbits data off bits be) s Q.
Proof.
  intros H Hr Hby Ho Hb Hlt Hl HQ. unfold vbuffer_asbits. call runs_sub_size; [exact H|exact Hr|].
  destruct (byte_end_spec off bits) as [He Hn]; [lia|lia|]. pose proof (br_small _ _ _ H).
  destruct (sub_range_order _ _ _ _ _ _ H Hr). pose proof He as He'. unfold ends_in in He'.
  rewrite bool_decide_false by (unfold size_max; lia). 
  rewrite (bool_decide_false (_ ≤ Z.shiftr _ _)) by (rewrite Z.shiftr_div_pow2 by lia; change (2 ^ 3) with 8; Z.div_mod_to_equations; lia).
  rewrite !bool_decide_false by lia.
  call runs_bits_read; [exact H|exact Hr|lia|lia|lia|lia|]. intros El. step; [by apply bool_decide_true|].
  destruct (zdrop_shiftr off (zslice p (byte_end off bits) (content s cs)) Ho) as [-> _].
  unfold s32. rewrite swrap_small by lia. apply runs_asbits_loop; [by apply bytes_slice|by rewrite El|lia|done].
Qed.

Lemma runs_set_bits s e cs data p q off bits be num Q :
  buf_rep s e cs → separate cs → all_writable s e cs → sub_range e cs data p q → byte_list (content s cs) →
  0 ≤ off < 8 → 0 ≤ bits < 64 → p < q → off + bits ≤ 8 * (8 `min` (q - p)) → 0 ≤ num < 2 ^ bits →
  (∀ s' cs' t', field_put be (zslice p (byte_end off bits) (content s cs)) off bits num t' → wrote s e cs p t' s' cs' →
     Q true s') →
  runs (vbuffer_setbits data off bits be num) s Q.
Proof.
  intros H Hsep Hw Hr Hby Ho Hb Hlt Hl Hnum HQ. unfold vbuffer_setbits. rewrite bool_decide_false by lia.
  call runs_fits; [lia|done|]. cbn [negb]. call runs_sub_size; [exact H|exact Hr|].
  destruct (byte_end_spec off bits) as [He Hn]; [lia|lia|]. pose proof (br_small _ _ _ H).
  destruct (sub_range_order _ _ _ _ _ _ H Hr). pose proof He as He'. unfold ends_in in He'.
  rewrite bool_decide_false by (unfold size_max; lia).
  rewrite (bool_decide_false (_ ≤ Z.shiftr _ _)) by (rewrite Z.shiftr_div_pow2 by lia; change (2 ^ 3) with 8; Z.div_mod_to_equations; lia).
  rewrite !bool_decide_false by lia.
  call runs_bits_read; [exact H|exact Hr|lia|lia|lia|lia|]. intros El. step; [by apply bool_decide_true|].
  set (t := zslice p (byte_end off bits) (content s cs)) in *. destruct (zdrop_shiftr off t Ho) as [-> ->].
  unfold s32. rewrite swrap_small by lia. call runs_setbits_loop; [by apply bytes_slice|by rewrite El|lia|].
  intros t' Ht. simpl app. call runs_sub_write; [exact H|done|done|exact Hr|]. intros s' cs' W. step.
  pose proof (fp_len _ _ _ _ _ _ Ht) as Elt. rewrite Z.min_l, ztake_ge in W by lia. by eapply HQ.
Qed.
End bits.

(** ** Numbers *)

Section numbers.
Implicit Types s : vbstate.

(** The chunk that holds a byte is unique. *)
Lemma chunk_of_byte s e cs l1 c ch k l1' c' ch' k' p :
  buf_rep s e cs → cs = l1 ++ (c, ch) :: k → cs = l1' ++ (c', ch') :: k' →
  csize l1 ≤ p < csize l1 + ch_size ch → csize l1' ≤ p < csize l1' + ch_size ch' → l1 = l1' ∧ ch = ch'.
Proof.
  intros H -> E Hp Hp'. pose proof H as H2. rewrite E in H2.
  apply app_eq_inv in E as [(m & -> & E)|(m & -> & E)]; destruct m as [|[x chx] m]; simpl in E;
    rewrite ?app_nil_r in *; simplify_eq; try done; exfalso.
  - rewrite <- app_assoc in H. destruct (br_size _ _ _ _ _ _ H) as (?&?&Hk&?). rewrite csize_app, csize_cons in Hp. simpl in *.
    assert (0 ≤ csize m); [|lia]. eapply csize_nonneg. intros y chy Hi. eapply br_ok; [exact H|].
    rewrite elem_of_app, elem_of_cons, elem_of_app. right. right. left. exact Hi.
  - rewrite <- app_assoc in H2. rewrite csize_app, csize_cons in Hp'. simpl in *.
    assert (0 ≤ csize m); [|lia]. eapply csize_nonneg. intros y chy Hi. eapply br_ok; [exact H2|].
    rewrite elem_of_app, elem_of_cons, elem_of_app. right. right. left. exact Hi.
Qed.

(** A range that is reported flat lies in one chunk. *)
Definition in_chunk (cs : list seg) (p q : Z) : Prop :=
  ∃ l1 c ch l2, cs = l1 ++ (c, ch) :: l2 ∧ csize l1 ≤ p ∧ q ≤ csize l1 + ch_size ch.

Lemma runs_isflat s e cs data p q Q :
  buf_rep s e cs → sub_range e cs data p q → sb_use_size data = false → p < q →
  (∀ b : bool, (b = true → in_chunk cs p q) → Q b s) → runs (vbuffer_sub_isflat data) s Q.
Proof.
  intros H Hr Eu Hlt HQ. unfold vbuffer_sub_isflat. call runs_sub_check; [exact H|exact Hr|]. cbn [negb].
  unfold sub_range in Hr. destruct data as [[[c|] o m [|]] [|] [[[c'|] o' m' [|]]|n]]; simpl in Hr, Eu; try done.
  cbn [sb_begin sb_use_size]. destruct Hr as (Hp & Hq & _). call runs_fix; [exact H|exact Hp|]. intros c1 o1 _ N1.
  unfold sub_end. cbn [sb_tail]. step. call runs_fix; [exact H|exact Hq|]. intros c2 o2 _ N2.
  destruct (norm_pos_off _ _ _ _ _ _ H N1) as [Ho1 _].
  destruct (norm_pos_order _ _ _ _ _ _ _ _ _ H N1 N2 Hlt) as (l1 & lm & l2 & E & -> & -> & -> & -> & [He1 He2] & Hle).
  subst cs. case_test as E1.
  - step. apply HQ. intros _.
    assert (lm = []) as ->.
    { destruct (chunk_at_inj s e l1 (lm ++ l2) (l1 ++ lm) l2) as [E _]; [done|by rewrite app_assoc|done|].
      rewrite <- (app_nil_r l1) in E at 1. by apply app_inv_head in E. }
    rewrite app_nil_r in *. destruct l2 as [|[x ch] l2]; [simpl in He2; specialize (Hle eq_refl); lia|].
    exists l1, x, ch, l2. simpl in He2. split_and!; [done|lia|lia].
  - case_test as E2; [|step; by apply HQ].
    destruct lm as [|[x ch] lm]; [done|]. simpl. call (runs_chunk_next s e l1); [exact H|]. step. apply HQ.
    intros En%bool_decide_eq_true. injection En as En.
    assert (lm = []) as ->.
    { destruct (chunk_at_inj s e (l1 ++ [(x, ch)]) (lm ++ l2) (l1 ++ (x, ch) :: lm) l2) as [E _];
        [by rewrite <- app_assoc|by rewrite <- !app_assoc|done|].
      apply app_inv_head in E. by injection E. }
    exists l1, x, ch, l2. split_and!; [done|lia|]. rewrite csize_app, csize_cons, csize_nil. simpl. lia.
Qed.

(** The block of a range in one chunk is the whole range. *)
Lemma whole_block s e cs write data p q l1 l2 o d a len it it' s' :
  buf_rep s e cs → in_chunk cs p q → p < q → csize l1 + o = p → 
  next_block s e cs write data l1 l2 o (q - p) (Some (d, a, len, it)) it' s' →
  len = q - p ∧ ∃ k1 c ch k2 o' r sz b, cs = k1 ++ (c, ch) :: k2 ∧ csize k1 + o' = p ∧ 0 ≤ o' ∧ o' + len ≤ ch_size ch ∧
    fl_ctl (ch_flags ch) = false ∧ ch_data ch = Some d ∧ 
    vb_datas s !! d = Some (Data r (vbuffer_data_basic_ops sz b)) ∧ a = ch_offset ch + o' ∧
    0 ≤ a ∧ a + len ≤ zlen b ∧ s' = marked s write c ch.
Proof.
  intros H (m1 & x & chx & m2 & Em & Hm1 & Hm2) Hlt Ep
    (k1 & c & ch & k2 & o' & b & E & Ek & _ & Ho' & Hl & Hlr & Hle & Ec & Ed & Hb & -> & _ & Hend & ->).
  destruct (chunk_of_byte s e cs m1 x chx m2 k1 c ch k2 p H Em E) as [-> ->]; [lia|lia|].
  split; [lia|]. pose proof H as H'. rewrite E in H'. destruct (br_at _ _ _ _ _ _ H') as [_ Oc].
  destruct (co_data _ _ Oc Ec) as (Hof & b0 & Hb0 & Hbl). rewrite Ed, Hb in Hb0. injection Hb0 as <-.
  unfold basic_bytes in Hb. simpl in Hb. destruct (vb_datas s !! d) as [[r bd]|] eqn:Hd; [|done].
  simpl in Hb. destruct bd as [sz b0| | |]; [|done..]. injection Hb as ->.
  exists k1, c, ch, k2, o', r, sz, b. split_and!; try done; lia.
Qed.

Lemma number_width n be bs v : number_of n be bs = Some v → is_number n = true ∧ 1 ≤ n ≤ 8.
Proof.
  unfold number_of, is_number.
  destruct n as [|[[[[?|?|]|[?|?|]|]|[[?|?|]|[?|?|]|]|]|[[[?|?|]|[[?|?|]|[?|?|]|]|]|[[?|?|]|[[?|?|]|[?|?|]|]|]|]|]|?];
    simpl; try done; intros _; split; try done; lia.
Qed.

Lemma runs_asnumber s e cs data p q be n Q :
  buf_rep s e cs → sub_range e cs data p q → sb_use_size data = false →
  number_of (q - p) be (zslice p (q - p) (content s cs)) = Some n → Q n s →
  runs (vbuffer_asnumber data be) s Q.
Proof.
  intros H Hr Eu En HQ. destruct (sub_range_order _ _ _ _ _ _ H Hr). pose proof (br_small _ _ _ H).
  destruct (number_width _ _ _ _ En) as [Hn Hlen].
  unfold vbuffer_asnumber. call runs_sub_size; [exact H|exact Hr|]. rewrite bool_decide_false by (unfold size_max; lia).
  rewrite bool_decide_false by lia. call runs_isflat; [exact H|exact Hr|done|lia|]. intros flat Hflat. rewrite Hn.
  destruct (range_cursor _ _ _ H _ _ _ Hr) as (l1 & l2 & o & Hc & Ep & Ho).
  destruct flat.
  - call (runs_mmap s e cs H false); [done|exact Hc|]. intros [[[[d a] len] it]|] it' s' Hb; [|destruct Hb; lia].
    destruct (whole_block s e cs false data p q l1 l2 o d a len it it' s')
      as [-> (k1 & c & ch & k2 & o' & r & sz & b & E & Ek & Ho' & Hle & Ec & Ed & Hd & -> & Ha & Hal & ->)];
      [done|auto|lia|done|exact Hb|]. cbn [marked].
    step; [by apply bool_decide_true|]. unfold ptr_read. apply runs_bind. cbn [fst snd]. call runs_rd_data; [exact Hd|].
    cbn [dt_body]. step; [apply bool_decide_true; lia|]. step.
    rewrite <- (chunk_slice s e cs H k1 c ch k2 o' (q - p) d b) by
      (try done; try lia; unfold basic_bytes; simpl; by rewrite Hd).
    rewrite Ek, En. step. by step.
  - call runs_sub_read; [exact H|exact Hr|lia|]. rewrite Z.min_id.
    assert (zlen (zslice p (q - p) (content s cs)) = q - p) as El.
    { apply zlen_zslice; [lia|lia|]. rewrite (br_len _ _ _ H). lia. }
    apply runs_bind. step; [by apply bool_decide_true|]. step. rewrite En. step. by step.
Qed.

Lemma number_bytes_len n be num : 0 ≤ n → zlen (number_bytes n be num) = n.
Proof. intros. unfold zlen, number_bytes. rewrite le_bytes_length. lia. Qed.

(** The widths that can be written: the mask of 8 bytes is an undefined shift. *)
Definition set_width (n : Z) : Prop := n = 1 ∨ n = 2 ∨ n = 4.

Lemma runs_setnumber s e cs data p q be num Q :
  buf_rep s e cs → separate cs → all_writable s e cs → sub_range e cs data p q → sb_use_size data = false →
  set_width (q - p) → 0 ≤ num < 2 ^ (8 * (q - p)) →
  (∀ s' cs', wrote s e cs p (number_bytes (q - p) be num) s' cs' → Q true s') →
  runs (vbuffer_setnumber data be num) s Q.
Proof.
  intros H Hsep Hw Hr Eu Hwd Hnum HQ. destruct (sub_range_order _ _ _ _ _ _ H Hr). pose proof (br_small _ _ _ H).
  assert (is_number (q - p) = true ∧ 1 ≤ q - p ≤ 4) as [Hn Hlen].
  { destruct Hwd as [E|[E|E]]; rewrite E; split; done || lia. }
  pose proof (number_bytes_len (q - p) be num ltac:(lia)) as El.
  unfold vbuffer_setnumber. call runs_sub_size; [exact H|exact Hr|]. rewrite bool_decide_false by (unfold size_max; lia).
  rewrite bool_decide_false by lia. call runs_fits; [lia|by rewrite Z.mul_comm|]. cbn [negb].
  call runs_isflat; [exact H|exact Hr|done|lia|]. intros flat Hflat. rewrite Hn.
  destruct (range_cursor _ _ _ H _ _ _ Hr) as (l1 & l2 & o & Hc & Ep & Ho). destruct flat.
  - call (runs_mmap s e cs H true); [done|exact Hc|]. intros [[[[d a] len] it]|] it' s' Hb; [|destruct Hb; lia].
    destruct (whole_block s e cs true data p q l1 l2 o d a len it it' s')
      as [-> (k1 & c & ch & k2 & o' & r & sz & b & E & Ek & Ho' & Hle & Ec & Ed & Hd & -> & Ha & Hal & ->)];
      [done|auto|lia|done|exact Hb|]. cbn [marked].
    call (runs_store_block _ d r sz b); [exact Hd|lia|lia|]. step. subst cs. eapply HQ. rewrite <- Ek.
    apply put_wrote; try done; [|rewrite Ek, El; lia]. intros y Hy. by apply (Hsep k1 (c, ch) k2 y).
  - call runs_sub_write; [exact H|done|done|exact Hr|]. intros s' cs' W. step. rewrite El, Z.min_id, ztake_ge in W by lia.
    by eapply HQ.
Qed.

(** The value is read back; two little-endian bytes are read as a signed number. *)
Lemma number_get n be num :
  set_width n → 0 ≤ num < 2 ^ (8 * n) → (n = 2 → be = false → num < 2 ^ 15) →
  number_of n be (number_bytes n be num) = Some num.
Proof.
  intros Hn Hnum H2. unfold number_bytes, wrap. rewrite Z.mod_small by done.
  assert (width_ok n) as Hw by (unfold width_ok; destruct Hn as [->|[->| ->]]; set_solver).
  assert (le_value (le_bytes (Z.to_nat n) (if be then SWAP_TO_BE n num else num)) = if be then SWAP_TO_BE n num else num) as E.
  { apply le_value_bytes. rewrite Z2Nat.id by (destruct Hn as [->|[->| ->]]; lia). destruct be; [by apply swap_range|done]. }
  unfold number_of. rewrite E. destruct Hn as [->|[->| ->]].
  - destruct be; [|done]. done.
  - destruct be; f_equal; [by apply (swap_swap 2)|]. specialize (H2 eq_refl eq_refl). apply swrap_small; lia.
  - destruct be; f_equal; by apply (swap_swap 4).
Qed.
End numbers.

(** ** The claims *)

(** C35 [vbuffer_asbits] with an offset below 8, that is, inside the first byte, and at most
    63 bits in big-endian or 31 bits in little-endian order, all of them inside the range
    and its first eight bytes, returns the bits of the field, those of the big-endian value
    from the most significant one on and those of the little-endian value from the least
    significant one on, over any cutting of the buffer in chunks; nothing changes. (With
    greater offsets or more bits the code is wrong, [asbits_offset_byte] and
    [asbits_little_32].) *)
Theorem vbuffer_asbits_correct s e cs data p q off bits be :
  buf_rep s e cs → sub_range e cs data p q → byte_list (content s cs) → 0 ≤ off < 8 → 0 ≤ bits ≤ bits_max be →
  p < q → off + bits ≤ 8 * (8 `min` (q - p)) →
  let n := (off + bits + 7) / 8 in
  let bs := zslice p n (content s cs) in
  runs (vbuffer_asbits data off bits be) s (λ r s', s' = s ∧
    r = if be then (be_value bs / 2 ^ (8 * n - off - bits)) `mod` 2 ^ bits
        else (le_value bs / 2 ^ off) `mod` 2 ^ bits).
Proof.
  intros H Hr Hby Ho Hb Hlt Hl n bs. destruct (sub_range_order _ _ _ _ _ _ H Hr).
  assert (bits < 64) by (unfold bits_max in Hb; destruct be; lia).
  assert (byte_end off bits = n) as En by (unfold byte_end, n; rewrite u64_small by lia; by rewrite Z.shiftr_div_pow2 by lia).
  eapply runs_asbits; [exact H|exact Hr|done|done|done|done|done|]. rewrite En. split; [done|]. fold bs.
  unfold field, digit, field_pos, value_of. destruct be; [|done]. unfold bs. rewrite zlen_zslice; [done|lia| |].
  - unfold n. apply Z.div_pos; lia.
  - rewrite (br_len _ _ _ H). unfold n. Z.div_mod_to_equations. lia.
Qed.

(** A value stored with [vbuffer_setbits] is read back with [vbuffer_asbits]; of the
    content of the buffer only the bytes of the field change, and of their value only
    the bits of the field. *)
Theorem vbuffer_setbits_roundtrip s e cs data p q off bits be num :
  heap_ok s → buf_rep s e cs → separate cs → all_writable s e cs → sub_range e cs data p q →
  byte_list (content s cs) → 0 ≤ off < 8 → 0 ≤ bits ≤ bits_max be → p < q →
  off + bits ≤ 8 * (8 `min` (q - p)) → 0 ≤ num < 2 ^ bits →
  let n := byte_end off bits in
  let bs := zslice p n (content s cs) in
  let k := field_pos be n off bits in
  runs (ok ← vbuffer_setbits data off bits be num; r ← vbuffer_asbits data off bits be; ret (ok, r)) s (λ r s',
    r = (true, num) ∧ heap_ok s' ∧ ∃ cs' bs', buf_rep s' e cs' ∧ content s' cs' = zput p bs' (content s cs) ∧
      zlen bs' = n ∧ value_of be bs' `mod` 2 ^ k = value_of be bs `mod` 2 ^ k ∧
      value_of be bs' / 2 ^ (k + bits) = value_of be bs / 2 ^ (k + bits)).
Proof.
  intros Ok H Hsep Hw Hr Hby Ho Hb Hlt Hl Hnum n bs k. destruct (sub_range_order _ _ _ _ _ _ H Hr).
  assert (bits < 64) by (unfold bits_max in Hb; destruct be; lia).
  destruct (byte_end_spec off bits) as [He Hn]; [lia|lia|]. fold n in He, Hn. pose proof He as He'. unfold ends_in in He'.
  assert (zlen bs = n) as Ebs by (apply zlen_zslice; [lia|lia|rewrite (br_len _ _ _ H); lia]).
  call runs_set_bits; [exact H|done|done|exact Hr|done|done|lia|done|done|done|]. fold n bs. intros s' cs' t' Hf W.
  pose proof (fp_len _ _ _ _ _ _ Hf) as Elt. rewrite Ebs in Elt.
  pose proof W as [R F C O _ _ _ _ _ _].
  assert (p + n ≤ zlen (content s cs)) as Hle by (rewrite (br_len _ _ _ H); lia).
  assert (zslice p n (content s' cs') = t') as Et by (rewrite C, <- Elt; apply zslice_zput_same; lia).
  call runs_asbits; [exact R|eapply sub_range_shape; [|exact Hr]; by apply marked_shape| |done|done|done|done|].
  { rewrite C. unfold zput. apply Forall_app. split; [by apply Forall_take|]. apply Forall_app.
    split; [apply (fp_bytes _ _ _ _ _ _ Hf)|by apply Forall_drop]. }
  step. fold n. rewrite Et, (field_put_get be bs off bits num t' Hf) by (rewrite ?Ebs; done). split; [done|].
  split; [auto|]. exists cs', t'. destruct (field_put_rest _ _ _ _ _ _ Hf) as [E1 E2]; [by rewrite Ebs|].
  rewrite Ebs in E1, E2. done.
Qed.

(** A number stored with [vbuffer_setnumber] in 1, 2 or 4 bytes is read back with
    [vbuffer_asnumber], whether the sub-buffer lies in one chunk or in several; its
    bytes are those of the number in the byte order asked for, and the rest of the
    buffer stays. *)
Theorem vbuffer_setnumber_roundtrip s e cs data p q be num :
  heap_ok s → buf_rep s e cs → separate cs → all_writable s e cs → sub_range e cs data p q →
  sb_use_size data = false → set_width (q - p) → 0 ≤ num < 2 ^ (8 * (q - p)) →
  (q - p = 2 → be = false → num < 2 ^ 15) →
  runs (ok ← vbuffer_setnumber data be num; r ← vbuffer_asnumber data be; ret (ok, r)) s (λ r s',
    r = (true, num) ∧ heap_ok s' ∧ ∃ cs', buf_rep s' e cs' ∧
      content s' cs' = zput p (let b := le_bytes (Z.to_nat (q - p)) num in if be then rev b else b) (content s cs)).
Proof.
  intros Ok H Hsep Hw Hr Eu Hwd Hnum H2. destruct (sub_range_order _ _ _ _ _ _ H Hr).
  assert (0 ≤ q - p) as Hl by lia. pose proof (number_bytes_len (q - p) be num Hl) as El.
  call runs_setnumber; [exact H|done|done|exact Hr|done|done|done|]. intros s' cs' W.
  pose proof W as [R F C O _ _ _ _ _ _].
  call runs_asnumber; [exact R|eapply sub_range_shape; [|exact Hr]; by apply marked_shape|done| |].
  { rewrite C, <- El at 1. rewrite <- El at 2. rewrite zslice_zput_same; [|lia|rewrite (br_len _ _ _ H); lia].
    rewrite El. by apply number_get. }
  step. split; [done|]. split; [auto|]. exists cs'. split; [done|]. rewrite C. f_equal.
  unfold number_bytes, wrap. rewrite Z.mod_small by done. destruct be; [|done].
  apply swap_bytes. unfold width_ok. destruct Hwd as [->|[->| ->]]; set_solver.
Qed.

(** ** Witnesses *)

(** Two bytes in two chunks. *)
Definition ex_num : vbuffer_sub :=
  Sub (Iter (Some 2%positive) 3 0 false) false (SubEnd (Iter (Some 7%positive) 1 0 false)).

Lemma ex_num_range : sub_range 3 ex_cut_cs ex_num 3 5.
Proof.
  split_and!; [| |by left].
  - left. by exists [], (Chunk 1 plain (Some 1%positive) 0 4), [(7%positive, Chunk 1 plain (Some 1%positive) 4 2)].
  - left. by exists [(2%positive, Chunk 1 plain (Some 1%positive) 0 4)], (Chunk 1 plain (Some 1%positive) 4 2), [].
Qed.

Lemma ex_cut_bytes : byte_list (content ex_cut ex_cut_cs).
Proof.
  assert (content ex_cut ex_cut_cs = ex_bytes) as -> by (vm_compute; reflexivity).
  unfold ex_bytes. repeat (constructor; [lia|]). constructor.
Qed.

Lemma vbuffer_asbits_correct_witness :
  runs (vbuffer_asbits ex_num 3 13 true) ex_cut (λ r s', s' = ex_cut ∧ r = 3183).
Proof.
  eapply runs_mono; [apply (vbuffer_asbits_correct ex_cut 3 ex_cut_cs ex_num 3 5 3 13 true)|].
  - apply ex_written_rep.
  - apply ex_num_range.
  - apply ex_cut_bytes.
  - lia.
  - simpl. lia.
  - lia.
  - lia.
  - intros r s' [-> ->]. split; [done|]. vm_compute. reflexivity.
Defined.

Lemma vbuffer_setbits_roundtrip_witness :
  runs (ok ← vbuffer_setbits ex_num 3 11 false 1234; r ← vbuffer_asbits ex_num 3 11 false; ret (ok, r)) ex_cut
    (λ r s', r = (true, 1234)).
Proof.
  eapply runs_mono; [apply (vbuffer_setbits_roundtrip ex_cut 3 ex_cut_cs ex_num 3 5 3 11 false 1234)|].
  - apply ex_cut_heap.
  - apply ex_written_rep.
  - apply ex_cut_separate.
  - apply ex_cut_writable.
  - apply ex_num_range.
  - apply ex_cut_bytes.
  - lia.
  - simpl. lia.
  - lia.
  - lia.
  - lia.
  - by intros r s' [-> _].
Defined.

Lemma vbuffer_setnumber_roundtrip_witness :
  runs (ok ← vbuffer_setnumber ex_num true 40000; r ← vbuffer_asnumber ex_num true; ret (ok, r)) ex_cut
    (λ r s', r = (true, 40000) ∧ ∃ cs', content s' cs' = [104; 101; 108; 156; 64; 33]).
Proof.
  eapply runs_mono; [apply (vbuffer_setnumber_roundtrip ex_cut 3 ex_cut_cs ex_num 3 5 true 40000)|].
  - apply ex_cut_heap.
  - apply ex_written_rep.
  - apply ex_cut_separate.
  - apply ex_cut_writable.
  - apply ex_num_range.
  - reflexivity.
  - right. by left.
  - lia.
  - discriminate.
  - intros r s' (-> & _ & cs' & _ & C). split; [done|]. exists cs'. rewrite C. vm_compute. reflexivity.
Defined.

(** ** Outside the intended domain *)

(** The whole buffer of six bytes. *)
Definition ex_whole : vbuffer_sub :=
  Sub (Iter (Some 2%positive) 0 0 false) false (SubEnd (Iter (Some 3%positive) 0 0 false)).

(** The offset is not reduced to the one in its byte: the byte at bit 8 is read as 0,
    and from bit 9 on a shift is undefined. *)
Theorem asbits_offset_byte :
  runs (vbuffer_asbits ex_whole 8 8 true) ex_cut (λ r _, r = 0) ∧
  content ex_cut ex_cut_cs !! 1%nat = Some 101 ∧ vbuffer_asbits ex_whole 9 4 true ex_cut = None.
Proof. split_and!; [eapply runs_eq; [vm_compute; reflexivity|done]|vm_compute; reflexivity..]. Qed.

(** The parts of a little-endian field are shifted as [int]: a field of 32 bits with
    its last bit set is undefined. *)
Theorem asbits_little_32 :
  fst <$> (vbuffer_setbits ex_whole 0 32 false (2 ^ 31);; vbuffer_asbits ex_whole 0 32 false) ex_cut = None.
Proof. vm_compute. reflexivity. Qed.

(** A bit offset behind the end raises an error and returns true. *)
Theorem setbits_error_true :
  runs (r ← vbuffer_setbits ex_whole 100 1 true 0; e ← check_error; ret (r, e)) ex_cut (λ r _, r = (true, true)).
Proof. eapply runs_eq; [vm_compute; reflexivity|done]. Qed.

(** Two little-endian bytes are signed, two big-endian ones are not. *)
Theorem asnumber_two_bytes :
  runs (_ ← vbuffer_setnumber ex_num false 65535; vbuffer_asnumber ex_num false) ex_cut (λ r _, r = -1) ∧
  runs (_ ← vbuffer_setnumber ex_num true 65535; vbuffer_asnumber ex_num true) ex_cut (λ r _, r = 65535).
Proof. split; (eapply runs_eq; [vm_compute; reflexivity|done]). Qed.

(** Eight bytes cannot be written: the mask is [1ULL << 64]. *)
Theorem setnumber_eight_bytes num be :
  let s := run (vbuffer_create_from (replicate 8 0)) (empty_state 20) in
  let data := Sub (Iter (Some 2%positive) 0 0 false) false (SubEnd (Iter (Some 3%positive) 0 0 false)) in
  runs (vbuffer_sub_size data) s (λ r _, r = 8) ∧ vbuffer_setnumber data be num s = None.
Proof. split; [eapply runs_eq; [vm_compute; reflexivity|done]|vm_compute; reflexivity]. Qed.
