(* ===== verification/VbSelect.v ===== *)
(** * Selecting a part of a buffer and putting it back

    [vbuffer_select] takes the chunks of a range out of a buffer, leaves a control
    chunk in their place and gives them to a new buffer; [vbuffer_restore] puts the
    chunks of a buffer in the place of the control chunk. *)

From S2P Require Import Prelude List2 VbHeap VbIter VbSub VbRep VbWalk VbFrame VbMut VbEdit VbClear VbMake VbCtl.

(** ** Cutting at both ends of a range *)

(** The chunks [a], [m] and [b] hold the bytes before [p], up to [q] and after. *)
Record cut (k : nat) s (e : loc) (cs : list seg) (p q : Z) (s' : vbstate) (a m b : list seg) : Prop := {
  ct_rep : buf_rep s' e (a ++ m ++ b);
  ct_heap : heap_ok s';
  ct_total : csize (a ++ m ++ b) = csize cs;
  ct_len : csize a = p ∧ csize (a ++ m) = q;
  ct_content : content s' (a ++ m ++ b) = content s cs;
  ct_keeps : keeps (e :: cs.*1) s s';
  ct_new : ∀ x, x ∈ (a ++ m ++ b).*1 → x ∈ cs.*1 ∨ (vb_fresh s ≤ x)%positive;
  ct_mem : (vb_mem s ≤ k + vb_mem s')%nat;
  ct_error : vb_error s' = vb_error s;
  ct_first : first_kept p cs a;
  ct_kinds : kinds_kept cs (a ++ m ++ b);
  ct_end : writable_at s e → writable_at s' e;
  ct_adjacent : adjacent cs → adjacent (a ++ m ++ b);
}.

Section cut.
Implicit Types s : vbstate.

(** The bytes of the three parts. *)
Lemma cut_parts k s e cs p q s' a m b :
  cut k s e cs p q s' a m b → content s' a = ztake p (content s cs) ∧
  content s' m = zslice p (q - p) (content s cs) ∧ content s' b = zdrop q (content s cs).
Proof.
  intros [H _ _ [<- <-] <- _ _ _ _].
  assert (∀ k, (∀ x, x ∈ k → x ∈ a ++ m ++ b) → zlen (content s' k) = csize k) as Hl.
  { intros k' Hk. apply content_len. intros c ch Hi. by eapply br_ok; [exact H|apply Hk]. }
  assert (zlen (content s' a) = csize a) as La by (apply Hl; intros ? ?; rewrite !elem_of_app; auto).
  assert (zlen (content s' m) = csize m) as Lm by (apply Hl; intros ? ?; rewrite !elem_of_app; auto).
  pose proof (zlen_nonneg (content s' a)). pose proof (zlen_nonneg (content s' m)).
  rewrite csize_app, !content_app. split_and!.
  - rewrite ztake_app_le, ztake_ge by lia. done.
  - unfold zslice. rewrite zdrop_app_ge, La, Z.sub_diag, zdrop_0 by lia.
    rewrite ztake_app_le, ztake_ge by lia. done.
  - rewrite zdrop_app_ge by lia. rewrite zdrop_app_ge by lia. replace (_ - _ - _) with 0 by lia. done.
Qed.

(** A cut at the beginning of a chunk changes nothing. *)
Lemma runs_split_here s e l1 l2 meter Q :
  buf_rep s e (l1 ++ l2) → Q (Some (chunk_at e l2)) s →
  runs (_vbuffer_iterator_split (Iter (Some (chunk_at e l2)) 0 meter false) false) s Q.
Proof.
  intros H HQ. unfold _vbuffer_iterator_split.
  assert (pos_of e (l1 ++ l2) (chunk_at e l2) 0 (csize l1)) as Hp.
  { apply pos_of_suffix. by destruct (br_parts _ _ _ _ H) as (_ & ? & _). }
  call runs_iter_check; [exact H|done|]. step. call runs_fix; [exact H|done|].
  intros c1 o1 (k1 & km & k2 & E & E1 & -> & E3 & E4 & E5 & E6) _.
  assert (0 ≤ csize km) as Hkm.
  { eapply csize_nonneg. intros c ch Hi. eapply br_ok; [exact H|]. rewrite E, !elem_of_app. right. by left. }
  assert (km = [] ∧ o1 = 0) as [-> ->] by (destruct E4 as [->|]; [rewrite csize_nil in E3; split; [done|lia]|lia]).
  simpl in E1. rewrite <- E1. step. simpl. unfold split_at. destruct (chunk_at_lookup _ _ _ _ H) as [ch Hc].
  call runs_rd_chunk; [exact Hc|]. rewrite bool_decide_true by done. simpl. by step.
Qed.

(** The suffix a chunk starts is found again after a split before it. *)
Lemma split_suffix s e l k n : buf_rep s e l → pos_of e l (chunk_at e k) 0 n → 
  ∃ n1 n2, l = n1 ++ n2 ∧ chunk_at e k = chunk_at e n2 ∧ csize n1 = n.
Proof.
  intros H [(n1 & ch & n2 & -> & -> & _)|(Ee & _ & ->)].
  - exists n1, ((chunk_at e k, ch) :: n2). split_and!; [done|done|lia].
  - exists l, []. rewrite app_nil_r. done.
Qed.

Lemma cut_order s e j1 j2 n1 n2 : buf_rep s e (j1 ++ j2) → j1 ++ j2 = n1 ++ n2 → csize j1 < csize n1 ∨ n2 = [] →
  ∃ m, n1 = j1 ++ m ∧ j2 = m ++ n2.
Proof.
  intros H E Ho. apply app_eq_inv in E as [(m & E1 & E2)|(m & E1 & E2)].
  - destruct Ho as [Ho|Ho].
    + exfalso. rewrite E1 in H, Ho. rewrite csize_app in Ho. rewrite <- app_assoc in H.
      assert (0 ≤ csize m); [|lia]. eapply csize_nonneg. intros c ch Hi. eapply br_ok; [exact H|]. rewrite !elem_of_app. right. left. exact Hi.
    + rewrite Ho in E2 |- *. symmetry in E2. apply app_nil in E2 as [-> ->]. exists []. by rewrite app_nil_r in *.
  - by exists m.
Qed.

(** The end is cut first, so that the position of the beginning stays valid. *)
Lemma split_cut s e cs p q s1 k1 k2 s2 j1 j2 :
  heap_ok s → splits s e cs q s1 k1 k2 → splits s1 e (k1 ++ k2) p s2 j1 j2 → p < q ∨ k2 = [] →
  ∃ m b, j2 = m ++ b ∧ chunk_at e k2 = chunk_at e b ∧ cut 2 s e cs p q s2 j1 m b.
Proof.
  intros Ok [R1 Ok1 L1 T1 B1 A1 P1 K1 N1 M1 E1 F1 D1 W1 J1] [R2 Ok2 L2 T2 B2 A2 P2 K2 N2 M2 E2 F2 D2 W2 J2] Ho.
  assert (pos_of e (j1 ++ j2) (chunk_at e k2) 0 q) as Hp.
  { apply P2. rewrite <- L1. apply pos_of_suffix. by destruct (br_parts _ _ _ _ R1) as (_ & ? & _). }
  destruct (split_suffix _ _ _ _ _ R2 Hp) as (n1 & b & E & Hb & Hn).
  destruct (cut_order _ _ _ _ _ _ R2 E) as (m & -> & ->).
  { destruct Ho as [Ho|Ho]; [left; lia|right]. subst k2.
    destruct b as [|[c ch] b]; [done|]. exfalso. unfold chunk_at in Hb. simpl in Hb. subst c.
    eapply (br_ne_end _ _ _ e ch R2); [|done]. rewrite E. apply elem_of_app. right. by left. }
  exists m, b. split_and!; [done|done|]. split; try done.
  - by rewrite T2, T1.
  - rewrite content_app, B2, A2, ztake_zdrop, content_app, B1, A1, ztake_zdrop. done.
  - eapply keeps_trans; [done|exact K1|exact K2|]. intros y. rewrite elem_of_cons. intros [->|Hy%N1]; [left; by left|].
    destruct Hy; [left; by right|by right].
  - intros x [Hx|Hx]%N2; [by apply N1|right]. pose proof (kp_fresh _ _ _ K1). lia.
  - lia.
  - congruence.
  - eapply first_kept_trans; [exact F1|exact F2|]. destruct (br_parts _ _ _ _ R2) as (_ & ? & _).
    destruct Ho as [Ho| ->]; [lia|]. rewrite app_nil_r, L1 in T2. rewrite csize_app in T2. lia.
  - by eapply kinds_kept_trans.
  - auto.
  - auto.
Qed.

(** The cut at the end of the range. *)
Lemma runs_split_tail s e cs c o q m p Q :
  heap_ok s → buf_rep s e cs → pos_of e cs c o q → p < q ∨ c = e → vb_mem s ≠ 0%nat →
  (∀ s' l1 l2, splits s e cs q s' l1 l2 → p < q ∨ l2 = [] → Q (Some (chunk_at e l2)) s') →
  runs (_vbuffer_iterator_split (Iter (Some c) o m false) false) s Q.
Proof.
  intros Ok H Hq [Ho|Ho] Hm HQ.
  - eapply runs_split; [done|done|exact Hq|done|done|]. intros s1 k1 k2 Hs. apply (HQ s1 k1 k2); [exact Hs|by left].
  - subst c. assert (o = 0 ∧ q = csize cs) as [-> ->].
    { destruct Hq as [(l1 & ch & l2 & -> & _)|(_ & -> & ->)]; [|done]. exfalso.
      eapply (br_ne_end _ _ _ e ch H); [|done]. apply elem_of_app. right. by left. }
    pose proof (splits_refl s e cs [] Ok) as Hs. rewrite app_nil_r in Hs.
    apply (runs_split_here s e cs []); [by rewrite app_nil_r|]. apply (HQ s cs []); [by apply Hs|by right].
Qed.

(** A cut after the first one, which [begin] starts. *)
Lemma split_cut_after s e l1 k q s' k1 k2 :
  buf_rep s e (l1 ++ k) → splits s e (l1 ++ k) q s' k1 k2 → csize l1 < q →
  ∃ a m, k1 = a ++ m ∧ chunk_at e (m ++ k2) = chunk_at e k ∧ cut 1 s e (l1 ++ k) (csize l1) q s' a m k2.
Proof.
  intros H [R Ok L T B A P K N M E F D W J] Ho.
  assert (pos_of e (k1 ++ k2) (chunk_at e k) 0 (csize l1)) as Hp.
  { apply P, pos_of_suffix. by destruct (br_parts _ _ _ _ H) as (_ & ? & _). }
  destruct (split_suffix _ _ _ _ _ R Hp) as (a & n2 & E1 & Hb & Hn).
  destruct (cut_order s' e a n2 k1 k2) as (m & -> & ->); [by rewrite <- E1|done|left; lia|].
  exists a, m. split_and!; [done|done|]. rewrite <- app_assoc in *. split; try done.
  - rewrite app_assoc, content_app, B, A, ztake_zdrop. done.
  - intros c ch k0 Ek Hs Hp0. destruct (F c ch k0 Ek Hs) as (ch' & k' & Ea & Hh & Es); [lia|].
    destruct l1 as [|[c1 ch1] l1]; [rewrite csize_nil in Hp0; lia|]. simpl in Ek. simplify_eq.
    destruct a as [|[c2 ch2] a]; [rewrite csize_nil in Hn; lia|]. simpl in Ea. simplify_eq.
    exists ch', a. split_and!; [done|done|]. pose proof (csize_tail _ _ _ _ H). rewrite csize_cons in *. simpl in *. lia.
Qed.

Lemma cut_refl s e l1 lm l2 :
  heap_ok s → buf_rep s e (l1 ++ lm ++ l2) → 
  cut 1 s e (l1 ++ lm ++ l2) (csize l1) (csize (l1 ++ lm)) s l1 lm l2.
Proof.
  intros Ok H. split; try done; [apply keeps_refl|by left|lia| |apply kinds_kept_refl].
  eapply first_kept_prefix, csize_tail; exact H.
Qed.

(** The loop of [_vbuffer_extract] that looks for the end of a range given by its
    length: [lm] has been walked, [size] bytes remain. *)
Lemma runs_extract_size s e ci : ∀ l2 lm l1 size fuel Q,
  heap_ok s → buf_rep s e (l1 ++ lm ++ l2) → (length l2 < fuel)%nat → 0 ≤ size → vb_mem s ≠ 0%nat →
  lm = [] ∨ 0 < size →
  (∀ s' a m b end_ iter, let cs := l1 ++ lm ++ l2 in
     cut 1 s e cs (csize l1) ((csize (l1 ++ lm) + size) `min` csize cs) s' a m b →
     chunk_at e (m ++ b) = chunk_at e (lm ++ l2) → default iter end_ = chunk_at e b →
     Q (Some (chunk_at e (lm ++ l2), end_, iter)) s') →
  runs (extract_loop fuel true false true (chunk_at e l2) (chunk_at e (lm ++ l2)) None ci size) s Q.
Proof.
  induction l2 as [|[c ch] l2 IH]; intros lm l1 size fuel Q Ok H Hf Hs Hm Hz HQ.
  - destruct (br_end _ _ _ H) as (ech & He & Oe). unfold chunk_at at 1. simpl.
    destruct fuel; simpl; (call runs_rd_chunk; [exact He|]; rewrite (eo_end _ Oe); step;
      apply (HQ s l1 lm [] None e); try done;
      rewrite app_nil_r in *; rewrite Z.min_r by lia;
      pose proof (cut_refl s e l1 lm []) as Hc; rewrite app_nil_r in Hc; by apply Hc).
  - pose proof H as H'. rewrite app_assoc in H'. destruct (br_at _ _ _ _ _ _ H') as [Hc Oc].
    destruct (br_size _ _ _ _ _ _ H') as (H1 & H2 & H3 & H4).
    destruct fuel as [|fuel]; simpl in Hf; [lia|]. unfold chunk_at at 1. simpl.
    call runs_rd_chunk; [exact Hc|]. rewrite (co_end _ _ Oc). case_test as Hgt.
    + rewrite andb_false_r. call (runs_chunk_next s e (l1 ++ lm)); [exact H'|]. step.
      rewrite cons_middle, (app_assoc lm). rewrite cons_middle, (app_assoc lm) in H. 
      eapply IH; [done|done|lia|lia|done|right; lia|].
      intros s' a m b end_ iter cs Hcut Ea Eb. rewrite cons_middle, (app_assoc lm) in HQ.
      apply (HQ s' a m b end_ iter); [|done|done]. fold cs. replace (csize (l1 ++ lm) + size)
        with (csize (l1 ++ lm ++ [(c, ch)]) + (size - ch_size ch)); [done|].
      rewrite !csize_app, csize_cons. simpl. rewrite csize_nil. lia.
    + assert (csize (l1 ++ lm ++ (c, ch) :: l2) = csize (l1 ++ lm) + ch_size ch + csize l2) as Et.
      { rewrite app_assoc, csize_app, csize_cons. simpl. lia. }
      rewrite u32_small by lia. cbv zeta in HQ. rewrite Z.min_l in HQ by lia.
      destruct (decide (size = 0)) as [->|Hne].
      * destruct Hz as [->|]; [|lia]. call (runs_split_here s e l1 ((c, ch) :: l2)); [exact H|]. step.
        rewrite app_nil_r, Z.add_0_r in HQ.
        apply (HQ s l1 [] ((c, ch) :: l2) (Some c) c); [|done|done].
        pose proof (cut_refl s e l1 [] ((c, ch) :: l2) Ok H) as Hcr. by rewrite app_nil_r in Hcr.
      * call (runs_split s e (l1 ++ lm ++ (c, ch) :: l2) c size (csize (l1 ++ lm) + size)); [done|done| |done|done|].
        { left. exists (l1 ++ lm), ch, l2. rewrite <- app_assoc. split_and!; [done|done|lia|lia]. }
        intros s' k1 k2 Hsp. step.
        destruct (split_cut_after s e l1 (lm ++ (c, ch) :: l2) _ _ _ _ H Hsp) as (a & m & -> & Ek & Hcut).
        { rewrite csize_app in H1 |- *. rewrite <- app_assoc in H'. destruct (br_parts _ _ _ _ H') as (_ & Hx & _).
          assert (0 ≤ csize lm); [|lia]. eapply csize_nonneg. intros c0 ch0 Hi. eapply br_ok; [exact H'|].
          rewrite !elem_of_app. right. by left. }
        by apply (HQ s' a m k2 (Some (chunk_at e k2)) c).
Qed.
End cut.

(** ** Moving the range to a new buffer *)

(** The mark of a selection. *)
Definition select_chunk (s : vbstate) (ch : vbuffer_chunk) : Prop :=
  ∃ w d r, ch = ctl_chunk w d ∧ vb_datas s !! d = Some (Data r vbuffer_data_ctl_select_ops).

(** The chunks [m] are in the buffer [e'] and the mark [c] is in their place. *)
Record moved s (e : loc) (a m b : list seg) (e' : loc) (s' : vbstate) (c : loc) (ch : vbuffer_chunk) : Prop := {
  mo_heap : heap_ok s';
  mo_rest : buf_rep s' e (a ++ (c, ch) :: b);
  mo_part : buf_rep s' e' m;
  mo_mark : select_chunk s' ch;
  mo_content : ∀ k, (∀ x, x ∈ k → x ∈ a ++ m ++ b) → content s' k = content s k;
  mo_keeps : keeps (e :: e' :: (a ++ m ++ b).*1) s s';
  mo_new : (vb_fresh s ≤ c)%positive;
  mo_mem : vb_mem s = (2 + vb_mem s')%nat;
  mo_error : vb_error s' = vb_error s;
  mo_end : writable_at s e → writable_at s' e;
}.

Section move.
Implicit Types s : vbstate.

Lemma runs_move s e a m b e' Q :
  heap_ok s → buf_rep s e (a ++ m ++ b) → buf_rep s e' [] → e' ≠ e →
  (∀ l, let s' := set_links l s in heap_ok s' → buf_rep s' e (a ++ b) → buf_rep s' e' m →
     keeps (e :: e' :: (a ++ m ++ b).*1) s s' → Q tt s') →
  runs (if bool_decide (chunk_at e (m ++ b) = chunk_at e b) then skip
        else be ← vbuffer_chunk_end (Some e');
             _ ← lnk (list2_insert_list be (chunk_at e (m ++ b)) (chunk_at e b)); skip) s Q.
Proof.
  intros Ok H H' Hne HQ. case_test as Hc.
  - assert (m = []) as ->.
    { destruct (chunk_at_inj s e a (m ++ b) (a ++ m) b) as [E _]; [done|by rewrite app_assoc|done|].
      rewrite <- (app_nil_r a) in E at 1. by apply app_inv_head in E. }
    unfold skip. step. specialize (HQ (vb_links s)). rewrite set_links_id in HQ.
    apply HQ; [done|exact H|done|apply keeps_refl].
  - unfold vbuffer_chunk_end. step. apply runs_bind.
    apply (runs_splice_range s e' [] [] e a m b); [done|done|done|done| |].
    { change (0 + csize m < 2 ^ 32). pose proof (br_small _ _ _ H) as Hs. rewrite app_assoc in H.
      destruct (br_parts _ _ _ _ H) as (? & ? & ?). rewrite !csize_app in *.
      rewrite <- app_assoc in H. destruct (br_parts _ _ _ _ H) as (? & ? & ?). lia. }
    intros r l s' Ok' R1 R2 K. unfold skip. step. simpl in R1. rewrite app_nil_r in R1. apply HQ; try done.
    eapply keeps_weaken; [exact K|]. intros x Hx. simpl in Hx. rewrite !elem_of_cons in *. tauto.
Qed.

(** The end of [_vbuffer_extract], from the move of the chunks on. *)
Lemma runs_move_select s e a m b e' end_ iter Q :
  heap_ok s → buf_rep s e (a ++ m ++ b) → buf_rep s e' [] → e' ≠ e → (2 ≤ vb_mem s)%nat →
  default iter end_ = chunk_at e b →
  (∀ s' c ch, moved s e a m b e' s' c ch → Q (Some c, Some e') s') →
  runs (let ee := default iter end_ in
        (if bool_decide (chunk_at e (m ++ b) = ee) then skip
         else be ← vbuffer_chunk_end (Some e'); _ ← lnk (list2_insert_list be (chunk_at e (m ++ b)) ee); skip);;
        ctl ← vbuffer_data_ctl_select;
        match ctl with
        | None => b ← vbuffer_clear (Some e'); ret (None, b)
        | Some d =>
            mark ← vbuffer_chunk_insert_ctl ee d;
            match mark with
            | None => b ← vbuffer_clear (Some e'); ret (None, b)
            | Some m => ret (Some m, Some e')
            end
        end) s Q.
Proof.
  intros Ok H H' Hne Hm Eb HQ. cbv zeta. rewrite Eb. destruct (vb_mem s) as [|[|n]] eqn:Em; [lia|lia|].
  call runs_move; [done|exact H|done|done|]. intros l s1 Ok1 R1 P1 K1.
  unfold vbuffer_data_ctl_select. call runs_new_data; [exact Em|]. set (s2 := add_data _ _ s1). set (d := vb_fresh s1).
  assert (heap_ok s2) as Ok2 by (apply heap_ok_add_data; [done|exact Em]).
  pose proof (keeps_add_data s1 vbuffer_data_ctl_select_ops (S n) Ok1 : keeps [] s1 s2) as K2.
  destruct (keeps_buf _ _ _ _ _ Ok1 K2 R1) as [R2 _]; [by intros ? _ ?%elem_of_nil|].
  destruct (keeps_buf _ _ _ _ _ Ok1 K2 P1) as [P2 _]; [by intros ? _ ?%elem_of_nil|].
  call (runs_insert_ctl s2 e a b d); [done|exact R2|by eexists; apply lookup_insert_eq|done|].
  intros s3 c ch [Ok3 R3 C3 [w ->] -> K3 B3 M3 E3 L3]. step. apply (HQ s3 _ (ctl_chunk w d)).
  destruct (keeps_buf _ _ _ _ _ Ok2 K3 P2) as [P3 CP].
  { intros x. by apply (buf_disjoint s2 e' m e (a ++ b) x). }
  assert (∀ k, (∀ x, x ∈ k → x ∈ a ++ m ++ b) → content s2 k = content s k) as C2.
  { intros k Hk. apply content_kept. intros x chx Hi. apply chunk_ok_kept; [|eapply br_ok; [exact H|by apply Hk]].
    intros dd [r bd] _ Hd. exists r. simpl. rewrite lookup_insert_ne; [done|].
    pose proof (ho_fresh_data _ Ok dd (mk_is_Some _ _ Hd)). unfold d, s1. simpl. lia. }
  split; try done.
  - destruct (B3 d (Data 0 vbuffer_data_ctl_select_ops)) as [r Hr]; [apply lookup_insert_eq|]. by exists w, d, r.
  - intros k Hk. rewrite <- C2 by done. apply content_kept. intros x chx Hi.
    apply chunk_ok_kept; [intros dd dt _; apply B3|].
    specialize (Hk _ Hi). rewrite !elem_of_app in Hk. destruct Hk as [Hk|[Hk|Hk]].
    + eapply br_ok; [exact R2|]. apply elem_of_app. by left.
    + by eapply br_ok; [exact P2|].
    + eapply br_ok; [exact R2|]. apply elem_of_app. by right.
  - eapply (keeps_trans _ (e :: (a ++ b).*1)); [done| |exact K3|].
    + eapply keeps_trans; [done|exact K1|exact K2|]. by intros ? ?%elem_of_nil.
    + intros x Hx. left. rewrite !fmap_app in *. rewrite !elem_of_cons, !elem_of_app in *. tauto.
  - simpl. lia.
  - simpl in M3. lia.
  - intros (ech & He & Hw). exists ech. split; [|done]. rewrite L3; [done|].
    eapply br_fresh; [exact Ok2|exact R2|by left].
Qed.
End move.

(** ** [vbuffer_select] *)

(** The range of a sub buffer; an empty range is given by its length or reaches
    the end of the buffer. *)
Definition select_range (e : loc) (cs : list seg) (data : vbuffer_sub) (p q : Z) : Prop :=
  match sb_begin data, sb_use_size data, sb_tail data with
  | Iter (Some c) o _ false, true, SubLength n =>
      pos_of e cs c o p ∧ 0 ≤ n < 2 ^ 32 ∧ q = (p + n) `min` csize cs
  | Iter (Some c) o _ false, false, SubEnd (Iter (Some c') o' _ false) =>
      pos_of e cs c o p ∧ pos_of e cs c' o' q ∧ (p < q ∨ c' = e)
  | _, _, _ => False
  end.

(** The heap after the selection of the bytes from [p] to [q]. *)
Record selected s (e : loc) (cs : list seg) (p q : Z) (s' : vbstate) (e' : loc)
    (a m b : list seg) (c : loc) (ch : vbuffer_chunk) : Prop := {
  sl_heap : heap_ok s';
  sl_rest : buf_rep s' e (a ++ (c, ch) :: b);
  sl_part : buf_rep s' e' m;
  sl_mark : select_chunk s' ch;
  sl_content : content s' (a ++ m ++ b) = content s cs;
  sl_before : content s' a = ztake p (content s cs);
  sl_inside : content s' m = zslice p (q - p) (content s cs);
  sl_after : content s' b = zdrop q (content s cs);
  sl_keeps : keeps (e :: cs.*1) s s';
  sl_new : (vb_fresh s ≤ e')%positive;
  sl_small : csize (a ++ m ++ b) < 2 ^ 32;
  sl_mem : (vb_mem s ≤ 5 + vb_mem s')%nat;
  sl_error : vb_error s' = vb_error s;
  sl_first : first_kept p cs a;
  sl_kinds : kinds_kept cs (a ++ m ++ b);
  sl_end : writable_at s e → writable_at s' e;
  sl_adjacent : adjacent cs → adjacent (a ++ m ++ b);
}.

Section select.
Implicit Types s : vbstate.

(** What the new end chunk changes. *)
Record fresh_end s (e' : loc) (s' : vbstate) : Prop := {
  fe_heap : heap_ok s';
  fe_buf : buf_rep s' e' [];
  fe_keeps : keeps [] s s';
  fe_new : e' = vb_fresh s;
  fe_mem : vb_mem s = S (vb_mem s');
  fe_error : vb_error s' = vb_error s;
}.

Lemma runs_fresh_end s w Q :
  heap_ok s → vb_mem s ≠ 0%nat → (∀ e' s', fresh_end s e' s' → Q (true, Some e') s') →
  runs (vbuffer_init_ w) s Q.
Proof.
  intros Ok Hm HQ. destruct (vb_mem s) as [|n] eqn:Em; [done|]. unfold vbuffer_init_.
  call runs_create_end; [exact Em|]. step. apply HQ. destruct (add_end_rep s w n Ok Em) as (? & ? & ?). by split.
Qed.

Lemma keeps_nil_buf s s' e cs :
  heap_ok s → keeps [] s s' → buf_rep s e cs → buf_rep s' e cs ∧ content s' cs = content s cs.
Proof. intros Ok K H. eapply keeps_buf; [done|done|done|]. by intros ? _ ?%elem_of_nil. Qed.

Lemma keeps_nil_writable s s' c :
  heap_ok s → keeps [] s s' → writable_at s c → writable_at s' c.
Proof.
  intros Ok K (ch & Hc & Hw). exists ch. split; [|done].
  rewrite (kp_chunks _ _ _ K); [done|by apply not_elem_of_nil|]. apply (ho_fresh_chunk _ Ok). eauto.
Qed.

Lemma cut_fresh_end s e cs p q s1 a m b e' s2 :
  heap_ok s → cut 2 s e cs p q s1 a m b → fresh_end s1 e' s2 → cut 3 s e cs p q s2 a m b.
Proof.
  intros Ok [R Ok1 T L C K N M E F D W J] [Ok2 _ K2 _ M2 E2].
  destruct (keeps_nil_buf _ _ _ _ Ok1 K2 R) as [R2 C2]. split; try done.
  - congruence.
  - eapply keeps_trans; [done|exact K|exact K2|]. by intros ? ?%elem_of_nil.
  - lia.
  - congruence.
  - intros Hw. eapply keeps_nil_writable; [exact Ok1|exact K2|auto].
Qed.

Lemma split_fresh_end_cut s e cs p q s1 l1 l2 e' s2 s3 a m b :
  heap_ok s → splits s e cs p s1 l1 l2 → fresh_end s1 e' s2 → cut 1 s2 e (l1 ++ l2) p q s3 a m b →
  cut 3 s e cs p q s3 a m b.
Proof.
  intros Ok [R Ok1 L T B A _ K N M E F D W J] [Ok2 _ K2 _ M2 E2] [R3 Ok3 T3 L3 C3 K3 N3 M3 E3 F3 D3 W3 J3].
  destruct (keeps_nil_buf _ _ _ _ Ok1 K2 R) as [R2 C2]. pose proof (kp_fresh _ _ _ K). pose proof (kp_fresh _ _ _ K2).
  split; try done.
  - congruence.
  - rewrite C3, C2, content_app, B, A. by rewrite ztake_zdrop.
  - assert (keeps (e :: cs.*1) s s2) as K12.
    { eapply keeps_trans; [done|exact K|exact K2|]. by intros ? ?%elem_of_nil. }
    eapply keeps_trans; [done|exact K12|exact K3|]. intros x. rewrite elem_of_cons. intros [->|Hx%N]; [by left; left|].
    destruct Hx; [left; by right|by right].
  - intros x [Hx|Hx]%N3; [by apply N|right; lia].
  - lia.
  - congruence.
  - by eapply first_kept_trans.
  - by eapply kinds_kept_trans.
  - intros Hw. apply W3. eapply keeps_nil_writable; [exact Ok1|exact K2|auto].
  - auto.
Qed.

Lemma cut_moved s e cs p q s1 a m b e' s2 c ch :
  heap_ok s → cut 3 s e cs p q s1 a m b → (vb_fresh s ≤ e')%positive → moved s1 e a m b e' s2 c ch →
  selected s e cs p q s2 e' a m b c ch.
Proof.
  intros Ok Hc He [Ok2 R P Mk C K N M E W]. destruct (cut_parts _ _ _ _ _ _ _ _ _ _ Hc) as (C1 & C2 & C3).
  destruct Hc as [R1 Ok1 T L C0 K1 N1 M1 E1 F1 D1 W1 J1]. split; try done.
  - by rewrite C, C0.
  - rewrite C, C1; [done|]. intros x Hx. rewrite elem_of_app. by left.
  - rewrite C, C2; [done|]. intros x Hx. rewrite !elem_of_app. right. by left.
  - rewrite C, C3; [done|]. intros x Hx. rewrite !elem_of_app. right. by right.
  - eapply keeps_trans; [done|exact K1|exact K|]. intros x. rewrite !elem_of_cons. intros [->|[->|Hx%N1]].
    + left. by left.
    + by right.
    + destruct Hx; [left; by right|by right].
  - by apply (br_small _ _ _ R1).
  - lia.
  - congruence.
  - auto.
Qed.

Lemma runs_copy s e cs c o m p Q :
  buf_rep s e cs → pos_of e cs c o p → Q (Iter (Some c) o m false) s →
  runs (vbuffer_iterator_copy (Iter (Some c) o m false)) s Q.
Proof. intros H Hp HQ. unfold vbuffer_iterator_copy. call runs_iter_check; [exact H|exact Hp|]. simpl. by step. Qed.

Lemma runs_sub_end s e cs begin c o m q Q :
  buf_rep s e cs → pos_of e cs c o q → Q (Iter (Some c) o m false) s →
  runs (vbuffer_sub_end (Sub begin false (SubEnd (Iter (Some c) o m false)))) s Q.
Proof.
  intros H Hq HQ. unfold vbuffer_sub_end, sub_end. cbn [sb_use_size sb_tail]. apply runs_bind, runs_ret.
  by eapply runs_copy.
Qed.

Lemma runs_iter_clear s c o m Q :
  Q (Iter None o m false) s → runs (vbuffer_iterator_clear (Iter (Some c) o m false)) s Q.
Proof. intros HQ. unfold vbuffer_iterator_clear, skip. simpl. step. by step. Qed.

Lemma runs_extract_end s e cs c o m p c' o' m' q Q :
  heap_ok s → buf_rep s e cs → pos_of e cs c o p → pos_of e cs c' o' q → p < q ∨ c' = e → (5 ≤ vb_mem s)%nat →
  (∀ s' e' a lm b c1 ch, selected s e cs p q s' e' a lm b c1 ch → Q (Some c1, Some e') s') →
  runs (_vbuffer_extract (Sub (Iter (Some c) o m false) false (SubEnd (Iter (Some c') o' m' false))) false true) s Q.
Proof.
  intros Ok H Hp Hq Ho Hm HQ. unfold _vbuffer_extract, _vbuffer_sub_check. apply runs_bind. cbn [sb_begin sb_use_size].
  call runs_iter_check; [exact H|exact Hp|]. simpl. unfold sub_end at 1. simpl. step.
  eapply runs_iter_check; [exact H|exact Hq|]. simpl. apply runs_bind.
  call runs_sub_end; [exact H|exact Hq|].
  call runs_split_tail; [done|exact H|exact Hq|exact Ho|lia|]. intros s1 k1 k2 Hs1 Ho1.
  call runs_iter_clear. step. simpl.
  destruct Hs1 as [R1 Ok1 L1 T1 B1 A1 P1 K1 N1 M1 E1]. unfold vbuffer_sub_begin. simpl.
  call runs_copy; [exact R1|by apply P1|].
  call runs_split; [done|exact R1|by apply P1|lia|done|]. intros s2 j1 j2 Hs2. pose proof (sp_mem _ _ _ _ _ _ _ Hs2).
  destruct (split_cut s e cs p q s1 k1 k2 s2 j1 j2) as (lm & b & -> & Ek & Hcut); [done|done|done|done|].
  call runs_iter_clear. simpl.
  pose proof (ct_rep _ _ _ _ _ _ _ _ _ _ Hcut) as R2. destruct (chunk_at_lookup _ _ _ _ R2) as [bch Hb].
  call runs_rd_chunk; [exact Hb|]. call runs_fresh_end; [apply (ct_heap _ _ _ _ _ _ _ _ _ _ Hcut)|lia|].
  intros e' s3 Hf. pose proof (cut_fresh_end _ _ _ _ _ _ _ _ _ _ _ Ok Hcut Hf) as Hcut3. step. simpl. step.
  assert (e' ≠ e) as Hne.
  { intros ->. pose proof (br_fresh _ _ _ e (ct_heap _ _ _ _ _ _ _ _ _ _ Hcut) R2 ltac:(by left)) as Hlt.
    rewrite (fe_new _ _ _ Hf) in Hlt. lia. }
  pose proof (fe_mem _ _ _ Hf).
  eapply (runs_move_select s3 e j1 lm b e'); [apply (fe_heap _ _ _ Hf)|apply (ct_rep _ _ _ _ _ _ _ _ _ _ Hcut3)
    |apply (fe_buf _ _ _ Hf)|done|lia|by rewrite Ek|].
  intros s4 c1 ch Hmv. eapply HQ, cut_moved; [done|exact Hcut3| |exact Hmv].
  rewrite (fe_new _ _ _ Hf). apply (kp_fresh _ _ _ (ct_keeps _ _ _ _ _ _ _ _ _ _ Hcut)).
Qed.

Lemma runs_extract_length s e cs c o m p n Q :
  heap_ok s → buf_rep s e cs → pos_of e cs c o p → 0 ≤ n → (5 ≤ vb_mem s)%nat →
  (∀ s' e' a lm b c1 ch, selected s e cs p ((p + n) `min` csize cs) s' e' a lm b c1 ch → Q (Some c1, Some e') s') →
  runs (_vbuffer_extract (Sub (Iter (Some c) o m false) true (SubLength n)) false true) s Q.
Proof.
  intros Ok H Hp Hn Hm HQ. unfold _vbuffer_extract, _vbuffer_sub_check. apply runs_bind. cbn [sb_begin sb_use_size].
  call runs_iter_check; [exact H|exact Hp|]. simpl. step. simpl. step. simpl.
  unfold vbuffer_sub_begin. simpl. call runs_copy; [exact H|exact Hp|].
  call runs_split; [done|exact H|exact Hp|lia|done|]. intros s1 l1 l2 Hs.
  call runs_iter_clear. simpl. pose proof Hs as [R1 Ok1 L1 T1 _ _ _ K1 _ M1 _].
  destruct (chunk_at_lookup _ _ _ _ R1) as [bch Hb]. call runs_rd_chunk; [exact Hb|].
  call runs_fresh_end; [done|lia|]. intros e' s2 Hf. pose proof Hf as [Ok2 Rf Kf Nf Mf _]. step. cbn [orb negb].
  destruct (keeps_nil_buf _ _ _ _ Ok1 Kf R1) as [R2 _].
  assert (e' ≠ e) as Hne.
  { intros ->. pose proof (br_fresh _ _ _ e Ok1 R1 ltac:(by left)). lia. }
  pose proof (br_list _ _ _ R2) as Hl. rewrite fmap_app in Hl.
  eapply runs_lnk_prev; [apply (dlist_link _ _ _ _ Hl)|]. step. call runs_chunk_fuel.
  apply (runs_extract_size s2 e _ l2 [] l1 n); [done|exact R2| |done|lia|by left|].
  { pose proof (br_fuel _ _ _ R2) as Hfu. rewrite length_app in Hfu. lia. }
  intros s3 a lm b end_ iter ccs Hcut Ebeg Eend. subst ccs. simpl in Hcut.
  rewrite app_nil_r in Hcut. rewrite T1, L1 in Hcut.
  pose proof (split_fresh_end_cut _ _ _ _ _ _ _ _ _ _ _ _ _ _ Ok Hs Hf Hcut) as Hcut3.
  simpl in Ebeg. simpl (chunk_at e ([] ++ l2)). rewrite <- Ebeg.
  destruct (keeps_buf _ _ _ _ _ Ok2 (ct_keeps _ _ _ _ _ _ _ _ _ _ Hcut) Rf) as [Rf3 _].
  { intros x. by apply (buf_disjoint s2 e' [] e (l1 ++ l2) x). }
  pose proof (ct_mem _ _ _ _ _ _ _ _ _ _ Hcut).
  eapply (runs_move_select s3 e a lm b e'); [apply (ct_heap _ _ _ _ _ _ _ _ _ _ Hcut)
    |apply (ct_rep _ _ _ _ _ _ _ _ _ _ Hcut3)|done|done|lia|exact Eend|].
  intros s4 c1 ch Hmv. eapply HQ, cut_moved; [done|exact Hcut3| |exact Hmv].
  rewrite Nf. apply (kp_fresh _ _ _ K1).
Qed.

Lemma runs_select s e cs data p q Q :
  heap_ok s → buf_rep s e cs → select_range e cs data p q → (5 ≤ vb_mem s)%nat →
  (∀ s' data' e' a m b c ch, selected s e cs p q s' e' a m b c ch →
     Q (true, data', Some e', Iter (Some c) 0 0 false) s') →
  runs (vbuffer_select data) s Q.
Proof.
  intros Ok H Hr Hm HQ. unfold vbuffer_select. unfold select_range in Hr.
  destruct data as [[[c|] o me [|]] [|] [[[c'|] o' m' [|]]|n]]; cbn [sb_begin sb_use_size sb_tail] in Hr; try done.
  - destruct Hr as (Hp & Hn & ->). call runs_extract_length; [done|exact H|exact Hp|lia|done|].
    intros s' e' a lm b c1 ch Hs. unfold vbuffer_sub_clear. cbn [sb_begin sb_use_size]. apply runs_bind.
    call runs_iter_clear. step. step. by eapply HQ.
  - destruct Hr as (Hp & Hq & Ho). call runs_extract_end; [done|exact H|exact Hp|exact Hq|exact Ho|done|].
    intros s' e' a lm b c1 ch Hs. unfold vbuffer_sub_clear, sub_end. cbn [sb_begin sb_use_size sb_tail]. apply runs_bind.
    call runs_iter_clear. step. call runs_iter_clear. step. step. by eapply HQ.
Qed.
End select.
