(* ===== verification/VbSelectSpec.v ===== *)
(** * Selection and restoration (lib/haka/vbuffer.c)

    A selection takes a range of bytes out of a buffer; the restoration of a
    buffer at the mark of a selection puts its bytes in place of the range. Both
    together with the selected buffer itself give the bytes of the beginning. *)

From S2P Require Import Prelude List2 VbHeap VbIter VbSub VbRep VbWalk VbFrame VbMut VbEdit VbClear VbMake VbCtl VbSelect VbSpec.

(** ** [vbuffer_restore] *)

(** The chunks [m] of a restored buffer are in place of the mark. *)
Record restored (s : vbstate) (e : loc) (a : list seg) (c : loc) (m b : list seg) (e2 : loc) (s' : vbstate) : Prop := {
  rs_heap : heap_ok s';
  rs_buf : buf_rep s' e (a ++ m ++ b);
  rs_content : content s' (a ++ m ++ b) = content s a ++ content s m ++ content s b;
  rs_keeps : keeps ((e :: c :: (a ++ b).*1) ++ e2 :: m.*1) s s';
  rs_leak : no_leak s → no_leak s';
  rs_mem : vb_mem s' = vb_mem s;
  rs_error : vb_error s' = vb_error s;
  rs_end : writable_at s e → writable_at s' e;
}.

Section restore.
Implicit Types s : vbstate.

Lemma keeps_content_sub X s s' e cs k :
  heap_ok s → keeps X s s' → buf_rep s e cs → (∀ x, x ∈ e :: cs.*1 → x ∉ X) → (∀ x, x ∈ k → x ∈ cs) →
  content s' k = content s k.
Proof.
  intros Ok K H Hd Hk. apply content_kept. intros c ch Hi. pose proof (Hk _ Hi) as Hi'.
  destruct (br_chunks _ _ _ H _ _ Hi') as [Hc Oc]. apply chunk_ok_kept; [|done]. intros d dt Ed Hdt.
  eapply (kp_datas _ _ _ K); [exact Hdt| |exact Hc|exact Ed]. apply Hd. right. apply list_elem_of_fmap. by exists (c, ch).
Qed.

(** The test of the mark. *)
Lemma runs_is_select s ch Q : select_chunk s ch → Q true s → runs (data_is (ch_data ch) is_select) s Q.
Proof. intros (w & d & r & -> & Hd) HQ. unfold data_is. simpl. call runs_rd_data; [exact Hd|]. by step. Qed.

(** The chunks are moved before the mark, the buffer they come from is cleared and
    the mark is removed. *)
Lemma restored_steps s l e a c ch b e2 m s2 s3 :
  let s1 := set_links l s in
  heap_ok s → heap_ok s1 → buf_rep s1 e (a ++ m ++ (c, ch) :: b) → select_chunk s ch → buf_rep s1 e2 [] → e2 ≠ e →
  keeps ((e :: (a ++ (c, ch) :: b).*1) ++ e2 :: m.*1) s s1 →
  released s1 e2 [] s2 → removed s2 e (a ++ m) c ch b s3 → restored s e a c m b e2 s3.
Proof.
  intros s1 Ok Ok1 R1 (w & d & r & -> & _) P1 Hne K1 [Ok2 K2 _ N2 E2 M2] [Ok3 R3 C3 K3 L3 _ M3 _ N3 E3].
  simpl in R3, C3. rewrite touch_false, <- app_assoc in R3, C3.
  assert (keeps ((e :: c :: (a ++ b).*1) ++ e2 :: m.*1) s s1) as K1'.
  { eapply keeps_weaken; [exact K1|]. intros x. rewrite fmap_split, fmap_app. simpl.
    rewrite !elem_of_cons, !elem_of_app, !elem_of_cons, ?elem_of_app. tauto. }
  split; try done; [| |auto|by rewrite M3, M2|by rewrite E3, E2|].
  - rewrite C3, <- !content_app, <- (content_same s s1) by done.
    apply (keeps_content_sub [e2] s1 s2 e (a ++ m ++ (c, ctl_chunk w d) :: b)); [done|done|done| |].
    + intros x. by apply (buf_disjoint s1 e (a ++ m ++ (c, ctl_chunk w d) :: b) e2 []).
    + intros x. rewrite !elem_of_app, elem_of_cons. tauto.
  - assert (keeps ((e :: c :: (a ++ b).*1) ++ e2 :: m.*1) s s2) as K12.
    { eapply keeps_trans; [done|exact K1'|exact K2|]. intros x ->%list_elem_of_singleton. left.
      apply elem_of_app. right. by left. }
    eapply keeps_trans; [done|exact K12|exact K3|]. intros y. rewrite !fmap_app. simpl.
    rewrite !elem_of_cons, !elem_of_app, !elem_of_cons. tauto.
  - intros (ech & He & Hw). assert (vb_chunks s2 !! e = Some ech) as He2.
    { rewrite (kp_chunks _ _ _ K2); [done| |].
      - by intros ->%list_elem_of_singleton.
      - eapply br_fresh; [exact Ok1|exact R1|by left]. }
    assert (e ≠ c) as Hec.
    { intros ->. eapply (br_ne_end _ _ _ c _ R1); [|done]. rewrite !elem_of_app, elem_of_cons. auto. }
    pose proof (L3 e Hec) as He3. simpl in He3. destruct (decide (e = chunk_at e b)) as [Eb|Eb].
    + rewrite <- Eb, lookup_alter_eq, He2 in He3. simpl in He3. by exists (inherit false ech).
    + rewrite lookup_alter_ne, He2 in He3 by done. by exists ech.
Qed.

Lemma runs_restore s e a c ch b e2 m o me Q :
  heap_ok s → buf_rep s e (a ++ (c, ch) :: b) → select_chunk s ch → buf_rep s e2 m → e2 ≠ e →
  csize (a ++ b) + csize m < 2 ^ 32 → 0 ≤ o ≤ csize b →
  (∀ s', restored s e a c m b e2 s' → Q (true, Iter None o me false, Some None) s') →
  runs (vbuffer_restore (Iter (Some c) o me false) (Some (Some e2)) false) s Q.
Proof.
  intros Ok H Hsel H2 Hne Hs Ho HQ. unfold vbuffer_restore. pose proof Hsel as (w & d & r & Ech & Hd).
  assert (csize (a ++ (c, ch) :: b) = csize (a ++ b)) as Ecs.
  { rewrite !csize_app, csize_cons, Ech. simpl. lia. }
  call runs_iter_check; [exact H| |].
  { left. exists a, ch, b. rewrite Ecs, csize_app. split_and!; [done|done|lia|lia]. }
  simpl. step. destruct (br_at _ _ _ _ _ _ H) as [Hc _]. call runs_rd_chunk; [exact Hc|].
  call runs_is_select; [exact Hsel|]. simpl. apply runs_bind. step.
  call runs_chunk_begin; [exact H2|]. unfold vbuffer_chunk_end. step. apply runs_bind.
  change c with (chunk_at e ((c, ch) :: b)) at 1.
  eapply (runs_splice s e a ((c, ch) :: b) e2 m); [done|exact H|exact H2|done|lia|].
  intros r1 l s1 Ok1 R1 P1 K1. call runs_clear; [exact Ok1|exact P1|]. intros s2 Hrel. step.
  pose proof R1 as R1'. rewrite app_assoc in R1'.
  destruct (keeps_buf _ _ _ _ _ Ok1 (rl_keeps _ _ _ _ Hrel) R1') as [R2 _].
  { intros x. by apply (buf_disjoint s1 e ((a ++ m) ++ (c, ch) :: b) e2 []). }
  call (runs_remove_ctl s2 e (a ++ m)); [apply (rl_heap _ _ _ _ Hrel)|exact R2|by rewrite Ech|]. intros s3 Hrm.
  call runs_iter_clear. step. apply HQ. by eapply restored_steps.
Qed.
End restore.

(** ** The claims *)

(** [vbuffer_select] of the bytes from [p] to [q] of a buffer: they become the
    bytes of a new buffer, the bytes before and after them stay in the buffer with
    the mark of the selection between them, and all other buffers are as they were. *)
Theorem vbuffer_select_correct s e cs data p q :
  heap_ok s → buf_rep s e cs → select_range e cs data p q → (5 ≤ vb_mem s)%nat →
  runs (vbuffer_select data) s (λ r s', ∃ data' e' a m b c ch,
    r = (true, data', Some e', Iter (Some c) 0 0 false) ∧ heap_ok s' ∧ e' ≠ e ∧
    buf_rep s' e (a ++ (c, ch) :: b) ∧ select_chunk s' ch ∧ buf_rep s' e' m ∧
    content s' a = ztake p (content s cs) ∧ content s' b = zdrop q (content s cs) ∧
    content s' m = zslice p (q - p) (content s cs) ∧
    (∀ e0 cs0, e0 ≠ e → buf_rep s e0 cs0 →
       e0 ≠ e' ∧ buf_rep s' e0 cs0 ∧ content s' cs0 = content s cs0)).
Proof.
  intros Ok H Hr Hm. eapply runs_select; [done|exact H|exact Hr|done|].
  intros s' data' e' a m b c ch [Ok' R P Mk _ C1 C2 C3 K N _ _ _]. exists data', e', a, m, b, c, ch.
  split_and!; try done.
  - intros ->. pose proof (br_fresh _ _ _ e Ok H ltac:(by left)). lia.
  - intros e0 cs0 Hne H0. split.
    + intros ->. pose proof (br_fresh _ _ _ e' Ok H0 ltac:(by left)). lia.
    + apply (keeps_buf _ _ _ _ _ Ok K H0). intros x. by apply (buf_disjoint s e0 cs0 e cs).
Qed.

(** [vbuffer_restore] of a buffer at the mark of a selection puts its bytes in
    place of the mark, ends the buffer and clears the iterator; no data block leaks
    and all other buffers are as they were. *)
Theorem vbuffer_restore_correct s e a c ch b e2 m meter :
  heap_ok s → buf_rep s e (a ++ (c, ch) :: b) → select_chunk s ch → buf_rep s e2 m → e2 ≠ e →
  csize (a ++ b) + csize m < 2 ^ 32 →
  runs (vbuffer_restore (Iter (Some c) 0 meter false) (Some (Some e2)) false) s (λ r s', ∃ cs',
    r = (true, Iter None 0 meter false, Some None) ∧ heap_ok s' ∧ buf_rep s' e cs' ∧
    content s' cs' = content s a ++ content s m ++ content s b ∧ (no_leak s → no_leak s') ∧
    (∀ e0 cs0, e0 ≠ e → e0 ≠ e2 → buf_rep s e0 cs0 → buf_rep s' e0 cs0 ∧ content s' cs0 = content s cs0)).
Proof.
  intros Ok H Hsel H2 Hne Hs. assert (0 ≤ csize b) as Hb.
  { pose proof H as H'. rewrite cons_middle, app_assoc in H'. by destruct (br_parts _ _ _ _ H') as (_ & ? & _). }
  eapply runs_restore; [done|exact H|exact Hsel|exact H2|done|done|lia|].
  intros s' [Ok' R C K N M E]. exists (a ++ m ++ b). split_and!; try done.
  intros e0 cs0 Hne0 Hne2 H0. apply (keeps_buf _ _ _ _ _ Ok K H0). intros x Hx [Hi|Hi]%elem_of_app.
  - eapply (buf_disjoint s e0 cs0 e); [exact H0|exact H|done|exact Hx|].
    rewrite fmap_split. simpl. rewrite fmap_app in Hi. rewrite !elem_of_cons, !elem_of_app, ?elem_of_cons in *. tauto.
  - by apply (buf_disjoint s e0 cs0 e2 m x).
Qed.

(** C16 A selection and the restoration of the selected buffer at its mark give back
    the bytes of the buffer, without an error, whatever the range. *)
Theorem vbuffer_select_restore_roundtrip s e cs data p q :
  heap_ok s → buf_rep s e cs → select_range e cs data p q → (5 ≤ vb_mem s)%nat →
  runs ('(ok, _, buffer, ref) ← vbuffer_select data;
        '(done_, _, rest) ← vbuffer_restore ref (Some buffer) false;
        ret (ok && done_, rest)) s (λ r s', ∃ cs',
    r = (true, Some None) ∧ heap_ok s' ∧ vb_error s' = vb_error s ∧
    buf_rep s' e cs' ∧ content s' cs' = content s cs ∧
    (∀ e0 cs0, e0 ≠ e → buf_rep s e0 cs0 → buf_rep s' e0 cs0 ∧ content s' cs0 = content s cs0)).
Proof.
  intros Ok H Hr Hm. call runs_select; [done|exact H|exact Hr|done|].
  intros s1 data' e' a m b c ch [Ok1 R1 P1 Mk C0 _ _ _ K1 N S1 _ E1].
  assert (e' ≠ e) as Hne by (intros ->; pose proof (br_fresh _ _ _ e Ok H ltac:(by left)); lia).
  assert (0 ≤ csize b) as Hb.
  { pose proof R1 as R'. rewrite cons_middle, app_assoc in R'. by destruct (br_parts _ _ _ _ R') as (_ & ? & _). }
  call runs_restore; [done|exact R1|exact Mk|exact P1|done| |lia|].
  { rewrite !csize_app in S1. rewrite csize_app. lia. }
  intros s2 [Ok2 R2 C2 K2 _ _ E2]. step. exists (a ++ m ++ b). split_and!; try done; [congruence| |].
  - by rewrite C2, <- !content_app.
  - intros e0 cs0 Hne0 H0.
    assert (e0 ≠ e') as Hne' by (intros ->; pose proof (br_fresh _ _ _ e' Ok H0 ltac:(by left)); lia).
    destruct (keeps_buf _ _ _ _ _ Ok K1 H0) as [H1 <-]; [intros x; by apply (buf_disjoint s e0 cs0 e cs)|].
    apply (keeps_buf _ _ _ _ _ Ok1 K2 H1). intros x Hx [Hi|Hi]%elem_of_app.
    + eapply (buf_disjoint s1 e0 cs0 e); [exact H1|exact R1|done|exact Hx|].
      rewrite fmap_split. simpl. rewrite fmap_app in Hi. rewrite !elem_of_cons, !elem_of_app, ?elem_of_cons in *. tauto.
    + by apply (buf_disjoint s1 e0 cs0 e' m x).
Qed.

(** ** Witnesses *)

(** Bytes 1 to 4 of the buffer of the examples. *)
Definition ex_part : vbuffer_sub := Sub (Iter (Some 2%positive) 1 0 false) true (SubLength 3).

Lemma ex_part_range : select_range 3 ex_cs ex_part 1 4.
Proof. split_and!; [by apply ex_pos|done|done|done]. Qed.

Lemma vbuffer_select_correct_witness :
  runs (vbuffer_select ex_part) ex2 (λ r s', ∃ data' e' a m b c ch,
    r = (true, data', Some e', Iter (Some c) 0 0 false) ∧ heap_ok s' ∧ e' ≠ 3%positive ∧
    buf_rep s' 3 (a ++ (c, ch) :: b) ∧ select_chunk s' ch ∧ buf_rep s' e' m ∧
    content s' a = [104] ∧ content s' b = [111; 33] ∧ content s' m = [101; 108; 108] ∧
    (∀ e0 cs0, e0 ≠ 3%positive → buf_rep ex2 e0 cs0 →
       e0 ≠ e' ∧ buf_rep s' e0 cs0 ∧ content s' cs0 = content ex2 cs0)).
Proof.
  apply (vbuffer_select_correct ex2 3 ex_cs ex_part 1 4);
    [apply ex2_heap|apply ex2_rep|apply ex_part_range|by apply (bool_decide_unpack _); vm_compute].
Defined.

(** The bytes 1 to 4 are replaced by those of the second buffer. *)
Lemma vbuffer_restore_correct_witness :
  runs ('(_, _, _, ref) ← vbuffer_select ex_part; vbuffer_restore ref (Some (Some 6%positive)) false) ex2 (λ r s',
    ∃ cs', r = (true, Iter None 0 0 false, Some None) ∧ heap_ok s' ∧ buf_rep s' 3 cs' ∧
      content s' cs' = [104; 44; 32; 111; 33]).
Proof.
  apply runs_bind. eapply (runs_select ex2 3 ex_cs ex_part 1 4);
    [apply ex2_heap|apply ex2_rep|apply ex_part_range|by apply (bool_decide_unpack _); vm_compute|].
  intros s1 data' e' a m b c ch [Ok1 R1 P1 Mk _ C1 _ C3 K1 N S1 _ _].
  destruct (keeps_buf _ _ _ _ _ ex2_heap K1 ex2_rep2) as [H1 C4].
  { intros x. by apply (buf_disjoint ex2 6 ex_cs2 3 ex_cs x ex2_rep2 ex2_rep). }
  eapply runs_mono; [apply (vbuffer_restore_correct s1 3 a c ch b 6 ex_cs2 0); [done|done|done|done|done|]|].
  - rewrite csize_app. 
    assert (csize a = 1) as ->.
    { rewrite <- (content_len s1 a), C1; [by vm_compute|]. intros x chx Hi. eapply br_ok; [exact R1|].
      rewrite elem_of_app. left. exact Hi. }
    assert (csize b = 2) as ->; [|done].
    rewrite <- (content_len s1 b), C3; [by vm_compute|]. intros x chx Hi. eapply br_ok; [exact R1|].
    rewrite elem_of_app, elem_of_cons. right. right. exact Hi.
  - intros r s2 (cs' & -> & Ok2 & R2 & C2 & _). exists cs'. split_and!; [done|done|done|]. rewrite C2, C1, C3, C4. by vm_compute.
Defined.

Lemma vbuffer_select_restore_roundtrip_witness :
  runs ('(ok, _, buffer, ref) ← vbuffer_select ex_part;
        '(done_, _, rest) ← vbuffer_restore ref (Some buffer) false;
        ret (ok && done_, rest)) ex2 (λ r s', ∃ cs',
    r = (true, Some None) ∧ heap_ok s' ∧ vb_error s' = None ∧
    buf_rep s' 3 cs' ∧ content s' cs' = [104; 101; 108; 108; 111; 33] ∧
    (∀ e0 cs0, e0 ≠ 3%positive → buf_rep ex2 e0 cs0 → buf_rep s' e0 cs0 ∧ content s' cs0 = content ex2 cs0)).
Proof.
  apply (vbuffer_select_restore_roundtrip ex2 3 ex_cs ex_part 1 4);
    [apply ex2_heap|apply ex2_rep|apply ex_part_range|by apply (bool_decide_unpack _); vm_compute].
Defined.
