(* ===== verification/VbMap.v ===== *)
(** * The beginning of a buffer mapped in memory

    The headers of the protocols are accessed through the memory that
    [vbuffer_iterator_mmap] maps at the beginning of a buffer. [first_block]: the
    first chunk of a buffer and its block; [mapped_at v e a H w]: the first chunk of
    the buffer [e] is mapped at the address [a] with the bytes [H] and is writable if
    [w]. Loads and stores through the pointer read and update [H]. *)

From S2P Require Import Prelude List2 VbHeap VbIter VbSub VbRep VbWalk VbFrame VbMut VbEdit VbMake VbRead VbSpec VbWrite VbSelect.

Record first_block (s : vbstate) (e c d : loc) (ch : vbuffer_chunk) (r sz : Z) (b : list Z) : Prop := {
  fb_begin : nxt (vb_links s) e = Some c;
  fb_next : is_Some (nxt (vb_links s) c);
  fb_prev : is_Some (prv (vb_links s) c);
  fb_chunk : vb_chunks s !! c = Some ch;
  fb_end : fl_end (ch_flags ch) = false;
  fb_ctl : fl_ctl (ch_flags ch) = false;
  fb_data : ch_data ch = Some d;
  fb_block : vb_datas s !! d = Some (Data r (vbuffer_data_basic_ops sz b));
  fb_range : 0 ≤ ch_offset ch ∧ 0 < ch_size ch ∧ ch_offset ch + ch_size ch ≤ zlen b;
}.

Definition mapped_at (v : vbstate) (e : loc) (a : loc * Z) (H : list Z) (w : bool) : Prop :=
  ∃ c ch r sz b, first_block v e c a.1 ch r sz b ∧ a.2 = ch_offset ch ∧
    H = zslice (ch_offset ch) (ch_size ch) b ∧ w = fl_writable (ch_flags ch).

Section first.
Implicit Types v : vbstate.

Lemma head_ztake {A} n (l : list A) : 0 < n → head (ztake n l) = head l.
Proof. intros Hn. unfold ztake. destruct (Z.to_nat n) eqn:E; [lia|]. by destruct l. Qed.

Section block.
Context (v : vbstate) (e c d : loc) (ch : vbuffer_chunk) (r sz : Z) (b : list Z).
Hypothesis F : first_block v e c d ch r sz b.
#[local] Set Default Proof Using "F".

Lemma runs_block_begin it Q :
  Q (Iter (Some c) 0 (it_meter it) false) v → runs (vbuffer_begin (Some e) it) v Q.
Proof.
  intros HQ. unfold vbuffer_begin, vbuffer_position. step.
  rewrite bool_decide_false by (unfold size_max; lia).
  unfold vbuffer_chunk_begin. apply runs_bind. step.
  call runs_lnk_next; [apply (fb_begin _ _ _ _ _ _ _ _ F)|]. step.
  rewrite bool_decide_false by lia. by step.
Qed.

Lemma runs_block_check m Q : Q true v → runs (_vbuffer_iterator_check (Iter (Some c) 0 m false)) v Q.
Proof.
  intros HQ. unfold _vbuffer_iterator_check. cbn [it_chunk it_registered].
  call runs_rd_chunk; [apply (fb_chunk _ _ _ _ _ _ _ _ F)|].
  destruct (fb_next _ _ _ _ _ _ _ _ F) as [n Hn]. destruct (fb_prev _ _ _ _ _ _ _ _ F) as [p Hp].
  destruct (nxt_alloc _ _ _ Hn) as [el Hel].
  apply runs_bind, runs_lnk_read. unfold rd_elem. step. step. split; [done|].
  unfold nxt, prv in *. rewrite Hel in *. simpl in Hn, Hp. cbn [andb].
  step; [by rewrite Hn, Hp|]. by step.
Qed.

(** The state after an access in the given mode. *)
Definition accessed (write : bool) : vbstate :=
  if write then set_chunks (<[c := set_modified true ch]> (vb_chunks v)) v else v.

Lemma runs_block_data write Q :
  (write = true → fl_writable (ch_flags ch) = true) → Q (Some (d, 0 + ch_offset ch)) (accessed write) →
  runs (vbuffer_chunk_get_data c write) v Q.
Proof.
  intros Hw HQ. unfold vbuffer_chunk_get_data.
  assert (∀ P : bool → vbstate → Prop, P true v →
    runs (if write then vbuffer_chunk_check_writeable c else ret true) v P) as Hchk.
  { intros P HP. destruct write; [|by step]. unfold vbuffer_chunk_check_writeable.
    call runs_rd_chunk; [apply (fb_chunk _ _ _ _ _ _ _ _ F)|]. rewrite Hw by done. by step. }
  call Hchk. simpl. call runs_rd_chunk; [apply (fb_chunk _ _ _ _ _ _ _ _ F)|].
  rewrite (fb_ctl _ _ _ _ _ _ _ _ F), (fb_data _ _ _ _ _ _ _ _ F). step. step.
  unfold data_get. apply runs_bind. call runs_rd_data; [apply (fb_block _ _ _ _ _ _ _ _ F)|]. step. simpl.
  destruct write.
  - call runs_upd_chunk; [apply (fb_chunk _ _ _ _ _ _ _ _ F)|]. by step.
  - unfold skip. step. by step.
Qed.

(** Mapping is an access to the data of the chunk. *)
Lemma runs_block_access m write Q :
  runs (vbuffer_chunk_get_data c write) v (λ r v', ∀ it,
    Q (match r with Some (x, o) => MapPtr (x, o + 0) (ch_size ch) | None => MapBad 0 end, it) v') →
  runs (vbuffer_iterator_mmap (Iter (Some c) 0 m false) size_max write) v Q.
Proof.
  intros HQ. destruct (fb_range _ _ _ _ _ _ _ _ F) as (Ho & Hs & Hl).
  unfold vbuffer_iterator_mmap. call runs_block_check. cbn [negb].
  rewrite bool_decide_false by (unfold size_max; lia).
  unfold _vbuffer_iterator_fix. cbn [it_chunk it_offset]. apply runs_bind. step.
  call runs_rd_chunk; [apply (fb_chunk _ _ _ _ _ _ _ _ F)|].
  rewrite bool_decide_false by lia. step. call runs_chunk_fuel. cbn [mmap_loop].
  call runs_rd_chunk; [apply (fb_chunk _ _ _ _ _ _ _ _ F)|].
  rewrite (fb_end _ _ _ _ _ _ _ _ F), (fb_ctl _ _ _ _ _ _ _ _ F). step; [apply bool_decide_true; lia|].
  rewrite Z.sub_0_r, (bool_decide_true (ch_size ch > 0)) by lia. cbn [negb andb].
  rewrite bool_decide_false by (intros E; by apply E). cbn [andb].
  destruct (fb_next _ _ _ _ _ _ _ _ F) as [n Hn].
  unfold vbuffer_chunk_next. apply runs_bind. apply runs_bind. apply runs_bind.
  eapply runs_rd_chunk; [apply (fb_chunk _ _ _ _ _ _ _ _ F)|]. rewrite (fb_end _ _ _ _ _ _ _ _ F).
  eapply runs_lnk_next; [exact Hn|]. step. apply runs_bind. eapply runs_iter_update; [done|lia|]. step.
  eapply runs_seq; [exact HQ|]. intros [[x o]|] v' H; step; apply H.
Qed.

Lemma runs_block_mmap m write Q :
  (write = true → fl_writable (ch_flags ch) = true) →
  (∀ it, Q (MapPtr (d, ch_offset ch) (ch_size ch), it) (accessed write)) →
  runs (vbuffer_iterator_mmap (Iter (Some c) 0 m false) size_max write) v Q.
Proof.
  intros Hw HQ. apply runs_block_access. eapply runs_block_data; [exact Hw|].
  intros it. rewrite Z.add_0_l, Z.add_0_r. apply HQ.
Qed.

Lemma runs_block_readonly m Q :
  fl_writable (ch_flags ch) = false →
  (∀ it, Q (MapBad 0, it) (raised "read only buffer" v)) →
  runs (vbuffer_iterator_mmap (Iter (Some c) 0 m false) size_max true) v Q.
Proof.
  intros Hw HQ. apply runs_block_access.
  unfold vbuffer_chunk_get_data, vbuffer_chunk_check_writeable. apply runs_bind.
  call runs_rd_chunk; [apply (fb_chunk _ _ _ _ _ _ _ _ F)|]. rewrite Hw. unfold error. step. step.
  cbn [negb]. step. apply HQ.
Qed.
End block.

Lemma accessed_block v e c d ch r sz b w :
  first_block v e c d ch r sz b →
  first_block (accessed v c ch w) e c d (if w then set_modified true ch else ch) r sz b.
Proof.
  intros [H1 H2 H3 H4 H5 H6 H7 H8 H9]. destruct w; [|by split]. split; try done. simpl. by simplify_map_eq.
Qed.

Lemma written_block v e c d ch r sz b b' :
  first_block v e c d ch r sz b → zlen b' = zlen b →
  first_block (set_datas (<[d := Data r (vbuffer_data_basic_ops sz b')]> (vb_datas v)) v) e c d ch r sz b'.
Proof.
  intros [H1 H2 H3 H4 H5 H6 H7 H8 H9] El. split; try done; [|by rewrite El]. simpl. by simplify_map_eq.
Qed.

Lemma runs_check_size v e cs n Q :
  buf_rep v e cs → 0 < csize cs → 0 < n → (∀ r, Q (bool_decide (n ≤ csize cs), r) v) →
  runs (vbuffer_check_size (Some e) n) v Q.
Proof.
  intros R Hs Hn HQ. unfold vbuffer_check_size, vbuffer_sub_create. apply runs_bind.
  call runs_vbuffer_begin; [exact R|]. rewrite bool_decide_true by done. step.
  rewrite bool_decide_true by done. unfold vbuffer_end, vbuffer_position. apply runs_bind. step.
  rewrite bool_decide_true by done. step. step.
  assert (sub_range e cs (Sub (Iter (Some (chunk_at e cs)) 0 (it_meter vbuffer_iterator_init) false) false
    (SubEnd (Iter (Some e) 0 (it_meter vbuffer_iterator_init) false))) 0 (csize cs)) as Hr.
  { pose proof (pos_of_suffix e [] cs) as P. split_and!; [|by right|by left; lia]. apply P. lia. }
  unfold vbuffer_sub_check_size. call runs_sub_check; [exact R|exact Hr|]. simpl. unfold sub_end. simpl. step.
  destruct Hr as (P1 & P2 & P3). eapply runs_check_available_end; [exact R|exact P1|exact P2|exact P3|done|].
  rewrite Z.sub_0_r. apply HQ.
Qed.

Lemma first_block_of v e c ch cs :
  buf_rep v e ((c, ch) :: cs) → fl_ctl (ch_flags ch) = false → 0 < ch_size ch →
  ∃ d r sz b, first_block v e c d ch r sz b ∧ chunk_bytes v ch = zslice (ch_offset ch) (ch_size ch) b.
Proof.
  intros H Hctl Hs. destruct (br_at v e [] c ch cs H) as [Hc Oc]. destruct (co_data _ _ Oc Hctl) as (Ho & b & Hb & Hl).
  unfold basic_bytes in Hb. destruct (ch_data ch) as [d|] eqn:Ed; [|done]. simpl in Hb.
  destruct (vb_datas v !! d) as [[r bd]|] eqn:Hd; [|done]. simpl in Hb. destruct bd as [sz b0| | |]; [|done..]. simplify_eq.
  pose proof (br_list _ _ _ H) as Hll. simpl in Hll. exists d, r, sz, b. split.
  - split; try done.
    + apply (dlist_link _ _ [] (c :: cs.*1) Hll).
    + eexists. by apply (dlist_next _ e [] c cs.*1).
    + eexists. by apply (dlist_prev _ e [] c cs.*1).
    + by apply (co_end _ _ Oc).
  - unfold chunk_bytes. rewrite Hctl, Ed. unfold basic_bytes. simpl. rewrite Hd. done.
Qed.

(** The first byte. *)
Lemma runs_block_getbyte v e c d ch r sz b m Q :
  first_block v e c d ch r sz b → ch_size ch < 2 ^ 32 →
  (∀ it, Q (default 0 (head (zslice (ch_offset ch) (ch_size ch) b)), it) v) →
  runs (vbuffer_iterator_getbyte (Iter (Some c) 0 m false)) v Q.
Proof.
  intros F Hsm HQ. pose proof F as [_ [n Hn] _ Hc He Hctl Hd Hb (Ho & Hs & Hl)].
  unfold vbuffer_iterator_getbyte. call runs_block_check; [exact F|]. cbn [negb].
  assert (∀ P : mapped * vbuffer_iterator → vbstate → Prop, (∀ it, P (MapPtr (d, ch_offset ch) 1, it) v) →
    runs (vbuffer_iterator_mmap (Iter (Some c) 0 m false) 1 false) v P) as Hm.
  { intros P HP. unfold vbuffer_iterator_mmap. call runs_block_check; [exact F|]. cbn [negb].
    rewrite bool_decide_false by lia. unfold _vbuffer_iterator_fix. cbn [it_chunk it_offset]. apply runs_bind. step.
    call runs_rd_chunk; [exact Hc|]. rewrite bool_decide_false by lia. step. call runs_chunk_fuel. cbn [mmap_loop].
    call runs_rd_chunk; [exact Hc|]. rewrite He, Hctl. step; [apply bool_decide_true; lia|].
    rewrite Z.sub_0_r, (bool_decide_true (ch_size ch > 0)) by lia. cbn [negb andb].
    rewrite (bool_decide_true (1 ≠ size_max)) by done. cbn [andb]. apply runs_bind.
    assert (∀ it' k, k = 1 → runs (d ← vbuffer_chunk_get_data c false;
      ret (match d with Some (b, o) => MapPtr (b, o + 0) k | None => MapBad 0 end, it')) v P) as Hget.
    { intros it' k ->. apply runs_bind. eapply runs_block_data; [exact F|done|]. step.
      rewrite Z.add_0_l, Z.add_0_r. apply HP. }
    case_test as Hgt.
    - apply runs_bind. eapply runs_iter_update; [done|lia|]. step. by apply Hget.
    - unfold vbuffer_chunk_next. apply runs_bind. apply runs_bind.
      eapply runs_rd_chunk; [exact Hc|]. rewrite He. eapply runs_lnk_next; [exact Hn|]. step.
      apply runs_bind. eapply runs_iter_update; [done|lia|]. step. apply Hget. lia. }
  call Hm. intros it. rewrite bool_decide_false by lia. unfold ptr_read. apply runs_bind. cbn [fst snd].
  call runs_rd_data; [exact Hb|]. cbn [dt_body]. step; [apply bool_decide_true; lia|]. step. step.
  replace (head (zslice (ch_offset ch) 1 b)) with (head (zslice (ch_offset ch) (ch_size ch) b)); [apply HQ|].
  unfold zslice. by rewrite !head_ztake by lia.
Qed.

(** A position inside the first chunk. *)
Lemma pos_first v e c ch cs c' o' p :
  buf_rep v e ((c, ch) :: cs) → pos_of e ((c, ch) :: cs) c' o' p → p < ch_size ch → c' = c ∧ o' = p.
Proof.
  intros H Hp Hlt. pose proof (csize_tail v e ((c, ch) :: cs) []) as Ht. rewrite app_nil_r in Ht.
  specialize (Ht H). simpl in Ht. destruct Hp as [(l1 & ch' & l2 & E & -> & Ho & _)|(_ & _ & ->)].
  - destruct l1 as [|[c1 ch1] l1]; simpl in E; simplify_eq; [rewrite csize_nil; split; [done|lia]|].
    exfalso. rewrite csize_cons in Hlt. simpl in Hlt.
    assert (0 ≤ csize l1); [|lia]. eapply csize_nonneg. intros x chx Hi. eapply br_ok; [exact H|].
    right. apply elem_of_app. by left.
  - rewrite csize_cons in Hlt. simpl in Hlt. lia.
Qed.

Lemma runs_fix_first v e c ch cs o m reg Q :
  buf_rep v e ((c, ch) :: cs) → 0 ≤ o < ch_size ch → Q (o, c) v →
  runs (_vbuffer_iterator_fix (Iter (Some c) o m reg)) v Q.
Proof.
  intros H Ho HQ. pose proof (csize_tail v e ((c, ch) :: cs) []) as Ht. rewrite app_nil_r in Ht.
  specialize (Ht H). simpl in Ht. eapply runs_fix; [exact H| |].
  - left. exists [], ch, cs. split_and!; [done|reflexivity|lia|]. rewrite csize_nil, csize_cons. simpl. lia.
  - intros c' o' Hf Hn. rewrite csize_nil, Z.add_0_l in Hn.
    destruct (pos_first v e c ch cs c' o' o) as [-> ->]; [done|by eapply norm_pos_of|lia|done].
Qed.

Lemma runs_sub_create v e cs off len Q :
  buf_rep v e cs → 0 ≤ off → 0 ≤ len → off + len ≤ csize cs →
  (∀ c o m c' o' m', pos_of e cs c o off → pos_of e cs c' o' (off + len) →
     Q (Sub (Iter (Some c) o m false) false (SubEnd (Iter (Some c') o' m' false))) v) →
  runs (vbuffer_sub_create (Some e) off len) v Q.
Proof.
  intros H Ho Hl Hs HQ. pose proof (br_small _ _ _ H). unfold vbuffer_sub_create. call runs_vbuffer_begin; [exact H|].
  rewrite (bool_decide_false (len = size_max)) by (unfold size_max; lia).
  assert (∀ c o m, pos_of e cs c o off → runs (e0 ← vbuffer_iterator_copy (Iter (Some c) o m false);
    '(_, e0) ← vbuffer_iterator_advance e0 len; ret (Sub (Iter (Some c) o m false) false (SubEnd e0))) v Q) as Hend.
  { intros c o m Hp. call runs_copy; [exact H|exact Hp|]. call runs_advance; [exact H|exact Hp|done|].
    intros c' o' Hn. step. apply HQ; [exact Hp|]. rewrite Z.min_l in Hn by lia. by eapply norm_pos_of. }
  assert (pos_of e cs (chunk_at e cs) 0 0) as P0.
  { apply (pos_of_suffix e [] cs). lia. }
  apply runs_bind. case_test as E0.
  - step. subst off. by apply Hend.
  - call runs_advance; [exact H|exact P0|done|]. intros c' o' Hn. step. apply Hend.
    rewrite Z.min_l in Hn by lia. rewrite Z.add_0_l in Hn. by eapply norm_pos_of.
Qed.

(** A header inside the first chunk is flat: flattening it maps the chunk. *)
Lemma runs_flatten_first v e c ch cs d r sz b m p m' Q :
  buf_rep v e ((c, ch) :: cs) → first_block v e c d ch r sz b → 0 ≤ p < ch_size ch →
  (∀ data, Q (MapPtr (d, ch_offset ch) (ch_size ch), data) v) →
  runs (vbuffer_sub_flatten (Sub (Iter (Some c) 0 m false) false (SubEnd (Iter (Some c) p m' false)))) v Q.
Proof.
  intros H F Hp HQ. set (data := Sub _ _ _).
  assert (∀ o, 0 ≤ o < ch_size ch → pos_of e ((c, ch) :: cs) c o o) as Hpos.
  { intros o Ho. left. exists [], ch, cs. pose proof (csize_tail v e ((c, ch) :: cs) []) as Ht.
    rewrite app_nil_r in Ht. specialize (Ht H). simpl in Ht. rewrite csize_nil, csize_cons. simpl. split_and!; try done; lia. }
  assert (∀ P : bool → vbstate → Prop, P true v → runs (_vbuffer_sub_check data) v P) as Hchk.
  { intros P HP. unfold _vbuffer_sub_check, data. cbn [sb_begin sb_use_size].
    call runs_iter_check; [exact H|apply Hpos; lia|]. cbn [negb]. unfold sub_end. cbn [sb_tail]. step.
    eapply runs_iter_check; [exact H|apply Hpos; lia|done]. }
  assert (∀ P : bool → vbstate → Prop, P true v → runs (vbuffer_sub_isflat data) v P) as Hflat.
  { intros P HP. unfold vbuffer_sub_isflat. call Hchk. cbn [negb]. unfold data. cbn [sb_begin sb_use_size].
    call runs_fix_first; [exact H|lia|]. unfold sub_end. cbn [sb_tail]. step.
    call runs_fix_first; [exact H|lia|]. rewrite bool_decide_true by done. by step. }
  unfold vbuffer_sub_flatten. call Hchk. cbn [negb]. call Hflat. unfold data at 1. cbn [sb_begin].
  call runs_copy; [exact H|apply Hpos; lia|]. call Hflat. step. apply runs_bind.
  eapply (runs_block_mmap v e c d ch r sz b F _ false); [done|]. intros it. step. apply HQ.
Qed.

(** ** Loads and stores *)

Lemma mapped_len v e a H w : mapped_at v e a H w → 0 < zlen H.
Proof.
  intros (c & ch & r & sz & b & F & Ea & -> & Ew). destruct (fb_range _ _ _ _ _ _ _ _ F) as (? & ? & ?).
  rewrite zlen_zslice; lia.
Qed.

Lemma runs_map_load v e a H w off n Q :
  mapped_at v e a H w → 0 ≤ off → 0 ≤ n → off + n ≤ zlen H → Q (zslice off n H) v →
  runs (ptr_read (a.1, a.2 + off) n) v Q.
Proof.
  intros (c & ch & r & sz & b & F & Ea & EH & Ew) Ho Hn Hb HQ.
  destruct (fb_range _ _ _ _ _ _ _ _ F) as (Ho' & Hs & Hb').
  assert (zlen H = ch_size ch) as EHl by (rewrite EH; apply zlen_zslice; lia).
  unfold ptr_read. cbn [fst snd]. call runs_rd_data; [apply (fb_block _ _ _ _ _ _ _ _ F)|]. cbn [dt_body].
  step; [apply bool_decide_true; lia|]. step. rewrite Ea.
  replace (zslice (ch_offset ch + off) n b) with (zslice off n H); [done|].
  rewrite EH. unfold zslice. rewrite zdrop_ztake, ztake_ztake, zdrop_zdrop by lia. done.
Qed.

Lemma runs_map_store v e a H w off bs Q :
  mapped_at v e a H w → 0 ≤ off → off + zlen bs ≤ zlen H →
  (∀ v', mapped_at v' e a (zput off bs H) w → vb_links v' = vb_links v → vb_error v' = vb_error v → Q tt v') →
  runs (ptr_write (a.1, a.2 + off) bs) v Q.
Proof.
  intros (c & ch & r & sz & b & F & Ea & EH & Ew) Ho Hb HQ. pose proof (zlen_nonneg bs).
  destruct (fb_range _ _ _ _ _ _ _ _ F) as (Ho' & Hs & Hb').
  assert (zlen H = ch_size ch) as EHl by (rewrite EH; apply zlen_zslice; lia).
  unfold ptr_write. cbn [fst snd]. call runs_rd_data; [apply (fb_block _ _ _ _ _ _ _ _ F)|]. cbn [dt_body dt_ref].
  step; [apply bool_decide_true; lia|]. unfold wr_data. step. apply HQ; [|done|done].
  exists c, ch, r, sz, (zput (a.2 + off) bs b). split_and!; try done.
  - eapply written_block; [exact F|]. apply zlen_zput; lia.
  - rewrite Ea, EH. symmetry. apply zslice_zput_inner; lia.
Qed.

Lemma mapped_first v e c ch cs :
  buf_rep v e ((c, ch) :: cs) → fl_ctl (ch_flags ch) = false → 0 < ch_size ch →
  ∃ d, ch_data ch = Some d ∧ mapped_at v e (d, ch_offset ch) (chunk_bytes v ch) (fl_writable (ch_flags ch)).
Proof.
  intros H Hctl Hs. destruct (first_block_of _ _ _ _ _ H Hctl) as (d & r & sz & b & F & E); [lia|].
  exists d. split; [apply (fb_data _ _ _ _ _ _ _ _ F)|]. by exists c, ch, r, sz, b.
Qed.
End first.

(** ** Stores seen from all buffers *)

(** The chunk [c] of the heap has the bytes [H'] and may be marked as modified;
    nothing else changes in a chunk that is apart from it. *)
Record poked (v : vbstate) (c : loc) (ch : vbuffer_chunk) (H' : list Z) (v' : vbstate) (ch' : vbuffer_chunk) : Prop := {
  po_chunk : ch' = ch ∨ ch' = set_modified true ch;
  po_links : vb_links v' = vb_links v;
  po_chunks : vb_chunks v' = <[c := ch']> (vb_chunks v);
  po_error : vb_error v' = vb_error v;
  po_mem : vb_mem v' = vb_mem v;
  po_fresh : vb_fresh v' = vb_fresh v;
  po_heap : heap_ok v → heap_ok v';
  po_ok : ∀ x, chunk_ok v x → chunk_ok v' x;
  po_apart : ∀ x, chunk_ok v x → apart ch x → chunk_bytes v' x = chunk_bytes v x;
  po_bytes : chunk_bytes v' ch' = H';
}.

Section poke.
Implicit Types v : vbstate.

Lemma poked_refl v c ch : vb_chunks v !! c = Some ch → poked v c ch (chunk_bytes v ch) v ch.
Proof. intros Hc. split; try done; [by left|by rewrite insert_id]. Qed.

Lemma poked_trans v c ch H1 v1 ch1 H2 v2 ch2 :
  poked v c ch H1 v1 ch1 → poked v1 c ch1 H2 v2 ch2 → poked v c ch H2 v2 ch2.
Proof.
  intros [A1 A2 A3 A4 A5 A6 A7 A8 A9 A10] [B1 B2 B3 B4 B5 B6 B7 B8 B9 B10]. split; try congruence; auto.
  - destruct A1 as [->| ->], B1 as [->| ->]; auto.
  - rewrite B3, A3, insert_insert_eq. done.
  - intros x Ox Hap. rewrite B9; auto. by destruct A1 as [->| ->].
Qed.

Lemma poked_ok v c ch H' v' ch' : poked v c ch H' v' ch' → chunk_ok v ch → chunk_ok v' ch'.
Proof. intros P Ok. apply (po_ok _ _ _ _ _ _ P). destruct (po_chunk _ _ _ _ _ _ P) as [->| ->]; [done|by destruct Ok; split]. Qed.

(** The buffers after a store: the one that holds the chunk, and the others. *)
Lemma poked_buf v c ch H' v' ch' e l1 l2 :
  poked v c ch H' v' ch' → buf_rep v e (l1 ++ (c, ch) :: l2) → buf_rep v' e (l1 ++ (c, ch') :: l2).
Proof.
  intros P H. pose proof (br_at _ _ _ _ _ _ H) as [Hc Oc].
  assert (ch_size ch' = ch_size ch) as Es by (destruct (po_chunk _ _ _ _ _ _ P) as [->| ->]; done).
  pose proof H as [L [che [He Oe]] C Sm]. pose proof (br_ne_end _ _ _ c ch H ltac:(apply elem_of_app; right; by left)).
  split.
  - rewrite (po_links _ _ _ _ _ _ P). by rewrite !fmap_app in *.
  - exists che. rewrite (po_chunks _ _ _ _ _ _ P), lookup_insert_ne by done. done.
  - intros x chx Hi. rewrite (po_chunks _ _ _ _ _ _ P). destruct (decide (x = c)) as [->|Hne].
    + assert (chx = ch') as ->; [|rewrite lookup_insert_eq; split; [done|by eapply poked_ok]].
      assert ((c, chx) ∈ l1 ++ l2 ∨ chx = ch') as [Hi'|?]; [|exfalso|done].
      { apply elem_of_app in Hi as [Hi|Hi]; [left; apply elem_of_app; by left|].
        apply elem_of_cons in Hi as [Hi|Hi]; [right; congruence|left; apply elem_of_app; by right]. }
      pose proof (dlist_nodup _ _ _ L) as Hnd. rewrite fmap_app, fmap_cons in Hnd. simpl in Hnd.
      assert (c ∈ (l1 ++ l2).*1) as Hin by (apply list_elem_of_fmap; by exists (c, chx)).
      rewrite fmap_app in Hin. apply NoDup_cons in Hnd as [_ Hnd].
      rewrite <- Permutation_middle in Hnd. by apply NoDup_cons in Hnd as [? _].
    + rewrite lookup_insert_ne by done. destruct (C x chx) as [? Ox]; [|split; [done|by apply (po_ok _ _ _ _ _ _ P)]].
      rewrite elem_of_app, elem_of_cons in Hi |- *. naive_solver.
  - rewrite csize_app, csize_cons in *. simpl in *. lia.
Qed.

Lemma poked_other v c ch H' v' ch' e cs :
  poked v c ch H' v' ch' → buf_rep v e cs → c ∉ e :: cs.*1 → (∀ y, y ∈ cs → apart ch y.2) →
  buf_rep v' e cs ∧ content v' cs = content v cs.
Proof.
  intros P [L [che [He Oe]] C Sm] Hnc Hap. split.
  - split; [by rewrite (po_links _ _ _ _ _ _ P)| | |done].
    + exists che. rewrite (po_chunks _ _ _ _ _ _ P), lookup_insert_ne; [done|]. intros ->. apply Hnc. by left.
    + intros x chx Hi. destruct (C x chx Hi) as [? Ox]. split; [|by apply (po_ok _ _ _ _ _ _ P)].
      rewrite (po_chunks _ _ _ _ _ _ P), lookup_insert_ne; [done|]. intros ->. apply Hnc. right.
      apply list_elem_of_fmap. by exists (x, chx).
  - apply content_kept. intros x chx Hi. apply (po_apart _ _ _ _ _ _ P); [by apply (C x)|by apply (Hap (x, chx))].
Qed.

(** The two steps of a store. *)
Lemma poked_mark v c ch :
  vb_chunks v !! c = Some ch → chunk_ok v ch →
  poked v c ch (chunk_bytes v ch) (set_chunks (<[c := set_modified true ch]> (vb_chunks v)) v) (set_modified true ch).
Proof.
  intros Hc Oc. split; try done; [by right| |].
  - intros Ok. by apply (heap_ok_upd_chunk _ _ ch).
  - intros x Ox. by apply (chunk_ok_same v).
Qed.

Lemma runs_poke v c ch d off bs Q :
  vb_chunks v !! c = Some ch → chunk_ok v ch → fl_ctl (ch_flags ch) = false → ch_data ch = Some d →
  0 ≤ off → off + zlen bs ≤ ch_size ch →
  (∀ v', poked v c ch (zput off bs (chunk_bytes v ch)) v' ch → Q tt v') →
  runs (ptr_write (d, ch_offset ch + off) bs) v Q.
Proof.
  intros Hc Oc Ec Ed Ho Hn HQ. destruct (co_data _ _ Oc Ec) as (Hof & b & Hb & Hle). rewrite Ed in Hb.
  unfold basic_bytes in Hb. simpl in Hb. destruct (vb_datas v !! d) as [[r bd]|] eqn:Hd; [|done]. simpl in Hb.
  destruct bd as [sz b0| | |]; try done. injection Hb as ->. pose proof (zlen_nonneg bs).
  eapply runs_store_block; [exact Hd|lia|lia|]. apply HQ.
  set (b' := zput (ch_offset ch + off) bs b). assert (zlen b' = zlen b) as El by (apply zlen_zput; lia).
  split; try done; [by left|by rewrite insert_id| | | |].
  - apply (heap_ok_put v d r sz b b' Hd El).
  - apply (chunk_ok_put v d r sz b b' Hd El).
  - intros x Ox Hap. by apply (put_block_apart v d r sz b b' Hd El ch x off bs).
  - unfold chunk_bytes. rewrite Ec, Ed, (put_bytes_same v d r sz b b' Hd El), (old_bytes v d r sz b Hd). simpl.
    apply zslice_zput_inner; lia.
Qed.
End poke.
