(* ===== verification/VbExtract.v ===== *)
(** * Taking a range out of a buffer (lib/haka/vbuffer.c)

    [vbuffer_extract], [vbuffer_erase] and [vbuffer_replace]: the chunks of a range
    go to a new buffer, the control chunks among them stay; the range is dropped or
    other chunks come in its place. *)

From S2P Require Import Prelude List2 VbHeap VbIter VbSub VbRep VbWalk VbFrame VbMut VbEdit VbClear VbMake VbCtl VbSelect VbSelectSpec VbSpec.

(** ** Cutting a writable buffer *)

Section writable.
Implicit Types s : vbstate.

Lemma all_writable_rep s e cs :
  buf_rep s e cs →
  all_writable s e cs ↔ writable_at s e ∧ ∀ c ch, (c, ch) ∈ cs → fl_writable (ch_flags ch) = true.
Proof.
  intros H. split.
  - intros Hw. split; [apply Hw; by left|]. intros c ch Hi. destruct (Hw c) as (ch' & Hc & E).
    { right. apply list_elem_of_fmap. by exists (c, ch). }
    rewrite (br_lookup _ _ _ _ _ H Hi) in Hc. congruence.
  - intros [He Hc] x [->|Hx]%elem_of_cons; [done|].
    apply list_elem_of_fmap in Hx as ([c ch] & -> & Hi). exists ch. split; [by eapply br_lookup|by eapply Hc].
Qed.

Lemma kinds_writable s s' e cs l :
  buf_rep s e cs → buf_rep s' e l → kinds_kept cs l → (writable_at s e → writable_at s' e) →
  all_writable s e cs → all_writable s' e l.
Proof.
  intros H H' K He. rewrite (all_writable_rep s e cs H), (all_writable_rep s' e l H'). intros [Hw Hc].
  split; [auto|]. intros c ch (c0 & ch0 & Hi & _ & ->)%K. by eapply Hc.
Qed.

Lemma kinds_plain cs l : kinds_kept cs l → no_ctl cs → no_ctl l.
Proof. intros K Hp c ch (c0 & ch0 & Hi & -> & _)%K. by eapply Hp. Qed.

Lemma splits_writable s e cs p s' l1 l2 :
  buf_rep s e cs → splits s e cs p s' l1 l2 → all_writable s e cs → all_writable s' e (l1 ++ l2).
Proof. intros H Hs. eapply kinds_writable; [exact H|apply Hs..]. Qed.

(** A cut at the beginning of a chunk, or of the end chunk, only marks it. *)
Lemma runs_split_mark_here s e l1 l2 meter Q :
  heap_ok s → buf_rep s e (l1 ++ l2) → all_writable s e (l1 ++ l2) →
  (∀ s' k2, splits s e (l1 ++ l2) (csize l1) s' l1 k2 → k2.*1 = l2.*1 → Q (Some (chunk_at e l2)) s') →
  runs (_vbuffer_iterator_split (Iter (Some (chunk_at e l2)) 0 meter false) true) s Q.
Proof.
  intros Ok H Hw HQ. unfold _vbuffer_iterator_split.
  assert (pos_of e (l1 ++ l2) (chunk_at e l2) 0 (csize l1)) as Hp.
  { apply pos_of_suffix. by destruct (br_parts _ _ _ _ H) as (_ & ? & _). }
  call runs_iter_check; [exact H|done|]. step. call runs_fix; [exact H|done|].
  intros c1 o1 (k1 & km & k2 & E & E1 & -> & E3 & E4 & E5 & E6) _.
  assert (0 ≤ csize km) as Hkm.
  { eapply csize_nonneg. intros c ch Hi. eapply br_ok; [exact H|]. rewrite E, !elem_of_app. right. by left. }
  assert (km = [] ∧ o1 = 0) as [-> ->] by (destruct E4 as [->|]; [rewrite csize_nil in E3; split; [done|lia]|lia]).
  simpl in E1. rewrite <- E1.
  destruct (Hw (chunk_at e l2)) as (ch & Hc & Hcw).
  { unfold chunk_at. pose proof (at_head_in e l2.*1) as Hi. rewrite fmap_app.
    rewrite elem_of_app, list_elem_of_singleton in Hi. rewrite elem_of_cons, elem_of_app. tauto. }
  unfold vbuffer_chunk_check_writeable, vbuffer_chunk_mark_modified.
  apply runs_bind, runs_bind. call runs_rd_chunk; [exact Hc|]. rewrite Hcw. step.
  call runs_upd_chunk; [exact Hc|]. step. cbn [negb]. unfold split_at.
  set (ch' := set_modified true ch). call runs_rd_chunk; [apply lookup_insert_eq|].
  rewrite bool_decide_true by done. cbn [orb]. step. set (s1 := set_chunks _ s).
  assert (heap_ok s1) as Ok1 by (by eapply heap_ok_upd_chunk).
  destruct l2 as [|[c chc] l2].
  - destruct (br_end _ _ _ H) as (ech & He & Oe). unfold chunk_at in Hc. simpl in Hc. simplify_eq.
    apply (HQ s1 []); [|done]. apply (splits_marked_end s e _ ch ch'); [done..|].
    apply splits_refl; [done|]. apply buf_rep_upd_end; [done|]. by destruct Oe; split.
  - destruct (br_at _ _ _ _ _ _ H) as [Hc' Oc]. unfold chunk_at in Hc. simpl in Hc. simplify_eq.
    apply (HQ s1 ((c, ch') :: l2)); [|done]. eapply splits_marked; [done|exact H|].
    apply splits_refl; [done|]. by apply (buf_rep_upd _ _ _ _ ch); [|apply modified_ok|].
Qed.

Lemma runs_split_tail_mark s e cs c o q m p Q :
  heap_ok s → buf_rep s e cs → pos_of e cs c o q → p < q ∨ c = e → vb_mem s ≠ 0%nat → all_writable s e cs →
  (∀ s' l1 l2, splits s e cs q s' l1 l2 → p < q ∨ l2 = [] → Q (Some (chunk_at e l2)) s') →
  runs (_vbuffer_iterator_split (Iter (Some c) o m false) true) s Q.
Proof.
  intros Ok H Hq [Ho|Ho] Hm Hw HQ.
  - eapply runs_split; [done|done|exact Hq|done|done|]. intros s1 k1 k2 Hs. apply (HQ s1 k1 k2); [exact Hs|by left].
  - subst c. assert (o = 0 ∧ q = csize cs) as [-> ->].
    { destruct Hq as [(l1 & ch & l2 & -> & _)|(_ & -> & ->)]; [|done]. exfalso.
      eapply (br_ne_end _ _ _ e ch H); [|done]. apply elem_of_app. right. by left. }
    eapply (runs_split_mark_here s e cs []); [done|by rewrite app_nil_r..|].
    intros s' k2 Hs Ek. destruct k2; [|done]. rewrite app_nil_r in Hs. apply (HQ s' cs []); [done|by right].
Qed.
End writable.

(** ** The range between two cuts *)

(** The chunks [a], [m] and [b] hold the bytes before [p], up to [q] and after. *)
Record ranged (k : nat) s (e : loc) (cs : list seg) (p q : Z) (s' : vbstate) (a m b : list seg) : Prop := {
  rg_rep : buf_rep s' e (a ++ m ++ b);
  rg_heap : heap_ok s';
  rg_len : csize a = p ∧ csize (a ++ m) = q;
  rg_content : content s' (a ++ m ++ b) = content s cs;
  rg_keeps : keeps (e :: cs.*1) s s';
  rg_new : ∀ x, x ∈ (a ++ m ++ b).*1 → x ∈ cs.*1 ∨ (vb_fresh s ≤ x)%positive;
  rg_mem : (vb_mem s ≤ k + vb_mem s')%nat;
  rg_error : vb_error s' = vb_error s;
  rg_writable : all_writable s' e (a ++ m ++ b);
}.

(** The chunks of the buffer have been arranged anew. *)
Abbreviation arranged k s e cs s' l := (ranged k s e cs 0 (csize l) s' [] l []).

Section range.
Implicit Types s : vbstate.

Lemma ranged_parts k s e cs p q s' a m b :
  ranged k s e cs p q s' a m b → content s' a = ztake p (content s cs) ∧
  content s' m = zslice p (q - p) (content s cs) ∧ content s' b = zdrop q (content s cs).
Proof.
  intros [H _ [<- <-] <- _ _ _ _ _].
  assert (∀ k, (∀ x, x ∈ k → x ∈ a ++ m ++ b) → zlen (content s' k) = csize k) as Hl.
  { intros k' Hk. apply content_len. intros c ch Hi. by eapply br_ok; [exact H|apply Hk]. }
  assert (zlen (content s' a) = csize a) as La by (apply Hl; intros ? ?; rewrite !elem_of_app; auto).
  assert (zlen (content s' m) = csize m) as Lm by (apply Hl; intros ? ?; rewrite !elem_of_app; auto).
  pose proof (zlen_nonneg (content s' a)). pose proof (zlen_nonneg (content s' m)).
  rewrite csize_app, !content_app. split_and!.
  - rewrite ztake_app_le, ztake_ge by lia. done.
  - unfold zslice. rewrite zdrop_app_ge, La, Z.sub_diag, zdrop_0 by lia.
    rewrite ztake_app_le, ztake_ge by lia. done.
  - rewrite zdrop_app_ge by lia. rewrite zdrop_app_ge by lia. replace (_ - _ - _) with 0 by lia. done.
Qed.

Lemma cut_ranged k s e cs p q s' a m b :
  buf_rep s e cs → all_writable s e cs → cut k s e cs p q s' a m b → ranged k s e cs p q s' a m b.
Proof.
  intros H Hw [R Ok T L C K N M E F D W J]. split; try done. eapply kinds_writable; [exact H|exact R|done..].
Qed.

(** The new buffer of the extraction. *)
Lemma ranged_fresh_end k s e cs p q s1 a m b e' s2 :
  heap_ok s → ranged k s e cs p q s1 a m b → fresh_end s1 e' s2 → ranged (S k) s e cs p q s2 a m b.
Proof.
  intros Ok [R Ok1 L C K N M E W] [Ok2 _ K2 _ M2 E2].
  destruct (keeps_nil_buf _ _ _ _ Ok1 K2 R) as [R2 C2]. split; try done.
  - congruence.
  - eapply keeps_trans; [done|exact K|exact K2|]. by intros ? ?%elem_of_nil.
  - lia.
  - congruence.
  - intros c Hc. eapply keeps_nil_writable; [exact Ok1|exact K2|by apply W].
Qed.

Lemma arranged_ranged k k' s e cs s1 l p q s2 a m b :
  heap_ok s → arranged k s e cs s1 l → ranged k' s1 e l p q s2 a m b → ranged (k + k') s e cs p q s2 a m b.
Proof.
  intros Ok [R1 Ok1 L1 C1 K1 N1 M1 E1 W1] [R2 Ok2 L2 C2 K2 N2 M2 E2 W2]. simpl in *. rewrite app_nil_r in *.
  pose proof (kp_fresh _ _ _ K1). split; try done.
  - congruence.
  - eapply keeps_trans; [done|exact K1|exact K2|]. intros y [->|Hy]%elem_of_cons; [left; by left|].
    destruct (N1 y Hy); [left; by right|by right].
  - intros x [Hx|Hx]%N2; [by apply N1|right; lia].
  - lia.
  - congruence.
Qed.

Lemma ranged_refl s e a m b :
  heap_ok s → buf_rep s e (a ++ m ++ b) → all_writable s e (a ++ m ++ b) →
  ranged 0 s e (a ++ m ++ b) (csize a) (csize (a ++ m)) s a m b.
Proof. intros Ok H Hw. split; try done; [apply keeps_refl|by left]. Qed.

Lemma ranged_weaken k k' s e cs p q s' a m b :
  (k ≤ k')%nat → ranged k s e cs p q s' a m b → ranged k' s e cs p q s' a m b.
Proof. intros Hk [R Ok L C K N M E W]. split; try done. lia. Qed.

Lemma splits_arranged s e cs p s' l1 l2 :
  buf_rep s e cs → all_writable s e cs → splits s e cs p s' l1 l2 → arranged 1 s e cs s' (l1 ++ l2).
Proof.
  intros H Hw Hs. pose proof (splits_writable _ _ _ _ _ _ _ H Hs Hw) as Hw'.
  destruct Hs as [R Ok L T B A P K N M E F D W J]. split; simpl; rewrite ?app_nil_r; try done.
  rewrite content_app, B, A. apply ztake_zdrop.
Qed.

Lemma splits_empty s e cs p s' l1 l2 :
  buf_rep s e cs → all_writable s e cs → splits s e cs p s' l1 l2 → ranged 1 s e cs p p s' l1 [] l2.
Proof.
  intros H Hw Hs. pose proof (splits_writable _ _ _ _ _ _ _ H Hs Hw) as Hw'.
  destruct Hs as [R Ok L T B A P K N M E F D W J]. split; try done; [by rewrite app_nil_r|].
  simpl. rewrite content_app, B, A. apply ztake_zdrop.
Qed.

(** A control chunk has no bytes. *)
Lemma ctl_empty s ch : chunk_ok s ch → fl_ctl (ch_flags ch) = true → ch_size ch = 0 ∧ chunk_bytes s ch = [].
Proof. intros Oc E. unfold chunk_bytes. rewrite E. by destruct (co_ctl _ _ Oc E). Qed.

(** A control chunk is moved towards the beginning of the buffer. *)
Lemma runs_move_ctl {X} s e A B c ch C (k : loc → loc → VM X) Q :
  heap_ok s → buf_rep s e (A ++ B ++ (c, ch) :: C) → all_writable s e (A ++ B ++ (c, ch) :: C) →
  fl_ctl (ch_flags ch) = true →
  (∀ s', arranged 0 s e (A ++ B ++ (c, ch) :: C) s' (A ++ (c, ch) :: B ++ C) →
     vb_mem s' = vb_mem s → size (vb_chunks s') = size (vb_chunks s) → runs (k (chunk_at e C) c) s' Q) →
  runs (er ← lnk (list2_erase c); er ← deref er; n ← lnk (list2_next (at_last e A.*1)); n ← deref n;
        ci ← lnk (list2_insert n c); k er ci) s Q.
Proof.
  intros Ok H Hw Ec HQ. pose proof H as H'. rewrite app_assoc in H'. pose proof (br_list _ _ _ H') as Hl.
  rewrite fmap_split in Hl. destruct (br_at _ _ _ _ _ _ H') as [_ Oc].
  destruct (ctl_empty s ch Oc Ec) as [Es Eb].
  eapply runs_bind, runs_lnk; [by eapply list2_erase_spec|]. intros r l1 (-> & Hl1 & Hc1 & Hf1). step.
  rewrite fmap_app, <- app_assoc in Hl1.
  eapply runs_bind, runs_lnk_next; [by apply (dlist_link _ _ _ _ Hl1)|]. step.
  eapply runs_bind, runs_lnk; [eapply list2_insert_spec; [exact Hl1|exact Hc1]|].
  intros r l2 (-> & Hl2 & Hf2). change (set_links l2 (set_links l1 s)) with (set_links l2 s). apply HQ; [|done|done].
  assert (same_out (e :: (A ++ B ++ (c, ch) :: C).*1) (vb_links s) l2) as Hf.
  { intros x Hx. rewrite !fmap_app, fmap_cons in Hx. simpl in Hx. etrans; [apply Hf2|apply Hf1];
      rewrite !fmap_app in *; rewrite !elem_of_cons, !elem_of_app, ?elem_of_cons in *; tauto. }
  assert (∀ x, x ∈ A ++ (c, ch) :: B ++ C → x ∈ A ++ B ++ (c, ch) :: C) as Hin.
  { intros x. rewrite !elem_of_app, !elem_of_cons, !elem_of_app. tauto. }
  split; simpl; rewrite ?app_nil_r; try done.
  - destruct (br_end _ _ _ H) as (ech & He & Oe). eapply buf_rep_relink; try done.
    + by rewrite fmap_app, fmap_cons, fmap_app.
    + intros x chx Hi. apply (br_chunks _ _ _ H). by apply Hin.
    + pose proof (br_small _ _ _ H) as Hs. rewrite !csize_app, !csize_cons, ?csize_app in *. lia.
  - eapply heap_ok_set_links; [done|exact Hf|]. intros x. by apply br_fresh.
  - rewrite (content_same s) by done. rewrite !content_app, !content_cons, ?content_app. simpl. by rewrite Eb.
  - by apply keeps_set_links.
  - intros x Hx. left. apply list_elem_of_fmap in Hx as (y & -> & Hy). apply list_elem_of_fmap. exists y. auto.
  - intros x Hx. apply Hw. apply elem_of_cons in Hx as [->|Hx]; [by left|right].
    apply list_elem_of_fmap in Hx as (y & -> & Hy). apply list_elem_of_fmap. exists y. auto.
Qed.

(** The chunks before the range do not change when control chunks join them. *)
Lemma csize_ctl s A c ch : chunk_ok s ch → fl_ctl (ch_flags ch) = true → csize (A ++ [(c, ch)]) = csize A.
Proof. intros Oc E. destruct (ctl_empty s ch Oc E) as [Es _]. rewrite csize_app, csize_cons, csize_nil. simpl. lia. Qed.
End range.

(** ** The loops over the range *)

Section loops.
Implicit Types s : vbstate.

Lemma chunk_at_ne s e l1 lm l2 :
  buf_rep s e (l1 ++ lm ++ l2) → lm ≠ [] → chunk_at e (lm ++ l2) ≠ chunk_at e l2.
Proof.
  intros H Hne E. destruct (chunk_at_inj s e l1 (lm ++ l2) (l1 ++ lm) l2) as [El _]; [done|by rewrite app_assoc|done|].
  rewrite <- (app_nil_r l1) in El at 1. apply app_inv_head in El. done.
Qed.

Lemma at_last_snoc e (A : list seg) c ch : at_last e (A ++ [(c, ch)]).*1 = c.
Proof. unfold at_last. by rewrite fmap_app; simpl; rewrite last_snoc. Qed.

(** The range ends at the chunk [chunk_at e b]; the control chunks [K] are left
    before the range, [lm] has been walked. *)
Lemma runs_extract_walk e b : ∀ l2 s A K lm fuel size Q,
  let cs := A ++ K ++ lm ++ l2 ++ b in
  heap_ok s → buf_rep s e cs → all_writable s e cs → (length l2 < fuel)%nat →
  (∀ s' a m iter, ranged 0 s e cs (csize (A ++ K)) (csize (A ++ K ++ lm ++ l2)) s' a m b →
     Q (Some (chunk_at e (m ++ b), Some (chunk_at e b), iter)) s') →
  runs (extract_loop fuel false true false (chunk_at e (l2 ++ b)) (chunk_at e (lm ++ l2 ++ b))
          (Some (chunk_at e b)) (at_last e A.*1) size) s Q.
Proof.
  induction l2 as [|[c ch] l2 IH]; intros s A K lm fuel size Q cs Ok H Hw Hf HQ; subst cs; simpl app in *.
  - destruct (chunk_at_lookup s e (A ++ K ++ lm) b) as [bch Hb]; [by rewrite <- !app_assoc|].
    assert (Q (Some (chunk_at e (lm ++ b), Some (chunk_at e b), chunk_at e b)) s) as HQ'.
    { apply (HQ s (A ++ K) lm). rewrite !app_nil_r. rewrite !(app_assoc A K) in *. by apply ranged_refl. }
    destruct fuel; simpl; (call runs_rd_chunk; [exact Hb|]; destruct (fl_end (ch_flags bch));
      [by step|rewrite bool_decide_true by done; by step]).
  - destruct fuel as [|fuel]; simpl in Hf; [lia|].
    pose proof H as H'. rewrite !app_assoc in H'. rewrite <- (app_assoc A K lm) in H'. destruct (br_at _ _ _ _ _ _ H') as [Hc Oc].
    unfold chunk_at at 1. simpl. call runs_rd_chunk; [exact Hc|]. rewrite (co_end _ _ Oc).
    rewrite bool_decide_false.
    2:{ intros [= E]. apply (chunk_at_ne s e (A ++ K ++ lm) ((c, ch) :: l2) b); [by rewrite <- !app_assoc|done|].
        unfold chunk_at at 1. done. }
    rewrite andb_true_r. destruct (fl_ctl (ch_flags ch)) eqn:Ec; [|].
    + destruct lm as [|x lm].
      * simpl. rewrite bool_decide_true by done. call (runs_chunk_next s e (A ++ K)); [by rewrite <- app_assoc|]. step.
        apply (IH s A (K ++ [(c, ch)]) []); rewrite <- ?app_assoc; [done|done|done|lia|].
        intros s' a m iter Hr. apply (HQ s' a m). simpl in *. rewrite (app_assoc A K [_]), (csize_ctl s) in Hr by done. done.
      * rewrite bool_decide_false.
        2:{ intros E. apply (chunk_at_ne s e (A ++ K) (x :: lm) ((c, ch) :: l2 ++ b)); [by rewrite <- !app_assoc|done|].
            by rewrite <- E. }
        eapply (runs_move_ctl s e A (K ++ x :: lm) c ch (l2 ++ b)
          (λ er ci, extract_loop fuel false true false er (chunk_at e ((x :: lm) ++ (c, ch) :: l2 ++ b))
             (Some (chunk_at e b)) ci size)); rewrite <- ?app_assoc; [done|done|done|done|].
        assert (A ++ (c, ch) :: K ++ (x :: lm) ++ l2 ++ b = (A ++ [(c, ch)]) ++ K ++ (x :: lm) ++ l2 ++ b) as El
          by (by rewrite <- !app_assoc).
        intros s1 Har _ _. rewrite El in Har. pose proof Har as [R1 Ok1 _ _ _ _ _ _ W1]. simpl in R1, W1. rewrite !app_nil_r in R1, W1.
        pose proof (IH s1 (A ++ [(c, ch)]) K (x :: lm) fuel size Q) as IH1. simpl in IH1 |- *.
        rewrite at_last_snoc in IH1.
        apply IH1; [done|done|done|lia|].
        intros s' a m iter Hr. apply (HQ s' a m). apply (arranged_ranged 0 0 _ _ _ _ _ _ _ _ _ _ _ Ok Har).
        assert (ch_size ch = 0) as Ez by (by destruct (ctl_empty s ch Oc Ec)).
        replace (csize (A ++ K)) with (csize ((A ++ [(c, ch)]) ++ K)).
        2:{ rewrite !csize_app, csize_cons, csize_nil. simpl. lia. }
        replace (csize (A ++ K ++ (x :: lm) ++ (c, ch) :: l2)) with (csize ((A ++ [(c, ch)]) ++ K ++ x :: lm ++ l2)); [done|].
        rewrite ?csize_app, ?csize_cons, ?csize_app, ?csize_cons, ?csize_nil. simpl. lia.
    + simpl. call (runs_chunk_next s e (A ++ K ++ lm)); [by rewrite <- !app_assoc|]. step.
      pose proof (IH s A K (lm ++ [(c, ch)]) fuel size Q) as IH1. rewrite <- !app_assoc in IH1. simpl in IH1.
      apply IH1; [done|done|done|lia|]. exact HQ.
Qed.

(** The range is given by its length, [size] bytes of it are left. *)
Lemma runs_extract_count e : ∀ l2 s A K lm fuel size Q,
  let cs := A ++ K ++ lm ++ l2 in
  heap_ok s → buf_rep s e cs → all_writable s e cs → (length l2 < fuel)%nat → 0 ≤ size → vb_mem s ≠ 0%nat →
  lm = [] ∨ 0 < size →
  (∀ s' a m b end_ iter, ranged 1 s e cs (csize (A ++ K)) ((csize (A ++ K ++ lm) + size) `min` csize cs) s' a m b →
     default iter end_ = chunk_at e b → Q (Some (chunk_at e (m ++ b), end_, iter)) s') →
  runs (extract_loop fuel true true false (chunk_at e l2) (chunk_at e (lm ++ l2)) None (at_last e A.*1) size) s Q.
Proof.
  induction l2 as [|[c ch] l2 IH]; intros s A K lm fuel size Q cs Ok H Hw Hf Hs Hm Hz HQ; subst cs; simpl app in *.
  - destruct (br_end _ _ _ H) as (ech & He & Oe). unfold chunk_at at 1. simpl.
    destruct fuel; simpl; (call runs_rd_chunk; [exact He|]; rewrite (eo_end _ Oe); step;
      apply (HQ s (A ++ K) lm [] None e); [|done]; rewrite ?app_nil_r in *; rewrite Z.min_r by lia;
      rewrite (app_assoc A K lm) in *; pose proof (ranged_refl s e (A ++ K) lm []) as Hr;
      rewrite app_nil_r in Hr; apply (ranged_weaken 0); [lia|by apply Hr]).
  - destruct fuel as [|fuel]; simpl in Hf; [lia|].
    pose proof H as H'. rewrite !app_assoc in H'. rewrite <- (app_assoc A K lm) in H'.
    destruct (br_at _ _ _ _ _ _ H') as [Hc Oc]. destruct (br_size _ _ _ _ _ _ H') as (Z1 & Z2 & Z3 & Z4).
    unfold chunk_at at 1. simpl. call runs_rd_chunk; [exact Hc|]. rewrite (co_end _ _ Oc).
    assert (csize (A ++ K ++ lm ++ (c, ch) :: l2) = csize (A ++ K ++ lm) + ch_size ch + csize l2) as Et.
    { rewrite !csize_app, csize_cons. simpl. lia. }
    case_test as Hgt.
    + rewrite andb_true_r. destruct (fl_ctl (ch_flags ch)) eqn:Ec; [destruct (ctl_empty s ch Oc Ec) as [Ez _]; destruct lm as [|x lm]|].
      * simpl. rewrite bool_decide_true by done. call (runs_chunk_next s e (A ++ K)); [by rewrite <- app_assoc|]. step.
        apply (IH s A (K ++ [(c, ch)]) []); rewrite <- ?app_assoc; [done|done|done|lia|lia|done|by left|].
        intros s' a m b end_ iter Hr. apply (HQ s' a m b end_). simpl in *.
        rewrite ?app_nil_r, (app_assoc A K [_]), (csize_ctl s) in Hr by done. rewrite ?app_nil_r.
        by replace (csize (A ++ K) + size) with (csize (A ++ K) + (size - ch_size ch)) by lia.
      * rewrite bool_decide_false.
        2:{ intros E. apply (chunk_at_ne s e (A ++ K) (x :: lm) ((c, ch) :: l2)); [by rewrite <- !app_assoc|done|].
            by rewrite <- E. }
        eapply (runs_move_ctl s e A (K ++ x :: lm) c ch l2
          (λ er ci, extract_loop fuel true true false er (chunk_at e ((x :: lm) ++ (c, ch) :: l2)) None ci (size - ch_size ch)));
          rewrite <- ?app_assoc; [done|done|done|done|].
        assert (A ++ (c, ch) :: K ++ (x :: lm) ++ l2 = (A ++ [(c, ch)]) ++ K ++ (x :: lm) ++ l2) as El
          by (by rewrite <- !app_assoc).
        intros s1 Har Em1 _. rewrite El in Har. pose proof Har as [R1 Ok1 _ _ _ _ _ _ W1]. simpl in R1, W1.
        rewrite !app_nil_r in R1, W1.
        pose proof (IH s1 (A ++ [(c, ch)]) K (x :: lm) fuel (size - ch_size ch) Q) as IH1. simpl in IH1 |- *.
        rewrite at_last_snoc in IH1. apply IH1; [done|done|done|lia|lia|by rewrite Em1|right; lia|].
        intros s' a m b end_ iter Hr. apply (HQ s' a m b end_). apply (arranged_ranged 0 1 _ _ _ _ _ _ _ _ _ _ _ Ok Har).
        replace (csize (A ++ K)) with (csize ((A ++ [(c, ch)]) ++ K)).
        2:{ rewrite !csize_app, csize_cons, csize_nil. simpl. lia. }
        replace (csize (A ++ K ++ (x :: lm)) + size) with (csize ((A ++ [(c, ch)]) ++ K ++ x :: lm) + (size - ch_size ch)).
        2:{ rewrite ?csize_app, ?csize_cons, ?csize_app, ?csize_cons, ?csize_nil. simpl. lia. }
        replace (csize (A ++ K ++ (x :: lm) ++ (c, ch) :: l2)) with (csize ((A ++ [(c, ch)]) ++ K ++ x :: lm ++ l2)); [done|].
        rewrite ?csize_app, ?csize_cons, ?csize_app, ?csize_cons, ?csize_nil. simpl. lia.
      * simpl. call (runs_chunk_next s e (A ++ K ++ lm)); [by rewrite <- !app_assoc|]. step.
        pose proof (IH s A K (lm ++ [(c, ch)]) fuel (size - ch_size ch) Q) as IH1. rewrite <- !app_assoc in IH1. simpl in IH1.
        apply IH1; [done|done|done|lia|lia|done|right; lia|].
        intros s' a m b end_ iter Hr. apply (HQ s' a m b end_).
        replace (csize (A ++ K ++ lm) + size) with (csize (A ++ K ++ lm ++ [(c, ch)]) + (size - ch_size ch)); [done|].
        rewrite !csize_app, csize_cons, csize_nil. simpl. lia.
    + rewrite u32_small by lia. rewrite Z.min_l in HQ by lia.
      destruct (decide (size = 0)) as [->|Hne].
      * destruct Hz as [->|]; [|lia]. simpl in *. rewrite app_nil_r in *.
        eapply runs_bind, (runs_split_mark_here s e (A ++ K) ((c, ch) :: l2)); [done|exact H'|by rewrite <- app_assoc|].
        intros s' k2 Hsp Ek. step. apply splits_empty in Hsp; [|exact H'|by rewrite <- app_assoc].
        assert (chunk_at e ([] ++ k2) = c) as Ek2 by (unfold chunk_at; simpl; by rewrite Ek).
        rewrite <- Ek2 at 1. apply (HQ s' (A ++ K) [] k2 (Some c) c); [|done]. by rewrite Z.add_0_r, (app_assoc A K).
      * call (runs_split s e (A ++ K ++ lm ++ (c, ch) :: l2) c size (csize (A ++ K ++ lm) + size)); [done|done| |done|done|].
        { left. exists (A ++ K ++ lm), ch, l2. rewrite <- !app_assoc. split_and!; [done|done|lia|lia]. }
        intros s' k1 k2 Hsp. step. rewrite (app_assoc A K) in Hsp.
        destruct (split_cut_after s e (A ++ K) (lm ++ (c, ch) :: l2) _ _ _ _ ltac:(by rewrite <- app_assoc) Hsp) as (a & m & -> & Ek & Hcut).
        { rewrite <- (app_assoc A K) in Hsp. pose proof H' as H2. rewrite <- !app_assoc, (app_assoc A K) in H2.
          assert (0 ≤ csize lm); [|rewrite !csize_app in *; lia].
          eapply csize_nonneg. intros c0 ch0 Hi. eapply br_ok; [exact H2|]. rewrite !elem_of_app. right. by left. }
        rewrite <- Ek. apply (HQ s' a m k2 (Some (chunk_at e k2)) c); [|done]. rewrite <- (app_assoc A K) in Hcut.
        by apply cut_ranged.
Qed.
End loops.

(** ** Extraction *)

(** The heap after the extraction of the bytes from [p] to [q]. *)
Record extracted s (e : loc) (cs : list seg) (p q : Z) (s' : vbstate) (e' : loc) (a m b : list seg) : Prop := {
  et_heap : heap_ok s';
  et_rest : buf_rep s' e (a ++ b);
  et_part : buf_rep s' e' m;
  et_before : content s' a = ztake p (content s cs);
  et_inside : content s' m = zslice p (q - p) (content s cs);
  et_after : content s' b = zdrop q (content s cs);
  et_keeps : keeps (e :: cs.*1) s s';
  et_fresh : (vb_fresh s ≤ e')%positive;
  et_new : ∀ x, x ∈ (a ++ m ++ b).*1 → x ∈ cs.*1 ∨ (vb_fresh s ≤ x)%positive;
  et_mem : (vb_mem s ≤ 3 + vb_mem s')%nat;
  et_error : vb_error s' = vb_error s;
  et_writable : all_writable s' e (a ++ b);
}.

Section extract.
Implicit Types s : vbstate.

Lemma ranged_moved s e cs p q s1 a m b e' l :
  let s2 := set_links l s1 in
  heap_ok s → ranged 3 s e cs p q s1 a m b → (vb_fresh s ≤ e')%positive → heap_ok s2 → buf_rep s2 e (a ++ b) → buf_rep s2 e' m →
  keeps (e :: e' :: (a ++ m ++ b).*1) s1 s2 → extracted s e cs p q s2 e' a m b.
Proof.
  intros s2 Ok Hr He Ok2 R P K2. destruct (ranged_parts _ _ _ _ _ _ _ _ _ _ Hr) as (C1 & C2 & C3).
  destruct Hr as [R1 Ok1 L C K N M E W]. split; try done.
  - eapply keeps_trans; [done|exact K|exact K2|]. intros x. rewrite !elem_of_cons. intros [->|[->|Hx%N]]; [by left; left|by right|].
    destruct Hx; [left; by right|by right].
  - intros x Hx. apply (W x). rewrite !fmap_app, !elem_of_cons, !elem_of_app in *. tauto.
Qed.

(** The end of [_vbuffer_extract]: the chunks are moved. *)
Lemma runs_extract_move s e cs p q s1 a m b e' end_ iter Q :
  heap_ok s → ranged 3 s e cs p q s1 a m b → (vb_fresh s ≤ e')%positive → buf_rep s1 e' [] → e' ≠ e →
  default iter end_ = chunk_at e b →
  (∀ s', extracted s e cs p q s' e' a m b → Q (Some (chunk_at e b), Some e') s') →
  runs (let ee := default iter end_ in
        (if bool_decide (chunk_at e (m ++ b) = ee) then skip
         else be ← vbuffer_chunk_end (Some e'); _ ← lnk (list2_insert_list be (chunk_at e (m ++ b)) ee); skip);;
        ret (Some ee, Some e')) s1 Q.
Proof.
  intros Ok Hr He H' Hne Eb HQ. cbv zeta. rewrite Eb. pose proof Hr as [R1 Ok1 _ _ _ _ _ _ _].
  call runs_move; [exact Ok1|exact R1|exact H'|done|]. intros l s2 Ok2 R2 P2 K2. step. apply HQ.
  by eapply ranged_moved.
Qed.

Lemma runs_extract_range s e cs data p q Q :
  heap_ok s → buf_rep s e cs → select_range e cs data p q → (3 ≤ vb_mem s)%nat → all_writable s e cs →
  (∀ s' e' a m b, extracted s e cs p q s' e' a m b → Q (Some (chunk_at e b), Some e') s') →
  runs (_vbuffer_extract data true false) s Q.
Proof.
  intros Ok H Hr Hm Hw HQ. unfold _vbuffer_extract, _vbuffer_sub_check. unfold select_range in Hr.
  destruct data as [[[c|] o me [|]] [|] [[[c'|] o' m' [|]]|n]]; cbn [sb_begin sb_use_size sb_tail] in Hr; try done.
  - destruct Hr as (Hp & Hn & ->). apply runs_bind. cbn [sb_begin sb_use_size].
    call runs_iter_check; [exact H|exact Hp|]. simpl. step. simpl. step. simpl.
    unfold vbuffer_sub_begin. simpl. call runs_copy; [exact H|exact Hp|].
    call runs_split; [done|exact H|exact Hp|lia|done|]. intros s1 l1 l2 Hs. call runs_iter_clear. simpl.
    pose proof (splits_arranged _ _ _ _ _ _ _ H Hw Hs) as Ha.
    pose proof Hs as [R1 Ok1 L1 T1 _ _ _ K1 _ M1 _].
    destruct (chunk_at_lookup _ _ _ _ R1) as [bch Hb]. call runs_rd_chunk; [exact Hb|].
    call runs_fresh_end; [done|lia|]. intros e' s2 Hf. pose proof Hf as [Ok2 Rf Kf Nf Mf _]. step. cbn [orb negb].
    pose proof (ranged_fresh_end _ _ _ _ _ _ _ _ _ _ _ _ Ok Ha Hf) as Ha2.
    destruct (keeps_nil_buf _ _ _ _ Ok1 Kf R1) as [R2 _].
    assert (e' ≠ e) as Hne by (intros ->; pose proof (br_fresh _ _ _ e Ok1 R1 ltac:(by left)); lia).
    pose proof (br_list _ _ _ R2) as Hl. rewrite fmap_app in Hl.
    eapply runs_lnk_prev; [apply (dlist_link _ _ _ _ Hl)|]. step. call runs_chunk_fuel.
    pose proof (rg_writable _ _ _ _ _ _ _ _ _ _ Ha2) as W2. simpl in W2. rewrite app_nil_r in W2.
    eapply (runs_extract_count e l2 s2 l1 [] []); simpl; [done|exact R2|exact W2| |unfold sub_length; simpl; lia|lia|by left|].
    { pose proof (br_fuel _ _ _ R2) as Hfu. rewrite length_app in Hfu. lia. }
    intros s3 a lm b end_ iter Hr3 Eend. unfold sub_length in Hr3. simpl in Hr3. rewrite !app_nil_r, T1, L1 in Hr3.
    pose proof (arranged_ranged _ _ _ _ _ _ _ _ _ _ _ _ _ Ok Ha2 Hr3) as Hr. simpl in Hr.
    destruct (keeps_buf _ _ _ _ _ Ok2 (rg_keeps _ _ _ _ _ _ _ _ _ _ Hr3) Rf) as [Rf3 _].
    { intros x. by apply (buf_disjoint s2 e' [] e (l1 ++ l2) x). }
    pose proof (kp_fresh _ _ _ K1).
    eapply (runs_extract_move s e cs); [done|exact Hr|lia|exact Rf3|done|exact Eend|]. intros s4. apply HQ.
  - destruct Hr as (Hp & Hq & Ho). apply runs_bind. cbn [sb_begin sb_use_size].
    call runs_iter_check; [exact H|exact Hp|]. simpl. unfold sub_end at 1. simpl. step.
    eapply runs_iter_check; [exact H|exact Hq|]. simpl. apply runs_bind.
    call runs_sub_end; [exact H|exact Hq|].
    call runs_split_tail_mark; [done|exact H|exact Hq|exact Ho|lia|done|]. intros s1 k1 k2 Hs1 Ho1.
    call runs_iter_clear. step. simpl. pose proof (splits_writable _ _ _ _ _ _ _ H Hs1 Hw) as W1.
    pose proof Hs1 as [R1 Ok1 L1 T1 B1 A1 P1 K1 N1 M1 E1 _]. unfold vbuffer_sub_begin. simpl.
    call runs_copy; [exact R1|by apply P1|].
    call runs_split; [done|exact R1|by apply P1|lia|done|]. intros s2 j1 j2 Hs2. pose proof (sp_mem _ _ _ _ _ _ _ Hs2).
    destruct (split_cut s e cs p q s1 k1 k2 s2 j1 j2) as (lm & b & -> & Ek & Hcut); [done|done|done|done|].
    call runs_iter_clear. simpl. pose proof (cut_ranged _ _ _ _ _ _ _ _ _ _ H Hw Hcut) as Hr.
    pose proof (ct_rep _ _ _ _ _ _ _ _ _ _ Hcut) as R2. pose proof (ct_heap _ _ _ _ _ _ _ _ _ _ Hcut) as Ok2.
    destruct (chunk_at_lookup _ _ _ _ R2) as [bch Hb].
    call runs_rd_chunk; [exact Hb|]. call runs_fresh_end; [exact Ok2|lia|].
    intros e' s3 Hf. pose proof (ranged_fresh_end _ _ _ _ _ _ _ _ _ _ _ _ Ok Hr Hf) as Hr3. step. cbn [orb negb].
    pose proof Hf as [Ok3 Rf Kf Nf Mf _].
    assert (e' ≠ e) as Hne by (intros ->; pose proof (br_fresh _ _ _ e Ok2 R2 ltac:(by left)); lia).
    pose proof (rg_rep _ _ _ _ _ _ _ _ _ _ Hr3) as R3.
    pose proof (br_list _ _ _ R3) as Hl. rewrite fmap_app in Hl.
    eapply runs_lnk_prev; [apply (dlist_link _ _ _ _ Hl)|]. step. call runs_chunk_fuel. rewrite Ek.
    destruct (rg_len _ _ _ _ _ _ _ _ _ _ Hr3) as [Lp Lq].
    eapply (runs_extract_walk e b lm s3 j1 [] []); simpl; [done|exact R3|apply (rg_writable _ _ _ _ _ _ _ _ _ _ Hr3)| |].
    { pose proof (br_fuel _ _ _ R3) as Hfu. rewrite !length_app in Hfu. lia. }
    intros s4 a m iter Hr4. rewrite app_nil_r, Lp, Lq in Hr4.
    assert (arranged 3 s e cs s3 (j1 ++ lm ++ b)) as Ha by (destruct Hr3; split; simpl; rewrite ?app_nil_r; done).
    pose proof (arranged_ranged _ _ _ _ _ _ _ _ _ _ _ _ _ Ok Ha Hr4) as Hr5. simpl in Hr5.
    destruct (keeps_buf _ _ _ _ _ Ok3 (rg_keeps _ _ _ _ _ _ _ _ _ _ Hr4) Rf) as [Rf4 _].
    { intros x. by apply (buf_disjoint s3 e' [] e (j1 ++ lm ++ b) x). }
    pose proof (kp_fresh _ _ _ (ct_keeps _ _ _ _ _ _ _ _ _ _ Hcut)).
    apply (runs_extract_move s e cs p q s4 a m b e' (Some (chunk_at e b)) iter); [done|exact Hr5|lia|exact Rf4|done|done|]. intros s5. apply HQ.
Qed.
End extract.

(** ** Replacement *)

(** The bytes from [p] to [q] of the buffer [e] are now those of the buffer [e2],
    which is gone. *)
Record replaced s (e : loc) (cs : list seg) (p q : Z) (e2 : loc) (cs2 : list seg) (s' : vbstate) (a b : list seg) : Prop := {
  rp_heap : heap_ok s';
  rp_rep : buf_rep s' e (a ++ cs2 ++ b);
  rp_before : content s' a = ztake p (content s cs);
  rp_inside : content s' cs2 = content s cs2;
  rp_after : content s' b = zdrop q (content s cs);
  rp_keeps : keeps ((e :: cs.*1) ++ e2 :: cs2.*1) s s';
  rp_new : ∀ x, x ∈ (a ++ b).*1 → x ∈ cs.*1 ∨ (vb_fresh s ≤ x)%positive;
  rp_error : vb_error s' = vb_error s;
}.

(** The range of a sub buffer with an unregistered beginning, after the replacement. *)
Definition replaced_sub (data : vbuffer_sub) (e e2 : loc) (cs2 b : list seg) : vbuffer_sub :=
  Sub (Iter (Some (chunk_at e2 cs2)) 0 (it_meter (sb_begin data)) false) (sb_use_size data)
    (if sb_use_size data then SubLength (sub_length (Sub vbuffer_iterator_init false (SubEnd (Iter (Some e2) 0 0 false))))
     else if sb_tail data is SubEnd d then SubEnd (Iter (Some (chunk_at e b)) 0 (it_meter d) false) else sb_tail data).

Section replace.
Implicit Types s : vbstate.

Lemma runs_sub_create_all s e cs Q :
  buf_rep s e cs → Q (Sub (Iter (Some (chunk_at e cs)) 0 0 false) false (SubEnd (Iter (Some e) 0 0 false))) s →
  runs (vbuffer_sub_create (Some e) 0 size_max) s Q.
Proof.
  intros H HQ. unfold vbuffer_sub_create. call runs_vbuffer_begin; [exact H|].
  rewrite (bool_decide_true (0 = 0)) by done. step. rewrite bool_decide_true by done.
  unfold vbuffer_end, vbuffer_position. apply runs_bind. step. rewrite bool_decide_true by done. step. by step.
Qed.

(** A buffer that an operation left alone. *)
Lemma kept_buf s s' e cs e0 cs0 :
  heap_ok s → buf_rep s e cs → keeps (e :: cs.*1) s s' → buf_rep s e0 cs0 → e0 ≠ e →
  buf_rep s' e0 cs0 ∧ content s' cs0 = content s cs0.
Proof.
  intros Ok H K H0 Hne. apply (keeps_buf _ _ _ _ _ Ok K H0). intros x. by apply (buf_disjoint s e0 cs0 e cs).
Qed.

Lemma runs_mark_chunk s e a b Q :
  heap_ok s → buf_rep s e (a ++ b) →
  (∀ s' b', heap_ok s' → buf_rep s' e (a ++ b') → b'.*1 = b.*1 → content s' a = content s a →
     content s' b' = content s b → keeps (e :: (a ++ b).*1) s s' → vb_error s' = vb_error s →
     vb_fresh s' = vb_fresh s → Q tt s') →
  runs (upd_chunk (chunk_at e b) (set_modified true)) s Q.
Proof.
  intros Ok H HQ. destruct (chunk_at_lookup _ _ _ _ H) as [ch Hc]. eapply runs_upd_chunk; [exact Hc|].
  destruct (hand_over_rep s true e a b Ok H) as (Ok1 & R1 & C1 & K1).
  assert (set_chunks (<[chunk_at e b := set_modified true ch]> (vb_chunks s)) s = hand_over true (chunk_at e b) s) as ->.
  { rewrite (hand_over_eq _ _ _ _ Hc). unfold inherit. by rewrite orb_true_r. }
  apply (HQ _ (touch true b)); [done|done|apply touch_fst|done|by rewrite touch_content| |done|done].
  eapply keeps_weaken; [exact K1|]. intros x ->%list_elem_of_singleton. unfold chunk_at.
  pose proof (at_head_in e b.*1) as Hi. rewrite fmap_app. rewrite elem_of_app, list_elem_of_singleton in Hi.
  rewrite elem_of_cons, elem_of_app. tauto.
Qed.

Lemma select_range_order s e cs data p q :
  buf_rep s e cs → select_range e cs data p q → 0 ≤ p ≤ q ∧ q ≤ csize cs.
Proof.
  intros H Hr. unfold select_range in Hr.
  destruct data as [[[c|] o me [|]] [|] [[[c'|] o' m' [|]]|n]]; cbn [sb_begin sb_use_size sb_tail] in Hr; try done.
  - destruct Hr as (Hp & Hn & ->). pose proof (pos_of_range _ _ _ _ _ _ H Hp). lia.
  - destruct Hr as (Hp & Hq & Ho). pose proof (pos_of_range _ _ _ _ _ _ H Hp).
    pose proof (pos_of_range _ _ _ _ _ _ H Hq). destruct Ho as [| ->]; [lia|].
    destruct Hq as [(l1 & ch & l2 & -> & _)|(_ & _ & ->)]; [|lia]. exfalso.
    eapply (br_ne_end _ _ _ e ch H); [|done]. apply elem_of_app. right. by left.
Qed.

Lemma runs_replace s e cs data p q e2 cs2 Q :
  heap_ok s → buf_rep s e cs → select_range e cs data p q → (3 ≤ vb_mem s)%nat → all_writable s e cs →
  buf_rep s e2 cs2 → e2 ≠ e → csize cs - (q - p) + csize cs2 < 2 ^ 32 →
  (∀ s' a b, replaced s e cs p q e2 cs2 s' a b → Q (true, replaced_sub data e e2 cs2 b, None) s') →
  runs (vbuffer_replace data (Some e2)) s Q.
Proof.
  intros Ok H Hr Hm Hw H2 Hne Hsz HQ. unfold vbuffer_replace.
  call runs_extract_range; [done|exact H|exact Hr|done|done|]. intros s1 e' a m b Het.
  pose proof Het as [Ok1 R1 P1 C1a C1m C1b K1 F1 N1 M1 E1 W1].
  assert (e' ≠ e) as Hne' by (intros ->; pose proof (br_fresh _ _ _ e Ok H ltac:(by left)); lia).
  assert (e' ≠ e2) as Hne2 by (intros ->; pose proof (br_fresh _ _ _ e2 Ok H2 ltac:(by left)); lia).
  destruct (kept_buf _ _ _ _ _ _ Ok H K1 H2) as [H21 C21]; [done|].
  unfold vbuffer_release. call runs_clear; [exact Ok1|exact P1|]. intros s2 [Ok2 K2 _ _ E2 M2].
  destruct (kept_buf _ _ _ _ _ _ Ok1 P1 K2 R1) as [R2 C2]; [done|].
  destruct (kept_buf _ _ _ _ _ _ Ok1 P1 K2 H21) as [H22 C22]; [done|].
  call runs_sub_create_all; [exact H22|]. call runs_mark_chunk; [exact Ok2|exact R2|].
  intros s3 b' Ok3 R3 Eb' C3a C3b K3 E3 F3.
  destruct (kept_buf _ _ _ _ _ _ Ok2 R2 K3 H22) as [H23 C23]; [done|].
  call runs_chunk_begin; [exact H23|]. unfold vbuffer_chunk_end. step. apply runs_bind.
  assert (chunk_at e b = chunk_at e b') as Ecb by (unfold chunk_at; by rewrite Eb').
  rewrite Ecb. eapply (runs_splice s3 e a b' e2 cs2); [done|exact R3|exact H23|done| |].
  { rewrite <- (br_len _ _ _ R3), content_app, C3a, C3b, <- content_app, C2, content_app, C1a, C1b.
    destruct (select_range_order _ _ _ _ _ _ H Hr) as [Hp Hq].
    rewrite zlen_app, zlen_ztake, zlen_zdrop; rewrite ?(br_len _ _ _ H); lia. }
  intros r l s4 Ok4 R4 P4 K4. call runs_clear; [exact Ok4|exact P4|]. intros s5 [Ok5 K5 _ _ E5 M5].
  destruct (kept_buf _ _ _ _ _ _ Ok4 P4 K5 R4) as [R5 C5]; [done|].
  assert (∀ k, (∀ x, x ∈ k → x ∈ a ++ cs2 ++ b') → content s5 k = content s3 k) as Ck.
  { intros k Hk. etrans; [eapply (keeps_content_sub [e2] s4 s5 e (a ++ cs2 ++ b')); [done|exact K5|exact R4| |done]|by apply content_same].
    intros x. by apply (buf_disjoint s4 e (a ++ cs2 ++ b') e2 []). }
  assert (∀ k, (∀ x, x ∈ k → x ∈ a ++ b) → content s2 k = content s1 k) as Ck1.
  { intros k Hk. eapply (keeps_content_sub _ s1 s2 e (a ++ b)); [done|exact K2|exact R1| |done].
    intros x. by apply (buf_disjoint s1 e (a ++ b) e' m). }
  assert (replaced s e cs p q e2 cs2 s5 a b') as Hrp.
  { split; try done.
    - rewrite Ck by (intros x; rewrite !elem_of_app; tauto). rewrite C3a, Ck1; [done|]. intros x; rewrite !elem_of_app; tauto.
    - rewrite Ck by (intros x; rewrite !elem_of_app; tauto). by rewrite C23, C22, C21.
    - rewrite Ck by (intros x; rewrite !elem_of_app; tauto). rewrite C3b, Ck1; [done|]. intros x; rewrite !elem_of_app; tauto.
    - set (X := (e :: cs.*1) ++ e2 :: cs2.*1).
      assert (∀ x, x ∈ e :: (a ++ b).*1 → x ∈ X ∨ (vb_fresh s ≤ x)%positive) as Hab.
      { intros x [->|Hx]%elem_of_cons; [by left; left|]. destruct (N1 x) as [Hi|Hi]; [|left; apply elem_of_app; left; by right|by right].
        rewrite !fmap_app, !elem_of_app in *. tauto. }
      assert (keeps X s s2) as K12.
      { eapply keeps_trans; [done| |exact K2|].
        - eapply keeps_weaken; [exact K1|]. intros x Hx. apply elem_of_app. by left.
        - intros x [->|Hx]%elem_of_cons; [by right|]. destruct (N1 x) as [Hi|Hi]; [|left; apply elem_of_app; left; by right|by right].
          rewrite !fmap_app, !elem_of_app in *. tauto. }
      assert (keeps X s s3) as K13 by (eapply keeps_trans; [done|exact K12|exact K3|exact Hab]).
      assert (keeps X s s4) as K14.
      { eapply keeps_trans; [done|exact K13|exact K4|]. intros x Hx. apply elem_of_app in Hx as [Hx|Hx].
        - apply Hab. by rewrite fmap_app, Eb', <- fmap_app in Hx.
        - left. apply elem_of_app. by right. }
      eapply keeps_trans; [done|exact K14|exact K5|]. intros x ->%list_elem_of_singleton. left. apply elem_of_app. right. by left.
    - intros x. rewrite fmap_app, Eb', <- fmap_app. intros Hx. apply N1. rewrite !fmap_app, !elem_of_app in *. tauto.
    - simpl in E5. congruence. }
  unfold select_range in Hr.
  destruct data as [[[c|] o me [|]] [|] [[[c'|] o' m' [|]]|n]]; cbn [sb_begin sb_use_size sb_tail] in Hr |- *; try done.
  - step. call runs_iter_update; [done|simpl; lia|]. step. apply (HQ s5 a b'). exact Hrp.
  - step. call runs_iter_update; [done|simpl; lia|]. unfold sub_end. cbn [sb_tail]. step.
    call runs_iter_update; [done|simpl; lia|]. step. apply (HQ s5 a b'). exact Hrp.
Qed.
End replace.

(** ** The claims *)

Section claims.
Implicit Types s : vbstate.

(** [vbuffer_extract] of the bytes from [p] to [q] of a writable buffer: they become
    the bytes of a new buffer, the bytes before and after them stay in the buffer,
    and all other buffers are as they were. *)
Theorem vbuffer_extract_correct s e cs data p q :
  heap_ok s → buf_rep s e cs → select_range e cs data p q → (3 ≤ vb_mem s)%nat → all_writable s e cs →
  runs (vbuffer_extract data) s (λ r s', ∃ data' e' a m b,
    r = (true, data', Some e') ∧ heap_ok s' ∧ e' ≠ e ∧ vb_error s' = vb_error s ∧
    buf_rep s' e (a ++ b) ∧ buf_rep s' e' m ∧
    content s' (a ++ b) = ztake p (content s cs) ++ zdrop q (content s cs) ∧
    content s' m = zslice p (q - p) (content s cs) ∧
    (∀ e0 cs0, e0 ≠ e → buf_rep s e0 cs0 → e0 ≠ e' ∧ buf_rep s' e0 cs0 ∧ content s' cs0 = content s cs0)).
Proof.
  intros Ok H Hr Hm Hw. unfold vbuffer_extract. call runs_extract_range; [done|exact H|exact Hr|done|done|].
  intros s1 e' a m b [Ok1 R1 P1 Ca Cm Cb K1 F1 N1 M1 E1 W1].
  assert (∀ Q, (∀ d, Q d s1) → runs (vbuffer_sub_clear data) s1 Q) as Hcl.
  { intros Q HQ. unfold select_range in Hr. unfold vbuffer_sub_clear, sub_end.
    destruct data as [[[c|] o me [|]] [|] [[[c'|] o' m' [|]]|n]]; cbn [sb_begin sb_use_size sb_tail] in Hr |- *; try done.
    - call runs_iter_clear. by step.
    - call runs_iter_clear. step. call runs_iter_clear. by step. }
  call Hcl. intros d. step. exists d, e', a, m, b. split_and!; try done.
  - intros ->. pose proof (br_fresh _ _ _ e Ok H ltac:(by left)). lia.
  - by rewrite content_app, Ca, Cb.
  - intros e0 cs0 Hne H0. split.
    + intros ->. pose proof (br_fresh _ _ _ e' Ok H0 ltac:(by left)). lia.
    + by apply (kept_buf s s1 e cs).
Qed.

(** [vbuffer_erase] drops the bytes from [p] to [q] of a writable buffer and nothing
    else; all other buffers are as they were. *)
Theorem vbuffer_erase_correct s e cs data p q :
  heap_ok s → buf_rep s e cs → select_range e cs data p q → (3 ≤ vb_mem s)%nat → all_writable s e cs →
  runs (vbuffer_erase data) s (λ r s', ∃ cs',
    r = true ∧ heap_ok s' ∧ vb_error s' = vb_error s ∧ buf_rep s' e cs' ∧
    content s' cs' = ztake p (content s cs) ++ zdrop q (content s cs) ∧
    (∀ e0 cs0, e0 ≠ e → buf_rep s e0 cs0 → buf_rep s' e0 cs0 ∧ content s' cs0 = content s cs0)).
Proof.
  intros Ok H Hr Hm Hw. unfold vbuffer_erase. call runs_extract_range; [done|exact H|exact Hr|done|done|].
  intros s1 e' a m b [Ok1 R1 P1 Ca Cm Cb K1 F1 N1 M1 E1 W1].
  assert (e' ≠ e) as Hne' by (intros ->; pose proof (br_fresh _ _ _ e Ok H ltac:(by left)); lia).
  unfold vbuffer_release. call runs_clear; [exact Ok1|exact P1|]. intros s2 [Ok2 K2 _ _ E2 M2]. step.
  destruct (kept_buf _ _ _ _ _ _ Ok1 P1 K2 R1) as [R2 C2]; [done|].
  exists (a ++ b). split_and!; try done; [congruence|by rewrite C2, content_app, Ca, Cb|].
  intros e0 cs0 Hne H0. destruct (kept_buf _ _ _ _ _ _ Ok H K1 H0) as [H1 <-]; [done|].
  apply (kept_buf _ _ _ _ _ _ Ok1 P1 K2 H1). intros ->. pose proof (br_fresh _ _ _ e' Ok H0 ltac:(by left)). lia.
Qed.

(** C17 [vbuffer_replace] puts the bytes of another buffer [e2] in place of the bytes from
    [p] to [q] of a writable buffer, without an error, with memory for three allocations and
    a result below 2^32 bytes; the handle of [e2] is empty afterwards and all other buffers
    are as they were. If the range was given by its end, not by its length, and [e2] is not
    empty, the sub-buffer designates the new bytes afterwards (for a length or an empty [e2]
    the code leaves it wrong). Nothing is said of the order of the control chunks. *)
Theorem vbuffer_replace_correct s e cs data p q e2 cs2 :
  heap_ok s → buf_rep s e cs → select_range e cs data p q → (3 ≤ vb_mem s)%nat → all_writable s e cs →
  buf_rep s e2 cs2 → e2 ≠ e → csize cs - (q - p) + csize cs2 < 2 ^ 32 →
  runs (vbuffer_replace data (Some e2)) s (λ r s', ∃ data' cs',
    r = (true, data', None) ∧ heap_ok s' ∧ vb_error s' = vb_error s ∧ buf_rep s' e cs' ∧
    content s' cs' = ztake p (content s cs) ++ content s cs2 ++ zdrop q (content s cs) ∧
    (sb_use_size data = false → 0 < csize cs2 → select_range e cs' data' p (p + csize cs2)) ∧
    (∀ e0 cs0, e0 ≠ e → e0 ≠ e2 → buf_rep s e0 cs0 → buf_rep s' e0 cs0 ∧ content s' cs0 = content s cs0)).
Proof.
  intros Ok H Hr Hm Hw H2 Hne Hs. eapply runs_replace; [done|exact H|exact Hr|done|done|exact H2|done|done|].
  intros s' a b [Ok' R C1 C2 C3 K N E]. eexists _, (a ++ cs2 ++ b).
  split_and!; try done.
  - by rewrite !content_app, C1, C2, C3.
  - intros Eu Hpos. destruct (select_range_order _ _ _ _ _ _ H Hr) as [Hp Hq]. unfold replaced_sub. rewrite Eu.
    unfold select_range in Hr.
    destruct data as [[[c|] o me [|]] [|] [[[c'|] o' m' [|]]|n]]; cbn [sb_begin sb_use_size sb_tail] in Hr, Eu |- *; try done.
    assert (csize a = p) as La.
    { rewrite <- (content_len s' a), C1, zlen_ztake; rewrite ?(br_len _ _ _ H); [lia|lia|].
      intros x chx Hi. eapply br_ok; [exact R|]. apply elem_of_app. by left. }
    destruct (br_parts _ _ _ _ R) as (_ & Hx & _). pose proof R as R'. rewrite app_assoc in R'.
    destruct (br_parts _ _ _ _ R') as (_ & Hy & _). split_and!; [| |left; lia].
    + rewrite <- La. assert (chunk_at e2 cs2 = chunk_at e (cs2 ++ b)) as ->.
      { destruct cs2; [by rewrite csize_nil in Hpos|done]. }
      by apply pos_of_suffix.
    + rewrite <- La, <- csize_app, app_assoc. by apply pos_of_suffix.
  - intros e0 cs0 Hne0 Hne2 H0. apply (keeps_buf _ _ _ _ _ Ok K H0). intros x Hx [Hi|Hi]%elem_of_app.
    + by apply (buf_disjoint s e0 cs0 e cs x).
    + by apply (buf_disjoint s e0 cs0 e2 cs2 x).
Qed.
End claims.

(** ** Witnesses *)




(** Bytes 1 to 4, by their ends. *)
Definition ex_range : vbuffer_sub :=
  Sub (Iter (Some 2%positive) 1 0 false) false (SubEnd (Iter (Some 2%positive) 4 0 false)).
Lemma ex_range_range : select_range 3 ex_cs ex_range 1 4.
Proof. split_and!; [by apply ex_pos|by apply ex_pos|left; lia]. Qed.

Lemma vbuffer_erase_correct_witness :
  runs (vbuffer_erase ex_part) ex2 (λ r s', ∃ cs',
    r = true ∧ heap_ok s' ∧ vb_error s' = None ∧ buf_rep s' 3 cs' ∧ content s' cs' = [104; 111; 33] ∧
    (∀ e0 cs0, e0 ≠ 3%positive → buf_rep ex2 e0 cs0 → buf_rep s' e0 cs0 ∧ content s' cs0 = content ex2 cs0)).
Proof.
  apply (vbuffer_erase_correct ex2 3 ex_cs ex_part 1 4);
    [apply ex2_heap|apply ex2_rep|apply ex_part_range|by apply (bool_decide_unpack _); vm_compute|apply ex_writable].
Defined.

Lemma vbuffer_replace_correct_witness :
  runs (vbuffer_replace ex_range (Some 6%positive)) ex2 (λ r s', ∃ data' cs',
    r = (true, data', None) ∧ heap_ok s' ∧ vb_error s' = None ∧ buf_rep s' 3 cs' ∧
    content s' cs' = [104; 44; 32; 111; 33] ∧
    (sb_use_size ex_range = false → 0 < csize ex_cs2 → select_range 3 cs' data' 1 3) ∧
    (∀ e0 cs0, e0 ≠ 3%positive → e0 ≠ 6%positive → buf_rep ex2 e0 cs0 →
       buf_rep s' e0 cs0 ∧ content s' cs0 = content ex2 cs0)).
Proof.
  apply (vbuffer_replace_correct ex2 3 ex_cs ex_range 1 4 6 ex_cs2);
    [apply ex2_heap|apply ex2_rep|apply ex_range_range|by apply (bool_decide_unpack _); vm_compute
    |apply ex_writable|apply ex2_rep2|done|done].
Defined.
