(* ===== verification/VbFlat.v ===== *)
(** * Compaction and flattening (lib/haka/vbuffer.c)

    [vbuffer_flatten] gives the address of all the bytes of a buffer: the chunks that
    lie next to each other in one block are joined, and when several remain their
    bytes are copied to a new block that takes their place. *)

From S2P Require Import Prelude List2 VbHeap VbIter VbSub VbRep VbWalk VbFrame VbMut VbEdit VbClear VbMake VbCtl VbRead VbWrite VbSelect VbSelectSpec VbExtract VbMap VbSpec.

(** The sub buffer that holds all of a buffer. *)
Definition whole (e : loc) (cs : list seg) : vbuffer_sub :=
  Sub (Iter (Some (chunk_at e cs)) 0 0 false) false (SubEnd (Iter (Some e) 0 0 false)).

(** The bytes [bs] are in the memory at the address [a]. *)
Definition points_to (s : vbstate) (a : loc * Z) (bs : list Z) : Prop :=
  ∃ b, basic_bytes s (Some a.1) = Some b ∧ 0 ≤ a.2 ∧ a.2 + zlen bs ≤ zlen b ∧ zslice a.2 (zlen bs) b = bs.

(** ** Walking over a whole buffer *)

Section whole.
Implicit Types s : vbstate.

Lemma runs_points_to s a bs Q : points_to s a bs → Q bs s → runs (ptr_read a (zlen bs)) s Q.
Proof.
  intros (b & Hb & Ho & Hl & Es) HQ. unfold basic_bytes in Hb. simpl in Hb.
  destruct (vb_datas s !! a.1) as [[r bd]|] eqn:Hd; [|done]. simpl in Hb. destruct bd as [sz b0| | |]; try done. simplify_eq.
  unfold ptr_read. call runs_rd_data; [exact Hd|]. cbn [dt_body]. step; [apply bool_decide_true; lia|]. step. by rewrite Es.
Qed.

Lemma pos_whole s e cs : buf_rep s e cs → pos_of e cs (chunk_at e cs) 0 0 ∧ pos_of e cs e 0 (csize cs).
Proof. intros H. split; [apply (pos_of_suffix e [] cs), (br_nonneg _ _ _ H)|by right]. Qed.

Lemma whole_range s e cs : buf_rep s e cs → select_range e cs (whole e cs) 0 (csize cs).
Proof. intros H. destruct (pos_whole s e cs H). split_and!; [done|done|by right]. Qed.

Lemma runs_whole_check s e cs Q : buf_rep s e cs → Q true s → runs (_vbuffer_sub_check (whole e cs)) s Q.
Proof.
  intros H HQ. destruct (pos_whole s e cs H) as [P1 P2]. unfold _vbuffer_sub_check, whole, sub_end. cbn [sb_begin sb_use_size sb_tail].
  call runs_iter_check; [exact H|exact P1|]. cbn [negb]. step. eapply runs_iter_check; [exact H|exact P2|done].
Qed.

(** The two ends are on the first chunk and on the end chunk. *)
Lemma runs_fix_first_chunk s e cs m reg Q :
  buf_rep s e cs → Q (0, chunk_at e cs) s → runs (_vbuffer_iterator_fix (Iter (Some (chunk_at e cs)) 0 m reg)) s Q.
Proof.
  intros H HQ. eapply runs_fix; [exact H|apply (pos_whole s e cs H)|].
  intros c1 o1 (k1 & km & k2 & E & E1 & -> & E3 & E4 & E5 & E6) _.
  assert (0 ≤ csize km) as Hkm.
  { eapply csize_nonneg. intros c ch Hi. eapply br_ok; [exact H|]. rewrite E, !elem_of_app. right. by left. }
  assert (km = [] ∧ o1 = 0) as [-> ->] by (destruct E4 as [->|]; [rewrite csize_nil in E3; split; [done|lia]|lia]).
  simpl in E1. by rewrite <- E1.
Qed.

Lemma runs_fix_end_chunk s e cs m reg Q :
  buf_rep s e cs → Q (0, e) s → runs (_vbuffer_iterator_fix (Iter (Some e) 0 m reg)) s Q.
Proof.
  intros H HQ. destruct (br_end _ _ _ H) as (ch & Hc & Oe). eapply runs_fix; [exact H|apply (pos_whole s e cs H)|].
  intros c1 o1 (k1 & km & k2 & E & E1 & -> & E3 & E4 & E5 & E6) _.
  destruct (chunk_at_inj s e k1 (km ++ k2) cs []) as [_ Ek]; [by rewrite <- E|by rewrite app_nil_r|done|].
  apply app_nil in Ek as [-> ->]. subst o1. done.
Qed.

(** A buffer is flat when it has one chunk at most. *)
Lemma runs_whole_isflat s e cs Q :
  buf_rep s e cs → Q (bool_decide (length cs ≤ 1)%nat) s → runs (vbuffer_sub_isflat (whole e cs)) s Q.
Proof.
  intros H HQ. unfold vbuffer_sub_isflat. call runs_whole_check; [exact H|]. unfold whole, sub_end.
  cbn [negb sb_begin sb_use_size sb_tail]. call runs_fix_first_chunk; [exact H|]. step.
  call runs_fix_end_chunk; [exact H|]. destruct cs as [|[c ch] cs].
  - unfold chunk_at. simpl. rewrite bool_decide_true by done. by step.
  - rewrite bool_decide_false by (unfold chunk_at; simpl; apply (br_ne_end _ _ _ c ch H); by left).
    rewrite bool_decide_true by done. unfold chunk_at at 1. simpl. call (runs_chunk_next s e []); [exact H|]. step.
    replace (bool_decide (Some (chunk_at e cs) = Some e)) with (bool_decide (length ((c, ch) :: cs) ≤ 1)%nat); [done|].
    destruct cs as [|[c1 ch1] cs]; [by rewrite !bool_decide_true by (simpl; lia || done)|].
    rewrite !bool_decide_false; [done| |simpl; lia]. unfold chunk_at. simpl. intros [= ->].
    apply (br_ne_end _ _ _ e ch1 H); [right; by left|done].
Qed.

(** The iterator over a whole buffer, before the chunks [l2]. *)
Definition at_chunk (e : loc) (l1 l2 : list seg) (it : vbuffer_sub_mmap) : Prop :=
  (l1 = [] ∧ mm_data it = None) ∨ (mm_data it = Some (chunk_at e l2) ∧ mm_len it = u32 (-1)).

Lemma runs_whole_iterate s e cs0 l1 l2 it Q :
  buf_rep s e (l1 ++ l2) → at_chunk e l1 l2 it → chunk_at e cs0 = chunk_at e (l1 ++ l2) →
  match l2 with
  | [] => ∀ it', Q (None, 0, it') s
  | (c, ch) :: k => ∀ it', at_chunk e (l1 ++ [(c, ch)]) k it' → Q (Some (c, 0), ch_size ch, it') s
  end → runs (_vbuffer_sub_iterate (whole e cs0) it) s Q.
Proof.
  intros H Hit E0 HQ. assert (whole e cs0 = whole e (l1 ++ l2)) as -> by (unfold whole; by rewrite E0).
  set (data := whole e (l1 ++ l2)). unfold _vbuffer_sub_iterate.
  assert (∀ Q', (∀ mt, Q' (0, Mmap (Some (chunk_at e l2)) (u32 (-1)) mt) s) → runs (match mm_data it with
     | Some _ => ret (0, it)
     | None =>
         begin ← vbuffer_sub_begin data;
         '(offset, c) ← _vbuffer_iterator_fix begin;
         _ ← vbuffer_iterator_clear begin;
         ret (offset, Mmap (Some c) (if sb_use_size data then sub_length data else u32 (-1)) (mm_meter it))
     end) s Q') as Hst.
  { intros Q' HQ'. destruct Hit as [[-> En]|[Ed El]].
    - rewrite En. unfold vbuffer_sub_begin, data, whole. cbn [sb_begin sb_use_size]. call runs_copy; [exact H|apply (pos_whole s e _ H)|].
      call runs_fix_first_chunk; [exact H|]. call runs_iter_clear. step. apply HQ'.
    - rewrite Ed. step. destruct it as [d l mt]. simpl in Ed, El. subst d l. apply HQ'. }
  call Hst. intros mt. cbn [mm_data mm_len mm_meter]. step. clear Hst Hit.
  destruct l2 as [|[c ch] k].
  - destruct (br_end _ _ _ H) as (ech & He & Oe). unfold chunk_at at 1. simpl. call runs_rd_chunk; [exact He|].
    rewrite (eo_end _ Oe). cbn [orb]. step. apply HQ.
  - destruct (br_at _ _ _ _ _ _ H) as [Hc Oc]. unfold chunk_at at 1. simpl. call runs_rd_chunk; [exact Hc|].
    rewrite (co_end _ _ Oc). cbn [orb]. change (chunk_at e ((c, ch) :: k)) with c.
    call (runs_chunk_next s e l1); [exact H|]. pose proof (co_size _ _ Oc). step; [apply bool_decide_true; lia|].
    unfold data, whole, sub_end. cbn [sb_use_size sb_tail]. step. call runs_fix_end_chunk; [exact H|].
    rewrite bool_decide_false by (apply (br_ne_end _ _ _ c ch H), elem_of_app; right; by left).
    step. rewrite Z.sub_0_r. apply HQ. by right.
Qed.
End whole.

(** ** Compaction *)

Definition joinable (pc ch : vbuffer_chunk) : bool :=
  bool_decide (ch_data pc = ch_data ch) && bool_decide (ch_offset pc + ch_size pc = ch_offset ch).
Definition merged (pc ch : vbuffer_chunk) : vbuffer_chunk :=
  set_writable (fl_writable (ch_flags pc) && fl_writable (ch_flags ch))
    (set_modified (fl_modified (ch_flags pc) || fl_modified (ch_flags ch)) (set_size (ch_size pc + ch_size ch) pc)).

(** The chunks that compaction leaves of [x] and those behind it. *)
Fixpoint compacted (x : seg) (l : list seg) : list seg :=
  match l with
  | [] => [x]
  | y :: l => if joinable x.2 y.2 then compacted (x.1, merged x.2 y.2) l else x :: compacted y l
  end.

(** The heap after the chunks [cs] of the buffer [e] became [l]. *)
Record compact_to s (e : loc) (cs : list seg) (s' : vbstate) (l : list seg) : Prop := {
  cp_heap : heap_ok s';
  cp_rep : buf_rep s' e l;
  cp_content : content s' l = content s cs;
  cp_keeps : keeps (e :: cs.*1) s s';
  cp_sub : ∀ x, x ∈ l.*1 → x ∈ cs.*1;
  cp_plain : no_ctl l;
  cp_writable : all_writable s e cs → all_writable s' e l;
  cp_mem : vb_mem s' = vb_mem s;
  cp_fresh : vb_fresh s' = vb_fresh s;
  cp_error : vb_error s' = vb_error s;
}.

Section compact.
Implicit Types s : vbstate.

Lemma adjacent_compacted l : ∀ x, adjacent (x :: l) → ∃ ch, compacted x l = [(x.1, ch)].
Proof.
  induction l as [|y l IH]; intros [c ch]; [by exists ch|]. intros [[Jd Jo] Ha]. simpl in *. unfold joinable.
  rewrite !bool_decide_true by done. simpl. apply (IH (c, merged ch y.2)). destruct l as [|z l]; [done|].
  destruct Ha as [[Zd Zo] Ha]. split; [|done]. unfold joins. simpl. split; [congruence|lia].
Qed.

Lemma compacted_head e l : ∀ x, chunk_at e (compacted x l) = x.1.
Proof. induction l as [|y l IH]; intros x; [done|]. simpl. by destruct (joinable x.2 y.2); [rewrite IH|]. Qed.

Lemma compact_refl s e cs : heap_ok s → buf_rep s e cs → no_ctl cs → compact_to s e cs s cs.
Proof. intros Ok H Hp. split; try done. apply keeps_refl. Qed.

Lemma compact_trans s e cs s1 l s2 k :
  heap_ok s → compact_to s e cs s1 l → compact_to s1 e l s2 k → compact_to s e cs s2 k.
Proof.
  intros Ok [A1 A2 A3 A4 A5 A6 A7 A8 A9 A10] [B1 B2 B3 B4 B5 B6 B7 B8 B9 B10]. split; try done; try congruence; auto.
  eapply keeps_trans; [done|exact A4|exact B4|]. intros y [->|Hy]%elem_of_cons; left; [by left|right; auto].
Qed.

(** Two chunks next to each other in a block as one. *)
Lemma merged_chunk s pc ch :
  chunk_ok s pc → chunk_ok s ch → fl_ctl (ch_flags pc) = false → fl_ctl (ch_flags ch) = false → joinable pc ch = true →
  chunk_ok s (merged pc ch) ∧ chunk_bytes s (merged pc ch) = chunk_bytes s pc ++ chunk_bytes s ch.
Proof.
  intros Op Oc Ep Ec [Jd Jo]%andb_true_iff. apply bool_decide_eq_true in Jd, Jo.
  destruct Op as [P1 P2 P3 _ P5 P6], Oc as [C1 C2 C3 _ C5 C6].
  destruct (P5 Ep) as (Po & b & Pb & Pl). destruct (C5 Ec) as (Co & b' & Cb & Cl).
  rewrite <- Jd in Cb. assert (b' = b) as -> by congruence. split.
  - split; simpl; try done; try lia; [by rewrite Ep|]. intros _. split; [done|]. exists b. split; [done|lia].
  - unfold chunk_bytes. simpl. rewrite Ep, Ec, <- Jd, Pb. simpl. rewrite <- Jo. by rewrite zslice_split by lia.
Qed.

(** The chunk [c] is joined to the one before it. *)
Lemma merge_step s e l1 p pc c ch l2 Q :
  heap_ok s → buf_rep s e (l1 ++ (p, pc) :: (c, ch) :: l2) → no_ctl (l1 ++ (p, pc) :: (c, ch) :: l2) → joinable pc ch = true →
  (∀ s', compact_to s e (l1 ++ (p, pc) :: (c, ch) :: l2) s' (l1 ++ (p, merged pc ch) :: l2) → Q tt s') →
  runs (upd_chunk p (λ pc, set_writable (fl_writable (ch_flags pc) && fl_writable (ch_flags ch))
          (set_modified (fl_modified (ch_flags pc) || fl_modified (ch_flags ch))
            (set_size (u32 (ch_size pc + ch_size ch)) pc)));;
        vbuffer_chunk_clear c) s Q.
Proof.
  intros Ok H Hp Hj HQ. set (cs := l1 ++ (p, pc) :: (c, ch) :: l2) in *.
  assert (cs = (l1 ++ [(p, pc)]) ++ (c, ch) :: l2) as Ecs by (unfold cs; by rewrite <- app_assoc).
  destruct (br_at s e l1 p pc _ H) as [Hpc Op]. pose proof H as H'. rewrite Ecs in H'.
  destruct (br_at _ _ _ _ _ _ H') as [Hc Oc].
  assert (p ≠ c) as Hne by (intros ->; eapply (br_mid_ne s e (l1 ++ [(c, pc)]) c ch l2 c pc H'); [rewrite !elem_of_app; left; right; by left|done]).
  assert (fl_ctl (ch_flags pc) = false) as Ep by (apply (Hp p); unfold cs; rewrite elem_of_app, elem_of_cons; auto).
  assert (fl_ctl (ch_flags ch) = false) as Ec by (apply (Hp c); unfold cs; rewrite elem_of_app, !elem_of_cons; auto).
  destruct (merged_chunk s pc ch Op Oc Ep Ec Hj) as [Om Bm].
  pose proof (co_small _ _ Om) as Hsm. pose proof (co_size _ _ Om) as Hs0. destruct (co_data _ _ Op Ep) as [Hof _]. simpl in Hsm, Hs0.
  call runs_upd_chunk; [exact Hpc|]. rewrite u32_small by lia.
  change (set_writable _ _) with (merged pc ch). set (pc' := merged pc ch) in *. set (s1 := set_chunks _ s).
  assert (heap_ok s1) as Ok1 by (by eapply heap_ok_upd_chunk).
  pose proof (br_list _ _ _ H') as Hl. rewrite fmap_split in Hl.
  assert (∀ x, x ∈ e :: (l1 ++ [(p, pc)]).*1 ++ c :: l2.*1 → (x < vb_fresh s)%positive) as Hold.
  { intros x Hx. eapply br_fresh; [exact Ok|exact H'|]. by rewrite fmap_split. }
  assert (vb_chunks s1 !! c = Some ch) as Hc1 by (simpl; by rewrite lookup_insert_ne).
  eapply runs_unlink; [exact Ok1|exact Hl|exact Hold|exact Hc1|apply (co_ref _ _ Oc)|].
  intros l [Ul Uf Ufr]. set (s' := drop_chunk c ch (set_links l s1)).
  assert (heap_ok (set_links l s1)) as Ok2 by (by eapply heap_ok_set_links; [|apply Ufr|]).
  assert (∀ x chx, vb_chunks s !! x = Some chx → x ≠ c → ∀ d dt, ch_data chx = Some d → vb_datas s !! d = Some dt →
    ∃ r, vb_datas s' !! d = Some (Data r (dt_body dt))) as Hkept.
  { intros x chx Hx Hxc d dt Ed Hd. unfold s'. simpl. destruct (decide (x = p)) as [->|Hxp].
    - apply (drop_data_kept (set_links l s1) c ch d p pc' dt Ok2 Hc1); [simpl; apply lookup_insert_eq|done|simpl; congruence|done].
    - apply (drop_data_kept (set_links l s1) c ch d x chx dt Ok2 Hc1); [simpl; by rewrite lookup_insert_ne|done|done|done]. }
  assert (∀ x chx, (x, chx) ∈ l1 ++ l2 → x ≠ c ∧ x ≠ p ∧ vb_chunks s !! x = Some chx ∧
    chunk_ok s' chx ∧ chunk_bytes s' chx = chunk_bytes s chx) as Hother.
  { intros x chx Hi. assert ((x, chx) ∈ (l1 ++ [(p, pc)]) ++ l2) as Hi1 by (rewrite !elem_of_app in *; tauto).
    assert ((x, chx) ∈ l1 ++ (c, ch) :: l2) as Hi2 by (rewrite !elem_of_app, elem_of_cons in *; tauto).
    pose proof (br_mid_ne _ _ _ _ _ _ _ _ H' Hi1). pose proof (br_mid_ne s e l1 p pc _ _ _ H Hi2).
    destruct (br_chunks _ _ _ H x chx) as [Hx Ox]; [unfold cs; rewrite !elem_of_app, !elem_of_cons in *; tauto|].
    split_and!; try done; apply (chunk_ok_kept s s'); try done; intros d dt; by eapply Hkept. }
  assert (chunk_ok s' pc' ∧ chunk_bytes s' pc' = chunk_bytes s pc') as [Om' Bm'].
  { apply (chunk_ok_kept s s'); [|done]. intros d dt. by apply (Hkept p pc). }
  assert (∀ k, (∀ x, x ∈ k → x ∈ l1 ++ l2) → content s' k = content s k) as Ck.
  { intros k Hk. apply content_kept. intros x chx Hi. by destruct (Hother x chx (Hk _ Hi)) as (_ & _ & _ & _ & ?). }
  assert (∀ x, x ≠ c → x ≠ p → vb_chunks s' !! x = vb_chunks s !! x) as Hlk.
  { intros x Hxc Hxp. unfold s'. rewrite drop_chunks_lookup by done. simpl. by rewrite lookup_insert_ne. }
  assert (vb_chunks s' !! p = Some pc') as Hp'.
  { unfold s'. rewrite drop_chunks_lookup by done. simpl. apply lookup_insert_eq. }
  assert (e ≠ c ∧ e ≠ p) as [Hec Hep].
  { split; intros <-; [eapply (br_ne_end _ _ _ e ch H)|eapply (br_ne_end _ _ _ e pc H)]; [|done| |done];
      unfold cs; rewrite elem_of_app, !elem_of_cons; auto. }
  apply HQ. split.
  - by apply heap_ok_drop.
  - split.
    + unfold s'. simpl. rewrite fmap_app in *. simpl in *. rewrite <- app_assoc in Ul. simpl in Ul.
      case_bool_decide; [|done]. eapply dlist_ext; [|exact Ul]. intros x Hx. unfold nxt, prv.
      rewrite lookup_delete_ne; [done|]. intros <-. by eapply (dlist_not_in _ _ _ c None Ul).
    + destruct (br_end _ _ _ H) as (ech & He & Oe). exists ech. by rewrite Hlk.
    + intros x chx Hi. apply elem_mid in Hi as [[= -> ->]|Hi]; [done|].
      destruct (Hother x chx Hi) as (? & ? & ? & ? & _). by rewrite Hlk.
    + pose proof (br_small _ _ _ H) as Hb. unfold cs in Hb. rewrite csize_app, !csize_cons in *. simpl in *. lia.
  - unfold cs. rewrite !content_app, !content_cons. simpl. rewrite Bm', Bm, <- app_assoc.
    by rewrite !Ck by (intros x; rewrite elem_of_app; tauto).
  - eapply (keeps_trans _ [c]); [done| |by apply keeps_drop|].
    + eapply (keeps_trans _ (e :: (l1 ++ [(p, pc)]).*1 ++ c :: l2.*1)); [done| |apply keeps_set_links, Ufr|].
      * eapply keeps_weaken; [apply keeps_upd_chunk|]. intros x ->%list_elem_of_singleton. right. unfold cs.
        rewrite fmap_app, elem_of_app, !fmap_cons, !elem_of_cons. auto.
      * intros y Hy. left. rewrite Ecs, fmap_split. exact Hy.
    + intros y ->%list_elem_of_singleton. left. right. rewrite Ecs, fmap_split, elem_of_app, elem_of_cons. auto.
  - intros x. unfold cs. rewrite !fmap_app, !fmap_cons, !elem_of_app, !elem_of_cons. tauto.
  - intros x chx Hi. apply elem_mid in Hi as [[= -> ->]|Hi]; [done|]. apply (Hp x). unfold cs.
    rewrite !elem_of_app, !elem_of_cons in *. tauto.
  - intros Hw x Hx. destruct (decide (x = p)) as [->|Hxp].
    + exists pc'. split; [done|]. destruct (Hw p) as (pc1 & Hp1 & W1).
      { right. unfold cs. rewrite fmap_app, elem_of_app, !fmap_cons, !elem_of_cons. auto. }
      destruct (Hw c) as (ch1 & Hc2 & W2).
      { right. unfold cs. rewrite fmap_app, elem_of_app, !fmap_cons, !elem_of_cons. auto. }
      simplify_eq. simpl. by rewrite W1, W2.
    + destruct (Hw x) as (chx & Hx1 & W).
      { unfold cs. rewrite !fmap_app, !fmap_cons, !elem_of_cons, !elem_of_app, !elem_of_cons in *. simpl in *. tauto. }
      exists chx. split; [|done]. rewrite Hlk; [done| |done]. intros ->.
      assert (c ∉ e :: (l1 ++ [(p, pc)]).*1 ++ l2.*1) as Hni by (by eapply dlist_not_in).
      apply Hni. rewrite !fmap_app, !fmap_cons, !elem_of_cons, !elem_of_app, !elem_of_cons in *. simpl in *. tauto.
  - done.
  - done.
  - done.
Qed.

Lemma no_ctl_in cs c ch : no_ctl cs → (c, ch) ∈ cs → fl_ctl (ch_flags ch) = false.
Proof. intros Hp. apply Hp. Qed.

(** The test of the code, on offsets that do not wrap. *)
Lemma joinable_test s pc ch :
  chunk_ok s pc → fl_ctl (ch_flags pc) = false →
  bool_decide (ch_data pc = ch_data ch) && bool_decide (u32 (ch_offset pc + ch_size pc) = ch_offset ch) = joinable pc ch.
Proof.
  intros Op Ep. destruct (co_data _ _ Op Ep) as [Ho _]. pose proof (co_size _ _ Op). pose proof (co_small _ _ Op).
  by rewrite u32_small by lia.
Qed.

Lemma compact_loop_spec e cs0 : ∀ l2 s l1 p pc it fuel size Q,
  let cs := l1 ++ (p, pc) :: l2 in
  heap_ok s → buf_rep s e cs → no_ctl cs → at_chunk e (l1 ++ [(p, pc)]) l2 it → chunk_at e cs0 = chunk_at e cs →
  (length l2 ≤ fuel)%nat → 0 ≤ size → size + csize l2 < 2 ^ 64 →
  (∀ s', compact_to s e cs s' (l1 ++ compacted (p, pc) l2) → Q (whole e cs0, size + csize l2, false) s') →
  runs (compact_loop fuel (whole e cs0) it (Some p) size false) s Q.
Proof.
  induction l2 as [|[c ch] l2 IH]; intros s l1 p pc it fuel size Q cs Ok H Hp Hit E0 Hf Hs Hsz HQ.
  - destruct fuel; simpl; (apply runs_bind; eapply (runs_whole_iterate s e cs0 (l1 ++ [(p, pc)]) []);
      [by rewrite app_nil_r|exact Hit|by rewrite app_nil_r|]; intros it'; step; rewrite Z.add_0_r in HQ; apply HQ;
      by apply compact_refl).
  - destruct fuel as [|fuel]; simpl in Hf; [lia|]. pose proof H as H'. unfold cs in H'. rewrite cons_middle, app_assoc in H'.
    destruct (br_at _ _ _ _ _ _ H') as [Hc Oc]. destruct (br_at s e l1 p pc _ H) as [Hpc Op].
    destruct (br_size _ _ _ _ _ _ H') as (Z1 & Z2 & Z3 & Z4). rewrite csize_cons in Hsz, HQ. simpl in Hsz, HQ.
    assert (fl_ctl (ch_flags pc) = false) as Ep by (apply (Hp p); unfold cs; rewrite elem_of_app, elem_of_cons; auto).
    assert (fl_ctl (ch_flags ch) = false) as Ec by (apply (Hp c); unfold cs; rewrite elem_of_app, !elem_of_cons; auto).
    simpl. apply runs_bind. eapply (runs_whole_iterate s e cs0 (l1 ++ [(p, pc)]) ((c, ch) :: l2));
      [exact H'|exact Hit|by rewrite E0; unfold cs; rewrite <- app_assoc|]. intros it' Hit'.
    rewrite u64_small by lia. call runs_rd_chunk; [exact Hc|]. rewrite Ec. cbn [orb]. apply runs_bind.
    call runs_rd_chunk; [exact Hpc|]. step. rewrite (joinable_test s) by done. simpl in HQ. destruct (joinable pc ch) eqn:Hj.
    + call runs_rd_chunk; [exact Hpc|]. unfold whole at 1. cbn [sb_use_size]. unfold sub_end. cbn [sb_tail]. apply runs_bind. step.
      cbn [it_chunk]. rewrite bool_decide_false.
      2:{ intros [= Ee]. apply (br_ne_end _ _ _ c ch H'); [|done]. rewrite elem_of_app, elem_of_cons. auto. }
      step. change (Sub _ _ _) with (whole e cs0).
      eapply runs_assoc, runs_bind, (merge_step s e l1 p pc c ch l2); [done|exact H|done|done|]. intros s1 C1.
      pose proof C1 as [Ok1 R1 _ _ _ P1 _ _ _ _].
      eapply IH; [exact Ok1|exact R1|exact P1| |by rewrite E0; unfold chunk_at, cs; rewrite !fmap_app; by destruct l1|lia|lia|lia|].
      { destruct Hit' as [[Hn _]|Hd]; [by destruct l1|by right]. }
      intros s2 C2. rewrite <- Z.add_assoc. apply HQ. by eapply compact_trans.
    + unfold cs in Hp, E0. rewrite cons_middle, app_assoc in Hp, E0. eapply IH; [exact Ok|exact H'|done|exact Hit'|exact E0|lia|lia|lia|].
      intros s1 C1. rewrite <- Z.add_assoc. apply HQ. rewrite <- !app_assoc in C1. simpl in C1. exact C1.
Qed.

Lemma runs_compact s e c ch cs Q :
  heap_ok s → buf_rep s e ((c, ch) :: cs) → no_ctl ((c, ch) :: cs) →
  (∀ s', compact_to s e ((c, ch) :: cs) s' (compacted (c, ch) cs) →
     Q (true, whole e (compacted (c, ch) cs), csize ((c, ch) :: cs), false) s') →
  runs (_vbuffer_compact (whole e ((c, ch) :: cs))) s Q.
Proof.
  intros Ok H Hp HQ. unfold _vbuffer_compact. call runs_whole_check; [exact H|]. cbn [negb]. call runs_chunk_fuel.
  pose proof (br_fuel _ _ _ H) as Hf. simpl in Hf. destruct (br_size s e [] c ch cs H) as (_ & Z2 & Z3 & Z4). rewrite csize_nil in Z4.
  simpl. apply runs_bind, runs_bind.
  eapply (runs_whole_iterate s e _ [] ((c, ch) :: cs)); [exact H|by left|done|]. intros it Hit.
  destruct (br_at s e [] c ch cs H) as [Hc Oc]. call runs_rd_chunk; [exact Hc|]. rewrite (Hp c ch) by (by left). cbn [orb].
  step. rewrite u64_small by lia.
  eapply (compact_loop_spec e _ cs s [] c ch); [done|exact H|done|exact Hit|done|simpl; lia|lia|lia|].
  intros s' C. step. assert (whole e ((c, ch) :: cs) = whole e (compacted (c, ch) cs)) as ->.
  { unfold whole. by rewrite compacted_head. }
  apply HQ. exact C.
Qed.
End compact.

(** ** Copying *)

Section flatten.
Implicit Types s : vbstate.

Lemma chunk_points_to s ch :
  chunk_ok s ch → fl_ctl (ch_flags ch) = false →
  ∃ d, ch_data ch = Some d ∧ points_to s (d, ch_offset ch) (chunk_bytes s ch).
Proof.
  intros Oc Ec. destruct (co_data _ _ Oc Ec) as (Ho & b & Hb & Hl). destruct (basic_bytes_some _ _ _ Hb) as [d Ed].
  exists d. split; [done|]. rewrite Ed in Hb. pose proof (chunk_bytes_len _ _ Oc) as El. exists b. simpl. rewrite El.
  split_and!; [done|done|lia|]. unfold chunk_bytes. by rewrite Ec, Ed, Hb.
Qed.

(** The bytes of a chunk are read. *)
Lemma runs_chunk_read {X} s e cs c ch (k : list Z → VM X) Q :
  buf_rep s e cs → (c, ch) ∈ cs → fl_ctl (ch_flags ch) = false → runs (k (chunk_bytes s ch)) s Q →
  runs (p ← vbuffer_chunk_get_data c false;
        '(b, o) ← deref p;
        c_assert (bool_decide (0 ≤ ch_size ch));;
        bs ← ptr_read (b, o + 0) (ch_size ch); k bs) s Q.
Proof.
  intros H Hi Ec HQ. destruct (br_chunks _ _ _ H _ _ Hi) as [Hc Oc].
  destruct (chunk_points_to s ch Oc Ec) as (d & Ed & Hpt). pose proof Hpt as (b & Hb & _).
  call (runs_get_data s e cs H false c ch d b); [done..|]. step. pose proof (co_size _ _ Oc).
  rewrite bool_decide_true by lia. step. rewrite Z.add_0_l, Z.add_0_r. apply runs_bind.
  rewrite <- (chunk_bytes_len s ch Oc). eapply runs_points_to; [exact Hpt|]. done.
Qed.

Lemma flatten_loop_spec e e2 c2 d2 n cs0 : ∀ l2 s l1 it fuel pos size Q,
  let ch2 := block_chunk d2 0 n in
  buf_rep s e (l1 ++ l2) → no_ctl (l1 ++ l2) → buf_rep s e2 [(c2, ch2)] → e ≠ e2 →
  (∀ x, x ∈ l1 ++ l2 → ch_data x.2 ≠ Some d2) →
  at_chunk e l1 l2 it → chunk_at e cs0 = chunk_at e (l1 ++ l2) → (length l2 ≤ fuel)%nat →
  0 ≤ pos → pos + csize l2 ≤ n → csize l2 ≤ size →
  (∀ s', poked s c2 ch2 (zput pos (content s l2) (chunk_bytes s ch2)) s' ch2 → Q tt s') →
  runs (flatten_loop fuel (whole e cs0) it d2 pos size) s Q.
Proof.
  induction l2 as [|[c ch] l2 IH]; intros s l1 it fuel pos size Q ch2 H Hp H2 Hne Hd Hit E0 Hf Hpos Hn Hs HQ.
  - assert (runs skip s Q) as Hend.
    { unfold skip. step. apply HQ. rewrite content_nil, zput_nil by done. apply poked_refl.
      apply (br_at s e2 [] c2 ch2 [] H2). }
    destruct fuel; simpl; (apply runs_bind; eapply runs_whole_iterate; [exact H|exact Hit|exact E0|]; intros it'; exact Hend).
  - destruct fuel as [|fuel]; simpl in Hf; [lia|]. simpl. apply runs_bind.
    destruct (br_at _ _ _ _ _ _ H) as [Hc Oc]. destruct (br_size _ _ _ _ _ _ H) as (Z1 & Z2 & Z3 & Z4).
    destruct (br_at s e2 [] c2 ch2 [] H2) as [Hc2 Oc2]. rewrite csize_cons in Hn, Hs. simpl in Hn, Hs.
    assert (fl_ctl (ch_flags ch) = false) as Ec by (apply (Hp c); rewrite elem_of_app, elem_of_cons; auto).
    pose proof (chunk_bytes_len s ch Oc) as El. pose proof (chunk_bytes_len s ch2 Oc2) as El2. simpl in El2.
    eapply runs_whole_iterate; [exact H|exact Hit|exact E0|]. intros it' Hit'.
    call runs_rd_chunk; [exact Hc|]. rewrite Ec. step. step; [apply bool_decide_true; lia|].
    eapply (runs_chunk_read s e (l1 ++ (c, ch) :: l2)); [exact H|rewrite elem_of_app, elem_of_cons; auto|done|].
    call (runs_poke s c2 ch2 d2 pos (chunk_bytes s ch)); [exact Hc2|exact Oc2|done|done|done|simpl; lia|]. intros s1 P1.
    pose proof (poked_buf _ _ _ _ _ _ e2 [] [] P1 H2) as H21.
    assert (∀ y, y ∈ l1 ++ (c, ch) :: l2 → apart ch2 y.2) as Hap.
    { intros y Hy _ _ E. exfalso. by apply (Hd y Hy). }
    destruct (poked_other _ _ _ _ _ _ e (l1 ++ (c, ch) :: l2) P1 H) as [H1 _].
    { intros Hx. apply (buf_disjoint s e _ e2 _ c2 H H2 Hne Hx). right. by left. }
    { done. }
    assert (content s1 l2 = content s l2) as C1.
    { apply content_kept. intros x chx Hi. apply (po_apart _ _ _ _ _ _ P1).
      - eapply br_ok; [exact H|]. rewrite elem_of_app, elem_of_cons. eauto.
      - apply (Hap (x, chx)). rewrite elem_of_app, elem_of_cons. eauto. }
    rewrite cons_middle, app_assoc in H1, Hp, Hd, E0.
    eapply (IH s1 (l1 ++ [(c, ch)])); [exact H1|exact Hp|exact H21|done|exact Hd|exact Hit'|exact E0|lia|lia|lia|lia|].
    intros s' P2. apply HQ. rewrite content_cons. simpl. cbv zeta in P2. fold ch2 in P2.
    rewrite C1, (po_bytes _ _ _ _ _ _ P1), <- El, zput_concat in P2.
    + by eapply poked_trans.
    + lia.
    + rewrite (content_len s l2); [fold ch2; lia|]. intros x chx Hi. eapply br_ok; [exact H|]. rewrite elem_of_app, elem_of_cons. eauto.
Qed.

(** The heap after the bytes of the buffer [e] have been made to lie at [a]. *)
Record flattened s (e : loc) (cs : list seg) (s' : vbstate) (cs' : list seg) (a : loc * Z) : Prop := {
  ft_heap : heap_ok s';
  ft_rep : buf_rep s' e cs';
  ft_content : content s' cs' = content s cs;
  ft_points : points_to s' a (content s cs);
  ft_others : ∀ e0 cs0, e0 ≠ e → buf_rep s e0 cs0 → buf_rep s' e0 cs0 ∧ content s' cs0 = content s cs0;
  ft_error : vb_error s' = vb_error s;
}.

(** No chunk of a buffer is on a block that is not there yet. *)
Lemma not_on_fresh s e cs x : heap_ok s → buf_rep s e cs → x ∈ cs → ch_data x.2 ≠ Some (vb_fresh s).
Proof.
  intros Ok H Hi E. destruct x as [c ch]. destruct (ho_data _ Ok c ch (vb_fresh s)) as [dt Hd];
    [by eapply br_lookup|done|]. pose proof (ho_fresh_data _ Ok _ (mk_is_Some _ _ Hd)). lia.
Qed.

Lemma poked_same_chunks v c ch H' v' : poked v c ch H' v' ch → vb_chunks v !! c = Some ch → vb_chunks v' = vb_chunks v.
Proof. intros P Hc. rewrite (po_chunks _ _ _ _ _ _ P). by apply insert_id. Qed.

Lemma runs_flatten_copy s e cs Q :
  heap_ok s → buf_rep s e cs → no_ctl cs → all_writable s e cs → (6 ≤ vb_mem s)%nat →
  (∀ s' cs' a data', flattened s e cs s' cs' a → Q (Some a, data') s') →
  runs (_vbuffer_sub_flatten (whole e cs) (csize cs)) s Q.
Proof.
  intros Ok H Hp Hw Hm HQ. pose proof (br_small _ _ _ H) as Hsm. pose proof (br_nonneg _ _ _ H) as Hnn.
  destruct (vb_mem s) as [|[|[|n]]] eqn:Em; try lia. unfold _vbuffer_sub_flatten.
  call (runs_create_new_at s n (csize cs) false); [done|exact Em|lia|]. intros e2 c2 s1 M.
  set (d2 := vb_fresh s) in *. set (ch2 := block_chunk d2 0 (csize cs)) in *.
  pose proof M as [Ok1 R2 C2 K1 _ F1 E1 M1 _]. cbn [negb].
  destruct (keeps_nil_buf _ _ _ _ Ok K1 H) as [R1 C1].
  assert (e ≠ e2) as Hne.
  { intros ->. pose proof (br_fresh _ _ _ e2 Ok H ltac:(by left)). specialize (F1 e2 ltac:(by left)). lia. }
  unfold uninit_iterator. apply runs_bind. step. step. call runs_vbuffer_begin; [exact R2|]. step.
  destruct (br_at s1 e2 [] c2 ch2 [] R2) as [Hc2 Oc2].
  call runs_rd_chunk; [exact Hc2|]. step.
  destruct (co_data _ _ Oc2 eq_refl) as (_ & b & Hb & Hlb). unfold basic_bytes in Hb. simpl in Hb.
  destruct (vb_datas s1 !! d2) as [[r bd]|] eqn:Hd; [|done]. simpl in Hb.
  unfold data_get. apply runs_bind. call runs_rd_data; [exact Hd|]. step. cbn [dt_body].
  destruct bd as [sz b0| | |]; try done. injection Hb as ->. step. call runs_chunk_fuel.
  eapply (runs_seq _ _ _ (λ _ s2, poked s1 c2 ch2 (content s cs) s2 ch2)).
  { eapply (flatten_loop_spec e e2 c2 d2 (csize cs) cs cs s1 []); [exact R1|exact Hp|exact R2|done| |by left|done| |lia|lia|lia|].
    - intros x. by apply (not_on_fresh s e cs).
    - pose proof (br_fuel _ _ _ R1). lia.
    - intros s2 P. fold ch2 in P. rewrite C1 in P. unfold zput in P.
      rewrite ztake_0, zdrop_ge, app_nil_r in P; [exact P|].
      rewrite (chunk_bytes_len s1 ch2 Oc2), (br_len _ _ _ H). simpl. lia. }
  intros _ s2 P.
  assert (∀ e0 cs0, e0 ≠ e2 → buf_rep s e0 cs0 → buf_rep s2 e0 cs0 ∧ content s2 cs0 = content s cs0) as Hoth.
  { intros e0 cs0 Hne0 H0. destruct (keeps_nil_buf _ _ _ _ Ok K1 H0) as [H01 <-].
    apply (poked_other _ _ _ _ _ _ _ _ P H01).
    - intros Hx. apply (buf_disjoint s1 e0 cs0 e2 [(c2, ch2)] c2 H01 R2 Hne0 Hx). right. by left.
    - intros y Hy _ _ E. exfalso. by apply (not_on_fresh s e0 cs0 y Ok H0 Hy). }
  destruct (Hoth e cs Hne H) as [R3 C3]. pose proof (poked_buf _ _ _ _ _ _ e2 [] [] P R2) as R23. simpl in R23.
  pose proof (po_bytes _ _ _ _ _ _ P) as Hbytes. pose proof (po_heap _ _ _ _ _ _ P Ok1) as Ok2.
  assert (all_writable s2 e cs) as Hw2.
  { intros x Hx. destruct (keeps_nil_writable _ _ x Ok K1 (Hw x Hx)) as (chx & Hcx & Wx). exists chx.
    split; [|done]. by rewrite (poked_same_chunks _ _ _ _ _ P Hc2). }
  call (runs_replace s2 e cs (whole e cs) 0 (csize cs) e2 [(c2, ch2)]);
    [exact Ok2|exact R3|by eapply whole_range|rewrite (po_mem _ _ _ _ _ _ P); lia|exact Hw2|exact R23|done| |].
  { rewrite csize_cons, csize_nil. simpl. lia. }
  intros s3 a b3 Hrp. pose proof Hrp as [Ok3 R4 Ca Cm Cb K3 N3 E3]. unfold vbuffer_release, vbuffer_clear. step. step.
  rewrite content_cons, content_cons, content_nil, app_nil_r in Cm. simpl in Cm. rewrite app_nil_r, Hbytes in Cm.
  eapply (HQ s3 (a ++ [(c2, ch2)] ++ b3) (d2, 0)). split; try done.
  - rewrite !content_app, Ca, Cb, content_cons. simpl. rewrite Cm, C3, ?ztake_0, <- (br_len _ _ _ H), zdrop_ge, ?app_nil_r by lia. done.
  - destruct (chunk_points_to s3 ch2) as (d & [= <-] & Hpt); [|done|by rewrite Cm in Hpt].
    eapply (br_ok _ _ _ c2 ch2 R4). rewrite !elem_of_app, elem_of_cons. auto.
  - intros e0 cs0 Hne0 H0.
    assert (e0 ≠ e2) as Hne2.
    { intros ->. pose proof (br_fresh _ _ _ e2 Ok H0 ltac:(by left)). specialize (F1 e2 ltac:(by left)). lia. }
    destruct (Hoth e0 cs0 Hne2 H0) as [H02 <-]. apply (keeps_buf _ _ _ _ _ Ok2 K3 H02). intros x Hx [Hi|Hi]%elem_of_app.
    + by apply (buf_disjoint s2 e0 cs0 e cs x H02 R3).
    + by apply (buf_disjoint s2 e0 cs0 e2 [(c2, ch2)] x H02 R23).
  - rewrite E3, (po_error _ _ _ _ _ _ P). exact E1.
Qed.

(** The bytes of a buffer of one chunk are mapped where they are. *)
Lemma runs_flatten_direct s e c ch Q :
  buf_rep s e [(c, ch)] → fl_ctl (ch_flags ch) = false → 0 < ch_size ch →
  (∀ d, ch_data ch = Some d → Q (MapPtr (d, ch_offset ch) (ch_size ch), whole e [(c, ch)]) s) →
  runs (it ← vbuffer_iterator_copy (sb_begin (whole e [(c, ch)]));
        f ← vbuffer_sub_isflat (whole e [(c, ch)]);
        c_assert f;;
        '(m, _) ← vbuffer_iterator_mmap it size_max false;
        ret (m, whole e [(c, ch)])) s Q.
Proof.
  intros H Ec Hs HQ. destruct (first_block_of s e c ch [] H Ec Hs) as (d & r & sz & b & F & _).
  unfold whole at 1. cbn [sb_begin]. call runs_copy; [exact H|apply (pos_whole s e _ H)|].
  call runs_whole_isflat; [exact H|]. step. apply runs_bind.
  eapply (runs_block_mmap s e c d ch r sz b F _ false); [done|]. intros it. step. apply HQ, F.
Qed.

Lemma flattened_one s e cs s' c ch :
  heap_ok s → buf_rep s e cs → compact_to s e cs s' [(c, ch)] → ∀ d, ch_data ch = Some d → flattened s e cs s' [(c, ch)] (d, ch_offset ch).
Proof.
  intros Ok H [Ok' R C K S P W M F E] d Ed. split; try done.
  - destruct (chunk_points_to s' ch) as (d' & Ed' & Hpt); [eapply br_ok; [exact R|by left]|apply (P c); by left|].
    assert (d' = d) as -> by congruence. rewrite content_cons, content_nil, app_nil_r in C. simpl in C. by rewrite C in Hpt.
  - intros e0 cs0 Hne H0. by apply (kept_buf s s' e cs).
Qed.

Lemma runs_flatten s e cs Q :
  heap_ok s → buf_rep s e cs → no_ctl cs → 0 < csize cs →
  adjacent cs ∨ all_writable s e cs ∧ (6 ≤ vb_mem s)%nat →
  (∀ s' cs' a data', flattened s e cs s' cs' a → Q (MapPtr a (csize cs), data') s') →
  runs (vbuffer_flatten (Some e)) s Q.
Proof.
  intros Ok H Hp Hs Hw HQ. unfold vbuffer_flatten. call runs_sub_create_all; [exact H|]. fold (whole e cs).
  unfold vbuffer_sub_flatten. call runs_whole_check; [exact H|]. cbn [negb]. call runs_whole_isflat; [exact H|].
  destruct cs as [|[c ch] cs]; [by rewrite csize_nil in Hs|]. case_test as Hlen.
  - destruct cs; [|simpl in Hlen; lia]. rewrite csize_cons, csize_nil, Z.add_0_r in *. simpl in *.
    eapply runs_flatten_direct; [exact H|apply (Hp c); by left|done|]. intros d Ed. eapply HQ.
    eapply flattened_one; [done|exact H|by apply compact_refl|done].
  - call runs_compact; [done|exact H|done|]. intros s1 C1. cbn [negb orb].
    pose proof C1 as [Ok1 R1 Cc K1 S1 P1 W1 M1 F1 E1]. set (l := compacted (c, ch) cs) in *.
    assert (csize l = csize ((c, ch) :: cs)) as El by (by rewrite <- (br_len _ _ _ R1), Cc, (br_len _ _ _ H)).
    call runs_whole_isflat; [exact R1|]. case_test as Hlen1.
    + destruct l as [|[c1 ch1] [|y l0]] eqn:Ele; [rewrite csize_nil in El; lia| |simpl in Hlen1; lia].
      rewrite csize_cons, csize_nil, Z.add_0_r in El. simpl in El.
      eapply runs_flatten_direct; [exact R1|apply (P1 c1); by left|lia|]. intros d Ed. rewrite El. eapply HQ.
      by eapply flattened_one.
    + destruct Hw as [Ha|[Hw Hm]].
      { exfalso. apply Hlen1. unfold l. destruct (adjacent_compacted cs (c, ch) Ha) as [ch' ->]. simpl. lia. }
      rewrite <- El. call runs_flatten_copy; [exact Ok1|exact R1|exact P1|by apply W1|lia|].
      intros s2 cs2 a data2 [Ok2 R2 C2 Pt2 O2 E2]. step. rewrite El. eapply (HQ s2 cs2). split; try done.
      * by rewrite C2.
      * by rewrite <- Cc.
      * intros e0 cs0 Hne H0. destruct (kept_buf _ _ _ _ _ _ Ok H K1 H0 Hne) as [H1 <-]. by apply O2.
      * congruence.
Qed.
End flatten.

(** ** The claims *)

(** C18 [vbuffer_flatten] of a buffer that holds bytes and no mark gives the address and
    the number of all of its bytes: they are in the memory there in order. The content
    of the buffer is the same, no error is raised and all other buffers are as they were.
    When its chunks are next to each other in one block they are joined, and neither
    memory nor the permission to write is needed. *)
Theorem vbuffer_flatten_correct s e cs :
  heap_ok s → buf_rep s e cs → no_ctl cs → content s cs ≠ [] →
  adjacent cs ∨ all_writable s e cs ∧ (6 ≤ vb_mem s)%nat →
  runs (vbuffer_flatten (Some e)) s (λ r s', ∃ a data' cs',
    r = (MapPtr a (zlen (content s cs)), data') ∧ points_to s' a (content s cs) ∧
    heap_ok s' ∧ buf_rep s' e cs' ∧ content s' cs' = content s cs ∧ vb_error s' = vb_error s ∧
    (∀ e0 cs0, e0 ≠ e → buf_rep s e0 cs0 → buf_rep s' e0 cs0 ∧ content s' cs0 = content s cs0)).
Proof.
  intros Ok H Hp Hne Hw. eapply runs_flatten; [done|exact H|done| |exact Hw|].
  - rewrite <- (br_len _ _ _ H). destruct (content s cs) as [|x l]; [done|]. pose proof (zlen_nonneg l).
    unfold zlen in *. simpl. lia.
  - intros s' cs' a data' [Ok' R C Pt O E]. exists a, data', cs'. rewrite (br_len _ _ _ H). by split_and!.
Qed.

(** ** Witnesses *)

(** The buffer of the examples with the second one inserted in its middle: three chunks
    on two blocks. *)
Definition ex_mixed : vbstate :=
  run ('(r, _, _) ← vbuffer_iterator_insert (Iter (Some 2%positive) 3 0 false) (Some 6%positive) false; ret r) ex2.
Definition ex_mixed_cs : list seg :=
  [(2%positive, Chunk 1 (Flags false false true true false) (Some 1%positive) 0 3);
   (5%positive, Chunk 1 plain (Some 4%positive) 0 2);
   (7%positive, Chunk 1 (Flags false false true true false) (Some 1%positive) 3 3)].

Lemma ex_mixed_rep : buf_rep ex_mixed 3 ex_mixed_cs.
Proof. concrete_rep. Qed.

Lemma ex_mixed_writable : all_writable ex_mixed 3 ex_mixed_cs.
Proof.
  intros c Hc. simpl in Hc. repeat (apply elem_of_cons in Hc as [->|Hc]; [eexists; by split; [vm_compute|]|]).
  by apply elem_of_nil in Hc.
Qed.

Lemma ex_mixed_plain : no_ctl ex_mixed_cs.
Proof. intros c ch Hc. repeat (apply elem_of_cons in Hc as [Hc|Hc]; [by injection Hc as _ ->|]). by apply elem_of_nil in Hc. Qed.

Lemma vbuffer_flatten_correct_witness :
  runs (vbuffer_flatten (Some 3%positive)) ex_mixed (λ r s', ∃ a data' cs',
    r = (MapPtr a 8, data') ∧ points_to s' a [104; 101; 108; 44; 32; 108; 111; 33] ∧
    heap_ok s' ∧ buf_rep s' 3 cs' ∧ content s' cs' = [104; 101; 108; 44; 32; 108; 111; 33] ∧ vb_error s' = None ∧
    (∀ e0 cs0, e0 ≠ 3%positive → buf_rep ex_mixed e0 cs0 → buf_rep s' e0 cs0 ∧ content s' cs0 = content ex_mixed cs0)).
Proof.
  apply (vbuffer_flatten_correct ex_mixed 3 ex_mixed_cs);
    [apply heap_check_ok; by vm_compute|apply ex_mixed_rep|apply ex_mixed_plain|by vm_compute|].
  right. split; [apply ex_mixed_writable|by apply (bool_decide_unpack _); vm_compute].
Defined.
