(* ===== verification/VbFindings.v ===== *)
(** * Behaviours of vbuffer.c that differ from their documentation

    Closed computations on small heaps: each theorem runs the functions of the
    code on a concrete buffer. *)

From S2P Require Import Prelude List2 VbHeap VbIter VbSub VbRep VbMake VbSpec.

(** [vbuffer_sub_isflat] with a length answers that the six bytes over the two
    chunks of [ex_cut] are flat: the comparison of the chunk size with the end
    of the range is the wrong way round. *)
Theorem isflat_two_chunks :
  fst <$> vbuffer_sub_isflat (Sub (Iter (Some 2%positive) 0 0 false) true (SubLength 6)) ex_cut
    = Some true ∧
  fst <$> vbuffer_sub_isflat (Sub (Iter (Some 2%positive) 0 0 false) true (SubLength 2)) ex_cut
    = Some false.
Proof. split; vm_compute; reflexivity. Qed.

(** [vbuffer_sub_clone] copies whole chunks: the clone of the two bytes from 1
    of a buffer of six bytes has six bytes. *)
Theorem sub_clone_whole_chunks :
  (λ r, r.1) <$> ('(_, _, b) ← vbuffer_sub_clone (Sub (Iter (Some 2%positive) 1 0 false) true (SubLength 2)) CLONE_RW;
         vbuffer_size b) ex2 = Some 6.
Proof. vm_compute. reflexivity. Qed.

(** [vbuffer_clone] passes its boolean where the mode is expected: with [copy]
    the clone shares the data of the original (writing through it changes the
    original), and without [copy] the code takes the copying branch. *)
Theorem clone_copy_shares :
  (λ r, r.1) <$> ('(_, b) ← vbuffer_clone (Some 3%positive) true;
         sub ← vbuffer_sub_create b 0 size_max;
         _ ← vbuffer_sub_write sub [1; 2];
         orig ← vbuffer_sub_create (Some 3%positive) 0 size_max;
         vbuffer_sub_read orig 6) ex2 = Some [1; 2; 108; 108; 111; 33].
Proof. vm_compute. reflexivity. Qed.

(** [vbuffer_zero] returns [check_error()]: false when it worked. *)
Theorem zero_result_inverted :
  (λ r, (r.1, vb_error r.2)) <$> vbuffer_zero ex_sub ex_cut = Some (false, None) ∧
  (λ r, r.1) <$> (_ ← vbuffer_zero ex_sub; sub ← vbuffer_sub_create (Some 3%positive) 0 size_max;
         vbuffer_sub_read sub 6) ex_cut = Some [104; 0; 0; 0; 0; 33].
Proof. split; vm_compute; reflexivity. Qed.

(** [_vbuffer_iterator_split] uses the new chunk without testing the result of
    the allocation: without memory the run has no result. *)
Definition ex_nomem : vbstate :=
  VB (vb_links ex2) (vb_chunks ex2) (vb_datas ex2) None 0 (vb_fresh ex2) (vb_junk ex2).

Theorem split_nomem_stuck : vbuffer_iterator_split (Iter (Some 2%positive) 3 0 false) ex_nomem = None.
Proof. vm_compute. reflexivity. Qed.

(** [vbuffer_replace] on a sub-buffer with a length stores in it the length that
    it reads from the memory of an end iterator, the address of a chunk: after
    the replacement of two bytes by the two bytes of the second buffer, the
    sub-buffer claims 6 bytes, the address of that buffer's end chunk. *)
Theorem replace_length_is_address :
  (λ r, (r.1.1.1, sub_length r.1.1.2)) <$>
    vbuffer_replace (Sub (Iter (Some 2%positive) 1 0 false) true (SubLength 2)) (Some 6%positive) ex2
    = Some (true, 6).
Proof. vm_compute. reflexivity. Qed.

(** The end of a sub-buffer is only met if its chunk is not before the one of
    the beginning: between the start of the second chunk and the end of the
    first, the same position, the code counts three bytes. *)
Theorem empty_range_backwards :
  (λ r, r.1) <$> vbuffer_sub_size (Sub (Iter (Some 7%positive) 0 0 false) false
    (SubEnd (Iter (Some 2%positive) 3 0 false))) ex_cut = Some 3.
Proof. vm_compute. reflexivity. Qed.

(** [vbuffer_replace] by an empty buffer leaves the sub-buffer at the end chunk of
    that buffer, which it has freed: any use of the sub-buffer is a use after free. *)
Theorem replace_by_empty_dangles :
  (λ r, r.1) <$> ('(_, e) ← vbuffer_create_empty;
    '(_, data, _) ← vbuffer_replace (Sub (Iter (Some 2%positive) 1 0 false) false (SubEnd (Iter (Some 2%positive) 3 0 false))) e;
    c ← deref (it_chunk (sb_begin data));
    gets (λ s, bool_decide (vb_chunks s !! c = None))) ex2 = Some true.
Proof. vm_compute. reflexivity. Qed.

(** [vbuffer_sub_flatten] of a read only buffer of several blocks: the copy cannot
    replace the chunks, the error of the replacement is not looked at, the copy is
    freed and its address is returned. *)
Definition ex_readonly : vbstate :=
  run (_ ← vbuffer_append (Some 3%positive) (Some 6%positive); vbuffer_setwritable (Some 3%positive) false) ex2.

Theorem flatten_readonly_dangles :
  (λ r, (r.1, vb_error r.2)) <$> ('(m, _) ← vbuffer_flatten (Some 3%positive);
    gets (λ s, match m with MapPtr a n => (n, bool_decide (vb_datas s !! a.1 = None)) | _ => (0, false) end)) ex_readonly
  = Some ((8, true), Some "read only buffer").
Proof. vm_compute. reflexivity. Qed.

(** [_vbuffer_extract] leaves the control chunks of the range in the buffer, but when
    the range begins with one the others are put before it: the marks 10 and 12 around the
    second byte come out in the other order. *)
Definition ex_marks : vbstate :=
  run (m1 ← vbuffer_data_ctl_mark false; m1 ← deref m1;
       _ ← vbuffer_iterator_split (Iter (Some 2%positive) 1 0 false);
       _ ← vbuffer_iterator_split (Iter (Some 2%positive) 2 0 false);
       _ ← vbuffer_chunk_insert_ctl 8 m1;
       m2 ← vbuffer_data_ctl_mark false; m2 ← deref m2;
       vbuffer_chunk_insert_ctl 9 m2) ex2.

Definition chunk_order (e : loc) : VM (list loc) :=
  VBUFFER_FOR_EACH (Some e) (λ l c, ret (l ++ [c])) [].

Theorem extract_reorders_marks :
  (λ r, r.1) <$> chunk_order 3 ex_marks = Some [2; 10; 8; 12; 9; 3]%positive ∧
  (λ r, r.1) <$> (_ ← vbuffer_extract (Sub (Iter (Some 10%positive) 0 0 false) false (SubEnd (Iter (Some 9%positive) 0 0 false)));
     chunk_order 3) ex_marks = Some [2; 12; 10; 9; 3]%positive.
Proof. split; vm_compute; reflexivity. Qed.
