(* ===== verification/VbStream.v ===== *)
(** * Streams of buffers (lib/haka/vbuffer_stream.c, vbuffer_sub_stream.c)

    A stream is one growing buffer. Each push ends with a control chunk that
    becomes the end of the buffer, so that an iterator at the old end stands in
    front of the new data; a pop takes the chunks up to the control chunk of the
    oldest push. The state is that of one stream: its descriptors (a heap and a
    link memory of their own), the [struct vbuffer_stream], its address [ss_self],
    and the buffer library below. The cleanup function of a client is recorded
    with its argument; the one of vbuffer_sub_stream.c is executed. *)

From S2P Require Import Prelude List2 VbHeap VbIter VbSub.

(** ** Data *)

Record vbuffer_stream_chunk := SChunk {
  sc_ctl_data : ptr;
  sc_ctl_iter : vbuffer_iterator;
  sc_userdata : ptr;
}.

(** The function pointer [userdata_cleanup]. *)
Inductive cleanup := CleanNone | CleanSubStream | CleanClient.

Record vbuffer_stream := Stream {
  st_data : vbuffer;
  st_chunks : loc;
  st_read_chunks : loc;
  st_userdata_cleanup : cleanup;
}.

(** [ss_subs]: the [select] iterators of vbuffer_sub_stream.c. *)
Record sstate := SS {
  ss_vb : vbstate;
  ss_links : lmem;
  ss_chunks : gmap loc vbuffer_stream_chunk;
  ss_subs : gmap loc vbuffer_iterator;
  ss_stream : vbuffer_stream;
  ss_self : loc;
  ss_cleaned : list loc;
}.

Abbreviation SM := (M sstate).

Definition set_svb (v : vbstate) (s : sstate) : sstate :=
  SS v (ss_links s) (ss_chunks s) (ss_subs s) (ss_stream s) (ss_self s) (ss_cleaned s).
Definition set_slinks (l : lmem) (s : sstate) : sstate :=
  SS (ss_vb s) l (ss_chunks s) (ss_subs s) (ss_stream s) (ss_self s) (ss_cleaned s).
Definition set_schunks (m : gmap loc vbuffer_stream_chunk) (s : sstate) : sstate :=
  SS (ss_vb s) (ss_links s) m (ss_subs s) (ss_stream s) (ss_self s) (ss_cleaned s).
Definition set_subs (m : gmap loc vbuffer_iterator) (s : sstate) : sstate :=
  SS (ss_vb s) (ss_links s) (ss_chunks s) m (ss_stream s) (ss_self s) (ss_cleaned s).
Definition set_stream (st : vbuffer_stream) (s : sstate) : sstate :=
  SS (ss_vb s) (ss_links s) (ss_chunks s) (ss_subs s) st (ss_self s) (ss_cleaned s).

(** An operation of the buffer library, and one on the links of the descriptors. *)
Definition on_vb {A} (m : VM A) : SM A := zoom ss_vb set_svb m.
Definition slnk {A} (m : M lmem A) : SM A := zoom ss_links set_slinks m.

Definition rd_schunk (c : loc) : SM vbuffer_stream_chunk := o ← gets (λ s, ss_chunks s !! c); deref o.
Definition wr_schunk (c : loc) (ch : vbuffer_stream_chunk) : SM unit :=
  modify (λ s, set_schunks (<[c := ch]> (ss_chunks s)) s).
Definition free_schunk (c : loc) : SM unit :=
  modify (λ s, set_slinks (delete c (ss_links s)) (set_schunks (delete c (ss_chunks s)) s)).
Definition set_st_data (b : vbuffer) : SM unit :=
  modify (λ s, let st := ss_stream s in
    set_stream (Stream b (st_chunks st) (st_read_chunks st) (st_userdata_cleanup st)) s).

Definition list2_first (l : loc) : M lmem ptr :=
  e ← list2_empty l; if e : bool then ret None else list2_begin l.
Definition list2_last (l : loc) : M lmem ptr :=
  e ← list2_empty l; if e : bool then ret None else list2_prev (list2_end l).

(** ** Descriptors *)

(** [vbuffer_sub_stream_chunk_free]: the selection is removed without its data. *)
Definition vbuffer_sub_stream_chunk_free (data : loc) : SM unit :=
  o ← gets (λ s, ss_subs s !! data);
  select ← deref o;
  '(_, _, _) ← on_vb (vbuffer_restore select None false);
  modify (λ s, set_subs (delete data (ss_subs s)) s).

Definition userdata_cleanup (f : cleanup) (userdata : loc) : SM unit :=
  match f with
  | CleanNone => skip
  | CleanSubStream => vbuffer_sub_stream_chunk_free userdata
  | CleanClient => modify (λ s, SS (ss_vb s) (ss_links s) (ss_chunks s) (ss_subs s) (ss_stream s)
      (ss_self s) (ss_cleaned s ++ [userdata]))
  end.

Definition _vbuffer_stream_free_chunk (chunk : loc) : SM unit :=
  ch ← rd_schunk chunk;
  st ← gets ss_stream;
  (match sc_userdata ch with
   | Some u => userdata_cleanup (st_userdata_cleanup st) u
   | None => skip
   end);;
  free_schunk chunk.

Fixpoint free_chunks_loop (fuel : nat) (iter end_ : loc) : SM unit :=
  if bool_decide (iter = end_) then skip else
  match fuel with
  | O => stuck
  | S fuel =>
      n ← slnk (list2_erase iter);
      n ← deref n;
      _vbuffer_stream_free_chunk iter;;
      free_chunks_loop fuel n end_
  end.

(** No list of descriptors is longer than their heap. *)
Definition schunk_fuel : SM nat := gets (λ s, S (size (ss_chunks s))).

Definition _vbuffer_stream_free_chunks (chunks : loc) : SM unit :=
  b ← slnk (list2_begin chunks);
  b ← deref b;
  fuel ← schunk_fuel;
  free_chunks_loop fuel b (list2_end chunks).

(** The data that was kept for readers goes as soon as no mark is in front of it. *)
Fixpoint cleanup_loop (fuel : nat) (iter end_ iter_read end_read : loc) : SM unit :=
  if bool_decide (iter = end_) || bool_decide (iter_read = end_read) then skip else
  match fuel with
  | O => stuck
  | S fuel =>
      ch ← on_vb (rd_chunk iter);
      d ← deref (ch_data ch);
      dt ← on_vb (rd_data d);
      match dt_body dt with
      | vbuffer_data_ctl_mark_ops _ => skip
      | body =>
          iter_read ←
            (if body is vbuffer_data_ctl_push_ops _ _ then
               rc ← rd_schunk iter_read;
               c_assert (bool_decide (ch_data ch = sc_ctl_data rc));;
               n ← slnk (list2_erase iter_read);
               n ← deref n;
               _vbuffer_stream_free_chunk iter_read;;
               ret n
             else ret iter_read);
          n ← on_vb (lnk (list2_erase iter));
          n ← deref n;
          on_vb (vbuffer_chunk_clear iter);;
          cleanup_loop fuel n end_ iter_read end_read
      end
  end.

Definition _vbuffer_stream_cleanup : SM unit :=
  st ← gets ss_stream;
  l ← on_vb (vbuffer_chunk_list (st_data st));
  b ← on_vb (lnk (list2_begin l));
  b ← deref b;
  rb ← slnk (list2_begin (st_read_chunks st));
  rb ← deref rb;
  fuel ← on_vb chunk_fuel;
  cleanup_loop fuel b (list2_end l) rb (list2_end (st_read_chunks st)).

(** ** Operations *)

(** [chunks] and [read_chunks] are the addresses of the list heads in the
    structure. The result of [vbuffer_create_empty] is not tested. *)
Definition vbuffer_stream_init (chunks read_chunks : loc) (f : cleanup) : SM bool :=
  '(_, data) ← on_vb vbuffer_create_empty;
  e ← deref data;
  on_vb (upd_chunk e (set_eof false));;
  slnk (list2_init chunks);;
  slnk (list2_init read_chunks);;
  modify (set_stream (Stream data chunks read_chunks f));;
  ret true.

Definition vbuffer_stream_clear : SM unit :=
  st ← gets ss_stream;
  _vbuffer_stream_free_chunks (st_chunks st);;
  _vbuffer_stream_free_chunks (st_read_chunks st);;
  b ← on_vb (vbuffer_release (st_data st));
  set_st_data b.

(** The end of the buffer gets data, so that it can stay in front of the new chunks. *)
Definition mark_end (end_ : loc) : SM bool :=
  ec ← on_vb (rd_chunk end_);
  if is_null (ch_data ec) then
    self ← gets ss_self;
    end_data ← on_vb (vbuffer_data_ctl_push self None);
    match end_data with
    | None => ret false
    | Some ed => on_vb (upd_chunk end_ (set_data (Some ed)));; on_vb (data_addref ed);; ret true
    end
  else ret true.

(** The new control chunk takes over the role of the end from [end_]. *)
Definition move_end (end_ ctl : loc) (writable : bool) : SM unit :=
  n ← on_vb (lnk (list2_next end_));
  n ← deref n;
  _ ← on_vb (lnk (list2_insert n ctl));
  ec ← on_vb (rd_chunk end_);
  on_vb (upd_chunk ctl (λ c, set_writable writable (set_ctl true (set_flags (ch_flags ec) c))));;
  on_vb (upd_chunk end_ (λ c, set_eof false (set_end false c)));;
  set_st_data (Some ctl).

(** The descriptor of a push, its control block and its control chunk. The
    descriptor is not freed when its control block cannot be allocated. *)
Definition new_descriptor (end_ : loc) : SM (option (loc * loc * loc)) :=
  p ← on_vb malloc;
  match p with
  | None => on_vb (error "memory error");; ret None
  | Some chunk =>
      slnk (list2_elem_init chunk);;
      self ← gets ss_self;
      cd ← on_vb (vbuffer_data_ctl_push self (Some chunk));
      wr_schunk chunk (SChunk cd vbuffer_iterator_init None);;
      match cd with
      | None => ret None
      | Some ctl_data =>
          ok ← mark_end end_;
          if negb ok then free_schunk chunk;; ret None else
          ctl ← on_vb (vbuffer_chunk_create cd 0 0);
          match ctl with
          | None => free_schunk chunk;; ret None
          | Some c => ret (Some (chunk, ctl_data, c))
          end
      end
  end.

(** The position in front of the new data. *)
Definition push_position (buffer : vbuffer) (ctl : loc) (current : option vbuffer_iterator)
    : VM (option vbuffer_iterator) :=
  match current with
  | None => ret None
  | Some it =>
      empty ← vbuffer_isempty buffer;
      it ← (if empty : bool then vbuffer_iterator_update vbuffer_iterator_init ctl 0
            else vbuffer_begin buffer it);
      ret (Some it)
  end.

(** The second result is the buffer after the call, the third [*current] when the
    caller gives an iterator to fill. *)
Definition vbuffer_stream_push (buffer : vbuffer) (userdata : ptr) (current : option vbuffer_iterator)
    : SM (bool * vbuffer * option vbuffer_iterator) :=
  st ← gets ss_stream;
  end_ ← on_vb (vbuffer_chunk_end (st_data st));
  ec ← on_vb (rd_chunk end_);
  if fl_eof (ch_flags ec) then
    on_vb (error "stream marked as finished");; ret (false, buffer, None) else
  r ← new_descriptor end_;
  match r with
  | None => ret (false, buffer, None)
  | Some (chunk, ctl_data, c) =>
      w ← on_vb (vbuffer_iswritable buffer);
      move_end end_ c w;;
      cur ← on_vb (push_position buffer c current);
      b ← on_vb (vbuffer_chunk_begin buffer);
      e ← on_vb (vbuffer_chunk_end buffer);
      _ ← on_vb (lnk (list2_insert_list c b e));
      _ ← slnk (list2_insert (list2_end (st_chunks st)) chunk);
      buffer ← on_vb (vbuffer_clear buffer);
      it ← on_vb (vbuffer_iterator_update vbuffer_iterator_init c 0);
      wr_schunk chunk (SChunk (Some ctl_data) it userdata);;
      ret (true, buffer, cur)
  end.

Definition vbuffer_stream_finish : SM unit :=
  st ← gets ss_stream;
  e ← deref (st_data st);
  on_vb (upd_chunk e (set_eof true)).

Definition vbuffer_stream_isfinished : SM bool :=
  st ← gets ss_stream;
  e ← deref (st_data st);
  ch ← on_vb (rd_chunk e);
  ret (fl_eof (ch_flags ch)).

(** The walk of [vbuffer_stream_pop] to the control chunk of the push: the first
    chunk, the control chunk and, when a reader keeps the data, the first chunk to
    keep; [None] when nothing can be popped. *)
Fixpoint pop_loop (fuel : nat) (ctl_data : ptr) (begin iter : loc) (start_of_keep : ptr)
    (left_over_end_found : bool) : SM (option (loc * loc * ptr)) :=
  ch ← on_vb (rd_chunk iter);
  if bool_decide (ch_data ch = ctl_data) then ret (Some (begin, iter, start_of_keep)) else
  c_assert (negb (fl_end (ch_flags ch)));;
  match fuel with
  | O => stuck
  | S fuel =>
      let next_ (start_of_keep : ptr) :=
        n ← on_vb (vbuffer_chunk_next iter);
        n ← deref n;
        pop_loop fuel ctl_data begin n start_of_keep left_over_end_found in
      if negb (fl_ctl (ch_flags ch)) then next_ start_of_keep else
      d ← deref (ch_data ch);
      dt ← on_vb (rd_data d);
      match dt_body dt with
      | vbuffer_data_ctl_push_ops stream chunk =>
          self ← gets ss_self;
          if negb left_over_end_found && bool_decide (stream = self) && is_null chunk then
            n ← on_vb (vbuffer_chunk_remove_ctl iter);
            n ← deref n;
            pop_loop fuel ctl_data (if bool_decide (iter = begin) then n else begin) n start_of_keep true
          else
            c_assert (bool_decide (stream ≠ self));;
            next_ start_of_keep
      | vbuffer_data_ctl_select_ops => ret None
      | vbuffer_data_ctl_mark_ops readonly =>
          if negb readonly then ret None
          else next_ (if is_null start_of_keep then Some iter else start_of_keep)
      | vbuffer_data_basic_ops _ _ => next_ start_of_keep
      end
  end.

(** The chunks that a reader keeps are cloned up to the control chunk; the result
    of the allocation is not tested. *)
Fixpoint keep_loop (fuel : nat) (chunk ctl end_ : loc) : VM unit :=
  if bool_decide (chunk = ctl) then skip else
  match fuel with
  | O => stuck
  | S fuel =>
      ch ← rd_chunk chunk;
      (if fl_ctl (ch_flags ch) then skip else
         clone ← vbuffer_chunk_clone chunk false;
         c ← deref clone;
         _ ← lnk (list2_insert end_ c);
         upd_chunk chunk (set_writable false));;
      n ← vbuffer_chunk_next chunk;
      n ← deref n;
      keep_loop fuel n ctl end_
  end.

(** The data of the push moves to the new buffer and its control chunk goes, or
    stays as the end of the stream. *)
Definition take_chunks (begin iter end_ : loc) : VM unit :=
  _ ← lnk (list2_insert_list end_ begin iter);
  ch ← rd_chunk iter;
  if negb (fl_end (ch_flags ch)) then _ ← vbuffer_chunk_remove_ctl iter; skip
  else
    d ← deref (ch_data ch);
    dt ← rd_data d;
    match dt_body dt with
    | vbuffer_data_ctl_push_ops stream _ =>
        wr_data d (Data (dt_ref dt) (vbuffer_data_ctl_push_ops stream None))
    | _ => stuck
    end.

Definition keep_chunks (begin start ctl end_ : loc) : VM unit :=
  _ ← lnk (list2_insert_list end_ begin start);
  fuel ← chunk_fuel;
  keep_loop fuel start ctl end_.

(** The buffer that is popped, and [*userdata] when the caller asks for it. *)
Definition vbuffer_stream_pop (want_userdata : bool) : SM (bool * vbuffer * ptr) :=
  st ← gets ss_stream;
  cur ← slnk (list2_first (st_chunks st));
  match cur with
  | None => ret (false, None, None)
  | Some current =>
      _vbuffer_stream_cleanup;;
      last_ ← slnk (list2_last (st_read_chunks st));
      '(begin, start) ←
        (match last_ with
         | Some rl =>
             rc ← rd_schunk rl;
             c ← deref (it_chunk (sc_ctl_iter rc));
             n ← on_vb (vbuffer_chunk_next c);
             n ← deref n;
             ret (n, Some n)
         | None => b ← on_vb (vbuffer_chunk_begin (st_data st)); ret (b, None)
         end);
      cc ← rd_schunk current;
      fuel ← on_vb chunk_fuel;
      r ← pop_loop fuel (sc_ctl_data cc) begin begin start false;
      match r with
      | None => ret (false, None, None)
      | Some (begin, iter, start) =>
          c_assert (bool_decide (it_chunk (sc_ctl_iter cc) = Some iter));;
          (if want_userdata then wr_schunk current (SChunk (sc_ctl_data cc) (sc_ctl_iter cc) None) else skip);;
          ic ← on_vb (rd_chunk iter);
          '(_, buffer) ← on_vb vbuffer_create_empty;
          on_vb (vbuffer_setwritable buffer (fl_writable (ch_flags ic)));;
          e ← on_vb (vbuffer_chunk_end buffer);
          on_vb (match start with
                 | Some keep => keep_chunks begin keep iter e
                 | None => take_chunks begin iter e
                 end);;
          _ ← slnk (list2_erase current);
          (match start with
           | Some _ => _ ← slnk (list2_insert (list2_end (st_read_chunks st)) current); skip
           | None => _vbuffer_stream_free_chunk current
           end);;
          ret (true, buffer, if want_userdata then sc_userdata cc else None)
      end
  end.

Definition vbuffer_stream_data : SM vbuffer := st ← gets ss_stream; ret (st_data st).

(** ** Streams of sub-buffers *)

Definition vbuffer_sub_stream_init (chunks read_chunks : loc) : SM bool :=
  vbuffer_stream_init chunks read_chunks CleanSubStream.

(** The sub-buffer after the call is the second result. *)
Definition vbuffer_sub_stream_push (buffer : vbuffer_sub) (current : option vbuffer_iterator)
    : SM (bool * vbuffer_sub * option vbuffer_iterator) :=
  p ← on_vb malloc;
  match p with
  | None => on_vb (error "memory error");; ret (false, buffer, None)
  | Some chunk =>
      '(ok, buffer, extract, select) ← on_vb (vbuffer_select buffer);
      if negb ok then ret (false, buffer, None) else
      '(_, select) ← on_vb (vbuffer_iterator_register select);
      modify (λ s, set_subs (<[chunk := select]> (ss_subs s)) s);;
      '(r, _, cur) ← vbuffer_stream_push extract (Some chunk) current;
      ret (r, buffer, cur)
  end.

(** Every push that can be popped is put back in the buffer it was selected from;
    [sub] is the range of the bytes that were put back. *)
Fixpoint sub_pop_loop (fuel : nat) (want_sub : bool) (sub : vbuffer_sub) (found : bool)
    : SM (bool * vbuffer_sub) :=
  '(ok, buffer, chunk) ← vbuffer_stream_pop true;
  if negb ok then ret (found, sub) else
  match fuel with
  | O => stuck
  | S fuel =>
      empty ← on_vb (vbuffer_isempty buffer);
      sub ← (if negb empty && want_sub then
               sub ← (if found then ret sub
                      else b ← on_vb (vbuffer_begin buffer (sb_begin sub)); ret (Sub b false (sb_tail sub)));
               e0 ← on_vb (sub_end sub);
               e ← on_vb (vbuffer_last buffer e0);
               ret (Sub (sb_begin sub) (sb_use_size sub) (SubEnd e))
             else ret sub);
      c ← deref chunk;
      o ← gets (λ s, ss_subs s !! c);
      select ← deref o;
      '(_, _, b) ← on_vb (vbuffer_restore select (Some buffer) false);
      _ ← on_vb (vbuffer_release (default buffer b));
      modify (λ s, set_subs (delete c (ss_subs s)) s);;
      sub_pop_loop fuel want_sub sub (found || negb empty)
  end.

Definition vbuffer_sub_stream_pop (want_sub : bool) : SM (bool * vbuffer_sub) :=
  fuel ← schunk_fuel;
  sub_pop_loop fuel want_sub vbuffer_sub_init false.
