(* ===== verification/VbStreamRep.v ===== *)
(** * What a stream represents

    [stream_rep s E left cs ps]: the buffer of the stream has the end chunk [E], a
    left-over end chunk [left] (or none) and then the chunks [cs] of the pushes [ps]
    in order, separated by their control chunks; the descriptors are in the list of
    the stream in the same order. The lemmas are the steps of a push and of a pop on
    the heap of the buffers. *)

From S2P Require Import Prelude List2 VbHeap VbIter VbSub VbRep VbWalk VbFrame VbMut VbEdit VbClear VbMake VbCtl VbStream.

(** ** Lists seen from another head *)

Lemma dlist_rotate h e c xs : dlist h e (c :: xs) → dlist h c (xs ++ [e]).
Proof.
  intros [Hnd Hc]. split.
  - apply NoDup_cons in Hnd as [He Hnd]. apply NoDup_cons in Hnd as [Hx Hnd].
    apply NoDup_cons. split.
    + rewrite elem_of_app, list_elem_of_singleton. intros [?| ->]; [done|]. apply He. by left.
    + apply NoDup_app. split_and!; [done| |by apply NoDup_singleton].
      intros x Hi ->%list_elem_of_singleton. apply He. by right.
  - rewrite <- app_assoc. simpl in Hc. destruct Hc as [Hl Hc].
    apply (chain_cut h (c :: xs) e c []). split_and!; [exact Hc|done|done].
Qed.

(** ** Steps of a push *)

Section steps.
Implicit Types v : vbstate.

(** The end chunk gets a block that nothing else refers to. *)
Definition give_data (E : loc) (ech : vbuffer_chunk) (body : vbuffer_data_body) (n : nat) v : vbstate :=
  VB (vb_links v) (<[E := set_data (Some (vb_fresh v)) ech]> (vb_chunks v))
    (<[vb_fresh v := Data 1 body]> (vb_datas v)) (vb_error v) n (Pos.succ (vb_fresh v)) (vb_junk v).

Lemma heap_ok_give v n E ech body :
  heap_ok v → vb_mem v = S n → vb_chunks v !! E = Some ech → ch_data ech = None →
  heap_ok (give_data E ech body n v).
Proof.
  intros Ok Em HE Hd. pose proof (heap_ok_add_data v body n Ok Em) as [F1 F2 F3 R D S].
  pose proof (fresh_data v Ok) as Hf. simpl in *.
  assert (∀ d, nrefs (<[E := set_data (Some (vb_fresh v)) ech]> (vb_chunks v)) d =
    (nrefs (vb_chunks v) d + if decide (d = vb_fresh v) then 1 else 0)%nat) as Hn.
  { intros d. pose proof (nrefs_update _ _ _ (set_data (Some (vb_fresh v)) ech) d HE) as Hu.
    unfold has_data in Hu. rewrite Hd in Hu. simpl in Hu.
    repeat case_decide; simplify_eq; lia. }
  assert (∀ x, is_Some (<[E := set_data (Some (vb_fresh v)) ech]> (vb_chunks v) !! x) →
    is_Some (vb_chunks v !! x)) as Hdom.
  { intros x [y [[-> _]|[_ Hy]]%lookup_insert_Some]; [rewrite HE; eauto|eauto]. }
  split; simpl; try done; [auto|auto| | |].
  - intros x [y [[-> _]|[Hne Hy]]%lookup_insert_Some]; [lia|]. apply F3. rewrite lookup_insert_ne by done. eauto.
  - intros d dt [[<- <-]|[Hne Hx]]%lookup_insert_Some; rewrite Hn; simpl.
    + rewrite decide_True by done. specialize (R (vb_fresh v) _ (lookup_insert_eq _ _ _)). simpl in R. lia.
    + rewrite decide_False by done. rewrite (R d dt); [lia|]. by rewrite lookup_insert_ne.
  - intros c ch d [[<- <-]|[Hne Hx]]%lookup_insert_Some Hch; simpl in *.
    + injection Hch as <-. rewrite lookup_insert_eq. eauto.
    + destruct (D c ch d Hx Hch) as [y [[<- _]|[Hne' Hy]]%lookup_insert_Some];
        [rewrite lookup_insert_eq|rewrite lookup_insert_ne by done]; eauto.
  - rewrite map_size_insert, HE. simpl. done.
Qed.

Lemma keeps_give v n E ech body : heap_ok v → keeps [E] v (give_data E ech body n v).
Proof.
  intros Ok. split; simpl; try done; [| |lia].
  - intros x Hx _. by rewrite lookup_insert_ne by (intros ->; apply Hx; by left).
  - intros d [r b] c ch Hd _ _ _. pose proof (ho_fresh_data _ Ok _ (mk_is_Some _ _ Hd)).
    rewrite lookup_insert_ne by lia. eauto.
Qed.

Lemma give_rep v n E ech body cs :
  heap_ok v → buf_rep v E cs → vb_chunks v !! E = Some ech →
  buf_rep (give_data E ech body n v) E cs ∧ content (give_data E ech body n v) cs = content v cs.
Proof.
  intros Ok H HE. destruct (br_end _ _ _ H) as (ech0 & HE0 & Oe). simplify_eq.
  assert (buf_rep (set_chunks (<[E := set_data (Some (vb_fresh v)) ech]> (vb_chunks v)) v) E cs) as H1.
  { apply buf_rep_upd_end; [done|]. destruct Oe. by split. }
  assert (∀ c ch, (c, ch) ∈ cs → chunk_ok (give_data E ech body n v) ch ∧
    chunk_bytes (give_data E ech body n v) ch = chunk_bytes v ch) as Hk.
  { intros c ch Hi. apply chunk_ok_kept; [|by eapply br_ok]. intros d [r b] _ Hx.
    pose proof (ho_fresh_data _ Ok _ (mk_is_Some _ _ Hx)). simpl. rewrite lookup_insert_ne by lia. eauto. }
  split; [|apply content_kept; intros c ch Hi; by apply Hk in Hi as [_ ?]].
  destruct H1 as [L1 E1 C1 S1]. split; try done. intros c ch Hi. split; [by apply C1|by apply (Hk c)].
Qed.
End steps.

(** ** Operations of the buffer library in a stream *)

Section lift.
Implicit Types s : sstate.

Lemma runs_on_vb {A} (m : VM A) s Q :
  runs m (ss_vb s) (λ a v, Q a (set_svb v s)) → runs (on_vb m) s Q.
Proof. apply runs_zoom. Qed.

Lemma runs_slnk {A} (m : M lmem A) s Q :
  runs m (ss_links s) (λ a l, Q a (set_slinks l s)) → runs (slnk m) s Q.
Proof. apply runs_zoom. Qed.

Lemma set_svb_id s : set_svb (ss_vb s) s = s.
Proof. by destruct s. Qed.
Lemma set_slinks_id s : set_slinks (ss_links s) s = s.
Proof. by destruct s. Qed.
End lift.

(** [vcall H]: the next call is one of the buffer library. *)
Tactic Notation "vcall" uconstr(H) := apply runs_bind, runs_on_vb; eapply H.
Tactic Notation "lcall" uconstr(H) := apply runs_bind, runs_slnk; eapply H.

(** The block of an end chunk that was left over, and the one of a push. *)
Definition push_data (v : vbstate) (d : ptr) (self : loc) (k : ptr) : Prop :=
  ∃ dd r, d = Some dd ∧ vb_datas v !! dd = Some (Data r (vbuffer_data_ctl_push_ops self k)).

Section ends.
Implicit Types s : sstate.

Lemma runs_mark_end s E cs ech Q :
  let v := ss_vb s in
  heap_ok v → buf_rep v E cs → vb_chunks v !! E = Some ech → vb_mem v ≠ 0%nat →
  (∀ v' d, heap_ok v' → buf_rep v' E cs → content v' cs = content v cs → keeps [E] v v' →
     vb_chunks v' !! E = Some (set_data (Some d) ech) → (vb_mem v ≤ S (vb_mem v'))%nat →
     (∀ d0, ch_data ech = Some d0 → d = d0) → bodies_kept v v' →
     (ch_data ech = None → push_data v' (Some d) (ss_self s) None) →
     Q true (set_svb v' s)) →
  runs (mark_end E) s Q.
Proof.
  intros v Ok H HE Hm HQ. unfold mark_end. vcall runs_rd_chunk; [exact HE|].
  rewrite set_svb_id. destruct (ch_data ech) as [d0|] eqn:Ed; simpl.
  - step. rewrite <- (set_svb_id s). apply (HQ v d0); try done.
    + apply keeps_refl.
    + rewrite HE. f_equal. destruct ech. simpl in *. by subst.
    + lia.
    + by intros ? [= ->].
    + intros d [r b] Hx. eauto.
  - step. destruct (vb_mem v) as [|n] eqn:Em; [done|].
    vcall runs_new_data; [done|]. cbn [set_svb ss_vb ss_self].
    vcall runs_upd_chunk; [exact HE|]. unfold data_addref.
    apply runs_bind, runs_on_vb. call runs_rd_data; [apply lookup_insert_eq|]. unfold wr_data. step. step.
    match goal with |- Q true ?t => replace t with
      (set_svb (give_data E ech (vbuffer_data_ctl_push_ops (ss_self s) None) n v) s) end.
    2:{ unfold set_svb, give_data, set_datas, set_chunks, add_data. simpl. by rewrite insert_insert_eq. }
    destruct (give_rep v n E ech (vbuffer_data_ctl_push_ops (ss_self s) None) cs Ok H HE) as [H' Hc].
    eapply (HQ _ (vb_fresh v)).
    + by apply heap_ok_give.
    + done.
    + done.
    + by apply keeps_give.
    + apply lookup_insert_eq.
    + done.
    + done.
    + intros d [r b] Hx. pose proof (ho_fresh_data _ Ok _ (mk_is_Some _ _ Hx)). simpl.
      rewrite lookup_insert_ne by lia. eauto.
    + intros _. exists (vb_fresh v), 1. split; [done|]. apply lookup_insert_eq.
Qed.

(** The chunk [c] takes the place of the end [E], which stays in front of it. *)
Lemma runs_move_end s E cs ech c d fl w Q :
  let v := ss_vb s in
  let ech' := set_eof false (set_end false ech) in
  let cch := set_writable w (set_ctl true (set_flags (ch_flags ech) (Chunk 1 fl (Some d) 0 0))) in
  heap_ok v → buf_rep v E cs → vb_chunks v !! E = Some ech → fl_ctl (ch_flags ech) = true →
  is_Some (ch_data ech) → ch_offset ech = 0 → vb_chunks v !! c = Some (Chunk 1 fl (Some d) 0 0) →
  vb_links v !! c = Some (Elem None None) →
  (∀ l, let v' := set_links l (set_chunks (<[E := ech']> (<[c := cch]> (vb_chunks v))) v) in
     heap_ok v' → buf_rep v' c (cs ++ [(E, ech')]) → keeps (c :: E :: cs.*1) v v' →
     let st := ss_stream s in
     Q tt (set_stream (Stream (Some c) (st_chunks st) (st_read_chunks st) (st_userdata_cleanup st))
             (set_svb v' s))) →
  runs (move_end E c w) s Q.
Proof.
  intros v ech' cch Ok H HE Hctl Hd Ho Hc Hl HQ. unfold move_end.
  pose proof (br_list _ _ _ H) as Hb. pose proof (dlist_not_in _ _ _ _ _ Hb Hl) as Hni.
  vcall runs_lnk_next; [by eapply dlist_begin|]. step. cbn [set_svb ss_vb].
  apply runs_bind, runs_on_vb. eapply runs_lnk; [by apply (list2_insert_spec _ E [] cs.*1)|].
  intros _ l (_ & Hl' & Hfr). cbn [set_svb ss_vb app] in *. simpl in Hfr.
  vcall runs_rd_chunk; [exact HE|]. cbn [set_svb ss_vb].
  vcall runs_upd_chunk; [exact Hc|]. cbn [set_svb ss_vb].
  assert (c ≠ E) as HcE by (intros ->; apply Hni; by left).
  vcall runs_upd_chunk; [simpl; by rewrite lookup_insert_ne|]. unfold set_st_data. step.
  set (v' := set_chunks _ _).
  assert (heap_ok (set_links l v)) as Ok1.
  { eapply heap_ok_set_links; [done|apply Hfr|]. intros x [->|[->|Hx]%elem_of_cons]%elem_of_cons.
    - eapply (br_fresh _ _ _ _ Ok H). by left.
    - apply (ho_fresh_chunk _ Ok). by rewrite Hc.
    - eapply (br_fresh _ _ _ _ Ok H). by right. }
  assert (heap_ok (set_chunks (<[c := cch]> (vb_chunks v)) (set_links l v))) as Ok2.
  { eapply (heap_ok_upd_chunk (set_links l v)); [done|exact Hc|done]. }
  assert (heap_ok v') as Ok'.
  { eapply (heap_ok_upd_chunk (set_chunks (<[c := cch]> (vb_chunks v)) (set_links l v)) E ech);
      [done|simpl; by rewrite lookup_insert_ne|done]. }
  destruct (br_end _ _ _ H) as (ech0 & HE0 & [O1 O2 O3]). simplify_eq.
  change v' with (set_links l (set_chunks (<[E := ech']> (<[c := cch]> (vb_chunks v))) v)).
  apply HQ; [done| |].
  - eapply (buf_rep_relink (set_chunks (<[E := ech']> (<[c := cch]> (vb_chunks v))) v) l c
      (cs ++ [(E, ech')]) cch).
    + rewrite fmap_app. by apply dlist_rotate.
    + simpl. rewrite lookup_insert_ne by done. apply lookup_insert_eq.
    + by split.
    + intros x chx [Hx|[= -> ->]%list_elem_of_singleton]%elem_of_app.
      * destruct (br_chunks _ _ _ H _ _ Hx) as [Hx1 Hx2].
        pose proof (br_ne_end _ _ _ _ _ H Hx). assert (x ≠ c).
        { intros ->. apply Hni. right. apply list_elem_of_fmap. by exists (c, chx). }
        split; [simpl; by rewrite !lookup_insert_ne|]. by apply (chunk_ok_same v).
      * split; [apply lookup_insert_eq|]. split; simpl; try done; try lia. congruence.
    + rewrite csize_app, csize_cons, csize_nil. simpl. rewrite O3. pose proof (br_small _ _ _ H). lia.
  - assert (keeps (c :: E :: cs.*1) v (set_links l v)) as K1.
    { eapply keeps_weaken; [apply keeps_set_links, Hfr|]. intros x. rewrite !elem_of_cons. naive_solver. }
    eapply (keeps_trans _ [E]); [done| |
      exact (keeps_upd_chunk (set_chunks (<[c := cch]> (vb_chunks v)) (set_links l v)) E ech')|intros y ->%list_elem_of_singleton; left; right; by left].
    eapply (keeps_trans _ [c]); [done|exact K1|apply (keeps_upd_chunk (set_links l v))|].
    intros y ->%list_elem_of_singleton. left. by left.
Qed.
End ends.

(** ** The representation *)

(** A push: its descriptor, the block and the chunk that end it, the user data, and
    the chunks of its data. *)
Record push := Push { pu_k : loc; pu_d : loc; pu_c : loc; pu_ud : ptr; pu_g : list seg }.

(** The chunks of the pushes in order, each but the last followed by its control
    chunk. *)
Fixpoint laid (cs : list seg) (ps : list push) : Prop :=
  match ps with
  | [] => cs = []
  | p :: ps' =>
      match ps' with
      | [] => cs = pu_g p
      | _ => ∃ ch rest, cs = pu_g p ++ (pu_c p, ch) :: rest ∧ laid rest ps'
      end
  end.


Record push_ok (v : vbstate) (m : gmap loc vbuffer_stream_chunk) (self : loc) (p : push) : Prop := {
  po_desc : m !! pu_k p = Some (SChunk (Some (pu_d p)) (Iter (Some (pu_c p)) 0 0 false) (pu_ud p));
  po_ctl : ∃ ch, vb_chunks v !! pu_c p = Some ch ∧ ch_data ch = Some (pu_d p) ∧ fl_ctl (ch_flags ch) = true;
  po_body : push_data v (Some (pu_d p)) self (Some (pu_k p));
  po_plain : no_ctl (pu_g p);
}.

Record stream_rep (s : sstate) (E : loc) (left_ cs : list seg) (ps : list push) : Prop := {
  sr_data : st_data (ss_stream s) = Some E;
  sr_heap : heap_ok (ss_vb s);
  sr_buf : buf_rep (ss_vb s) E (left_ ++ cs);
  sr_laid : laid cs ps;
  sr_end : ∃ ech, vb_chunks (ss_vb s) !! E = Some ech ∧ fl_eof (ch_flags ech) = false ∧
    fl_ctl (ch_flags ech) = true ∧ ch_offset ech = 0 ∧
    match last ps with
    | Some p => pu_c p = E
    | None => left_ = [] ∧ ∀ d, ch_data ech = Some d → push_data (ss_vb s) (Some d) (ss_self s) None
    end;
  sr_left : left_ = [] ∨ ∃ c ch, left_ = [(c, ch)] ∧ fl_ctl (ch_flags ch) = true ∧
    push_data (ss_vb s) (ch_data ch) (ss_self s) None;
  sr_push : Forall (push_ok (ss_vb s) (ss_chunks s) (ss_self s)) ps;
  sr_list : dlist (ss_links s) (st_chunks (ss_stream s)) (pu_k <$> ps);
  sr_read : dlist (ss_links s) (st_read_chunks (ss_stream s)) [];
  sr_heads : st_read_chunks (ss_stream s) ∉ st_chunks (ss_stream s) :: (pu_k <$> ps);
  sr_fresh : ∀ x, is_Some (ss_links s !! x) ∨ is_Some (ss_chunks s !! x) → (x < vb_fresh (ss_vb s))%positive;
}.

Section rep.
Implicit Types v : vbstate.

Lemma laid_snoc p : ∀ ps cs q ch,
  laid cs ps → last ps = Some q → laid (cs ++ (pu_c q, ch) :: pu_g p) (ps ++ [p]).
Proof.
  induction ps as [|x ps IH]; intros cs q ch Hl Hq; [done|].
  destruct ps as [|y ps].
  - simpl in *. simplify_eq. by exists ch, (pu_g p).
  - destruct Hl as (ch' & rest & -> & Hl). specialize (IH rest q ch Hl ltac:(done)).
    exists ch', (rest ++ (pu_c q, ch) :: pu_g p). split; [by rewrite <- app_assoc|done].
Qed.

Lemma laid_group p : ∀ ps cs x, laid cs ps → p ∈ ps → x ∈ pu_g p → x ∈ cs.
Proof.
  induction ps as [|q ps IH]; intros cs x Hl Hp Hx; [by apply elem_of_nil in Hp|].
  destruct ps as [|y ps].
  - simpl in Hl. apply list_elem_of_singleton in Hp as ->. by subst.
  - destruct Hl as (ch & rest & -> & Hl). apply elem_of_app.
    apply elem_of_cons in Hp as [->|Hp]; [by left|right; right; by eapply IH].
Qed.

(** The chunk that ends a push is the end of the buffer or one of its chunks. *)
Lemma laid_ctl p q : ∀ ps cs,
  laid cs ps → last ps = Some q → p ∈ ps → pu_c p = pu_c q ∨ ∃ ch, (pu_c p, ch) ∈ cs.
Proof.
  induction ps as [|x ps IH]; intros cs Hl Hq Hp; [done|]. destruct ps as [|y ps].
  - apply list_elem_of_singleton in Hp as ->. simpl in Hq. simplify_eq. by left.
  - destruct Hl as (ch & rest & -> & Hl). apply elem_of_cons in Hp as [->|Hp].
    + right. exists ch. apply elem_of_app. right. by left.
    + destruct (IH rest Hl Hq Hp) as [?|[ch' ?]]; [by left|right]. exists ch'. apply elem_of_app. right. by right.
Qed.

(** Blocks that keep their bodies keep the bytes of the chunks. *)
Lemma bodies_kept_trans v v1 v2 : bodies_kept v v1 → bodies_kept v1 v2 → bodies_kept v v2.
Proof. intros H1 H2 d dt Hd. destruct (H1 d dt Hd) as [r Hr]. by destruct (H2 d _ Hr) as [r' ?]; eauto. Qed.
Lemma bodies_kept_datas v v' : vb_datas v' = vb_datas v → bodies_kept v v'.
Proof. intros E d [r b] Hd. rewrite E. eauto. Qed.

Lemma push_data_kept v v' d self k : bodies_kept v v' → push_data v d self k → push_data v' d self k.
Proof. intros H (dd & r & -> & Hd). destruct (H _ _ Hd) as [r' ?]. by exists dd, r'. Qed.

(** The block of a chunk outside of the frame. *)
Lemma push_data_frame X v v' c ch d self k :
  keeps X v v' → vb_chunks v !! c = Some ch → ch_data ch = d → c ∉ X →
  push_data v d self k → push_data v' d self k.
Proof.
  intros K Hc Ed Hx (dd & r & -> & Hd).
  destruct (kp_datas _ _ _ K dd _ c ch Hd Hx Hc Ed) as [r' ?]. by exists dd, r'.
Qed.

Lemma push_ok_change v v' m m' self p :
  push_ok v m self p → m' !! pu_k p = m !! pu_k p →
  (∀ ch, vb_chunks v !! pu_c p = Some ch → ∃ ch', vb_chunks v' !! pu_c p = Some ch' ∧
     ch_data ch' = ch_data ch ∧ fl_ctl (ch_flags ch') = fl_ctl (ch_flags ch)) →
  (push_data v (Some (pu_d p)) self (Some (pu_k p)) → push_data v' (Some (pu_d p)) self (Some (pu_k p))) →
  push_ok v' m' self p.
Proof.
  intros [P1 (ch & C1 & C2 & C3) P3 P4] Em Hc Hd. destruct (Hc ch C1) as (ch' & ? & ? & ?).
  split; [congruence| |auto|done]. exists ch'. split_and!; congruence.
Qed.
End rep.
