(* ===== verification/VbStreamPush.v ===== *)
(** * What a stream promises

    Blocks come out in the order they were pushed, with the bytes they have when
    they are popped, and the stream keeps its representation; other buffers are not
    touched. *)

From S2P Require Import Prelude List2 VbHeap VbIter VbSub VbRep VbWalk VbFrame VbMut VbEdit VbClear VbMake VbCtl VbRead VbSpec VbStream VbStreamRep.

(** ** Push *)

(** The heap after [new_descriptor]: the descriptor [k], its block [d] and its chunk
    [c], in no list yet; the end chunk has the block [d0]. *)
Record described (v : vbstate) (E : loc) (cs : list seg) (ech : vbuffer_chunk) (self k d c d0 : loc)
    (v' : vbstate) : Prop := {
  ds_heap : heap_ok v';
  ds_buf : buf_rep v' E cs;
  ds_keeps : keeps [E] v v';
  ds_end : vb_chunks v' !! E = Some (set_data (Some d0) ech);
  ds_end_data : ∀ x, ch_data ech = Some x → d0 = x;
  ds_left : ch_data ech = None → push_data v' (Some d0) self None;
  ds_body : push_data v' (Some d) self (Some k);
  ds_ctl : vb_chunks v' !! c = Some (Chunk 1 (Flags false false false true false) (Some d) 0 0);
  ds_link : vb_links v' !! c = Some (Elem None None);
  ds_new : k = vb_fresh v ∧ (vb_fresh v < c)%positive ∧ (vb_fresh v < vb_fresh v')%positive;
  ds_bodies : bodies_kept v v';
  ds_mem : (vb_mem v ≤ 4 + vb_mem v')%nat;
}.

Section push.
Implicit Types s : sstate.

Lemma runs_new_descriptor s E cs ech Q :
  let v := ss_vb s in
  heap_ok v → buf_rep v E cs → vb_chunks v !! E = Some ech → (4 ≤ vb_mem v)%nat →
  (∀ k d c d0 v', described v E cs ech (ss_self s) k d c d0 v' →
     Q (Some (k, d, c)) (SS v' (<[k := Elem None None]> (ss_links s))
       (<[k := SChunk (Some d) vbuffer_iterator_init None]> (ss_chunks s)) (ss_subs s) (ss_stream s)
       (ss_self s) (ss_cleaned s))) →
  runs (new_descriptor E) s Q.
Proof.
  intros v Ok H HE Hm HQ. unfold new_descriptor. destruct (vb_mem v) as [|[|[|[|n]]]] eqn:Em; try lia.
  vcall runs_malloc; [exact Em|]. set (v1 := take_address (S (S (S n))) v). set (k := vb_fresh v).
  assert (heap_ok v1) as Ok1 by (by apply heap_ok_take).
  apply runs_bind, runs_slnk. unfold list2_elem_init. step. step.
  unfold vbuffer_data_ctl_push. vcall runs_new_data; [done|]. cbn [set_svb set_slinks ss_vb ss_self].
  set (body := vbuffer_data_ctl_push_ops _ _). set (d := vb_fresh v1). set (v2 := add_data body (S (S n)) v1).
  assert (heap_ok v2) as Ok2 by (by apply heap_ok_add_data).
  assert (keeps [] v v2) as K2.
  { eapply (keeps_trans _ []); [done|apply keeps_take|by apply keeps_add_data|by left]. }
  assert (bodies_kept v v2) as B2.
  { intros x [r b] Hx. simpl. pose proof (ho_fresh_data _ Ok _ (mk_is_Some _ _ Hx)).
    rewrite lookup_insert_ne by (unfold d; simpl; lia). eauto. }
  destruct (keeps_buf _ _ _ _ _ Ok K2 H) as [H2 _]; [by intros x _ ?%elem_of_nil|].
  unfold wr_schunk. step.
  call runs_mark_end; cbn [set_svb set_slinks set_schunks ss_vb ss_self ss_chunks ss_links]; [done|exact H2|exact HE|done|].
  intros v3 d0 Ok3 H3 _ K3 HE3 Hm3 Hd3 B3 Hl3. simpl.
  assert (push_data v2 (Some d) (ss_self s) (Some k)) as Hp2.
  { exists d, 0. split; [done|]. apply lookup_insert_eq. }
  pose proof (push_data_kept _ _ _ _ _ B3 Hp2) as (dd & r & [= <-] & Hd).
  simpl in Hm3. destruct (vb_mem v3) as [|n3] eqn:Em3; [lia|].
  vcall runs_chunk_create; [exact Ok3|exact Em3|eexists; exact Hd|lia..|]. step.
  set (c := vb_fresh v3). set (ch := Chunk 1 (Flags false false false true false) (Some d) 0 0).
  assert (heap_ok (add_chunk ch n3 v3)) as Ok4.
  { apply heap_ok_add_chunk; [done..|]. intros ? [= <-]. rewrite Hd. eauto. }
  destruct (keeps_buf _ _ _ _ _ Ok3 (keeps_add_chunk v3 ch n3) H3) as [H4 _]; [by intros x _ ?%elem_of_nil|].
  pose proof (kp_fresh _ _ _ K3) as Hf. simpl in Hf.
  assert (vb_fresh v < c)%positive as Hkc by (unfold c, v; lia).
  apply (HQ k d c d0 (add_chunk ch n3 v3)). split; try done.
  - eapply (keeps_trans _ []); [done| |apply keeps_add_chunk|by intros y ?%elem_of_nil].
    eapply (keeps_trans _ [E]); [done|eapply keeps_weaken; [exact K2|by intros x ?%elem_of_nil]|exact K3|by left].
  - simpl. rewrite lookup_insert_ne; [done|]. intros Ec.
    pose proof (ho_fresh_chunk _ Ok E (mk_is_Some _ _ HE)). fold c in Ec. fold v in Hkc. lia.
  - intros Hn. eapply push_data_kept; [apply bodies_add_chunk|auto].
  - eapply push_data_kept; [apply bodies_add_chunk|by exists d, r].
  - apply lookup_insert_eq.
  - apply lookup_insert_eq.
  - split_and!; [done|done|]. simpl. unfold c, v in *. lia.
  - eapply bodies_kept_trans; [exact B2|]. eapply bodies_kept_trans; [exact B3|apply bodies_add_chunk].
  - simpl in *. unfold v in *. lia.
Qed.
End push.

(** The state after a push: the steps of [vbuffer_stream_push] on the heap and on the
    links of the descriptors. *)
Section grown.
Context (s : sstate) (E : loc) (lf cs : list seg) (ps : list push) (ech : vbuffer_chunk)
  (e2 : loc) (cs2 : list seg) (ud : ptr) (k d c d0 : loc) (v4 v7 : vbstate) (l5 l6 lk : lmem) (w : bool).
Let v : vbstate := ss_vb s.
Let st : vbuffer_stream := ss_stream s.
Let ech' : vbuffer_chunk := set_eof false (set_end false (set_data (Some d0) ech)).
Let cch : vbuffer_chunk := set_writable w (set_ctl true (set_flags (ch_flags ech)
  (Chunk 1 (Flags false false false true false) (Some d) 0 0))).
Let v5 : vbstate := set_links l5 (set_chunks (<[E := ech']> (<[c := cch]> (vb_chunks v4))) v4).
Let v6 : vbstate := set_links l6 v5.
Let p : push := Push k d c ud cs2.
Let lf' : list seg := match ps with [] => [(E, ech')] | _ => lf end.
Let cs' : list seg := match ps with [] => cs2 | _ => cs ++ (E, ech') :: cs2 end.
Let s' : sstate := SS v7 lk (<[k := SChunk (Some d) (Iter (Some c) 0 0 false) ud]> (ss_chunks s)) (ss_subs s)
  (Stream (Some c) (st_chunks st) (st_read_chunks st) (st_userdata_cleanup st)) (ss_self s) (ss_cleaned s).
Hypothesis R : stream_rep s E lf cs ps.
Hypothesis HE : vb_chunks v !! E = Some ech.
Hypothesis H2 : buf_rep v e2 cs2.
Hypothesis Hpl : no_ctl cs2.
Hypothesis Hne : e2 ≠ E.
Hypothesis D : described v E (lf ++ cs) ech (ss_self s) k d c d0 v4.
Hypothesis K5 : keeps (c :: E :: (lf ++ cs).*1) v4 v5.
Hypothesis Ok6 : heap_ok v6.
Hypothesis R6 : buf_rep v6 c ((lf ++ cs) ++ (E, ech') :: cs2).
Hypothesis R62 : buf_rep v6 e2 [].
Hypothesis K6 : keeps ((c :: ((lf ++ cs) ++ [(E, ech')]).*1) ++ e2 :: cs2.*1) v5 v6.
Hypothesis Rl : released v6 e2 [] v7.
Hypothesis Hlk : dlist lk (st_chunks st) ((pu_k <$> ps) ++ [k]).
Hypothesis Hfr : frame (st_chunks st :: k :: (pu_k <$> ps)) (<[k := Elem None None]> (ss_links s)) lk.
#[local] Set Default Proof Using "All".

Lemma grown_fresh x : (x < vb_fresh v)%positive → x ≠ k ∧ x ≠ c.
Proof. intros Hx. destruct (ds_new _ _ _ _ _ _ _ _ _ _ D) as (-> & ? & ?). split; lia. Qed.

Lemma grown_bodies : bodies_kept v v6.
Proof.
  eapply bodies_kept_trans; [apply (ds_bodies _ _ _ _ _ _ _ _ _ _ D)|]. by apply bodies_kept_datas.
Qed.

Lemma grown_keeps : keeps ((E :: (lf ++ cs).*1) ++ e2 :: cs2.*1) v v7.
Proof.
  destruct R as [_ Ok _ _ _ _ _ _ _ _ _]. destruct (ds_new _ _ _ _ _ _ _ _ _ _ D) as (_ & Hc & _).
  eapply (keeps_trans _ [e2]); [done| |apply (rl_keeps _ _ _ _ Rl)|].
  2:{ intros y ->%list_elem_of_singleton. left. apply elem_of_app. right. by left. }
  eapply keeps_trans; [done| |exact K6|].
  2:{ intros y. rewrite elem_of_app, elem_of_cons, fmap_app. cbn [fmap list_fmap fst].
      rewrite elem_of_app, list_elem_of_singleton.
      intros [[->|[Hy| ->]]|Hy]; [right; lia|left|left|left]; apply elem_of_app; [left; by right|left; by left|by right]. }
  eapply keeps_trans; [done| |exact K5|].
  2:{ intros y [->|Hy]%elem_of_cons; [right; lia|left; apply elem_of_app; by left]. }
  eapply keeps_weaken; [apply (ds_keeps _ _ _ _ _ _ _ _ _ _ D)|].
  intros x ->%list_elem_of_singleton. by left.
Qed.

(** Chunks that are neither an old nor a new end are as they were. *)
Lemma grown_lookup x : x ≠ E → x ≠ e2 → (x < vb_fresh v)%positive →
  vb_chunks v7 !! x = vb_chunks v !! x.
Proof.
  intros Hx Hx2 Hf. destruct (grown_fresh x Hf) as [_ Hc].
  destruct (ds_new _ _ _ _ _ _ _ _ _ _ D) as (_ & _ & Hv).
  rewrite (kp_chunks _ _ _ (rl_keeps _ _ _ _ Rl)).
  - simpl. rewrite !lookup_insert_ne by done. apply (kp_chunks _ _ _ (ds_keeps _ _ _ _ _ _ _ _ _ _ D)); [|done].
    by intros ->%list_elem_of_singleton.
  - by intros ->%list_elem_of_singleton.
  - simpl. lia.
Qed.

Lemma grown_c : c ≠ E ∧ c ≠ e2.
Proof.
  destruct R as [_ Ok _ _ _ _ _ _ _ _ _].
  pose proof (ho_fresh_chunk _ Ok E (mk_is_Some _ _ HE)) as HfE.
  assert (e2 < vb_fresh v)%positive as He2 by (eapply (br_fresh _ _ _ _ Ok H2); by left).
  destruct (grown_fresh _ HfE), (grown_fresh _ He2). done.
Qed.

Lemma grown_end : vb_chunks v7 !! E = Some ech' ∧ vb_chunks v7 !! c = Some cch.
Proof.
  destruct grown_c as [HcE Hc2]. destruct R as [_ Ok _ _ _ _ _ _ _ _ _].
  destruct (ds_new _ _ _ _ _ _ _ _ _ _ D) as (_ & _ & Hv).
  pose proof (ho_fresh_chunk _ Ok E (mk_is_Some _ _ HE)) as HfE.
  assert (vb_chunks v6 !! c = Some cch) as Hc6 by (simpl; rewrite lookup_insert_ne by done; apply lookup_insert_eq).
  pose proof (ho_fresh_chunk _ Ok6 c (mk_is_Some _ _ Hc6)).
  split; (rewrite (kp_chunks _ _ _ (rl_keeps _ _ _ _ Rl)); [|by intros ->%list_elem_of_singleton|]).
  - apply lookup_insert_eq.
  - simpl. fold v in HfE. lia.
  - done.
  - done.
Qed.
Lemma grown_buf : buf_rep v7 c ((lf ++ cs) ++ (E, ech') :: cs2) ∧
  content v7 ((lf ++ cs) ++ (E, ech') :: cs2) = content v6 ((lf ++ cs) ++ (E, ech') :: cs2).
Proof.
  destruct grown_c as [_ Hc2]. eapply keeps_buf; [exact Ok6|apply (rl_keeps _ _ _ _ Rl)|exact R6|].
  intros x Hx Hx2. revert Hx. apply (buf_disjoint v6 e2 [] c _ x R62 R6); [done|]. simpl in *. done.
Qed.

Lemma grown_bytes x ch : (x, ch) ∈ cs ++ cs2 → chunk_bytes v7 ch = chunk_bytes v ch.
Proof.
  intros Hi. assert (chunk_ok v ch) as Ov.
  { apply elem_of_app in Hi as [Hi|Hi]; [|by eapply br_ok].
    eapply br_ok; [apply (sr_buf _ _ _ _ _ R)|apply elem_of_app; by right]. }
  assert (chunk_bytes v6 ch = chunk_bytes v ch) as <-.
  { apply chunk_ok_kept; [|done]. intros y dt _ Hy. by apply grown_bodies. }
  assert ((x, ch) ∈ (lf ++ cs) ++ (E, ech') :: cs2) as Hi6.
  { apply elem_of_app in Hi as [Hi|Hi]; rewrite !elem_of_app, elem_of_cons; auto. }
  destruct (br_chunks _ _ _ R6 _ _ Hi6) as [Hx Ox]. apply chunk_ok_kept; [|done].
  intros y dt Hy Hd. eapply (kp_datas _ _ _ (rl_keeps _ _ _ _ Rl)); [done| |exact Hx|done].
  intros ->%list_elem_of_singleton. destruct grown_c as [_ Hc2].
  eapply (buf_disjoint v6 c _ e2 [] e2 R6 R62); [done| |by left]. right.
  apply list_elem_of_fmap. by exists (e2, ch).
Qed.

(** The block of a chunk that is in neither buffer's end. *)
Lemma grown_block x ch ch' kk :
  vb_chunks v !! x = Some ch → vb_chunks v7 !! x = Some ch' → ch_data ch' = ch_data ch → x ≠ e2 →
  push_data v (ch_data ch) (ss_self s) kk → push_data v7 (ch_data ch) (ss_self s) kk.
Proof.
  intros Hx Hx7 Ed Hx2 Hd. pose proof (ho_fresh_chunk _ (sr_heap _ _ _ _ _ R) _ (mk_is_Some _ _ Hx)) as Hf.
  apply (push_data_kept _ _ _ _ _ grown_bodies) in Hd.
  eapply (push_data_frame [e2] v6 v7 x ch'); [apply (rl_keeps _ _ _ _ Rl)| |congruence| |exact Hd].
  - rewrite <- Hx7. symmetry. apply (kp_chunks _ _ _ (rl_keeps _ _ _ _ Rl)).
    + by intros ?%list_elem_of_singleton.
    + simpl. destruct (ds_new _ _ _ _ _ _ _ _ _ _ D) as (_ & _ & ?). fold v in Hf. lia.
  - by intros ?%list_elem_of_singleton.
Qed.

(** The control chunk of an old push. *)
Lemma grown_ctl q : q ∈ ps → pu_c q ≠ e2 ∧ (pu_c q ≠ E ∨ last ps ≠ None).
Proof.
  intros Hq. destruct R as [_ Ok Hb Hl (ech0 & _ & _ & _ & _ & Hlast) _ _ _ _ _ _].
  destruct (last ps) as [z|] eqn:Ez; [|apply last_None in Ez; subst; by apply elem_of_nil in Hq].
  split; [|by right]. intros Ee. eapply (buf_disjoint v E _ e2 cs2 e2 Hb H2); [congruence| |by left].
  rewrite <- Ee. destruct (laid_ctl q z _ _ Hl Ez Hq) as [Hc|[ch Hi]]; [rewrite Hc, Hlast; by left|].
  right. apply list_elem_of_fmap. exists (pu_c q, ch). split; [done|]. apply elem_of_app. by right.
Qed.

Lemma grown_old q : q ∈ ps → push_ok v7 (ss_chunks s') (ss_self s) q.
Proof.
  intros Hq. destruct R as [_ Ok _ _ _ _ Hp _ _ _ Hfs].
  rewrite Forall_forall in Hp. specialize (Hp q Hq). pose proof Hp as [P1 (ch & C1 & C2 & C3) P3 P4].
  destruct (grown_ctl q Hq) as [Hq2 _]. pose proof (ho_fresh_chunk _ Ok _ (mk_is_Some _ _ C1)) as Hf.
  assert (∃ ch', vb_chunks v7 !! pu_c q = Some ch' ∧ ch_data ch' = ch_data ch ∧
    fl_ctl (ch_flags ch') = fl_ctl (ch_flags ch)) as (ch' & N1 & N2 & N3).
  { destruct (decide (pu_c q = E)) as [Ec|Ec].
    - exists ech'. assert (ch = ech) as -> by (unfold v in HE; congruence). rewrite Ec.
      split_and!; [apply grown_end| |done].
      simpl. by rewrite (ds_end_data _ _ _ _ _ _ _ _ _ _ D _ C2).
    - exists ch. rewrite grown_lookup by done. done. }
  eapply push_ok_change; [exact Hp| | |].
  - simpl. rewrite lookup_insert_ne; [done|]. intros Ek.
    destruct (grown_fresh (pu_k q)) as [? _]; [|done]. apply Hfs. right. rewrite P1. eauto.
  - intros ch0 Hc0. assert (ch0 = ch) as -> by (unfold v in Hc0; congruence). by exists ch'.
  - rewrite <- C2. by eapply grown_block.
Qed.

Lemma grown_data x kk :
  x = d ∨ x = d0 → push_data v4 (Some x) (ss_self s) kk → push_data v7 (Some x) (ss_self s) kk.
Proof.
  intros Hx Hd. destruct grown_c as [HcE Hc2].
  destruct (ds_new _ _ _ _ _ _ _ _ _ _ D) as (_ & _ & Hv).
  destruct Hx as [->| ->].
  - eapply (push_data_frame [e2] v6 v7 c cch); [apply (rl_keeps _ _ _ _ Rl)| |done| |exact Hd].
    + simpl. rewrite lookup_insert_ne by done. apply lookup_insert_eq.
    + by intros ?%list_elem_of_singleton.
  - eapply (push_data_frame [e2] v6 v7 E ech'); [apply (rl_keeps _ _ _ _ Rl)|apply lookup_insert_eq|done| |exact Hd].
    intros ?%list_elem_of_singleton. done.
Qed.

(** The left-over end chunk keeps its block. *)
Lemma grown_left_over :
  (last ps = None → push_data v7 (Some d0) (ss_self s) None) ∧
  (∀ x ch, lf = [(x, ch)] → push_data v (ch_data ch) (ss_self s) None → push_data v7 (ch_data ch) (ss_self s) None).
Proof.
  destruct R as [_ Ok HB _ (ech0 & HE0 & _ & _ & _ & Hlast) _ _ _ _ _ _]. split.
  - intros Hn. rewrite Hn in Hlast. destruct Hlast as [_ Hlast].
    assert (ech0 = ech) as -> by (unfold v in HE; congruence). apply grown_data; [by right|].
    destruct (ch_data ech) as [x|] eqn:Ed; [|by apply (ds_left _ _ _ _ _ _ _ _ _ _ D)].
    rewrite (ds_end_data _ _ _ _ _ _ _ _ _ _ D x Ed).
    eapply push_data_kept; [apply (ds_bodies _ _ _ _ _ _ _ _ _ _ D)|by apply Hlast].
  - intros x ch Elf Hd. assert ((x, ch) ∈ lf ++ cs) as Hi by (apply elem_of_app; left; rewrite Elf; by left).
    assert (x ∈ E :: (lf ++ cs).*1) as Hin by (right; apply list_elem_of_fmap; by exists (x, ch)).
    pose proof (br_lookup _ _ _ _ _ HB Hi) as Hxv. pose proof (br_ne_end _ _ _ _ _ HB Hi).
    assert (x ≠ e2).
    { intros Ee. rewrite Ee in Hin. eapply (buf_disjoint v E _ e2 cs2 e2 HB H2); [congruence|done|by left]. }
    eapply (grown_block x ch ch); try done. rewrite grown_lookup; try done. by eapply (br_fresh _ _ _ _ Ok HB).
Qed.

Lemma grown_links : dlist lk (st_read_chunks st) [] ∧ st_read_chunks st ∉ st_chunks st :: ((pu_k <$> ps) ++ [k]) ∧
  ∀ x, is_Some (lk !! x) → x = k ∨ is_Some (ss_links s !! x).
Proof.
  destruct R as [_ _ _ _ _ _ _ HL HR Hh Hfs]. destruct Hfr as [Hso _].
  assert (st_read_chunks st ≠ k) as Hrk.
  { apply grown_fresh, Hfs. left. eapply dlist_alloc; [exact HR|by left]. }
  assert (st_read_chunks st ∉ st_chunks st :: ((pu_k <$> ps) ++ [k])) as Hh'.
  { rewrite elem_of_cons, elem_of_app, list_elem_of_singleton. fold st in Hh.
    rewrite elem_of_cons in Hh. naive_solver. }
  split_and!; [|done|].
  - eapply dlist_same_out; [exact Hso| |].
    { intros x ->%list_elem_of_singleton Hx. apply Hh'. rewrite !elem_of_cons in *. rewrite elem_of_app, list_elem_of_singleton. naive_solver. }
    eapply (dlist_same_out (ss_links s) _ _ _ [k]); [| |exact HR].
    + intros x Hx. rewrite lookup_insert_ne; [done|]. intros ->. apply Hx. by left.
    + intros x ->%list_elem_of_singleton ?%list_elem_of_singleton. done.
  - intros x Hx. destruct (decide (x ∈ st_chunks st :: k :: (pu_k <$> ps))) as [Hi|Hi].
    + apply elem_of_cons in Hi as [->|[->|Hi]%elem_of_cons]; [right|by left|right];
        (eapply dlist_alloc; [exact HL|]); [by left|by right].
    + rewrite (Hso x Hi) in Hx. destruct (decide (x = k)) as [->|?]; [by left|right].
      by rewrite lookup_insert_ne in Hx.
Qed.

Lemma grown_rep : stream_rep s' c lf' cs' (ps ++ [p]).
Proof.
  destruct grown_buf as [Hb _]. destruct grown_end as [HE7 Hc7]. destruct grown_links as (L1 & L2 & L3).
  pose proof R as [R1 Ok _ Hl (ech0 & HE0 & Eof & Ectl & Eoff & Hlast) Hleft Hp _ _ _ Hfs].
  assert (ech0 = ech) as -> by (unfold v in HE; congruence). split; simpl; try done.
  - apply Rl.
  - unfold lf', cs'. destruct ps as [|q ps']; [|by rewrite <- app_assoc in Hb].
    simpl in Hl, Hlast. destruct Hlast as [-> _]. subst cs. exact Hb.
  - unfold cs'. destruct ps as [|q ps'] eqn:Eps; [done|]. rewrite <- Eps in *.
    destruct (last ps) as [z|] eqn:Ez; [|apply last_None in Ez; congruence].
    pose proof (laid_snoc p ps cs z ech' Hl Ez) as HS. rewrite Hlast in HS. exact HS.
  - exists cch. rewrite last_snoc. split_and!; try done. 
  - unfold lf'. pose proof grown_left_over as [G1 G2]. destruct ps as [|q ps'].
    + right. exists E, ech'. split_and!; [done|done|]. by apply G1.
    + destruct Hleft as [?|(x & ch & Elf & Hx & Hd)]; [by left|right]. exists x, ch. split_and!; [done..|].
      by apply (G2 x).
  - apply Forall_app. split.
    + apply Forall_forall. intros q Hq. by apply grown_old.
    + apply Forall_singleton. split; simpl; try done.
      * apply lookup_insert_eq.
      * by exists cch.
      * apply grown_data; [by left|apply (ds_body _ _ _ _ _ _ _ _ _ _ D)].
  - by rewrite fmap_app.
  - by rewrite fmap_app.
  - destruct (ds_new _ _ _ _ _ _ _ _ _ _ D) as (Hk & _ & Hv).
    pose proof (kp_fresh _ _ _ (rl_keeps _ _ _ _ Rl)) as Hv7. simpl in Hv7.
    intros x [Hx|Hx].
    + destruct (L3 x Hx) as [->|Hy]; [rewrite Hk; lia|]. pose proof (Hfs x (or_introl Hy)). fold v in H. lia.
    + destruct (decide (x = k)) as [->|?]; [rewrite Hk; lia|]. rewrite lookup_insert_ne in Hx by done.
      pose proof (Hfs x (or_intror Hx)). fold v in H. lia.
Qed.
End grown.


Section push_runs.
Implicit Types s : sstate.

Lemma runs_push_position v e2 cs2 c it Q :
  buf_rep v e2 cs2 →
  Q (Some (Iter (Some (chunk_at c cs2)) 0 (if bool_decide (cs2 = []) then 0 else it_meter it) false)) v →
  runs (push_position (Some e2) c (Some it)) v Q.
Proof.
  intros H HQ. unfold push_position, vbuffer_isempty. apply runs_bind. step.
  call runs_lnk_next; [by eapply dlist_begin, (br_list _ _ _ H)|]. step.
  destruct cs2 as [|[x ch] cs2].
  - rewrite bool_decide_true by done. call runs_iter_update; [done|lia|]. by step.
  - rewrite bool_decide_false.
    + call runs_vbuffer_begin; [exact H|]. by step.
    + unfold chunk_at. simpl. intros [= ->]. eapply (br_ne_end _ _ _ e2 ch H); [by left|done].
Qed.

Lemma runs_stream_push s E lf cs ps e2 cs2 ud cur Q :
  stream_rep s E lf cs ps → buf_rep (ss_vb s) e2 cs2 → no_ctl cs2 → e2 ≠ E →
  (4 ≤ vb_mem (ss_vb s))%nat → csize (lf ++ cs) + csize cs2 < 2 ^ 32 →
  (∀ s' E' lf' cs' p it, stream_rep s' E' lf' cs' (ps ++ [p]) → pu_g p = cs2 → pu_ud p = ud →
     csize (lf' ++ cs') = csize (lf ++ cs) + csize cs2 →
     (∀ c ch, (c, ch) ∈ cs ++ cs2 → chunk_bytes (ss_vb s') ch = chunk_bytes (ss_vb s) ch) →
     keeps ((E :: (lf ++ cs).*1) ++ e2 :: cs2.*1) (ss_vb s) (ss_vb s') →
     (vb_mem (ss_vb s) ≤ 4 + vb_mem (ss_vb s'))%nat →
     st_userdata_cleanup (ss_stream s') = st_userdata_cleanup (ss_stream s) →
     (∀ it0, cur = Some it0 → ∃ c m, it = Some (Iter (Some c) 0 m false) ∧
        pos_of E' (lf' ++ cs') c 0 (csize (lf ++ cs))) →
     Q (true, None, it) s') →
  runs (vbuffer_stream_push (Some e2) ud cur) s Q.
Proof.
  intros R H2 Hpl Hne Hm Hs HQ. unfold vbuffer_stream_push.
  pose proof R as [R1 Ok HB Hl (ech & HE & Eof & Ectl & Eoff & Hlast) Hleft Hp HL _ _ Hfs].
  step. rewrite R1. apply runs_bind, runs_on_vb. unfold vbuffer_chunk_end at 1. step. rewrite set_svb_id.
  vcall runs_rd_chunk; [exact HE|]. rewrite set_svb_id, Eof.
  call runs_new_descriptor; [done..|]. intros k d c d0 v4 D. pose proof D as [D1 D2 D3 D4 D5 D6 D7 D8 D9 D10 D11 D12].
  assert (∀ x, x ∈ e2 :: cs2.*1 → x ∉ [E]) as Hd2.
  { intros x Hx ->%list_elem_of_singleton. eapply (buf_disjoint _ e2 cs2 E _ E H2 HB); [done|done|by left]. }
  destruct (keeps_buf _ _ _ _ _ Ok D3 H2 Hd2) as [H24 _].
  destruct (br_end _ _ _ H24) as (ech2 & HE2 & Oe2).
  apply runs_bind, runs_on_vb. unfold vbuffer_iswritable, vbuffer_chunk_end. step.
  call runs_rd_chunk; [exact HE2|]. step. set (w := fl_writable (ch_flags ech2)).
  call runs_move_end; [exact D1|exact D2|exact D4|exact Ectl|by eexists|exact Eoff|exact D8|exact D9|].
  intros l5 v5 Ok5 R5 K5 st. cbn [set_svb set_stream ss_vb ss_stream] in *.
  set (s5 := set_stream _ _). destruct D10 as (Dk & Dc & Dv).
  assert (c ≠ e2) as Hce2.
  { intros ->. pose proof (br_fresh _ _ _ e2 Ok H2 ltac:(by left)). lia. }
  assert (buf_rep v5 e2 cs2) as H25.
  { eapply keeps_buf; [exact D1|exact K5|exact H24|]. intros x Hx [->|HxE]%elem_of_cons.
    - pose proof (br_fresh _ _ _ _ Ok H2 Hx). lia.
    - by eapply (buf_disjoint v4 e2 cs2 E _ x H24 D2). }
  assert (∀ Q', (∀ it, (∀ it0, cur = Some it0 → ∃ m, it = Some (Iter (Some (chunk_at c cs2)) 0 m false)) → Q' it s5) →
    runs (on_vb (push_position (Some e2) c cur)) s5 Q') as Hpos.
  { intros Q' HQ'. apply runs_on_vb. destruct cur as [it0|].
    - eapply runs_push_position; [exact H25|]. apply HQ'. eauto.
    - unfold push_position. step. by apply HQ'. }
  call Hpos. intros it Hit.
  vcall runs_chunk_begin; [exact H25|]. apply runs_bind, runs_on_vb. step.
  cbn [set_svb ss_vb ss_stream s5 set_stream].
  assert (csize ((lf ++ cs) ++ [(E, set_eof false (set_end false (set_data (Some d0) ech)))]) = csize (lf ++ cs)) as Hsz.
  { rewrite csize_app, csize_cons, csize_nil. destruct (br_end _ _ _ HB) as (? & HE' & [_ _ Hz]). simplify_eq. simpl. lia. }
  apply runs_bind, runs_on_vb. eapply (runs_splice v5 c _ [] e2 cs2); [exact Ok5|by rewrite app_nil_r|exact H25|done| |].
  { rewrite app_nil_r, Hsz. done. }
  intros _ l6 v6 Ok6 R6 R62 K6. rewrite app_nil_r in R6, K6. rewrite <- app_assoc in R6.
  assert (vb_fresh (ss_vb s) ∉ st_chunks (ss_stream s) :: (pu_k <$> ps)) as Hkn.
  { intros Hi. pose proof (Hfs _ (or_introl (dlist_alloc _ _ _ _ HL Hi))). lia. }
  apply runs_bind, runs_slnk. eapply runs_mono.
  { eapply (list2_insert_spec _ (st_chunks (ss_stream s)) (pu_k <$> ps) [] k); [|apply lookup_insert_eq].
    rewrite app_nil_r. eapply dlist_same_out; [| |exact HL]; [intros x Hx; apply lookup_insert_ne; intros ->; apply Hx; by left|].
    intros x Hx ->%list_elem_of_singleton. by subst k. }
  intros _ lk (_ & Hlk & Hfr). rewrite app_nil_r in Hfr. cbn [set_svb set_slinks ss_vb ss_stream set_stream].
  vcall runs_clear; [exact Ok6|exact R62|]. intros v7 Rl.
  vcall runs_iter_update; [done|lia|]. unfold wr_schunk. step. step.
  unfold set_schunks, s5. cbn [set_svb set_slinks set_stream ss_vb ss_links ss_chunks ss_subs ss_stream ss_self ss_cleaned st_chunks st_read_chunks st_userdata_cleanup].
  rewrite insert_insert_eq.
  pose proof (grown_rep s E lf cs ps ech e2 cs2 ud k d c d0 v4 v7 l5 l6 lk w R HE H2 Hpl Hne D K5 Ok6 R6 R62 K6 Rl Hlk Hfr) as GR.
  set (ech' := set_eof false (set_end false (set_data (Some d0) ech))) in *.
  set (lf' := match ps with [] => _ | _ => _ end) in GR. set (cs' := match ps with [] => _ | _ => _ end) in GR.
  assert (lf' ++ cs' = (lf ++ cs) ++ (E, ech') :: cs2) as Eall.
  { unfold lf', cs'. destruct ps; [|by rewrite <- app_assoc]. simpl in Hl, Hlast. destruct Hlast as [-> _].
    by rewrite Hl. }
  assert (csize ((lf ++ cs) ++ (E, ech') :: cs2) = csize (lf ++ cs) + csize cs2) as Esz.
  { rewrite csize_app, csize_cons, csize_nil in Hsz. rewrite csize_app, csize_cons. lia. }
  eapply (HQ _ _ _ _ _ _ GR); try done.
  - by rewrite Eall.
  - intros x ch Hi.
    by eapply (grown_bytes s E lf cs ps ech e2 cs2 ud k d c d0 v4 v7 l5 l6 lk w R HE H2 Hpl Hne D K5 Ok6 R6 R62 K6 Rl Hlk Hfr).
  - by eapply (grown_keeps s E lf cs ps ech e2 cs2 ud k d c d0 v4 v7 l5 l6 lk w R HE H2 Hpl Hne D K5 Ok6 R6 R62 K6 Rl Hlk Hfr).
  - pose proof (rl_mem _ _ _ _ Rl). simpl in *. lia.
  - intros it0 Ecur. destruct (Hit it0 Ecur) as [m ->]. exists (chunk_at c cs2), m. split; [done|].
    rewrite Eall. replace (csize (lf ++ cs)) with (csize ((lf ++ cs) ++ [(E, ech')])) by exact Hsz.
    rewrite (cons_middle (E, ech')), app_assoc. apply pos_of_suffix. by eapply br_nonneg.
Qed.
End push_runs.
