(* ===== verification/VbStreamPop.v ===== *)
(** * Popping from a stream

    The walk of [vbuffer_stream_pop] over the chunks of the oldest push, and the state
    of the stream after each of its steps. *)

From S2P Require Import Prelude List2 VbHeap VbIter VbSub VbRep VbWalk VbFrame VbMut VbEdit VbClear VbMake VbCtl VbStream VbStreamRep.

(** ** The pushes in the buffer *)

Definition touch_push (m : bool) (ps : list push) : list push :=
  match ps with
  | [] => []
  | p :: ps => Push (pu_k p) (pu_d p) (pu_c p) (pu_ud p) (touch m (pu_g p)) :: ps
  end.

(** The part of the representation of a stream that is about its buffer, when there
    is a push; [l1] is what is in front of the first one. *)
Record queued (v : vbstate) (m : gmap loc vbuffer_stream_chunk) (self E : loc) (l1 cs : list seg)
    (ps : list push) : Prop := {
  qu_heap : heap_ok v;
  qu_buf : buf_rep v E (l1 ++ cs);
  qu_laid : laid cs ps;
  qu_end : ∃ ech q, vb_chunks v !! E = Some ech ∧ fl_eof (ch_flags ech) = false ∧
    fl_ctl (ch_flags ech) = true ∧ ch_offset ech = 0 ∧ last ps = Some q ∧ pu_c q = E;
  qu_push : Forall (push_ok v m self) ps;
}.

Section queued.
Implicit Types v : vbstate.
Context (m : gmap loc vbuffer_stream_chunk) (self : loc).

Lemma queued_ctl v E l1 cs ps q : queued v m self E l1 cs ps → q ∈ ps → pu_c q ∈ E :: (l1 ++ cs).*1.
Proof.
  intros [_ _ Hl (ech & z & _ & _ & _ & _ & Hz & <-) _] Hq.
  destruct (laid_ctl q z ps cs Hl Hz Hq) as [->|[ch Hi]]; [by left|].
  right. apply list_elem_of_fmap. exists (pu_c q, ch). split; [done|]. apply elem_of_app. by right.
Qed.

Lemma queued_frame X v v' E l1 cs ps :
  keeps X v v' → heap_ok v' → (∀ x, x ∈ E :: (l1 ++ cs).*1 → x ∉ X) →
  queued v m self E l1 cs ps → queued v' m self E l1 cs ps.
Proof.
  intros K Ok' Hx H. pose proof H as [Ok Hb Hl (ech & z & HE & H1 & H2 & H3 & H4 & H5) Hp].
  assert (∀ x, x ∈ E :: (l1 ++ cs).*1 → vb_chunks v' !! x = vb_chunks v !! x) as Hc.
  { intros x Hi. apply (kp_chunks _ _ _ K); [by apply Hx|]. by eapply (br_fresh _ _ _ _ Ok Hb). }
  split; [done| |done| |].
  - by eapply keeps_buf.
  - exists ech, z. rewrite Hc by (by left). split_and!; done.
  - apply Forall_forall. intros q Hq. pose proof (queued_ctl _ _ _ _ _ _ H Hq) as Hi.
    rewrite Forall_forall in Hp. specialize (Hp q Hq). pose proof Hp as [_ (ch & C1 & C2 & _) _ _].
    eapply push_ok_change; [exact Hp|done| |].
    + intros ch0 Hch. rewrite Hc by done. eauto.
    + intros Hd. eapply push_data_frame; [exact K|exact C1|exact C2|by apply Hx|done].
Qed.

Lemma laid_touch mm ps cs : laid cs ps → laid (touch mm cs) (touch_push mm ps).
Proof.
  destruct ps as [|p ps]; intros Hl; simpl in *; [by subst|]. destruct ps as [|q ps]; [by subst cs|].
  destruct Hl as (ch & rest & -> & Hl). destruct (pu_g p) as [|[c0 ch0] g]; simpl; eauto.
Qed.

Lemma touch_push_last mm ps q : last ps = Some q → ∃ q', last (touch_push mm ps) = Some q' ∧ pu_c q' = pu_c q.
Proof.
  destruct ps as [|p ps]; [done|]. destruct ps as [|z ps]; simpl; intros H; [|eauto].
  injection H as <-. eauto.
Qed.

Lemma touch_push_ok v mm ps :
  Forall (push_ok v m self) ps → Forall (push_ok v m self) (touch_push mm ps).
Proof.
  destruct ps as [|p ps]; [done|]. intros [[P1 P2 P3 P4] Hp]%Forall_cons. apply Forall_cons. split; [|done].
  split; try done. by apply touch_plain.
Qed.

(** The two places where a control chunk goes: what was left over in front of the
    first push, and the chunk behind the data that was popped. *)
Lemma runs_remove_queued v E c ch cs ps kk Q :
  queued v m self E [(c, ch)] cs ps → fl_ctl (ch_flags ch) = true →
  push_data v (ch_data ch) self kk → (∀ q, q ∈ ps → kk ≠ Some (pu_k q)) →
  (∀ v' mm, removed v E [] c ch cs v' → queued v' m self E [] (touch mm cs) (touch_push mm ps) →
     Q (Some (chunk_at E cs)) v') →
  runs (vbuffer_chunk_remove_ctl c) v Q.
Proof.
  intros H Hctl (dd & r & Ed & Hdd) Hk HQ. pose proof H as [Ok Hb Hl (ech & z & HE & H1 & H2 & H3 & H4 & H5) Hp].
  apply (runs_remove_ctl v E [] c ch cs); [done..|]. intros v' R. pose proof R as [R1 R2 _ _ R5 R6 _ _ _ _].
  set (mm := fl_modified (ch_flags ch)) in *. apply (HQ v' mm R).
  pose proof (br_lookup _ _ _ c ch Hb ltac:(by left)) as Hc.
  assert (∀ x chx, x ≠ c → vb_chunks v !! x = Some chx → ∃ chx', vb_chunks v' !! x = Some chx' ∧
    (chx' = chx ∨ chx' = inherit mm chx)) as Hx.
  { intros x chx Hne Hx. rewrite (R5 x Hne). destruct (decide (x = chunk_at E cs)) as [->|?].
    - rewrite lookup_alter_eq, Hx. simpl. eauto.
    - rewrite lookup_alter_ne by done. eauto. }
  split; [done|done|by apply laid_touch| |].
  - destruct (Hx E ech) as (ech' & HE' & Hech); [by intros ->; eapply (br_ne_end _ _ _ c ch Hb); [by left|]|done|].
    destruct (touch_push_last mm ps z H4) as (z' & ? & ?). exists ech', z'.
    destruct Hech as [->| ->]; split_and!; try done; congruence.
  - apply touch_push_ok, Forall_forall. intros q Hq. rewrite Forall_forall in Hp. specialize (Hp q Hq).
    pose proof Hp as [_ (chq & C1 & C2 & _) (dd' & r' & [= <-] & Hd') _].
    assert (pu_c q ≠ c) as Hqc.
    { intros Eq. apply (Hk q Hq). rewrite Eq in C1. congruence. }
    eapply push_ok_change; [exact Hp|done| |].
    + intros chx Hcx. destruct (Hx _ _ Hqc Hcx) as (chx' & ? & [->| ->]); eauto.
    + intros _. destruct (R6 _ _ _ _ Hd' Hqc C1 C2) as [r2 ?]. by exists (pu_d q), r2.
Qed.
End queued.

(** ** The walk to the control chunk *)

(** The bytes and the user data of the pushes. *)
Definition items (v : vbstate) (ps : list push) : list (list Z * ptr) :=
  (λ p, (content v (pu_g p), pu_ud p)) <$> ps.

Section walk.
Implicit Types v : vbstate.

Lemma touch_push_false ps : touch_push false ps = ps.
Proof. destruct ps as [|[k d c u g] ps]; [done|]. simpl. by rewrite touch_false. Qed.

Lemma touch_push_k mm ps : pu_k <$> touch_push mm ps = pu_k <$> ps.
Proof. by destruct ps. Qed.

Lemma items_touch v mm ps : items v (touch_push mm ps) = items v ps.
Proof. destruct ps as [|p ps]; [done|]. unfold items. simpl. by rewrite touch_content. Qed.

(** The bytes of the pushes when the bytes of their chunks are kept. *)
Lemma items_kept v v' cs ps :
  laid cs ps → (∀ c ch, (c, ch) ∈ cs → chunk_bytes v' ch = chunk_bytes v ch) → items v' ps = items v ps.
Proof.
  intros Hl Hb. apply list_fmap_ext. intros i p Hp. f_equal. apply content_kept. intros c ch Hi.
  apply (Hb c). eapply laid_group; [exact Hl| |exact Hi]. by eapply list_elem_of_lookup_2.
Qed.

Lemma removed_bytes v E c ch cs v' x chx :
  buf_rep v E ((c, ch) :: cs) → removed v E [] c ch cs v' → (x, chx) ∈ cs → chunk_bytes v' chx = chunk_bytes v chx.
Proof.
  intros H R Hi. assert ((x, chx) ∈ (c, ch) :: cs) as Hi' by (by right).
  apply chunk_ok_kept; [|by eapply br_ok]. intros d dt Hd Hdt.
  eapply (rm_datas _ _ _ _ _ _ _ R); [done| |by eapply br_lookup|done]. intros ->.
  pose proof (dlist_nodup _ _ _ (br_list _ _ _ H)) as Hnd. simpl in Hnd.
  apply NoDup_cons in Hnd as [_ [Hnd _]%NoDup_cons]. apply Hnd, list_elem_of_fmap. by exists (c, chx).
Qed.

Lemma runs_pop_walk s E d t tch l3 b lo self k : ∀ g l1 fuel Q,
  buf_rep (ss_vb s) E (l1 ++ g ++ l3) → no_ctl g → (length g ≤ fuel)%nat → t = chunk_at E l3 →
  vb_chunks (ss_vb s) !! t = Some tch → ch_data tch = Some d → push_data (ss_vb s) (Some d) self k →
  Q (Some (b, t, None)) s → runs (pop_loop fuel (Some d) b (chunk_at E (g ++ l3)) None lo) s Q.
Proof.
  induction g as [|[c ch] g IH]; intros l1 fuel Q H Hpl Hf Ht Htc Htd Hd HQ.
  - simpl. rewrite <- Ht. destruct fuel; simpl; vcall runs_rd_chunk; try exact Htc;
      rewrite set_svb_id, Htd, bool_decide_true by done; by step.
  - destruct fuel as [|fuel]; [simpl in Hf; lia|].
    destruct (br_at _ _ _ _ _ _ H) as [Hc [O1 _ _ _ O5 _]]. assert (fl_ctl (ch_flags ch) = false) as Ec.
    { apply (Hpl c). by left. }
    destruct (O5 Ec) as (_ & bb & Hbb & _). change (chunk_at E (((c, ch) :: g) ++ l3)) with c. simpl.
    vcall runs_rd_chunk; [exact Hc|]. rewrite set_svb_id, bool_decide_false.
    2:{ intros Ed. rewrite Ed in Hbb. destruct Hd as (dd & r & [= <-] & Hd). unfold basic_bytes in Hbb.
        simpl in Hbb. by rewrite Hd in Hbb. }
    rewrite O1. step. rewrite Ec. simpl. vcall (runs_chunk_next (ss_vb s) E l1); [exact H|].
    rewrite set_svb_id. step. simpl in H. rewrite cons_middle, app_assoc in H. eapply IH; try done.
    + intros x chx Hx. apply (Hpl x). by right.
    + simpl in Hf. lia.
Qed.

(** The control chunk of the first push. *)
Lemma queued_first m self v E l1 cs p ps :
  queued v m self E l1 cs (p :: ps) →
  ∃ l3 ch, cs = pu_g p ++ l3 ∧ chunk_at E l3 = pu_c p ∧ vb_chunks v !! pu_c p = Some ch ∧
    ch_data ch = Some (pu_d p) ∧ fl_ctl (ch_flags ch) = true ∧
    match ps with [] => l3 = [] | _ => ∃ rest, l3 = (pu_c p, ch) :: rest ∧ laid rest ps end.
Proof.
  intros [Ok Hb Hl (ech & z & HE & H1 & H2 & H3 & H4 & H5) Hp].
  apply Forall_cons in Hp as [[_ (ch & C1 & C2 & C3) _ _] _]. destruct ps as [|q ps].
  - simpl in Hl, H4. injection H4 as <-. exists [], ch. rewrite app_nil_r. split_and!; done.
  - destruct Hl as (ch' & rest & -> & Hl). exists ((pu_c p, ch') :: rest), ch.
    assert (ch' = ch) as ->.
    { rewrite app_assoc in Hb. destruct (br_at _ _ _ _ _ _ Hb) as [? _]. congruence. }
    split_and!; try done. eauto.
Qed.

Lemma walk_first s E l1 cs p ps b lo fuel Q :
  queued (ss_vb s) (ss_chunks s) (ss_self s) E l1 cs (p :: ps) → (length cs ≤ fuel)%nat →
  Q (Some (b, pu_c p, None)) s →
  runs (pop_loop fuel (Some (pu_d p)) b (chunk_at E cs) None lo) s Q.
Proof.
  intros H Hf HQ. destruct (queued_first _ _ _ _ _ _ _ _ H) as (l3 & ch & -> & Ec & C1 & C2 & _ & _).
  pose proof H as [_ Hb _ _ [[_ _ P3 P4] _]%Forall_cons]. rewrite length_app in Hf.
  by eapply (runs_pop_walk s E (pu_d p) (pu_c p)); try done; try lia.
Qed.

Lemma runs_pop_scan s E lf cs p ps Q :
  let v := ss_vb s in
  queued v (ss_chunks s) (ss_self s) E lf cs (p :: ps) →
  (lf = [] ∨ ∃ c ch, lf = [(c, ch)] ∧ fl_ctl (ch_flags ch) = true ∧ push_data v (ch_data ch) (ss_self s) None) →
  (∀ v' mm, queued v' (ss_chunks s) (ss_self s) E [] (touch mm cs) (touch_push mm (p :: ps)) →
     items v' (touch_push mm (p :: ps)) = items v (p :: ps) → keeps (E :: (lf ++ cs).*1) v v' →
     vb_mem v' = vb_mem v → vb_fresh v' = vb_fresh v →
     Q (Some (chunk_at E (touch mm cs), pu_c p, None)) (set_svb v' s)) →
  runs (pop_loop (S (size (vb_chunks v))) (Some (pu_d p)) (chunk_at E (lf ++ cs)) (chunk_at E (lf ++ cs)) None false) s Q.
Proof.
  intros v H Hlf HQ. pose proof (br_fuel _ _ _ (qu_buf _ _ _ _ _ _ _ H)) as Hfu. rewrite length_app in Hfu.
  destruct Hlf as [->|(c & ch & -> & Hctl & Hd)].
  - eapply walk_first; [exact H|simpl in *; lia|]. rewrite <- (set_svb_id s).
    specialize (HQ v false). rewrite touch_false, touch_push_false in HQ. apply HQ; try done. apply keeps_refl.
  - pose proof H as [_ Hb _ _ [[_ _ (dd & rr & [= <-] & Hpd) _] _]%Forall_cons].
    pose proof Hd as (x & r & Ex & Hx).
    destruct (br_at _ _ [] _ _ _ Hb) as [Hc [O1 _ _ _ _ _]].
    change (chunk_at E ([(c, ch)] ++ cs)) with c. cbn [pop_loop]. vcall runs_rd_chunk; [exact Hc|].
    rewrite set_svb_id, bool_decide_false.
    2:{ rewrite Ex. intros [= ->]. by rewrite Hx in Hpd. }
    rewrite O1. step. rewrite Hctl. simpl negb. cbv iota. rewrite Ex. step. vcall runs_rd_data; [exact Hx|].
    rewrite set_svb_id. simpl. step. rewrite bool_decide_true by done. simpl.
    vcall (runs_remove_queued (ss_chunks s) (ss_self s) v E c ch cs (p :: ps) None); [exact H|done|done|done|].
    intros v' mm R Hq. step. rewrite bool_decide_true by done.
    pose proof (qu_laid _ _ _ _ _ _ _ H) as Hl. rewrite <- (touch_chunk_at mm).
    change (pu_d p) with (pu_d (Push (pu_k p) (pu_d p) (pu_c p) (pu_ud p) (touch mm (pu_g p)))).
    eapply walk_first; [exact Hq| |].
    + rewrite <- (length_fmap fst), touch_fst, length_fmap. simpl in Hfu. lia.
    + apply HQ; [done| | |apply R|apply R].
      * rewrite items_touch. eapply items_kept; [exact Hl|]. intros y chy Hy. by eapply (removed_bytes v E c ch cs).
      * apply R.
Qed.
End walk.

(** ** Taking the data out *)

(** The buffers outside of [X] keep their chunks and bytes. *)
Definition bufs_kept (X : list loc) (v v' : vbstate) : Prop :=
  ∀ e cs, buf_rep v e cs → (∀ x, x ∈ e :: cs.*1 → x ∉ X) → buf_rep v' e cs ∧ content v' cs = content v cs.

(** The stream after a pop: nothing is left over in front of the first push. *)
Record rest (v : vbstate) (m : gmap loc vbuffer_stream_chunk) (self E : loc) (cs : list seg)
    (ps : list push) : Prop := {
  re_heap : heap_ok v;
  re_buf : buf_rep v E cs;
  re_laid : laid cs ps;
  re_end : ∃ ech, vb_chunks v !! E = Some ech ∧ fl_eof (ch_flags ech) = false ∧
    fl_ctl (ch_flags ech) = true ∧ ch_offset ech = 0 ∧
    match last ps with
    | Some p => pu_c p = E
    | None => ∀ d, ch_data ech = Some d → push_data v (Some d) self None
    end;
  re_push : Forall (push_ok v m self) ps;
}.

Section take.
Implicit Types v : vbstate.

Lemma bufs_kept_keeps X v v' : heap_ok v → keeps X v v' → bufs_kept X v v'.
Proof. intros Ok K e cs H Hx. by eapply keeps_buf. Qed.

Lemma bufs_kept_trans X Y v v1 v2 :
  heap_ok v → bufs_kept X v v1 → bufs_kept Y v1 v2 → (∀ y, y ∈ Y → y ∈ X ∨ (vb_fresh v ≤ y)%positive) →
  bufs_kept X v v2.
Proof.
  intros Ok K1 K2 HY e cs H Hx. destruct (K1 e cs H Hx) as [H1 C1].
  destruct (K2 e cs H1) as [H2 C2]; [|split; [done|congruence]].
  intros x Hi Hy. destruct (HY x Hy) as [?|?]; [by apply (Hx x)|].
  pose proof (br_fresh _ _ _ _ Ok H Hi). lia.
Qed.

Lemma bufs_kept_weaken X Y v v' : bufs_kept X v v' → (∀ x, x ∈ X → x ∈ Y) → bufs_kept Y v v'.
Proof. intros K H e cs Hb Hx. apply K; [done|]. intros x Hi Hy. by apply (Hx x Hi), H. Qed.

Lemma rest_queued v m self E cs ps : ps ≠ [] → queued v m self E [] cs ps → rest v m self E cs ps.
Proof.
  intros Hn [Ok Hb Hl (ech & q & H1 & H2 & H3 & H4 & H5 & H6) Hp]. split; try done.
  exists ech. by rewrite H5.
Qed.

(** A control block is changed: no bytes are in it. *)
Lemma clear_push v d r self k k' :
  heap_ok v → vb_datas v !! d = Some (Data r (vbuffer_data_ctl_push_ops self k)) →
  let v' := set_datas (<[d := Data r (vbuffer_data_ctl_push_ops self k')]> (vb_datas v)) v in
  heap_ok v' ∧ bufs_kept [] v v'.
Proof.
  intros [F1 F2 F3 R D S] Hd v'.
  assert (∀ o b, basic_bytes v o = Some b → basic_bytes v' o = Some b) as Hb.
  { intros [x|] b; [|done]. unfold basic_bytes. simpl. destruct (decide (x = d)) as [->|?].
    - by rewrite Hd.
    - by rewrite lookup_insert_ne. }
  split.
  - split; simpl; try done.
    + intros x [y [[<- _]|[_ Hy]]%lookup_insert_Some]; [apply F3; eauto|apply F3; eauto].
    + intros x dt [[<- <-]|[_ Hy]]%lookup_insert_Some; [apply (R _ _ Hd)|by apply R].
    + intros c ch x Hc Hx. destruct (D c ch x Hc Hx) as [y Hy].
      destruct (decide (x = d)) as [->|?]; [rewrite lookup_insert_eq; eauto|rewrite lookup_insert_ne by done; eauto].
  - intros e cs [L E C Sm] _.
    assert (∀ c ch, (c, ch) ∈ cs → chunk_ok v' ch ∧ chunk_bytes v' ch = chunk_bytes v ch) as Hk.
    { intros c ch Hi. destruct (C c ch Hi) as [_ [O1 O2 O3 O4 O5 O6]]. unfold chunk_bytes.
      destruct (fl_ctl (ch_flags ch)) eqn:Ec.
      - split; [|done]. split; try done; [by rewrite Ec|congruence].
      - destruct (O5 eq_refl) as (? & b & Hbb & ?). rewrite Hbb, (Hb _ _ Hbb). split; [|done].
        split; try done; [congruence|]. intros _. eauto. }
    split; [|apply content_kept; intros c ch Hi; by apply Hk in Hi as [_ ?]].
    split; try done. intros c ch Hi. split; [by apply C|by apply (Hk c)].
Qed.

(** The state after the data of [p] has been taken to the buffer [e']. *)
Record taken v (m : gmap loc vbuffer_stream_chunk) (self E : loc) (cs : list seg) (p : push) (ps : list push)
    (e' : loc) (v' : vbstate) : Prop := {
  tk_buf : buf_rep v' e' (pu_g p);
  tk_content : content v' (pu_g p) = content v (pu_g p);
  tk_kept : bufs_kept (e' :: E :: cs.*1) v v';
  tk_mem : vb_mem v' = vb_mem v;
  tk_fresh : vb_fresh v' = vb_fresh v;
  tk_rest : ∃ cs' mm, rest v' m self E cs' (touch_push mm ps) ∧ items v' (touch_push mm ps) = items v ps ∧
    csize cs' + csize (pu_g p) = csize cs;
}.

(** The data of the last push: the end of the stream stays as what is left over. *)
Lemma take_last v m self E p e' l r k ech :
  let v1 := set_links l v in
  heap_ok v → heap_ok v1 → buf_rep v1 e' (pu_g p) → buf_rep v1 E [] → keeps (e' :: E :: (pu_g p).*1) v v1 →
  vb_chunks v !! E = Some ech → fl_eof (ch_flags ech) = false → fl_ctl (ch_flags ech) = true →
  ch_offset ech = 0 → ch_data ech = Some (pu_d p) →
  vb_datas v !! pu_d p = Some (Data r (vbuffer_data_ctl_push_ops self k)) →
  taken v m self E (pu_g p) p [] e'
    (set_datas (<[pu_d p := Data r (vbuffer_data_ctl_push_ops self None)]> (vb_datas v1)) v1).
Proof.
  intros v1 Ok Ok1 Hb HE K HEc H1 H2 H3 H4 Hd.
  destruct (clear_push v1 (pu_d p) r self k None Ok1 Hd) as [Ok2 B2].
  destruct (B2 e' _ Hb) as [Hb2 Cb2]; [by intros x _ ?%elem_of_nil|].
  destruct (B2 E [] HE) as [HE2 _]; [by intros x _ ?%elem_of_nil|].
  split; [done|done| |done|done|].
  - eapply bufs_kept_trans; [done|by apply bufs_kept_keeps|exact B2|by intros y ?%elem_of_nil].
  - exists [], false. split_and!; try done. split; try done. exists ech. split_and!; try done. simpl.
    intros d Hd2. assert (d = pu_d p) as -> by congruence. exists (pu_d p), r. split; [done|]. apply lookup_insert_eq.
Qed.

(** The data of an older push: its control chunk goes. *)
Lemma take_first v m self E p q ps e' l ch rest_ v' mm :
  let v1 := set_links l v in
  heap_ok v → heap_ok v1 → buf_rep v E (pu_g p ++ (pu_c p, ch) :: rest_) → fl_ctl (ch_flags ch) = true →
  buf_rep v1 e' (pu_g p) → e' ≠ E →
  keeps (e' :: E :: (pu_g p ++ (pu_c p, ch) :: rest_).*1) v v1 → laid rest_ (q :: ps) →
  buf_rep v1 E ((pu_c p, ch) :: rest_) → removed v1 E [] (pu_c p) ch rest_ v' →
  queued v' m self E [] (touch mm rest_) (touch_push mm (q :: ps)) →
  taken v m self E (pu_g p ++ (pu_c p, ch) :: rest_) p (q :: ps) e' v'.
Proof.
  intros v1 Ok Ok1 H Hctl Hb Hne K Hl HE R Hq.
  assert (∀ x, x ∈ e' :: (pu_g p).*1 → x ∉ E :: pu_c p :: rest_.*1) as Hdis.
  { intros x Hx. by apply (buf_disjoint v1 e' (pu_g p) E ((pu_c p, ch) :: rest_) x). }
  destruct (keeps_buf _ _ _ _ _ Ok1 (rm_keeps _ _ _ _ _ _ _ R) Hb Hdis) as [Hb' Cb'].
  split; [done|done| |apply R|apply R|].
  - eapply bufs_kept_trans; [done|by apply bufs_kept_keeps|apply bufs_kept_keeps; [done|apply R]|].
    intros y Hy. left. rewrite fmap_split. simpl. rewrite !elem_of_cons, elem_of_app, !elem_of_cons in *. naive_solver.
  - exists (touch mm rest_), mm. split_and!; [by apply rest_queued| |].
    + rewrite items_touch. trans (items v1 (q :: ps)); [|done]. eapply items_kept; [exact Hl|].
      intros x chx Hx. by eapply (removed_bytes v1 E (pu_c p) ch rest_).
    + rewrite touch_csize, csize_app, csize_cons. simpl.
      destruct (br_at v1 E [] _ _ _ HE) as [_ O]. rewrite (proj1 (co_ctl _ _ O Hctl)). lia.
Qed.

Lemma runs_take_chunks v m self E cs p ps e' Q :
  queued v m self E [] cs (p :: ps) → buf_rep v e' [] → e' ≠ E → NoDup (pu_k <$> p :: ps) →
  (∀ v', taken v m self E cs p ps e' v' → Q tt v') →
  runs (take_chunks (chunk_at E cs) (pu_c p) e') v Q.
Proof.
  intros H He Hne Hnd HQ. pose proof H as [Ok Hb _ (ech & z & HE & H1 & H2 & H3 & H4 & H5) Hp].
  destruct (queued_first _ _ _ _ _ _ _ _ H) as (l3 & ch & -> & Ec & C1 & C2 & C3 & Hl3).
  pose proof Hp as [[_ _ (dd & r & [= <-] & Hd) _] Hp']%Forall_cons.
  unfold take_chunks. apply runs_bind. rewrite <- Ec. simpl in Hb. destruct (br_parts _ _ _ _ Hb) as (? & ? & ?).
  apply (runs_splice_range v e' [] [] E [] (pu_g p) l3); [done..|change (0 + csize (pu_g p) < 2 ^ 32); lia|].
  intros _ l v1 Ok1 Hb1 HE1 K1. simpl in *. rewrite app_nil_r in Hb1. rewrite Ec.
  call runs_rd_chunk; [exact C1|]. destruct ps as [|q ps].
  - subst l3. rewrite app_nil_r in *. change (chunk_at E []) with E in Ec. rewrite <- Ec in C1.
    destruct (br_end _ _ _ HE1) as (ech' & HE' & [O1 _ _]). change (vb_chunks v1) with (vb_chunks v) in HE'.
    simplify_eq. rewrite O1. simpl. rewrite C2. step. call runs_rd_data; [exact Hd|]. simpl. unfold wr_data. step.
    apply HQ. by eapply take_last.
  - destruct Hl3 as (rest_ & -> & Hl). destruct (br_at v1 E [] _ _ _ HE1) as [_ [O1 _ _ _ _ _]]. rewrite O1. simpl.
    call (runs_remove_queued m self v1 E (pu_c p) ch rest_ (q :: ps) (Some (pu_k p))); [|done| | |].
    + split; [exact Ok1|exact HE1|exact Hl| |]. 2:{ eapply Forall_impl; [exact Hp'|]. intros y [Y1 Y2 Y3 Y4]. by split. } exists ech, z. by split_and!.
    + rewrite C2. by exists (pu_d p), r.
    + intros y Hy [= Ey]. simpl in Hnd. apply NoDup_cons in Hnd as [Hnd _]. apply Hnd. rewrite Ey.
      by apply (list_elem_of_fmap_2 pu_k (q :: ps)).
    + intros v' mm R Hq. unfold skip. step. apply HQ. by eapply take_first.
Qed.
End take.

(** ** Pop *)

Section pop.
Implicit Types s : sstate.

Lemma runs_list2_empty h hd xs Q :
  dlist h hd xs → Q (match xs with [] => true | _ => false end) h → runs (list2_empty hd) h Q.
Proof.
  intros Hl HQ. eapply runs_mono; [by apply list2_empty_spec|]. intros b h' [-> ->].
  destruct xs; [by rewrite bool_decide_true|by rewrite bool_decide_false].
Qed.

Lemma runs_list2_first h hd xs Q : dlist h hd xs → Q (head xs) h → runs (list2_first hd) h Q.
Proof.
  intros Hl HQ. unfold list2_first. call runs_list2_empty; [exact Hl|].
  destruct xs as [|x xs]; [by step|].
  change (list2_begin hd) with (list2_next hd). eapply runs_list2_next; [by eapply dlist_begin|done].
Qed.

Lemma runs_list2_last_nil h hd Q : dlist h hd [] → Q None h → runs (list2_last hd) h Q.
Proof. intros Hl HQ. unfold list2_last. call runs_list2_empty; [exact Hl|]. simpl. by step. Qed.

(** No data is kept for readers. *)
Lemma runs_cleanup_idle s E cs Q :
  st_data (ss_stream s) = Some E → buf_rep (ss_vb s) E cs →
  dlist (ss_links s) (st_read_chunks (ss_stream s)) [] → Q tt s →
  runs _vbuffer_stream_cleanup s Q.
Proof.
  intros Hd Hb Hr HQ. unfold _vbuffer_stream_cleanup. step. rewrite Hd. apply runs_bind, runs_on_vb.
  unfold vbuffer_chunk_list. step. rewrite set_svb_id.
  vcall runs_lnk_next; [by eapply dlist_begin, (br_list _ _ _ Hb)|]. rewrite set_svb_id. step.
  lcall runs_list2_next; [by eapply dlist_begin|]. rewrite set_slinks_id. step.
  apply runs_bind, runs_on_vb. unfold chunk_fuel. step. rewrite set_svb_id.
  assert (∀ b x, b || bool_decide (at_head x [] = list2_end x) = true) as Hq.
  { intros b x. by rewrite bool_decide_true, orb_true_r. }
  cbn [cleanup_loop]. rewrite Hq. unfold skip. by step.
Qed.

Lemma runs_setwritable_empty (v : vbstate) e ech w Q :
  buf_rep v e [] → vb_chunks v !! e = Some ech →
  Q tt (set_chunks (<[e := set_writable w ech]> (vb_chunks v)) v) →
  runs (vbuffer_setwritable (Some e) w) v Q.
Proof.
  intros H He HQ. unfold vbuffer_setwritable, VBUFFER_FOR_EACH. call runs_chunk_begin; [exact H|].
  unfold chunk_fuel. step. simpl. call runs_upd_chunk; [exact He|].
  call (runs_chunk_next_end _ e []).
  { apply buf_rep_upd_end; [done|]. destruct (br_end _ _ _ H) as (? & ? & [? ? ?]). by simplify_eq; split. }
  by step.
Qed.

(** The new buffer for the data, with the writable flag of the push. *)
Lemma made_writable (v v1 : vbstate) e ech w :
  heap_ok v → made 1 v [] e [] v1 → vb_chunks v1 !! e = Some ech →
  let v2 := set_chunks (<[e := set_writable w ech]> (vb_chunks v1)) v1 in
  heap_ok v2 ∧ buf_rep v2 e [] ∧ keeps [] v v2 ∧ (vb_fresh v ≤ e)%positive ∧ vb_mem v = S (vb_mem v2).
Proof.
  intros Ok [M1 M2 _ M4 _ M6 _ M8] He v2. pose proof (M6 e ltac:(by left)) as Hf. split_and!; try done.
  - by eapply heap_ok_upd_chunk.
  - apply buf_rep_upd_end; [done|]. destruct (br_end _ _ _ M2) as (? & ? & [? ? ?]). by simplify_eq; split.
  - eapply (keeps_trans _ [e]); [done|exact M4|apply keeps_upd_chunk|]. intros y ->%list_elem_of_singleton. by right.
Qed.

Lemma rest_map v m m' self E cs ps :
  (∀ q, q ∈ ps → m' !! pu_k q = m !! pu_k q) → rest v m self E cs ps → rest v m' self E cs ps.
Proof.
  intros Hm [R1 R2 R3 R4 R5]. split; try done. apply Forall_forall. intros q Hq. rewrite Forall_forall in R5.
  destruct (R5 q Hq). split; try done. by rewrite Hm.
Qed.

Lemma stream_queued s E lf cs p ps :
  stream_rep s E lf cs (p :: ps) → queued (ss_vb s) (ss_chunks s) (ss_self s) E lf cs (p :: ps).
Proof.
  intros [R1 R2 R3 R4 (ech & HE & R5 & R6 & R7 & R8) _ R9 _ _ _ _]. split; try done.
  destruct (last (p :: ps)) as [q|] eqn:El; [|by apply last_None in El]. exists ech, q. by split_and!.
Qed.

(** What [_vbuffer_stream_free_chunk] does with the user data it finds. *)
Definition cleaned (f : cleanup) (userdata : ptr) : list loc :=
  match userdata, f with Some u, CleanClient => [u] | _, _ => [] end.

Lemma runs_free_chunk s k ch Q :
  ss_chunks s !! k = Some ch → (sc_userdata ch = None ∨ st_userdata_cleanup (ss_stream s) ≠ CleanSubStream) →
  Q tt (SS (ss_vb s) (delete k (ss_links s)) (delete k (ss_chunks s)) (ss_subs s) (ss_stream s) (ss_self s)
    (ss_cleaned s ++ cleaned (st_userdata_cleanup (ss_stream s)) (sc_userdata ch))) →
  runs (_vbuffer_stream_free_chunk k) s Q.
Proof.
  intros Hk Hc HQ. unfold _vbuffer_stream_free_chunk, rd_schunk, free_schunk. apply runs_bind. step.
  rewrite Hk. step. step. destruct (sc_userdata ch) as [u|]; unfold cleaned in HQ;
    [destruct (st_userdata_cleanup (ss_stream s)); [|by destruct Hc|]|];
    unfold userdata_cleanup, skip; step; step; try done;
    match goal with |- Q tt ?t => rewrite app_nil_r in HQ; exact HQ end.
Qed.

(** The stream after the pop of [p]; [e'] has the data. *)
Record popped s (E : loc) (lf cs : list seg) (p : push) (ps : list push) (want : bool) (e' : loc)
    (g : list seg) (s' : sstate) : Prop := {
  pp_rep : ∃ cs' ps', stream_rep s' E [] cs' ps' ∧ items (ss_vb s') ps' = items (ss_vb s) ps ∧
    csize cs' + csize g = csize cs;
  pp_buf : buf_rep (ss_vb s') e' g;
  pp_content : content (ss_vb s') g = content (ss_vb s) (pu_g p);
  pp_plain : no_ctl g;
  pp_new : e' ≠ E;
  pp_kept : bufs_kept (E :: (lf ++ cs).*1) (ss_vb s) (ss_vb s');
  pp_mem : vb_mem (ss_vb s) = S (vb_mem (ss_vb s'));
  pp_cleanup : st_userdata_cleanup (ss_stream s') = st_userdata_cleanup (ss_stream s);
  pp_cleaned : ss_cleaned s' = ss_cleaned s ++
    (if want then [] else cleaned (st_userdata_cleanup (ss_stream s)) (pu_ud p));
}.

(** The descriptors after the pop. *)
Lemma popped_links s E lf cs p ps l :
  stream_rep s E lf cs (p :: ps) → dlist l (st_chunks (ss_stream s)) (pu_k <$> ps) →
  frame (st_chunks (ss_stream s) :: (pu_k <$> p :: ps)) (ss_links s) l →
  let l' := delete (pu_k p) l in
  dlist l' (st_chunks (ss_stream s)) (pu_k <$> ps) ∧ dlist l' (st_read_chunks (ss_stream s)) [] ∧
  st_read_chunks (ss_stream s) ∉ st_chunks (ss_stream s) :: (pu_k <$> ps) ∧
  ∀ x, is_Some (l' !! x) → is_Some (ss_links s !! x).
Proof.
  intros R Hl [Hso _] l'. pose proof (sr_list _ _ _ _ _ R) as HL. pose proof (sr_read _ _ _ _ _ R) as HR.
  pose proof (sr_heads _ _ _ _ _ R) as Hh. pose proof (dlist_nodup _ _ _ HL) as Hnd. simpl in Hnd.
  apply NoDup_cons in Hnd as [Hc [Hk _]%NoDup_cons].
  assert (same_out [pu_k p] l l') as Hd.
  { intros x Hx. apply lookup_delete_ne. intros <-. apply Hx. by left. }
  split_and!.
  - eapply dlist_same_out; [exact Hd| |exact Hl]. intros x Hx ->%list_elem_of_singleton.
    apply elem_of_cons in Hx as [Ex|?]; [apply Hc; rewrite Ex; by left|done].
  - eapply (dlist_same_out l); [exact Hd| |].
    + intros x ->%list_elem_of_singleton Ex%list_elem_of_singleton. apply Hh. rewrite Ex. right. by left.
    + eapply dlist_same_out; [exact Hso| |exact HR]. intros x ->%list_elem_of_singleton. exact Hh.
  - intros Hi. apply Hh. rewrite fmap_cons, !elem_of_cons in *. naive_solver.
  - intros x [y [_ Hy]%lookup_delete_Some].
    destruct (decide (x ∈ st_chunks (ss_stream s) :: (pu_k <$> p :: ps))) as [Hi|Hi].
    + eapply dlist_alloc; [exact HL|exact Hi].
    + rewrite <- (Hso x Hi). eauto.
Qed.

(** The new state from the states of the heap and of the descriptors. *)
Lemma popped_state s E lf cs p ps want v1 mm1 v3 e' v4 l :
  let p' := Push (pu_k p) (pu_d p) (pu_c p) (pu_ud p) (touch mm1 (pu_g p)) in
  let st := ss_stream s in
  stream_rep s E lf cs (p :: ps) → e' ≠ E →
  queued v1 (ss_chunks s) (ss_self s) E [] (touch mm1 cs) (p' :: ps) →
  items v1 (p' :: ps) = items (ss_vb s) (p :: ps) →
  keeps (E :: (lf ++ cs).*1) (ss_vb s) v1 → vb_mem v1 = vb_mem (ss_vb s) → vb_fresh v1 = vb_fresh (ss_vb s) →
  queued v3 (ss_chunks s) (ss_self s) E [] (touch mm1 cs) (p' :: ps) → keeps [] v1 v3 →
  (vb_fresh v1 ≤ e')%positive → vb_mem v1 = S (vb_mem v3) →
  taken v3 (ss_chunks s) (ss_self s) E (touch mm1 cs) p' ps e' v4 →
  dlist l (st_chunks st) (pu_k <$> ps) → frame (st_chunks st :: (pu_k <$> p :: ps)) (ss_links s) l →
  popped s E lf cs p ps want e' (touch mm1 (pu_g p))
    (SS v4 (delete (pu_k p) l) (delete (pu_k p) (ss_chunks s)) (ss_subs s) st (ss_self s)
      (ss_cleaned s ++ (if want then [] else cleaned (st_userdata_cleanup st) (pu_ud p)))).
Proof.
  intros p' st R Hne Q1 P1 K1 M1 F1 Q3 K3 Fe M3 [T1 T2 T3 T4 T5 (cs' & mm & T6 & T7 & T8)] Hl Hfr.
  destruct (popped_links _ _ _ _ _ _ _ R Hl Hfr) as (L1 & L2 & L3 & L4).
  pose proof R as [R1 Ok Hb _ _ _ Hp HL _ _ Hfs].
  assert (items v3 (p' :: ps) = items v1 (p' :: ps)) as P3.
  { eapply items_kept; [apply (qu_laid _ _ _ _ _ _ _ Q1)|]. intros c ch Hi.
    destruct (br_chunks _ _ _ (qu_buf _ _ _ _ _ _ _ Q1) _ _ Hi) as [Hc Oc]. apply chunk_ok_kept; [|done].
    intros d dt Ed Hd. eapply (kp_datas _ _ _ K3); [done| |exact Hc|done]. by intros ?%elem_of_nil. }
  rewrite P1 in P3. injection P3 as P3 P4.
  assert (NoDup (pu_k p :: (pu_k <$> ps))) as [Hnk _]%NoDup_cons.
  { pose proof (dlist_nodup _ _ _ HL) as Hnd. by apply NoDup_cons in Hnd as [_ ?]. }
  assert (pu_k <$> touch_push mm ps = pu_k <$> ps) as Ek by apply touch_push_k.
  pose proof (kp_fresh _ _ _ K3) as Fv.
  split; simpl; try done.
  - exists cs', (touch_push mm ps). split_and!; [|by rewrite T7|etrans; [exact T8|apply touch_csize]].
    destruct (rest_map v4 _ (delete (pu_k p) (ss_chunks s)) _ _ _ _ (λ q Hq, lookup_delete_ne _ _ _
      (λ E0, Hnk (eq_ind_r (λ z, z ∈ _) (eq_ind _ (λ z, pu_k q ∈ z) (list_elem_of_fmap_2 pu_k _ q Hq) _ Ek) E0))) T6)
      as [S1 S2 S3 S4 S5].
    split; simpl; try done; [| | | |].
    + destruct S4 as (ech & ? & ? & ? & ? & ?). exists ech. split_and!; try done.
      by destruct (last (touch_push mm ps)).
    + by left.
    + by rewrite Ek.
    + by rewrite Ek.
    + intros x Hx. rewrite T5. assert (x < vb_fresh (ss_vb s))%positive; [|lia].
      apply Hfs. destruct Hx as [Hx|[y [_ Hy]%lookup_delete_Some]]; [left; by apply L4|right; eauto].
  - etrans; [exact T2|exact P3].
  - apply touch_plain. apply Forall_cons in Hp as [[_ _ _ ?] _]. done.
  - eapply bufs_kept_trans; [done| |exact T3|].
    + eapply bufs_kept_trans; [done|by apply bufs_kept_keeps|by apply bufs_kept_keeps; [apply Q1|]|].
      by intros y ?%elem_of_nil.
    + intros y. rewrite touch_fst, fmap_app, !elem_of_cons, elem_of_app. intros [->|[->|?]]; [right; lia|auto|auto].
  - rewrite T4. lia.
Qed.

Lemma runs_stream_pop s E lf cs p ps want Q :
  stream_rep s E lf cs (p :: ps) → vb_mem (ss_vb s) ≠ 0%nat →
  (want = true ∨ pu_ud p = None ∨ st_userdata_cleanup (ss_stream s) ≠ CleanSubStream) →
  (∀ e' g s', popped s E lf cs p ps want e' g s' →
     Q (true, Some e', if want then pu_ud p else None) s') →
  runs (vbuffer_stream_pop want) s Q.
Proof.
  intros R Hm Hw HQ. pose proof R as [R1 Ok Hb _ _ Hleft [[Hk _ _ _] _]%Forall_cons HL HR Hh Hfs].
  pose proof (stream_queued _ _ _ _ _ _ R) as HQ0.
  unfold vbuffer_stream_pop. step. lcall runs_list2_first; [exact HL|]. rewrite set_slinks_id. simpl.
  call runs_cleanup_idle; [exact R1|exact Hb|exact HR|].
  lcall runs_list2_last_nil; [exact HR|]. rewrite set_slinks_id. apply runs_bind. rewrite R1.
  vcall runs_chunk_begin; [exact Hb|]. rewrite set_svb_id. step.
  unfold rd_schunk. step. rewrite Hk. step. apply runs_bind, runs_on_vb. unfold chunk_fuel. step. rewrite set_svb_id.
  call runs_pop_scan; [exact HQ0|exact Hleft|]. intros v1 mm1 Q1 P1 K1 M1 F1. step.
  { by rewrite bool_decide_true. }
  set (s1 := set_svb v1 s).
  assert (∀ R', R' tt (if want then set_schunks (<[pu_k p := SChunk (Some (pu_d p)) (Iter (Some (pu_c p)) 0 0 false) None]>
      (ss_chunks s)) s1 else s1) →
    runs (if want then wr_schunk (pu_k p) (SChunk (Some (pu_d p)) (Iter (Some (pu_c p)) 0 0 false) None) else skip) s1 R') as Hw1.
  { intros R' HR'. destruct want; unfold wr_schunk, skip; by step. }
  simpl sc_ctl_data. simpl sc_ctl_iter. call Hw1.
  set (s2 := if want then set_schunks _ _ else _).
  assert (ss_vb s2 = v1 ∧ ss_links s2 = ss_links s ∧ ss_stream s2 = ss_stream s ∧ ss_self s2 = ss_self s ∧
    ss_subs s2 = ss_subs s ∧ ss_cleaned s2 = ss_cleaned s) as (E1 & E2 & E3 & E4 & E5 & E6) by (by destruct want).
  destruct (queued_first _ _ _ _ _ _ _ _ Q1) as (l3 & ich & _ & _ & C1 & _). simpl in C1.
  vcall runs_rd_chunk; [rewrite E1; exact C1|]. rewrite set_svb_id.
  vcall runs_create_empty; [rewrite E1; apply Q1|rewrite E1, M1; exact Hm|]. rewrite E1.
  intros e' v2 Mk. destruct (br_end _ _ _ (mk_rep _ _ _ _ _ _ Mk)) as (ech & He & _).
  vcall runs_setwritable_empty; [apply Mk|exact He|]. cbn [set_svb ss_vb].
  destruct (made_writable v1 v2 e' ech (fl_writable (ch_flags ich)) (qu_heap _ _ _ _ _ _ _ Q1) Mk He) as (Ok3 & B3 & K3 & F3 & M3).
  set (v3 := set_chunks _ v2) in *.
  assert (queued v3 (ss_chunks s) (ss_self s) E [] (touch mm1 cs) (touch_push mm1 (p :: ps))) as Q3.
  { eapply queued_frame; [exact K3|done| |exact Q1]. by intros x _ ?%elem_of_nil. }
  assert (e' ≠ E) as HeE.
  { intros ->. pose proof (br_fresh _ _ _ E Ok Hb ltac:(by left)). lia. }
  apply runs_bind, runs_on_vb. unfold vbuffer_chunk_end. step. cbn [set_svb ss_vb].
  apply runs_bind, runs_on_vb. eapply (runs_take_chunks v3 _ _ E (touch mm1 cs) (Push (pu_k p) (pu_d p) (pu_c p) (pu_ud p) (touch mm1 (pu_g p))) ps);
    [exact Q3|exact B3|done| |].
  { pose proof (dlist_nodup _ _ _ HL) as Hnd. by apply NoDup_cons in Hnd as [_ ?]. }
  intros v4 T. unfold set_svb at 1 2 3 4. cbn [ss_vb ss_links ss_chunks ss_subs ss_stream ss_self ss_cleaned]. rewrite E2, E3, E4, E5, E6.
  apply runs_bind, runs_slnk. eapply runs_mono; [by apply (list2_erase_spec _ (st_chunks (ss_stream s)) [] (pu_k <$> ps))|].
  intros _ l (_ & Hl & _ & Hfr). simpl in Hl, Hfr. unfold set_slinks. cbn [ss_vb ss_links ss_chunks ss_subs ss_stream ss_self ss_cleaned].
  assert (ss_chunks s2 !! pu_k p = Some (SChunk (Some (pu_d p)) (Iter (Some (pu_c p)) 0 0 false) (if want then None else pu_ud p)) ∧
    delete (pu_k p) (ss_chunks s2) = delete (pu_k p) (ss_chunks s)) as [D1 D2].
  { unfold s2. destruct want; [|done]. cbn [set_schunks ss_chunks]. split; [apply lookup_insert_eq|apply delete_insert_eq]. }
  call runs_free_chunk; [exact D1| |].
  { simpl. destruct want; naive_solver. }
  cbn [ss_vb ss_links ss_chunks ss_subs ss_stream ss_self ss_cleaned sc_userdata]. rewrite D2. step.
  apply (HQ e' (touch mm1 (pu_g p))).
  pose proof (popped_state s E lf cs p ps want v1 mm1 v3 e' v4 l R HeE Q1 P1 K1 M1 F1 Q3 K3 F3 M3 T Hl Hfr) as HP.
  by destruct want.
Qed.
End pop.
