(* ===== verification/VbStreamSpec.v ===== *)
(** * What a stream promises

    Blocks come out in the order they were pushed, with the bytes they have when
    they are popped, and the stream keeps its representation; other buffers are not
    touched. *)

From S2P Require Import Prelude List2 VbHeap VbIter VbSub VbRep VbWalk VbFrame VbMut VbEdit VbClear VbMake VbCtl VbRead VbSpec VbStream VbStreamRep VbStreamPush VbStreamPop.

(** ** The view of a stream *)

(** The pushes that were not popped yet: their bytes and their user data. *)
Definition stream_view (s : sstate) (its : list (list Z * ptr)) : Prop :=
  ∃ E lf cs ps, stream_rep s E lf cs ps ∧ its = items (ss_vb s) ps.

(** All their bytes, and how many there are. *)
Definition bytes_in (its : list (list Z * ptr)) : list Z := concat its.*1.
Definition total (its : list (list Z * ptr)) : Z := zlen (bytes_in its).

(** The iterator [it] stands at the offset [p] of the bytes of the stream. *)
Definition stream_at (s : sstate) (it : vbuffer_iterator) (p : Z) (bs : list Z) : Prop :=
  ∃ E cs c m, st_data (ss_stream s) = Some E ∧ buf_rep (ss_vb s) E cs ∧ content (ss_vb s) cs = bs ∧
    it = Iter (Some c) 0 m false ∧ pos_of E cs c 0 p.

(** The buffers other than that of the stream and those of [es] are as they were. *)
Definition others_kept (es : list loc) (s s' : sstate) : Prop :=
  ∀ e cs, buf_rep (ss_vb s) e cs → st_data (ss_stream s) ≠ Some e → e ∉ es →
    buf_rep (ss_vb s') e cs ∧ content (ss_vb s') cs = content (ss_vb s) cs.

Section view.
Implicit Types s : sstate.

Lemma laid_content v : ∀ ps cs,
  laid cs ps → (∀ p, p ∈ ps → ∀ ch, (pu_c p, ch) ∈ cs → fl_ctl (ch_flags ch) = true) →
  content v cs = bytes_in (items v ps).
Proof.
  induction ps as [|p ps IH]; intros cs Hl Hctl; [by rewrite Hl|].
  change (bytes_in (items v (p :: ps))) with (content v (pu_g p) ++ bytes_in (items v ps)).
  destruct ps as [|q ps].
  - simpl in Hl. subst cs. by rewrite app_nil_r.
  - destruct Hl as (ch & rst & -> & Hl). rewrite content_app, content_cons. unfold chunk_bytes. simpl snd.
    rewrite (Hctl p) by (first [by left | apply elem_of_app; right; by left]). rewrite (IH rst); [done|done|].
    intros z Hz chz Hi. apply (Hctl z); [by right|]. apply elem_of_app. right. by right.
Qed.

Lemma stream_content s E lf cs ps :
  stream_rep s E lf cs ps → content (ss_vb s) (lf ++ cs) = bytes_in (items (ss_vb s) ps).
Proof.
  intros [_ _ Hb Hl _ Hleft Hp _ _ _ _]. rewrite content_app.
  assert (content (ss_vb s) lf = []) as ->.
  { destruct Hleft as [->|(c & ch & -> & Hc & _)]; [done|]. rewrite content_cons, content_nil. unfold chunk_bytes.
    simpl snd. by rewrite Hc. }
  apply laid_content; [done|]. intros p Hi ch Hc.
  rewrite Forall_forall in Hp. destruct (Hp p Hi) as [_ (ch' & C1 & _ & C3) _ _].
  rewrite (br_lookup _ _ _ (pu_c p) ch Hb) in C1 by (apply elem_of_app; by right). by simplify_eq.
Qed.

Lemma stream_size s E lf cs ps :
  stream_rep s E lf cs ps → csize (lf ++ cs) = total (items (ss_vb s) ps).
Proof. intros R. unfold total. rewrite <- (stream_content _ _ _ _ _ R). symmetry. by eapply br_len, R. Qed.

Lemma others_bufs E lf cs s s' e2 cs2 ps :
  stream_rep s E lf cs ps → (∀ x, x = e2 → buf_rep (ss_vb s) x cs2) →
  bufs_kept ((E :: (lf ++ cs).*1) ++ e2 :: cs2.*1) (ss_vb s) (ss_vb s') → others_kept [e2] s s'.
Proof.
  intros R H2 K e ce H Hd He. apply K; [done|]. specialize (H2 e2 eq_refl).
  rewrite (sr_data _ _ _ _ _ R) in Hd.
  intros x Hx [Hi|Hi]%elem_of_app.
  - eapply (buf_disjoint (ss_vb s) e ce E _ x H (sr_buf _ _ _ _ _ R)); [congruence|done|exact Hi].
  - eapply (buf_disjoint (ss_vb s) e ce e2 cs2 x H H2); [|done|exact Hi].
    intros ->. apply He. by left.
Qed.
End view.

(** ** Frame *)

Section frame.
Implicit Types s : sstate.

(** The chunk at the end of a push is one of the stream. *)
Lemma stream_ctl s E lf cs ps p : stream_rep s E lf cs ps → p ∈ ps → pu_c p ∈ E :: (lf ++ cs).*1.
Proof.
  destruct ps as [|q ps]; [by intros _ ?%elem_of_nil|]. intros R. by apply (queued_ctl _ _ _ _ _ _ _ _ (stream_queued _ _ _ _ _ _ R)).
Qed.

(** A block of a chunk of the stream. *)
Lemma stream_block s E lf cs ps X v' x ch k :
  stream_rep s E lf cs ps → keeps X (ss_vb s) v' → (∀ x, x ∈ E :: (lf ++ cs).*1 → x ∉ X) →
  x ∈ E :: (lf ++ cs).*1 → vb_chunks (ss_vb s) !! x = Some ch →
  push_data (ss_vb s) (ch_data ch) (ss_self s) k → push_data v' (ch_data ch) (ss_self s) k.
Proof. intros R K Hx Hi Hc. eapply push_data_frame; [exact K|exact Hc|done|auto]. Qed.

Lemma stream_frame s E lf cs ps X v' :
  stream_rep s E lf cs ps → keeps X (ss_vb s) v' → heap_ok v' → (∀ x, x ∈ E :: (lf ++ cs).*1 → x ∉ X) →
  stream_rep (set_svb v' s) E lf cs ps ∧ items v' ps = items (ss_vb s) ps.
Proof.
  intros R K Ok' Hx. pose proof R as [R1 Ok Hb Hl (ech & HE & E1 & E2 & E3 & E4) Hleft Hp HL HR Hh Hfs].
  destruct (keeps_buf _ _ _ _ _ Ok K Hb Hx) as [Hb' _].
  assert (∀ x, x ∈ E :: (lf ++ cs).*1 → vb_chunks v' !! x = vb_chunks (ss_vb s) !! x) as Hc.
  { intros x Hi. apply (kp_chunks _ _ _ K); [by apply Hx|]. by eapply (br_fresh _ _ _ _ Ok Hb). }
  pose proof (stream_block s E lf cs ps X v') as Hbl. split.
  - split; simpl; try done.
    + exists ech. rewrite Hc by (by left). split_and!; try done. destruct (last ps); [done|].
      destruct E4 as [? E4]. split; [done|]. intros d Ed. rewrite <- Ed. eapply (Hbl E); try done; [by left|].
      rewrite Ed. by apply E4.
    + destruct Hleft as [?|(c & ch & -> & ? & ?)]; [by left|right]. exists c, ch. split_and!; try done.
      eapply (Hbl c); try done; [right; by left|]. eapply br_lookup; [exact Hb|by left].
    + apply Forall_forall. intros q Hq. pose proof (stream_ctl _ _ _ _ _ _ R Hq) as Hi.
      rewrite Forall_forall in Hp. specialize (Hp q Hq). pose proof Hp as [_ (ch & C1 & C2 & _) _ _].
      eapply push_ok_change; [exact Hp|done| |].
      * intros ch0 Hch. rewrite Hc by done. eauto.
      * intros Hd. rewrite <- C2 in *. by eapply (Hbl (pu_c q)).
    + intros x Hi. pose proof (kp_fresh _ _ _ K). specialize (Hfs x Hi). lia.
  - eapply items_kept; [exact Hl|]. intros c ch Hi. assert ((c, ch) ∈ lf ++ cs) as Hi' by (apply elem_of_app; by right).
    destruct (br_chunks _ _ _ Hb _ _ Hi') as [C1 C2]. apply chunk_ok_kept; [|done]. intros d dt Ed Hd.
    eapply (kp_datas _ _ _ K); [done| |exact C1|done]. apply Hx. right. apply list_elem_of_fmap. by exists (c, ch).
Qed.

(** What is done to another buffer. *)
Lemma view_frame s X v' its :
  stream_view s its → keeps X (ss_vb s) v' → heap_ok v' →
  (∀ E cs, st_data (ss_stream s) = Some E → buf_rep (ss_vb s) E cs → ∀ x, x ∈ E :: cs.*1 → x ∉ X) →
  stream_view (set_svb v' s) its.
Proof.
  intros (E & lf & cs & ps & R & ->) K Ok' Hx.
  destruct (stream_frame _ _ _ _ _ _ _ R K Ok' (Hx E _ (sr_data _ _ _ _ _ R) (sr_buf _ _ _ _ _ R))) as [R' Ei].
  exists E, lf, cs, ps. split; [done|]. simpl. by rewrite Ei.
Qed.

Lemma view_heap s its : stream_view s its → heap_ok (ss_vb s).
Proof. intros (E & lf & cs & ps & R & _). apply R. Qed.
End frame.

(** ** Push and pop *)

Section push_spec.
Implicit Types s : sstate.

Lemma push_view s e2 cs2 ud cur its Q :
  stream_view s its → buf_rep (ss_vb s) e2 cs2 → no_ctl cs2 → st_data (ss_stream s) ≠ Some e2 →
  (4 ≤ vb_mem (ss_vb s))%nat → total its + csize cs2 < 2 ^ 32 →
  (∀ s' it, stream_view s' (its ++ [(content (ss_vb s) cs2, ud)]) → others_kept [e2] s s' →
     (vb_mem (ss_vb s) ≤ 4 + vb_mem (ss_vb s'))%nat →
     st_userdata_cleanup (ss_stream s') = st_userdata_cleanup (ss_stream s) →
     (∀ it0, cur = Some it0 → ∃ i, it = Some i ∧
        stream_at s' i (total its) (bytes_in its ++ content (ss_vb s) cs2)) → Q (true, None, it) s') →
  runs (vbuffer_stream_push (Some e2) ud cur) s Q.
Proof.
  intros (E & lf & cs & ps & R & ->) H2 Hp Hne Hm Hs HQ. rewrite (sr_data _ _ _ _ _ R) in Hne.
  rewrite <- (stream_size _ _ _ _ _ R) in *. eapply runs_stream_push; [exact R|exact H2|done|congruence|done|done|].
  intros s' E' lf' cs' p it R' Eg Eu _ Hb K Hm' Hcl Hit.
  assert (items (ss_vb s') (ps ++ [p]) = items (ss_vb s) ps ++ [(content (ss_vb s) cs2, ud)]) as Eits.
  2:{ apply HQ; [exists E', lf', cs', (ps ++ [p]); by split| |done|done|].
    - by eapply others_bufs, bufs_kept_keeps; [..|exact K]; [exact R|by intros ? ->|apply R].
    - intros it0 Ec. destruct (Hit it0 Ec) as (c & m & -> & Hpos). eexists. split; [done|].
      exists E', (lf' ++ cs'), c, m. split_and!; [apply R'|apply R'| |done|done].
      rewrite (stream_content _ _ _ _ _ R'), Eits. unfold bytes_in. rewrite fmap_app, concat_app. simpl.
      by rewrite app_nil_r. }
  unfold items. rewrite fmap_app. f_equal.
  - eapply items_kept; [apply R|]. intros c ch Hi. apply (Hb c), elem_of_app. by left.
  - simpl. rewrite Eg, Eu. do 2 f_equal. apply content_kept. intros c ch Hi. apply (Hb c), elem_of_app. by right.
Qed.

Lemma pop_view s b ud its want Q :
  stream_view s ((b, ud) :: its) → vb_mem (ss_vb s) ≠ 0%nat →
  (want = true ∨ ud = None ∨ st_userdata_cleanup (ss_stream s) ≠ CleanSubStream) →
  (∀ e g s', stream_view s' its → buf_rep (ss_vb s') e g → content (ss_vb s') g = b → no_ctl g →
     st_data (ss_stream s') ≠ Some e → others_kept [] s s' → vb_mem (ss_vb s) = S (vb_mem (ss_vb s')) →
     st_userdata_cleanup (ss_stream s') = st_userdata_cleanup (ss_stream s) →
     ss_cleaned s' = ss_cleaned s ++ (if want then [] else cleaned (st_userdata_cleanup (ss_stream s)) ud) →
     Q (true, Some e, if want then ud else None) s') →
  runs (vbuffer_stream_pop want) s Q.
Proof.
  intros (E & lf & cs & [|p ps] & R & Ei) Hm Hw HQ; [done|]. injection Ei as -> -> Ei.
  eapply runs_stream_pop; [exact R|done|done|]. intros e g s' [(cs' & ps' & R' & Ei' & _) P2 P3 P4 P5 P6 P7 P8 P9].
  eapply (HQ e g); try done.
  - exists E, [], cs', ps'. by rewrite Ei'.
  - rewrite (sr_data _ _ _ _ _ R'). congruence.
  - intros e0 c0 H0 Hd _. apply P6; [done|]. rewrite (sr_data _ _ _ _ _ R) in Hd. intros x Hx Hi.
    eapply (buf_disjoint (ss_vb s) e0 c0 E _ x H0 (sr_buf _ _ _ _ _ R)); [congruence|done|exact Hi].
Qed.

Lemma pop_nothing s want Q :
  stream_view s [] → Q (false, None, None) s → runs (vbuffer_stream_pop want) s Q.
Proof.
  intros (E & lf & cs & [|p ps] & R & Ei) HQ; [|done]. unfold vbuffer_stream_pop. step.
  lcall runs_list2_first; [apply (sr_list _ _ _ _ _ R)|]. rewrite set_slinks_id. simpl. by step.
Qed.

Lemma init_view s c r f Q :
  heap_ok (ss_vb s) → vb_mem (ss_vb s) ≠ 0%nat → c ≠ r → (c < vb_fresh (ss_vb s))%positive →
  (r < vb_fresh (ss_vb s))%positive →
  (∀ x, is_Some (ss_links s !! x) ∨ is_Some (ss_chunks s !! x) → (x < vb_fresh (ss_vb s))%positive) →
  (∀ s', stream_view s' [] → vb_mem (ss_vb s) = S (vb_mem (ss_vb s')) →
     st_userdata_cleanup (ss_stream s') = f → Q true s') →
  runs (vbuffer_stream_init c r f) s Q.
Proof.
  intros Ok Hm Hcr Hc Hr Hfs HQ. unfold vbuffer_stream_init. destruct (vb_mem (ss_vb s)) as [|n] eqn:Em; [done|].
  unfold vbuffer_create_empty, vbuffer_init_. apply runs_bind, runs_on_vb. call runs_create_end; [done|]. step. step.
  set (v1 := add_end true n (ss_vb s)). set (e := vb_fresh (ss_vb s)).
  destruct (add_end_rep (ss_vb s) true n Ok Em) as (Ok1 & B1 & _). fold v1 e in Ok1, B1.
  vcall runs_upd_chunk; [apply lookup_insert_eq|]. cbn [set_svb ss_vb ss_links].
  lcall runs_mono; [apply list2_init_dlist|]. intros _ l1 [L1 F1]. cbn [set_slinks ss_vb ss_links].
  lcall runs_mono; [apply list2_init_dlist|]. intros _ l2 [L2 F2]. cbn [set_slinks ss_vb ss_links]. step. step.
  apply HQ; try done. exists e, [], [], []. split; [|done]. split; simpl; try done.
  - by eapply heap_ok_upd_chunk; [exact Ok1|apply lookup_insert_eq|].
  - apply (buf_rep_upd_end v1); [exact B1|]. by split.
  - eexists. split; [apply lookup_insert_eq|]. by split_and!.
  - by left.
  - eapply dlist_same_out; [exact F2| |exact L1]. intros x ->%list_elem_of_singleton ?%list_elem_of_singleton. done.
  - intros ?%list_elem_of_singleton. done.
  - intros x Hx. enough (x < vb_fresh (ss_vb s))%positive by lia.
    destruct (decide (x = c)) as [->|Hxc]; [done|]. destruct (decide (x = r)) as [->|Hxr]; [done|].
    apply Hfs. destruct Hx as [Hx|Hx]; [left|by right].
    assert (l2 !! x = ss_links s !! x) as Ex; [|by rewrite <- Ex].
    etrans; [apply (F2 x)|apply (F1 x)]; by intros ?%list_elem_of_singleton.
Qed.
End push_spec.

(** ** A client of a stream *)

(** All the bytes of a buffer. *)
Definition buffer_bytes (buf : vbuffer) : VM (list Z) :=
  begin ← vbuffer_begin buf vbuffer_iterator_init;
  n ← vbuffer_size buf;
  '(_, sub) ← vbuffer_sub_create_from_position begin n;
  vbuffer_sub_read sub n.

(** A new buffer with the bytes [b] is pushed. *)
Definition push_bytes (b : list Z) (userdata : ptr) (current : option vbuffer_iterator)
    : SM (bool * option vbuffer_iterator) :=
  '(_, buf) ← on_vb (vbuffer_create_from b);
  '(ok, _, it) ← vbuffer_stream_push buf userdata current;
  ret (ok, it).

Inductive stream_op := OpPush (b : list Z) (userdata : ptr) | OpPop.

Definition stream_exec (op : stream_op) : SM (option (list Z * ptr)) :=
  match op with
  | OpPush b userdata =>
      '(_, _) ← push_bytes b userdata None;
      ret None
  | OpPop =>
      '(ok, buf, userdata) ← vbuffer_stream_pop true;
      if ok : bool then
        b ← on_vb (buffer_bytes buf);
        _ ← on_vb (vbuffer_release buf);
        ret (Some (b, userdata))
      else ret None
  end.

Fixpoint stream_run (ops : list stream_op) : SM (list (option (list Z * ptr))) :=
  match ops with
  | [] => ret []
  | op :: ops => r ← stream_exec op; rs ← stream_run ops; ret (r :: rs)
  end.

(** The queue it should be. *)
Definition queue_exec (op : stream_op) (q : list (list Z * ptr)) : option (list Z * ptr) * list (list Z * ptr) :=
  match op, q with
  | OpPush b userdata, _ => (None, q ++ [(b, userdata)])
  | OpPop, [] => (None, [])
  | OpPop, x :: q => (Some x, q)
  end.

Fixpoint queue_run (ops : list stream_op) (q : list (list Z * ptr))
    : list (option (list Z * ptr)) * list (list Z * ptr) :=
  match ops with
  | [] => ([], q)
  | op :: ops => let '(r, q) := queue_exec op q in let '(rs, q) := queue_run ops q in (r :: rs, q)
  end.

Definition op_bytes (op : stream_op) : Z := match op with OpPush b _ => zlen b | OpPop => 0 end.

Section client.
Implicit Types s : sstate.

Lemma runs_buffer_bytes (v : vbstate) e cs Q :
  buf_rep v e cs → Q (content v cs) v → runs (buffer_bytes (Some e)) v Q.
Proof.
  intros R HQ. unfold buffer_bytes. pose proof (br_nonneg _ _ _ R). pose proof (br_small _ _ _ R).
  call runs_vbuffer_begin; [exact R|]. call runs_size; [exact R|]. unfold vbuffer_sub_create_from_position.
  apply runs_bind. pose proof (pos_of_suffix e [] cs ltac:(lia)) as Hp. simpl in Hp. rewrite csize_nil in Hp.
  call runs_iter_copy; [exact R|exact Hp|]. step. rewrite u32_small by lia.
  eapply (runs_sub_read v e cs R _ 0 (csize cs)); [|done|].
  - split; [done|]. split; lia.
  - replace (csize cs `min` (csize cs - 0)) with (csize cs) by lia. rewrite <- (br_len _ _ _ R), zslice_full. done.
Qed.

Lemma push_bytes_view s its b ud cur Q :
  stream_view s its → (7 ≤ vb_mem (ss_vb s))%nat → total its + zlen b < 2 ^ 32 →
  (∀ s' it, stream_view s' (its ++ [(b, ud)]) → (vb_mem (ss_vb s) ≤ 7 + vb_mem (ss_vb s'))%nat →
     st_userdata_cleanup (ss_stream s') = st_userdata_cleanup (ss_stream s) → Q (true, it) s') →
  runs (push_bytes b ud cur) s Q.
Proof.
  intros V Hm Hs HQ. destruct (vb_mem (ss_vb s)) as [|[|[|n]]] eqn:Em; try lia. unfold push_bytes.
  pose proof (zlen_nonneg (bytes_in its)) as Ht. fold (total its) in Ht.
  vcall runs_create_from; [by eapply view_heap|exact Em|lia|]. intros e cs v1 M.
  pose proof M as [M1 M2 M3 M4 _ M6 _ M8 M9]. pose proof (br_len _ _ _ M2) as L. rewrite M3 in L.
  assert (stream_view (set_svb v1 s) its) as V1.
  { eapply view_frame; [exact V|exact M4|done|]. by intros ? ? _ _ x _ ?%elem_of_nil. }
  call push_view; [exact V1|exact M2|exact M9| |simpl; lia|lia|].
  - destruct V as (E & lf & cs0 & ps & R & _). simpl. rewrite (sr_data _ _ _ _ _ R). intros [= ->].
    pose proof (br_fresh _ _ _ e (sr_heap _ _ _ _ _ R) (sr_buf _ _ _ _ _ R) ltac:(by left)).
    specialize (M6 e ltac:(by left)). lia.
  - intros s' it V' _ Hm' Hc' _. step. simpl in *. rewrite M3 in V'. apply HQ; [done|lia|done].
Qed.

Lemma exec_view s its op Q :
  stream_view s its → (7 ≤ vb_mem (ss_vb s))%nat → total its + op_bytes op < 2 ^ 32 →
  (∀ s', stream_view s' (queue_exec op its).2 → (vb_mem (ss_vb s) ≤ 7 + vb_mem (ss_vb s'))%nat →
     st_userdata_cleanup (ss_stream s') = st_userdata_cleanup (ss_stream s) → Q (queue_exec op its).1 s') →
  runs (stream_exec op) s Q.
Proof.
  intros V Hm Hs HQ. destruct op as [b ud|]; simpl in *.
  - call push_bytes_view; [done..|]. intros s' it V' Hm' Hc'. step. by apply HQ.
  - destruct its as [|[b ud] its].
    { call pop_nothing; [exact V|]. step. apply HQ; [done|lia|done]. }
    call pop_view; [exact V|lia|by left|]. intros e g s1 V1 B1 C1 _ Hne _ Hm1 Hc1 _. simpl.
    vcall runs_buffer_bytes; [exact B1|]. rewrite set_svb_id, C1. unfold vbuffer_release.
    vcall runs_clear; [by eapply view_heap|exact B1|]. intros v2 Rl. step. simpl in HQ. apply HQ.
    + eapply view_frame; [exact V1|apply Rl|apply Rl|]. intros E cs HE HB x Hx Hx2.
      eapply (buf_disjoint (ss_vb s1) E cs e g x HB B1); [congruence|done|exact Hx2].
    + simpl. rewrite (rl_mem _ _ _ _ Rl). lia.
    + done.
Qed.

Lemma total_exec its op : total (queue_exec op its).2 ≤ total its + op_bytes op.
Proof.
  unfold total, bytes_in. destruct op as [b ud|].
  - simpl. rewrite fmap_app, concat_app, zlen_app. simpl. rewrite app_nil_r. lia.
  - destruct its as [|[b ud] its]; [done|]. rewrite fmap_cons. cbn [queue_exec concat fst snd op_bytes].
    rewrite zlen_app. pose proof (zlen_nonneg b). lia.
Qed.

Lemma run_view ops : ∀ s its Q,
  stream_view s its → (7 * length ops ≤ vb_mem (ss_vb s))%nat → total its + zsum (op_bytes <$> ops) < 2 ^ 32 →
  (∀ s', stream_view s' (queue_run ops its).2 → Q (queue_run ops its).1 s') →
  runs (stream_run ops) s Q.
Proof.
  induction ops as [|op ops IH]; intros s its Q V Hm Hs HQ; [simpl; step; by apply HQ|].
  rewrite fmap_cons, zsum_cons in Hs. cbn [length queue_run stream_run] in *.
  assert (0 ≤ zsum (op_bytes <$> ops)).
  { apply zsum_nonneg, Forall_forall. intros x ([b ud|] & -> & _)%list_elem_of_fmap; [apply zlen_nonneg|done]. }
  pose proof (total_exec its op). call exec_view; [exact V|lia|lia|]. intros s1 V1 Hm1 _.
  destruct (queue_exec op its) as [r q]. cbn [fst snd] in *. call (IH s1 q); [done|lia|lia|]. intros s2 V2. step.
  destruct (queue_run ops q) as [rs q2]. by apply HQ.
Qed.
End client.

(** ** The properties *)

Section properties.
Implicit Types s : sstate.

(** [vbuffer_stream_push]: the bytes of the buffer become the last block of the
    stream with the given user data, the buffer of the caller is empty (NULL), the
    blocks in front and all other buffers keep their bytes, and the iterator that is
    filled stands between the old and the new bytes of the stream. *)
Theorem vbuffer_stream_push_correct s e cs ud cur its :
  stream_view s its → buf_rep (ss_vb s) e cs → no_ctl cs → st_data (ss_stream s) ≠ Some e →
  (4 ≤ vb_mem (ss_vb s))%nat → total its + csize cs < 2 ^ 32 →
  runs (vbuffer_stream_push (Some e) ud (Some cur)) s (λ r s', ∃ it, r = (true, None, Some it) ∧
    stream_view s' (its ++ [(content (ss_vb s) cs, ud)]) ∧ others_kept [e] s s' ∧
    stream_at s' it (total its) (bytes_in its ++ content (ss_vb s) cs)).
Proof.
  intros V H Hp Hne Hm Hs. eapply push_view; [done..|]. intros s' it V' K _ _ Hit.
  destruct (Hit cur eq_refl) as (i & -> & ?). by exists i.
Qed.

(** [vbuffer_stream_pop]: the oldest block leaves the stream as a buffer of its
    own that has exactly its bytes (and no control chunk), the other blocks stay in
    order, all other buffers keep their bytes, and the user data is returned or,
    when the caller does not ask for it, given to the cleanup function. *)
Theorem vbuffer_stream_pop_correct s b ud its want :
  stream_view s ((b, ud) :: its) → vb_mem (ss_vb s) ≠ 0%nat →
  st_userdata_cleanup (ss_stream s) ≠ CleanSubStream →
  runs (vbuffer_stream_pop want) s (λ r s', ∃ e cs, r = (true, Some e, if want then ud else None) ∧
    stream_view s' its ∧ buf_rep (ss_vb s') e cs ∧ content (ss_vb s') cs = b ∧ no_ctl cs ∧
    others_kept [] s s' ∧
    ss_cleaned s' = ss_cleaned s ++ (if want then [] else cleaned (st_userdata_cleanup (ss_stream s)) ud)).
Proof.
  intros V Hm Hc. eapply pop_view; [done|done|by right; right|].
  intros e g s' V' B C N _ K _ _ Hcl. by exists e, g.
Qed.

(** C4 A stream is a queue of blocks: any sequence of pushes of new buffers and of
    pops whose buffers are read and released answers what the queue answers, and
    leaves the stream with the blocks of the queue, as long as there is memory
    (seven allocations for an operation) and fewer than 2^32 bytes in the stream. *)
Theorem vbuffer_stream_refines_queue s its ops :
  stream_view s its → (7 * length ops ≤ vb_mem (ss_vb s))%nat →
  total its + zsum (op_bytes <$> ops) < 2 ^ 32 →
  runs (stream_run ops) s (λ rs s', rs = (queue_run ops its).1 ∧ stream_view s' (queue_run ops its).2).
Proof. intros V Hm Hs. by eapply run_view. Qed.

(** [vbuffer_stream_finish]: the end of the stream is marked, which
    [vbuffer_stream_isfinished] reports; a push then fails with an error, and leaves
    the buffer, the chunks, their blocks and the descriptors as they are. *)
Theorem vbuffer_stream_finish_correct s its buf ud cur :
  stream_view s its → vb_error (ss_vb s) = None →
  runs (f0 ← vbuffer_stream_isfinished; vbuffer_stream_finish;;
        r ← vbuffer_stream_push buf ud cur; f ← vbuffer_stream_isfinished; ret (f0, r, f)) s
    (λ r s', r = (false, (false, buf, None), true) ∧ vb_error (ss_vb s') = Some "stream marked as finished" ∧
      ∃ E ech, st_data (ss_stream s) = Some E ∧ vb_chunks (ss_vb s) !! E = Some ech ∧
        vb_chunks (ss_vb s') = <[E := set_eof true ech]> (vb_chunks (ss_vb s)) ∧
        vb_links (ss_vb s') = vb_links (ss_vb s) ∧ vb_datas (ss_vb s') = vb_datas (ss_vb s) ∧
        ss_chunks s' = ss_chunks s ∧ ss_links s' = ss_links s ∧ ss_stream s' = ss_stream s).
Proof.
  intros (E & lf & cs & ps & R & _) He. destruct (sr_end _ _ _ _ _ R) as (ech & HE & Eof & _).
  pose proof (sr_data _ _ _ _ _ R) as Hd. unfold vbuffer_stream_isfinished at 1. apply runs_bind. step.
  rewrite Hd. step. vcall runs_rd_chunk; [exact HE|]. rewrite set_svb_id. step. rewrite Eof.
  unfold vbuffer_stream_finish. apply runs_bind. step. rewrite Hd. step.
  apply runs_on_vb. eapply runs_upd_chunk; [exact HE|]. unfold vbuffer_stream_push. apply runs_bind. step.
  cbn [set_svb ss_stream]. rewrite Hd. apply runs_bind, runs_on_vb. unfold vbuffer_chunk_end. step.
  vcall runs_rd_chunk; [apply lookup_insert_eq|]. simpl. apply runs_bind, runs_on_vb. unfold error. step. step.
  unfold vbuffer_stream_isfinished. apply runs_bind. step. cbn [set_svb ss_stream]. rewrite Hd. step.
  vcall (runs_rd_chunk _ E (set_eof true ech)); [unfold raised; simpl; rewrite He; apply lookup_insert_eq|].
  step. step. unfold raised. simpl. rewrite He. split_and!; try done. by exists E, ech.
Qed.
End properties.

(** ** Examples *)

(** A new stream, and one with two blocks. *)
Definition ex_heap0 : sstate := SS (VB ∅ ∅ ∅ None 60 3 85) ∅ ∅ ∅ (Stream None 1 2 CleanClient) 1 [].
Definition srun {A} (m : SM A) (s : sstate) : sstate := default s (snd <$> m s).
Definition ex_new : sstate := srun (vbuffer_stream_init 1 2 CleanClient) ex_heap0.
Definition ex_two : sstate :=
  srun (stream_run [OpPush [1; 2; 3] (Some 9%positive); OpPush [4; 5] None]) ex_new.

Lemma runs_srun {A} (m : SM A) s (P : sstate → Prop) : runs m s (λ _, P) → P (srun m s).
Proof. intros (a & s' & E & HP). unfold srun. by rewrite E. Qed.

Lemma ex_new_view : stream_view ex_new [].
Proof.
  apply (runs_srun _ _ (λ s, stream_view s _)). eapply init_view; try done.
  - split; simpl; try done; by intros x [y Hy].
  - by intros x [[y Hy]|[y Hy]].
Qed.

Lemma ex_two_view : stream_view ex_two [([1; 2; 3], Some 9%positive); ([4; 5], None)].
Proof.
  apply (runs_srun _ _ (λ s, stream_view s _)). eapply run_view; [apply ex_new_view|vm_compute; lia|vm_compute; done|]. done.
Qed.

(** The stream next to a buffer that waits to be pushed. *)
Definition ex_push_cs : list seg :=
  [(18%positive, Chunk 1 VbSpec.plain (Some 17%positive) 0 2)].
Definition ex_wait : sstate := srun (on_vb (vbuffer_create_from [6; 7])) ex_two.

Lemma ex_wait_view : stream_view ex_wait [([1; 2; 3], Some 9%positive); ([4; 5], None)].
Proof.
  apply (runs_srun _ _ (λ s, stream_view s _)), runs_on_vb.
  eapply (runs_create_from _ 43); [apply (view_heap _ _ ex_two_view)|by vm_compute|done|].
  intros e cs v' M. eapply view_frame; [apply ex_two_view|apply M|apply M|]. by intros ? ? _ _ x _ ?%elem_of_nil.
Qed.

Lemma ex_wait_rep : buf_rep (ss_vb ex_wait) 19 ex_push_cs.
Proof. concrete_rep. Qed.

Lemma vbuffer_stream_push_correct_witness :
  runs (vbuffer_stream_push (Some 19%positive) (Some 8%positive) (Some vbuffer_iterator_init)) ex_wait
    (λ r s', ∃ it, r = (true, None, Some it) ∧
    stream_view s' ([([1; 2; 3], Some 9%positive); ([4; 5], None)] ++ [([6; 7], Some 8%positive)]) ∧
    others_kept [19%positive] ex_wait s' ∧ stream_at s' it 5 ([1; 2; 3; 4; 5] ++ [6; 7])).
Proof.
  apply (vbuffer_stream_push_correct ex_wait 19 ex_push_cs (Some 8%positive) vbuffer_iterator_init
    [([1; 2; 3], Some 9%positive); ([4; 5], None)]);
    [apply ex_wait_view|apply ex_wait_rep|by intros c ch [= _ ->]%list_elem_of_singleton|
     vm_compute; discriminate|vm_compute; lia|vm_compute; reflexivity].
Defined.

Lemma vbuffer_stream_pop_correct_witness :
  runs (vbuffer_stream_pop false) ex_two (λ r s', ∃ e cs, r = (true, Some e, None) ∧
    stream_view s' [([4; 5], None)] ∧ buf_rep (ss_vb s') e cs ∧ content (ss_vb s') cs = [1; 2; 3] ∧
    no_ctl cs ∧ others_kept [] ex_two s' ∧ ss_cleaned s' = [] ++ [9%positive]).
Proof.
  apply (vbuffer_stream_pop_correct ex_two [1; 2; 3] (Some 9%positive) [([4; 5], None)] false);
    [apply ex_two_view|vm_compute; discriminate|vm_compute; discriminate].
Defined.

Lemma vbuffer_stream_refines_queue_witness :
  runs (stream_run [OpPop; OpPush [6] None; OpPop; OpPop; OpPop]) ex_two (λ rs s',
    rs = [Some ([1; 2; 3], Some 9%positive); None; Some ([4; 5], None); Some ([6], None); None] ∧
    stream_view s' []).
Proof.
  apply (vbuffer_stream_refines_queue ex_two [([1; 2; 3], Some 9%positive); ([4; 5], None)]
    [OpPop; OpPush [6] None; OpPop; OpPop; OpPop]);
    [apply ex_two_view|vm_compute; lia|vm_compute; reflexivity].
Defined.

Lemma vbuffer_stream_finish_correct_witness :
  runs (f0 ← vbuffer_stream_isfinished; vbuffer_stream_finish;;
        r ← vbuffer_stream_push (Some 19%positive) None None; f ← vbuffer_stream_isfinished; ret (f0, r, f)) ex_wait
    (λ r s', r = (false, (false, Some 19%positive, None), true) ∧
      vb_error (ss_vb s') = Some "stream marked as finished" ∧
      ∃ E ech, st_data (ss_stream ex_wait) = Some E ∧ vb_chunks (ss_vb ex_wait) !! E = Some ech ∧
        vb_chunks (ss_vb s') = <[E := set_eof true ech]> (vb_chunks (ss_vb ex_wait)) ∧
        vb_links (ss_vb s') = vb_links (ss_vb ex_wait) ∧ vb_datas (ss_vb s') = vb_datas (ss_vb ex_wait) ∧
        ss_chunks s' = ss_chunks ex_wait ∧ ss_links s' = ss_links ex_wait ∧ ss_stream s' = ss_stream ex_wait).
Proof.
  apply (vbuffer_stream_finish_correct ex_wait [([1; 2; 3], Some 9%positive); ([4; 5], None)]
    (Some 19%positive) None None); [apply ex_wait_view|by vm_compute].
Defined.
