(* ===== verification/TcpStream.v ===== *)
(** * TCP reassembly (modules/protocol/tcp/tcp-stream.c)

    A tcp stream reorders the segments of one direction of a connection and
    rewrites the sequence numbers when the data it forwards was changed. The
    lists of the code (verified as sequences in List2) are lists of chunk
    records here. The byte stream below it is used through the interface
    [ByteStream], which states what vbuffer_stream.c promises: blocks come out
    in the order they were pushed. File TcpVb shows that it keeps this promise. *)

From S2P Require Import Prelude.

(** ** The byte stream below *)

(** [bs_rep n k v st]: the blocks [v] were pushed and not popped yet, and there is
    room for [n] more operations and [k] more bytes. *)
Class ByteStream (St : Type) := {
  bs_pos : Type;
  bs_rep : nat → Z → list (list Z) → St → Prop;
  bs_init : nat → St;
  bs_end : St → bs_pos;
  bs_push : list Z → St → bool * St * bs_pos;
  bs_pop : St → option (list Z) * St;
  bs_init_rep n : Z.of_nat n < 2 ^ 28 → bs_rep n (2 ^ 32 - 1) [] (bs_init n);
  bs_weaken n m k l v st : bs_rep n k v st → (m ≤ n)%nat → l ≤ k → bs_rep m l v st;
  bs_push_rep n k v b st : bs_rep (S n) k v st → zlen b ≤ k →
    (bs_push b st).1.1 = true ∧ bs_rep n (k - zlen b) (v ++ [b]) (bs_push b st).1.2;
  bs_pop_rep n k v b st : bs_rep (S n) k (b :: v) st →
    (bs_pop st).1 = Some b ∧ bs_rep n k v (bs_pop st).2;
  bs_pop_nil n k st : bs_rep n k [] st → bs_pop st = (None, st);
}.

(** ** Packets (haka/tcp.h) *)

(** The fields the stream uses: [tcp_packet] is [packet != NULL],
    [tcp_writable] tells whether the header may be written. *)
Record tcp := Tcp {
  tcp_packet : bool;
  tcp_writable : bool;
  tcp_seq : Z;
  tcp_ack : Z;
  tcp_payload : option (list Z);
}.

Record tcp_stream_chunk := TcpChunk {
  ck_tcp : option tcp;
  ck_start_seq : Z;
  ck_end_seq : Z;
  ck_offset_seq : Z;
}.

Section tcp_stream.
Context {St : Type} `{BS : ByteStream St}.

Record tcp_stream := TcpStream {
  ts_start_seq : Z;
  ts_last_seq : Z;
  ts_last_sent_seq : Z;
  ts_first_offset_seq : Z;
  ts_sent_offset_seq : Z;
  ts_current : list tcp_stream_chunk;
  ts_queued : list tcp_stream_chunk;
  ts_sent : list tcp_stream_chunk;
  ts_stream : St;
}.

(** The stream, the pending error, the allocator, the packets released. *)
Record env := Env {
  en_stream : tcp_stream;
  en_error : option string;
  en_mem : nat;
  en_released : list tcp;
}.

Definition upd_stream (f : tcp_stream → tcp_stream) : M env unit :=
  modify (λ e, Env (f (en_stream e)) (en_error e) (en_mem e) (en_released e)).
Definition tcp_error (msg : string) : M env unit :=
  modify (λ e, Env (en_stream e) (if en_error e is Some _ then en_error e else Some msg)
                 (en_mem e) (en_released e)).
Definition tcp_release (t : tcp) : M env unit :=
  modify (λ e, Env (en_stream e) (en_error e) (en_mem e) (t :: en_released e)).
Definition alloc : M env bool := λ e,
  match en_mem e with
  | O => Some (false, e)
  | S n => Some (true, Env (en_stream e) (en_error e) n (en_released e))
  end.

(** *** tcp.h: checked accesses *)

Definition TCP_CHECK (t : tcp) : M env bool :=
  if tcp_packet t then ret true else tcp_error "invalid tcp packet";; ret false.

Definition tcp_get_seq (t : tcp) : M env Z :=
  ok ← TCP_CHECK t; ret (if ok : bool then tcp_seq t else 0).
Definition tcp_get_ack_seq (t : tcp) : M env Z :=
  ok ← TCP_CHECK t; ret (if ok : bool then tcp_ack t else 0).

(** A header that may not be written is left as it is, with an error. *)
Definition set_header (t : tcp) (f : tcp → tcp) : M env tcp :=
  ok ← TCP_CHECK t;
  if negb ok then ret t else
  if tcp_writable t then ret (f t) else tcp_error "read only buffer";; ret t.

Definition tcp_set_seq (t : tcp) (v : Z) : M env tcp :=
  set_header t (λ t, Tcp (tcp_packet t) (tcp_writable t) (u32 v) (tcp_ack t) (tcp_payload t)).
Definition tcp_set_ack_seq (t : tcp) (v : Z) : M env tcp :=
  set_header t (λ t, Tcp (tcp_packet t) (tcp_writable t) (tcp_seq t) (u32 v) (tcp_payload t)).

Definition tcp_get_payload_length (t : tcp) : M env Z :=
  ok ← TCP_CHECK t;
  if negb ok then ret 0 else b ← deref (tcp_payload t); ret (zlen b).

Definition set_payload (b : option (list Z)) (t : tcp) : tcp :=
  Tcp (tcp_packet t) (tcp_writable t) (tcp_seq t) (tcp_ack t) b.

(** [tcp_action_drop]: the ip packet is released. *)
Definition tcp_action_drop (t : tcp) : M env tcp :=
  ok ← TCP_CHECK t;
  ret (if ok : bool then Tcp false (tcp_writable t) (tcp_seq t) (tcp_ack t) (tcp_payload t) else t).

(** *** tcp-stream.c *)

(** [room]: the operations the new byte stream has memory for. *)
Definition tcp_stream_create (room : nat) : tcp_stream :=
  TcpStream (2 ^ 32 - 1) 0 0 0 0 [] [] [] (bs_init room).

Definition tcp_stream_chunk_free (chunk : tcp_stream_chunk) : M env unit :=
  match ck_tcp chunk with Some t => tcp_release t | None => skip end.

Fixpoint tcp_stream_free_chunks (l : list tcp_stream_chunk) : M env unit :=
  match l with
  | [] => skip
  | c :: l => tcp_stream_chunk_free c;; tcp_stream_free_chunks l
  end.

(** The release of the byte stream itself is left to its own component. *)
Definition tcp_stream_clear : M env unit :=
  s ← gets en_stream;
  tcp_stream_free_chunks (ts_current s);;
  tcp_stream_free_chunks (ts_queued s);;
  tcp_stream_free_chunks (ts_sent s);;
  upd_stream (λ s, TcpStream (ts_start_seq s) (ts_last_seq s) (ts_last_sent_seq s)
    (ts_first_offset_seq s) (ts_sent_offset_seq s) [] [] [] (ts_stream s)).

Definition tcp_stream_init (seq : Z) : M env unit :=
  upd_stream (λ s, TcpStream (u32 seq) 0 0 (ts_first_offset_seq s) (ts_sent_offset_seq s)
    (ts_current s) (ts_queued s) (ts_sent s) (ts_stream s)).

Definition tcp_remap_seq (seq ref : Z) : Z :=
  let r := u64 (seq + Z.shiftl (Z.shiftr ref 32) 32) in
  if bool_decide (u64 (r + 2 ^ 31) < ref) then u64 (r + 2 ^ 32) else r.

(** Appending a chunk to [current]: the payload goes to the byte stream, and
    the result of that push is not tested. *)
Definition push_current (chunk : tcp_stream_chunk) : M env bs_pos :=
  t ← deref (ck_tcp chunk);
  b ← deref (tcp_payload t);
  s ← gets en_stream;
  let '(ok, st, pos) := bs_push b (ts_stream s) in
  let t := if ok then set_payload None t else t in
  let chunk := TcpChunk (Some t) (ck_start_seq chunk) (ck_end_seq chunk) (ck_offset_seq chunk) in
  upd_stream (λ s, TcpStream (ts_start_seq s) (ck_end_seq chunk) (ts_last_sent_seq s)
    (ts_first_offset_seq s) (ts_sent_offset_seq s) (ts_current s ++ [chunk]) (ts_queued s)
    (ts_sent s) st);;
  ret (if ok then pos else bs_end (ts_stream s)).

Definition set_queued (q : list tcp_stream_chunk) : M env unit :=
  upd_stream (λ s, TcpStream (ts_start_seq s) (ts_last_seq s) (ts_last_sent_seq s)
    (ts_first_offset_seq s) (ts_sent_offset_seq s) (ts_current s) q (ts_sent s) (ts_stream s)).

(** Queued packets that are next in the sequence. *)
Fixpoint push_queued (q : list tcp_stream_chunk) : M env unit :=
  match q with
  | [] => skip
  | qchunk :: q =>
      s ← gets en_stream;
      if bool_decide (ck_start_seq qchunk ≠ ts_last_seq s) then skip else
      set_queued q;;
      _ ← push_current qchunk;
      push_queued q
  end.

(** The search for the insertion point: the chunks before it and after. *)
Fixpoint find_insert (start : Z) (q : list tcp_stream_chunk)
    : list tcp_stream_chunk * list tcp_stream_chunk :=
  match q with
  | [] => ([], [])
  | qchunk :: q' =>
      if bool_decide (ck_start_seq qchunk > start) then ([], q)
      else let '(a, b) := find_insert start q' in (qchunk :: a, b)
  end.

Definition tcp_stream_push (t : tcp) (current : bool) : M env (bool * option bs_pos) :=
  s ← gets en_stream;
  if bool_decide (ts_start_seq s = size_max) then
    tcp_error "uninitialized stream";; ret (false, None) else
  ok ← alloc;
  if negb ok then tcp_error "memory error";; ret (false, None) else
  let ref_seq := u64 (ts_last_sent_seq s + ts_start_seq s) in
  seq ← tcp_get_seq t;
  let start := u64 (tcp_remap_seq seq ref_seq - ts_start_seq s) in
  len ← tcp_get_payload_length t;
  let chunk := TcpChunk (Some t) start (u64 (start + len)) 0 in
  let pos := if current then Some (bs_end (ts_stream s)) else None in
  if bool_decide (ts_last_seq s = start) then
    pos' ← push_current chunk;
    push_queued (ts_queued s);;
    ret (true, if current then Some pos' else None)
  else if bool_decide (start > ts_last_seq s) then
    let '(before, after) := find_insert start (ts_queued s) in
    match after with
    | qchunk :: _ =>
        if bool_decide (ck_end_seq chunk > ck_start_seq qchunk) then
          tcp_stream_chunk_free chunk;; ret (false, pos)
        else set_queued (before ++ chunk :: after);; ret (true, pos)
    | [] => set_queued (before ++ [chunk]);; ret (true, pos)
    end
  else tcp_stream_chunk_free chunk;; ret (false, pos).

Definition tcp_stream_seq (t : tcp) : M env tcp :=
  s ← gets en_stream;
  seq ← tcp_get_seq t;
  let ack := u32 (seq + ts_first_offset_seq s) in
  if bool_decide (ack ≠ seq) then tcp_set_seq t ack else ret t.

Definition tcp_stream_pop : M env (option tcp) :=
  s ← gets en_stream;
  match ts_current s with
  | [] => ret None
  | chunk :: rest =>
      let '(available, st) := bs_pop (ts_stream s) in
      match available with
      | None =>
          upd_stream (λ s, TcpStream (ts_start_seq s) (ts_last_seq s) (ts_last_sent_seq s)
            (ts_first_offset_seq s) (ts_sent_offset_seq s) (ts_current s) (ts_queued s)
            (ts_sent s) st);;
          ret None
      | Some b =>
          t ← deref (ck_tcp chunk);
          c_assert (is_null (tcp_payload t));;
          c_assert (match last (ts_sent s) with
                    | None => true
                    | Some l => bool_decide (ck_start_seq chunk = ck_end_seq l)
                    end);;
          let offset := s64 (zlen b - u64 (ck_end_seq chunk - ck_start_seq chunk)) in
          let chunk := TcpChunk None (ck_start_seq chunk) (ck_end_seq chunk) offset in
          t ← tcp_stream_seq (set_payload (Some b) t);
          upd_stream (λ s, TcpStream (ts_start_seq s) (ts_last_seq s) (ck_end_seq chunk)
            (s64 (ts_first_offset_seq s + offset)) (ts_sent_offset_seq s) rest (ts_queued s)
            (ts_sent s ++ [chunk]) st);;
          t ← (if bool_decide (offset < 0) &&
                  bool_decide (u64 offset = u64 (ck_start_seq chunk - ck_end_seq chunk))
               then tcp_action_drop t else ret t);
          ret (Some t)
      end
  end.

(** The walk of [tcp_stream_ack] over the sent chunks: [seq] counts the bytes
    sent, [new_seq] the bytes received for them. *)
Fixpoint ack_loop (sent : list tcp_stream_chunk) (ack seq new_seq : Z) : M env (Z * Z) :=
  match sent with
  | [] => ret (seq, new_seq)
  | chunk :: rest =>
      let len := u64 (ck_end_seq chunk - ck_start_seq chunk) in
      let seq' := u64 (seq + len + ck_offset_seq chunk) in
      if bool_decide (seq' > ack) then ret (seq, new_seq) else
      if bool_decide (ack ≤ seq') then ret (seq', ck_end_seq chunk) else
      c_assert (match rest with
                | [] => true
                | n :: _ => bool_decide (ck_start_seq n = ck_end_seq chunk)
                end);;
      ack_loop rest ack seq' (ck_end_seq chunk)
  end.

Definition tcp_stream_ack (t : tcp) : M env tcp :=
  if negb (tcp_packet t) then ret t else
  s ← gets en_stream;
  ack0 ← tcp_get_ack_seq t;
  match ts_sent s with
  | [] => ret t
  | chunk :: _ =>
      let seq := u64 (ts_sent_offset_seq s + ck_start_seq chunk) in
      let ack := u64 (tcp_remap_seq ack0 seq - ts_start_seq s) in
      '(seq, new_seq) ← ack_loop (ts_sent s) ack seq (ck_start_seq chunk);
      let new_seq := u64 (u64 (new_seq + (ack - seq)) + ts_start_seq s) in
      if bool_decide (ack0 ≠ new_seq) then tcp_set_ack_seq t new_seq else ret t
  end.

Definition tcp_stream_lastseq (s : tcp_stream) : Z :=
  u32 (ts_start_seq s + ts_last_sent_seq s + ts_first_offset_seq s).
End tcp_stream.

Arguments tcp_stream : clear implicits.
Arguments env : clear implicits.
