(* ===== verification/TcpSeq.v ===== *)
(** * Properties of the tcp stream

    Sequence numbers are recovered from their low 32 bits around the last byte
    sent; segments of one byte sequence are delivered in its order whatever the
    order they arrive in; acknowledgements are translated back through the
    changes of length made to the data. *)

From S2P Require Import Prelude TcpStream.

(** ** Sequence numbers *)

Lemma remap_window t ref :
  0 ≤ ref < 2 ^ 63 → ref - 2 ^ 31 ≤ t < ref + 2 ^ 31 → ref / 2 ^ 32 * 2 ^ 32 ≤ t →
  tcp_remap_seq (u32 t) ref = t.
Proof.
  intros Hr Hw He. unfold tcp_remap_seq.
  rewrite Z.shiftr_div_pow2, Z.shiftl_mul_pow2 by lia.
  set (hi := ref / 2 ^ 32 * 2 ^ 32) in *.
  assert (hi ≤ ref < hi + 2 ^ 32) as Hhi.
  { pose proof (Z.div_mod ref (2 ^ 32) ltac:(lia)). pose proof (Z.mod_pos_bound ref (2 ^ 32) ltac:(lia)).
    unfold hi. lia. }
  assert (0 ≤ hi) by (unfold hi; pose proof (Z.div_pos ref (2 ^ 32)); nia).
  assert (u32 t = t - hi ∧ t < hi + 2 ^ 32 ∨ u32 t = t - hi - 2 ^ 32 ∧ hi + 2 ^ 32 ≤ t) as Ht.
  { unfold u32, wrap. destruct (decide (t < hi + 2 ^ 32)); [left|right]; (split; [|lia]).
    - symmetry. apply (Z.mod_unique t (2 ^ 32) (ref / 2 ^ 32)); [lia|]. unfold hi. lia.
    - symmetry. apply (Z.mod_unique t (2 ^ 32) (ref / 2 ^ 32 + 1)); [lia|]. unfold hi in *. lia. }
  destruct Ht as [[-> Ht]|[-> Ht]].
  - replace (t - hi + hi) with t by lia. rewrite (u64_small t) by lia.
    rewrite u64_small by lia. rewrite bool_decide_false by lia. done.
  - replace (t - hi - 2 ^ 32 + hi) with (t - 2 ^ 32) by lia. rewrite (u64_small (t - 2 ^ 32)) by lia.
    rewrite u64_small by lia. rewrite bool_decide_true by lia. rewrite u64_small by lia. lia.
Qed.

(** C39 [tcp_remap_seq]: within half a sequence space around the reference, and
    not before the reference's own 2^32 epoch, the 64-bit position of a segment
    is recovered from the 32 bits of its header. *)
Theorem tcp_remap_seq_correct t ref :
  0 ≤ ref < 2 ^ 63 → ref - 2 ^ 31 ≤ t < ref + 2 ^ 31 → ref / 2 ^ 32 * 2 ^ 32 ≤ t →
  tcp_remap_seq (t `mod` 2 ^ 32) ref = t.
Proof. apply remap_window. Qed.

(** Over the wrap-around of the header field. *)
Lemma tcp_remap_seq_correct_witness : tcp_remap_seq ((2 ^ 32 + 7) `mod` 2 ^ 32) (2 ^ 32 - 9) = 2 ^ 32 + 7.
Proof. apply (tcp_remap_seq_correct (2 ^ 32 + 7) (2 ^ 32 - 9)); vm_compute; intuition discriminate. Defined.

(** A segment that was sent just before the wrap-around and comes again after it
    is placed 2^32 bytes too far: the code only corrects forward. *)
Theorem tcp_remap_seq_no_backward :
  tcp_remap_seq ((2 ^ 32 - 100) `mod` 2 ^ 32) (2 ^ 32 + 50) = 2 * 2 ^ 32 - 100.
Proof. vm_compute. reflexivity. Qed.

(** ** Reassembly *)

(** A block [b] that is at the offset [a] of the byte sequence [D]. *)
Definition seg_of (D : list Z) (a : Z) (b : list Z) : Prop :=
  0 ≤ a ∧ a + zlen b ≤ zlen D ∧ b = zslice a (zlen b) D.

Definition queued_ok (D : list Z) (ck : tcp_stream_chunk) : Prop :=
  ∃ t b, ck_tcp ck = Some t ∧ tcp_payload t = Some b ∧
    ck_end_seq ck = ck_start_seq ck + zlen b ∧ seg_of D (ck_start_seq ck) b.

(** The chunks follow each other from [a] to [b]. *)
Fixpoint contig (a : Z) (cs : list tcp_stream_chunk) (b : Z) : Prop :=
  match cs with
  | [] => a = b
  | c :: cs => ck_start_seq c = a ∧ contig (ck_end_seq c) cs b
  end.

Lemma contig_app a cs b c : contig a cs b → ck_start_seq c = b → contig a (cs ++ [c]) (ck_end_seq c).
Proof. revert a. induction cs as [|x cs IH]; intros a; simpl; [by intros <-|]. intros [? ?] ?. auto. Qed.

Section reassembly.
Context {St : Type} `{BS : ByteStream St}.
Implicit Types s : tcp_stream St.
Implicit Types e : env St.

(** The stream has delivered the first [ts_last_seq] bytes of [D], in order,
    to the byte stream; what is queued belongs to [D]. The byte stream has room for
    the rest of [D], for the queued blocks and for [n] more. *)
Record asm (D : list Z) (n : nat) s : Prop := {
  as_start : 0 ≤ ts_start_seq s < 2 ^ 32;
  as_small : zlen D < 2 ^ 62;
  as_seq : 0 ≤ ts_last_sent_seq s ≤ ts_last_seq s ∧ ts_last_seq s ≤ zlen D;
  as_current : contig (ts_last_sent_seq s) (ts_current s) (ts_last_seq s);
  as_view : ∃ v, bs_rep (n + length (ts_queued s)) (zlen D - ts_last_seq s) v (ts_stream s) ∧
    concat v = zslice (ts_last_sent_seq s) (ts_last_seq s - ts_last_sent_seq s) D;
  as_queued : Forall (queued_ok D) (ts_queued s);
}.

Lemma asm_weaken D n m s : asm D n s → (m ≤ n)%nat → asm D m s.
Proof.
  intros [A1 A2 A3 A4 (v & A5 & A6) A7] Hm. split; try done. exists v. split; [|done].
  eapply bs_weaken; [exact A5|lia|lia].
Qed.

Lemma push_current_spec D n e ck Q :
  asm D (S n) (en_stream e) → queued_ok D ck → ck_start_seq ck = ts_last_seq (en_stream e) →
  (∀ pos e', asm D n (en_stream e') → ts_last_seq (en_stream e') = ck_end_seq ck →
     ts_last_seq (en_stream e) ≤ ck_end_seq ck →
     ts_queued (en_stream e') = ts_queued (en_stream e) →
     ts_start_seq (en_stream e') = ts_start_seq (en_stream e) →
     ts_last_sent_seq (en_stream e') = ts_last_sent_seq (en_stream e) →
     en_error e' = en_error e → en_mem e' = en_mem e → en_released e' = en_released e → Q pos e') →
  runs (push_current ck) e Q.
Proof.
  intros [A1 A2 A3 A5 (v & A4 & A6) A7] (t & b & Et & Eb & Ee & S1 & S2 & S3) Es HQ.
  unfold push_current. rewrite Et. step. rewrite Eb. step. step.
  destruct (bs_push_rep _ _ _ b _ A4) as [P1 P2]; [lia|].
  destruct (bs_push b (ts_stream (en_stream e))) as [[ok st] pos]. simpl in P1, P2. subst ok.
  unfold upd_stream. step. step. pose proof (zlen_nonneg b).
  apply HQ; simpl; try done; [|lia]. split; simpl; try done.
  - lia.
  - exact (contig_app _ _ _ (TcpChunk _ _ _ _) A5 Es).
  - exists (v ++ [b]). split.
    { by replace (zlen D - ck_end_seq ck) with (zlen D - ts_last_seq (en_stream e) - zlen b) by lia. }
    rewrite concat_app, A6. simpl. rewrite app_nil_r. rewrite Ee, Es.
    replace (ts_last_seq (en_stream e) + zlen b - ts_last_sent_seq (en_stream e)) with
      ((ts_last_seq (en_stream e) - ts_last_sent_seq (en_stream e)) + zlen b) by lia.
    rewrite zslice_split by lia. f_equal.
    by replace (ts_last_sent_seq (en_stream e) + (ts_last_seq (en_stream e) - ts_last_sent_seq (en_stream e)))
      with (ck_start_seq ck) by lia.
Qed.

(** The chunk at the head of the queue has left it. *)
Lemma asm_dequeue D n e ck q :
  asm D n (en_stream e) → ts_queued (en_stream e) = ck :: q →
  let s := en_stream e in
  queued_ok D ck ∧ asm D (S n) (TcpStream (ts_start_seq s) (ts_last_seq s) (ts_last_sent_seq s)
    (ts_first_offset_seq s) (ts_sent_offset_seq s) (ts_current s) q (ts_sent s) (ts_stream s)).
Proof.
  intros [A1 A2 A3 A4 (v & A5 & A6) A7] Eq s. rewrite Eq in *. apply Forall_cons in A7 as [Hck Hq].
  split; [done|]. split; simpl; try done. exists v. split; [|done]. simpl in A5.
  by replace (S (n + length q)) with (n + S (length q))%nat by lia.
Qed.

Lemma push_queued_spec D n : ∀ q e Q,
  asm D n (en_stream e) → ts_queued (en_stream e) = q →
  (∀ e', asm D n (en_stream e') → ts_last_seq (en_stream e) ≤ ts_last_seq (en_stream e') →
     ts_start_seq (en_stream e') = ts_start_seq (en_stream e) →
     ts_last_sent_seq (en_stream e') = ts_last_sent_seq (en_stream e) →
     en_released e' = en_released e → Q tt e') →
  runs (push_queued q) e Q.
Proof.
  induction q as [|ck q IH]; intros e Q HA Eq HQ; simpl.
  { unfold skip. step. by apply HQ. }
  step. case_test as E; [unfold skip; step; by apply HQ|].
  apply dec_stable in E. unfold set_queued, upd_stream. step.
  destruct (asm_dequeue _ _ _ _ _ HA Eq) as [Hck HA1].
  call (push_current_spec D n); [done|done|done|].
  intros pos e' HA' El Hle Eq' Es Esent _ _ Er. simpl in *. apply IH; [done|done|].
  intros e2 HA2 Hle2 Es2 Esent2 Er2. apply HQ; [done|lia|congruence|congruence|congruence].
Qed.

Lemma find_insert_split start q : (find_insert start q).1 ++ (find_insert start q).2 = q.
Proof.
  induction q as [|ck q IH]; simpl; [done|]. case_bool_decide; simpl; [done|].
  destruct (find_insert start q). simpl in *. by rewrite IH.
Qed.

(** The packet [t] carries the block [b] at the offset [a] of [D], and its
    sequence number can be recovered from the state. *)
Record carries (D : list Z) s (t : tcp) (a : Z) (b : list Z) : Prop := {
  ca_packet : tcp_packet t = true;
  ca_payload : tcp_payload t = Some b;
  ca_seg : seg_of D a b;
  ca_seq : tcp_seq t = (ts_start_seq s + a) `mod` 2 ^ 32;
  ca_window : - 2 ^ 31 ≤ a - ts_last_sent_seq s < 2 ^ 31;
  ca_epoch : (ts_start_seq s + ts_last_sent_seq s) / 2 ^ 32 * 2 ^ 32 ≤ ts_start_seq s + a;
}.

Lemma carries_start D n s t a b :
  asm D n s → carries D s t a b →
  u64 (tcp_remap_seq (tcp_seq t) (u64 (ts_last_sent_seq s + ts_start_seq s)) - ts_start_seq s) = a ∧
  u64 (a + zlen b) = a + zlen b.
Proof.
  intros [A1 A2 A3 _ _ _] [C1 C2 (S1 & S2 & S3) C4 C5 C6]. pose proof (zlen_nonneg b).
  rewrite (u64_small (ts_last_sent_seq s + _)) by lia. rewrite C4.
  rewrite (Z.add_comm (ts_start_seq s)) in C6.
  assert (tcp_remap_seq ((ts_start_seq s + a) `mod` 2 ^ 32) (ts_last_sent_seq s + ts_start_seq s)
    = ts_start_seq s + a) as ->.
  { apply remap_window; lia. }
  replace (ts_start_seq s + a - ts_start_seq s) with a by lia. by wraps.
Qed.

Lemma runs_push_head D n e t a b (cur : bool) Q :
  asm D n (en_stream e) → en_mem e ≠ 0%nat → carries D (en_stream e) t a b →
  let s := en_stream e in
  let e1 := Env s (en_error e) (pred (en_mem e)) (en_released e) in
  let chunk := TcpChunk (Some t) a (a + zlen b) 0 in
  let pos := if cur then Some (bs_end (ts_stream s)) else None in
  runs (if bool_decide (ts_last_seq s = a) then
    pos' ← push_current chunk;
    push_queued (ts_queued s);;
    ret (true, if cur then Some pos' else None)
  else if bool_decide (a > ts_last_seq s) then
    let '(before, after) := find_insert a (ts_queued s) in
    match after with
    | qchunk :: _ =>
        if bool_decide (ck_end_seq chunk > ck_start_seq qchunk) then
          tcp_stream_chunk_free chunk;; ret (false, pos)
        else set_queued (before ++ chunk :: after);; ret (true, pos)
    | [] => set_queued (before ++ [chunk]);; ret (true, pos)
    end
  else tcp_stream_chunk_free chunk;; ret (false, pos)) e1 Q →
  runs (tcp_stream_push t cur) e Q.
Proof.
  intros HA Hm HC s e1 chunk pos HR. unfold tcp_stream_push. step. fold s.
  destruct (carries_start _ _ _ _ _ _ HA HC) as [E1 E2]. fold s in E1.
  rewrite bool_decide_false by (pose proof (as_start _ _ _ HA); unfold s, size_max; lia).
  unfold alloc. destruct (en_mem e) as [|mem] eqn:Em; [done|].
  eapply runs_bind, runs_eq; [by rewrite Em|]. cbv beta. simpl.
  unfold tcp_get_seq, TCP_CHECK. rewrite (ca_packet _ _ _ _ _ HC). apply runs_bind. step. step.
  unfold tcp_get_payload_length, TCP_CHECK. rewrite (ca_packet _ _ _ _ _ HC). apply runs_bind.
  step. simpl. rewrite (ca_payload _ _ _ _ _ HC). step. step. rewrite E1, E2. exact HR.
Qed.

Lemma runs_push D n e t a b cur Q :
  asm D (S n) (en_stream e) → en_mem e ≠ 0%nat → carries D (en_stream e) t a b →
  (∀ r e', asm D n (en_stream e') → ts_last_seq (en_stream e) ≤ ts_last_seq (en_stream e') →
     (r.1 = false → en_released e' = t :: en_released e ∧ a ≠ ts_last_seq (en_stream e)) →
     (r.1 = true → en_released e' = en_released e) →
     (a = ts_last_seq (en_stream e) → r.1 = true ∧ a + zlen b ≤ ts_last_seq (en_stream e')) → Q r e') →
  runs (tcp_stream_push t cur) e Q.
Proof.
  intros HA Hm HC HQ. eapply runs_push_head; [done..|].
  pose proof HA as [A1 A2 A3 A4 (v & A5 & A6) A7]. pose proof HC as [C1 C2 C3 C4 C5 C6].
  assert (asm D n (en_stream e)) as HAn by (eapply asm_weaken; [exact HA|lia]).
  set (chunk := TcpChunk (Some t) a (a + zlen b) 0).
  assert (queued_ok D chunk) as Hck by (by exists t, b).
  case_test as E.
  { call (push_current_spec D n); [done|done|done|].
    intros pos e' HA' El Hle Eq Es Esent _ _ Er. call (push_queued_spec D n); [done|done|].
    intros e2 HA2 Hle2 Es2 Esent2 Er2. step. simpl in *. apply HQ; simpl; [done|lia|done|congruence|].
    intros _. split; [done|lia]. }
  pose proof (find_insert_split a (ts_queued (en_stream e))) as Hf.
  case_test as E2.
  2:{ unfold tcp_stream_chunk_free, tcp_release. simpl. step. step.
      by apply HQ. }
  destruct (find_insert a (ts_queued (en_stream e))) as [before after]. simpl in Hf.
  assert (Forall (queued_ok D) (before ++ chunk :: after)) as Hq.
  { rewrite <- Hf in A7. apply Forall_app in A7 as [? ?]. apply Forall_app. split; [done|].
    by apply Forall_cons. }
  assert (asm D n (TcpStream (ts_start_seq (en_stream e)) (ts_last_seq (en_stream e)) (ts_last_sent_seq (en_stream e))
    (ts_first_offset_seq (en_stream e)) (ts_sent_offset_seq (en_stream e)) (ts_current (en_stream e))
    (before ++ chunk :: after) (ts_sent (en_stream e)) (ts_stream (en_stream e)))) as HA'.
  { split; simpl; try done. exists v. split; [|done]. rewrite <- Hf, length_app in A5. rewrite length_app. simpl.
    by replace (n + (length before + S (length after)))%nat with (S n + (length before + length after))%nat by lia. }
  destruct after as [|qc after].
  - unfold set_queued, upd_stream. step. step. by apply HQ.
  - case_test as E3.
    + unfold tcp_stream_chunk_free, tcp_release. simpl. step. step. by apply HQ.
    + unfold set_queued, upd_stream. step. step. by apply HQ.
Qed.
End reassembly.
