(* ===== verification/TcpPerm.v ===== *)
(** * TCP reassembly is complete

    The segments of a byte sequence, each pushed once and in any order, are all
    delivered: nothing stays queued and the byte stream holds the sequence. *)

From S2P Require Import Prelude TcpStream TcpSeq.

(** ** The segments of a sequence *)

Abbreviation segment := (Z * list Z)%type.

(** The blocks [bs] with their offsets, from [a] on. *)
Fixpoint offs (a : Z) (bs : list (list Z)) : list segment :=
  match bs with
  | [] => []
  | b :: bs => (a, b) :: offs (a + zlen b) bs
  end.

Definition qview (q : list tcp_stream_chunk) : list segment :=
  (λ ck, (ck_start_seq ck, default [] (ck_tcp ck ≫= tcp_payload))) <$> q.

Section offs.
Implicit Types bs : list (list Z).

Definition nonempty bs : Prop := Forall (λ b, 0 < zlen b) bs.

Lemma offs_ge a bs x : nonempty bs → x ∈ offs a bs → a ≤ x.1.
Proof.
  revert a. induction bs as [|b bs IH]; intros a Hn; simpl; [by intros ?%elem_of_nil|].
  apply Forall_cons in Hn as [Hb Hn]. intros [->|Hx]%elem_of_cons; simpl; [lia|].
  specialize (IH _ Hn Hx). lia.
Qed.

Lemma offs_end a bs l1 x l2 y :
  nonempty bs → offs a bs = l1 ++ x :: l2 → y ∈ l2 → x.1 + zlen x.2 ≤ y.1.
Proof.
  revert a l1. induction bs as [|b bs IH]; intros a l1 Hn E Hy; simpl in E; [by destruct l1|].
  apply Forall_cons in Hn as [Hb Hn]. destruct l1 as [|z l1]; simpl in E; injection E as <- E.
  - simpl. subst l2. by apply (offs_ge _ bs).
  - by eapply IH.
Qed.

Lemma offs_before a bs l1 x l2 y :
  nonempty bs → offs a bs = l1 ++ x :: l2 → y ∈ l1 → y.1 < x.1.
Proof.
  revert a l1. induction bs as [|b bs IH]; intros a l1 Hn E Hy; simpl in E; [by destruct l1|].
  apply Forall_cons in Hn as [Hb Hn].
  destruct l1 as [|z l1]; simpl in E; injection E as <- E; [by apply elem_of_nil in Hy|].
  apply elem_of_cons in Hy as [->|Hy]; [|by eapply IH].
  assert (a + zlen b ≤ x.1); [|simpl; lia]. apply (offs_ge _ bs); [done|]. rewrite E.
  apply elem_of_app. right. by left.
Qed.

Lemma offs_nodup a bs : nonempty bs → NoDup (offs a bs).
Proof.
  revert a. induction bs as [|b bs IH]; intros a Hn; simpl; [constructor|].
  apply Forall_cons in Hn as [Hb Hn]. constructor; [|auto].
  intros Hi. pose proof (offs_ge _ _ _ Hn Hi). simpl in *. lia.
Qed.

Lemma offs_seg D0 a bs l1 x l2 :
  zlen D0 = a → offs a bs = l1 ++ x :: l2 → seg_of (D0 ++ concat bs) x.1 x.2.
Proof.
  revert D0 a l1. induction bs as [|b bs IH]; intros D0 a l1 Ha E; simpl in E; [by destruct l1|].
  simpl. rewrite app_assoc. destruct l1 as [|z l1]; simpl in E; injection E as <- E.
  - simpl. pose proof (zlen_nonneg b). pose proof (zlen_nonneg D0).
    pose proof (zlen_nonneg (concat bs)). unfold seg_of. rewrite !zlen_app. split_and!; [lia|lia|].
    unfold zslice. rewrite <- app_assoc. rewrite zdrop_app_ge by lia.
    replace (a - zlen D0) with 0 by lia. rewrite zdrop_0, ztake_app_le by lia. by rewrite ztake_ge by lia.
  - eapply IH; [|done]. rewrite zlen_app. lia.
Qed.

Lemma offs_total a bs : a ≤ a + zlen (concat bs).
Proof. pose proof (zlen_nonneg (concat bs)). lia. Qed.

(** A suffix of the segments is the segments of a suffix. *)
Lemma offs_suffix a bs l1 l2 :
  offs a bs = l1 ++ l2 →
  ∃ bs1 bs2, bs = bs1 ++ bs2 ∧ l2 = offs (a + zlen (concat bs1)) bs2.
Proof.
  revert a l1. induction bs as [|b bs IH]; intros a l1 E; simpl in E.
  - symmetry in E. apply app_nil in E as [-> ->]. by exists [], [].
  - destruct l1 as [|z l1]; simpl in E.
    + exists [], (b :: bs). simpl. rewrite zlen_nil, Z.add_0_r. by rewrite <- E.
    + injection E as _ E. destruct (IH _ _ E) as (bs1 & bs2 & -> & ->).
      exists (b :: bs1), bs2. simpl. rewrite zlen_app. by rewrite Z.add_assoc.
Qed.
End offs.

(** ** The queue *)

Section queue.
Lemma find_insert_at a q1 q2 :
  Forall (λ ck, ck_start_seq ck ≤ a) q1 → Forall (λ ck, a < ck_start_seq ck) q2 →
  find_insert a (q1 ++ q2) = (q1, q2).
Proof.
  intros H1 H2. induction H1 as [|ck q1 Hc H1 IH]; simpl.
  - destruct H2 as [|ck q2 Hc H2]; simpl; [done|]. by rewrite bool_decide_true by lia.
  - rewrite bool_decide_false by lia. by rewrite IH.
Qed.

Lemma qview_starts q x : x ∈ qview q → ∃ ck, ck ∈ q ∧ x.1 = ck_start_seq ck.
Proof. intros (ck & -> & Hi)%list_elem_of_fmap. by exists ck. Qed.

Lemma qview_forall (P : Z → Prop) q :
  (∀ x, x ∈ qview q → P x.1) → Forall (λ ck, P (ck_start_seq ck)) q.
Proof.
  intros H. apply Forall_forall. intros ck Hi.
  apply (H (ck_start_seq ck, default [] (ck_tcp ck ≫= tcp_payload))).
  apply list_elem_of_fmap. by exists ck.
Qed.

Lemma filter_skip (x : segment) (P k : list segment) :
  (∀ y, y ∈ k → y ≠ x) → filter (.∈ x :: P) k = filter (.∈ P) k.
Proof.
  intros Hk. induction k as [|y k IH]; [done|]. rewrite !filter_cons.
  rewrite IH by (intros z Hz; apply Hk; by right). specialize (Hk y ltac:(by left)).
  assert (y ∈ x :: P ↔ y ∈ P) as Hiff by (rewrite elem_of_cons; naive_solver).
  repeat case_decide; naive_solver.
Qed.

Lemma qview_app_inv q l1 l2 :
  qview q = l1 ++ l2 → ∃ q1 q2, q = q1 ++ q2 ∧ qview q1 = l1 ∧ qview q2 = l2.
Proof. intros (q1 & q2 & -> & -> & ->)%fmap_app_inv. by exists q1, q2. Qed.
End queue.

(** ** The pushes *)

Section complete.
Context {St : Type} `{BS : ByteStream St}.
Implicit Types s : tcp_stream St.
Implicit Types e : env St.

Fixpoint push_all (ts : list tcp) : M (env St) unit :=
  match ts with
  | [] => skip
  | t :: ts => _ ← tcp_stream_push t false; push_all ts
  end.

(** Of the segments [segs], those of [P] have been pushed: a prefix is
    delivered, up to the first that is missing, and the others are queued. *)
Definition pushed (n : Z) (segs P : list segment) s : Prop :=
  ∃ pre bs2, segs = pre ++ offs (ts_last_seq s) bs2 ∧ ts_last_seq s + zlen (concat bs2) = n ∧
    (∀ x, x ∈ pre → x ∈ P) ∧
    qview (ts_queued s) = filter (.∈ P) (offs (ts_last_seq s) bs2) ∧
    match bs2 with [] => True | b :: _ => (ts_last_seq s, b) ∉ P end.

(** What the pushes never change. *)
Definition same_env e e' : Prop :=
  ts_start_seq (en_stream e') = ts_start_seq (en_stream e) ∧
  ts_last_sent_seq (en_stream e') = ts_last_sent_seq (en_stream e) ∧
  en_released e' = en_released e ∧ en_mem e' = en_mem e.

Lemma drain_spec D n P segs : ∀ bs2 pre q e Q,
  asm D n (en_stream e) → nonempty bs2 → ts_queued (en_stream e) = q →
  segs = pre ++ offs (ts_last_seq (en_stream e)) bs2 →
  ts_last_seq (en_stream e) + zlen (concat bs2) = zlen D → (∀ x, x ∈ pre → x ∈ P) →
  qview q = filter (.∈ P) (offs (ts_last_seq (en_stream e)) bs2) →
  (∀ e', asm D n (en_stream e') → pushed (zlen D) segs P (en_stream e') → same_env e e' → Q tt e') →
  runs (push_queued q) e Q.
Proof.
  induction bs2 as [|b bs2 IH]; intros pre q e Q HA Hn Eq Es Et0 Hp Hq HQ; simpl in Hq.
  { apply fmap_nil_inv in Hq as ->. simpl. unfold skip. step. apply HQ; [done| |done].
    exists pre, []. by rewrite Eq. }
  apply Forall_cons in Hn as [Hb Hn]. set (l := ts_last_seq (en_stream e)) in *.
  rewrite filter_cons in Hq. case_decide as Hin.
  - destruct q as [|ck q]; [done|]. simpl in Hq. injection Hq as E1 E2 Hq.
    simpl. step. rewrite bool_decide_false by (fold l; intros H; by apply H).
    unfold set_queued, upd_stream. step.
    destruct (asm_dequeue _ _ _ _ _ HA Eq) as [Hck HA1].
    call (push_current_spec D n); [done|done|done|].
    intros pos e' HA' El Hle Eq' Est Esent Eerr Em Er. simpl in Eq', Est, Esent, Em, Er.
    assert (ts_last_seq (en_stream e') = l + zlen b) as El'.
    { destruct Hck as (t & b' & Et & Eb & Ee & _). rewrite El, Ee. rewrite Et in E2. simpl in E2.
      rewrite Eb in E2. simpl in E2. subst b'. lia. }
    simpl in Et0. rewrite zlen_app in Et0.
    eapply (IH (pre ++ [(l, b)])); [done|done|done| | | |by rewrite El'|].
    + rewrite El', <- app_assoc. done.
    + rewrite El'. lia.
    + intros x [Hx|Hx]%elem_of_app; [auto|]. by apply list_elem_of_singleton in Hx as ->.
    + intros e2 HA2 HP2 (S1 & S2 & S3 & S4). apply HQ; [done|done|]. split_and!; congruence.
  - assert (∀ ck q', q = ck :: q' → ck_start_seq ck ≠ l) as Hne.
    { intros ck q' ->. simpl in Hq. intros E.
      assert ((ck_start_seq ck, default [] (ck_tcp ck ≫= tcp_payload)) ∈ filter (.∈ P) (offs (l + zlen b) bs2)) as Hi.
      { rewrite <- Hq. by left. }
      apply list_elem_of_filter in Hi as [_ Hi]. apply offs_ge in Hi; [|done]. simpl in Hi. lia. }
    assert (pushed (zlen D) segs P (en_stream e)) as HP.
    { exists pre, (b :: bs2). fold l. simpl. rewrite filter_cons, decide_False by done. by rewrite Eq. }
    destruct q as [|ck q]; simpl.
    + unfold skip. step. by apply HQ.
    + step. rewrite bool_decide_true by (fold l; by eapply Hne). unfold skip. step. by apply HQ.
Qed.

(** A segment that is neither next nor pushed goes to its place in the queue. *)
Lemma insert_place a0 bs2 P q l1 x l2 :
  nonempty bs2 → offs a0 bs2 = l1 ++ x :: l2 → x ∉ P →
  qview q = filter (.∈ P) (offs a0 bs2) →
  ∃ q1 q2, find_insert x.1 q = (q1, q2) ∧
    (∀ ck, qview [ck] = [x] → qview (q1 ++ ck :: q2) = filter (.∈ x :: P) (offs a0 bs2)) ∧
    (∀ ck q', q2 = ck :: q' → x.1 + zlen x.2 ≤ ck_start_seq ck).
Proof.
  intros Hn E Hx Hq. rewrite E in *. rewrite filter_app, filter_cons, decide_False in Hq by done.
  apply qview_app_inv in Hq as (q1 & q2 & -> & Hq1 & Hq2). exists q1, q2.
  assert (∀ y, y ∈ qview q2 → x.1 + zlen x.2 ≤ y.1) as Hafter.
  { intros y Hy. rewrite Hq2 in Hy. apply list_elem_of_filter in Hy as [_ Hy]. by eapply offs_end. }
  pose proof (zlen_nonneg x.2). split_and!.
  - apply find_insert_at.
    + apply (qview_forall (λ z, z ≤ x.1)). intros y Hy. rewrite Hq1 in Hy.
      apply list_elem_of_filter in Hy as [_ Hy]. pose proof (offs_before _ _ _ _ _ _ Hn E Hy). lia.
    + apply (qview_forall (λ z, x.1 < z)). intros y Hy. specialize (Hafter y Hy).
      assert (0 < zlen x.2); [|lia].
      assert (x ∈ offs a0 bs2) as Hi by (rewrite E; apply elem_of_app; right; by left).
      clear -Hn Hi. revert a0 Hi. induction bs2 as [|b bs2 IH]; intros a0; simpl; [by intros ?%elem_of_nil|].
      apply Forall_cons in Hn as [Hb Hn]. intros [->|Hi]%elem_of_cons; [done|by eapply IH].
  - intros ck Hck.
    pose proof (offs_nodup a0 bs2 Hn) as Hnd. rewrite E in Hnd.
    apply NoDup_app in Hnd as (_ & Hd & [Hx2 _]%NoDup_cons).
    rewrite filter_app, filter_cons, decide_True by (by left).
    rewrite (filter_skip x P l1), (filter_skip x P l2), <- Hq1, <- Hq2; [|by intros y Hy ->|].
    + change (ck :: q2) with ([ck] ++ q2). unfold qview in *. rewrite !fmap_app. by rewrite Hck.
    + intros y Hy ->. apply (Hd x Hy). by left.
  - intros ck q' ->. apply (Hafter (ck_start_seq ck, default [] (ck_tcp ck ≫= tcp_payload))). by left.
Qed.

(** The packet [t] carries the segment [x] of a stream that starts at [start]. *)
Definition packet_of (start : Z) (t : tcp) (x : segment) : Prop :=
  tcp_packet t = true ∧ tcp_payload t = Some x.2 ∧ tcp_seq t = (start + x.1) `mod` 2 ^ 32.

Lemma push_one D n segs bs P x t e Q :
  asm D (S n) (en_stream e) → segs = offs 0 bs → D = concat bs → nonempty bs → zlen D < 2 ^ 31 →
  ts_last_sent_seq (en_stream e) = 0 → en_mem e ≠ 0%nat →
  pushed (zlen D) segs P (en_stream e) → x ∈ segs → x ∉ P → packet_of (ts_start_seq (en_stream e)) t x →
  (∀ r e', asm D n (en_stream e') → pushed (zlen D) segs (x :: P) (en_stream e') →
     ts_start_seq (en_stream e') = ts_start_seq (en_stream e) →
     ts_last_sent_seq (en_stream e') = 0 → en_released e' = en_released e →
     en_mem e' = pred (en_mem e) → Q r e') →
  runs (tcp_stream_push t false) e Q.
Proof.
  intros HA Esegs ED Hn HD H0 Hm HP Hx HxP (T1 & T2 & T3) HQ.
  destruct HP as (pre & bs2 & E & Et0 & Hpre & Hq & Hhd). set (l := ts_last_seq (en_stream e)) in *.
  destruct x as [a b]. simpl in *.
  assert (seg_of D a b) as Hseg.
  { apply list_elem_of_split in Hx as (k1 & k2 & Ek). rewrite Ek in Esegs. symmetry in Esegs.
    pose proof (offs_seg [] 0 bs k1 (a, b) k2 eq_refl Esegs) as Hs. simpl in Hs. by rewrite <- ED in Hs. }
  pose proof (zlen_nonneg b). destruct (as_start _ _ _ HA) as [? ?].
  assert (carries D (en_stream e) t a b) as HC.
  { pose proof Hseg as (S1 & S2 & S3). split; try done; rewrite H0; [lia|].
    rewrite Z.add_0_r, Z.div_small by lia. lia. }
  eapply runs_push_head; [done..|]. fold l.
  assert (Forall (λ b, 0 < zlen b) bs2) as Hn2.
  { destruct (offs_suffix 0 bs pre (offs l bs2)) as (bs1 & bs2' & -> & Eo); [congruence|].
    apply Forall_app in Hn as [_ Hn]. clear -Eo Hn. revert Eo. generalize (0 + zlen (concat bs1)) as z.
    generalize l. revert bs2' Hn. induction bs2 as [|b bs2 IH]; intros bs2' Hn z1 z2 Eo; [constructor|].
    destruct bs2' as [|b' bs2']; [done|]. simpl in Eo. injection Eo as -> -> Eo.
    apply Forall_cons in Hn as [? ?]. constructor; [done|]. by eapply IH. }
  rewrite E in Hx. apply elem_of_app in Hx as [Hx|Hx]; [by apply Hpre in Hx|].
  case_test as El.
  - (* next in the sequence *)
    destruct bs2 as [|b0 bs2]; [by apply elem_of_nil in Hx|]. simpl in Hx, Hq, E.
    apply Forall_cons in Hn2 as [Hb0 Hn2].
    assert (b0 = b) as ->.
    { apply elem_of_cons in Hx as [[= _ ->]|Hx]; [done|]. apply offs_ge in Hx; [simpl in Hx; lia|done]. }
    rewrite filter_cons, decide_False in Hq by done.
    call (push_current_spec D n); [done|by exists t, b|done|].
    intros pos e' HA' El' Hle Eq' Est Esent Eerr Em Er. simpl in El', Eq', Est, Esent, Em, Er.
    call (drain_spec D n ((a, b) :: P) segs bs2 (pre ++ [(l, b)])); [done|done|done| | | | |].
    + rewrite El', <- El, <- app_assoc. done.
    + rewrite El', <- El. simpl in Et0. rewrite zlen_app in Et0. lia.
    + intros y [Hy|Hy]%elem_of_app; [right; auto|].
      apply list_elem_of_singleton in Hy as ->. rewrite El. by left.
    + rewrite El', <- El, Hq. symmetry. apply filter_skip.
      intros y Hy ->. apply offs_ge in Hy; [simpl in Hy; lia|done].
    + intros e2 HA2 HP2 (S1 & S2 & S3 & S4). step. apply HQ; try done; congruence.
  - (* later in the sequence *)
    apply list_elem_of_split in Hx as (l1 & l2 & Ex).
    assert (l ≤ a) as Hla.
    { assert ((a, b) ∈ offs l bs2) as Hi by (rewrite Ex; apply elem_of_app; right; by left).
      by apply offs_ge in Hi. }
    rewrite bool_decide_true by lia.
    destruct (insert_place l bs2 P (ts_queued (en_stream e)) l1 (a, b) l2) as (q1 & q2 & Ef & Hins & Haft);
      [done..|]. simpl in Ef. rewrite Ef.
    set (chunk := TcpChunk (Some t) a (a + zlen b) 0).
    pose proof (find_insert_split a (ts_queued (en_stream e))) as Hsp. rewrite Ef in Hsp. simpl in Hsp.
    assert (Forall (queued_ok D) (q1 ++ chunk :: q2)) as Hqok.
    { pose proof (as_queued _ _ _ HA) as Hq0. rewrite <- Hsp in Hq0. apply Forall_app in Hq0 as [? ?].
      apply Forall_app. split; [done|]. apply Forall_cons. split; [by exists t, b|done]. }
    assert (qview [chunk] = [(a, b)]) as Hck by (unfold qview; simpl; by rewrite T2).
    assert (∀ r e', en_stream e' = TcpStream (ts_start_seq (en_stream e)) l
      (ts_last_sent_seq (en_stream e)) (ts_first_offset_seq (en_stream e))
      (ts_sent_offset_seq (en_stream e)) (ts_current (en_stream e)) (q1 ++ chunk :: q2)
      (ts_sent (en_stream e)) (ts_stream (en_stream e)) →
      en_released e' = en_released e → en_mem e' = pred (en_mem e) → Q r e') as HQ'.
    { intros r e' Ee Er Em. apply HQ; rewrite ?Ee; try done.
      - destruct HA as [A1 A2 A3 A4 (v & A5 & A6) A7]. split; simpl; try done. exists v. split; [|done].
        rewrite <- Hsp, length_app in A5. rewrite length_app. simpl.
        by replace (n + (length q1 + S (length q2)))%nat with (S n + (length q1 + length q2))%nat by lia.
      - exists pre, bs2. simpl. split_and!; [done|done| |by apply Hins|].
        + intros y Hy. right. auto.
        + destruct bs2 as [|b0 bs2]; [done|]. intros [[= Ea _]|?]%elem_of_cons; [|done]. lia. }
    destruct q2 as [|qc q2].
    + unfold set_queued, upd_stream. step. step. by apply HQ'.
    + rewrite bool_decide_false by (specialize (Haft qc q2 eq_refl); simpl in *; lia).
      unfold set_queued, upd_stream. step. step. by apply HQ'.
Qed.

(** Pushing the remaining segments [xs], in any order. *)
Lemma push_all_spec bs : ∀ xs ts P e Q,
  asm (concat bs) (length xs) (en_stream e) → nonempty bs → zlen (concat bs) < 2 ^ 31 →
  ts_last_sent_seq (en_stream e) = 0 → (length xs ≤ en_mem e)%nat →
  pushed (zlen (concat bs)) (offs 0 bs) P (en_stream e) → Permutation (xs ++ P) (offs 0 bs) →
  Forall2 (packet_of (ts_start_seq (en_stream e))) ts xs →
  (∀ e' P', asm (concat bs) 0 (en_stream e') → pushed (zlen (concat bs)) (offs 0 bs) P' (en_stream e') →
     (∀ x, x ∈ offs 0 bs → x ∈ P') → ts_last_sent_seq (en_stream e') = 0 →
     en_released e' = en_released e → Q tt e') →
  runs (push_all ts) e Q.
Proof.
  induction xs as [|x xs IH]; intros ts P e Q HA Hn HD H0 Hm HP Hperm Hts HQ.
  - apply Forall2_nil_inv_r in Hts as ->. simpl. unfold skip. step. apply (HQ e P); try done.
    intros x Hx. by rewrite <- Hperm in Hx.
  - apply Forall2_cons_inv_r in Hts as (t & ts' & Ht & Hts & ->). simpl.
    simpl in Hm. pose proof (offs_nodup 0 bs Hn) as Hnd. rewrite <- Hperm in Hnd.
    simpl in Hnd. apply NoDup_cons in Hnd as [Hx Hnd].
    call (push_one (concat bs) (length xs) (offs 0 bs) bs P x); try done.
    + lia.
    + rewrite <- Hperm. by left.
    + intros Hi. apply Hx, elem_of_app. by right.
    + intros r e' HA' HP' Es El Er Em. apply (IH _ (x :: P)); try done.
      * lia.
      * rewrite <- Hperm. simpl. symmetry. apply Permutation_middle.
      * by rewrite Es.
      * intros e2 P2 HA2 HP2 Hall El2 Er2. apply (HQ e2 P2); try done. congruence.
Qed.

Lemma pushed_all bs n P s :
  asm (concat bs) n s → nonempty bs → pushed (zlen (concat bs)) (offs 0 bs) P s → (∀ x, x ∈ offs 0 bs → x ∈ P) →
  ts_queued s = [] ∧ ts_last_seq s = zlen (concat bs).
Proof.
  intros HA Hn (pre & bs2 & E & Et & Hpre & Hq & Hhd) Hall.
  assert (bs2 = []) as ->.
  { destruct bs2 as [|b bs2]; [done|]. exfalso. apply Hhd, Hall. rewrite E.
    apply elem_of_app. right. by left. }
  simpl in *. apply fmap_nil_inv in Hq as ->. split; [done|].
  rewrite zlen_nil in Et. lia.
Qed.
End complete.
