(* ===== verification/TcpVb.v ===== *)
(** * The streams of vbuffer_stream.c as the byte stream of a tcp stream

    The instance of [ByteStream] on which tcp-stream.c is built: a push makes a
    buffer of the payload and gives it to [vbuffer_stream_push], a pop takes the
    buffer of [vbuffer_stream_pop], reads it and releases it. The laws of the
    interface are the theorems on streams. *)

From S2P Require Import Prelude List2 VbHeap VbIter VbSub VbRep VbMake VbStream VbStreamSpec TcpStream.

(** A heap with memory for [n] operations, and [vbuffer_stream_init] in it. *)
Definition vb_room (n : nat) : sstate :=
  SS (VB ∅ ∅ ∅ None (S (7 * n)) 3 85) ∅ ∅ ∅ (Stream None 1 2 CleanNone) 1 [].
Definition vb_init (n : nat) : sstate := srun (vbuffer_stream_init 1 2 CleanNone) (vb_room n).

(** [vbuffer_end] of the data of the stream. *)
Definition vb_end (s : sstate) : vbuffer_iterator :=
  match (d ← vbuffer_stream_data; on_vb (vbuffer_end d vbuffer_iterator_init)) s with
  | Some (it, _) => it
  | None => vbuffer_iterator_init
  end.

Definition vb_push (b : list Z) (s : sstate) : bool * sstate * vbuffer_iterator :=
  match push_bytes b None (Some vbuffer_iterator_init) s with
  | Some ((ok, it), s') => (ok, s', default (vb_end s) it)
  | None => (false, s, vb_end s)
  end.

Definition vb_pop (s : sstate) : option (list Z) * sstate :=
  match stream_exec OpPop s with
  | Some (r, s') => (fst <$> r, s')
  | None => (None, s)
  end.

Definition vb_rep (n : nat) (k : Z) (v : list (list Z)) (s : sstate) : Prop :=
  ∃ its, stream_view s its ∧ its.*1 = v ∧ (7 * n ≤ vb_mem (ss_vb s))%nat ∧ k + total its < 2 ^ 32 ∧
    total its < 2 ^ 32.

Lemma vb_init_rep n : Z.of_nat n < 2 ^ 28 → vb_rep n (2 ^ 32 - 1) [] (vb_init n).
Proof.
  intros Hn. apply (runs_srun _ _ (λ s, vb_rep n _ [] s)). eapply init_view; try done.
  - split; simpl; try done; [by intros x [y Hy]..|rewrite map_size_empty; lia].
  - by intros x [[y Hy]|[y Hy]].
  - intros s' V Hm _. exists []. split_and!; try done. simpl in Hm. lia.
Qed.

Lemma vb_push_rep n k v b s :
  vb_rep (S n) k v s → zlen b ≤ k →
  (vb_push b s).1.1 = true ∧ vb_rep n (k - zlen b) (v ++ [b]) (vb_push b s).1.2.
Proof.
  intros (its & V & <- & Hm & Ht & Hs) Hb.
  assert (runs (push_bytes b None (Some vbuffer_iterator_init)) s (λ r s',
    r.1 = true ∧ vb_rep n (k - zlen b) (its.*1 ++ [b]) s')) as (r & s' & E & HQ).
  { eapply push_bytes_view; [done|lia|lia|]. intros s' it V' Hm' _. split; [done|].
    assert (total (its ++ [(b, None)]) = total its + zlen b) as Et.
    { unfold total, bytes_in in *. rewrite fmap_app, concat_app, zlen_app. simpl. by rewrite app_nil_r. }
    exists (its ++ [(b, None)]). split_and!; [done|by rewrite fmap_app|lia|lia|lia]. }
  unfold vb_push. rewrite E. destruct r. exact HQ.
Qed.

Lemma vb_pop_rep n k v b s :
  vb_rep (S n) k (b :: v) s → (vb_pop s).1 = Some b ∧ vb_rep n k v (vb_pop s).2.
Proof.
  intros ([|[b' ud] its] & V & Ev & Hm & Ht & Hs); [done|]. injection Ev as -> <-.
  assert (runs (stream_exec OpPop) s (λ r s', r = Some (b, ud) ∧ vb_rep n k its.*1 s')) as (r & s' & E & -> & HQ).
  { pose proof (total_exec ((b, ud) :: its) OpPop) as Hx. simpl in Hx.
    eapply exec_view; [exact V|lia|simpl; lia|]. intros s' V' Hm' _. split; [done|].
    exists its. split_and!; [done|done|lia|lia|lia]. }
  unfold vb_pop. rewrite E. done.
Qed.

Lemma vb_pop_nil n k s : vb_rep n k [] s → vb_pop s = (None, s).
Proof.
  intros ([|x its] & V & Ev & _); [|done].
  assert (runs (stream_exec OpPop) s (λ r s', r = None ∧ s' = s)) as (r & s' & E & -> & ->).
  { simpl. call pop_nothing; [exact V|]. by step. }
  unfold vb_pop. by rewrite E.
Qed.

#[export, refine] Instance vb_stream : ByteStream sstate := {|
  bs_pos := vbuffer_iterator;
  bs_rep := vb_rep;
  bs_init := vb_init;
  bs_end := vb_end;
  bs_push := vb_push;
  bs_pop := vb_pop;
  bs_init_rep := vb_init_rep;
  bs_push_rep := vb_push_rep;
  bs_pop_rep := vb_pop_rep;
  bs_pop_nil := vb_pop_nil;
|}.
Proof.
  intros n m k l v s (its & V & Ev & Hm & Ht & Hs) Hn Hl. exists its. split_and!; [done|done|lia|lia|lia].
Defined.
