(* ===== verification/TcpSpec.v ===== *)
(** * What the tcp stream promises

    The properties of tcp-stream.c on every byte stream that keeps the promises
    of [ByteStream], and the runs of concrete streams. *)

From S2P Require Import Prelude VbStream TcpStream TcpSeq TcpPerm TcpVb.

(** The plain queue of blocks, which some of the witnesses run on. *)
#[export, refine] Instance fifo : ByteStream (list (list Z)) := {|
  bs_pos := nat;
  bs_rep := λ _ _ v st, st = v;
  bs_init := λ _, [];
  bs_end := length;
  bs_push := λ b st, (true, st ++ [b], length st);
  bs_pop := λ st, match st with [] => (None, []) | b :: st => (Some b, st) end;
|}.
Proof. all: try done; intros; subst; done. Defined.

(** ** Reassembly *)

Section push.
Context {St : Type} `{BS : ByteStream St}.

(** C25 [tcp_stream_push]: pushing a segment of the byte sequence [D] keeps what
    the stream holds a prefix of [D] in order (the invariant [asm]: the
    delivered bytes are the first [last_seq] bytes of [D], the chunks of
    [current] are adjacent, the queue holds segments of [D], the byte stream has
    room for what is missing); [last_seq] never
    goes back, a segment that is next in the sequence is always delivered, and
    the packet is released exactly when the call refuses it. *)
Theorem tcp_stream_push_reassembles D n (e : env St) t a b cur :
  asm D (S n) (en_stream e) → en_mem e ≠ 0%nat → carries D (en_stream e) t a b →
  runs (tcp_stream_push t cur) e (λ r e',
    asm D n (en_stream e') ∧ ts_last_seq (en_stream e) ≤ ts_last_seq (en_stream e') ∧
    en_released e' = (if r.1 then en_released e else t :: en_released e) ∧
    (a = ts_last_seq (en_stream e) → r.1 = true ∧ a + zlen b ≤ ts_last_seq (en_stream e'))).
Proof.
  intros HA Hm HC. eapply runs_push; [done..|]. intros [[] pos] e' HA' Hle Hf Ht Hin; simpl in *.
  - split_and!; [done|done|by apply Ht|done].
  - split_and!; [done|done|by apply Hf|done].
Qed.

(** C1 Complete reassembly: the segments of a byte sequence of less than 2^31
    bytes, each pushed once into a new stream in any order whatever, are all
    accepted and delivered: the byte stream holds exactly the sequence,
    nothing stays queued, nothing is released. The byte stream is any one that
    keeps the promises of [ByteStream]; vbuffer_stream.c does. *)
Theorem tcp_reassembly_complete bs xs ts seq mem :
  Forall (λ b, 0 < zlen b) bs → zlen (concat bs) < 2 ^ 31 → 0 ≤ seq < 2 ^ 32 →
  Permutation xs (offs 0 bs) → Forall2 (packet_of seq) ts xs → (length xs ≤ mem)%nat →
  Z.of_nat (length xs) < 2 ^ 28 →
  runs (tcp_stream_init seq;; push_all ts) (Env (tcp_stream_create (length xs)) None mem []) (λ _ e',
    (∃ v, bs_rep 0 0 v (ts_stream (en_stream e')) ∧ concat v = concat bs) ∧
    ts_queued (en_stream e') = [] ∧ ts_last_seq (en_stream e') = zlen (concat bs) ∧
    en_released e' = []).
Proof.
  intros Hn HD Hseq Hperm Hts Hm Hr. unfold tcp_stream_init, upd_stream. step.
  pose proof (bs_init_rep (St := St) (length xs) Hr) as HV. pose proof (zlen_nonneg (concat bs)).
  assert (u32 seq = seq) as Eseq by (by apply u32_small).
  assert (asm (concat bs) (length xs) (TcpStream (u32 seq) 0 0 0 0 [] [] [] (bs_init (length xs)))) as HA.
  { split; simpl; try done; rewrite ?Eseq; try lia. exists []. split; [|done].
    eapply bs_weaken; [exact HV|lia|lia]. }
  eapply (push_all_spec bs xs ts []); simpl; try done.
  - exists [], bs. simpl. rewrite Z.add_0_l. split_and!; try done.
    + clear. generalize 0 as a. induction bs as [|b bs IH]; intros a; simpl; [done|].
      rewrite filter_cons, decide_False by (by intros ?%elem_of_nil). apply IH.
    + destruct bs; [done|]. by intros ?%elem_of_nil.
  - by rewrite app_nil_r.
  - by rewrite Eseq.
  - intros e' P HA' HP Hall El Er.
    destruct (pushed_all bs 0 P (en_stream e')) as [Q1 Q2]; [done..|].
    split_and!; try done. destruct (as_view _ _ _ HA') as (v & Hv & Ev). rewrite Q1, Q2, Z.sub_diag in Hv.
    exists v. split; [exact Hv|]. rewrite Ev, El, Q2, Z.sub_0_r. apply zslice_full.
Qed.
End push.

(** Four blocks, sent from the sequence number 2^32 - 3 on so that the header
    field wraps, and arriving in the order 2, 3, 0, 1. *)
Definition ex_blocks : list (list Z) := [[1; 2]; [3; 4; 5]; [6]; [7; 8]].
Definition ex_seq : Z := 2 ^ 32 - 3.
Definition ex_packet (x : segment) : tcp :=
  Tcp true true ((ex_seq + x.1) `mod` 2 ^ 32) 0 (Some x.2).
Definition ex_order : list segment := [(5, [6]); (6, [7; 8]); (0, [1; 2]); (2, [3; 4; 5])].

(** On the streams of vbuffer_stream.c. *)
Lemma tcp_reassembly_complete_witness :
  runs (tcp_stream_init ex_seq;; push_all (ex_packet <$> ex_order))
    (Env (St := sstate) (tcp_stream_create (length ex_order)) None 8 []) (λ _ e',
      (∃ v, bs_rep 0 0 v (ts_stream (en_stream e')) ∧ concat v = [1; 2; 3; 4; 5; 6; 7; 8]) ∧
      ts_queued (en_stream e') = [] ∧ ts_last_seq (en_stream e') = 8 ∧ en_released e' = []).
Proof.
  apply (tcp_reassembly_complete (St := sstate) ex_blocks ex_order (ex_packet <$> ex_order) ex_seq 8).
  - repeat constructor.
  - vm_compute. reflexivity.
  - vm_compute. intuition discriminate.
  - apply (Permutation_app_comm [_; _] [_; _]).
  - repeat constructor.
  - vm_compute. lia.
  - vm_compute. reflexivity.
Defined.

Definition ex_stream : tcp_stream (list (list Z)) :=
  TcpStream ex_seq 2 0 0 0 [TcpChunk (Some (set_payload None (ex_packet (0, [1; 2])))) 0 2 0] [] []
    [[1; 2]].

Lemma ex_stream_asm : asm (concat ex_blocks) 1 ex_stream.
Proof.
  split; simpl; try done; try (vm_compute; intuition discriminate). by exists [[1; 2]].
Qed.

Lemma tcp_stream_push_reassembles_witness :
  runs (tcp_stream_push (ex_packet (5, [6])) false) (Env ex_stream None 1 []) (λ r e',
    asm (concat ex_blocks) 0 (en_stream e') ∧ 2 ≤ ts_last_seq (en_stream e') ∧
    en_released e' = (if r.1 then [] else [ex_packet (5, [6])]) ∧
    (5 = 2 → r.1 = true ∧ 5 + 1 ≤ ts_last_seq (en_stream e'))).
Proof.
  apply (tcp_stream_push_reassembles (concat ex_blocks) 0 (Env ex_stream None 1 [])
    (ex_packet (5, [6])) 5 [6] false); [apply ex_stream_asm|done|].
  split; try done; vm_compute; intuition discriminate.
Defined.

(** ** Forwarding *)

Section pop.
Context {St : Type} `{BS : ByteStream St}.

(** C36 [tcp_stream_pop]: when the byte stream gives the block [b] for the first
    chunk, its packet leaves with that payload and with its sequence number
    shifted by the length changes made so far; the change of this packet is
    added to the shift, the chunk becomes the last one sent, and a packet all
    of whose data was erased is dropped. *)
Theorem tcp_stream_pop_correct (e : env St) ck rest t b st :
  let s := en_stream e in
  ts_current s = ck :: rest → bs_pop (ts_stream s) = (Some b, st) →
  ck_tcp ck = Some t → tcp_payload t = None → tcp_packet t = true → tcp_writable t = true →
  0 ≤ tcp_seq t < 2 ^ 32 → 0 ≤ ck_start_seq ck ≤ ck_end_seq ck → ck_end_seq ck < 2 ^ 62 →
  zlen b < 2 ^ 62 → - 2 ^ 62 ≤ ts_first_offset_seq s < 2 ^ 62 →
  (∀ l, last (ts_sent s) = Some l → ck_start_seq ck = ck_end_seq l) →
  let off := zlen b - (ck_end_seq ck - ck_start_seq ck) in
  runs tcp_stream_pop e (λ r e', r = Some (Tcp (negb (bool_decide (off < 0 ∧ b = []))) true
      ((tcp_seq t + ts_first_offset_seq s) `mod` 2 ^ 32) (tcp_ack t) (Some b)) ∧
    en_stream e' = TcpStream (ts_start_seq s) (ts_last_seq s) (ck_end_seq ck)
      (s64 (ts_first_offset_seq s + off)) (ts_sent_offset_seq s) rest (ts_queued s)
      (ts_sent s ++ [TcpChunk None (ck_start_seq ck) (ck_end_seq ck) off]) st).
Proof.
  intros s Ec Ep Et Epl Epk Ew Hseq Hck Hend Hb Hoff Hl off. unfold tcp_stream_pop. step. fold s.
  rewrite Ec, Ep, Et. step. rewrite Epl. step.
  pose proof (zlen_nonneg b). step.
  { destruct (last (ts_sent s)) as [l|] eqn:El; [|done]. apply bool_decide_true. by apply Hl. }
  rewrite (u64_small (ck_end_seq ck - ck_start_seq ck)) by lia. fold off.
  assert (s64 off = off) as Eo by (apply swrap_small; lia). rewrite Eo.
  unfold tcp_stream_seq. apply runs_bind. step. unfold tcp_get_seq, TCP_CHECK. simpl. rewrite Epk.
  apply runs_bind. step. step. simpl. fold s.
  set (seq' := u32 (tcp_seq t + ts_first_offset_seq s)).
  assert (u32 seq' = seq') as Eseq by (apply u32_small, u32_range).
  match goal with |- runs ?m _ _ =>
    assert (m e = Some (Tcp true true seq' (tcp_ack t) (Some b), e)) as Hm end.
  { case_bool_decide as E.
    - unfold tcp_set_seq, set_header, TCP_CHECK. simpl. rewrite Epk. unfold bind, ret. simpl.
      rewrite Ew. by rewrite Eseq.
    - unfold ret. do 2 f_equal. rewrite E. unfold set_payload. by rewrite Epk, Ew. }
  eapply runs_eq; [exact Hm|]. unfold upd_stream. step.
  assert (bool_decide (off < 0) && bool_decide (u64 off = u64 (ck_start_seq ck - ck_end_seq ck))
    = bool_decide (off < 0 ∧ b = [])) as ->.
  { rewrite <- bool_decide_and. apply bool_decide_ext. split; intros [H0 H1]; (split; [done|]).
    - apply zlen_0_inv.
      assert (∀ z, - 2 ^ 63 ≤ z < 0 → u64 z = z + 2 ^ 64) as Hu.
      { intros z Hz. unfold u64, wrap. symmetry. apply (Z.mod_unique z (2 ^ 64) (-1)); lia. }
      rewrite !Hu in H1 by lia. lia.
    - subst b. f_equal. unfold off. rewrite zlen_nil. lia. }
  cbn [ck_start_seq ck_end_seq]. case_test as Ed.
  - unfold tcp_action_drop, TCP_CHECK. simpl. apply runs_bind. apply runs_bind. step. step. step. done.
  - apply runs_bind. step. step. done.
Qed.
End pop.

(** The first packet of [ex_stream] after its two bytes were replaced by three. *)
Definition ex_edited : env (list (list Z)) :=
  Env (TcpStream ex_seq 2 0 4 0 (ts_current ex_stream) [] [] [[9; 9; 9]]) None 0 [].

Lemma tcp_stream_pop_correct_witness :
  runs tcp_stream_pop ex_edited (λ r e',
    r = Some (Tcp true true 1 0 (Some [9; 9; 9])) ∧
    en_stream e' = TcpStream ex_seq 2 2 5 0 [] [] [TcpChunk None 0 2 1] []).
Proof.
  apply (tcp_stream_pop_correct ex_edited (TcpChunk (Some (set_payload None (ex_packet (0, [1; 2])))) 0 2 0)
    [] (set_payload None (ex_packet (0, [1; 2]))) [9; 9; 9] []); try reflexivity;
    try (vm_compute; intuition discriminate).
Defined.

(** ** Acknowledgements *)

(** Where the chunks [sent] end in the stream as it was sent on, from [a] on. *)
Definition out_end (a : Z) (sent : list tcp_stream_chunk) : Z :=
  a + zsum ((λ c, ck_end_seq c - ck_start_seq c + ck_offset_seq c) <$> sent).
Definition in_end (a : Z) (sent : list tcp_stream_chunk) : Z :=
  default a (ck_end_seq <$> last sent).

Section ack.
Context {St : Type} `{BS : ByteStream St}.

Definition sent_ok (c : tcp_stream_chunk) : Prop :=
  0 ≤ ck_start_seq c ≤ ck_end_seq c ∧ ck_end_seq c < 2 ^ 62 ∧
  0 ≤ ck_end_seq c - ck_start_seq c + ck_offset_seq c.

Lemma ack_loop_spec (e : env St) ack : ∀ sent a b Q,
  contig b sent (in_end b sent) → Forall sent_ok sent → 0 ≤ a ≤ ack → 0 ≤ b →
  out_end a sent < 2 ^ 62 →
  (∀ l1 l2, sent = l1 ++ l2 → out_end a l1 ≤ ack →
     (ack = out_end a l1 ∨ match l2 with [] => True | c :: _ => ack < out_end a (l1 ++ [c]) end) →
     Q (out_end a l1, in_end b l1) e) →
  runs (ack_loop sent ack a b) e Q.
Proof.
  induction sent as [|c sent IH]; intros a b Q Hc Hok Ha Hb Hs HQ; simpl.
  - step. specialize (HQ [] [] eq_refl). unfold out_end, in_end in HQ. simpl in HQ.
    rewrite Z.add_0_r in HQ. apply HQ; [lia|by right].
  - apply Forall_cons in Hok as [(O1 & O2 & O3) Hok]. simpl in Hc. destruct Hc as [Hc1 Hc2].
    set (w := ck_end_seq c - ck_start_seq c + ck_offset_seq c) in *.
    assert (0 ≤ zsum ((λ c, ck_end_seq c - ck_start_seq c + ck_offset_seq c) <$> sent)) as Hz.
    { apply zsum_nonneg. apply Forall_fmap. eapply Forall_impl; [exact Hok|]. by intros x (_ & _ & ?). }
    assert (out_end a (c :: sent) = out_end (a + w) sent) as Eo.
    { unfold out_end. rewrite fmap_cons, zsum_cons. unfold w. lia. }
    assert (∀ l, in_end b (c :: l) = in_end (ck_end_seq c) l) as Ei.
    { intros l. unfold in_end. rewrite last_cons. by destruct (last l). }
    rewrite Eo in Hs. assert (a + w < 2 ^ 62) by (unfold out_end in Hs; lia).
    rewrite (u64_small (ck_end_seq c - ck_start_seq c)) by lia.
    replace (a + (ck_end_seq c - ck_start_seq c) + ck_offset_seq c) with (a + w) by (unfold w; lia).
    rewrite u64_small by lia.
    assert (∀ l, out_end a (c :: l) = out_end (a + w) l) as Eo'.
    { intros l. unfold out_end. rewrite fmap_cons, zsum_cons. unfold w. lia. }
    case_test as E1.
    { step. specialize (HQ [] (c :: sent) eq_refl). unfold out_end, in_end in HQ. simpl in HQ.
      rewrite Z.add_0_r in HQ. apply HQ; [lia|]. right. unfold w in *. lia. }
    case_test as E2.
    { step. specialize (HQ [c] sent eq_refl). rewrite Eo', Ei in HQ. unfold out_end, in_end in HQ.
      simpl in HQ. rewrite Z.add_0_r in HQ. apply HQ; [lia|]. left. lia. }
    step. { destruct sent as [|n sent]; [done|]. simpl in Hc2. apply bool_decide_true, Hc2. }
    apply IH; try done; [|lia|lia|].
    { by rewrite <- Ei. }
    intros l1 l2 -> H1 H2. rewrite <- Eo', <- Ei. apply (HQ (c :: l1) l2); [done|by rewrite Eo'|].
    by rewrite Eo'; destruct l2; [|rewrite <- app_comm_cons, Eo'].
Qed.

(** [tcp_stream_ack]: as long as the sequence numbers do not wrap, an
    acknowledgement of the bytes sent on up to [A] becomes the one of the bytes
    received for them: it is carried back from the end of the last chunk that
    is acknowledged completely, in the original numbering. *)
Theorem tcp_stream_ack_correct (e : env St) c sent t A :
  let s := en_stream e in
  ts_sent s = c :: sent → tcp_packet t = true → tcp_writable t = true →
  ts_sent_offset_seq s = 0 → 0 ≤ ts_start_seq s →
  contig (ck_start_seq c) (ts_sent s) (in_end (ck_start_seq c) (ts_sent s)) →
  Forall sent_ok (ts_sent s) → out_end (ck_start_seq c) (ts_sent s) < 2 ^ 62 →
  ck_start_seq c ≤ A → ts_start_seq s + A < 2 ^ 32 → tcp_ack t = ts_start_seq s + A →
  runs (tcp_stream_ack t) e (λ t' e', e' = e ∧ ∃ l1 l2, ts_sent s = l1 ++ l2 ∧
    let o := out_end (ck_start_seq c) l1 in
    o ≤ A ∧ (A = o ∨ match l2 with [] => True | d :: _ => A < out_end (ck_start_seq c) (l1 ++ [d]) end) ∧
    t' = Tcp true true (tcp_seq t)
      ((ts_start_seq s + in_end (ck_start_seq c) l1 + (A - o)) `mod` 2 ^ 32) (tcp_payload t)).
Proof.
  intros s Es Epk Ew Eo Hst Hc Hok Hs HA Hsmall Eack. unfold tcp_stream_ack. rewrite Epk. simpl. step. fold s.
  unfold tcp_get_ack_seq, TCP_CHECK. rewrite Epk. apply runs_bind. step. step. rewrite Es.
  pose proof Hok as Hok0. rewrite Es in Hok0. apply Forall_cons in Hok0 as [(O1 & O2 & O3) _].
  rewrite Eo, Z.add_0_l. rewrite (u64_small (ck_start_seq c)) by lia.
  assert (tcp_remap_seq (tcp_ack t) (ck_start_seq c) = tcp_ack t) as ->.
  { unfold tcp_remap_seq. rewrite Z.shiftr_div_pow2, Z.shiftl_mul_pow2 by lia.
    rewrite Z.div_small by lia. rewrite Z.mul_0_l, Z.add_0_r. rewrite (u64_small (tcp_ack t)) by lia.
    rewrite u64_small by lia. by rewrite bool_decide_false by lia. }
  rewrite Eack. replace (ts_start_seq s + A - ts_start_seq s) with A by lia.
  rewrite (u64_small A) by lia. rewrite <- Es.
  call ack_loop_spec; [done|done|lia|lia|done|].
  intros l1 l2 El H1 H2.
  assert (0 ≤ in_end (ck_start_seq c) l1 < 2 ^ 62) as Hin.
  { unfold in_end. destruct (last l1) as [x|] eqn:Ex; simpl; [|lia].
    rewrite El in Hok. apply Forall_app in Hok as [Hok _].
    rewrite Forall_forall in Hok. apply last_Some_elem_of in Ex. destruct (Hok _ Ex) as (?&?&?). lia. }
  set (o := out_end (ck_start_seq c) l1) in *.
  assert (0 ≤ o) as Ho0.
  { unfold o, out_end. rewrite El in Hok. apply Forall_app in Hok as [Hok _].
    assert (0 ≤ zsum ((λ c, ck_end_seq c - ck_start_seq c + ck_offset_seq c) <$> l1)); [|lia].
    apply zsum_nonneg, Forall_fmap. eapply Forall_impl; [exact Hok|]. by intros x (_ & _ & ?). }
  rewrite (u64_small (in_end _ _ + _)) by lia.
  rewrite (u64_small (in_end _ _ + _ + _)) by lia.
  set (n := in_end (ck_start_seq c) l1 + (A - o) + ts_start_seq s).
  match goal with |- runs ?m _ _ =>
    assert (m e = Some (Tcp true true (tcp_seq t) (n `mod` 2 ^ 32) (tcp_payload t), e)) as Hm end.
  { case_bool_decide as E.
    - unfold tcp_set_ack_seq, set_header, TCP_CHECK. rewrite Epk. unfold bind, ret. simpl. rewrite Ew. done.
    - unfold ret. rewrite <- E. rewrite <- Eack. rewrite Z.mod_small by lia.
      destruct t. simpl in *. by subst. }
  eapply runs_eq; [exact Hm|]. split; [done|]. exists l1, l2. split_and!; try done. f_equal. f_equal. unfold n. lia.
Qed.
End ack.

(** Two packets were sent on: the first lost one of its four bytes, the second
    gained two. *)
Definition ex_sent : env (list (list Z)) :=
  Env (TcpStream 1000 10 10 1 0 [] [] [TcpChunk None 0 4 (-1); TcpChunk None 4 10 2] []) None 0 [].

Lemma tcp_stream_ack_correct_witness :
  runs (tcp_stream_ack (Tcp true true 7 1003 None)) ex_sent (λ t' e', e' = ex_sent ∧ ∃ l1 l2,
    ts_sent (en_stream ex_sent) = l1 ++ l2 ∧
    let o := out_end 0 l1 in
    o ≤ 3 ∧ (3 = o ∨ match l2 with [] => True | d :: _ => 3 < out_end 0 (l1 ++ [d]) end) ∧
    t' = Tcp true true 7 ((1000 + in_end 0 l1 + (3 - o)) `mod` 2 ^ 32) None).
Proof.
  apply (tcp_stream_ack_correct ex_sent (TcpChunk None 0 4 (-1)) [TcpChunk None 4 10 2]
    (Tcp true true 7 1003 None) 3);
    [reflexivity|reflexivity|reflexivity|reflexivity|vm_compute; discriminate|vm_compute; tauto| | | | |].
  - repeat constructor; vm_compute; discriminate.
  - vm_compute. reflexivity.
  - vm_compute. discriminate.
  - vm_compute. reflexivity.
  - reflexivity.
Defined.

(** The acknowledgements of the example: the first packet completely, all. *)
Example ex_ack_runs :
  (λ r, tcp_ack r.1) <$> tcp_stream_ack (Tcp true true 7 1003 None) ex_sent = Some 1004 ∧
  (λ r, tcp_ack r.1) <$> tcp_stream_ack (Tcp true true 7 1011 None) ex_sent = Some 1010.
Proof. split; vm_compute; reflexivity. Qed.

(** ** Where the code does not do what it means to *)

Definition fresh_env (mem : nat) : env (list (list Z)) := Env (tcp_stream_create 0) None mem [].

(** A segment that is received twice while it waits in the queue is queued
    twice, and its second copy blocks the queue: when the missing bytes come, the
    segments behind the copy are not delivered. *)
Theorem queued_duplicate_blocks :
  (λ r : unit * env (list (list Z)),
     (concat (ts_stream (en_stream r.2)), ts_last_seq (en_stream r.2), length (ts_queued (en_stream r.2)))) <$>
    (tcp_stream_init ex_seq;;
     push_all (ex_packet <$> [(2, [3; 4; 5]); (2, [3; 4; 5]); (5, [6]); (0, [1; 2])])) (fresh_env 8)
    = Some ([1; 2; 3; 4; 5], 5, 2%nat).
Proof. vm_compute. reflexivity. Qed.

(** The test for a stream that was not initialized compares the 32-bit field
    with [(size_t)-1]: a push into a stream without initial sequence number is
    accepted. *)
Theorem uninitialized_push_accepted :
  (λ r : bool * option nat * env (list (list Z)), (r.1.1, en_error r.2)) <$>
    tcp_stream_push (ex_packet (0, [1; 2])) false (fresh_env 8) = Some (true, None).
Proof. vm_compute. reflexivity. Qed.

(** A retransmission from before the wrap-around of the sequence numbers is not
    recognised as such once the bytes behind the wrap-around have been sent: it
    is queued, 2^32 bytes ahead. *)
Definition ex_wrapped : env (list (list Z)) :=
  Env (TcpStream ex_seq 8 8 0 0 [] [] [] []) None 8 [].

Theorem old_segment_queued :
  (λ r : bool * option nat * env (list (list Z)),
     (r.1.1, ck_start_seq <$> ts_queued (en_stream r.2))) <$>
    tcp_stream_push (ex_packet (0, [1; 2])) false ex_wrapped = Some (true, [2 ^ 32]).
Proof. vm_compute. reflexivity. Qed.

(** [tcp_stream_ack] looks for the acknowledgement around the relative position
    of the first chunk although it is absolute: after the wrap-around every chunk
    is taken for acknowledged. The first of two packets, four bytes shortened by
    one, is acknowledged; the answer acknowledges one byte instead of four, since
    it also undoes the three bytes that were added to the second. *)
Definition ex_ack_wrapped : env (list (list Z)) :=
  Env (TcpStream ex_seq 10 10 2 0 [] [] [TcpChunk None 0 4 (-1); TcpChunk None 4 10 3] []) None 0 [].

Theorem ack_after_wrap :
  (λ r, tcp_ack r.1) <$> tcp_stream_ack (Tcp true true 7 ((ex_seq + 3) `mod` 2 ^ 32) None) ex_ack_wrapped
    = Some ((ex_seq + 1) `mod` 2 ^ 32).
Proof. vm_compute. reflexivity. Qed.
