(* ===== verification/Checksum.v ===== *)
(** * Internet checksum (modules/protocol/ipv4/ipv4.c)

    [inet_checksum_partial] adds the 16-bit words of a block to a running sum. It
    reads the words with aligned accesses: from an odd address it sums with the
    bytes swapped and swaps back at the end. A block may also end in the middle
    of a word, which the next block completes. The theorems relate the code to
    the one's complement sum of the whole byte string, for every cutting into
    blocks and every alignment.

    A 16-bit access of the (little-endian) machine reads byte 0 as the low byte. *)

From S2P Require Import Prelude.

Record checksum_partial := Csum { cs_odd : bool; cs_leftover : Z; cs_csum : Z }.
Definition checksum_partial_init : checksum_partial := Csum false 0 0.

Definition word (a b : Z) : Z := a + 256 * b.

(** [REDUCE], with its [ADD_CARRY]: the two halves of the 32-bit sum. *)
Definition REDUCE (sum : Z) : Z :=
  let l := u32 sum in
  let s := Z.land l 65535 + Z.shiftr l 16 in
  if bool_decide (s > 65535) then s - 65535 else s.

(** [sum += w[0]; ...; sum += w[n-1]] and the bytes that follow. *)
Fixpoint add_words (n : nat) (sum : Z) (w : list Z) : Z * list Z :=
  match n, w with
  | S n, a :: b :: w => add_words n (s32 (sum + word a b)) w
  | _, _ => (sum, w)
  end.

(** A [while ((len -= 2*n) >= 0)] loop that adds [n] words at a time. *)
Fixpoint unrolled (n : nat) (fuel : nat) (sum : Z) (w : list Z) : Z * list Z :=
  match fuel with
  | O => (sum, w)
  | S fuel =>
      if bool_decide (zlen w < 2 * Z.of_nat n) then (sum, w)
      else let '(sum, w) := add_words n sum w in unrolled n fuel sum w
  end.

(** The function from the alignment of the pointer on: [addr] is the parity of
    the address of the first byte of [ptr]. *)
Definition checksum_aligned (leftover sum : Z) (addr : bool) (ptr : list Z) : checksum_partial :=
  let '(sum, first, ptr) :=
    match addr, ptr with
    | true, b :: ptr => (s32 (Z.shiftl (REDUCE sum) 8), Some b, ptr)
    | _, _ => (sum, None, ptr)
    end in
  let '(sum, w) := unrolled 16 (length ptr) sum ptr in
  let '(sum, w) := unrolled 4 (length w) sum w in
  if bool_decide (w = []) && is_null first then Csum false leftover sum else
  let sum := REDUCE sum in
  let '(sum, w) := unrolled 1 (length w) sum w in
  match first, w with
  | Some a, b :: _ => Csum false leftover (s32 (s32 (Z.shiftl (REDUCE sum) 8) + word a b))
  | Some a, [] => Csum true a (s32 (Z.shiftl (REDUCE sum) 8))
  | None, b :: _ => Csum true b sum
  | None, [] => Csum false leftover sum
  end.

(** The whole function, on the bytes of a block that is not empty: first the
    leftover byte of the last block. *)
Definition inet_checksum_partial (csum : checksum_partial) (addr : bool) (ptr : list Z)
    : checksum_partial :=
  match cs_odd csum, ptr with
  | true, b :: ptr =>
      checksum_aligned (cs_leftover csum) (s32 (cs_csum csum + word (cs_leftover csum) b))
        (negb addr) ptr
  | _, _ => checksum_aligned (cs_leftover csum) (cs_csum csum) addr ptr
  end.

(** The result is an [int16]; a header stores its 16 bits, [u16] of it. *)
Definition inet_checksum_reduce (csum : checksum_partial) : Z :=
  let sum := if cs_odd csum then s32 (cs_csum csum + word (cs_leftover csum) 0) else cs_csum csum in
  s16 (Z.land (Z.lnot (REDUCE sum)) 65535).

Definition inet_checksum (addr : bool) (ptr : list Z) : Z :=
  inet_checksum_reduce (inet_checksum_partial checksum_partial_init addr ptr).

(** [inet_checksum_vbuffer_partial]: the blocks [vbuffer_mmap] gives. *)
Fixpoint inet_checksum_blocks (csum : checksum_partial) (blocks : list (bool * list Z))
    : checksum_partial :=
  match blocks with
  | [] => csum
  | (addr, b) :: blocks =>
      let csum := if bool_decide (zlen b > 0) then inet_checksum_partial csum addr b else csum in
      inet_checksum_blocks csum blocks
  end.

Definition inet_checksum_vbuffer (blocks : list (bool * list Z)) : Z :=
  inet_checksum_reduce (inet_checksum_blocks checksum_partial_init blocks).

(** ** Reference: the sum of the words of a byte string *)

Fixpoint wsum (l : list Z) : Z :=
  match l with
  | a :: b :: l => word a b + wsum l
  | [a] => a
  | [] => 0
  end.

(** The representative of a one's complement number in [0, 65535]. *)
Definition norm (x : Z) : Z := if bool_decide (x = 0) then 0 else (x - 1) `mod` 65535 + 1.

(** Equal as one's complement numbers; zero is only equal to itself. *)
Definition eqn (x y : Z) : Prop :=
  0 ≤ x ∧ 0 ≤ y ∧ x `mod` 65535 = y `mod` 65535 ∧ (x = 0 ↔ y = 0).


Section eqn.
Lemma eqn_refl x : 0 ≤ x → eqn x x.
Proof. by repeat split. Qed.
Lemma eqn_trans x y z : eqn x y → eqn y z → eqn x z.
Proof. intros (?&?&?&?) (?&?&?&?). repeat split; try done; try congruence; intuition. Qed.
Lemma eqn_sym x y : eqn x y → eqn y x.
Proof. intros (?&?&?&?). repeat split; try done; intuition. Qed.

Lemma eqn_add x y x' y' : eqn x y → eqn x' y' → eqn (x + x') (y + y').
Proof.
  intros (?&?&E&?) (?&?&E'&?). repeat split; try lia.
  rewrite Z.add_mod, E, E', <- Z.add_mod by lia. done.
Qed.

Lemma eqn_mul k x y : 0 < k → eqn x y → eqn (k * x) (k * y).
Proof.
  intros Hk (?&?&E&Hz). repeat split; try nia.
  rewrite Z.mul_mod, E, <- Z.mul_mod by lia. done.
Qed.

(** A full turn of the bytes. *)
Lemma eqn_turn x : 0 ≤ x → eqn (256 * (256 * x)) x.
Proof.
  intros Hx. repeat split; try lia.
  replace (256 * (256 * x)) with (x + x * 65535) by lia. by rewrite Z.mod_add.
Qed.

Lemma reduce_range x : 0 ≤ x < 2 ^ 31 → 0 ≤ REDUCE x ≤ 65535 ∧ eqn (REDUCE x) x.
Proof.
  intros Hx. unfold REDUCE. rewrite u32_small by lia.
  change 65535 with (Z.ones 16). rewrite Z.land_ones, Z.shiftr_div_pow2 by lia.
  change (Z.ones 16) with 65535.
  pose proof (Z.div_mod x (2 ^ 16) ltac:(lia)) as E. pose proof (Z.mod_pos_bound x (2 ^ 16) ltac:(lia)).
  pose proof (Z.div_pos x (2 ^ 16) ltac:(lia) ltac:(lia)).
  assert (x / 2 ^ 16 < 2 ^ 15) by (apply Z.div_lt_upper_bound; lia).
  set (q := x / 2 ^ 16) in *. set (m := x `mod` 2 ^ 16) in *.
  assert (x = (m + q) + q * 65535) as Ex by lia.
  assert (x `mod` 65535 = (m + q) `mod` 65535) as Em by (rewrite Ex; apply Z.mod_add; lia).
  case_bool_decide as Hc.
  - assert ((m + q - 65535) `mod` 65535 = (m + q) `mod` 65535) as Es.
    { replace (m + q - 65535) with (m + q + (-1) * 65535) by lia. apply Z.mod_add. lia. }
    repeat split; try lia.
  - repeat split; lia.
Qed.

Lemma eqn_norm x y : eqn x y → 0 ≤ x ≤ 65535 → x = norm y.
Proof.
  intros (?&?&E&Hz) Hx. unfold norm. case_bool_decide as E0; [intuition|].
  assert (1 ≤ x) by lia.
  assert ((x - 1) `mod` 65535 = (y - 1) `mod` 65535) as E1.
  { rewrite <- (Zminus_mod_idemp_l x), E, Zminus_mod_idemp_l. done. }
  rewrite (Z.mod_small (x - 1)) in E1; lia.
Qed.

Lemma norm_range x : 0 ≤ x → 0 ≤ norm x ≤ 65535 ∧ eqn (norm x) x.
Proof.
  intros Hx. unfold norm. case_bool_decide as E; [by subst|].
  pose proof (Z.mod_pos_bound (x - 1) 65535 ltac:(lia)).
  repeat split; try lia. rewrite Zplus_mod_idemp_l. f_equal. lia.
Qed.

Lemma wsum_nonneg l : byte_list l → 0 ≤ wsum l.
Proof.
  revert l. fix IH 1. intros [|a [|b l]] Hl; simpl; [lia| |].
  - apply Forall_cons in Hl as [? _]. lia.
  - apply Forall_cons in Hl as [? Hl]. apply Forall_cons in Hl as [? Hl].
    specialize (IH l Hl). unfold word. lia.
Qed.

Definition even_len (l : list Z) : Prop := Nat.even (length l) = true.

Lemma even_cons2 a b l : even_len (a :: b :: l) ↔ even_len l.
Proof. done. Qed.

(** Induction on the words. *)
Lemma even_ind (P : list Z → Prop) :
  P [] → (∀ a b l, even_len l → P l → P (a :: b :: l)) → ∀ l, even_len l → P l.
Proof.
  intros H0 H2. fix IH 1. intros [|a [|b l]] He; [done| |].
  - done.
  - apply even_cons2 in He. by apply H2, IH.
Qed.

Lemma wsum_bound l : even_len l → byte_list l → 2 * wsum l ≤ 65535 * zlen l.
Proof.
  intros He. revert l He. refine (even_ind _ _ _); [done|]. intros a b l _ IH Hl.
  apply Forall_cons in Hl as [? Hl]. apply Forall_cons in Hl as [? Hl]. specialize (IH Hl).
  rewrite !zlen_cons. simpl. unfold word. lia.
Qed.

Lemma wsum_app l k : even_len l → wsum (l ++ k) = wsum l + wsum k.
Proof. intros He. revert l He. apply even_ind; [done|]. intros a b l _ IH. simpl. lia. Qed.

Lemma even_app l k : even_len l → even_len (l ++ k) ↔ even_len k.
Proof.
  intros He. revert l He. apply even_ind; [done|]. intros a b l _ IH. simpl. by rewrite even_cons2.
Qed.

Lemma wsum_head a k : wsum (a :: k) = a + wsum (0 :: k).
Proof. destruct k as [|b k]; simpl; unfold word; lia. Qed.

(** Reading with the bytes swapped. *)
Lemma wsum_swap k r :
  byte_list k → even_len r → byte_list r →
  eqn (256 * wsum r + wsum (0 :: k)) (wsum (0 :: r ++ k)).
Proof.
  intros Hk He. revert r He. refine (even_ind _ _ _).
  - intros _. simpl (256 * _). rewrite Z.add_0_l. apply eqn_refl, wsum_nonneg. by constructor.
  - intros x y r Hr IH Hb. apply Forall_cons in Hb as [Hx Hb]. apply Forall_cons in Hb as [Hy Hb].
    specialize (IH Hb).
    change (wsum (0 :: (x :: y :: r) ++ k)) with (word 0 x + wsum (y :: r ++ k)).
    change (wsum (x :: y :: r)) with (word x y + wsum r). rewrite (wsum_head y).
    replace (256 * (word x y + wsum r) + wsum (0 :: k)) with
      (256 * x + (256 * (256 * y) + (256 * wsum r + wsum (0 :: k)))) by (unfold word; lia).
    unfold word. rewrite Z.add_0_l. apply eqn_add; [apply eqn_refl; lia|].
    apply eqn_add; [apply eqn_turn; lia|done].
Qed.
End eqn.

(** ** The loops *)

Section loops.
Lemma s32_id x : 0 ≤ x < 2 ^ 31 → s32 x = x.
Proof. intros. apply swrap_small; lia. Qed.

Lemma add_words_spec n : ∀ sum w,
  byte_list w → 2 * Z.of_nat n ≤ zlen w → 0 ≤ sum → 2 * sum + 65535 * zlen w < 2 ^ 32 →
  ∃ w1 w2, w = w1 ++ w2 ∧ even_len w1 ∧ zlen w1 = 2 * Z.of_nat n ∧
    add_words n sum w = (sum + wsum w1, w2).
Proof.
  induction n as [|n IH]; intros sum w Hb Hl Hs Hm.
  - exists [], w. split_and!; try done. simpl. f_equal. lia.
  - destruct w as [|a [|b w]]; rewrite ?zlen_cons, ?zlen_nil in *; [lia|lia|].
    pose proof (zlen_nonneg w).
    apply Forall_cons in Hb as [Ha Hb]. apply Forall_cons in Hb as [Hb0 Hb]. simpl.
    rewrite s32_id by (unfold word; lia).
    destruct (IH (sum + word a b) w) as (w1 & w2 & -> & He & Hw & E); [done|lia|unfold word; lia|unfold word; lia|].
    exists (a :: b :: w1), w2. rewrite E. split_and!; try done; [rewrite !zlen_cons; lia|].
    f_equal. simpl. lia.
Qed.

Lemma unrolled_spec n : (0 < n)%nat → ∀ fuel sum w,
  byte_list w → (length w ≤ fuel)%nat → 0 ≤ sum → 2 * sum + 65535 * zlen w < 2 ^ 32 →
  ∃ w1 w2, w = w1 ++ w2 ∧ even_len w1 ∧ zlen w2 < 2 * Z.of_nat n ∧
    unrolled n fuel sum w = (sum + wsum w1, w2).
Proof.
  intros Hn. induction fuel as [|fuel IH]; intros sum w Hb Hf Hs Hm.
  - destruct w; simpl in Hf; [|lia]. exists [], []. split_and!; try done; [rewrite zlen_nil; lia|].
    simpl. f_equal. lia.
  - simpl. case_bool_decide as E.
    + exists [], w. split_and!; try done. simpl. f_equal. lia.
    + destruct (add_words_spec n sum w) as (w1 & w2 & -> & He & Hw & Ea); [done|lia|done|done|].
      rewrite Ea. apply Forall_app in Hb as [Hb1 Hb2]. rewrite zlen_app in *.
      pose proof (wsum_nonneg _ Hb1). pose proof (wsum_bound _ He Hb1).
      destruct (IH (sum + wsum w1) w2) as (w3 & w4 & -> & He3 & Hw4 & Eu); [done| |lia|lia|].
      { unfold zlen in Hw. rewrite length_app in Hf. lia. }
      exists (w1 ++ w3), w4. rewrite Eu. split_and!; try done.
      * by rewrite <- app_assoc.
      * by apply even_app.
      * f_equal. rewrite wsum_app by done. lia.
Qed.
End loops.

(** ** One block *)

(** The context [c] stands for the bytes [l] summed so far; if their number is
    odd, the leftover byte is still to be added as a low byte. *)
Definition csum_rep (c : checksum_partial) (l : list Z) : Prop :=
  byte_list l ∧ 0 ≤ cs_csum c ∧
  2 * cs_csum c ≤ 2 ^ 25 + 65535 * (zlen l + (if cs_odd c then 1 else 2)) ∧
  if cs_odd c
  then ¬ even_len l ∧ 0 ≤ cs_leftover c < 256 ∧ eqn (cs_csum c + cs_leftover c) (wsum l)
  else even_len l ∧ eqn (cs_csum c) (wsum l).

(** Bytes for which the 32-bit sum does not overflow. *)
Definition max_bytes : Z := 65000.

Section block.
Lemma rep_init : csum_rep checksum_partial_init [].
Proof. split; [constructor|]. by split_and!. Qed.

Lemma shl8 x : Z.shiftl x 8 = 256 * x.
Proof. rewrite Z.shiftl_mul_pow2 by lia. lia. Qed.

Lemma odd_cons a l : ¬ even_len (a :: l) ↔ even_len l.
Proof.
  unfold even_len. simpl length. rewrite Nat.even_succ, <- Nat.negb_even.
  by destruct (Nat.even (length l)).
Qed.

Lemma odd_app l b k : ¬ even_len l →
  wsum (l ++ b :: k) = wsum l + 256 * b + wsum k ∧ (even_len (l ++ b :: k) ↔ even_len k).
Proof.
  revert l. fix IH 1. intros [|x [|y l]] Ho; [by destruct Ho| |].
  - simpl. unfold word. split; [lia|done].
  - rewrite even_cons2 in Ho. destruct (IH l Ho) as [E1 E2]. simpl. rewrite E1. split; [lia|].
    by rewrite even_cons2.
Qed.

(** From an even address, or without bytes. *)
Lemma aligned_even lo sum l ptr :
  byte_list l → byte_list ptr → even_len l → eqn sum (wsum l) →
  2 * sum ≤ 2 ^ 25 + 65535 * (zlen l + 2) → zlen l + zlen ptr ≤ max_bytes →
  csum_rep (checksum_aligned lo sum false ptr) (l ++ ptr).
Proof.
  intros Hl Hp He Hs Hm Hn. unfold max_bytes in Hn. unfold checksum_aligned.
  pose proof Hs as (Hs0 & _). pose proof (zlen_nonneg l).
  destruct (unrolled_spec 16 ltac:(lia) (length ptr) sum ptr) as (w1 & p2 & -> & E1 & _ & ->); [done..|lia|].
  apply Forall_app in Hp as [B1 Hp]. rewrite !zlen_app in *.
  pose proof (wsum_nonneg _ B1). pose proof (wsum_bound _ E1 B1).
  destruct (unrolled_spec 4 ltac:(lia) (length p2) (sum + wsum w1) p2) as (w2 & p3 & -> & E2 & _ & ->);
    [done|done|lia|lia|].
  apply Forall_app in Hp as [B2 Hp]. rewrite !zlen_app in *.
  pose proof (wsum_nonneg _ B2). pose proof (wsum_bound _ E2 B2).
  set (sum2 := sum + wsum w1 + wsum w2). assert (byte_list (l ++ w1 ++ w2)) as Hb2.
  { apply Forall_app; split; [done|]. apply Forall_app; by split. }
  assert (even_len (l ++ w1 ++ w2)) as Hev2 by (by rewrite !even_app).
  assert (eqn sum2 (wsum (l ++ w1 ++ w2))) as Hs2.
  { rewrite !wsum_app by done. unfold sum2. rewrite Z.add_assoc. apply eqn_add; [|by apply eqn_refl].
    apply eqn_add; [done|by apply eqn_refl]. }
  rewrite (app_assoc w1). rewrite (app_assoc l). set (l2 := l ++ w1 ++ w2) in *.
  assert (zlen l2 = zlen l + zlen w1 + zlen w2) as Hl2 by (unfold l2; rewrite !zlen_app; lia).
  case_bool_decide as Ep; simpl.
  { subst p3. rewrite app_nil_r. split_and!; try done; simpl; unfold sum2 in *; lia. }
  assert (0 ≤ zlen p3) by apply zlen_nonneg.
  destruct (reduce_range sum2) as [Hr Er]; [unfold sum2; lia|].
  destruct (unrolled_spec 1 ltac:(lia) (length p3) (REDUCE sum2) p3) as (w3 & p4 & -> & E3 & Hp4 & ->);
    [done|done|lia|lia|].
  apply Forall_app in Hp as [B3 Hp4b]. rewrite !zlen_app in *.
  pose proof (wsum_nonneg _ B3). pose proof (wsum_bound _ E3 B3). pose proof (zlen_nonneg p4).
  assert (eqn (REDUCE sum2 + wsum w3) (wsum (l2 ++ w3))) as Hs3.
  { rewrite wsum_app by done. apply eqn_add; [by eapply eqn_trans|by apply eqn_refl]. }
  assert (even_len (l2 ++ w3)) as Hev3 by (by rewrite even_app).
  assert (byte_list (l2 ++ w3)) as Hb3 by (apply Forall_app; by split).
  rewrite app_assoc. destruct p4 as [|b p4].
  - rewrite app_nil_r. split_and!; try done; simpl; rewrite ?zlen_app; lia.
  - assert (p4 = []) as -> by (destruct p4; [done|]; rewrite !zlen_cons in Hp4; pose proof (zlen_nonneg p4); lia).
    apply Forall_cons in Hp4b as [Hb _].
    split_and!; simpl; rewrite ?zlen_app, ?zlen_cons, ?zlen_nil; try lia.
    + apply Forall_app; split; [done|]. by constructor.
    + rewrite even_app by done. split_and!; try done; [lia|lia|].
      rewrite wsum_app by done. simpl. apply eqn_add; [done|apply eqn_refl; lia].
Qed.

(** From an odd address: the words of [r] are read with the bytes swapped. *)
Lemma aligned_odd lo sum l a r :
  byte_list l → byte_list (a :: r) → even_len l → eqn sum (wsum l) → sum < 2 ^ 31 →
  zlen l + zlen (a :: r) ≤ max_bytes →
  csum_rep (checksum_aligned lo sum true (a :: r)) (l ++ a :: r).
Proof.
  intros Hl Hp He Hs Hm Hn. unfold max_bytes in Hn. unfold checksum_aligned. rewrite zlen_cons in Hn.
  pose proof Hs as (Hs0 & _). pose proof (zlen_nonneg l). pose proof (zlen_nonneg r).
  apply Forall_cons in Hp as [Ha Hp]. destruct (reduce_range sum) as [R0 E0]; [lia|].
  rewrite shl8, s32_id by lia. set (s0 := 256 * REDUCE sum).
  destruct (unrolled_spec 16 ltac:(lia) (length r) s0 r) as (w1 & p2 & -> & E1 & _ & ->);
    [done|done|unfold s0; lia|unfold s0; lia|].
  apply Forall_app in Hp as [B1 Hp]. rewrite !zlen_app in *.
  pose proof (wsum_nonneg _ B1). pose proof (wsum_bound _ E1 B1).
  destruct (unrolled_spec 4 ltac:(lia) (length p2) (s0 + wsum w1) p2) as (w2 & p3 & -> & E2 & _ & ->);
    [done|done|unfold s0; lia|unfold s0; lia|].
  apply Forall_app in Hp as [B2 Hp]. rewrite !zlen_app in *. rewrite andb_false_r.
  pose proof (wsum_nonneg _ B2). pose proof (wsum_bound _ E2 B2). pose proof (zlen_nonneg p3).
  destruct (reduce_range (s0 + wsum w1 + wsum w2)) as [R2 Er2]; [unfold s0; lia|].
  destruct (unrolled_spec 1 ltac:(lia) (length p3) (REDUCE (s0 + wsum w1 + wsum w2)) p3)
    as (w3 & p4 & -> & E3 & Hp4 & ->); [done|done|lia|lia|].
  apply Forall_app in Hp as [B3 Hp4b]. rewrite !zlen_app in *.
  pose proof (wsum_nonneg _ B3). pose proof (wsum_bound _ E3 B3). pose proof (zlen_nonneg p4).
  set (s3 := REDUCE (s0 + wsum w1 + wsum w2) + wsum w3).
  destruct (reduce_range s3) as [R3 Er3]; [unfold s3; lia|].
  set (rr := w1 ++ w2 ++ w3). assert (even_len rr) as Hrr by (unfold rr; by rewrite !even_app).
  assert (byte_list rr) as Brr by (unfold rr; apply Forall_app; split; [done|]; apply Forall_app; by split).
  assert (eqn (REDUCE s3) (256 * sum + wsum rr)) as Hfull.
  { eapply eqn_trans; [exact Er3|]. unfold s3, rr. rewrite !wsum_app by done.
    replace (256 * sum + (wsum w1 + (wsum w2 + wsum w3))) with (256 * sum + wsum w1 + wsum w2 + wsum w3) by lia.
    apply eqn_add; [|by apply eqn_refl]. eapply eqn_trans; [exact Er2|]. unfold s0.
    apply eqn_add; [|by apply eqn_refl]. apply eqn_add; [|by apply eqn_refl]. by apply eqn_mul. }
  assert (∀ k, byte_list k → eqn (256 * REDUCE s3 + wsum (a :: k)) (wsum (l ++ a :: rr ++ k))) as Hk.
  { intros k Bk. pose proof (wsum_nonneg _ Brr).
    assert (0 ≤ wsum (a :: k)) by (apply wsum_nonneg; by constructor).
    eapply eqn_trans; [apply eqn_add; [apply eqn_mul; [lia|exact Hfull]|apply eqn_refl; lia]|].
    replace (256 * (256 * sum + wsum rr) + wsum (a :: k))
      with (256 * (256 * sum) + (a + (256 * wsum rr + wsum (0 :: k)))) by (rewrite (wsum_head a k); lia).
    rewrite wsum_app by done. rewrite (wsum_head a (rr ++ k)).
    apply eqn_add; [eapply eqn_trans; [by apply eqn_turn|done]|].
    apply eqn_add; [apply eqn_refl; lia|]. by apply wsum_swap. }
  assert (∀ k, l ++ a :: w1 ++ w2 ++ w3 ++ k = l ++ a :: rr ++ k) as Eapp.
  { intros k. unfold rr. by rewrite <- !app_assoc. }
  rewrite Eapp. rewrite !shl8, (s32_id (256 * REDUCE s3)) by lia.
  assert (zlen rr = zlen w1 + zlen w2 + zlen w3) as Erl by (unfold rr; rewrite !zlen_app; lia).
  destruct p4 as [|b p4].
  - specialize (Hk [] ltac:(constructor)). rewrite app_nil_r in *. simpl (wsum [a]) in Hk.
    split_and!; simpl; rewrite ?zlen_app, ?zlen_cons; try lia.
    + apply Forall_app; split; [done|]. by constructor.
    + rewrite even_app by done. split_and!; try done; try lia. by apply odd_cons.
  - assert (p4 = []) as -> by (destruct p4; [done|]; rewrite !zlen_cons in Hp4; pose proof (zlen_nonneg p4); lia).
    specialize (Hk [b] Hp4b). simpl (wsum [a; b]) in Hk. rewrite Z.add_0_r in Hk.
    apply Forall_cons in Hp4b as [Hb _]. rewrite s32_id by (unfold word; lia).
    split_and!; simpl; rewrite ?zlen_app, ?zlen_cons, ?zlen_app, ?zlen_cons, ?zlen_nil; try (try unfold word; lia).
    + apply Forall_app; split; [done|]. constructor; [done|]. apply Forall_app; split; [done|by constructor].
    + rewrite even_app by done. split; [|done].
      destruct (odd_app (a :: rr) b []) as [_ E]; [by apply odd_cons|]. by apply E.
Qed.

Lemma aligned_spec lo sum l addr ptr :
  byte_list l → byte_list ptr → even_len l → eqn sum (wsum l) →
  2 * sum ≤ 2 ^ 25 + 65535 * (zlen l + 2) → zlen l + zlen ptr ≤ max_bytes →
  csum_rep (checksum_aligned lo sum addr ptr) (l ++ ptr).
Proof.
  intros. pose proof (zlen_nonneg ptr). destruct addr; [|by apply aligned_even].
  destruct ptr as [|a r]; [by apply aligned_even|]. apply aligned_odd; try done.
  unfold max_bytes in *. lia.
Qed.

Lemma partial_spec c l addr ptr :
  csum_rep c l → ptr ≠ [] → byte_list ptr → zlen l + zlen ptr ≤ max_bytes →
  csum_rep (inet_checksum_partial c addr ptr) (l ++ ptr).
Proof.
  intros (Hbl & H0 & Hm & Hodd) Hne Hb Hn. unfold inet_checksum_partial.
  destruct (cs_odd c); [|destruct Hodd; by apply aligned_spec].
  destruct Hodd as (Ho & Hlo & Hs). destruct ptr as [|b ptr]; [done|]. unfold max_bytes in Hn.
  apply Forall_cons in Hb as [Hb Hp]. rewrite cons_middle, app_assoc. rewrite zlen_cons in Hn.
  pose proof (zlen_nonneg ptr). pose proof (zlen_nonneg l).
  rewrite s32_id by (unfold word; lia). destruct (odd_app l b [] Ho) as [E1 E2].
  apply aligned_spec; try done.
  - apply Forall_app; split; [done|]. by constructor.
  - by apply E2.
  - rewrite E1. unfold word. simpl. rewrite Z.add_0_r, Z.add_assoc.
    apply eqn_add; [done|apply eqn_refl; lia].
  - rewrite zlen_app, zlen_cons, zlen_nil. unfold word. lia.
  - rewrite zlen_app, zlen_cons, zlen_nil. unfold max_bytes. lia.
Qed.

Lemma blocks_spec blocks : ∀ c l,
  csum_rep c l → Forall (λ x, byte_list x.2) blocks →
  zlen l + zlen (concat blocks.*2) ≤ max_bytes →
  csum_rep (inet_checksum_blocks c blocks) (l ++ concat blocks.*2).
Proof.
  induction blocks as [|[addr b] blocks IH]; intros c l Hc Hb Hn.
  - simpl. by rewrite app_nil_r.
  - rewrite fmap_cons in *. cbn [snd concat] in *. simpl inet_checksum_blocks. apply Forall_cons in Hb as [Hb Hbs]. rewrite zlen_app in Hn. rewrite app_assoc.
    pose proof (zlen_nonneg (concat blocks.*2)). apply IH; [|done|rewrite zlen_app; lia].
    case_bool_decide as E.
    + apply partial_spec; try done; [|lia]. by intros ->.
    + assert (b = []) as -> by (apply zlen_0_inv; pose proof (zlen_nonneg b); lia).
      by rewrite app_nil_r.
Qed.

Lemma lnot16 x : 0 ≤ x ≤ 65535 → Z.land (Z.lnot x) 65535 = 65535 - x.
Proof.
  intros Hx. change 65535 with (Z.ones 16) at 1. rewrite Z.land_ones by lia.
  unfold Z.lnot. rewrite <- (Z.mod_add (Z.pred (- x)) 1 (2 ^ 16)) by lia.
  rewrite Z.mod_small; unfold Z.pred; lia.
Qed.

Lemma u16_s16 x : 0 ≤ x < 2 ^ 16 → u16 (s16 x) = x.
Proof.
  intros Hx. unfold u16, wrap, s16, swrap. rewrite Zminus_mod_idemp_l.
  rewrite <- (Z.mod_small x (2 ^ 16)) at 2 by lia. f_equal. lia.
Qed.

Lemma reduce_spec c l :
  csum_rep c l → zlen l ≤ max_bytes → u16 (inet_checksum_reduce c) = 65535 - norm (wsum l).
Proof.
  intros (Hbl & H0 & Hm & Hodd) Hn. unfold inet_checksum_reduce, max_bytes in *.
  pose proof (zlen_nonneg l).
  assert (∃ x, (if cs_odd c then s32 (cs_csum c + word (cs_leftover c) 0) else cs_csum c) = x ∧
    eqn x (wsum l) ∧ 0 ≤ x < 2 ^ 31) as (x & -> & Hx & Hr).
  { destruct (cs_odd c).
    - destruct Hodd as (_ & Hlo & Hs). exists (cs_csum c + cs_leftover c).
      split; [|split; [done|lia]]. unfold word. rewrite Z.mul_0_r, Z.add_0_r, s32_id by lia. done.
    - destruct Hodd as (_ & Hs). exists (cs_csum c). split; [done|]. split; [done|lia]. }
  destruct (reduce_range x Hr) as [R1 R2]. rewrite lnot16, u16_s16 by lia. f_equal.
  apply eqn_norm; [|done]. by eapply eqn_trans.
Qed.
End block.

(** ** The sums of whole byte strings *)

(** C5 [inet_checksum_vbuffer]: for every cutting of a byte string of at most
    65000 bytes into blocks, at any addresses, the code computes the complement
    of the one's complement sum of its 16-bit words (an odd last byte counts as a
    low byte); in particular neither the cutting nor the alignment matters. *)
Theorem inet_checksum_vbuffer_correct blocks :
  Forall (λ x, byte_list x.2) blocks → zlen (concat blocks.*2) ≤ max_bytes →
  u16 (inet_checksum_vbuffer blocks) = 65535 - norm (wsum (concat blocks.*2)).
Proof.
  intros Hb Hn. unfold inet_checksum_vbuffer. apply reduce_spec; [|done].
  by apply (blocks_spec blocks _ []); [apply rep_init| |].
Qed.

Definition ex_csum_blocks : list (bool * list Z) :=
  [(false, [69; 0; 3]); (true, []); (true, [0; 1; 2; 3]); (true, [255])].

Lemma inet_checksum_vbuffer_correct_witness :
  u16 (inet_checksum_vbuffer ex_csum_blocks) = 65535 - norm (wsum [69; 0; 3; 0; 1; 2; 3; 255]).
Proof.
  apply (inet_checksum_vbuffer_correct ex_csum_blocks).
  - repeat constructor; vm_compute; discriminate.
  - vm_compute. discriminate.
Defined.

Lemma checksum_one addr l :
  l ≠ [] → byte_list l → zlen l ≤ max_bytes → u16 (inet_checksum addr l) = 65535 - norm (wsum l).
Proof.
  intros Hne Hb Hn. unfold inet_checksum. apply reduce_spec; [|done].
  apply (partial_spec _ [] addr l rep_init); done.
Qed.

(** Adding the checksum of a byte string to its sum gives zero. *)
Lemma norm_complement x y :
  0 ≤ x → 0 ≤ y → eqn y (x + (65535 - norm x)) → norm y = 65535.
Proof.
  intros Hx Hy (_ & _ & Em & Ez). destruct (norm_range x Hx) as [Hr (_ & _ & En & Enz)].
  assert (y ≠ 0) as Hy0.
  { intros E. apply Ez in E. destruct (decide (x = 0)) as [->|]; [|lia]. by vm_compute in E. }
  unfold norm at 1. rewrite bool_decide_false by done.
  assert ((y - 1) `mod` 65535 = 65534); [|lia].
  rewrite <- (Zminus_mod_idemp_l y), Em, Zminus_mod_idemp_l.
  replace (x + (65535 - norm x) - 1) with (x - norm x + 65534) by lia.
  rewrite <- Zplus_mod_idemp_l. rewrite Zminus_mod, En, Z.sub_diag. done.
Qed.
