(* ===== verification/Ipv4.v ===== *)
(** * IPv4 packets (modules/protocol/ipv4/ipv4.c, haka/ipv4.h)

    A [struct ipv4] and the packet it dissects, over the buffer library: the
    header is accessed through the memory that [vbuffer_iterator_mmap] maps at
    the beginning of the payload of the packet, every write of a field goes
    through the write permission of its chunk and marks it modified.

    The state is that of one packet. The calls that drop and release it go to a capture
    module: here they are recorded, what they do to the buffers of the packet is modelled in
    Packet.v and Pcap.v. Alerts are recorded with their message and addresses. *)

From S2P Require Import Prelude Types Checksum List2 VbHeap VbIter VbSub.

(** ** Data *)

Record packet := Packet {
  pk_ref : Z;
  pk_payload : vbuffer;
  pk_verdict : option filter_result;
  pk_released : bool;
}.

(** [ip_packet]: the packet is attached. *)
Record ipv4 := Ipv4 {
  ip_packet : bool;
  ip_select : vbuffer_iterator;
  ip_packet_payload : vbuffer;
  ip_invalid_checksum : bool;
  ip_dont_reassemble : bool;
  ip_reassembled : bool;
}.

Record ipstate := IPS {
  is_vb : vbstate;
  is_pkt : packet;
  is_ip : ipv4;
  is_alerts : list (string * option (Z * Z));
}.

Abbreviation IM := (M ipstate).

Definition set_vb (v : vbstate) (s : ipstate) : ipstate := IPS v (is_pkt s) (is_ip s) (is_alerts s).
Definition set_pkt (p : packet) (s : ipstate) : ipstate := IPS (is_vb s) p (is_ip s) (is_alerts s).
Definition set_ip (i : ipv4) (s : ipstate) : ipstate := IPS (is_vb s) (is_pkt s) i (is_alerts s).
Definition vb {A} (m : VM A) : IM A := zoom is_vb set_vb m.

Definition set_invalid (b : bool) : IM unit :=
  modify (λ s, let i := is_ip s in set_ip (Ipv4 (ip_packet i) (ip_select i) (ip_packet_payload i)
    b (ip_dont_reassemble i) (ip_reassembled i)) s).

(** ** The packet (lib/haka/packet.c) *)

Definition packet_payload : IM vbuffer :=
  p ← gets (λ s, pk_payload (is_pkt s)); c_assert (vbuffer_isvalid p);; ret p.

(** The calls of [packet_drop] and [packet_release] are recorded: what they do to the packet
    is Packet.v's, over a capture module. *)
Definition record_drop : IM unit :=
  modify (λ s, let p := is_pkt s in
    set_pkt (Packet (pk_ref p) (pk_payload p) (Some FILTER_DROP) (pk_released p)) s).

Definition record_release : IM bool :=
  p ← gets is_pkt;
  let r := u32 (pk_ref p - 1) in
  let free := bool_decide (r = 0) in
  modify (set_pkt (Packet r (pk_payload p) (pk_verdict p) (if free then true else pk_released p)));;
  ret free.

(** ** Access to the header *)

Definition header_size : Z := 20.

Definition IPV4_CHECK : IM bool :=
  a ← gets (λ s, ip_packet (is_ip s));
  if a : bool then ret true else vb (error "invalid ipv4 packet");; ret false.

(** The pointer to the mapped header. The pointer is NULL plus an offset when the
    access is refused, and the offset is 0 at the beginning of a buffer. *)
Definition ipv4_header (write : bool) : IM (option (loc * Z)) :=
  ok ← IPV4_CHECK;
  if negb ok then ret None else
  payload ← gets (λ s, pk_payload (is_pkt s));
  begin ← vb (u ← uninit_iterator; vbuffer_begin payload u);
  '(m, _) ← vb (vbuffer_iterator_mmap begin size_max write);
  match m with
  | MapPtr p len =>
      (if write then set_invalid true else skip);;
      c_assert (bool_decide (header_size ≤ len));;
      ret (Some p)
  | MapNull => c_assert write;; e ← vb check_error; c_assert e;; ret None
  | MapBad o =>
      c_assert (bool_decide (o = 0));;
      c_assert write;; e ← vb check_error; c_assert e;; ret None
  end.

(** Loads and stores of [n]-byte integers through the pointer. *)
Definition ld (p : loc * Z) (off n : Z) : IM Z :=
  bs ← vb (ptr_read (p.1, p.2 + off) n); ret (le_value bs).
Definition st (p : loc * Z) (off n v : Z) : IM unit :=
  vb (ptr_write (p.1, p.2 + off) (le_bytes (Z.to_nat n) v)).

(** [IPV4_GETSET_FIELD]: a field of [n] bytes at [off]. *)
Definition IPV4_GET_FIELD (off n : Z) : IM Z :=
  ok ← IPV4_CHECK;
  if negb ok then ret 0 else
  h ← ipv4_header false;
  p ← deref h;
  v ← ld p off n;
  ret (SWAP_FROM_BE n v).

Definition IPV4_SET_FIELD (off n v : Z) : IM unit :=
  ok ← IPV4_CHECK;
  if negb ok then skip else
  h ← ipv4_header true;
  match h with
  | Some p => st p off n (SWAP_TO_BE n v)
  | None => skip
  end.

Definition ipv4_get_tos := IPV4_GET_FIELD 1 1.
Definition ipv4_set_tos := IPV4_SET_FIELD 1 1.
Definition ipv4_get_len := IPV4_GET_FIELD 2 2.
Definition ipv4_set_len := IPV4_SET_FIELD 2 2.
Definition ipv4_get_id := IPV4_GET_FIELD 4 2.
Definition ipv4_set_id := IPV4_SET_FIELD 4 2.
Definition ipv4_get_ttl := IPV4_GET_FIELD 8 1.
Definition ipv4_set_ttl := IPV4_SET_FIELD 8 1.
Definition ipv4_get_proto := IPV4_GET_FIELD 9 1.
Definition ipv4_set_proto := IPV4_SET_FIELD 9 1.
Definition ipv4_get_checksum := IPV4_GET_FIELD 10 2.
Definition ipv4_set_checksum := IPV4_SET_FIELD 10 2.
Definition ipv4_get_src := IPV4_GET_FIELD 12 4.
Definition ipv4_set_src := IPV4_SET_FIELD 12 4.
Definition ipv4_get_dst := IPV4_GET_FIELD 16 4.
Definition ipv4_set_dst := IPV4_SET_FIELD 16 4.

(** The two bit fields of the first byte: [hdr_len] is the low one. *)
Definition ipv4_get_version : IM Z :=
  ok ← IPV4_CHECK;
  if negb ok then ret 0 else
  h ← ipv4_header false; p ← deref h;
  v ← ld p 0 1; ret (Z.shiftr v 4).

Definition ipv4_set_version (v : Z) : IM unit :=
  ok ← IPV4_CHECK;
  if negb ok then skip else
  h ← ipv4_header true;
  match h with
  | Some p => b ← ld p 0 1; st p 0 1 (SET_BITS b 4 8 v)
  | None => skip
  end.

Definition ipv4_get_hdr_len : IM Z :=
  ok ← IPV4_CHECK;
  if negb ok then ret 0 else
  h ← ipv4_header false; p ← deref h;
  b ← ld p 0 1; ret (u8 (Z.shiftl (Z.land b 15) 2)).

Definition ipv4_set_hdr_len (v : Z) : IM unit :=
  ok ← IPV4_CHECK;
  if negb ok then skip else
  h ← ipv4_header true;
  match h with
  | Some _ =>
      h ← ipv4_header true; p ← deref h;
      b ← ld p 0 1; st p 0 1 (SET_BITS b 0 4 (Z.shiftr v 2))
  | None => skip
  end.

(** ** Fragment offset and flags *)

Definition IPV4_FLAG_RB : Z := 15.
Definition IPV4_FLAG_DF : Z := 15 - 1.
Definition IPV4_FLAG_MF : Z := 15 - 2.

Definition IPV4_GET_BIT (v i : Z) : bool := GET_BIT (SWAP_FROM_BE 2 v) i.
Definition IPV4_SET_BIT (v i : Z) (x : bool) : Z := SWAP_TO_BE 2 (SET_BIT (SWAP_FROM_BE 2 v) i x).
Definition IPV4_GET_BITS (v i j : Z) : Z := GET_BITS (SWAP_FROM_BE 2 v) i j.
Definition IPV4_SET_BITS (v i j x : Z) : Z := SWAP_TO_BE 2 (SET_BITS (SWAP_FROM_BE 2 v) i j x).

Definition get_fragment {A} (dflt : A) (f : Z → A) : IM A :=
  ok ← IPV4_CHECK;
  if negb ok then ret dflt else
  h ← ipv4_header false; p ← deref h;
  v ← ld p 6 2; ret (f v).

Definition set_fragment (f : Z → Z) : IM unit :=
  ok ← IPV4_CHECK;
  if negb ok then skip else
  h ← ipv4_header true;
  match h with
  | Some p => v ← ld p 6 2; st p 6 2 (f v)
  | None => skip
  end.

Definition ipv4_get_frag_offset : IM Z :=
  get_fragment 0 (λ v, u16 (Z.shiftl (IPV4_GET_BITS v 0 (16 - 3)) 3)).
Definition ipv4_set_frag_offset (x : Z) : IM unit :=
  set_fragment (λ v, IPV4_SET_BITS v 0 (16 - 3) (Z.shiftr x 3)).
Definition ipv4_get_flags : IM Z := get_fragment 0 (λ v, IPV4_GET_BITS v (16 - 3) 16).
Definition ipv4_set_flags (x : Z) : IM unit := set_fragment (λ v, IPV4_SET_BITS v (16 - 3) 16 x).
Definition IPV4_GET_FLAG (flag : Z) : IM bool := get_fragment false (λ v, IPV4_GET_BIT v flag).
Definition IPV4_SET_FLAG (flag : Z) (x : bool) : IM unit := set_fragment (λ v, IPV4_SET_BIT v flag x).
Definition ipv4_get_flags_df := IPV4_GET_FLAG IPV4_FLAG_DF.
Definition ipv4_set_flags_df := IPV4_SET_FLAG IPV4_FLAG_DF.
Definition ipv4_get_flags_mf := IPV4_GET_FLAG IPV4_FLAG_MF.
Definition ipv4_set_flags_mf := IPV4_SET_FLAG IPV4_FLAG_MF.
Definition ipv4_get_flags_rb := IPV4_GET_FLAG IPV4_FLAG_RB.
Definition ipv4_set_flags_rb := IPV4_SET_FLAG IPV4_FLAG_RB.

(** ** Checksum *)

(** Blocks are aligned: the parity of an address is that of the offset. *)
Definition mapped_checksum (p : loc * Z) (size : Z) : IM Z :=
  bs ← vb (ptr_read p size); ret (inet_checksum (Z.odd p.2) bs).

Definition ipv4_verify_checksum : IM bool :=
  ok ← IPV4_CHECK;
  if negb ok then ret false else
  h ← ipv4_header false; p ← deref h;
  n ← ipv4_get_hdr_len;
  c ← mapped_checksum p n;
  ret (bool_decide (c = 0)).

Definition ipv4_compute_checksum : IM unit :=
  ok ← IPV4_CHECK;
  if negb ok then skip else
  h ← ipv4_header true;
  match h with
  | None => skip
  | Some p =>
      st p 10 2 0;;
      n ← ipv4_get_hdr_len;
      c ← mapped_checksum p n;
      st p 10 2 (u16 c);;
      set_invalid false
  end.

(** ** Dissection and forging *)

Definition raise_alert (ip : bool) (message : string) : IM unit :=
  from ← (if ip then src ← ipv4_get_src; dst ← ipv4_get_dst; ret (Some (src, dst)) else ret None);
  modify (λ s, IPS (is_vb s) (is_pkt s) (is_ip s) (is_alerts s ++ [(message, from)])).

Definition ipv4_flatten_header (payload : vbuffer) (hdrlen : Z) : IM bool :=
  part ← vb (vbuffer_sub_create payload 0 hdrlen);
  '(m, _) ← vb (vbuffer_sub_flatten part);
  match m with
  | MapPtr _ len => c_assert (bool_decide (hdrlen ≤ len));; ret true
  | _ => ret false
  end.

Definition ipv4_extract_payload (hdrlen size : Z) : IM bool :=
  payload ← gets (λ s, pk_payload (is_pkt s));
  part ← vb (vbuffer_sub_create payload hdrlen size);
  '(r, _, buffer, select) ← vb (vbuffer_select part);
  if negb r then e ← vb check_error; c_assert e;; ret false else
  modify (λ s, let i := is_ip s in set_ip (Ipv4 (ip_packet i) select buffer
    (ip_invalid_checksum i) (ip_dont_reassemble i) (ip_reassembled i)) s);;
  ret true.

Definition reject : IM bool := record_drop;; _ ← record_release; ret false.

(** True when the [struct ipv4] is returned. *)
Definition ipv4_dissect : IM bool :=
  payload ← packet_payload;
  '(big, _) ← vb (vbuffer_check_size payload header_size);
  if negb big then raise_alert false "corrupted ip packet, size is too small";; reject else
  mem ← vb malloc;
  match mem with
  | None => vb (error "memory error");; ret false
  | Some _ =>
      modify (set_ip (Ipv4 true vbuffer_iterator_init None false false false));;
      b ← vb (u ← uninit_iterator; vbuffer_begin payload u);
      '(byte, _) ← vb (vbuffer_iterator_getbyte b);
      let header_len := Z.shiftl (Z.land byte 15) 2 in
      if bool_decide (header_len < header_size) then raise_alert false "corrupted ip packet";; reject else
      flat ← ipv4_flatten_header payload header_len;
      if negb flat then e ← vb check_error; c_assert e;; ret false else
      size ← vb (vbuffer_size payload);
      len ← ipv4_get_len;
      if bool_decide (size < len) then
        raise_alert true "invalid ip packet, invalid size is too small";; reject
      else
        ipv4_extract_payload header_len (u64 (len - header_len))
  end.

Definition ipv4_create : IM bool :=
  mem ← vb malloc;
  match mem with
  | None => ret false
  | Some _ =>
      modify (set_ip (Ipv4 true vbuffer_iterator_init None true false false));;
      payload ← packet_payload;
      '(ok, header_buffer) ← vb (vbuffer_create_new header_size true);
      if negb ok then e ← vb check_error; c_assert e;; ret false else
      _ ← vb (vbuffer_append payload header_buffer);
      _ ← vb (vbuffer_release header_buffer);
      ok ← ipv4_extract_payload header_size size_max;
      if negb ok then e ← vb check_error; c_assert e;; ret false else
      ipv4_set_version 4;;
      ipv4_set_checksum 0;;
      ipv4_set_len header_size;;
      ipv4_set_hdr_len header_size;;
      ret true
  end.

(** [frag_offset] is [None] for [(size_t)-1]; true when the packet is returned,
    with what [payload] has become. *)
Definition ipv4_forge_one (payload : vbuffer) (frag_offset : option Z) (more : bool)
    : IM (bool * vbuffer) :=
  att ← gets (λ s, ip_packet (is_ip s));
  if negb att then ret (false, payload) else
  hl ← ipv4_get_hdr_len;
  size ← vb (vbuffer_size payload);
  let len := hl + size in
  cur ← ipv4_get_len;
  (if bool_decide (len = cur) then skip else ipv4_set_len (u16 len));;
  (match frag_offset with
   | None => skip
   | Some off =>
       o ← ipv4_get_frag_offset;
       (if bool_decide (off = o) then skip else ipv4_set_frag_offset (u16 off));;
       mf ← ipv4_get_flags_mf;
       (if Bool.eqb more mf then skip else ipv4_set_flags_mf more)
   end);;
  inv ← gets (λ s, ip_invalid_checksum (is_ip s));
  (if inv : bool then ipv4_compute_checksum else skip);;
  sel ← gets (λ s, ip_select (is_ip s));
  '(_, sel, payload') ← vb (vbuffer_restore sel (Some payload) false);
  modify (λ s, let i := is_ip s in set_ip (Ipv4 false sel (ip_packet_payload i)
    (ip_invalid_checksum i) (ip_dont_reassemble i) (ip_reassembled i)) s);;
  ret (true, default payload payload').

(** Packets that are put together from fragments are not modelled: no result. *)
Definition only_single : IM unit :=
  r ← gets (λ s, ip_reassembled (is_ip s)); if r : bool then stuck else skip.

Definition ipv4_forge : IM bool :=
  only_single;;
  p ← gets (λ s, ip_packet_payload (is_ip s));
  '(r, p) ← ipv4_forge_one p None false;
  modify (λ s, let i := is_ip s in set_ip (Ipv4 (ip_packet i) (ip_select i) p
    (ip_invalid_checksum i) (ip_dont_reassemble i) (ip_reassembled i)) s);;
  ret r.

Definition ipv4_flush : IM unit :=
  att ← gets (λ s, ip_packet (is_ip s));
  if att : bool then
    record_drop;;
    _ ← record_release;
    p ← gets (λ s, ip_packet_payload (is_ip s));
    p ← vb (vbuffer_clear p);
    modify (λ s, let i := is_ip s in set_ip (Ipv4 false (ip_select i) p
      (ip_invalid_checksum i) (ip_dont_reassemble i) (ip_reassembled i)) s)
  else skip.

Definition ipv4_action_drop : IM unit :=
  ok ← IPV4_CHECK; if negb ok then skip else ipv4_flush.

Definition ipv4_release : IM unit :=
  ipv4_flush;;
  only_single;;
  p ← gets (λ s, ip_packet_payload (is_ip s));
  p ← vb (vbuffer_release p);
  modify (λ s, let i := is_ip s in set_ip (Ipv4 (ip_packet i) (ip_select i) p
    (ip_invalid_checksum i) (ip_dont_reassemble i) (ip_reassembled i)) s).

Definition ipv4_get_payload_length : IM Z :=
  ok ← IPV4_CHECK;
  if negb ok then ret 0 else
  p ← gets (λ s, ip_packet_payload (is_ip s)); vb (vbuffer_size p).
