(* ===== verification/Ipv4Spec.v ===== *)
(** * Properties of the IPv4 header access

    [header s a H w]: the packet is attached, the first block of its payload is
    mapped at the address [a] with the bytes [H] and is writable if [w]. Every
    accessor of haka/ipv4.h is a read or an update of these bytes; on top of them
    the round trips of the fields, of the fragment word and of the checksum. *)

From S2P Require Import Prelude Types Checksum List2 VbHeap VbIter VbSub VbRep VbWalk VbEdit VbMake VbRead VbSpec VbMap Ipv4.

(** ** The mapped header *)

Definition header (s : ipstate) (a : loc * Z) (H : list Z) (w : bool) : Prop :=
  ip_packet (is_ip s) = true ∧ (∃ e, pk_payload (is_pkt s) = Some e ∧ mapped_at (is_vb s) e a H w) ∧
  header_size ≤ zlen H.

(** Only the buffers and the checksum flag differ. *)
Definition same_packet (s s' : ipstate) : Prop :=
  is_pkt s' = is_pkt s ∧ is_alerts s' = is_alerts s ∧
  vb_links (is_vb s') = vb_links (is_vb s) ∧ vb_error (is_vb s') = vb_error (is_vb s).

Section mapping.
Lemma same_refl s : same_packet s s.
Proof. done. Qed.
Lemma same_trans s s' s'' : same_packet s s' → same_packet s' s'' → same_packet s s''.
Proof. unfold same_packet. intuition congruence. Qed.

Lemma set_vb_id s : set_vb (is_vb s) s = s.
Proof. by destruct s. Qed.

Lemma runs_vb_read {A} (m : VM A) s Q :
  runs m (is_vb s) (λ a v, v = is_vb s ∧ Q a s) → runs (vb m) s Q.
Proof.
  intros H. unfold vb. step. eapply runs_mono; [exact H|]. intros a v [-> HQ]. by rewrite set_vb_id.
Qed.

(** What an access changes besides the mapped bytes. *)
Definition invalid_after (w : bool) (s s' : ipstate) : Prop :=
  is_ip s' = (let i := is_ip s in Ipv4 (ip_packet i) (ip_select i) (ip_packet_payload i)
    (w || ip_invalid_checksum i) (ip_dont_reassemble i) (ip_reassembled i)).

Lemma runs_check s a H w Q : header s a H w → Q true s → runs IPV4_CHECK s Q.
Proof. intros [Ha _] HQ. unfold IPV4_CHECK. step. rewrite Ha. by step. Qed.

Lemma runs_header s a H (w write : bool) Q :
  header s a H w → (write = true → w = true) →
  (∀ s', header s' a H w → same_packet s s' → invalid_after write s s' → (write = false → s' = s) →
    Q (Some a) s') →
  runs (ipv4_header write) s Q.
Proof.
  intros Hh Hw HQ. unfold ipv4_header. call runs_check; [exact Hh|]. cbn [negb].
  destruct Hh as (Ha & (e & Ep & c & ch & r & sz & b & F & Ea & EH & Ew) & Hl).
  step. rewrite Ep. apply runs_bind, runs_vb_read. unfold uninit_iterator. apply runs_bind. step. step.
  eapply runs_block_begin; [exact F|]. split; [done|].
  apply runs_bind. unfold vb. step. eapply runs_block_mmap; [exact F|by intros ->; rewrite <- Ew; apply Hw|].
  intros it. cbv beta. destruct (fb_range _ _ _ _ _ _ _ _ F) as (Ho & Hs & Hb).
  assert (zlen H = ch_size ch) as EHl by (rewrite EH; apply zlen_zslice; lia).
  destruct write; apply runs_bind.
  - unfold set_invalid. step. step; [apply bool_decide_true; lia|]. step.
    destruct a as [d o]. simpl in Ea, F. subst o. apply HQ; [|done|done|done].
    split_and!; [done| |done]. exists e. split; [done|]. exists c, (set_modified true ch), r, sz, b. split_and!; try done.
    by apply (accessed_block _ _ _ _ _ _ _ _ true) in F.
  - unfold skip. step. step; [apply bool_decide_true; lia|]. step. simpl. rewrite set_vb_id.
    destruct a as [d o]. simpl in Ea, F. subst o. apply HQ; try done.
    + split_and!; [done| |done]. exists e. split; [done|]. by exists c, ch, r, sz, b.
    + unfold invalid_after. destruct (is_ip s). done.
Qed.

Lemma runs_ld s a H w off n Q :
  header s a H w → 0 ≤ off → 0 ≤ n → off + n ≤ zlen H → Q (le_value (zslice off n H)) s →
  runs (ld a off n) s Q.
Proof.
  intros (Ha & (e & Ep & Hm) & Hl) Ho Hn Hb HQ. unfold ld. apply runs_bind, runs_vb_read.
  eapply runs_map_load; [exact Hm|done|done|done|]. split; [done|]. by step.
Qed.

Lemma runs_st s a H w off n x Q :
  header s a H w → 0 ≤ off → 0 ≤ n → off + n ≤ zlen H →
  (∀ s', header s' a (zput off (le_bytes (Z.to_nat n) x) H) w → same_packet s s' → is_ip s' = is_ip s →
    Q tt s') →
  runs (st a off n x) s Q.
Proof.
  intros (Ha & (e & Ep & Hm) & Hl) Ho Hn Hb HQ.
  assert (zlen (le_bytes (Z.to_nat n) x) = n) as Eb by (unfold zlen; rewrite le_bytes_length; lia).
  unfold st, vb. step. eapply runs_map_store; [exact Hm|done|lia|]. intros v' Hm' El Ee. apply HQ; [|done|done].
  split_and!; [done|by exists e|]. rewrite zlen_zput; lia.
Qed.
End mapping.

(** ** Fields *)

(** The bytes of an integer in network order. *)
Definition be_bytes (n v : Z) : list Z := rev (le_bytes (Z.to_nat n) v).

Section fields.
Lemma be_le n v : width_ok n → be_bytes n v = le_bytes (Z.to_nat n) (SWAP_TO_BE n v).
Proof. intros. symmetry. by apply swap_bytes. Qed.

Lemma width_pos n : width_ok n → 0 < n ≤ 8.
Proof. unfold width_ok. rewrite !elem_of_cons. intros [->|[->|[->|[->|H]]]]; [lia..|inversion H]. Qed.

Lemma be_len n v : width_ok n → zlen (be_bytes n v) = n.
Proof. intros H%width_pos. unfold zlen, be_bytes. rewrite length_rev, le_bytes_length. lia. Qed.

Lemma runs_set_field s a H off n v Q :
  header s a H true → width_ok n → 0 ≤ off → off + n ≤ zlen H →
  (∀ s', header s' a (zput off (be_bytes n v) H) true → same_packet s s' → invalid_after true s s' →
    Q tt s') →
  runs (IPV4_SET_FIELD off n v) s Q.
Proof.
  intros Hh Hn Ho Hb HQ. pose proof (width_pos n Hn). unfold IPV4_SET_FIELD. call runs_check; [exact Hh|].
  cbn [negb]. call runs_header; [exact Hh|done|]. intros s1 H1 S1 I1 _.
  eapply runs_st; [exact H1|lia|lia|done|]. intros s2 H2 S2 I2. apply HQ.
  - by rewrite be_le.
  - by eapply same_trans.
  - unfold invalid_after in *. by rewrite I2.
Qed.

Lemma runs_get_field s a H w off n Q :
  header s a H w → width_ok n → 0 ≤ off → off + n ≤ zlen H →
  Q (SWAP_FROM_BE n (le_value (zslice off n H))) s → runs (IPV4_GET_FIELD off n) s Q.
Proof.
  intros Hh Hn Ho Hb HQ. pose proof (width_pos n Hn). unfold IPV4_GET_FIELD. call runs_check; [exact Hh|].
  cbn [negb]. call runs_header; [exact Hh|done|]. intros s1 H1 _ _ E. rewrite E by done. step.
  call runs_ld; [exact Hh|lia|lia|done|]. by step.
Qed.

Lemma get_put_field n v : width_ok n → 0 ≤ v < 2 ^ (8 * n) → SWAP_FROM_BE n (le_value (be_bytes n v)) = v.
Proof.
  intros Hn Hv. pose proof (width_pos n Hn). rewrite be_le by done.
  rewrite le_value_bytes; [by apply swap_swap|]. rewrite Z2Nat.id by lia. by apply swap_range.
Qed.
End fields.

(** The fields of [IPV4_GETSET_FIELD]: tos, len, id, ttl, proto, checksum, src, dst. *)
Definition ipv4_fields : list (Z * Z) :=
  [(1, 1); (2, 2); (4, 2); (8, 1); (9, 1); (10, 2); (12, 4); (16, 4)].

Lemma ipv4_fields_ok off n : (off, n) ∈ ipv4_fields → width_ok n ∧ 0 ≤ off ∧ off + n ≤ header_size.
Proof.
  unfold ipv4_fields, header_size, width_ok. rewrite !elem_of_cons, elem_of_nil.
  intros H. repeat destruct H as [H|H]; simplify_eq; (split; [set_solver|lia]).
Qed.

(** The fields of the header: a store through any of the setters of
    [IPV4_GETSET_FIELD] on a writable packet puts the big-endian bytes of the
    value at the place of the field, leaves every other byte of the header as it
    was, marks the checksum invalid, and the getter then returns the value. *)
Theorem ipv4_field_roundtrip s a H off n v :
  (off, n) ∈ ipv4_fields → header s a H true → 0 ≤ v < 2 ^ (8 * n) →
  runs (IPV4_SET_FIELD off n v) s (λ _ s',
    header s' a (ztake off H ++ be_bytes n v ++ zdrop (off + n) H) true ∧
    ip_invalid_checksum (is_ip s') = true ∧ same_packet s s' ∧
    runs (IPV4_GET_FIELD off n) s' (λ r s'', r = v ∧ s'' = s')).
Proof.
  intros (Hn & Ho & Hs)%ipv4_fields_ok Hh Hv.
  assert (header_size ≤ zlen H) as Hl by (by destruct Hh as (_ & _ & ?)).
  eapply runs_set_field; [exact Hh|done|done|lia|]. intros s' H' S' I'. split_and!.
  - rewrite <- (be_len n v Hn) at 2. exact H'.
  - rewrite I'. done.
  - done.
  - eapply runs_get_field; [exact H'|done|done| |].
    + rewrite zlen_zput; rewrite ?be_len by done; lia.
    + rewrite <- (be_len n v Hn) at 2. rewrite zslice_zput_same by (rewrite ?be_len by done; lia).
      split; [|done]. by apply get_put_field.
Qed.

(** A packet of 24 bytes with two bytes of padding, dissected. *)
Definition ex_packet_bytes : list Z :=
  [69; 0; 0; 24; 0; 1; 64; 0; 64; 6; 0; 0; 10; 0; 0; 1; 10; 0; 0; 2; 1; 2; 3; 4; 99; 99].
Definition ex_received (bytes : list Z) : ipstate :=
  IPS (run (vbuffer_create_from bytes) (empty_state 20)) (Packet 1 (Some 3%positive) None false)
    (Ipv4 false vbuffer_iterator_init None false false false) [].
Definition run_ip {A} (m : IM A) (s : ipstate) : ipstate := default s (snd <$> m s).
Definition ex_ip : ipstate := run_ip ipv4_dissect (ex_received ex_packet_bytes).
Definition ex_header : list Z := [69; 0; 0; 24; 0; 1; 64; 0; 64; 6; 0; 0; 10; 0; 0; 1; 10; 0; 0; 2].

(** A mapped header on a concrete heap. *)
Ltac concrete_header e c ch :=
  split; [vm_compute; reflexivity|split; [|vm_compute; discriminate]];
  exists e; split; [vm_compute; reflexivity|];
  exists c, ch; do 3 eexists; split;
  [split; [vm_compute; reflexivity|vm_compute; eexists; reflexivity|vm_compute; eexists; reflexivity|
     vm_compute; reflexivity|reflexivity|reflexivity|reflexivity|vm_compute; reflexivity|
     vm_compute; split_and!; congruence]
  |split; [reflexivity|split; [vm_compute; reflexivity|reflexivity]]].

Lemma ex_ip_header : header ex_ip (1%positive, 0) ex_header true.
Proof. concrete_header 3%positive 2%positive (Chunk 1 plain (Some 1%positive) 0 20). Qed.

Lemma ipv4_field_roundtrip_witness :
  runs (ipv4_set_id 513) ex_ip (λ _ s', runs ipv4_get_id s' (λ r s'', r = 513 ∧ s'' = s')).
Proof.
  eapply runs_mono; [apply (ipv4_field_roundtrip ex_ip (1%positive, 0) ex_header 4 2 513)|].
  - unfold ipv4_fields. set_solver.
  - exact ex_ip_header.
  - lia.
  - by intros _ s' (_ & _ & _ & H).
Defined.

(** ** The fragment word *)

(** The word of the header in host order. *)
Definition frag_word (H : list Z) : Z := SWAP_FROM_BE 2 (le_value (zslice 6 2 H)).

Section fragment.
Lemma bits16 y : (∀ n, 16 ≤ n → Z.testbit y n = false) → 0 ≤ y < 2 ^ 16.
Proof.
  intros Hy. assert (y = y `mod` 2 ^ 16) as ->; [|apply Z.mod_pos_bound; lia].
  apply Z.bits_inj'. intros n Hn. rewrite Z.testbit_mod_pow2 by lia.
  destruct (Z.ltb_spec n 16); [done|]. by apply Hy.
Qed.

Lemma bits16_high y n : 0 ≤ y < 2 ^ 16 → 16 ≤ n → Z.testbit y n = false.
Proof.
  intros Hy Hn. rewrite <- (Z.mod_small y (2 ^ 16)) by lia. apply Z.mod_pow2_bits_high. lia.
Qed.

Lemma frag_word_range H : header_size ≤ zlen H → byte_list H → 0 ≤ frag_word H < 2 ^ 16.
Proof. intros _ _. unfold frag_word, SWAP_FROM_BE. apply bswap_16_range. Qed.

Lemma frag_word_put H x :
  header_size ≤ zlen H → 0 ≤ x < 2 ^ 16 → frag_word (zput 6 (le_bytes 2 (SWAP_TO_BE 2 x)) H) = x.
Proof.
  intros Hl Hx. unfold header_size in Hl. unfold frag_word.
  set (B := le_bytes 2 _). assert (zlen B = 2) as E by done. rewrite <- E at 2.
  rewrite zslice_zput_same by lia. unfold B.
  rewrite le_value_bytes by apply bswap_16_range. apply (swap_swap 2); [|done]. unfold width_ok. set_solver.
Qed.

Lemma header_len s a H w : header s a H w → header_size ≤ zlen H.
Proof. by intros (_ & _ & ?). Qed.

Lemma runs_get_fragment {A} s a H w (dflt : A) f Q :
  header s a H w → Q (f (le_value (zslice 6 2 H))) s → runs (get_fragment dflt f) s Q.
Proof.
  intros Hh HQ. pose proof (header_len _ _ _ _ Hh). unfold header_size in *.
  unfold get_fragment. call runs_check; [exact Hh|]. cbn [negb].
  call runs_header; [exact Hh|done|]. intros s1 H1 _ _ E. rewrite E by done. step.
  call runs_ld; [exact Hh|lia|lia|lia|]. by step.
Qed.

Lemma runs_set_fragment s a H f Q :
  header s a H true →
  (∀ s', header s' a (zput 6 (le_bytes 2 (f (le_value (zslice 6 2 H)))) H) true → same_packet s s' →
    invalid_after true s s' → Q tt s') →
  runs (set_fragment f) s Q.
Proof.
  intros Hh HQ. pose proof (header_len _ _ _ _ Hh). unfold header_size in *.
  unfold set_fragment. call runs_check; [exact Hh|]. cbn [negb].
  call runs_header; [exact Hh|done|]. intros s1 H1 S1 I1 _.
  call runs_ld; [exact H1|lia|lia|lia|].
  eapply runs_st; [exact H1|lia|lia|lia|]. intros s2 H2 S2 I2.
  apply HQ; [done|by eapply same_trans|]. unfold invalid_after in *. by rewrite I2.
Qed.

Lemma set_bits_16 v i j x : 0 ≤ v < 2 ^ 16 → 0 ≤ i ≤ j → j ≤ 16 → 0 ≤ SET_BITS v i j x < 2 ^ 16.
Proof.
  intros Hv Hij Hj. apply bits16. intros n Hn. rewrite set_bits_testbit by lia.
  rewrite bool_decide_false by lia. by apply bits16_high.
Qed.

Lemma set_bit_16 v i x : 0 ≤ v < 2 ^ 16 → 0 ≤ i < 16 → 0 ≤ SET_BIT v i x < 2 ^ 16.
Proof.
  intros Hv Hi. apply bits16. intros n Hn. rewrite set_bit_testbit by lia.
  rewrite bool_decide_false by lia. by apply bits16_high.
Qed.

(** The offset and the flag are independent parts of the word. *)
Lemma frag_parts w x more :
  0 ≤ w < 2 ^ 16 → 0 ≤ x < 2 ^ 16 →
  let w' := SET_BIT (SET_BITS w 0 (16 - 3) (Z.shiftr x 3)) IPV4_FLAG_MF more in
  u16 (Z.shiftl (GET_BITS w' 0 (16 - 3)) 3) = x - x `mod` 8 ∧ GET_BIT w' IPV4_FLAG_MF = more ∧
  GET_BIT w' IPV4_FLAG_DF = GET_BIT w IPV4_FLAG_DF ∧ GET_BIT w' IPV4_FLAG_RB = GET_BIT w IPV4_FLAG_RB.
Proof.
  intros Hw Hx w'. unfold IPV4_FLAG_MF, IPV4_FLAG_DF, IPV4_FLAG_RB in *.
  assert (∀ n, 0 ≤ n → Z.testbit w' n = if bool_decide (n = 13) then more
            else if bool_decide (n < 13) then Z.testbit x (n + 3) else Z.testbit w n) as Hb.
  { intros n Hn. unfold w'. rewrite set_bit_testbit, set_bits_testbit by lia.
    change (15 - 2) with 13. case_bool_decide; [done|].
    rewrite (bool_decide_ext (0 ≤ n < 16 - 3) (n < 13)) by lia. case_bool_decide; [|done].
    rewrite Z.sub_0_r, Z.shiftr_spec by lia. done. }
  split_and!; try (rewrite !get_bit_testbit, Hb by lia; reflexivity).
  assert (GET_BITS w' 0 (16 - 3) = x / 8) as ->.
  { change 8 with (2 ^ 3). rewrite <- Z.shiftr_div_pow2 by lia. apply Z.bits_inj'. intros n Hn.
    rewrite get_bits_testbit, Hb, Z.shiftr_spec, Z.add_0_r by lia.
    destruct (decide (n < 13)) as [Hn'|Hn'].
    - rewrite bool_decide_false, bool_decide_true, bool_decide_true by lia. by rewrite andb_true_r.
    - rewrite (bool_decide_false (n < 13)), (bool_decide_false (n < 16 - 3 - 0)), andb_false_r by lia.
      by rewrite bits16_high by lia. }
  rewrite Z.shiftl_mul_pow2 by lia. pose proof (Z.div_mod x 8). pose proof (Z.mod_pos_bound x 8).
  rewrite u16_small; lia.
Qed.
End fragment.

(** The fragment word: after the setters of the fragment offset and of the
    more-fragments flag, the getters return the offset rounded down to a multiple
    of eight and the flag; the other two flags and every other byte of the header
    keep their values. *)
Theorem ipv4_frag_roundtrip s a H x more :
  header s a H true → byte_list H → 0 ≤ x < 2 ^ 16 →
  runs (ipv4_set_frag_offset x;; ipv4_set_flags_mf more) s (λ _ s',
    (∃ b0 b1, header s' a (zput 6 [b0; b1] H) true) ∧ same_packet s s' ∧
    runs ipv4_get_frag_offset s' (λ r _, r = x - x `mod` 8) ∧
    runs ipv4_get_flags_mf s' (λ r _, r = more) ∧
    runs ipv4_get_flags_df s' (λ r _, r = GET_BIT (frag_word H) IPV4_FLAG_DF) ∧
    runs ipv4_get_flags_rb s' (λ r _, r = GET_BIT (frag_word H) IPV4_FLAG_RB)).
Proof.
  intros Hh HB Hx. pose proof (header_len _ _ _ _ Hh) as Hl.
  pose proof (frag_word_range H Hl HB) as Hw. destruct (frag_parts (frag_word H) x more Hw Hx) as (E1 & E2 & E3 & E4).
  call runs_set_fragment; [exact Hh|]. intros s1 H1 S1 I1.
  eapply runs_set_fragment; [exact H1|]. intros s2 H2 S2 I2.
  set (x1 := IPV4_SET_BITS _ _ _ _) in *.
  assert (frag_word (zput 6 (le_bytes 2 x1) H) = SET_BITS (frag_word H) 0 (16 - 3) (Z.shiftr x 3)) as F1.
  { unfold x1, IPV4_SET_BITS. apply frag_word_put; [done|]. apply set_bits_16; [done|lia|lia]. }
  set (H1' := zput 6 (le_bytes 2 x1) H) in *. pose proof (header_len _ _ _ _ H1) as Hl1.
  set (x2 := IPV4_SET_BIT _ _ _) in *.
  assert (frag_word (zput 6 (le_bytes 2 x2) H1') = SET_BIT (frag_word H1') IPV4_FLAG_MF more) as F2.
  { unfold x2, IPV4_SET_BIT. apply frag_word_put; [done|]. apply set_bit_16; [|done]. rewrite F1.
    apply set_bits_16; [done|lia|lia]. }
  rewrite F1 in F2. fold (frag_word (zput 6 (le_bytes 2 x2) H1')) in *.
  split_and!; [|by eapply same_trans|..].
  - exists (u8 x2), (u8 (Z.shiftr x2 8)). unfold H1', header_size in *. rewrite zput_zput in H2; [exact H2|lia|done|].
    change (zlen (le_bytes 2 x1)) with 2. lia.
  - unfold ipv4_get_frag_offset. eapply runs_get_fragment; [exact H2|]. unfold IPV4_GET_BITS.
    fold (frag_word (zput 6 (le_bytes 2 x2) H1')). by rewrite F2.
  - eapply runs_get_fragment; [exact H2|]. unfold IPV4_GET_BIT.
    fold (frag_word (zput 6 (le_bytes 2 x2) H1')). by rewrite F2.
  - eapply runs_get_fragment; [exact H2|]. unfold IPV4_GET_BIT.
    fold (frag_word (zput 6 (le_bytes 2 x2) H1')). by rewrite F2.
  - eapply runs_get_fragment; [exact H2|]. unfold IPV4_GET_BIT.
    fold (frag_word (zput 6 (le_bytes 2 x2) H1')). by rewrite F2.
Qed.

Lemma ex_header_bytes : byte_list ex_header.
Proof. unfold byte_list, ex_header. repeat (constructor; [lia|]). constructor. Qed.

Lemma ipv4_frag_roundtrip_witness :
  runs (ipv4_set_frag_offset 1483;; ipv4_set_flags_mf true) ex_ip (λ _ s',
    runs ipv4_get_frag_offset s' (λ r _, r = 1480) ∧ runs ipv4_get_flags_df s' (λ r _, r = true)).
Proof.
  eapply runs_mono; [apply (ipv4_frag_roundtrip ex_ip (1%positive, 0) ex_header 1483 true)|].
  - exact ex_ip_header.
  - exact ex_header_bytes.
  - lia.
  - intros _ s' (_ & _ & H1 & _ & H2 & _). split; [exact H1|exact H2].
Defined.

(** ** Checksum *)

(** [hdr_len] in bytes. *)
Definition header_length (H : list Z) : Z := 4 * (default 0 (head H) `mod` 16).

Section checksum.
Lemma runs_get_hdr_len s a H w Q :
  header s a H w → Q (header_length H) s → runs ipv4_get_hdr_len s Q.
Proof.
  intros Hh HQ. pose proof (header_len _ _ _ _ Hh) as Hl. unfold header_size in Hl.
  unfold ipv4_get_hdr_len. call runs_check; [exact Hh|]. cbn [negb].
  call runs_header; [exact Hh|done|]. intros s1 H1 _ _ E. rewrite E by done. step.
  call runs_ld; [exact Hh|lia|lia|lia|]. step.
  destruct H as [|b H]; [by vm_compute in Hl|].
  change (zslice 0 1 (b :: H)) with [b]. unfold header_length in HQ. simpl in HQ |- *.
  rewrite Z.add_0_r.
  change 15 with (Z.ones 4). rewrite Z.land_ones, Z.shiftl_mul_pow2 by lia. change (2 ^ 4) with 16.
  pose proof (Z.mod_pos_bound b 16). rewrite u8_small by lia. by rewrite Z.mul_comm.
Qed.

Lemma runs_mapped_checksum s a H w n Q :
  header s a H w → 0 ≤ n ≤ zlen H → Q (inet_checksum (Z.odd a.2) (ztake n H)) s →
  runs (mapped_checksum a n) s Q.
Proof.
  intros (Ha & (e & Ep & Hm) & Hl) Hn HQ. unfold mapped_checksum. apply runs_bind, runs_vb_read.
  destruct a as [d o]. pose proof (runs_map_load _ _ _ _ _ 0 n (λ x v', v' = is_vb s ∧ x = ztake n H) Hm) as R.
  cbn [fst snd] in R. rewrite Z.add_0_r in R. eapply runs_mono; [apply R; [lia|lia|lia|done]|].
  intros x v' [-> ->]. split; [done|]. by step.
Qed.

(** The checksum word is at an even offset: its value is a term of the sum. *)
Lemma wsum_put H n a b :
  12 ≤ n ≤ zlen H →
  wsum (ztake n (zput 10 [a; b] H)) = wsum (ztake n (zput 10 [0; 0] H)) + word a b.
Proof.
  intros Hn. assert (∀ x y, ztake n (zput 10 [x; y] H) = ztake 10 H ++ [x; y] ++ ztake (n - 12) (zdrop 12 H)) as E.
  { intros x y. unfold zput. rewrite ztake_app_ge by (rewrite zlen_ztake; lia). rewrite zlen_ztake by lia.
    rewrite ztake_app_ge by (change (zlen [x; y]) with 2; lia). change (zlen [x; y]) with 2.
    do 3 f_equal. lia. }
  assert (even_len (ztake 10 H)) as He.
  { unfold even_len. replace (length (ztake 10 H)) with 10%nat; [done|].
    pose proof (zlen_ztake 10 H). unfold zlen in *. lia. }
  rewrite !E, !wsum_app by done. simpl. unfold word. lia.
Qed.

Lemma byte_put off bs l : byte_list bs → byte_list l → byte_list (zput off bs l).
Proof.
  intros Hb Hl. unfold zput, byte_list, ztake, zdrop.
  apply Forall_app; split; [by apply Forall_take|]. apply Forall_app; split; [done|by apply Forall_drop].
Qed.

Lemma le_bytes_byte n x : byte_list (le_bytes n x).
Proof.
  revert x. induction n as [|n IH]; intros x; simpl; constructor; [|apply IH].
  pose proof (u8_range x). lia.
Qed.

Lemma head_put off (bs l : list Z) : 0 < off → 0 < zlen l → head (zput off bs l) = head l.
Proof.
  intros Ho Hl. destruct l as [|x l]; [done|]. unfold zput, ztake.
  destruct (Z.to_nat off) eqn:E; [lia|]. done.
Qed.

Lemma checksum_zero addr l : u16 (inet_checksum addr l) = 0 → inet_checksum addr l = 0.
Proof.
  unfold inet_checksum, inet_checksum_reduce. change 65535 with (Z.ones 16).
  rewrite Z.land_ones by lia. rewrite u16_s16 by (apply Z.mod_pos_bound; lia). by intros ->.
Qed.

Lemma word_bytes c : 0 ≤ c < 2 ^ 16 → word (u8 c) (u8 (Z.shiftr c 8)) = c.
Proof.
  intros Hc. rewrite <- (le_value_bytes 2 c) at 3 by done. unfold word. simpl. lia.
Qed.

Lemma take_checksum addr n H :
  0 < n ≤ 60 → n ≤ zlen H → byte_list H →
  u16 (inet_checksum addr (ztake n H)) = 65535 - norm (wsum (ztake n H)) ∧ 0 ≤ wsum (ztake n H).
Proof.
  intros Hn Hl HB. assert (byte_list (ztake n H)) by (by apply Forall_take).
  split; [|by apply wsum_nonneg]. apply checksum_one; [|done|unfold max_bytes; rewrite zlen_ztake; lia].
  intros E. assert (zlen (ztake n H) = 0) as E' by (by rewrite E). rewrite zlen_ztake in E'; lia.
Qed.

(** A header with its own checksum sums up to zero. *)
Lemma checksum_put addr addr' n H :
  12 ≤ n ≤ 60 → n ≤ zlen H → byte_list H →
  let c := u16 (inet_checksum addr (ztake n (zput 10 [0; 0] H))) in
  inet_checksum addr' (ztake n (zput 10 [u8 c; u8 (Z.shiftr c 8)] H)) = 0.
Proof.
  intros Hn Hl HB c.
  assert (∀ x y, zlen (zput 10 [x; y] H) = zlen H) as El.
  { intros x y. apply zlen_zput; [lia|]. change (zlen [x; y]) with 2. lia. }
  destruct (take_checksum addr n (zput 10 [0; 0] H)) as [Ec Hs];
    [lia|by rewrite El|apply byte_put; [repeat constructor; lia|done]|]. fold c in Ec.
  assert (0 ≤ c < 2 ^ 16) as Hc by apply u16_range.
  destruct (take_checksum addr' n (zput 10 [u8 c; u8 (Z.shiftr c 8)] H)) as [Ev Hs'];
    [lia|by rewrite El|apply byte_put; [apply (le_bytes_byte 2)|done]|].
  apply checksum_zero. rewrite Ev, (norm_complement (wsum (ztake n (zput 10 [0; 0] H)))); [done|done|done|].
  rewrite wsum_put by lia. rewrite <- Ec, word_bytes by lia. apply eqn_refl. lia.
Qed.
End checksum.

(** The header checksum: on a writable packet whose header fits in the mapped
    block, [ipv4_compute_checksum] stores a checksum that [ipv4_verify_checksum]
    accepts, changes the two bytes of the checksum only, and clears the flag that
    marks it invalid. *)
Theorem ipv4_checksum_roundtrip s a H :
  header s a H true → byte_list H → header_size ≤ header_length H ≤ zlen H →
  runs ipv4_compute_checksum s (λ _ s',
    (∃ b0 b1, header s' a (zput 10 [b0; b1] H) true) ∧ ip_invalid_checksum (is_ip s') = false ∧
    same_packet s s' ∧ runs ipv4_verify_checksum s' (λ r s'', r = true ∧ s'' = s')).
Proof.
  intros Hh HB Hn. pose proof (header_len _ _ _ _ Hh) as Hl. unfold header_size in *.
  set (n := header_length H) in *. assert (n ≤ 60).
  { unfold n, header_length. pose proof (Z.mod_pos_bound (default 0 (head H)) 16). lia. }
  unfold ipv4_compute_checksum. call runs_check; [exact Hh|]. cbn [negb].
  call runs_header; [exact Hh|done|]. intros s1 H1 S1 I1 _.
  call runs_st; [exact H1|lia|lia|lia|]. intros s2 H2 S2 I2. change (le_bytes (Z.to_nat 2) 0) with [0; 0] in H2.
  set (Hz := zput 10 [0; 0] H) in *.
  assert (byte_list Hz) as HB0 by (apply byte_put; [repeat constructor; lia|done]).
  assert (zlen Hz = zlen H) as El0 by (apply zlen_zput; [lia|change (zlen [0; 0]) with 2; lia]).
  assert (header_length Hz = n) as En by (unfold header_length, Hz; rewrite head_put by lia; done).
  call runs_get_hdr_len; [exact H2|]. rewrite En.
  call runs_mapped_checksum; [exact H2|lia|].
  call runs_st; [exact H2|lia|lia|lia|]. intros s3 H3 S3 I3.
  pose proof (checksum_put (Z.odd a.2) (Z.odd a.2) n H ltac:(lia) ltac:(lia) HB) as Ec.
  fold Hz in Ec. cbv zeta in Ec. set (c := u16 (inet_checksum _ _)) in *.
  change (le_bytes (Z.to_nat 2) c) with [u8 c; u8 (Z.shiftr c 8)] in H3.
  assert (zput 10 [u8 c; u8 (Z.shiftr c 8)] Hz = zput 10 [u8 c; u8 (Z.shiftr c 8)] H) as E0.
  { apply zput_zput; [lia|done|]. change (zlen [0; 0]) with 2. lia. }
  rewrite E0 in H3. set (H' := zput 10 [u8 c; u8 (Z.shiftr c 8)] H) in *.
  assert (byte_list H') as HB' by (apply byte_put; [apply (le_bytes_byte 2 c)|done]).
  assert (zlen H' = zlen H) as El' by (apply zlen_zput; [lia|change (zlen [u8 c; u8 (Z.shiftr c 8)]) with 2; lia]).
  assert (header_length H' = n) as En' by (unfold header_length, H'; rewrite head_put by lia; done).
  unfold set_invalid. step. set (s4 := set_ip _ _).
  assert (header s4 a H' true) as H4 by (destruct H3 as [Ep H3]; by split).
  split_and!; [by eauto|done|by eapply same_trans; [|eapply same_trans]; [exact S1|exact S2|exact S3]|].
  unfold ipv4_verify_checksum. call runs_check; [exact H4|]. cbn [negb].
  call runs_header; [exact H4|done|]. intros s5 _ _ _ E5. rewrite E5 by done. step.
  call runs_get_hdr_len; [exact H4|]. rewrite En'.
  call runs_mapped_checksum; [exact H4|lia|]. step. split; [|done]. by apply bool_decide_true.
Qed.

Lemma ipv4_checksum_roundtrip_witness :
  runs ipv4_compute_checksum ex_ip (λ _ s', runs ipv4_verify_checksum s' (λ r s'', r = true ∧ s'' = s')).
Proof.
  eapply runs_mono; [apply (ipv4_checksum_roundtrip ex_ip (1%positive, 0) ex_header)|].
  - exact ex_ip_header.
  - exact ex_header_bytes.
  - vm_compute. split; discriminate.
  - by intros _ s' (_ & _ & _ & H).
Defined.

(** ** Error paths *)

(** A packet whose buffer is read-only refuses every setter: the error of the
    thread is raised, no byte of the header changes and the checksum keeps its
    state. *)
Theorem ipv4_set_readonly s a H off n v :
  header s a H false → vb_error (is_vb s) = None →
  runs (IPV4_SET_FIELD off n v) s (λ _ s',
    header s' a H false ∧ is_ip s' = is_ip s ∧ is_pkt s' = is_pkt s ∧
    vb_error (is_vb s') = Some "read only buffer"%string).
Proof.
  intros Hh He. unfold IPV4_SET_FIELD. call runs_check; [exact Hh|]. cbn [negb].
  unfold ipv4_header. apply runs_bind. call runs_check; [exact Hh|]. cbn [negb].
  destruct Hh as (Ha & (e & Ep & c & ch & r & sz & b & F & Ea & EH & Ew) & Hl).
  step. rewrite Ep. apply runs_bind, runs_vb_read. unfold uninit_iterator. apply runs_bind. step. step.
  eapply runs_block_begin; [exact F|]. split; [done|].
  apply runs_bind. unfold vb at 1. step. eapply runs_block_readonly; [exact F|done|]. intros it. cbv beta.
  unfold raised. rewrite He. step. step. unfold check_error. apply runs_bind, runs_vb_read. step. split; [done|].
  step. step. unfold skip. step. split_and!; try done. split_and!; [done| |done]. exists e. split; [done|].
  exists c, ch, r, sz, b. split_and!; try done. by destruct F; split.
Qed.

Definition ex_ip_ro : ipstate := run_ip (vb (vbuffer_setwritable (Some 3%positive) false)) ex_ip.

Lemma ipv4_set_readonly_witness :
  runs (ipv4_set_ttl 1) ex_ip_ro (λ _ s', header s' (1%positive, 0) ex_header false).
Proof.
  eapply runs_mono; [apply (ipv4_set_readonly ex_ip_ro (1%positive, 0) ex_header 8 1 1)|by intros _ s' [H _]].
  - concrete_header 3%positive 2%positive (Chunk 1 (Flags false false false false false) (Some 1%positive) 0 20).
  - vm_compute. reflexivity.
Defined.

(** Dissection of a truncated packet: when the payload is not empty and shorter than an IPv4
    header, [ipv4_dissect] raises an alert, calls the drop and the release of the packet,
    which are recorded, and returns no [struct ipv4]; it changes nothing itself. *)
Theorem ipv4_dissect_truncated s e cs :
  buf_rep (is_vb s) e cs → pk_payload (is_pkt s) = Some e → 0 < csize cs < header_size →
  runs ipv4_dissect s (λ r s',
    r = false ∧ is_vb s' = is_vb s ∧ is_ip s' = is_ip s ∧
    is_alerts s' = is_alerts s ++ [("corrupted ip packet, size is too small"%string, None)] ∧
    is_pkt s' = Packet (u32 (pk_ref (is_pkt s) - 1)) (Some e) (Some FILTER_DROP)
      (bool_decide (u32 (pk_ref (is_pkt s) - 1) = 0) || pk_released (is_pkt s))).
Proof.
  intros R Ep Hs. unfold ipv4_dissect, packet_payload. apply runs_bind. step. rewrite Ep. step. step.
  apply runs_bind, runs_vb_read. eapply runs_check_size; [exact R|lia|done|]. intros sz.
  rewrite bool_decide_false by lia.
  split; [done|]. cbn [negb]. unfold raise_alert, reject, record_drop, record_release.
  apply runs_bind. step. step. apply runs_bind. step. apply runs_bind. step. step. step. step.
  split_and!; try done. simpl. rewrite Ep. done.
Qed.

Lemma ipv4_dissect_truncated_witness :
  runs ipv4_dissect (IPS ex2 (Packet 1 (Some 3%positive) None false)
    (Ipv4 false vbuffer_iterator_init None false false false) []) (λ r s',
    r = false ∧ pk_verdict (is_pkt s') = Some FILTER_DROP ∧ pk_released (is_pkt s') = true).
Proof.
  eapply runs_mono; [apply (ipv4_dissect_truncated _ 3 ex_cs)|].
  - exact ex2_rep.
  - reflexivity.
  - vm_compute. by split.
  - intros r s' (-> & _ & _ & _ & ->). done.
Defined.

(** ** Behaviour outside the intended domain *)

(** A total length below the header length is accepted: the size of the payload
    wraps around and everything after the header becomes the payload. *)
Theorem dissect_short_length :
  let s := ex_received [69; 0; 0; 10; 0; 1; 64; 0; 64; 6; 0; 0; 10; 0; 0; 1; 10; 0; 0; 2; 1; 2; 3; 4] in
  runs (r ← ipv4_dissect;
        p ← gets (λ s, ip_packet_payload (is_ip s)); n ← vb (vbuffer_size p);
        l ← ipv4_get_len; h ← ipv4_get_hdr_len; ret (r, n, l, h)) s
    (λ a s', a = (true, 4, 10, 20) ∧ is_alerts s' = []).
Proof. eapply runs_eq; [vm_compute; reflexivity|]. done. Qed.

(** Dissection, a change of a field and forging: the packet is the received one
    with the new field and a valid checksum, and the padding is kept. *)
Theorem dissect_forge_example :
  runs (_ ← ipv4_dissect; ipv4_set_ttl 7;; r ← ipv4_forge;
        p ← packet_payload; sub ← vb (vbuffer_sub_create p 0 size_max); vb (vbuffer_sub_read sub 100))
    (ex_received ex_packet_bytes)
    (λ bs _, bs = [69; 0; 0; 24; 0; 1; 64; 0; 7; 6; 95; 221; 10; 0; 0; 1; 10; 0; 0; 2; 1; 2; 3; 4; 99; 99]).
Proof. eapply runs_eq; [vm_compute; reflexivity|]. done. Qed.
