(* ===== verification/Ipv4Dissect.v ===== *)
(** * Dissection and forging of IPv4 packets (modules/protocol/ipv4/ipv4.c)

    The dissection of a well-formed packet leaves its header in the payload of the
    packet, takes the bytes of the datagram behind it out as a buffer of their own,
    marks their place and keeps the padding; the forging of the packet that was not
    modified puts them back. *)

From S2P Require Import Prelude Types Checksum List2 VbHeap VbIter VbSub VbRep VbWalk VbFrame VbMut VbEdit VbClear VbMake VbRead VbSpec VbCtl VbSelect VbSelectSpec VbMap Ipv4 Ipv4Spec.

(** ** The fields the dissection reads *)

Definition len_of (bs : list Z) : Z := SWAP_FROM_BE 2 (le_value (zslice 2 2 bs)).

Section fields.
Lemma header_length_bits b bs : Z.shiftl (Z.land b 15) 2 = header_length (b :: bs).
Proof.
  unfold header_length. rewrite Z.shiftl_mul_pow2 by lia. change 15 with (Z.ones 4). rewrite Z.land_ones by lia.
  apply Z.mul_comm.
Qed.

Lemma header_length_range bs : 0 ≤ header_length bs ≤ 60.
Proof. unfold header_length. pose proof (Z.mod_pos_bound (default 0 (head bs)) 16). lia. Qed.

Lemma len_range bs : 0 ≤ len_of bs < 2 ^ 16.
Proof. unfold len_of, SWAP_FROM_BE. apply bswap_16_range. Qed.

(** The fields are in the first bytes. *)
Lemma header_length_ztake n bs : 0 < n → header_length (ztake n bs) = header_length bs.
Proof. intros Hn. unfold header_length. by rewrite head_ztake. Qed.

Lemma len_ztake n bs : 4 ≤ n → len_of (ztake n bs) = len_of bs.
Proof.
  intros Hn. unfold len_of, zslice. rewrite zdrop_ztake by lia. rewrite ztake_ztake by lia. done.
Qed.
End fields.

(** ** Dissection *)

(** A packet that is attached: its header [H] is the first chunk [ch1] of the payload
    of the packet, the bytes of the datagram are in the buffer [e'], its place is
    marked by [cm] and [b] is the padding. *)
Record attached (s : ipstate) (e : loc) (c : loc) (ch1 : vbuffer_chunk) (a m b : list seg) (e' cm : loc)
    (mk : vbuffer_chunk) (H : list Z) : Prop := {
  at_heap : heap_ok (is_vb s);
  at_payload : pk_payload (is_pkt s) = Some e;
  at_rest : buf_rep (is_vb s) e (((c, ch1) :: a) ++ (cm, mk) :: b);
  at_mark : select_chunk (is_vb s) mk;
  at_part : buf_rep (is_vb s) e' m;
  at_ne : e' ≠ e;
  at_small : csize (((c, ch1) :: a) ++ m ++ b) < 2 ^ 32;
  at_bytes : chunk_bytes (is_vb s) ch1 = H;
  at_content : content (is_vb s) ((c, ch1) :: a) = H;
  at_ctl : fl_ctl (ch_flags ch1) = false;
  at_ip : ip_packet (is_ip s) = true ∧ ip_select (is_ip s) = Iter (Some cm) 0 0 false ∧
    ip_packet_payload (is_ip s) = Some e' ∧ ip_reassembled (is_ip s) = false;
}.

Section dissect.
Implicit Types v : vbstate.

Lemma runs_flatten_header s e c ch cs hl Q :
  buf_rep (is_vb s) e ((c, ch) :: cs) → fl_ctl (ch_flags ch) = false → 0 ≤ hl < ch_size ch → Q true s →
  runs (ipv4_flatten_header (Some e) hl) s Q.
Proof.
  intros H Hctl Hl HQ. destruct (first_block_of _ _ _ _ _ H Hctl) as (d & r & sz & b & F & _); [lia|].
  pose proof (csize_tail (is_vb s) e ((c, ch) :: cs) []) as Ht. rewrite app_nil_r in Ht. specialize (Ht H). simpl in Ht.
  unfold ipv4_flatten_header. apply runs_bind, runs_vb_read.
  eapply runs_sub_create; [exact H|lia|lia|rewrite csize_cons; simpl; lia|].
  intros c1 o1 m1 c2 o2 m2 P1 P2. destruct (pos_first _ _ _ _ _ _ _ _ H P1) as [-> ->]; [lia|].
  destruct (pos_first _ _ _ _ _ _ _ _ H P2) as [-> ->]; [lia|]. rewrite Z.add_0_l in *. split; [done|].
  apply runs_bind, runs_vb_read. eapply runs_flatten_first; [exact H|exact F|lia|]. intros data. split; [done|].
  step; [apply bool_decide_true; lia|]. by step.
Qed.

(** The payload is taken out. *)
Lemma runs_extract_payload s e cs hl size Q :
  heap_ok (is_vb s) → buf_rep (is_vb s) e cs → pk_payload (is_pkt s) = Some e → (5 ≤ vb_mem (is_vb s))%nat →
  0 ≤ hl → 0 < size → hl + size ≤ csize cs →
  (∀ v e' a m b c ch, selected (is_vb s) e cs hl (hl + size) v e' a m b c ch →
     Q true (IPS v (is_pkt s) (let i := is_ip s in Ipv4 (ip_packet i) (Iter (Some c) 0 0 false) (Some e')
       (ip_invalid_checksum i) (ip_dont_reassemble i) (ip_reassembled i)) (is_alerts s))) →
  runs (ipv4_extract_payload hl size) s Q.
Proof.
  intros Ok H Ep Hm Hl Hs Ht HQ. unfold ipv4_extract_payload. step. rewrite Ep. apply runs_bind, runs_vb_read.
  eapply runs_sub_create; [exact H|lia|lia|lia|]. intros c1 o1 m1 c2 o2 m2 P1 P2. split; [done|].
  unfold vb. step. eapply (runs_select _ e cs _ hl (hl + size)); [done|exact H| |done|].
  { split_and!; [exact P1|exact P2|left; lia]. }
  intros v data' e' a m b c ch Hsel. cbn [negb]. step. step. by apply (HQ v e' a m b c ch).
Qed.

(** The header is mapped when it is inside the first chunk. *)
Lemma header_first s e c ch cs :
  ip_packet (is_ip s) = true → pk_payload (is_pkt s) = Some e → buf_rep (is_vb s) e ((c, ch) :: cs) →
  fl_ctl (ch_flags ch) = false → header_size ≤ ch_size ch →
  ∃ d, header s (d, ch_offset ch) (chunk_bytes (is_vb s) ch) (fl_writable (ch_flags ch)).
Proof.
  intros Ha Ep H Hctl Hs. unfold header_size in Hs.
  destruct (mapped_first _ _ _ _ _ H Hctl) as (d & _ & Hd); [lia|].
  exists d. split_and!; [done|by exists e|].
  rewrite (chunk_bytes_len (is_vb s)); [done|]. eapply br_ok; [exact H|by left].
Qed.

Lemma runs_get_len s a H w Q : header s a H w → Q (len_of H) s → runs ipv4_get_len s Q.
Proof.
  intros Hh HQ. pose proof (header_len _ _ _ _ Hh). unfold header_size in *. unfold ipv4_get_len.
  eapply runs_get_field; [exact Hh|unfold width_ok; set_solver|lia|lia|exact HQ].
Qed.


(** What the dissection of a packet with the bytes [bs] has made. *)
Record dissected (s : ipstate) (bs : list Z) (e c : loc) (s' : ipstate) (ch1 : vbuffer_chunk)
    (a m b : list seg) (e' cm : loc) (mk : vbuffer_chunk) : Prop := {
  ds_attached : attached s' e c ch1 a m b e' cm mk (ztake (header_length bs) bs);
  ds_part : content (is_vb s') m = zslice (header_length bs) (len_of bs - header_length bs) bs;
  ds_padding : content (is_vb s') b = zdrop (len_of bs) bs;
  ds_total : content (is_vb s') (((c, ch1) :: a) ++ m ++ b) = bs;
  ds_valid : ip_invalid_checksum (is_ip s') = false;
  ds_pkt : is_pkt s' = is_pkt s;
  ds_alerts : is_alerts s' = is_alerts s;
  ds_error : vb_error (is_vb s') = vb_error (is_vb s);
  ds_writable : fl_writable (ch_flags ch1) = true ↔ writable_at (is_vb s) c;
  ds_keeps : ∀ e0 cs0, e0 ≠ e → buf_rep (is_vb s) e0 cs0 →
    buf_rep (is_vb s') e0 cs0 ∧ content (is_vb s') cs0 = content (is_vb s) cs0;
}.

(** The first chunk of the part before the mark is the header. *)
Lemma selected_header v e c ch cs hl q v' e' a m b cm mk :
  buf_rep v e ((c, ch) :: cs) → selected v e ((c, ch) :: cs) hl q v' e' a m b cm mk → 0 < hl < ch_size ch →
  fl_ctl (ch_flags ch) = false →
  ∃ ch1 a', a = (c, ch1) :: a' ∧ ch_size ch1 = hl ∧ fl_ctl (ch_flags ch1) = false ∧
    fl_writable (ch_flags ch1) = fl_writable (ch_flags ch) ∧
    chunk_bytes v' ch1 = ztake hl (content v ((c, ch) :: cs)) ∧
    content v' ((c, ch1) :: a') = ztake hl (content v ((c, ch) :: cs)).
Proof.
  intros H [Ok R P Mk _ C1 _ _ _ _ _ _ _ F] Hl Hctl.
  destruct (F c ch cs eq_refl) as (ch1 & a' & -> & [Hd Ho Hc Hw] & Es); [lia|lia|].
  rewrite Z.min_r in Es by lia. exists ch1, a'. rewrite Hc. split_and!; try done.
  assert (zlen (content v' ((c, ch1) :: a')) = hl) as Hlen.
  { rewrite C1, zlen_ztake; [done|]. rewrite (br_len _ _ _ H), csize_cons. simpl.
    pose proof (csize_tail v e ((c, ch) :: cs) []) as Ht. rewrite app_nil_r in Ht. specialize (Ht H). simpl in Ht. lia. }
  rewrite content_cons, zlen_app in Hlen. simpl in Hlen.
  rewrite chunk_bytes_len in Hlen by (eapply br_ok; [exact R|by left]).
  assert (content v' a' = []) as Ea.
  { destruct (content v' a') as [|x l] eqn:E; [done|]. exfalso. pose proof (zlen_nonneg l). unfold zlen in *. simpl in *. lia. }
  rewrite content_cons, Ea, app_nil_r in C1. exact C1.
Qed.

Lemma head_content v ch (cs : list seg) x :
  0 < zlen (chunk_bytes v ch) → head (content v ((x, ch) :: cs)) = head (chunk_bytes v ch).
Proof. intros Hl. rewrite content_cons. simpl. by destruct (chunk_bytes v ch). Qed.

Lemma content_prefix v ch (cs : list seg) x n :
  0 ≤ n ≤ zlen (chunk_bytes v ch) → ztake n (content v ((x, ch) :: cs)) = ztake n (chunk_bytes v ch).
Proof. intros Hl. rewrite content_cons. simpl. by rewrite ztake_app_le by lia. Qed.

Lemma runs_dissect s e c ch cs Q :
  let bs := content (is_vb s) ((c, ch) :: cs) in
  heap_ok (is_vb s) → pk_payload (is_pkt s) = Some e → buf_rep (is_vb s) e ((c, ch) :: cs) →
  fl_ctl (ch_flags ch) = false → header_size ≤ header_length bs < ch_size ch →
  header_length bs < len_of bs ≤ zlen bs → (6 ≤ vb_mem (is_vb s))%nat →
  (∀ s' ch1 a m b e' cm mk, dissected s bs e c s' ch1 a m b e' cm mk → Q true s') →
  runs ipv4_dissect s Q.
Proof.
  intros bs Ok Ep H Hctl Hh Hlen Hm HQ. unfold header_size in Hh. set (cc := (c, ch) :: cs) in *.
  pose proof (br_len _ _ _ H) as Ebs. fold bs in Ebs. pose proof (br_small _ _ _ H) as Hsm.
  pose proof (csize_tail (is_vb s) e cc []) as Ht. rewrite app_nil_r in Ht. specialize (Ht H). simpl in Ht.
  assert (csize cc = ch_size ch + csize cs) as Ecc by done.
  destruct (vb_mem (is_vb s)) as [|n] eqn:Em; [lia|].
  unfold ipv4_dissect, packet_payload. apply runs_bind. step. rewrite Ep. step. step.
  apply runs_bind, runs_vb_read. eapply runs_check_size; [exact H|lia|done|]. intros r0. split; [done|].
  rewrite bool_decide_true by (unfold header_size; lia). cbn [negb].
  unfold vb at 1. apply runs_bind. step. eapply runs_malloc; [exact Em|]. step. step.
  set (v1 := take_address n (is_vb s)). match goal with |- runs _ ?x _ => set (s1 := x) end.
  assert (heap_ok v1) as Ok1 by (by apply heap_ok_take).
  destruct (keeps_nil_buf _ _ _ _ Ok (keeps_take (is_vb s) n) H) as [H1 C1]. fold v1 in H1, C1.
  destruct (first_block_of v1 e c ch cs H1 Hctl) as (d & r & sz & b & F & Ecb); [lia|].
  assert (chunk_bytes v1 ch = chunk_bytes (is_vb s) ch) as Ecb1 by done.
  assert (zlen (chunk_bytes v1 ch) = ch_size ch) as Elen by (apply chunk_bytes_len; eapply br_ok; [exact H1|by left]).
  apply runs_vb_read. unfold uninit_iterator. apply runs_bind. step. step.
  eapply runs_vbuffer_begin; [exact H1|]. split; [done|].
  apply runs_bind, runs_vb_read. eapply (runs_block_getbyte v1); [exact F|lia|]. intros it. split; [done|].
  rewrite (header_length_bits _ []). rewrite <- Ecb. cbv zeta. cbn [fst].
  assert (header_length [default 0 (head (chunk_bytes v1 ch))] = header_length bs) as ->.
  { unfold header_length, bs, cc. rewrite head_content by (rewrite <- Ecb1; lia). done. }
  rewrite bool_decide_false by (unfold header_size; lia).
  call (runs_flatten_header s1 e c ch cs); [exact H1|done|lia|]. cbn [negb].
  apply runs_bind, runs_vb_read. eapply runs_size; [exact H1|]. split; [done|].
  destruct (header_first s1 e c ch cs) as [a0 Hhd]; [done|exact Ep|exact H1|done|unfold header_size; lia|].
  call runs_get_len; [exact Hhd|]. change (is_vb s1) with v1.
  assert (len_of (chunk_bytes v1 ch) = len_of bs) as ->.
  { rewrite <- (len_ztake 4 bs), <- (len_ztake 4 (chunk_bytes v1 ch)) by lia. f_equal. symmetry.
    unfold bs, cc. rewrite Ecb1 in *. apply content_prefix. lia. }
  rewrite bool_decide_false by (fold cc; lia). rewrite u64_small by lia.
  eapply (runs_extract_payload s1 e cc); [exact Ok1|exact H1|exact Ep|simpl; lia|lia|lia|lia|].
  replace (header_length bs + (len_of bs - header_length bs)) with (len_of bs) by lia.
  intros v2 e' a m b0 cm mk Hsel. change (is_vb s1) with v1 in Hsel.
  destruct (selected_header _ _ _ _ _ _ _ _ _ _ _ _ _ _ H1 Hsel) as (ch1 & a' & -> & Es1 & Ec1 & Ew1 & Eb1 & Ea1);
    [lia|done|].
  fold cc in Eb1, Ea1. rewrite C1 in Eb1, Ea1. fold bs in Eb1, Ea1.
  destruct Hsel as [Ok2 R2 P2 Mk C0 _ Ci Ca K2 N2 S2 _ E2 _]. rewrite C1 in C0, Ci, Ca. fold bs in C0, Ci, Ca.
  eapply HQ. split; simpl; try done.
  - split; try done. simpl. intros ->. pose proof (br_fresh _ _ _ e Ok1 H1 ltac:(by left)). lia.
  - rewrite Ew1. destruct (br_at (is_vb s) e [] c ch cs H) as [Hc _]. split; [intros Hw; by exists ch|].
    intros (chx & Hx & Hw). by simplify_eq.
  - intros e0 cs0 Hne H0. destruct (keeps_nil_buf _ _ _ _ Ok (keeps_take (is_vb s) n) H0) as [H01 <-].
    apply (keeps_buf _ _ _ _ _ Ok1 K2 H01). intros x. by apply (buf_disjoint v1 e0 cs0 e cc).
Qed.
End dissect.

(** ** Forging *)

Section forge.

Lemma attached_header s e c ch1 a m b e' cm mk H :
  attached s e c ch1 a m b e' cm mk H → header_size ≤ zlen H →
  ∃ d, header s (d, ch_offset ch1) H (fl_writable (ch_flags ch1)).
Proof.
  intros [Ok Ep R _ _ _ _ Eb _ Hctl (Ha & _)] Hs. simpl in R.
  destruct (header_first s e c ch1 _ Ha Ep R Hctl) as [d Hd].
  - rewrite <- (chunk_bytes_len (is_vb s)), Eb; [done|]. eapply br_ok; [exact R|by left].
  - exists d. by rewrite Eb in Hd.
Qed.

(** A packet whose total length is right and whose checksum is valid is not
    written to: the datagram goes back between the header and the padding. *)
Lemma runs_forge s e c ch1 a m b e' cm mk H Q :
  attached s e c ch1 a m b e' cm mk H → header_size ≤ zlen H →
  len_of H = header_length H + csize m → ip_invalid_checksum (is_ip s) = false →
  (∀ s', restored (is_vb s) e ((c, ch1) :: a) cm m b e' (is_vb s') → is_pkt s' = is_pkt s →
     ip_packet (is_ip s') = false → ip_packet_payload (is_ip s') = None → is_alerts s' = is_alerts s → Q true s') →
  runs ipv4_forge s Q.
Proof.
  intros At Hs Hlen Hinv HQ. destruct (attached_header _ _ _ _ _ _ _ _ _ _ _ At Hs) as [d Hd].
  destruct At as [Ok Ep R Mk P Hne Hsm _ _ _ (Ha & Hsel & Hpl & Hre)].
  unfold ipv4_forge, only_single. apply runs_bind. step. rewrite Hre. unfold skip. step. step. rewrite Hpl. apply runs_bind. unfold ipv4_forge_one. step. rewrite Ha. cbn [negb].
  call runs_get_hdr_len; [exact Hd|]. apply runs_bind, runs_vb_read. eapply runs_size; [exact P|]. split; [done|].
  call runs_get_len; [exact Hd|]. rewrite bool_decide_true by done. unfold skip. step. step. step. rewrite Hinv. step. step.
  rewrite Hsel. unfold vb at 1. step. pose proof R as R'. rewrite cons_middle, app_assoc in R'.
  eapply (runs_restore _ e ((c, ch1) :: a) cm mk b e' m); [done|exact R|exact Mk|exact P|done| | |].
  { rewrite csize_app in Hsm |- *. rewrite csize_app in Hsm. lia. }
  { destruct (br_parts _ _ _ _ R') as (_ & ? & _). lia. }
  intros v' Hr. step. step. step. step. by apply HQ.
Qed.
End forge.

(** ** The claims *)

(** C15 The dissection of a well-formed packet whose header is inside the first block
    of its payload: the packet is accepted without an alert or an error, the header
    alone is mapped at the beginning of the payload, the datagram behind it is the
    content of a buffer of its own that ends at the total length of the header, the
    padding stays, and no other buffer changes. *)
Theorem ipv4_dissect_correct s e c ch cs :
  let bs := content (is_vb s) ((c, ch) :: cs) in
  heap_ok (is_vb s) → pk_payload (is_pkt s) = Some e → buf_rep (is_vb s) e ((c, ch) :: cs) →
  fl_ctl (ch_flags ch) = false → header_size ≤ header_length bs < ch_size ch →
  header_length bs < len_of bs ≤ zlen bs → (6 ≤ vb_mem (is_vb s))%nat →
  runs ipv4_dissect s (λ r s', r = true ∧ ∃ d ch1 a m b e' cm mk,
    heap_ok (is_vb s') ∧ buf_rep (is_vb s') e (((c, ch1) :: a) ++ (cm, mk) :: b) ∧ buf_rep (is_vb s') e' m ∧
    header s' (d, ch_offset ch1) (ztake (header_length bs) bs) (fl_writable (ch_flags ch)) ∧
    ip_packet_payload (is_ip s') = Some e' ∧ ip_select (is_ip s') = Iter (Some cm) 0 0 false ∧
    content (is_vb s') m = zslice (header_length bs) (len_of bs - header_length bs) bs ∧
    content (is_vb s') b = zdrop (len_of bs) bs ∧
    is_pkt s' = is_pkt s ∧ is_alerts s' = is_alerts s ∧ vb_error (is_vb s') = vb_error (is_vb s) ∧
    (∀ e0 cs0, e0 ≠ e → buf_rep (is_vb s) e0 cs0 →
       buf_rep (is_vb s') e0 cs0 ∧ content (is_vb s') cs0 = content (is_vb s) cs0)).
Proof.
  intros bs Ok Ep H Hctl Hh Hlen Hm. eapply runs_dissect; [done|done|exact H|done|done|done|done|].
  intros s' ch1 a m b e' cm mk Hd. split; [done|]. fold bs in Hd.
  pose proof Hd as [At Cm Cb _ _ Pk Al Er Wr Kp]. pose proof (br_len _ _ _ H) as Ebs. fold bs in Ebs.
  destruct (attached_header _ _ _ _ _ _ _ _ _ _ _ At) as [d Hhd]; [rewrite zlen_ztake; unfold header_size in *; lia|].
  destruct At as [Ok' _ R _ P _ _ _ _ _ (_ & Hsel & Hpl & _)]. exists d, ch1, a, m, b, e', cm, mk.
  split_and!; try done. replace (fl_writable (ch_flags ch)) with (fl_writable (ch_flags ch1)); [done|].
  destruct (br_at (is_vb s) e [] c ch cs H) as [Hc _].
  apply eq_true_iff_eq. rewrite Wr. split; [intros (chx & Hx & Hw); by simplify_eq|intros Hw; by exists ch].
Qed.

(** C14 A packet that is dissected and forged without a change in between is the packet
    that was received: the same bytes, no alert, no error, and the [struct ipv4] is
    detached from the packet. *)
Theorem ipv4_dissect_forge_roundtrip s e c ch cs :
  let bs := content (is_vb s) ((c, ch) :: cs) in
  heap_ok (is_vb s) → pk_payload (is_pkt s) = Some e → buf_rep (is_vb s) e ((c, ch) :: cs) →
  fl_ctl (ch_flags ch) = false → header_size ≤ header_length bs < ch_size ch →
  header_length bs < len_of bs ≤ zlen bs → (6 ≤ vb_mem (is_vb s))%nat →
  runs (ok ← ipv4_dissect; forged ← ipv4_forge; ret (ok, forged)) s (λ r s', r = (true, true) ∧ ∃ cs',
    heap_ok (is_vb s') ∧ buf_rep (is_vb s') e cs' ∧ content (is_vb s') cs' = bs ∧
    is_pkt s' = is_pkt s ∧ is_alerts s' = is_alerts s ∧ vb_error (is_vb s') = vb_error (is_vb s) ∧
    ip_packet (is_ip s') = false ∧ ip_packet_payload (is_ip s') = None).
Proof.
  intros bs Ok Ep H Hctl Hh Hlen Hm. call runs_dissect; [done|done|exact H|done|done|done|done|].
  intros s1 ch1 a m b e' cm mk Hd. fold bs in Hd. pose proof Hd as [At Cm Cb Ct Hv Pk Al Er _ _].
  pose proof (br_len _ _ _ H) as Ebs. fold bs in Ebs. unfold header_size in *.
  call runs_forge; [exact At|rewrite zlen_ztake; unfold header_size; lia| |done|].
  { rewrite len_ztake, header_length_ztake by lia. rewrite <- (br_len _ _ _ (at_part _ _ _ _ _ _ _ _ _ _ _ At)), Cm.
    rewrite zlen_zslice; lia. }
  intros s2 [Ok2 R2 C2 _ _ _ E2] Pk2 Ha2 Hp2 Al2. step. split; [done|]. exists (((c, ch1) :: a) ++ m ++ b).
  rewrite C2, <- !content_app. split_and!; try done; congruence.
Qed.

(** ** Witnesses *)

Definition ex_chunk : vbuffer_chunk := Chunk 1 plain (Some 1%positive) 0 26.

Lemma ex_received_heap : heap_ok (is_vb (ex_received ex_packet_bytes)).
Proof.
  apply (runs_run _ _ heap_ok). eapply runs_create_from; [by apply empty_heap_ok|done|done|]. intros e cs s' M. apply M.
Qed.

Lemma ex_received_rep : buf_rep (is_vb (ex_received ex_packet_bytes)) 3 [(2%positive, ex_chunk)].
Proof. unfold ex_chunk. concrete_rep. Qed.

Lemma ipv4_dissect_correct_witness :
  runs ipv4_dissect (ex_received ex_packet_bytes) (λ r s', r = true ∧ ∃ e' m,
    ip_packet_payload (is_ip s') = Some e' ∧ buf_rep (is_vb s') e' m ∧ content (is_vb s') m = [1; 2; 3; 4] ∧
    is_alerts s' = []).
Proof.
  eapply runs_mono; [apply (ipv4_dissect_correct (ex_received ex_packet_bytes) 3 2 ex_chunk [])|].
  - apply ex_received_heap.
  - reflexivity.
  - apply ex_received_rep.
  - reflexivity.
  - vm_compute. split; [discriminate|reflexivity].
  - vm_compute. split; [reflexivity|discriminate].
  - apply (bool_decide_unpack _). vm_compute. exact I.
  - intros r s' (-> & d & ch1 & a & m & b & e' & cm & mk & _ & _ & P & _ & Hp & _ & C & _ & _ & Al & _).
    split; [done|]. exists e', m. split_and!; [exact Hp|exact P| |by rewrite Al]. rewrite C. vm_compute. reflexivity.
Defined.

Lemma ipv4_dissect_forge_roundtrip_witness :
  runs (ok ← ipv4_dissect; forged ← ipv4_forge; ret (ok, forged)) (ex_received ex_packet_bytes) (λ r s',
    r = (true, true) ∧ ∃ cs', buf_rep (is_vb s') 3 cs' ∧ content (is_vb s') cs' = ex_packet_bytes).
Proof.
  eapply runs_mono; [apply (ipv4_dissect_forge_roundtrip (ex_received ex_packet_bytes) 3 2 ex_chunk [])|].
  - apply ex_received_heap.
  - reflexivity.
  - apply ex_received_rep.
  - reflexivity.
  - vm_compute. split; [discriminate|reflexivity].
  - vm_compute. split; [reflexivity|discriminate].
  - apply (bool_decide_unpack _). vm_compute. exact I.
  - intros r s' (-> & cs' & _ & R & C & _). split; [done|]. exists cs'. split; [exact R|]. rewrite C. vm_compute. reflexivity.
Defined.
