(* ===== verification/Tcp.v ===== *)
(** * TCP packets (modules/protocol/tcp/tcp.c, haka/tcp.h)

    A [struct tcp] over the ip packet that carries it: the header is accessed
    through the memory mapped at the beginning of the payload of the ip packet, the
    bytes behind it are selected out as the payload of the tcp packet.

    The state holds one ip packet and one tcp packet over the buffer library. The
    answers of the capture module (the MTU, the mode, a new packet) are arguments of
    [tcp_forge]; a forged ip packet is returned as a value. *)

From S2P Require Import Prelude Types Checksum List2 VbHeap VbIter VbSub Ipv4.

(** ** Data *)

(** [tcp_packet]: [packet] is the ip packet of the state and not NULL. *)
Record tcp := Tcp {
  tcp_packet : bool;
  tcp_payload : vbuffer;
  tcp_select : vbuffer_iterator;
  tcp_modified : bool;
  tcp_invalid_checksum : bool;
}.

Record tpstate := TPS { tp_is : ipstate; tp_tcp : tcp }.

Abbreviation PM := (M tpstate).

Definition set_is (i : ipstate) (s : tpstate) : tpstate := TPS i (tp_tcp s).
Definition set_tcp (t : tcp) (s : tpstate) : tpstate := TPS (tp_is s) t.
Definition upd_tcp (f : tcp → tcp) : PM unit := modify (λ s, set_tcp (f (tp_tcp s)) s).

(** Calls to the ip module and to the buffers. *)
Definition ip {A} (m : IM A) : PM A := zoom tp_is set_is m.
Definition pvb {A} (m : VM A) : PM A := ip (vb m).

Definition set_tcp_packet (b : bool) (t : tcp) : tcp :=
  Tcp b (tcp_payload t) (tcp_select t) (tcp_modified t) (tcp_invalid_checksum t).
Definition set_selected (p : vbuffer) (sel : vbuffer_iterator) (t : tcp) : tcp :=
  Tcp (tcp_packet t) p sel (tcp_modified t) (tcp_invalid_checksum t).
Definition set_tcp_invalid (b : bool) (t : tcp) : tcp :=
  Tcp (tcp_packet t) (tcp_payload t) (tcp_select t) (tcp_modified t) b.

(** [packet->payload]: the buffer of an ip packet that was not reassembled. *)
Definition ip_payload : PM vbuffer := gets (λ s, ip_packet_payload (is_ip (tp_is s))).

Definition TCP_PROTO : Z := 6.
Definition tcp_header_size : Z := 20.

(** ** Access to the header *)

Definition TCP_CHECK : PM bool :=
  a ← gets (λ s, tcp_packet (tp_tcp s));
  if a : bool then ret true else pvb (error "invalid tcp packet");; ret false.

(** [tcp->packet->payload] without a test of [packet]. *)
Definition tcp_header (write : bool) : PM (option (loc * Z)) :=
  a ← gets (λ s, tcp_packet (tp_tcp s));
  c_assert a;;
  payload ← ip_payload;
  begin ← pvb (u ← uninit_iterator; vbuffer_begin payload u);
  '(m, _) ← pvb (vbuffer_iterator_mmap begin size_max write);
  match m with
  | MapPtr p len =>
      (if write then upd_tcp (set_tcp_invalid true) else skip);;
      c_assert (bool_decide (tcp_header_size ≤ len));;
      ret (Some p)
  | MapNull => c_assert write;; e ← pvb check_error; c_assert e;; ret None
  | MapBad o =>
      c_assert (bool_decide (o = 0));;
      c_assert write;; e ← pvb check_error; c_assert e;; ret None
  end.

(** [TCP_GETSET_FIELD]: a field of [n] bytes at [off]. *)
Definition TCP_GET_FIELD (off n : Z) : PM Z :=
  ok ← TCP_CHECK;
  if negb ok then ret 0 else
  h ← tcp_header false;
  p ← deref h;
  v ← ip (ld p off n);
  ret (SWAP_FROM_BE n v).

Definition TCP_SET_FIELD (off n v : Z) : PM unit :=
  ok ← TCP_CHECK;
  if negb ok then skip else
  h ← tcp_header true;
  match h with
  | Some p => ip (st p off n (SWAP_TO_BE n v))
  | None => skip
  end.

Definition tcp_get_srcport := TCP_GET_FIELD 0 2.
Definition tcp_set_srcport := TCP_SET_FIELD 0 2.
Definition tcp_get_dstport := TCP_GET_FIELD 2 2.
Definition tcp_set_dstport := TCP_SET_FIELD 2 2.
Definition tcp_get_seq := TCP_GET_FIELD 4 4.
Definition tcp_set_seq := TCP_SET_FIELD 4 4.
Definition tcp_get_ack_seq := TCP_GET_FIELD 8 4.
Definition tcp_set_ack_seq := TCP_SET_FIELD 8 4.
Definition tcp_get_window_size := TCP_GET_FIELD 14 2.
Definition tcp_set_window_size := TCP_SET_FIELD 14 2.
Definition tcp_get_checksum := TCP_GET_FIELD 16 2.
Definition tcp_set_checksum := TCP_SET_FIELD 16 2.
Definition tcp_get_urgent_pointer := TCP_GET_FIELD 18 2.
Definition tcp_set_urgent_pointer := TCP_SET_FIELD 18 2.

(** The bit fields: [res] and [hdr_len] in byte 12, [res] the low one, and the
    flags in byte 13 from [fin], the lowest, to [cwr]. *)
Definition get_bits (byte i j : Z) : PM Z :=
  ok ← TCP_CHECK;
  if negb ok then ret 0 else
  h ← tcp_header false;
  p ← deref h;
  v ← ip (ld p byte 1);
  ret (GET_BITS v i j).

Definition set_bits (byte i j v : Z) : PM unit :=
  ok ← TCP_CHECK;
  if negb ok then skip else
  h ← tcp_header true;
  match h with
  | Some p => b ← ip (ld p byte 1); ip (st p byte 1 (SET_BITS b i j v))
  | None => skip
  end.

Definition tcp_get_res := get_bits 12 0 4.
Definition tcp_set_res := set_bits 12 0 4.
Definition tcp_get_hdr_len : PM Z := v ← get_bits 12 4 8; ret (u8 (Z.shiftl v 2)).
Definition tcp_set_hdr_len (v : Z) : PM unit := set_bits 12 4 8 (Z.shiftr v 2).
Definition tcp_get_flags := get_bits 13 0 8.
Definition tcp_set_flags := set_bits 13 0 8.

Definition TCP_GET_FLAG (i : Z) : PM bool := v ← get_bits 13 i (i + 1); ret (negb (bool_decide (v = 0))).

(** The setter maps the header twice. *)
Definition TCP_SET_FLAG (i : Z) (v : bool) : PM unit :=
  ok ← TCP_CHECK;
  if negb ok then skip else
  h ← tcp_header true;
  match h with
  | Some _ =>
      h ← tcp_header true;
      p ← deref h;
      b ← ip (ld p 13 1);
      ip (st p 13 1 (SET_BITS b i (i + 1) (Z.b2z v)))
  | None => skip
  end.

Definition tcp_get_flags_fin := TCP_GET_FLAG 0.
Definition tcp_set_flags_fin := TCP_SET_FLAG 0.
Definition tcp_get_flags_syn := TCP_GET_FLAG 1.
Definition tcp_set_flags_syn := TCP_SET_FLAG 1.
Definition tcp_get_flags_rst := TCP_GET_FLAG 2.
Definition tcp_set_flags_rst := TCP_SET_FLAG 2.
Definition tcp_get_flags_psh := TCP_GET_FLAG 3.
Definition tcp_set_flags_psh := TCP_SET_FLAG 3.
Definition tcp_get_flags_ack := TCP_GET_FLAG 4.
Definition tcp_set_flags_ack := TCP_SET_FLAG 4.
Definition tcp_get_flags_urg := TCP_GET_FLAG 5.
Definition tcp_set_flags_urg := TCP_SET_FLAG 5.
Definition tcp_get_flags_ecn := TCP_GET_FLAG 6.
Definition tcp_set_flags_ecn := TCP_SET_FLAG 6.
Definition tcp_get_flags_cwr := TCP_GET_FLAG 7.
Definition tcp_set_flags_cwr := TCP_SET_FLAG 7.

Definition tcp_get_payload_length : PM Z :=
  ok ← TCP_CHECK;
  if negb ok then ret 0 else
  p ← gets (λ s, tcp_payload (tp_tcp s)); pvb (vbuffer_size p).

(** ** Checksum *)

(** [inet_checksum_vbuffer_partial]: blocks are aligned, the parity of an address
    is that of the offset. *)
Fixpoint checksum_loop (fuel : nat) (buf : vbuffer_sub) (it : vbuffer_sub_mmap) (csum : checksum_partial)
    : VM checksum_partial :=
  '(r, it) ← vbuffer_mmap buf false it;
  match r with
  | None => ret csum
  | Some (b, o, len, _) =>
      match fuel with
      | O => stuck
      | S fuel =>
          if bool_decide (len > 0) then
            bs ← ptr_read (b, o) len;
            checksum_loop fuel buf it (inet_checksum_partial csum (Z.odd o) bs)
          else checksum_loop fuel buf it csum
      end
  end.

Definition inet_checksum_vbuffer_partial (csum : checksum_partial) (buf : vbuffer_sub) : VM checksum_partial :=
  fuel ← chunk_fuel; checksum_loop fuel buf vbuffer_mmap_init csum.

(** The bytes of the [struct tcp_pseudo_header]. *)
Definition tcp_pseudo_header (src dst proto len : Z) : list Z :=
  le_bytes 4 src ++ le_bytes 4 dst ++ [0; proto] ++ le_bytes 2 (SWAP_TO_BE 2 (u16 len)).

Definition tcp_checksum : PM Z :=
  ok ← TCP_CHECK;
  if negb ok then ret 0 else
  ipheader ← ip (ipv4_header false);
  h ← deref ipheader;
  src ← ip (ld h 12 4);
  dst ← ip (ld h 16 4);
  proto ← ip (ld h 9 1);
  n1 ← ip ipv4_get_payload_length;
  n2 ← tcp_get_payload_length;
  let csum := inet_checksum_partial checksum_partial_init false (tcp_pseudo_header src dst proto (n1 + n2)) in
  payload ← ip_payload;
  csum ← pvb (sub ← vbuffer_sub_create payload 0 size_max; inet_checksum_vbuffer_partial csum sub);
  payload ← gets (λ s, tcp_payload (tp_tcp s));
  csum ← pvb (sub ← vbuffer_sub_create payload 0 size_max; inet_checksum_vbuffer_partial csum sub);
  ret (inet_checksum_reduce csum).

Definition tcp_verify_checksum : PM bool :=
  ok ← TCP_CHECK;
  if negb ok then ret false else
  c ← tcp_checksum; ret (bool_decide (c = 0)).

Definition tcp_compute_checksum : PM unit :=
  ok ← TCP_CHECK;
  if negb ok then skip else
  h ← tcp_header true;
  match h with
  | None => skip
  | Some p =>
      ip (st p 16 2 0);;
      c ← tcp_checksum;
      ip (st p 16 2 (u16 c));;
      upd_tcp (set_tcp_invalid false)
  end.

(** ** Dissection *)

Definition alert_invalid_packet (desc : string) : PM unit := ip (raise_alert true desc).

Definition tcp_flatten_header (payload : vbuffer) (hdrlen : Z) : PM bool :=
  part ← pvb (vbuffer_sub_create payload 0 hdrlen);
  b ← pvb (vbuffer_iterator_skip_empty (sb_begin part));
  '(m, _) ← pvb (vbuffer_sub_flatten (Sub b (sb_use_size part) (sb_tail part)));
  match m with
  | MapPtr _ len => c_assert (bool_decide (hdrlen ≤ len));; ret true
  | _ => ret false
  end.

(** On failure the [struct tcp] is freed here, and once more by both callers. *)
Definition tcp_extract_payload (hdrlen : Z) : PM bool :=
  payload ← ip_payload;
  part ← pvb (vbuffer_sub_create payload hdrlen size_max);
  '(r, _, buffer, select) ← pvb (vbuffer_select part);
  if negb r then e ← pvb check_error; c_assert e;; ret false else
  upd_tcp (set_selected buffer select);;
  ret true.

(** True when the [struct tcp] is returned. *)
Definition tcp_dissect : PM bool :=
  proto ← ip ipv4_get_proto;
  if negb (bool_decide (proto = TCP_PROTO)) then pvb (error "Not a tcp packet");; ret false else
  payload ← ip_payload;
  '(big, _) ← pvb (vbuffer_check_size payload tcp_header_size);
  if negb big then
    alert_invalid_packet "corrupted tcp packet, size is too small";;
    ip ipv4_action_drop;; ret false
  else
  mem ← pvb malloc;
  match mem with
  | None => pvb (error "Failed to allocate memory");; ret false
  | Some _ =>
      upd_tcp (λ _, Tcp true None vbuffer_iterator_init false false);;
      it ← pvb (u ← uninit_iterator; vbuffer_position payload u 12);
      '(byte, _) ← pvb (vbuffer_iterator_getbyte it);
      let hdrlen := Z.shiftl (Z.shiftr byte 4) 2 in
      big ← (if bool_decide (hdrlen < tcp_header_size) then ret false
             else '(big, _) ← pvb (vbuffer_check_size payload hdrlen); ret big);
      if negb big then
        alert_invalid_packet "corrupted tcp packet, header length is too small";;
        ip ipv4_action_drop;;
        upd_tcp (set_tcp_packet false);; ret false
      else
      flat ← tcp_flatten_header payload hdrlen;
      if negb flat then
        e ← pvb check_error; c_assert e;; upd_tcp (set_tcp_packet false);; ret false
      else
      ok ← tcp_extract_payload hdrlen;
      if negb ok then stuck (* freed twice *) else ret true
  end.

(** ** Creation *)

Definition tcp_add_header (payload : vbuffer) : PM bool :=
  '(ok, header_buffer) ← pvb (vbuffer_create_new tcp_header_size true);
  if negb ok then e ← pvb check_error; c_assert e;; ret false else
  begin ← pvb (u ← uninit_iterator; vbuffer_begin payload u);
  '(r, _, _) ← pvb (vbuffer_iterator_insert begin header_buffer false);
  _ ← pvb (vbuffer_release header_buffer);
  ret r.

Definition tcp_create : PM bool :=
  mem ← pvb malloc;
  match mem with
  | None => pvb (error "Failed to allocate memory");; ret false
  | Some _ =>
      payload ← ip_payload;
      ok ← tcp_add_header payload;
      if negb ok then e ← pvb check_error; c_assert e;; ret false else
      upd_tcp (λ _, Tcp true None vbuffer_iterator_init true true);;
      ok ← tcp_extract_payload tcp_header_size;
      if negb ok then stuck (* freed twice *) else
      ip (ipv4_set_proto TCP_PROTO);;
      tcp_set_checksum 0;;
      tcp_set_hdr_len tcp_header_size;;
      ret true
  end.

(** ** Forging *)

Definition tcp_recompute_checksum : PM unit :=
  t ← gets tp_tcp;
  i ← gets (λ s, ip_invalid_checksum (is_ip (tp_is s)));
  m ← (if tcp_invalid_checksum t || i then ret true else pvb (vbuffer_ismodified (tcp_payload t)));
  if m : bool then tcp_compute_checksum else skip.

(** The payload goes back to its mark, or behind the header when there is none. *)
Definition tcp_put_back : PM unit :=
  t ← gets tp_tcp;
  if negb (vbuffer_iterator_isvalid (tcp_select t)) then
    payload ← ip_payload;
    n ← tcp_get_hdr_len;
    insert ← pvb (u ← uninit_iterator; vbuffer_position payload u n);
    _ ← pvb (vbuffer_iterator_insert insert (tcp_payload t) false);
    skip
  else
    '(_, sel, buffer) ← pvb (vbuffer_restore (tcp_select t) (Some (tcp_payload t)) false);
    upd_tcp (set_selected (default (tcp_payload t) buffer) sel).

(** The answers of the capture module: the MTU of a packet, whether it only
    listens, and a new packet, whose payload is a buffer of its own. *)
Section forge.
Context (get_mtu : Z) (pass_through : bool) (new_packet : Z → VM (option vbuffer)).

(** [*header = tcpheader], [*header = ipheader]: copies of 20 bytes. *)
Definition load_header (p : loc * Z) : PM (list Z) := pvb (ptr_read p header_size).
Definition store_header (p : loc * Z) (bs : list Z) : PM unit := pvb (ptr_write p bs).

(** The ip packet [tcp->packet] points to. *)
Definition current : PM (packet * ipv4) := gets (λ s, (is_pkt (tp_is s), is_ip (tp_is s))).
Definition point_to (p : packet * ipv4) : PM unit := ip (modify (λ s, set_pkt p.1 (set_ip p.2 s))).

(** The rest of the data gets a new ip packet with copies of both headers; when it
    cannot be built the answer is false and the [struct tcp] keeps the old one. *)
Definition tcp_next_packet (ipheader tcpheader : list Z) (mtu : Z) : PM bool :=
  old ← current;
  pkt ← pvb (new_packet 0);
  match pkt with
  | None => e ← pvb check_error; c_assert e;; ret false
  | Some payload =>
      c_assert (vbuffer_isvalid payload);;
      ip (modify (set_pkt (Packet 1 payload None false)));;
      ok ← ip ipv4_create;
      if negb ok then e ← pvb check_error; c_assert e;; _ ← ip record_release; point_to old;; ret false else
      payload ← ip_payload;
      ok ← tcp_add_header payload;
      if negb ok then e ← pvb check_error; c_assert e;; ip ipv4_release;; point_to old;; ret false else
      h ← ip (ipv4_header true);
      h ← deref h;
      store_header h ipheader;;
      ip (ipv4_set_id 0);;
      h ← tcp_header true;
      h ← deref h;
      store_header h tcpheader;;
      tcp_set_seq (u32 (SWAP_FROM_BE 4 (le_value (zslice 4 4 tcpheader)) + mtu));;
      tcp_set_hdr_len tcp_header_size;;
      ret true
  end.

(** The forged ip packet, with the packet it was built from. While [split] cuts the
    payload at the MTU, the [struct tcp] stays attached, to the rest. *)
Definition _tcp_forge (split : bool) : PM (option (packet * ipv4)) :=
  a ← gets (λ s, tcp_packet (tp_tcp s));
  if negb a then ret None else
  hl ← ip ipv4_get_hdr_len;
  thl ← tcp_get_hdr_len;
  let mtu := u64 (get_mtu - hl - thl) in
  t ← gets tp_tcp;
  big ← (if split && negb pass_through
         then '(b, _) ← pvb (vbuffer_check_size (tcp_payload t) (u64 (mtu + 1))); ret b else ret false);
  if big : bool then
    sub ← pvb (vbuffer_sub_create (tcp_payload t) mtu size_max);
    '(ok, _, rem_payload) ← pvb (vbuffer_extract sub);
    if negb ok then e ← pvb check_error; c_assert e;; ret None else
    h ← ip (ipv4_header false); h ← deref h; ipheader ← load_header h;
    h ← tcp_header false; h ← deref h; tcpheader ← load_header h;
    tcp_set_flags_fin false;;
    tcp_set_flags_psh false;;
    tcp_recompute_checksum;;
    tcp_put_back;;
    t ← gets tp_tcp;
    '(payload, rem_payload) ← pvb (vbuffer_swap (tcp_payload t) rem_payload);
    upd_tcp (set_selected payload (tcp_select t));;
    _ ← pvb (vbuffer_release rem_payload);
    packet ← current;
    ok ← tcp_next_packet ipheader tcpheader mtu;
    ret (if ok : bool then Some packet else None)
  else
    tcp_recompute_checksum;;
    tcp_put_back;;
    upd_tcp (set_tcp_packet false);;
    packet ← current; ret (Some packet).

Definition tcp_forge : PM (option (packet * ipv4)) := _tcp_forge true.
End forge.

(** ** Release *)

Definition tcp_flush : PM unit :=
  a ← gets (λ s, tcp_packet (tp_tcp s));
  if a : bool then ip ipv4_release;; upd_tcp (set_tcp_packet false) else skip.

Definition tcp_release : PM unit :=
  tcp_flush;;
  t ← gets tp_tcp;
  p ← pvb (vbuffer_release (tcp_payload t));
  upd_tcp (set_selected p (tcp_select t)).

Definition tcp_action_drop : PM unit :=
  ok ← TCP_CHECK; if negb ok then skip else tcp_flush.
