(* ===== verification/TcpCsum.v ===== *)
(** * TCP header and checksum (modules/protocol/tcp/tcp.c, haka/tcp.h)

    [segment s ...]: a tcp packet over an ip packet, as the dissection of both leaves
    it: the ip header at the beginning of the payload of the packet, the tcp header
    at the beginning of the payload of the ip packet, the data in a buffer of its
    own. The chunk of the tcp header is apart from the others, so that a store into
    the header changes no other byte. *)

From S2P Require Import Prelude Types Checksum List2 VbHeap VbIter VbSub VbRep VbWalk VbFrame VbMut VbEdit VbMake VbRead VbSpec VbWrite VbSelect VbMap Ipv4 Ipv4Spec Tcp.

#[local] Arguments basic_bytes : simpl never.

(** ** The sum over a sub-buffer *)

Section sum.
Context (s : vbstate) (e : loc) (cs : list seg) (H : buf_rep s e cs) (HB : byte_list (content s cs)).
#[local] Set Default Proof Using "H HB".

Lemma byte_slice off n (l : list Z) : byte_list l → byte_list (zslice off n l).
Proof using. intros Hl. by apply Forall_take, Forall_drop. Qed.

Lemma checksum_loop_spec data : ∀ fuel l2 l1 it o rem csum l Q,
  cursor e cs data it l1 l2 o rem → (length l2 ≤ fuel)%nat → 0 ≤ o → csum_rep csum l → zlen l + rem ≤ max_bytes →
  (∀ csum', csum_rep csum' (l ++ zslice (csize l1 + o) rem (content s cs)) → Q csum' s) →
  runs (checksum_loop fuel data it csum) s Q.
Proof.
  induction fuel as [|fuel IH]; intros l2 l1 it o rem csum l Q Hc Hf Ho Hl Hm HQ;
    pose proof (cursor_rem _ _ _ H _ _ _ _ _ _ Hc) as Hr; simpl;
    (call (runs_mmap s e cs H); [done|exact Hc|]); intros [[[[d a] len] p]|] it' s' Hn; simpl in Hn.
  1: destruct Hn as (l1' & c & ch & l2' & o' & b & _ & _ & ? & _); lia.
  1, 3: destruct Hn as [-> ->]; step; apply HQ; by rewrite zslice_0, app_nil_r.
  destruct Hn as (l1' & c & ch & l2' & o' & b & E & Ep & Hlt & Ho' & Hln & Hlr & Hle & Ec & Ed & Hb & -> & Hc' & Hend & ->).
  pose proof H as H'. rewrite E in H'. destruct (br_at _ _ _ _ _ _ H') as [_ Oc].
  destruct (co_data _ _ Oc Ec) as (Hof & b' & Hb' & Hbl). rewrite Ed, Hb in Hb'. injection Hb' as <-.
  pose proof (chunk_slice s e cs H l1' c ch l2' o' len d b E Ec Ed Hb Ho' ltac:(lia) ltac:(lia)) as Es.
  rewrite bool_decide_true by lia. unfold ptr_read. apply runs_bind. unfold basic_bytes in Hb. simpl in Hb.
  destruct (vb_datas s !! d) as [dt|] eqn:Hd; [|done]. simpl in Hb.
  call runs_rd_data; [done|]. destruct (dt_body dt) eqn:Ebody; try done. injection Hb as ->.
  rewrite bool_decide_true by (simpl; lia). step. step. cbn [fst snd]. rewrite <- Es.
  destruct (br_size _ _ _ _ _ _ H') as (?&?&?&_).
  assert (csize cs = csize l1' + ch_size ch + csize l2') as Esz by (rewrite E, csize_app, csize_cons; simpl; lia).
  assert (zlen (zslice (csize l1' + o') len (content s cs)) = len) as El.
  { apply zlen_zslice; [lia|lia|]. rewrite (br_len _ _ _ H). lia. }
  eapply (IH l2'); [exact Hc'|lia|lia| | |].
  - apply partial_spec; [exact Hl| |by apply byte_slice|rewrite El; lia]. intros E0. rewrite E0 in El. by rewrite zlen_nil in El; lia.
  - rewrite zlen_app, El. lia.
  - intros csum' Hrep. apply HQ. rewrite <- app_assoc in Hrep. rewrite Ep in Hrep.
    replace rem with (len + (rem - len)) at 1 by lia. rewrite zslice_split by lia.
    rewrite csize_app, csize_cons, csize_nil in Hrep. simpl in Hrep. destruct Hend as [Hend|Hend].
    + by replace (csize l1' + (ch_size ch + 0) + 0) with (csize l1 + o + len) in Hrep by lia.
    + replace (rem - len) with 0 in Hrep |- * by lia. by rewrite !zslice_0 in *.
Qed.

(** The sum over a whole buffer. *)
Lemma runs_checksum_buffer csum l Q :
  cs = [] ∨ 0 < csize cs → csum_rep csum l → zlen l + csize cs ≤ max_bytes →
  (∀ csum', csum_rep csum' (l ++ content s cs) → Q csum' s) →
  runs (sub ← vbuffer_sub_create (Some e) 0 size_max; inet_checksum_vbuffer_partial csum sub) s Q.
Proof.
  intros Hne Hl Hm HQ. pose proof (br_nonneg _ _ _ H). unfold vbuffer_sub_create. apply runs_bind.
  call runs_vbuffer_begin; [exact H|]. rewrite bool_decide_true by done. step.
  rewrite bool_decide_true by done. unfold vbuffer_end, vbuffer_position. apply runs_bind. step.
  rewrite bool_decide_true by done. step. step.
  set (data := Sub _ _ _). assert (sub_range e cs data 0 (csize cs)) as Hr.
  { pose proof (pos_of_suffix e [] cs) as P. split_and!; [apply P; lia|by right|].
    destruct Hne as [->|?]; [by right|by left]. }
  destruct (range_cursor _ _ _ H _ _ _ Hr) as (l1 & l2 & o & Hc & Ep & Ho).
  unfold inet_checksum_vbuffer_partial. call runs_chunk_fuel.
  eapply checksum_loop_spec; [exact Hc| |done|exact Hl|lia|].
  - pose proof (br_fuel _ _ _ H) as Hf. rewrite (cu_split _ _ _ _ _ _ _ _ Hc), length_app in Hf. lia.
  - rewrite Ep, Z.sub_0_r. intros csum' Hrep. apply HQ. rewrite <- (br_len _ _ _ H), zslice_full in Hrep. done.
Qed.
End sum.

(** ** Segments *)

(** The three buffers: the payload of the packet with the ip header in its first
    chunk, the payload of the ip packet with the tcp header in its first chunk, and
    the payload of the tcp packet. *)
Record layout := Layout {
  ly_packet : loc; ly_ip : loc; ly_ipch : vbuffer_chunk; ly_ipcs : list seg;
  ly_payload : loc; ly_tcp : loc; ly_tcpch : vbuffer_chunk; ly_tcpcs : list seg;
  ly_data : loc; ly_cs : list seg;
}.

Definition with_tcpch (ch : vbuffer_chunk) (L : layout) : layout :=
  Layout (ly_packet L) (ly_ip L) (ly_ipch L) (ly_ipcs L) (ly_payload L) (ly_tcp L) ch (ly_tcpcs L) (ly_data L) (ly_cs L).

Definition tvb (s : tpstate) : vbstate := is_vb (tp_is s).

Record segment (s : tpstate) (L : layout) : Prop := {
  sg_heap : heap_ok (tvb s);
  sg_attached : tcp_packet (tp_tcp s) = true ∧ ip_packet (is_ip (tp_is s)) = true;
  sg_pointers : pk_payload (is_pkt (tp_is s)) = Some (ly_packet L) ∧
    ip_packet_payload (is_ip (tp_is s)) = Some (ly_payload L) ∧ tcp_payload (tp_tcp s) = Some (ly_data L);
  sg_packet : buf_rep (tvb s) (ly_packet L) ((ly_ip L, ly_ipch L) :: ly_ipcs L);
  sg_payload : buf_rep (tvb s) (ly_payload L) ((ly_tcp L, ly_tcpch L) :: ly_tcpcs L);
  sg_data : buf_rep (tvb s) (ly_data L) (ly_cs L);
  sg_ne : ly_packet L ≠ ly_payload L ∧ ly_data L ≠ ly_payload L;
  sg_ctl : fl_ctl (ch_flags (ly_ipch L)) = false ∧ fl_ctl (ch_flags (ly_tcpch L)) = false;
  sg_size : header_size ≤ ch_size (ly_ipch L) ∧ tcp_header_size ≤ ch_size (ly_tcpch L);
  sg_apart : ∀ y, y ∈ ((ly_ip L, ly_ipch L) :: ly_ipcs L) ++ ly_tcpcs L ++ ly_cs L → apart (ly_tcpch L) y.2;
}.

(** The bytes of the header chunk, and those behind it. *)
Definition tcp_bytes (s : tpstate) (L : layout) : list Z := chunk_bytes (tvb s) (ly_tcpch L).
Definition ip_bytes (s : tpstate) (L : layout) : list Z := chunk_bytes (tvb s) (ly_ipch L).
Definition tail_bytes (s : tpstate) (L : layout) : list Z := content (tvb s) (ly_tcpcs L) ++ content (tvb s) (ly_cs L).

(** Only the bytes of the tcp header differ, and the checksum flag of the packet. *)
Record stored (s : tpstate) (L : layout) (H : list Z) (s' : tpstate) (L' : layout) : Prop := {
  so_segment : segment s' L';
  so_layout : ∃ ch', L' = with_tcpch ch' L ∧ poked (tvb s) (ly_tcp L) (ly_tcpch L) H (tvb s') ch';
  so_bytes : tcp_bytes s' L' = H;
  so_ip : ip_bytes s' L' = ip_bytes s L;
  so_tail : tail_bytes s' L' = tail_bytes s L;
  so_packet : is_pkt (tp_is s') = is_pkt (tp_is s) ∧ is_ip (tp_is s') = is_ip (tp_is s) ∧
    is_alerts (tp_is s') = is_alerts (tp_is s);
  so_tcp : ∃ b, tp_tcp s' = set_tcp_invalid b (tp_tcp s);
}.

Section segments.
Implicit Types s : tpstate.

Lemma sg_at s L : segment s L → vb_chunks (tvb s) !! ly_tcp L = Some (ly_tcpch L) ∧ chunk_ok (tvb s) (ly_tcpch L).
Proof. intros Sg. apply (br_at _ _ [] _ _ _ (sg_payload _ _ Sg)). Qed.

Lemma sg_len s L : segment s L → zlen (tcp_bytes s L) = ch_size (ly_tcpch L).
Proof. intros Sg. apply chunk_bytes_len. by apply sg_at. Qed.

Lemma apart_poked ch ch' x : ch' = ch ∨ ch' = set_modified true ch → apart ch x → apart ch' x.
Proof. by intros [->| ->]. Qed.

(** A store in the heap, with the same ip packet. *)
Lemma segment_poked s L H v' ch' t' :
  segment s L → poked (tvb s) (ly_tcp L) (ly_tcpch L) H v' ch' → (∃ b, t' = set_tcp_invalid b (tp_tcp s)) →
  stored s L H (TPS (set_vb v' (tp_is s)) t') (with_tcpch ch' L).
Proof.
  intros Sg P Ht. pose proof Sg as [Ok At Pt R1 R2 R3 [Ne1 Ne2] Ct Sz Ap]. pose proof (po_chunk _ _ _ _ _ _ P) as Hch.
  assert (∀ e cs, buf_rep (tvb s) e cs → e ≠ ly_payload L → ly_tcp L ∉ e :: cs.*1) as Hnot.
  { intros e cs R Hne. eapply buf_disjoint; [exact R2|exact R|by apply not_eq_sym|]. right. by left. }
  destruct (poked_other _ _ _ _ _ _ _ _ P R1) as [R1' C1]; [by apply Hnot| |].
  { intros y Hy. apply Ap. apply elem_of_app. by left. }
  destruct (poked_other _ _ _ _ _ _ _ _ P R3) as [R3' C3]; [by apply Hnot| |].
  { intros y Hy. apply Ap. apply elem_of_app. right. apply elem_of_app. by right. }
  assert (∀ y, y ∈ (ly_ip L, ly_ipch L) :: ly_tcpcs L → chunk_bytes v' y.2 = chunk_bytes (tvb s) y.2) as Hkeep.
  { intros [y chy] Hy. apply elem_of_cons in Hy as [Hy|Hy].
    - simplify_eq. simpl. apply (po_apart _ _ _ _ _ _ P); [eapply br_ok; [exact R1|by left]|].
      apply (Ap (ly_ip L, ly_ipch L)). apply elem_of_app. left. by left.
    - simpl. apply (po_apart _ _ _ _ _ _ P); [eapply br_ok; [exact R2|by right; exact Hy]|].
      apply (Ap (y, chy)). apply elem_of_app. right. apply elem_of_app. by left. }
  assert (∃ b, t' = set_tcp_invalid b (tp_tcp s)) as [b ->] by done. split; simpl.
  - split; simpl; try done.
    + by apply (po_heap _ _ _ _ _ _ P).
    + apply (poked_buf _ _ _ _ _ _ _ [] _ P R2).
    + by destruct Hch as [->| ->].
    + by destruct Hch as [->| ->].
    + intros y Hy. eapply apart_poked; [exact Hch|]. by apply Ap.
  - by exists ch'.
  - apply (po_bytes _ _ _ _ _ _ P).
  - apply (Hkeep (ly_ip L, ly_ipch L)). by left.
  - unfold tail_bytes. simpl. f_equal; [|done]. apply content_kept. intros y chy Hy. apply (Hkeep (y, chy)). by right.
  - done.
  - by exists b.
Qed.

Lemma stored_trans s L H1 s1 L1 H2 s2 L2 : stored s L H1 s1 L1 → stored s1 L1 H2 s2 L2 → stored s L H2 s2 L2.
Proof.
  intros [S1 (ch1 & -> & P1) B1 I1 T1 (K1 & K2 & K3) [b1 E1]] [S2 (ch2 & -> & P2) B2 I2 T2 (J1 & J2 & J3) [b2 E2]].
  split; try congruence.
  - exists ch2. split; [done|]. eapply poked_trans; [exact P1|exact P2].
  - split_and!; congruence.
  - exists b2. rewrite E2, E1. done.
Qed.

Lemma stored_refl s L : segment s L → stored s L (tcp_bytes s L) s L.
Proof.
  intros Sg. destruct (sg_at _ _ Sg) as [Hc _]. pose proof (segment_poked s L _ _ _ (tp_tcp s) Sg (poked_refl _ _ _ Hc)) as St.
  assert (TPS (set_vb (tvb s) (tp_is s)) (tp_tcp s) = s) as E by (destruct s as [[] ?]; done).
  assert (with_tcpch (ly_tcpch L) L = L) as EL by (by destruct L). rewrite E, EL in St. apply St.
  exists (tcp_invalid_checksum (tp_tcp s)). by destruct (tp_tcp s).
Qed.
End segments.

(** ** Access *)

(** The address of the header. *)
Definition tcp_at (L : layout) (a : loc * Z) : Prop :=
  ch_data (ly_tcpch L) = Some a.1 ∧ a.2 = ch_offset (ly_tcpch L).

Section access.
Implicit Types s : tpstate.

Lemma runs_pvb_read {A} (m : VM A) s Q :
  runs m (tvb s) (λ a v, v = tvb s ∧ Q a s) → runs (pvb m) s Q.
Proof.
  intros H. unfold pvb, ip. step. apply runs_vb_read. eapply runs_mono; [exact H|]. intros a v [-> HQ].
  split; [done|]. by destruct s.
Qed.

Lemma runs_ip_read {A} (m : IM A) s Q :
  runs m (tp_is s) (λ a i, i = tp_is s ∧ Q a s) → runs (ip m) s Q.
Proof.
  intros H. unfold ip. step. eapply runs_mono; [exact H|]. intros a i [-> HQ]. by destruct s.
Qed.

Lemma runs_tcp_check s L Q : segment s L → Q true s → runs TCP_CHECK s Q.
Proof. intros Sg HQ. unfold TCP_CHECK. step. destruct (sg_attached _ _ Sg) as [-> _]. by step. Qed.

Lemma tcp_at_exists s L : segment s L → ∃ a, tcp_at L a.
Proof.
  intros Sg. destruct (sg_at _ _ Sg) as [_ Oc]. destruct (co_data _ _ Oc (proj2 (sg_ctl _ _ Sg))) as (_ & b & Hb & _).
  destruct (basic_bytes_some _ _ _ Hb) as [d Ed]. by exists (d, ch_offset (ly_tcpch L)).
Qed.

Lemma runs_tcp_header s L (write : bool) Q :
  segment s L → (write = true → fl_writable (ch_flags (ly_tcpch L)) = true) →
  (∀ a s' L', tcp_at L' a → stored s L (tcp_bytes s L) s' L' → (write = false → s' = s ∧ L' = L) →
    tcp_invalid_checksum (tp_tcp s') = write || tcp_invalid_checksum (tp_tcp s) → Q (Some a) s') →
  runs (tcp_header write) s Q.
Proof.
  intros Sg Hw HQ. pose proof (tcp_at_exists _ _ Sg) as [a Ha]. pose proof (sg_at _ _ Sg) as [Hc Oc].
  destruct (sg_size _ _ Sg) as [_ Hsz]. unfold tcp_header_size in Hsz.
  destruct (first_block_of _ _ _ _ _ (sg_payload _ _ Sg) (proj2 (sg_ctl _ _ Sg))) as (d & r & sz & b & F & _); [lia|].
  unfold tcp_header. step. step; [apply (sg_attached _ _ Sg)|]. unfold ip_payload. apply runs_bind. step.
  destruct (sg_pointers _ _ Sg) as (_ & -> & _). apply runs_bind, runs_pvb_read. unfold uninit_iterator.
  apply runs_bind. step. step. eapply runs_block_begin; [exact F|]. split; [done|].
  assert (a = (d, ch_offset (ly_tcpch L))) as ->.
  { destruct a as [d' o], Ha as [E E2]. simpl in E, E2. rewrite (fb_data _ _ _ _ _ _ _ _ F) in E. by simplify_eq. }
  unfold pvb, ip. apply runs_bind. step. unfold vb. step. eapply runs_block_mmap; [exact F|exact Hw|]. intros it. cbv beta.
  unfold accessed. destruct write; apply runs_bind.
  - unfold upd_tcp. step. step; [apply bool_decide_true; unfold tcp_header_size; lia|]. step.
    apply (HQ _ _ (with_tcpch (set_modified true (ly_tcpch L)) L)); [done| |done|done].
    apply segment_poked; [exact Sg|by apply poked_mark|by exists true].
  - unfold skip. step. step; [apply bool_decide_true; unfold tcp_header_size; lia|]. step.
    assert (set_is (set_vb (is_vb (tp_is s)) (tp_is s)) s = s) as -> by (destruct s as [[] ?]; done).
    apply (HQ _ _ L); [done|by apply stored_refl|done|done].
Qed.

Lemma runs_tcp_ld s L a off n Q :
  segment s L → tcp_at L a → 0 ≤ off → 0 ≤ n → off + n ≤ zlen (tcp_bytes s L) →
  Q (le_value (zslice off n (tcp_bytes s L))) s → runs (ip (ld a off n)) s Q.
Proof.
  intros Sg [Ed Eo] Ho Hn Hl HQ. destruct (sg_size _ _ Sg) as [_ Hsz]. unfold tcp_header_size in Hsz.
  destruct (mapped_first _ _ _ _ _ (sg_payload _ _ Sg) (proj2 (sg_ctl _ _ Sg))) as (d & Ed' & Hm); [lia|].
  assert (a = (d, ch_offset (ly_tcpch L))) as -> by (destruct a; simpl in *; congruence).
  apply runs_ip_read. unfold ld. apply runs_bind, runs_vb_read. eapply runs_map_load; [exact Hm|done|done|done|].
  split; [done|]. by step.
Qed.

Lemma runs_tcp_st s L a off n x Q :
  segment s L → tcp_at L a → 0 ≤ off → 0 ≤ n → off + n ≤ zlen (tcp_bytes s L) →
  (∀ s' L', tcp_at L' a → stored s L (zput off (le_bytes (Z.to_nat n) x) (tcp_bytes s L)) s' L' →
    tcp_invalid_checksum (tp_tcp s') = tcp_invalid_checksum (tp_tcp s) →
    fl_writable (ch_flags (ly_tcpch L')) = fl_writable (ch_flags (ly_tcpch L)) → Q tt s') →
  runs (ip (st a off n x)) s Q.
Proof.
  intros Sg [Ed Eo] Ho Hn Hl HQ. pose proof (sg_at _ _ Sg) as [Hc Oc]. rewrite (sg_len _ _ Sg) in Hl.
  assert (zlen (le_bytes (Z.to_nat n) x) = n) as Eb by (unfold zlen; rewrite le_bytes_length; lia).
  unfold ip. step. unfold st, vb. step. rewrite Eo. eapply runs_poke; [exact Hc|done|apply (sg_ctl _ _ Sg)|done|done|lia|].
  intros v' P. apply (HQ _ (with_tcpch (ly_tcpch L) L)); [done| |done|done].
  apply segment_poked; [done|exact P|]. exists (tcp_invalid_checksum (tp_tcp s)). by destruct (tp_tcp s).
Qed.
End access.

(** ** The checksum *)

(** The pseudo header of RFC 793, from the bytes of the ip header. *)
Definition pseudo_bytes (Hip : list Z) (len : Z) : list Z :=
  zslice 12 4 Hip ++ zslice 16 4 Hip ++ [0] ++ zslice 9 1 Hip ++ be_bytes 2 len.

Definition tcp_len (L : layout) : Z := csize ((ly_tcp L, ly_tcpch L) :: ly_tcpcs L) + csize (ly_cs L).

(** The bytes the checksum covers. *)
Definition covered (s : tpstate) (L : layout) (H : list Z) : list Z :=
  pseudo_bytes (ip_bytes s L) (tcp_len L) ++ H ++ tail_bytes s L.

(** The ranges the checksum needs. *)
Record summable (s : tpstate) (L : layout) : Prop := {
  su_ip : byte_list (ip_bytes s L);
  su_tcp : byte_list (tcp_bytes s L);
  su_tail : byte_list (content (tvb s) (ly_tcpcs L)) ∧ byte_list (content (tvb s) (ly_cs L));
  su_len : tcp_len L ≤ 64000;
  su_data : ly_cs L = [] ∨ 0 < csize (ly_cs L);
}.

Section checksum.
Implicit Types s : tpstate.

Lemma ip_header s L : segment s L →
  ∃ a w, header (tp_is s) a (ip_bytes s L) w.
Proof.
  intros Sg. destruct (sg_size _ _ Sg) as [Hs _]. unfold header_size in Hs.
  destruct (mapped_first _ _ _ _ _ (sg_packet _ _ Sg) (proj1 (sg_ctl _ _ Sg))) as (d & _ & Hm); [lia|].
  eexists _, _. split_and!; [apply (sg_attached _ _ Sg)| |].
  - eexists. split; [apply (sg_pointers _ _ Sg)|exact Hm].
  - unfold ip_bytes. rewrite chunk_bytes_len; [done|]. eapply br_ok; [apply (sg_packet _ _ Sg)|by left].
Qed.

Lemma pseudo_spec Hip len :
  byte_list Hip → header_size ≤ zlen Hip → 0 ≤ len < 2 ^ 16 →
  tcp_pseudo_header (le_value (zslice 12 4 Hip)) (le_value (zslice 16 4 Hip)) (le_value (zslice 9 1 Hip)) len =
    pseudo_bytes Hip len.
Proof.
  intros HB Hl Hlen. unfold header_size in Hl. unfold tcp_pseudo_header, pseudo_bytes.
  assert (∀ off n, 0 ≤ off → 0 ≤ n → off + n ≤ zlen Hip →
    le_bytes (Z.to_nat n) (le_value (zslice off n Hip)) = zslice off n Hip) as E.
  { intros off n Ho Hn Hle. rewrite <- (zlen_zslice off n Hip) at 1 by done. unfold zlen. rewrite Nat2Z.id.
    apply le_bytes_value. by apply byte_slice. }
  rewrite u16_small by lia. f_equal; [apply (E 12 4); lia|]. f_equal; [apply (E 16 4); lia|].
  rewrite (be_le 2) by (unfold width_ok; set_solver).
  assert (zlen (zslice 9 1 Hip) = 1) as E1 by (apply zlen_zslice; lia).
  destruct (zslice 9 1 Hip) as [|x [|y l]] eqn:Ex; [done| |].
  - simpl. by rewrite Z.add_0_r.
  - rewrite !zlen_cons in E1. pose proof (zlen_nonneg l). lia.
Qed.

Lemma pseudo_len Hip len : header_size ≤ zlen Hip → zlen (pseudo_bytes Hip len) = 12.
Proof.
  intros Hl. unfold header_size in Hl. unfold pseudo_bytes. rewrite !zlen_app, !zlen_zslice by lia.
  rewrite (be_len 2) by (unfold width_ok; set_solver). done.
Qed.

Lemma pseudo_byte Hip len : byte_list Hip → byte_list (pseudo_bytes Hip len).
Proof.
  intros HB. unfold pseudo_bytes. apply Forall_app; split; [by apply byte_slice|].
  apply Forall_app; split; [by apply byte_slice|]. apply Forall_app; split; [repeat constructor; lia|].
  apply Forall_app; split; [by apply byte_slice|]. apply Forall_rev, le_bytes_byte.
Qed.

Lemma runs_tcp_checksum s L Q :
  segment s L → summable s L →
  (∀ r, u16 r = 65535 - norm (wsum (covered s L (tcp_bytes s L))) → r = s16 (u16 r) → Q r s) →
  runs tcp_checksum s Q.
Proof.
  intros Sg [HBi HBt [HB1 HB2] Hlen Hne] HQ. destruct (ip_header _ _ Sg) as (a & w & Hh).
  pose proof (header_len _ _ _ _ Hh) as Hl. unfold header_size in Hl.
  pose proof (br_nonneg _ _ _ (sg_payload _ _ Sg)) as Hn1. pose proof (br_nonneg _ _ _ (sg_data _ _ Sg)) as Hn2.
  destruct (sg_pointers _ _ Sg) as (Ep1 & Ep2 & Ep3). destruct (sg_attached _ _ Sg) as [Ea1 Ea2].
  unfold tcp_checksum. call runs_tcp_check; [exact Sg|]. cbn [negb].
  apply runs_bind, runs_ip_read. eapply runs_header; [exact Hh|done|]. intros i' _ _ _ E. split; [by apply E|]. step.
  apply runs_bind, runs_ip_read. eapply runs_ld; [exact Hh|lia|lia|lia|]. split; [done|].
  apply runs_bind, runs_ip_read. eapply runs_ld; [exact Hh|lia|lia|lia|]. split; [done|].
  apply runs_bind, runs_ip_read. eapply runs_ld; [exact Hh|lia|lia|lia|]. split; [done|].
  apply runs_bind, runs_ip_read. unfold ipv4_get_payload_length. call runs_check; [exact Hh|]. cbn [negb]. step.
  rewrite Ep2. apply runs_vb_read. eapply runs_size; [apply (sg_payload _ _ Sg)|]. split; [done|]. split; [done|].
  unfold tcp_get_payload_length. apply runs_bind. call runs_tcp_check; [exact Sg|]. cbn [negb]. step.
  rewrite Ep3. apply runs_pvb_read. eapply runs_size; [apply (sg_data _ _ Sg)|]. split; [done|].
  fold (tcp_len L). rewrite (pseudo_spec (ip_bytes s L)) by (try done; unfold tcp_len in *; lia).
  set (ps := pseudo_bytes (ip_bytes s L) (tcp_len L)).
  assert (zlen ps = 12) as Eps by (by apply pseudo_len). unfold tcp_len in Hlen.
  assert (byte_list (content (tvb s) ((ly_tcp L, ly_tcpch L) :: ly_tcpcs L))) as HB3 by (by apply Forall_app).
  assert (csum_rep (inet_checksum_partial checksum_partial_init false ps) ps) as R0.
  { apply (partial_spec _ [] false ps rep_init); [intros E0; by rewrite E0 in Eps|by apply pseudo_byte|].
    rewrite Eps. done. }
  unfold ip_payload. apply runs_bind. step. rewrite Ep2. apply runs_bind, runs_pvb_read.
  destruct (sg_size _ _ Sg) as [_ Hsz]. unfold tcp_header_size in Hsz.
  pose proof (br_nonneg _ _ _ (sg_payload _ _ Sg)).
  eapply runs_checksum_buffer; [apply (sg_payload _ _ Sg)|exact HB3| |exact R0|rewrite Eps; unfold max_bytes; lia|].
  { right. rewrite csize_cons. simpl. pose proof (csize_tail (tvb s) _ _ [] ltac:(rewrite app_nil_r; apply (sg_payload _ _ Sg))) as Ht.
    simpl in Ht. lia. }
  intros c1 R1. split; [done|]. step. rewrite Ep3. apply runs_bind, runs_pvb_read.
  eapply runs_checksum_buffer; [apply (sg_data _ _ Sg)|exact HB2|exact Hne|exact R1| |].
  { rewrite zlen_app, Eps, (br_len _ _ _ (sg_payload _ _ Sg)). unfold max_bytes. lia. }
  intros c2 R2. split; [done|]. step.
  assert (ps ++ content (tvb s) ((ly_tcp L, ly_tcpch L) :: ly_tcpcs L) ++ content (tvb s) (ly_cs L) =
    covered s L (tcp_bytes s L)) as Ecov.
  { unfold covered, tail_bytes. rewrite content_cons. unfold tcp_bytes. simpl. by rewrite <- !app_assoc. }
  rewrite <- app_assoc, Ecov in R2.
  assert (zlen (covered s L (tcp_bytes s L)) ≤ max_bytes) as Hm.
  { rewrite <- Ecov, !zlen_app, Eps, (br_len _ _ _ (sg_payload _ _ Sg)), (br_len _ _ _ (sg_data _ _ Sg)). unfold max_bytes. lia. }
  apply HQ; [by apply reduce_spec|]. unfold inet_checksum_reduce. change 65535 with (Z.ones 16).
  rewrite Z.land_ones by lia. by rewrite u16_s16 by (apply Z.mod_pos_bound; lia).
Qed.
End checksum.

(** ** Computing and verifying *)

Section compute.
Implicit Types s : tpstate.

Lemma even_zlen l : Z.even (zlen l) = true → even_len l.
Proof.
  intros [k E]%Z.even_spec. apply Nat.even_spec. exists (Z.to_nat k). unfold zlen in E. lia.
Qed.

(** A word at an even offset of the covered bytes is a term of the sum. *)
Lemma covered_put s L H off a b :
  header_size ≤ zlen (ip_bytes s L) → 0 ≤ off → off + 2 ≤ zlen H → Z.even off = true →
  wsum (covered s L (zput off [a; b] H)) = wsum (covered s L (zput off [0; 0] H)) + word a b.
Proof.
  intros Hip Ho Hl He. unfold covered. set (ps := pseudo_bytes _ _). assert (zlen ps = 12) as Eps by (by apply pseudo_len).
  assert (∀ x y, ps ++ zput off [x; y] H ++ tail_bytes s L = (ps ++ ztake off H) ++ [x; y] ++ zdrop (off + 2) H ++ tail_bytes s L) as E.
  { intros x y. unfold zput. change (zlen [x; y]) with 2. by rewrite <- !app_assoc. }
  assert (even_len (ps ++ ztake off H)) as Hev.
  { apply even_zlen. rewrite zlen_app, Eps, zlen_ztake, Z.even_add, He by lia. done. }
  rewrite !E, !(wsum_app (ps ++ ztake off H)) by done. simpl. unfold word. lia.
Qed.

Lemma covered_byte s L H : summable s L → byte_list H → byte_list (covered s L H).
Proof.
  intros [HBi _ [H1 H2] _ _] HB. apply Forall_app; split; [by apply pseudo_byte|]. apply Forall_app; split; [done|].
  by apply Forall_app.
Qed.

(** What a store keeps. *)
Lemma stored_len s L H s' L' : stored s L H s' L' → tcp_len L' = tcp_len L.
Proof.
  intros St. destruct (so_layout _ _ _ _ _ St) as (ch & -> & P). unfold tcp_len. simpl. rewrite !csize_cons. simpl.
  by destruct (po_chunk _ _ _ _ _ _ P) as [->| ->].
Qed.

Lemma stored_covered s L H s' L' K : stored s L H s' L' → covered s' L' K = covered s L K.
Proof.
  intros St. unfold covered. by rewrite (so_ip _ _ _ _ _ St), (so_tail _ _ _ _ _ St), (stored_len _ _ _ _ _ St).
Qed.

Lemma stored_summable s L H s' L' : segment s L → stored s L H s' L' → byte_list H → summable s L → summable s' L'.
Proof.
  intros Sg St HB [HBi HBt [H1 H2] Hl Hd]. pose proof (stored_len _ _ _ _ _ St) as El. split.
  - by rewrite (so_ip _ _ _ _ _ St).
  - by rewrite (so_bytes _ _ _ _ _ St).
  - assert (byte_list (tail_bytes s' L')) as HB' by (rewrite (so_tail _ _ _ _ _ St); by apply Forall_app).
    by apply Forall_app in HB'.
  - by rewrite El.
  - by destruct (so_layout _ _ _ _ _ St) as (ch & -> & _).
Qed.

Lemma stored_writable s L H s' L' : stored s L H s' L' →
  fl_writable (ch_flags (ly_tcpch L')) = fl_writable (ch_flags (ly_tcpch L)).
Proof. intros St. destruct (so_layout _ _ _ _ _ St) as (ch & -> & P). by destruct (po_chunk _ _ _ _ _ _ P) as [->| ->]. Qed.

Lemma runs_tcp_verify s L Q :
  segment s L → summable s L → norm (wsum (covered s L (tcp_bytes s L))) = 65535 → Q true s →
  runs tcp_verify_checksum s Q.
Proof.
  intros Sg Su Hz HQ. unfold tcp_verify_checksum. call runs_tcp_check; [exact Sg|]. cbn [negb].
  call runs_tcp_checksum; [exact Sg|exact Su|]. intros r Er E. step.
  rewrite bool_decide_true; [done|]. rewrite E, Er, Hz. done.
Qed.

(** The checksum that is stored makes the sum of the covered bytes zero. *)
Lemma covered_checksum s L H c :
  summable s L → header_size ≤ zlen (ip_bytes s L) → byte_list H → 18 ≤ zlen H →
  0 ≤ c → c = 65535 - norm (wsum (covered s L (zput 16 [0; 0] H))) →
  norm (wsum (covered s L (zput 16 [u8 c; u8 (Z.shiftr c 8)] H))) = 65535.
Proof.
  intros Su Hip HB Hl Hc Ec.
  assert (byte_list (covered s L (zput 16 [0; 0] H))) as HB0.
  { apply covered_byte; [done|]. apply byte_put; [repeat constructor; lia|done]. }
  assert (byte_list (covered s L (zput 16 [u8 c; u8 (Z.shiftr c 8)] H))) as HB1.
  { apply covered_byte; [done|]. apply byte_put; [apply (le_bytes_byte 2)|done]. }
  pose proof (wsum_nonneg _ HB0) as W0. pose proof (wsum_nonneg _ HB1) as W1.
  apply (norm_complement (wsum (covered s L (zput 16 [0; 0] H)))); [done|done|].
  pose proof (norm_range _ W0) as [? _].
  rewrite covered_put by (done || lia). rewrite word_bytes by lia. rewrite Ec. apply eqn_refl. rewrite <- Ec. lia.
Qed.
End compute.

(** ** The claims *)

(** C37 [tcp_checksum]: for a segment of at most 64000 bytes, in any number of chunks
    and at any addresses, the code computes the complement of the one's complement
    sum of the pseudo header (addresses, protocol and length), the tcp header and
    the data; nothing changes. *)
Theorem tcp_checksum_correct s L :
  segment s L → summable s L →
  runs tcp_checksum s (λ r s', s' = s ∧
    u16 r = 65535 - norm (wsum (pseudo_bytes (ip_bytes s L) (tcp_len L) ++ tcp_bytes s L ++ tail_bytes s L))).
Proof. intros Sg Su. eapply runs_tcp_checksum; [exact Sg|exact Su|]. intros r Er _. by split. Qed.

(** C40 On a segment of at most 64000 bytes whose tcp header lies in the first chunk of the ip
    payload, a chunk that is writable and shares no memory with the others,
    [tcp_compute_checksum] stores a checksum that [tcp_verify_checksum] accepts, changes only
    the two bytes of the checksum in all three buffers, and clears the flag that marks it
    invalid. *)
Theorem tcp_checksum_roundtrip s L :
  segment s L → summable s L → fl_writable (ch_flags (ly_tcpch L)) = true →
  runs tcp_compute_checksum s (λ _ s',
    (∃ L' b0 b1, stored s L (zput 16 [b0; b1] (tcp_bytes s L)) s' L') ∧
    tcp_invalid_checksum (tp_tcp s') = false ∧ runs tcp_verify_checksum s' (λ r s'', r = true ∧ s'' = s')).
Proof.
  intros Sg Su Hw. destruct (sg_size _ _ Sg) as [Hs1 Hs2]. unfold tcp_header_size in Hs2. pose proof (sg_len _ _ Sg) as El.
  assert (header_size ≤ zlen (ip_bytes s L)) as Hip by (destruct (ip_header _ _ Sg) as (? & ? & Hh); by eapply header_len).
  unfold tcp_compute_checksum. call runs_tcp_check; [exact Sg|]. cbn [negb].
  call runs_tcp_header; [exact Sg|done|]. intros a s1 L1 Ha1 St1 _ _. pose proof (so_segment _ _ _ _ _ St1) as Sg1.
  rewrite <- (so_bytes _ _ _ _ _ St1) in El.
  call runs_tcp_st; [exact Sg1|exact Ha1|lia|lia|lia|]. intros s2 L2 Ha2 St2 _ _.
  pose proof (stored_trans _ _ _ _ _ _ _ _ St1 St2) as St. rewrite (so_bytes _ _ _ _ _ St1) in El, St.
  set (H := tcp_bytes s L) in *. change (le_bytes (Z.to_nat 2) 0) with [0; 0] in St.
  assert (byte_list (zput 16 [0; 0] H)) as HB0 by (apply byte_put; [repeat constructor; lia|apply (su_tcp _ _ Su)]).
  pose proof (so_segment _ _ _ _ _ St) as Sg2. pose proof (stored_summable _ _ _ _ _ Sg St HB0 Su) as Su2.
  call runs_tcp_checksum; [exact Sg2|exact Su2|]. intros c Ec _.
  rewrite (so_bytes _ _ _ _ _ St), (stored_covered _ _ _ _ _ _ St) in Ec.
  assert (zlen (zput 16 [0; 0] H) = zlen H) as El0 by (apply zlen_zput; [lia|change (zlen [0; 0]) with 2; lia]).
  call runs_tcp_st; [exact Sg2|exact Ha2|lia|lia|rewrite (so_bytes _ _ _ _ _ St); lia|]. intros s3 L3 Ha3 St3 _ _.
  change (le_bytes (Z.to_nat 2) (u16 c)) with [u8 (u16 c); u8 (Z.shiftr (u16 c) 8)] in St3.
  set (bs := [u8 (u16 c); u8 (Z.shiftr (u16 c) 8)]) in *.
  rewrite (so_bytes _ _ _ _ _ St), zput_zput in St3 by (done || (change (zlen [0; 0]) with 2; lia)).
  pose proof (stored_trans _ _ _ _ _ _ _ _ St St3) as St4. unfold upd_tcp. step.
  assert (stored s L (zput 16 bs H) (set_tcp (set_tcp_invalid false (tp_tcp s3)) s3) L3) as St5.
  { pose proof St4 as [S4 Lay By Ib Tb Pk [b Et]]. split; try done; [|exists false; simpl; by rewrite Et].
    destruct S4 as [A1 [A2 A3] (A4 & A5 & A6) ? ? ? ? ? ? ?]. split; done. }
  split_and!; [by eauto|done|].
  assert (byte_list (zput 16 bs H)) as HB1 by (apply byte_put; [apply (le_bytes_byte 2 (u16 c))|apply (su_tcp _ _ Su)]).
  eapply runs_tcp_verify; [apply (so_segment _ _ _ _ _ St5)|eapply stored_summable; [exact Sg|exact St5|done|done]| |done].
  rewrite (so_bytes _ _ _ _ _ St5), (stored_covered _ _ _ _ _ _ St5).
  apply covered_checksum; [done|done|apply (su_tcp _ _ Su)|lia|apply u16_range|done].
Qed.

(** ** Witnesses *)

(** An ip packet of 46 bytes with a segment of six bytes and two bytes of padding. *)
Definition ex_segment_bytes : list Z :=
  [69; 0; 0; 46; 0; 1; 64; 0; 64; 6; 0; 0; 10; 0; 0; 1; 10; 0; 0; 2;
   0; 80; 0; 81; 0; 0; 0; 1; 0; 0; 0; 2; 80; 25; 0; 9; 0; 0; 0; 0; 1; 2; 3; 4; 5; 6; 99; 99].
Definition ex_tcp_received (bytes : list Z) : tpstate :=
  TPS (IPS (run (vbuffer_create_from bytes) (empty_state 40)) (Packet 1 (Some 3%positive) None false)
    (Ipv4 false vbuffer_iterator_init None false false false) []) (Tcp false None vbuffer_iterator_init false false).
Definition run_tcp {A} (m : PM A) (s : tpstate) : tpstate := default s (snd <$> m s).
Definition ex_tcp : tpstate := run_tcp (_ ← ip ipv4_dissect; tcp_dissect) (ex_tcp_received ex_segment_bytes).

Definition ctl_seg (d : loc) : vbuffer_chunk := Chunk 1 (Flags false false false true true) (Some d) 0 0.
Definition ex_tcp_layout : layout :=
  Layout 3 2 (Chunk 1 plain (Some 1%positive) 0 20) [(9%positive, ctl_seg 8); (5%positive, Chunk 1 plain (Some 1%positive) 46 2)]
    7 6 (Chunk 1 plain (Some 1%positive) 20 20) [(14%positive, ctl_seg 13)]
    12 [(11%positive, Chunk 1 plain (Some 1%positive) 40 6)].

Lemma ex_tcp_segment : segment ex_tcp ex_tcp_layout.
Proof.
  unfold ex_tcp_layout, ctl_seg. split; cbn [ly_packet ly_ip ly_ipch ly_ipcs ly_payload ly_tcp ly_tcpch ly_tcpcs ly_data ly_cs app].
  - apply heap_check_ok. vm_compute. reflexivity.
  - vm_compute. done.
  - vm_compute. done.
  - concrete_rep.
  - concrete_rep.
  - concrete_rep.
  - done.
  - done.
  - vm_compute. by split.
  - intros y Hy. repeat (apply elem_of_cons in Hy as [->|Hy]; [unfold apart; simpl; intuition (try congruence || lia)|]).
    by apply elem_of_nil in Hy.
Qed.

Lemma ex_tcp_summable : summable ex_tcp ex_tcp_layout.
Proof.
  split.
  - apply (bool_decide_unpack _). vm_compute. exact I.
  - apply (bool_decide_unpack _). vm_compute. exact I.
  - split; apply (bool_decide_unpack _); vm_compute; exact I.
  - vm_compute. discriminate.
  - right. vm_compute. reflexivity.
Qed.

Lemma tcp_checksum_correct_witness : runs tcp_checksum ex_tcp (λ r _, u16 r = 2706).
Proof.
  eapply runs_mono; [apply (tcp_checksum_correct ex_tcp ex_tcp_layout ex_tcp_segment ex_tcp_summable)|].
  intros r s' [_ ->]. vm_compute. reflexivity.
Defined.

Lemma tcp_checksum_roundtrip_witness :
  runs tcp_compute_checksum ex_tcp (λ _ s', runs tcp_verify_checksum s' (λ r s'', r = true ∧ s'' = s')).
Proof.
  eapply runs_mono; [apply (tcp_checksum_roundtrip ex_tcp ex_tcp_layout ex_tcp_segment ex_tcp_summable)|].
  - reflexivity.
  - by intros _ s' (_ & _ & H).
Defined.
