(* ===== verification/Ipv4Frag.v ===== *)
(** * Reassembly of IPv4 fragments (modules/protocol/ipv4/ipv4.c)

    The fragments of one datagram wait in a list2 list sorted by offset, linked
    through the [frag_list] member of their [struct ipv4]; the list is that of
    List2, a fragment is what the header accessors and the payload of a packet
    give ([ipv4_get_frag_offset], [ipv4_get_len], ...). Dropping and releasing a
    packet are recorded in order; a released fragment is no longer readable.

    The hash table that finds the list of a datagram is not modelled: the key it
    is given lives on the stack of [ipv4_frag_table_insert]. *)

From S2P Require Import Prelude List2.

(** ** Data *)

Record frag := Frag {
  fr_src : Z;
  fr_dst : Z;
  fr_id : Z;
  fr_offset : Z;
  fr_mf : bool;
  fr_len : Z;
  fr_hdr_len : Z;
  fr_payload : list Z;
}.

#[export] Instance frag_eq_dec : EqDecision frag.
Proof. solve_decision. Defined.

Inductive frag_event := Alerted (p : loc) (message : string) | Dropped (p : loc) | Released (p : loc).

(** [fs_stream]: the payloads pushed to [reassembled_payload], in order. *)
Record fragstate := FS {
  fs_links : lmem;
  fs_frags : gmap loc frag;
  fs_log : list frag_event;
  fs_stream : list (list Z);
}.

Abbreviation FM := (M fragstate).

Definition set_flinks (l : lmem) (s : fragstate) : fragstate :=
  FS l (fs_frags s) (fs_log s) (fs_stream s).
Definition flnk {A} (m : M lmem A) : FM A := zoom fs_links set_flinks m.
Definition rd_frag (p : loc) : FM frag := o ← gets (λ s, fs_frags s !! p); deref o.
Definition log (e : frag_event) : FM unit :=
  modify (λ s, FS (fs_links s) (fs_frags s) (fs_log s ++ [e]) (fs_stream s)).

(** ** Packets *)

Definition frag_alert (p : loc) : FM unit := log (Alerted p "invalid ipv4 fragment").
Definition frag_drop (p : loc) : FM unit := _ ← rd_frag p; log (Dropped p).
Definition frag_release (p : loc) : FM unit :=
  _ ← rd_frag p;
  modify (λ s, FS (fs_links s) (delete p (fs_frags s)) (fs_log s ++ [Released p]) (fs_stream s)).

(** ** Completeness of the list *)

(** The loop; [None] when it reaches the end of the list. *)
Fixpoint missing_loop (fuel : nat) (end_ iter : loc) (last_offset : Z) : FM (option bool) :=
  if bool_decide (iter = end_) then ret None else
  match fuel with
  | O => stuck
  | S fuel =>
      cur ← rd_frag iter;
      let curlen := fr_len cur - fr_hdr_len cur in
      c_assert (bool_decide (0 ≤ curlen));;
      if bool_decide (fr_offset cur > last_offset) then ret (Some false) else
      let last_offset := fr_offset cur + curlen in
      if negb (fr_mf cur) then ret (Some true) else
      n ← flnk (list2_next iter);
      n ← deref n;
      missing_loop fuel end_ n last_offset
  end.

Definition frag_fuel : FM nat := gets (λ s, S (size (fs_frags s))).

Definition ipv4_frag_check_missing_fragments (elem : loc) : FM bool :=
  let end_ := list2_end elem in
  b ← flnk (list2_begin elem);
  b ← deref b;
  fuel ← frag_fuel;
  r ← missing_loop fuel end_ b 0;
  match r with
  | Some r => ret r
  | None =>
      p ← flnk (list2_prev end_);
      p ← deref p;
      last ← rd_frag p;
      ret (negb (fr_mf last))
  end.

(** ** Insertion *)

(** All packets from [iter] on are incorrect. *)
Fixpoint purge_loop (fuel : nat) (end_ iter : loc) : FM unit :=
  if bool_decide (iter = end_) then skip else
  match fuel with
  | O => stuck
  | S fuel =>
      n ← flnk (list2_erase iter);
      n ← deref n;
      frag_alert iter;;
      frag_drop iter;;
      frag_release iter;;
      purge_loop fuel end_ n
  end.

(** The loop that looks for the place of [pkt]: true when it was inserted. *)
Fixpoint insert_loop (fuel : nat) (end_ iter pkt : loc) : FM bool :=
  if bool_decide (iter = end_) then ret false else
  match fuel with
  | O => stuck
  | S fuel =>
      cur ← rd_frag iter;
      p ← rd_frag pkt;
      c_assert (bool_decide (fr_src cur = fr_src p));;
      c_assert (bool_decide (fr_dst cur = fr_dst p));;
      c_assert (bool_decide (fr_id cur = fr_id p));;
      if bool_decide (fr_offset p ≤ fr_offset cur) then
        _ ← flnk (list2_insert iter pkt);
        (if negb (fr_mf p) then fuel ← frag_fuel; purge_loop fuel end_ iter else skip);;
        ret true
      else
        n ← flnk (list2_next iter);
        n ← deref n;
        insert_loop fuel end_ n pkt
  end.

Definition ipv4_frag_insert (elem pkt : loc) : FM bool :=
  let end_ := list2_end elem in
  empty ← flnk (list2_empty elem);
  if empty : bool then
    _ ← flnk (list2_insert end_ pkt); ret false
  else
    b ← flnk (list2_begin elem);
    b ← deref b;
    fuel ← frag_fuel;
    added ← insert_loop fuel end_ b pkt;
    let check := ipv4_frag_check_missing_fragments elem in
    if added : bool then check else
    l ← flnk (list2_prev end_);
    l ← deref l;
    last ← rd_frag l;
    if negb (fr_mf last) then
      frag_alert pkt;; frag_drop pkt;; frag_release pkt;; ret false
    else
      _ ← flnk (list2_insert end_ pkt); check.

(** ** Reassembly *)

Definition stream_push (data : list Z) : FM unit :=
  modify (λ s, FS (fs_links s) (fs_frags s) (fs_log s) (fs_stream s ++ [data])).

(** The loop of [ipv4_reassemble] that builds the payload. [curlen] is the size
    of the payload before the overlapping part is erased. *)
Fixpoint reassemble_loop (fuel : nat) (end_ iter : loc) (offset : Z) : FM unit :=
  if bool_decide (iter = end_) then skip else
  match fuel with
  | O => stuck
  | S fuel =>
      cur ← rd_frag iter;
      let curoff := fr_offset cur in
      let curlen := zlen (fr_payload cur) in
      c_assert (bool_decide (curoff ≤ offset));;
      if bool_decide (curoff ≠ offset) && bool_decide (curoff + curlen ≤ offset) then
        frag_drop iter;;
        n ← flnk (list2_erase iter);
        n ← deref n;
        frag_release iter;;
        reassemble_loop fuel end_ n offset
      else
        (if bool_decide (curoff = offset) then stream_push (fr_payload cur)
         else stream_push (zdrop (offset - curoff) (fr_payload cur)));;
        n ← flnk (list2_erase iter);
        n ← deref n;
        reassemble_loop fuel end_ n (offset + curlen)
  end.

(** The part of [ipv4_reassemble] behind the insertion, once the list of the datagram is
    complete: the payload of the loop. The pushes to the stream are taken to succeed; the
    removal of the list from the table is not modelled. *)
Definition ipv4_reassemble (elem : loc) : FM (list Z) :=
  b ← flnk (list2_begin elem);
  b ← deref b;
  fuel ← frag_fuel;
  reassemble_loop fuel (list2_end elem) b 0;;
  gets (λ s, concat (fs_stream s)).
