(* ===== verification/Ipv4FragSpec.v ===== *)
(** * Properties of the reassembly of fragments

    The list of a datagram stays sorted by offset with at most its last fragment
    without the more-fragments flag, whatever the order of arrival; a list that is
    declared complete covers every byte up to its end; fragments that follow each
    other are reassembled to the concatenation of their payloads. *)

From stdpp Require Import sorting.
From S2P Require Import Prelude List2 Ipv4Frag.

Abbreviation fseg := (positive * frag)%type.

(** ** The list of a datagram *)

Record frags_at (s : fragstate) (hd : loc) (xs : list fseg) : Prop := {
  fa_list : dlist (fs_links s) hd xs.*1;
  fa_frags : ∀ p f, (p, f) ∈ xs → fs_frags s !! p = Some f;
}.

Definition purge_log (l : list loc) : list frag_event :=
  concat ((λ p, [Alerted p "invalid ipv4 fragment"; Dropped p; Released p]) <$> l).

Definition same_key (f g : frag) : Prop := fr_src f = fr_src g ∧ fr_dst f = fr_dst g ∧ fr_id f = fr_id g.

(** A fragment with a payload, not linked. *)
Definition loose (s : fragstate) (p : loc) (f : frag) : Prop :=
  fs_links s !! p = Some (Elem None None) ∧ fs_frags s !! p = Some f.

Definition curlen (f : frag) : Z := fr_len f - fr_hdr_len f.

Section walks.
Implicit Types s : fragstate.

Lemma runs_rd_frag s p f Q : fs_frags s !! p = Some f → Q f s → runs (rd_frag p) s Q.
Proof. intros H HQ. unfold rd_frag. step. rewrite H. by step. Qed.

Lemma runs_flnk_read {A} (m : M lmem A) s Q :
  runs m (fs_links s) (λ a l, l = fs_links s ∧ Q a s) → runs (flnk m) s Q.
Proof.
  intros H. unfold flnk. step. eapply runs_mono; [exact H|]. intros a l [-> HQ]. by destruct s.
Qed.

Lemma runs_flnk {A} (m : M lmem A) s P Q :
  runs m (fs_links s) P → (∀ a l, P a l → Q a (set_flinks l s)) → runs (flnk m) s Q.
Proof. intros H HQ. unfold flnk. step. eapply runs_mono; [exact H|]. exact HQ. Qed.

Lemma fa_fuel s hd xs : frags_at s hd xs → (length xs ≤ size (fs_frags s))%nat.
Proof.
  intros [Hd Hf]. pose proof (dlist_nodup _ _ _ Hd) as [_ Hnd]%NoDup_cons.
  rewrite <- size_dom, <- (length_fmap fst xs).
  rewrite <- (size_list_to_set (C:=gset loc)) by done. apply subseteq_size.
  intros x Hx%elem_of_list_to_set. apply elem_of_dom.
  apply list_elem_of_fmap in Hx as ([c ch] & -> & Hi). simpl. rewrite (Hf _ _ Hi). eauto.
Qed.

Lemma fa_at s hd l1 p f l2 : frags_at s hd (l1 ++ (p, f) :: l2) → fs_frags s !! p = Some f.
Proof. intros [_ H]. apply H. apply elem_of_app. right. by left. Qed.

Lemma fa_next s hd l1 p f l2 Q :
  frags_at s hd (l1 ++ (p, f) :: l2) → Q (Some (at_head hd l2.*1)) s → runs (flnk (list2_next p)) s Q.
Proof.
  intros [H _] HQ. apply runs_flnk_read. rewrite fmap_app, fmap_cons in H. simpl in H.
  eapply runs_list2_next; [by eapply dlist_next|]. done.
Qed.

Lemma fa_head_ne s hd l1 p f l2 : frags_at s hd (l1 ++ (p, f) :: l2) → p ≠ hd.
Proof.
  intros [H _] ->. apply dlist_nodup in H. apply NoDup_cons in H as [H _]. apply H.
  rewrite fmap_app, fmap_cons. set_solver.
Qed.

Lemma runs_frag_begin s hd xs Q :
  frags_at s hd xs → Q (Some (at_head hd xs.*1)) s → runs (flnk (list2_begin hd)) s Q.
Proof.
  intros [H _] HQ. apply runs_flnk_read. eapply (runs_list2_next _ hd); [by eapply dlist_begin|]. done.
Qed.

Lemma runs_frag_last s hd xs Q :
  frags_at s hd xs → Q (Some (at_last hd xs.*1)) s → runs (flnk (list2_prev (list2_end hd))) s Q.
Proof.
  intros [H _] HQ. apply runs_flnk_read. eapply runs_list2_prev; [by eapply dlist_end|]. done.
Qed.
End walks.

(** ** Completeness *)

(** The test of the code on a sequence of fragments: [None] at the end. *)
Fixpoint gapless (last : Z) (fs : list frag) : option bool :=
  match fs with
  | [] => None
  | f :: fs =>
      if bool_decide (fr_offset f > last) then Some false
      else if negb (fr_mf f) then Some true
      else gapless (fr_offset f + curlen f) fs
  end.

(** Every byte of [a, b) is in a fragment. *)
Definition covers (fs : list frag) (a b : Z) : Prop :=
  ∀ k, a ≤ k < b → ∃ f, f ∈ fs ∧ fr_offset f ≤ k < fr_offset f + curlen f.

Section complete.
Implicit Types s : fragstate.

Lemma gapless_covers fs : ∀ last, gapless last fs = Some true →
  ∃ f, f ∈ fs ∧ fr_mf f = false ∧ covers fs last (fr_offset f + curlen f).
Proof.
  induction fs as [|f fs IH]; intros last; simpl; [done|]. case_bool_decide as Ho; [done|].
  destruct (fr_mf f) eqn:Em; simpl.
  - intros (g & Hg & Hm & Hc)%IH. exists g. split_and!; [by right|done|]. intros k Hk.
    destruct (decide (fr_offset f + curlen f ≤ k)) as [Hf|Hf].
    + destruct (Hc k) as (h & Hh & Hkh); [lia|]. exists h. split; [by right|done].
    + exists f. split; [by left|lia].
  - intros _. exists f. split_and!; [by left|done|]. intros k Hk. exists f. split; [by left|lia].
Qed.

Lemma gapless_end fs last : gapless last fs = None → Forall (λ f, fr_mf f = true) fs.
Proof.
  revert last. induction fs as [|f fs IH]; intros last; simpl; [constructor|].
  case_bool_decide; [done|]. destruct (fr_mf f) eqn:Em; simpl; [|done]. intros ?%IH. by constructor.
Qed.

Lemma missing_spec s hd l2 : ∀ l1 fuel last Q,
  frags_at s hd (l1 ++ l2) → Forall (λ x : fseg, 0 ≤ curlen x.2) l2 → (length l2 ≤ fuel)%nat →
  Q (gapless last l2.*2) s → runs (missing_loop fuel hd (at_head hd l2.*1) last) s Q.
Proof.
  induction l2 as [|[p f] l2 IH]; intros l1 fuel last Q H Hc Hf HQ.
  - destruct fuel; simpl; rewrite bool_decide_true by done; by step.
  - apply Forall_cons in Hc as [Hc1 Hc]. simpl in Hc1. destruct fuel as [|fuel]; [simpl in Hf; lia|].
    cbn [missing_loop]. rewrite bool_decide_false by (simpl; by eapply fa_head_ne). rewrite fmap_cons.
    simpl at_head.
    call runs_rd_frag; [by eapply fa_at|]. step; [by apply bool_decide_true|].
    rewrite fmap_cons in HQ. cbn [gapless snd] in HQ. case_test as Ho.
    { by step. }
    destruct (fr_mf f) eqn:Em; cbn [negb] in *; [|by step].
    call fa_next; [exact H|]. step. eapply (IH (l1 ++ [(p, f)])).
    + by rewrite <- app_assoc.
    + done.
    + simpl in Hf. lia.
    + exact HQ.
Qed.

Lemma at_last_pair s hd xs x : frags_at s hd (xs ++ [x]) → at_last hd (xs ++ [x]).*1 = x.1.
Proof. intros _. unfold at_last. rewrite fmap_app. cbn. by rewrite last_snoc. Qed.

(** The whole test on a list that is not empty. *)
Lemma runs_check_missing s hd xs Q :
  frags_at s hd xs → xs ≠ [] → Forall (λ x : fseg, 0 ≤ curlen x.2) xs →
  Q (bool_decide (gapless 0 xs.*2 = Some true)) s →
  runs (ipv4_frag_check_missing_fragments hd) s Q.
Proof.
  intros H Hne Hc HQ. unfold ipv4_frag_check_missing_fragments. call runs_frag_begin; [exact H|]. step.
  unfold frag_fuel. step. pose proof (fa_fuel _ _ _ H). call (missing_spec _ _ _ []); [exact H|done|lia|].
  destruct (gapless 0 xs.*2) as [r|] eqn:E; simpl.
  - step. by destruct r.
  - destruct (exists_last Hne) as (l & [p f] & ->). call runs_frag_last; [exact H|]. step.
    rewrite (at_last_pair _ _ _ _ H). simpl. call runs_rd_frag; [by eapply fa_at|]. step.
    apply gapless_end in E. rewrite fmap_app, Forall_app in E. destruct E as [_ E].
    apply Forall_cons in E as [E _]. simpl in E. rewrite E. exact HQ.
Qed.
End complete.

(** ** Insertion *)

(** What the operations leave as it was: the stream, the fragments that are not
    [gone] and the links of the packets other than [linked]. *)
Record frags_frame (gone linked : list loc) (s s' : fragstate) : Prop := {
  ff_stream : fs_stream s' = fs_stream s;
  ff_frags : ∀ p, p ∉ gone → fs_frags s' !! p = fs_frags s !! p;
  ff_links : same_out linked (fs_links s) (fs_links s');
}.

Section insert.
Implicit Types s : fragstate.

Lemma runs_frag_erase s hd l1 p f l2 Q :
  frags_at s hd (l1 ++ (p, f) :: l2) →
  (∀ s', frags_at s' hd (l1 ++ l2) → fs_frags s' = fs_frags s → fs_log s' = fs_log s →
    frags_frame [] (hd :: (l1 ++ (p, f) :: l2).*1) s s' → Q (Some (at_head hd l2.*1)) s') →
  runs (flnk (list2_erase p)) s Q.
Proof.
  intros [H Hf] HQ. rewrite fmap_app, fmap_cons in H. simpl in H. eapply runs_flnk; [by eapply list2_erase_spec|].
  intros r l (-> & Hl & _ & [Ho _]). apply HQ; try done.
  - split; [by rewrite fmap_app|].
    intros q g Hq. apply Hf. apply elem_of_app in Hq as [Hq|Hq]; apply elem_of_app; [by left|]. right. by right.
  - split; try done. rewrite fmap_app, fmap_cons. exact Ho.
Qed.

Lemma runs_frag_insert s hd l1 l2 p f Q :
  frags_at s hd (l1 ++ l2) → loose s p f →
  (∀ s', frags_at s' hd (l1 ++ (p, f) :: l2) → fs_log s' = fs_log s →
    frags_frame [] (hd :: p :: (l1 ++ l2).*1) s s' → Q p s') →
  runs (flnk (list2_insert (at_head hd l2.*1) p)) s Q.
Proof.
  intros [H Hf] [Hp Hpf] HQ. rewrite fmap_app in H. eapply runs_flnk; [by eapply list2_insert_spec|].
  intros r l (-> & Hl & [Ho _]). apply HQ; [|done|by split; try done; rewrite fmap_app].
  split; [by rewrite fmap_app, fmap_cons|]. intros q g Hq. simpl. apply elem_of_app in Hq as [Hq|Hq]; [apply Hf, elem_of_app; by left|].
  apply elem_of_cons in Hq as [[= -> ->]|Hq]; [done|]. apply Hf, elem_of_app. by right.
Qed.

Lemma purge_spec hd l1 l2 : ∀ s fuel Q,
  frags_at s hd (l1 ++ l2) → (length l2 ≤ fuel)%nat →
  (∀ s', frags_at s' hd l1 → fs_log s' = fs_log s ++ purge_log l2.*1 →
    frags_frame l2.*1 (hd :: (l1 ++ l2).*1) s s' → Q tt s') →
  runs (purge_loop fuel hd (at_head hd l2.*1)) s Q.
Proof.
  induction l2 as [|[p f] l2 IH]; intros s fuel Q H Hf HQ.
  - rewrite app_nil_r in H.
    destruct fuel; simpl; rewrite bool_decide_true by done; (unfold skip; step; apply HQ; [done|by rewrite app_nil_r|done]).
  - destruct fuel as [|fuel]; [simpl in Hf; lia|]. cbn [purge_loop]. rewrite fmap_cons. simpl at_head.
    rewrite bool_decide_false by (simpl; by eapply fa_head_ne).
    assert (fs_frags s !! p = Some f) as Hp by (by eapply fa_at).
    assert (p ∉ (l1 ++ l2).*1) as Hni.
    { destruct H as [Hd _]. apply dlist_nodup, NoDup_cons in Hd as [_ Hd]. rewrite fmap_app, fmap_cons in Hd.
      apply NoDup_app in Hd as (_ & Hd1 & Hd2). apply NoDup_cons in Hd2 as [Hd2 _].
      rewrite fmap_app, elem_of_app. simpl in *. intros [Hi|Hi]; [|done]. eapply Hd1; [done|]. by left. }
    call runs_frag_erase; [exact H|]. intros s1 H1 F1 L1 [T1 _ N1]. step.
    unfold frag_alert, frag_drop, frag_release, log. step.
    apply runs_bind. call runs_rd_frag; [simpl; by rewrite F1|]. step.
    apply runs_bind. call runs_rd_frag; [simpl; by rewrite F1|]. step.
    apply IH; [| |].
    + split; simpl; [apply (fa_list _ _ _ H1)|]. intros q g Hq. rewrite lookup_delete_ne; [by apply (fa_frags _ _ _ H1)|].
      intros ->. apply Hni. apply list_elem_of_fmap. by exists (q, g).
    + simpl in Hf. lia.
    + intros s' H' L' [T' F' N']. apply HQ; [done| |].
      * rewrite L'. simpl. rewrite L1. unfold purge_log. rewrite fmap_cons. simpl. by rewrite <- !app_assoc.
      * split; [rewrite T'; simpl; by rewrite T1| |].
        2:{ intros q Hq. rewrite N'; [by apply N1|]. intros Hi. apply Hq. rewrite fmap_app, fmap_cons. rewrite fmap_app in Hi.
            rewrite elem_of_cons, elem_of_app in *. rewrite elem_of_cons. tauto. }
        intros q Hq. rewrite fmap_cons, not_elem_of_cons in Hq.
        destruct Hq as [Hq1 Hq2]. rewrite F' by done. simpl in *. rewrite lookup_delete_ne by congruence. by rewrite F1.
Qed.

Lemma insert_spec s hd p f l2 : ∀ l1 fuel Q,
  frags_at s hd (l1 ++ l2) → loose s p f → Forall (λ x : fseg, same_key x.2 f) l2 → (length l2 ≤ fuel)%nat →
  (∀ a b, l2 = a ++ b → Forall (λ x : fseg, fr_offset x.2 < fr_offset f) a →
    match b with
    | [] => Q false s
    | c :: _ => fr_offset f ≤ fr_offset c.2 → ∀ s',
        let gone := if fr_mf f then [] else b.*1 in
        frags_at s' hd (l1 ++ a ++ (p, f) :: if fr_mf f then b else []) →
        fs_log s' = fs_log s ++ purge_log gone → frags_frame gone (hd :: p :: (l1 ++ l2).*1) s s' → Q true s'
    end) →
  runs (insert_loop fuel hd (at_head hd l2.*1) p) s Q.
Proof.
  induction l2 as [|[c cf] l2 IH]; intros l1 fuel Q H Hp Hk Hf HQ.
  - destruct fuel; simpl; rewrite bool_decide_true by done; step; by apply (HQ [] []).
  - destruct fuel as [|fuel]; [simpl in Hf; lia|]. apply Forall_cons in Hk as [Hk1 Hk].
    cbn [insert_loop]. rewrite fmap_cons. simpl at_head.
    rewrite bool_decide_false by (simpl; by eapply fa_head_ne).
    call runs_rd_frag; [by eapply fa_at|]. call runs_rd_frag; [by apply Hp|].
    destruct Hk1 as (K1 & K2 & K3). simpl in K1, K2, K3.
    step; [by apply bool_decide_true|]. step; [by apply bool_decide_true|]. step; [by apply bool_decide_true|].
    case_test as Ho.
    + apply runs_bind. eapply (runs_frag_insert s hd l1 ((c, cf) :: l2)); [exact H|exact Hp|].
      intros s1 H1 L1 [T1 F1 N1]. specialize (HQ [] ((c, cf) :: l2) eq_refl ltac:(constructor) Ho).
      destruct (fr_mf f) eqn:Em; cbn [negb].
      * unfold skip. step. step. apply HQ; [done| |done].
        rewrite L1. unfold purge_log. by rewrite app_nil_r.
      * unfold frag_fuel. apply runs_bind. step. pose proof (fa_fuel _ _ _ H1) as Hfu.
        rewrite length_app in Hfu. simpl in Hfu.
        eapply (purge_spec hd (l1 ++ [(p, f)]) ((c, cf) :: l2)); [by rewrite <- app_assoc|simpl; lia|].
        intros s2 H2 L2 [T2 F2 N2]. step. apply HQ; [done|by rewrite L2, L1|].
        split; [by rewrite T2| |].
        -- intros q Hq. rewrite F2 by done. apply F1. by apply not_elem_of_nil.
        -- intros q Hq. rewrite N2; [by apply N1|]. intros Hi. apply Hq. rewrite <- app_assoc in Hi.
           rewrite !fmap_app, elem_of_cons, elem_of_app in *. simpl in Hi |- *. rewrite !elem_of_cons in *.
           rewrite elem_of_app, elem_of_cons. tauto.
    + call fa_next; [exact H|]. step. eapply (IH (l1 ++ [(c, cf)])).
      * by rewrite <- app_assoc.
      * done.
      * done.
      * simpl in Hf. lia.
      * intros a b E Ha. specialize (HQ ((c, cf) :: a) b). destruct b as [|x b].
        -- apply HQ; [by rewrite E|]. constructor; [simpl; lia|done].
        -- intros Hx s' gone H' L' F'. rewrite <- app_assoc in H', F'.
           apply HQ; [by rewrite E|constructor; [simpl; lia|done]|done|done|done|done].
Qed.
End insert.

(** [frag_inserted xs p f r xs' gone]: the insertion of [f] in [xs] returns [r],
    leaves the list [xs'] and drops the packets [gone]. *)
Inductive frag_inserted (xs : list fseg) (p : loc) (f : frag) : bool → list fseg → list loc → Prop :=
  | fi_first : xs = [] → frag_inserted xs p f false [(p, f)] []
  | fi_before a c b xs' gone :
      xs = a ++ c :: b → Forall (λ x : fseg, fr_offset x.2 < fr_offset f) a → fr_offset f ≤ fr_offset c.2 →
      xs' = a ++ (p, f) :: (if fr_mf f then c :: b else []) → gone = (if fr_mf f then [] else (c :: b).*1) →
      frag_inserted xs p f (bool_decide (gapless 0 xs'.*2 = Some true)) xs' gone
  | fi_last a l :
      xs = a ++ [l] → Forall (λ x : fseg, fr_offset x.2 < fr_offset f) xs → fr_mf l.2 = true →
      frag_inserted xs p f (bool_decide (gapless 0 (xs ++ [(p, f)]).*2 = Some true)) (xs ++ [(p, f)]) []
  | fi_refused a l :
      xs = a ++ [l] → Forall (λ x : fseg, fr_offset x.2 < fr_offset f) xs → fr_mf l.2 = false →
      frag_inserted xs p f false xs [p].

Lemma runs_frag_add s hd xs p f :
  frags_at s hd xs → loose s p f → Forall (λ x : fseg, same_key x.2 f) xs →
  Forall (λ x : fseg, 0 ≤ curlen x.2) ((p, f) :: xs) →
  runs (ipv4_frag_insert hd p) s (λ r s', ∃ xs' gone,
    frag_inserted xs p f r xs' gone ∧ frags_at s' hd xs' ∧ fs_log s' = fs_log s ++ purge_log gone ∧
    frags_frame gone (hd :: p :: xs.*1) s s').
Proof.
  intros H Hp Hk Hc. apply Forall_cons in Hc as [Hcf Hc]. unfold ipv4_frag_insert.
  apply runs_bind, runs_flnk_read. eapply runs_mono; [eapply list2_empty_spec, (fa_list _ _ _ H)|].
  intros e l [-> ->]. split; [done|]. case_test as Hxs.
  { apply fmap_nil_inv in Hxs as ->. apply runs_bind. eapply (runs_frag_insert s hd [] []); [exact H|exact Hp|].
    intros s' H' L' F'. step. exists [(p, f)], []. split_and!; [by apply fi_first|done| |done].
    rewrite L'. unfold purge_log. by rewrite app_nil_r. }
  assert (xs ≠ []) as Hne by (by intros ->). clear Hxs.
  call runs_frag_begin; [exact H|]. step. unfold frag_fuel. step. pose proof (fa_fuel _ _ _ H) as Hf.
  apply runs_bind. eapply (insert_spec s hd p f xs []); [exact H|exact Hp|exact Hk|lia|].
  intros a b E Ha. destruct b as [|c b].
  - rewrite app_nil_r in E. subst a. destruct (exists_last Hne) as (l & [q g] & El). rewrite El in H.
    call runs_frag_last; [exact H|]. step. rewrite (at_last_pair _ _ _ _ H). simpl.
    call runs_rd_frag; [by eapply fa_at|]. rewrite <- El in H. destruct (fr_mf g) eqn:Eg; cbn [negb].
    + apply runs_bind. eapply (runs_frag_insert s hd xs []); [by rewrite app_nil_r|exact Hp|].
      intros s' H' L' F'. rewrite app_nil_r in F'.
      eapply runs_check_missing; [exact H'|by destruct xs|apply Forall_app; split; [done|by constructor]|].
      exists (xs ++ [(p, f)]), []. split_and!; [by eapply fi_last|done| |done].
      rewrite L'. unfold purge_log. by rewrite app_nil_r.
    + unfold frag_alert, frag_drop, frag_release, log. destruct Hp as [Hp1 Hp2].
      step. apply runs_bind. call runs_rd_frag; [exact Hp2|]. step.
      apply runs_bind. call runs_rd_frag; [exact Hp2|]. step. step.
      assert (p ∉ hd :: xs.*1) as Hni by (eapply dlist_not_in; [apply (fa_list _ _ _ H)|exact Hp1]).
      exists xs, [p]. split_and!; [by eapply fi_refused| |simpl; by rewrite <- !app_assoc|].
      * split; [apply (fa_list _ _ _ H)|]. intros r h Hr. simpl. rewrite lookup_delete_ne; [by apply (fa_frags _ _ _ H)|].
        intros ->. apply Hni. right. apply list_elem_of_fmap. by exists (r, h).
      * split; try done. intros r Hr. simpl. apply lookup_delete_ne. set_solver.
  - intros Ho s' gone H' L' F'. simpl in H'.
    eapply runs_check_missing; [exact H'|by destruct a| |].
    { rewrite E in Hc. apply Forall_app in Hc as [Hc1 Hc2]. apply Forall_app. split; [done|].
      constructor; [done|]. by destruct (fr_mf f). }
    eexists _, gone. split_and!; [by eapply fi_before|exact H'|exact L'|exact F'].
Qed.

(** ** The invariant of the list *)

(** [f] may come before [g]: a smaller or equal offset, and more fragments. *)
Definition before (f g : frag) : Prop := fr_offset f ≤ fr_offset g ∧ fr_mf f = true.
Abbreviation ordered := (StronglySorted before) (only parsing).

(** The fragments follow each other without gap or overlap from [a] on. *)
Fixpoint contiguous (a : Z) (fs : list frag) : Prop :=
  match fs with
  | [] => True
  | f :: fs => fr_offset f = a ∧ contiguous (a + curlen f) fs
  end.

Section ordered.
Lemma ordered_app fs gs :
  ordered (fs ++ gs) ↔ ordered fs ∧ ordered gs ∧ ∀ f g, f ∈ fs → g ∈ gs → before f g.
Proof.
  rewrite StronglySorted_app. naive_solver.
Qed.

Lemma ordered_last fs f : ordered fs → f ∈ fs → fr_mf f = false → last fs = Some f.
Proof.
  intros Ho Hi Hm. apply list_elem_of_split in Hi as (l1 & l2 & ->).
  destruct l2 as [|g l2]; [by rewrite last_snoc|]. exfalso.
  apply ordered_app in Ho as (_ & Ho & _). inversion_clear Ho as [|?? _ H2].
  apply Forall_cons in H2 as [[_ Hf] _]. congruence.
Qed.

Lemma inserted_ordered xs p f r xs' gone :
  frag_inserted xs p f r xs' gone → ordered xs.*2 → ordered xs'.*2.
Proof.
  destruct 1 as [->|a c b xs' gone -> Ha Hc -> ->|a l -> Ha Hl|]; intros Ho; [by repeat constructor| | |done].
  - rewrite fmap_app, fmap_cons in Ho |- *. apply ordered_app in Ho as (O1 & O2 & O3). apply ordered_app.
    assert (∀ x, x ∈ a.*2 → before x f) as Hb.
    { intros x Hx. apply list_elem_of_fmap in Hx as ([q g] & -> & Hq). rewrite Forall_forall in Ha.
      specialize (Ha _ Hq). split; [simpl in *; lia|]. apply (O3 g c.2); [|by left].
      apply list_elem_of_fmap. by exists (q, g). }
    simpl (_.2). split_and!; [done| |].
    + constructor; [by destruct (fr_mf f); [|constructor]|]. destruct (fr_mf f) eqn:Em; [|constructor].
      rewrite fmap_cons. constructor; [done|]. inversion_clear O2 as [|?? _ O4].
      eapply Forall_impl; [exact O4|]. intros g [Hg _]. split; [lia|done].
    + intros x y Hx Hy. apply elem_of_cons in Hy as [->|Hy]; [by apply Hb|].
      destruct (fr_mf f); [|by inversion Hy]. by apply O3.
  - rewrite fmap_app in Ho |- *. rewrite fmap_app. apply ordered_app. split_and!; [done|by repeat constructor|].
    intros x y Hx Hy%list_elem_of_singleton. subst y. simpl.
    apply ordered_app in Ho as (_ & _ & O3). rewrite Forall_app in Ha. destruct Ha as [Ha1 Ha2].
    apply elem_of_app in Hx as [Hx|Hx].
    + destruct (O3 x l.2 Hx) as [_ Hm]; [by left|]. split; [|done].
      apply list_elem_of_fmap in Hx as ([q g] & -> & Hq). rewrite Forall_forall in Ha1. specialize (Ha1 _ Hq).
      simpl in *. lia.
    + apply list_elem_of_singleton in Hx as ->. apply Forall_cons in Ha2 as [Ha2 _]. split; [lia|done].
Qed.

Lemma contiguous_gapless fs g : ∀ a,
  ordered fs → contiguous a fs → last fs = Some g → fr_mf g = false → gapless a fs = Some true.
Proof.
  induction fs as [|f fs IH]; intros a Ho Hc Hl Hg; [done|]. destruct Hc as [Hf Hc]. simpl.
  rewrite bool_decide_false by lia. inversion_clear Ho as [|?? Ho' Hb]. destruct (fr_mf f) eqn:Em; [|done].
  simpl. rewrite Hf. destruct fs as [|f' fs]; [simpl in Hl; congruence|]. by apply IH.
Qed.
End ordered.

(** The list ends with the last fragment of its datagram. *)
Definition ends (xs : list fseg) : Prop := ∃ g, last xs.*2 = Some g ∧ fr_mf g = false.

(** The list is cut where the new fragment belongs: [a] lies in front of it, [b] does not. *)
Record cut_at (f : frag) (xs a b : list fseg) : Prop := {
  cu_list : xs = a ++ b;
  cu_front : Forall (λ x : fseg, fr_offset x.2 < fr_offset f) a;
  cu_back : Forall (λ x : fseg, fr_offset f ≤ fr_offset x.2) b;
}.

(** What the insertion does with the list: a fragment behind the last one of the datagram is
    refused; any other one is put at its place, and if it is a last fragment what follows it
    is taken out. *)
Definition placed (xs a b : list fseg) (p : loc) (f : frag) (r : bool) (xs' : list fseg) (gone : list loc) : Prop :=
  (b = [] ∧ ends xs ∧ xs' = xs ∧ gone = [p] ∧ r = false) ∨
  (¬ (b = [] ∧ ends xs) ∧ xs' = a ++ (p, f) :: (if fr_mf f then b else []) ∧ gone = (if fr_mf f then [] else b.*1) ∧
   (xs ≠ [] → contiguous 0 xs'.*2 → ends xs' → r = true)).

Lemma ends_snoc l x : ends (l ++ [x]) ↔ fr_mf x.2 = false.
Proof. unfold ends. rewrite fmap_app, fmap_cons, fmap_nil, last_snoc. naive_solver. Qed.

Lemma inserted_placed xs p f r xs' gone : frag_inserted xs p f r xs' gone → ordered xs.*2 →
  ∃ a b, cut_at f xs a b ∧ placed xs a b p f r xs' gone.
Proof.
  intros Hi Ho. pose proof (inserted_ordered _ _ _ _ _ _ Hi Ho) as Ho'.
  assert (∀ l, ordered l.*2 → contiguous 0 l.*2 → ends l → bool_decide (gapless 0 l.*2 = Some true) = true) as Hg.
  { intros l Hl Hct (g & Hl' & Hm). apply bool_decide_true. by eapply contiguous_gapless. }
  destruct Hi as [->|a c b xs' gone -> Ha Hc -> ->|a l -> Ha Hl|a l -> Ha Hl].
  - exists [], []. split; [by split|]. right. split_and!; [by intros (_ & g & ? & _)|by destruct (fr_mf f)|by destruct (fr_mf f)|done].
  - exists a, (c :: b). split; [split; [done|done|]|].
    + rewrite fmap_app in Ho. apply ordered_app in Ho as (_ & Ho & _). inversion_clear Ho as [|?? _ Hb].
      constructor; [done|]. apply Forall_forall. intros x Hx. rewrite Forall_forall in Hb.
      destruct (Hb x.2) as [? _]; [apply list_elem_of_fmap; by exists x|lia].
    + right. split_and!; [by intros [? _]|done|done|]. intros _. by apply Hg.
  - exists (a ++ [l]), []. split; [split; [by rewrite app_nil_r|done|constructor]|]. right. rewrite ends_snoc.
    split_and!; [intros [_ ?]; congruence|by destruct (fr_mf f)|by destruct (fr_mf f)|]. intros _. by apply Hg.
  - exists (a ++ [l]), []. split; [split; [by rewrite app_nil_r|done|constructor]|]. left. by rewrite ends_snoc.
Qed.

(** C26 Insertion of a fragment into the sorted list of its datagram, whatever its offset,
    flags and length (an IPv4 packet is not shorter than its header): it is put behind the
    fragments with smaller offsets and in front of all others, which are kept as they are;
    there are two exceptions: a fragment behind the last fragment of the datagram is refused,
    and then it alone is alerted, dropped and released; and behind a new last fragment all
    fragments are alerted, dropped and released. The list stays sorted by offset with only
    its last fragment lacking the more-fragments flag, and nothing else changes. When the
    list is declared complete its fragments cover every byte up to the end of the last one;
    a list that was not empty and that the accepted fragment leaves without gap and without
    overlap, with a last fragment at its end, is declared complete (with an overlap it may
    not be, [contained_fragment_blocks]). *)
Theorem ipv4_frag_insert_correct s hd xs p f :
  frags_at s hd xs → ordered xs.*2 → loose s p f → Forall (λ x : fseg, same_key x.2 f) xs →
  Forall (λ x : fseg, 0 ≤ curlen x.2) ((p, f) :: xs) →
  runs (ipv4_frag_insert hd p) s (λ r s', ∃ a b xs' gone,
    cut_at f xs a b ∧ placed xs a b p f r xs' gone ∧
    frags_at s' hd xs' ∧ ordered xs'.*2 ∧ fs_log s' = fs_log s ++ purge_log gone ∧
    frags_frame gone (hd :: p :: xs.*1) s s' ∧
    (r = true → ∃ g, last xs'.*2 = Some g ∧ fr_mf g = false ∧ covers xs'.*2 0 (fr_offset g + curlen g))).
Proof.
  intros H Ho Hp Hk Hc. eapply runs_mono; [by eapply runs_frag_add|].
  intros r s' (xs' & gone & Hi & H' & L' & F'). destruct (inserted_placed _ _ _ _ _ _ Hi Ho) as (a & b & Hcut & Hpl).
  exists a, b, xs', gone. pose proof (inserted_ordered _ _ _ _ _ _ Hi Ho) as Ho'. split_and!; try done.
  intros Hr. assert (gapless 0 xs'.*2 = Some true) as (g & Hg & Hm & Hcv)%gapless_covers.
  { destruct Hi; try done; by apply bool_decide_eq_true in Hr. }
  exists g. split_and!; [by apply ordered_last|done|done].
Qed.

(** ** Reassembly *)

Section reassemble.
Lemma reassemble_spec hd xs : ∀ s fuel a Q,
  frags_at s hd xs → contiguous a xs.*2 → Forall (λ x : fseg, curlen x.2 = zlen (fr_payload x.2)) xs →
  (length xs ≤ fuel)%nat →
  (∀ s', frags_at s' hd [] → fs_frags s' = fs_frags s → fs_log s' = fs_log s →
    fs_stream s' = fs_stream s ++ (fr_payload ∘ snd <$> xs) → Q tt s') →
  runs (reassemble_loop fuel hd (at_head hd xs.*1) a) s Q.
Proof.
  induction xs as [|[p f] xs IH]; intros s fuel a Q H Hc Hl Hf HQ.
  - destruct fuel; simpl; rewrite bool_decide_true by done; unfold skip; step; apply HQ; try done; by rewrite app_nil_r.
  - destruct fuel as [|fuel]; [simpl in Hf; lia|]. rewrite fmap_cons in Hc. destruct Hc as [Ho Hc].
    apply Forall_cons in Hl as [Hl1 Hl]. simpl in Hl1, Ho.
    cbn [reassemble_loop]. rewrite fmap_cons. simpl at_head.
    rewrite bool_decide_false by (simpl; by eapply (fa_head_ne _ _ [])).
    call runs_rd_frag; [by eapply (fa_at _ _ [])|]. step; [apply bool_decide_true; lia|].
    rewrite (bool_decide_false (fr_offset f ≠ a)) by (intros Hn; by apply Hn). cbn [andb].
    rewrite bool_decide_true by done. unfold stream_push. step.
    set (s0 := FS _ _ _ _).
    assert (frags_at s0 hd ((p, f) :: xs)) as H0 by (destruct H; by split).
    apply runs_bind. eapply (runs_frag_erase s0 hd []); [exact H0|]. intros s1 H1 F1 L1 [T1 _ _]. step.
    apply IH; [done|by rewrite <- Hl1|done|simpl in Hf; lia|].
    intros s' H' F' L' T'. apply HQ; [done|by rewrite F', F1|by rewrite L', L1|].
    rewrite T', T1. simpl. by rewrite <- app_assoc.
Qed.

Lemma runs_reassemble s hd xs Q :
  frags_at s hd xs → contiguous 0 xs.*2 → Forall (λ x : fseg, curlen x.2 = zlen (fr_payload x.2)) xs →
  fs_stream s = [] →
  (∀ s', frags_at s' hd [] → fs_log s' = fs_log s → Q (concat (fr_payload ∘ snd <$> xs)) s') →
  runs (ipv4_reassemble hd) s Q.
Proof.
  intros H Hc Hl Hs HQ. unfold ipv4_reassemble. call runs_frag_begin; [exact H|]. step. unfold frag_fuel. step.
  pose proof (fa_fuel _ _ _ H). apply runs_bind. eapply reassemble_spec; [exact H|done|done|lia|].
  intros s' H' _ L' T'. step. rewrite T', Hs. by apply HQ.
Qed.
End reassemble.

(** ** All the fragments of a datagram *)

(** The insertions in the order of arrival; the result of the last one. *)
Fixpoint insert_all (hd : loc) (ps : list loc) (r : bool) : FM bool :=
  match ps with
  | [] => ret r
  | p :: ps => r ← ipv4_frag_insert hd p; insert_all hd ps r
  end.

(** [segs] are the fragments of one datagram: in order, with payloads, and only
    the last one without the more-fragments flag. *)
Record datagram (segs : list fseg) : Prop := {
  dg_contiguous : contiguous 0 segs.*2;
  dg_flags : ∀ a x b, segs = a ++ x :: b → fr_mf x.2 = negb (bool_decide (b = []));
  dg_payload : Forall (λ x : fseg, curlen x.2 = zlen (fr_payload x.2) ∧ 0 < curlen x.2) segs;
  dg_key : ∀ x y, x ∈ segs → y ∈ segs → same_key x.2 y.2;
}.

Definition lt_offset (x y : fseg) : Prop := fr_offset x.2 < fr_offset y.2.

Section datagram.
Context (segs : list fseg).
Hypothesis D : datagram segs.
#[local] Set Default Proof Using "D".

Lemma contiguous_sorted (l : list fseg) : ∀ a,
  contiguous a l.*2 → Forall (λ x : fseg, 0 < curlen x.2) l →
  StronglySorted lt_offset l ∧ Forall (λ x : fseg, a ≤ fr_offset x.2) l.
Proof using.
  induction l as [|[p f] l IH]; intros a Hc Hl; [by repeat constructor|].
  rewrite fmap_cons in Hc. destruct Hc as [Ho Hc]. apply Forall_cons in Hl as [Hl1 Hl]. simpl in Ho, Hl1.
  destruct (IH _ Hc Hl) as [H1 H2]. split; constructor; try done; [|simpl; lia|].
  - eapply Forall_impl; [exact H2|]. intros x Hx. unfold lt_offset. simpl in *. lia.
  - eapply Forall_impl; [exact H2|]. intros x Hx. simpl in *. lia.
Qed.

Lemma segs_sorted : StronglySorted lt_offset segs.
Proof.
  apply (contiguous_sorted segs 0 (dg_contiguous _ D)). eapply Forall_impl; [apply (dg_payload _ D)|]. by intros x [_ Hx].
Qed.

(** A fragment with another one behind it has the flag. *)
Lemma seg_mf x y : x ∈ segs → y ∈ segs → fr_offset x.2 < fr_offset y.2 → fr_mf x.2 = true.
Proof.
  intros Hx Hy Hlt. apply list_elem_of_split in Hx as (a & b & E). rewrite (dg_flags _ D _ _ _ E).
  rewrite bool_decide_false; [done|]. intros ->. rewrite E in Hy.
  apply elem_of_app in Hy as [Hy|Hy%list_elem_of_singleton]; [|subst; lia].
  pose proof segs_sorted as Hs. rewrite E in Hs. apply StronglySorted_app in Hs as (Hs & _).
  specialize (Hs y x Hy ltac:(by left)). unfold lt_offset in Hs. lia.
Qed.

Lemma seg_inj x y : x ∈ segs → y ∈ segs → fr_offset x.2 = fr_offset y.2 → x = y.
Proof.
  intros Hx Hy He. pose proof segs_sorted as Hs. apply list_elem_of_split in Hx as (a & b & E). rewrite E in Hy, Hs.
  apply StronglySorted_app in Hs as (Hs1 & _ & Hs2). inversion_clear Hs2 as [|?? _ Hs3].
  rewrite Forall_forall in Hs3. unfold lt_offset in *.
  apply elem_of_app in Hy as [Hy|Hy]; [specialize (Hs1 y x Hy ltac:(by left)); lia|].
  apply elem_of_cons in Hy as [->|Hy]; [done|]. specialize (Hs3 y Hy). lia.
Qed.

Lemma segs_ordered : ordered segs.*2.
Proof.
  pose proof segs_sorted as Hs. assert (∀ x, x ∈ segs → x ∈ segs) as Hi by done.
  revert Hs Hi. generalize segs at 1 2 4 as l. induction l as [|x l IH]; intros Hs Hi; [constructor|].
  inversion_clear Hs as [|?? Hs1 Hs2]. rewrite fmap_cons. constructor; [apply IH; [done|]|].
  - intros y Hy. apply Hi. by right.
  - apply Forall_fmap, Forall_forall. intros y Hy. rewrite Forall_forall in Hs2. specialize (Hs2 y Hy).
    unfold lt_offset in Hs2. split; [simpl; lia|]. apply (seg_mf x y); [apply Hi; by left|apply Hi; by right|done].
Qed.

(** The fragments of a datagram never displace each other. *)
Lemma datagram_inserted xs p f r xs' gone :
  frag_inserted xs p f r xs' gone → (p, f) ∈ segs → (∀ x, x ∈ xs → x ∈ segs) → (p, f) ∉ xs →
  StronglySorted lt_offset xs →
  gone = [] ∧ StronglySorted lt_offset xs' ∧ xs' ≡ₚ (p, f) :: xs ∧
  (xs ≠ [] → r = bool_decide (gapless 0 xs'.*2 = Some true)).
Proof.
  intros Hi Hp Hxs Hni Hs. destruct Hi as [->|a c b xs' gone -> Ha Hc -> ->|a l -> Ha Hl|a l -> Ha Hl].
  - split_and!; [done|by repeat constructor|done|done].
  - assert (fr_offset f < fr_offset c.2) as Hlt.
    { destruct (decide (fr_offset f = fr_offset c.2)) as [E|]; [|lia]. exfalso. apply Hni.
      rewrite (seg_inj (p, f) c Hp); [set_solver|apply Hxs; set_solver|done]. }
    assert (fr_mf f = true) as -> by (apply (seg_mf (p, f) c); [done|apply Hxs; set_solver|done]).
    split_and!; [done| |by rewrite Permutation_middle|done].
    apply StronglySorted_app in Hs as (Hs1 & Hs2 & Hs3). apply StronglySorted_app. split_and!; [|done|].
    + intros x y Hx Hy. apply elem_of_cons in Hy as [->|Hy]; [|by apply Hs1]. rewrite Forall_forall in Ha.
      by apply Ha.
    + constructor; [done|]. constructor; [done|]. inversion_clear Hs3 as [|?? _ Hs4].
      eapply Forall_impl; [exact Hs4|]. intros x Hx. unfold lt_offset in *. simpl in *. lia.
  - split_and!; [done| |by rewrite Permutation_app_comm|done]. apply StronglySorted_app. split_and!; [|done|by repeat constructor].
    intros x y Hx Hy%list_elem_of_singleton. subst y. rewrite Forall_forall in Ha. by apply Ha.
  - exfalso. rewrite Forall_app in Ha. destruct Ha as [_ Ha]. apply Forall_cons in Ha as [Ha _].
    rewrite (seg_mf l (p, f)) in Hl; [done|apply Hxs; set_solver|done|done].
Qed.
End datagram.

Lemma insert_all_spec segs hd rest : datagram segs → NoDup segs.*1 → ∀ s xs r,
  frags_at s hd xs → StronglySorted lt_offset xs → rest ++ xs ≡ₚ segs →
  (∀ p f, (p, f) ∈ rest → loose s p f) → (rest = [] → r = true) → (xs ≠ [] ∨ 1 < zlen rest) →
  runs (insert_all hd rest.*1 r) s (λ r' s',
    r' = true ∧ frags_at s' hd segs ∧ fs_log s' = fs_log s ∧ fs_stream s' = fs_stream s).
Proof.
  intros D Hnd. induction rest as [|[p f] rest IH]; intros s xs r H Hs Hperm Hl Hr Hx; simpl.
  - step. simpl in Hperm. rewrite <- (StronglySorted_unique_strong lt_offset xs segs); [by auto| |done|by apply segs_sorted|done].
    unfold lt_offset. intros. lia.
  - assert (∀ x, x ∈ xs → x ∈ segs) as Hxs by (intros x Hi; rewrite <- Hperm; set_solver).
    assert ((p, f) ∈ segs) as Hp by (rewrite <- Hperm; by left).
    assert (p ∉ (rest ++ xs).*1) as Hni.
    { rewrite <- Hperm in Hnd. simpl in Hnd. by apply NoDup_cons in Hnd as [? _]. }
    post runs_frag_add.
    + exact H.
    + apply Hl. by left.
    + apply Forall_forall. intros x Hi. apply (dg_key _ D x (p, f)); [by apply Hxs|done].
    + apply Forall_forall. intros x Hi. assert (x ∈ segs) as Hin by (rewrite <- Hperm; set_solver).
      pose proof (dg_payload _ D) as Hpl. rewrite Forall_forall in Hpl. specialize (Hpl _ Hin). lia.
    + intros r' s' (xs' & gone & Hi & H' & L' & [T' F' N']).
      destruct (datagram_inserted segs D _ _ _ _ _ _ Hi Hp Hxs) as (-> & Hs' & Hp' & Hr'); [|done|].
      { intros Hi'. apply Hni. rewrite fmap_app, elem_of_app. right. apply list_elem_of_fmap. by exists (p, f). }
      assert (rest ++ xs' ≡ₚ segs) as Hperm' by (rewrite Hp', <- Permutation_middle; exact Hperm).
      eapply runs_mono; [eapply (IH s' xs'); [done|done|done| | |]|].
      * intros q g Hq. destruct (Hl q g ltac:(by right)) as [Hq1 Hq2]. split; [|by rewrite F' by set_solver].
        rewrite N'; [done|]. pose proof (dlist_not_in _ _ _ _ _ (fa_list _ _ _ H) Hq1) as Hqx.
        rewrite not_elem_of_cons in Hqx |- *. split; [tauto|]. rewrite not_elem_of_cons. split; [|tauto].
        intros ->. apply Hni. rewrite fmap_app, elem_of_app. left. apply list_elem_of_fmap. by exists (p, g).
      * intros ->. assert (xs ≠ []) as Hne by (destruct Hx as [?|Hx]; [done|by vm_compute in Hx]).
        rewrite Hr' by done. apply bool_decide_true. simpl in Hperm'.
        rewrite (StronglySorted_unique_strong lt_offset xs' segs); [|unfold lt_offset; intros; lia|done|by apply segs_sorted|done].
        destruct (exists_last (l := segs)) as (a & g & Eg); [by intros ->; inversion Hp|].
        eapply (contiguous_gapless _ g.2); [by apply segs_ordered|apply (dg_contiguous _ D)| |].
        -- rewrite Eg, fmap_app. simpl. by rewrite last_snoc.
        -- rewrite (dg_flags _ D a g [] Eg). done.
      * left. intros ->. by apply Permutation_nil_cons in Hp'.
      * intros b s'' (Hb & H'' & L'' & T''). split_and!; [done|done| |by rewrite T''].
        rewrite L'', L'. unfold purge_log. by rewrite app_nil_r.
Qed.

(** C3 Reassembly of a datagram: the fragments of a datagram (two at least, each
    with a payload, cut anywhere) arrive in any order at an empty list; every one
    is kept, the last insertion declares the list complete, and the reassembled
    payload is the concatenation of the payloads in the order of the datagram;
    nothing is dropped and no alert is raised. *)
Theorem ipv4_reassembly_complete s hd segs arrival :
  datagram segs → 1 < zlen segs → NoDup segs.*1 → arrival ≡ₚ segs →
  frags_at s hd [] → (∀ p f, (p, f) ∈ segs → loose s p f) → fs_stream s = [] →
  runs (r ← insert_all hd arrival.*1 false; data ← ipv4_reassemble hd; ret (r, data)) s (λ a s',
    a = (true, concat (fr_payload ∘ snd <$> segs)) ∧ frags_at s' hd [] ∧ fs_log s' = fs_log s).
Proof.
  intros D Hn Hnd Hp H Hl Hs. post (insert_all_spec segs hd arrival D Hnd s []).
  - exact H.
  - constructor.
  - by rewrite app_nil_r.
  - intros p f Hi. apply Hl. by rewrite <- Hp.
  - intros ->. apply Permutation_nil in Hp as ->. by vm_compute in Hn.
  - right. unfold zlen in *. by rewrite Hp.
  - intros r s' (-> & H' & L' & T').
    apply runs_bind. eapply runs_reassemble; [exact H'|apply (dg_contiguous _ D)| |by rewrite T'|].
    + eapply Forall_impl; [apply (dg_payload _ D)|]. by intros x [Hx _].
    + intros s'' H'' L''. step. split_and!; [done|done|congruence].
Qed.

(** ** Examples *)

Definition ex_frag (off : Z) (mf : bool) (data : list Z) : frag :=
  Frag 1 2 77 off mf (20 + zlen data) 20 data.
Definition ex_b1 : list Z := [1; 2; 3; 4; 5; 6; 7; 8].
Definition ex_b2 : list Z := [9; 10; 11; 12; 13; 14; 15; 16].
Definition ex_b3 : list Z := [17; 18; 19].
Definition ex_segs : list fseg :=
  [(2%positive, ex_frag 0 true ex_b1); (3%positive, ex_frag 8 true ex_b2); (4%positive, ex_frag 16 false ex_b3)].
(** An empty list at 1 and packets waiting at 2, 3, ... *)
Definition ex_waiting (l : list fseg) : fragstate :=
  FS (<[1%positive := Elem (Some 1%positive) (Some 1%positive)]> (list_to_map ((λ x, (x.1, Elem None None)) <$> l)))
    (list_to_map l) [] [].
Definition ex_frags : fragstate := ex_waiting ex_segs.

Lemma ex_frags_empty : frags_at ex_frags 1 [].
Proof. split; [|by intros p f Hi; inversion Hi]. split; [apply NoDup_singleton|]. by vm_compute. Qed.

Lemma ex_frags_loose p f : (p, f) ∈ ex_segs → loose ex_frags p f.
Proof.
  unfold ex_segs. rewrite !elem_of_cons, elem_of_nil.
  intros [H|[H|[H|[]]]]; simplify_eq; split; vm_compute; reflexivity.
Qed.

Lemma ex_datagram : datagram ex_segs.
Proof.
  split.
  - by vm_compute.
  - intros a x b E. unfold ex_segs in E.
    destruct a as [|? [|? [|? a]]]; simpl in E; simplify_eq; [reflexivity..|]. by destruct a.
  - unfold ex_segs. repeat (constructor; [by vm_compute|]). constructor.
  - intros x y Hx Hy. unfold ex_segs in *. rewrite !elem_of_cons, elem_of_nil in Hx, Hy.
    destruct Hx as [->|[->|[->|[]]]], Hy as [->|[->|[->|[]]]]; by vm_compute.
Qed.

Lemma ipv4_reassembly_complete_witness :
  runs (r ← insert_all 1 [4; 2; 3]%positive false; data ← ipv4_reassemble 1; ret (r, data)) ex_frags
    (λ a _, a = (true, ex_b1 ++ ex_b2 ++ ex_b3)).
Proof.
  eapply runs_mono; [apply (ipv4_reassembly_complete ex_frags 1 ex_segs
    [(4%positive, ex_frag 16 false ex_b3); (2%positive, ex_frag 0 true ex_b1); (3%positive, ex_frag 8 true ex_b2)])|].
  - exact ex_datagram.
  - by vm_compute.
  - unfold ex_segs. cbn. repeat (constructor; [set_solver|]). constructor.
  - unfold ex_segs. apply (Permutation_cons_append (_ :: _ :: [])).
  - exact ex_frags_empty.
  - exact ex_frags_loose.
  - reflexivity.
  - by intros a s' [-> _].
Defined.

(** The first and the last fragment are in the list, the one between them arrives. *)
Definition ex_gap : fragstate :=
  FS (<[1%positive := Elem (Some 4%positive) (Some 2%positive)]> (<[2%positive := Elem (Some 1%positive) (Some 4%positive)]>
       (<[4%positive := Elem (Some 2%positive) (Some 1%positive)]> {[3%positive := Elem None None]})))
    (list_to_map ex_segs) [] [].
Definition ex_ends : list fseg := [(2%positive, ex_frag 0 true ex_b1); (4%positive, ex_frag 16 false ex_b3)].

Lemma ex_gap_reached : insert_all 1 [4; 2]%positive false ex_frags = Some (false, ex_gap).
Proof. vm_compute. reflexivity. Qed.

Lemma ex_gap_at : frags_at ex_gap 1 ex_ends.
Proof.
  split.
  - split; [apply (bool_decide_unpack _); by vm_compute|by vm_compute].
  - intros p f. unfold ex_ends. rewrite !elem_of_cons, elem_of_nil. intros [H|[H|[]]]; simplify_eq; vm_compute; reflexivity.
Qed.

Lemma ipv4_frag_insert_correct_witness :
  runs (ipv4_frag_insert 1 3) ex_gap (λ r s', r = true ∧ frags_at s' 1 ex_segs ∧ fs_log s' = []).
Proof.
  eapply runs_mono; [apply (ipv4_frag_insert_correct ex_gap 1 ex_ends 3 (ex_frag 8 true ex_b2))|].
  - exact ex_gap_at.
  - repeat constructor; vm_compute; congruence.
  - split; vm_compute; reflexivity.
  - repeat constructor.
  - repeat constructor; vm_compute; congruence.
  - intros r s' (a & b & xs' & gone & [E Ha Hb] & Hpl & H' & _ & L' & _).
    assert (a = [(2%positive, ex_frag 0 true ex_b1)] ∧ b = [(4%positive, ex_frag 16 false ex_b3)]) as [-> ->].
    { unfold ex_ends in E. destruct a as [|x [|y a]]; simpl in E; simplify_eq.
      - apply Forall_cons in Hb as [Hb _]. by vm_compute in Hb.
      - by split.
      - apply Forall_cons in Ha as [_ Ha]. apply Forall_cons in Ha as [Ha _]. by vm_compute in Ha. }
    destruct Hpl as [[? _]|(_ & -> & -> & Hr)]; [done|]. split_and!.
    + apply Hr; [done|by vm_compute|]. eexists. split; reflexivity.
    + exact H'.
    + rewrite L'. reflexivity.
Defined.

(** ** Overlapping fragments *)

(** The offset of [ipv4_reassemble] counts the erased bytes of an overlapping
    fragment twice: the fragment behind it is then taken for a duplicate and the
    last eight bytes of a complete datagram are lost. *)
Theorem overlap_loses_bytes :
  let l := [(2%positive, ex_frag 0 true (ex_b1 ++ ex_b1)); (3%positive, ex_frag 8 true (ex_b1 ++ ex_b2));
            (4%positive, ex_frag 24 false ex_b2)] in
  runs (r ← insert_all 1 [2; 3; 4]%positive false; data ← ipv4_reassemble 1; ret (r, zlen data)) (ex_waiting l)
    (λ a s', a = (true, 24) ∧ fs_log s' = [Dropped 4; Released 4]).
Proof. eapply runs_eq; [vm_compute; reflexivity|]. done. Qed.

(** A fragment that lies inside another one hides the end of that one from
    [ipv4_frag_check_missing_fragments]: the datagram has all its bytes and is
    never declared complete. *)
Theorem contained_fragment_blocks :
  let l := [(2%positive, ex_frag 0 true (ex_b1 ++ ex_b1 ++ ex_b1)); (3%positive, ex_frag 8 true ex_b1);
            (4%positive, ex_frag 24 false ex_b2)] in
  covers l.*2 0 32 ∧ runs (insert_all 1 [2; 3; 4]%positive false) (ex_waiting l) (λ r _, r = false).
Proof.
  split; [|eapply runs_eq; [vm_compute; reflexivity|done]].
  intros k Hk. destruct (decide (k < 24)).
  - exists (ex_frag 0 true (ex_b1 ++ ex_b1 ++ ex_b1)). split; [by left|]. change (0 ≤ k < 0 + 24). lia.
  - exists (ex_frag 24 false ex_b2). split; [set_solver|]. change (24 ≤ k < 24 + 8). lia.
Qed.
