(* ===== verification/Ipv4Net.v ===== *)
(** * IPv4 addresses and networks (ipv4-addr.c, ipv4-network.c)

    Addresses are unsigned 32-bit integers in host order. The conversions from and
    to strings are not modelled. *)

From S2P Require Import Prelude Types.

Definition IPV4_MASK_MAXVAL : Z := 32.

Record ipv4network := Ipv4Network { net : Z; mask : Z }.

Definition ipv4_network_zero : ipv4network := Ipv4Network 0 0.

(** The address is the integer whose memory the code fills byte by byte. *)
Definition ipv4_addr_from_bytes (a b c d : Z) : Z := le_value [d; c; b; a].

(** A shift by the width of an [int] or more is undefined; a shift or a difference
    that leaves the range of [int] wraps around, as the compilers the program is
    built with define or implement it. *)
Definition IPV4_APPLY_NETMASK (addr : Z) (network : ipv4network) : option Z :=
  if bool_decide (mask network < 32) && bool_decide (IPV4_MASK_MAXVAL - mask network < 32) then
    let ones := s32 (s32 (Z.shiftl 1 (mask network)) - 1) in
    Some (Z.land addr (u32 (Z.shiftl ones (IPV4_MASK_MAXVAL - mask network))))
  else None.

(** The end of [ipv4_network_from_string]: the address without its host part. *)
Definition network_correct (netaddr : ipv4network) : option ipv4network :=
  match IPV4_APPLY_NETMASK (net netaddr) netaddr with
  | Some maskedaddr =>
      Some (if bool_decide (maskedaddr ≠ net netaddr) then Ipv4Network maskedaddr (mask netaddr) else netaddr)
  | None => None
  end.

Definition ipv4_network_contains (network : ipv4network) (addr : Z) : option bool :=
  match IPV4_APPLY_NETMASK addr network with
  | Some m => Some (bool_decide (m = net network))
  | None => None
  end.

(** ** Properties *)

Section mask.
(** The number of addresses of a network. *)
Definition hosts (m : Z) : Z := 2 ^ (32 - m).

Lemma hosts_pos m : 1 ≤ m ≤ 31 → 0 < hosts m.
Proof. intros. unfold hosts. apply Z.pow_pos_nonneg; lia. Qed.

Lemma hosts_mul m : 1 ≤ m ≤ 31 → 2 ^ m * hosts m = 2 ^ 32.
Proof. intros. unfold hosts. rewrite <- Z.pow_add_r by lia. f_equal. lia. Qed.

Lemma netmask_ones m : 1 ≤ m ≤ 31 → s32 (s32 (Z.shiftl 1 m) - 1) = Z.ones m.
Proof.
  intros Hm. rewrite Z.shiftl_1_l, Z.ones_equiv. assert (0 < 2 ^ m) by (apply Z.pow_pos_nonneg; lia).
  destruct (decide (m = 31)) as [->|]; [done|].
  assert (2 ^ m ≤ 2 ^ 30) by (apply Z.pow_le_mono_r; lia). unfold s32.
  rewrite (swrap_small 32 (2 ^ m)) by lia. apply swrap_small; lia.
Qed.

(** The mask clears the host part. *)
Lemma netmask_spec addr nw :
  0 ≤ addr < 2 ^ 32 → 1 ≤ mask nw ≤ 31 →
  IPV4_APPLY_NETMASK addr nw = Some (addr / hosts (mask nw) * hosts (mask nw)).
Proof.
  intros Ha Hm. unfold IPV4_APPLY_NETMASK, IPV4_MASK_MAXVAL. set (m := mask nw) in *.
  rewrite !bool_decide_true by lia. simpl. rewrite netmask_ones by lia. f_equal.
  pose proof (hosts_pos m Hm) as Hp. pose proof (hosts_mul m Hm) as Hh.
  assert (0 < 2 ^ m) by (apply Z.pow_pos_nonneg; lia).
  rewrite u32_small.
  2:{ rewrite Z.shiftl_mul_pow2, Z.ones_equiv by lia. fold (hosts m). nia. }
  assert (Z.land addr (Z.shiftl (Z.ones m) (32 - m)) =
    Z.shiftl (Z.land (Z.shiftr addr (32 - m)) (Z.ones m)) (32 - m)) as ->.
  { apply Z.bits_inj'. intros n Hn. rewrite Z.land_spec, !Z.shiftl_spec by lia.
    destruct (decide (32 - m ≤ n)).
    - rewrite Z.land_spec, Z.shiftr_spec by lia. do 2 f_equal. lia.
    - rewrite !(Z.testbit_neg_r _ (n - (32 - m))) by lia. apply andb_false_r. }
  rewrite Z.shiftl_mul_pow2, Z.shiftr_div_pow2, Z.land_ones by lia. fold (hosts m). rewrite Z.mod_small; [done|].
  split; [apply Z.div_pos; lia|apply Z.div_lt_upper_bound; nia].
Qed.
End mask.

(** Networks: for a mask of 1 to 31 bits, correcting an address gives the first
    address of its network, and [ipv4_network_contains] holds exactly for the
    addresses between it and the last one. *)
Theorem ipv4_network_contains_correct a m addr :
  0 ≤ a < 2 ^ 32 → 1 ≤ m ≤ 31 → 0 ≤ addr < 2 ^ 32 →
  ∃ nw, network_correct (Ipv4Network a m) = Some nw ∧ mask nw = m ∧
    net nw = a - a `mod` hosts m ∧
    ipv4_network_contains nw addr = Some (bool_decide (net nw ≤ addr < net nw + hosts m)).
Proof.
  intros Ha Hm Hd. pose proof (hosts_pos m Hm) as Hp. exists (Ipv4Network (a / hosts m * hosts m) m).
  pose proof (Z.div_mod a (hosts m)) as E1. pose proof (Z.mod_pos_bound a (hosts m)) as B1.
  pose proof (Z.div_mod addr (hosts m)) as E2. pose proof (Z.mod_pos_bound addr (hosts m)) as B2.
  split_and!; simpl; [|done|lia|].
  - unfold network_correct. rewrite netmask_spec by done. simpl. case_bool_decide as E; [done|].
    by rewrite E.
  - unfold ipv4_network_contains. rewrite netmask_spec by done. simpl. f_equal. apply bool_decide_ext.
    split; intros H; [lia|]. f_equal. symmetry. apply (Z.div_unique _ _ _ (addr - a / hosts m * hosts m)); lia.
Qed.

Lemma ipv4_network_contains_correct_witness :
  ∃ nw, network_correct (Ipv4Network 3232235786 24) = Some nw ∧
    ipv4_network_contains nw 3232236031 = Some (bool_decide (net nw ≤ 3232236031 < net nw + hosts 24)).
Proof.
  destruct (ipv4_network_contains_correct 3232235786 24 3232236031) as (nw & H1 & _ & _ & H2); [lia..|].
  by exists nw.
Defined.

(** The mask of a single host, which [ipv4_network_from_string] accepts, shifts by
    the width of an integer: the code has no defined result. *)
Theorem netmask_32_undefined a addr :
  network_correct (Ipv4Network a 32) = None ∧ ipv4_network_contains (Ipv4Network a 32) addr = None.
Proof. done. Qed.
