(* ===== verification/Cnx.v ===== *)
(** * The connection table (modules/protocol/ipv4/cnx.c)

    The hash table is the one of uthash, a third-party header (external/uthash): the
    class [HashTable] is the interface of the macros the code uses, and the theorems
    on connections are proved against it. The table holds the addresses of the
    elements; the connections themselves are in [ct_cnx]. The release
    callback of the table is a client function, its calls are recorded with their
    [freemem] argument. *)

From S2P Require Import Prelude.

(** ** Data *)

Record cnx_key := CnxKey { srcip : Z; dstip : Z; srcport : Z; dstport : Z }.

#[export] Instance cnx_key_eq_dec : EqDecision cnx_key.
Proof. solve_decision. Defined.

Record cnx_stats := CnxStats { packets : Z; bytes : Z }.

Record cnx := Cnx {
  cx_key : cnx_key;
  cx_stats : list cnx_stats;
  cx_dropped : bool;
  cx_id : Z;
}.

Inductive direction := CNX_DIR_IN | CNX_DIR_OUT.

(** ** The interface of the hash table

    [hash_items] are the items in the order of iteration, which is the one of their
    insertion. The keys must be unique, and only an item of the table is removed. *)

Class HashTable (H : Type) := {
  hash_nil : H;
  hash_items : H → list (cnx_key * loc);
  HASH_FIND : cnx_key → H → option loc;
  HASH_ADD : cnx_key → loc → H → H;
  HASH_DEL : loc → H → H;
  hash_nil_items : hash_items hash_nil = [];
  hash_find_items h k p : NoDup (hash_items h).*1 → HASH_FIND k h = Some p ↔ (k, p) ∈ hash_items h;
  hash_add_items h k p : k ∉ (hash_items h).*1 → hash_items (HASH_ADD k p h) = hash_items h ++ [(k, p)];
  hash_del_items h p : p ∈ (hash_items h).*2 →
    hash_items (HASH_DEL p h) = filter (λ x : cnx_key * loc, x.2 ≠ p) (hash_items h);
}.

Section cnx.
Context {H : Type} `{HashTable H}.

Record cnx_table := CnxTable {
  ct_head : H;
  ct_cnx : gmap loc cnx;
  ct_id : Z;
  ct_released : list (loc * bool);
  ct_error : option string;
  ct_mem : nat;
  ct_fresh : loc;
}.

Definition set_head (h : H) (t : cnx_table) : cnx_table :=
  CnxTable h (ct_cnx t) (ct_id t) (ct_released t) (ct_error t) (ct_mem t) (ct_fresh t).
Definition set_cnx (m : gmap loc cnx) (t : cnx_table) : cnx_table :=
  CnxTable (ct_head t) m (ct_id t) (ct_released t) (ct_error t) (ct_mem t) (ct_fresh t).
Definition cnx_error (msg : string) : M cnx_table unit :=
  modify (λ t, CnxTable (ct_head t) (ct_cnx t) (ct_id t) (ct_released t)
    (if ct_error t is Some e then Some e else Some msg) (ct_mem t) (ct_fresh t)).
Definition rd_cnx (p : loc) : M cnx_table cnx := o ← gets (λ t, ct_cnx t !! p); deref o.
Definition upd_cnx (p : loc) (f : cnx → cnx) : M cnx_table unit :=
  c ← rd_cnx p; modify (λ t, set_cnx (<[p := f c]> (ct_cnx t)) t).

(** ** Operations *)

(** [mem] is the number of allocations that succeed. *)
Definition cnx_table_new (mem : nat) : cnx_table := CnxTable hash_nil ∅ 0 [] None mem 1.

Definition swap_key (k : cnx_key) : cnx_key := CnxKey (dstip k) (srcip k) (dstport k) (srcport k).

(** The element, its direction and its dropped flag. *)
Definition cnx_find (key : cnx_key) : M cnx_table (option (loc * direction * bool)) :=
  h ← gets ct_head;
  match HASH_FIND key h with
  | Some p => c ← rd_cnx p; ret (Some (p, CNX_DIR_IN, cx_dropped c))
  | None =>
      match HASH_FIND (swap_key key) h with
      | Some p => c ← rd_cnx p; ret (Some (p, CNX_DIR_OUT, cx_dropped c))
      | None => ret None
      end
  end.

Definition cnx_insert (key : cnx_key) (p : loc) : M cnx_table unit :=
  modify (λ t, set_head (HASH_ADD key p (ct_head t)) t).

Definition cnx_remove (p : loc) : M cnx_table unit :=
  h ← gets ct_head;
  c_assert (bool_decide (p ∈ (hash_items h).*2));;
  modify (set_head (HASH_DEL p h)).

Definition cnx_release (p : loc) (freemem : bool) : M cnx_table unit :=
  modify (λ t, CnxTable (ct_head t) (if freemem then delete p (ct_cnx t) else ct_cnx t) (ct_id t)
    (ct_released t ++ [(p, freemem)]) (ct_error t) (ct_mem t) (ct_fresh t)).

Definition zero_stats : cnx_stats := CnxStats 0 0.

(** [cnx_new] from the allocation of the element on. *)
Definition cnx_alloc (key : cnx_key) : M cnx_table ptr :=
  mem ← gets ct_mem;
  match mem with
  | O => cnx_error "memory error";; ret None
  | S mem =>
      p ← gets ct_fresh;
      id ← gets ct_id;
      let id := u32 (id + 1) in
      let c := Cnx key [zero_stats; zero_stats] false id in
      modify (λ t, CnxTable (ct_head t) (<[p := c]> (ct_cnx t)) id (ct_released t) (ct_error t) mem (Pos.succ p));;
      cnx_insert key p;;
      ret (Some p)
  end.

Definition cnx_new (key : cnx_key) : M cnx_table ptr :=
  elem ← cnx_find key;
  match elem with
  | Some (p, _, dropped) =>
      if dropped : bool then cnx_remove p;; cnx_release p true;; cnx_alloc key
      else cnx_error "cnx already exists";; ret None
  | None => cnx_alloc key
  end.

(** The connection, the direction and the dropped flag. *)
Definition cnx_get (key : cnx_key) : M cnx_table (ptr * direction * bool) :=
  elem ← cnx_find key;
  ret (match elem with
       | Some (p, dir, dropped) => if dropped : bool then (None, dir, true) else (Some p, dir, false)
       | None => (None, CNX_DIR_IN, false)
       end).

Fixpoint byid_loop (id : Z) (l : list (cnx_key * loc)) : M cnx_table ptr :=
  match l with
  | [] => ret None
  | (_, p) :: l => c ← rd_cnx p; if bool_decide (cx_id c = id) then ret (Some p) else byid_loop id l
  end.
Definition cnx_get_byid (id : Z) : M cnx_table ptr :=
  h ← gets ct_head; byid_loop id (hash_items h).

(** The callback gets the connection and its index; it stops the walk with false. *)
Fixpoint foreach_loop (include_dropped : bool) (callback : cnx → Z → bool) (index : Z)
    (l : list (cnx_key * loc)) : M cnx_table bool :=
  match l with
  | [] => ret true
  | (_, p) :: l =>
      c ← rd_cnx p;
      if include_dropped || negb (cx_dropped c) then
        if callback c index then foreach_loop include_dropped callback (index + 1) l else ret false
      else foreach_loop include_dropped callback index l
  end.
Definition cnx_foreach (include_dropped : bool) (callback : cnx → Z → bool) : M cnx_table bool :=
  h ← gets ct_head; foreach_loop include_dropped callback 0 (hash_items h).

Definition cnx_close (p : loc) : M cnx_table unit := cnx_remove p;; cnx_release p true.

Definition cnx_drop (p : loc) : M cnx_table unit :=
  cnx_release p false;;
  upd_cnx p (λ c, Cnx (cx_key c) (cx_stats c) true (cx_id c)).

Definition dir_index (d : direction) : nat := match d with CNX_DIR_IN => 0 | CNX_DIR_OUT => 1 end.

Definition cnx_update_stat (p : loc) (d : direction) (size : Z) : M cnx_table unit :=
  upd_cnx p (λ c, Cnx (cx_key c)
    (alter (λ s, CnxStats (u64 (packets s + 1)) (u64 (bytes s + size))) (dir_index d) (cx_stats c))
    (cx_dropped c) (cx_id c)).

Fixpoint release_loop (l : list (cnx_key * loc)) : M cnx_table unit :=
  match l with
  | [] => skip
  | (_, p) :: l => modify (λ t, set_head (HASH_DEL p (ct_head t)) t);; cnx_release p true;; release_loop l
  end.
Definition cnx_table_release : M cnx_table unit := h ← gets ct_head; release_loop (hash_items h).

(** ** The specification

    A table relates a pair of end points, in either order, to at most one
    connection: [conn t k] is the one of the key [k] or of the reverse key. *)

Definition same_ends (k k' : cnx_key) : Prop := k' = k ∨ k' = swap_key k.
#[global] Instance same_ends_dec k k' : Decision (same_ends k k').
Proof using. unfold same_ends. apply _. Defined.

Abbreviation items t := (hash_items (ct_head t)).

Record table_ok (t : cnx_table) : Prop := {
  to_addr : NoDup (items t).*2;
  to_keys : NoDup (items t).*1;
  to_elem : ∀ k p, (k, p) ∈ items t → (p < ct_fresh t)%positive ∧ ∃ c, ct_cnx t !! p = Some c ∧ cx_key c = k;
  to_ends : ∀ k p k' p', (k, p) ∈ items t → (k', p') ∈ items t → same_ends k k' → p = p';
}.

Definition conn (t : cnx_table) (k : cnx_key) : option (loc * cnx) :=
  list_find (λ x : cnx_key * loc, same_ends k x.1) (items t) ≫= λ x, (λ c, (x.2.2, c)) <$> ct_cnx t !! x.2.2.

(** There is a connection that is not dropped. *)
Definition live (t : cnx_table) (k : cnx_key) : bool :=
  if conn t k is Some x then negb (cx_dropped x.2) else false.

Definition dir_of (k : cnx_key) (x : loc * cnx) : direction :=
  if decide (cx_key x.2 = k) then CNX_DIR_IN else CNX_DIR_OUT.
End cnx.

Arguments cnx_table : clear implicits.
