(* ===== verification/CnxSpec.v ===== *)
(** * Properties of the connection table

    Proved against the interface of the hash table; an association list is an
    instance of the interface. *)

From S2P Require Import Prelude Cnx.

Section keys.
Lemma swap_swap_key k : swap_key (swap_key k) = k.
Proof. by destruct k. Qed.
Lemma same_ends_refl k : same_ends k k.
Proof. by left. Qed.
Lemma same_ends_sym k k' : same_ends k k' → same_ends k' k.
Proof. intros [->| ->]; [by left|right; by rewrite swap_swap_key]. Qed.
Lemma same_ends_trans k k' k'' : same_ends k k' → same_ends k' k'' → same_ends k k''.
Proof. intros [->| ->] [->| ->]; unfold same_ends; rewrite ?swap_swap_key; auto. Qed.
End keys.

Section spec.
Context {H : Type} `{HashTable H}.
Implicit Types t : cnx_table H.
Abbreviation items t := (hash_items (ct_head t)).

Lemma snd_inj {A B} (l : list (A * B)) a a' b : NoDup l.*2 → (a, b) ∈ l → (a', b) ∈ l → a = a'.
Proof.
  intros Hnd Ha Hb. apply list_elem_of_lookup in Ha as [i Hi]. apply list_elem_of_lookup in Hb as [j Hj].
  assert (i = j) as ->; [|congruence]. eapply NoDup_lookup; [exact Hnd|..]; rewrite list_lookup_fmap.
  - by rewrite Hi.
  - by rewrite Hj.
Qed.

Lemma conn_Some t k p c :
  table_ok t → conn t k = Some (p, c) ↔ (cx_key c, p) ∈ items t ∧ same_ends k (cx_key c) ∧ ct_cnx t !! p = Some c.
Proof.
  intros Ht. unfold conn. split.
  - intros ([i [k' q]] & E & Hc)%bind_Some.
    simpl in Hc. apply fmap_Some in Hc as (c' & Hc & [= -> ->]).
    apply list_find_Some in E as (Hl & Hk & _). simpl in Hk. apply list_elem_of_lookup_2 in Hl.
    destruct (to_elem _ Ht _ _ Hl) as [_ (c2 & Hc2 & Ek)]. simplify_eq. by split_and!.
  - intros (Hi & Hk & Hc). destruct (list_find _ _) as [[i [k' q]]|] eqn:E; simpl.
    + apply list_find_Some in E as (Hl & Hk' & _). simpl in Hk'. apply list_elem_of_lookup_2 in Hl.
      assert (p = q) as <-; [|by rewrite Hc].
      apply (to_ends _ Ht _ _ _ _ Hi Hl). eapply same_ends_trans; [by apply same_ends_sym|done].
    + apply list_find_None in E. rewrite Forall_forall in E. by destruct (E _ Hi).
Qed.

Lemma conn_None t k :
  table_ok t → conn t k = None ↔ ∀ k' p, (k', p) ∈ items t → ¬ same_ends k k'.
Proof.
  intros Ht. split.
  - intros Hn k' p Hi Hk. destruct (to_elem _ Ht _ _ Hi) as [_ (c & Hc & <-)].
    assert (conn t k = Some (p, c)) as E by (by apply conn_Some). congruence.
  - intros Hn. destruct (conn t k) as [[p c]|] eqn:E; [|done]. apply conn_Some in E as (Hi & Hk & _); [|done].
    by destruct (Hn _ _ Hi).
Qed.

Lemma runs_rd_cnx t p c Q : ct_cnx t !! p = Some c → Q c t → runs (rd_cnx p) t Q.
Proof. intros Hc HQ. unfold rd_cnx. step. rewrite Hc. by step. Qed.

Lemma runs_find t k Q :
  table_ok t → Q ((λ x, (x.1, dir_of k x, cx_dropped x.2)) <$> conn t k) t → runs (cnx_find k) t Q.
Proof.
  intros Ht HQ. unfold cnx_find. step. pose proof (hash_find_items (ct_head t) k) as F1.
  pose proof (hash_find_items (ct_head t) (swap_key k)) as F2.
  destruct (HASH_FIND k (ct_head t)) as [p|] eqn:E1.
  - assert ((k, p) ∈ items t) as Hi by (by apply F1; [apply (to_keys _ Ht)|]).
    destruct (to_elem _ Ht _ _ Hi) as [_ (c & Hc & Ek)]. call runs_rd_cnx; [exact Hc|]. step.
    assert (conn t k = Some (p, c)) as Ec by (apply conn_Some; [done|]; rewrite Ek; split_and!; [done|by left|done]).
    rewrite Ec in HQ. simpl in HQ. unfold dir_of in HQ. by rewrite decide_True in HQ.
  - assert (∀ p, (k, p) ∉ items t) as N1 by (intros p Hi; apply F1 in Hi; [done|apply (to_keys _ Ht)]).
    destruct (HASH_FIND (swap_key k) (ct_head t)) as [p|] eqn:E2.
    + assert ((swap_key k, p) ∈ items t) as Hi by (by apply F2; [apply (to_keys _ Ht)|]).
      destruct (to_elem _ Ht _ _ Hi) as [_ (c & Hc & Ek)]. call runs_rd_cnx; [exact Hc|]. step.
      assert (conn t k = Some (p, c)) as Ec by (apply conn_Some; [done|]; rewrite Ek; split_and!; [done|by right|done]).
      rewrite Ec in HQ. simpl in HQ. unfold dir_of in HQ. rewrite decide_False in HQ; [done|].
      simpl. intros Ek'. apply (N1 p). by rewrite <- Ek', Ek.
    + assert (∀ p, (swap_key k, p) ∉ items t) as N2 by (intros p Hi; apply F2 in Hi; [done|apply (to_keys _ Ht)]).
      step. assert (conn t k = None) as Ec; [|by rewrite Ec in HQ].
      apply conn_None; [done|]. intros k' p Hi [->| ->]; [by apply (N1 p)|by apply (N2 p)].
Qed.

Lemma runs_get t k Q :
  table_ok t →
  Q (match conn t k with
     | Some x => if cx_dropped x.2 then (None, dir_of k x, true) else (Some x.1, dir_of k x, false)
     | None => (None, CNX_DIR_IN, false)
     end) t → runs (cnx_get k) t Q.
Proof.
  intros Ht HQ. unfold cnx_get. call runs_find; [exact Ht|]. step. by destruct (conn t k).
Qed.

Lemma table_new_ok mem : table_ok (cnx_table_new mem : cnx_table H).
Proof.
  split; simpl; rewrite hash_nil_items; simpl; [constructor|constructor|..].
  - intros k p Hi. by inversion Hi.
  - intros k p k' p' Hi. by inversion Hi.
Qed.

(** Removing and releasing an element. *)
Lemma removed t k0 p rel :
  table_ok t → (k0, p) ∈ items t →
  let t' := CnxTable (HASH_DEL p (ct_head t)) (delete p (ct_cnx t)) (ct_id t) rel (ct_error t) (ct_mem t) (ct_fresh t) in
  table_ok t' ∧ ∀ k, conn t' k = if decide (same_ends k k0) then None else conn t k.
Proof.
  intros Ht Hi t'. assert (p ∈ (items t).*2) as Hp by (apply list_elem_of_fmap; by exists (k0, p)).
  pose proof (hash_del_items _ _ Hp) as Hd.
  assert (table_ok t') as Ht'.
  { destruct Ht as [H1 H2 H3 H4]. split; unfold t'; cbn [ct_head ct_cnx ct_fresh]; rewrite Hd.
    - eapply sublist_NoDup; [exact H1|]. by rewrite sublist_filter.
    - eapply sublist_NoDup; [exact H2|]. by rewrite sublist_filter.
    - intros k q [Hne Hq]%list_elem_of_filter. simpl in Hne. rewrite lookup_delete_ne by congruence. by apply H3.
    - intros k q k' q' [_ Hq]%list_elem_of_filter [_ Hq']%list_elem_of_filter. by eapply H4. }
  split; [done|]. intros k. case_decide as Hk.
  - apply conn_None; [done|]. unfold t'. cbn [ct_head]. rewrite Hd. intros k' q [Hne Hq]%list_elem_of_filter Hk'.
    apply Hne. simpl. eapply (to_ends _ Ht); [exact Hq|exact Hi|]. eapply same_ends_trans; [by apply same_ends_sym|done].
  - destruct (conn t k) as [[q c]|] eqn:E.
    + apply conn_Some in E as (Hq & Hkq & Hc); [|done].
      assert (q ≠ p) as Hne. { intros ->. apply Hk. by rewrite (snd_inj _ _ _ _ (to_addr _ Ht) Hi Hq). }
      apply conn_Some; [done|]. unfold t'. cbn [ct_head ct_cnx]. rewrite Hd, lookup_delete_ne by congruence.
      split_and!; [|done|done]. apply list_elem_of_filter. by split.
    + pose proof (proj1 (conn_None t k Ht) E) as Hno. apply conn_None; [done|]. unfold t'. cbn [ct_head]. rewrite Hd.
      intros k' q [_ Hq]%list_elem_of_filter. by eapply Hno.
Qed.

Lemma added t key c id rel err mem :
  table_ok t → conn t key = None → cx_key c = key →
  let t' := CnxTable (HASH_ADD key (ct_fresh t) (ct_head t)) (<[ct_fresh t := c]> (ct_cnx t)) id rel err mem
    (Pos.succ (ct_fresh t)) in
  table_ok t' ∧ ∀ k, conn t' k = if decide (same_ends k key) then Some (ct_fresh t, c) else conn t k.
Proof.
  intros Ht Hn Hc t'. pose proof (proj1 (conn_None t key Ht) Hn) as Hno.
  assert (key ∉ (items t).*1) as Hk1.
  { intros Hi. apply list_elem_of_fmap in Hi as ([k' q] & -> & Hi). eapply Hno; [exact Hi|apply same_ends_refl]. }
  assert (∀ k q, (k, q) ∈ items t → q ≠ ct_fresh t) as Hf.
  { intros k q Hi ->. destruct (to_elem _ Ht _ _ Hi) as [Hlt _]. lia. }
  pose proof (hash_add_items _ _ (ct_fresh t) Hk1) as Ha.
  assert (table_ok t') as Ht'.
  { destruct Ht as [H1 H2 H3 H4]. split; unfold t'; cbn [ct_head ct_cnx ct_fresh]; rewrite Ha.
    - rewrite fmap_app. apply NoDup_app. split_and!; [done| |apply NoDup_singleton].
      intros q Hq Hq'%list_elem_of_singleton. simpl in Hq'. subst q. apply list_elem_of_fmap in Hq as ([k q] & E & Hi).
      by apply (Hf k q Hi).
    - rewrite fmap_app. apply NoDup_app. split_and!; [done| |apply NoDup_singleton].
      intros k Hk Hk'%list_elem_of_singleton. simpl in Hk'. by subst k.
    - intros k q [Hi|Hi%list_elem_of_singleton]%elem_of_app.
      + destruct (H3 _ _ Hi) as [Hlt Hx]. split; [lia|]. rewrite lookup_insert_ne; [done|]. symmetry. by eapply Hf.
      + simplify_eq. split; [lia|]. exists c. by rewrite lookup_insert_eq.
    - intros k q k' q' [Hi|Hi%list_elem_of_singleton]%elem_of_app [Hi'|Hi'%list_elem_of_singleton]%elem_of_app Hk.
      + by eapply H4.
      + simplify_eq. exfalso. eapply Hno; [exact Hi|]. by apply same_ends_sym.
      + simplify_eq. exfalso. by eapply Hno.
      + by simplify_eq. }
  split; [done|]. intros k. case_decide as Hk.
  - apply conn_Some; [done|]. unfold t'. cbn [ct_head ct_cnx]. rewrite Ha, Hc, lookup_insert_eq. set_solver.
  - destruct (conn t k) as [[q d]|] eqn:E.
    + apply conn_Some in E as (Hi & Hkq & Hd); [|done]. apply conn_Some; [done|]. unfold t'. cbn [ct_head ct_cnx].
      rewrite Ha, lookup_insert_ne by (symmetry; by eapply Hf). set_solver.
    + pose proof (proj1 (conn_None t k Ht) E) as Hno'. apply conn_None; [done|]. unfold t'. cbn [ct_head]. rewrite Ha.
      intros k' q [Hi|Hi%list_elem_of_singleton]%elem_of_app; [by eapply Hno'|by simplify_eq].
Qed.

Lemma runs_alloc t key mem Q :
  table_ok t → conn t key = None → ct_mem t = S mem →
  let x := (ct_fresh t, Cnx key [zero_stats; zero_stats] false (u32 (ct_id t + 1))) in
  (∀ t', table_ok t' → (∀ k, conn t' k = if decide (same_ends k key) then Some x else conn t k) →
    ct_released t' = ct_released t → Q (Some (ct_fresh t)) t') →
  runs (cnx_alloc key) t Q.
Proof.
  intros Ht Hn Hm x HQ. unfold cnx_alloc, cnx_insert. step. rewrite Hm. step. step. step. step. step.
  destruct (added t key x.2 (u32 (ct_id t + 1)) (ct_released t) (ct_error t) mem Ht Hn eq_refl) as [H1 H2].
  apply HQ; [exact H1|exact H2|done].
Qed.

Lemma runs_remove_release {A} (m : M (cnx_table H) A) t k0 p Q :
  table_ok t → (k0, p) ∈ items t →
  (∀ t', table_ok t' → (∀ k, conn t' k = if decide (same_ends k k0) then None else conn t k) →
    ct_released t' = ct_released t ++ [(p, true)] → ct_id t' = ct_id t → ct_mem t' = ct_mem t →
    ct_fresh t' = ct_fresh t → runs m t' Q) →
  runs (cnx_remove p;; cnx_release p true;; m) t Q.
Proof.
  intros Ht Hi HQ. unfold cnx_remove, cnx_release. apply runs_bind. step.
  step; [apply bool_decide_true, list_elem_of_fmap; by exists (k0, p)|]. step. step.
  destruct (removed t k0 p (ct_released t ++ [(p, true)]) Ht Hi) as [H1 H2]. by apply HQ.
Qed.
End spec.

(** C30 Opening a connection: when the end points have no connection, or only one that
    was dropped, [cnx_new] returns a fresh connection that is found for the key in the
    direction IN and for the reverse key in the direction OUT; the dropped one is
    released; every other connection stays. A live connection in either direction
    makes it fail with an error and changes nothing else. *)
Theorem cnx_new_correct {H} `{HashTable H} (t : cnx_table H) key mem :
  table_ok t → ct_mem t = S mem → ct_error t = None →
  runs (cnx_new key) t (λ r t',
    table_ok t' ∧
    if live t key
    then r = None ∧ ct_head t' = ct_head t ∧ ct_cnx t' = ct_cnx t ∧ ct_error t' = Some "cnx already exists"%string
    else r = Some (ct_fresh t) ∧
      (∀ k, conn t' k = if decide (same_ends k key)
        then Some (ct_fresh t, Cnx key [zero_stats; zero_stats] false (u32 (ct_id t + 1))) else conn t k) ∧
      ct_released t' = ct_released t ++ (if conn t key is Some x then [(x.1, true)] else []) ∧
      runs (cnx_get key) t' (λ a _, a = (r, CNX_DIR_IN, false)) ∧
      (swap_key key ≠ key → runs (cnx_get (swap_key key)) t' (λ a _, a = (r, CNX_DIR_OUT, false)))).
Proof.
  intros Ht Hm He. unfold cnx_new, live. call runs_find; [exact Ht|].
  assert (∀ t', table_ok t' → (∀ k, conn t' k = if decide (same_ends k key)
      then Some (ct_fresh t, Cnx key [zero_stats; zero_stats] false (u32 (ct_id t + 1))) else conn t k) →
    runs (cnx_get key) t' (λ a _, a = (Some (ct_fresh t), CNX_DIR_IN, false)) ∧
    (swap_key key ≠ key → runs (cnx_get (swap_key key)) t' (λ a _, a = (Some (ct_fresh t), CNX_DIR_OUT, false)))) as Hget.
  { intros t' Ht' Hc. split; [|intros Hne]; (apply runs_get; [exact Ht'|]).
    - rewrite Hc, decide_True by (by left). simpl. unfold dir_of. by rewrite decide_True.
    - rewrite Hc, decide_True by (right; by rewrite swap_swap_key). simpl. unfold dir_of.
      rewrite decide_False; [done|]. intros E. apply Hne. symmetry. exact E. }
  destruct (conn t key) as [[p c]|] eqn:Ex; simpl.
  - pose proof Ex as (Hi & Hk & Hc)%conn_Some; [|done]. destruct (cx_dropped c) eqn:Ed; cbn [negb].
    + eapply runs_remove_release; [exact Ht|exact Hi|]. intros t1 Ht1 Hc1 Hr1 Hid Hmem Hfr.
      eapply runs_alloc; [exact Ht1|rewrite Hc1, decide_True by done; done|by rewrite Hmem|].
      rewrite Hid, Hfr. intros t' Ht' Hc' Hr. split; [done|].
      assert (∀ k, conn t' k = if decide (same_ends k key)
        then Some (ct_fresh t, Cnx key [zero_stats; zero_stats] false (u32 (ct_id t + 1))) else conn t k) as Hall.
      { intros k. rewrite Hc'. case_decide as Hkk; [done|]. rewrite Hc1, decide_False; [done|].
        intros Hk'. apply Hkk. eapply same_ends_trans; [exact Hk'|]. by apply same_ends_sym. }
      split_and!; [done|done|by rewrite Hr, Hr1|by apply Hget..].
    + unfold cnx_error. step. step. split; [by destruct Ht; split|]. simpl. by rewrite He.
  - eapply runs_alloc; [exact Ht|done|exact Hm|].
    intros t' Ht' Hc Hr. split; [done|]. split_and!; [done|done|by rewrite app_nil_r|by apply Hget..].
Qed.

(** Dropping and closing a connection: a dropped connection stays in the table, is
    no longer returned for either of its keys and is reported as dropped; a closed
    one is not found any more. The other connections are not affected, and the
    release callback is called once, with the memory freed in the second case only. *)
Theorem cnx_drop_close_correct {H} `{HashTable H} (t : cnx_table H) k0 p c k :
  table_ok t → conn t k0 = Some (p, c) →
  runs (cnx_drop p) t (λ _ t', table_ok t' ∧ ct_released t' = ct_released t ++ [(p, false)] ∧
    runs (cnx_get k) t' (λ a _, if decide (same_ends k k0) then a = (None, dir_of k (p, c), true)
      else runs (cnx_get k) t (λ b _, b = a))) ∧
  runs (cnx_close p) t (λ _ t', table_ok t' ∧ ct_released t' = ct_released t ++ [(p, true)] ∧
    runs (cnx_get k) t' (λ a _, if decide (same_ends k k0) then a = (None, CNX_DIR_IN, false)
      else runs (cnx_get k) t (λ b _, b = a))).
Proof.
  intros Ht (Hi & Hk0 & Hc)%conn_Some; [|done].
  assert (∀ k, same_ends k k0 ↔ same_ends k (cx_key c)) as Hsame.
  { intros k'. split; intros Hx; (eapply same_ends_trans; [exact Hx|]); [done|by apply same_ends_sym]. }
  split.
  - unfold cnx_drop, cnx_release, upd_cnx. step. call runs_rd_cnx; [exact Hc|]. step. set (t' := set_cnx _ _).
    assert (table_ok t') as Ht'.
    { destruct Ht as [H1 H2 H3 H4]. split; try done. intros k' q Hq. simpl.
      destruct (H3 _ _ Hq) as [Hlt (d & Hd & Hkd)]. split; [done|].
      destruct (decide (q = p)) as [->|]; [|rewrite lookup_insert_ne by done; eauto].
      rewrite lookup_insert_eq. simplify_eq. by eexists. }
    split_and!; [done|done|]. apply runs_get; [done|]. case_decide as Hk.
    + assert (conn t' k = Some (p, Cnx (cx_key c) (cx_stats c) true (cx_id c))) as ->; [|done].
      apply conn_Some; [done|]. simpl. rewrite lookup_insert_eq. split_and!; [done|by apply Hsame|done].
    + apply runs_get; [done|]. replace (conn t' k) with (conn t k); [done|]. symmetry.
      destruct (conn t k) as [[q d]|] eqn:E.
      * apply conn_Some in E as (Hq & Hkq & Hd); [|done]. apply conn_Some; [done|]. simpl.
        rewrite lookup_insert_ne; [done|]. intros <-. apply Hk, Hsame. by rewrite (snd_inj _ _ _ _ (to_addr _ Ht) Hi Hq).
      * apply conn_None; [done|]. exact (proj1 (conn_None t k Ht) E).
  - unfold cnx_close, cnx_remove, cnx_release. apply runs_bind. step.
    step; [apply bool_decide_true, list_elem_of_fmap; by exists (cx_key c, p)|]. step. step.
    destruct (removed t (cx_key c) p (ct_released t ++ [(p, true)]) Ht Hi) as [H1 H2].
    split_and!; [exact H1|done|]. apply runs_get; [exact H1|]. set (t' := CnxTable _ _ _ _ _ _ _).
    rewrite (H2 k : conn t' k = _). destruct (decide (same_ends k (cx_key c))) as [Hk|Hk].
    + rewrite decide_True by (by apply Hsame). done.
    + rewrite decide_False by (by rewrite Hsame). by apply runs_get.
Qed.

(** ** An instance: an association list *)

#[export, refine] Instance assoc_table : HashTable (list (cnx_key * loc)) := {|
  hash_nil := [];
  hash_items := id;
  HASH_FIND k h := snd ∘ snd <$> list_find (λ x : cnx_key * loc, x.1 = k) h;
  HASH_ADD k p h := h ++ [(k, p)];
  HASH_DEL p h := filter (λ x : cnx_key * loc, x.2 ≠ p) h;
|}.
Proof.
  - done.
  - intros h k p Hnd. unfold id in *. split.
    + intros ([i [k' q]] & E & [= ->])%fmap_Some. apply list_find_Some in E as (Hl & Hk & _). simpl in Hk. subst k'.
      by eapply list_elem_of_lookup_2.
    + intros Hi. destruct (list_find _ _) as [[i [k' q]]|] eqn:E; simpl.
      * apply list_find_Some in E as (Hl & Hk & _). simpl in Hk. subst k'. apply list_elem_of_lookup in Hi as [j Hj].
        assert (i = j) as ->; [|congruence]. eapply NoDup_lookup; [exact Hnd|..]; rewrite list_lookup_fmap.
        -- by rewrite Hl.
        -- by rewrite Hj.
      * apply list_find_None in E. rewrite Forall_forall in E. by destruct (E _ Hi).
  - done.
  - done.
Defined.

Definition ex_key : cnx_key := CnxKey 167772161 167772162 1000 80.
Definition ex_table : cnx_table (list (cnx_key * loc)) :=
  default (cnx_table_new 3) (snd <$> cnx_new ex_key (cnx_table_new 3)).

Lemma cnx_new_correct_witness :
  runs (cnx_new ex_key) (cnx_table_new 3 : cnx_table (list (cnx_key * loc))) (λ r t',
    runs (cnx_get (swap_key ex_key)) t' (λ a _, a = (r, CNX_DIR_OUT, false))).
Proof.
  eapply runs_mono; [apply (cnx_new_correct (cnx_table_new 3 : cnx_table (list (cnx_key * loc))) ex_key 2)|].
  - apply table_new_ok.
  - reflexivity.
  - reflexivity.
  - intros r t' [_ (_ & _ & _ & _ & H)]. by apply H.
Defined.

Lemma ex_table_ok : table_ok ex_table.
Proof.
  assert (runs (cnx_new ex_key) (cnx_table_new 3 : cnx_table (list (cnx_key * loc))) (λ _ t', table_ok t')) as Hr.
  { unfold cnx_new. call runs_find; [apply table_new_ok|]. eapply runs_alloc; [apply table_new_ok|reflexivity|reflexivity|]. by intros. }
  destruct Hr as (r & t' & E & Ht). unfold ex_table. by rewrite E.
Qed.

Lemma cnx_drop_close_correct_witness :
  runs (cnx_drop 1) ex_table (λ _ t', runs (cnx_get (swap_key ex_key)) t' (λ a _, a = (None, CNX_DIR_OUT, true))).
Proof.
  destruct (cnx_drop_close_correct ex_table ex_key 1 (Cnx ex_key [zero_stats; zero_stats] false 1) (swap_key ex_key))
    as [H _].
  - exact ex_table_ok.
  - vm_compute. reflexivity.
  - eapply runs_mono; [exact H|]. intros _ t' (_ & _ & H2). eapply runs_mono; [exact H2|].
    intros a t'' Ha. cbv beta in Ha. destruct (decide _) as [Hk|Hk]; [exact Ha|]. destruct Hk. by right.
Defined.
