(* ===== verification/Time.v ===== *)
(** * Time values (lib/haka/time.c)

    [secs] is a signed 64-bit [time_t], [nsecs] an unsigned 32-bit integer. The
    conversions to and from floating point and to text are not modelled. *)

From S2P Require Import Prelude.

Record time := Time { secs : Z; nsecs : Z }.

#[export] Instance time_eq_dec : EqDecision time.
Proof. solve_decision. Defined.

Definition SEC_TO_NSEC : Z := 1000000000.
Definition invalid_time : time := Time 0 0.

(** [SEC_TO_NSEC] is an unsigned long long: the sums are unsigned 64-bit ones,
    converted back to the type of the field. *)
Definition time_add (t1 t2 : time) : time :=
  let n := u32 (nsecs t1 + nsecs t2) in
  Time (s64 (secs t1 + secs t2 + n / SEC_TO_NSEC)) (n `mod` SEC_TO_NSEC).

Definition time_cmp (t1 t2 : time) : Z :=
  if bool_decide (secs t1 < secs t2) then -1
  else if bool_decide (secs t1 > secs t2) then 1
  else if bool_decide (nsecs t1 < nsecs t2) then -1
  else if bool_decide (nsecs t1 > nsecs t2) then 1
  else 0.

Definition _time_diff {S} (t1 t2 : time) : M S time :=
  c_assert (bool_decide (secs t2 ≤ secs t1));;
  c_assert (bool_decide (0 ≤ time_cmp t1 t2));;
  let s := s64 (secs t1 - secs t2) in
  if bool_decide (nsecs t2 ≤ nsecs t1) then ret (Time s (nsecs t1 - nsecs t2))
  else
    c_assert (bool_decide (nsecs t2 ≤ nsecs t1 + SEC_TO_NSEC));;
    ret (Time (s - 1) (u32 (nsecs t1 + SEC_TO_NSEC - nsecs t2))).

(** The difference and the result. *)
Definition time_diff {S} (t1 t2 : time) : M S (Z * time) :=
  let cmp := time_cmp t1 t2 in
  d ← (if bool_decide (0 ≤ cmp) then _time_diff t1 t2 else _time_diff t2 t1);
  ret (cmp, d).

(** A division by zero traps. *)
Definition time_divide {S} (t1 t2 : time) : M S Z :=
  let a := u64 (secs t1 * SEC_TO_NSEC + nsecs t1) in
  let b := u64 (secs t2 * SEC_TO_NSEC + nsecs t2) in
  if bool_decide (b = 0) then stuck else ret (a / b).

Definition time_mult (t1 : time) (mult : Z) : time :=
  let n := u64 (nsecs t1 * mult) in
  let s := s64 (secs t1 * mult) in
  Time (s64 (s + n / SEC_TO_NSEC)) (u32 (n `mod` SEC_TO_NSEC)).

Definition time_isvalid (t : time) : bool :=
  negb (bool_decide (secs t = 0)) || negb (bool_decide (nsecs t = 0)).

(** ** The instant in nanoseconds *)

Definition ns (t : time) : Z := secs t * SEC_TO_NSEC + nsecs t.

(** A normalised time whose nanoseconds fit in 61 bits. *)
Definition time_ok (t : time) : Prop :=
  0 ≤ secs t ∧ 0 ≤ nsecs t < SEC_TO_NSEC ∧ ns t < 2 ^ 61.

Section time.
Implicit Types t : time.

Lemma time_ok_bounds t : time_ok t → 0 ≤ secs t < 2 ^ 32 ∧ 0 ≤ ns t < 2 ^ 61.
Proof. unfold time_ok, ns, SEC_TO_NSEC. lia. Qed.

Lemma ns_inj t1 t2 : time_ok t1 → time_ok t2 → ns t1 = ns t2 → t1 = t2.
Proof. destruct t1, t2. unfold time_ok, ns, SEC_TO_NSEC. simpl. intros. f_equal; lia. Qed.

Lemma s64_small x : 0 ≤ x < 2 ^ 62 → s64 x = x.
Proof. intros. apply swrap_small; lia. Qed.

Lemma time_cmp_ns t1 t2 : time_ok t1 → time_ok t2 → time_cmp t1 t2 = Z.sgn (ns t1 - ns t2).
Proof.
  unfold time_ok, time_cmp, ns, SEC_TO_NSEC. intros H1 H2. repeat case_bool_decide; lia.
Qed.

Lemma time_add_ok t1 t2 :
  time_ok t1 → time_ok t2 → ns t1 + ns t2 < 2 ^ 61 →
  time_ok (time_add t1 t2) ∧ ns (time_add t1 t2) = ns t1 + ns t2.
Proof.
  unfold time_ok, time_add, ns, SEC_TO_NSEC. cbn [secs nsecs]. intros H1 H2 H3.
  rewrite u32_small by lia. pose proof (Z.div_mod (nsecs t1 + nsecs t2) 1000000000).
  pose proof (Z.mod_pos_bound (nsecs t1 + nsecs t2) 1000000000).
  pose proof (Z.div_pos (nsecs t1 + nsecs t2) 1000000000).
  rewrite s64_small by lia. lia.
Qed.

Lemma runs_time_diff_pos {S} (s : S) t1 t2 Q :
  time_ok t1 → time_ok t2 → ns t2 ≤ ns t1 →
  (∀ d, time_ok d → ns d = ns t1 - ns t2 → Q d s) → runs (_time_diff t1 t2) s Q.
Proof.
  intros H1 H2 H3 HQ. pose proof (time_cmp_ns _ _ H1 H2) as Hc. unfold time_ok, _time_diff, ns, SEC_TO_NSEC in *.
  step; [apply bool_decide_true; lia|]. step; [apply bool_decide_true; lia|].
  rewrite s64_small by lia. case_test as Hn.
  - step. apply HQ; simpl; lia.
  - step; [apply bool_decide_true; lia|]. step. rewrite u32_small by lia. apply HQ; simpl; lia.
Qed.

Lemma runs_time_diff {S} (s : S) t1 t2 Q :
  time_ok t1 → time_ok t2 →
  (∀ d, time_ok d → ns d = Z.abs (ns t1 - ns t2) → Q (Z.sgn (ns t1 - ns t2), d) s) →
  runs (time_diff t1 t2) s Q.
Proof.
  intros H1 H2 HQ. unfold time_diff. rewrite time_cmp_ns by done. case_test as Hs.
  - call runs_time_diff_pos; [done|done|lia|]. intros d Hd E. step. apply HQ; [done|lia].
  - call runs_time_diff_pos; [done|done|lia|]. intros d Hd E. step. apply HQ; [done|lia].
Qed.

Lemma runs_time_divide {S} (s : S) t1 t2 Q :
  time_ok t1 → time_ok t2 → 0 < ns t2 → Q (ns t1 / ns t2) s → runs (time_divide t1 t2) s Q.
Proof.
  intros H1 H2 H3 HQ. unfold time_divide. fold (ns t1) (ns t2).
  destruct (time_ok_bounds _ H1), (time_ok_bounds _ H2). rewrite !u64_small by lia.
  rewrite bool_decide_false by lia. by step.
Qed.

Lemma time_mult_ok t m :
  time_ok t → 0 ≤ m → ns t * m < 2 ^ 61 → time_ok (time_mult t m) ∧ ns (time_mult t m) = ns t * m.
Proof.
  unfold time_ok, time_mult, ns, SEC_TO_NSEC. cbn [secs nsecs]. intros H1 H2 H3.
  assert (0 ≤ nsecs t * m < 2 ^ 61) by nia. assert (0 ≤ secs t * m < 2 ^ 61) by nia.
  rewrite u64_small by lia. pose proof (Z.div_mod (nsecs t * m) 1000000000).
  pose proof (Z.mod_pos_bound (nsecs t * m) 1000000000). pose proof (Z.div_pos (nsecs t * m) 1000000000).
  rewrite u32_small by lia. rewrite (s64_small (secs t * m)) by lia. rewrite s64_small by nia. nia.
Qed.
End time.

(** Arithmetic on times: on normalised times below 2^61 nanoseconds, [time_cmp]
    is the order of the instants, [time_add] and [time_mult] are exact and
    normalised, [time_diff] gives the distance and the sign, and [time_divide] the
    quotient of the instants. *)
Theorem time_correct {S} (s : S) t1 t2 m :
  time_ok t1 → time_ok t2 → ns t1 + ns t2 < 2 ^ 61 → 0 ≤ m → ns t1 * m < 2 ^ 61 → 0 < ns t2 →
  time_cmp t1 t2 = Z.sgn (ns t1 - ns t2) ∧
  (time_ok (time_add t1 t2) ∧ ns (time_add t1 t2) = ns t1 + ns t2) ∧
  (time_ok (time_mult t1 m) ∧ ns (time_mult t1 m) = ns t1 * m) ∧
  runs (time_diff t1 t2) s (λ r s', s' = s ∧ r.1 = time_cmp t1 t2 ∧ time_ok r.2 ∧ ns r.2 = Z.abs (ns t1 - ns t2)) ∧
  runs (time_divide t1 t2) s (λ r s', s' = s ∧ r = ns t1 / ns t2).
Proof.
  intros H1 H2 H3 H4 H5 H6.
  split_and!; [by apply time_cmp_ns|by apply time_add_ok..|by apply time_mult_ok|by apply time_mult_ok| |].
  - apply runs_time_diff; [done|done|]. intros d Hd E. simpl. by rewrite time_cmp_ns.
  - by apply runs_time_divide.
Qed.

Lemma time_correct_witness :
  time_cmp (Time 3 5) (Time 2 999999999) = 1 ∧ ns (time_add (Time 3 5) (Time 2 999999999)) = 6000000004.
Proof.
  destruct (time_correct tt (Time 3 5) (Time 2 999999999) 2) as (H1 & [_ H2] & _);
    [vm_compute; repeat split; congruence..|].
  split; [rewrite H1|rewrite H2]; reflexivity.
Defined.
