(* ===== verification/Pcap.v ===== *)
(** * The pcap capture module (modules/capture/pcap/pcap.c, main.c)

    Packets come from libpcap, from a device or a file, and go to a dump file. A
    captured packet owns the buffer of its frame; the bytes behind the link layer
    header are selected out of it as the payload that the filters see, and the verdict
    puts them back. A packet that the filters make is put in a queue from which it is
    received again.

    The state is that of one thread: its buffers, its packets with the links of the
    queue, the counter of the packets and the two dump files with the records they
    hold. What libpcap, [select] and the clock answer during a reception is the
    argument of the reception. *)

From S2P Require Import Prelude Types List2 List VbHeap VbIter VbSub Time.

(** ** Data *)

(** [struct pcap_pkthdr]: a time in seconds and microseconds, and two lengths. *)
Record pcap_pkthdr := Pkthdr { tv_sec : Z; tv_usec : Z; caplen : Z; len : Z }.

Record pcap_packet := PcapPacket {
  pp_payload : vbuffer;
  pp_timestamp : time;
  pp_header : pcap_pkthdr;
  pp_data : vbuffer;
  pp_select : vbuffer_iterator;
  pp_id : Z;
  pp_link_type : Z;
  pp_captured : bool;
}.

(** [pd_file]: the size of the file, when the capture reads one. *)
Record pcap_capture := PcapCapture {
  pd_link_type : Z;
  pd_file : option Z;
  pd_last_progress : time;
}.

(** A dump file is the list of its records. *)
Abbreviation dump := (list (pcap_pkthdr * list Z)).

Record capture_state := Capture {
  ca_vb : vbstate;
  ca_sent : lstate;
  ca_packets : gmap loc pcap_packet;
  ca_pd : list pcap_capture;
  ca_pin : option dump;
  ca_pout : option dump;
  ca_packet_id : Z;
  ca_link_type : Z;
  ca_passthrough : bool;
  ca_log : list string;
}.

Abbreviation PM := (M capture_state).

Definition set_ca_vb (v : vbstate) (s : capture_state) : capture_state :=
  Capture v (ca_sent s) (ca_packets s) (ca_pd s) (ca_pin s) (ca_pout s) (ca_packet_id s) (ca_link_type s) (ca_passthrough s) (ca_log s).
Definition set_ca_sent (l : lstate) (s : capture_state) : capture_state :=
  Capture (ca_vb s) l (ca_packets s) (ca_pd s) (ca_pin s) (ca_pout s) (ca_packet_id s) (ca_link_type s) (ca_passthrough s) (ca_log s).
Definition set_ca_packets (p : gmap loc pcap_packet) (s : capture_state) : capture_state :=
  Capture (ca_vb s) (ca_sent s) p (ca_pd s) (ca_pin s) (ca_pout s) (ca_packet_id s) (ca_link_type s) (ca_passthrough s) (ca_log s).
Definition set_ca_pd (l : list pcap_capture) (s : capture_state) : capture_state :=
  Capture (ca_vb s) (ca_sent s) (ca_packets s) l (ca_pin s) (ca_pout s) (ca_packet_id s) (ca_link_type s) (ca_passthrough s) (ca_log s).
Definition set_ca_pin (d : option dump) (s : capture_state) : capture_state :=
  Capture (ca_vb s) (ca_sent s) (ca_packets s) (ca_pd s) d (ca_pout s) (ca_packet_id s) (ca_link_type s) (ca_passthrough s) (ca_log s).
Definition set_ca_pout (d : option dump) (s : capture_state) : capture_state :=
  Capture (ca_vb s) (ca_sent s) (ca_packets s) (ca_pd s) (ca_pin s) d (ca_packet_id s) (ca_link_type s) (ca_passthrough s) (ca_log s).
Definition set_ca_id (n : Z) (s : capture_state) : capture_state :=
  Capture (ca_vb s) (ca_sent s) (ca_packets s) (ca_pd s) (ca_pin s) (ca_pout s) n (ca_link_type s) (ca_passthrough s) (ca_log s).
Definition set_ca_log (l : list string) (s : capture_state) : capture_state :=
  Capture (ca_vb s) (ca_sent s) (ca_packets s) (ca_pd s) (ca_pin s) (ca_pout s) (ca_packet_id s) (ca_link_type s) (ca_passthrough s) l.

Definition on_vb {A} (m : VM A) : PM A := zoom ca_vb set_ca_vb m.
Definition on_sent {A} (m : LM A) : PM A := zoom ca_sent set_ca_sent m.
Definition log (msg : string) : PM unit := modify (λ s, set_ca_log (ca_log s ++ [msg]) s).

Definition rd_packet (p : loc) : PM pcap_packet := o ← gets (λ s, ca_packets s !! p); deref o.
Definition wr_packet (p : loc) (v : pcap_packet) : PM unit :=
  modify (λ s, set_ca_packets (<[p := v]> (ca_packets s)) s).
Definition upd_packet (p : loc) (f : pcap_packet → pcap_packet) : PM unit :=
  v ← rd_packet p; wr_packet p (f v).
(** [free]: the packet and the links it embeds. *)
Definition free_packet (p : loc) : PM unit :=
  modify (λ s, set_ca_sent (set_llinks (delete p (ls_links (ca_sent s))) (ca_sent s))
    (set_ca_packets (delete p (ca_packets s)) s)).

(** Fields of a packet. *)
Definition set_pp_data (d : vbuffer) (p : pcap_packet) : pcap_packet :=
  PcapPacket (pp_payload p) (pp_timestamp p) (pp_header p) d (pp_select p) (pp_id p) (pp_link_type p) (pp_captured p).
Definition set_pp_payload (b : vbuffer) (it : vbuffer_iterator) (p : pcap_packet) : pcap_packet :=
  PcapPacket b (pp_timestamp p) (pp_header p) (pp_data p) it (pp_id p) (pp_link_type p) (pp_captured p).
Definition set_pp_header (h : pcap_pkthdr) (p : pcap_packet) : pcap_packet :=
  PcapPacket (pp_payload p) (pp_timestamp p) h (pp_data p) (pp_select p) (pp_id p) (pp_link_type p) (pp_captured p).
Definition set_pp_captured (b : bool) (p : pcap_packet) : pcap_packet :=
  PcapPacket (pp_payload p) (pp_timestamp p) (pp_header p) (pp_data p) (pp_select p) (pp_id p) (pp_link_type p) b.

(** ** Link layer headers (pcap.c) *)

Definition DLT_NULL : Z := 0.
Definition DLT_EN10MB : Z := 1.
Definition DLT_RAW : Z := 12.
Definition DLT_LINUX_SLL : Z := 113.
Definition DLT_IPV4 : Z := 228.
Definition ETH_P_IP : Z := 0x800.
Definition ETH_P_8021Q : Z := 0x8100.
Definition PF_INET : Z := 2.

(** A 16-bit field in network byte order, read on a little endian machine. *)
Definition ntohs (bs : list Z) : Z := SWAP_FROM_BE 2 (le_value bs).
Definition htons (x : Z) : list Z := le_bytes 2 (SWAP_TO_BE 2 x).

(** An unsupported link type stops at the assertion. *)
Definition get_link_type_offset (link_type : Z) : VM Z :=
  if bool_decide (link_type = DLT_LINUX_SLL) then ret 16
  else if bool_decide (link_type = DLT_EN10MB) then ret 14
  else if bool_decide (link_type = DLT_IPV4 ∨ link_type = DLT_RAW) then ret 0
  else if bool_decide (link_type = DLT_NULL) then ret 4
  else stuck.

(** The address of the flattened bytes and their number, [None] for NULL. *)
Definition sub_flatten (buf : vbuffer) (offset size : Z) : VM (option (loc * Z * Z)) :=
  sub ← vbuffer_sub_create buf offset size;
  '(m, _) ← vbuffer_sub_flatten sub;
  match m with
  | MapPtr a n => ret (Some (a, n))
  | MapNull => ret None
  | MapBad o => if bool_decide (o = 0) then ret None else stuck
  end.

(** The protocol and the offset of the data; each VLAN tag has four bytes. *)
Fixpoint get_eth_protocol (fuel : nat) (proto : Z) (packet_buffer : vbuffer) (data_offset : Z) : VM (Z * Z) :=
  if bool_decide (proto = ETH_P_8021Q) then
    match fuel with
    | O => stuck
    | S fuel =>
        vt ← sub_flatten packet_buffer data_offset 4;
        match vt with
        | None => ret (-1, data_offset)
        | Some (a, n) =>
            if bool_decide (n < 4) then ret (-1, data_offset) else
            tci ← ptr_read (a.1, a.2 + 2) 2;
            get_eth_protocol fuel (ntohs tci) packet_buffer (u64 (data_offset + 4))
        end
    end
  else ret (proto, data_offset).

(** Fuel for the tags of a frame: its size. *)
Definition tag_fuel (packet_buffer : vbuffer) : VM nat :=
  n ← vbuffer_size packet_buffer; ret (S (Z.to_nat n)).

Definition get_protocol (link_type : Z) (packet_buffer : vbuffer) : VM (Z * Z) :=
  size ← get_link_type_offset link_type;
  let data_offset := size in
  fuel ← tag_fuel packet_buffer;
  data ← (if bool_decide (size > 0) then sub_flatten packet_buffer 0 size else ret None);
  if bool_decide (size > 0) && (if data is Some (_, n) then bool_decide (n < data_offset) else true)
  then ret (-1, data_offset) else
  if bool_decide (link_type = DLT_LINUX_SLL) then
    match data with
    | Some (a, _) => p ← ptr_read (a.1, a.2 + 14) 2; get_eth_protocol fuel (ntohs p) packet_buffer data_offset
    | None => ret (0, data_offset)
    end
  else if bool_decide (link_type = DLT_EN10MB) then
    match data with
    | Some (a, _) => p ← ptr_read (a.1, a.2 + 12) 2; get_eth_protocol fuel (ntohs p) packet_buffer data_offset
    | None => ret (0, data_offset)
    end
  else if bool_decide (link_type = DLT_IPV4 ∨ link_type = DLT_RAW) then ret (ETH_P_IP, data_offset)
  else if bool_decide (link_type = DLT_NULL) then
    '(a, _) ← deref data;
    f ← ptr_read a 4;
    ret (if bool_decide (le_value f = PF_INET) then ETH_P_IP else -1, 4)
  else stuck.

(** ** Packets (main.c) *)

(** [vbuffer_select] writes the payload in any case and the reference on success. *)
Definition packet_build_payload (packet : loc) : PM bool :=
  p ← rd_packet packet;
  '(proto, data_offset) ← on_vb (get_protocol (pp_link_type p) (pp_data p));
  if bool_decide (proto < 0) then ret false else
  sub ← on_vb (vbuffer_sub_create (pp_data p) data_offset size_max);
  '(ok, _, payload, select) ← on_vb (vbuffer_select sub);
  upd_packet packet (set_pp_payload payload (if ok : bool then select else pp_select p));;
  ret ok.

(** The dump files. *)
Definition pcap_dump_pin (h : pcap_pkthdr) (p : list Z) : PM unit :=
  modify (λ s, set_ca_pin ((λ d, d ++ [(h, ztake (caplen h) p)]) <$> ca_pin s) s).
Definition pcap_dump_pout (h : pcap_pkthdr) (p : list Z) : PM unit :=
  modify (λ s, set_ca_pout ((λ d, d ++ [(h, ztake (caplen h) p)]) <$> ca_pout s) s).

(** What [pcap_next_ex] gives. *)
Inductive next_result := NextError | NextEof | NextTimeout | NextPacket (header : pcap_pkthdr) (p : list Z).

(** The answers of the system to a reception: the descriptor of each capture, the
    result of [select], [errno] and the descriptors that are set, the next packet of
    each capture, the position in its file and the time. *)
Record input := Input {
  in_fd : nat → Z;
  in_select : Z;
  in_errno : Z;
  in_isset : Z → bool;
  in_next : nat → next_result;
  in_ftell : nat → Z;
  in_time : time;
}.

Definition EINTR : Z := 4.
Definition ENOMEM : Z := 12.
Definition PROGRESS_DELAY : Z := 5.

(** The progress in a file: a division by zero traps. *)
Definition show_progress (i : nat) (inp : input) : PM unit :=
  pds ← gets ca_pd;
  pd ← deref (pds !! i);
  match pd_file pd with
  | None => skip
  | Some file_size =>
      c_assert (negb (bool_decide (file_size = 0)));;
      let percent := u64 (in_ftell inp i * 10000) / file_size in
      let update := modify (λ s, set_ca_pd (<[i := PcapCapture (pd_link_type pd) (pd_file pd) (in_time inp)]> (ca_pd s)) s) in
      if time_isvalid (pd_last_progress pd) then
        '(_, difftime) ← time_diff (in_time inp) (pd_last_progress pd);
        if bool_decide (secs difftime >= PROGRESS_DELAY) then
          update;; if bool_decide (percent > 0) then log "progress" else skip
        else skip
      else update
  end.

(** A packet of the capture [i]; [None] when no packet is given to the caller. *)
Definition receive_packet (i : nat) (inp : input) (header : pcap_pkthdr) (p : list Z) : PM (Z * ptr) :=
  a ← on_vb malloc;
  match a with
  | None => ret (ENOMEM, None)
  | Some packet =>
      wr_packet packet (PcapPacket None invalid_time (Pkthdr 0 0 0 0) None (Iter None 0 0 false) 0 0 false);;
      pcap_dump_pin header p;;
      on_sent (_list_init packet);;
      c_assert (bool_decide (caplen header ≤ zlen p));;
      '(ok, data) ← on_vb (vbuffer_create_from (ztake (caplen header) p));
      if negb ok then free_packet packet;; ret (ENOMEM, None) else
      passthrough ← gets ca_passthrough;
      on_vb (vbuffer_setwritable data (negb passthrough));;
      pds ← gets ca_pd;
      pd ← deref (pds !! i);
      id ← gets (λ s, u64 (ca_packet_id s + 1));
      modify (set_ca_id id);;
      wr_packet packet (PcapPacket None (Time (tv_sec header) (u32 (tv_usec header * 1000))) header data
        (Iter None 0 0 false) id (pd_link_type pd) true);;
      (if bool_decide (caplen header < len header) then log "packet truncated" else skip);;
      show_progress i inp;;
      ok ← packet_build_payload packet;
      if negb ok then
        log "malformed packet";;
        pk ← rd_packet packet;
        _ ← on_vb (vbuffer_release (pp_data pk));
        free_packet packet;;
        ret (ENOMEM, None)
      else ret (0, Some packet)
  end.

Definition packet_do_receive (inp : input) : PM (Z * ptr) :=
  h ← gets (λ s, ls_head (ca_sent s));
  match h with
  | Some packet =>
      on_sent (_list_remove packet true true);;
      upd_packet packet (set_pp_captured true);;
      ret (0, Some packet)
  | None =>
      count ← gets (λ s, length (ca_pd s));
      if existsb (λ i, bool_decide (in_fd inp i < 0)) (seq 0 count) then
        log "descriptor error";; ret (1, None)
      else if bool_decide (in_select inp < 0) then
        if bool_decide (in_errno inp = EINTR) then ret (0, None)
        else log "select error";; ret (1, None)
      else if bool_decide (in_select inp = 0) then ret (0, None)
      else
        match List.find (λ i, in_isset inp (in_fd inp i)) (seq 0 count) with
        | None => ret (0, None)
        | Some i =>
            match in_next inp i with
            | NextError => log "pcap error";; ret (1, None)
            | NextEof => ret (1, None)
            | NextTimeout => ret (0, None)
            | NextPacket header p =>
                if bool_decide (caplen header = 0 ∨ len header < caplen header) then
                  modify (λ s, set_ca_id (u64 (ca_packet_id s + 1)) s);;
                  log "skipping malformed packet";; ret (0, None)
                else receive_packet i inp header p
            end
        end
  end.

(** [vbuffer_clear(&pkt->data)]. *)
Definition clear_data (orig_pkt : loc) : PM unit :=
  pkt ← rd_packet orig_pkt;
  d ← on_vb (vbuffer_clear (pp_data pkt));
  upd_packet orig_pkt (set_pp_data d).

Definition packet_verdict (orig_pkt : loc) (result : filter_result) : PM unit :=
  pkt ← rd_packet orig_pkt;
  if negb (vbuffer_isvalid (pp_data pkt)) then skip else
  '(_, select, payload) ← on_vb (vbuffer_restore (pp_select pkt) (Some (pp_payload pkt)) false);
  upd_packet orig_pkt (set_pp_payload (default (pp_payload pkt) payload) select);;
  pout ← gets ca_pout;
  if negb (is_null pout) && bool_decide (result = FILTER_ACCEPT) then
    '(m, _) ← on_vb (vbuffer_flatten (pp_data pkt));
    match m with
    | MapPtr a n =>
        pkt ← rd_packet orig_pkt;
        let h := pp_header pkt in
        let h := if bool_decide (caplen h = n) then h else Pkthdr (tv_sec h) (tv_usec h) (u32 n) (u32 n) in
        upd_packet orig_pkt (set_pp_header h);;
        bs ← on_vb (ptr_read a (caplen h));
        pcap_dump_pout h bs;;
        clear_data orig_pkt
    | _ =>
        e ← on_vb check_error;
        c_assert e;;
        clear_data orig_pkt
    end
  else clear_data orig_pkt.

Definition packet_get_dissector (orig_pkt : loc) : PM (option string) :=
  pkt ← rd_packet orig_pkt;
  '(proto, _) ← on_vb (get_protocol (pp_link_type pkt) (pp_data pkt));
  if bool_decide (proto = ETH_P_IP) then ret (Some "ipv4")
  else if bool_decide (proto = -1) then log "malformed packet";; ret None
  else ret None.

Definition packet_get_id (orig_pkt : loc) : PM Z := pkt ← rd_packet orig_pkt; ret (pp_id pkt).

Definition packet_do_release (orig_pkt : loc) : PM unit :=
  pkt ← rd_packet orig_pkt;
  (if vbuffer_isvalid (pp_data pkt) then packet_verdict orig_pkt FILTER_DROP else skip);;
  pkt ← rd_packet orig_pkt;
  _ ← on_vb (vbuffer_release (pp_payload pkt));
  _ ← on_vb (vbuffer_release (pp_data pkt));
  free_packet orig_pkt.

Definition packet_getstate (orig_pkt : loc) : PM packet_status :=
  pkt ← rd_packet orig_pkt;
  if vbuffer_isvalid (pp_data pkt) then
    n ← on_sent (list_next orig_pkt);
    if negb (is_null n) then ret STATUS_SENT else
    p ← on_sent (list_prev orig_pkt);
    if negb (is_null p) then ret STATUS_SENT else
    ret (if pp_captured pkt then STATUS_NORMAL else STATUS_FORGED)
  else ret STATUS_SENT.

(** The protocol in the link layer header of a new packet, at its address if it has one. *)
Definition write_protocol (link_type : Z) (data : option (loc * Z)) : VM unit :=
  if bool_decide (link_type = DLT_IPV4 ∨ link_type = DLT_RAW) then skip
  else if bool_decide (link_type = DLT_NULL) then a ← deref data; ptr_write a (le_bytes 4 PF_INET)
  else if bool_decide (link_type = DLT_LINUX_SLL) then a ← deref data; ptr_write (a.1, a.2 + 14) (htons ETH_P_IP)
  else if bool_decide (link_type = DLT_EN10MB) then a ← deref data; ptr_write (a.1, a.2 + 12) (htons ETH_P_IP)
  else stuck.

Definition new_packet (now : time) (size : Z) : PM ptr :=
  a ← on_vb malloc;
  match a with
  | None => on_vb (error "Memory error");; ret None
  | Some packet =>
      on_sent (_list_init packet);;
      link_type ← gets ca_link_type;
      data_offset ← on_vb (get_link_type_offset link_type);
      let size := u64 (size + data_offset) in
      '(ok, buf) ← on_vb (vbuffer_create_new size true);
      if negb ok then e ← on_vb check_error; c_assert e;; free_packet packet;; ret None else
      sub ← on_vb (vbuffer_sub_create buf 0 data_offset);
      '(m, _) ← on_vb (vbuffer_mmap sub true vbuffer_mmap_init);
      let data := (λ x : loc * Z * Z * vbuffer_iterator, x.1.1) <$> m in
      let n := match m with Some (_, _, n, _) => n | None => 0 end in
      c_assert (bool_decide (n = data_offset));;
      wr_packet packet (PcapPacket None now (Pkthdr 0 0 (u32 size) (u32 size)) buf (Iter None 0 0 false) 0 link_type false);;
      on_vb (write_protocol link_type data);;
      ok ← packet_build_payload packet;
      if negb ok then
        pk ← rd_packet packet;
        _ ← on_vb (vbuffer_release (pp_data pk));
        free_packet packet;;
        ret None
      else ret (Some packet)
  end.

Definition send_packet (orig_pkt : loc) : PM bool :=
  passthrough ← gets ca_passthrough;
  if passthrough : bool then on_vb (error "sending is not supported in pass-through");; ret false else
  pkt ← rd_packet orig_pkt;
  c_assert (vbuffer_isvalid (pp_data pkt));;
  n ← on_sent (list_next orig_pkt);
  p ← on_sent (list_prev orig_pkt);
  c_assert (is_null n && is_null p);;
  tail ← gets (λ s, ls_tail (ca_sent s));
  on_sent (_list_insert_after orig_pkt tail true true);;
  ret true.

Definition get_mtu (pkt : loc) : PM Z := ret 1500.
Definition get_timestamp (orig_pkt : loc) : PM time := pkt ← rd_packet orig_pkt; ret (pp_timestamp pkt).
Definition multi_threaded : bool := false.
Definition pass_through : PM bool := gets ca_passthrough.
