(* ===== verification/PcapSpec.v ===== *)
(** * Link layer headers of captured frames (modules/capture/pcap/pcap.c)

    The protocol and the offset of the data that [get_protocol] finds in a frame are
    those of a parser of the bytes of the frame. *)

From S2P Require Import Prelude Types List2 List VbHeap VbIter VbSub VbRep VbWalk VbFrame VbMut VbEdit VbClear VbMake VbCtl VbRead VbWrite VbSelect VbSelectSpec VbMap VbSpec Time Pcap.

(** ** The parser *)

(** The protocol behind the VLAN tags: two bytes of priority and number, two of the
    protocol that follows. *)
Fixpoint eth_protocol (proto : Z) (rest : list Z) (off : Z) : Z * Z :=
  if bool_decide (proto = ETH_P_8021Q) then
    match rest with
    | _ :: _ :: x :: y :: rest => eth_protocol (256 * x + y) rest (off + 4)
    | _ => (-1, off)
    end
  else (proto, off).

(** The two bytes at [off] as a number. *)
Definition be16 (off : Z) (bs : list Z) : Z :=
  match zslice off 2 bs with [x; y] => 256 * x + y | _ => 0 end.

(** A frame of the link type: -1 for a header that is cut. *)
Definition link_protocol (link_type : Z) (bs : list Z) : Z * Z :=
  if bool_decide (link_type = DLT_LINUX_SLL) then
    if bool_decide (zlen bs < 16) then (-1, 16) else eth_protocol (be16 14 bs) (zdrop 16 bs) 16
  else if bool_decide (link_type = DLT_EN10MB) then
    if bool_decide (zlen bs < 14) then (-1, 14) else eth_protocol (be16 12 bs) (zdrop 14 bs) 14
  else if bool_decide (link_type = DLT_NULL) then
    if bool_decide (zlen bs < 4) then (-1, 4)
    else (if bool_decide (ztake 4 bs = [2; 0; 0; 0]) then ETH_P_IP else -1, 4)
  else (ETH_P_IP, 0).

(** The link types that [open_pcap] lets through. *)
Definition supported (link_type : Z) : Prop :=
  link_type ∈ [DLT_LINUX_SLL; DLT_EN10MB; DLT_IPV4; DLT_RAW; DLT_NULL].

Lemma be16_ntohs off bs :
  Forall (λ b, 0 ≤ b < 256) bs → 0 ≤ off → off + 2 ≤ zlen bs → ntohs (zslice off 2 bs) = be16 off bs.
Proof.
  intros Hb Ho Hl. unfold be16. pose proof (zlen_zslice off 2 bs ltac:(lia) ltac:(lia) ltac:(lia)) as El.
  assert (Forall (λ b, 0 ≤ b < 256) (zslice off 2 bs)) as Hf.
  { unfold zslice, ztake, zdrop. by apply Forall_take, Forall_drop. }
  destruct (zslice off 2 bs) as [|x [|y [|z l]]]; try (unfold zlen in El; simpl in El; lia).
  unfold ntohs. assert (width_ok 2) as Hw by (unfold width_ok; set_solver).
  pose proof (swap_bytes 2 (le_value [x; y]) Hw) as E. change (Z.to_nat 2) with 2%nat in E.
  change 2%nat with (length [x; y]) in E at 2. rewrite le_bytes_value in E by done.
  unfold SWAP_FROM_BE. rewrite <- (le_value_bytes 2 (SWAP 2 _)).
  - rewrite E. simpl. lia.
  - apply swap_range; [done|]. pose proof (le_value_range [x; y] Hf) as Hr. unfold zlen in Hr. simpl in *. lia.
Qed.

Lemma le_value_inet bs :
  Forall (λ b, 0 ≤ b < 256) bs → 4 ≤ zlen bs →
  bool_decide (le_value (ztake 4 bs) = PF_INET) = bool_decide (ztake 4 bs = [2; 0; 0; 0]).
Proof.
  intros Hb Hl. assert (Forall (λ b, 0 ≤ b < 256) (ztake 4 bs)) as Hf by (by apply Forall_take).
  pose proof (zlen_ztake 4 bs ltac:(lia)) as El. pose proof (le_bytes_value _ Hf) as E.
  assert (length (ztake 4 bs) = 4%nat) as En by (unfold zlen in El; lia). rewrite En in E.
  apply bool_decide_ext. split; intros Ev; [by rewrite <- E, Ev|by rewrite Ev].
Qed.

(** The data of a frame that is not cut begins inside it. *)
Lemma eth_protocol_off proto rest off :
  (eth_protocol proto rest off).1 ≠ -1 → off ≤ (eth_protocol proto rest off).2 ≤ off + zlen rest.
Proof.
  revert proto off. induction rest as [rest IH] using (well_founded_induction (well_founded_ltof _ length)).
  intros proto off. pose proof (zlen_nonneg rest).
  destruct rest as [|a [|b [|x [|y rest]]]]; simpl; case_bool_decide; simpl; intros Hp; try done; try lia.
  rewrite !zlen_cons. specialize (IH rest). pose proof (IH ltac:(unfold ltof; simpl; lia) _ _ Hp). lia.
Qed.

Lemma link_protocol_off lt bs :
  (link_protocol lt bs).1 ≠ -1 → 0 ≤ (link_protocol lt bs).2 ≤ zlen bs.
Proof.
  pose proof (zlen_nonneg bs). unfold link_protocol. repeat case_bool_decide; simpl; intros Hp; try done; try lia.
  - pose proof (eth_protocol_off _ _ _ Hp) as E. rewrite zlen_zdrop in E; lia.
  - pose proof (eth_protocol_off _ _ _ Hp) as E. rewrite zlen_zdrop in E; lia.
Qed.

(** ** Mapping a part of the first chunk *)

Section first.
Context (v : vbstate) (e c : loc) (ch : vbuffer_chunk) (cs : list seg).
Hypothesis (H : buf_rep v e ((c, ch) :: cs)) (Hctl : fl_ctl (ch_flags ch) = false).
#[local] Set Default Proof Using "H Hctl".

Lemma first_pos o : 0 ≤ o ≤ ch_size ch → pos_of e ((c, ch) :: cs) c o o.
Proof.
  intros Ho. left. exists [], ch, cs. pose proof (csize_tail v e ((c, ch) :: cs) []) as Ht.
  rewrite app_nil_r in Ht. specialize (Ht H). simpl in Ht. rewrite csize_nil, csize_cons. simpl. split_and!; try done; lia.
Qed.

Lemma runs_fix_inside o m reg Q :
  0 ≤ o ≤ ch_size ch → Q (o, c) v → runs (_vbuffer_iterator_fix (Iter (Some c) o m reg)) v Q.
Proof.
  intros Ho HQ. unfold _vbuffer_iterator_fix. cbn [it_chunk it_offset]. apply runs_bind. step.
  call runs_rd_chunk; [apply (br_at v e [] c ch cs H)|]. rewrite bool_decide_false by lia. by step.
Qed.

Lemma runs_advance_inside o m len Q :
  0 ≤ o → 0 ≤ len → o + len ≤ ch_size ch → Q (len, Iter (Some c) (o + len) (u32 (m + len)) false) v →
  runs (vbuffer_iterator_advance (Iter (Some c) o m false) len) v Q.
Proof.
  intros Ho Hl Hs HQ. pose proof (br_size v e [] c ch cs H) as (? & ? & ? & ?). unfold vbuffer_iterator_advance.
  call runs_iter_check; [exact H|apply first_pos; lia|]. cbn [negb]. call runs_fix_inside; [lia|].
  call runs_chunk_fuel. destruct (br_at v e [] c ch cs H) as [Hc Oc].
  assert (∀ fuel P, P (c, o + len, 0) v → runs (advance_loop fuel c o len) v P) as Hloop.
  { intros fuel P HP. destruct fuel; simpl; (call runs_rd_chunk; [exact Hc|]);
      rewrite (co_end _ _ Oc), bool_decide_false, bool_decide_true by lia; by step. }
  call Hloop. call runs_iter_update; [done|lia|]. simpl. step. by rewrite Z.sub_0_r.
Qed.

(** The two ends of a range inside the chunk are on it. *)
Lemma runs_sub_create_inside off len Q :
  0 ≤ off → 0 ≤ len → off + len ≤ ch_size ch →
  (∀ m m', Q (Sub (Iter (Some c) off m false) false (SubEnd (Iter (Some c) (off + len) m' false))) v) →
  runs (vbuffer_sub_create (Some e) off len) v Q.
Proof.
  intros Ho Hl Hs HQ. pose proof (br_size v e [] c ch cs H) as (? & ? & ? & ?).
  unfold vbuffer_sub_create. call runs_vbuffer_begin; [exact H|]. change (chunk_at e ((c, ch) :: cs)) with c.
  rewrite (bool_decide_false (len = size_max)) by (unfold size_max; lia).
  assert (∀ m, runs (e0 ← vbuffer_iterator_copy (Iter (Some c) off m false);
    '(_, e0) ← vbuffer_iterator_advance e0 len; ret (Sub (Iter (Some c) off m false) false (SubEnd e0))) v Q) as Hend.
  { intros m. call runs_copy; [exact H|apply first_pos; lia|]. call runs_advance_inside; [done..|]. step. apply HQ. }
  apply runs_bind. case_test as E0.
  - step. subst off. apply Hend.
  - call runs_advance_inside; [lia..|]. step. apply Hend.
Qed.

(** The bytes from [off] to the end of the chunk. *)
Lemma runs_mmap_inside off m Q :
  0 ≤ off < ch_size ch →
  (∀ d it, ch_data ch = Some d → Q (MapPtr (d, ch_offset ch + off) (ch_size ch - off), it) v) →
  runs (vbuffer_iterator_mmap (Iter (Some c) off m false) size_max false) v Q.
Proof.
  intros Ho HQ. destruct (br_at v e [] c ch cs H) as [Hc Oc].
  destruct (first_block_of v e c ch cs H Hctl ltac:(lia)) as (d & r & sz & b & F & _).
  unfold vbuffer_iterator_mmap. call runs_iter_check; [exact H|apply first_pos; lia|]. cbn [negb].
  rewrite bool_decide_false by (unfold size_max; lia). call runs_fix_inside; [lia|]. call runs_chunk_fuel.
  assert (∀ fuel, runs (mmap_loop fuel (Iter (Some c) off m false) c off size_max false) v Q) as Hloop; [|apply Hloop].
  intros fuel. destruct fuel; simpl; (call runs_rd_chunk; [exact Hc|]);
    rewrite (co_end _ _ Oc); (step; [apply bool_decide_true; lia|]); rewrite Hctl, bool_decide_true by lia; cbn [negb andb];
    (apply runs_bind; call (runs_chunk_next v e [] c ch cs); [exact H|]; step; call runs_iter_update; [done|lia|]; step);
    (apply runs_bind; eapply (runs_block_data v e c d ch r sz b F false); [done|]); step; apply HQ, F.
Qed.

(** *** Flattening a range of the chunk *)

Lemma runs_flatten_inside off len Q :
  0 ≤ off < ch_size ch → 0 ≤ len → off + len ≤ ch_size ch →
  (∀ d, ch_data ch = Some d → Q (Some (d, ch_offset ch + off, ch_size ch - off)) v) →
  runs (sub_flatten (Some e) off len) v Q.
Proof.
  intros Ho Hl Hs HQ. unfold sub_flatten. call runs_sub_create_inside; [lia..|]. intros m m'. set (data := Sub _ _ _).
  assert (∀ P : bool → vbstate → Prop, P true v → runs (_vbuffer_sub_check data) v P) as Hchk.
  { intros P HP. unfold _vbuffer_sub_check, data, sub_end. cbn [sb_begin sb_use_size sb_tail].
    call runs_iter_check; [exact H|apply first_pos; lia|]. cbn [negb]. step.
    eapply runs_iter_check; [exact H|apply first_pos; lia|done]. }
  assert (∀ P : bool → vbstate → Prop, P true v → runs (vbuffer_sub_isflat data) v P) as Hflat.
  { intros P HP. unfold vbuffer_sub_isflat. call Hchk. unfold data, sub_end. cbn [negb sb_begin sb_use_size sb_tail].
    call runs_fix_inside; [lia|]. step. call runs_fix_inside; [lia|]. rewrite bool_decide_true by done. by step. }
  unfold vbuffer_sub_flatten. apply runs_bind. call Hchk. cbn [negb]. call Hflat. unfold data at 1. cbn [sb_begin].
  call runs_copy; [exact H|apply first_pos; lia|]. call Hflat. step. call runs_mmap_inside; [done|].
  intros d it Ed. step. step. by apply HQ.
Qed.
End first.

(** A range that runs over the end of a frame of one chunk: less bytes than asked for,
    or none. *)
Section cut.
Context (v : vbstate) (e c : loc) (ch : vbuffer_chunk).
Hypothesis (H : buf_rep v e [(c, ch)]) (Hctl : fl_ctl (ch_flags ch) = false).
#[local] Set Default Proof Using "H Hctl".

Lemma runs_advance_cut o m len Q :
  0 ≤ o ≤ ch_size ch → ch_size ch < o + len →
  (∀ m', Q (ch_size ch - o, Iter (Some e) 0 m' false) v) →
  runs (vbuffer_iterator_advance (Iter (Some c) o m false) len) v Q.
Proof.
  intros Ho Hs HQ. destruct (br_at v e [] c ch [] H) as [Hc Oc]. destruct (br_end _ _ _ H) as (che & Hce & Oe).
  unfold vbuffer_iterator_advance. call runs_iter_check; [exact H|apply (first_pos v e c ch [] H Hctl); lia|]. cbn [negb].
  call (runs_fix_inside v e c ch [] H Hctl); [lia|]. call runs_chunk_fuel. pose proof (br_fuel _ _ _ H) as Hf.
  destruct (size (vb_chunks v)) as [|n]; simpl in Hf; [lia|]. simpl. apply runs_bind.
  call runs_rd_chunk; [exact Hc|]. rewrite (co_end _ _ Oc), bool_decide_false, bool_decide_false by lia.
  call (runs_chunk_next v e [] c ch []); [exact H|]. step. change (chunk_at e []) with e.
  call runs_rd_chunk; [exact Hce|]. rewrite (eo_end _ Oe). step.
  call runs_iter_update; [done|lia|]. simpl. step. replace (len - (len - (ch_size ch - o))) with (ch_size ch - o) by lia. apply HQ.
Qed.

Lemma runs_sub_create_cut off len Q :
  0 ≤ off ≤ ch_size ch → len < 2 ^ 32 → ch_size ch < off + len →
  (∀ m m', Q (Sub (Iter (Some c) off m false) false (SubEnd (Iter (Some e) 0 m' false))) v) →
  runs (vbuffer_sub_create (Some e) off len) v Q.
Proof.
  intros Ho Hl Hs HQ. unfold vbuffer_sub_create. call runs_vbuffer_begin; [exact H|]. change (chunk_at e [(c, ch)]) with c.
  rewrite (bool_decide_false (len = size_max)) by (unfold size_max; lia).
  assert (∀ m, runs (e0 ← vbuffer_iterator_copy (Iter (Some c) off m false);
    '(_, e0) ← vbuffer_iterator_advance e0 len; ret (Sub (Iter (Some c) off m false) false (SubEnd e0))) v Q) as Hend.
  { intros m. call runs_copy; [exact H|apply (first_pos v e c ch [] H Hctl); lia|]. call runs_advance_cut; [done..|]. intros m'. step. apply HQ. }
  apply runs_bind. case_test as E0.
  - step. subst off. apply Hend.
  - call (runs_advance_inside v e c ch [] H Hctl); [lia..|]. step. apply Hend.
Qed.

Lemma runs_mmap_cut m Q :
  (∀ it, Q (MapNull, it) v) → runs (vbuffer_iterator_mmap (Iter (Some c) (ch_size ch) m false) size_max false) v Q.
Proof.
  intros HQ. destruct (br_at v e [] c ch [] H) as [Hc Oc]. destruct (br_end _ _ _ H) as (che & Hce & Oe).
  pose proof (br_size v e [] c ch [] H) as (? & ? & ? & ?).
  unfold vbuffer_iterator_mmap. call runs_iter_check; [exact H|apply (first_pos v e c ch [] H Hctl); lia|]. cbn [negb].
  rewrite bool_decide_false by (unfold size_max; lia). call (runs_fix_inside v e c ch [] H Hctl); [lia|].
  call runs_chunk_fuel. pose proof (br_fuel _ _ _ H) as Hf.
  destruct (size (vb_chunks v)) as [|n]; simpl in Hf; [lia|]. simpl. call runs_rd_chunk; [exact Hc|].
  rewrite (co_end _ _ Oc). step; [apply bool_decide_true; lia|]. rewrite Hctl, bool_decide_false by lia. cbn [negb andb].
  call (runs_chunk_next v e [] c ch []); [exact H|]. step. change (chunk_at e []) with e.
  call runs_rd_chunk; [exact Hce|]. rewrite (eo_end _ Oe). step. apply HQ.
Qed.

Lemma runs_flatten_cut off len Q :
  0 ≤ off ≤ ch_size ch → 0 < len < 2 ^ 32 → ch_size ch < off + len →
  (∀ r, (∀ a n, r = Some (a, n) → n < len) → Q r v) →
  runs (sub_flatten (Some e) off len) v Q.
Proof.
  intros Ho Hl Hs HQ. unfold sub_flatten. call runs_sub_create_cut; [lia..|]. intros m m'. set (data := Sub _ _ _).
  assert (∀ P : bool → vbstate → Prop, P true v → runs (_vbuffer_sub_check data) v P) as Hchk.
  { intros P HP. unfold _vbuffer_sub_check, data, sub_end. cbn [sb_begin sb_use_size sb_tail].
    call runs_iter_check; [exact H|apply (first_pos v e c ch [] H Hctl); lia|]. cbn [negb]. step.
    eapply runs_iter_check; [exact H|by right|done]. }
  assert (∀ P : bool → vbstate → Prop, P true v → runs (vbuffer_sub_isflat data) v P) as Hflat.
  { intros P HP. destruct (br_end _ _ _ H) as (che & Hce & Oe). unfold vbuffer_sub_isflat. call Hchk.
    unfold data, sub_end. cbn [negb sb_begin sb_use_size sb_tail].
    call (runs_fix_inside v e c ch [] H Hctl); [lia|]. step. unfold _vbuffer_iterator_fix. cbn [it_chunk it_offset].
    apply runs_bind. step. call runs_rd_chunk; [exact Hce|]. rewrite (eo_size _ Oe), (bool_decide_false (0 > 0)) by lia. step.
    pose proof (br_ne_end _ _ _ c ch H ltac:(by left)).
    rewrite bool_decide_false, bool_decide_true by done. call (runs_chunk_next v e [] c ch []); [exact H|]. step.
    by rewrite bool_decide_true. }
  unfold vbuffer_sub_flatten. apply runs_bind. call Hchk. cbn [negb]. call Hflat. unfold data at 1. cbn [sb_begin].
  call runs_copy; [exact H|apply (first_pos v e c ch [] H Hctl); lia|]. call Hflat. step. destruct (decide (off = ch_size ch)) as [->|Hne].
  - call runs_mmap_cut. intros it. step. step. by apply HQ.
  - call (runs_mmap_inside v e c ch [] H Hctl); [lia|]. intros d it Ed. step. step.
    apply HQ. intros a n [= <- <-]. lia.
Qed.
End cut.

(** ** The protocol of a frame *)

(** The four bytes of a tag in front of the rest. *)
Lemma zdrop_tag off (bs : list Z) :
  0 ≤ off → off + 4 ≤ zlen bs → ∃ a b x y,
  zdrop off bs = a :: b :: x :: y :: zdrop (off + 4) bs ∧ zslice (off + 2) 2 bs = [x; y].
Proof.
  intros Ho Hl. pose proof (zlen_zslice off 4 bs ltac:(lia) ltac:(lia) ltac:(lia)) as El.
  assert (zdrop off bs = zslice off 4 bs ++ zdrop (off + 4) bs) as Ed.
  { unfold zslice. rewrite <- (ztake_zdrop 4 (zdrop off bs)) at 1. by rewrite zdrop_zdrop by lia. }
  assert (zslice (off + 2) 2 bs = zdrop 2 (zslice off 4 bs)) as Es.
  { unfold zslice. rewrite zdrop_ztake, zdrop_zdrop by lia. done. }
  destruct (zslice off 4 bs) as [|a [|b [|x [|y [|z l]]]]]; try (unfold zlen in El; simpl in El; lia).
  exists a, b, x, y. split; [exact Ed|by rewrite Es].
Qed.

Lemma eth_protocol_cut rest off : zlen rest < 4 → eth_protocol ETH_P_8021Q rest off = (-1, off).
Proof.
  intros Hl. destruct rest as [|a [|b [|x [|y rest]]]]; simpl; rewrite ?bool_decide_true by done; try done.
  unfold zlen in Hl. simpl in Hl. lia.
Qed.

Section protocol.
Context (v : vbstate) (e c : loc) (ch : vbuffer_chunk) (cs : list seg).
Hypothesis (H : buf_rep v e ((c, ch) :: cs)) (Hctl : fl_ctl (ch_flags ch) = false) (Hpos : 0 < ch_size ch).
Hypothesis Hbytes : Forall (λ b, 0 ≤ b < 256) (chunk_bytes v ch).
#[local] Set Default Proof Using "H Hctl Hpos Hbytes".
Abbreviation bs := (chunk_bytes v ch).

Lemma frame_len : zlen bs = ch_size ch.
Proof. apply chunk_bytes_len, (br_at v e [] c ch cs H). Qed.

Lemma frame_small : ch_size ch < 2 ^ 32.
Proof. pose proof (br_size v e [] c ch cs H) as (? & ? & ? & ?). lia. Qed.

(** A load from the frame. *)
Lemma runs_frame_load d off n Q :
  ch_data ch = Some d → 0 ≤ off → 0 ≤ n → off + n ≤ ch_size ch → Q (zslice off n bs) v →
  runs (ptr_read (d, ch_offset ch + off) n) v Q.
Proof.
  intros Ed Ho Hn Hl HQ. destruct (mapped_first v e c ch cs H Hctl Hpos) as (d' & Ed' & M).
  rewrite Ed in Ed'. injection Ed' as <-. pose proof frame_len.
  apply (runs_map_load v e (d, ch_offset ch) bs _ off n Q M); [lia..|done].
Qed.

(** A header that may be cut. *)
Lemma runs_frame_flatten off len Q :
  0 ≤ off ≤ ch_size ch → 0 < len < 2 ^ 32 → cs = [] ∨ off + len ≤ ch_size ch →
  (off + len ≤ ch_size ch → ∀ d n, ch_data ch = Some d → len ≤ n → Q (Some (d, ch_offset ch + off, n)) v) →
  (ch_size ch < off + len → ∀ r, (∀ a n, r = Some (a, n) → n < len) → Q r v) →
  runs (sub_flatten (Some e) off len) v Q.
Proof.
  intros Ho Hl Hc HQ1 HQ2. destruct (decide (off + len ≤ ch_size ch)) as [Hle|Hgt].
  - apply (runs_flatten_inside v e c ch cs H Hctl); [lia..|]. intros d Ed. apply HQ1; [done..|lia].
  - destruct Hc as [Hcs|?]; [|done]. pose proof H as H'. rewrite Hcs in H'.
    apply (runs_flatten_cut v e c ch H' Hctl); [lia..|]. apply HQ2. lia.
Qed.

Lemma runs_get_eth_protocol : ∀ fuel proto off Q,
  0 ≤ off ≤ ch_size ch → ch_size ch - off < Z.of_nat fuel →
  cs = [] ∨ (eth_protocol proto (zdrop off bs) off).1 ≠ -1 →
  Q (eth_protocol proto (zdrop off bs) off) v →
  runs (get_eth_protocol fuel proto (Some e) off) v Q.
Proof.
  pose proof frame_len as El. pose proof frame_small.
  assert (∀ proto rest off, proto ≠ ETH_P_8021Q → eth_protocol proto rest off = (proto, off)) as Eplain.
  { intros proto rest off Hp. destruct rest; simpl; by rewrite bool_decide_false. }
  induction fuel as [|fuel IH]; intros proto off Q Ho Hf Hc HQ; [lia|]. simpl. case_test as Ep.
  - subst proto. destruct (decide (off + 4 ≤ ch_size ch)) as [Hle|Hgt].
    + destruct (zdrop_tag off bs) as (a & b & x & y & Ed & Es); [lia..|]. rewrite Ed in Hc, HQ.
      cbn [eth_protocol] in Hc, HQ. rewrite bool_decide_true in Hc, HQ by done.
      call runs_frame_flatten; [lia..|by right| |lia]. intros _ d n Hd Hn. rewrite bool_decide_false by lia. cbn [fst snd].
      rewrite <- Z.add_assoc. call runs_frame_load; [done|lia..|]. rewrite Es, (u64_small (off + 4)) by lia.
      assert (ntohs [x; y] = 256 * x + y) as ->.
      { rewrite <- Es, be16_ntohs by (done || lia). unfold be16. by rewrite Es. }
      apply IH; [lia..|exact Hc|exact HQ].
    + assert (zlen (zdrop off bs) < 4) as Hz by (rewrite zlen_zdrop; lia).
      rewrite (eth_protocol_cut _ _ Hz) in Hc, HQ. destruct Hc as [Hcs|]; [|done].
      call runs_frame_flatten; [lia..|by left|lia|]. intros _ r Hr. destruct r as [[a n]|].
      * rewrite bool_decide_true by (by eapply Hr). by step.
      * by step.
  - rewrite Eplain in HQ by done. by step.
Qed.

(** A link layer header of [n] bytes. *)
Lemma runs_link_header n (P : option (loc * Z * Z) → VM (Z * Z)) r Q :
  0 < n < 2 ^ 32 → cs = [] ∨ n ≤ ch_size ch →
  (n ≤ ch_size ch → ∀ d k, ch_data ch = Some d → n ≤ k → runs (P (Some (d, ch_offset ch + 0, k))) v Q) →
  (ch_size ch < n → r = (-1, n) → Q r v) →
  (ch_size ch < n → r = (-1, n)) →
  runs (data ← sub_flatten (Some e) 0 n;
        if (if data is Some (_, k) then bool_decide (k < n) else true) then ret (-1, n) else P data) v Q.
Proof.
  intros Hn Hc HP HQ Hr. call runs_frame_flatten; [lia..|done| |].
  - intros Hle d k Ed Hk. rewrite bool_decide_false by lia. apply HP; [lia|done..].
  - intros Hgt x Hx. assert (∀ y, y = true → runs (if y then ret (-1, n) else P x) v Q) as Hy.
    { intros y ->. step. rewrite <- Hr by lia. apply HQ; [lia|apply Hr; lia]. }
    apply Hy. destruct x as [[a k]|]; [|done]. apply bool_decide_true. by eapply Hx.
Qed.

Lemma runs_tag_fuel (P : nat → VM (Z * Z)) Q :
  (∀ fuel, ch_size ch < Z.of_nat fuel → runs (P fuel) v Q) → runs (fuel ← tag_fuel (Some e); P fuel) v Q.
Proof.
  intros HP. unfold tag_fuel. apply runs_bind. call runs_size; [exact H|]. step. apply HP.
  pose proof (csize_tail v e ((c, ch) :: cs) []) as Ht. rewrite app_nil_r in Ht. specialize (Ht H). simpl in Ht.
  rewrite csize_cons. simpl. lia.
Qed.

Lemma runs_get_eth lt n k Q :
  (∀ l, link_protocol lt l = if bool_decide (zlen l < n) then (-1, n) else eth_protocol (be16 k l) (zdrop n l) n) →
  get_protocol lt (Some e) = (fuel ← tag_fuel (Some e); data ← sub_flatten (Some e) 0 n;
    if (if data is Some (_, x) then bool_decide (x < n) else true) then ret (-1, n) else
    match data with
    | Some (a, _) => p ← ptr_read (a.1, a.2 + k) 2; get_eth_protocol fuel (ntohs p) (Some e) n
    | None => ret (0, n)
    end) →
  0 ≤ k → k + 2 ≤ n < 2 ^ 32 →
  cs = [] ∨ (link_protocol lt bs).1 ≠ -1 → Q (link_protocol lt bs) v → runs (get_protocol lt (Some e)) v Q.
Proof.
  intros Es -> Hk Hn Hc HQ. rewrite Es, frame_len in Hc, HQ. pose proof frame_len as El. apply runs_tag_fuel. intros fuel Hf.
  case_bool_decide as Hcut.
  - destruct Hc as [Hc|]; [|done]. apply (runs_link_header n _ (-1, n)); [lia|by left|lia|done..].
  - apply (runs_link_header n _ (-1, n)); [lia|right; lia| |lia..]. intros Hle d x Ed Hx. cbn [fst snd]. rewrite Z.add_0_r.
    call runs_frame_load; [done|lia..|]. rewrite be16_ntohs by (done || lia). apply runs_get_eth_protocol; [lia..|exact Hc|exact HQ].
Qed.

Lemma runs_get_null Q :
  cs = [] ∨ (link_protocol DLT_NULL bs).1 ≠ -1 → Q (link_protocol DLT_NULL bs) v →
  runs (get_protocol DLT_NULL (Some e)) v Q.
Proof.
  change (link_protocol DLT_NULL bs) with
    (if bool_decide (zlen bs < 4) then (-1, 4) else (if bool_decide (ztake 4 bs = [2; 0; 0; 0]) then ETH_P_IP else -1, 4)).
  rewrite frame_len. pose proof frame_len as El. intros Hc HQ.
  change (get_protocol DLT_NULL (Some e)) with (fuel ← tag_fuel (Some e); data ← sub_flatten (Some e) 0 4;
    if (if data is Some (_, x) then bool_decide (x < 4) else true) then ret (-1, 4) else
    '(a, _) ← deref data; f ← ptr_read a 4; ret (if bool_decide (le_value f = PF_INET) then ETH_P_IP else -1, 4)).
  apply runs_tag_fuel. intros fuel Hf. case_bool_decide as Hcut.
  - destruct Hc as [Hc|]; [|done]. apply (runs_link_header 4 _ (-1, 4)); [lia|by left|lia|done..].
  - apply (runs_link_header 4 _ (-1, 4)); [lia|right; lia| |lia..]. intros Hle d x Ed Hx. step.
    call runs_frame_load; [done|lia..|]. step. unfold zslice. rewrite zdrop_0. by rewrite le_value_inet by (done || lia).
Qed.

Lemma runs_get_protocol lt Q :
  supported lt → cs = [] ∨ (link_protocol lt bs).1 ≠ -1 → Q (link_protocol lt bs) v →
  runs (get_protocol lt (Some e)) v Q.
Proof.
  intros Hlt Hc HQ. unfold supported in Hlt. rewrite !elem_of_cons in Hlt.
  destruct Hlt as [->|[->|[->|[->|[->|Hlt]]]]]; [..|by inversion Hlt].
  - by apply (runs_get_eth DLT_LINUX_SLL 16 14).
  - by apply (runs_get_eth DLT_EN10MB 14 12).
  - change (get_protocol DLT_IPV4 (Some e)) with (fuel ← tag_fuel (Some e); ret (ETH_P_IP, 0)).
    apply runs_tag_fuel. intros fuel Hf. by step.
  - change (get_protocol DLT_RAW (Some e)) with (fuel ← tag_fuel (Some e); ret (ETH_P_IP, 0)).
    apply runs_tag_fuel. intros fuel Hf. by step.
  - by apply runs_get_null.
Qed.
End protocol.

(** ** The claim *)

(** C20 The protocol and the data offset that the code finds in the bytes of a frame are
    those of the parser, for every supported link type and any number of VLAN tags; a
    header or a tag that is cut by the end of the frame gives the protocol -1. The frame
    is in one chunk, or its header is (as after the selection of the payload). Nothing in
    the memory changes. *)
Theorem get_protocol_correct v e c ch cs link_type :
  buf_rep v e ((c, ch) :: cs) → fl_ctl (ch_flags ch) = false → 0 < ch_size ch →
  Forall (λ b, 0 ≤ b < 256) (chunk_bytes v ch) → supported link_type →
  let r := link_protocol link_type (chunk_bytes v ch) in
  cs = [] ∨ r.1 ≠ -1 → runs (get_protocol link_type (Some e)) v (λ r' v', r' = r ∧ v' = v).
Proof. intros H Hctl Hpos Hb Hl r Hc. by apply (runs_get_protocol v e c ch cs H Hctl Hpos Hb link_type). Qed.

(** A frame with two tags, and the same cut behind the first one. *)
Definition ex_tagged : list Z := replicate 12 1 ++ [0x81; 0; 0; 9; 0x81; 0; 0; 7; 8; 0; 5; 6; 7].
Definition ex_frame_state (bs : list Z) : vbstate := default (empty_state 0) (snd <$> vbuffer_create_from bs (empty_state 20)).

Lemma get_protocol_correct_witness :
  runs (get_protocol DLT_EN10MB (Some 3%positive)) (ex_frame_state ex_tagged)
    (λ r v', r = (ETH_P_IP, 22) ∧ v' = ex_frame_state ex_tagged) ∧
  runs (get_protocol DLT_EN10MB (Some 3%positive)) (ex_frame_state (ztake 20 ex_tagged))
    (λ r v', r = (-1, 18) ∧ v' = ex_frame_state (ztake 20 ex_tagged)).
Proof.
  split.
  - apply (get_protocol_correct (ex_frame_state ex_tagged) 3 2 (Chunk 1 plain (Some 1%positive) 0 25) []).
    + concrete_rep.
    + reflexivity.
    + reflexivity.
    + apply (bool_decide_unpack _). by vm_compute.
    + right. by left.
    + by left.
  - apply (get_protocol_correct (ex_frame_state (ztake 20 ex_tagged)) 3 2 (Chunk 1 plain (Some 1%positive) 0 20) []).
    + concrete_rep.
    + reflexivity.
    + reflexivity.
    + apply (bool_decide_unpack _). by vm_compute.
    + right. by left.
    + by left.
Defined.
