(* ===== verification/PcapCapture.v ===== *)
(** * Reception and verdict of captured packets (modules/capture/pcap/main.c)

    [held] is a packet between its reception and its verdict: the frame without its
    payload, with a mark where the payload was, and the payload as a buffer of its
    own. *)

From S2P Require Import Prelude Types List2 List VbHeap VbIter VbSub VbRep VbWalk VbFrame VbMut VbEdit VbClear VbMake VbCtl VbRead VbWrite VbSelect VbSelectSpec VbMap VbSpec VbExtract VbFlat Time Pcap PcapSpec.

(** The fields of the state after some of them were set. *)
Ltac tidy := cbn [ca_vb ca_sent ca_packets ca_pd ca_pin ca_pout ca_packet_id ca_link_type ca_passthrough ca_log
  set_ca_vb set_ca_sent set_ca_packets set_ca_pd set_ca_pin set_ca_pout set_ca_id set_ca_log].

(** ** A frame in a buffer of its own *)

Record framed (s : vbstate) (bs : list Z) (w : bool) (e c : loc) (ch : vbuffer_chunk) (s' : vbstate) : Prop := {
  fr_heap : heap_ok s';
  fr_rep : buf_rep s' e [(c, ch)];
  fr_content : content s' [(c, ch)] = bs;
  fr_ctl : fl_ctl (ch_flags ch) = false;
  fr_size : ch_size ch = zlen bs;
  fr_keeps : keeps [] s s';
  fr_fresh : ∀ x, x ∈ [e; c] → (vb_fresh s ≤ x)%positive;
  fr_error : vb_error s' = vb_error s;
  fr_mem : vb_mem s = (3 + vb_mem s')%nat;
  fr_writable : w = true → all_writable s' e [(c, ch)];
}.

Section frame.
Implicit Types s : vbstate.

(** [vbuffer_setwritable] of a buffer of one chunk. *)
Lemma runs_setwritable_one s e c ch ech w Q :
  buf_rep s e [(c, ch)] → vb_chunks s !! e = Some ech →
  (let s1 := set_chunks (<[c := set_writable w ch]> (vb_chunks s)) s in
   Q tt (set_chunks (<[e := set_writable w ech]> (vb_chunks s1)) s1)) →
  runs (vbuffer_setwritable (Some e) w) s Q.
Proof.
  intros H He HQ. pose proof (br_at s e [] c ch [] H) as [Hc Oc].
  pose proof (br_ne_end _ _ _ c ch H ltac:(by left)) as Hne.
  assert (buf_rep (set_chunks (<[c := set_writable w ch]> (vb_chunks s)) s) e [(c, set_writable w ch)]) as H1.
  { apply (buf_rep_upd s e [] c ch []); [exact H| |done]. by destruct Oc; split. }
  unfold vbuffer_setwritable, VBUFFER_FOR_EACH. call runs_chunk_begin; [exact H|]. unfold chunk_fuel. step.
  destruct (size (vb_chunks s)) as [|n] eqn:En.
  { pose proof (br_fuel _ _ _ H). lia. }
  simpl. call runs_upd_chunk; [exact Hc|]. call (runs_chunk_next _ e [] c); [exact H1|].
  change (chunk_at e []) with e. call runs_upd_chunk; [simpl; by rewrite lookup_insert_ne by done|].
  call (runs_chunk_next_end _ e [(c, set_writable w ch)]).
  { apply buf_rep_upd_end; [exact H1|]. destruct (br_end _ _ _ H) as (? & ? & [? ? ?]). by simplify_eq; split. }
  by step.
Qed.

(** The copy of the captured bytes, with the permission to write set. *)
Lemma framed_made s bs e c d s1 ech w :
  heap_ok s → made 3 s bs e [(c, block_chunk d 0 (zlen bs))] s1 → vb_chunks s1 !! e = Some ech →
  let ch := set_writable w (block_chunk d 0 (zlen bs)) in
  let s2 := set_chunks (<[c := ch]> (vb_chunks s1)) s1 in
  framed s bs w e c ch (set_chunks (<[e := set_writable w ech]> (vb_chunks s2)) s2).
Proof.
  intros Ok [M1 M2 M3 M4 M5 M6 M7 M8 M9] He. set (ch0 := block_chunk _ _ _) in *. intros ch s2.
  destruct (br_end _ _ _ M2) as (ech' & He' & Oe). rewrite He in He'. injection He' as <-.
  pose proof (br_at s1 e [] c ch0 [] M2) as [Hc Oc]. pose proof (br_ne_end _ _ _ c ch0 M2 ltac:(by left)) as Hne.
  split; try done.
  - eapply (heap_ok_upd_chunk s2 e ech); [by eapply heap_ok_upd_chunk|simpl; by rewrite lookup_insert_ne by done|done].
  - apply buf_rep_upd_end; [|by destruct Oe; split].
    apply (buf_rep_upd s1 e [] c ch0 []); [exact M2| |done]. by destruct Oc; split.
  - eapply (keeps_trans _ [e; c]); [exact Ok|exact M4| |].
    + eapply (keeps_trans _ [e]); [exact M1| |apply keeps_upd_chunk|set_solver].
      eapply keeps_weaken; [apply keeps_upd_chunk|set_solver].
    + intros y Hy. right. apply M6. exact Hy.
  - intros -> x [->|[->|?%elem_of_nil]%elem_of_cons]%elem_of_cons; [| |done].
    + exists (set_writable true ech). split; [apply lookup_insert_eq|done].
    + exists ch. split; [|done]. simpl. rewrite lookup_insert_ne, lookup_insert_eq; done.
Qed.
End frame.

(** ** Packets that wait for their verdict *)

Record held (v : vbstate) (pk : pcap_packet) (e : loc) (a m b : list seg) (e' cm : loc) (mk : vbuffer_chunk) : Prop := {
  hd_heap : heap_ok v;
  hd_data : pp_data pk = Some e;
  hd_payload : pp_payload pk = Some e';
  hd_select : pp_select pk = Iter (Some cm) 0 0 false;
  hd_frame : buf_rep v e (a ++ (cm, mk) :: b);
  hd_mark : select_chunk v mk;
  hd_part : buf_rep v e' m;
  hd_apart : e' ≠ e;
  hd_small : csize (a ++ m ++ b) < 2 ^ 32;
  hd_plain : no_ctl (a ++ m ++ b);
}.

(** The frame with its payload can be made flat: its chunks follow each other in one
    block, or they can be replaced. *)
Definition flat_ok (v : vbstate) (e : loc) (l : list seg) : Prop :=
  adjacent l ∨ (writable_at v e ∧ ∀ c ch, (c, ch) ∈ l → fl_writable (ch_flags ch) = true) ∧ (6 ≤ vb_mem v)%nat.

(** The header of the record for a frame of [n] bytes. *)
Definition dump_header (h : pcap_pkthdr) (n : Z) : pcap_pkthdr :=
  if bool_decide (caplen h = n) then h else Pkthdr (tv_sec h) (tv_usec h) n n.

Definition other_buffers (v : vbstate) (es : list loc) (v' : vbstate) : Prop :=
  ∀ e0 cs0, e0 ∉ es → buf_rep v e0 cs0 → buf_rep v' e0 cs0 ∧ content v' cs0 = content v cs0.

Section verdict.
Implicit Types s : capture_state.

Lemma runs_cap_vb {A} (m : VM A) s Q :
  runs m (ca_vb s) (λ a v, Q a (set_ca_vb v s)) → runs (on_vb m) s Q.
Proof. apply runs_zoom. Qed.

Lemma runs_rd_packet s p pk Q : ca_packets s !! p = Some pk → Q pk s → runs (rd_packet p) s Q.
Proof. intros H HQ. unfold rd_packet. step. rewrite H. by step. Qed.

Lemma runs_wr_packet s p pk Q :
  Q tt (set_ca_packets (<[p := pk]> (ca_packets s)) s) → runs (wr_packet p pk) s Q.
Proof. intros HQ. unfold wr_packet. by step. Qed.

Lemma runs_upd_packet s p pk f Q :
  ca_packets s !! p = Some pk → Q tt (set_ca_packets (<[p := f pk]> (ca_packets s)) s) →
  runs (upd_packet p f) s Q.
Proof. intros H HQ. unfold upd_packet. call runs_rd_packet; [done|]. by apply runs_wr_packet. Qed.

(** The mark is taken away and the payload is in its place. *)
Lemma held_restored v pk e a m b e' cm mk (Q : bool * vbuffer_iterator * option vbuffer → vbstate → Prop) :
  held v pk e a m b e' cm mk →
  (∀ v', restored v e a cm m b e' v' → Q (true, Iter None 0 0 false, Some None) v') →
  runs (vbuffer_restore (pp_select pk) (Some (pp_payload pk)) false) v Q.
Proof.
  intros [Ok _ Ep Es R Mk P Hne Hsm _] HQ. rewrite Ep, Es.
  eapply (runs_restore v e a cm mk b e' m); [done|exact R|exact Mk|exact P|done| | |exact HQ].
  - rewrite !csize_app in Hsm. rewrite csize_app. lia.
  - split; [done|]. eapply csize_nonneg. intros c ch Hi. eapply br_ok; [exact R|].
    apply elem_of_app. right. by right.
Qed.

Lemma restored_others v e a cm mk m b e' v' :
  heap_ok v → buf_rep v e (a ++ (cm, mk) :: b) → buf_rep v e' m → restored v e a cm m b e' v' →
  other_buffers v [e; e'] v'.
Proof.
  intros Ok R P Hr e0 cs0 Hn H0. apply not_elem_of_cons in Hn as [Hn Hn']. apply not_elem_of_cons in Hn' as [Hn' _].
  apply (keeps_buf _ _ _ _ _ Ok (rs_keeps _ _ _ _ _ _ _ _ Hr) H0). intros x Hx [Hi|Hi]%elem_of_app.
  - apply (buf_disjoint v e0 cs0 e (a ++ (cm, mk) :: b) x H0 R Hn Hx). rewrite fmap_split. rewrite fmap_app in Hi. set_solver.
  - by apply (buf_disjoint v e0 cs0 e' m x H0 P Hn' Hx).
Qed.

Lemma flat_restored v e a cm mk m b e' v' :
  buf_rep v e (a ++ (cm, mk) :: b) → restored v e a cm m b e' v' → flat_ok v e (a ++ m ++ b) →
  adjacent (a ++ m ++ b) ∨ all_writable v' e (a ++ m ++ b) ∧ (6 ≤ vb_mem v')%nat.
Proof.
  intros R Hr [Ha|[[Hw Hc] Hm]]; [by left|right]. split; [|by rewrite (rs_mem _ _ _ _ _ _ _ _ Hr)].
  apply (all_writable_rep v' e); [apply Hr|]. split; [by apply (rs_end _ _ _ _ _ _ _ _ Hr)|done].
Qed.

(** The clearing of the frame. *)
Lemma runs_clear_data s p pk e cs Q :
  ca_packets s !! p = Some pk → pp_data pk = Some e → heap_ok (ca_vb s) → buf_rep (ca_vb s) e cs →
  (∀ v', released (ca_vb s) e cs v' →
     Q tt (set_ca_packets (<[p := set_pp_data None pk]> (ca_packets s)) (set_ca_vb v' s))) →
  runs (clear_data p) s Q.
Proof.
  intros Hp Ed Ok H HQ. unfold clear_data. call runs_rd_packet; [exact Hp|]. rewrite Ed.
  apply runs_bind, runs_cap_vb. eapply runs_clear; [done|exact H|]. intros v' Hr.
  eapply runs_upd_packet; [exact Hp|]. by apply HQ.
Qed.
End verdict.

(** The packet after its verdict, with the header [h]. *)
Definition closed_packet (h : pcap_pkthdr) (pk : pcap_packet) : pcap_packet :=
  set_pp_data None (set_pp_header h (set_pp_payload None (Iter None 0 0 false) pk)).

(** The state after the verdict: the record [out] is at the end of the output file. *)
Record judged (s : capture_state) (p : loc) (pk : pcap_packet) (e e' : loc) (h : pcap_pkthdr)
    (out : list (pcap_pkthdr * list Z)) (s' : capture_state) : Prop := {
  jd_heap : heap_ok (ca_vb s');
  jd_others : other_buffers (ca_vb s) [e; e'] (ca_vb s');
  jd_error : vb_error (ca_vb s') = vb_error (ca_vb s);
  jd_packets : ca_packets s' = <[p := closed_packet h pk]> (ca_packets s);
  jd_pout : ca_pout s' = (λ d, d ++ out) <$> ca_pout s;
  jd_pin : ca_pin s' = ca_pin s;
  jd_sent : ca_sent s' = ca_sent s;
  jd_id : ca_packet_id s' = ca_packet_id s;
  jd_log : ca_log s' = ca_log s;
}.

Section judge.
Implicit Types s : capture_state.

Lemma flattened_others v v' e e' cs cs' a v0 :
  other_buffers v0 [e; e'] v → flattened v e cs v' cs' a → other_buffers v0 [e; e'] v'.
Proof.
  intros O F e0 cs0 Hn H0. destruct (O e0 cs0 Hn H0) as [H1 <-]. apply (ft_others _ _ _ _ _ _ F); [set_solver|done].
Qed.

Lemma released_others v v' e e' cs v0 :
  heap_ok v → buf_rep v e cs → other_buffers v0 [e; e'] v → released v e cs v' → other_buffers v0 [e; e'] v'.
Proof.
  intros Ok H O Hr e0 cs0 Hn H0. destruct (O e0 cs0 Hn H0) as [H1 <-].
  apply (kept_buf v v' e cs); [done|exact H|apply Hr|done|set_solver].
Qed.

(** Acceptance: the bytes of the frame with the payload as it is now. *)
Lemma runs_accept s p pk e a m b e' cm mk d Q :
  ca_packets s !! p = Some pk → held (ca_vb s) pk e a m b e' cm mk → flat_ok (ca_vb s) e (a ++ m ++ b) →
  ca_pout s = Some d →
  let bs := content (ca_vb s) (a ++ m ++ b) in
  bs ≠ [] →
  (∀ s', judged s p pk e e' (dump_header (pp_header pk) (zlen bs)) [(dump_header (pp_header pk) (zlen bs), bs)] s' → Q tt s') →
  runs (packet_verdict p FILTER_ACCEPT) s Q.
Proof.
  intros Hp Hh Hfl Hd bs Hbs HQ. pose proof Hh as [Ok Ed Epl Es R Mk P Hne Hsm Hpl]. unfold packet_verdict.
  call runs_rd_packet; [exact Hp|]. rewrite Ed. cbn [vbuffer_isvalid is_null negb].
  apply runs_bind, runs_cap_vb. eapply held_restored; [exact Hh|]. intros v1 Hr.
  call runs_upd_packet; [exact Hp|]. cbn [default]. step. cbn [ca_pout set_ca_packets set_ca_vb]. rewrite Hd. cbn [is_null negb andb].
  rewrite bool_decide_true by done. pose proof (restored_others _ _ _ _ _ _ _ _ _ Ok R P Hr) as O1.
  pose proof (rs_content _ _ _ _ _ _ _ _ Hr) as C1. rewrite <- !content_app in C1. fold bs in C1.
  apply runs_bind, runs_cap_vb. cbn [ca_vb set_ca_packets set_ca_vb].
  assert (0 < zlen bs) as Hpos by (destruct bs; [done|rewrite zlen_cons; pose proof (zlen_nonneg bs); lia]).
  eapply (runs_flatten v1 e (a ++ m ++ b)); [apply Hr|apply Hr|exact Hpl| |by eapply flat_restored|].
  { rewrite <- (br_len _ _ _ (rs_buf _ _ _ _ _ _ _ _ Hr)), C1. done. }
  intros v2 cs2 ad data2 F. rewrite <- (br_len _ _ _ (rs_buf _ _ _ _ _ _ _ _ Hr)), C1.
  call runs_rd_packet; [apply lookup_insert_eq|]. cbn [pp_header set_pp_payload].
  assert (u32 (zlen bs) = zlen bs) as ->.
  { apply u32_small. split; [lia|]. rewrite <- C1, (br_len _ _ _ (rs_buf _ _ _ _ _ _ _ _ Hr)). exact Hsm. }
  change (if bool_decide (caplen (pp_header pk) = zlen bs) then pp_header pk
    else Pkthdr (tv_sec (pp_header pk)) (tv_usec (pp_header pk)) (zlen bs) (zlen bs)) with (dump_header (pp_header pk) (zlen bs)).
  assert (caplen (dump_header (pp_header pk) (zlen bs)) = zlen bs) as Ecap.
  { unfold dump_header. by case_bool_decide. }
  set (h := dump_header _ _) in *. call runs_upd_packet; [apply lookup_insert_eq|].
  apply runs_bind, runs_cap_vb. cbn [ca_vb set_ca_packets set_ca_vb]. rewrite Ecap.
  apply runs_points_to; [rewrite <- C1; apply F|]. unfold pcap_dump_pout. step.
  cbn [ca_packets ca_vb set_ca_packets set_ca_vb set_ca_pout ca_sent ca_pd ca_pin ca_pout ca_packet_id ca_link_type ca_passthrough ca_log].
  rewrite Hd, Ecap, ztake_ge by lia. rewrite !insert_insert_eq.
  eapply runs_clear_data; [apply lookup_insert_eq|done|apply F|apply F|]. cbn [ca_vb]. intros v3 Hrl. apply HQ.
  pose proof (flattened_others _ _ _ _ _ _ _ _ O1 F) as O2. split; cbn; try done.
  - apply Hrl.
  - eapply released_others; [apply F|apply F|exact O2|exact Hrl].
  - etrans; [apply (rl_error _ _ _ _ Hrl)|]. etrans; [apply F|apply Hr].
  - by rewrite insert_insert_eq.
  - by rewrite Hd.
Qed.
End judge.

(** ** Reception *)

Section receive.
Implicit Types s : capture_state.

Lemma runs_sub_create_rest v e cs off Q :
  buf_rep v e cs → 0 ≤ off ≤ csize cs →
  (∀ sub, select_range e cs sub off (csize cs) → Q sub v) → runs (vbuffer_sub_create (Some e) off size_max) v Q.
Proof.
  intros H Ho HQ. unfold vbuffer_sub_create. call runs_vbuffer_begin; [exact H|].
  destruct (pos_whole v e cs H) as [P1 P2].
  assert (∀ c o me, pos_of e cs c o off → runs (e0 ← vbuffer_end (Some e) vbuffer_iterator_init;
    ret (Sub (Iter (Some c) o me false) false (SubEnd e0))) v Q) as Hend.
  { intros c o me Hp. unfold vbuffer_end, vbuffer_position. apply runs_bind. step. rewrite bool_decide_true by done. step. step.
    apply HQ. split_and!; [exact Hp|exact P2|by right]. }
  rewrite (bool_decide_true (size_max = size_max)) by done. apply runs_bind. case_test as E0.
  - step. apply Hend. by rewrite E0.
  - call runs_advance; [exact H|exact P1|lia|]. intros c' o' Hn. step. apply Hend.
    rewrite Z.min_l, Z.add_0_l in Hn by lia. by eapply norm_pos_of.
Qed.

(** What the selection of the payload makes of a frame of the bytes [bs]. *)
Record payload_selected (v : vbstate) (pk : pcap_packet) (bs : list Z) (off : Z) (e : loc) (v' : vbstate)
    (a m b : list seg) (e' cm : loc) (mk : vbuffer_chunk) : Prop := {
  ps_held : held v' (set_pp_payload (Some e') (Iter (Some cm) 0 0 false) pk) e a m b e' cm mk;
  ps_header : content v' a = ztake off bs;
  ps_payload : content v' m = zdrop off bs;
  ps_rest : content v' b = [];
  ps_adjacent : adjacent (a ++ m ++ b);
  ps_others : other_buffers v [e] v';
  ps_error : vb_error v' = vb_error v;
  ps_new : (vb_fresh v ≤ e')%positive;
  ps_mem : (vb_mem v ≤ 5 + vb_mem v')%nat;
}.

Lemma runs_build_payload s p pk e c ch bs Q :
  ca_packets s !! p = Some pk → pp_data pk = Some e → heap_ok (ca_vb s) → buf_rep (ca_vb s) e [(c, ch)] →
  fl_ctl (ch_flags ch) = false → content (ca_vb s) [(c, ch)] = bs → bs ≠ [] → Forall (λ x, 0 ≤ x < 256) bs →
  supported (pp_link_type pk) → 0 ≤ (link_protocol (pp_link_type pk) bs).1 → (5 ≤ vb_mem (ca_vb s))%nat →
  (∀ v' a m b e' cm mk,
     payload_selected (ca_vb s) pk bs (link_protocol (pp_link_type pk) bs).2 e v' a m b e' cm mk →
     Q true (set_ca_packets (<[p := set_pp_payload (Some e') (Iter (Some cm) 0 0 false) pk]> (ca_packets s)) (set_ca_vb v' s))) →
  runs (packet_build_payload p) s Q.
Proof.
  intros Hp Ed Ok H Hctl Ebs Hne Hb Hlt Hpr Hm HQ. unfold packet_build_payload.
  assert (chunk_bytes (ca_vb s) ch = bs) as Ech by (rewrite <- Ebs, content_cons, content_nil; simpl; by rewrite app_nil_r).
  pose proof (br_len _ _ _ H) as El. rewrite Ebs, csize_cons, csize_nil, Z.add_0_r in El. simpl in El.
  assert (0 < zlen bs) by (destruct bs; [done|rewrite zlen_cons; pose proof (zlen_nonneg bs); lia]).
  call runs_rd_packet; [exact Hp|]. rewrite Ed. apply runs_bind, runs_cap_vb.
  eapply (runs_get_protocol (ca_vb s) e c ch [] H Hctl); [lia|by rewrite Ech|done|by left|]. rewrite Ech.
  pose proof (link_protocol_off (pp_link_type pk) bs ltac:(lia)) as Hoff.
  destruct (link_protocol (pp_link_type pk) bs) as [proto off]. cbn [fst snd] in *.
  rewrite bool_decide_false by lia. apply runs_bind, runs_cap_vb. cbn [ca_vb set_ca_vb].
  assert (csize [(c, ch)] = zlen bs) as Ecs by (rewrite csize_cons, csize_nil; simpl; lia).
  eapply runs_sub_create_rest; [exact H|lia|]. intros sub Hsub. apply runs_bind, runs_cap_vb. cbn [ca_vb set_ca_vb].
  eapply runs_select; [done|exact H|exact Hsub|lia|]. intros v' data' e' a m b cm mk Hs.
  call runs_upd_packet; [exact Hp|]. step. eapply HQ. rewrite Ecs in Hs.
  assert (no_ctl [(c, ch)]) as Hpl by (intros x chx Hx%list_elem_of_singleton; by simplify_eq).
  destruct Hs as [S1 S2 S3 S4 S5 S6 S7 S8 S9 S10 S11 S12 S13 S14 S15 S16 S17]. rewrite Ebs in *.
  pose proof (br_fresh _ _ _ e Ok H ltac:(by left)) as Hfe. split; try done.
  - split; try done; [intros ->; lia|by eapply kinds_plain].
  - rewrite S7. unfold zslice. apply ztake_ge. rewrite zlen_zdrop; lia.
  - rewrite S8. by apply zdrop_ge.
  - by apply S17.
  - intros e0 cs0 Hn He0. apply (kept_buf _ _ e [(c, ch)]); [done|exact H|exact S9|done|set_solver].
Qed.
(** The capture [i] can be read. *)
Definition ready (s : capture_state) (i : nat) (inp : input) (pd : pcap_capture) : Prop :=
  ca_pd s !! i = Some pd ∧ supported (pd_link_type pd) ∧ (∀ n, pd_file pd = Some n → n ≠ 0) ∧
  time_ok (pd_last_progress pd) ∧ time_ok (in_time inp).

(** The report of the progress changes the report and the log only. *)
Lemma runs_show_progress s i inp pd Q :
  ready s i inp pd → (∀ l g, Q tt (set_ca_pd l (set_ca_log g s))) → runs (show_progress i inp) s Q.
Proof.
  intros (Hi & _ & Hf & Hl & Ht) HQ. unfold show_progress. step. rewrite Hi. step.
  destruct (pd_file pd) as [n|] eqn:En.
  - step; [rewrite bool_decide_false by (by apply Hf); done|].
    assert (set_ca_log (ca_log s) s = s) as Es by (by destruct s).
    destruct (time_isvalid (pd_last_progress pd)).
    + call runs_time_diff; [done|done|]. intros d Hd _. case_test as H1.
      * step. case_test as H2; [unfold log|unfold skip]; step; [apply HQ|].
        match goal with |- Q tt (set_ca_pd ?l _) => specialize (HQ l (ca_log s)); by rewrite Es in HQ end.
      * unfold skip. step. specialize (HQ (ca_pd s) (ca_log s)). by destruct s.
    + step. match goal with |- Q tt (set_ca_pd ?l _) => specialize (HQ l (ca_log s)); by rewrite Es in HQ end.
  - unfold skip. step. specialize (HQ (ca_pd s) (ca_log s)). by destruct s.
Qed.

(** The packet before its payload is selected. *)
Definition new_capture (s : capture_state) (header : pcap_pkthdr) (e : loc) (lt : Z) : pcap_packet :=
  PcapPacket None (Time (tv_sec header) (u32 (tv_usec header * 1000))) header (Some e) (Iter None 0 0 false)
    (u64 (ca_packet_id s + 1)) lt true.

(** The state after the reception of a frame of the bytes [bs]. *)
Record received (s : capture_state) (header : pcap_pkthdr) (bs : list Z) (lt : Z) (s' : capture_state)
    (p e : loc) (a m b : list seg) (e' cm : loc) (mk : vbuffer_chunk) : Prop := {
  rc_new : p = vb_fresh (ca_vb s);
  rc_packets : ca_packets s' =
    <[p := set_pp_payload (Some e') (Iter (Some cm) 0 0 false) (new_capture s header e lt)]> (ca_packets s);
  rc_held : held (ca_vb s') (set_pp_payload (Some e') (Iter (Some cm) 0 0 false) (new_capture s header e lt)) e a m b e' cm mk;
  rc_header : content (ca_vb s') a = ztake (link_protocol lt bs).2 bs;
  rc_payload : content (ca_vb s') m = zdrop (link_protocol lt bs).2 bs;
  rc_rest : content (ca_vb s') b = [];
  rc_adjacent : adjacent (a ++ m ++ b);
  rc_others : other_buffers (ca_vb s) [] (ca_vb s');
  rc_apart : (vb_fresh (ca_vb s) ≤ e)%positive ∧ (vb_fresh (ca_vb s) ≤ e')%positive;
  rc_error : vb_error (ca_vb s') = vb_error (ca_vb s);
  rc_mem : (vb_mem (ca_vb s) ≤ 9 + vb_mem (ca_vb s'))%nat;
  rc_pin : ca_pin s' = (λ d, d ++ [(header, bs)]) <$> ca_pin s;
  rc_pout : ca_pout s' = ca_pout s;
  rc_id : ca_packet_id s' = u64 (ca_packet_id s + 1);
  rc_sent : ca_sent s' = set_llinks (<[p := Elem None None]> (ls_links (ca_sent s))) (ca_sent s);
}.

Lemma runs_receive_packet s i inp pd header bytes Q :
  ready s i inp pd → heap_ok (ca_vb s) → (9 ≤ vb_mem (ca_vb s))%nat →
  0 < caplen header ≤ zlen bytes → caplen header < 2 ^ 32 →
  let bs := ztake (caplen header) bytes in
  Forall (λ x, 0 ≤ x < 256) bs → 0 ≤ (link_protocol (pd_link_type pd) bs).1 →
  (∀ s' p e a m b e' cm mk, received s header bs (pd_link_type pd) s' p e a m b e' cm mk → Q (0, Some p) s') →
  runs (receive_packet i inp header bytes) s Q.
Proof.
  intros Hrd Ok Hm Hcap Hcl bs Hb Hpr HQ. assert (zlen bs = caplen header) as El by (apply zlen_ztake; lia).
  destruct (vb_mem (ca_vb s)) as [|[|[|[|n]]]] eqn:Em; try lia. unfold receive_packet.
  apply runs_bind, runs_cap_vb. eapply runs_malloc; [exact Em|]. call runs_wr_packet. unfold pcap_dump_pin. step.
  unfold on_sent, _list_init, on_links. step. step. step. step; [apply bool_decide_true; lia|].
  set (p := vb_fresh (ca_vb s)). set (v1 := take_address (S (S (S n))) (ca_vb s)).
  assert (heap_ok v1) as Ok1 by (by apply heap_ok_take). pose proof (keeps_take (ca_vb s) (S (S (S n)))) as K1. fold v1 in K1.
  apply runs_bind, runs_cap_vb. cbn [ca_vb]. fold bs. eapply (runs_create_from_at v1 n); [done|done|lia|].
  intros e c v2 M. cbn [negb]. step. apply runs_bind, runs_cap_vb. cbn [ca_vb set_ca_vb].
  destruct (br_end _ _ _ (mk_rep _ _ _ _ _ _ M)) as (ech & He & _).
  eapply runs_setwritable_one; [apply M|exact He|]. set (w := negb _).
  pose proof (framed_made _ _ _ _ _ _ _ w Ok1 M He) as Hfr. intros v2'. fold v2' in Hfr. set (v3 := set_chunks _ v2') in *.
  set (ch := set_writable w _) in *.
tidy. step. destruct Hrd as (Hi & Hlt & Hf & Hl & Ht). step. tidy. step. step. tidy.
  call runs_wr_packet. tidy. rewrite insert_insert_eq.
  match goal with |- runs (bind (if ?t then log _ else skip) _) ?x _ => set (s4 := x) end.
  eapply (runs_seq _ _ _ (λ _ x, ∃ g, x = set_ca_log g s4)).
  { case_test as Hc; [unfold log|unfold skip]; step; [eexists; reflexivity|]. exists (ca_log s4). reflexivity. }
  intros _ x [g ->]. apply runs_bind. eapply (runs_show_progress _ i inp pd); [split_and!; done|]. intros l g'.
  set (s5 := set_ca_pd _ _). apply runs_bind.
  eapply (runs_build_payload s5 p (new_capture s header e (pd_link_type pd)) e c ch bs).
  - apply lookup_insert_eq.
  - done.
  - apply Hfr.
  - apply Hfr.
  - apply Hfr.
  - apply Hfr.
  - intros E. rewrite E in El. unfold zlen in El. simpl in El. lia.
  - done.
  - done.
  - done.
  - change (ca_vb s5) with v3. pose proof (fr_mem _ _ _ _ _ _ _ Hfr) as E. change (S (S (S n)) = (3 + vb_mem v3)%nat) in E. lia.
  - change (ca_vb s5) with v3. intros v' a m b e' cm mk Hps. cbn [negb]. step.
    apply (HQ _ p e a m b e' cm mk).
    destruct Hps as [P1 P2 P3 P4 P5 P6 P7 P8 P9]. pose proof Hfr as [F1 F2 F3 F4 F5 F6 F7 F8 F9 F10].
    assert (∀ x, x ∈ [e; c] → (vb_fresh (ca_vb s) ≤ x)%positive) as Hfx.
    { intros x Hx. specialize (F7 x Hx). pose proof (kp_fresh _ _ _ K1). lia. }
    split; tidy; try done.
    + unfold s5, s4. tidy. by rewrite insert_insert_eq.
    + intros e0 cs0 _ H0. destruct (keeps_nil_buf _ _ _ _ Ok K1 H0) as [H1 <-].
      destruct (keeps_nil_buf _ _ _ _ Ok1 F6 H1) as [H2 <-]. apply P6; [|done].
      intros ->%list_elem_of_singleton. pose proof (br_fresh _ _ _ e Ok H0 ltac:(by left)). specialize (Hfx e ltac:(by left)). lia.
    + split; [apply Hfx; by left|]. etrans; [apply K1|]. etrans; [apply F6|exact P8].
    + etrans; [exact P7|]. etrans; [exact F8|]. done.
    + change (S (S (S n)) = (3 + vb_mem v3)%nat) in F9. rewrite Em. lia.
Qed.
End receive.

(** ** The claims *)

(** The system gives the frame [bytes] of the capture [i] to a reception: no packet
    waits in the queue, [select] succeeds and [i] is the first capture with data. *)
Record delivers (s : capture_state) (inp : input) (i : nat) (pd : pcap_capture) (header : pcap_pkthdr) (bytes : list Z) : Prop := {
  dv_idle : ls_head (ca_sent s) = None;
  dv_fds : ∀ j, (j < length (ca_pd s))%nat → 0 ≤ in_fd inp j;
  dv_select : 0 < in_select inp;
  dv_first : List.find (λ j, in_isset inp (in_fd inp j)) (seq 0 (length (ca_pd s))) = Some i;
  dv_next : in_next inp i = NextPacket header bytes;
  dv_ready : ready s i inp pd;
  dv_caplen : 0 < caplen header ≤ len header;
  dv_bytes : caplen header ≤ zlen bytes ∧ caplen header < 2 ^ 32 ∧ Forall (λ x, 0 ≤ x < 256) bytes;
}.

Section claims.
Implicit Types s : capture_state.

Lemma runs_do_receive s inp i pd header bytes Q :
  delivers s inp i pd header bytes → heap_ok (ca_vb s) → (9 ≤ vb_mem (ca_vb s))%nat →
  let bs := ztake (caplen header) bytes in
  0 ≤ (link_protocol (pd_link_type pd) bs).1 →
  (∀ s' p e a m b e' cm mk, received s header bs (pd_link_type pd) s' p e a m b e' cm mk → Q (0, Some p) s') →
  runs (packet_do_receive inp) s Q.
Proof.
  intros [D1 D2 D3 D4 D5 D6 D7 (D8 & D9 & D10)] Ok Hm bs Hpr HQ. unfold packet_do_receive. step. rewrite D1. step.
  assert (existsb (λ j, bool_decide (in_fd inp j < 0)) (seq 0 (length (ca_pd s))) = false) as ->.
  { apply not_true_iff_false. intros (j & Hj%in_seq & Ht%bool_decide_eq_true)%existsb_exists. specialize (D2 j). lia. }
  rewrite !bool_decide_false by lia. rewrite D4, D5. rewrite bool_decide_false by lia.
  eapply (runs_receive_packet s i inp pd); [done|done|done|lia|lia| |done|exact HQ]. by apply Forall_take.
Qed.

(** Acceptance of a packet whose payload the filters may have changed: the frame that
    is written to the output file is the link layer header, the payload as it is at that
    time and what follows it, in order, with the lengths of the record adjusted to the
    bytes; the packet has no buffers any more, the heap is well formed, and no other
    buffer, no error, neither queue nor input file is touched. *)
Theorem pcap_accept_correct s p pk e a m b e' cm mk d :
  ca_packets s !! p = Some pk → held (ca_vb s) pk e a m b e' cm mk → flat_ok (ca_vb s) e (a ++ m ++ b) →
  ca_pout s = Some d →
  let bs := content (ca_vb s) a ++ content (ca_vb s) m ++ content (ca_vb s) b in
  let h := dump_header (pp_header pk) (zlen bs) in
  bs ≠ [] →
  runs (packet_verdict p FILTER_ACCEPT) s (λ _ s',
    ca_pout s' = Some (d ++ [(h, bs)]) ∧ ca_packets s' = <[p := closed_packet h pk]> (ca_packets s) ∧
    heap_ok (ca_vb s') ∧ other_buffers (ca_vb s) [e; e'] (ca_vb s') ∧ vb_error (ca_vb s') = vb_error (ca_vb s) ∧
    ca_sent s' = ca_sent s ∧ ca_pin s' = ca_pin s ∧ ca_packet_id s' = ca_packet_id s).
Proof.
  intros Hp Hh Hf Hd. rewrite <- !content_app. intros bs h Hne.
  eapply runs_accept; [exact Hp|exact Hh|exact Hf|exact Hd|exact Hne|].
  intros s' [J1 J2 J3 J4 J5 J6 J7 J8 J9]. rewrite Hd in J5. split_and!; done.
Qed.

(** A frame that is received and accepted without a change in between is written to
    the output file as it was captured, byte for byte and with its header; the input file
    has it too. In between its payload is the frame without the link layer header. The
    heap stays well formed, all other buffers are as they were and no error is raised. *)
Theorem pcap_capture_roundtrip s inp i pd header bytes d :
  delivers s inp i pd header bytes → heap_ok (ca_vb s) → (9 ≤ vb_mem (ca_vb s))%nat →
  let bs := ztake (caplen header) bytes in
  let off := (link_protocol (pd_link_type pd) bs).2 in
  0 ≤ (link_protocol (pd_link_type pd) bs).1 → ca_pout s = Some d →
  runs (packet_do_receive inp) s (λ r s1, ∃ p pk e' m,
    r = (0, Some p) ∧ ca_packets s1 !! p = Some pk ∧ pp_payload pk = Some e' ∧
    buf_rep (ca_vb s1) e' m ∧ content (ca_vb s1) m = zdrop off bs ∧ pp_id pk = ca_packet_id s1 ∧
    runs (packet_verdict p FILTER_ACCEPT) s1 (λ _ s2,
      ca_pout s2 = Some (d ++ [(header, bs)]) ∧ ca_pin s2 = (λ l, l ++ [(header, bs)]) <$> ca_pin s ∧
      heap_ok (ca_vb s2) ∧ other_buffers (ca_vb s) [] (ca_vb s2) ∧ vb_error (ca_vb s2) = vb_error (ca_vb s))).
Proof.
  intros D Ok Hm bs off Hpr Hd. eapply runs_do_receive; [exact D|done|done|exact Hpr|]. fold bs.
  intros s1 p e a m b e' cm mk R. set (pk := set_pp_payload (Some e') (Iter (Some cm) 0 0 false) (new_capture s header e (pd_link_type pd))).
  destruct R as [R1 R2 R3 R4 R5 R6 R7 R8 R9 R10 R11 R12 R13 R14 R15]. fold pk in R2, R3.
  assert (zlen bs = caplen header) as El by (apply zlen_ztake; pose proof (dv_bytes _ _ _ _ _ _ D); pose proof (dv_caplen _ _ _ _ _ _ D); lia).
  assert (content (ca_vb s1) (a ++ m ++ b) = bs) as Ebs.
  { rewrite !content_app, R4, R5, R6, app_nil_r. apply ztake_zdrop. }
  exists p, pk, e', m. split_and!; try done; [by rewrite R2, lookup_insert_eq|by apply R3|].
  eapply (runs_accept s1 p pk); [by rewrite R2, lookup_insert_eq|exact R3|by left|rewrite R13; exact Hd| |].
  { rewrite Ebs. intros E. rewrite E in El. pose proof (dv_caplen _ _ _ _ _ _ D). unfold zlen in El. simpl in El. lia. }
  rewrite Ebs. assert (dump_header (pp_header pk) (zlen bs) = header) as ->.
  { unfold dump_header. rewrite bool_decide_true; [done|]. by rewrite El. }
  intros s2 [J1 J2 J3 J4 J5 J6 J7 J8 J9]. rewrite R13, Hd in J5. split_and!; try done; [congruence| |congruence].
  intros e0 cs0 _ H0. destruct (R8 e0 cs0 ltac:(set_solver) H0) as [H1 <-]. apply J2; [|done].
  pose proof (br_fresh _ _ _ e0 Ok H0 ltac:(by left)). intros Hi. destruct R9. set_unfold. destruct Hi as [->|[->|[]]]; lia.
Qed.
End claims.

(** ** Witnesses *)

(** A device that gives an Ethernet frame with a VLAN tag and three bytes. *)
Definition ex_frame : list Z := replicate 12 1 ++ [0x81; 0; 0; 9; 8; 0; 5; 6; 7].
Definition ex_frame_header : pcap_pkthdr := Pkthdr 1000 20 21 21.
Definition ex_device : pcap_capture := PcapCapture DLT_EN10MB None (Time 0 0).
Definition ex_capture : capture_state :=
  Capture (empty_state 20) (LS ∅ None None) ∅ [ex_device] None (Some []) 0 DLT_EN10MB false [].
Definition ex_input : input :=
  Input (λ _, 3) 1 0 (λ _, true) (λ _, NextPacket ex_frame_header ex_frame) (λ _, 0) (Time 2000 0).

Lemma ex_delivers : delivers ex_capture ex_input 0 ex_device ex_frame_header ex_frame.
Proof.
  split; try done.
  - split_and!; [done|right; by left|done|done|done].
  - split_and!; [done|done|]. apply (bool_decide_unpack _). by vm_compute.
Qed.

Lemma ex_capture_heap : heap_ok (ca_vb ex_capture).
Proof. by apply empty_heap_ok. Qed.

Lemma pcap_capture_roundtrip_witness :
  delivers ex_capture ex_input 0 ex_device ex_frame_header ex_frame ∧
  runs (packet_do_receive ex_input) ex_capture (λ r s1, ∃ p pk e' m,
    r = (0, Some p) ∧ ca_packets s1 !! p = Some pk ∧ pp_payload pk = Some e' ∧
    buf_rep (ca_vb s1) e' m ∧ content (ca_vb s1) m = [5; 6; 7] ∧ pp_id pk = ca_packet_id s1 ∧
    runs (packet_verdict p FILTER_ACCEPT) s1 (λ _ s2,
      ca_pout s2 = Some [(ex_frame_header, ex_frame)] ∧ ca_pin s2 = None ∧
      heap_ok (ca_vb s2) ∧ other_buffers (ca_vb ex_capture) [] (ca_vb s2) ∧ vb_error (ca_vb s2) = None)).
Proof.
  split; [apply ex_delivers|].
  apply (pcap_capture_roundtrip ex_capture ex_input 0 ex_device ex_frame_header ex_frame []).
  - apply ex_delivers.
  - apply ex_capture_heap.
  - simpl. lia.
  - by vm_compute.
  - reflexivity.
Defined.

Lemma pcap_accept_correct_witness :
  runs (packet_do_receive ex_input) ex_capture (λ r s1, ∃ p, r = (0, Some p) ∧
    runs (packet_verdict p FILTER_ACCEPT) s1 (λ _ s2, ca_pout s2 = Some [(ex_frame_header, ex_frame)])).
Proof.
  eapply runs_do_receive; [apply ex_delivers|apply ex_capture_heap|simpl; lia|by vm_compute|].
  intros s1 p e a m b e' cm mk R. exists p. split; [done|].
  assert (content (ca_vb s1) a ++ content (ca_vb s1) m ++ content (ca_vb s1) b = ex_frame) as Ebs.
  { rewrite (rc_header _ _ _ _ _ _ _ _ _ _ _ _ _ R), (rc_payload _ _ _ _ _ _ _ _ _ _ _ _ _ R),
      (rc_rest _ _ _ _ _ _ _ _ _ _ _ _ _ R). by vm_compute. }
  eapply runs_mono; [eapply (pcap_accept_correct s1 p _ e a m b e' cm mk [])|].
  - rewrite (rc_packets _ _ _ _ _ _ _ _ _ _ _ _ _ R). apply lookup_insert_eq.
  - apply R.
  - left. apply R.
  - rewrite (rc_pout _ _ _ _ _ _ _ _ _ _ _ _ _ R). reflexivity.
  - by rewrite Ebs.
  - rewrite Ebs. intros _ s2 (Ho & _). rewrite Ho. reflexivity.
Defined.
