(* ===== verification/PcapQueue.v ===== *)
(** * The queue of the packets to send (modules/capture/pcap/main.c)

    A packet that the filters make is put at the end of a list by [send_packet]; the next
    receptions take the packets of the list, from its beginning, before they read a
    capture. *)

From S2P Require Import Prelude Types List2 List VbHeap VbIter VbSub Time Pcap PcapSpec PcapCapture.

(** ** The queue *)

Inductive queue_op := Send (p : loc) | Receive.

(** A queue: what the receptions give and what remains; [None] when a packet is sent
    that is in the queue, or received from an empty one. *)
Fixpoint fifo (ops : list queue_op) (q : list loc) : option (list loc * list loc) :=
  match ops with
  | [] => Some ([], q)
  | Send p :: ops => if decide (p ∈ q) then None else fifo ops (q ++ [p])
  | Receive :: ops =>
      match q with
      | [] => None
      | x :: q => prod_map (cons x) id <$> fifo ops q
      end
  end.

(** The same operations of the module. *)
Fixpoint exec_ops (ops : list queue_op) (inp : input) : PM (list loc) :=
  match ops with
  | [] => ret []
  | Send p :: ops => ok ← send_packet p; c_assert ok;; exec_ops ops inp
  | Receive :: ops =>
      '(_, pkt) ← packet_do_receive inp;
      p ← deref pkt;
      r ← exec_ops ops inp;
      ret (p :: r)
  end.

(** The packets [pool] exist and hold a frame, those of [q] are in the list in order and
    the others have no neighbours. *)
Record queue_rep (s : capture_state) (pool q : list loc) : Prop := {
  qr_mode : ca_passthrough s = false;
  qr_list : llist true true (ca_sent s) q;
  qr_pool : ∀ p, p ∈ q → p ∈ pool;
  qr_packets : ∀ p, p ∈ pool → ∃ pk, ca_packets s !! p = Some pk ∧ is_Some (pp_data pk);
  qr_alone : ∀ p, p ∈ pool → p ∉ q → ls_links (ca_sent s) !! p = Some (Elem None None);
}.

Section queue.
Implicit Types s : capture_state.

Lemma last_cut q : cut_after (last_or None q) true q [].
Proof. unfold last_or. destruct (last q) eqn:E; [exact E|done]. Qed.

Lemma runs_on_sent {A} (m : LM A) s Q :
  runs m (ca_sent s) (λ a l, Q a (set_ca_sent l s)) → runs (on_sent m) s Q.
Proof. apply runs_zoom. Qed.

Lemma set_ca_sent_id s : set_ca_sent (ca_sent s) s = s.
Proof. by destruct s. Qed.

(** What an operation on the queue leaves as it was. *)
Definition same_rest (s s' : capture_state) : Prop :=
  ca_vb s' = ca_vb s ∧ ca_pin s' = ca_pin s ∧ ca_pout s' = ca_pout s ∧ ca_packet_id s' = ca_packet_id s.

#[export] Instance same_rest_preorder : PreOrder same_rest.
Proof. split; [done|]. intros s1 s2 s3 (A1 & A2 & A3 & A4) (B1 & B2 & B3 & B4). split_and!; congruence. Qed.

Lemma runs_send s pool q p Q :
  queue_rep s pool q → p ∈ pool → p ∉ q →
  (∀ s', queue_rep s' pool (q ++ [p]) → same_rest s s' → Q true s') → runs (send_packet p) s Q.
Proof.
  intros [M L Hq Hp Ha] Hi Hn HQ. unfold send_packet. step. rewrite M. destruct (Hp p Hi) as (pk & Hpk & [e He]).
  call runs_rd_packet; [exact Hpk|]. rewrite He. step. pose proof (Ha p Hi Hn) as El.
  apply runs_bind, runs_on_sent. eapply runs_list_next; [exact El|]. rewrite set_ca_sent_id.
  apply runs_bind, runs_on_sent. eapply runs_list_prev; [exact El|]. rewrite set_ca_sent_id. step. step.
  rewrite (ll_tail _ _ _ _ L) by done. apply runs_bind, runs_on_sent.
  eapply (runs_list_insert_after true true (ca_sent s) _ q []); [by rewrite app_nil_r|apply last_cut|done|by rewrite app_nil_r|].
  intros l Hl K. step. apply HQ; [|done]. split; simpl; try done.
  - intros x [Hx| ->%list_elem_of_singleton]%elem_of_app; auto.
  - intros x Hx Hnx. rewrite (lk_out _ _ _ _ _ K) by set_solver. apply Ha; [done|set_solver].
Qed.

Lemma runs_receive_sent s pool q p inp Q :
  queue_rep s pool (p :: q) →
  (∀ s', queue_rep s' pool q → same_rest s s' → Q (0, Some p) s') → runs (packet_do_receive inp) s Q.
Proof.
  intros [M L Hq Hp Ha] HQ. unfold packet_do_receive. step. rewrite (ll_head _ _ _ _ L) by done. simpl.
  pose proof (Hq p ltac:(by left)) as Hi. destruct (Hp p Hi) as (pk & Hpk & Hd).
  pose proof (ll_nodup _ _ _ _ L) as [Hn _]%NoDup_cons.
  apply runs_bind, runs_on_sent. eapply (runs_list_remove true true (ca_sent s) [] p q); [exact L|].
  intros l Hl El K. call runs_upd_packet; [exact Hpk|]. step. apply HQ; [|done]. split; simpl; try done.
  - intros x Hx. apply Hq. by right.
  - intros x Hx. destruct (decide (x = p)) as [->|Hne]; [rewrite lookup_insert_eq; eauto|].
    rewrite lookup_insert_ne by done. auto.
  - intros x Hx Hnx. destruct (decide (x = p)) as [->|Hne]; [done|].
    rewrite (lk_out _ _ _ _ _ K) by set_solver. apply Ha; [done|set_solver].
Qed.
End queue.

(** ** The claim *)

(** C21 The list of the packets to send refines a queue, for every sequence of sends and
    receptions in which a packet is sent only while it is not in the queue (a packet that is
    alone in it can be sent again and breaks the list, [sent_twice_for_ever]) and a reception
    finds the queue non-empty (an empty one makes the module read from libpcap): the packets
    are received in the order in which they were sent; the remaining ones are in the list, no
    other packet has a neighbour, and the buffers, the dump files and the counter of the
    packets are as they were. *)
Theorem pcap_sent_refines_queue ops inp : ∀ s pool q rs q',
  queue_rep s pool q → (∀ p, Send p ∈ ops → p ∈ pool) → fifo ops q = Some (rs, q') →
  runs (exec_ops ops inp) s (λ r s', r = rs ∧ queue_rep s' pool q' ∧ same_rest s s').
Proof.
  induction ops as [|[p|] ops IH]; intros s pool q rs q' R Hp Hf; simpl in *.
  - injection Hf as <- <-. by step.
  - destruct (decide (p ∈ q)) as [|Hn]; [done|]. call runs_send; [exact R|apply Hp; by left|done|].
    intros s1 R1 A1. step. eapply runs_mono; [eapply IH; [exact R1| |exact Hf]|].
    + intros x Hx. apply Hp. by right.
    + intros r s2 (-> & R2 & A2). split_and!; try done. by etrans.
  - destruct q as [|x q]; [done|]. destruct (fifo ops q) as [[r0 q0]|] eqn:Ef; [|done]. injection Hf as <- <-.
    call runs_receive_sent; [exact R|]. intros s1 R1 A1. step.
    eapply runs_seq; [eapply IH; [exact R1| |exact Ef]|].
    + intros y Hy. apply Hp. by right.
    + intros r s2 (-> & R2 & A2). step. split_and!; try done. by etrans.
Qed.

(** ** Witness and computations *)

(** Two packets of the capture of the examples. *)
Definition ex_made (id : Z) : pcap_packet :=
  PcapPacket None (Time 0 0) (Pkthdr 0 0 0 0) (Some 9%positive) (Iter None 0 0 false) id DLT_EN10MB false.
Definition ex_queue : capture_state :=
  set_ca_sent (LS {[1%positive := Elem None None; 2%positive := Elem None None]} None None)
    (set_ca_packets {[1%positive := ex_made 1; 2%positive := ex_made 2]} ex_capture).

Lemma ex_queue_rep : queue_rep ex_queue [1%positive; 2%positive] [].
Proof.
  split; try done.
  - split; try done. apply NoDup_nil_2.
  - by intros p ?%elem_of_nil.
  - intros p Hp. set_unfold in Hp. destruct Hp as [->|[->|[]]]; (eexists; split; [reflexivity|by eexists]).
  - intros p Hp _. set_unfold in Hp. destruct Hp as [->|[->|[]]]; reflexivity.
Qed.

Lemma pcap_sent_refines_queue_witness :
  runs (exec_ops [Send 2; Send 1; Receive; Send 2; Receive; Receive] ex_input) ex_queue (λ r s',
    r = [2%positive; 1%positive; 2%positive] ∧ queue_rep s' [1%positive; 2%positive] [] ∧ same_rest ex_queue s').
Proof.
  apply (pcap_sent_refines_queue _ ex_input ex_queue [1%positive; 2%positive] []).
  - apply ex_queue_rep.
  - intros p Hp. set_unfold in Hp. set_unfold. naive_solver.
  - by vm_compute.
Defined.

(** Outside the intended domain: a packet that is alone in the queue has no neighbours,
    so that its state is still the one of a packet that was not sent. It can be sent again
    and becomes its own neighbour, and the receptions give it for ever. *)
Theorem sent_twice_for_ever :
  fst <$> (_ ← send_packet 1; status ← packet_getstate 1; again ← send_packet 1; r ← packet_do_receive ex_input;
           head ← gets (λ s, ls_head (ca_sent s)); ret (status, again, r, head)) ex_queue
  = Some (STATUS_FORGED, true, (0, Some 1%positive), Some 1%positive).
Proof. by vm_compute. Qed.
