(* ===== verification/Parameters.v ===== *)
(** * Parameters of modules (lib/haka/parameters.c)

    The keys and values of a configuration, with a current section: a dictionary of
    iniparser behind the names "section:key". The dictionary is the class [Iniparser]:
    what is stored under a name, the numbers and booleans that it reads from a text, and
    a store, which answers 0 when it is done. *)

From stdpp Require Import pretty.
From S2P Require Import Prelude.

#[local] Open Scope string_scope.

Class Iniparser := {
  dictionary : Type;
  iniparser_load : string → option dictionary;
  dictionary_new : option dictionary;
  iniparser_getstring : dictionary → string → option string → option string;
  iniparser_getboolean : dictionary → string → bool → bool;
  iniparser_getint : dictionary → string → Z → Z;
  iniparser_set : dictionary → string → string → Z * dictionary;
}.

Definition MAX_SECTION_LEN : nat := 256.
Definition MAX_KEY_LEN : nat := 256.
Definition MAX_FULLKEY_LEN : nat := MAX_SECTION_LEN + MAX_KEY_LEN + 1.

(** What a buffer of [n] characters holds of a string that is copied into it. *)
Definition cut (n : nat) (str : string) : string := String.substring 0 (n - 1) str.

Section parameters.
Context {I : Iniparser}.

Record parameters := Params {
  pm_dict : dictionary;
  pm_section : string;
  pm_key : string;
}.

Record pmstate := PS {
  ps_params : gmap loc parameters;
  ps_error : option string;
  ps_mem : nat;
  ps_fresh : loc;
}.

Abbreviation PSM := (M pmstate).

Definition pm_error (msg : string) : PSM unit :=
  modify (λ s, PS (ps_params s) (Some (default msg (ps_error s))) (ps_mem s) (ps_fresh s)).
Definition rd_params (p : loc) : PSM parameters := o ← gets (λ s, ps_params s !! p); deref o.
Definition set_params (m : gmap loc parameters) (s : pmstate) : pmstate := PS m (ps_error s) (ps_mem s) (ps_fresh s).
Definition wr_params (p : loc) (v : parameters) : PSM unit := modify (λ s, set_params (<[p := v]> (ps_params s)) s).
Definition pm_malloc : PSM ptr := λ s,
  match ps_mem s with
  | O => Some (None, s)
  | S n => Some (Some (ps_fresh s), PS (ps_params s) (ps_error s) n (Pos.succ (ps_fresh s)))
  end.

(** The structure with its dictionary; without one it is not filled, and not freed. *)
Definition parameters_make (dict : option dictionary) (msg : string) : PSM ptr :=
  p ← pm_malloc;
  match p with
  | None => pm_error "memory error";; ret None
  | Some p =>
      match dict with
      | None => pm_error msg;; ret None
      | Some d => wr_params p (Params d "" "");; ret (Some p)
      end
  end.

Definition parameters_open (file : string) : PSM ptr :=
  parameters_make (iniparser_load file) "configuration file parsing error".
Definition parameters_create : PSM ptr := parameters_make dictionary_new "memory error".

Definition parameters_free (params : ptr) : PSM unit :=
  p ← deref params;
  _ ← rd_params p;
  modify (λ s, set_params (delete p (ps_params s)) s).

Definition parameters_open_section (params : loc) (section : string) : PSM Z :=
  x ← rd_params params;
  if bool_decide (MAX_SECTION_LEN ≤ String.length section)%nat then pm_error "Section name is too long";; ret 1
  else wr_params params (Params (pm_dict x) (cut MAX_SECTION_LEN section) (pm_key x));; ret 0.

Definition parameters_close_section (params : loc) : PSM Z :=
  x ← rd_params params;
  if bool_decide (pm_section x ≠ "") then wr_params params (Params (pm_dict x) "" (pm_key x));; ret 0
  else ret 1.

(** The name of the key in the dictionary. *)
Definition full_key (section key : string) : string :=
  if bool_decide (section ≠ "") then section +:+ ":" +:+ key else key.

Definition parameters_check_key (params : loc) (key : string) : PSM bool :=
  x ← rd_params params;
  if bool_decide (MAX_KEY_LEN ≤ String.length key)%nat then pm_error "Key is too long";; ret false
  else wr_params params (Params (pm_dict x) (pm_section x) (cut MAX_FULLKEY_LEN (full_key (pm_section x) key)));; ret true.

(** A reading: [bad] for a key that is refused, [def] without parameters. *)
Definition get_with {A} (params : ptr) (key : string) (def bad : A) (read : dictionary → string → A → A) : PSM A :=
  match params with
  | None => ret def
  | Some p =>
      ok ← parameters_check_key p key;
      if negb ok then ret bad else
      x ← rd_params p;
      ret (read (pm_dict x) (pm_key x) def)
  end.

Definition parameters_get_string (params : ptr) (key : string) (def : option string) : PSM (option string) :=
  get_with params key def None iniparser_getstring.
Definition parameters_get_boolean (params : ptr) (key : string) (def : bool) : PSM bool :=
  get_with params key def false iniparser_getboolean.
Definition parameters_get_integer (params : ptr) (key : string) (def : Z) : PSM Z :=
  get_with params key def 0 iniparser_getint.

(** The result is [iniparser_set(...) != 0]. *)
Definition parameters_set_string (params : loc) (key value : string) : PSM bool :=
  ok ← parameters_check_key params key;
  if negb ok then ret false else
  x ← rd_params params;
  let '(code, d) := iniparser_set (pm_dict x) (pm_key x) value in
  wr_params params (Params d (pm_section x) (pm_key x));;
  ret (bool_decide (code ≠ 0)).
Definition parameters_set_boolean (params : loc) (key : string) (value : bool) : PSM bool :=
  parameters_set_string params key (if value then "true" else "false").
Definition parameters_set_integer (params : loc) (key : string) (value : Z) : PSM bool :=
  parameters_set_string params key (cut 32 (pretty value)).

(** ** What is stored is read *)

(** The dictionary: two names are the same when [same] says so (iniparser does not look at
    the case). *)
Record ini_ok (same : string → string → Prop) : Prop := {
  io_same : ∀ k, same k k;
  io_stored : ∀ d k v d', iniparser_set d k v = (0, d') →
    ∀ k' def, same k k' → iniparser_getstring d' k' def = Some v;
  io_kept : ∀ d k v d', iniparser_set d k v = (0, d') →
    ∀ k' def, ¬ same k k' → iniparser_getstring d' k' def = iniparser_getstring d k' def;
  io_true : ∀ d k def, iniparser_getstring d k None = Some "true" → iniparser_getboolean d k def = true;
  io_false : ∀ d k def, iniparser_getstring d k None = Some "false" → iniparser_getboolean d k def = false;
}.

Lemma substring_all str n : (String.length str ≤ n)%nat → String.substring 0 n str = str.
Proof.
  revert n. induction str as [|a str IH]; intros [|n] Hn; simpl in *; try done; [lia|]. f_equal. apply IH. lia.
Qed.

Lemma string_length_app (a b : string) : String.length (a +:+ b) = (String.length a + String.length b)%nat.
Proof. induction a as [|x a IH]; simpl; [done|]. by rewrite IH. Qed.

(** The section and the key of the parameters are short enough for their buffers. *)
Definition params_ok (x : parameters) : Prop := (String.length (pm_section x) < MAX_SECTION_LEN)%nat.

Lemma full_key_fits x key : params_ok x → (String.length key < MAX_KEY_LEN)%nat →
  cut MAX_FULLKEY_LEN (full_key (pm_section x) key) = full_key (pm_section x) key.
Proof.
  unfold params_ok, cut, full_key, MAX_FULLKEY_LEN, MAX_SECTION_LEN, MAX_KEY_LEN. intros Hx Hk. apply substring_all.
  case_bool_decide; [|lia]. rewrite !string_length_app. simpl. lia.
Qed.

Lemma runs_check_key p x key s Q :
  ps_params s !! p = Some x → params_ok x → (String.length key < MAX_KEY_LEN)%nat →
  Q true (set_params (<[p := Params (pm_dict x) (pm_section x) (full_key (pm_section x) key)]> (ps_params s)) s) →
  runs (parameters_check_key p key) s Q.
Proof.
  intros Hp Hx Hk HQ. unfold parameters_check_key, rd_params. step. rewrite Hp. step. rewrite bool_decide_false by lia.
  rewrite full_key_fits by done. unfold wr_params. step. by step.
Qed.

Lemma runs_get_with {A} p x key (def bad : A) read s (Q : A → pmstate → Prop) :
  ps_params s !! p = Some x → params_ok x → (String.length key < MAX_KEY_LEN)%nat →
  Q (read (pm_dict x) (full_key (pm_section x) key) def)
    (set_params (<[p := Params (pm_dict x) (pm_section x) (full_key (pm_section x) key)]> (ps_params s)) s) →
  runs (get_with (Some p) key def bad read) s Q.
Proof.
  intros Hp Hx Hk HQ. unfold get_with. call runs_check_key; [exact Hp|done|done|]. cbn [negb]. unfold rd_params. step.
  simpl. rewrite lookup_insert_eq. step. by step.
Qed.

Lemma runs_set p x key value d s Q :
  ps_params s !! p = Some x → params_ok x → (String.length key < MAX_KEY_LEN)%nat →
  iniparser_set (pm_dict x) (full_key (pm_section x) key) value = (0, d) →
  Q false (set_params (<[p := Params d (pm_section x) (full_key (pm_section x) key)]> (ps_params s)) s) →
  runs (parameters_set_string p key value) s Q.
Proof.
  intros Hp Hx Hk Hd HQ. unfold parameters_set_string. call runs_check_key; [exact Hp|done|done|]. cbn [negb].
  unfold rd_params. step. simpl. rewrite lookup_insert_eq. step. simpl. rewrite Hd. unfold wr_params. step. step. simpl.
  unfold set_params. simpl. by rewrite insert_insert_eq.
Qed.

(** A value that is stored under a key of the current section is read back under every
    name that is the same, as a text and, for a boolean, as a boolean; the other names keep
    their values. *)
Theorem parameters_set_get same p x s key value d key' :
  ini_ok same → ps_params s !! p = Some x → params_ok x →
  (String.length key < MAX_KEY_LEN)%nat → (String.length key' < MAX_KEY_LEN)%nat →
  iniparser_set (pm_dict x) (full_key (pm_section x) key) value = (0, d) →
  runs (_ ← parameters_set_string p key value; parameters_get_string (Some p) key' None) s (λ r s',
    (same (full_key (pm_section x) key) (full_key (pm_section x) key') → r = Some value) ∧
    (¬ same (full_key (pm_section x) key) (full_key (pm_section x) key') →
      r = iniparser_getstring (pm_dict x) (full_key (pm_section x) key') None) ∧
    ps_error s' = ps_error s).
Proof.
  intros Hi Hp Hx Hk Hk' Hd. call runs_set; [exact Hp|done|done|exact Hd|].
  eapply runs_get_with; [simpl; by rewrite lookup_insert_eq|done|done|]. simpl.
  split_and!; [|by eapply io_kept|done]. by eapply io_stored.
Qed.

Theorem parameters_set_get_boolean same p x s key (value : bool) d def :
  ini_ok same → ps_params s !! p = Some x → params_ok x → (String.length key < MAX_KEY_LEN)%nat →
  iniparser_set (pm_dict x) (full_key (pm_section x) key) (if value then "true" else "false") = (0, d) →
  runs (_ ← parameters_set_boolean p key value; parameters_get_boolean (Some p) key def) s (λ r _, r = value).
Proof.
  intros Hi Hp Hx Hk Hd. call runs_set; [exact Hp|done|done|exact Hd|].
  eapply runs_get_with; [simpl; by rewrite lookup_insert_eq|done|done|]. simpl.
  pose proof (io_stored _ Hi _ _ _ _ Hd _ None (io_same _ Hi _)) as Hs.
  destruct value; [by eapply (io_true _ Hi)|by eapply (io_false _ Hi)].
Qed.

(** A section that is opened is the current one, with its name unchanged, until it is closed. *)
Theorem parameters_section p x s section :
  ps_params s !! p = Some x → (String.length section < MAX_SECTION_LEN)%nat → section ≠ "" →
  runs (a ← parameters_open_section p section; x1 ← rd_params p; b ← parameters_close_section p; x2 ← rd_params p;
        ret (a, pm_section x1, b, pm_section x2)) s (λ r s', r = (0, section, 0, "") ∧
    ∃ x', ps_params s' !! p = Some x' ∧ params_ok x' ∧ pm_dict x' = pm_dict x).
Proof.
  intros Hp Hl Hne. unfold parameters_open_section, parameters_close_section, rd_params, wr_params.
  apply runs_bind. step. rewrite Hp. step. rewrite bool_decide_false by lia. step. step.
  unfold cut. rewrite substring_all by (unfold MAX_SECTION_LEN in *; simpl; lia).
  step. simpl. rewrite lookup_insert_eq. step. apply runs_bind. step. simpl. rewrite lookup_insert_eq. step. simpl. rewrite bool_decide_true by done.
  step. step. step. simpl. rewrite lookup_insert_eq. step. step. simpl. split; [done|]. eexists. rewrite lookup_insert_eq.
  split_and!; [done|unfold params_ok, MAX_SECTION_LEN; simpl; lia|done].
Qed.
End parameters.

(** ** A dictionary *)

Definition map_ini : Iniparser := {|
  dictionary := gmap string string;
  iniparser_load := λ _, None;
  dictionary_new := Some ∅;
  iniparser_getstring := λ d k def, match d !! k with Some v => Some v | None => def end;
  iniparser_getboolean := λ d k def, match d !! k with Some v => bool_decide (v = "true") | None => def end;
  iniparser_getint := λ d k def, def;
  iniparser_set := λ d k v, (0, <[k := v]> d);
|}.

Lemma map_ini_ok : @ini_ok map_ini (=).
Proof.
  split; simpl; try done.
  - intros d k v d' [= <-] k' def <-. by rewrite lookup_insert_eq.
  - intros d k v d' [= <-] k' def Hne. by rewrite lookup_insert_ne.
  - intros d k def. destruct (d !! k); [|done]. intros [= ->]. by apply bool_decide_true.
  - intros d k def. destruct (d !! k); [|done]. intros [= ->]. by apply bool_decide_false.
Qed.

(** ** Outside the intended domain *)

(** [iniparser_set] answers 0 when the value is stored, and the code compares the answer with
    0 the other way round: a store that succeeds returns false. *)
Theorem set_success_false :
  (λ r, r.1) <$> (p ← @parameters_create map_ini; p ← deref p;
    a ← parameters_set_string p "file" "x.pcap"; b ← parameters_get_string (Some p) "file" None; ret (a, b)) (PS ∅ None 1 1) =
  Some (false, Some "x.pcap").
Proof. by vm_compute. Qed.

(** A key that is too long hides the default: the reading answers NULL, false or 0 with an
    error, whatever the default is. *)
Theorem long_key_loses_default :
  (λ r, r.1) <$> (p ← @parameters_create map_ini; p ← deref p;
    parameters_get_boolean (Some p) (String.concat "" (replicate 256 "k")) true) (PS ∅ None 1 1) = Some false.
Proof. by vm_compute. Qed.
