(* ===== verification/PcapInit.v ===== *)
(** * Start and end of the pcap module (modules/capture/pcap/main.c)

    [init] reads the parameters of the module, [init_state] opens the captures and the dump
    files of a thread, [cleanup_state] and [cleanup] give back what they hold. The state has
    the static variables of the file and the memory: strings, arrays of pointers (a cell is
    [None] until it is set), the states of the threads, and the open handles of libpcap.

    What the parameters hold and what libpcap opens are arguments. *)

From Stdlib Require Import Ascii.
From S2P Require Import Prelude Pcap.

#[local] Open Scope string_scope.

(** ** Data *)

Record globals := Globals {
  input_count : Z;
  inputs : ptr;
  input_is_iface : bool;
  output_dump_file : ptr;
  input_dump_file : ptr;
  passthrough : bool;
}.

(** [struct pcap_capture]: the handle, the link type, the size of a file. *)
Record pcap_handle := Handle { ph_pd : ptr; ph_link_type : Z; ph_file_size : option Z }.

(** [struct capture_module_state], as far as the start of a thread sets it. *)
Record module_state := ModState {
  st_pd : list pcap_handle;
  st_pin : ptr;
  st_pout : ptr;
  st_packet_id : Z;
  st_link_type : Z;
}.

Record istate := IS {
  is_globals : globals;
  is_strings : gmap loc string;
  is_arrays : gmap loc (list (option ptr));
  is_states : gmap loc module_state;
  is_handles : gset loc;
  is_error : option string;
  is_mem : nat;
  is_fresh : loc;
}.

Abbreviation IM := (M istate).

Definition set_globals (g : globals) (s : istate) : istate :=
  IS g (is_strings s) (is_arrays s) (is_states s) (is_handles s) (is_error s) (is_mem s) (is_fresh s).
Definition set_strings (m : gmap loc string) (s : istate) : istate :=
  IS (is_globals s) m (is_arrays s) (is_states s) (is_handles s) (is_error s) (is_mem s) (is_fresh s).
Definition set_arrays (m : gmap loc (list (option ptr))) (s : istate) : istate :=
  IS (is_globals s) (is_strings s) m (is_states s) (is_handles s) (is_error s) (is_mem s) (is_fresh s).
Definition set_states (m : gmap loc module_state) (s : istate) : istate :=
  IS (is_globals s) (is_strings s) (is_arrays s) m (is_handles s) (is_error s) (is_mem s) (is_fresh s).
Definition set_handles (h : gset loc) (s : istate) : istate :=
  IS (is_globals s) (is_strings s) (is_arrays s) (is_states s) h (is_error s) (is_mem s) (is_fresh s).

Definition glob : IM globals := gets is_globals.
Definition upd_glob (f : globals → globals) : IM unit := modify (λ s, set_globals (f (is_globals s)) s).
Definition set_inputs (n : Z) (a : ptr) (g : globals) : globals :=
  Globals n a (input_is_iface g) (output_dump_file g) (input_dump_file g) (passthrough g).
Definition set_iface (b : bool) (g : globals) : globals :=
  Globals (input_count g) (inputs g) b (output_dump_file g) (input_dump_file g) (passthrough g).
Definition set_output (p : ptr) (g : globals) : globals :=
  Globals (input_count g) (inputs g) (input_is_iface g) p (input_dump_file g) (passthrough g).
Definition set_dump (p : ptr) (g : globals) : globals :=
  Globals (input_count g) (inputs g) (input_is_iface g) (output_dump_file g) p (passthrough g).
Definition set_passthrough (b : bool) (g : globals) : globals :=
  Globals (input_count g) (inputs g) (input_is_iface g) (output_dump_file g) (input_dump_file g) b.

Definition im_error (msg : string) : IM unit := modify (λ s,
  IS (is_globals s) (is_strings s) (is_arrays s) (is_states s) (is_handles s) (Some (default msg (is_error s))) (is_mem s) (is_fresh s)).
Definition im_malloc : IM ptr := λ s,
  match is_mem s with
  | O => Some (None, s)
  | S n => Some (Some (is_fresh s),
      IS (is_globals s) (is_strings s) (is_arrays s) (is_states s) (is_handles s) (is_error s) n (Pos.succ (is_fresh s)))
  end.

Definition strdup (str : string) : IM ptr :=
  p ← im_malloc;
  match p with
  | None => ret None
  | Some p => modify (λ s, set_strings (<[p := str]> (is_strings s)) s);; ret (Some p)
  end.
(** [free]: of NULL or of a block that is still there. *)
Definition free_string (p : ptr) : IM unit :=
  match p with
  | None => skip
  | Some p =>
      o ← gets (λ s, is_strings s !! p);
      _ ← deref o;
      modify (λ s, set_strings (delete p (is_strings s)) s)
  end.
Definition malloc_array (n : nat) : IM ptr :=
  p ← im_malloc;
  match p with
  | None => ret None
  | Some p => modify (λ s, set_arrays (<[p := replicate n None]> (is_arrays s)) s);; ret (Some p)
  end.
Definition rd_array (a : ptr) : IM (list (option ptr)) :=
  a ← deref a; o ← gets (λ s, is_arrays s !! a); deref o.
Definition wr_cell (a : ptr) (i : nat) (p : ptr) : IM unit :=
  l ← rd_array a;
  c_assert (bool_decide (i < length l)%nat);;
  a ← deref a;
  modify (λ s, set_arrays (<[a := <[i := Some p]> l]> (is_arrays s)) s).
Definition free_array (a : ptr) : IM unit :=
  match a with
  | None => skip
  | Some p => _ ← rd_array a; modify (λ s, set_arrays (delete p (is_arrays s)) s)
  end.

(** ** The parameters of the module *)

(** [free(inputs[i])] for the next [n] cells; a cell that is not set has no address. *)
Fixpoint free_cells (n i : nat) (a : ptr) : IM unit :=
  match n with
  | O => skip
  | S n =>
      l ← rd_array a;
      cell ← deref (l !! i);
      p ← deref cell;
      free_string p;;
      free_cells n (S i) a
  end.

Definition cleanup : IM unit :=
  g ← glob;
  free_cells (Z.to_nat (input_count g)) 0 (inputs g);;
  free_array (inputs g);;
  free_string (output_dump_file g);;
  free_string (input_dump_file g).

Definition comma : ascii := ","%char.

Fixpoint count_commas (str : string) : nat :=
  match str with
  | EmptyString => 0
  | String c str => (if bool_decide (c = comma) then 1 else 0) + count_commas str
  end.

(** [strtok_r(str, ",", &ptr)]: the delimiters in front are skipped. *)
Fixpoint skip_commas (str : string) : string :=
  match str with
  | EmptyString => EmptyString
  | String c tl => if bool_decide (c = comma) then skip_commas tl else str
  end.
Fixpoint token (str : string) : string * string :=
  match str with
  | EmptyString => (EmptyString, EmptyString)
  | String c tl => if bool_decide (c = comma) then (EmptyString, tl) else let '(t, r) := token tl in (String c t, r)
  end.
Definition strtok (str : string) : option (string * string) :=
  match skip_commas str with
  | EmptyString => None
  | str => Some (token str)
  end.

(** The loop over the names, [str] being what is left of the copy [buf]; whether all were copied. *)
Fixpoint copy_names (n i : nat) (a : ptr) (str : string) : IM bool :=
  match n with
  | O => ret true
  | S n =>
      '(t, rest) ← deref (strtok str);
      p ← strdup t;
      wr_cell a i p;;
      if is_null p then ret false else copy_names n (S i) a rest
  end.

Definition init_interfaces (interfaces : string) : IM Z :=
  let count := S (count_commas interfaces) in
  buf ← strdup interfaces;
  if is_null buf then im_error "memory error";; cleanup;; ret 1 else
  a ← malloc_array count;
  upd_glob (set_inputs (Z.of_nat count) a);;
  if is_null a then free_string buf;; im_error "memory error";; cleanup;; ret 1 else
  ok ← copy_names count 0 a interfaces;
  if negb ok then free_string buf;; cleanup;; ret 1 else
  free_string buf;;
  upd_glob (set_iface true);;
  ret 0.

Definition init_file (input : string) : IM Z :=
  a ← malloc_array 1;
  upd_glob (set_inputs 1 a);;
  if is_null a then im_error "memory error";; cleanup;; ret 1 else
  p ← strdup input;
  wr_cell a 0 p;;
  if is_null p then im_error "memory error";; cleanup;; ret 1 else
  upd_glob (set_iface false);;
  ret 0.

(** The parameters: what is set under a name. *)
Definition init (get_string : string → option string) (get_boolean : string → bool → bool) : IM Z :=
  r ← (match get_string "interfaces", get_string "file" with
       | Some interfaces, _ => init_interfaces interfaces
       | None, Some input => init_file input
       | None, None => cleanup;; ret 1
       end);
  if bool_decide (r ≠ 0) then ret r else
  (match get_string "output" with Some d => p ← strdup d; upd_glob (set_output p) | None => skip end);;
  (match get_string "dump_input" with Some d => p ← strdup d; upd_glob (set_dump p) | None => skip end);;
  upd_glob (set_passthrough (get_boolean "pass-through" true));;
  ret 0.

Definition multi_threaded : bool := false.
Definition pass_through : IM bool := g ← glob; ret (passthrough g).
Definition is_realtime : IM bool := g ← glob; ret (input_is_iface g).

(** ** The captures of a thread *)

Section captures.
(** libpcap: the link type of a device, the link type and the size of a file, and whether a
    dump file can be made. *)
Context (pcap_open_live : string → option Z) (pcap_open_offline : string → option (Z * Z)) (pcap_dump_open : string → bool).

Definition rd_state (t : loc) : IM module_state := o ← gets (λ s, is_states s !! t); deref o.
Definition wr_state (t : loc) (st : module_state) : IM unit := modify (λ s, set_states (<[t := st]> (is_states s)) s).
Definition rd_string (p : ptr) : IM string := p ← deref p; o ← gets (λ s, is_strings s !! p); deref o.

(** A new handle of libpcap, which has its own memory. *)
Definition new_handle : IM loc := λ s,
  let h := is_fresh s in
  Some (h, IS (is_globals s) (is_strings s) (is_arrays s) (is_states s) ({[h]} ∪ is_handles s) (is_error s) (is_mem s) (Pos.succ h)).
(** [pcap_close] and [pcap_dump_close], of an open handle. *)
Definition close_handle (p : ptr) : IM unit :=
  match p with
  | None => skip
  | Some h =>
      open ← gets (λ s, bool_decide (h ∈ is_handles s));
      c_assert open;;
      modify (λ s, set_handles (is_handles s ∖ {[h]}) s)
  end.

Fixpoint close_captures (l : list pcap_handle) : IM unit :=
  match l with [] => skip | h :: l => close_handle (ph_pd h);; close_captures l end.

Definition cleanup_state (t : loc) : IM unit :=
  st ← rd_state t;
  close_handle (st_pin st);;
  close_handle (st_pout st);;
  close_captures (st_pd st);;
  modify (λ s, set_states (delete t (is_states s)) s).

Definition supported (link_type : Z) : bool :=
  bool_decide (link_type ∈ [DLT_EN10MB; DLT_NULL; DLT_LINUX_SLL; DLT_IPV4; DLT_RAW]).

(** The result, and what is stored in [*pd]. *)
Definition open_pcap (input : string) (isiface : bool) : IM (bool * pcap_handle) :=
  let answer : option (Z * option Z) := if isiface then (λ l, (l, None)) <$> pcap_open_live input
                else (λ r : Z * Z, (r.1, Some r.2)) <$> pcap_open_offline input in
  match answer with
  | None => ret (false, Handle None 0 None)
  | Some (link_type, size) =>
      h ← new_handle;
      ret (bool_decide (0 ≤ link_type)%Z && supported link_type, Handle (Some h) link_type size)
  end.

(** NULL without a name; a file that cannot be made cleans the state up. *)
Definition open_dump_file (t : loc) (filename : ptr) : IM ptr :=
  match filename with
  | None => ret None
  | Some _ =>
      name ← rd_string filename;
      st ← rd_state t;
      _ ← deref (head (st_pd st));
      if pcap_dump_open name then h ← new_handle; ret (Some h)
      else cleanup_state t;; ret None
  end.

Definition set_captures (l : list pcap_handle) (st : module_state) : module_state :=
  ModState l (st_pin st) (st_pout st) (st_packet_id st) (st_link_type st).
Definition set_link (n : Z) (st : module_state) : module_state := ModState (st_pd st) (st_pin st) (st_pout st) (st_packet_id st) n.
Definition set_pin (p : ptr) (st : module_state) : module_state := ModState (st_pd st) p (st_pout st) (st_packet_id st) (st_link_type st).
Definition set_pout (p : ptr) (st : module_state) : module_state := ModState (st_pd st) (st_pin st) p (st_packet_id st) (st_link_type st).

(** The captures from [i] on; false when one cannot be opened. *)
Fixpoint open_captures (n i : nat) (t : loc) (isiface : bool) (a : ptr) : IM bool :=
  match n with
  | O => ret true
  | S n =>
      l ← rd_array a;
      cell ← deref (l !! i);
      p ← deref cell;
      name ← rd_string p;
      '(ok, h) ← open_pcap name isiface;
      st ← rd_state t;
      wr_state t (set_captures (<[i := h]> (st_pd st)) st);;
      if ok : bool then open_captures n (S i) t isiface a else ret false
  end.

Definition init_state : IM ptr :=
  g ← glob;
  c_assert (bool_decide (0 < input_count g)%Z);;
  p ← im_malloc;
  match p with
  | None => im_error "memory error";; ret None
  | Some t =>
      pd ← im_malloc;
      match pd with
      | None => im_error "memory error";; ret None
      | Some _ =>
          let n := Z.to_nat (input_count g) in
          wr_state t (ModState (replicate n (Handle None 0 None)) None None 0 0);;
          ok ← open_captures n 0 t (input_is_iface g) (inputs g);
          if negb ok then cleanup_state t;; ret None else
          st ← rd_state t;
          h ← deref (head (st_pd st));
          wr_state t (set_link (ph_link_type h) st);;
          d ← open_dump_file t (input_dump_file g);
          st ← rd_state t;
          wr_state t (set_pin d st);;
          d ← open_dump_file t (output_dump_file g);
          st ← rd_state t;
          wr_state t (set_pout d st);;
          ret (Some t)
      end
  end.
End captures.

(** ** The names of the interfaces *)

Definition name_ok (n : string) : Prop := n ≠ "" ∧ count_commas n = 0%nat.

Lemma token_end n : count_commas n = 0%nat → token n = (n, "").
Proof.
  induction n as [|c n IH]; [done|]. cbn [count_commas token]. case_bool_decide; [lia|]. intros Hc. by rewrite IH.
Qed.

Lemma token_comma n r : count_commas n = 0%nat → token (n +:+ String comma r) = (n, r).
Proof.
  induction n as [|c n IH]; simpl; [done|]. case_bool_decide; [lia|]. intros Hc. by rewrite IH.
Qed.

Lemma strtok_name n r : name_ok n → strtok (n +:+ r) = Some (token (n +:+ r)).
Proof.
  intros [Hne Hc]. destruct n as [|c n]; [done|]. cbn [count_commas] in Hc.
  change (String c n +:+ r) with (String c (n +:+ r)). unfold strtok. cbn [skip_commas].
  destruct (bool_decide (c = comma)); [simpl in Hc; lia|done].
Qed.

Lemma string_app_nil n : n +:+ "" = n.
Proof. induction n as [|c n IH]; [done|]. exact (f_equal (String c) IH). Qed.

Lemma strtok_concat x l : Forall name_ok (x :: l) → strtok (String.concat "," (x :: l)) = Some (x, String.concat "," l).
Proof.
  intros [Hx Hl]%Forall_cons. destruct l as [|y l].
  - pose proof (strtok_name x "" Hx) as E. rewrite string_app_nil in E. cbn [String.concat]. rewrite E, token_end by apply Hx. done.
  - change (String.concat "," (x :: y :: l)) with (x +:+ String comma (String.concat "," (y :: l))).
    rewrite strtok_name by done. by rewrite token_comma by apply Hx.
Qed.

Lemma count_app a b : count_commas (a +:+ b) = (count_commas a + count_commas b)%nat.
Proof. induction a as [|c a IH]; [done|]. simpl. rewrite IH. lia. Qed.

Lemma count_concat x l : Forall name_ok (x :: l) → S (count_commas (String.concat "," (x :: l))) = length (x :: l).
Proof.
  revert x. induction l as [|y l IH]; intros x [[_ Hx] Hl]%Forall_cons; [cbn [String.concat length]; by rewrite Hx|].
  change (String.concat "," (x :: y :: l)) with (x +:+ String comma (String.concat "," (y :: l))).
  rewrite count_app, Hx. cbn [count_commas]. rewrite bool_decide_true by done. change (length (x :: y :: l)) with (S (length (y :: l))). by rewrite <- (IH y Hl).
Qed.

(** ** Strings *)

#[local] Open Scope list_scope.
#[local] Open Scope Z_scope.

(** The strings are those of [B] and, at the addresses [ps], the names [ns]. *)
Definition strings_are (ps : list loc) (ns : list string) (B m : gmap loc string) : Prop :=
  length ps = length ns ∧ NoDup ps ∧ (∀ p, p ∈ ps → B !! p = None) ∧ m = list_to_map (zip ps ns) ∪ B.

Lemma strings_are_snoc ps ns B m p n :
  strings_are ps ns B m → p ∉ ps → B !! p = None → strings_are (ps ++ [p]) (ns ++ [n]) B (<[p := n]> m).
Proof.
  intros (El & Hnd & Hb & ->) Hp HB. split_and!; [rewrite !length_app; simpl; lia| | |].
  - apply NoDup_app. split_and!; [done| |apply NoDup_singleton]. intros x Hx ->%list_elem_of_singleton. done.
  - intros x [?| ->%list_elem_of_singleton]%elem_of_app; [by apply Hb|done].
  - rewrite zip_with_app by done. simpl. rewrite list_to_map_snoc; [by rewrite insert_union_l|].
    rewrite fst_zip by lia. done.
Qed.

Lemma strings_are_delete p ps n ns B m :
  strings_are (p :: ps) (n :: ns) B m → m !! p = Some n ∧ strings_are ps ns B (delete p m).
Proof.
  intros (El & [Hp Hnd]%NoDup_cons & Hb & ->). simpl in *. split; [by rewrite lookup_union_l', lookup_insert_eq by (by rewrite lookup_insert_eq)|].
  split_and!; [lia|done|intros x Hx; apply Hb; by right|].
  rewrite delete_union, (delete_id B) by (apply Hb; by left). f_equal. rewrite delete_insert_eq, delete_id; [done|].
  apply not_elem_of_list_to_map_1. rewrite fst_zip by lia. done.
Qed.

Lemma strings_are_nil B m : strings_are [] [] B m → m = B.
Proof. intros (_ & _ & _ & ->). simpl. by rewrite (left_id_L ∅ (∪)). Qed.

Lemma strings_are_start B : strings_are [] [] B B.
Proof. split_and!; [done|apply NoDup_nil_2|by intros p Hp%elem_of_nil|]. simpl. by rewrite (left_id_L ∅ (∪)). Qed.

Definition cells (ps : list loc) : list (option ptr) := (λ p, Some (Some p)) <$> ps.

(** What the strings and the arrays do not touch. *)
Definition calm (s s' : istate) : Prop :=
  is_states s' = is_states s ∧ is_handles s' = is_handles s ∧ is_error s' = is_error s.

(** The strings are below the addresses to come. *)
Definition below (s : istate) : Prop := ∀ p, is_Some (is_strings s !! p) → (p < is_fresh s)%positive.

Lemma strings_are_in ps ns B m p : strings_are ps ns B m → p ∈ ps ∨ is_Some (B !! p) → is_Some (m !! p).
Proof.
  intros (El & _ & _ & ->) Hp. rewrite lookup_union_is_Some. destruct Hp as [Hp|]; [left|by right].
  apply elem_of_dom. rewrite dom_list_to_map_L, fst_zip by lia. by apply elem_of_list_to_set.
Qed.

Lemma runs_strdup s str n Q :
  is_mem s = S n →
  Q (Some (is_fresh s)) (IS (is_globals s) (<[is_fresh s := str]> (is_strings s)) (is_arrays s) (is_states s) (is_handles s) (is_error s) n (Pos.succ (is_fresh s))) →
  runs (strdup str) s Q.
Proof. intros En HQ. unfold strdup. apply runs_bind. eapply runs_eq; [unfold im_malloc; by rewrite En|]. cbv beta iota. step. step. exact HQ. Qed.

Lemma copy_names_spec A B a : ∀ names seen ps s (Q : bool → istate → Prop),
  is_arrays s = <[a := cells ps ++ replicate (length names) None]> A →
  strings_are ps seen B (is_strings s) → below s → Forall name_ok names → (length names ≤ is_mem s)%nat →
  (∀ s' ps', is_arrays s' = <[a := cells ps']> A → strings_are ps' (seen ++ names) B (is_strings s') → below s' →
    is_globals s' = is_globals s → calm s s' → (is_mem s = is_mem s' + length names)%nat → Q true s') →
  runs (copy_names (length names) (length ps) (Some a) (String.concat "," names)) s Q.
Proof.
  induction names as [|x names IH]; intros seen ps s Q Ea Hs Hb Hn Hm HQ.
  - cbn [copy_names length]. step. apply (HQ s ps); [by rewrite Ea, app_nil_r|by rewrite app_nil_r|done..|simpl; lia].
  - cbn [copy_names length]. rewrite strtok_concat by done. step. destruct (is_mem s) as [|m] eqn:Em; [simpl in Hm; lia|].
    call runs_strdup; [exact Em|]. unfold wr_cell, rd_array. apply runs_bind. apply runs_bind. step. step. simpl.
    rewrite Ea, lookup_insert_eq. step.
    assert (length (cells ps) = length ps) as Ec by (unfold cells; by rewrite length_fmap).
    step; [apply bool_decide_true; rewrite length_app, length_replicate, Ec; simpl; lia|]. step. step. cbn [is_null].
    assert (is_fresh s ∉ ps ∧ B !! is_fresh s = None) as [Hp HB].
    { split; [intros Hp|apply eq_None_not_Some; intros Hp];
        assert (is_Some (is_strings s !! is_fresh s)) as Hx%Hb by (eapply strings_are_in; [done|by auto]); lia. }
    replace (S (length ps)) with (length (ps ++ [is_fresh s])) by (rewrite length_app; simpl; lia).
    eapply (IH (seen ++ [x])); simpl.
    + rewrite insert_insert_eq. f_equal. rewrite insert_app_r_alt by lia. rewrite Ec, Nat.sub_diag. unfold cells. rewrite fmap_app. by rewrite <- app_assoc.
    + by apply strings_are_snoc.
    + intros p Hp'. simpl in *. destruct (decide (p = is_fresh s)) as [->|]; [lia|].
      rewrite lookup_insert_ne in Hp' by done. specialize (Hb p Hp'). lia.
    + by apply Forall_cons in Hn as [_ ?].
    + simpl in Hm. lia.
    + intros s' ps' Ea' Hs' Hb' Eg Hc Em'. eapply HQ; try done; [by rewrite <- app_assoc in Hs'|simpl in *; lia].
Qed.

Lemma free_cells_spec A B a : ∀ ps2 ps1 ns s (Q : unit → istate → Prop),
  is_arrays s = <[a := cells (ps1 ++ ps2)]> A → strings_are ps2 ns B (is_strings s) →
  Q tt (set_strings B s) → runs (free_cells (length ps2) (length ps1) (Some a)) s Q.
Proof.
  induction ps2 as [|p ps2 IH]; intros ps1 ns s Q Ea Hs HQ.
  - destruct ns; [|by destruct Hs]. apply strings_are_nil in Hs. cbn [free_cells length]. unfold skip. step. rewrite <- Hs in HQ. by destruct s.
  - destruct ns as [|n ns]; [by destruct Hs|]. destruct (strings_are_delete _ _ _ _ _ _ Hs) as [Hp Hs'].
    cbn [free_cells length]. unfold rd_array. apply runs_bind. step. step. rewrite Ea, lookup_insert_eq. step.
    assert (cells (ps1 ++ p :: ps2) !! length ps1 = Some (Some (Some p))) as ->.
    { unfold cells. rewrite list_lookup_fmap, lookup_app_r, Nat.sub_diag by lia. done. }
    step. step. unfold free_string. apply runs_bind. step. rewrite Hp. step. step.
    replace (S (length ps1)) with (length (ps1 ++ [p])) by (rewrite length_app; simpl; lia).
    eapply IH; [simpl; by rewrite Ea, <- app_assoc|exact Hs'|]. exact HQ.
Qed.

Lemma strings_are_base ps ns B m q o :
  strings_are ps ns B m → m !! q = None → strings_are ps ns (<[q := o]> B) (<[q := o]> m).
Proof.
  intros (El & Hnd & Hb & ->) Hq. apply lookup_union_None in Hq as [Hq1 Hq2].
  assert (q ∉ ps) as Hps.
  { apply not_elem_of_list_to_map in Hq1. by rewrite fst_zip in Hq1 by lia. }
  split_and!; [done|done| |by rewrite insert_union_r].
  intros p Hp. rewrite lookup_insert_ne by (intros ->; done). by apply Hb.
Qed.

(** ** [init] *)

(** After [init]: the array of the names, and the names of the two dump files, on top of
    the strings and arrays of [s]. *)
Record started (s : istate) (names : list string) (out dump : option string) (pass : bool) (s' : istate) : Prop := {
  sd_inputs : ∃ a ps B, inputs (is_globals s') = Some a ∧ is_arrays s !! a = None ∧ is_arrays s' = <[a := cells ps]> (is_arrays s) ∧
    strings_are ps names B (is_strings s') ∧
    match output_dump_file (is_globals s'), out, input_dump_file (is_globals s'), dump with
    | None, None, None, None => B = is_strings s
    | Some q, Some o, None, None => B = <[q := o]> (is_strings s) ∧ is_strings s !! q = None
    | None, None, Some q, Some o => B = <[q := o]> (is_strings s) ∧ is_strings s !! q = None
    | Some q, Some o, Some q', Some o' => B = <[q' := o']> (<[q := o]> (is_strings s)) ∧ is_strings s !! q = None ∧ <[q := o]> (is_strings s) !! q' = None
    | _, _, _, _ => False
    end;
  sd_count : input_count (is_globals s') = zlen names;
  sd_iface : input_is_iface (is_globals s') = true;
  sd_pass : passthrough (is_globals s') = pass;
  sd_calm : calm s s';
}.

Lemma runs_init_interfaces x l s n Q :
  let names := x :: l in
  Forall name_ok names → below s → (∀ p, is_Some (is_arrays s !! p) → (p < is_fresh s)%positive) → is_mem s = S (S (length names + n)) →
  (∀ s' a ps, is_globals s' = set_iface true (set_inputs (zlen names) (Some a) (is_globals s)) → is_arrays s !! a = None →
    is_arrays s' = <[a := cells ps]> (is_arrays s) → strings_are ps names (is_strings s) (is_strings s') → below s' → calm s s' →
    is_mem s' = n → Q 0 s') →
  runs (init_interfaces (String.concat "," names)) s Q.
Proof.
  intros names Hn Hb Ha Hm HQ. unfold init_interfaces. call runs_strdup; [exact Hm|]. cbn [is_null].
  set (p0 := is_fresh s) in *. set (str := String.concat "," names) in *.
  unfold malloc_array, im_malloc. apply runs_bind. apply runs_bind. eapply runs_eq; [done|]. cbv beta iota. step. step.
  unfold upd_glob. step. cbn [is_null]. set (a := Pos.succ p0). set (B := <[p0 := str]> (is_strings s)).
  assert (S (count_commas str) = length names) as -> by (by apply count_concat).
  set (s1 := set_globals _ _).
  assert (below s1) as Hb1.
  { intros p Hp. change (is_Some (B !! p)) in Hp. change (p < Pos.succ a)%positive. destruct (decide (p = p0)) as [->|]; [unfold a; lia|].
    unfold B in Hp. rewrite lookup_insert_ne in Hp by done. specialize (Hb p Hp). unfold a, p0. lia. }
  apply runs_bind. unfold str. eapply (copy_names_spec (is_arrays s) B a names [] [] s1); [done| |exact Hb1|exact Hn|simpl; lia|].
  { apply strings_are_start. }
  intros s2 ps Ea Hs Hb2 Eg Hc Em. cbn [negb].
  assert (p0 ∉ ps) as Hp0.
  { intros Hp. destruct Hs as (_ & _ & Hd & _). specialize (Hd p0 Hp). unfold B in Hd. by rewrite lookup_insert_eq in Hd. }
  assert (is_strings s !! p0 = None) as Hfree.
  { apply eq_None_not_Some. intros Hp%Hb. unfold p0 in Hp. lia. }
  assert (is_strings s2 !! p0 = Some str) as Hlk.
  { destruct Hs as (El & _ & _ & ->). rewrite lookup_union_r; [unfold B; by rewrite lookup_insert_eq|].
    apply not_elem_of_list_to_map_1. rewrite fst_zip; [done|]. rewrite El. done. }
  unfold free_string. apply runs_bind. step. rewrite Hlk. step. step. unfold upd_glob. step. step.
  apply (HQ _ a ps); simpl.
  - rewrite Eg. unfold s1, zlen. simpl. done.
  - apply eq_None_not_Some. intros Hp%Ha. unfold a, p0 in Hp. lia.
  - exact Ea.
  - destruct Hs as (El & Hnd & Hd & ->). split_and!; [done|done| |].
    + intros p Hp. specialize (Hd p Hp). unfold B in Hd. by apply lookup_insert_None in Hd as [? _].
    + rewrite delete_union. unfold B. rewrite delete_insert_eq, (delete_id (is_strings s)) by done. f_equal.
      apply delete_id, not_elem_of_list_to_map_1. rewrite fst_zip; [done|]. by rewrite El.
  - intros p Hp. simpl in *. apply Hb2. by apply lookup_delete_is_Some in Hp as [_ ?].
  - unfold calm in *. simpl in *. done.
  - unfold s1 in Em. simpl in Em. lia.
Qed.

Lemma fresh_none s : below s → is_strings s !! is_fresh s = None.
Proof. intros Hb. apply eq_None_not_Some. intros Hp%Hb. lia. Qed.

Lemma below_insert s str n : below s →
  below (IS (is_globals s) (<[is_fresh s := str]> (is_strings s)) (is_arrays s) (is_states s) (is_handles s) (is_error s) n (Pos.succ (is_fresh s))).
Proof.
  intros Hb p Hp. simpl in *. destruct (decide (p = is_fresh s)) as [->|]; [lia|].
  rewrite lookup_insert_ne in Hp by done. specialize (Hb p Hp). lia.
Qed.

(** A parameter that is a name of a file is copied when it is there. *)
Lemma runs_copy_name (o : option string) (f : ptr → globals → globals) ps ns B s n (Q : unit → istate → Prop) :
  is_mem s = S n → strings_are ps ns B (is_strings s) → below s →
  (o = None → Q tt s) →
  (∀ str q s', o = Some str → is_strings s !! q = None → is_globals s' = f (Some q) (is_globals s) → is_arrays s' = is_arrays s →
    strings_are ps ns (<[q := str]> B) (is_strings s') → below s' → calm s s' → is_mem s' = n → Q tt s') →
  runs (match o with Some d => p ← strdup d; upd_glob (f p) | None => skip end) s Q.
Proof.
  intros Em Hs Hb HN HS. destruct o as [d|]; [|unfold skip; step; by apply HN].
  call runs_strdup; [exact Em|]. unfold upd_glob. step.
  eapply (HS d (is_fresh s)); [done|by apply fresh_none|done|done|by apply strings_are_base; [|apply fresh_none]| |done|done].
  by apply below_insert.
Qed.

(** With memory for all of it, [init] copies the names of the interfaces, in their order, and
    those of the dump files. *)
Theorem init_correct get_string get_boolean x l s n :
  let names := x :: l in
  get_string "interfaces" = Some (String.concat "," names) → Forall name_ok names →
  output_dump_file (is_globals s) = None → input_dump_file (is_globals s) = None →
  below s → (∀ p, is_Some (is_arrays s !! p) → (p < is_fresh s)%positive) → is_mem s = S (S (length names + S (S n))) →
  runs (init get_string get_boolean) s (λ r s', r = 0 ∧
    started s names (get_string "output") (get_string "dump_input") (get_boolean "pass-through" true) s').
Proof.
  intros names Hgot Hnames Eo Ed Hb Ha Hm. unfold init. rewrite Hgot. apply runs_bind. unfold names in *.
  eapply (runs_init_interfaces x l s (S (S n))); [done|done|done|exact Hm|].
  intros s1 a ps Eg Hna Ear Hs Hb1 Hc1 Hm1. rewrite bool_decide_false by (intros Hz; by apply Hz).
  assert (∀ s2 B, is_arrays s2 = is_arrays s1 → strings_are ps (x :: l) B (is_strings s2) → calm s s2 →
    input_count (is_globals s2) = zlen (x :: l) → input_is_iface (is_globals s2) = true → inputs (is_globals s2) = Some a →
    match output_dump_file (is_globals s2), get_string "output", input_dump_file (is_globals s2), get_string "dump_input" with
    | None, None, None, None => B = is_strings s
    | Some q, Some o, None, None => B = <[q := o]> (is_strings s) ∧ is_strings s !! q = None
    | None, None, Some q, Some o => B = <[q := o]> (is_strings s) ∧ is_strings s !! q = None
    | Some q, Some o, Some q', Some o' => B = <[q' := o']> (<[q := o]> (is_strings s)) ∧ is_strings s !! q = None ∧ <[q := o]> (is_strings s) !! q' = None
    | _, _, _, _ => False
    end →
    runs (upd_glob (set_passthrough (get_boolean "pass-through" true));; ret 0) s2 (λ r s', r = 0 ∧
      started s (x :: l) (get_string "output") (get_string "dump_input") (get_boolean "pass-through" true) s')) as Hend.
  { intros s2 B Ea2 Hs2 Hc2 En Ei Einp HB. unfold upd_glob. step. step. split; [done|]. split; simpl; try done.
    exists a, ps, B. split_and!; [done|done|by rewrite Ea2|done|done]. }
  assert (∀ B s2 q, strings_are ps (x :: l) B (is_strings s2) → is_strings s2 !! q = None → B !! q = None) as Hsub.
  { intros B s2 q (_ & _ & _ & ->). by intros [_ ?]%lookup_union_None. }
  call runs_copy_name; [exact Hm1|exact Hs|exact Hb1| |].
  - intros Go. call runs_copy_name; [exact Hm1|exact Hs|exact Hb1| |].
    + intros Gd. eapply Hend; try done; rewrite Eg; try done. simpl. by rewrite Eo, Ed, Go, Gd.
    + intros d q s2 Gd Hq Eg2 Ea2 Hs2 Hb2 Hc2 _. eapply Hend; try done; [unfold calm in *; naive_solver congruence|..];
        rewrite Eg2, Eg; try done. simpl. rewrite Eo, Go, Gd. split; [done|by eapply Hsub].
  - intros o q s2 Go Hq Eg2 Ea2 Hs2 Hb2 Hc2 Hm2. call runs_copy_name; [exact Hm2|exact Hs2|exact Hb2| |].
    + intros Gd. eapply Hend; try done; [unfold calm in *; naive_solver congruence|..];
        rewrite Eg2, Eg; try done. simpl. rewrite Ed, Go, Gd. split; [done|by eapply Hsub].
    + intros d q' s3 Gd Hq' Eg3 Ea3 Hs3 Hb3 Hc3 _. eapply Hend; [by rewrite Ea3|exact Hs3|unfold calm in *; naive_solver congruence|..];
        rewrite Eg3, Eg2, Eg; try done. simpl. rewrite Go, Gd. split_and!; [done|by eapply Hsub|by eapply Hsub].
Qed.

Lemma runs_free_string q str s Q :
  is_strings s !! q = Some str → Q tt (set_strings (delete q (is_strings s)) s) → runs (free_string (Some q)) s Q.
Proof. intros Hq HQ. unfold free_string. step. rewrite Hq. step. by step. Qed.

(** [cleanup] gives back all that [init] has taken. *)
Theorem cleanup_correct s names out dump pass s1 :
  started s names out dump pass s1 →
  runs cleanup s1 (λ _ s', is_strings s' = is_strings s ∧ is_arrays s' = is_arrays s ∧ calm s s').
Proof.
  intros [(a & ps & B & Ei & Ha & Ear & Hs & HB) Ec _ _ Hc]. unfold cleanup, glob. step. rewrite Ei, Ec.
  assert (Z.to_nat (zlen names) = length ps) as ->.
  { destruct Hs as [El _]. unfold zlen. lia. }
  apply runs_bind. eapply (free_cells_spec (is_arrays s) B a ps [] names); [exact Ear|exact Hs|].
  unfold free_array, rd_array. apply runs_bind. apply runs_bind. step. step. simpl. rewrite Ear, lookup_insert_eq. step. step.
  assert (delete a (is_arrays s1) = is_arrays s) as Harr by (by rewrite Ear, delete_insert_eq, delete_id).
  destruct (output_dump_file (is_globals s1)) as [q|], out as [o|], (input_dump_file (is_globals s1)) as [q'|], dump as [o'|]; try done.
  - destruct HB as (-> & Hq & [Hq' Hne]%lookup_insert_None).
    call runs_free_string; [simpl; rewrite lookup_insert_ne, lookup_insert_eq by done; done|].
    eapply runs_free_string; [simpl; rewrite lookup_delete_ne, lookup_insert_eq by done; done|].
    split_and!; [|exact Harr|apply Hc..]. simpl. rewrite (delete_insert_ne _ q q') by done. rewrite !delete_insert_eq.
    by rewrite (delete_id (is_strings s) q), delete_id by done.
  - destruct HB as (-> & Hq). call runs_free_string; [simpl; by rewrite lookup_insert_eq|]. unfold free_string, skip. step.
    split_and!; [|exact Harr|apply Hc..]. simpl. by rewrite delete_insert_eq, delete_id.
  - destruct HB as (-> & Hq). apply runs_bind. unfold free_string at 1, skip. step. eapply runs_free_string; [simpl; by rewrite lookup_insert_eq|].
    split_and!; [|exact Harr|apply Hc..]. simpl. by rewrite delete_insert_eq, delete_id.
  - subst B. unfold free_string, skip. step. step. split_and!; [done|exact Harr|apply Hc..].
Qed.

(** ** The captures of a thread *)

Definition live (l : list pcap_handle) : list loc := omap ph_pd l.
Definition held (st : module_state) : list loc := option_list (st_pin st) ++ option_list (st_pout st) ++ live (st_pd st).

(** The open handles are those of [H] and the ones of the list. *)
Definition handles_are (l : list loc) (H h : gset loc) : Prop :=
  NoDup l ∧ (∀ x, x ∈ l → x ∉ H) ∧ h = list_to_set l ∪ H.

Lemma handles_are_add l l' H h x : handles_are l H h → x ∉ h → l' ≡ₚ x :: l → handles_are l' H ({[x]} ∪ h).
Proof.
  intros (Hnd & Hd & ->) Hx E. apply not_elem_of_union in Hx as [Hx1 Hx2]. rewrite elem_of_list_to_set in Hx1.
  split_and!; [rewrite E; by apply NoDup_cons| |].
  - intros y. rewrite E, elem_of_cons. intros [->|Hy]; [done|by apply Hd].
  - rewrite (list_to_set_perm_L _ _ E). simpl. by rewrite (assoc_L (∪)).
Qed.

Lemma runs_close_handle p l H s Q :
  handles_are (option_list p ++ l) H (is_handles s) →
  (∀ h, handles_are l H h → Q tt (set_handles h s)) → runs (close_handle p) s Q.
Proof.
  destruct p as [x|]; cbn [option_list close_handle app]; intros (Hnd & Hd & E) HQ.
  - step. step; [apply bool_decide_true; rewrite E; simpl; set_solver|]. step. apply HQ.
    apply NoDup_cons in Hnd as [Hx Hnd]. split_and!; [done|intros y Hy; apply Hd; by right|]. rewrite E. simpl.
    assert (x ∉ H) by (apply Hd; by left). assert (x ∉@{gset loc} list_to_set l) by (by rewrite elem_of_list_to_set). set_solver.
  - unfold skip. step. specialize (HQ (is_handles s)). replace (set_handles (is_handles s) s) with s in HQ by (by destruct s). by apply HQ.
Qed.

Lemma runs_close_captures H : ∀ l s Q,
  handles_are (live l) H (is_handles s) → Q tt (set_handles H s) → runs (close_captures l) s Q.
Proof.
  induction l as [|h l IH]; intros s Q Hh HQ; cbn [close_captures].
  - destruct Hh as (_ & _ & E). simpl in E. rewrite (left_id_L ∅ (∪)) in E. unfold skip. step. rewrite <- E in HQ. by destruct s.
  - apply runs_bind. eapply (runs_close_handle _ (live l) H).
    + unfold live in *. cbn [omap list_omap] in Hh. by destruct (ph_pd h).
    + intros hs Hhs. eapply IH; [exact Hhs|]. exact HQ.
Qed.

(** The state [s] is [b] with the state [st] of the thread and its handles. *)
Record opens (b : istate) (t : loc) (st : module_state) (s : istate) : Prop := {
  op_states : is_states s = <[t := st]> (is_states b);
  op_handles : handles_are (held st) (is_handles b) (is_handles s);
  op_below : ∀ h, h ∈ is_handles s → (h < is_fresh s)%positive;
  op_globals : is_globals s = is_globals b;
  op_strings : is_strings s = is_strings b;
  op_arrays : is_arrays s = is_arrays b;
}.

Lemma runs_cleanup_state b t st s Q :
  opens b t st s → is_states b !! t = None →
  (∀ s', is_states s' = is_states b → is_handles s' = is_handles b → is_strings s' = is_strings b → is_arrays s' = is_arrays b → Q tt s') →
  runs (cleanup_state t) s Q.
Proof.
  intros [Es Hh _ _ E1 E2] Ht HQ. unfold cleanup_state, rd_state. step. rewrite Es, lookup_insert_eq. step.
  call runs_close_handle; [exact Hh|]. intros h1 H1. call runs_close_handle; [exact H1|]. intros h2 H2.
  call runs_close_captures; [exact H2|]. step. apply HQ; simpl; try done. by rewrite Es, delete_insert_eq, delete_id.
Qed.

(** A new handle that the state keeps. *)
Lemma opens_add b t st st' s :
  opens b t st s → held st' ≡ₚ is_fresh s :: held st →
  opens b t st' (IS (is_globals s) (is_strings s) (is_arrays s) (<[t := st']> (is_states s)) ({[is_fresh s]} ∪ is_handles s) (is_error s) (is_mem s) (Pos.succ (is_fresh s))).
Proof.
  intros [Es Hh Hb E0 E1 E2] E. split; simpl; try done.
  - by rewrite Es, insert_insert_eq.
  - eapply handles_are_add; [exact Hh| |exact E]. intros Hx%Hb. lia.
  - intros h [->%elem_of_singleton|Hx%Hb]%elem_of_union; lia.
Qed.

Lemma opens_same b t st st' s :
  opens b t st s → held st' = held st → opens b t st' (set_states (<[t := st']> (is_states s)) s).
Proof. intros [Es Hh Hb E0 E1 E2] E. split; simpl; try done; [by rewrite Es, insert_insert_eq|by rewrite E]. Qed.

Section captures.
Context (pcap_open_live : string → option Z) (pcap_open_offline : string → option (Z * Z)) (pcap_dump_open : string → bool).
Context (b : istate) (t : loc) (isiface : bool).

(** What libpcap answers for a name. *)
Definition opening (name : string) : option (Z * option Z) :=
  if isiface then (λ l, (l, None)) <$> pcap_open_live name else (λ r : Z * Z, (r.1, Some r.2)) <$> pcap_open_offline name.

(** The handle is that of the name, of a link type that is supported. *)
Definition handle_for (name : string) (h : pcap_handle) : Prop :=
  opening name = Some (ph_link_type h, ph_file_size h) ∧ is_Some (ph_pd h) ∧ supported (ph_link_type h) = true.

Lemma live_fill hs h n : live (hs ++ h :: replicate n (Handle None 0 None)) = live hs ++ option_list (ph_pd h).
Proof using.
  unfold live. rewrite omap_app. f_equal. cbn [omap list_omap].
  assert (omap ph_pd (replicate n (Handle None 0 None)) = []) as E by (induction n; [done|by simpl]).
  rewrite E. by destruct (ph_pd h).
Qed.

Lemma runs_open_pcap name s Q :
  (opening name = None → Q (false, Handle None 0 None) s) →
  (∀ lt size, opening name = Some (lt, size) →
    Q (bool_decide (0 ≤ lt) && supported lt, Handle (Some (is_fresh s)) lt size)
      (IS (is_globals s) (is_strings s) (is_arrays s) (is_states s) ({[is_fresh s]} ∪ is_handles s) (is_error s) (is_mem s) (Pos.succ (is_fresh s)))) →
  runs (open_pcap pcap_open_live pcap_open_offline name isiface) s Q.
Proof using.
  intros HN HS. unfold open_pcap. fold (opening name). destruct (opening name) as [[lt size]|]; [|step; by apply HN].
  apply runs_bind. eapply runs_eq; [done|]. cbv beta. step. by apply HS.
Qed.

Lemma open_captures_spec a ps names :
  is_arrays b !! a = Some (cells ps) → Forall2 (λ p n, is_strings b !! p = Some n) ps names →
  ∀ rem seen hs st s (Q : bool → istate → Prop), names = seen ++ rem → Forall2 handle_for seen hs →
  st_pd st = hs ++ replicate (length rem) (Handle None 0 None) → opens b t st s →
  (∀ s' st', opens b t st' s' → Q false s') →
  (∀ s' hs', opens b t (set_captures hs' st) s' → Forall2 handle_for names hs' → Q true s') →
  runs (open_captures pcap_open_live pcap_open_offline (length rem) (length seen) t isiface (Some a)) s Q.
Proof using.
  intros Ha Hps. induction rem as [|n rem IH]; intros seen hs st s Q En Hhs Epd Ho Hno Hyes; cbn [open_captures length].
  - step. apply (Hyes s hs); [|by rewrite En, app_nil_r]. rewrite app_nil_r in Epd. rewrite <- Epd. by destruct st.
  - destruct (Forall2_lookup_r _ _ _ (length seen) n Hps) as (p & Hp & Hn).
    { rewrite En, lookup_app_r, Nat.sub_diag by lia. done. }
    unfold rd_array. apply runs_bind. step. step. rewrite (op_arrays _ _ _ _ Ho), Ha. step. unfold cells. rewrite list_lookup_fmap, Hp. step. step.
    unfold rd_string. apply runs_bind. step. step. rewrite (op_strings _ _ _ _ Ho), Hn. step.
    pose proof (Forall2_length _ _ _ Hhs) as El.
    assert (∀ h, <[length seen := h]> (st_pd st) = hs ++ h :: replicate (length rem) (Handle None 0 None)) as Eins.
    { intros h. rewrite Epd, El, insert_app_r_alt, Nat.sub_diag by lia. done. }
    assert (held st = option_list (st_pin st) ++ option_list (st_pout st) ++ live hs) as Eheld.
    { unfold held. rewrite Epd. cbn [length replicate]. rewrite live_fill. simpl. by rewrite app_nil_r. }
    assert (is_states s !! t = Some st) as Hst by (by rewrite (op_states _ _ _ _ Ho), lookup_insert_eq).
    apply runs_bind. apply runs_open_pcap.
    + intros _. unfold rd_state. step. rewrite Hst. step. unfold wr_state. step. step.
      eapply Hno, opens_same; [exact Ho|]. rewrite Eheld, Eins. unfold held, set_captures. cbn [st_pin st_pout st_pd]. rewrite live_fill. simpl. by rewrite app_nil_r.
    + intros lt size Hop. unfold rd_state. step. cbn [is_states]. rewrite Hst. step. unfold wr_state. step.
      set (h := Handle (Some (is_fresh s)) lt size). set (st1 := set_captures (<[length seen := h]> (st_pd st)) st).
      assert (opens b t st1 (IS (is_globals s) (is_strings s) (is_arrays s) (<[t := st1]> (is_states s)) ({[is_fresh s]} ∪ is_handles s) (is_error s) (is_mem s) (Pos.succ (is_fresh s)))) as Ho1.
      { apply (opens_add b t st); [exact Ho|]. rewrite Eheld. unfold st1. rewrite Eins. unfold held, set_captures. cbn [st_pin st_pout st_pd].
        rewrite live_fill. simpl. rewrite !app_assoc. symmetry. apply Permutation_cons_append. }
      destruct (bool_decide (0 ≤ lt) && supported lt) eqn:Eok; [|step; exact (Hno _ st1 Ho1)].
      apply andb_true_iff in Eok as [_ Eok].
      replace (S (length seen)) with (length (seen ++ [n])) by (rewrite length_app; simpl; lia).
      eapply (IH (seen ++ [n]) (hs ++ [h]) st1); [by rewrite <- app_assoc|apply Forall2_app; [done|by repeat constructor]| |exact Ho1|exact Hno|].
      * unfold st1. simpl. by rewrite Eins, <- app_assoc.
      * intros s' hs' Ho' Hf. by eapply Hyes.
Qed.

(** A dump file that can be made, and the state that keeps it. *)
Lemma runs_dump_file {A} file (set_d : ptr → module_state → module_state) st s (k : M istate A) Q :
  opens b t st s → st_pd st ≠ [] →
  (∀ q, file = Some q → ∃ name, is_strings b !! q = Some name ∧ pcap_dump_open name = true) →
  held (set_d None st) = held st → (∀ h, held (set_d (Some h) st) ≡ₚ h :: held st) →
  (∀ d s', opens b t (set_d d st) s' → (is_Some d ↔ is_Some file) → runs k s' Q) →
  runs (d ← open_dump_file pcap_dump_open t file; st ← rd_state t; wr_state t (set_d d st);; k) s Q.
Proof using.
  intros Ho Hne Hf E0 E1 HQ. assert (is_states s !! t = Some st) as Hst by (by rewrite (op_states _ _ _ _ Ho), lookup_insert_eq).
  destruct file as [q|]; simpl.
  - destruct (Hf q eq_refl) as (name & Hq & Hd). unfold rd_string, rd_state. apply runs_bind. apply runs_bind. step. step.
    rewrite (op_strings _ _ _ _ Ho), Hq. step. apply runs_bind. step. rewrite Hst. step.
    destruct (st_pd st) as [|h l] eqn:Epd; [done|]. step. rewrite Hd. apply runs_bind. eapply runs_eq; [done|]. cbv beta. step.
    apply runs_bind. step. cbn [is_states]. rewrite Hst. step. unfold wr_state. step.
    eapply (HQ (Some (is_fresh s))); [|done]. exact (opens_add b t st (set_d (Some (is_fresh s)) st) s Ho (E1 _)).
  - step. unfold rd_state, wr_state. apply runs_bind. step. rewrite Hst. step. step. eapply (HQ None); [exact (opens_same b t st (set_d None st) s Ho E0)|]. by split; intros [].
Qed.
End captures.

(** The names that [init] has stored. *)
Record ready (names : list string) (s : istate) : Prop := {
  rd_names : ∃ a ps, inputs (is_globals s) = Some a ∧ is_arrays s !! a = Some (cells ps) ∧ Forall2 (λ p n, is_strings s !! p = Some n) ps names;
  rd_count : input_count (is_globals s) = zlen names;
  rd_some : names ≠ [];
  rd_handles : ∀ h, h ∈ is_handles s → (h < is_fresh s)%positive;
  rd_states : ∀ t, is_Some (is_states s !! t) → (t < is_fresh s)%positive;
}.

Lemma strings_are_lookup ps ns B m : strings_are ps ns B m → Forall2 (λ p n, m !! p = Some n) ps ns.
Proof.
  revert ns m. induction ps as [|p ps IH]; intros [|n ns] m Hs; try by destruct Hs.
  destruct (strings_are_delete _ _ _ _ _ _ Hs) as [Hp Hs']. constructor; [done|]. apply IH in Hs'. eapply Forall2_impl; [exact Hs'|].
  intros x y. simpl. by intros [_ ?]%lookup_delete_Some.
Qed.

(** What [init] leaves is what the threads start from. *)
Lemma started_ready s names out dump pass s1 :
  started s names out dump pass s1 → names ≠ [] →
  (∀ h, h ∈ is_handles s1 → (h < is_fresh s1)%positive) → (∀ t, is_Some (is_states s1 !! t) → (t < is_fresh s1)%positive) →
  ready names s1.
Proof.
  intros [(a & ps & B & Ei & Ha & Ear & Hs & HB) Ec _ _ _] Hne Hh Ht. split; [|done..].
  exists a, ps. split_and!; [done|by rewrite Ear, lookup_insert_eq|by eapply strings_are_lookup].
Qed.

Section thread.
Context (pcap_open_live : string → option Z) (pcap_open_offline : string → option (Z * Z)) (pcap_dump_open : string → bool).
Context (s : istate) (names : list string) (n : nat) (Hr : ready names s) (Hm : is_mem s = S (S n)).
(** The dump files that were asked for can be made. *)
Context (Hdump : ∀ q, output_dump_file (is_globals s) = Some q ∨ input_dump_file (is_globals s) = Some q →
  ∃ name, is_strings s !! q = Some name ∧ pcap_dump_open name = true).

Lemma runs_init_state Q :
  (∀ s', is_states s' = is_states s → is_handles s' = is_handles s → is_strings s' = is_strings s → is_arrays s' = is_arrays s → Q None s') →
  (∀ t st s', opens s t st s' → is_states s !! t = None →
    Forall2 (handle_for pcap_open_live pcap_open_offline (input_is_iface (is_globals s))) names (st_pd st) →
    (is_Some (st_pin st) ↔ is_Some (input_dump_file (is_globals s))) → (is_Some (st_pout st) ↔ is_Some (output_dump_file (is_globals s))) →
    Some (st_link_type st) = ph_link_type <$> head (st_pd st) → st_packet_id st = 0 → Q (Some t) s') →
  runs (init_state pcap_open_live pcap_open_offline pcap_dump_open) s Q.
Proof using Hr Hm Hdump.
  intros HN HS. destruct Hr as [(a & ps & Ei & Ha & Hps) Ec Hne Hh Hs]. unfold init_state, glob. step.
  assert (0 < zlen names) as Hpos by (destruct names; [done|rewrite zlen_cons; pose proof (zlen_nonneg l); lia]).
  step; [apply bool_decide_true; lia|]. unfold im_malloc. apply runs_bind. eapply runs_eq; [by rewrite Hm|]. cbv beta iota.
  apply runs_bind. eapply runs_eq; [done|]. cbv beta iota. rewrite Ec. unfold zlen. rewrite Nat2Z.id.
  set (t := is_fresh s). unfold wr_state at 1. step. set (st0 := ModState _ _ _ _ _). set (s0 := set_states _ _).
  assert (is_states s !! t = None) as Ht.
  { apply eq_None_not_Some. intros Hx%Hs. unfold t in Hx. lia. }
  assert (opens s t st0 s0) as Ho.
  { assert (held st0 = []) as Eh.
    { unfold held, st0. simpl. induction (length names); [done|by simpl]. }
    split; try done; rewrite ?Eh; [split_and!; [apply NoDup_nil_2|by intros x Hx%elem_of_nil|]|].
    - simpl. by rewrite (left_id_L ∅ (∪)).
    - intros h Hx%Hh. change (h < Pos.succ (Pos.succ t))%positive. unfold t. lia. }
  rewrite Ei. apply runs_bind.
  eapply (open_captures_spec pcap_open_live pcap_open_offline s t _ a ps names Ha Hps names [] [] st0 s0); [done|done|done|exact Ho| |].
  { intros s1 st1 Ho1. cbn [negb]. call runs_cleanup_state; [exact Ho1|exact Ht|]. intros s2 ? ? ? ?. step. by apply HN. }
  intros s1 [|h hs] Ho1 Hhs; [by apply Forall2_nil_inv_r in Hhs|]. cbn [negb]. set (st1 := set_captures (h :: hs) st0) in *.
  unfold rd_state at 1. apply runs_bind. step. rewrite (op_states _ _ _ _ Ho1), lookup_insert_eq. step. step. unfold wr_state at 1. step.
  set (st2 := set_link (ph_link_type h) st1).
  assert (opens s t st2 (set_states (<[t := st2]> (is_states s1)) s1)) as Ho2 by (by apply (opens_same s t st1)).
  eapply (runs_dump_file pcap_dump_open s t _ set_pin st2); [exact Ho2|done|by eauto|done|done|]. intros d s3 Ho3 Hd.
  eapply (runs_dump_file pcap_dump_open s t _ set_pout (set_pin d st2)); [exact Ho3|done|by eauto|done| |].
  { intros x. unfold held. simpl. symmetry. apply Permutation_middle. }
  intros d' s4 Ho4 Hd'. step. eapply (HS t _ s4 Ho4 Ht); done.
Qed.

(** A thread that starts has a handle for every name, of a link type that the dissection
    supports, and a dump file where one was asked for; or, when a capture cannot be opened,
    nothing is left open. *)
Theorem init_state_correct :
  runs (init_state pcap_open_live pcap_open_offline pcap_dump_open) s (λ r s',
    match r with
    | None => is_states s' = is_states s ∧ is_handles s' = is_handles s
    | Some t => ∃ st, is_states s' = <[t := st]> (is_states s) ∧ handles_are (held st) (is_handles s) (is_handles s') ∧
        Forall2 (handle_for pcap_open_live pcap_open_offline (input_is_iface (is_globals s))) names (st_pd st) ∧
        (is_Some (st_pin st) ↔ is_Some (input_dump_file (is_globals s))) ∧
        (is_Some (st_pout st) ↔ is_Some (output_dump_file (is_globals s))) ∧
        Some (st_link_type st) = ph_link_type <$> head (st_pd st)
    end).
Proof using Hr Hm Hdump.
  apply runs_init_state; [by intros|]. intros t st s' [Es Hh _ _ _ _] _ Hf Hpi Hpo El _. by exists st.
Qed.

(** What a thread has opened is closed at its end. *)
Theorem init_cleanup_state :
  runs (r ← init_state pcap_open_live pcap_open_offline pcap_dump_open;
        match r with Some t => cleanup_state t | None => skip end) s (λ _ s',
    is_states s' = is_states s ∧ is_handles s' = is_handles s ∧ is_strings s' = is_strings s ∧ is_arrays s' = is_arrays s).
Proof using Hr Hm Hdump.
  apply runs_bind. apply runs_init_state.
  - intros s' ? ? ? ?. unfold skip. by step.
  - intros t st s' Ho Ht _ _ _ _ _. eapply runs_cleanup_state; [exact Ho|exact Ht|]. by intros.
Qed.
End thread.

(** ** Outside the intended domain *)

Definition fresh_start (mem : nat) : istate := IS (Globals 0 None false None None true) ∅ ∅ ∅ ∅ None mem 1.
Definition params (l : list (string * string)) (name : string) : option string := (list_to_map l : gmap string string) !! name.

(** A dump file that cannot be made: [open_dump_file] frees the state, and [init_state] goes
    on to store into it. *)
Theorem dump_failure_use_after_free :
  (λ r, r.1) <$> (_ ← init (params [("file", "a.pcap"); ("output", "/no/b.pcap")]) (λ _ d, d);
    init_state (λ _, None) (λ _, Some (1, 100)) (λ _, false)) (fresh_start 9) = None.
Proof. by vm_compute. Qed.

(** When there is no memory for the second name, [cleanup] frees the cells of the array that
    were never set; when there is none for the array, it reads the array at NULL. *)
Theorem init_nomem_frees_garbage :
  (λ r, r.1) <$> init (params [("interfaces", "eth0,eth1,eth2")]) (λ _ d, d) (fresh_start 3) = None ∧
  (λ r, r.1) <$> init (params [("interfaces", "eth0,eth1,eth2")]) (λ _ d, d) (fresh_start 1) = None ∧
  (λ r, r.1) <$> init (params [("interfaces", "eth0,eth1,eth2")]) (λ _ d, d) (fresh_start 9) = Some 0.
Proof. by vm_compute. Qed.

(** An empty name is skipped by [strtok_r] but counted: the assertion of the loop fails. *)
Theorem empty_name_asserts :
  (λ r, r.1) <$> init (params [("interfaces", "eth0,,eth1")]) (λ _ d, d) (fresh_start 9) = None ∧
  (λ r, r.1) <$> init (params [("interfaces", "eth0,")]) (λ _ d, d) (fresh_start 9) = None.
Proof. by vm_compute. Qed.
