(* ===== verification/Timer.v ===== *)
(** * Timers (lib/haka/timer.c)

    The state of a time realm for one thread: the timers that are armed, in a
    list2 list sorted by trigger time, the current time of the realm and the flag
    that asks for a check. [tr_clock] is the instant [time_gettimestamp] reads,
    [tr_os] the delay the system timer of a real-time realm is set to. The system
    calls are supposed to succeed. The loop that runs the callbacks is written for
    any client; here a call is recorded with its count and does not touch the
    timers, in file StateMachine the callbacks are those of the state machines. *)

From S2P Require Import Prelude List2 Time.

(** ** Data *)

Inductive time_realm_mode := TIME_REALM_REALTIME | TIME_REALM_STATIC.

Record timer := Timer {
  tm_armed : bool;
  tm_repeat : bool;
  tm_trigger_time : time;
  tm_delay : time;
}.

(** [tr_sorted] is the address of [sorted_timer], [tr_repeat] the one of the
    [repeat_list] of [_time_realm_check]. *)
Record time_realm_state := TR {
  tr_sorted : loc;
  tr_repeat : loc;
  tr_links : lmem;
  tr_timers : gmap loc timer;
  tr_mode : time_realm_mode;
  tr_time : time;
  tr_check : bool;
  tr_clock : time;
  tr_os : option time;
  tr_fired : list (loc * Z);
  tr_error : option string;
}.

Abbreviation TM := (M time_realm_state).

Definition with_links (l : lmem) (s : time_realm_state) : time_realm_state :=
  TR (tr_sorted s) (tr_repeat s) l (tr_timers s) (tr_mode s) (tr_time s) (tr_check s) (tr_clock s) (tr_os s)
    (tr_fired s) (tr_error s).
Definition with_timers (t : gmap loc timer) (s : time_realm_state) : time_realm_state :=
  TR (tr_sorted s) (tr_repeat s) (tr_links s) t (tr_mode s) (tr_time s) (tr_check s) (tr_clock s) (tr_os s)
    (tr_fired s) (tr_error s).
Definition with_time (t : time) (s : time_realm_state) : time_realm_state :=
  TR (tr_sorted s) (tr_repeat s) (tr_links s) (tr_timers s) (tr_mode s) t (tr_check s) (tr_clock s) (tr_os s)
    (tr_fired s) (tr_error s).
Definition with_check (b : bool) (s : time_realm_state) : time_realm_state :=
  TR (tr_sorted s) (tr_repeat s) (tr_links s) (tr_timers s) (tr_mode s) (tr_time s) b (tr_clock s) (tr_os s)
    (tr_fired s) (tr_error s).

Definition tlnk {A} (m : M lmem A) : TM A := zoom tr_links with_links m.
Definition rd_timer (p : loc) : TM timer := o ← gets (λ s, tr_timers s !! p); deref o.
Definition wr_timer (p : loc) (t : timer) : TM unit :=
  modify (λ s, with_timers (<[p := t]> (tr_timers s)) s).
Definition timer_settime (d : option time) : TM unit :=
  modify (λ s, TR (tr_sorted s) (tr_repeat s) (tr_links s) (tr_timers s) (tr_mode s) (tr_time s) (tr_check s)
    (tr_clock s) d (tr_fired s) (tr_error s)).
(** A callback that leaves the timers alone: its call is recorded. The checks below take any
    callback over a greater state; the one of the state machines starts and stops timers. *)
Definition callback (p : loc) (count : Z) : TM unit :=
  modify (λ s, TR (tr_sorted s) (tr_repeat s) (tr_links s) (tr_timers s) (tr_mode s) (tr_time s) (tr_check s)
    (tr_clock s) (tr_os s) (tr_fired s ++ [(p, count)]) (tr_error s)).
Definition timer_error (msg : string) : TM unit :=
  modify (λ s, TR (tr_sorted s) (tr_repeat s) (tr_links s) (tr_timers s) (tr_mode s) (tr_time s) (tr_check s)
    (tr_clock s) (tr_os s) (tr_fired s) (if tr_error s is Some e then Some e else Some msg)).
Definition timer_fuel : TM nat := gets (λ s, S (size (tr_timers s))).

(** ** Current time *)

Definition timer_handler : TM unit := modify (with_check true).

Definition _time_realm_current_time : TM time :=
  m ← gets tr_mode;
  (match m with
   | TIME_REALM_REALTIME => modify (λ s, with_time (tr_clock s) s)
   | TIME_REALM_STATIC => skip
   end);;
  gets tr_time.

(** ** The sorted list *)

(** The place of a timer that triggers at [t]. *)
Fixpoint place_loop (fuel : nat) (end_ iter : loc) (t : time) : TM loc :=
  if bool_decide (iter = end_) then ret iter else
  match fuel with
  | O => stuck
  | S fuel =>
      cur ← rd_timer iter;
      if bool_decide (time_cmp t (tm_trigger_time cur) < 0) then ret iter else
      n ← tlnk (list2_next iter);
      n ← deref n;
      place_loop fuel end_ n t
  end.

Definition time_realm_insert_timer (timer : loc) : TM bool :=
  sorted ← gets tr_sorted;
  b ← tlnk (list2_begin sorted);
  begin ← deref b;
  let end_ := list2_end sorted in
  t ← rd_timer timer;
  fuel ← timer_fuel;
  iter ← place_loop fuel end_ begin (tm_trigger_time t);
  _ ← tlnk (list2_insert iter timer);
  ret (bool_decide (iter = begin)).

Definition time_realm_update_timer_list (update_timer : bool) : TM bool :=
  if negb update_timer then ret true else
  sorted ← gets tr_sorted;
  m ← gets tr_mode;
  empty ← tlnk (list2_empty sorted);
  match m with
  | TIME_REALM_REALTIME =>
      if empty : bool then timer_settime None;; ret true else
      f ← tlnk (list2_begin sorted); f ← deref f; first ← rd_timer f;
      current ← _time_realm_current_time;
      '(r, diff) ← time_diff (tm_trigger_time first) current;
      if bool_decide (r ≤ 0) then
        modify (with_check true);; timer_settime None;; ret true
      else timer_settime (Some diff);; ret true
  | TIME_REALM_STATIC =>
      if empty : bool then ret true else
      f ← tlnk (list2_begin sorted); f ← deref f; first ← rd_timer f;
      current ← _time_realm_current_time;
      _ ← time_diff (tm_trigger_time first) current;
      ret true
  end.

(** ** Starting and stopping *)

Definition time_realm_timer (timer : loc) : TM unit :=
  tlnk (list2_elem_init timer);;
  wr_timer timer (Timer false false invalid_time invalid_time).

Definition timer_stop (timer : loc) : TM bool :=
  t ← rd_timer timer;
  if negb (tm_armed t) then ret false else
  sorted ← gets tr_sorted;
  p ← tlnk (list2_prev timer);
  let is_first := bool_decide (p = Some (list2_end sorted)) in
  _ ← tlnk (list2_erase timer);
  wr_timer timer (Timer false (tm_repeat t) (tm_trigger_time t) (tm_delay t));;
  time_realm_update_timer_list is_first.

Definition timer_start (timer : loc) (delay : time) (repeat : bool) : TM bool :=
  if bool_decide (secs delay = 0) && bool_decide (nsecs delay = 0) then
    timer_error "invalid timer delay";; ret false
  else
    _ ← timer_stop timer;
    now ← _time_realm_current_time;
    wr_timer timer (Timer true repeat (time_add now delay) delay);;
    first ← time_realm_insert_timer timer;
    time_realm_update_timer_list first.

Definition timer_once (timer : loc) (delay : time) : TM bool := timer_start timer delay false.
Definition timer_repeat (timer : loc) (delay : time) : TM bool := timer_start timer delay true.

Definition timer_destroy (timer : loc) : TM unit :=
  _ ← timer_stop timer;
  modify (λ s, with_links (delete timer (tr_links s)) (with_timers (delete timer (tr_timers s)) s)).

(** ** Checking *)

(** The timer [timer] has expired: its count, its new state. *)
Definition expire (timer : loc) (current : time) : TM Z :=
  t ← rd_timer timer;
  if tm_repeat t then
    rep ← gets tr_repeat;
    _ ← tlnk (list2_insert (list2_end rep) timer);
    '(r, offset) ← time_diff (tm_trigger_time t) current;
    if bool_decide (r ≤ 0) then
      q ← time_divide offset (tm_delay t);
      let count := s32 (u64 (q + 1)) in
      let trigger := time_add (tm_trigger_time t) (time_mult (tm_delay t) count) in
      wr_timer timer (Timer (tm_armed t) true trigger (tm_delay t));;
      c_assert (bool_decide (0 ≤ time_cmp trigger current));;
      ret count
    else
      wr_timer timer (Timer (tm_armed t) true (time_add current (tm_delay t)) (tm_delay t));; ret 1
  else
    wr_timer timer (Timer false false (tm_trigger_time t) (tm_delay t));; ret 1.

Fixpoint reinsert_loop (fuel : nat) (end_ iter : loc) : TM unit :=
  if bool_decide (iter = end_) then skip else
  match fuel with
  | O => stuck
  | S fuel =>
      n ← tlnk (list2_erase iter);
      n ← deref n;
      _ ← time_realm_insert_timer iter;
      reinsert_loop fuel end_ n
  end.

(** The loop runs in the state of its client: [get] and [set] are the place of the
    realm in it, [client] is the call of the callback of a timer. *)
Section check.
Context {W : Type} (get : W → time_realm_state) (set : time_realm_state → W → W) (client : loc → Z → M W unit).

Definition realm {A} (m : TM A) : M W A := zoom get set m.

Fixpoint check_loop (fuel : nat) (end_ iter : loc) (current : time) (need_update : bool) : M W bool :=
  if bool_decide (iter = end_) then ret need_update else
  match fuel with
  | O => stuck
  | S fuel =>
      t ← realm (rd_timer iter);
      if bool_decide (time_cmp (tm_trigger_time t) current ≤ 0) then
        n ← realm (tlnk (list2_erase iter));
        n ← deref n;
        count ← realm (expire iter current);
        client iter count;;
        check_loop fuel end_ n current true
      else ret need_update
  end.

Definition check_timers : M W bool :=
  current ← realm _time_realm_current_time;
  sorted ← realm (gets tr_sorted);
  b ← realm (tlnk (list2_begin sorted));
  iter ← deref b;
  let end_ := list2_end sorted in
  realm (modify (with_check false));;
  if bool_decide (iter = end_) then ret true else
  rep ← realm (gets tr_repeat);
  realm (tlnk (list2_init rep));;
  fuel ← realm timer_fuel;
  need_update ← check_loop fuel end_ iter current false;
  realm (
    empty ← tlnk (list2_empty rep);
    (if negb empty then
       b ← tlnk (list2_begin rep); b ← deref b; reinsert_loop fuel (list2_end rep) b
     else skip);;
    time_realm_update_timer_list need_update).

(** The trace of the offset computes the same difference and keeps nothing. *)
Definition update_and_check_timers (value : time) : M W unit :=
  m ← realm (gets tr_mode);
  c_assert (if m is TIME_REALM_STATIC then true else false);;
  now ← realm (gets tr_time);
  if bool_decide (time_cmp value now < 0) then skip
  else
    realm (modify (with_time value));;
    realm (modify (with_check true));;
    _ ← check_timers;
    skip.
End check.

(** The callback is recorded. *)
Definition _time_realm_check : TM bool := check_timers (λ t, t) (λ t _, t) callback.

Definition time_realm_check : TM bool :=
  c ← gets tr_check;
  if c : bool then _time_realm_check else ret true.

Definition time_realm_update_and_check (value : time) : TM unit :=
  update_and_check_timers (λ t, t) (λ t _, t) callback value.
