(* ===== verification/TimerSpec.v ===== *)
(** * Properties of the timers

    [armed s xs]: the sorted list of the realm holds the timers [xs]; [le_trigger]
    orders them. Starting and stopping keep the list sorted, a check fires exactly
    the timers that are due, each with the number of its expirations, and leaves
    only timers of the future. *)

From stdpp Require Import sorting.
From S2P Require Import Prelude List2 Time Timer.

Abbreviation tseg := (positive * timer)%type.

Definition trig (x : tseg) : Z := ns (tm_trigger_time x.2).
Definition le_trigger (x y : tseg) : Prop := trig x ≤ trig y.

(** The sorted list, and the list of the timers to insert again. *)
Record armed (s : time_realm_state) (xs : list tseg) : Prop := {
  ar_list : dlist (tr_links s) (tr_sorted s) xs.*1;
  ar_timers : ∀ p t, (p, t) ∈ xs → tr_timers s !! p = Some t;
  ar_times : Forall (λ x : tseg, time_ok (tm_trigger_time x.2)) xs;
}.

Record repeating (s : time_realm_state) (xs rs : list tseg) : Prop := {
  rp_list : dlist (tr_links s) (tr_repeat s) rs.*1;
  rp_timers : ∀ p t, (p, t) ∈ rs → tr_timers s !! p = Some t;
  rp_times : Forall (λ x : tseg, time_ok (tm_trigger_time x.2)) rs;
  rp_disj : ∀ x, x ∈ tr_sorted s :: xs.*1 → x ∉ tr_repeat s :: rs.*1;
}.

Definition unlinked (s : time_realm_state) (p : loc) (t : timer) : Prop :=
  tr_links s !! p = Some (Elem None None) ∧ tr_timers s !! p = Some t.

Section lists.
Implicit Types s : time_realm_state.

Lemma runs_rd_timer s p t Q : tr_timers s !! p = Some t → Q t s → runs (rd_timer p) s Q.
Proof. intros H HQ. unfold rd_timer. step. rewrite H. by step. Qed.

Lemma runs_tlnk {A} (m : M lmem A) s P Q :
  runs m (tr_links s) P → (∀ a l, P a l → Q a (with_links l s)) → runs (tlnk m) s Q.
Proof. intros H HQ. unfold tlnk. step. eapply runs_mono; [exact H|]. exact HQ. Qed.

Lemma with_links_id s : with_links (tr_links s) s = s.
Proof. by destruct s. Qed.

Lemma runs_tlnk_read {A} (m : M lmem A) s Q :
  runs m (tr_links s) (λ a l, l = tr_links s ∧ Q a s) → runs (tlnk m) s Q.
Proof. intros H. eapply runs_tlnk; [exact H|]. intros a l [-> HQ]. by rewrite with_links_id. Qed.

Lemma at_cons_ne h hd l1 (p : loc) l2 : dlist h hd (l1 ++ p :: l2) → p ≠ hd.
Proof.
  intros H ->. apply dlist_nodup, NoDup_cons in H as [H _]. apply H. set_solver.
Qed.

Lemma armed_fuel s xs : armed s xs → (length xs ≤ size (tr_timers s))%nat.
Proof.
  intros [Hd Hf _]. pose proof (dlist_nodup _ _ _ Hd) as [_ Hnd]%NoDup_cons.
  rewrite <- size_dom, <- (length_fmap fst xs).
  rewrite <- (size_list_to_set (C:=gset loc)) by done. apply subseteq_size.
  intros x Hx%elem_of_list_to_set. apply elem_of_dom.
  apply list_elem_of_fmap in Hx as ([c ch] & -> & Hi). simpl. rewrite (Hf _ _ Hi). eauto.
Qed.

Lemma armed_at s l1 p t l2 : armed s (l1 ++ (p, t) :: l2) → tr_timers s !! p = Some t ∧ time_ok (tm_trigger_time t).
Proof.
  intros [_ H Ht]. split; [apply H; set_solver|]. rewrite Forall_app, Forall_cons in Ht. tauto.
Qed.

Lemma place_spec s t l2 : ∀ l1 fuel Q,
  armed s (l1 ++ l2) → time_ok t → (length l2 ≤ fuel)%nat →
  (∀ a b, l2 = a ++ b → Forall (λ x, trig x ≤ ns t) a → (∀ x, head b = Some x → ns t < trig x) →
    Q (at_head (tr_sorted s) b.*1) s) →
  runs (place_loop fuel (tr_sorted s) (at_head (tr_sorted s) l2.*1) t) s Q.
Proof.
  induction l2 as [|[p c] l2 IH]; intros l1 fuel Q H Ht Hf HQ.
  - destruct fuel; simpl; rewrite bool_decide_true by done; step; by apply (HQ [] []).
  - destruct fuel as [|fuel]; [simpl in Hf; lia|]. destruct (armed_at _ _ _ _ _ H) as [Hp Hpt].
    pose proof (ar_list _ _ H) as Hd. rewrite fmap_app, fmap_cons in Hd. simpl in Hd.
    cbn [place_loop]. rewrite fmap_cons. simpl at_head. rewrite bool_decide_false by (simpl; by eapply at_cons_ne).
    call runs_rd_timer; [exact Hp|]. rewrite time_cmp_ns by done. case_test as Hlt.
    + step. apply (HQ [] ((p, c) :: l2)); [done|done|]. intros x [= <-]. unfold trig. simpl. lia.
    + apply runs_bind, runs_tlnk_read. eapply runs_list2_next; [by eapply dlist_next|]. split; [done|]. step.
      eapply (IH (l1 ++ [(p, c)])); [by rewrite <- app_assoc|done|simpl in Hf; lia|].
      intros a b -> Ha Hb. apply (HQ ((p, c) :: a) b); [done| |done]. constructor; [unfold trig; simpl; lia|done].
Qed.

(** Insertion behind the timers that trigger at the same time or earlier. *)
Lemma runs_timer_insert s xs p t Q :
  armed s xs → unlinked s p t → time_ok (tm_trigger_time t) →
  (∀ a b l r, xs = a ++ b → Forall (λ x, trig x ≤ trig (p, t)) a →
    (∀ x, head b = Some x → trig (p, t) < trig x) →
    armed (with_links l s) (a ++ (p, t) :: b) → same_out (tr_sorted s :: p :: xs.*1) (tr_links s) l →
    Q r (with_links l s)) →
  runs (time_realm_insert_timer p) s Q.
Proof.
  intros H [Hp1 Hp2] Ht HQ. unfold time_realm_insert_timer. step. apply runs_bind, runs_tlnk_read.
  eapply (runs_list2_next _ (tr_sorted s)); [by eapply dlist_begin, (ar_list _ _ H)|]. split; [done|]. step.
  call runs_rd_timer; [exact Hp2|]. unfold timer_fuel. step. pose proof (armed_fuel _ _ H).
  apply runs_bind. eapply (place_spec s (tm_trigger_time t) xs []); [exact H|done|lia|].
  intros a b -> Ha Hb. apply runs_bind.
  pose proof (ar_list _ _ H) as Hd. rewrite fmap_app in Hd.
  eapply runs_tlnk; [by eapply list2_insert_spec|]. intros r l (-> & Hl & [Ho _]). step.
  apply (HQ a b); [done|done|done| |by rewrite fmap_app].
  destruct H as [_ Htm Hok]. split.
  - simpl. by rewrite fmap_app, fmap_cons.
  - intros q u Hq. apply elem_of_app in Hq as [Hq|Hq]; [apply Htm, elem_of_app; by left|].
    apply elem_of_cons in Hq as [[= -> ->]|Hq]; [done|]. apply Htm, elem_of_app. by right.
  - rewrite Forall_app in Hok |- *. destruct Hok. split; [done|]. by constructor.
Qed.

Lemma insert_sorted x a b :
  StronglySorted le_trigger (a ++ b) → Forall (λ y, trig y ≤ trig x) a →
  (∀ y, head b = Some y → trig x < trig y) → StronglySorted le_trigger (a ++ x :: b).
Proof.
  intros Hs Ha Hb. apply StronglySorted_app in Hs as (H1 & H2 & H3). apply StronglySorted_app.
  assert (Forall (le_trigger x) b) as Hxb.
  { destruct b as [|y b]; [constructor|]. specialize (Hb y eq_refl). inversion_clear H3 as [|?? _ H4].
    constructor; [unfold le_trigger; lia|]. eapply Forall_impl; [exact H4|]. unfold le_trigger. intros; lia. }
  split_and!; [|done|by constructor]. intros y z Hy Hz. apply elem_of_cons in Hz as [->|Hz]; [|by apply H1].
  rewrite Forall_forall in Ha. by apply Ha.
Qed.

(** The list is not touched by the update of the system timer. *)
Definition same_timers s s' : Prop :=
  tr_sorted s' = tr_sorted s ∧ tr_repeat s' = tr_repeat s ∧ tr_links s' = tr_links s ∧
  tr_timers s' = tr_timers s ∧ tr_mode s' = tr_mode s ∧ tr_clock s' = tr_clock s ∧ tr_fired s' = tr_fired s ∧
  tr_error s' = tr_error s ∧ (tr_mode s = TIME_REALM_STATIC → tr_time s' = tr_time s).

Lemma armed_same s s' xs : same_timers s s' → armed s xs → armed s' xs.
Proof. intros (E1 & E2 & E3 & E4 & _) [H1 H2 H3]. split; [by rewrite E1, E3|by rewrite E4|done]. Qed.

(** The instant the realm reads. *)
Definition now s : time := match tr_mode s with TIME_REALM_REALTIME => tr_clock s | TIME_REALM_STATIC => tr_time s end.

Definition at_now s : time_realm_state := with_time (now s) s.

Lemma runs_current_time s Q : Q (now s) (at_now s) → runs _time_realm_current_time s Q.
Proof.
  intros HQ. unfold _time_realm_current_time. step. unfold now, at_now in HQ. destruct s. simpl in *.
  destruct tr_mode; unfold skip; step; by step.
Qed.

Lemma same_at_now s : same_timers s (at_now s).
Proof. unfold same_timers, at_now, now. destruct s. simpl. destruct tr_mode; by split_and!. Qed.

Lemma runs_update_list s xs upd Q :
  armed s xs → time_ok (now s) → (∀ s', same_timers s s' → Q true s') →
  runs (time_realm_update_timer_list upd) s Q.
Proof.
  intros H Hn HQ. unfold time_realm_update_timer_list.
  assert (same_timers s s) as Hss by (by split_and!).
  destruct upd; cbn [negb]; [|step; by apply HQ]. step. step. apply runs_bind, runs_tlnk_read.
  eapply runs_mono; [eapply list2_empty_spec, (ar_list _ _ H)|]. intros e l [-> ->]. split; [done|].
  assert (∀ k : timer → TM bool, (∀ p t xs', xs = (p, t) :: xs' → runs (k t) s Q) → xs ≠ [] →
    runs (f ← tlnk (list2_begin (tr_sorted s)); f ← deref f; first ← rd_timer f; k first) s Q) as Hfirst.
  { intros k Hk Hne. destruct xs as [|[p t] xs]; [done|]. apply runs_bind, runs_tlnk_read.
    eapply (runs_list2_next _ (tr_sorted s)); [by eapply dlist_begin, (ar_list _ _ H)|]. split; [done|]. step.
    call runs_rd_timer; [by apply (armed_at s [] p t xs H)|]. by eapply Hk. }
  case_test as Hx.
  - destruct (tr_mode s) eqn:Em; [unfold timer_settime; step; step|step]; apply HQ; [|done].
    unfold same_timers in *. simpl. by rewrite Em.
  - assert (xs ≠ []) as Hne by (by intros ->).
    destruct (tr_mode s) eqn:Em; apply Hfirst; try done; intros p t xs' ->;
      destruct (armed_at s [] p t xs' H) as [_ Hok]; (call runs_current_time);
      pose proof (same_at_now s) as Hs'.
    + call runs_time_diff; [done|done|]. intros d Hd _. case_test as Hr; unfold timer_settime.
      * step. step. step. apply HQ. unfold same_timers in *. simpl in *. naive_solver.
      * step. step. apply HQ. unfold same_timers in *. simpl in *. naive_solver.
    + call runs_time_diff; [done|done|]. intros d Hd _. step. by apply HQ.
Qed.
End lists.

(** ** Starting and stopping *)

Section start.
Implicit Types s : time_realm_state.

Lemma now_same s s' : same_timers s s' → now s' = now s.
Proof.
  intros (_ & _ & _ & _ & Em & Ec & _ & _ & Et). unfold now. rewrite Em, Ec. destruct (tr_mode s); [done|]. auto.
Qed.

Lemma armed_write s xs p t :
  armed s xs → p ∉ xs.*1 → armed (with_timers (<[p := t]> (tr_timers s)) s) xs.
Proof.
  intros [H1 H2 H3] Hp. split; [done| |done]. intros q u Hq. simpl. rewrite lookup_insert_ne; [by apply H2|].
  intros <-. apply Hp. apply list_elem_of_fmap. by exists (p, u).
Qed.

Lemma unlinked_not_in s xs p t : armed s xs → unlinked s p t → p ∉ tr_sorted s :: xs.*1.
Proof. intros H [Hp _]. eapply dlist_not_in; [apply (ar_list _ _ H)|exact Hp]. Qed.

(** A timer of the realm: at rest, or armed in the list; [ys] are the others. *)
Definition timer_at s (xs : list tseg) (p : loc) (ys : list tseg) : Prop :=
  (∃ t, unlinked s p t ∧ tm_armed t = false ∧ ys = xs) ∨
  (∃ t l1 l2, xs = l1 ++ (p, t) :: l2 ∧ tm_armed t = true ∧ ys = l1 ++ l2).

Lemma timer_at_sub s xs p ys : timer_at s xs p ys → ∀ x, x ∈ ys.*1 → x ∈ xs.*1.
Proof. intros [(t & _ & _ & ->)|(t & l1 & l2 & -> & _ & ->)] x Hx; [done|]. rewrite fmap_app in *. set_solver. Qed.

(** The fields that starting and stopping a timer leave as they were. *)
Definition same_realm s s' : Prop :=
  tr_sorted s' = tr_sorted s ∧ tr_repeat s' = tr_repeat s ∧ tr_mode s' = tr_mode s ∧ now s' = now s ∧
  tr_fired s' = tr_fired s ∧ tr_error s' = tr_error s.

Lemma same_timers_realm s s' : same_timers s s' → same_realm s s'.
Proof. intros H. pose proof (now_same _ _ H). unfold same_timers, same_realm in *. tauto. Qed.

(** An operation on the timer [p] that changes links in [ws] only. *)
Definition touches s (ws : list loc) (p : loc) s' : Prop :=
  same_out ws (tr_links s) (tr_links s') ∧ ∀ q, q ≠ p → tr_timers s' !! q = tr_timers s !! q.

(** Stopping keeps the trigger times. *)
Definition trigger_of s (q : loc) : option time := tm_trigger_time <$> tr_timers s !! q.

Lemma touches_refl s ws p : touches s ws p s.
Proof. by split. Qed.

Lemma touches_unlinked s ws p s' q t : touches s ws p s' → q ∉ p :: ws → unlinked s q t → unlinked s' q t.
Proof. intros [H1 H2] [Hp Hq]%not_elem_of_cons [U1 U2]. split; [by rewrite (H1 q)|by rewrite H2]. Qed.

Lemma runs_stop s xs p ys Q :
  armed s xs → time_ok (now s) → timer_at s xs p ys →
  (∀ s' t r, armed s' ys → unlinked s' p t → tm_armed t = false → same_realm s s' →
     touches s (tr_sorted s :: xs.*1) p s' → (∀ q, trigger_of s' q = trigger_of s q) → Q r s') →
  runs (timer_stop p) s Q.
Proof.
  intros H Hn Hp HQ. unfold timer_stop. destruct Hp as [(t & Hu & Ha & ->)|(t & l1 & l2 & -> & Ha & ->)].
  - call runs_rd_timer; [apply Hu|]. rewrite Ha. cbn [negb]. step. eapply HQ; [exact H|exact Hu|done| |apply touches_refl|done]. by split_and!.
  - destruct (armed_at _ _ _ _ _ H) as [Hp Hpt]. call runs_rd_timer; [exact Hp|]. rewrite Ha. cbn [negb]. step.
    pose proof (ar_list _ _ H) as Hd. rewrite fmap_app, fmap_cons in Hd. simpl in Hd.
    apply runs_bind, runs_tlnk_read. eapply runs_list2_prev; [by eapply dlist_prev|]. split; [done|].
    apply runs_bind. eapply runs_tlnk; [by eapply list2_erase_spec|]. intros r l (-> & Hl & Hpl & [Hout _]).
    unfold wr_timer. step. set (s1 := with_timers _ _).
    assert (armed s1 (l1 ++ l2)) as H1.
    { apply (armed_write (with_links l s)).
      - destruct H as [_ H2 H3]. rewrite Forall_app, Forall_cons in H3. split.
        + simpl. by rewrite fmap_app.
        + intros q u Hq. apply H2. set_solver.
        + rewrite Forall_app. tauto.
      - apply dlist_nodup, NoDup_cons in Hd as [_ Hd]. apply NoDup_app in Hd as (_ & Hd1 & Hd2).
        apply NoDup_cons in Hd2 as [Hd2 _]. rewrite fmap_app, elem_of_app. intros [Hi|Hi]; [|done].
        eapply Hd1; [done|]. by left. }
    eapply runs_update_list; [exact H1|done|]. intros s' Hs'. eapply HQ.
    + by eapply armed_same.
    + destruct Hs' as (_ & _ & El & Et & _). split; [by rewrite El|]. rewrite Et. simpl. by simplify_map_eq.
    + done.
    + exact (same_timers_realm _ _ Hs').
    + destruct Hs' as (_ & _ & El & Et & _). split.
      * intros q Hq. rewrite fmap_app, fmap_cons in Hq. rewrite El. simpl. by apply Hout.
      * intros q Hq. rewrite Et. simpl. by rewrite lookup_insert_ne.
    + intros q. unfold trigger_of. destruct Hs' as (_ & _ & _ & -> & _). simpl.
      destruct (decide (q = p)) as [->|]; [by rewrite lookup_insert_eq, Hp|by rewrite lookup_insert_ne].
Qed.

Lemma runs_start s xs p ys delay repeat Q :
  armed s xs → StronglySorted le_trigger ys → timer_at s xs p ys →
  time_ok (now s) → time_ok delay → 0 < ns delay → ns (now s) + ns delay < 2 ^ 61 →
  (∀ s' xs' t, same_realm s s' → touches s (tr_sorted s :: p :: xs.*1) p s' → armed s' xs' → StronglySorted le_trigger xs' →
     xs' ≡ₚ (p, t) :: ys → t = Timer true repeat (time_add (now s) delay) delay →
     trig (p, t) = ns (now s) + ns delay → Q true s') →
  runs (timer_start p delay repeat) s Q.
Proof.
  intros H Hs Hp Hn Hd Hpos Hb HQ. unfold timer_start.
  assert (bool_decide (secs delay = 0) && bool_decide (nsecs delay = 0) = false) as ->.
  { apply not_true_is_false. intros [E1%bool_decide_eq_true E2%bool_decide_eq_true]%andb_prop.
    unfold ns in Hpos. rewrite E1, E2 in Hpos. lia. }
  call runs_stop; [exact H|done|exact Hp|]. intros s1 t1 r1 H1 [Hu1 Hu2] Ha1 R1 K1 _.
  assert (now s1 = now s) as En by apply R1.
  call runs_current_time. unfold wr_timer. step. rewrite En.
  destruct (time_add_ok (now s) delay) as [Hok Ens]; [done|done|done|].
  set (t := Timer true repeat _ delay). set (s2 := with_timers _ _).
  assert (armed s2 ys) as H2.
  { apply armed_write.
    - eapply armed_same; [apply same_at_now|done].
    - pose proof (unlinked_not_in _ _ _ _ H1 (conj Hu1 Hu2)). set_solver. }
  apply runs_bind. eapply (runs_timer_insert s2 ys p t); [exact H2| |exact Hok|].
  { split; [simpl; exact Hu1|]. simpl. by simplify_map_eq. }
  intros a b l r -> Ha Hbd H3 Hout.
  assert (now (with_links l s2) = now s) as En2.
  { rewrite <- En. unfold now, s2, at_now, now. simpl. by destruct (tr_mode s1). }
  eapply runs_update_list; [exact H3|by rewrite En2|].
  intros s' Hs'. eapply (HQ s' (a ++ (p, t) :: b) t); [| |by eapply armed_same|by apply insert_sorted|by rewrite Permutation_middle|done|done].
  - pose proof (same_timers_realm _ _ Hs') as R2. unfold same_realm in *. rewrite En2 in R2. simpl in R2.
    intuition congruence.
  - destruct K1 as [K1 K2], Hs' as (_ & _ & El & Et & _). split.
    + intros q Hq. rewrite El. simpl. rewrite (Hout q); [apply K1; set_solver|].
      replace (tr_sorted s2) with (tr_sorted s) by (symmetry; apply R1).
      pose proof (timer_at_sub _ _ _ _ Hp) as Hsub. set_solver.
    + intros q Hq. rewrite Et. simpl. rewrite lookup_insert_ne by done. by apply K2.
Qed.
(** A callback can stop a timer that waits in the list of the repeating ones. *)
Lemma runs_stop_repeating s xs l1 l2 p t Q :
  armed s xs → repeating s xs (l1 ++ (p, t) :: l2) → time_ok (now s) → tm_armed t = true →
  (∀ s' t' r, armed s' xs → repeating s' xs (l1 ++ l2) → unlinked s' p t' → tm_armed t' = false → same_realm s s' →
     touches s (tr_repeat s :: (l1 ++ (p, t) :: l2).*1) p s' → (∀ q, trigger_of s' q = trigger_of s q) → Q r s') →
  runs (timer_stop p) s Q.
Proof.
  intros H R Hn Ha HQ. unfold timer_stop.
  assert (tr_timers s !! p = Some t) as Hp by (apply (rp_timers _ _ _ R); set_solver).
  call runs_rd_timer; [exact Hp|]. rewrite Ha. cbn [negb]. step.
  pose proof (rp_list _ _ _ R) as Hd. rewrite fmap_app, fmap_cons in Hd. simpl in Hd.
  apply runs_bind, runs_tlnk_read. eapply runs_list2_prev; [by eapply dlist_prev|]. split; [done|].
  apply runs_bind. eapply runs_tlnk; [by eapply list2_erase_spec|]. intros r l (-> & Hl & Hpl & [Hout _]).
  unfold wr_timer. step. set (s1 := with_timers _ _).
  pose proof (rp_disj _ _ _ R) as Hdj. rewrite fmap_app, fmap_cons in Hdj. simpl in Hdj.
  assert (p ∉ (l1 ++ l2).*1) as Hpn.
  { apply dlist_nodup, NoDup_cons in Hd as [_ Hd]. apply NoDup_app in Hd as (_ & Hd1 & Hd2).
    apply NoDup_cons in Hd2 as [Hd2 _]. rewrite fmap_app, elem_of_app. intros [Hi|Hi]; [|done].
    eapply Hd1; [done|]. by left. }
  assert (armed s1 xs) as H1.
  { apply (armed_write (with_links l s)).
    - destruct H as [A1 A2 A3]. split; [|done|done]. eapply dlist_same_out; [exact Hout| |done]. exact Hdj.
    - intros Hi. apply (Hdj p); [by right|]. set_solver. }
  assert (repeating s1 xs (l1 ++ l2)) as R1.
  { destruct R as [_ R2 R3 _]. rewrite Forall_app, Forall_cons in R3. split.
    - simpl. by rewrite fmap_app.
    - intros q u Hq. simpl. rewrite lookup_insert_ne; [apply R2; set_solver|]. intros <-. apply Hpn.
      apply list_elem_of_fmap. by exists (p, u).
    - rewrite Forall_app. tauto.
    - intros x Hx. specialize (Hdj x Hx). rewrite fmap_app. set_solver. }
  eapply runs_update_list; [exact H1|done|]. intros s' Hs'.
  pose proof Hs' as (E1 & E2 & El & Et & _). eapply HQ.
  - by eapply armed_same.
  - destruct R1 as [B1 B2 B3 B4]. split; [by rewrite El, E2|by rewrite Et|done|by rewrite E1, E2].
  - split; [by rewrite El|]. rewrite Et. simpl. by simplify_map_eq.
  - done.
  - exact (same_timers_realm _ _ Hs').
  - split.
    + intros q Hq. rewrite fmap_app, fmap_cons in Hq. rewrite El. simpl. by apply Hout.
    + intros q Hq. rewrite Et. simpl. by rewrite lookup_insert_ne.
  - intros q. unfold trigger_of. rewrite Et. simpl.
    destruct (decide (q = p)) as [->|]; [by rewrite lookup_insert_eq, Hp|by rewrite lookup_insert_ne].
Qed.

(** The list of the repeating timers next to an operation on the sorted list. *)
Lemma repeating_frame s xs rs ws p s' ys :
  repeating s xs rs → touches s ws p s' → same_realm s s' → (∀ x, x ∈ p :: ws → x ∉ tr_repeat s :: rs.*1) →
  (∀ x, x ∈ ys.*1 → x ∈ p :: xs.*1) → repeating s' ys rs.
Proof.
  intros [R1 R2 R3 R4] [T1 T2] (E1 & E2 & _) Hd Hy. split; [| |done|].
  - rewrite E2. eapply dlist_same_out; [exact T1| |done]. intros x Hx Hw. apply (Hd x); [by right|done].
  - intros q u Hq. rewrite T2; [by apply R2|]. intros ->. apply (Hd p); [by left|]. right.
    apply list_elem_of_fmap. by exists (p, u).
  - rewrite E1, E2. intros x Hx. rewrite elem_of_cons in Hx. destruct Hx as [->|Hx%Hy]; [apply R4; by left|].
    rewrite elem_of_cons in Hx. destruct Hx as [->|Hx]; [apply Hd; by left|]. apply R4. by right.
Qed.
End start.

(** Starting a timer, at rest or armed already: with a delay that is not zero the
    timer is armed for the current time plus the delay, at its place in the list;
    the list holds it once, the other timers are as they were, and it stays sorted
    by trigger time. *)
Theorem timer_start_correct s xs p ys delay repeat :
  armed s xs → StronglySorted le_trigger ys → timer_at s xs p ys →
  time_ok (now s) → time_ok delay → 0 < ns delay → ns (now s) + ns delay < 2 ^ 61 →
  runs (timer_start p delay repeat) s (λ r s', r = true ∧ same_realm s s' ∧
    ∃ xs' t, armed s' xs' ∧ StronglySorted le_trigger xs' ∧ xs' ≡ₚ (p, t) :: ys ∧
      t = Timer true repeat (time_add (now s) delay) delay ∧ trig (p, t) = ns (now s) + ns delay).
Proof.
  intros H Hs Hp Hn Hd Hpos Hb. eapply runs_start; [done..|]. intros s' xs' t R _ H' Hs' Hp' Et Htr.
  split_and!; [done|done|]. by exists xs', t.
Qed.

(** ** Expiration *)

(** The number of expirations of a timer at the instant [cur], and its new state. *)
Definition count_of (cur : Z) (t : timer) : Z :=
  if tm_repeat t then (cur - ns (tm_trigger_time t)) / ns (tm_delay t) + 1 else 1.
Definition next_of (cur : Z) (t : timer) : timer :=
  if tm_repeat t
  then Timer (tm_armed t) true (time_add (tm_trigger_time t) (time_mult (tm_delay t) (count_of cur t))) (tm_delay t)
  else Timer false false (tm_trigger_time t) (tm_delay t).

(** The delay of a repeating timer is positive and its arithmetic in range. *)
Definition repeat_ok (cur : Z) (t : timer) : Prop :=
  tm_repeat t = true →
  time_ok (tm_delay t) ∧ 0 < ns (tm_delay t) ∧ cur + ns (tm_delay t) < 2 ^ 61 ∧ count_of cur t < 2 ^ 31.

(** The fields that a check does not change. *)
Definition same_env (s s' : time_realm_state) : Prop :=
  tr_sorted s' = tr_sorted s ∧ tr_repeat s' = tr_repeat s ∧ tr_mode s' = tr_mode s ∧ tr_time s' = tr_time s ∧
  tr_clock s' = tr_clock s ∧ tr_error s' = tr_error s.

Section expire.
Implicit Types s : time_realm_state.

Lemma next_trigger cur t :
  repeat_ok cur t → tm_repeat t = true → time_ok (tm_trigger_time t) → ns (tm_trigger_time t) ≤ cur →
  time_ok (tm_trigger_time (next_of cur t)) ∧ 1 ≤ count_of cur t ∧
  ns (tm_trigger_time (next_of cur t)) = ns (tm_trigger_time t) + count_of cur t * ns (tm_delay t) ∧
  cur < ns (tm_trigger_time (next_of cur t)) ≤ cur + ns (tm_delay t).
Proof.
  intros Ho Hr Ht Hd. destruct (Ho Hr) as (Hdo & Hpos & Hb & _). unfold next_of. rewrite Hr. cbn [tm_trigger_time].
  assert (count_of cur t = (cur - ns (tm_trigger_time t)) / ns (tm_delay t) + 1) as Ec by (unfold count_of; by rewrite Hr).
  pose proof (Z.div_mod (cur - ns (tm_trigger_time t)) (ns (tm_delay t))) as Ed.
  pose proof (Z.mod_pos_bound (cur - ns (tm_trigger_time t)) (ns (tm_delay t))) as Em.
  pose proof (Z.div_pos (cur - ns (tm_trigger_time t)) (ns (tm_delay t))) as Ep.
  destruct (time_ok_bounds _ Ht), (time_ok_bounds _ Hdo).
  destruct (time_mult_ok (tm_delay t) (count_of cur t)) as [Hm1 Hm2]; [done|lia|nia|].
  destruct (time_add_ok (tm_trigger_time t) (time_mult (tm_delay t) (count_of cur t))) as [Ha1 Ha2]; [done|done|nia|].
  rewrite Ha2, Hm2. split_and!; [done|lia|lia|nia|nia].
Qed.

(** What an operation on the timer [p] keeps. *)
Lemma armed_frame s l m xs ys :
  armed s xs → same_out ys (tr_links s) l → (∀ x, x ∈ tr_sorted s :: xs.*1 → x ∉ ys) →
  (∀ x, x ∈ xs.*1 → m !! x = tr_timers s !! x) → armed (with_timers m (with_links l s)) xs.
Proof.
  intros [H1 H2 H3] Ho Hd Hm. split; [by eapply dlist_same_out| |done]. intros q u Hq. simpl.
  rewrite Hm; [by apply H2|]. apply list_elem_of_fmap. by exists (q, u).
Qed.

Lemma runs_expire s xs rs p t cur Q :
  armed s xs → repeating s xs rs → unlinked s p t → time_ok (tm_trigger_time t) → time_ok cur →
  ns (tm_trigger_time t) ≤ ns cur → repeat_ok (ns cur) t →
  (∀ s', armed s' xs → repeating s' xs (rs ++ if tm_repeat t then [(p, next_of (ns cur) t)] else []) →
    tr_timers s' = <[p := next_of (ns cur) t]> (tr_timers s) → tr_fired s' = tr_fired s → same_env s s' →
    touches s (tr_repeat s :: p :: rs.*1) p s' → Q (count_of (ns cur) t) s') →
  runs (expire p cur) s Q.
Proof.
  intros H R [Hp1 Hp2] Ht Hc Hd Ho HQ. unfold expire. call runs_rd_timer; [exact Hp2|].
  pose proof (unlinked_not_in _ _ _ _ H (conj Hp1 Hp2)) as Hnx.
  assert (p ∉ tr_repeat s :: rs.*1) as Hnr by (eapply dlist_not_in; [apply (rp_list _ _ _ R)|exact Hp1]).
  destruct (tm_repeat t) eqn:Er.
  - destruct (next_trigger _ _ Ho Er Ht Hd) as (Hn1 & Hn2 & Hn3 & Hn4). destruct (Ho Er) as (Hdo & Hpos & Hb & Hct).
    assert (count_of (ns cur) t = (ns cur - ns (tm_trigger_time t)) / ns (tm_delay t) + 1) as Ec
      by (unfold count_of; by rewrite Er).
    step. apply runs_bind. pose proof (rp_list _ _ _ R) as Hl. rewrite <- (app_nil_r rs.*1) in Hl.
    eapply runs_tlnk; [by eapply (list2_insert_spec _ _ rs.*1 [])|]. intros r l (-> & Hl' & [Hfr _]).
    call runs_time_diff; [done|done|]. intros d Hdk Ed. rewrite bool_decide_true by lia.
    call runs_time_divide; [done|done|done|].
    assert (ns d / ns (tm_delay t) + 1 = count_of (ns cur) t) as Eq by (rewrite Ec, Ed; do 2 f_equal; lia).
    destruct (time_ok_bounds _ Hc), (time_ok_bounds _ Ht).
    rewrite Eq, u64_small by lia. unfold s32. rewrite swrap_small by lia.
    unfold wr_timer. step.
    assert (next_of (ns cur) t = Timer (tm_armed t) true
      (time_add (tm_trigger_time t) (time_mult (tm_delay t) (count_of (ns cur) t))) (tm_delay t)) as En
      by (unfold next_of; by rewrite Er).
    rewrite <- En. rewrite En in Hn1, Hn4. simpl in Hn1, Hn4.
    step; [apply bool_decide_true; rewrite time_cmp_ns by done; lia|]. step.
    assert (∀ x, x ∈ tr_sorted s :: xs.*1 → x ∉ tr_repeat s :: p :: rs.*1) as Hdj.
    { intros x Hx. pose proof (rp_disj _ _ _ R x Hx). set_solver. }
    rewrite app_nil_r in Hfr.
    apply HQ; [| |done|done|done|split; [exact Hfr|intros q Hq; simpl; by rewrite lookup_insert_ne]].
    + eapply armed_frame; [exact H|exact Hfr|exact Hdj|]. intros x Hx. simpl. apply lookup_insert_ne. set_solver.
    + split; simpl.
      * rewrite fmap_app. exact Hl'.
      * intros q u Hq. apply elem_of_app in Hq as [Hq|Hq%list_elem_of_singleton]; [|by simplify_map_eq].
        rewrite lookup_insert_ne; [by apply (rp_timers _ _ _ R)|]. intros <-. apply Hnr. right.
        apply list_elem_of_fmap. by exists (p, u).
      * apply Forall_app. split; [apply (rp_times _ _ _ R)|]. constructor; [|done]. by rewrite En.
      * intros x Hx. rewrite fmap_app. simpl. specialize (Hdj x Hx). set_solver.
  - unfold wr_timer. step. step.
    assert (next_of (ns cur) t = Timer false false (tm_trigger_time t) (tm_delay t)) as En by (unfold next_of; by rewrite Er).
    assert (count_of (ns cur) t = 1) as Ec by (unfold count_of; by rewrite Er). rewrite Ec in HQ. rewrite <- En.
    apply HQ; [| |done|done|done|split; [done|intros q Hq; simpl; by rewrite lookup_insert_ne]].
    + apply armed_write; [done|]. set_solver.
    + rewrite app_nil_r. destruct R as [R1 R2 R3 R4]. split; try done. intros q u Hq. simpl.
      rewrite lookup_insert_ne; [by apply R2|]. intros <-. apply Hnr. right. apply list_elem_of_fmap. by exists (p, u).
Qed.
End expire.

(** ** The check *)

(** The callbacks of the timers [due], and those to insert again. *)
Definition firings (cur : Z) (due : list tseg) : list (loc * Z) := (λ x, (x.1, count_of cur x.2)) <$> due.
Definition repeaters (cur : Z) (due : list tseg) : list tseg :=
  (λ x, (x.1, next_of cur x.2)) <$> filter (λ x : tseg, tm_repeat x.2 = true) due.

Section check.
Implicit Types s : time_realm_state.

Lemma same_env_trans s s' s'' : same_env s s' → same_env s' s'' → same_env s s''.
Proof. unfold same_env. intuition congruence. Qed.

(** Taking the first timer off the list. *)
Lemma runs_take s xs rs p t Q :
  armed s ((p, t) :: xs) → repeating s ((p, t) :: xs) rs →
  (∀ l, armed (with_links l s) xs → repeating (with_links l s) xs rs → unlinked (with_links l s) p t →
    touches s (tr_sorted s :: p :: xs.*1) p (with_links l s) →
    Q (Some (at_head (tr_sorted s) xs.*1)) (with_links l s)) →
  runs (tlnk (list2_erase p)) s Q.
Proof.
  intros H R HQ. destruct (armed_at s [] p t xs H) as [Hp _].
  eapply runs_tlnk; [apply (list2_erase_spec _ (tr_sorted s) [] xs.*1), (ar_list _ _ H)|].
  intros r l (-> & Hl & Hpl & [Ho _]). apply HQ.
  - destruct H as [_ H2 H3]. apply Forall_cons in H3 as [_ H3]. split; [done| |done]. intros q u Hq. apply H2. by right.
  - destruct R as [R1 R2 R3 R4]. split; [|done|done|].
    + eapply dlist_same_out; [exact Ho| |done]. intros x Hx Hi. by apply (R4 x).
    + intros x Hx. apply R4. simpl in *. set_solver.
  - by split.
  - by split.
Qed.

Lemma check_spec cur xs : time_ok cur → ∀ s fuel rs upd Q,
  armed s xs → repeating s xs rs → Forall (λ x : tseg, repeat_ok (ns cur) x.2) xs → (length xs ≤ fuel)%nat →
  (∀ s' due rest upd', xs = due ++ rest → Forall (λ x, trig x ≤ ns cur) due →
    (∀ x, head rest = Some x → ns cur < trig x) →
    armed s' rest → repeating s' rest (rs ++ repeaters (ns cur) due) →
    tr_fired s' = tr_fired s ++ firings (ns cur) due → same_env s s' →
    (∀ p, p ∉ due.*1 → tr_timers s' !! p = tr_timers s !! p) →
    (∀ p t, (p, t) ∈ due → tr_timers s' !! p = Some (next_of (ns cur) t)) →
    Q upd' s') →
  runs (check_loop (λ t, t) (λ t _, t) callback fuel (tr_sorted s) (at_head (tr_sorted s) xs.*1) cur upd) s Q.
Proof.
  intros Hc. induction xs as [|[p t] xs IH]; intros s fuel rs upd Q H R Hro Hf HQ.
  - destruct fuel; simpl; rewrite bool_decide_true by done; step;
      (apply (HQ s [] [] upd); try done; [by rewrite app_nil_r..|by intros ? ? Hi; inversion Hi]).
  - destruct fuel as [|fuel]; [simpl in Hf; lia|]. destruct (armed_at s [] p t xs H) as [Hp Hpt].
    apply Forall_cons in Hro as [Hro1 Hro]. cbn [check_loop]. rewrite fmap_cons. simpl at_head.
    rewrite bool_decide_false by (simpl; exact (at_cons_ne _ _ [] p xs.*1 (ar_list _ _ H))).
    apply runs_bind, runs_zoom; cbv beta. eapply runs_rd_timer; [exact Hp|]. rewrite time_cmp_ns by done. case_test as Hd.
    + apply runs_bind, runs_zoom; cbv beta. eapply runs_take; [exact H|exact R|]. intros l H1 R1 U1 _. step.
      apply runs_bind, runs_zoom; cbv beta. eapply runs_expire; [exact H1|exact R1|exact U1|done|done|lia|done|].
      intros s2 H2 R2 T2 F2 E2 _.
      apply runs_bind. unfold callback at 1. step. set (s3 := TR _ _ _ _ _ _ _ _ _ _ _).
      assert (armed s3 xs) as H3 by (destruct H2; by split).
      assert (repeating s3 xs (rs ++ if tm_repeat t then [(p, next_of (ns cur) t)] else [])) as R3 by (destruct R2; by split).
      assert (tr_sorted s = tr_sorted s3) as Es by (symmetry; apply E2). rewrite Es.
      assert (p ∉ xs.*1) as Hni.
      { pose proof (ar_list _ _ H) as Hl. rewrite fmap_cons in Hl. apply dlist_nodup, NoDup_cons in Hl as [_ Hl].
        by apply NoDup_cons in Hl as [? _]. }
      eapply (IH s3 fuel); [exact H3|exact R3|done|simpl in Hf; lia|].
      intros s' due rest upd' -> Hdue Hrest H' R' F' E' Tn Td.
      apply (HQ s' ((p, t) :: due) rest upd'); [done|constructor; [unfold trig; simpl; lia|done]|done|done| | | | |].
      * unfold repeaters. rewrite filter_cons. cbn [snd]. rewrite <- app_assoc in R'.
        destruct (tm_repeat t) eqn:Er; [rewrite decide_True by done|rewrite decide_False by done]; exact R'.
      * rewrite F'. simpl. rewrite F2. simpl. by rewrite <- app_assoc.
      * eapply same_env_trans; [|exact E']. exact E2.
      * intros q Hq. rewrite fmap_cons, not_elem_of_cons in Hq. destruct Hq as [Hq1 Hq2]. rewrite Tn by done.
        simpl in *. rewrite T2. simpl. rewrite lookup_insert_ne by congruence. done.
      * intros q u Hq. apply elem_of_cons in Hq as [[= -> ->]|Hq]; [|by apply Td]. rewrite Tn.
        -- simpl. rewrite T2. by simplify_map_eq.
        -- rewrite fmap_app in Hni. set_solver.
    + step. apply (HQ s [] ((p, t) :: xs) upd); try done.
      * intros x [= <-]. unfold trig. simpl. lia.
      * by rewrite app_nil_r.
      * by rewrite app_nil_r.
      * intros ? ? Hi. by inversion Hi.
Qed.

Lemma reinsert_spec rs : ∀ s xs fuel Q,
  armed s xs → repeating s xs rs → StronglySorted le_trigger xs → (length rs ≤ fuel)%nat →
  (∀ l xs', armed (with_links l s) xs' → StronglySorted le_trigger xs' → xs' ≡ₚ rs ++ xs →
    same_out (tr_repeat s :: tr_sorted s :: rs.*1 ++ xs.*1) (tr_links s) l → Q tt (with_links l s)) →
  runs (reinsert_loop fuel (tr_repeat s) (at_head (tr_repeat s) rs.*1)) s Q.
Proof.
  induction rs as [|[p t] rs IH]; intros s xs fuel Q H R Hs Hf HQ.
  - destruct fuel; simpl; rewrite bool_decide_true by done; unfold skip; step;
      rewrite <- (with_links_id s); (eapply HQ; [by rewrite with_links_id|exact Hs|done|done]).
  - destruct fuel as [|fuel]; [simpl in Hf; lia|]. cbn [reinsert_loop]. rewrite fmap_cons. simpl at_head.
    pose proof (rp_list _ _ _ R) as Hl. rewrite fmap_cons in Hl. simpl in Hl.
    rewrite bool_decide_false by (simpl; exact (at_cons_ne _ _ [] p rs.*1 Hl)).
    apply runs_bind. eapply runs_tlnk; [apply (list2_erase_spec _ (tr_repeat s) [] rs.*1), Hl|].
    intros r l (-> & Hl' & Hpl & [Ho _]). step.
    assert (∀ x, x ∈ tr_sorted s :: xs.*1 → x ∉ tr_repeat s :: [] ++ p :: rs.*1) as Hdj by apply (rp_disj _ _ _ R).
    assert (armed (with_links l s) xs) as H1.
    { destruct H as [A1 A2 A3]. split; try done. by eapply dlist_same_out. }
    assert (unlinked (with_links l s) p t) as U1 by (split; [done|]; apply (rp_timers _ _ _ R); by left).
    apply runs_bind. eapply (runs_timer_insert (with_links l s)); [exact H1|exact U1| |].
    { pose proof (rp_times _ _ _ R) as Ht. by apply Forall_cons in Ht as [Ht _]. }
    intros a b l2 r Exs Ha Hb H2 Ho2. simpl in Ho2.
    assert (p ∉ tr_repeat s :: rs.*1) as Hpn by (eapply dlist_not_in; [exact Hl'|exact Hpl]).
    assert (repeating (with_links l2 s) (a ++ (p, t) :: b) rs) as R2.
    { destruct R as [R1 R2 R3 R4]. apply Forall_cons in R3 as [_ R3]. split; [|intros q u Hq; apply R2; by right|done|].
      - eapply dlist_same_out; [exact Ho2| |exact Hl']. intros x Hx Hi.
        rewrite !elem_of_cons in Hi. destruct Hi as [->|[->|Hi]]; [by apply (Hdj (tr_sorted s)); [left|set_solver]|done|].
        apply (Hdj x); [by right|]. set_solver.
      - intros x Hx. rewrite fmap_app, fmap_cons in Hx. rewrite Exs, fmap_app in Hdj. simpl in *. 
        destruct (decide (x = p)) as [->|]; [done|]. specialize (Hdj x). set_solver. }
    eapply (IH (with_links l2 s)); [exact H2|exact R2| |simpl in Hf; lia|].
    + rewrite Exs in Hs. by apply insert_sorted.
    + intros l3 xs' H3 Hs3 Hp3 Ho3. eapply HQ; [exact H3|exact Hs3|rewrite Hp3, Exs; by rewrite <- !Permutation_middle|].
      simpl in Ho3. rewrite fmap_app, fmap_cons in Ho3. rewrite Exs, fmap_app in *. intros x Hx. simpl in *.
      rewrite (Ho3 x), (Ho2 x), (Ho x); set_solver.
Qed.

(** The end of the check. *)
Lemma runs_finish s rest rs fuel upd Q :
  armed s rest → repeating s rest rs → StronglySorted le_trigger rest → time_ok (now s) → (length rs ≤ fuel)%nat →
  (∀ s' xs', armed s' xs' → StronglySorted le_trigger xs' → xs' ≡ₚ rs ++ rest → tr_timers s' = tr_timers s →
    tr_fired s' = tr_fired s → same_realm s s' →
    same_out (tr_repeat s :: tr_sorted s :: rs.*1 ++ rest.*1) (tr_links s) (tr_links s') → Q true s') →
  runs (empty ← tlnk (list2_empty (tr_repeat s));
        (if negb empty then b ← tlnk (list2_begin (tr_repeat s)); b ← deref b; reinsert_loop fuel (list2_end (tr_repeat s)) b
         else skip);;
        time_realm_update_timer_list upd) s Q.
Proof.
  intros H R Hs Hn Hf HQ. apply runs_bind, runs_tlnk_read.
  eapply runs_mono; [eapply list2_empty_spec, (rp_list _ _ _ R)|]. intros e l [-> ->]. split; [done|].
  assert (∀ l xs', armed (with_links l s) xs' → StronglySorted le_trigger xs' → xs' ≡ₚ rs ++ rest →
    same_out (tr_repeat s :: tr_sorted s :: rs.*1 ++ rest.*1) (tr_links s) l →
    runs (time_realm_update_timer_list upd) (with_links l s) Q) as Hup.
  { intros l xs' H' Hs' Hp Ho. eapply runs_update_list; [exact H'|exact Hn|]. intros s' Ss.
    eapply HQ; [by eapply armed_same|exact Hs'|exact Hp|apply Ss|apply Ss|exact (same_timers_realm _ _ Ss)|].
    destruct Ss as (_ & _ & -> & _). exact Ho. }
  apply runs_bind. case_test as Hx; cbn [negb].
  - apply fmap_nil_inv in Hx as ->. unfold skip. step. rewrite <- (with_links_id s).
    by eapply Hup; [rewrite with_links_id|..].
  - apply runs_bind, runs_tlnk_read.
    eapply (runs_list2_next _ (tr_repeat s)); [by eapply dlist_begin, (rp_list _ _ _ R)|]. split; [done|]. step.
    eapply reinsert_spec; [exact H|exact R|exact Hs|exact Hf|]. intros l xs' H' Hs' Hp Ho. by eapply Hup.
Qed.

(** The start of the check: the list of the repeating timers is empty. *)
Lemma runs_init_repeat s xs Q :
  armed s xs → tr_repeat s ∉ tr_sorted s :: xs.*1 →
  (∀ l, armed (with_links l s) xs → repeating (with_links l s) xs [] →
    same_out [tr_repeat s] (tr_links s) l → Q tt (with_links l s)) →
  runs (tlnk (list2_init (tr_repeat s))) s Q.
Proof.
  intros H Hr HQ. eapply runs_tlnk; [apply list2_init_dlist|]. intros [] l [Hl Ho]. apply HQ.
  - destruct H as [A1 A2 A3]. split; try done. eapply dlist_same_out; [exact Ho| |done]. set_solver.
  - split; [done|by intros ? ? Hi; inversion Hi|done|]. set_solver.
  - done.
Qed.

Lemma sorted_after cur due rest :
  StronglySorted le_trigger (due ++ rest) → (∀ x, head rest = Some x → cur < trig x) →
  StronglySorted le_trigger rest ∧ Forall (λ x, cur < trig x) rest.
Proof.
  intros (_ & _ & Hs)%StronglySorted_app Hh. split; [done|]. destruct rest as [|y rest]; [constructor|].
  specialize (Hh y eq_refl). inversion_clear Hs as [|?? _ Hf]. constructor; [done|].
  eapply Forall_impl; [exact Hf|]. unfold le_trigger. intros; lia.
Qed.

Lemma repeaters_future cur due :
  Forall (λ x : tseg, repeat_ok cur x.2) due → Forall (λ x : tseg, time_ok (tm_trigger_time x.2)) due →
  Forall (λ x, trig x ≤ cur) due → Forall (λ x, cur < trig x) (repeaters cur due).
Proof.
  rewrite !Forall_forall. intros Hr Ht Hd x Hx. unfold repeaters in Hx.
  apply list_elem_of_fmap in Hx as (y & -> & [Hy Hi]%list_elem_of_filter). unfold trig. simpl.
  destruct (next_trigger cur y.2) as (_ & _ & _ & ? & _); [by apply Hr|done|by apply Ht|by apply Hd|done].
Qed.
End check.

(** The realm after a check at the instant of [s]: the timers [due] have fired, those of
    [rest] were not due, [xs'] are armed now. *)
Record checked (s : time_realm_state) (xs due rest xs' : list tseg) (s' : time_realm_state) : Prop := {
  ck_split : xs = due ++ rest;
  ck_due : Forall (λ x, trig x ≤ ns (now s)) due;
  ck_rest : Forall (λ x, ns (now s) < trig x) rest;
  ck_fired : tr_fired s' = tr_fired s ++ firings (ns (now s)) due;
  ck_armed : armed s' xs';
  ck_sorted : StronglySorted le_trigger xs';
  ck_timers : xs' ≡ₚ repeaters (ns (now s)) due ++ rest;
  ck_future : Forall (λ x, ns (now s) < trig x) xs';
  ck_next : ∀ p t, (p, t) ∈ due → tr_timers s' !! p = Some (next_of (ns (now s)) t);
}.

(** The timers of a realm are in order and can be checked. *)
Definition realm_ok (s : time_realm_state) (xs : list tseg) : Prop :=
  armed s xs ∧ StronglySorted le_trigger xs ∧ time_ok (now s) ∧ tr_repeat s ∉ tr_sorted s :: xs.*1 ∧
  Forall (λ x : tseg, repeat_ok (ns (now s)) x.2) xs.

Lemma runs_realm_check s xs Q :
  realm_ok s xs → (∀ s' due rest xs', checked s xs due rest xs' s' → Q true s') → runs _time_realm_check s Q.
Proof.
  intros (H & Hs & Hn & Hrep & Hro) HQ. unfold _time_realm_check, check_timers, realm. set (cur := now s) in *.
  apply runs_bind, runs_zoom; cbv beta. eapply runs_current_time. fold cur. pose proof (same_at_now s) as Sn. pose proof (armed_same _ _ _ Sn H) as H0.
  step. step. apply runs_bind, runs_zoom, runs_tlnk_read; cbv beta.
  eapply (runs_list2_next _ (tr_sorted (at_now s))); [by eapply dlist_begin, (ar_list _ _ H0)|]. split; [done|]. step. step. step.
  set (s1 := with_check false (at_now s)). assert (armed s1 xs) as H1 by (destruct H0; by split).
  change (tr_sorted (at_now s)) with (tr_sorted s1). unfold list2_end.
  destruct xs as [|[p t] xs].
  { simpl. rewrite bool_decide_true by done. step. apply (HQ _ [] [] []).
    split; try done; [by rewrite app_nil_r|]. intros ? ? Hi. by inversion Hi. }
  rewrite fmap_cons. simpl at_head. rewrite bool_decide_false by (exact (at_cons_ne _ _ [] p xs.*1 (ar_list _ _ H1))).
  step. step. change (tr_repeat (at_now s)) with (tr_repeat s1).
  apply runs_bind, runs_zoom; cbv beta. eapply runs_init_repeat; [exact H1|exact Hrep|].
  intros l H2 R2 _. unfold timer_fuel. step. step.
  pose proof (armed_fuel _ _ H2) as Hfu. apply runs_bind.
  eapply (check_spec cur ((p, t) :: xs) Hn (with_links l s1)); [exact H2|exact R2|done|simpl in *; lia|].
  intros s' due rest upd' Exs Hdue Hrest H' R' F' E' Tn Td. rewrite Exs in *.
  destruct (sorted_after _ _ _ Hs Hrest) as [Hsr Hfr]. simpl in R'.
  assert (tr_repeat s1 = tr_repeat s') as Er by (symmetry; apply E'). rewrite Er.
  apply runs_zoom; cbv beta. eapply runs_finish; [exact H'|exact R'|exact Hsr| | |].
  - replace (now s') with cur; [done|]. destruct E' as (_ & _ & Em & Et & Ec & _).
    unfold now. rewrite Em, Et, Ec. simpl. unfold cur, now. by destruct (tr_mode s).
  - unfold repeaters. rewrite length_fmap. etransitivity; [apply length_filter|]. rewrite length_app in Hfu. simpl in *. lia.
  - intros s'' xs' H'' Hs'' Hp'' T'' F'' _ _. apply (HQ _ due rest xs').
    split; try done.
    + by rewrite F'', F'.
    + rewrite Hp''. apply Forall_app. split; [|done]. apply Forall_app in Hro as [Hro _].
      pose proof (ar_times _ _ H) as Ht. apply Forall_app in Ht as [Ht _]. by apply repeaters_future.
    + intros q u Hq. rewrite T''. by apply Td.
Qed.

(** The same after the time of a realm that is driven has moved. *)
Definition moved_to (value : time) (s : time_realm_state) : time_realm_state := with_check true (with_time value s).

Lemma runs_realm_update s value xs Q :
  tr_mode s = TIME_REALM_STATIC → time_cmp value (tr_time s) >= 0 → realm_ok (moved_to value s) xs →
  (∀ s' due rest xs', checked (moved_to value s) xs due rest xs' s' → Q tt s') →
  runs (time_realm_update_and_check value) s Q.
Proof.
  intros Hm Ht Hr HQ. unfold time_realm_update_and_check, update_and_check_timers, realm. step. step. rewrite Hm. step. step. step.
  rewrite bool_decide_false by lia. step. step. step. step. apply runs_bind.
  apply (runs_realm_check (moved_to value s) xs); [exact Hr|]. intros s' due rest xs' Hc. unfold skip. step. by eapply HQ.
Qed.

(** C6 A check of the timers: exactly the timers that are due fire, once each and in
    the order of their trigger times; a timer that does not repeat is disarmed and
    leaves the list; a repeating one fires with the number of its expirations since
    its trigger time and is armed again for its next multiple of the delay, in the
    future; the list stays sorted and holds the timers that were not due and the
    repeating ones, all of them in the future. *)
Theorem time_realm_check_correct s xs :
  armed s xs → StronglySorted le_trigger xs → time_ok (now s) → tr_repeat s ∉ tr_sorted s :: xs.*1 →
  Forall (λ x : tseg, repeat_ok (ns (now s)) x.2) xs →
  runs _time_realm_check s (λ r s', r = true ∧ ∃ due rest xs',
    xs = due ++ rest ∧ Forall (λ x, trig x ≤ ns (now s)) due ∧ Forall (λ x, ns (now s) < trig x) rest ∧
    tr_fired s' = tr_fired s ++ firings (ns (now s)) due ∧
    armed s' xs' ∧ StronglySorted le_trigger xs' ∧ xs' ≡ₚ repeaters (ns (now s)) due ++ rest ∧
    Forall (λ x, ns (now s) < trig x) xs' ∧
    (∀ p t, (p, t) ∈ due → tr_timers s' !! p = Some (next_of (ns (now s)) t))).
Proof.
  intros H Hs Hn Hrep Hro. eapply runs_realm_check; [by refine (conj H (conj Hs (conj Hn (conj Hrep Hro))))|].
  intros s' due rest xs' [C1 C2 C3 C4 C5 C6 C7 C8 C9]. split; [done|]. by exists due, rest, xs'.
Qed.

(** ** Examples *)

(** Timers 3 and 4 in a realm at 10 s: 3 fires once at 4 s, 4 every 2.5 s from 5 s on. *)
Definition ex_t3 : timer := Timer true false (Time 4 0) (Time 4 0).
Definition ex_t4 : timer := Timer true true (Time 5 0) (Time 2 500000000).
Definition ex_rest : timer := Timer false false invalid_time invalid_time.
Definition ex_realm : time_realm_state :=
  TR 1 2
    (list_to_map [(1%positive, Elem (Some 4%positive) (Some 3%positive));
                  (3%positive, Elem (Some 1%positive) (Some 4%positive));
                  (4%positive, Elem (Some 3%positive) (Some 1%positive));
                  (5%positive, Elem None None)])
    (list_to_map [(3%positive, ex_t3); (4%positive, ex_t4); (5%positive, ex_rest)])
    TIME_REALM_STATIC (Time 10 0) false invalid_time None [] None.
Definition ex_armed : list tseg := [(3%positive, ex_t3); (4%positive, ex_t4)].

Lemma ex_realm_armed : armed ex_realm ex_armed.
Proof.
  split.
  - split; [|by vm_compute]. cbn. repeat (constructor; [set_solver|]). constructor.
  - intros p t. unfold ex_armed. rewrite !elem_of_cons, elem_of_nil.
    intros [H|[H|[]]]; simplify_eq; vm_compute; reflexivity.
  - repeat constructor; vm_compute; congruence.
Qed.

Lemma ex_armed_sorted : StronglySorted le_trigger ex_armed.
Proof. repeat constructor; vm_compute; congruence. Qed.

Lemma time_realm_check_correct_witness :
  runs _time_realm_check ex_realm (λ r s', r = true ∧
    ∃ due rest, ex_armed = due ++ rest ∧ tr_fired s' = firings (ns (Time 10 0)) due).
Proof.
  eapply runs_mono; [apply (time_realm_check_correct ex_realm ex_armed)|].
  - exact ex_realm_armed.
  - exact ex_armed_sorted.
  - vm_compute. repeat split; congruence.
  - cbn. set_solver.
  - constructor; [|constructor; [|constructor]]; intros E; vm_compute in E; vm_compute; repeat split; congruence.
  - intros r s' (Hr & due & rest & xs' & E & _ & _ & F & _). split; [exact Hr|]. by exists due, rest.
Defined.

(** The callbacks: timer 4 has expired three times, at 5 s, 7.5 s and 10 s. *)
Example ex_check_fires :
  runs _time_realm_check ex_realm (λ _ s', tr_fired s' = [(3%positive, 1); (4%positive, 3)] ∧
    tr_timers s' !! 4%positive = Some (Timer true true (Time 12 500000000) (Time 2 500000000))).
Proof. eapply runs_eq; [vm_compute; reflexivity|]. by vm_compute. Qed.

Lemma timer_start_correct_witness :
  runs (timer_start 5 (Time 1 0) false) ex_realm (λ r s', r = true ∧ ∃ xs' t,
    armed s' xs' ∧ xs' ≡ₚ (5%positive, t) :: ex_armed ∧ trig (5%positive, t) = 11000000000).
Proof.
  eapply runs_mono; [apply (timer_start_correct ex_realm ex_armed 5 ex_armed (Time 1 0) false)|].
  - exact ex_realm_armed.
  - exact ex_armed_sorted.
  - left. exists ex_rest. split_and!; [split; vm_compute; reflexivity|done|done].
  - vm_compute. repeat split; congruence.
  - vm_compute. repeat split; congruence.
  - by vm_compute.
  - by vm_compute.
  - intros r s' (Hr & _ & xs' & t & H1 & _ & H2 & _ & H3). split; [exact Hr|]. by exists xs', t.
Defined.
