(* ===== verification/Packet.v ===== *)
(** * Packets (lib/haka/packet.c, include/haka/packet.h)

    The packets of the program, over a capture module that the class [CaptureModule]
    gives: reference counts, statistics of the thread, and the network time that the
    packets drive. The module is set and the thread has its capture state; the messages
    of the log and the Lua objects of a packet are left out. *)

From S2P Require Import Prelude Types List2 List VbHeap VbIter VbSub Time Timer Pcap.

(** ** The capture module (include/haka/capture_module.h)

    [S] is the state of the thread that captures, [I] what the system gives to a
    reception. [cm_vb] runs an operation on the buffers and the error of the thread,
    [cm_payload] reads the payload of a packet. *)
Class CaptureModule (S I : Type) := {
  cm_vb : ∀ {A}, VM A → M S A;
  cm_payload : loc → M S vbuffer;
  cm_receive : I → M S (Z * ptr);
  cm_verdict : loc → filter_result → M S unit;
  cm_get_id : loc → M S Z;
  cm_get_dissector : loc → M S (option string);
  cm_release_packet : loc → M S unit;
  cm_packet_getstate : loc → M S packet_status;
  cm_new_packet : time → Z → M S ptr;
  cm_send_packet : loc → M S bool;
  cm_get_mtu : loc → M S Z;
  cm_get_timestamp : loc → M S time;
}.

#[export] Instance pcap_module : CaptureModule capture_state input := {
  cm_vb := λ A, Pcap.on_vb;
  cm_payload := λ p, pkt ← rd_packet p; ret (pp_payload pkt);
  cm_receive := packet_do_receive;
  cm_verdict := packet_verdict;
  cm_get_id := packet_get_id;
  cm_get_dissector := packet_get_dissector;
  cm_release_packet := packet_do_release;
  cm_packet_getstate := packet_getstate;
  cm_new_packet := new_packet;
  cm_send_packet := send_packet;
  cm_get_mtu := get_mtu;
  cm_get_timestamp := get_timestamp;
}.

(** ** State *)

Record packet_stats := Stats {
  recv_packets : Z;
  recv_bytes : Z;
  trans_bytes : Z;
  trans_packets : Z;
  drop_packets : Z;
}.

Inductive capture_mode_t := MODE_NORMAL | MODE_PASSTHROUGH.

Record netstate (S : Type) := Net {
  nt_module : S;
  nt_refs : gmap loc Z;
  nt_stats : option packet_stats;
  nt_realm : time_realm_state;
  nt_realtime : bool;
  nt_mode : capture_mode_t;
}.
Arguments Net {S}.
Arguments nt_module {S}.
Arguments nt_refs {S}.
Arguments nt_stats {S}.
Arguments nt_realm {S}.
Arguments nt_realtime {S}.
Arguments nt_mode {S}.

Section packet.
Context {S I : Type} {C : CaptureModule S I}.
Abbreviation NM := (M (netstate S)).

Definition set_nmodule (m : S) (n : netstate S) : netstate S :=
  Net m (nt_refs n) (nt_stats n) (nt_realm n) (nt_realtime n) (nt_mode n).
Definition set_refs (r : gmap loc Z) (n : netstate S) : netstate S :=
  Net (nt_module n) r (nt_stats n) (nt_realm n) (nt_realtime n) (nt_mode n).
Definition set_stats (st : option packet_stats) (n : netstate S) : netstate S :=
  Net (nt_module n) (nt_refs n) st (nt_realm n) (nt_realtime n) (nt_mode n).
Definition set_nrealm (t : time_realm_state) (n : netstate S) : netstate S :=
  Net (nt_module n) (nt_refs n) (nt_stats n) t (nt_realtime n) (nt_mode n).

Definition md {A} (m : M S A) : NM A := zoom nt_module set_nmodule m.
Definition on_time {A} (m : TM A) : NM A := zoom nt_realm set_nrealm m.

Definition rd_ref (p : loc) : NM Z := o ← gets (λ n, nt_refs n !! p); deref o.
Definition wr_ref (p : loc) (r : Z) : NM unit := modify (λ n, set_refs (<[p := r]> (nt_refs n)) n).
(** The counters of the thread, when it is one of the engine. *)
Definition count_stats (f : packet_stats → packet_stats) : NM unit :=
  modify (λ n, set_stats (f <$> nt_stats n) n).
Definition has_stats : NM bool := gets (λ n, negb (is_null (nt_stats n))).

Definition add_recv (size : Z) (st : packet_stats) : packet_stats :=
  Stats (u64 (recv_packets st + 1)) (u64 (recv_bytes st + size)) (trans_bytes st) (trans_packets st) (drop_packets st).
Definition add_trans (size : Z) (st : packet_stats) : packet_stats :=
  Stats (recv_packets st) (recv_bytes st) (u64 (trans_bytes st + size)) (u64 (trans_packets st + 1)) (drop_packets st).
Definition add_drop (st : packet_stats) : packet_stats :=
  Stats (recv_packets st) (recv_bytes st) (trans_bytes st) (trans_packets st) (u64 (drop_packets st + 1)).

(** ** Operations *)

Definition packet_dissector (pkt : loc) : NM (option string) := md (cm_get_dissector pkt).

Definition packet_payload (pkt : loc) : NM vbuffer :=
  b ← md (cm_payload pkt); c_assert (vbuffer_isvalid b);; ret b.

(** [vbuffer_size(packet_payload(pkt))] into the counters. *)
Definition count_bytes (pkt : loc) (f : Z → packet_stats → packet_stats) : NM unit :=
  st ← has_stats;
  if st : bool then
    b ← packet_payload pkt;
    size ← md (cm_vb (vbuffer_size b));
    count_stats (f size)
  else skip.

(** A new reference count, for a packet that has just been made. *)
Definition packet_start (pkt : loc) : NM unit :=
  wr_ref pkt 1;;
  b ← md (cm_payload pkt);
  c_assert (vbuffer_isvalid b).

Definition packet_receive (inp : I) : NM (Z * ptr) :=
  '(r, pkt) ← md (cm_receive inp);
  (match pkt with
   | Some p => if bool_decide (r = 0) then packet_start p;; count_bytes p add_recv else skip
   | None => skip
   end);;
  realtime ← gets nt_realtime;
  (match pkt with
   | Some p =>
       if realtime : bool then _ ← on_time time_realm_check; skip
       else t ← md (cm_get_timestamp p); on_time (time_realm_update_and_check t)
   | None => _ ← on_time time_realm_check; skip
   end);;
  ret (r, pkt).

Definition packet_drop (pkt : loc) : NM unit :=
  md (cm_verdict pkt FILTER_DROP);; count_stats add_drop.

Definition packet_accept (pkt : loc) : NM unit :=
  count_bytes pkt add_trans;; md (cm_verdict pkt FILTER_ACCEPT).

Definition packet_addref (pkt : loc) : NM unit := r ← rd_ref pkt; wr_ref pkt (u32 (r + 1)).

(** The module frees the packet with its count. *)
Definition packet_release (pkt : loc) : NM bool :=
  r ← rd_ref pkt;
  let r := u32 (r - 1) in
  wr_ref pkt r;;
  if bool_decide (r = 0) then
    md (cm_release_packet pkt);;
    modify (λ n, set_refs (delete pkt (nt_refs n)) n);;
    ret true
  else ret false.

Definition packet_new (now : time) (size : Z) : NM ptr :=
  pkt ← md (cm_new_packet now size);
  match pkt with
  | None => e ← md (cm_vb check_error); c_assert e;; ret None
  | Some p => packet_start p;; ret (Some p)
  end.

Definition packet_state (pkt : loc) : NM packet_status := md (cm_packet_getstate pkt).

Definition packet_send (pkt : loc) : NM bool :=
  st ← packet_state pkt;
  match st with
  | STATUS_FORGED => count_bytes pkt add_trans;; md (cm_send_packet pkt)
  | STATUS_NORMAL | STATUS_SENT => md (cm_vb (error "operation not supported (packet captured)"));; ret false
  end.

Definition packet_mtu (pkt : loc) : NM Z := md (cm_get_mtu pkt).
Definition packet_timestamp (pkt : loc) : NM time := md (cm_get_timestamp pkt).
Definition packet_id (pkt : loc) : NM Z := md (cm_get_id pkt).

Definition capture_set_mode (mode : capture_mode_t) : NM unit :=
  modify (λ n, Net (nt_module n) (nt_refs n) (nt_stats n) (nt_realm n) (nt_realtime n) mode).
Definition capture_mode : NM capture_mode_t := gets nt_mode.
End packet.
