(* ===== verification/PacketSpec.v ===== *)
(** * The life of a packet (lib/haka/packet.c)

    Reference counts over any capture module, and the way of a frame from the capture
    to the output file over the pcap module: reception, timers, statistics, acceptance
    and release. *)

From S2P Require Import Prelude Types List2 List VbHeap VbIter VbSub VbRep VbWalk VbFrame VbMut VbMake VbRead VbSelect VbSelectSpec VbSpec VbExtract VbFlat Time Timer TimerSpec Pcap PcapSpec PcapCapture PcapQueue Packet.

(** ** Reference counts *)

Inductive ref_op := AddRef | Release.

(** What the releases answer and the count at the end, from [r] references; [None] when
    the count is left or the packet is used after its last release. *)
Fixpoint count_refs (ops : list ref_op) (r : Z) : option (list bool * Z) :=
  match ops with
  | [] => Some ([], r)
  | AddRef :: ops => if bool_decide (r + 1 < 2 ^ 32) then count_refs ops (r + 1) else None
  | Release :: ops =>
      if bool_decide (r = 1) then match ops with [] => Some ([true], 0) | _ => None end
      else prod_map (cons false) id <$> count_refs ops (r - 1)
  end.

Section refs.
Context {S I : Type} {C : CaptureModule S I}.

Fixpoint exec_refs (pkt : loc) (ops : list ref_op) : M (netstate S) (list bool) :=
  match ops with
  | [] => ret []
  | AddRef :: ops => packet_addref pkt;; exec_refs pkt ops
  | Release :: ops => b ← packet_release pkt; l ← exec_refs pkt ops; ret (b :: l)
  end.

Lemma runs_rd_ref (n : netstate S) p r Q : nt_refs n !! p = Some r → Q r n → runs (rd_ref p) n Q.
Proof. intros H HQ. unfold rd_ref. step. rewrite H. by step. Qed.

Lemma runs_wr_ref (n : netstate S) p r Q : Q tt (set_refs (<[p := r]> (nt_refs n)) n) → runs (wr_ref p r) n Q.
Proof. intros HQ. unfold wr_ref. by step. Qed.

Lemma runs_md {A} (m : M S A) (n : netstate S) Q :
  runs m (nt_module n) (λ a x, Q a (set_nmodule x n)) → runs (md m) n Q.
Proof. apply runs_zoom. Qed.

(** For any capture module, a packet is given back to the module exactly once, by the
    release of its last reference, whatever references are taken and released before;
    each release tells whether it was the last one, and nothing but the count changes
    until then. *)
Theorem packet_released_once pkt ops : ∀ (n : netstate S) r bs r' (R : S → Prop),
  nt_refs n !! pkt = Some r → 0 < r < 2 ^ 32 → count_refs ops r = Some (bs, r') →
  (r' = 0 → runs (cm_release_packet pkt) (nt_module n) (λ _ m, R m)) →
  runs (exec_refs pkt ops) n (λ b n', b = bs ∧
    if bool_decide (r' = 0)
    then R (nt_module n') ∧ n' = set_refs (delete pkt (nt_refs n)) (set_nmodule (nt_module n') n)
    else n' = set_refs (<[pkt := r']> (nt_refs n)) n).
Proof.
  induction ops as [|[|] ops IH]; intros n r bs r' R Hp Hr Hc HR; simpl in *.
  - injection Hc as <- <-. step. split; [done|]. rewrite bool_decide_false by lia. rewrite insert_id by done. by destruct n.
  - case_bool_decide as Hlt; [|done]. unfold packet_addref. apply runs_bind. call runs_rd_ref; [exact Hp|].
    apply runs_wr_ref. rewrite u32_small by lia.
    eapply runs_mono; [eapply (IH _ (r + 1) bs r' R); [apply lookup_insert_eq|lia|exact Hc|exact HR]|].
    simpl. intros b n' [-> Hn]. split; [done|].
    case_bool_decide; [by rewrite delete_insert_eq in Hn|by rewrite insert_insert_eq in Hn].
  - unfold packet_release. apply runs_bind. call runs_rd_ref; [exact Hp|]. rewrite u32_small by lia. call runs_wr_ref.
    destruct (decide (r = 1)) as [->|Hne].
    + rewrite (bool_decide_true (1 = 1)) in Hc by done. destruct ops; [|done]. injection Hc as <- <-.
      rewrite (bool_decide_true (1 - 1 = 0)) by done. apply runs_bind, runs_md. eapply runs_mono; [by apply HR|].
      intros [] m Hm. simpl in Hm |- *. step. step. step. step. split; [done|]. simpl. rewrite delete_insert_eq. done.
    + rewrite bool_decide_false in Hc by done. destruct (count_refs ops (r - 1)) as [[bs0 r0]|] eqn:Ec; [|done].
      injection Hc as <- <-. rewrite bool_decide_false by lia. step.
      eapply runs_seq; [eapply (IH _ (r - 1) bs0 r0 R); [apply lookup_insert_eq|lia|exact Ec|exact HR]|].
      simpl. intros b n' [-> Hn]. step. split; [done|].
      case_bool_decide; [by rewrite delete_insert_eq in Hn|by rewrite insert_insert_eq in Hn].
Qed.
End refs.

(** ** A frame from the capture to the output file *)

Section life.
Implicit Types n : netstate capture_state.

Ltac net := cbn [nt_module nt_refs nt_stats nt_realm nt_realtime nt_mode set_nmodule set_refs set_stats set_nrealm].

(** The bytes of the payload are added to the counters. *)
Lemma runs_count_bytes n p pk e m f Q :
  ca_packets (nt_module n) !! p = Some pk → pp_payload pk = Some e → buf_rep (ca_vb (nt_module n)) e m →
  Q tt (set_stats (f (csize m) <$> nt_stats n) n) → runs (count_bytes p f) n Q.
Proof.
  intros Hp Ee Hm HQ. unfold count_bytes, has_stats. step. destruct (nt_stats n) as [st|] eqn:Es; cbn [is_null negb].
  - unfold packet_payload. apply runs_bind, runs_bind, runs_md. cbn [cm_payload pcap_module].
    call runs_rd_packet; [exact Hp|]. step. rewrite Ee. step. step. apply runs_bind, runs_md. cbn [cm_vb pcap_module].
    apply runs_cap_vb. net. eapply runs_size; [exact Hm|]. unfold count_stats. step. net. rewrite Es.
    destruct n as [[] ? ? ? ? ?]. exact HQ.
  - unfold skip. step. destruct n as [? ? o ? ? ?]. simpl in Es. subst o. exact HQ.
Qed.

(** The release of a packet after its verdict. *)
Lemma runs_release_closed (s : capture_state) p h pk Q :
  ca_packets s !! p = Some (closed_packet h pk) →
  Q tt (set_ca_sent (set_llinks (delete p (ls_links (ca_sent s))) (ca_sent s)) (set_ca_packets (delete p (ca_packets s)) s)) →
  runs (packet_do_release p) s Q.
Proof.
  intros Hp HQ. unfold packet_do_release. call runs_rd_packet; [exact Hp|]. cbn [vbuffer_isvalid pp_data closed_packet set_pp_data is_null negb].
  unfold skip. step. call runs_rd_packet; [exact Hp|]. unfold vbuffer_release, vbuffer_clear.
  apply runs_bind, runs_cap_vb. cbn [pp_payload closed_packet set_pp_data set_pp_header set_pp_payload]. step.
  apply runs_bind, runs_cap_vb. cbn [pp_data closed_packet set_pp_data]. step. unfold free_packet. step. by destruct s.
Qed.
(** Where the capture and the timers stand before a reception. *)
Record expecting n inp i pd header bytes xs : Prop := {
  xp_module : delivers (nt_module n) inp i pd header bytes;
  xp_heap : heap_ok (ca_vb (nt_module n));
  xp_mem : (9 ≤ vb_mem (ca_vb (nt_module n)))%nat;
  xp_protocol : 0 ≤ (link_protocol (pd_link_type pd) (ztake (caplen header) bytes)).1;
  xp_static : nt_realtime n = false ∧ tr_mode (nt_realm n) = TIME_REALM_STATIC;
  xp_time : time_cmp (Time (tv_sec header) (u32 (tv_usec header * 1000))) (tr_time (nt_realm n)) >= 0;
  xp_realm : realm_ok (moved_to (Time (tv_sec header) (u32 (tv_usec header * 1000))) (nt_realm n)) xs;
}.

Lemma runs_packet_receive n inp i pd header bytes xs Q :
  expecting n inp i pd header bytes xs →
  let bs := ztake (caplen header) bytes in
  (∀ n1 p e a m b e' cm mk due rest xs',
     received (nt_module n) header bs (pd_link_type pd) (nt_module n1) p e a m b e' cm mk →
     checked (moved_to (Time (tv_sec header) (u32 (tv_usec header * 1000))) (nt_realm n)) xs due rest xs' (nt_realm n1) →
     nt_refs n1 = <[p := 1]> (nt_refs n) → nt_stats n1 = add_recv (csize m) <$> nt_stats n →
     Q (0, Some p) n1) →
  runs (packet_receive inp) n Q.
Proof.
  intros [X1 X2 X3 X4 [X5 X6] X7 X8] bs HQ. unfold packet_receive. apply runs_bind, runs_md.
  eapply runs_do_receive; [exact X1|done|done|exact X4|]. fold bs. intros s1 p e a m b e' cm mk R.
  set (pk := set_pp_payload (Some e') (Iter (Some cm) 0 0 false) (new_capture (nt_module n) header e (pd_link_type pd))).
  assert (ca_packets s1 !! p = Some pk) as Hp by (rewrite (rc_packets _ _ _ _ _ _ _ _ _ _ _ _ _ R); apply lookup_insert_eq).
  rewrite bool_decide_true by done. unfold packet_start. apply runs_bind, runs_bind, runs_bind, runs_wr_ref.
  apply runs_bind, runs_md. net. cbn [cm_payload pcap_module]. call runs_rd_packet; [exact Hp|]. step. step.
  eapply (runs_count_bytes _ p pk e' m); [exact Hp|done|apply R|]. step. net. rewrite X5. apply runs_bind.
  apply runs_bind, runs_md. cbn [cm_get_timestamp pcap_module]. unfold get_timestamp. call runs_rd_packet; [exact Hp|]. step.
  cbn [pp_timestamp pk set_pp_payload new_capture]. unfold on_time. step. net.
  eapply (runs_realm_update (nt_realm n)); [done|exact X7|exact X8|]. intros t due rest xs' Hc. step.
  eapply (HQ _ p e a m b e' cm mk due rest xs'); [exact R|exact Hc|done|done].
Qed.

(** C19 The life of a frame over the pcap module: its reception makes a packet with one
    reference whose bytes are counted, moves the network time to the time of the frame
    and fires exactly the timers that are due by then, in order. When it is accepted
    and released it is in the output file byte for byte, counted as transmitted with the
    same number of bytes, and gone: the release frees it, no other packet, reference or
    buffer is touched, the heap is well formed and no error is raised. *)
Theorem packet_life_correct n inp i pd header bytes xs d st :
  expecting n inp i pd header bytes xs → ca_pout (nt_module n) = Some d → nt_stats n = Some st →
  let bs := ztake (caplen header) bytes in
  let k := zlen bs - (link_protocol (pd_link_type pd) bs).2 in
  let t := Time (tv_sec header) (u32 (tv_usec header * 1000)) in
  runs (packet_receive inp) n (λ r n1, ∃ p due rest,
    r = (0, Some p) ∧ nt_refs n1 = <[p := 1]> (nt_refs n) ∧ nt_stats n1 = Some (add_recv k st) ∧
    xs = due ++ rest ∧ Forall (λ x, trig x ≤ ns t) due ∧ Forall (λ x, ns t < trig x) rest ∧
    tr_fired (nt_realm n1) = tr_fired (nt_realm n) ++ firings (ns t) due ∧
    runs (packet_accept p;; packet_release p) n1 (λ last n2,
      last = true ∧ ca_pout (nt_module n2) = Some (d ++ [(header, bs)]) ∧
      nt_stats n2 = Some (add_trans k (add_recv k st)) ∧
      nt_refs n2 = delete p (nt_refs n) ∧ ca_packets (nt_module n2) = delete p (ca_packets (nt_module n)) ∧
      heap_ok (ca_vb (nt_module n2)) ∧ other_buffers (ca_vb (nt_module n)) [] (ca_vb (nt_module n2)) ∧
      vb_error (ca_vb (nt_module n2)) = vb_error (ca_vb (nt_module n)))).
Proof.
  intros X Hd Hst bs k t. eapply runs_packet_receive; [exact X|]. fold bs t.
  intros n1 p e a m b e' cm mk due rest xs' R [C1 C2 C3 C4 _ _ _ _ _] Hr Hs. exists p, due, rest.
  pose proof (xp_static _ _ _ _ _ _ _ X) as [_ Em].
  assert (now (moved_to t (nt_realm n)) = t) as En by (unfold now, moved_to; simpl; by rewrite Em). rewrite En in *.
  destruct R as [R1 R2 R3 R4 R5 R6 R7 R8 R9 R10 R11 R12 R13 R14 R15].
  set (pk := set_pp_payload _ _ _) in *. set (off := (link_protocol (pd_link_type pd) bs).2) in *.
  pose proof (xp_module _ _ _ _ _ _ _ X) as D. pose proof (dv_bytes _ _ _ _ _ _ D) as (D1 & _). pose proof (dv_caplen _ _ _ _ _ _ D) as D2.
  assert (zlen bs = caplen header) as El by (apply zlen_ztake; lia).
  assert (csize m = k) as Ek.
  { rewrite <- (br_len _ _ _ (hd_part _ _ _ _ _ _ _ _ _ R3)), R5. apply zlen_zdrop.
    apply link_protocol_off. pose proof (xp_protocol _ _ _ _ _ _ _ X). fold bs in H. lia. }
  assert (ca_packets (nt_module n1) !! p = Some pk) as Hp by (rewrite R2; apply lookup_insert_eq).
  assert (content (ca_vb (nt_module n1)) (a ++ m ++ b) = bs) as Ebs.
  { rewrite !content_app, R4, R5, R6, app_nil_r. apply ztake_zdrop. }
  rewrite Hst in Hs. simpl in Hs. rewrite Ek in Hs.
  split_and!; [done|done|done|done|done|done|exact C4|]. unfold packet_accept. apply runs_bind, runs_bind.
  eapply (runs_count_bytes _ p pk e' m); [exact Hp|done|apply R3|]. rewrite Hs, Ek. apply runs_md. net. cbn [cm_verdict pcap_module].
  eapply (runs_accept (nt_module n1) p pk); [exact Hp|exact R3|by left|rewrite R13; exact Hd| |].
  { rewrite Ebs. intros E. rewrite E in El. unfold zlen in El. simpl in El. lia. }
  rewrite Ebs. assert (dump_header (pp_header pk) (zlen bs) = header) as ->.
  { unfold dump_header. rewrite bool_decide_true; [done|]. by rewrite El. }
  intros s2 [J1 J2 J3 J4 J5 J6 J7 J8 J9]. unfold packet_release. call runs_rd_ref; [net; by rewrite Hr, lookup_insert_eq|].
  call runs_wr_ref. rewrite bool_decide_true by done. apply runs_bind, runs_md. net. cbn [cm_release_packet pcap_module].
  eapply runs_release_closed; [rewrite J4; apply lookup_insert_eq|]. step. step. net.
  split_and!; try done.
  - tidy. rewrite J5, R13, Hd. done.
  - rewrite Hr, insert_insert_eq, delete_insert_eq. done.
  - tidy. by rewrite J4, R2, insert_insert_eq, delete_insert_eq.
  - intros e0 cs0 _ H0. destruct (R8 e0 cs0 ltac:(set_solver) H0) as [H1 <-]. apply J2; [|done].
    pose proof (br_fresh _ _ _ e0 (xp_heap _ _ _ _ _ _ _ X) H0 ltac:(by left)). intros Hi. destruct R9. set_unfold.
    destruct Hi as [->|[->|[]]]; lia.
  - tidy. congruence.
Qed.
End life.

(** ** Witnesses and computations *)

(** The capture of the examples with the timers of TimerSpec. *)
Definition ex_net : netstate capture_state := Net ex_capture ∅ (Some (Stats 0 0 0 0 0)) ex_realm false MODE_NORMAL.

Lemma ex_expecting : expecting ex_net ex_input 0 ex_device ex_frame_header ex_frame ex_armed.
Proof.
  split; [apply ex_delivers|apply ex_capture_heap|simpl; lia|by vm_compute|done|by vm_compute|].
  split_and!; [destruct ex_realm_armed; by split|exact ex_armed_sorted|vm_compute; repeat split; congruence|cbn; set_solver|].
  constructor; [|constructor; [|constructor]]; intros E; vm_compute in E; vm_compute; repeat split; congruence.
Qed.

Lemma packet_life_correct_witness :
  runs (packet_receive ex_input) ex_net (λ r n1, ∃ p, r = (0, Some p) ∧ nt_stats n1 = Some (Stats 1 3 0 0 0) ∧
    runs (packet_accept p;; packet_release p) n1 (λ last n2,
      last = true ∧ ca_pout (nt_module n2) = Some [(ex_frame_header, ex_frame)] ∧
      nt_stats n2 = Some (Stats 1 3 3 1 0) ∧ nt_refs n2 = delete p ∅)).
Proof.
  eapply runs_mono; [apply (packet_life_correct ex_net ex_input 0 ex_device ex_frame_header ex_frame ex_armed [] (Stats 0 0 0 0 0))|].
  - apply ex_expecting.
  - reflexivity.
  - reflexivity.
  - intros r n1 (p & due & rest & -> & _ & Hs & _ & _ & _ & _ & Hv). exists p. split_and!; [done|exact Hs|].
    eapply runs_mono; [exact Hv|]. intros l n2 (-> & Ho & Ht & Hr & _). split_and!; [done|exact Ho|exact Ht|exact Hr].
Defined.

Definition ex_shared : netstate capture_state := Net ex_queue {[1%positive := 1]} None ex_realm false MODE_NORMAL.

Lemma packet_released_once_witness :
  runs (exec_refs 1 [AddRef; Release; AddRef; AddRef; Release; Release]) ex_shared (λ b n',
    b = [false; false; false] ∧ n' = ex_shared).
Proof.
  eapply runs_mono; [apply (packet_released_once (S := capture_state) 1 _ ex_shared 1 [false; false; false] 1 (λ _, True))|].
  - reflexivity.
  - done.
  - by vm_compute.
  - done.
  - intros b n' [-> Hn]. split; [done|]. rewrite bool_decide_false in Hn by done. rewrite Hn. reflexivity.
Defined.

(** Outside the intended domain: a packet in the queue of sent packets is not counted as
    referred to by the queue. The release of the last reference of its maker frees it and
    the next reception reads it. *)
Theorem released_in_queue_dangles :
  (pkt ← packet_new (Time 0 0) 10; p ← deref pkt; _ ← packet_send p; _ ← packet_release p; packet_receive ex_input) ex_net = None.
Proof. by vm_compute. Qed.

(** When it is still held its count is set back to one by the reception. *)
Theorem received_count_reset :
  fst <$> (pkt ← packet_new (Time 0 0) 10; p ← deref pkt; _ ← packet_send p; _ ← packet_addref p;
           before ← rd_ref p; _ ← packet_receive ex_input; after ← rd_ref p; ret (before, after)) ex_net = Some (2, 1).
Proof. by vm_compute. Qed.
