(* ===== verification/Module.v ===== *)
(** * Modules (lib/haka/module.c, alert_module.c, log_module.c, regexp_module.c, packet.c)

    A module is the structure [HAKA_MODULE] of a shared library. It is found through a
    list of paths, initialised by its first load and cleaned up by the release of its
    last reference. Clients keep it as a more specific structure (a capture, alert, log
    or regular expression module) after a test of its type.

    The dynamic loader, the variables of the build and the functions of the modules are
    arguments: [dlopen] says which library is at a path, [image] what structure it has,
    [init] what its initialisation answers, [make] the alerter or the logger that a module
    makes. *)

From Stdlib Require Import Ascii.
From S2P Require Import Prelude Timer.

(** ** Data *)

Inductive module_type := MODULE_UNKNOWN | MODULE_CAPTURE | MODULE_LOG | MODULE_ALERT | MODULE_REGEXP | MODULE_EXTENSION.

#[export] Instance module_type_eq_dec : EqDecision module_type.
Proof. solve_decision. Defined.

Record module := Mod {
  mo_type : module_type;
  mo_name : string;
  mo_api_version : Z;
  mo_ref : Z;
}.

Inductive module_event := Initialized (p : loc) | Cleaned (p : loc).

(** The libraries that are mapped with the number of their handles, the paths of the
    Lua and C modules, the capture module with its network time, the alerters and
    loggers that modules made. *)
Record modstate := MS {
  ms_modules : gmap loc module;
  ms_handles : gmap loc Z;
  ms_path : option string;
  ms_cpath : option string;
  ms_capture : ptr;
  ms_network_time : option time_realm_mode;
  ms_realtime : bool;
  ms_alerters : list (loc * loc);
  ms_loggers : list (loc * loc);
  ms_events : list module_event;
  ms_error : option string;
  ms_mem : nat;
}.

Abbreviation DM := (M modstate).

Definition set_modules (m : gmap loc module) (s : modstate) : modstate :=
  MS m (ms_handles s) (ms_path s) (ms_cpath s) (ms_capture s) (ms_network_time s) (ms_realtime s) (ms_alerters s) (ms_loggers s) (ms_events s) (ms_error s) (ms_mem s).
Definition set_handles (h : gmap loc Z) (s : modstate) : modstate :=
  MS (ms_modules s) h (ms_path s) (ms_cpath s) (ms_capture s) (ms_network_time s) (ms_realtime s) (ms_alerters s) (ms_loggers s) (ms_events s) (ms_error s) (ms_mem s).
Definition set_mpath (c : bool) (p : option string) (s : modstate) : modstate :=
  MS (ms_modules s) (ms_handles s) (if c then ms_path s else p) (if c then p else ms_cpath s) (ms_capture s) (ms_network_time s) (ms_realtime s) (ms_alerters s) (ms_loggers s) (ms_events s) (ms_error s) (ms_mem s).
Definition set_capture (p : ptr) (t : option time_realm_mode) (r : bool) (s : modstate) : modstate :=
  MS (ms_modules s) (ms_handles s) (ms_path s) (ms_cpath s) p t r (ms_alerters s) (ms_loggers s) (ms_events s) (ms_error s) (ms_mem s).
Definition set_alerters (l : list (loc * loc)) (s : modstate) : modstate :=
  MS (ms_modules s) (ms_handles s) (ms_path s) (ms_cpath s) (ms_capture s) (ms_network_time s) (ms_realtime s) l (ms_loggers s) (ms_events s) (ms_error s) (ms_mem s).
Definition set_loggers (l : list (loc * loc)) (s : modstate) : modstate :=
  MS (ms_modules s) (ms_handles s) (ms_path s) (ms_cpath s) (ms_capture s) (ms_network_time s) (ms_realtime s) (ms_alerters s) l (ms_events s) (ms_error s) (ms_mem s).
Definition set_events (l : list module_event) (s : modstate) : modstate :=
  MS (ms_modules s) (ms_handles s) (ms_path s) (ms_cpath s) (ms_capture s) (ms_network_time s) (ms_realtime s) (ms_alerters s) (ms_loggers s) l (ms_error s) (ms_mem s).
Definition set_mod_error (e : option string) (s : modstate) : modstate :=
  MS (ms_modules s) (ms_handles s) (ms_path s) (ms_cpath s) (ms_capture s) (ms_network_time s) (ms_realtime s) (ms_alerters s) (ms_loggers s) (ms_events s) e (ms_mem s).
Definition set_mod_mem (n : nat) (s : modstate) : modstate :=
  MS (ms_modules s) (ms_handles s) (ms_path s) (ms_cpath s) (ms_capture s) (ms_network_time s) (ms_realtime s) (ms_alerters s) (ms_loggers s) (ms_events s) (ms_error s) n.

(** The first error of the thread is kept. *)
Definition mod_error (msg : string) : DM unit :=
  modify (λ s, set_mod_error (Some (default msg (ms_error s))) s).
Definition mod_malloc : DM bool :=
  n ← gets ms_mem;
  match n with O => ret false | S n => modify (set_mod_mem n);; ret true end.
Definition rd_module (p : loc) : DM module := o ← gets (λ s, ms_modules s !! p); deref o.
Definition wr_module (p : loc) (m : module) : DM unit := modify (λ s, set_modules (<[p := m]> (ms_modules s)) s).
Definition set_ref_count (r : Z) (m : module) : module := Mod (mo_type m) (mo_name m) (mo_api_version m) r.
Definition happened (e : module_event) : DM unit := modify (λ s, set_events (ms_events s ++ [e]) s).

(** ** Paths *)

(** [strchr(path, '*')]: what is before the star and behind it. *)
Fixpoint find_star (path : string) : option (string * string) :=
  match path with
  | EmptyString => None
  | String c rest =>
      if bool_decide (c = "*"%char) then Some (EmptyString, rest)
      else match find_star rest with Some (a, b) => Some (String c a, b) | None => None end
  end.

Definition module_set_path (path : string) (c : bool) : DM unit :=
  if negb (is_null (find_star path)) then
    modify (set_mpath c None);;
    ok ← mod_malloc;
    if ok : bool then modify (set_mpath c (Some path)) else mod_error "memory error"
  else mod_error "invalid module path".

Definition old_path (c : bool) (s : modstate) : option string := if c then ms_cpath s else ms_path s.

Definition module_add_path (path : string) (c : bool) : DM unit :=
  old ← gets (old_path c);
  if negb (is_null (find_star path)) then
    let set_to (p : string) := modify (set_mpath c (Some p)) in
    match old with
    | Some (String x l) =>
        ok ← mod_malloc;
        if ok : bool then set_to (String x l +:+ ";" +:+ path) else mod_error "memory error"
    | _ =>
        ok ← mod_malloc;
        c_assert ok;;
        set_to path
    end
  else mod_error "invalid module path".

Definition module_get_path (c : bool) : DM (option string) := gets (old_path c).

Definition module_set_default_path (haka_path : string) : DM bool :=
  ok ← mod_malloc;
  if negb ok then mod_error "memory error";; ret false else
  module_set_path (haka_path +:+ "/share/haka/core/*" +:+ ";" +:+ haka_path +:+ "/share/haka/modules/*") false;;
  ok ← mod_malloc;
  if negb ok then mod_error "memory error";; ret false else
  module_set_path (haka_path +:+ "/lib/haka/modules/*") true;;
  ret true.

Section modules.
Context (prefix suffix : string) (api : Z).
Context (dlopen : string → option loc) (image : loc → option module) (init : loc → Z * option string).
Context (realtime : loc → bool) (make : loc → option loc).

(** ** The dynamic loader *)

Definition dl_open (path : string) : DM ptr :=
  match dlopen path with
  | None => ret None
  | Some h =>
      modify (λ s, set_handles (<[h := default 0 (ms_handles s !! h) + 1]> (ms_handles s))
        (set_modules (match ms_handles s !! h, image h with
                      | None, Some m => <[h := m]> (ms_modules s)
                      | _, _ => ms_modules s
                      end) s));;
      ret (Some h)
  end.

(** The last handle unmaps the library; the handle is not NULL. *)
Definition dl_close (h : ptr) : DM unit :=
  h ← deref h;
  k ← gets (λ s, ms_handles s !! h);
  k ← deref k;
  if bool_decide (k = 1)
  then modify (λ s, set_handles (delete h (ms_handles s)) (set_modules (delete h (ms_modules s)) s))
  else modify (λ s, set_handles (<[h := k - 1]> (ms_handles s)) s).

(** ** Loading and reference counts *)

Definition module_addref (p : loc) : DM unit :=
  m ← rd_module p; wr_module p (set_ref_count (u32 (mo_ref m + 1)) m).

Definition module_release (p : loc) : DM unit :=
  m ← rd_module p;
  let r := u32 (mo_ref m - 1) in
  wr_module p (set_ref_count r m);;
  if bool_decide (r = 0) then happened (Cleaned p);; dl_close (Some p) else skip.

(** The search along the path; [None] when a path cannot be built. *)
Fixpoint search_loop (fuel : nat) (current_path full_module_name : string) : DM (option ptr) :=
  match find_star current_path with
  | None => ret (Some None)
  | Some (dir, rest) =>
      match fuel with
      | O => stuck
      | S fuel =>
          ok ← mod_malloc;
          if negb ok then ret None else
          h ← dl_open (dir +:+ full_module_name);
          let rest := match rest with EmptyString => rest | String _ r => r end in
          match h with
          | Some _ => ret (Some h)
          | None => search_loop fuel rest full_module_name
          end
      end
  end.

Definition module_load (module_name : string) : DM ptr :=
  ok ← mod_malloc;
  if negb ok then ret None else
  let full_module_name := prefix +:+ module_name +:+ suffix in
  path ← gets ms_cpath;
  path ← deref path;
  found ← search_loop (String.length path) path full_module_name;
  match found with
  | None => ret None
  | Some None => mod_error "dlerror";; ret None
  | Some (Some h) =>
      o ← gets (λ s, ms_modules s !! h);
      match o with
      | None => mod_error "dlerror";; dl_close None;; ret None
      | Some m =>
          if negb (bool_decide (mo_api_version m = api)) then dl_close (Some h);; ret None else
          ok ← (if bool_decide (mo_ref m = 0) then
                  happened (Initialized h);;
                  (match (init h).2 with Some e => mod_error e | None => skip end);;
                  err ← gets (λ s, negb (is_null (ms_error s)));
                  if negb (bool_decide ((init h).1 = 0)) || err then
                    (if err : bool then modify (λ s, set_mod_error (Some ("unable to initialize module: " +:+ default "" (ms_error s))) s)
                     else mod_error "unable to initialize module");;
                    dl_close (Some h);;
                    ret false
                  else ret true
                else ret true);
          if negb ok then ret None else
          module_addref h;;
          ret (Some h)
      end
  end.

(** ** Clients *)

Definition regexp_module_load (module_name : string) : DM ptr :=
  module ← module_load module_name;
  match module with
  | None => mod_error "not of type MODULE_REGEXP";; ret None
  | Some p =>
      m ← rd_module p;
      if bool_decide (mo_type m = MODULE_REGEXP) then ret (Some p)
      else module_release p;; mod_error "not of type MODULE_REGEXP";; ret None
  end.

Definition regexp_module_release (p : loc) : DM unit := module_release p.

(** The alerter that the module makes keeps a reference on it. *)
Definition alert_module_alerter (module : loc) : DM ptr :=
  m ← rd_module module;
  if negb (bool_decide (mo_type m = MODULE_ALERT)) then mod_error "invalid module type: not an alert module";; ret None else
  match make module with
  | None => mod_error "alerter";; ret None
  | Some a =>
      module_addref module;;
      modify (λ s, set_alerters ((a, module) :: ms_alerters s) s);;
      ret (Some a)
  end.

(** [cleanup_alerter] frees the alerter. *)
Definition alert_module_destroy (alerter : loc) : DM unit :=
  o ← gets (λ s, list_find (λ x : loc * loc, x.1 = alerter) (ms_alerters s));
  '(i, (_, module)) ← deref o;
  modify (λ s, set_alerters (delete i (ms_alerters s)) s);;
  module_release module.

Definition log_module_logger (module : loc) : DM ptr :=
  m ← rd_module module;
  if negb (bool_decide (mo_type m = MODULE_LOG)) then mod_error "invalid module type: not a log module";; ret None else
  match make module with
  | None => mod_error "logger";; ret None
  | Some a =>
      module_addref module;;
      modify (λ s, set_loggers ((a, module) :: ms_loggers s) s);;
      ret (Some a)
  end.

Definition log_module_destroy (logger : loc) : DM unit :=
  o ← gets (λ s, list_find (λ x : loc * loc, x.1 = logger) (ms_loggers s));
  '(i, (_, module)) ← deref o;
  modify (λ s, set_loggers (delete i (ms_loggers s)) s);;
  module_release module.

(** The capture module of the program and the clock of the network time. *)
Definition set_capture_module (module : ptr) : DM Z :=
  prev ← gets ms_capture;
  wrong ← match module with
          | Some p => m ← rd_module p; ret (negb (bool_decide (mo_type m = MODULE_CAPTURE)))
          | None => ret false
          end;
  if wrong : bool then mod_error "not a packet capture module";; ret 1 else
  (match module with Some p => module_addref p | None => skip end);;
  modify (λ s, set_capture module (ms_network_time s) (ms_realtime s) s);;
  (match prev with Some p => module_release p | None => skip end);;
  modify (λ s, set_capture (ms_capture s) None (ms_realtime s) s);;
  match module with
  | Some p =>
      modify (λ s, set_capture (ms_capture s)
        (Some (if realtime p then TIME_REALM_REALTIME else TIME_REALM_STATIC)) (realtime p) s);;
      ret 0
  | None => ret 0
  end.

Definition has_capture_module : DM bool := gets (λ s, negb (is_null (ms_capture s))).
Definition get_capture_module : DM ptr := gets ms_capture.
End modules.
