(* ===== verification/ModuleSpec.v ===== *)
(** * Modules: paths, reference counts and types (lib/haka/module.c and its clients) *)

From Stdlib Require Import Ascii.
From S2P Require Import Prelude Timer Module.

(** ** References *)

(** How often [p] is in the list. *)
Definition occ (p : loc) (l : list loc) : Z := zlen (filter (λ x, x = p) l).

Lemma occ_cons p x l : occ p (x :: l) = (if decide (x = p) then 1 else 0) + occ p l.
Proof. unfold occ. rewrite filter_cons. case_decide; [rewrite zlen_cons|]; lia. Qed.
Lemma occ_app p l k : occ p (l ++ k) = occ p l + occ p k.
Proof. unfold occ. rewrite filter_app. by rewrite zlen_app. Qed.
Lemma occ_perm p l k : l ≡ₚ k → occ p l = occ p k.
Proof. intros H. unfold occ, zlen. f_equal. by rewrite H. Qed.
Lemma occ_range p l : 0 ≤ occ p l ≤ zlen l.
Proof. unfold occ, zlen. pose proof (length_filter (λ x, x = p) l). lia. Qed.
Lemma occ_pos p l : p ∈ l → 0 < occ p l.
Proof.
  induction l as [|x l IH]; intros Hp; [by apply elem_of_nil in Hp|]. rewrite occ_cons. pose proof (occ_range p l).
  apply elem_of_cons in Hp as [<-|Hp]; [rewrite decide_True by done; lia|]. specialize (IH Hp). case_decide; lia.
Qed.

Section modules.
Context (prefix suffix : string) (api : Z).
Context (dlopen : string → option loc) (image : loc → option module) (init : loc → Z * option string).
Context (realtime : loc → bool) (make : loc → option loc).

(** The structure of a library is there and its count begins at zero. *)
Definition libraries_ok : Prop := ∀ path h, dlopen path = Some h → ∃ m, image h = Some m ∧ mo_ref m = 0.

Definition has_type (p : loc) (t : module_type) : Prop := ∃ m, image p = Some m ∧ mo_type m = t.

(** The program holds the references [L]: each mapped module counts its own, a module
    that is referred to is mapped, and the handles are those of the mapped modules. *)
Record counted (s : modstate) (L : list loc) : Prop := {
  cn_count : ∀ p m, ms_modules s !! p = Some m → mo_ref m = occ p L ∧ has_type p (mo_type m);
  cn_live : ∀ p, p ∈ L → is_Some (ms_modules s !! p);
  cn_handles : ∀ p, match ms_handles s !! p with Some k => 1 ≤ k ∧ is_Some (ms_modules s !! p) | None => ms_modules s !! p = None end;
}.

(** What the operations on modules leave to their clients. *)
Definition same_clients (s s' : modstate) : Prop :=
  ms_capture s' = ms_capture s ∧ ms_network_time s' = ms_network_time s ∧ ms_realtime s' = ms_realtime s ∧
  ms_alerters s' = ms_alerters s ∧ ms_loggers s' = ms_loggers s ∧ ms_cpath s' = ms_cpath s.

#[export] Instance same_clients_preorder : PreOrder same_clients.
Proof.
  split; [done|]. intros s1 s2 s3 (A1 & A2 & A3 & A4 & A5 & A6) (B1 & B2 & B3 & B4 & B5 & B6). split_and!; congruence.
Qed.

Lemma counted_perm s L L' : L ≡ₚ L' → counted s L → counted s L'.
Proof.
  intros HP [C1 C2 C3]. split; [|intros p Hp; apply C2; by rewrite HP|done].
  intros p m Hm. by rewrite <- (occ_perm p L L' HP); auto.
Qed.

Lemma counted_same s s' L :
  ms_modules s' = ms_modules s → ms_handles s' = ms_handles s → counted s L → counted s' L.
Proof. intros E1 E2 [C1 C2 C3]. split; by rewrite ?E1, ?E2. Qed.

Lemma runs_rd_module s p m Q : ms_modules s !! p = Some m → Q m s → runs (rd_module p) s Q.
Proof. intros H HQ. unfold rd_module. step. rewrite H. by step. Qed.

Lemma counted_handle s L p m : counted s L → ms_modules s !! p = Some m → ∃ k, ms_handles s !! p = Some k ∧ 1 ≤ k.
Proof.
  intros [_ _ C] Hm. specialize (C p). destruct (ms_handles s !! p) as [k|]; [|congruence]. exists k. split; [done|lia].
Qed.

(** ** Adding and releasing a reference *)

Lemma runs_module_addref s L p Q :
  counted s L → is_Some (ms_modules s !! p) → zlen L + 1 < 2 ^ 32 →
  (∀ s', counted s' (p :: L) → same_clients s s' → Q tt s') → runs (module_addref p) s Q.
Proof.
  intros [C1 C2 C3] [m Hm] Hl HQ. destruct (C1 p m Hm) as [Er Ht]. pose proof (occ_range p L).
  unfold module_addref, wr_module. call runs_rd_module; [exact Hm|]. step. apply HQ; [|done].
  rewrite u32_small by lia. split; simpl.
  - intros q mq [[<- <-]|[Hne Hq]]%lookup_insert_Some; rewrite occ_cons.
    + rewrite decide_True by done. simpl. split; [lia|done].
    + rewrite decide_False by done. by apply C1.
  - intros q Hq. destruct (decide (q = p)) as [->|Hne]; [rewrite lookup_insert_eq; eauto|].
    rewrite lookup_insert_ne by done. apply C2. by apply elem_of_cons in Hq as [?|?].
  - intros q. specialize (C3 q). destruct (decide (q = p)) as [->|Hne]; [|by rewrite lookup_insert_ne].
    rewrite lookup_insert_eq. destruct (ms_handles s !! p); [split; [lia|eauto]|congruence].
Qed.

(** The last handle of a library that nobody refers to, or one of several. *)
Lemma runs_dl_close s L p k Q :
  counted s L → ms_handles s !! p = Some k → (k = 1 → p ∉ L) →
  (∀ s', counted s' L → same_clients s s' → (∀ q, q ≠ p → ms_modules s' !! q = ms_modules s !! q) → Q tt s') →
  runs (dl_close (Some p)) s Q.
Proof.
  intros [C1 C2 C3] Hk Hn HQ. unfold dl_close. step. step. rewrite Hk. step. pose proof (C3 p) as C3p. rewrite Hk in C3p.
  case_test as E; step; (apply HQ; [|done|]); simpl.
  - split; simpl.
    + intros q m [_ Hq]%lookup_delete_Some. by apply C1.
    + intros q Hq. rewrite lookup_delete_ne; [auto|]. intros <-. by apply Hn.
    + intros q. specialize (C3 q). destruct (decide (q = p)) as [->|Hne]; [by rewrite !lookup_delete_eq|].
      by rewrite !lookup_delete_ne.
  - intros q Hq. by rewrite lookup_delete_ne.
  - split; simpl; [done..|]. intros q. specialize (C3 q). destruct (decide (q = p)) as [->|Hne]; [|by rewrite lookup_insert_ne].
    rewrite lookup_insert_eq. split; [lia|]. by destruct C3p.
  - done.
Qed.

Lemma runs_module_release s L p Q :
  counted s (p :: L) → zlen L + 1 < 2 ^ 32 →
  (∀ s', counted s' L → same_clients s s' → Q tt s') → runs (module_release p) s Q.
Proof.
  intros C Hl HQ. pose proof C as [C1 C2 C3]. destruct (C2 p ltac:(by left)) as [m Hm]. destruct (C1 p m Hm) as [Er Ht].
  rewrite occ_cons, decide_True in Er by done. pose proof (occ_range p L). unfold module_release, wr_module.
  call runs_rd_module; [exact Hm|]. rewrite u32_small by lia. step.
  set (s1 := set_modules _ s). assert (counted s1 L) as Hc1.
  { split; simpl.
    - intros q mq [[<- <-]|[Hne Hq]]%lookup_insert_Some; [simpl; split; [lia|done]|].
      destruct (C1 q mq Hq) as [Eq Hq']. rewrite occ_cons, decide_False in Eq by done. by rewrite Eq.
    - intros q Hq. destruct (decide (q = p)) as [->|Hne]; [rewrite lookup_insert_eq; eauto|].
      rewrite lookup_insert_ne by done. apply C2. by right.
    - intros q. specialize (C3 q). destruct (decide (q = p)) as [->|Hne]; [|by rewrite lookup_insert_ne].
      rewrite lookup_insert_eq. destruct (ms_handles s !! p); [split; [lia|eauto]|congruence]. }
  destruct (counted_handle s (p :: L) p m C Hm) as (k & Hk & Hk1). case_test as E0.
  - unfold happened. step. eapply (runs_dl_close _ L p k); [by eapply (counted_same s1)|done| |].
    + intros _ Hp. pose proof (occ_pos p L Hp). lia.
    + intros s' Hc' Hs' _. apply HQ; [done|]. etrans; [|exact Hs']. done.
  - unfold skip. step. by apply HQ.
Qed.

(** ** Loading *)

Lemma occ_none p l : p ∉ l → occ p l = 0.
Proof.
  induction l as [|x l IH]; intros Hp; [done|]. rewrite occ_cons. apply not_elem_of_cons in Hp as [Hne Hp].
  rewrite decide_False by done. by rewrite IH.
Qed.

(** A library that is open, with a handle that can be closed again. *)
Definition opened (s : modstate) (L : list loc) (h : loc) : Prop :=
  is_Some (ms_modules s !! h) ∧ ∃ k, ms_handles s !! h = Some k ∧ (k = 1 → h ∉ L).

Lemma runs_dl_open s L path Q :
  libraries_ok → counted s L →
  (dlopen path = None → Q None s) →
  (∀ h s', dlopen path = Some h → counted s' L → same_clients s s' → opened s' L h → ms_mem s' = ms_mem s → Q (Some h) s') →
  runs (dl_open dlopen image path) s Q.
Proof.
  intros Lib [C1 C2 C3] HN HS. unfold dl_open. destruct (dlopen path) as [h|] eqn:Ed; [|step; by apply HN].
  destruct (Lib path h Ed) as (m & Him & Er). step. step. pose proof (C3 h) as C3h.
  destruct (ms_handles s !! h) as [k|] eqn:Hk.
  - destruct C3h as [Hk1 Hm]. apply HS; [done| |done|split; [done|]|done]; simpl.
    + split; simpl; [done..|]. intros q. specialize (C3 q). destruct (decide (q = h)) as [->|Hne]; [|by rewrite lookup_insert_ne].
      rewrite lookup_insert_eq. split; [lia|done].
    + exists (k + 1). rewrite lookup_insert_eq. split; [done|lia].
  - rewrite Him. assert (h ∉ L) as Hn by (intros Hi; destruct (C2 h Hi); congruence).
    apply HS; [done| |done|split; [|]|done]; simpl.
    + split; simpl.
      * intros q mq [[<- <-]|[Hne Hq]]%lookup_insert_Some; [|by apply C1]. split; [by rewrite occ_none|by exists m].
      * intros q Hq. rewrite lookup_insert_ne by congruence. auto.
      * intros q. specialize (C3 q). destruct (decide (q = h)) as [->|Hne]; [|by rewrite !lookup_insert_ne].
        rewrite !lookup_insert_eq. split; [lia|eauto].
    + rewrite lookup_insert_eq. eauto.
    + exists (0 + 1). rewrite lookup_insert_eq. done.
Qed.

Lemma find_star_shorter path dir rest :
  find_star path = Some (dir, rest) → (String.length rest < String.length path)%nat.
Proof.
  revert dir rest. induction path as [|c path IH]; intros dir rest; simpl; [done|]. case_bool_decide; [intros [= <- <-]; lia|].
  destruct (find_star path) as [[a b]|]; [|done]. intros [= <- <-]. specialize (IH a b eq_refl). lia.
Qed.

Lemma runs_search_loop full Q : libraries_ok → ∀ fuel path s L,
  counted s L → (String.length path ≤ fuel)%nat →
  (∀ s', counted s' L → same_clients s s' → Q None s' ∧ Q (Some None) s') →
  (∀ h s', counted s' L → same_clients s s' → opened s' L h → Q (Some (Some h)) s') →
  runs (search_loop dlopen image fuel path full) s Q.
Proof.
  intros Lib. induction fuel as [|fuel IH]; intros path s L C Hf HN HS; simpl; destruct (find_star path) as [[dir rest]|] eqn:Ef;
    try (by step; apply (HN s)); pose proof (find_star_shorter _ _ _ Ef) as Hlt; [lia|].
  unfold mod_malloc. apply runs_bind. step. destruct (ms_mem s) as [|n]; [step; cbn [negb]; step; by apply (HN s)|]. step. step. cbn [negb].
  assert (counted (set_mod_mem n s) L) as C1 by (by apply (counted_same s)).
  call runs_dl_open; [done|exact C1| |].
  - intros _. apply (IH _ _ L C1); [destruct rest; simpl in *; lia|exact HN|exact HS].
  - intros h s' _ C' S' O' _. step. by apply HS.
Qed.

Lemma runs_module_load name s L path Q :
  libraries_ok → counted s L → ms_cpath s = Some path → zlen L + 1 < 2 ^ 32 →
  (∀ r s', counted s' (option_list r ++ L) → same_clients s s' → Q r s') →
  runs (module_load prefix suffix api dlopen image init name) s Q.
Proof.
  intros Lib C Hp Hl HQ. unfold module_load, mod_malloc. apply runs_bind. step.
  destruct (ms_mem s) as [|n]; [step; cbn [negb]; step; by apply (HQ None)|]. step. step. cbn [negb]. step. simpl. rewrite Hp. step.
  assert (counted (set_mod_mem n s) L) as C1 by (by apply (counted_same s)).
  apply runs_bind. eapply (runs_search_loop _ _ Lib _ _ _ L C1); [done| |].
  - intros s' C' S'. split; [step; by apply (HQ None)|]. unfold mod_error. step. step.
    apply (HQ None); [by apply (counted_same s')|]. etrans; [exact S'|done].
  - intros h s' C' S' (Hm & k & Hk & Hn). destruct Hm as [m Hm]. step. rewrite Hm.
    assert (∀ s2 (b : ptr), counted s2 L → same_clients s s2 → ms_handles s2 !! h = Some k →
      runs (dl_close (Some h);; ret None) s2 Q) as Hclose.
    { intros s2 _ C2 S2 Hk2. apply runs_bind. eapply (runs_dl_close s2 L h k); [done|done|done|].
      intros s3 C3 S3 _. step. apply (HQ None); [done|by etrans]. }
    case_test as Eapi; cbn [negb]; [|by apply (Hclose s' None)].
    assert (∀ s2, counted s2 L → same_clients s s2 → is_Some (ms_modules s2 !! h) →
      runs (module_addref h;; ret (Some h)) s2 Q) as Hadd.
    { intros s2 C2 S2 Hm2. apply runs_bind. eapply (runs_module_addref s2 L h); [done|done|done|]. intros s3 C3 S3. step.
      apply (HQ (Some h)); [done|by etrans]. }
    apply runs_bind. case_test as Eref.
    2:{ step. cbn [negb]. apply Hadd; [done|done|by exists m]. }
    unfold happened. step.
    apply (runs_seq _ _ _ (λ _ x, counted x L ∧ same_clients s x ∧ ms_handles x = ms_handles s' ∧ ms_modules x = ms_modules s')).
    { destruct ((init h).2); [unfold mod_error|unfold skip]; step; split_and!; try done; by apply (counted_same s'). }
    intros _ x (Cx & Sx & Ex1 & Ex2). step. case_test as Ei; cbn [negb orb].
    + destruct (negb _); [|step; cbn [negb]; apply Hadd; [done|done|rewrite Ex2; by exists m]].
      step. apply runs_bind. eapply (runs_dl_close _ L h k); [by apply (counted_same x)|simpl; by rewrite Ex1|done|].
      intros s3 C3 S3 _. step. cbn [negb]. step. apply (HQ None); [done|]. etrans; [exact Sx|]. etrans; [|exact S3]. done.
    + apply (runs_seq _ _ _ (λ _ y, counted y L ∧ same_clients s y ∧ ms_handles y = ms_handles s')).
      { destruct (negb _); [|unfold mod_error]; step; split_and!; try done; by apply (counted_same x). }
      intros _ y (Cy & Sy & Ey). apply runs_bind. eapply (runs_dl_close y L h k); [done|by rewrite Ey|done|].
      intros s3 C3 S3 _. step. cbn [negb]. step. apply (HQ None); [done|by etrans].
Qed.

(** ** Clients *)

(** The references of the program: those of the callers of [module_load], [own], and of
    [regexp_module_load], [rx], the capture module, the alerters and the loggers. *)
Definition all_refs (s : modstate) (own rx : list loc) : list loc :=
  own ++ rx ++ option_list (ms_capture s) ++ (ms_alerters s).*2 ++ (ms_loggers s).*2.

Definition clock_of (p : loc) : time_realm_mode := if realtime p then TIME_REALM_REALTIME else TIME_REALM_STATIC.

Record modules_ok (s : modstate) (own rx : list loc) : Prop := {
  mk_counted : counted s (all_refs s own rx);
  mk_regexps : ∀ p, p ∈ rx → has_type p MODULE_REGEXP;
  mk_capture : ∀ p, ms_capture s = Some p → has_type p MODULE_CAPTURE;
  mk_alerters : ∀ a p, (a, p) ∈ ms_alerters s → has_type p MODULE_ALERT;
  mk_loggers : ∀ a p, (a, p) ∈ ms_loggers s → has_type p MODULE_LOG;
  mk_clock : ms_network_time s = clock_of <$> ms_capture s;
  mk_path : is_Some (ms_cpath s);
}.

Lemma all_refs_same s s' own rx : same_clients s s' → all_refs s' own rx = all_refs s own rx.
Proof. intros (A1 & _ & _ & A4 & A5 & _). unfold all_refs. by rewrite A1, A4, A5. Qed.

Lemma all_refs_len s own rx :
  zlen (all_refs s own rx) = zlen own + zlen rx + zlen (option_list (ms_capture s)) + zlen (ms_alerters s) + zlen (ms_loggers s).
Proof. unfold all_refs, zlen. rewrite !length_app, !length_fmap. lia. Qed.

(** At most one reference more. *)
Definition grown (s : modstate) (own rx : list loc) (s' : modstate) (own' rx' : list loc) : Prop :=
  zlen (all_refs s' own' rx') ≤ zlen (all_refs s own rx) + 1.

Lemma grown_same s s' own rx own' rx' :
  same_clients s s' → zlen own' + zlen rx' ≤ zlen own + zlen rx + 1 → grown s own rx s' own' rx'.
Proof. intros (A1 & _ & _ & A4 & A5 & _) Hl. unfold grown. rewrite !all_refs_len, A1, A4, A5. lia. Qed.

(** The clients are the same, the references of the callers may be others. *)
Lemma modules_ok_same s s' own rx own' rx' L :
  modules_ok s own rx → same_clients s s' → counted s' L → L ≡ₚ all_refs s own' rx' →
  (∀ p, p ∈ rx' → has_type p MODULE_REGEXP) → modules_ok s' own' rx'.
Proof.
  intros [M1 M2 M3 M4 M5 M6 M7] HS C HP HX. pose proof (all_refs_same s s' own' rx' HS) as Er.
  destruct HS as (A1 & A2 & A3 & A4 & A5 & A6). split; rewrite ?A1, ?A2, ?A4, ?A5, ?A6; try done.
  rewrite Er. by eapply counted_perm.
Qed.

Lemma modules_ok_error s own rx msg Q :
  modules_ok s own rx → (∀ s', modules_ok s' own rx → same_clients s s' → Q tt s') → runs (mod_error msg) s Q.
Proof.
  intros M HQ. unfold mod_error. step. apply HQ; [|done].
  eapply (modules_ok_same s _ own rx); [done|done| |reflexivity|apply M]. apply (counted_same s); [done|done|apply M].
Qed.

(** The type that a module tells is that of its structure. *)
Lemma counted_type s L p m t : counted s L → ms_modules s !! p = Some m → mo_type m = t → has_type p t.
Proof. intros C Hm <-. by apply (cn_count _ _ C). Qed.

Lemma owned_live s own rx p : modules_ok s own rx → p ∈ own → is_Some (ms_modules s !! p).
Proof. intros M Hp. apply (cn_live _ _ (mk_counted _ _ _ M)). apply elem_of_app. by left. Qed.

Section ops.
Context (s : modstate) (own rx : list loc).
Hypotheses (Lib : libraries_ok) (OK : modules_ok s own rx) (Hl : zlen (all_refs s own rx) + 1 < 2 ^ 32).
#[local] Set Default Proof Using "Lib OK Hl".

Lemma runs_load_module name Q :
  (∀ r s', modules_ok s' (option_list r ++ own) rx → same_clients s s' → Q r s') →
  runs (module_load prefix suffix api dlopen image init name) s Q.
Proof.
  intros HQ. destruct (mk_path _ _ _ OK) as [path Hp].
  eapply (runs_module_load name s (all_refs s own rx) path); [done|apply OK|done|done|].
  intros r s' C S'. apply HQ; [|done]. eapply (modules_ok_same s s' own rx); [done|done|exact C| |apply OK].
  unfold all_refs. by rewrite app_assoc.
Qed.

Lemma runs_unload p own' Q :
  own ≡ₚ p :: own' → (∀ s', modules_ok s' own' rx → same_clients s s' → Q tt s') → runs (module_release p) s Q.
Proof.
  intros HP HQ. assert (all_refs s own rx ≡ₚ p :: all_refs s own' rx) as HR.
  { unfold all_refs. rewrite HP. done. }
  assert (zlen (all_refs s own rx) = zlen (all_refs s own' rx) + 1) as El.
  { unfold zlen. rewrite HR. simpl. lia. }
  eapply (runs_module_release s (all_refs s own' rx) p); [by eapply counted_perm, OK|lia|].
  intros s' C S'. apply HQ; [|done]. eapply (modules_ok_same s s' own rx); [done|done|exact C|done|apply OK].
Qed.

Lemma runs_unload_regexp p rx' Q :
  rx ≡ₚ p :: rx' → (∀ s', modules_ok s' own rx' → same_clients s s' → Q tt s') → runs (regexp_module_release p) s Q.
Proof.
  intros HP HQ. assert (all_refs s own rx ≡ₚ p :: all_refs s own rx') as HR.
  { unfold all_refs. rewrite HP. symmetry. apply Permutation_middle. }
  assert (zlen (all_refs s own rx) = zlen (all_refs s own rx') + 1) as El.
  { unfold zlen. rewrite HR. simpl. lia. }
  eapply (runs_module_release s (all_refs s own rx') p); [by eapply counted_perm, OK|lia|].
  intros s' C S'. apply HQ; [|done]. eapply (modules_ok_same s s' own rx); [done|done|exact C|done|].
  intros x Hx. apply (mk_regexps _ _ _ OK). rewrite HP. by right.
Qed.

Lemma runs_load_regexp name Q :
  (∀ r s', modules_ok s' own (option_list r ++ rx) → grown s own rx s' own (option_list r ++ rx) → Q r s') →
  runs (regexp_module_load prefix suffix api dlopen image init name) s Q.
Proof.
  intros HQ. unfold regexp_module_load. apply runs_bind. apply runs_load_module. intros r s' M' S'. destruct r as [p|]; simpl in *.
  - destruct (owned_live s' _ _ p M' ltac:(by left)) as [m Hm]. call runs_rd_module; [exact Hm|].
    pose proof (all_refs_same s s' own rx S') as Er. case_test as Et.
    + step. apply (HQ (Some p)); [|apply grown_same; [done|simpl; rewrite zlen_cons; lia]].
      eapply (modules_ok_same s' s' (p :: own) rx); [done|done|apply M'| |].
      * unfold all_refs. simpl. apply Permutation_middle.
      * intros x [->|Hx]%elem_of_cons; [|by apply (mk_regexps _ _ _ OK)].
        by eapply counted_type; [apply M'| |].
    + apply runs_bind. eapply (runs_module_release s' (all_refs s' own rx) p); [apply M'|by rewrite Er|].
      intros s2 C2 S2. apply runs_bind. eapply (modules_ok_error s2 own rx).
      * eapply (modules_ok_same s' s2 (p :: own) rx); [done|done|exact C2|done|apply OK].
      * intros s3 M3 S3. step. apply (HQ None); [done|]. apply grown_same; [|simpl; lia]. etrans; [exact S'|by etrans].
  - apply runs_bind. eapply modules_ok_error; [exact M'|]. intros s2 M2 S2. step. apply (HQ None); [done|].
    apply grown_same; [by etrans|simpl; lia].
Qed.

(** Taking an object out of a list by its address. *)
Lemma found_object (l : list (loc * loc)) a i x :
  list_find (λ y : loc * loc, y.1 = a) l = Some (i, x) → l ≡ₚ x :: delete i l.
Proof using Type.
  intros (Hi & _ & _)%list_find_Some. by apply delete_Permutation.
Qed.

Lemma runs_make_alerter p Q :
  p ∈ own → (∀ r s', modules_ok s' own rx → grown s own rx s' own rx → Q r s') → runs (alert_module_alerter make p) s Q.
Proof.
  intros Hp HQ. destruct (owned_live s own rx p OK Hp) as [m Hm]. unfold alert_module_alerter.
  call runs_rd_module; [exact Hm|]. case_test as Et; cbn [negb].
  2:{ apply runs_bind. eapply modules_ok_error; [exact OK|]. intros s' M' S'. step. apply HQ; [done|]. apply grown_same; [done|lia]. }
  destruct (make p) as [a|].
  2:{ apply runs_bind. eapply modules_ok_error; [exact OK|]. intros s' M' S'. step. apply HQ; [done|]. apply grown_same; [done|lia]. }
  apply runs_bind. eapply (runs_module_addref s _ p); [apply OK|by exists m|done|]. intros s' C' S'. step. step.
  pose proof (counted_type _ _ _ _ _ (mk_counted _ _ _ OK) Hm Et) as Hty.
  destruct OK as [M1 M2 M3 M4 M5 M6 M7], S' as (A1 & A2 & A3 & A4 & A5 & A6).
  apply HQ; [|unfold grown; rewrite !all_refs_len; simpl; rewrite A1, A4, A5, zlen_cons; lia].
  split; simpl; rewrite ?A1, ?A2, ?A5, ?A6; try done.
  - eapply counted_perm; [|by apply (counted_same s')]. unfold all_refs. simpl. rewrite A1, A4, A5.
    by rewrite <- !Permutation_middle.
  - intros x y Hx. rewrite A4 in Hx. apply elem_of_cons in Hx as [[= -> ->]|Hx]; [done|eauto].
Qed.

Lemma runs_destroy_alerter a Q :
  a ∈ (ms_alerters s).*1 → (∀ s', modules_ok s' own rx → grown s own rx s' own rx → Q tt s') → runs (alert_module_destroy a) s Q.
Proof.
  intros Ha HQ. unfold alert_module_destroy. step.
  destruct (list_find (λ y : loc * loc, y.1 = a) (ms_alerters s)) as [[i [x p]]|] eqn:Ef.
  2:{ exfalso. apply list_find_None in Ef. rewrite Forall_forall in Ef. apply list_elem_of_fmap in Ha as (y & -> & Hy). by apply (Ef y). }
  step. step. pose proof (found_object _ _ _ _ Ef) as HP. set (s1 := set_alerters (delete i (ms_alerters s)) s).
  assert (all_refs s own rx ≡ₚ p :: all_refs s1 own rx) as HR.
  { unfold all_refs. simpl. rewrite HP at 1. simpl. by rewrite <- !Permutation_middle. }
  assert (zlen (all_refs s own rx) = zlen (all_refs s1 own rx) + 1) as El by (unfold zlen; rewrite HR; simpl; lia).
  eapply (runs_module_release s1 (all_refs s1 own rx) p); [|lia|].
  - eapply counted_perm; [exact HR|]. apply (counted_same s); [done|done|apply OK].
  - intros s' C' (A1 & A2 & A3 & A4 & A5 & A6).
    apply HQ; [|unfold grown; rewrite El; unfold all_refs; rewrite A1, A4, A5; lia]. destruct OK as [M1 M2 M3 M4 M5 M6 M7].
    split; rewrite ?A1, ?A2, ?A4, ?A5, ?A6; try done.
    + unfold all_refs in *. rewrite A1, A4, A5. exact C'.
    + intros y q Hy. apply (M4 y). rewrite HP. right. exact Hy.
Qed.

Lemma runs_make_logger p Q :
  p ∈ own → (∀ r s', modules_ok s' own rx → grown s own rx s' own rx → Q r s') → runs (log_module_logger make p) s Q.
Proof.
  intros Hp HQ. destruct (owned_live s own rx p OK Hp) as [m Hm]. unfold log_module_logger.
  call runs_rd_module; [exact Hm|]. case_test as Et; cbn [negb].
  2:{ apply runs_bind. eapply modules_ok_error; [exact OK|]. intros s' M' S'. step. apply HQ; [done|]. apply grown_same; [done|lia]. }
  destruct (make p) as [a|].
  2:{ apply runs_bind. eapply modules_ok_error; [exact OK|]. intros s' M' S'. step. apply HQ; [done|]. apply grown_same; [done|lia]. }
  apply runs_bind. eapply (runs_module_addref s _ p); [apply OK|by exists m|done|]. intros s' C' S'. step. step.
  pose proof (counted_type _ _ _ _ _ (mk_counted _ _ _ OK) Hm Et) as Hty.
  destruct OK as [M1 M2 M3 M4 M5 M6 M7], S' as (A1 & A2 & A3 & A4 & A5 & A6).
  apply HQ; [|unfold grown; rewrite !all_refs_len; simpl; rewrite A1, A4, A5, zlen_cons; lia].
  split; simpl; rewrite ?A1, ?A2, ?A4, ?A6; try done.
  - eapply counted_perm; [|by apply (counted_same s')]. unfold all_refs. simpl. rewrite A1, A4, A5.
    by rewrite <- !Permutation_middle.
  - intros x y Hx. rewrite A5 in Hx. apply elem_of_cons in Hx as [[= -> ->]|Hx]; [done|eauto].
Qed.

Lemma runs_destroy_logger a Q :
  a ∈ (ms_loggers s).*1 → (∀ s', modules_ok s' own rx → grown s own rx s' own rx → Q tt s') → runs (log_module_destroy a) s Q.
Proof.
  intros Ha HQ. unfold log_module_destroy. step.
  destruct (list_find (λ y : loc * loc, y.1 = a) (ms_loggers s)) as [[i [x p]]|] eqn:Ef.
  2:{ exfalso. apply list_find_None in Ef. rewrite Forall_forall in Ef. apply list_elem_of_fmap in Ha as (y & -> & Hy). by apply (Ef y). }
  step. step. pose proof (found_object _ _ _ _ Ef) as HP. set (s1 := set_loggers (delete i (ms_loggers s)) s).
  assert (all_refs s own rx ≡ₚ p :: all_refs s1 own rx) as HR.
  { unfold all_refs. simpl. rewrite HP at 1. simpl. by rewrite <- !Permutation_middle. }
  assert (zlen (all_refs s own rx) = zlen (all_refs s1 own rx) + 1) as El by (unfold zlen; rewrite HR; simpl; lia).
  eapply (runs_module_release s1 (all_refs s1 own rx) p); [|lia|].
  - eapply counted_perm; [exact HR|]. apply (counted_same s); [done|done|apply OK].
  - intros s' C' (A1 & A2 & A3 & A4 & A5 & A6).
    apply HQ; [|unfold grown; rewrite El; unfold all_refs; rewrite A1, A4, A5; lia]. destruct OK as [M1 M2 M3 M4 M5 M6 M7].
    split; rewrite ?A1, ?A2, ?A4, ?A5, ?A6; try done.
    + unfold all_refs in *. rewrite A1, A4, A5. exact C'.
    + intros y q Hy. apply (M5 y). rewrite HP. right. exact Hy.
Qed.

Lemma runs_set_capture mp Q :
  (∀ p, mp = Some p → p ∈ own) → (∀ r s', modules_ok s' own rx → grown s own rx s' own rx → Q r s') → runs (set_capture_module realtime mp) s Q.
Proof.
  intros Hown HQ. unfold set_capture_module. step.
  set (L0 := own ++ rx ++ (ms_alerters s).*2 ++ (ms_loggers s).*2).
  assert (∀ s' l, same_clients s s' → own ++ rx ++ l ++ (ms_alerters s').*2 ++ (ms_loggers s').*2 ≡ₚ l ++ L0) as HP.
  { intros s' l (_ & _ & _ & A4 & A5 & _). unfold L0. rewrite A4, A5. rewrite (app_assoc rx), (Permutation_app_comm rx l), <- app_assoc.
    by rewrite app_assoc, (Permutation_app_comm own l), <- app_assoc. }
  apply (runs_seq _ _ _ (λ w x, x = s ∧ (w = false → ∀ p, mp = Some p → has_type p MODULE_CAPTURE ∧ is_Some (ms_modules s !! p)))).
  { destruct mp as [p|]; [|by step]. destruct (owned_live s own rx p OK (Hown p eq_refl)) as [m Hm].
    call runs_rd_module; [exact Hm|]. step. split; [done|]. case_bool_decide as Et; [|done]. intros _ q [= <-].
    split; [|by exists m]. by eapply counted_type; [apply OK| |]. }
  intros w x [-> Hw]. destruct w.
  { apply runs_bind. eapply modules_ok_error; [exact OK|]. intros s' M' S'. step. apply HQ; [done|]. apply grown_same; [done|lia]. }
  specialize (Hw eq_refl). apply (runs_seq _ _ _ (λ _ x, counted x (option_list mp ++ all_refs s own rx) ∧ same_clients s x)).
  { destruct mp as [p|]; [|unfold skip; step; split; [apply OK|done]]. destruct (Hw p eq_refl) as [_ Hm].
    eapply (runs_module_addref s _ p); [apply OK|done|done|]. by intros s' C' S'. }
  intros _ s1 [C1 S1]. step. set (s2 := set_capture mp _ _ s1).
  apply (runs_seq _ _ _ (λ _ x, counted x (option_list mp ++ L0) ∧ same_clients s2 x)).
  { assert (counted s2 (option_list (ms_capture s) ++ option_list mp ++ L0)) as C2.
    { eapply (counted_perm _ (option_list mp ++ all_refs s own rx)); [|by apply (counted_same s1)].
      unfold all_refs. rewrite (HP s) by done. by rewrite !app_assoc, (Permutation_app_comm (option_list mp)). }
    destruct (ms_capture s) as [q|] eqn:Eq; [|unfold skip; step; done].
    eapply (runs_module_release s2 _ q); [exact C2| |by intros s' C' S'].
    assert (zlen (all_refs s own rx) = zlen L0 + 1) as El.
    { unfold zlen. unfold all_refs. rewrite Eq, (HP s) by done. simpl. lia. }
    destruct mp; simpl; rewrite ?zlen_cons; lia. }
  intros _ s3 [C3 (A1 & A2 & A3 & A4 & A5 & A6)]. step.
  destruct S1 as (B1 & B2 & B3 & B4 & B5 & B6). simpl in A1, A4, A5, A6.
  assert (∀ x, ms_modules x = ms_modules s3 → ms_handles x = ms_handles s3 → ms_capture x = mp →
    ms_alerters x = ms_alerters s → ms_loggers x = ms_loggers s → ms_cpath x = ms_cpath s →
    ms_network_time x = clock_of <$> mp → ∀ r, Q r x) as Hend.
  { intros x E1 E2 E3 E4 E5 E6 E7 r. apply HQ.
    2:{ unfold grown. rewrite !all_refs_len, E3, E4, E5. destruct mp; simpl; rewrite ?zlen_cons; unfold zlen; simpl; lia. }
    destruct OK as [M1 M2 M3 M4 M5 M6 M7]. split; rewrite ?E3, ?E4, ?E5, ?E6; try done.
    - unfold all_refs. rewrite E3, E4, E5. eapply counted_perm; [|by apply (counted_same s3)]. symmetry. by apply HP.
    - intros p ->. by apply Hw. }
  destruct mp as [p|]; [step; step|step]; apply Hend; simpl; try done; congruence.
Qed.
End ops.

(** ** Programs *)

(** What the program does with modules. *)
Inductive mod_op :=
  | Load (name : string) | Unload (p : loc)
  | LoadRegexp (name : string) | UnloadRegexp (p : loc)
  | SetCapture (p : ptr)
  | MakeAlerter (p : loc) | DestroyAlerter (a : loc)
  | MakeLogger (p : loc) | DestroyLogger (a : loc).

(** A list without one of its elements. *)
Definition take_out (p : loc) (l : list loc) : option (list loc) :=
  (λ x : nat * loc, delete x.1 l) <$> list_find (λ y, y = p) l.

(** An operation of a program that only uses what it has: the references of its callers
    before and after. *)
Definition run_mod_op (op : mod_op) (g : list loc * list loc) : M modstate (list loc * list loc) :=
  let '(own, rx) := g in
  match op with
  | Load name => r ← module_load prefix suffix api dlopen image init name; ret (option_list r ++ own, rx)
  | Unload p => match take_out p own with Some own' => module_release p;; ret (own', rx) | None => ret g end
  | LoadRegexp name => r ← regexp_module_load prefix suffix api dlopen image init name; ret (own, option_list r ++ rx)
  | UnloadRegexp p => match take_out p rx with Some rx' => regexp_module_release p;; ret (own, rx') | None => ret g end
  | SetCapture None => _ ← set_capture_module realtime None; ret g
  | SetCapture (Some p) => if decide (p ∈ own) then _ ← set_capture_module realtime (Some p); ret g else ret g
  | MakeAlerter p => if decide (p ∈ own) then _ ← alert_module_alerter make p; ret g else ret g
  | DestroyAlerter a => l ← gets ms_alerters; if decide (a ∈ l.*1) then alert_module_destroy a;; ret g else ret g
  | MakeLogger p => if decide (p ∈ own) then _ ← log_module_logger make p; ret g else ret g
  | DestroyLogger a => l ← gets ms_loggers; if decide (a ∈ l.*1) then log_module_destroy a;; ret g else ret g
  end.

Fixpoint run_mod_ops (ops : list mod_op) (g : list loc * list loc) : M modstate (list loc * list loc) :=
  match ops with
  | [] => ret g
  | op :: ops => g ← run_mod_op op g; run_mod_ops ops g
  end.

Lemma take_out_perm p l l' : take_out p l = Some l' → l ≡ₚ p :: l'.
Proof using Type.
  unfold take_out. destruct (list_find (λ y, y = p) l) as [[i x]|] eqn:Ef; [|done]. intros [= <-].
  apply list_find_Some in Ef as (Hi & -> & _). by apply delete_Permutation.
Qed.

Lemma runs_mod_op op s own rx Q :
  libraries_ok → modules_ok s own rx → zlen (all_refs s own rx) + 1 < 2 ^ 32 →
  (∀ own' rx' s', modules_ok s' own' rx' → grown s own rx s' own' rx' → Q (own', rx') s') →
  runs (run_mod_op op (own, rx)) s Q.
Proof using Type.
  intros Lib OK Hl HQ. assert (runs (ret (own, rx)) s Q) as Hsame by (step; apply HQ; [done|unfold grown; lia]).
  destruct op as [name|p|name|p|[p|]|p|a|p|a]; simpl.
  - apply runs_bind. apply (runs_load_module s own rx Lib OK Hl). intros r s' M' S'. step. apply HQ; [done|].
    apply grown_same; [done|]. destruct r; simpl; rewrite ?zlen_cons; lia.
  - destruct (take_out p own) as [own'|] eqn:Et; [|done]. apply take_out_perm in Et.
    apply runs_bind. apply (runs_unload s own rx Lib OK Hl p own' _ Et). intros s' M' S'. step. apply HQ; [done|].
    apply grown_same; [done|]. unfold zlen. rewrite Et. simpl. lia.
  - apply runs_bind. apply (runs_load_regexp s own rx Lib OK Hl). intros r s' M' G'. step. by apply HQ.
  - destruct (take_out p rx) as [rx'|] eqn:Et; [|done]. apply take_out_perm in Et.
    apply runs_bind. apply (runs_unload_regexp s own rx Lib OK Hl p rx' _ Et). intros s' M' S'. step. apply HQ; [done|].
    apply grown_same; [done|]. unfold zlen. rewrite Et. simpl. lia.
  - case_decide as Hp; [|done]. apply runs_bind. apply (runs_set_capture s own rx Lib OK Hl); [by intros q [= <-]|].
    intros r s' M' G'. step. by apply HQ.
  - apply runs_bind. apply (runs_set_capture s own rx Lib OK Hl); [done|]. intros r s' M' G'. step. by apply HQ.
  - case_decide as Hp; [|done]. apply runs_bind. apply (runs_make_alerter s own rx Lib OK Hl); [done|]. intros r s' M' G'. step. by apply HQ.
  - step. case_decide as Ha; [|done]. apply runs_bind. apply (runs_destroy_alerter s own rx Lib OK Hl); [done|]. intros s' M' G'. step. by apply HQ.
  - case_decide as Hp; [|done]. apply runs_bind. apply (runs_make_logger s own rx Lib OK Hl); [done|]. intros r s' M' G'. step. by apply HQ.
  - step. case_decide as Ha; [|done]. apply runs_bind. apply (runs_destroy_logger s own rx Lib OK Hl); [done|]. intros s' M' G'. step. by apply HQ.
Qed.

Lemma runs_mod_ops ops : ∀ s own rx,
  libraries_ok → modules_ok s own rx → zlen (all_refs s own rx) + zlen ops + 1 < 2 ^ 32 →
  runs (run_mod_ops ops (own, rx)) s (λ g s', modules_ok s' g.1 g.2).
Proof using Type.
  induction ops as [|op ops IH]; intros s own rx Lib OK Hl; simpl; [by step|].
  rewrite zlen_cons in Hl. pose proof (zlen_nonneg ops). apply runs_bind. eapply runs_mod_op; [done|exact OK|lia|].
  intros own' rx' s' M' G'. unfold grown in G'. apply IH; [done|done|lia].
Qed.

(** No module is mapped and nobody has a reference. *)
Definition no_modules (path : string) (mem : nat) : modstate :=
  MS ∅ ∅ None (Some path) None None false [] [] [] None mem.

Lemma no_modules_ok path mem : modules_ok (no_modules path mem) [] [].
Proof using Type.
  split; try done; [split|..]; try done; try (by intros ? ?%elem_of_nil); by intros ? ? ?%elem_of_nil.
Qed.

(** C29 Types of modules: whatever modules a program loads, releases, makes its capture
    module or takes alerters, loggers and regular expressions from, in any order and with
    any answers of the loader and of the initialisations, the structures it has cast are
    those of modules that are mapped and have the type of the cast, each module counts
    exactly the references to it, and the network time has the clock of the capture
    module. All operations return. *)
Theorem modules_typed ops path mem :
  libraries_ok → zlen ops + 1 < 2 ^ 32 →
  runs (run_mod_ops ops ([], [])) (no_modules path mem) (λ g s,
    (∀ p, ms_capture s = Some p → has_type p MODULE_CAPTURE) ∧
    (∀ a p, (a, p) ∈ ms_alerters s → has_type p MODULE_ALERT) ∧
    (∀ a p, (a, p) ∈ ms_loggers s → has_type p MODULE_LOG) ∧
    (∀ p, p ∈ g.2 → has_type p MODULE_REGEXP) ∧
    (∀ p, p ∈ all_refs s g.1 g.2 → ∃ m, ms_modules s !! p = Some m ∧ mo_ref m = occ p (all_refs s g.1 g.2) ∧ 0 < mo_ref m) ∧
    ms_network_time s = clock_of <$> ms_capture s).
Proof using Type.
  intros Lib Hl. eapply runs_mono; [apply runs_mod_ops; [done|apply no_modules_ok|]|].
  - rewrite all_refs_len. unfold zlen in *. simpl. lia.
  - intros [own rx] s [M1 M2 M3 M4 M5 M6 M7]. simpl in *. split_and!; try done.
    intros p Hp. destruct (cn_live _ _ M1 p Hp) as [m Hm]. exists m. destruct (cn_count _ _ M1 p m Hm) as [Er _].
    pose proof (occ_pos p _ Hp). split_and!; [done|done|lia].
Qed.
End modules.

(** ** Paths *)

(** A list of directories as a path. *)
Definition path_of (dirs : list string) : string := String.concat ";" ((λ d, d +:+ "*") <$> dirs).

Lemma find_star_here d rest : find_star d = None → find_star (d +:+ "*" +:+ rest) = Some (d, rest).
Proof.
  induction d as [|c d IH]; simpl; [done|]. case_bool_decide; [done|].
  destruct (find_star d) as [[]|]; [done|]. intros _. by rewrite IH.
Qed.

Lemma append_assoc (x y z : string) : (x +:+ y) +:+ z = x +:+ y +:+ z.
Proof. induction x as [|c x IH]; [done|]. exact (f_equal (String c) IH). Qed.

Lemma path_of_cons d dirs :
  path_of (d :: dirs) = d +:+ "*" +:+ match dirs with [] => "" | _ => ";" +:+ path_of dirs end.
Proof.
  destruct dirs as [|d' dirs]; [unfold path_of; simpl; done|].
  change (path_of (d :: d' :: dirs)) with ((d +:+ "*") +:+ ";" +:+ path_of (d' :: dirs)). apply append_assoc.
Qed.

(** The search tries the directories of the path in order and takes the first one that
    has the library. *)
Theorem module_search_correct dlopen image full dirs : ∀ s fuel,
  Forall (λ d, find_star d = None) dirs → (length dirs ≤ ms_mem s)%nat → (String.length (path_of dirs) ≤ fuel)%nat →
  runs (search_loop dlopen image fuel (path_of dirs) full) s (λ r _,
    r = Some (head (omap (λ d, dlopen (d +:+ full)) dirs))).
Proof.
  induction dirs as [|d dirs IH]; intros s fuel Hd Hm Hf; [destruct fuel; simpl; step; done|].
  apply Forall_cons in Hd as [Hd Hds]. rewrite path_of_cons in Hf |- *. set (rest := match dirs with [] => _ | _ => _ end) in *.
  pose proof (find_star_here d rest Hd) as Ef. pose proof (find_star_shorter _ _ _ Ef) as Hlt.
  destruct fuel as [|fuel]; [lia|]. cbn [search_loop]. rewrite Ef. unfold mod_malloc. apply runs_bind. step.
  destruct (ms_mem s) as [|n] eqn:En; [simpl in Hm; lia|]. step. step. cbn [negb].
  assert (∀ x, ms_mem x = n → runs (search_loop dlopen image fuel match rest with EmptyString => rest | String _ r => r end full) x
    (λ r _, r = Some (head (omap (λ d, dlopen (d +:+ full)) dirs)))) as Hrest.
  { intros x Ex. destruct dirs as [|d' dirs]; [destruct fuel; simpl; step; done|]. apply IH; [done|simpl in *; lia|].
    assert (String.length rest = S (String.length (path_of (d' :: dirs)))) as El by done. lia. }
  unfold dl_open. cbn [omap list_omap]. destruct (dlopen (d +:+ full)) as [h|]; simpl.
  - step. step. by step.
  - step. by apply Hrest.
Qed.

(** ** Witness and computations *)

Definition ex_dlopen (path : string) : option loc :=
  if bool_decide (path = "/usr/mod_pcap.so") then Some 1%positive
  else if bool_decide (path = "/opt/mod_file.so") then Some 2%positive else None.
Definition ex_image (p : loc) : option module :=
  if bool_decide (p = 1%positive) then Some (Mod MODULE_CAPTURE "pcap" 5 0)
  else if bool_decide (p = 2%positive) then Some (Mod MODULE_ALERT "file" 5 0) else None.
Definition ex_ops : list mod_op :=
  [Load "pcap"; Load "file"; SetCapture (Some 2%positive); SetCapture (Some 1%positive); MakeAlerter 2; LoadRegexp "file"; Unload 2; Unload 1].

Lemma ex_libraries : libraries_ok ex_dlopen ex_image.
Proof.
  intros path h. unfold ex_dlopen. repeat case_bool_decide; intros [= <-]; by eexists.
Qed.

Lemma modules_typed_witness :
  runs (run_mod_ops "mod_" ".so" 5 ex_dlopen ex_image (λ _, (0, None)) (λ _, false) (λ _, Some 7%positive) ex_ops ([], []))
    (no_modules "/usr/*;/opt/*" 100) (λ g s, ∀ p, ms_capture s = Some p → has_type ex_image p MODULE_CAPTURE).
Proof.
  eapply runs_mono; [apply (modules_typed "mod_" ".so" 5 ex_dlopen ex_image (λ _, (0, None)) (λ _, false) (λ _, Some 7%positive) ex_ops "/usr/*;/opt/*" 100)|].
  - exact ex_libraries.
  - by vm_compute.
  - intros g s (Hc & _). exact Hc.
Defined.

(** The program above: the capture module and the alerter keep their modules. *)
Example ex_ops_run :
  (λ x, (ms_capture x.2, ms_alerters x.2, mo_ref <$> ms_modules x.2 !! 1%positive, mo_ref <$> ms_modules x.2 !! 2%positive)) <$>
    run_mod_ops "mod_" ".so" 5 ex_dlopen ex_image (λ _, (0, None)) (λ _, false) (λ _, Some 7%positive) ex_ops ([], []) (no_modules "/usr/*;/opt/*" 100)
  = Some (Some 1%positive, [(7%positive, 2%positive)], Some 1, Some 1).
Proof. by vm_compute. Qed.

(** Outside the intended domain: a library without the structure is closed through the
    structure that was not found. *)
Theorem missing_symbol_stuck :
  module_load "mod_" ".so" 5 ex_dlopen (λ _, None) (λ _, (0, None)) "pcap" (no_modules "/usr/*" 100) = None.
Proof. by vm_compute. Qed.

(** Each load opens a handle and only the last release closes one: a module that was
    loaded twice stays mapped. *)
Theorem loaded_twice_stays :
  (λ x, ms_handles x.2 !! 1%positive) <$>
    run_mod_ops "mod_" ".so" 5 ex_dlopen ex_image (λ _, (0, None)) (λ _, false) (λ _, None)
      [Load "pcap"; Load "pcap"; Unload 1; Unload 1] ([], []) (no_modules "/usr/*" 100)
  = Some (Some 1).
Proof. by vm_compute. Qed.
