(* ===== verification/Regexp.v ===== *)
(** * Regular expressions (modules/regexp/pcre/main.c, include/haka/regexp_module.h)

    A compiled expression is matched against a string, a buffer, or a stream that comes
    piece after piece: a sink keeps what the pieces so far leave of a match that has begun,
    in a workspace that grows when PCRE asks for it.

    PCRE is the class [Pcre]. Its functions get the bytes at the address they are given,
    the length and the options; [pcre_dfa_exec] also the integers of the workspace. They
    answer the code that they return, the first two integers of the output vector and, for
    the last, the workspace that they leave. *)

From S2P Require Import Prelude VbHeap VbIter VbSub.

(** ** The interface of PCRE (pcre.h) *)

Definition PCRE_CASELESS : Z := 0x1.
Definition PCRE_MULTILINE : Z := 0x2.
Definition PCRE_EXTENDED : Z := 0x8.
Definition PCRE_NOTBOL : Z := 0x80.
Definition PCRE_NOTEOL : Z := 0x100.
Definition PCRE_PARTIAL_SOFT : Z := 0x8000.
Definition PCRE_DFA_RESTART : Z := 0x20000.
Definition PCRE_PARTIAL_HARD : Z := 0x8000000.

Definition PCRE_ERROR_NOMATCH : Z := -1.
Definition PCRE_ERROR_PARTIAL : Z := -12.
Definition PCRE_ERROR_DFA_WSSIZE : Z := -19.

Class Pcre := {
  pcre : Type;
  pcre_compile : string → Z → option pcre;
  pcre_exec : pcre → list Z → Z → Z → Z * (Z * Z);
  pcre_dfa_exec : pcre → list Z → Z → Z → list Z → Z * (Z * Z) * list Z;
}.

(** ** Data *)

Definition REGEXP_MATCH : Z := 1.
Definition REGEXP_NOMATCH : Z := 0.
Definition REGEXP_ERROR : Z := -1.
Definition REGEXP_PARTIAL : Z := -2.

Definition REGEXP_CASE_INSENSITIVE : Z := 1.
Definition REGEXP_EXTENDED : Z := 2.

Record regexp_result := Found { first : Z; last_ : Z }.
Definition regexp_result_init : regexp_result := Found size_max size_max.

Definition DEFAULT_COMPILE_OPTIONS : Z := PCRE_MULTILINE.
Definition WSCOUNT_DEFAULT : Z := 20.
Definition WSCOUNT_MAX : Z := 1024.

(** The address of the structure of the module. *)
Definition HAKA_MODULE : loc := 1%positive.

Section regexp.
Context {P : Pcre}.

(** The fields of [super] come first. *)
Record regexp_pcre := Regexp {
  re_module : loc;
  re_ref_count : Z;
  re_pcre : pcre;
  re_wscount_max : Z;
}.

Record regexp_sink_pcre := Sink {
  sk_regexp : loc;
  sk_match : Z;
  sk_started : bool;
  sk_processed_length : Z;
  sk_wscount : Z;
  sk_workspace : ptr;
}.

(** The expressions, the sinks, the workspaces, and the memory of the buffers. *)
Record rxstate := RX {
  rx_vb : vbstate;
  rx_regexps : gmap loc regexp_pcre;
  rx_sinks : gmap loc regexp_sink_pcre;
  rx_spaces : gmap loc (list Z);
}.

Abbreviation RM := (M rxstate).

Definition set_rx_vb (v : vbstate) (s : rxstate) : rxstate := RX v (rx_regexps s) (rx_sinks s) (rx_spaces s).
Definition set_regexps (m : gmap loc regexp_pcre) (s : rxstate) : rxstate := RX (rx_vb s) m (rx_sinks s) (rx_spaces s).
Definition set_sinks (m : gmap loc regexp_sink_pcre) (s : rxstate) : rxstate := RX (rx_vb s) (rx_regexps s) m (rx_spaces s).
Definition set_spaces (m : gmap loc (list Z)) (s : rxstate) : rxstate := RX (rx_vb s) (rx_regexps s) (rx_sinks s) m.

Definition rxvb {A} (m : VM A) : RM A := zoom rx_vb set_rx_vb m.

Definition rd_regexp (r : loc) : RM regexp_pcre := o ← gets (λ s, rx_regexps s !! r); deref o.
Definition wr_regexp (r : loc) (re : regexp_pcre) : RM unit := modify (λ s, set_regexps (<[r := re]> (rx_regexps s)) s).
Definition rd_sink (k : loc) : RM regexp_sink_pcre := o ← gets (λ s, rx_sinks s !! k); deref o.
Definition wr_sink (k : loc) (sk : regexp_sink_pcre) : RM unit := modify (λ s, set_sinks (<[k := sk]> (rx_sinks s)) s).
Definition rd_space (w : loc) : RM (list Z) := o ← gets (λ s, rx_spaces s !! w); deref o.
Definition wr_space (w : loc) (l : list Z) : RM unit := modify (λ s, set_spaces (<[w := l]> (rx_spaces s)) s).

Definition set_re_ref (n : Z) (re : regexp_pcre) : regexp_pcre := Regexp (re_module re) n (re_pcre re) (re_wscount_max re).
Definition set_wscount_max (n : Z) (re : regexp_pcre) : regexp_pcre := Regexp (re_module re) (re_ref_count re) (re_pcre re) n.
Definition set_match (m : Z) (sk : regexp_sink_pcre) : regexp_sink_pcre :=
  Sink (sk_regexp sk) m (sk_started sk) (sk_processed_length sk) (sk_wscount sk) (sk_workspace sk).
Definition set_started (sk : regexp_sink_pcre) : regexp_sink_pcre :=
  Sink (sk_regexp sk) (sk_match sk) true (sk_processed_length sk) (sk_wscount sk) (sk_workspace sk).
Definition set_workspace (n : Z) (w : ptr) (sk : regexp_sink_pcre) : regexp_sink_pcre :=
  Sink (sk_regexp sk) (sk_match sk) (sk_started sk) (sk_processed_length sk) n w.
(** The answer of a piece of [len] bytes. *)
Definition set_processed (m len : Z) (sk : regexp_sink_pcre) : regexp_sink_pcre :=
  Sink (sk_regexp sk) m (sk_started sk) (u64 (sk_processed_length sk + len)) (sk_wscount sk) (sk_workspace sk).

(** [free]: NULL is allowed, another pointer must be that of a block. *)
Definition free_space (w : ptr) : RM unit :=
  match w with
  | None => skip
  | Some w => _ ← rd_space w; modify (λ s, set_spaces (delete w (rx_spaces s)) s)
  end.
Definition calloc_space (n : Z) : RM ptr :=
  p ← rxvb malloc;
  match p with
  | None => ret None
  | Some w => wr_space w (replicate (Z.to_nat n) 0);; ret (Some w)
  end.
(** The new integers of a block that grows are not set. *)
Definition realloc_space (w : ptr) (n : Z) : RM ptr :=
  w ← deref w;
  l ← rd_space w;
  p ← rxvb malloc;
  match p with
  | None => ret None
  | Some w' =>
      junk ← gets (λ s, vb_junk (rx_vb s));
      free_space (Some w);;
      wr_space w' (ztake n l ++ replicate (Z.to_nat (n - zlen l)) junk);; ret (Some w')
  end.

(** ** Checks *)

Definition CHECK_REGEXP_TYPE (re : ptr) : RM bool :=
  ok ← (match re with None => ret false | Some r => re ← rd_regexp r; ret (bool_decide (re_module re = HAKA_MODULE)) end);
  (if ok : bool then skip else rxvb (error "Wrong regexp struct passed to PCRE module"));;
  ret ok.

Definition CHECK_REGEXP_SINK_TYPE (sink : ptr) : RM bool :=
  ok ← (match sink with
        | None => ret false
        | Some k => sk ← rd_sink k; re ← rd_regexp (sk_regexp sk); ret (bool_decide (re_module re = HAKA_MODULE))
        end);
  (if ok : bool then skip else rxvb (error "Wrong regexp_sink struct passed to PCRE module"));;
  ret ok.

(** ** Expressions *)

Definition compile_options (options : Z) : Z :=
  let o := DEFAULT_COMPILE_OPTIONS in
  let o := if bool_decide (Z.land options REGEXP_CASE_INSENSITIVE ≠ 0) then Z.lor o PCRE_CASELESS else o in
  if bool_decide (Z.land options REGEXP_EXTENDED ≠ 0) then Z.lor o PCRE_EXTENDED else o.

Definition compile (pattern : string) (options : Z) : RM ptr :=
  p ← rxvb malloc;
  match p with
  | None => rxvb (error "memory error");; ret None
  | Some r =>
      match pcre_compile pattern (compile_options options) with
      | None => rxvb (error "PCRE compilation failed");; ret None
      | Some c => wr_regexp r (Regexp HAKA_MODULE 1 c WSCOUNT_DEFAULT);; ret (Some r)
      end
  end.

Definition release_regexp (re : ptr) : RM unit :=
  ok ← CHECK_REGEXP_TYPE re;
  if negb ok then skip else
  r ← deref re;
  x ← rd_regexp r;
  let n := u32 (re_ref_count x - 1) in
  wr_regexp r (set_re_ref n x);;
  if bool_decide (n ≠ 0) then skip else
  modify (λ s, set_regexps (delete r (rx_regexps s)) s).

(** The code, and what is stored in [*result]. *)
Definition _exec (re : ptr) (buf : list Z) (len : Z) (result : option regexp_result)
    : RM (Z * option regexp_result) :=
  ok ← CHECK_REGEXP_TYPE re;
  if negb ok then ret (REGEXP_ERROR, result) else
  r ← deref re;
  x ← rd_regexp r;
  let result := (λ _, regexp_result_init) <$> result in
  let '(code, ovector) := pcre_exec (re_pcre x) buf len 0 in
  if bool_decide (0 ≤ code) then
    ret (REGEXP_MATCH, (λ _, Found (u64 ovector.1) (u64 ovector.2)) <$> result)
  else if bool_decide (code = PCRE_ERROR_NOMATCH) then ret (REGEXP_NOMATCH, result)
  else rxvb (error "PCRE internal error");; ret (REGEXP_ERROR, result).

Definition exec (re : ptr) (buf : list Z) (len : Z) (result : option regexp_result)
    : RM (Z * option regexp_result) :=
  c_assert (negb (is_null re));; _exec re buf len result.

Definition match_ (pattern : string) (options : Z) (buf : list Z) (len : Z) (result : option regexp_result)
    : RM (Z * option regexp_result) :=
  re ← compile pattern options;
  match re with
  | None => ret (REGEXP_ERROR, result)
  | Some _ =>
      r ← exec re buf len result;
      release_regexp re;;
      ret r
  end.

(** ** Sinks *)

Definition _create_sink (re : ptr) : RM ptr :=
  ok ← CHECK_REGEXP_TYPE re;
  if negb ok then ret None else
  r ← deref re;
  p ← rxvb malloc;
  match p with
  | None => rxvb (error "memory error");; ret None
  | Some k =>
      x ← rd_regexp r;
      w ← calloc_space (re_wscount_max x);
      match w with
      | None => rxvb (error "memory error");; ret None
      | Some _ =>
          wr_sink k (Sink r REGEXP_NOMATCH false 0 (re_wscount_max x) w);;
          wr_regexp r (set_re_ref (u32 (re_ref_count x + 1)) x);;
          ret (Some k)
      end
  end.

Definition create_sink (re : ptr) : RM ptr := c_assert (negb (is_null re));; _create_sink re.

Definition _free_regexp_sink (sink : ptr) : RM unit :=
  k ← deref sink;
  sk ← rd_sink k;
  release_regexp (Some (sk_regexp sk));;
  free_space (sk_workspace sk);;
  modify (λ s, set_sinks (delete k (rx_sinks s)) s).

Definition free_regexp_sink (sink : ptr) : RM unit :=
  ok ← CHECK_REGEXP_SINK_TYPE sink;
  if negb ok then skip else _free_regexp_sink sink.

Definition workspace_grow (sink : loc) : RM bool :=
  sk ← rd_sink sink;
  x ← rd_regexp (sk_regexp sk);
  let wscount := u32 (sk_wscount sk * 2) in
  let sk := set_workspace wscount (sk_workspace sk) sk in
  wr_sink sink sk;;
  if bool_decide (wscount > WSCOUNT_MAX) then rxvb (error "PCRE workspace too big");; ret false else
  (if bool_decide (wscount > re_wscount_max x) then wr_regexp (sk_regexp sk) (set_wscount_max wscount x) else skip);;
  w ← realloc_space (sk_workspace sk) wscount;
  wr_sink sink (set_workspace wscount w sk);;
  match w with
  | None => rxvb (error "memory error");; ret false
  | Some _ => ret true
  end.

(** ** A piece of a stream *)

(** The options of [pcre_dfa_exec], from the sink before the call. *)
Definition exec_options (eof : bool) (sk : regexp_sink_pcre) : Z :=
  let o := if eof then PCRE_PARTIAL_SOFT else PCRE_PARTIAL_HARD in
  let o := if sk_started sk then Z.lor o PCRE_NOTBOL else o in
  let o := if bool_decide (sk_match sk = REGEXP_PARTIAL) then Z.lor o PCRE_DFA_RESTART else o in
  if eof then o else Z.lor o PCRE_NOTEOL.

(** The loop that grows the workspace; [None] when it cannot. PCRE uses [wscount] integers
    at the address of the workspace. The workspace doubles and stays below [WSCOUNT_MAX],
    which bounds the loop by [fuel]. *)
Fixpoint dfa_loop (fuel : nat) (sink : loc) (buf : list Z) (len options code : Z) : RM (option (Z * (Z * Z))) :=
  ok ← (if bool_decide (code = PCRE_ERROR_DFA_WSSIZE) then workspace_grow sink else ret true);
  if negb ok then ret None else
  sk ← rd_sink sink;
  x ← rd_regexp (sk_regexp sk);
  w ← deref (sk_workspace sk);
  ws ← rd_space w;
  c_assert (bool_decide (sk_wscount sk ≤ zlen ws));;
  let '(code, ovector, ws') := pcre_dfa_exec (re_pcre x) buf len options (ztake (sk_wscount sk) ws) in
  wr_space w (zput 0 ws' ws);;
  if bool_decide (code = PCRE_ERROR_DFA_WSSIZE) then
    match fuel with O => stuck | S fuel => dfa_loop fuel sink buf len options code end
  else ret (Some (code, ovector)).

Definition grow_fuel : nat := 11.

Definition set_first (n : Z) (r : regexp_result) : regexp_result := Found n (last_ r).
Definition set_last (n : Z) (r : regexp_result) : regexp_result := Found (first r) n.

(** The code behind the label [try_again]; [None] when it goes back to the label. *)
Definition partial_try (sink : loc) (buf : list Z) (len : Z) (eof : bool) (code : Z) (result : option regexp_result)
    : RM (option (Z * option regexp_result)) :=
  sk ← rd_sink sink;
  let options := exec_options eof sk in
  wr_sink sink (set_started sk);;
  answer ← dfa_loop grow_fuel sink buf len options code;
  match answer with
  | None => ret (Some (REGEXP_ERROR, result))
  | Some (code, ovector) =>
      sk ← rd_sink sink;
      let at_ (n : Z) := u64 (sk_processed_length sk + n) in
      let begun := if bool_decide (sk_match sk = REGEXP_NOMATCH) then set_first (at_ ovector.1) <$> result else result in
      if bool_decide (0 ≤ code) then
        let result := if bool_decide (sk_match sk ≠ REGEXP_MATCH) then set_last (at_ ovector.2) <$> begun else begun in
        wr_sink sink (set_processed REGEXP_MATCH len sk);; ret (Some (REGEXP_MATCH, result))
      else if bool_decide (code = PCRE_ERROR_PARTIAL) then
        wr_sink sink (set_processed REGEXP_PARTIAL len sk);; ret (Some (REGEXP_PARTIAL, begun))
      else if bool_decide (code = PCRE_ERROR_NOMATCH) then
        if bool_decide (sk_match sk = REGEXP_PARTIAL) then wr_sink sink (set_match REGEXP_NOMATCH sk);; ret None
        else wr_sink sink (set_processed REGEXP_NOMATCH len sk);; ret (Some (REGEXP_NOMATCH, result))
      else
        wr_sink sink (set_match REGEXP_ERROR sk);;
        rxvb (error "PCRE internal error");; ret (Some (REGEXP_ERROR, result))
  end.

(** The code goes back to the label once at most: no match has begun then. *)
Definition _partial_exec (sink : ptr) (buf : list Z) (len : Z) (eof : bool) (result : option regexp_result)
    : RM (Z * option regexp_result) :=
  k ← deref sink;
  sk ← rd_sink k;
  if is_null (sk_workspace sk) then rxvb (error "Invalid sink. NULL workspace");; ret (REGEXP_ERROR, result)
  else if bool_decide (sk_match sk > 0) then ret (sk_match sk, result)
  else
    r ← partial_try k buf len eof (-1) result;
    match r with
    | Some r => ret r
    | None => r ← partial_try k buf len eof PCRE_ERROR_NOMATCH result; deref r
    end.

Definition feed (sink : ptr) (buf : list Z) (len : Z) (eof : bool) (result : option regexp_result)
    : RM (Z * option regexp_result) :=
  ok ← CHECK_REGEXP_SINK_TYPE sink;
  if negb ok then ret (REGEXP_ERROR, result) else _partial_exec sink buf len eof result.

(** ** Buffers *)

(** A position of the result inside the piece at [piter], when there is one. *)
Definition place (piter : vbuffer_iterator) (n offset : Z) (it : option vbuffer_iterator) : RM (option vbuffer_iterator) :=
  match it with
  | Some _ =>
      if bool_decide (n ≠ size_max) then
        it ← rxvb (vbuffer_iterator_copy piter);
        '(_, it) ← rxvb (vbuffer_iterator_advance it (u64 (n - offset)));
        ret (Some it)
      else ret it
  | None => ret None
  end.

(** The match of the previous piece: whether to stop, and the iterators. *)
Definition match_piece (sink : loc) (pptr : loc * Z) (plen : Z) (piter : vbuffer_iterator) (eof : bool)
    (begin end_ : option vbuffer_iterator) : RM (bool * option vbuffer_iterator * option vbuffer_iterator) :=
  sk ← rd_sink sink;
  let offset := sk_processed_length sk in
  bs ← rxvb (ptr_read pptr plen);
  '(code, result) ← _partial_exec (Some sink) bs (s32 plen) eof (Some regexp_result_init);
  let result := default regexp_result_init result in
  begin ← place piter (first result) offset begin;
  end_ ← place piter (last_ result) offset end_;
  ret (bool_decide (code ≠ REGEXP_NOMATCH) && bool_decide (code ≠ REGEXP_PARTIAL), begin, end_).

(** The loop over the pieces: [pptr] is the previous one, which is not matched yet, with
    the address of its bytes, its length and its position. *)
Fixpoint vbpartial_loop (fuel : nat) (sink : loc) (vbuf : vbuffer_sub) (_eof : bool) (mmap_iter : vbuffer_sub_mmap)
    (iter : vbuffer_iterator) (pptr : option (loc * Z)) (plen : Z) (piter : vbuffer_iterator)
    (begin end_ : option vbuffer_iterator) : RM (option vbuffer_iterator * option vbuffer_iterator) :=
  '(r, len, mmap_iter) ← rxvb (vbuffer_mmap_len vbuf false mmap_iter);
  let ptr := match r with Some (b, o, _, _) => Some (b, o) | None => None end in
  let iter := match r with Some (_, _, _, p) => p | None => iter end in
  let last := is_null ptr in
  let eof := _eof && last in
  let next (go : RM (option vbuffer_iterator * option vbuffer_iterator)) (pptr : option (loc * Z)) begin end_ :=
    if is_null pptr then ret (begin, end_) else go in
  if bool_decide (len = 0) && negb last then
    next (match fuel with O => stuck | S fuel => vbpartial_loop fuel sink vbuf _eof mmap_iter iter pptr plen piter begin end_ end)
      pptr begin end_
  else
    '(stop, begin, end_) ←
      (match pptr with
       | None => ret (false, begin, end_)
       | Some p => match_piece sink p plen piter (eof && bool_decide (len = 0)) begin end_
       end);
    if stop : bool then ret (begin, end_) else
    next (match fuel with O => stuck | S fuel => vbpartial_loop fuel sink vbuf _eof mmap_iter iter ptr len iter begin end_ end)
      ptr begin end_.

Definition _vbpartial_exec (sink : ptr) (vbuf : option vbuffer_sub) (eof : bool) (begin end_ : option vbuffer_iterator)
    : RM (Z * option vbuffer_iterator * option vbuffer_iterator) :=
  k ← deref sink;
  '(begin, end_) ←
    (match vbuf with
     | None =>
         sk ← rd_sink k;
         (if eof && bool_decide (sk_match sk = REGEXP_PARTIAL) then
            _ ← _partial_exec sink [] 0 eof None; skip
          else skip);;
         ret (begin, end_)
     | Some vbuf =>
         fuel ← rxvb chunk_fuel;
         vbpartial_loop (S fuel) k vbuf eof vbuffer_mmap_init vbuffer_iterator_init None 0 vbuffer_iterator_init begin end_
     end);
  sk ← rd_sink k;
  ret (sk_match sk, begin, end_).

Definition vbfeed (sink : ptr) (vbuf : option vbuffer_sub) (eof : bool) (begin end_ : option vbuffer_iterator)
    : RM (Z * option vbuffer_iterator * option vbuffer_iterator) :=
  ok ← CHECK_REGEXP_SINK_TYPE sink;
  if negb ok then ret (REGEXP_ERROR, begin, end_) else _vbpartial_exec sink vbuf eof begin end_.

(** [result] asks for the range of the match; it is what the code leaves in it. *)
Definition vbexec (re : ptr) (vbuf : vbuffer_sub) (result : option vbuffer_sub) : RM (Z * option vbuffer_sub) :=
  c_assert (negb (is_null re));;
  sink ← _create_sink re;
  match sink with
  | None => ret (REGEXP_ERROR, result)
  | Some k =>
      result ← (match result with
                | Some _ =>
                    '(_, begin, end_) ← _vbpartial_exec sink (Some vbuf) true
                      (Some (sb_begin vbuffer_sub_init)) (Some vbuffer_iterator_init);
                    ret (Some (Sub (default vbuffer_iterator_init begin) (sb_use_size vbuffer_sub_init)
                      (SubEnd (default vbuffer_iterator_init end_))))
                | None => _ ← _vbpartial_exec sink (Some vbuf) true None None; ret None
                end);
      sk ← rd_sink k;
      let code := if bool_decide (sk_match sk = REGEXP_PARTIAL) then REGEXP_NOMATCH else sk_match sk in
      _free_regexp_sink sink;;
      ret (code, result)
  end.

Definition vbmatch (pattern : string) (options : Z) (vbuf : vbuffer_sub) (result : option vbuffer_sub)
    : RM (Z * option vbuffer_sub) :=
  re ← compile pattern options;
  match re with
  | None => ret (REGEXP_ERROR, result)
  | Some _ =>
      r ← vbexec re vbuf result;
      release_regexp re;;
      ret r
  end.
End regexp.
