(* ===== verification/RegexpSpec.v ===== *)
(** * Matching a stream piece after piece (modules/regexp/pcre/main.c)

    What the answers of [feed] mean for the whole stream, from what PCRE documents of the
    answers for one piece. *)

From S2P Require Import Prelude List2 VbHeap VbIter VbSub VbRep VbWalk VbFrame VbMake VbRead VbSelect Regexp.

(** ** What PCRE promises *)

Definition restarts (options : Z) : bool := bool_decide (Z.land options PCRE_DFA_RESTART ≠ 0).

Section pcre.
Context {P : Pcre}.

(** No part of the bytes is a text of the expression. *)
Definition absent (says : list Z → Prop) (buf : list Z) : Prop :=
  ∀ i n, 0 ≤ i → 0 ≤ n → i + n ≤ zlen buf → ¬ says (zslice i n buf).

(** What PCRE documents (pcreapi, pcrematching, pcrepartial) for an expression [p] that does
    not look at what surrounds a match: it has no anchors, no lookbehind or lookahead, no
    word boundaries, so that the options for the ends of lines make no difference. [says text]:
    the text is one that the expression matches. [live ws text]: the workspace holds a match
    that has begun with the text. The codes 0 and above tell a match, with its ends in the
    output vector; [PCRE_ERROR_PARTIAL] that the subject ends inside a match;
    [PCRE_ERROR_NOMATCH] that nothing matches. A call with [PCRE_DFA_RESTART] goes on with a
    match that has begun, in the workspace that the call before has left. After the answer
    [PCRE_ERROR_DFA_WSSIZE] nothing is promised of the workspace. *)
Record pcre_ok (p : pcre) (says : list Z → Prop) (live : list Z → list Z → Prop) : Prop := {
  po_space : ∀ buf o ws code ov ws',
    pcre_dfa_exec p buf (zlen buf) o ws = (code, ov, ws') → zlen ws' = zlen ws;
  po_match : ∀ buf o ws code i j ws', restarts o = false →
    pcre_dfa_exec p buf (zlen buf) o ws = (code, (i, j), ws') → 0 ≤ code →
    0 ≤ i ≤ j ∧ j ≤ zlen buf ∧ says (zslice i (j - i) buf);
  po_partial : ∀ buf o ws i j ws', restarts o = false →
    pcre_dfa_exec p buf (zlen buf) o ws = (PCRE_ERROR_PARTIAL, (i, j), ws') →
    0 ≤ i ≤ zlen buf ∧ live ws' (zdrop i buf);
  po_nomatch : ∀ buf o ws ov ws', restarts o = false →
    pcre_dfa_exec p buf (zlen buf) o ws = (PCRE_ERROR_NOMATCH, ov, ws') → absent says buf;
  po_match_on : ∀ buf o ws text code i j ws', restarts o = true → live ws text →
    pcre_dfa_exec p buf (zlen buf) o ws = (code, (i, j), ws') → 0 ≤ code →
    0 ≤ j ≤ zlen buf ∧ says (text ++ ztake j buf);
  po_partial_on : ∀ buf o ws text ov ws', restarts o = true → live ws text →
    pcre_dfa_exec p buf (zlen buf) o ws = (PCRE_ERROR_PARTIAL, ov, ws') → live ws' (text ++ buf);
}.

(** A match that goes on in [buf] asks for a greater workspace. *)
Definition ran_out (p : pcre) (live : list Z → list Z → Prop) (buf : list Z) : Prop :=
  ∃ o ws text, restarts o = true ∧ live ws text ∧ (pcre_dfa_exec p buf (zlen buf) o ws).1.1 = PCRE_ERROR_DFA_WSSIZE.

Lemma zput_all (l l' : list Z) : zlen l' = zlen l → zput 0 l' l = l'.
Proof. intros E. unfold zput. rewrite ztake_0, zdrop_ge by lia. simpl. by rewrite app_nil_r. Qed.

(** ** The stream *)

(** How far the stream is: no match has begun, one has at the position [f], one was found;
    or the workspace of a match that goes on has grown, and what PCRE answers from then on
    is not known to mean anything, until it gives the match up. *)
Inductive progress := Idle | Begun (f : Z) | Done (f l : Z) | Lost (found : bool).

Definition code_of (m : progress) : Z :=
  match m with
  | Idle => REGEXP_NOMATCH
  | Begun _ | Lost false => REGEXP_PARTIAL
  | Done _ _ | Lost true => REGEXP_MATCH
  end.

Definition lost (m : progress) : Prop := ∃ found, m = Lost found.

(** The sink and its workspace stand for the progress in the bytes [hist]. *)
Definition tracks (says : list Z → Prop) (live : list Z → list Z → Prop) (hist : list Z)
    (m : progress) (sk : regexp_sink_pcre) (ws : list Z) : Prop :=
  sk_match sk = code_of m ∧
  match m with
  | Idle | Lost false => sk_processed_length sk = zlen hist
  | Begun f => sk_processed_length sk = zlen hist ∧ 0 ≤ f ≤ zlen hist ∧ live ws (zdrop f hist)
  | Done f l => 0 ≤ f ≤ l ∧ l ≤ zlen hist ∧ says (zslice f (l - f) hist)
  | Lost true => True
  end.

(** What is stored of the new progress [m'] at a piece behind [n] bytes. *)
Definition noted (n : Z) (m m' : progress) (r r' : option regexp_result) : Prop :=
  match m' with
  | Idle => r' = r
  | Begun f => m = Begun f ∧ r' = r ∨ n ≤ f ∧ r' = set_first f <$> r
  | Done f l => n ≤ l ∧ (m = Begun f ∧ r' = set_last l <$> r ∨ n ≤ f ∧ r' = set_last l <$> (set_first f <$> r))
  | Lost false => r' = r
  | Lost true => ∃ l, r' = set_last l <$> r
  end.

Lemma restarts_options eof sk : restarts (exec_options eof sk) = bool_decide (sk_match sk = REGEXP_PARTIAL).
Proof. unfold exec_options. by destruct eof, (sk_started sk), (bool_decide_reflect (sk_match sk = REGEXP_PARTIAL)). Qed.

(** ** The memory *)

Definition same_mem (v v' : vbstate) : Prop :=
  vb_links v' = vb_links v ∧ vb_chunks v' = vb_chunks v ∧ vb_datas v' = vb_datas v.

Lemma same_mem_refl v : same_mem v v.
Proof. done. Qed.
Lemma same_mem_trans v1 v2 v3 : same_mem v1 v2 → same_mem v2 v3 → same_mem v1 v3.
Proof. unfold same_mem. naive_solver congruence. Qed.
Lemma same_mem_raised v msg : same_mem v (raised msg v).
Proof. unfold raised, same_mem. by destruct (vb_error v). Qed.
Lemma same_mem_take v n : same_mem v (take_address n v).
Proof. done. Qed.

(** The state is the base [b] with the sink [k], its expression and its workspace [ws]. *)
Record holds (b : rxstate) (k : loc) (sk : regexp_sink_pcre) (x : regexp_pcre) (ws : list Z) (s : rxstate) : Prop := {
  h_mem : same_mem (rx_vb b) (rx_vb s);
  h_sinks : rx_sinks s = <[k := sk]> (rx_sinks b);
  h_re : rx_regexps s = <[sk_regexp sk := x]> (rx_regexps b);
  h_module : re_module x = HAKA_MODULE;
  h_space : ∃ w, sk_workspace sk = Some w ∧ rx_spaces b !! w = None ∧ rx_spaces s = <[w := ws]> (rx_spaces b);
  h_fresh : ∀ y, is_Some (rx_spaces s !! y) → (y < vb_fresh (rx_vb s))%positive;
}.

(** The workspace has the size that the sink says, within the limits. *)
Definition sized (sk : regexp_sink_pcre) (ws : list Z) : Prop :=
  sk_wscount sk = zlen ws ∧ 1 ≤ zlen ws ≤ WSCOUNT_MAX.

(** The memory for all the growths of a workspace. *)
Definition plenty (ws : list Z) (s : rxstate) : Prop :=
  WSCOUNT_MAX < zlen ws * 2 ^ (Z.of_nat (vb_mem (rx_vb s)) + 1).

(** An error is pending. *)
Definition failed (s : rxstate) : Prop := is_Some (vb_error (rx_vb s)).

Lemma failed_raised s msg : failed (set_rx_vb (raised msg (rx_vb s)) s).
Proof. unfold failed, raised. simpl. destruct (vb_error (rx_vb s)) eqn:E; by rewrite ?E. Qed.

(** The same sink but for the workspace. *)
Definition same_sink (sk sk' : regexp_sink_pcre) : Prop :=
  ∃ n w, sk' = set_workspace n w sk.
(** The same expression but for the size of the next workspaces. *)
Definition same_regexp (x x' : regexp_pcre) : Prop := ∃ n, x' = set_wscount_max n x.

Lemma same_sink_refl sk : same_sink sk sk.
Proof. exists (sk_wscount sk), (sk_workspace sk). by destruct sk. Qed.
Lemma same_sink_trans a b c : same_sink a b → same_sink b c → same_sink a c.
Proof. intros (n & w & ->) (n' & w' & ->). by exists n', w'. Qed.
Lemma same_regexp_refl x : same_regexp x x.
Proof. exists (re_wscount_max x). by destruct x. Qed.
Lemma same_regexp_trans a b c : same_regexp a b → same_regexp b c → same_regexp a c.
Proof. intros (n & ->) (n' & ->). by exists n'. Qed.

Section sink.
Context (b : rxstate) (k : loc).
Implicit Types (sk : regexp_sink_pcre) (x : regexp_pcre) (s : rxstate).

Lemma runs_rd_sink sk x ws s Q : holds b k sk x ws s → Q sk s → runs (rd_sink k) s Q.
Proof. intros H HQ. unfold rd_sink. step. rewrite (h_sinks _ _ _ _ _ _ H), lookup_insert_eq. by step. Qed.

Lemma runs_rd_regexp sk x ws s Q : holds b k sk x ws s → Q x s → runs (rd_regexp (sk_regexp sk)) s Q.
Proof. intros H HQ. unfold rd_regexp. step. rewrite (h_re _ _ _ _ _ _ H), lookup_insert_eq. by step. Qed.

Lemma runs_wr_sink sk x ws s sk' Q :
  holds b k sk x ws s → sk_regexp sk' = sk_regexp sk → sk_workspace sk' = sk_workspace sk →
  (∀ s', holds b k sk' x ws s' → rx_vb s' = rx_vb s → Q tt s') → runs (wr_sink k sk') s Q.
Proof.
  intros [] E1 E2 HQ. unfold wr_sink. step. apply HQ; [|done].
  split; simpl; rewrite ?E1, ?E2; try done. rewrite h_sinks0. by rewrite insert_insert_eq.
Qed.

Lemma runs_wr_max sk x ws s n Q :
  holds b k sk x ws s → (∀ s', holds b k sk (set_wscount_max n x) ws s' → rx_vb s' = rx_vb s → Q tt s') →
  runs (wr_regexp (sk_regexp sk) (set_wscount_max n x)) s Q.
Proof.
  intros [] HQ. unfold wr_regexp. step. apply HQ; [|done]. split; simpl; try done.
  rewrite h_re0. by rewrite insert_insert_eq.
Qed.

Lemma runs_rxvb_error sk x ws s msg Q :
  holds b k sk x ws s → (∀ s', holds b k sk x ws s' → failed s' → Q tt s') → runs (rxvb (error msg)) s Q.
Proof.
  intros [] HQ. unfold rxvb, error. step. step. apply HQ; [|apply failed_raised].
  split; simpl; try done; [|unfold raised; by destruct (vb_error (rx_vb s))].
  eapply same_mem_trans; [done|apply same_mem_raised].
Qed.

(** ** Growth of the workspace *)

Lemma runs_realloc sk x ws s w n Q :
  holds b k sk x ws s → sk_workspace sk = Some w → zlen ws ≤ n →
  (vb_mem (rx_vb s) = 0%nat → Q None s) →
  (∀ s' w' ws', holds b k (set_workspace n (Some w') sk) x ws' (set_sinks (<[k := set_workspace n (Some w') sk]> (rx_sinks b)) s') →
    rx_sinks s' = rx_sinks s → zlen ws' = n → vb_mem (rx_vb s) = S (vb_mem (rx_vb s')) → Q (Some w') s') →
  runs (realloc_space (Some w) n) s Q.
Proof.
  intros [] Ew Hn Hfail HQ. destruct h_space0 as (w0 & E0 & Hw & Es). rewrite Ew in E0. injection E0 as <-.
  unfold realloc_space. step. unfold rd_space at 1. step. rewrite Es, lookup_insert_eq. step.
  destruct (vb_mem (rx_vb s)) as [|m] eqn:Em.
  - apply runs_bind. unfold rxvb. step. unfold malloc. eapply runs_eq; [by rewrite Em|].
    replace (set_rx_vb (rx_vb s) s) with s by (by destruct s). step. by apply Hfail.
  - apply runs_bind. unfold rxvb. step. eapply runs_malloc; [exact Em|]. step. simpl.
    unfold free_space, rd_space. step. simpl. rewrite Es, lookup_insert_eq. step. step. step. simpl.
    assert (rx_spaces b !! vb_fresh (rx_vb s) = None) as Hf.
    { apply eq_None_not_Some. intros Hs.
      assert (is_Some (rx_spaces s !! vb_fresh (rx_vb s))) as Hx%h_fresh0; [|lia].
      rewrite Es. destruct (decide (w = vb_fresh (rx_vb s))) as [->|]; [by rewrite lookup_insert_eq|by rewrite lookup_insert_ne]. }
    unfold wr_space. step. step. apply (HQ _ _ (ztake n ws ++ replicate (Z.to_nat (n - zlen ws)) (vb_junk (rx_vb s)))); simpl; [|done| |done].
    + split; simpl; try done.
      * rewrite Es, delete_insert_eq, delete_id by done. by exists (vb_fresh (rx_vb s)).
      * rewrite Es, delete_insert_eq, delete_id by done. intros y Hy. destruct (decide (y = vb_fresh (rx_vb s))) as [->|Hy']; [lia|].
        rewrite lookup_insert_ne in Hy by done. pose proof (h_fresh0 y) as Hlt. rewrite Es in Hlt.
        destruct (decide (y = w)) as [->|]; [by rewrite Hw in Hy; destruct Hy|].
        rewrite lookup_insert_ne in Hlt by done. specialize (Hlt Hy). lia.
    + rewrite zlen_app, ztake_ge by done. unfold zlen. rewrite length_replicate. unfold zlen in Hn. lia.
Qed.

(** A growth that succeeds, and one that fails, with the error that it leaves. *)
Lemma runs_workspace_grow sk x ws s Q :
  holds b k sk x ws s → sized sk ws →
  (∀ s', failed s' → (plenty ws s → ∃ sk' x', holds b k sk' x' ws s' ∧ same_sink sk sk' ∧ same_regexp x x') → Q false s') →
  (∀ s' sk' x' ws', holds b k sk' x' ws' s' → sized sk' ws' → same_sink sk sk' → same_regexp x x' →
    zlen ws' = 2 * zlen ws → (plenty ws s → plenty ws' s') → Q true s') →
  runs (workspace_grow k) s Q.
Proof.
  intros H [Ec Hr] Hfail HQ. destruct (h_space _ _ _ _ _ _ H) as (w & Ew & _).
  unfold workspace_grow. call runs_rd_sink; [exact H|]. call runs_rd_regexp; [exact H|].
  unfold WSCOUNT_MAX in *. rewrite Ec. wraps.
  call (runs_wr_sink sk x ws s); [exact H|done|done|]. intros s1 H1 V1. case_test as Ebig.
  { call runs_rxvb_error; [exact H1|]. intros s2 H2 F2. step. apply Hfail; [done|]. intros _. eexists _, x.
    split_and!; [exact H2|by eexists _, _|apply same_regexp_refl]. }
  set (n := zlen ws * 2) in *. set (sk1 := set_workspace n (sk_workspace sk) sk) in *.
  assert (∀ Q', (∀ s2 x', holds b k sk1 x' ws s2 → same_regexp x x' → rx_vb s2 = rx_vb s1 → Q' tt s2) →
    runs (if bool_decide (n > re_wscount_max x) then wr_regexp (sk_regexp sk1) (set_wscount_max n x) else skip) s1 Q') as Hmax.
  { intros Q' HQ'. case_bool_decide.
    - eapply (runs_wr_max sk1); [exact H1|]. intros s2 H2 V2. eapply HQ'; [exact H2|by eexists|done].
    - unfold skip. step. eapply HQ'; [exact H1|apply same_regexp_refl|done]. }
  call Hmax. intros s2 x' H2 Hx V2. change (sk_workspace sk1) with (sk_workspace sk). rewrite Ew.
  call (runs_realloc sk1 x' ws s2 w n); [exact H2|exact Ew|lia| |].
  - intros Em. unfold wr_sink. step. unfold rxvb, error. step. step. step. step. apply Hfail; [apply failed_raised|].
    intros Hp. exfalso. unfold plenty in Hp. rewrite <- V1, <- V2, Em in Hp. unfold WSCOUNT_MAX in Hp. lia.
  - intros s3 w' ws' H3 E3 En Em. unfold wr_sink. step. rewrite E3, (h_sinks _ _ _ _ _ _ H2), insert_insert_eq. step.
    eapply HQ; [exact H3| |by eexists _, _|done|lia|].
    + split; simpl; [lia|]. unfold WSCOUNT_MAX. lia.
    + unfold plenty. rewrite <- V1, <- V2, Em, En. cbn [rx_vb set_sinks]. intros Hp.
      replace (n * _) with (zlen ws * (2 * 2 ^ (Z.of_nat (vb_mem (rx_vb s3)) + 1))) by lia.
      rewrite <- Z.pow_succ_r by lia. by replace (Z.succ _) with (Z.of_nat (S (vb_mem (rx_vb s3))) + 1) by lia.
Qed.

Lemma runs_wr_space sk x ws s w ws' Q :
  holds b k sk x ws s → sk_workspace sk = Some w →
  (∀ s', holds b k sk x ws' s' → rx_vb s' = rx_vb s → Q tt s') → runs (wr_space w ws') s Q.
Proof.
  intros [] Ew HQ. destruct h_space0 as (w0 & E0 & Hw & Es). rewrite Ew in E0. injection E0 as <-.
  unfold wr_space. step. apply HQ; [|done]. split; simpl; try done.
  - exists w. split_and!; [done..|]. by rewrite Es, insert_insert_eq.
  - intros y Hy. apply h_fresh0. rewrite Es in *. destruct (decide (y = w)) as [->|]; [by rewrite lookup_insert_eq|].
    by rewrite !lookup_insert_ne in * by done.
Qed.

(** ** One call of PCRE *)

Lemma runs_maybe_grow code sk x ws s c Q :
  holds b k sk x ws s → sized sk ws →
  WSCOUNT_MAX < zlen ws * c * (if bool_decide (code = PCRE_ERROR_DFA_WSSIZE) then 2 else 1) →
  (∀ s', failed s' → (plenty ws s → ∃ sk' x', holds b k sk' x' ws s' ∧ same_sink sk sk' ∧ same_regexp x x') → Q false s') →
  (∀ s' sk' x' ws', holds b k sk' x' ws' s' → sized sk' ws' → same_sink sk sk' → same_regexp x x' →
    (code ≠ PCRE_ERROR_DFA_WSSIZE → ws' = ws) → WSCOUNT_MAX < zlen ws' * c → (plenty ws s → plenty ws' s') → Q true s') →
  runs (if bool_decide (code = PCRE_ERROR_DFA_WSSIZE) then workspace_grow k else ret true) s Q.
Proof.
  intros H Hsz Hc Hfail HQ. case_bool_decide as Ecode.
  - eapply runs_workspace_grow; [exact H|exact Hsz|exact Hfail|]. intros s' sk' x' ws' H' S' K X En Hp. eapply HQ; try done. lia.
  - step. eapply HQ; try done; [apply same_sink_refl|apply same_regexp_refl|lia].
Qed.

Context (p : pcre) (says : list Z → Prop) (live : list Z → list Z → Prop) (Ok : pcre_ok p says live).

(** The last call answers something else than that the workspace is too small; it is the
    first call when that has the room it needs. *)
Lemma dfa_loop_spec buf options : ∀ fuel code sk x ws s Q,
  holds b k sk x ws s → sized sk ws → re_pcre x = p →
  WSCOUNT_MAX < zlen ws * 2 ^ Z.of_nat fuel * (if bool_decide (code = PCRE_ERROR_DFA_WSSIZE) then 2 else 1) →
  (∀ s', failed s' → (plenty ws s → ∃ sk' x' ws', holds b k sk' x' ws' s' ∧ same_sink sk sk' ∧ same_regexp x x') → Q None s') →
  (∀ s' sk' x' ws0 ws' code' ov, holds b k sk' x' ws' s' → sized sk' ws' → same_sink sk sk' → same_regexp x x' →
    pcre_dfa_exec p buf (zlen buf) options ws0 = (code', ov, ws') → code' ≠ PCRE_ERROR_DFA_WSSIZE →
    (code ≠ PCRE_ERROR_DFA_WSSIZE → (pcre_dfa_exec p buf (zlen buf) options ws).1.1 ≠ PCRE_ERROR_DFA_WSSIZE → ws0 = ws) →
    (plenty ws s → plenty ws' s') → Q (Some (code', ov)) s') →
  runs (dfa_loop fuel k buf (zlen buf) options code) s Q.
Proof using Ok.
  induction fuel as [|fuel IH]; intros code sk x ws s Q H Hsz Ep Hf Hfail HQ; cbn [dfa_loop].
  all: call (runs_maybe_grow code sk x ws s); [exact H|exact Hsz|exact Hf|
    intros s1 F1 Hp1; cbn [negb]; step; apply Hfail; [done|]; intros Hp; destruct (Hp1 Hp) as (sk1 & x1 & ?); by exists sk1, x1, ws|].
  all: intros s1 sk1 x1 ws1 H1 S1 K1 X1 E1 R1 P1; cbn [negb].
  all: destruct (h_space _ _ _ _ _ _ H1) as (w & Ew & _ & Es); destruct S1 as [Ec Hr]; destruct X1 as [mx ->].
  all: call runs_rd_sink; [exact H1|]; call runs_rd_regexp; [exact H1|]; rewrite Ew; step.
  all: unfold rd_space; step; rewrite Es, lookup_insert_eq; step; (step; [apply bool_decide_true; lia|]); rewrite Ec, ztake_ge by lia.
  all: cbn [re_pcre set_wscount_max]; rewrite Ep; destruct (pcre_dfa_exec p buf (zlen buf) options ws1) as [[code' ov] ws2] eqn:Ex.
  all: pose proof (po_space _ _ _ Ok _ _ _ _ _ _ Ex) as E2; rewrite zput_all by lia.
  all: call (runs_wr_space sk1 (set_wscount_max mx x) ws1 s1 w); [exact H1|exact Ew|]; intros s2 H2 V2.
  all: assert (plenty ws s → plenty ws2 s2) as P2 by (intros Hp; specialize (P1 Hp); unfold plenty in *; by rewrite V2, E2).
  { exfalso. change (2 ^ Z.of_nat 0) with 1 in R1. lia. }
  case_test as Ecode.
  - eapply IH; [exact H2|split; lia|exact Ep| | |].
    + rewrite Ecode, bool_decide_true by done. rewrite E2. rewrite Nat2Z.inj_succ, Z.pow_succ_r in R1 by lia. lia.
    + intros s3 F3 Hp3. apply Hfail; [done|]. intros Hp. destruct (Hp3 (P2 Hp)) as (sk3 & x3 & ws3 & H3 & K3 & X3).
      exists sk3, x3, ws3. split_and!; [done|by eapply same_sink_trans|]. eapply same_regexp_trans; [by eexists|done].
    + intros s3 sk3 x3 ws0 ws3 code3 ov3 H3 S3 K3 X3 Ex3 Hne _ P3. eapply HQ; [exact H3|exact S3|by eapply same_sink_trans| |exact Ex3|done| |by auto].
      * eapply same_regexp_trans; [by eexists|done].
      * intros Hc Hx. rewrite (E1 Hc) in Ex. by rewrite Ex in Hx.
  - step. eapply HQ; [exact H2|split; lia|done|by eexists|exact Ex|done| |done]. intros Hc _. by apply E1.
Qed.

(** ** A piece of the stream *)

Lemma grow_enough code sk ws :
  sized sk ws → code ≠ PCRE_ERROR_DFA_WSSIZE →
  WSCOUNT_MAX < zlen ws * 2 ^ Z.of_nat grow_fuel * (if bool_decide (code = PCRE_ERROR_DFA_WSSIZE) then 2 else 1).
Proof using. intros [_ ?] ?. rewrite bool_decide_false by done. change (2 ^ Z.of_nat grow_fuel) with 2048. unfold WSCOUNT_MAX in *. lia. Qed.

(** The sink after a failure: it has found nothing. *)
Definition spoilt (sk : regexp_sink_pcre) (x : regexp_pcre) (s : rxstate) : Prop :=
  ∃ sk' x' ws', holds b k sk' x' ws' s ∧ sk_regexp sk' = sk_regexp sk ∧ sk_match sk' ≠ REGEXP_MATCH ∧ same_regexp x x'.

(** The answers of a piece [buf] behind [hist]. *)
Definition answers (hist buf : list Z) (m : progress) (r : option regexp_result)
    (sk : regexp_sink_pcre) (x : regexp_pcre) (ws : list Z) (s : rxstate)
    (Q : Z * option regexp_result → rxstate → Prop) : Prop :=
  (∀ s', failed s' → (plenty ws s → spoilt sk x s') → Q (REGEXP_ERROR, r) s') ∧
  (∀ s' sk' x' ws' m' r', holds b k sk' x' ws' s' → sized sk' ws' → same_regexp x x' → sk_regexp sk' = sk_regexp sk →
    tracks says live (hist ++ buf) m' sk' ws' → noted (zlen hist) m m' r r' →
    (m' = Idle → absent says buf) → (lost m' → lost m ∨ ran_out p live buf) → (plenty ws s → plenty ws' s') →
    Q (code_of m', r') s').

(** Where a match begins that PCRE reports at [i] of the piece. *)
Definition start_of (m : progress) (n i : Z) : Z := match m with Begun f => f | _ => n + i end.

(** The call has done what it is documented to do: it looked for a new match, or it went on
    in the workspace that was left for it. *)
Definition on_track (m : progress) (ws ws0 : list Z) : Prop := m = Idle ∨ ∃ f, m = Begun f ∧ ws0 = ws.

Lemma exec_match hist m sk ws buf o code i j ws' ws0 :
  tracks says live hist m sk ws → on_track m ws ws0 → restarts o = bool_decide (sk_match sk = REGEXP_PARTIAL) →
  pcre_dfa_exec p buf (zlen buf) o ws0 = (code, (i, j), ws') → 0 ≤ code →
  let f := start_of m (zlen hist) i in
  0 ≤ j ≤ zlen buf ∧ 0 ≤ f ≤ zlen hist + j ∧ (m = Idle → 0 ≤ i ≤ zlen buf) ∧ says (zslice f (zlen hist + j - f) (hist ++ buf)).
Proof using Ok.
  intros [Em Hm] Ht Er Ex E0. pose proof (zlen_nonneg hist). destruct Ht as [->|(f & -> & ->)]; simpl in *.
  - rewrite Em, bool_decide_false in Er by done. destruct (po_match _ _ _ Ok _ _ _ _ _ _ _ Er Ex E0) as (? & ? & Hs).
    split_and!; try lia. unfold zslice in *. rewrite zdrop_app_ge by lia.
    by replace (zlen hist + i - zlen hist) with i by lia; replace (zlen hist + j - (zlen hist + i)) with (j - i) by lia.
  - rewrite Em, bool_decide_true in Er by done. destruct Hm as (_ & Hf & Hl).
    destruct (po_match_on _ _ _ Ok _ _ _ _ _ _ _ _ Er Hl Ex E0) as (? & Hs). split_and!; try lia; [done|].
    unfold zslice. rewrite zdrop_app_le by lia. rewrite ztake_app_ge by (rewrite zlen_zdrop; lia).
    rewrite zlen_zdrop by lia. by replace (zlen hist + j - f - (zlen hist - f)) with j by lia.
Qed.

Lemma exec_partial hist m sk ws buf o i j ws' ws0 :
  tracks says live hist m sk ws → on_track m ws ws0 → restarts o = bool_decide (sk_match sk = REGEXP_PARTIAL) →
  pcre_dfa_exec p buf (zlen buf) o ws0 = (PCRE_ERROR_PARTIAL, (i, j), ws') →
  let f := start_of m (zlen hist) i in
  0 ≤ f ≤ zlen hist + zlen buf ∧ (m = Idle → 0 ≤ i ≤ zlen buf) ∧ live ws' (zdrop f (hist ++ buf)).
Proof using Ok.
  intros [Em Hm] Ht Er Ex. pose proof (zlen_nonneg hist). pose proof (zlen_nonneg buf).
  destruct Ht as [->|(f & -> & ->)]; simpl in *.
  - rewrite Em, bool_decide_false in Er by done. destruct (po_partial _ _ _ Ok _ _ _ _ _ _ Er Ex) as (? & Hl).
    split_and!; try lia. rewrite zdrop_app_ge by lia. by replace (zlen hist + i - zlen hist) with i by lia.
  - rewrite Em, bool_decide_true in Er by done. destruct Hm as (_ & Hf & Hl).
    split_and!; try lia; [done|]. rewrite zdrop_app_le by lia. by eapply (po_partial_on _ _ _ Ok).
Qed.

(** A call that goes on either finds the workspace it needs or loses track. *)
Lemma call_track hist m sk ws ws0 buf o :
  tracks says live hist m sk ws → code_of m ≠ REGEXP_MATCH → restarts o = bool_decide (sk_match sk = REGEXP_PARTIAL) →
  ((pcre_dfa_exec p buf (zlen buf) o ws).1.1 ≠ PCRE_ERROR_DFA_WSSIZE → ws0 = ws) →
  on_track m ws ws0 ∨ code_of m = REGEXP_PARTIAL ∧ (lost m ∨ ran_out p live buf).
Proof using.
  intros [Em Hm] Hnm Er Hw. destruct m as [|f|f l|[]]; try done; [by left; left| |right; split; [done|left; by eexists]].
  destruct (decide ((pcre_dfa_exec p buf (zlen buf) o ws).1.1 = PCRE_ERROR_DFA_WSSIZE)) as [E|E].
  - right. split; [done|]. right. destruct Hm as (_ & _ & Hl). exists o, ws, (zdrop f hist).
    split_and!; [by rewrite Er, Em; apply bool_decide_true|done|done].
  - left. right. exists f. split; [done|by apply Hw].
Qed.

(** The end of one pass over a piece, for a progress that has not found a match. *)
Lemma try_outcome buf eof code hist m sk x ws s r Q :
  holds b k sk x ws s → sized sk ws → re_pcre x = p → tracks says live hist m sk ws → code_of m ≠ REGEXP_MATCH →
  code ≠ PCRE_ERROR_DFA_WSSIZE → zlen hist + zlen buf < 2 ^ 64 →
  answers hist buf m r sk x ws s (λ a, Q (Some a)) →
  (∀ s' sk' x' ws', code_of m = REGEXP_PARTIAL → holds b k sk' x' ws' s' → sized sk' ws' → same_regexp x x' →
    sk_regexp sk' = sk_regexp sk → tracks says live hist Idle sk' ws' → (plenty ws s → plenty ws' s') → Q None s') →
  runs (partial_try k buf (zlen buf) eof code r) s Q.
Proof using Ok.
  intros H Hsz Exp Ht Hnm Hc Hlt [Hfail HQ] Hagain. pose proof (zlen_nonneg hist) as Z1. pose proof (zlen_nonneg buf) as Z2.
  pose proof (restarts_options eof sk) as Er. pose proof Ht as [Em Hm].
  assert (sk_processed_length sk = zlen hist) as Ep by (destruct m as [|f|f l|[]]; [done|by destruct Hm|done..]).
  unfold partial_try.
  call runs_rd_sink; [exact H|]. call (runs_wr_sink sk x ws s (set_started sk)); [exact H|done|done|]. intros s1 H1 V1.
  assert (plenty ws s → plenty ws s1) as P1 by (unfold plenty; by rewrite V1).
  call dfa_loop_spec; [exact H1|exact Hsz|exact Exp|by eapply grow_enough|..].
  { intros s2 F2 Hp2. step. apply Hfail; [done|]. intros Hp. destruct (Hp2 (P1 Hp)) as (sk2 & x2 & ws2 & H2 & (wn & w2 & ->) & X2).
    exists (set_workspace wn w2 (set_started sk)), x2, ws2. split_and!; [done|done|simpl; congruence|done]. }
  intros s2 sk2 x2 ws0 ws2 code2 [i j] H2 S2 (wn & w2 & ->) X2 Ex Hne Ews P2.
  pose proof (call_track _ _ _ _ _ _ _ Ht Hnm Er (Ews Hc)) as Htr.
  call runs_rd_sink; [exact H2|]. cbn [sk_match sk_processed_length set_workspace set_started fst snd]. rewrite Em, Ep.
  set (sk2 := set_workspace wn w2 (set_started sk)) in *.
  case_test as E0; [|case_test as E1; [|case_test as E2; [case_test as E3|]]].
  - rewrite (bool_decide_true (code_of m ≠ REGEXP_MATCH)) by done.
    call (runs_wr_sink sk2 x2 ws2 s2); [exact H2|done|done|]. intros s3 H3 V3. step.
    destruct Htr as [Htr|[Epa Hlo]].
    + destruct (exec_match _ _ _ _ _ _ _ _ _ _ _ Ht Htr Er Ex E0) as (Hj & Hf & Hi & Hs).
      eapply (HQ s3 _ _ _ (Done (start_of m (zlen hist) i) (zlen hist + j)) _ H3 S2 X2 eq_refl); [| |done|by intros []|unfold plenty in *; rewrite V3; by auto].
      * split; [done|]. rewrite zlen_app. split_and!; try lia. done.
      * split; [lia|]. destruct Htr as [->|(f & -> & _)]; [right; specialize (Hi eq_refl)|left]; simpl in *; wraps; (split; [lia || done|done]).
    + eapply (HQ s3 _ _ _ (Lost true) _ H3 S2 X2 eq_refl); [done| |done|done|unfold plenty in *; rewrite V3; by auto].
      rewrite Epa, bool_decide_false by done. by eexists.
  - subst code2. call (runs_wr_sink sk2 x2 ws2 s2); [exact H2|done|done|]. intros s3 H3 V3. step. destruct Htr as [Htr|[Epa Hlo]].
    + destruct (exec_partial _ _ _ _ _ _ _ _ _ _ Ht Htr Er Ex) as (Hf & Hi & Hl).
      eapply (HQ s3 _ _ _ (Begun (start_of m (zlen hist) i)) _ H3 S2 X2 eq_refl); [| |done|by intros []|unfold plenty in *; rewrite V3; by auto].
      * split; [done|]. rewrite zlen_app. simpl. rewrite Ep. wraps. split_and!; [lia..|done].
      * destruct Htr as [->|(f & -> & _)]; [right; specialize (Hi eq_refl)|left]; simpl in *; wraps; (split; [lia || done|done]).
    + eapply (HQ s3 _ _ _ (Lost false) _ H3 S2 X2 eq_refl); [| |done|done|unfold plenty in *; rewrite V3; by auto].
      * split; [done|]. rewrite zlen_app. simpl. rewrite Ep. by wraps.
      * by rewrite Epa, bool_decide_false.
  - call (runs_wr_sink sk2 x2 ws2 s2); [exact H2|done|done|]. intros s3 H3 V3. step.
    eapply (Hagain s3 _ _ _ E3 H3 S2 X2 eq_refl); [by split|unfold plenty in *; rewrite V3; by auto].
  - destruct m as [|f|f l|[]]; try done.
    call (runs_wr_sink sk2 x2 ws2 s2); [exact H2|done|done|]. intros s3 H3 V3. step.
    eapply (HQ s3 _ _ _ Idle _ H3 S2 X2 eq_refl); [|done|intros _; eapply (po_nomatch _ _ _ Ok); [|by subst code2]|by intros []|unfold plenty in *; rewrite V3; by auto].
    + split; [done|]. rewrite zlen_app. simpl. rewrite Ep. by wraps.
    + by rewrite Er, Em.
  - call (runs_wr_sink sk2 x2 ws2 s2); [exact H2|done|done|]. intros s3 H3 V3. call runs_rxvb_error; [exact H3|].
    intros s4 H4 F4. step. apply Hfail; [done|]. intros _. eexists _, _, _. by split_and!; [exact H4|..].
Qed.

Lemma runs_partial_exec buf eof hist m sk x ws s r Q :
  holds b k sk x ws s → sized sk ws → re_pcre x = p → tracks says live hist m sk ws → zlen hist + zlen buf < 2 ^ 64 →
  (code_of m ≠ REGEXP_MATCH → answers hist buf m r sk x ws s Q) →
  (code_of m = REGEXP_MATCH → Q (REGEXP_MATCH, r) s) →
  runs (_partial_exec (Some k) buf (zlen buf) eof r) s Q.
Proof using Ok.
  intros H Hsz Exp Ht Hlt Ha Hdone. pose proof Ht as [Em _]. unfold _partial_exec. step. call runs_rd_sink; [exact H|].
  destruct (h_space _ _ _ _ _ _ H) as (w & Ew & _). rewrite Ew. cbn [is_null]. rewrite Em.
  destruct (decide (code_of m = REGEXP_MATCH)) as [Ed|Hnm].
  { rewrite Ed, bool_decide_true by done. step. by apply Hdone. }
  rewrite bool_decide_false by (by destruct m as [| | |[]]). destruct (Ha Hnm) as [Hf HQ].
  call try_outcome; [exact H|exact Hsz|exact Exp|exact Ht|done|done|done| |].
  - split; intros; step; [by apply Hf|by eapply HQ].
  - intros s1 sk1 x1 ws1 _ H1 S1 [mx ->] Er T1 P1. call try_outcome; [exact H1|exact S1|exact Exp|exact T1|done|done|done| |by intros].
    split.
    + intros s2 F2 Hs2. step. apply Hf; [done|]. intros Hp. destruct (Hs2 (P1 Hp)) as (sk3 & x3 & ws3 & ? & E3 & ? & X3).
      exists sk3, x3, ws3. split_and!; [done|congruence|done|]. eapply same_regexp_trans; [by eexists|done].
    + intros s2 sk2 x2 ws2 m2 r2 H2 S2 X2 E2 T2 N2 A2 L2 P2. step. eapply HQ; try done; [congruence| | |by auto].
      * destruct m2 as [| | |[]]; simpl in *; naive_solver.
      * intros Hl. right. destruct (L2 Hl) as [[? [=]]|?]; done.
Qed.
End sink.

(** ** Streams *)

Section stream.
Context (p : pcre) (says : list Z → Prop) (live : list Z → list Z → Prop) (Ok : pcre_ok p says live).

(** The sink [k] of the expression [p] has seen [hist]. *)
Definition sink_rep (k : loc) (hist : list Z) (m : progress) (s : rxstate) : Prop :=
  ∃ b sk x ws, holds b k sk x ws s ∧ sized sk ws ∧ re_pcre x = p ∧ tracks says live hist m sk ws.

(** The result that the caller keeps from piece to piece. *)
Definition agrees (m : progress) (res : regexp_result) : Prop :=
  match m with Idle | Lost _ => True | Begun f => first res = f | Done f l => res = Found f l end.

Lemma noted_agrees n m m' res r' : noted n m m' (Some res) r' → agrees m res → ∃ res', r' = Some res' ∧ agrees m' res'.
Proof.
  intros Hn Ha. destruct m' as [|f|f l|[]]; simpl in Hn.
  - by exists res.
  - destruct Hn as [[-> ->]|[_ ->]]; simpl; eauto.
  - destruct Hn as [_ [[-> ->]|[_ ->]]]; simpl in *; eexists; split; try done. unfold set_last. by rewrite Ha.
  - destruct Hn as [l ->]. by eexists.
  - by exists res.
Qed.

Lemma runs_check_sink b k sk x ws s Q : holds b k sk x ws s → Q true s → runs (CHECK_REGEXP_SINK_TYPE (Some k)) s Q.
Proof.
  intros H HQ. unfold CHECK_REGEXP_SINK_TYPE. apply runs_bind. call runs_rd_sink; [exact H|]. call runs_rd_regexp; [exact H|].
  step. rewrite bool_decide_true by apply H. unfold skip. step. by step.
Qed.

Lemma runs_feed k hist m s res buf eof Q :
  sink_rep k hist m s → agrees m res → zlen hist + zlen buf < 2 ^ 64 →
  (∀ r s', failed s' → Q (REGEXP_ERROR, r) s') →
  (∀ m' res' s', sink_rep k (hist ++ buf) m' s' → agrees m' res' → (m' = Idle → absent says buf) →
    (lost m' → lost m ∨ ran_out p live buf) →
    (code_of m = REGEXP_MATCH → code_of m' = REGEXP_MATCH) → Q (code_of m', Some res') s') →
  runs (feed (Some k) buf (zlen buf) eof (Some res)) s Q.
Proof using Ok.
  intros (b & sk & x & ws & H & Hsz & Ep & Ht) Ha Hlt Hf HQ. unfold feed. call runs_check_sink; [exact H|]. cbn [negb].
  eapply (runs_partial_exec b k p says live Ok); [exact H|exact Hsz|exact Ep|exact Ht|done| |].
  - intros Hnm. split; [intros s' F' _; by apply Hf|].
    intros s' sk' x' ws' m' r' H' S' [mx ->] _ T' N' A' L' _. destruct (noted_agrees _ _ _ _ _ N' Ha) as (res' & -> & Ha').
    apply HQ; [by exists b, sk', (set_wscount_max mx x), ws'|done|done|done|done].
  - intros Em. rewrite <- Em. apply (HQ m); [|done|by destruct m|by left|done].
    exists b, sk, x, ws. split_and!; [done..|]. destruct m as [|f|f l|[]]; try done. destruct Ht as (Es & ? & ? & Hs).
    pose proof (zlen_nonneg buf). split; [done|]. rewrite zlen_app. split_and!; [lia..|]. unfold zslice in *.
    rewrite zdrop_app_le by lia. rewrite ztake_app_le; [done|]. rewrite zlen_zdrop; lia.
Qed.

(** Feeding the pieces of a stream, each with its flag for the end, until an error; the
    answers and the result at the end. *)
Fixpoint feed_all (k : loc) (pieces : list (list Z * bool)) (res : regexp_result) : M rxstate (list Z * regexp_result) :=
  match pieces with
  | [] => ret ([], res)
  | (buf, eof) :: pieces =>
      '(code, r) ← feed (Some k) buf (zlen buf) eof (Some res);
      let res := default res r in
      if bool_decide (code = REGEXP_ERROR) then ret ([code], res) else
      '(codes, res) ← feed_all k pieces res;
      ret (code :: codes, res)
  end.

Lemma feed_all_spec k : ∀ pieces hist m s res Q,
  sink_rep k hist m s → agrees m res → zlen (hist ++ mjoin pieces.*1) < 2 ^ 64 →
  (∀ codes r s', failed s' → last codes = Some REGEXP_ERROR → Q (codes, r) s') →
  (∀ codes m' res' s', sink_rep k (hist ++ mjoin pieces.*1) m' s' → agrees m' res' →
    Forall2 (λ pc code, code = REGEXP_NOMATCH → absent says pc.1) pieces codes →
    (lost m' → lost m ∨ Exists (λ pc, ran_out p live pc.1) pieces) →
    (code_of m = REGEXP_MATCH ∨ REGEXP_MATCH ∈ codes → code_of m' = REGEXP_MATCH) → Q (codes, res') s') →
  runs (feed_all k pieces res) s Q.
Proof using Ok.
  induction pieces as [|[buf eof] pieces IH]; intros hist m s res Q Hs Ha Hlt Hf HQ; cbn [feed_all].
  - step. eapply HQ; [by rewrite app_nil_r|done|done|by left|]. intros [?|[]%elem_of_nil]; done.
  - change (mjoin ((buf, eof) :: pieces).*1) with (buf ++ mjoin pieces.*1) in *. rewrite app_assoc in Hlt, HQ. pose proof (zlen_nonneg (mjoin pieces.*1)) as Z0. rewrite !zlen_app in Hlt.
    call runs_feed; [exact Hs|exact Ha|lia|intros r s1 F1; rewrite bool_decide_true by done; step; by apply Hf|].
    intros m1 res1 s1 H1 A1 Hab L1 D1. rewrite bool_decide_false by (by destruct m1 as [| | |[]]). simpl.
    call (IH (hist ++ buf)); [exact H1|exact A1|rewrite !zlen_app; lia| |].
    + intros codes r s2 F2 El. step. apply Hf; [done|]. by rewrite last_cons, El.
    + intros codes m2 res2 s2 H2 A2 F2 L2 D2. step. eapply HQ; [done|done| | |].
      * constructor; [|done]. intros E. apply Hab. by destruct m1 as [| | |[]].
      * rewrite Exists_cons. intros Hl. destruct (L2 Hl) as [Hl1|?]; [|by auto]. destruct (L1 Hl1); auto.
      * rewrite elem_of_cons. intros [Hd|[E|Hd]]; auto.
Qed.

(** ** New sinks *)

(** An expression of the module, in a state whose sinks and workspaces are all below the
    addresses to come. *)
Record regexp_rep (r : loc) (x : regexp_pcre) (s : rxstate) : Prop := {
  rr_re : rx_regexps s !! r = Some x;
  rr_module : re_module x = HAKA_MODULE;
  rr_max : 1 ≤ re_wscount_max x ≤ WSCOUNT_MAX;
  rr_fresh : ∀ y, is_Some (rx_spaces s !! y) → (y < vb_fresh (rx_vb s))%positive;
  rr_sinks : ∀ y, is_Some (rx_sinks s !! y) → (y < vb_fresh (rx_vb s))%positive;
}.

Lemma runs_check_regexp r x s Q : rx_regexps s !! r = Some x → re_module x = HAKA_MODULE → Q true s → runs (CHECK_REGEXP_TYPE (Some r)) s Q.
Proof using.
  intros Hr Em HQ. unfold CHECK_REGEXP_TYPE, rd_regexp. apply runs_bind. step. rewrite Hr. step. step.
  rewrite bool_decide_true by done. unfold skip. step. by step.
Qed.

Lemma runs_create_sink r x s n Q :
  regexp_rep r x s → vb_mem (rx_vb s) = S (S n) →
  (∀ w s', let k := vb_fresh (rx_vb s) in let ws := replicate (Z.to_nat (re_wscount_max x)) 0 in
    holds s k (Sink r REGEXP_NOMATCH false 0 (re_wscount_max x) (Some w)) (set_re_ref (u32 (re_ref_count x + 1)) x) ws s' →
    zlen ws = re_wscount_max x → vb_mem (rx_vb s') = n → Q (Some k) s') →
  runs (_create_sink (Some r)) s Q.
Proof using.
  intros [Hr Em Hx Hfr _] Hn HQ. unfold _create_sink. call runs_check_regexp; [exact Hr|exact Em|]. cbn [negb]. step.
  apply runs_bind. unfold rxvb at 1. step. eapply runs_malloc; [exact Hn|]. unfold rd_regexp. step. simpl. rewrite Hr. step.
  unfold calloc_space, rxvb. step. step. simpl. eapply runs_malloc; [done|]. step. unfold wr_space. step. step. step.
  unfold wr_sink. step. unfold wr_regexp. step. step. cbn [set_re_ref re_module re_ref_count re_pcre re_wscount_max].
  apply (HQ (Pos.succ (vb_fresh (rx_vb s)))); simpl; [|unfold zlen; rewrite length_replicate; lia|done].
  split; simpl; try done.
  - exists (Pos.succ (vb_fresh (rx_vb s))). split_and!; [done| |done]. apply eq_None_not_Some. intros Hs%Hfr. lia.
  - intros y Hy. destruct (decide (y = Pos.succ (vb_fresh (rx_vb s)))) as [->|]; [lia|].
    rewrite lookup_insert_ne in Hy by done. specialize (Hfr y Hy). lia.
Qed.

Lemma runs_stream r x s n pieces Q :
  regexp_rep r x s → re_pcre x = p → vb_mem (rx_vb s) = S (S n) → zlen (mjoin pieces.*1) < 2 ^ 64 →
  (∀ codes res s', failed s' → last codes = Some REGEXP_ERROR → Q (codes, res) s') →
  (∀ codes res s', Forall2 (λ pc code, code = REGEXP_NOMATCH → absent says pc.1) pieces codes →
    (REGEXP_MATCH ∈ codes → Exists (λ pc, ran_out p live pc.1) pieces ∨
      0 ≤ first res ≤ last_ res ∧ last_ res ≤ zlen (mjoin pieces.*1) ∧
      says (zslice (first res) (last_ res - first res) (mjoin pieces.*1))) → Q (codes, res) s') →
  runs (sink ← create_sink (Some r); k ← deref sink; feed_all k pieces regexp_result_init) s Q.
Proof using Ok.
  intros Hr Ep Hn Hlt Hf HQ. unfold create_sink. apply runs_bind. step. eapply runs_create_sink; [exact Hr|exact Hn|].
  intros w s1 k ws H1 Ews _. step. eapply (feed_all_spec k pieces [] Idle); [|done|done|done|].
  - eexists s, _, _, ws. split_and!; [exact H1|split; [done|]|done|done]. rewrite Ews. apply Hr.
  - intros codes m' res s' (b & sk & y & ws' & _ & _ & _ & _ & Ht) Ha HF Hl Hd. apply HQ; [done|].
    intros Hin. specialize (Hd (or_intror Hin)). destruct m' as [|f|f l|[]]; try done.
    + right. simpl in Ha. subst res. simpl. by destruct Ht as (? & ? & ?).
    + left. destruct Hl as [[? [=]]|?]; [by eexists|done].
Qed.
End stream.
End pcre.

(** ** An engine for literal strings

    The expression is a string; the workspace holds the number of its bytes that were
    seen, and must be as long as the string. *)

Definition has_room (p ws : list Z) : Prop := 1 `max` zlen p ≤ zlen ws.
#[local] Instance has_room_dec p ws : Decision (has_room p ws) := decide_rel Z.le (1 `max` zlen p) (zlen ws).

Fixpoint lit_search (p buf : list Z) (i : Z) (ws : list Z) : Z * (Z * Z) * list Z :=
  if bool_decide (p `prefix_of` buf) then (1, (i, i + zlen p), ws)
  else match buf with
       | [] => (PCRE_ERROR_NOMATCH, (0, 0), ws)
       | _ :: tl =>
           if bool_decide (buf `prefix_of` p) then (PCRE_ERROR_PARTIAL, (i, i + zlen buf), zput 0 [zlen buf] ws)
           else lit_search p tl (i + 1) ws
       end.

Definition lit_dfa_exec (p buf : list Z) (len o : Z) (ws : list Z) : Z * (Z * Z) * list Z :=
  if bool_decide (has_room p ws) then
    if restarts o then
      let n := default 0 (head ws) in
      let rest := zdrop n p in
      if bool_decide (rest `prefix_of` buf) then (1, (0, zlen rest), ws)
      else if bool_decide (buf `prefix_of` rest) then (PCRE_ERROR_PARTIAL, (0, zlen buf), zput 0 [n + zlen buf] ws)
      else (PCRE_ERROR_NOMATCH, (0, 0), ws)
    else lit_search p buf 0 ws
  else (PCRE_ERROR_DFA_WSSIZE, (0, 0), ws).

Definition lit_pcre : Pcre := {|
  pcre := list Z;
  pcre_compile := λ pattern _, Some ((λ a, Z.of_nat (Ascii.nat_of_ascii a)) <$> String.list_ascii_of_string pattern);
  pcre_exec := λ p buf _ o, (lit_search p buf 0 [0]).1;
  pcre_dfa_exec := lit_dfa_exec;
|}.

Definition lit_says (p text : list Z) : Prop := text = p.
Definition lit_live (p ws text : list Z) : Prop := has_room p ws ∧ head ws = Some (zlen text) ∧ text `prefix_of` p.

Lemma prefix_slice (p buf : list Z) : p `prefix_of` buf → zslice 0 (zlen p) buf = p ∧ zlen p ≤ zlen buf.
Proof.
  intros [k ->]. pose proof (zlen_nonneg k). rewrite zlen_app. split; [|lia]. unfold zslice.
  by rewrite zdrop_0, ztake_app_le, ztake_ge by lia.
Qed.

Lemma lit_search_spec p ws : ∀ buf i code a b ws', lit_search p buf i ws = (code, (a, b), ws') →
  (0 ≤ code → i ≤ a ≤ b ∧ b ≤ i + zlen buf ∧ zslice (a - i) (b - a) buf = p) ∧
  (code = PCRE_ERROR_PARTIAL → i ≤ a ≤ i + zlen buf ∧ zdrop (a - i) buf `prefix_of` p ∧ ws' = zput 0 [zlen (zdrop (a - i) buf)] ws) ∧
  (code = PCRE_ERROR_NOMATCH → ∀ j n, 0 ≤ j → 0 ≤ n → j + n ≤ zlen buf → zslice j n buf ≠ p) ∧
  (code = 1 ∨ code = PCRE_ERROR_PARTIAL ∨ code = PCRE_ERROR_NOMATCH) ∧ (ws' = ws ∨ ∃ n, ws' = zput 0 [n] ws).
Proof.
  induction buf as [|x buf IH]; intros i code a b ws'; cbn [lit_search]; case_bool_decide as E1; [| | |case_bool_decide as E2].
  1, 3: intros [= <- <- <- <-]; pose proof (zlen_nonneg p); destruct (prefix_slice _ _ E1) as [Hs Hl];
    split_and!; try done; [intros _; rewrite Z.sub_diag; replace (i + zlen p - i) with (zlen p) by lia; split_and!; [lia..|done]|by left|by left].
  - intros [= <- <- <- <-]. split_and!; try done; [|by auto|by left]. intros _ j n Hj Hn Hjn E. apply E1. rewrite <- E.
    unfold zslice. rewrite zlen_nil in Hjn. by replace j with 0 by lia; replace n with 0 by lia.
  - intros [= <- <- <- <-]. pose proof (zlen_nonneg buf). rewrite zlen_cons, Z.sub_diag, zdrop_0. split_and!; try done; [|by auto|eauto].
    intros _. split_and!; [lia..|done|]. by rewrite zlen_cons.
  - intros E. pose proof (zlen_nonneg buf). apply IH in E as (A & B & C & D & F). rewrite zlen_cons. split_and!; [..|done|done].
    + intros H0. destruct (A H0) as (? & ? & Hs). split_and!; [lia..|]. rewrite <- Hs. unfold zslice, zdrop.
      by replace (Z.to_nat (a - i)) with (S (Z.to_nat (a - (i + 1)))) by lia.
    + intros H0. destruct (B H0) as (? & Hp & ->). replace (zdrop (a - i) (x :: buf)) with (zdrop (a - (i + 1)) buf); [by split_and!; try lia|].
      unfold zdrop. by replace (Z.to_nat (a - i)) with (S (Z.to_nat (a - (i + 1)))) by lia.
    + intros H0 j n Hj Hn Hjn Es. destruct (decide (j = 0)) as [->|].
      * apply E1. rewrite <- Es. unfold zslice. rewrite zdrop_0. exists (zdrop n (x :: buf)). by rewrite ztake_zdrop.
      * apply (C H0 (j - 1) n); [lia..|]. rewrite <- Es. unfold zslice, zdrop. by replace (Z.to_nat j) with (S (Z.to_nat (j - 1))) by lia.
Qed.

Lemma zlen_put_one (n : Z) ws : 1 ≤ zlen ws → zlen (zput 0 [n] ws) = zlen ws.
Proof. intros. apply zlen_zput; [lia|]. change (zlen [n]) with 1. lia. Qed.

Lemma lit_live_put p ws (n : Z) text : has_room p ws → n = zlen text → text `prefix_of` p → lit_live p (zput 0 [n] ws) text.
Proof. intros Hf -> Hp. split_and!; [|done|done]. unfold has_room in *. by rewrite zlen_put_one by lia. Qed.

Lemma lit_ok p : @pcre_ok lit_pcre p (lit_says p) (lit_live p).
Proof.
  split; unfold pcre_dfa_exec; simpl; unfold lit_dfa_exec.
  - intros buf o ws code [a b] ws'. case_bool_decide as Hf; [|by intros [= <- <- <- <-]]. unfold has_room in Hf. destruct (restarts o).
    + repeat case_bool_decide; intros [= <- <- <- <-]; try done. by rewrite zlen_put_one by lia.
    + intros (_ & _ & _ & _ & [->|(n & ->)])%lit_search_spec; [done|]. by rewrite zlen_put_one by lia.
  - intros buf o ws code i j ws' -> . case_bool_decide as Hf; [|by intros [= <- <- <- <-]].
    intros (A & _)%lit_search_spec H0. destruct (A H0) as (? & ? & Hs). split_and!; [lia..|]. by rewrite Z.sub_0_r in Hs.
  - intros buf o ws i j ws' ->. case_bool_decide as Hf; [|by intros [=]]. intros (_ & B & _)%lit_search_spec.
    destruct (B eq_refl) as (? & Hp & ->). rewrite Z.sub_0_r in *. split; [lia|]. by apply lit_live_put.
  - intros buf o ws [a b] ws' ->. case_bool_decide; [|by intros [=]].
    intros (_ & _ & C & _)%lit_search_spec i n. unfold lit_says. by apply C.
  - intros buf o ws text code i j ws' -> (Hf & Hh & k & Hp). rewrite bool_decide_true by done. rewrite Hh. simpl.
    subst p. pose proof (zlen_nonneg text). rewrite zdrop_app_ge, Z.sub_diag, zdrop_0 by lia. repeat case_bool_decide; intros [= <- <- <- <-]; try done.
    intros _. destruct H0 as [k' ->]. rewrite zlen_app. pose proof (zlen_nonneg k). pose proof (zlen_nonneg k'). split; [lia|].
    unfold lit_says. by rewrite ztake_app_le, ztake_ge by lia.
  - intros buf o ws text ov ws' -> (Hf & Hh & k & Hp). rewrite bool_decide_true by done. rewrite Hh. simpl.
    subst p. pose proof (zlen_nonneg text). rewrite zdrop_app_ge, Z.sub_diag, zdrop_0 by lia. repeat case_bool_decide; intros [= <- <-]; try done.
    apply lit_live_put; [done|by rewrite zlen_app|]. by apply prefix_app.
Qed.

(** ** Theorems *)


(** A pattern of 24 bytes, longer than the first workspace, and an expression for it. *)
Definition ex_pattern : list Z := Z.of_nat <$> seq 65 24.
Definition ex_regexp : @regexp_pcre lit_pcre := @Regexp lit_pcre HAKA_MODULE 1 ex_pattern WSCOUNT_DEFAULT.
Definition ex_rx : @rxstate lit_pcre := RX (empty_state 9) {[2%positive := ex_regexp]} ∅ ∅.
Definition ex_pieces : list (list Z * bool) :=
  [([65; 66; 1], false); (1 :: take 10 ex_pattern, false); (drop 10 ex_pattern ++ [7], true)].

Lemma ex_regexp_rep : @regexp_rep lit_pcre 2 ex_regexp ex_rx.
Proof. split; [done|done|done|..]; intros y; simpl; rewrite lookup_empty; by intros []. Qed.

(** A match of this engine that goes on always has the room it needs. *)
Lemma lit_room p buf : ¬ @ran_out lit_pcre p (lit_live p) buf.
Proof.
  intros (o & ws & text & Hr & (Hf & _) & E). revert E. unfold pcre_dfa_exec. simpl. unfold lit_dfa_exec.
  rewrite Hr, bool_decide_true by done. by repeat case_bool_decide.
Qed.


(** The answers of that stream: the match lies in the last two pieces, and the workspace
    has grown once. *)
Lemma feed_stream_example :
  (λ r, r.1) <$> (sink ← create_sink (Some 2%positive); k ← deref sink; feed_all k ex_pieces regexp_result_init) ex_rx =
  Some ([REGEXP_NOMATCH; REGEXP_PARTIAL; REGEXP_MATCH], Found 4 28).
Proof. by vm_compute. Qed.
