(* ===== verification/RegexpVb.v ===== *)
(** * Matching buffers (modules/regexp/pcre/main.c)

    [vbexec] feeds the blocks of a buffer to a sink of its own, one behind the mapping so
    that the last one is known, and leaves the range of the match as iterators. *)

From S2P Require Import Prelude List2 VbHeap VbIter VbSub VbRep VbWalk VbFrame VbMake VbRead VbWrite VbSelect VbSpec Regexp RegexpSpec.

#[local] Arguments basic_bytes : simpl never.

Section memory.
Implicit Types v : vbstate.

Lemma same_bytes v v' d : same_mem v v' → basic_bytes v' d = basic_bytes v d.
Proof. intros (_ & _ & E). unfold basic_bytes. by rewrite E. Qed.

Lemma same_content v v' cs : same_mem v v' → content v' cs = content v cs.
Proof.
  intros E. unfold content. f_equal. apply list_fmap_ext. intros _ x _. unfold chunk_bytes. by rewrite (same_bytes _ _ _ E).
Qed.

Lemma same_rep v v' e cs : same_mem v v' → buf_rep v e cs → buf_rep v' e cs.
Proof.
  intros E [L N C S]. destruct E as (E1 & E2 & E3). split; [by rewrite E1|by rewrite E2| |done].
  intros c ch Hc. rewrite E2. destruct (C c ch Hc) as [? []]. split; [done|]. split; try done.
  intros Ec. destruct (co_data Ec) as (? & b & ? & ?). split; [done|]. exists b.
  by rewrite (same_bytes v v') by done.
Qed.
End memory.

Section buffer.
Context {P : Pcre} (pc : pcre) (says : list Z → Prop) (live : list Z → list Z → Prop) (Ok : pcre_ok pc says live).
Context (b : rxstate) (k : loc) (e : loc) (cs : list seg) (H : buf_rep (rx_vb b) e cs).
Context (Small : csize cs < 2 ^ 31).

(** The iterator is at the position [n] of the buffer. *)
Definition at_pos (it : option vbuffer_iterator) (n : Z) : Prop :=
  ∃ c o m, it = Some (Iter (Some c) o m false) ∧ pos_of e cs c o n.

Lemma runs_place s piter pp n offset it Q :
  same_mem (rx_vb b) (rx_vb s) → is_Some it → at_pos (Some piter) pp → offset ≤ n → n < size_max → pp + (n - offset) ≤ csize cs →
  0 ≤ offset → (∀ it', at_pos it' (pp + (n - offset)) → Q it' s) → runs (place piter n offset it) s Q.
Proof using H Small.
  intros Em [it0 ->] (c & o & m & [= ->] & Hp) Hn Hs Hle Ho HQ. pose proof (same_rep _ _ _ _ Em H) as H'.
  pose proof (pos_of_range _ _ _ _ _ _ H Hp). unfold place. rewrite bool_decide_true by (unfold size_max in *; lia).
  apply runs_bind. unfold rxvb. step. eapply runs_copy; [exact H'|exact Hp|]. step. cbn [rx_vb set_rx_vb].
  unfold size_max in Hs. rewrite u64_small by lia. eapply runs_advance; [exact H'|exact Hp|lia|].
  intros c' o' Hn'. step. replace (set_rx_vb _ _) with s by (by destruct s). apply HQ.
  replace ((n - offset) `min` (csize cs - pp)) with (n - offset) in * by lia. eexists c', o', _. split; [done|].
  by eapply norm_pos_of.
Qed.

Lemma runs_place_any s piter pp n offset it Q :
  same_mem (rx_vb b) (rx_vb s) → is_Some it → at_pos (Some piter) pp → (∀ it', is_Some it' → Q it' s) →
  runs (place piter n offset it) s Q.
Proof using H Small.
  intros Em [it0 ->] (c & o & m & [= ->] & Hp) HQ. pose proof (same_rep _ _ _ _ Em H) as H'.
  unfold place. case_bool_decide; [|step; by apply HQ].
  apply runs_bind. unfold rxvb. step. eapply runs_copy; [exact H'|exact Hp|]. step. cbn [rx_vb set_rx_vb].
  eapply runs_advance; [exact H'|exact Hp|by apply Z.mod_pos_bound|].
  intros c' o' Hn'. step. replace (set_rx_vb _ _) with s by (by destruct s). by apply HQ.
Qed.

Lemma runs_place_none s piter offset it Q : Q it s → runs (place piter size_max offset it) s Q.
Proof using. intros HQ. unfold place. destruct it; [rewrite bool_decide_false by naive_solver|]; by step. Qed.

(** The iterators that the progress needs are set; [p0] is the position of the stream. *)
Definition marks (p0 : Z) (m : progress) (begin end_ : option vbuffer_iterator) : Prop :=
  is_Some begin ∧ is_Some end_ ∧
  match m with
  | Idle | Lost _ => True
  | Begun f => at_pos begin (p0 + f)
  | Done f l => at_pos begin (p0 + f) ∧ at_pos end_ (p0 + l)
  end.

Lemma at_pos_some it n : at_pos it n → is_Some it.
Proof using. by intros (? & ? & ? & -> & _). Qed.

Lemma runs_places {A} s piter p0 n len m m' res begin end_ (K : option vbuffer_iterator → option vbuffer_iterator → M rxstate A) Q :
  same_mem (rx_vb b) (rx_vb s) → at_pos (Some piter) (p0 + n) → 0 ≤ n → 0 ≤ len → p0 + n + len ≤ csize cs → 0 ≤ p0 →
  code_of m ≠ REGEXP_MATCH → noted n m m' (Some regexp_result_init) (Some res) → marks p0 m begin end_ →
  match m' with Idle | Lost _ => True | Begun f => f ≤ n + len | Done f l => f ≤ n + len ∧ l ≤ n + len end →
  (∀ begin' end', marks p0 m' begin' end' → runs (K begin' end') s Q) →
  runs (begin ← place piter (first res) n begin; end_ ← place piter (last_ res) n end_; K begin end_) s Q.
Proof using H Small.
  intros Em Hp Hn Hl Hle Hp0 Hnd Hno (Hb & He & Hm) Hr HQ. destruct m' as [|f|f l|[]]; simpl in Hno.
  - injection Hno as ->. call runs_place_none. call runs_place_none. by apply HQ.
  - destruct Hno as [[-> [= ->]]|[Hf [= ->]]]; simpl.
    + call runs_place_none. call runs_place_none. by apply HQ.
    + call (runs_place s piter (p0 + n)); [done|done|exact Hp|lia|unfold size_max; lia|lia|lia|].
      intros it' Hit. call runs_place_none. apply HQ. replace (p0 + n + (f - n)) with (p0 + f) in Hit by lia.
      split_and!; [by eapply at_pos_some|done|done].
  - destruct Hno as [Hl' [[-> [= ->]]|[Hf [= ->]]]]; simpl.
    + call runs_place_none. call (runs_place s piter (p0 + n)); [done|done|exact Hp|lia|unfold size_max; lia|lia|lia|].
      intros it' Hit. apply HQ. replace (p0 + n + (l - n)) with (p0 + l) in Hit by lia.
      split_and!; [done|by eapply at_pos_some|done|done].
    + call (runs_place s piter (p0 + n)); [done|done|exact Hp|lia|unfold size_max; lia|lia|lia|]. intros it' Hit.
      call (runs_place s piter (p0 + n)); [done|done|exact Hp|lia|unfold size_max; lia|lia|lia|]. intros it2 Hit2. apply HQ.
      replace (p0 + n + (f - n)) with (p0 + f) in Hit by lia. replace (p0 + n + (l - n)) with (p0 + l) in Hit2 by lia.
      split_and!; [by eapply at_pos_some|by eapply at_pos_some|done|done].
  - destruct Hno as [l [= ->]]. simpl. call runs_place_none.
    call runs_place_any; [done|done|exact Hp|]. intros it' Hit. by apply HQ.
  - injection Hno as ->. call runs_place_none. call runs_place_none. by apply HQ.
Qed.

(** ** The loop *)

(** A match that goes on has asked for a greater workspace, in a part of the range. *)
Definition strayed (p0 q0 : Z) : Prop :=
  ∃ i n, p0 ≤ i ∧ i + n ≤ q0 ∧ 0 ≤ n ∧ ran_out pc live (zslice i n (content (rx_vb b) cs)).

(** What the sink and the iterators say at the end, for the range from [p0]. *)
Definition outcome (p0 q0 : Z) (sk : regexp_sink_pcre) (x : regexp_pcre) (r : option vbuffer_iterator * option vbuffer_iterator)
    (s : rxstate) : Prop :=
  ∃ sk' x' ws', holds b k sk' x' ws' s ∧ sk_regexp sk' = sk_regexp sk ∧ same_regexp x x' ∧
    (sk_match sk' = REGEXP_MATCH → is_Some r.1 ∧ is_Some r.2 ∧
      (strayed p0 q0 ∨ ∃ f l, p0 ≤ f ≤ l ∧ l ≤ q0 ∧ at_pos r.1 f ∧ at_pos r.2 l ∧
        says (zslice f (l - f) (content (rx_vb b) cs)))).

(** The previous piece: [n] bytes before it were matched. *)
Definition pending (p0 cur : Z) (pptr : option (loc * Z)) (plen : Z) (piter : vbuffer_iterator) (n : Z) : Prop :=
  match pptr with
  | None => n = 0 ∧ p0 = cur
  | Some a => 0 < plen ∧ p0 + n + plen = cur ∧ at_pos (Some piter) (p0 + n) ∧
      ∃ d l, basic_bytes (rx_vb b) (Some a.1) = Some d ∧ a = (a.1, l) ∧ 0 ≤ l ∧ l + plen ≤ zlen d ∧
        zslice l plen d = zslice (p0 + n) plen (content (rx_vb b) cs)
  end.

Lemma runs_piece a plen piter p0 cur q0 n eof begin end_ m sk x ws s Q :
  holds b k sk x ws s → sized sk ws → re_pcre x = pc → 0 ≤ p0 → 0 ≤ n → cur ≤ q0 → q0 ≤ csize cs →
  tracks says live (zslice p0 n (content (rx_vb b) cs)) m sk ws → code_of m ≠ REGEXP_MATCH → (lost m → strayed p0 q0) →
  pending p0 cur (Some a) plen piter n → marks p0 m begin end_ →
  (∀ begin' end' s', (plenty ws s → outcome p0 q0 sk x (begin', end') s') → Q (true, begin', end') s') →
  (∀ begin' end' s' sk' x' ws' m', holds b k sk' x' ws' s' → sized sk' ws' → sk_regexp sk' = sk_regexp sk → same_regexp x x' →
    tracks says live (zslice p0 (n + plen) (content (rx_vb b) cs)) m' sk' ws' → code_of m' ≠ REGEXP_MATCH → (lost m' → strayed p0 q0) →
    marks p0 m' begin' end' → (plenty ws s → plenty ws' s') → Q (false, begin', end') s') →
  runs (match_piece k a plen piter eof begin end_) s Q.
Proof using H Small Ok.
  intros Hh Hsz Epc Hp0 Hn Hcur Hq0 Ht Hnm Hlost (Hpl & Ecur & Hat & d & l & Hd & -> & Hl & Hld & Es) Hmk Hstop Hgo. simpl in Hd.
  set (ct := content (rx_vb b) cs) in *. pose proof (br_len _ _ _ H) as Ect. fold ct in Ect.
  assert (zlen (zslice p0 n ct) = n) as En by (apply zlen_zslice; lia).
  assert (zlen (zslice l plen d) = plen) as Eb by (apply zlen_zslice; lia).
  assert (sk_processed_length sk = n) as Ep.
  { destruct Ht as [_ Ht]. destruct m as [|f|f l'|[]]; done || lia. }
  unfold match_piece. call runs_rd_sink; [exact Hh|]. rewrite Ep.
  pose proof (h_mem _ _ _ _ _ _ Hh) as Em.
  apply runs_bind. unfold rxvb at 1. step. unfold ptr_read. rewrite <- (same_bytes _ _ _ Em) in Hd. unfold basic_bytes in Hd. simpl in Hd.
  destruct (vb_datas (rx_vb s) !! a.1) as [dt|] eqn:Edt; [|done]. simpl in Hd. call runs_rd_data; [exact Edt|].
  destruct (dt_body dt); try done. injection Hd as ->. step; [apply bool_decide_true; simpl; lia|]. step. simpl.
  replace (set_rx_vb (rx_vb s) s) with s by (by destruct s). unfold s32. rewrite swrap_small by lia. rewrite <- Eb at 2.
  apply runs_bind. eapply (runs_partial_exec b k pc says live Ok); [exact Hh|exact Hsz|exact Epc|exact Ht|lia| |done].
  intros _. rewrite Es in *. split.
  - intros s' _ Hsp. simpl. call runs_place_none. call runs_place_none. step. apply Hstop. intros Hp.
    destruct (Hsp Hp) as (sk' & x' & ws' & ? & ? & ? & ?). by exists sk', x', ws'.
  - intros s' sk' x' ws' m' r' Hh' Hsz' Hx Er Ht' Hno _ Hlo Hpl'. unfold ct in Ht'. rewrite <- zslice_split in Ht' by lia. fold ct in Ht'.
    assert (lost m' → strayed p0 q0) as Hlost'.
    { intros Hl'. destruct (Hlo Hl') as [?|Hro]; [by apply Hlost|]. exists (p0 + n), plen. split_and!; [lia..|exact Hro]. }
    rewrite En in Hno. assert (∃ res, r' = Some res) as [res ->].
    { destruct m' as [| | |[]]; simpl in Hno; destruct_or?; naive_solver. }
    assert (zlen (zslice p0 (n + plen) ct) = n + plen) as En' by (apply zlen_zslice; lia).
    simpl. eapply (runs_places s' piter p0 n plen m m'); [apply Hh'|exact Hat|lia|lia|lia|lia|done|exact Hno|done| |].
    { destruct m' as [|f|f l'|[]]; [done|..]; destruct Ht' as [_ Ht']; done || lia. }
    intros begin' end' Hmk'. step. destruct m' as [|f|f l'|[]].
    + by eapply (Hgo _ _ _ _ _ _ Idle).
    + by eapply (Hgo _ _ _ _ _ _ (Begun f)).
    + apply Hstop. intros _. exists sk', x', ws'. split_and!; [done..|]. intros _. destruct Ht' as (_ & ? & ? & Hs). destruct Hmk' as (? & ? & ? & ?).
      split_and!; [done..|]. right.
      exists (p0 + f), (p0 + l'). split_and!; [lia|lia|lia|done|done|]. fold ct.
      rewrite zslice_zslice in Hs by lia. by replace (p0 + l' - (p0 + f)) with (l' - f) by lia.
    + apply Hstop. intros _. exists sk', x', ws'. split_and!; [done..|]. intros _. destruct Hmk' as (? & ? & _).
      split_and!; [done..|]. left. apply Hlost'. by eexists.
    + by eapply (Hgo _ _ _ _ _ _ (Lost false)).
Qed.

Lemma outcome_lift p0 q0 sk x sk' x' r s :
  outcome p0 q0 sk' x' r s → sk_regexp sk' = sk_regexp sk → same_regexp x x' → outcome p0 q0 sk x r s.
Proof using.
  intros (sk1 & x1 & ws1 & Hh & E & X & Hm) Es Hx. exists sk1, x1, ws1.
  split_and!; [done|congruence|by eapply same_regexp_trans|done].
Qed.

Lemma outcome_none p0 q0 sk x sk' x' ws' hist m r s :
  holds b k sk' x' ws' s → sk_regexp sk' = sk_regexp sk → same_regexp x x' → tracks says live hist m sk' ws' →
  code_of m ≠ REGEXP_MATCH → outcome p0 q0 sk x r s.
Proof using. intros Hh E X [Em _] Hnm. exists sk', x', ws'. split_and!; [done..|]. congruence. Qed.

Lemma runs_next_block data l1 l2 it o rem s Q :
  same_mem (rx_vb b) (rx_vb s) → cursor e cs data it l1 l2 o rem → 0 ≤ o →
  (∀ it', rem = 0 → Q (None, 0, it') s) →
  (∀ d a len p it' l1' l2', pending (csize l1 + o) (csize l1 + o + len) (Some (d, a)) len p 0 → 0 < len ≤ rem →
    cursor e cs data it' l1' l2' 0 (rem - len) → (length l2' < length l2)%nat → (rem = len ∨ csize l1' = csize l1 + o + len) →
    Q (Some (d, a, len, p), len, it') s) →
  runs (rxvb (vbuffer_mmap_len data false it)) s Q.
Proof using H.
  intros Em Hc Ho HN HS. pose proof (same_rep _ _ _ _ Em H) as H'. unfold rxvb. step.
  eapply (runs_mmap_len (rx_vb s) e cs H' false data l2 l1); [done|exact Hc|].
  intros r n it' v' Hn Hat. destruct r as [[[[d a] len] p]|]; simpl in Hn, Hat.
  2: { destruct Hn as [Hr ->]. subst n. replace (set_rx_vb _ _) with s by (by destruct s). by apply HN. }
  destruct Hn as (l1' & c & ch & l2' & o' & bs & E & Ep & Hlt & Ho' & Hln & Hlr & Hle & Ec & Ed & Hb & -> & Hc' & Hend & ->).
  destruct Hat as [-> Hat]. replace (set_rx_vb _ _) with s by (by destruct s).
  pose proof H' as H2. rewrite E in H2. destruct (br_at _ _ _ _ _ _ H2) as [_ Oc].
  destruct (co_data _ _ Oc Ec) as (Hof & b' & Hb' & Hbl). rewrite Ed, Hb in Hb'. injection Hb' as <-.
  pose proof (chunk_slice (rx_vb s) e cs H' l1' c ch l2' o' len d bs E Ec Ed Hb Ho' ltac:(lia) ltac:(lia)) as Es.
  eapply HS; [|lia|exact Hc'|lia|].
  - unfold pending. rewrite Z.add_0_r. split_and!; [lia|lia| |].
    + destruct Hat as (c1 & o1 & m1 & -> & ?). by exists c1, o1, m1.
    + exists bs, (ch_offset ch + o'). rewrite (same_bytes _ _ _ Em) in Hb. rewrite (same_content _ _ _ Em), Ep in Es.
      simpl. split_and!; [done|done|lia|lia|done].
  - rewrite csize_app, csize_cons, csize_nil. simpl. lia.
Qed.

(** The previous piece, when there is one. *)
Lemma runs_pending pptr plen piter p0 cur q0 n eof begin end_ m sk x ws s Q :
  holds b k sk x ws s → sized sk ws → plenty ws s → re_pcre x = pc → 0 ≤ p0 → 0 ≤ n → cur ≤ q0 → q0 ≤ csize cs →
  tracks says live (zslice p0 n (content (rx_vb b) cs)) m sk ws → code_of m ≠ REGEXP_MATCH → (lost m → strayed p0 q0) →
  pending p0 cur pptr plen piter n → marks p0 m begin end_ →
  (∀ begin' end' s', outcome p0 q0 sk x (begin', end') s' → Q (true, begin', end') s') →
  (∀ begin' end' s' sk' x' ws' m', holds b k sk' x' ws' s' → sized sk' ws' → plenty ws' s' → sk_regexp sk' = sk_regexp sk →
    same_regexp x x' → tracks says live (zslice p0 (cur - p0) (content (rx_vb b) cs)) m' sk' ws' → code_of m' ≠ REGEXP_MATCH →
    (lost m' → strayed p0 q0) → marks p0 m' begin' end' → Q (false, begin', end') s') →
  runs (match pptr with None => ret (false, begin, end_) | Some p => match_piece k p plen piter eof begin end_ end) s Q.
Proof using H Small Ok.
  intros Hh Hsz Hpl Epc Hp0 Hn Hcur Hq0 Ht Hnm Hlo Hpd Hmk Hstop Hgo. destruct pptr as [a|].
  - eapply runs_piece; [exact Hh|exact Hsz|exact Epc|exact Hp0|exact Hn|exact Hcur|exact Hq0|exact Ht|exact Hnm|exact Hlo|exact Hpd|exact Hmk|by auto|].
    destruct Hpd as (_ & <- & _). replace (p0 + n + plen - p0) with (n + plen) in Hgo by lia.
    intros begin' end' s' sk' x' ws' m' ? ? ? ? ? ? ? ? ?. eapply Hgo; eauto.
  - destruct Hpd as [-> <-]. step. eapply Hgo; try done; [apply same_regexp_refl|by rewrite Z.sub_diag].
Qed.

Lemma vbpartial_loop_spec p0 q0 data eof : 0 ≤ p0 → q0 ≤ csize cs →
  ∀ fuel l2 l1 it o rem cur iter pptr plen piter n begin end_ m sk x ws s Q,
  cursor e cs data it l1 l2 o rem → (length l2 ≤ fuel)%nat → 0 ≤ o → cur + rem = q0 → rem = 0 ∨ cur = csize l1 + o → 0 ≤ n →
  holds b k sk x ws s → sized sk ws → plenty ws s → re_pcre x = pc →
  tracks says live (zslice p0 n (content (rx_vb b) cs)) m sk ws → code_of m ≠ REGEXP_MATCH → (lost m → strayed p0 q0) →
  pending p0 cur pptr plen piter n → marks p0 m begin end_ →
  (∀ r s', outcome p0 q0 sk x r s' → Q r s') →
  runs (vbpartial_loop fuel k data eof it iter pptr plen piter begin end_) s Q.
Proof using H Small Ok.
  intros Hp0 Hq0. induction fuel as [|fuel IH];
    intros l2 l1 it o rem cur iter pptr plen piter n begin end_ m sk x ws s Q Hc Hf Ho Hq Hpos Hn Hh Hsz Hpl Epc Ht Hnm Hlo Hpd Hmk HQ;
    pose proof (cursor_rem _ _ _ H _ _ _ _ _ _ Hc) as Hr; cbn [vbpartial_loop].
  all: call runs_next_block; [apply Hh|exact Hc|exact Ho| |].
  2: { intros d a len p it' l1' l2' _ _ _ ? _. lia. }
  3: intros d a len p it' l1' l2' Hpd' Hlen Hc' Hlt Hcs; destruct Hpos as [?|Ecur]; [lia|]; cbn [is_null].
  3: rewrite bool_decide_false by lia; cbn [andb negb].
  1, 2: intros it' ->; cbn [is_null]; rewrite bool_decide_true by done; cbn [andb negb].
  1, 2: call (runs_pending pptr plen piter p0 cur q0 n); [exact Hh|exact Hsz|exact Hpl|exact Epc|exact Hp0|exact Hn|lia|exact Hq0|exact Ht|exact Hnm|exact Hlo|exact Hpd|exact Hmk| |].
  1, 3: intros begin' end' s' Hout; step; by apply HQ.
  1, 2: intros begin' end' s' sk' x' ws' m' Hh' Hsz' Hpl' Er Hx Ht' Hnm' _ Hmk'; step; apply HQ; by eapply outcome_none.
  call (runs_pending pptr plen piter p0 cur q0 n); [exact Hh|exact Hsz|exact Hpl|exact Epc|exact Hp0|exact Hn|lia|exact Hq0|exact Ht|exact Hnm|exact Hlo|exact Hpd|exact Hmk| |].
  { intros begin' end' s' Hout. step. by apply HQ. }
  intros begin' end' s' sk' x' ws' m' Hh' Hsz' Hpl' Er [mx ->] Ht' Hnm' Hlo' Hmk'.
  assert (0 ≤ cur - p0) as Hge.
  { destruct pptr; [destruct Hpd as (? & ? & _)|destruct Hpd]; lia. }
  eapply (IH l2' l1' it' 0 (rem - len) (cur + len)); [exact Hc'|lia|lia|lia|lia|exact Hge|exact Hh'|exact Hsz'|exact Hpl'|exact Epc|exact Ht'|exact Hnm'|exact Hlo'| |exact Hmk'|].
  - destruct Hpd' as (? & ? & Hat & Hby). rewrite Z.add_0_r, <- Ecur in Hat, Hby. unfold pending.
    replace (p0 + (cur - p0)) with cur by lia. by split_and!; [lia|lia|..].
  - intros r s2 Hout. apply HQ. eapply outcome_lift; [exact Hout|done|by eexists].
Qed.

Lemma runs_vbpartial data p q eof sk x ws s Q :
  holds b k sk x ws s → sized sk ws → plenty ws s → re_pcre x = pc → tracks says live [] Idle sk ws → sub_range e cs data p q →
  (∀ ib ie s' sk' x' ws', holds b k sk' x' ws' s' → sk_regexp sk' = sk_regexp sk → same_regexp x x' →
    (sk_match sk' = REGEXP_MATCH → is_Some ib ∧ is_Some ie ∧
      (strayed p q ∨ ∃ f l, p ≤ f ≤ l ∧ l ≤ q ∧ at_pos ib f ∧ at_pos ie l ∧
        says (zslice f (l - f) (content (rx_vb b) cs)))) → Q (sk_match sk', ib, ie) s') →
  runs (_vbpartial_exec (Some k) (Some data) eof (Some vbuffer_iterator_init) (Some vbuffer_iterator_init)) s Q.
Proof using H Small Ok.
  intros Hh Hsz Hpl Epc Ht Hrng HQ. destruct (range_cursor _ _ _ H _ _ _ Hrng) as (l1 & l2 & o & Hc & Ep & Ho).
  destruct (sub_range_order _ _ _ _ _ _ H Hrng) as [Hpq Hq].
  assert (length l2 ≤ S (S (size (vb_chunks (rx_vb s)))))%nat as Hf.
  { pose proof (br_fuel _ _ _ (same_rep _ _ _ _ (h_mem _ _ _ _ _ _ Hh) H)) as Hf.
    rewrite (cu_split _ _ _ _ _ _ _ _ Hc), length_app in Hf. lia. }
  unfold _vbpartial_exec. step. apply runs_bind. apply runs_bind. unfold rxvb at 1. step. eapply runs_chunk_fuel.
  replace (set_rx_vb (rx_vb s) s) with s by (by destruct s).
  eapply (vbpartial_loop_spec p q data eof ltac:(lia) Hq _ l2 l1 vbuffer_mmap_init o (q - p) p _ None 0 _ 0 _ _ Idle);
    [exact Hc|exact Hf|exact Ho|lia|lia|lia|exact Hh|exact Hsz|exact Hpl|exact Epc|by rewrite zslice_0|done|by intros []|done|done|].
  intros [ib ie] s' (sk' & x' & ws' & Hh' & E' & X' & Hm). call runs_rd_sink; [exact Hh'|]. step. by eapply HQ.
Qed.
End buffer.

(** ** A whole buffer *)

Section vbexec.
Context {P : Pcre}.

(** The release of the sink takes its reference back. *)
Lemma runs_free_sink b k sk x ws s n Q :
  holds b k sk x ws s → rx_sinks b !! k = None → re_ref_count x = n + 1 → 1 ≤ n < 2 ^ 32 - 1 →
  Q tt (RX (rx_vb s) (<[sk_regexp sk := set_re_ref n x]> (rx_regexps b)) (rx_sinks b) (rx_spaces b)) →
  runs (_free_regexp_sink (Some k)) s Q.
Proof.
  intros Hh Hk En Hn HQ. destruct (h_space _ _ _ _ _ _ Hh) as (w & Ew & Hw & Esp).
  unfold _free_regexp_sink. step. call runs_rd_sink; [exact Hh|].
  unfold release_regexp. apply runs_bind.
  call runs_check_regexp; [by rewrite (h_re _ _ _ _ _ _ Hh), lookup_insert_eq|apply Hh|]. cbn [negb]. step.
  call runs_rd_regexp; [exact Hh|]. rewrite En. replace (n + 1 - 1) with n by lia. rewrite u32_small by lia.
  unfold wr_regexp. step. rewrite bool_decide_true by lia. unfold skip. step.
  rewrite Ew. unfold free_space, rd_space. step. simpl. rewrite Esp, lookup_insert_eq. step. step. step. step. simpl.
  rewrite (h_re _ _ _ _ _ _ Hh), insert_insert_eq, (h_sinks _ _ _ _ _ _ Hh), Esp, !delete_insert_eq, !delete_id by done. exact HQ.
Qed.

End vbexec.

(** ** Examples *)

(** The buffer "hello!" cut into "he" and "llo!", and the expression "ello". *)
Definition ex3 : vbstate := run (vbuffer_iterator_split (Iter (Some 2%positive) 2 0 false)) ex2.
Definition ex_cs3 : list seg :=
  [(2%positive, Chunk 1 plain (Some 1%positive) 0 2); (7%positive, Chunk 1 plain (Some 1%positive) 2 4)].
Definition ex_ello : @regexp_pcre lit_pcre := @Regexp lit_pcre HAKA_MODULE 1 [101; 108; 108; 111] WSCOUNT_DEFAULT.
Definition ex_rx3 : @rxstate lit_pcre := RX ex3 {[2%positive := ex_ello]} ∅ ∅.
Definition ex_all : vbuffer_sub :=
  Sub (Iter (Some 2%positive) 0 0 false) false (SubEnd (Iter (Some 3%positive) 0 0 false)).

Lemma ex3_rep : buf_rep ex3 3 ex_cs3.
Proof. concrete_rep. Qed.

Lemma ex_all_range : sub_range 3 ex_cs3 ex_all 0 6.
Proof. split_and!; [left; by exists [], (Chunk 1 plain (Some 1%positive) 0 2), [(7%positive, Chunk 1 plain (Some 1%positive) 2 4)]|by right|by left]. Qed.

Lemma ex_ello_rep : @regexp_rep lit_pcre 2 ex_ello ex_rx3.
Proof. split; [done|done|done|..]; intros y; simpl; rewrite lookup_empty; by intros []. Qed.


(** The match from the second byte on lies in both chunks. *)
Lemma vbexec_example :
  (λ r, r.1) <$> vbexec (Some 2%positive) ex_all (Some vbuffer_sub_init) ex_rx3 =
  Some (REGEXP_MATCH, Some (Sub (Iter (Some 2%positive) 1 1 false) false (SubEnd (Iter (Some 7%positive) 3 5 false)))).
Proof. by vm_compute. Qed.

(** ** Outside the intended domain *)

(** An expression that asks for more than [WSCOUNT_MAX] integers. *)
Definition ex_huge : @regexp_pcre lit_pcre := @Regexp lit_pcre HAKA_MODULE 1 (replicate 1100 97) WSCOUNT_DEFAULT.
Definition ex_rx_huge : @rxstate lit_pcre := RX ex3 {[2%positive := ex_huge]} ∅ ∅.

(** [workspace_grow] doubles the count before it compares it with the maximum and leaves it
    so when it gives up: the piece is answered with [REGEXP_ERROR], and the next piece hands
    PCRE a workspace of 640 integers as one of 1280, beyond the end of its memory. *)
Theorem grow_failure_overflow :
  (λ r, r.1.1) <$> (sink ← create_sink (Some 2%positive); feed sink [97] 1 false (Some regexp_result_init)) ex_rx_huge = Some REGEXP_ERROR ∧
  (λ r, r.1.1) <$> (sink ← create_sink (Some 2%positive);
    _ ← feed sink [97] 1 false (Some regexp_result_init);
    feed sink [97] 1 false (Some regexp_result_init)) ex_rx_huge = None.
Proof. split; by vm_compute. Qed.

(** The failure does not reach the caller of [vbexec]: [_vbpartial_exec] returns what the
    sink says, which the failure has left as it was, and the answer is [REGEXP_NOMATCH]
    with an error pending. *)
Theorem grow_failure_hidden :
  (λ r, (r.1.1, vb_error (rx_vb r.2))) <$> vbexec (Some 2%positive) ex_all None ex_rx_huge =
  Some (REGEXP_NOMATCH, Some "PCRE workspace too big"%string).
Proof. by vm_compute. Qed.

(** When [realloc] fails, the old workspace is still there, but the sink has lost its
    address: it is never freed. *)
Theorem grow_nomem_leaks :
  (λ r, map_to_list (rx_spaces r.2)) <$>
    vbexec (Some 2%positive) ex_all None (@RX lit_pcre (take_address 2 ex3) {[2%positive := ex_huge]} ∅ ∅) =
  Some [(10%positive, replicate 20 0)].
Proof. by vm_compute. Qed.

(** An engine whose expression matches at the end of the data only. *)
Definition eol_pcre : Pcre := {|
  pcre := unit;
  pcre_compile := λ _ _, Some tt;
  pcre_exec := λ _ buf len _, (1, (len, len));
  pcre_dfa_exec := λ _ buf len o ws,
    if bool_decide (Z.land o PCRE_NOTEOL ≠ 0) then (PCRE_ERROR_PARTIAL, (0, len), ws) else (1, (0, len), ws);
|}.
Definition ex_eol : @rxstate eol_pcre := RX ex3 {[2%positive := @Regexp eol_pcre HAKA_MODULE 1 tt WSCOUNT_DEFAULT]} ∅ ∅.
Definition ex_empty : vbuffer_sub :=
  Sub (Iter (Some 3%positive) 0 0 false) false (SubEnd (Iter (Some 3%positive) 0 0 false)).

(** The end of a stream that comes without a buffer lets a match that has begun end there;
    the end that comes with an empty buffer does not reach PCRE, and the match is missed. *)
Theorem empty_end_missed :
  let last (vbuf : option vbuffer_sub) :=
    (λ r, r.1.1.1) <$> (sink ← create_sink (Some 2%positive);
      _ ← vbfeed sink (Some ex_all) false None None;
      vbfeed sink vbuf true None None) ex_eol in
  last None = Some REGEXP_MATCH ∧ last (Some ex_empty) = Some REGEXP_PARTIAL.
Proof. split; by vm_compute. Qed.
