(* ===== verification/Listeners.v ===== *)
(** * Listeners: the lists of loggers and of alerters (lib/haka/log.c, alert.c)

    Loggers and alerters are kept and called by the same code: a list of
    container/list.h with a variable for its first element, new listeners in front;
    one that fails to take a message sets its [mark_for_remove], and the call that
    made it do so removes it at its end. The definitions are written once, over the
    type [E] of what is delivered; Log and Alert instantiate them.

    The callbacks are arguments: [on_call l e] tells whether the delivery of [e] makes
    [l] mark itself, [frees l] whether its [destroy] frees the structure (the
    listeners of the control channel) or leaves it to its module. Calls are recorded
    as events. *)

From S2P Require Import Prelude List2 List.

(** ** Data *)

Inductive lsn_event (E : Type) :=
  | Called (l : loc) (e : E)
  | Printed (e : E)
  | Destroyed (l : loc).
Arguments Called {E} l e.
Arguments Printed {E} e.
Arguments Destroyed {E} l.

(** [ln_marks]: [mark_for_remove] of the listeners in memory; [ln_error]: the pending
    error of the thread. *)
Record lsn (E : Type) := Lsn {
  ln_list : lstate;
  ln_marks : gmap loc bool;
  ln_error : option string;
  ln_events : list (lsn_event E);
}.
Arguments Lsn {E}.
Arguments ln_list {E}.
Arguments ln_marks {E}.
Arguments ln_error {E}.
Arguments ln_events {E}.

Section listeners.
Context {E : Type} (on_call : loc → E → bool) (frees : loc → bool).

Definition ln_set_list (x : lstate) (s : lsn E) : lsn E := Lsn x (ln_marks s) (ln_error s) (ln_events s).
Definition ln_set_marks (x : gmap loc bool) (s : lsn E) : lsn E := Lsn (ln_list s) x (ln_error s) (ln_events s).
Definition ln_set_error (x : option string) (s : lsn E) : lsn E := Lsn (ln_list s) (ln_marks s) x (ln_events s).
Definition ln_add_event (x : lsn_event E) (s : lsn E) : lsn E :=
  Lsn (ln_list s) (ln_marks s) (ln_error s) (ln_events s ++ [x]).

(** The first error is kept. *)
Definition lsn_error (msg : string) : M (lsn E) unit :=
  modify (λ s, ln_set_error (Some (default msg (ln_error s))) s).

Definition on_list {A} (m : LM A) : M (lsn E) A := zoom ln_list ln_set_list m.

Definition lsn_head : M (lsn E) ptr := gets (λ s, ls_head (ln_list s)).
Definition lsn_fuel : M (lsn E) nat := gets (λ s, S (size (ls_links (ln_list s)))).

(** ** Addition and removal *)

(** [list_insert_before(logger, loggers, &loggers, NULL)] *)
Definition lsn_add (l : loc) : M (lsn E) bool :=
  h ← lsn_head;
  on_list (_list_insert_before l h true false);;
  ret true.

Definition lsn_destroy (l : loc) : M (lsn E) unit :=
  modify (ln_add_event (Destroyed l));;
  if frees l then
    modify (λ s, ln_set_marks (delete l (ln_marks s)) s);;
    on_list (on_links (modify (delete l)))
  else skip.

(** [head]: whether the removal updates the variable of the list. *)
Definition lsn_cleanup (l : loc) (head : bool) : M (lsn E) unit :=
  on_list (_list_remove l head false);;
  lsn_destroy l.

Fixpoint lsn_find (fuel : nat) (iter : ptr) (l : loc) : M (lsn E) bool :=
  match iter, fuel with
  | None, _ => ret false
  | Some _, O => stuck
  | Some i, S fuel =>
      if bool_decide (i = l) then ret true else
      n ← on_list (list_next i); lsn_find fuel n l
  end.

Definition lsn_remove (not_registered : string) (l : loc) : M (lsn E) bool :=
  fuel ← lsn_fuel;
  h ← lsn_head;
  found ← lsn_find fuel h l;
  if negb found then lsn_error not_registered;; ret false else
  lsn_cleanup l true;;
  ret true.

Fixpoint lsn_remove_all_loop (fuel : nat) (l : ptr) : M (lsn E) unit :=
  match l, fuel with
  | None, _ => skip
  | Some _, O => stuck
  | Some current, S fuel =>
      l ← on_list (list_next current);
      lsn_cleanup current false;;
      lsn_remove_all_loop fuel l
  end.

Definition lsn_remove_all : M (lsn E) unit :=
  fuel ← lsn_fuel;
  l ← lsn_head;
  on_list (set_lhead None);;
  lsn_remove_all_loop fuel l.

(** ** Delivery *)

Definition lsn_mark (l : loc) : M (lsn E) bool := m ← gets (λ s, ln_marks s !! l); deref m.

Definition lsn_call (l : loc) (e : E) : M (lsn E) unit :=
  _ ← lsn_mark l;
  modify (ln_add_event (Called l e));;
  if on_call l e then modify (λ s, ln_set_marks (<[l := true]> (ln_marks s)) s) else skip.

(** True when a listener is marked. *)
Fixpoint lsn_call_loop (fuel : nat) (iter : ptr) (e : E) (remove_pass : bool) : M (lsn E) bool :=
  match iter, fuel with
  | None, _ => ret remove_pass
  | Some _, O => stuck
  | Some i, S fuel =>
      lsn_call i e;;
      m ← lsn_mark i;
      n ← on_list (list_next i);
      lsn_call_loop fuel n e (remove_pass || m)
  end.

Definition lsn_call_all (e : E) : M (lsn E) bool :=
  fuel ← lsn_fuel; h ← lsn_head; lsn_call_loop fuel h e false.

(** [list_next(iter)] reads the element after its removal. *)
Fixpoint lsn_remove_pass_loop (not_registered : string) (fuel : nat) (iter : ptr) : M (lsn E) unit :=
  match iter, fuel with
  | None, _ => skip
  | Some _, O => stuck
  | Some i, S fuel =>
      m ← lsn_mark i;
      (if m : bool then _ ← lsn_remove not_registered i; skip else skip);;
      n ← on_list (list_next i);
      lsn_remove_pass_loop not_registered fuel n
  end.

Definition lsn_remove_pass (not_registered : string) : M (lsn E) unit :=
  fuel ← lsn_fuel; h ← lsn_head; lsn_remove_pass_loop not_registered fuel h.
End listeners.

(** ** The listeners a state holds *)

Record lsn_rep {E} (s : lsn E) (ls : list loc) : Prop := {
  lp_list : llist true false (ln_list s) ls;
  lp_marks : ∀ l, l ∈ ls → is_Some (ln_marks s !! l);
}.

Section spec.
Context {E : Type} (on_call : loc → E → bool).
Implicit Types (s : lsn E) (ls : list loc).

Definition marked s (l : loc) : bool := default false (ln_marks s !! l).

Lemma runs_ln_next s l1 x l2 Q : lsn_rep s (l1 ++ x :: l2) → Q (first_or None l2) s → runs (on_list (list_next x)) s Q.
Proof.
  intros [Hl _] HQ. unfold on_list. step. eapply runs_list_next; [by eapply seg_cell, ll_seg|]. by destruct s.
Qed.

Lemma runs_lsn_fuel s ls Q : lsn_rep s ls → (∀ n, (length ls < n)%nat → Q n s) → runs lsn_fuel s Q.
Proof.
  intros [[Hnd Hs _ _] _] HQ. unfold lsn_fuel. step. apply HQ. pose proof (seg_length _ _ _ _ Hnd Hs). lia.
Qed.

Lemma runs_lsn_head s ls Q : lsn_rep s ls → Q (first_or None ls) s → runs lsn_head s Q.
Proof. intros [Hl _] HQ. unfold lsn_head. step. by rewrite (ll_head _ _ _ _ Hl). Qed.

Lemma runs_lsn_mark s ls l Q : lsn_rep s ls → l ∈ ls → Q (marked s l) s → runs (lsn_mark l) s Q.
Proof.
  intros [_ Hm] Hi HQ. destruct (Hm l Hi) as [b Eb]. unfold lsn_mark. step. step. unfold marked in HQ. by rewrite Eb in HQ.
Qed.

(** *** Delivery *)

Definition called (e : E) s (l : loc) : lsn E :=
  let s := ln_add_event (Called l e) s in
  if on_call l e then ln_set_marks (<[l := true]> (ln_marks s)) s else s.

Lemma runs_lsn_call s ls l e Q : lsn_rep s ls → l ∈ ls → Q tt (called e s l) → runs (lsn_call on_call l e) s Q.
Proof.
  intros R Hi HQ. unfold lsn_call. call runs_lsn_mark; [done..|]. step. unfold called in HQ.
  destruct (on_call l e); [by step|by apply runs_ret].
Qed.

Lemma called_rep e s ls l : lsn_rep s ls → lsn_rep (called e s l) ls.
Proof.
  intros [Hl Hm]. unfold called. destruct (on_call l e); split; simpl; try done.
  intros x Hx. destruct (decide (x = l)) as [->|]; [rewrite lookup_insert_eq; eauto|rewrite lookup_insert_ne by done; auto].
Qed.

Lemma called_list e s l : ln_list (called e s l) = ln_list s.
Proof. unfold called. by destruct (on_call l e). Qed.
Lemma called_error e s l : ln_error (called e s l) = ln_error s.
Proof. unfold called. by destruct (on_call l e). Qed.
Lemma called_events e s l : ln_events (called e s l) = ln_events s ++ [Called l e].
Proof. unfold called. by destruct (on_call l e). Qed.
Lemma called_marked e s l : is_Some (ln_marks s !! l) → marked (called e s l) l = marked s l || on_call l e.
Proof.
  intros [b Eb]. unfold called, marked. destruct (on_call l e); simpl.
  - by rewrite lookup_insert_eq, orb_true_r.
  - by rewrite orb_false_r.
Qed.
Lemma called_marks_ne e s l x : x ≠ l → ln_marks (called e s l) !! x = ln_marks s !! x.
Proof. intros Hne. unfold called. destruct (on_call l e); simpl; [by rewrite lookup_insert_ne|done]. Qed.

(** The state after the delivery to all of [ls]. *)
Definition called_all (e : E) (ls : list loc) s : lsn E := foldl (called e) s ls.

Lemma called_all_spec e ls s : NoDup ls → (∀ l, l ∈ ls → is_Some (ln_marks s !! l)) →
  ln_list (called_all e ls s) = ln_list s ∧ ln_error (called_all e ls s) = ln_error s ∧
  ln_events (called_all e ls s) = ln_events s ++ ((λ l, Called l e) <$> ls) ∧
  (∀ l, l ∉ ls → ln_marks (called_all e ls s) !! l = ln_marks s !! l) ∧
  (∀ l, l ∈ ls → is_Some (ln_marks (called_all e ls s) !! l) ∧ marked (called_all e ls s) l = marked s l || on_call l e).
Proof.
  revert s. induction ls as [|x ls IH]; intros s Hnd Hm; simpl.
  { split_and!; [done..|by rewrite app_nil_r|done|set_solver]. }
  apply NoDup_cons in Hnd as [Hx Hnd].
  destruct (IH (called e s x) Hnd) as (L & R & V & O & I).
  { intros l Hl. rewrite called_marks_ne by set_solver. apply Hm. set_solver. }
  split_and!.
  - by rewrite L, called_list.
  - by rewrite R, called_error.
  - by rewrite V, called_events, <- app_assoc.
  - intros l Hl. rewrite O by set_solver. apply called_marks_ne. set_solver.
  - intros l [->|Hl]%elem_of_cons.
    + unfold marked at 1. rewrite O by done. fold (marked (called e s x) x). rewrite called_marked by (apply Hm; set_solver).
      split; [|done]. unfold called. destruct (on_call x e); simpl; [rewrite lookup_insert_eq; eauto|apply Hm; set_solver].
    + destruct (I l Hl) as [? ->]. split; [done|]. f_equal. unfold marked. rewrite called_marks_ne by set_solver. done.
Qed.

Lemma runs_lsn_call_loop e : ∀ l2 l1 s fuel rp Q, lsn_rep s (l1 ++ l2) → (length l2 < fuel)%nat →
  Q (rp || existsb (λ l, marked s l || on_call l e) l2) (called_all e l2 s) →
  runs (lsn_call_loop on_call fuel (first_or None l2) e rp) s Q.
Proof.
  induction l2 as [|x l2 IH]; intros l1 s fuel rp Q R Hf HQ; destruct fuel as [|fuel]; simpl in *; [lia| |lia|].
  { apply runs_ret. by rewrite orb_false_r in HQ. }
  pose proof R as [Hl Hm]. assert (x ∈ l1 ++ x :: l2) as Hx by set_solver.
  assert (x ∉ l2) as Hx2. { apply ll_nodup, NoDup_app in Hl as (_ & _ & [? _]%NoDup_cons). done. }
  call runs_lsn_call; [done..|]. pose proof (called_rep e _ _ x R) as R'.
  call runs_lsn_mark; [done..|]. call runs_ln_next; [done|].
  apply (IH (l1 ++ [x])); [by rewrite <- app_assoc|lia|]. rewrite called_marked by auto. rewrite <- orb_assoc.
  replace (existsb (λ l, marked (called e s x) l || on_call l e) l2) with (existsb (λ l, marked s l || on_call l e) l2); [done|].
  clear -Hx2. induction l2 as [|y l2 IH]; simpl; [done|]. rewrite IH by set_solver. unfold marked. rewrite called_marks_ne by set_solver. done.
Qed.

Lemma runs_lsn_call_all s ls e Q : lsn_rep s ls →
  Q (existsb (λ l, marked s l || on_call l e) ls) (called_all e ls s) → runs (lsn_call_all on_call e) s Q.
Proof.
  intros R HQ. unfold lsn_call_all. call runs_lsn_fuel; [done|]. intros n Hn. call runs_lsn_head; [done|].
  by apply (runs_lsn_call_loop e ls []).
Qed.

Lemma called_all_rep e s ls : lsn_rep s ls → lsn_rep (called_all e ls s) ls.
Proof.
  intros [Hl Hm]. destruct (called_all_spec e ls s) as (L & _ & _ & _ & I); [by destruct Hl|done|].
  split; [by rewrite L|]. intros l Hi. by apply I.
Qed.

(** A listener is marked after it got [e]. *)
Definition fails s (e : E) (l : loc) : bool := marked s l || on_call l e.

(** The listeners a call takes out: the first one that fails, if there is one. *)
Definition taken_out s e (ls l1 gone l2 : list loc) : Prop :=
  ls = l1 ++ gone ++ l2 ∧ Forall (λ l, fails s e l = false) l1 ∧
  match gone with
  | [] => l2 = []
  | [x] => fails s e x = true
  | _ => False
  end.

Lemma taken_fails s e ls l1 gone l2 : taken_out s e ls l1 gone l2 → existsb (fails s e) ls = negb (bool_decide (gone = [])).
Proof.
  intros (-> & Hf & Hg). apply eq_bool_prop_intro. rewrite !Is_true_true, existsb_exists.
  assert (∀ x, x ∈ l1 → fails s e x = false) as H1 by (by apply Forall_forall).
  destruct gone as [|x [|]]; [subst l2|..|done]; simpl.
  - rewrite app_nil_r. split; [|done]. intros (x & Hi%list_elem_of_In & Hx). rewrite H1 in Hx; done.
  - split; [done|]. intros _. exists x. split; [|done]. apply list_elem_of_In. set_solver.
Qed.
End spec.

(** *** Removal *)

Section removal.
Context {E : Type}.
Implicit Types (s : lsn E) (ls : list loc).

Lemma runs_lsn_find s ls l : ∀ l2 l1 fuel Q, lsn_rep s ls → ls = l1 ++ l2 → l ∉ l1 → (length l2 < fuel)%nat →
  Q (bool_decide (l ∈ ls)) s → runs (lsn_find fuel (first_or None l2) l) s Q.
Proof.
  induction l2 as [|x l2 IH]; intros l1 fuel Q R -> Hl1 Hf HQ; destruct fuel as [|fuel]; simpl in *; [lia| |lia|].
  { apply runs_ret. rewrite bool_decide_false in HQ by set_solver. done. }
  destruct (decide (x = l)) as [->|Hne].
  - rewrite bool_decide_true by done. apply runs_ret. rewrite bool_decide_true in HQ by set_solver. done.
  - rewrite bool_decide_false by done. call runs_ln_next; [done|].
    apply (IH (l1 ++ [x])); [done|by rewrite <- app_assoc|set_solver|lia|done].
Qed.

Lemma runs_lsn_add s ls x Q : lsn_rep s ls → x ∉ ls → ls_links (ln_list s) !! x = Some (Elem None None) →
  is_Some (ln_marks s !! x) →
  (∀ s', lsn_rep s' (x :: ls) → s' = ln_set_list (ln_list s') s → same_out (x :: ls) (ls_links (ln_list s)) (ls_links (ln_list s')) → Q true s') →
  runs (lsn_add x) s Q.
Proof.
  intros R Hx Ex Mx HQ. unfold lsn_add. call runs_lsn_head; [done|]. destruct R as [Hl Hm]. unfold on_list. step.
  eapply (runs_list_insert_before true false _ _ [] ls); [done| |done|done|].
  { destruct ls; simpl; eauto. }
  intros t Hl' [Ko _ _]. step. apply HQ; [|done|done]. split; [done|]. intros l [->|Hi]%elem_of_cons; [done|by apply Hm].
Qed.
Lemma llist_delete head tail (s : lstate) xs x : llist head tail s xs → x ∉ xs →
  llist head tail (set_llinks (delete x (ls_links s)) s) xs.
Proof.
  intros [Hnd Hs Hh Ht] Hx. split; simpl; [done| |done|done]. eapply seg_ext; [|done].
  intros y Hy. apply lookup_delete_ne. set_solver.
Qed.

Context (frees : loc → bool).

(** What the removal of [x] leaves: the links of [x] are null, or it is freed. *)
Record removed (x : loc) (ls : list loc) s s' : Prop := {
  rm_events : ln_events s' = ln_events s ++ [Destroyed x];
  rm_error : ln_error s' = ln_error s;
  rm_marks : ln_marks s' = if frees x then delete x (ln_marks s) else ln_marks s;
  rm_cell : ls_links (ln_list s') !! x = if frees x then None else Some (Elem None None);
  rm_out : same_out ls (ls_links (ln_list s)) (ls_links (ln_list s'));
}.

Lemma runs_lsn_cleanup head s l1 x l2 Q :
  llist head false (ln_list s) (l1 ++ x :: l2) → (∀ l, l ∈ l1 ++ x :: l2 → is_Some (ln_marks s !! l)) →
  (∀ s', llist head false (ln_list s') (l1 ++ l2) → (∀ l, l ∈ l1 ++ l2 → is_Some (ln_marks s' !! l)) →
    (head = false → ls_head (ln_list s') = ls_head (ln_list s)) →
    removed x (l1 ++ x :: l2) s s' → Q tt s') →
  runs (lsn_cleanup frees x head) s Q.
Proof.
  intros Hl Hm HQ. unfold lsn_cleanup, on_list. step. eapply runs_list_remove; [done|]. intros t Hl' Et [Ko Kh _].
  assert (x ∉ l1 ++ l2) as Hx.
  { destruct Hl as [Hnd _ _ _]. rewrite <- Permutation_middle in Hnd. by apply NoDup_cons in Hnd as [? _]. }
  unfold lsn_destroy. step. destruct (frees x) eqn:Ef.
  - step. unfold on_list, on_links. step. step. step. apply HQ; simpl.
    + by apply llist_delete.
    + intros l Hi. rewrite lookup_delete_ne by (by intros ->). apply Hm. set_solver.
    + done.
    + split; simpl; rewrite ?Ef; try done; [apply lookup_delete_eq|]. intros y Hy.
      rewrite lookup_delete_ne by set_solver. by apply Ko.
  - apply runs_ret, HQ; simpl; [done|intros l Hi; apply Hm; set_solver|done|]. split; simpl; by rewrite ?Ef.
Qed.

Lemma runs_lsn_remove s l1 x l2 msg Q : lsn_rep s (l1 ++ x :: l2) →
  (∀ s', lsn_rep s' (l1 ++ l2) → removed x (l1 ++ x :: l2) s s' → Q true s') →
  runs (lsn_remove frees msg x) s Q.
Proof.
  intros R HQ. unfold lsn_remove. call runs_lsn_fuel; [done|]. intros n Hn. call runs_lsn_head; [done|].
  apply runs_bind, (runs_lsn_find s (l1 ++ x :: l2) x _ []); [done|done|set_solver|done|].
  rewrite bool_decide_true by set_solver. simpl. destruct R as [Hl Hm]. call runs_lsn_cleanup; [done..|].
  intros s' Hl' Hm' _ Hr. step. by apply HQ.
Qed.

(** A listener that is not in the list is refused. *)
Lemma runs_lsn_remove_unknown s ls x msg Q : lsn_rep s ls → x ∉ ls →
  Q false (ln_set_error (Some (default msg (ln_error s))) s) → runs (lsn_remove frees msg x) s Q.
Proof.
  intros R Hx HQ. unfold lsn_remove. call runs_lsn_fuel; [done|]. intros n Hn. call runs_lsn_head; [done|].
  apply runs_bind, (runs_lsn_find s ls x _ []); [done|done|set_solver|done|].
  rewrite bool_decide_false by done. simpl. unfold lsn_error. step. by step.
Qed.

(** The walk over the listeners that are not marked. *)
Lemma remove_pass_skip s ls msg : ∀ l2 l1 l3 fuel, lsn_rep s ls → ls = l1 ++ l2 ++ l3 →
  Forall (λ l, marked s l = false) l2 → (length (l2 ++ l3) < fuel)%nat →
  ∃ fuel', (length l3 < fuel')%nat ∧
    lsn_remove_pass_loop frees msg fuel (first_or None (l2 ++ l3)) s = lsn_remove_pass_loop frees msg fuel' (first_or None l3) s.
Proof.
  induction l2 as [|x l2 IH]; intros l1 l3 fuel R -> Hm Hf; simpl; [by exists fuel|].
  apply Forall_cons in Hm as [Hx Hm]. destruct fuel as [|fuel]; simpl in *; [lia|].
  destruct (IH (l1 ++ [x]) l3 fuel) as (f & Hlt & E1); [done|by rewrite <- app_assoc|done|lia|]. exists f. split; [done|].
  rewrite <- E1. destruct (runs_lsn_mark s _ x (λ m s', m = false ∧ s' = s) R) as (m & s1 & Em & -> & ->); [set_solver|done|].
  destruct (runs_ln_next s l1 x (l2 ++ l3) (λ n s', n = first_or None (l2 ++ l3) ∧ s' = s) R) as (n & s1 & En & -> & ->); [done|].
  unfold bind. rewrite Em. simpl. by rewrite En.
Qed.

Lemma remove_pass_at s l1 l2 msg : lsn_rep s (l1 ++ l2) → Forall (λ l, marked s l = false) l1 →
  ∃ fuel, (length l2 < fuel)%nat ∧ lsn_remove_pass frees msg s = lsn_remove_pass_loop frees msg fuel (first_or None l2) s.
Proof.
  intros R Hm. destruct (runs_lsn_fuel s _ (λ n s', (length (l1 ++ l2) < n)%nat ∧ s' = s) R) as (n & s1 & Ef & Hn & ->); [done|].
  destruct (runs_lsn_head s _ (λ h s', h = first_or None (l1 ++ l2) ∧ s' = s) R) as (h & s1 & Eh & -> & ->); [done|].
  destruct (remove_pass_skip s (l1 ++ l2) msg l1 [] l2 n) as (f & Hf & E1); [done..|]. exists f. split; [done|].
  unfold lsn_remove_pass, bind. by rewrite Ef, Eh.
Qed.

Lemma runs_remove_pass_none s ls msg Q : lsn_rep s ls → Forall (λ l, marked s l = false) ls → Q tt s →
  runs (lsn_remove_pass frees msg) s Q.
Proof.
  intros R Hm HQ. destruct (remove_pass_at s ls [] msg) as (f & Hf & E1); [by rewrite app_nil_r|done|].
  unfold runs. rewrite E1. destruct f; simpl in *; [lia|]. by exists tt, s.
Qed.

(** The pass ends with the first marked listener: once it is out of the list it has
    no next element. *)
Lemma runs_remove_pass_first s l1 x l2 msg Q : lsn_rep s (l1 ++ x :: l2) →
  Forall (λ l, marked s l = false) l1 → marked s x = true → frees x = false →
  (∀ s', lsn_rep s' (l1 ++ l2) → removed x (l1 ++ x :: l2) s s' → Q tt s') →
  runs (lsn_remove_pass frees msg) s Q.
Proof.
  intros R Hm Hx Hf HQ. destruct (remove_pass_at s l1 (x :: l2) msg) as (f & Hfu & E1); [done..|].
  assert (runs (lsn_remove_pass_loop frees msg f (Some x)) s Q) as H; [|by unfold runs in *; rewrite E1].
  destruct f as [|f]; simpl in *; [lia|]. call runs_lsn_mark; [done|set_solver|]. rewrite Hx.
  apply runs_bind. call runs_lsn_remove; [done|]. intros s' R' Hr. apply runs_ret.
  pose proof (rm_cell _ _ _ _ Hr) as Ec. rewrite Hf in Ec. unfold on_list at 1. step. eapply runs_list_next; [done|].
  assert (ln_set_list (ln_list s') s' = s') as -> by (by destruct s'). destruct f; by apply runs_ret, HQ.
Qed.

(** A pass that reads a listener which was freed has no result. *)
Lemma remove_pass_freed s l1 x l2 msg : lsn_rep s (l1 ++ x :: l2) →
  Forall (λ l, marked s l = false) l1 → marked s x = true → frees x = true →
  lsn_remove_pass frees msg s = None.
Proof.
  intros R Hm Hx Hf. destruct (remove_pass_at s l1 (x :: l2) msg) as (f & Hfu & ->); [done..|].
  destruct f as [|f]; simpl in *; [lia|].
  destruct (runs_lsn_mark s _ x (λ m s', m = true ∧ s' = s) R) as (m & s1 & Em & -> & ->); [set_solver|done|].
  destruct (runs_lsn_remove s l1 x l2 msg (λ b s', b = true ∧ removed x (l1 ++ x :: l2) s s')) as (b & s' & Er & -> & Hr); [done|done|].
  pose proof (rm_cell _ _ _ _ Hr) as Ec. rewrite Hf in Ec. unfold bind. rewrite Em, Er. simpl.
  unfold on_list, zoom, list_next, on_links, zoom, rd_elem, bind, gets. by rewrite Ec.
Qed.

(** All listeners are destroyed, in the order of the list. *)
Lemma runs_remove_all_loop : ∀ ls s fuel Q, llist false false (ln_list s) ls →
  (∀ l, l ∈ ls → is_Some (ln_marks s !! l)) → (length ls < fuel)%nat → 
  (∀ s', ln_events s' = ln_events s ++ (Destroyed <$> ls) → ln_error s' = ln_error s → ls_head (ln_list s') = ls_head (ln_list s) →
    (∀ l, l ∈ ls → ls_links (ln_list s') !! l = if frees l then None else Some (Elem None None)) →
    same_out ls (ls_links (ln_list s)) (ls_links (ln_list s')) → Q tt s') →
  runs (lsn_remove_all_loop frees fuel (first_or None ls)) s Q.
Proof.
  induction ls as [|x ls IH]; intros s fuel Q Hl Hm Hf HQ; destruct fuel as [|fuel]; simpl in *; [lia| |lia|].
  { apply runs_ret, HQ; [by rewrite app_nil_r|done..|set_solver|done]. }
  apply runs_bind. unfold on_list at 1. step. eapply runs_list_next; [apply (seg_cell _ None [] x ls None); by destruct Hl|]. simpl.
  assert (ln_set_list (ln_list s) s = s) as -> by (by destruct s).
  call (runs_lsn_cleanup false s [] x ls); [done..|]. intros s1 Hl1 Hm1 Hh1 [Ev Er Mk Ce Ou]. simpl in *.
  assert (x ∉ ls) as Hx by (by apply ll_nodup, NoDup_cons in Hl as [? _]).
  apply IH; [done..|lia|]. intros s2 Ev2 Er2 Hh2 Ce2 Ou2. apply HQ.
  - by rewrite Ev2, Ev, <- app_assoc.
  - by rewrite Er2, Er.
  - by rewrite Hh2, Hh1.
  - intros l [->|Hi]%elem_of_cons; [by rewrite Ou2 by done|by apply Ce2].
  - intros y Hy. rewrite Ou2, Ou by set_solver. done.
Qed.

Lemma runs_lsn_remove_all s ls Q : lsn_rep s ls →
  (∀ s', lsn_rep s' [] → ln_events s' = ln_events s ++ (Destroyed <$> ls) → ln_error s' = ln_error s → Q tt s') →
  runs (lsn_remove_all frees) s Q.
Proof.
  intros R HQ. unfold lsn_remove_all. call runs_lsn_fuel; [done|]. intros n Hn. call runs_lsn_head; [done|].
  unfold on_list, set_lhead. step. step. destruct R as [[Hnd Hs _ _] Hm].
  apply runs_remove_all_loop; [by split|done|done|]. intros s' Ev Er Hh _ _. apply HQ; [|done|done].
  split; [|set_solver]. split; [apply NoDup_nil_2|done|by rewrite Hh|done].
Qed.
End removal.
