(* ===== verification/Log.v ===== *)
(** * Log sections, levels and loggers (lib/haka/log.c, include/haka/log.h)

    Sections are numbered by the order of their registration. For each level a bit
    set tells which sections log at it, and one more which sections have a level of
    their own. The loggers are [Listeners], with the callbacks [on_message] and
    [frees]; formatting is outside, and the output on the terminal is the event
    [Printed]. *)

From S2P Require Import Prelude Types List2 List Listeners.

(** ** Data *)

Inductive log_level :=
  | HAKA_LOG_FATAL | HAKA_LOG_ERROR | HAKA_LOG_WARNING | HAKA_LOG_INFO | HAKA_LOG_DEBUG | HAKA_LOG_TRACE
  | HAKA_LOG_DEFAULT | HAKA_LOG_LEVEL_LAST.

#[export] Instance log_level_eq_dec : EqDecision log_level.
Proof. solve_decision. Defined.

(** The values of the enumeration. *)
Definition level_num (l : log_level) : Z :=
  match l with
  | HAKA_LOG_FATAL => 0 | HAKA_LOG_ERROR => 1 | HAKA_LOG_WARNING => 2 | HAKA_LOG_INFO => 3
  | HAKA_LOG_DEBUG => 4 | HAKA_LOG_TRACE => 5 | HAKA_LOG_DEFAULT => 6 | HAKA_LOG_LEVEL_LAST => 7
  end.
Definition level_of (n : Z) : log_level :=
  match n with
  | 0 => HAKA_LOG_FATAL | 1 => HAKA_LOG_ERROR | 2 => HAKA_LOG_WARNING | 3 => HAKA_LOG_INFO
  | 4 => HAKA_LOG_DEBUG | 5 => HAKA_LOG_TRACE | 6 => HAKA_LOG_DEFAULT | _ => HAKA_LOG_LEVEL_LAST
  end.

Definition HAKA_LOG_LEVEL_MAX : Z := 6.
Definition MAX_SECTION : Z := 256.
Definition INVALID_SECTION_ID : Z := -1.

(** What a logger gets. *)
Record log_message := LogMessage { lm_level : log_level; lm_module : string; lm_text : string }.

(** [lo_sections]: the first [sections_count] entries of the table, a name may be
    NULL. [lo_doing]: [doing_message] of the thread. *)
Record log := Log {
  lo_loggers : lsn log_message;
  lo_sections : list (option string);
  lo_custom : bitfield;
  lo_levels : list bitfield;
  lo_stdout : bool;
  lo_doing : bool;
  lo_memory : bool;
}.

Abbreviation LGM := (M log).

Definition default_level : log_level := HAKA_LOG_INFO.

Definition set_loggers (x : lsn log_message) (s : log) : log :=
  Log x (lo_sections s) (lo_custom s) (lo_levels s) (lo_stdout s) (lo_doing s) (lo_memory s).
Definition set_sections (x : list (option string)) (s : log) : log :=
  Log (lo_loggers s) x (lo_custom s) (lo_levels s) (lo_stdout s) (lo_doing s) (lo_memory s).
Definition set_custom (x : bitfield) (s : log) : log :=
  Log (lo_loggers s) (lo_sections s) x (lo_levels s) (lo_stdout s) (lo_doing s) (lo_memory s).
Definition set_levels (x : list bitfield) (s : log) : log :=
  Log (lo_loggers s) (lo_sections s) (lo_custom s) x (lo_stdout s) (lo_doing s) (lo_memory s).
Definition set_stdout (x : bool) (s : log) : log :=
  Log (lo_loggers s) (lo_sections s) (lo_custom s) (lo_levels s) x (lo_doing s) (lo_memory s).
Definition set_doing (x : bool) (s : log) : log :=
  Log (lo_loggers s) (lo_sections s) (lo_custom s) (lo_levels s) (lo_stdout s) x (lo_memory s).

Definition on_loggers {A} (m : M (lsn log_message) A) : LGM A := zoom lo_loggers set_loggers m.
Definition log_error (msg : string) : LGM unit := on_loggers (lsn_error msg).

Definition on_custom {A} (m : M bitfield A) : LGM A := zoom lo_custom set_custom m.

(** [section_levels[i].bitfield] *)
Definition on_level {A} (i : Z) (m : M bitfield A) : LGM A :=
  ls ← gets lo_levels;
  bf ← deref (ls !! Z.to_nat i);
  match m bf with
  | Some (a, bf) => modify (λ s, set_levels (<[Z.to_nat i := bf]> (lo_levels s)) s);; ret a
  | None => stuck
  end.

(** ** Names of the levels *)

Definition str_level : list string := ["fatal"; "error"; "warn"; "info"; "debug"; "trace"; "default"]%string.

Definition level_to_str (level : log_level) : LGM string :=
  c_assert (bool_decide (level_num level < level_num HAKA_LOG_LEVEL_LAST));;
  deref (str_level !! Z.to_nat (level_num level)).

Fixpoint level_loop (names : list string) (level : Z) (str : string) : Z :=
  match names with
  | n :: names => if bool_decide (n = str) then level else level_loop names (level + 1) str
  | [] => level
  end.

Definition str_to_level (str : string) : LGM log_level :=
  let level := level_loop str_level 0 str in
  (if bool_decide (level = level_num HAKA_LOG_LEVEL_LAST)
   then log_error ("invalid logging level: " ++ str)%string else skip);;
  ret (level_of level).

(** ** Sections *)

Fixpoint search_loop (name : string) (i : Z) (l : list (option string)) : LGM Z :=
  match l with
  | [] => ret INVALID_SECTION_ID
  | n :: l =>
      n ← deref n;
      if bool_decide (name = n) then ret i else search_loop name (i + 1) l
  end.

Definition search_log_section (name : string) : LGM Z :=
  l ← gets lo_sections; search_loop name 0 l.

(** [strdup] gives NULL without memory. *)
Definition register_log_section (name : string) : LGM Z :=
  id ← search_log_section name;
  if negb (bool_decide (id = INVALID_SECTION_ID)) then ret id else
  n ← gets (λ s, zlen (lo_sections s));
  if bool_decide (n >= MAX_SECTION) then log_error "too many log section";; ret INVALID_SECTION_ID else
  mem ← gets lo_memory;
  modify (λ s, set_sections (lo_sections s ++ [if mem : bool then Some name else None]) s);;
  ret n.

Definition cleanup_sections : LGM unit :=
  modify (λ s, set_sections ((λ _, None) <$> lo_sections s) s).

Definition static_log_section : list (string * Z) :=
  [("core", 0); ("packet", 1); ("time", 2); ("states", 3); ("remote", 4); ("external", 5); ("lua", 6)]%string.

(** The sections of the program, by the constructor of the library; the storage of
    the thread and the mutex of the terminal are not part of the state. *)
Fixpoint init_sections (l : list (string * Z)) : LGM unit :=
  match l with
  | [] => skip
  | (name, n) :: l =>
      id ← register_log_section name;
      c_assert (bool_decide (id = n));;
      init_sections l
  end.

Definition _message_init : LGM unit := init_sections static_log_section.

(** ** Levels *)

Definition check_section_log_level (section : Z) (level : log_level) : LGM bool :=
  n ← gets (λ s, zlen (lo_sections s));
  c_assert (bool_decide (section < n));;
  c_assert (bool_decide (level_num level < HAKA_LOG_LEVEL_MAX));;
  on_level (level_num level) (bitfield_get section).

(** [for (i=0; i<HAKA_LOG_LEVEL_MAX; ++i)], [k] iterations are left. *)
Fixpoint set_section_loop (k : nat) (section : Z) (level : log_level) : LGM unit :=
  match k with
  | O => skip
  | S k =>
      let i := HAKA_LOG_LEVEL_MAX - Z.of_nat (S k) in
      on_level i (bitfield_set section (bool_decide (i ≤ level_num level)));;
      set_section_loop k section level
  end.

Fixpoint set_default_inner (k : nat) (i : Z) (level : log_level) : LGM unit :=
  match k with
  | O => skip
  | S k =>
      let j := MAX_SECTION - Z.of_nat (S k) in
      custom ← on_custom (bitfield_get j);
      (if custom : bool then skip else on_level i (bitfield_set j (bool_decide (i ≤ level_num level))));;
      set_default_inner k i level
  end.

Fixpoint set_default_loop (k : nat) (level : log_level) : LGM unit :=
  match k with
  | O => skip
  | S k =>
      set_default_inner (Z.to_nat MAX_SECTION) (HAKA_LOG_LEVEL_MAX - Z.of_nat (S k)) level;;
      set_default_loop k level
  end.

Definition setlevel (level : log_level) (name : option string) : LGM bool :=
  match name with
  | Some name =>
      section ← search_log_section name;
      if bool_decide (section = INVALID_SECTION_ID) then log_error "invalid section name";; ret false else
      level ← (if bool_decide (level = HAKA_LOG_DEFAULT)
               then on_custom (bitfield_set section false);; ret default_level
               else on_custom (bitfield_set section true);; ret level);
      c_assert (bool_decide (level_num level < HAKA_LOG_LEVEL_MAX));;
      set_section_loop (Z.to_nat HAKA_LOG_LEVEL_MAX) section level;;
      ret true
  | None =>
      if bool_decide (level = HAKA_LOG_DEFAULT) then log_error "invalid default log level";; ret false else
      set_default_loop (Z.to_nat HAKA_LOG_LEVEL_MAX) level;;
      ret true
  end.

Definition init_loglevel : LGM unit := _ ← setlevel default_level None; skip.

(** [for (i=1; i<HAKA_LOG_LEVEL_MAX; ++i)] *)
Fixpoint getlevel_loop (k : nat) (section : Z) : LGM Z :=
  match k with
  | O => ret (HAKA_LOG_LEVEL_MAX - 1)
  | S k =>
      let i := HAKA_LOG_LEVEL_MAX - Z.of_nat (S k) in
      b ← on_level i (bitfield_get section);
      if negb b then ret (i - 1) else getlevel_loop k section
  end.

(** Without such a section the answer is [false], the value of [HAKA_LOG_FATAL]. *)
Definition getlevel (name : string) : LGM log_level :=
  section ← search_log_section name;
  if bool_decide (section = INVALID_SECTION_ID) then log_error "invalid section name";; ret HAKA_LOG_FATAL else
  n ← getlevel_loop 5 section; ret (level_of n).

(** ** Loggers *)

Section loggers.
Context (on_message : loc → log_message → bool) (frees : loc → bool).

Definition not_registered : string := "Log module is not registered".

Definition add_logger (logger : loc) : LGM bool := on_loggers (lsn_add logger).
Definition cleanup_logger (logger : loc) (head : bool) : LGM unit := on_loggers (lsn_cleanup frees logger head).
Definition remove_logger (logger : loc) : LGM bool := on_loggers (lsn_remove frees not_registered logger).
Definition remove_all_logger : LGM unit := on_loggers (lsn_remove_all frees).

(** The line for the terminal: its columns are not modelled. *)
Definition stdout_message (m : log_message) : LGM unit :=
  _ ← level_to_str (lm_level m); on_loggers (modify (ln_add_event (Printed m))).

Definition message (level : log_level) (module msg : string) : LGM unit :=
  let m := LogMessage level module msg in
  modify (set_doing true);;
  remove_pass ← on_loggers (lsn_call_all on_message m);
  out ← gets lo_stdout;
  (if out : bool then stdout_message m else skip);;
  (if remove_pass : bool then on_loggers (lsn_remove_pass frees not_registered) else skip);;
  modify (set_doing false).

(** [msg]: the formatted text, cut to the buffer of 3072 bytes by [vsnprintf]. A
    negative section is below the count and outside of the table. *)
Definition _messagef (level : log_level) (section : Z) (msg : string) : LGM unit :=
  doing ← gets lo_doing;
  if doing : bool then skip else
  l ← gets lo_sections;
  if bool_decide (section >= zlen l) then log_error "invalid section" else
  c_assert (bool_decide (0 ≤ section));;
  n ← deref (l !! Z.to_nat section);
  n ← deref n;
  message level n msg.

(** The macro [LOG]. *)
Definition LOG (level : log_level) (section : Z) (msg : string) : LGM unit :=
  b ← check_section_log_level section level;
  if b : bool then _messagef level section msg else skip.

Definition _message_fini : LGM unit := remove_all_logger;; cleanup_sections.
End loggers.

Definition enable_stdout_logging (enable : bool) : LGM unit := modify (set_stdout enable).

(** The static variables. *)
Definition log_init : log :=
  Log (Lsn (LS ∅ None None) ∅ None []) [] (BITFIELD_STATIC_INIT MAX_SECTION)
    (replicate (Z.to_nat HAKA_LOG_LEVEL_MAX) (BITFIELD_STATIC_INIT MAX_SECTION)) true false true.
