(* ===== verification/LogSpec.v ===== *)
(** * The levels of the log sections and the loggers

    The six bit sets implement a level per section; registration, search and the
    setting and reading of levels refine a machine on names and numbers. A message
    reaches every logger once, in the order of the list. *)

From S2P Require Import Prelude Types List2 List Listeners Log.

(** ** The bit sets of the levels *)

Definition level_bf (bf : bitfield) : Prop := bf_ok bf ∧ bf_size bf = MAX_SECTION.
Definition in_section (j : Z) : Prop := 0 ≤ j < MAX_SECTION.
Definition in_level (i : Z) : Prop := 0 ≤ i < HAKA_LOG_LEVEL_MAX.

(** Whether section [j] logs at level [i]. *)
Definition lbit (s : log) (i j : Z) : bool :=
  match lo_levels s !! Z.to_nat i with Some bf => bf_mem bf j | None => false end.

Record bits_ok (s : log) : Prop := {
  bo_levels : Forall level_bf (lo_levels s);
  bo_count : zlen (lo_levels s) = HAKA_LOG_LEVEL_MAX;
  bo_custom : level_bf (lo_custom s);
}.

(** [s'] is [s] with the bits [f]. *)
Record bits_set (s : log) (f : Z → Z → bool) (s' : log) : Prop := {
  bs_frame : s' = set_levels (lo_levels s') s;
  bs_ok : bits_ok s';
  bs_bits : ∀ i j, in_level i → in_section j → lbit s' i j = f i j;
}.

Section bits.
Implicit Types s : log.

Lemma level_lookup s i : bits_ok s → in_level i → ∃ bf, lo_levels s !! Z.to_nat i = Some bf ∧ level_bf bf.
Proof.
  intros [Hf Hc _] Hi. destruct (lookup_lt_is_Some_2 (lo_levels s) (Z.to_nat i)) as [bf E].
  - unfold zlen, in_level in *. lia.
  - exists bf. split; [done|]. by eapply Forall_lookup_1.
Qed.

Lemma runs_level_get s i j Q : bits_ok s → in_level i → in_section j → Q (lbit s i j) s →
  runs (on_level i (bitfield_get j)) s Q.
Proof.
  intros Hok Hi Hj HQ. destruct (level_lookup s i Hok Hi) as (bf & E & Hb & Hs). unfold on_level. step. step.
  destruct (runs_bitfield_get bf j (λ r bf', r = bf_mem bf j ∧ bf' = bf)) as (r & bf' & -> & -> & ->); [done|by rewrite Hs|done|].
  step. step. rewrite list_insert_id by done. unfold lbit in HQ. rewrite E in HQ. by destruct s.
Qed.

Lemma runs_level_set s i j v Q : bits_ok s → in_level i → in_section j →
  (∀ s', bits_set s (λ i' j', if bool_decide (i' = i ∧ j' = j) then v else lbit s i' j') s' → Q tt s') →
  runs (on_level i (bitfield_set j v)) s Q.
Proof.
  intros Hok Hi Hj HQ. destruct (level_lookup s i Hok Hi) as (bf & E & Hb & Hs). unfold on_level. step. step.
  destruct (runs_bitfield_set bf j v (λ _ bf', bf_updated j v bf bf')) as ([] & bf' & -> & [Hb' Hs' Hm]); [done|by rewrite Hs|done|].
  step. step. apply HQ. destruct Hok as [Hf Hc Hcu]. split; [done|split; simpl; [|..]|].
  - apply Forall_insert; [done|]. split; [done|]. by rewrite Hs'.
  - unfold zlen in *. by rewrite length_insert.
  - done.
  - intros i' j' Hi' Hj'. unfold lbit. simpl. destruct (decide (i' = i)) as [->|Hne].
    + rewrite list_lookup_insert_eq by (by eapply lookup_lt_Some). rewrite E, Hm by (by rewrite Hs).
      repeat case_bool_decide; naive_solver.
    + rewrite list_lookup_insert_ne by (unfold in_level in *; lia). rewrite bool_decide_false by naive_solver. done.
Qed.

Lemma bits_set_ext s f g s' : bits_set s f s' → (∀ i j, in_level i → in_section j → f i j = g i j) → bits_set s g s'.
Proof. intros [? ? H] E. split; [done..|]. intros. by rewrite H, E. Qed.

Lemma bits_set_refl s : bits_ok s → bits_set s (lbit s) s.
Proof. intros. split; [by destruct s|done|done]. Qed.

Lemma bits_set_trans s f s1 g s2 : bits_set s f s1 → bits_set s1 g s2 → bits_set s g s2.
Proof. intros [F1 _ _] [F2 ? ?]. split; [|done..]. rewrite F2, F1. done. Qed.
End bits.

(** ** The loops over levels and sections *)

(** Decides equations between flags by cases on the tests. *)
Ltac by_cases_lia := repeat case_bool_decide; destruct_and?; subst; solve [done | lia | tauto].

Section loops.
Implicit Types s : log.

Lemma runs_custom_get s j Q : bits_ok s → in_section j → Q (bf_mem (lo_custom s) j) s →
  runs (on_custom (bitfield_get j)) s Q.
Proof.
  intros [_ _ [Hb Hs]] Hj HQ. unfold on_custom. step. apply runs_bitfield_get; [done|by rewrite Hs|]. by destruct s.
Qed.

Lemma runs_custom_set s j v Q : bits_ok s → in_section j →
  (∀ bf, bf_updated j v (lo_custom s) bf → bits_ok (set_custom bf s) → Q tt (set_custom bf s)) →
  runs (on_custom (bitfield_set j v)) s Q.
Proof.
  intros [Hf Hc [Hb Hs]] Hj HQ. unfold on_custom. step. apply runs_bitfield_set; [done|by rewrite Hs|].
  intros bf Hu. apply HQ; [done|]. destruct Hu as [? Hsz ?]. split; [done|done|]. split; [done|]. simpl. by rewrite Hsz.
Qed.

Lemma runs_set_section_loop s k section level Q : bits_ok s → in_section section → (k ≤ 6)%nat →
  (∀ s', bits_set s (λ i j, if bool_decide (6 - Z.of_nat k ≤ i ∧ j = section) then bool_decide (i ≤ level_num level)
                            else lbit s i j) s' → Q tt s') →
  runs (set_section_loop k section level) s Q.
Proof.
  revert s Q. induction k as [|k IH]; intros s Q Hok Hj Hk HQ; cbn [set_section_loop].
  - apply runs_ret, HQ. eapply bits_set_ext; [by apply bits_set_refl|]. intros i j Hi _. simpl.
    rewrite bool_decide_false; [done|]. unfold in_level, HAKA_LOG_LEVEL_MAX in Hi. lia.
  - call runs_level_set; [done|unfold in_level, HAKA_LOG_LEVEL_MAX; lia|done|]. intros s1 B1.
    apply IH; [by destruct B1|done|lia|]. intros s2 B2. apply HQ.
    eapply bits_set_trans; [done|]. eapply bits_set_ext; [done|]. intros i j Hi Hj'. simpl.
    rewrite (bs_bits _ _ _ B1) by done. unfold HAKA_LOG_LEVEL_MAX.
    by_cases_lia.
Qed.

Lemma runs_set_default_inner s k i level Q : bits_ok s → in_level i → (k ≤ 256)%nat →
  (∀ s', bits_set s (λ i' j, if bool_decide (i' = i ∧ 256 - Z.of_nat k ≤ j) && negb (bf_mem (lo_custom s) j)
                             then bool_decide (i ≤ level_num level) else lbit s i' j) s' → Q tt s') →
  runs (set_default_inner k i level) s Q.
Proof.
  revert s Q. induction k as [|k IH]; intros s Q Hok Hi Hk HQ; cbn [set_default_inner].
  - apply runs_ret, HQ. eapply bits_set_ext; [by apply bits_set_refl|]. intros i' j _ Hj. simpl.
    rewrite bool_decide_false; [done|]. unfold in_section, MAX_SECTION in Hj. lia.
  - set (j0 := MAX_SECTION - _). assert (in_section j0) by (unfold in_section, j0, MAX_SECTION; lia).
    call runs_custom_get; [done..|].
    apply (runs_seq _ _ _ (λ _ s1, bits_set s (λ i' j, if bool_decide (i' = i ∧ j = j0) && negb (bf_mem (lo_custom s) j)
                             then bool_decide (i ≤ level_num level) else lbit s i' j) s1)).
    + destruct (bf_mem _ j0) eqn:Em.
      * apply runs_ret. eapply bits_set_ext; [by apply bits_set_refl|]. intros i' j _ _. simpl.
        destruct (bool_decide_reflect (i' = i ∧ j = j0)) as [[_ ->]|Hc]; [by rewrite Em|done].
      * apply runs_level_set; [done..|]. intros s1 B1. eapply bits_set_ext; [done|]. intros i' j _ _. simpl.
        destruct (bool_decide_reflect (i' = i ∧ j = j0)) as [[_ ->]|Hc]; [by rewrite Em|done].
    + intros [] s1 B1. apply IH; [by destruct B1|done|lia|]. intros s2 B2. apply HQ.
      eapply bits_set_trans; [done|]. eapply bits_set_ext; [done|]. intros i' j Hi' Hj. simpl.
      rewrite (bs_bits _ _ _ B1) by done. rewrite (bs_frame _ _ _ B1). simpl. unfold j0, MAX_SECTION.
      destruct (bf_mem _ j); simpl; rewrite ?andb_false_r, ?andb_true_r; [done|]. by_cases_lia.
Qed.

Lemma runs_set_default_loop s k level Q : bits_ok s → (k ≤ 6)%nat →
  (∀ s', bits_set s (λ i j, if bool_decide (6 - Z.of_nat k ≤ i) && negb (bf_mem (lo_custom s) j)
                            then bool_decide (i ≤ level_num level) else lbit s i j) s' → Q tt s') →
  runs (set_default_loop k level) s Q.
Proof.
  revert s Q. induction k as [|k IH]; intros s Q Hok Hk HQ; cbn [set_default_loop].
  - apply runs_ret, HQ. eapply bits_set_ext; [by apply bits_set_refl|]. intros i j Hi _. simpl.
    rewrite bool_decide_false; [done|]. unfold in_level, HAKA_LOG_LEVEL_MAX in Hi. lia.
  - call runs_set_default_inner; [done|unfold in_level, HAKA_LOG_LEVEL_MAX; lia|done|]. intros s1 B1.
    apply IH; [by destruct B1|lia|]. intros s2 B2. apply HQ.
    eapply bits_set_trans; [done|]. eapply bits_set_ext; [done|]. intros i j Hi Hj. cbv beta.
    rewrite (bs_bits _ _ _ B1) by done. rewrite (bs_frame _ _ _ B1). cbn [lo_custom set_levels].
    replace (256 - Z.of_nat (Z.to_nat MAX_SECTION)) with 0 by done.
    unfold HAKA_LOG_LEVEL_MAX. unfold in_section, MAX_SECTION in Hj.
    destruct (bf_mem _ j); simpl; rewrite ?andb_false_r, ?andb_true_r; [done|]. by_cases_lia.
Qed.

Lemma runs_getlevel_loop s k section L Q : bits_ok s → in_section section → (k ≤ 6)%nat →
  (∀ i, in_level i → lbit s i section = bool_decide (i ≤ L)) →
  Q (Z.max (5 - Z.of_nat k) (Z.min 5 L)) s →
  runs (getlevel_loop k section) s Q.
Proof.
  intros Hok Hj. induction k as [|k IH]; intros Hk HL HQ; cbn [getlevel_loop].
  - apply runs_ret. unfold HAKA_LOG_LEVEL_MAX. by replace (6 - 1) with (Z.max (5 - Z.of_nat 0) (Z.min 5 L)) by lia.
  - assert (in_level (HAKA_LOG_LEVEL_MAX - Z.of_nat (S k))) as Hi by (unfold in_level, HAKA_LOG_LEVEL_MAX; lia).
    call runs_level_get; [done..|]. rewrite HL by done. unfold HAKA_LOG_LEVEL_MAX in *. case_bool_decide; simpl.
    + apply IH; [lia|done|]. by replace (Z.max (5 - Z.of_nat k) (Z.min 5 L)) with (Z.max (5 - Z.of_nat (S k)) (Z.min 5 L)) by lia.
    + apply runs_ret. by replace (6 - Z.of_nat (S k) - 1) with (Z.max (5 - Z.of_nat (S k)) (Z.min 5 L)) by lia.
Qed.
End loops.

(** ** The machine the sections implement *)

(** Names in the order of registration, the global level, the levels that sections have of
    their own, the pending error. *)
Record amach := AM {
  am_names : list string;
  am_global : Z;
  am_own : Z → option Z;
  am_error : option string;
}.

(** The level in force in a section. *)
Definition am_level (m : amach) (j : Z) : Z := default (am_global m) (am_own m j).

Inductive log_op :=
  | Register (name : string)
  | Search (name : string)
  | Set_level (level : log_level) (name : option string)
  | Get_level (name : string)
  | Check_level (section : Z) (level : log_level).

Inductive log_answer := AInt (n : Z) | ABool (b : bool) | ALevel (l : log_level).

Definition section_of (names : list string) (name : string) : option Z :=
  (λ x, Z.of_nat x.1) <$> list_find (λ n, name = n) names.

Definition refuse (msg : string) (m : amach) : amach :=
  AM (am_names m) (am_global m) (am_own m) (Some (default msg (am_error m))).

(** [HAKA_LOG_DEFAULT] puts a section back to the global level. *)
Definition a_set_section (i : Z) (level : log_level) (m : amach) : amach :=
  AM (am_names m) (am_global m)
    (λ j, if bool_decide (j = i) then if bool_decide (level = HAKA_LOG_DEFAULT) then None else Some (level_num level)
          else am_own m j) (am_error m).

Definition a_set_all (level : log_level) (m : amach) : amach :=
  AM (am_names m) (level_num level) (am_own m) (am_error m).

Definition a_step (o : log_op) (m : amach) : log_answer * amach :=
  match o with
  | Register name =>
      match section_of (am_names m) name with
      | Some i => (AInt i, m)
      | None =>
          if bool_decide (zlen (am_names m) < MAX_SECTION)
          then (AInt (zlen (am_names m)), AM (am_names m ++ [name]) (am_global m) (am_own m) (am_error m))
          else (AInt INVALID_SECTION_ID, refuse "too many log section" m)
      end
  | Search name => (AInt (default INVALID_SECTION_ID (section_of (am_names m) name)), m)
  | Set_level level (Some name) =>
      match section_of (am_names m) name with
      | Some i => (ABool true, a_set_section i level m)
      | None => (ABool false, refuse "invalid section name" m)
      end
  | Set_level level None =>
      if bool_decide (level = HAKA_LOG_DEFAULT) then (ABool false, refuse "invalid default log level" m)
      else (ABool true, a_set_all level m)
  | Get_level name =>
      match section_of (am_names m) name with
      | Some i => (ALevel (level_of (Z.max 0 (Z.min 5 (am_level m i)))), m)
      | None => (ALevel HAKA_LOG_FATAL, refuse "invalid section name" m)
      end
  | Check_level i level => (ABool (bool_decide (level_num level ≤ am_level m i)), m)
  end.

(** Calls that respect the assertions: a level of a section is a level, a level that
    is checked too, in a section that is registered. A section is put back to the global
    level only while that is the built-in one: the code gives it the built-in level, also
    when another one is in force ([default_level_not_updated]). *)
Definition a_legal (o : log_op) (m : amach) : Prop :=
  match o with
  | Set_level level (Some _) =>
      level ≠ HAKA_LOG_LEVEL_LAST ∧ (level = HAKA_LOG_DEFAULT → am_global m = level_num default_level)
  | Check_level i level => 0 ≤ i < zlen (am_names m) ∧ level_num level < HAKA_LOG_LEVEL_MAX
  | _ => True
  end.

Definition exec_log (o : log_op) : LGM log_answer :=
  match o with
  | Register name => n ← register_log_section name; ret (AInt n)
  | Search name => n ← search_log_section name; ret (AInt n)
  | Set_level level name => b ← setlevel level name; ret (ABool b)
  | Get_level name => l ← getlevel name; ret (ALevel l)
  | Check_level i level => b ← check_section_log_level i level; ret (ABool b)
  end.

Fixpoint exec_logs (os : list log_op) : LGM (list log_answer) :=
  match os with
  | [] => ret []
  | o :: os => a ← exec_log o; l ← exec_logs os; ret (a :: l)
  end.

Fixpoint a_steps (os : list log_op) (m : amach) : list log_answer * amach :=
  match os with
  | [] => ([], m)
  | o :: os => let '(a, m) := a_step o m in let '(l, m) := a_steps os m in (a :: l, m)
  end.

Fixpoint a_legals (os : list log_op) (m : amach) : Prop :=
  match os with [] => True | o :: os => a_legal o m ∧ a_legals os (a_step o m).2 end.

(** The representation. *)
Record log_rep (s : log) (m : amach) : Prop := {
  lr_names : lo_sections s = Some <$> am_names m;
  lr_nodup : NoDup (am_names m);
  lr_count : zlen (am_names m) ≤ MAX_SECTION;
  lr_bits : bits_ok s;
  lr_level : ∀ i j, in_level i → in_section j → lbit s i j = bool_decide (i ≤ am_level m j);
  lr_custom : ∀ j, in_section j → bf_mem (lo_custom s) j = negb (is_null (am_own m j));
  lr_memory : lo_memory s = true;
  lr_error : ln_error (lo_loggers s) = am_error m;
}.

(** The operations on sections leave the loggers alone. *)
Definition same_loggers (s s' : log) : Prop :=
  ln_list (lo_loggers s') = ln_list (lo_loggers s) ∧ ln_marks (lo_loggers s') = ln_marks (lo_loggers s) ∧
  ln_events (lo_loggers s') = ln_events (lo_loggers s) ∧ lo_doing s' = lo_doing s ∧ lo_stdout s' = lo_stdout s.

Section machine.
Implicit Types s : log.
#[local] Arguments set_section_loop : simpl never.
#[local] Arguments set_default_loop : simpl never.
#[local] Arguments getlevel_loop : simpl never.

Lemma section_of_Some names name i : section_of names name = Some i → names !! Z.to_nat i = Some name ∧ 0 ≤ i < zlen names.
Proof.
  unfold section_of. destruct (list_find _ _) as [[k y]|] eqn:E; simpl; [|done]. intros [= <-].
  apply list_find_Some in E as (E & <- & _). apply lookup_lt_Some in E as Hl. simpl. rewrite Nat2Z.id. unfold zlen. split; [done|lia].
Qed.

Lemma section_of_None names name : section_of names name = None → name ∉ names.
Proof.
  unfold section_of. destruct (list_find _ _) as [[k y]|] eqn:E; simpl; [done|]. intros _ Hi.
  apply list_find_None in E. rewrite Forall_forall in E. by eapply E.
Qed.

Lemma runs_search s names name Q : lo_sections s = Some <$> names →
  Q (default INVALID_SECTION_ID (section_of names name)) s → runs (search_log_section name) s Q.
Proof.
  intros E HQ. unfold search_log_section. step. rewrite E. clear E.
  assert (∀ k, Q (default INVALID_SECTION_ID ((λ x, k + Z.of_nat x.1) <$> list_find (λ n, name = n) names)) s →
    runs (search_loop name k (Some <$> names)) s Q) as H.
  { clear HQ. induction names as [|n names IH]; intros k HQ; simpl; [by apply runs_ret|]. step.
    simpl in HQ. destruct (decide (name = n)) as [->|Hne]; simpl in HQ.
    - rewrite bool_decide_true by done. apply runs_ret. by rewrite Z.add_0_r in HQ.
    - rewrite bool_decide_false by done. apply IH. destruct (list_find _ names) as [[i y]|]; simpl in *; [|done].
      replace (k + 1 + Z.of_nat i) with (k + Z.of_nat (S i)) by lia. done. }
  apply H. unfold section_of in HQ. by destruct (list_find _ names).
Qed.

Lemma same_loggers_refl s : same_loggers s s.
Proof. by repeat split. Qed.

Lemma log_rep_refuse s m msg : log_rep s m →
  log_rep (set_loggers (ln_set_error (Some (default msg (ln_error (lo_loggers s)))) (lo_loggers s)) s) (refuse msg m).
Proof. intros [? ? ? [? ? ?] ? ? ? E]. split; simpl; try done. by rewrite E. Qed.

Lemma runs_log_error s msg Q :
  Q tt (set_loggers (ln_set_error (Some (default msg (ln_error (lo_loggers s)))) (lo_loggers s)) s) → runs (log_error msg) s Q.
Proof. intros HQ. unfold log_error, on_loggers, lsn_error. step. by step. Qed.

Lemma section_in names name i : zlen names ≤ MAX_SECTION → section_of names name = Some i → in_section i.
Proof. intros Hc [_ Hi]%section_of_Some. unfold in_section. lia. Qed.

Lemma section_valid i : 0 ≤ i → bool_decide (i = INVALID_SECTION_ID) = false.
Proof. intros. apply bool_decide_false. unfold INVALID_SECTION_ID. lia. Qed.

(** The answer to an operation, and the machine and the loggers after it. *)
Definition simulates (m : amach) (o : log_op) (s : log) (a : log_answer) (s' : log) : Prop :=
  a = (a_step o m).1 ∧ log_rep s' (a_step o m).2 ∧ same_loggers s s'.

Lemma register_simulates s m name : log_rep s m → runs (exec_log (Register name)) s (simulates m (Register name) s).
Proof.
  intros R. pose proof R as [En Hnd Hc Hb Hl Hcu Hm He]. simpl. unfold register_log_section, simulates. simpl.
  apply runs_bind, runs_bind. eapply runs_search; [done|].
  destruct (section_of (am_names m) name) as [i|] eqn:Ei; simpl.
  { pose proof (section_of_Some _ _ _ Ei) as [_ ?]. rewrite section_valid by lia. simpl. apply runs_ret, runs_ret.
    split_and!; [done..|apply same_loggers_refl]. }
  step. rewrite En. unfold zlen. rewrite length_fmap. fold (zlen (am_names m)).
  destruct (bool_decide_reflect (zlen (am_names m) < MAX_SECTION)) as [Hlt|Hge].
  - rewrite bool_decide_false by lia. step. step. step. step. rewrite Hm. split_and!; [done| |by repeat split].
    split; simpl; try done; [by rewrite En, fmap_app|..].
    + apply NoDup_app. split_and!; [done| |apply NoDup_singleton]. apply section_of_None in Ei. set_solver.
    + rewrite zlen_app. simpl. unfold zlen in *. simpl. lia.
    + by destruct Hb.
  - rewrite bool_decide_true by lia. apply runs_bind, runs_log_error. step. step.
    split_and!; [done|by apply log_rep_refuse|by repeat split].
Qed.

Lemma set_section_simulates s m level name : log_rep s m → a_legal (Set_level level (Some name)) m →
  runs (exec_log (Set_level level (Some name))) s (simulates m (Set_level level (Some name)) s).
Proof.
  intros R [Hlast Hdef]. pose proof R as [En Hnd Hc Hb Hl Hcu Hm He]. simpl. unfold setlevel, simulates. simpl.
  apply runs_bind, runs_bind. eapply runs_search; [done|].
  destruct (section_of (am_names m) name) as [i|] eqn:Ei; simpl.
  2: { apply runs_bind, runs_log_error. step. step. split_and!; [done|by apply log_rep_refuse|by repeat split]. }
  pose proof (section_of_Some _ _ _ Ei) as [_ ?]. pose proof (section_in _ _ _ Hc Ei) as Hi. rewrite section_valid by lia.
  set (back := bool_decide (level = HAKA_LOG_DEFAULT)).
  set (l := if back then default_level else level).
  apply (runs_seq _ _ _ (λ a s1, a = l ∧ ∃ bf, bf_updated i (negb back) (lo_custom s) bf ∧ bits_ok (set_custom bf s) ∧ s1 = set_custom bf s)).
  { unfold l. destruct back; (call runs_custom_set; [done..|]); intros bf Hu Hok; step; eauto. }
  intros ? ? (-> & bf & Hu & Hok & ->).
  step; [apply bool_decide_true; unfold l, back; destruct level; by vm_compute|].
  call runs_set_section_loop; [done..|]. intros s' [Fs Hok' Hbits]. step. step. split; [done|]. split.
  - split; simpl; try done; try by rewrite Fs.
    + intros i' j Hi' Hj. rewrite Hbits by done. change (6 - Z.of_nat _) with 0. unfold in_level in Hi'.
      unfold am_level. simpl. destruct (decide (j = i)) as [->|Hne].
      * rewrite (bool_decide_true (_ ∧ _)), (bool_decide_true (i = i)) by lia. unfold l, back.
        destruct (bool_decide_reflect (level = HAKA_LOG_DEFAULT)) as [E|E]; simpl; [by rewrite Hdef|done].
      * rewrite !(bool_decide_false (_ = i)), bool_decide_false by naive_solver. by apply Hl.
    + intros j Hj. rewrite Fs. simpl. destruct Hu as [_ _ Hmem]. destruct Hb as [_ _ [_ Hsz]]. rewrite Hmem by (by rewrite Hsz).
      case_bool_decide; [unfold back; by case_bool_decide|]. by apply Hcu.
  - rewrite Fs. by repeat split.
Qed.

Lemma set_all_simulates s m level : log_rep s m →
  runs (setlevel level None) s (λ b, simulates m (Set_level level None) s (ABool b)).
Proof.
  intros R. pose proof R as [En Hnd Hc Hb Hl Hcu Hm He]. simpl. unfold simulates. simpl.
  case_bool_decide.
  { apply runs_bind, runs_log_error. step. split_and!; [done|by apply log_rep_refuse|by repeat split]. }
  call runs_set_default_loop; [done..|]. intros s' [Fs Hok' Hbits]. step. split; [done|]. split.
  - split; simpl; try done; try by rewrite Fs.
    intros i j Hi Hj. rewrite Hbits by done. change (6 - Z.of_nat _) with 0. unfold in_level in Hi.
    rewrite (bool_decide_true (0 ≤ i)) by lia. rewrite Hcu by done. simpl.
    specialize (Hl i j Hi Hj). unfold am_level in *. simpl. by destruct (am_own m j).
  - rewrite Fs. by repeat split.
Qed.

Lemma get_simulates s m name : log_rep s m → runs (exec_log (Get_level name)) s (simulates m (Get_level name) s).
Proof.
  intros R. pose proof R as [En Hnd Hc Hb Hl Hcu Hm He]. simpl. unfold getlevel, simulates. simpl.
  apply runs_bind, runs_bind. eapply runs_search; [done|].
  destruct (section_of (am_names m) name) as [i|] eqn:Ei; simpl.
  2: { apply runs_bind, runs_log_error. step. step. split_and!; [done|by apply log_rep_refuse|by repeat split]. }
  pose proof (section_of_Some _ _ _ Ei) as [_ ?]. pose proof (section_in _ _ _ Hc Ei) as Hi. rewrite section_valid by lia.
  call (runs_getlevel_loop _ _ _ (am_level m i)); [done|done|lia|intros; by apply Hl|]. step. step.
  split_and!; [done..|apply same_loggers_refl].
Qed.

Lemma check_simulates s m i level : log_rep s m → a_legal (Check_level i level) m →
  runs (exec_log (Check_level i level)) s (simulates m (Check_level i level) s).
Proof.
  intros R [Hi Hlv]. pose proof R as [En Hnd Hc Hb Hl Hcu Hm He]. simpl. unfold check_section_log_level, simulates. simpl.
  assert (in_level (level_num level)) by (unfold in_level; destruct level; simpl in *; lia).
  assert (in_section i) by (unfold in_section; lia).
  step. rewrite En. unfold zlen. rewrite length_fmap. fold (zlen (am_names m)).
  step; [by apply bool_decide_true; lia|]. step; [by apply bool_decide_true|].
  apply runs_level_get; [done..|]. step. rewrite Hl by done. split_and!; [done..|apply same_loggers_refl].
Qed.

Lemma log_step_simulates s m o : log_rep s m → a_legal o m → runs (exec_log o) s (simulates m o s).
Proof.
  intros R Hl. destruct o as [name|name|level [name|]|name|i level].
  - by apply register_simulates.
  - simpl. unfold simulates. simpl. apply runs_bind. eapply runs_search; [apply R|]. step.
    split_and!; [done..|apply same_loggers_refl].
  - by apply set_section_simulates.
  - cbn [exec_log]. post set_all_simulates; [done|]. intros b s' Hb. by apply runs_ret.
  - by apply get_simulates.
  - by apply check_simulates.
Qed.

(** The state after the start of the program: its sections are registered and have
    the built-in level. *)
Definition am_start : amach :=
  AM (fst <$> static_log_section) (level_num default_level) (λ _, None) None.

Lemma log_init_bits : bits_ok log_init.
Proof.
  split; [|done|split; [by apply bf_init_ok|done]]. apply Forall_replicate. split; [by apply bf_init_ok|done].
Qed.

Lemma log_init_rep : log_rep (set_sections ((λ x, Some x.1) <$> static_log_section) log_init)
  (AM (fst <$> static_log_section) (-1) (λ _, None) None).
Proof.
  pose proof log_init_bits as [? ? ?]. split; [done|apply (bool_decide_unpack _); by vm_compute|done|done| |intros; apply bf_init_mem|done|done].
  intros i j Hi Hj. unfold lbit. cbn [lo_levels set_sections log_init]. destruct (_ !! _) as [bf|] eqn:E.
  - apply lookup_replicate in E as [-> _]. rewrite bf_init_mem, bool_decide_false; [done|]. unfold am_level, in_level in *. simpl. lia.
  - rewrite bool_decide_false; [done|]. unfold am_level, in_level in *. simpl. lia.
Qed.

Lemma runs_log_start Q : (∀ s, log_rep s am_start → same_loggers log_init s → Q tt s) →
  runs (_message_init;; init_loglevel) log_init Q.
Proof.
  intros HQ. apply runs_bind. eapply runs_eq; [reflexivity|].
  unfold init_loglevel. post set_all_simulates; [apply log_init_rep|]. intros b s (_ & R & K). apply runs_ret. by apply HQ.
Qed.
End machine.

(** C31 Log sections: after the start of the program, for every sequence of registrations,
    searches, settings, readings and checks of levels, with memory for the names, the answers
    are those of a machine that keeps a list of names, a global level and the levels that
    sections have of their own: numbers are given in the order of registration and stay
    valid, a check answers whether the level is at most the one in force, the global level
    is in force wherever none of its own was set, and refused calls change nothing but the
    pending error. The loggers are not touched. One call is covered in part only: a section
    is put back to the global level ([HAKA_LOG_DEFAULT]) only while the global level is the
    built-in one, since the code gives the built-in level in every case. *)
Theorem log_sections_refine os :
  a_legals os am_start →
  runs (_message_init;; init_loglevel;; exec_logs os) log_init
    (λ l s', l = (a_steps os am_start).1 ∧ log_rep s' (a_steps os am_start).2 ∧ same_loggers log_init s').
Proof.
  intros Hl. apply (runs_assoc _message_init (λ _, init_loglevel) (λ _, exec_logs os)), runs_bind, runs_log_start. intros s R K.
  revert K. generalize log_init. revert s R Hl. generalize am_start. induction os as [|o os IH]; intros m s R Hl s0 K; simpl.
  { by apply runs_ret. }
  destruct Hl as [H1 Hl]. post log_step_simulates; [done..|]. intros a s1 (-> & R1 & K1).
  destruct (a_step o m) as [a m1]. simpl in *.
  assert (same_loggers s0 s1) as K01. { unfold same_loggers in *. naive_solver congruence. }
  post (IH m1 s1 R1 Hl s0 K01). intros l s2 (-> & R2 & K2). step. destruct (a_steps os m1). simpl in *. done.
Qed.

(** A section gets a level of its own, the others another one. *)
Lemma log_sections_refine_witness :
  runs (_message_init;; init_loglevel;;
        exec_logs [Register "tcp"; Set_level HAKA_LOG_DEFAULT (Some "tcp"%string); Set_level HAKA_LOG_DEBUG (Some "tcp"%string); Set_level HAKA_LOG_ERROR None;
                   Check_level 7 HAKA_LOG_DEBUG; Check_level 0 HAKA_LOG_INFO; Get_level "tcp"; Register "tcp"; Search "udp"]) log_init
    (λ l _, l = [AInt 7; ABool true; ABool true; ABool true; ABool true; ABool false; ALevel HAKA_LOG_DEBUG; AInt 7; AInt (-1)]).
Proof. eapply runs_mono; [apply log_sections_refine; repeat split; done|]. by intros l s (-> & _ & _). Defined.

(** ** Messages *)

Section messages.
Context (on_message : loc → log_message → bool).
Implicit Types s : log.

(** The section, the level and the context of a message that is sent. *)
Record can_log s (section : Z) (name : string) (level : log_level) : Prop := {
  cl_doing : lo_doing s = false;
  cl_section : 0 ≤ section;
  cl_name : lo_sections s !! Z.to_nat section = Some (Some name);
  cl_level : level ≠ HAKA_LOG_LEVEL_LAST;
}.

Definition outputs s (m : log_message) : list (lsn_event log_message) := if lo_stdout s then [Printed m] else [].

Context (frees : loc → bool).

(** The state behind the calls and the output, in front of the removal. *)
Lemma message_calls s ls section name level text :
  let m := LogMessage level name text in
  lsn_rep (lo_loggers s) ls → can_log s section name level →
  ∃ s1, lsn_rep (lo_loggers s1) ls ∧ (∀ l, l ∈ ls → marked (lo_loggers s1) l = fails on_message (lo_loggers s) m l) ∧
    ln_events (lo_loggers s1) = ln_events (lo_loggers s) ++ ((λ l, Called l m) <$> ls) ++ outputs s m ∧
    ln_error (lo_loggers s1) = ln_error (lo_loggers s) ∧
    s1 = set_doing true (set_loggers (lo_loggers s1) s) ∧
    _messagef on_message frees level section text s =
      ((if existsb (fails on_message (lo_loggers s) m) ls then on_loggers (lsn_remove_pass frees not_registered) else skip);; modify (set_doing false)) s1.
Proof.
  intros m R [Hd Hs Hn Hl]. pose proof R as [Hll Hm].
  destruct (called_all_spec on_message m ls (lo_loggers s)) as (L & Er & V & _ & I); [by destruct Hll|done|].
  set (t := called_all on_message m ls (lo_loggers s)) in *.
  set (t' := if lo_stdout s then ln_add_event (Printed m) t else t).
  assert (ln_list t' = ln_list t ∧ ln_marks t' = ln_marks t ∧ ln_error t' = ln_error t ∧ ln_events t' = ln_events t ++ outputs s m) as (Tl & Tm & Te & Tv).
  { unfold t', outputs. destruct (lo_stdout s); simpl; by rewrite ?app_nil_r. }
  exists (set_doing true (set_loggers t' s)). simpl. split_and!.
  - split; [by rewrite Tl, L|]. rewrite Tm. intros l Hi. by apply I.
  - intros l Hi. unfold marked. rewrite Tm. by apply I.
  - by rewrite Tv, V, <- app_assoc.
  - by rewrite Te, Er.
  - done.
  - unfold _messagef, gets. unfold bind at 1. rewrite Hd. unfold bind at 1.
    assert (section < zlen (lo_sections s)) by (apply lookup_lt_Some in Hn; unfold zlen; lia).
    rewrite bool_decide_false by lia. rewrite (bool_decide_true (0 ≤ section)) by done. unfold c_assert, ret. unfold bind at 1 2. rewrite Hn.
    destruct (runs_lsn_call_all on_message (lo_loggers s) ls m (λ r t1, r = existsb (fails on_message (lo_loggers s) m) ls ∧ t1 = t)) as (r & t1 & Ec & -> & ->); [done|done|].
    unfold message, bind at 1, modify, on_loggers at 1, zoom, bind at 1. cbn [deref ret lo_loggers set_doing]. fold m. unfold bind at 1. cbn [lo_loggers set_doing]. rewrite Ec.
    unfold bind at 1, gets. cbn [lo_stdout set_loggers set_doing]. unfold t'. destruct (lo_stdout s); [|done].
    unfold stdout_message, level_to_str. destruct level; try done; by destruct (existsb _ _).
Qed.

(** Messages: a message is delivered to every logger once, in the order of the
    list, and printed when the output is enabled; then the first logger that failed
    to take it is removed and destroyed, provided its structure stays in memory. The
    other loggers, the sections and their levels are as before. *)
Theorem log_message_correct s ls l1 gone l2 section name level text :
  let m := LogMessage level name text in
  lsn_rep (lo_loggers s) ls → can_log s section name level →
  taken_out on_message (lo_loggers s) m ls l1 gone l2 → Forall (λ x, frees x = false) gone →
  runs (_messagef on_message frees level section text) s (λ _ s',
    lsn_rep (lo_loggers s') (l1 ++ l2) ∧
    ln_events (lo_loggers s') = ln_events (lo_loggers s) ++ ((λ l, Called l m) <$> ls) ++ outputs s m ++ (Destroyed <$> gone) ∧
    ln_error (lo_loggers s') = ln_error (lo_loggers s) ∧ s' = set_loggers (lo_loggers s') s).
Proof.
  intros m R Hc Ht Hfr. destruct (message_calls s ls section name level text R Hc) as (s1 & R1 & Hm & Ev & Er & Es & Eq).
  fold m in Hm, Ev, Eq. unfold runs. rewrite Eq. apply cl_doing in Hc as Hd.
  rewrite (taken_fails _ _ _ _ _ _ _ Ht). destruct Ht as (-> & Hf & Hg).
  assert (∀ t, set_doing false (set_loggers t s1) = set_loggers t s) as Ed.
  { intros t. rewrite Es. destruct s. simpl in *. by subst. }
  destruct gone as [|x [|]]; [subst l2|..|done]; simpl.
  - unfold skip, ret, bind, modify. exists tt, (set_loggers (lo_loggers s1) s). rewrite !app_nil_r in *.
    split_and!; [|done..]. by rewrite <- Ed, Es.
  - apply Forall_cons in Hfr as [Hfr _].
    apply runs_bind. unfold on_loggers. step. eapply (runs_remove_pass_first frees (lo_loggers s1) l1 x l2); [done| |by rewrite Hm by set_solver|done|].
    { apply Forall_forall. intros y Hy. rewrite Hm by set_solver. by eapply Forall_forall in Hf. }
    intros t Rt [Ev' Er' _ _ _]. step. rewrite Ed. simpl. split_and!; [done| |by rewrite Er', Er|done].
    by rewrite Ev', Ev, <- !app_assoc.
Qed.
End messages.

(** The second of three loggers fails and is removed. *)
Lemma log_message_correct_witness :
  let h := list_to_map [(1%positive, Elem None (Some 2%positive)); (2%positive, Elem (Some 1%positive) (Some 3%positive));
                        (3%positive, Elem (Some 2%positive) None)] in
  let s := set_sections [Some "core"%string] (set_loggers (Lsn (LS h (Some 1%positive) None)
             (list_to_map [(1%positive, false); (2%positive, false); (3%positive, false)]) None []) log_init) in
  runs (_messagef (λ l _, bool_decide (l = 2%positive)) (λ _, false) HAKA_LOG_INFO 0 "started") s
    (λ _ s', lsn_rep (lo_loggers s') [1; 3]%positive).
Proof.
  intros h s. eapply runs_mono; [apply (log_message_correct _ _ s [1; 2; 3]%positive [1%positive] [2%positive] [3%positive] 0 "core")|].
  - split; [split; [apply (bool_decide_unpack _); by vm_compute|by repeat split|done|done]|].
    intros l Hl. repeat (apply elem_of_cons in Hl as [->|Hl]; [by eexists|]). set_solver.
  - by split.
  - split_and!; [done| |by vm_compute]. by repeat constructor.
  - by repeat constructor.
  - by intros [] s' (H & _).
Defined.

(** A message that is sent while another one is delivered is dropped. *)
Theorem nested_message_dropped on_message frees s level section text :
  lo_doing s = true → runs (_messagef on_message frees level section text) s (λ _ s', s' = s).
Proof. intros Hd. unfold _messagef. step. rewrite Hd. by apply runs_ret. Qed.

(** ** Outside the intended domain *)

(** A section that is put back to the default gets the built-in level, not the
    level that was set for all sections. *)
Theorem default_level_not_updated :
  runs (_message_init;; init_loglevel;;
        exec_logs [Set_level HAKA_LOG_ERROR None; Get_level "time"; Set_level HAKA_LOG_DEFAULT (Some "time"%string); Get_level "time"]) log_init
    (λ l _, l = [ABool true; ALevel HAKA_LOG_ERROR; ABool true; ALevel HAKA_LOG_INFO]).
Proof. eapply runs_eq; [vm_compute; reflexivity|done]. Qed.

(** A logger whose [destroy] frees it (those of the control channel) is read again
    by the loop that removed it. *)
Theorem removed_logger_read_again on_message frees s ls l1 x l2 section name level text :
  lsn_rep (lo_loggers s) ls → can_log s section name level →
  taken_out on_message (lo_loggers s) (LogMessage level name text) ls l1 [x] l2 → frees x = true →
  _messagef on_message frees level section text s = None.
Proof.
  intros R Hc Ht Hfr. destruct (message_calls on_message frees s ls section name level text R Hc) as (s1 & R1 & Hm & _ & _ & _ & ->).
  rewrite (taken_fails _ _ _ _ _ _ _ Ht). destruct Ht as (-> & Hf & Hg). simpl.
  unfold on_loggers, zoom, bind. erewrite remove_pass_freed; [done|done| |by rewrite Hm by set_solver|done].
  apply Forall_forall. intros y Hy. rewrite Hm by set_solver. by eapply Forall_forall in Hf.
Qed.
