(* ===== verification/Alert.v ===== *)
(** * Alerts (lib/haka/alert.c, include/haka/alert.h)

    An alert gets a number and goes to the alerters, which are [Listeners];
    [alert_tostring] writes it into a buffer of the thread, piece by piece, with
    [vsnprintf]. The formats of libc that read a clock or a double ([ctime_r], [%g])
    are arguments. *)

From stdpp Require Import pretty.
From S2P Require Import Prelude List2 List Listeners Time.

(** ** Data *)

Inductive alert_level :=
  | HAKA_ALERT_LEVEL_NONE | HAKA_ALERT_LOW | HAKA_ALERT_MEDIUM | HAKA_ALERT_HIGH | HAKA_ALERT_NUMERIC.
Inductive alert_completion := HAKA_ALERT_COMPLETION_NONE | HAKA_ALERT_FAILED | HAKA_ALERT_SUCCESSFUL.
Inductive alert_node_type := HAKA_ALERT_NODE_ADDRESS | HAKA_ALERT_NODE_SERVICE.

#[export] Instance alert_level_eq_dec : EqDecision alert_level.
Proof. solve_decision. Defined.
#[export] Instance alert_completion_eq_dec : EqDecision alert_completion.
Proof. solve_decision. Defined.

(** The [LAST] values, which no field takes, are left out. Arrays end with a null pointer; a string or an array may be NULL. *)
Record alert_node := AlertNode { an_type : alert_node_type; an_list : option (list string) }.

Record alert (D : Type) := Alert {
  start_time : time;
  end_time : time;
  description : option string;
  severity : alert_level;
  confidence : alert_level;
  confidence_num : D;
  completion : alert_completion;
  method_description : option string;
  method_ref : option (list string);
  sources : option (list alert_node);
  targets : option (list alert_node);
  alert_ref : option (list Z);
}.
Arguments start_time {D}.
Arguments end_time {D}.
Arguments description {D}.
Arguments severity {D}.
Arguments confidence {D}.
Arguments confidence_num {D}.
Arguments completion {D}.
Arguments method_description {D}.
Arguments method_ref {D}.
Arguments sources {D}.
Arguments targets {D}.
Arguments alert_ref {D}.

(** The strings of the tables. *)
Definition alert_level_to_str (level : alert_level) : string :=
  match level with
  | HAKA_ALERT_LEVEL_NONE => "" | HAKA_ALERT_LOW => "low" | HAKA_ALERT_MEDIUM => "medium"
  | HAKA_ALERT_HIGH => "high" | HAKA_ALERT_NUMERIC => ""
  end.
Definition alert_completion_to_str (c : alert_completion) : string :=
  match c with HAKA_ALERT_COMPLETION_NONE => "" | HAKA_ALERT_FAILED => "failed" | HAKA_ALERT_SUCCESSFUL => "successful" end.
Definition alert_node_to_str (t : alert_node_type) : string :=
  match t with HAKA_ALERT_NODE_ADDRESS => "address" | HAKA_ALERT_NODE_SERVICE => "service" end.

(** ** The buffer *)

Definition BUFFER_SIZE : Z := 3072.

(** The buffer of the thread, the offset [*buffer] points to, and [*len]. *)
Record abuf := ABuf { ab_bytes : list Ascii.ascii; ab_pos : Z; ab_len : Z }.

Definition NUL : Ascii.ascii := Ascii.zero.
Definition TAB : Ascii.ascii := Ascii.ascii_of_nat 9.
Definition ESC : Ascii.ascii := Ascii.ascii_of_nat 27.
Definition chars (s : string) : list Ascii.ascii := String.list_ascii_of_string s.

(** A store outside of the buffer has no result. *)
Definition buf_write (w : list Ascii.ascii) : M abuf unit :=
  b ← gets id;
  c_assert (bool_decide (0 ≤ ab_pos b ∧ ab_pos b + zlen w ≤ zlen (ab_bytes b)));;
  modify (λ b, ABuf (zput (ab_pos b) w (ab_bytes b)) (ab_pos b) (ab_len b)).

(** [vsnprintf] writes at most [len] characters with the final NUL, nothing when
    [len] is 0, and returns the length of the whole text. *)
Definition vsnprintf (text : string) : M abuf Z :=
  len ← gets ab_len;
  (if bool_decide (len = 0) then skip
   else buf_write (ztake (Z.min (zlen (chars text)) (len - 1)) (chars text) ++ [NUL]));;
  ret (zlen (chars text)).

Definition alert_string_append (text : string) : M abuf unit :=
  count ← vsnprintf text;
  modify (λ b, ABuf (ab_bytes b) (ab_pos b + count) (u64 (ab_len b - count))).

(** ** Text of an alert *)

Fixpoint stringlist_loop (first : bool) (l : list string) : M abuf unit :=
  match l with
  | [] => skip
  | x :: l =>
      (if first then skip else alert_string_append ",");;
      alert_string_append (" " +:+ x);;
      stringlist_loop false l
  end.

Definition alert_stringlist_append (array : option (list string)) : M abuf unit :=
  match array with Some l => stringlist_loop true l | None => skip end.

Definition alert_array_append (array : option (list string)) : M abuf unit :=
  alert_string_append "{";;
  alert_stringlist_append array;;
  alert_string_append " }".

Fixpoint nodes_loop (indent color clear : string) (l : list alert_node) : M abuf unit :=
  match l with
  | [] => skip
  | n :: l =>
      alert_string_append (indent +:+ String TAB color +:+ alert_node_to_str (an_type n) +:+ clear +:+ ":");;
      alert_stringlist_append (an_list n);;
      nodes_loop indent color clear l
  end.

Definition alert_nodes_append (array : list alert_node) (indent color clear : string) : M abuf unit :=
  alert_string_append "{";;
  nodes_loop indent color clear array;;
  alert_string_append (indent +:+ "}").

Fixpoint refs_loop (first : bool) (l : list Z) : M abuf unit :=
  match l with
  | [] => skip
  | x :: l =>
      (if first then skip else alert_string_append ",");;
      alert_string_append (" " +:+ pretty x);;
      refs_loop false l
  end.

Definition BOLD : string := String ESC "[1m".
Definition CLEAR : string := String ESC "[0m".

Section tostring.
Context {D : Type} (fmt_g : D → string) (ctime_r : Z → option string).

(** [ctime_r] ends its text with a newline, which is removed. When it fails the
    buffer is not written; its callers here do not test the result. *)
Definition time_tostring (t : time) : M abuf string :=
  s ← deref (ctime_r (secs t));
  c_assert (bool_decide (0 < Z.of_nat (String.length s)));;
  ret (String.substring 0 (String.length s - 1) s).

Definition alert_tostring (id : Z) (t : time) (a : alert D) (header indent : string) (colored : bool) : M abuf unit :=
  let color := if colored then BOLD else "" in
  let clear := if colored then CLEAR else "" in
  (* "%s%sNAME%s = VALUE" *)
  let entry name value := indent +:+ color +:+ name +:+ clear +:+ " = " +:+ value in
  modify (λ b, ABuf (ab_bytes b) 0 BUFFER_SIZE);;
  alert_string_append (header +:+ color +:+ "id" +:+ clear +:+ " = " +:+ pretty id);;
  timestr ← time_tostring t;
  alert_string_append (entry "time" timestr);;
  (if time_isvalid (start_time a) then
     timestr ← time_tostring (start_time a); alert_string_append (entry "start time" timestr)
   else skip);;
  (if time_isvalid (end_time a) then
     timestr ← time_tostring (end_time a); alert_string_append (entry "end time" timestr)
   else skip);;
  (if negb (bool_decide (severity a = HAKA_ALERT_LEVEL_NONE)) && negb (bool_decide (severity a = HAKA_ALERT_NUMERIC))
   then alert_string_append (entry "severity" (alert_level_to_str (severity a))) else skip);;
  (if negb (bool_decide (confidence a = HAKA_ALERT_LEVEL_NONE)) then
     if bool_decide (confidence a = HAKA_ALERT_NUMERIC)
     then alert_string_append (entry "confidence" (fmt_g (confidence_num a)))
     else alert_string_append (entry "confidence" (alert_level_to_str (confidence a)))
   else skip);;
  (if negb (bool_decide (completion a = HAKA_ALERT_COMPLETION_NONE))
   then alert_string_append (entry "completion" (alert_completion_to_str (completion a))) else skip);;
  match description a with Some d => alert_string_append (entry "description" d) | None => skip end;;
  match method_description a, method_ref a with
  | None, None => skip
  | md, mr =>
      alert_string_append (entry "method" "{");;
      match md with
      | Some d => alert_string_append (indent +:+ color +:+ String TAB "description" +:+ clear +:+ " = " +:+ d)
      | None => skip
      end;;
      match mr with
      | Some r =>
          alert_string_append (indent +:+ color +:+ String TAB "ref" +:+ clear +:+ " = ");;
          alert_array_append (Some r)
      | None => skip
      end;;
      alert_string_append (indent +:+ "}")
  end;;
  match sources a with
  | Some l => alert_string_append (entry "sources" "");; alert_nodes_append l indent color clear
  | None => skip
  end;;
  match targets a with
  | Some l => alert_string_append (entry "targets" "");; alert_nodes_append l indent color clear
  | None => skip
  end;;
  match alert_ref a with
  | Some ((_ :: _) as l) =>
      alert_string_append (entry "refs" "{");;
      refs_loop true l;;
      alert_string_append " }"
  | _ => skip
  end.
End tostring.

(** ** Alerters *)

(** A call of the callback [alert] or [update] of an alerter. *)
Inductive alert_call (D : Type) :=
  | Raised (id : Z) (t : time) (a : alert D)
  | Updated (id : Z) (t : time) (a : alert D).
Arguments Raised {D} id t a.
Arguments Updated {D} id t a.

(** [al_id]: the last number given. *)
Record alerts (D : Type) := Alerts { al_alerters : lsn (alert_call D); al_id : Z }.
Arguments Alerts {D}.
Arguments al_alerters {D}.
Arguments al_id {D}.

Section alerters.
Context {D : Type} (on_alert : loc → alert_call D → bool) (frees : loc → bool).

Definition set_alerters (x : lsn (alert_call D)) (s : alerts D) : alerts D := Alerts x (al_id s).
Definition on_alerters {A} (m : M (lsn (alert_call D)) A) : M (alerts D) A := zoom al_alerters set_alerters m.

Definition alert_not_registered : string := "Alert module is not registered".

Definition _alert_init : M (alerts D) unit := modify (λ s, Alerts (al_alerters s) 0).
Definition add_alerter (l : loc) : M (alerts D) bool := on_alerters (lsn_add l).
Definition cleanup_alerter (l : loc) (head : bool) : M (alerts D) unit := on_alerters (lsn_cleanup frees l head).
Definition remove_alerter (l : loc) : M (alerts D) bool := on_alerters (lsn_remove frees alert_not_registered l).
Definition remove_all_alerter : M (alerts D) unit := on_alerters (lsn_remove_all frees).
Definition alert_remove_pass : M (alerts D) unit := on_alerters (lsn_remove_pass frees alert_not_registered).

(** [now]: the answer of [time_gettimestamp]. *)
Definition call_alerters (c : alert_call D) : M (alerts D) unit :=
  remove_pass ← on_alerters (lsn_call_all on_alert c);
  if remove_pass : bool then alert_remove_pass else skip.

(** [alert()] *)
Definition alert_raise (now : time) (a : alert D) : M (alerts D) Z :=
  modify (λ s, Alerts (al_alerters s) (u64 (al_id s + 1)));;
  id ← gets al_id;
  call_alerters (Raised id now a);;
  ret id.

(** The number is returned as a [bool]. *)
Definition alert_update (now : time) (id : Z) (a : alert D) : M (alerts D) bool :=
  call_alerters (Updated id now a);;
  ret (negb (bool_decide (id = 0))).

Definition _alert_fini : M (alerts D) unit := remove_all_alerter.
End alerters.
