(* ===== verification/AlertSpec.v ===== *)
(** * The text of an alert and the delivery of alerts

    [alert_text] is the text [alert_tostring] writes, as a function; as long as it
    fits into the buffer, the pieces end up there one behind the other. *)

From stdpp Require Import pretty.
From S2P Require Import Prelude List2 List Listeners Time Alert.

(** ** The text *)

Definition opt_text {A} (f : A → string) (o : option A) : string := match o with Some a => f a | None => "" end.

(** Elements behind a space, with commas between them. *)
Fixpoint list_text (l : list string) : string :=
  match l with
  | [] => ""
  | [x] => " " +:+ x
  | x :: l => " " +:+ x +:+ "," +:+ list_text l
  end.

Section text.
Context {D : Type} (fmt_g : D → string) (ctime_r : Z → option string).

Definition time_text (t : time) : string :=
  opt_text (λ s, String.substring 0 (String.length s - 1) s) (ctime_r (secs t)).

Definition time_known (t : time) : Prop := ∃ s, ctime_r (secs t) = Some s ∧ s ≠ ""%string.

Definition node_text (indent color clear : string) (n : alert_node) : string :=
  indent +:+ String TAB color +:+ alert_node_to_str (an_type n) +:+ clear +:+ ":" +:+ opt_text list_text (an_list n).

Fixpoint nodes_text (indent color clear : string) (l : list alert_node) : string :=
  match l with [] => "" | n :: l => node_text indent color clear n +:+ nodes_text indent color clear l end.

Definition alert_text (id : Z) (t : time) (a : alert D) (header indent : string) (colored : bool) : string :=
  let color := if colored then BOLD else "" in
  let clear := if colored then CLEAR else "" in
  let entry name value := indent +:+ color +:+ name +:+ clear +:+ " = " +:+ value in
  let nodes l := "{" +:+ nodes_text indent color clear l +:+ indent +:+ "}" in
  (header +:+ color +:+ "id" +:+ clear +:+ " = " +:+ pretty id) +:+
  entry "time" (time_text t) +:+
  (if time_isvalid (start_time a) then entry "start time" (time_text (start_time a)) else "") +:+
  (if time_isvalid (end_time a) then entry "end time" (time_text (end_time a)) else "") +:+
  match severity a with
  | HAKA_ALERT_LEVEL_NONE | HAKA_ALERT_NUMERIC => ""
  | l => entry "severity" (alert_level_to_str l)
  end +:+
  match confidence a with
  | HAKA_ALERT_LEVEL_NONE => ""
  | HAKA_ALERT_NUMERIC => entry "confidence" (fmt_g (confidence_num a))
  | l => entry "confidence" (alert_level_to_str l)
  end +:+
  match completion a with
  | HAKA_ALERT_COMPLETION_NONE => ""
  | c => entry "completion" (alert_completion_to_str c)
  end +:+
  opt_text (entry "description") (description a) +:+
  match method_description a, method_ref a with
  | None, None => ""
  | md, mr =>
      entry "method" "{" +:+
      opt_text (λ d, indent +:+ color +:+ String TAB "description" +:+ clear +:+ " = " +:+ d) md +:+
      opt_text (λ r, indent +:+ color +:+ String TAB "ref" +:+ clear +:+ " = " +:+ "{" +:+ list_text r +:+ " }") mr +:+
      indent +:+ "}"
  end +:+
  opt_text (λ l, entry "sources" (nodes l)) (sources a) +:+
  opt_text (λ l, entry "targets" (nodes l)) (targets a) +:+
  match alert_ref a with
  | None | Some [] => ""
  | Some l => entry "refs" ("{" +:+ list_text (pretty <$> l) +:+ " }")
  end.
End text.

(** ** Appending to the buffer *)

Section buffer.
Context (bytes0 : list Ascii.ascii).

(** The buffer holds the text [T]; behind it the bytes are those of before. *)
Record holds (T : string) (b : abuf) : Prop := {
  ho_bytes : ab_bytes b = chars T ++ NUL :: zdrop (zlen (chars T) + 1) bytes0;
  ho_pos : ab_pos b = zlen (chars T);
  ho_len : ab_len b = BUFFER_SIZE - zlen (chars T);
}.

Definition text_size (T : string) : Z := zlen (chars T).

Lemma str_nil_r s : s +:+ "" = s.
Proof. induction s as [|c s IH]; [done|]. change (String c (s +:+ "") = String c s). by rewrite IH. Qed.
Lemma str_assoc s t u : (s +:+ t) +:+ u = s +:+ t +:+ u.
Proof. induction s as [|c s IH]; [done|]. change (String c ((s +:+ t) +:+ u) = String c (s +:+ t +:+ u)). by rewrite IH. Qed.

Lemma chars_app s t : chars (s +:+ t) = chars s ++ chars t.
Proof. unfold chars. induction s as [|c s IH]; simpl; [done|]. by rewrite <- IH. Qed.

Lemma text_size_app s t : text_size (s +:+ t) = text_size s + text_size t.
Proof. unfold text_size. by rewrite chars_app, zlen_app. Qed.

Lemma text_size_nonneg s : 0 ≤ text_size s.
Proof. apply zlen_nonneg. Qed.

Context (Hsize : zlen bytes0 = BUFFER_SIZE).

(** Text in front, room for the rest. *)
Lemma runs_append_at T old rest b x :
  ab_bytes b = chars T ++ old → zlen old = BUFFER_SIZE - text_size T → zdrop (text_size x + 1) old = rest →
  ab_pos b = text_size T → ab_len b = BUFFER_SIZE - text_size T → text_size (T +:+ x) < BUFFER_SIZE →
  runs (alert_string_append x) b (λ _ b',
    ab_bytes b' = chars (T +:+ x) ++ NUL :: rest ∧ ab_pos b' = text_size (T +:+ x) ∧ ab_len b' = BUFFER_SIZE - text_size (T +:+ x)).
Proof using.
  intros Eb Ho Er Ep El Hx. pose proof (text_size_nonneg T). pose proof (text_size_nonneg x). rewrite text_size_app in Hx |- *.
  unfold BUFFER_SIZE in *. unfold alert_string_append, vsnprintf. apply runs_bind. step. rewrite bool_decide_false by lia.
  change (zlen (chars x)) with (text_size x). rewrite Z.min_l by lia. rewrite (ztake_ge (text_size x)) by (unfold text_size; lia).
  assert (zlen (ab_bytes b) = 3072) as Lb. { rewrite Eb, zlen_app. unfold text_size in *. lia. }
  assert (zlen (chars x ++ [NUL]) = text_size x + 1) as Lw by (rewrite zlen_app; done).
  unfold buf_write. step. step; [apply bool_decide_true; simpl; lia|]. step. step. step. simpl. split_and!.
  - rewrite Eb, Ep. rewrite zput_app_r by (unfold text_size; lia). change (zlen (chars T)) with (text_size T).
    rewrite Z.sub_diag. unfold zput. rewrite ztake_0, Lw, Z.add_0_l. simpl app. by rewrite Er, chars_app, <- !app_assoc.
  - lia.
  - rewrite El. rewrite u64_small; lia.
Qed.

Definition says {A} (m : M abuf A) (x : string) : Prop := ∀ T b,
  holds T b → text_size (T +:+ x) < BUFFER_SIZE → runs m b (λ _ b', holds (T +:+ x) b').

Lemma says_append x : says (alert_string_append x) x.
Proof using Hsize.
  intros T b [Eb Ep El] Hx. pose proof (text_size_nonneg T). pose proof (text_size_nonneg x). rewrite text_size_app in Hx.
  eapply runs_mono; [eapply (runs_append_at T _ _ b x Eb); [|done|done|done|by rewrite text_size_app]|].
  - rewrite zlen_cons, zlen_zdrop; unfold text_size in *; lia.
  - intros [] b' (Eb' & Ep' & El'). split; [|done|done]. rewrite Eb'. f_equal. rewrite chars_app, zlen_app. fold (text_size T) (text_size x).
    unfold zdrop at 1. replace (Z.to_nat (text_size x + 1)) with (S (Z.to_nat (text_size x))) by lia. simpl. f_equal.
    change (drop (Z.to_nat (text_size x))) with (@zdrop Ascii.ascii (text_size x)). rewrite zdrop_zdrop by lia. f_equal. lia.
Qed.

Lemma says_skip : says skip "".
Proof using. intros T b Hb _. apply runs_ret. by rewrite str_nil_r. Qed.

Lemma says_seq {A B} (m : M abuf A) (k : A → M abuf B) x y : says m x → (∀ a, says (k a) y) → says (bind m k) (x +:+ y).
Proof using.
  intros Hm Hk T b Hb Hs. pose proof (text_size_nonneg y). rewrite <- str_assoc in Hs |- *.
  eapply runs_seq; [apply Hm; [done|]; rewrite text_size_app in Hs; lia|]. intros a b' Hb'. by apply Hk.
Qed.

(** A value the buffer does not depend on. *)
Lemma says_value {A B} (m : M abuf A) (k : A → M abuf B) v x :
  (∀ b, m b = Some (v, b)) → says (k v) x → says (bind m k) x.
Proof using. intros Hm Hk T b Hb Hs. unfold runs, bind. rewrite Hm. by apply Hk. Qed.

Lemma says_if (c : bool) (m k : M abuf unit) x y : (c = true → says m x) → (c = false → says k y) → says (if c then m else k) (if c then x else y).
Proof using. destruct c; auto. Qed.

Lemma says_opt {A} (f : A → M abuf unit) g (o : option A) : (∀ a, o = Some a → says (f a) (g a)) →
  says match o with Some a => f a | None => skip end (opt_text g o).
Proof using. destruct o; simpl; [auto|]. intros _. apply says_skip. Qed.

Lemma says_eq {A} (m : M abuf A) x y : says m x → x = y → says m y.
Proof using. by intros ? <-. Qed.

(** ** The loops *)

Lemma says_strings l : ∀ first, says (stringlist_loop first l) ((if first then "" else match l with [] => "" | _ => "," end) +:+ list_text l).
Proof using Hsize.
  induction l as [|x l IH]; intros first; cbn [stringlist_loop list_text].
  { eapply says_eq; [apply says_skip|by destruct first]. }
  eapply says_eq.
  - apply says_seq; [apply (says_if first); intros; [apply says_skip|apply says_append]|]. intros _.
    apply says_seq; [apply says_append|]. intros _. apply (IH false).
  - destruct first; destruct l; simpl; by rewrite ?str_nil_r.
Qed.

Lemma says_stringlist array : says (alert_stringlist_append array) (opt_text list_text array).
Proof using Hsize. unfold alert_stringlist_append. apply says_opt. intros l _. apply (says_strings l true). Qed.

Lemma says_refs l : ∀ first, says (refs_loop first l) ((if first then "" else match l with [] => "" | _ => "," end) +:+ list_text (pretty <$> l)).
Proof using Hsize.
  induction l as [|x l IH]; intros first; simpl.
  { eapply says_eq; [apply says_skip|by destruct first]. }
  eapply says_eq.
  - apply says_seq; [apply (says_if first); intros; [apply says_skip|apply says_append]|]. intros _.
    apply says_seq; [apply says_append|]. intros _. apply (IH false).
  - destruct first; destruct l; simpl; by rewrite ?str_nil_r.
Qed.

Lemma says_array l : says (alert_array_append (Some l)) ("{" +:+ list_text l +:+ " }").
Proof using Hsize.
  apply says_seq; [apply says_append|]. intros _. apply says_seq; [apply (says_stringlist (Some l))|]. intros _. apply says_append.
Qed.

Lemma says_nodes l indent color clear :
  says (alert_nodes_append l indent color clear) ("{" +:+ nodes_text indent color clear l +:+ indent +:+ "}").
Proof using Hsize.
  apply says_seq; [apply says_append|]. intros _. apply says_seq; [|intros _; apply says_append].
  induction l as [|n l IH]; cbn [nodes_loop nodes_text]; [apply says_skip|]. eapply says_eq.
  - apply says_seq; [apply says_append|]. intros _. apply says_seq; [apply says_stringlist|]. intros _. apply IH.
  - unfold node_text. by rewrite !str_assoc.
Qed.
End buffer.

(** The entry of the method, with either part. *)
Lemma says_method bytes0 (Hsize : zlen bytes0 = BUFFER_SIZE) indent color clear md mr :
  says bytes0 (alert_string_append (indent +:+ color +:+ "method" +:+ clear +:+ " = " +:+ "{");;
    match md with Some d => alert_string_append (indent +:+ color +:+ String TAB "description" +:+ clear +:+ " = " +:+ d) | None => skip end;;
    match mr with Some r => alert_string_append (indent +:+ color +:+ String TAB "ref" +:+ clear +:+ " = ");; alert_array_append (Some r) | None => skip end;;
    alert_string_append (indent +:+ "}"))
    ((indent +:+ color +:+ "method" +:+ clear +:+ " = " +:+ "{") +:+
     opt_text (λ d, indent +:+ color +:+ String TAB "description" +:+ clear +:+ " = " +:+ d) md +:+
     opt_text (λ r, indent +:+ color +:+ String TAB "ref" +:+ clear +:+ " = " +:+ "{" +:+ list_text r +:+ " }") mr +:+
     indent +:+ "}").
Proof.
  apply says_seq; [by apply says_append|]. intros _. apply says_seq; [apply says_opt; intros; by apply says_append|].
  intros _. apply says_seq; [|intros _; by apply says_append]. apply says_opt. intros r _.
  eapply says_eq; [apply says_seq; [by apply says_append|intros _; by apply says_array]|]. by rewrite !str_assoc.
Qed.

(** An entry in front of a list of nodes. *)
Lemma says_entry_nodes bytes0 (Hsize : zlen bytes0 = BUFFER_SIZE) indent color clear name o :
  says bytes0 match o with
    | Some l => alert_string_append (indent +:+ color +:+ name +:+ clear +:+ " = " +:+ "");; alert_nodes_append l indent color clear
    | None => skip
    end
    (opt_text (λ l, indent +:+ color +:+ name +:+ clear +:+ " = " +:+ "{" +:+ nodes_text indent color clear l +:+ indent +:+ "}") o).
Proof.
  apply says_opt. intros l _. eapply says_eq; [apply says_seq; [by apply says_append|intros _; by apply says_nodes]|]. by rewrite !str_assoc.
Qed.

(** ** The whole text *)

Section whole.
Context {D : Type} (fmt_g : D → string) (ctime_r : Z → option string).

Lemma time_tostring_eq t b : time_known ctime_r t → time_tostring ctime_r t b = Some (time_text ctime_r t, b).
Proof.
  intros (s & E & Hne). unfold time_tostring, time_text. rewrite E. unfold bind. simpl.
  rewrite bool_decide_true; [done|]. destruct s; [done|]. simpl. lia.
Qed.

(** What the conversion of the times needs. *)
Definition times_known (t : time) (a : alert D) : Prop :=
  time_known ctime_r t ∧ (time_isvalid (start_time a) = true → time_known ctime_r (start_time a)) ∧
  (time_isvalid (end_time a) = true → time_known ctime_r (end_time a)).

(** C33 The text of an alert: when it fits into the buffer with its final NUL,
    [alert_tostring] writes exactly the text that the fields of the alert denote,
    whatever the buffer held before, ends it, stays inside the buffer and leaves the
    bytes behind it alone. *)
Theorem alert_tostring_correct id t (a : alert D) header indent colored b :
  let text := alert_text fmt_g ctime_r id t a header indent colored in
  zlen (ab_bytes b) = BUFFER_SIZE → times_known t a → text_size text < BUFFER_SIZE →
  runs (alert_tostring fmt_g ctime_r id t a header indent colored) b (λ _ b',
    ab_bytes b' = chars text ++ NUL :: zdrop (text_size text + 1) (ab_bytes b)).
Proof.
  intros text Hb (Ht & Hs & He) Hsz. unfold alert_tostring. step. unfold text, alert_text in Hsz |- *.
  set (color := if colored then BOLD else "") in *. set (clear := if colored then CLEAR else "") in *. cbv zeta in Hsz |- *.
  match type of Hsz with text_size (?x +:+ ?y) < _ => set (first := x) in *; set (others := y) in * end.
  set (b0 := ABuf _ _ _).
  eapply runs_seq; [eapply (runs_append_at "" (ab_bytes b) _ b0 first)|]; [done|done|done|done|done| |].
  { change ("" +:+ first) with first. rewrite text_size_app in Hsz. pose proof (text_size_nonneg others). lia. }
  intros [] b1 (Eb & Ep & El). change ("" +:+ first) with first in *.
  assert (holds (ab_bytes b) first b1) as H1 by (by split).
  apply (runs_mono _ _ (λ _ b', holds (ab_bytes b) (first +:+ others) b')); [|intros [] b' [Eb' _ _]; exact Eb'].
  match goal with |- runs ?m _ _ => assert (says (ab_bytes b) m others) as HS end; [|by apply HS].
  unfold others. clear -Ht Hs He Hb.
  eapply says_value; [intros; by apply time_tostring_eq|].
  apply says_seq; [by apply says_append|]. intros _.
  apply says_seq; [apply says_if; intros Hv; [|apply says_skip]|].
  { eapply says_value; [intros; by apply time_tostring_eq, Hs|]. by apply says_append. }
  intros _. apply says_seq; [apply says_if; intros Hv; [|apply says_skip]|].
  { eapply says_value; [intros; by apply time_tostring_eq, He|]. by apply says_append. }
  intros _. apply says_seq; [destruct (severity a); (by apply says_append) || apply says_skip|].
  intros _. apply says_seq; [destruct (confidence a); (by apply says_append) || apply says_skip|].
  intros _. apply says_seq; [destruct (completion a); (by apply says_append) || apply says_skip|].
  intros _. apply says_seq; [apply says_opt; intros; by apply says_append|].
  intros _. apply says_seq; [|intros _; apply says_seq; [|intros _; apply says_seq; [|intros _]]].
  - pose proof (says_method (ab_bytes b) Hb indent color clear) as HM.
    destruct (method_description a) as [md|], (method_ref a) as [mr|]; [apply (HM (Some md) (Some mr))|apply (HM (Some md) None)|apply (HM None (Some mr))|apply says_skip].
  - by apply (says_entry_nodes (ab_bytes b) Hb).
  - by apply (says_entry_nodes (ab_bytes b) Hb).
  - destruct (alert_ref a) as [[|x l]|]; [apply says_skip| |apply says_skip].
    eapply says_eq; [apply says_seq; [by apply says_append|intros _; apply says_seq; [by apply (says_refs (ab_bytes b) Hb (x :: l) true)|intros _; by apply says_append]]|].
    by rewrite !str_assoc.
Qed.
End whole.

(** An alert with a source and references. *)
Definition ex_alert : alert unit :=
  Alert unit (Time 0 0) (Time 0 0) (Some "scan"%string) HAKA_ALERT_LOW HAKA_ALERT_LEVEL_NONE tt HAKA_ALERT_FAILED None None
    (Some [AlertNode HAKA_ALERT_NODE_ADDRESS (Some ["10.0.0.1"; "10.0.0.2"]%string)]) None (Some [3; 4]).
Definition ex_ctime (_ : Z) : option string := Some ("Thu Jan  1 00:00:01 1970" +:+ String (Ascii.ascii_of_nat 10) "").

Lemma alert_tostring_correct_witness :
  let text := "id = 12 time = Thu Jan  1 00:00:01 1970 severity = low completion = failed description = scan " +:+
    "sources = { " +:+ String TAB "address: 10.0.0.1, 10.0.0.2 } refs = { 3, 4 }" in
  runs (alert_tostring (λ _, ""%string) ex_ctime 12 (Time 1 0) ex_alert "" " " false) (ABuf (replicate 3072 NUL) 0 0)
    (λ _ b', ztake (text_size text + 1) (ab_bytes b') = chars text ++ [NUL]).
Proof.
  eapply runs_mono; [apply alert_tostring_correct|].
  - by vm_compute.
  - split_and!; [by eexists|by intros|by intros].
  - by vm_compute.
  - intros [] b' ->. by vm_compute.
Defined.

(** ** Delivery *)

Section delivery.
Context {D : Type} (on_alert : loc → alert_call D → bool) (frees : loc → bool).
Implicit Types s : alerts D.

Lemma runs_call_alerters s ls l1 gone l2 c Q :
  lsn_rep (al_alerters s) ls → taken_out on_alert (al_alerters s) c ls l1 gone l2 → Forall (λ x, frees x = false) gone →
  (∀ t, lsn_rep t (l1 ++ l2) → ln_error t = ln_error (al_alerters s) →
    (∀ l, l ∈ l1 ++ l2 → marked t l = fails on_alert (al_alerters s) c l) →
    ln_events t = ln_events (al_alerters s) ++ ((λ l, Called l c) <$> ls) ++ (Destroyed <$> gone) → Q tt (set_alerters t s)) →
  runs (call_alerters on_alert frees c) s Q.
Proof.
  intros R Ht Hfr HQ. unfold call_alerters, on_alerters. step. eapply runs_lsn_call_all; [done|].
  pose proof (called_all_rep on_alert c _ _ R) as R1.
  destruct (called_all_spec on_alert c ls (al_alerters s)) as (L & Er & V & _ & I); [by destruct R as [[] _]|by destruct R|].
  set (t := called_all on_alert c ls (al_alerters s)) in *.
  change (λ l, marked (al_alerters s) l || on_alert l c) with (fails on_alert (al_alerters s) c).
  rewrite (taken_fails _ _ _ _ _ _ _ Ht). destruct Ht as (-> & Hf & Hg).
  destruct gone as [|x [|]]; [subst l2|..|done]; simpl in *.
  - rewrite !app_nil_r in *. apply runs_ret, HQ; [done|done|intros l Hl; by apply I|by rewrite V].
  - apply Forall_cons in Hfr as [Hfr _]. unfold alert_remove_pass, on_alerters. step.
    eapply (runs_remove_pass_first frees t l1 x l2); [done| |by destruct (I x) as [_ ->]; [set_solver|]|done|].
    { apply Forall_forall. intros y Hy. destruct (I y) as [_ ->]; [set_solver|]. by eapply Forall_forall in Hf. }
    intros t' R' [Ev' Er' Mk' _ _]. apply HQ; [done|by rewrite Er', Er| |by rewrite Ev', V, <- app_assoc].
    intros l Hl. unfold marked. rewrite Mk', Hfr. apply I. set_solver.
Qed.

Fixpoint raise_all (l : list (time * alert D)) : M (alerts D) (list Z) :=
  match l with
  | [] => ret []
  | (now, a) :: l => id ← alert_raise on_alert frees now a; ids ← raise_all l; ret (id :: ids)
  end.

(** The calls of the alerters for alerts numbered from [n] on. *)
Fixpoint all_calls (ls : list loc) (n : Z) (l : list (time * alert D)) : list (lsn_event (alert_call D)) :=
  match l with
  | [] => []
  | (now, a) :: l => ((λ x, Called x (Raised n now a)) <$> ls) ++ all_calls ls (n + 1) l
  end.

(** Alerts: alerts that are raised one after the other get consecutive numbers,
    and each goes to every alerter once, in the order of the list, with its own
    number, as long as no alerter fails. *)
Theorem alerts_delivered s ls l :
  lsn_rep (al_alerters s) ls → 0 ≤ al_id s → al_id s + zlen l < 2 ^ 64 →
  Forall (λ x, marked (al_alerters s) x = false ∧ ∀ c, on_alert x c = false) ls →
  runs (raise_all l) s (λ ids s',
    ids = seqZ (al_id s + 1) (zlen l) ∧ lsn_rep (al_alerters s') ls ∧
    ln_events (al_alerters s') = ln_events (al_alerters s) ++ all_calls ls (al_id s + 1) l ∧
    ln_error (al_alerters s') = ln_error (al_alerters s)).
Proof.
  revert s. induction l as [|[now a] l IH]; intros s R H0 Hid Hq; simpl.
  { apply runs_ret. rewrite app_nil_r. done. }
  rewrite zlen_cons in Hid. pose proof (zlen_nonneg l). unfold alert_raise. step. step. step.
  rewrite u64_small by lia. eapply (runs_call_alerters _ ls ls [] []).
  - done.
  - split_and!; [by rewrite app_nil_r| |done]. eapply Forall_impl; [exact Hq|]. intros x [Hx Hc]. unfold fails. simpl. by rewrite Hx, Hc.
  - done.
  - intros t Rt Et Mt Vt. rewrite app_nil_r in *. simpl in *. step. post (IH (Alerts t (al_id s + 1))).
    + done.
    + simpl. lia.
    + simpl. lia.
    + rewrite Forall_forall in Hq |- *. intros x Hx. destruct (Hq x Hx) as [Hm Hc]. split; [|done].
      simpl. rewrite Mt by done. unfold fails. simpl. by rewrite Hm, Hc.
    + intros ids s' (-> & R' & V' & E'). step. simpl in *. split_and!; [|done|by rewrite V', Vt, <- app_assoc|by rewrite E', Et].
      rewrite (seqZ_cons (al_id s + 1)) by (rewrite zlen_cons; lia). f_equal. f_equal; rewrite ?zlen_cons; lia.
Qed.
End delivery.

Lemma alerts_delivered_witness :
  let h := list_to_map [(1%positive, Elem None (Some 2%positive)); (2%positive, Elem (Some 1%positive) None)] in
  let s := Alerts (Lsn (LS h (Some 1%positive) None) (list_to_map [(1%positive, false); (2%positive, false)]) None []) 0 in
  runs (raise_all (λ _ _, false) (λ _, true) [(Time 1 0, ex_alert); (Time 2 0, ex_alert)]) s (λ ids s',
    ids = [1; 2] ∧ ln_events (al_alerters s') =
      [Called 1%positive (Raised 1 (Time 1 0) ex_alert); Called 2%positive (Raised 1 (Time 1 0) ex_alert);
       Called 1%positive (Raised 2 (Time 2 0) ex_alert); Called 2%positive (Raised 2 (Time 2 0) ex_alert)]).
Proof.
  intros h s. eapply runs_mono; [apply (alerts_delivered _ _ s [1; 2]%positive)|].
  - split; [split; [apply (bool_decide_unpack _); by vm_compute|by repeat split|done|done]|].
    intros l Hl. repeat (apply elem_of_cons in Hl as [->|Hl]; [by eexists|]). set_solver.
  - done.
  - done.
  - by repeat constructor.
  - by intros ids s' (-> & _ & -> & _).
Defined.

(** ** Outside the intended domain *)

(** A text that does not fit: the length returned for the piece that was cut is
    subtracted from the room that was left, which wraps around, and the next piece is
    written outside of the buffer. *)
Definition ex_long : alert unit :=
  Alert unit (Time 0 0) (Time 0 0) (Some (String.string_of_list_ascii (replicate 3072 TAB))) HAKA_ALERT_LOW HAKA_ALERT_LEVEL_NONE tt
    HAKA_ALERT_FAILED None None (Some []) None None.

Theorem long_alert_overflows :
  alert_tostring (λ _, ""%string) ex_ctime 12 (Time 1 0) ex_long "" " " false (ABuf (replicate 3072 NUL) 0 0) = None.
Proof. by vm_compute. Qed.
