(* ===== verification/CtlComm.v ===== *)
(** * The control channel (src/hakactl/ctl_comm.c)

    The messages between haka and hakactl: 32-bit integers, strings with their
    length, wide strings and statuses, over a socket. The state is the one end of the
    channel: the bytes that have arrived and were not read, the bytes that were
    written, how many more bytes the peer takes, the largest block [malloc] gives and
    the number of blocks that are not freed.

    A string argument is the memory it points to, [(size_t)-1] stands for the length
    up to its NUL. [read] gives what has arrived, up to the size asked for, and 0 at
    the end. *)

From S2P Require Import Prelude Types.

(** ** The channel *)

Record chan := Chan {
  cn_in : list Z;
  cn_out : list Z;
  cn_room : Z;
  cn_malloc : Z;
  cn_blocks : Z;
  cn_error : option string;
}.

Abbreviation CM := (M chan).

Definition set_in (x : list Z) (s : chan) : chan := Chan x (cn_out s) (cn_room s) (cn_malloc s) (cn_blocks s) (cn_error s).
Definition set_out (x : list Z) (r : Z) (s : chan) : chan := Chan (cn_in s) x r (cn_malloc s) (cn_blocks s) (cn_error s).
Definition set_blocks (x : Z) (s : chan) : chan := Chan (cn_in s) (cn_out s) (cn_room s) (cn_malloc s) x (cn_error s).
Definition set_cerror (x : option string) (s : chan) : chan := Chan (cn_in s) (cn_out s) (cn_room s) (cn_malloc s) (cn_blocks s) x.

(** The first error is kept until it is cleared. *)
Definition ctl_error (msg : string) : CM unit := modify (λ s, set_cerror (Some (default msg (cn_error s))) s).
Definition ctl_has_error : CM bool := gets (λ s, negb (is_null (cn_error s))).

(** [write]: the number of bytes taken, -1 on a closed channel. *)
Definition write (bs : list Z) : CM Z :=
  s ← gets id;
  if bool_decide (zlen bs = 0) then ret 0 else
  if bool_decide (cn_room s ≤ 0) then ret (-1) else
  let n := Z.min (zlen bs) (cn_room s) in
  modify (λ s, set_out (cn_out s ++ ztake n bs) (cn_room s - n) s);;
  ret n.

(** [read]: a count that is negative as a [ssize_t] is refused. *)
Definition read (count : Z) : CM (Z * list Z) :=
  s ← gets id;
  if bool_decide (2 ^ 63 ≤ count) then ret (-1, []) else
  let bs := ztake count (cn_in s) in
  modify (λ s, set_in (zdrop count (cn_in s)) s);;
  ret (zlen bs, bs).

Definition cmalloc (n : Z) : CM bool :=
  m ← gets cn_malloc;
  if bool_decide (n ≤ m) then modify (λ s, set_blocks (cn_blocks s + 1) s);; ret true else ret false.
Definition cfree : CM unit := modify (λ s, set_blocks (cn_blocks s - 1) s).

(** The characters in front of the first NUL; a string without one has no result. *)
Fixpoint until_nul (mem : list Z) : option (list Z) :=
  match mem with
  | [] => None
  | c :: mem => if bool_decide (c = 0) then Some [] else cons c <$> until_nul mem
  end.
Definition strlen (mem : list Z) : CM Z := l ← deref (until_nul mem); ret (zlen l).

(** ** Messages *)

(** "errno" stands for the text of the system error. *)
Definition ctl_check_error (err expected : Z) (forread : bool) : CM bool :=
  if bool_decide (err = 0) && forread then ctl_error "end of file";; ret false
  else if bool_decide (err ≤ 0) then ctl_error "errno";; ret false
  else if negb (bool_decide (err = expected)) then ctl_error "communication error";; ret false
  else ret true.

(** [SWAP_TO_LE(int32, i)]: the four bytes, the lowest first. *)
Definition ctl_send_int (i : Z) : CM bool :=
  n ← write (le_bytes 4 (u32 i));
  ctl_check_error n 4 false.

Definition ctl_send_chars (str : list Z) (len : Z) : CM bool :=
  len ← (if bool_decide (len = size_max) then strlen str else ret len);
  ok ← ctl_send_int (s32 len);
  if negb ok then ret false else
  c_assert (bool_decide (len ≤ zlen str));;
  n ← write (ztake len str);
  ctl_check_error n (s32 len) false.

(** [while ( *str)]: all characters up to the terminator, whatever [len] is. *)
Fixpoint send_wchars_loop (str : list Z) : CM bool :=
  match str with
  | [] => stuck
  | c :: str =>
      if bool_decide (c = 0) then ret true else
      n ← write (le_bytes 4 (u32 c));
      ok ← ctl_check_error n 4 false;
      if negb ok then ret false else send_wchars_loop str
  end.

Definition ctl_send_wchars (str : list Z) (len : Z) : CM bool :=
  len ← (if bool_decide (len = size_max) then strlen str else ret len);
  ok ← ctl_send_int (s32 len);
  if negb ok then ret false else send_wchars_loop str.

(** [err] may be NULL. *)
Definition ctl_send_status (r : Z) (err : option (list Z)) : CM bool :=
  if bool_decide (r = -1) then
    ok ← ctl_send_int r;
    if negb ok then ret false else ctl_send_chars (default [0] err) size_max
  else ctl_send_int r.

(** Without a whole integer the answer is [false]. *)
Definition ctl_recv_int : CM Z :=
  '(n, bs) ← read 4;
  ok ← ctl_check_error n 4 true;
  if negb ok then ret 0 else ret (s32 (le_value bs)).

(** The string without its terminator; NULL on error. The block is not freed when
    the characters cannot be read. *)
Definition ctl_recv_chars : CM (option (list Z)) :=
  len ← ctl_recv_int;
  e ← ctl_has_error;
  if e : bool then ret None else
  c_assert (bool_decide (len + 1 < 2 ^ 31));; (* int addition *)
  m ← cmalloc (u64 (len + 1));
  if negb m then ctl_error "memory error";; ret None else
  '(n, bs) ← read (u64 len);
  ok ← ctl_check_error n len true;
  if negb ok then ret None else ret (Some bs).

Fixpoint recv_wchars_loop (k : nat) (acc : list Z) : CM (option (list Z)) :=
  match k with
  | O => ret (Some acc)
  | S k =>
      '(n, bs) ← read 4;
      ok ← ctl_check_error n 4 true;
      if negb ok then ret None else recv_wchars_loop k (acc ++ [s32 (le_value bs)])
  end.

Definition ctl_recv_wchars : CM (option (list Z)) :=
  len ← ctl_recv_int;
  e ← ctl_has_error;
  if e : bool then ret None else
  if bool_decide (len < 0) then ctl_error "communication error";; ret None else
  c_assert (bool_decide (len + 1 < 2 ^ 31));; (* int addition *)
  m ← cmalloc (4 * (len + 1));
  if negb m then ctl_error "memory error";; ret None else
  recv_wchars_loop (Z.to_nat len) [].

(** The text of the pending error is the one that was received. *)
Definition string_of_bytes (bs : list Z) : string :=
  String.string_of_list_ascii ((λ b, Ascii.ascii_of_N (Z.to_N b)) <$> bs).

Definition ctl_recv_status : CM Z :=
  r ← ctl_recv_int;
  e ← ctl_has_error;
  if e : bool then ret (-1) else
  if bool_decide (r = -1) then
    err ← ctl_recv_chars;
    match err with
    | None => e ← ctl_has_error; c_assert e;; ret (-1)
    | Some err => ctl_error (string_of_bytes err);; cfree;; ret r
    end
  else ret r.

(** [str]: the rest of the string expected with its terminator, or NULL. *)
Fixpoint expect_loop (k : nat) (str : option (list Z)) (r : bool) : CM bool :=
  match k with
  | O =>
      match str with
      | None => ret false
      | Some str => c ← deref (head str); ret (if bool_decide (c = 0) then r else false)
      end
  | S k =>
      '(n, bs) ← read 1;
      ok ← ctl_check_error n 1 true;
      if negb ok then ret false else
      match str with
      | None => expect_loop k None r
      | Some [] => stuck
      | Some (x :: str) =>
          let r := if bool_decide (bs = [x]) then r else false in
          if bool_decide (x = 0) then expect_loop k None false else expect_loop k (Some str) r
      end
  end.

Definition ctl_expect_chars (str : list Z) : CM bool :=
  len ← ctl_recv_int;
  e ← ctl_has_error;
  if e : bool then ret false else
  if bool_decide (len < 0) then ctl_error "communication error";; ret false else
  expect_loop (Z.to_nat len) (Some str) true.

(** ** The bytes of a message *)

Inductive ctl_msg :=
  | CInt (i : Z)
  | CChars (str : list Z)
  | CWchars (str : list Z)
  | CStatus (r : Z) (err : list Z).

Definition encode_chars (str : list Z) : list Z := le_bytes 4 (u32 (zlen str)) ++ str.

Definition encode (m : ctl_msg) : list Z :=
  match m with
  | CInt i => le_bytes 4 (u32 i)
  | CChars str => encode_chars str
  | CWchars str => le_bytes 4 (u32 (zlen str)) ++ concat ((λ c, le_bytes 4 (u32 c)) <$> str)
  | CStatus r err => le_bytes 4 (u32 r) ++ (if bool_decide (r = -1) then encode_chars err else [])
  end.

Definition is_int32 (i : Z) : Prop := - 2 ^ 31 ≤ i < 2 ^ 31.
Definition c_chars (str : list Z) : Prop := Forall (λ c, c ≠ 0) str ∧ 0 < zlen str < 2 ^ 31 - 1.

(** Messages that can be sent: strings of chars are not empty. *)
Definition msg_ok (m : ctl_msg) : Prop :=
  match m with
  | CInt i => is_int32 i
  | CChars str => c_chars str
  | CWchars str => Forall (λ c, c ≠ 0 ∧ is_int32 c) str ∧ zlen str < 2 ^ 31 - 1
  | CStatus r err => is_int32 r ∧ (r = -1 → c_chars err)
  end.

Definition send_msg (m : ctl_msg) : CM bool :=
  match m with
  | CInt i => ctl_send_int i
  | CChars str => ctl_send_chars (str ++ [0]) size_max
  | CWchars str => ctl_send_wchars (str ++ [0]) size_max
  | CStatus r err => ctl_send_status r (Some (err ++ [0]))
  end.

#[local] Arguments le_bytes : simpl never.

Section sending.
Implicit Types s : chan.

Definition sent (bs : list Z) s : chan := set_out (cn_out s ++ bs) (cn_room s - zlen bs) s.

Lemma sent_sent a b s : sent b (sent a s) = sent (a ++ b) s.
Proof. unfold sent, set_out. simpl. f_equal; [by rewrite app_assoc|rewrite zlen_app; lia]. Qed.

Lemma runs_write s bs Q : 0 < zlen bs ≤ cn_room s → Q (zlen bs) (sent bs s) → runs (write bs) s Q.
Proof.
  intros Hl HQ. unfold write. step. rewrite bool_decide_false by lia. simpl. rewrite bool_decide_false by lia. step.
  rewrite Z.min_l by lia. step. by rewrite ztake_ge by lia.
Qed.

Lemma runs_ctl_check s n b Q : 0 < n → Q true s → runs (ctl_check_error n n b) s Q.
Proof.
  intros Hn HQ. unfold ctl_check_error. rewrite (bool_decide_false (n = 0)) by lia. simpl.
  rewrite bool_decide_false by lia. rewrite bool_decide_true by done. by apply runs_ret.
Qed.

Lemma zlen_le_bytes n x : zlen (le_bytes n x) = Z.of_nat n.
Proof. unfold zlen. by rewrite le_bytes_length. Qed.

Lemma runs_send_int s i Q : 4 ≤ cn_room s → Q true (sent (le_bytes 4 (u32 i)) s) → runs (ctl_send_int i) s Q.
Proof.
  intros Hr HQ. unfold ctl_send_int. call runs_write; [rewrite zlen_le_bytes; lia|]. rewrite zlen_le_bytes. by apply runs_ctl_check.
Qed.

Lemma until_nul_app str : Forall (λ c, c ≠ 0) str → until_nul (str ++ [0]) = Some str.
Proof. induction 1 as [|c str Hc _ IH]; simpl; [done|]. rewrite bool_decide_false by done. by rewrite IH. Qed.

Lemma runs_strlen s str Q : Forall (λ c, c ≠ 0) str → Q (zlen str) s → runs (strlen (str ++ [0])) s Q.
Proof. intros Hf HQ. unfold strlen. rewrite until_nul_app by done. step. by step. Qed.

Lemma u32_s32 n : u32 (s32 n) = u32 n.
Proof. unfold u32, s32, swrap, wrap. rewrite Zminus_mod_idemp_l. f_equal. lia. Qed.

Lemma s32_u32 i : is_int32 i → s32 (u32 i) = i.
Proof.
  unfold is_int32. intros Hi. unfold s32, u32, swrap, wrap. rewrite Zplus_mod_idemp_l. simpl in *. rewrite Z.mod_small; lia.
Qed.

Lemma s32_small n : is_int32 n → s32 n = n.
Proof. intros. by apply swrap_small. Qed.

Lemma runs_send_chars s str Q : c_chars str → zlen (encode_chars str) ≤ cn_room s →
  Q true (sent (encode_chars str) s) → runs (ctl_send_chars (str ++ [0]) size_max) s Q.
Proof.
  intros [Hf Hl] Hr HQ. unfold encode_chars in *. rewrite zlen_app, zlen_le_bytes in Hr. simpl in Hr.
  unfold ctl_send_chars. rewrite bool_decide_true by done. call runs_strlen; [done|]. call runs_send_int; [lia|].
  rewrite u32_s32. simpl. step; [apply bool_decide_true; rewrite zlen_app; change (zlen [0]) with 1; lia|].
  rewrite ztake_app_le, ztake_ge by lia. call runs_write; [simpl; rewrite zlen_le_bytes; lia|].
  rewrite sent_sent. rewrite s32_small by (unfold is_int32; lia). apply runs_ctl_check; [lia|done].
Qed.

Lemma runs_send_wchars_loop str : ∀ s Q, Forall (λ c, c ≠ 0 ∧ is_int32 c) str →
  4 * zlen str ≤ cn_room s → Q true (sent (concat ((λ c, le_bytes 4 (u32 c)) <$> str)) s) →
  runs (send_wchars_loop (str ++ [0])) s Q.
Proof.
  induction str as [|c str IH]; intros s Q Hf Hr HQ; simpl.
  { apply runs_ret. replace s with (sent [] s) at 1; [done|]. destruct s. unfold sent, set_out. simpl. by rewrite app_nil_r, Z.sub_0_r. }
  apply Forall_cons in Hf as [[Hc _] Hf]. rewrite zlen_cons in Hr. pose proof (zlen_nonneg str).
  rewrite bool_decide_false by done. call runs_write; [rewrite zlen_le_bytes; lia|]. rewrite zlen_le_bytes.
  apply runs_bind, runs_ctl_check; [lia|]. simpl. apply IH; [done|simpl; rewrite zlen_le_bytes; lia|]. by rewrite sent_sent.
Qed.

Lemma zlen_wchars (str : list Z) : zlen (concat ((λ c, le_bytes 4 (u32 c)) <$> str)) = 4 * zlen str.
Proof. induction str as [|c str IH]; [done|]. rewrite fmap_cons. cbn [concat]. rewrite zlen_app, zlen_le_bytes, IH, zlen_cons. lia. Qed.

Lemma runs_send_msg s m Q : msg_ok m → zlen (encode m) ≤ cn_room s → Q true (sent (encode m) s) → runs (send_msg m) s Q.
Proof.
  destruct m as [i|str|str|r err]; cbn [msg_ok encode send_msg]; intros Hok Hr HQ.
  - apply runs_send_int; [by rewrite zlen_le_bytes in Hr|done].
  - by apply runs_send_chars.
  - destruct Hok as [Hf Hl]. rewrite zlen_app, zlen_le_bytes, zlen_wchars in Hr. pose proof (zlen_nonneg str).
    unfold ctl_send_wchars. rewrite bool_decide_true by done.
    call runs_strlen; [eapply Forall_impl; [done|]; by intros ? []|]. call runs_send_int; [lia|]. rewrite u32_s32. simpl.
    apply runs_send_wchars_loop; [done|simpl; rewrite zlen_le_bytes; lia|]. by rewrite sent_sent.
  - destruct Hok as [Hi He]. unfold ctl_send_status. rewrite zlen_app, zlen_le_bytes in Hr. case_bool_decide as Hm.
    + specialize (He Hm). pose proof (zlen_nonneg (encode_chars err)). call runs_send_int; [lia|]. simpl.
      apply runs_send_chars; [done|simpl; rewrite zlen_le_bytes; lia|]. by rewrite sent_sent.
    + rewrite app_nil_r in HQ. apply runs_send_int; [by rewrite Z.add_0_r in Hr|done].
Qed.
End sending.

(** ** Reception *)

Inductive ctl_kind := KInt | KChars | KWchars | KStatus.
Definition kind_of (m : ctl_msg) : ctl_kind :=
  match m with CInt _ => KInt | CChars _ => KChars | CWchars _ => KWchars | CStatus _ _ => KStatus end.

(** What the receiver gets: a failure, or the value; a status with the text of its
    error. *)
Inductive ctl_answer :=
  | RFail
  | RInt (i : Z)
  | RChars (str : list Z)
  | RWchars (str : list Z)
  | RStatus (r : Z) (err : option string).

Definition answer_of (m : ctl_msg) : ctl_answer :=
  match m with
  | CInt i => RInt i
  | CChars str => RChars str
  | CWchars str => RWchars str
  | CStatus r err => RStatus r (if bool_decide (r = -1) then Some (string_of_bytes err) else None)
  end.

(** As the callers receive: a failure is a pending error or NULL; a status takes the
    pending error with [clear_error]. *)
Definition recv_kind (k : ctl_kind) : CM ctl_answer :=
  match k with
  | KInt => i ← ctl_recv_int; e ← ctl_has_error; ret (if e : bool then RFail else RInt i)
  | KChars => r ← ctl_recv_chars; ret (match r with Some str => RChars str | None => RFail end)
  | KWchars => r ← ctl_recv_wchars; ret (match r with Some str => RWchars str | None => RFail end)
  | KStatus => r ← ctl_recv_status; e ← gets cn_error; modify (set_cerror None);; ret (RStatus r e)
  end.

Fixpoint send_all (ms : list ctl_msg) : CM bool :=
  match ms with [] => ret true | m :: ms => ok ← send_msg m; if ok : bool then send_all ms else ret false end.
Fixpoint recv_all (ks : list ctl_kind) : CM (list ctl_answer) :=
  match ks with [] => ret [] | k :: ks => a ← recv_kind k; l ← recv_all ks; ret (a :: l) end.

(** The blocks a message leaves with the receiver, and the memory it needs. *)
Definition blocks_of (m : ctl_msg) : Z := match m with CChars _ | CWchars _ => 1 | _ => 0 end.
Definition needs (m : ctl_msg) : Z :=
  match m with CInt _ => 0 | CChars str | CStatus _ str => zlen str + 1 | CWchars str => 4 * (zlen str + 1) end.

Section receiving.
Implicit Types s : chan.

(** [bs] is read from the front. *)
Lemma runs_read s bs rest Q : cn_in s = bs ++ rest → zlen bs < 2 ^ 63 →
  Q (zlen bs, bs) (set_in rest s) → runs (read (zlen bs)) s Q.
Proof.
  intros E Hl HQ. unfold read. step. rewrite bool_decide_false by lia. simpl. rewrite E.
  rewrite ztake_app_le, ztake_ge by lia. step. rewrite E. rewrite zdrop_app_ge, Z.sub_diag, zdrop_0 by lia. by step.
Qed.

Lemma runs_recv_int s i rest Q : is_int32 i → cn_in s = le_bytes 4 (u32 i) ++ rest → Q i (set_in rest s) → runs ctl_recv_int s Q.
Proof.
  intros Hi E HQ. unfold ctl_recv_int. change 4 with (zlen (le_bytes 4 (u32 i))) at 1.
  apply runs_bind, (runs_read _ _ _ _ E); [by rewrite zlen_le_bytes|]. rewrite zlen_le_bytes. apply runs_bind, runs_ctl_check; [lia|].
  apply runs_ret. rewrite le_value_bytes by apply u32_range. by rewrite s32_u32.
Qed.

Lemma runs_has_error s Q : Q (negb (is_null (cn_error s))) s → runs ctl_has_error s Q.
Proof. intros. unfold ctl_has_error. by step. Qed.

Lemma runs_cmalloc s n Q : n ≤ cn_malloc s → Q true (set_blocks (cn_blocks s + 1) s) → runs (cmalloc n) s Q.
Proof. intros Hn HQ. unfold cmalloc. step. rewrite bool_decide_true by done. step. by step. Qed.

Lemma runs_recv_chars s str rest Q : 0 < zlen str < 2 ^ 31 - 1 → cn_error s = None → zlen str + 1 ≤ cn_malloc s →
  cn_in s = encode_chars str ++ rest → Q (Some str) (set_blocks (cn_blocks s + 1) (set_in rest s)) → runs ctl_recv_chars s Q.
Proof.
  intros Hl He Hm E HQ. unfold encode_chars in E. rewrite <- app_assoc in E. unfold ctl_recv_chars.
  apply runs_bind, (runs_recv_int _ (zlen str) _ _ ltac:(unfold is_int32; lia) E). call runs_has_error. simpl. rewrite He. simpl.
  step; [apply bool_decide_true; lia|]. rewrite u64_small by lia. call runs_cmalloc; [done|]. simpl. rewrite u64_small by lia.
  apply runs_bind, (runs_read _ str rest); [done|lia|]. apply runs_bind, runs_ctl_check; [lia|]. by apply runs_ret.
Qed.

Lemma runs_recv_wchars_loop str : ∀ s rest acc Q, Forall (λ c, c ≠ 0 ∧ is_int32 c) str →
  cn_in s = concat ((λ c, le_bytes 4 (u32 c)) <$> str) ++ rest → Q (Some (acc ++ str)) (set_in rest s) →
  runs (recv_wchars_loop (length str) acc) s Q.
Proof.
  induction str as [|c str IH]; intros s rest acc Q Hf E HQ; cbn [length recv_wchars_loop].
  { apply runs_ret. simpl in E. rewrite app_nil_r in HQ. replace s with (set_in rest s) at 1; [done|]. rewrite <- E. by destruct s. }
  apply Forall_cons in Hf as [[_ Hc] Hf]. rewrite fmap_cons in E. cbn [concat] in E. rewrite <- app_assoc in E.
  change 4 with (zlen (le_bytes 4 (u32 c))) at 1. apply runs_bind, (runs_read _ _ _ _ E); [by rewrite zlen_le_bytes|].
  rewrite zlen_le_bytes. apply runs_bind, runs_ctl_check; [lia|]. cbn [negb]. rewrite le_value_bytes by apply u32_range. rewrite s32_u32 by done.
  eapply IH; [done|done|]. by rewrite <- app_assoc.
Qed.

(** One message, with the bytes behind it left in the channel. *)
Lemma runs_recv_msg s m rest Q : msg_ok m → cn_error s = None → needs m ≤ cn_malloc s → cn_in s = encode m ++ rest →
  Q (answer_of m) (set_blocks (cn_blocks s + blocks_of m) (set_in rest s)) → runs (recv_kind (kind_of m)) s Q.
Proof.
  destruct m as [i|str|str|r err]; cbn [msg_ok encode kind_of recv_kind needs blocks_of answer_of]; intros Hok He Hm E HQ.
  - apply runs_bind, (runs_recv_int _ _ _ _ Hok E). call runs_has_error. simpl. rewrite He. step.
    rewrite Z.add_0_r in HQ. by destruct s.
  - destruct Hok as [_ Hl]. call runs_recv_chars; [done..|]. by apply runs_ret.
  - destruct Hok as [Hf Hl]. pose proof (zlen_nonneg str). rewrite <- app_assoc in E. unfold ctl_recv_wchars.
    apply runs_bind, runs_bind, (runs_recv_int _ (zlen str) _ _ ltac:(unfold is_int32; lia) E). call runs_has_error. simpl. rewrite He. simpl.
    rewrite bool_decide_false by lia. step; [apply bool_decide_true; lia|]. call runs_cmalloc; [done|]. simpl.
    unfold zlen. rewrite Nat2Z.id. eapply runs_recv_wchars_loop; [done|done|]. by apply runs_ret.
  - destruct Hok as [Hi Hc]. rewrite <- app_assoc in E. unfold ctl_recv_status.
    apply runs_bind, runs_bind, (runs_recv_int _ _ _ _ Hi E). call runs_has_error. simpl. rewrite He. simpl.
    destruct (bool_decide_reflect (r = -1)) as [->|Hne].
    + destruct (Hc eq_refl) as [_ Hl]. call (runs_recv_chars _ err rest); [done..|]. unfold ctl_error, cfree. step. step. step. step. step. step.
      simpl. rewrite He. simpl. rewrite Z.add_0_r in HQ. replace (cn_blocks s + 1 - 1) with (cn_blocks s) by lia.
      destruct s. simpl in *. by subst.
    + apply runs_ret. step. simpl. step. step. rewrite He. rewrite Z.add_0_r in HQ. destruct s. simpl in *. by subst.
Qed.
End receiving.

Definition total_blocks (ms : list ctl_msg) : Z := zsum (blocks_of <$> ms).



(** ** Expected strings *)

Section expected.
Implicit Types s : chan.

Lemma runs_expect_loop bs : ∀ s rest str r Q, cn_in s = bs ++ rest → (∀ l, str = Some l → ∃ l', l = l' ++ [0] ∧ Forall (λ c, c ≠ 0) l') →
  Q (match str with Some l => r && bool_decide (bs ++ [0] = l) | None => false end) (set_in rest s) →
  runs (expect_loop (length bs) str r) s Q.
Proof.
  induction bs as [|b bs IH]; intros s rest str r Q E Hs HQ; cbn [length expect_loop].
  - assert (set_in rest s = s) as Es. { simpl in E. rewrite <- E. by destruct s. } rewrite Es in HQ.
    destruct str as [l|]; [|by apply runs_ret]. destruct (Hs l eq_refl) as (l' & -> & Hf). destruct l' as [|c l']; simpl.
    + step. apply runs_ret. simpl in *. by rewrite andb_true_r in HQ.
    + step. apply runs_ret. apply Forall_cons in Hf as [Hc _]. rewrite bool_decide_false by done.
      rewrite (bool_decide_false ([0] = _)) in HQ by (intros [=]; congruence). by rewrite andb_false_r in HQ.
  - change 1 with (zlen [b]) at 1. apply runs_bind, (runs_read _ [b] (bs ++ rest)); [done|done|]. change (zlen [b]) with 1.
    apply runs_bind, runs_ctl_check; [lia|]. cbn [negb]. destruct str as [l|]; [|by eapply IH].
    destruct (Hs l eq_refl) as (l' & -> & Hf). destruct l' as [|c l']; cbn [app].
    + rewrite (bool_decide_true (0 = 0)) by done. eapply IH; [done|done|]. simpl.
      rewrite (bool_decide_false (_ = [0])) in HQ by (intros [= _ Ec]; by destruct bs). by rewrite andb_false_r in HQ.
    + apply Forall_cons in Hf as [Hc Hf]. rewrite (bool_decide_false (c = 0)) by done. eapply IH; [done|by intros ? [= <-]; eauto|].
      replace (_ && bool_decide (bs ++ [0] = l' ++ [0])) with (r && bool_decide ((b :: bs) ++ [0] = (c :: l') ++ [0])); [done|].
      destruct (decide (b = c)) as [->|Hne].
      * rewrite (bool_decide_true ([c] = [c])) by done. f_equal. apply bool_decide_ext. simpl. split; [by intros [= ->]|by intros ->].
      * rewrite (bool_decide_false ([b] = [c])) by congruence. rewrite (bool_decide_false (_ = (c :: l') ++ [0])); [by rewrite andb_false_r|].
        simpl. congruence.
Qed.
End expected.

(** An expected string: the answer of [ctl_expect_chars] is whether the string
    that is received is the one that is expected, neither longer nor shorter; it is
    consumed in both cases. *)
Theorem ctl_expect_correct s str recv rest :
  Forall (λ c, c ≠ 0) str → zlen recv < 2 ^ 31 → cn_error s = None → cn_in s = encode_chars recv ++ rest →
  runs (ctl_expect_chars (str ++ [0])) s (λ r s', r = bool_decide (recv = str) ∧ s' = set_in rest s).
Proof.
  intros Hf Hl He E. pose proof (zlen_nonneg recv). unfold encode_chars in E. rewrite <- app_assoc in E. unfold ctl_expect_chars.
  apply runs_bind, (runs_recv_int _ (zlen recv) _ _ ltac:(unfold is_int32; lia) E). call runs_has_error. simpl. rewrite He. simpl.
  rewrite bool_decide_false by lia. unfold zlen. rewrite Nat2Z.id. eapply runs_expect_loop; [done|by intros ? [= <-]; eauto|].
  split; [|done]. simpl. apply bool_decide_ext. split; [|by intros ->]. apply app_inj_tail.
Qed.

Lemma ctl_expect_correct_witness :
  let s bs := Chan (encode_chars bs ++ [1; 2]) [] 0 0 0 None in
  runs (ctl_expect_chars [79; 75; 0]) (s [79; 75]) (λ r _, r = true) ∧
  runs (ctl_expect_chars [79; 75; 0]) (s [79; 75; 46]) (λ r _, r = false) ∧
  runs (ctl_expect_chars [79; 75; 0]) (s [79]) (λ r _, r = false).
Proof.
  assert (Forall (λ c, c ≠ 0) [79; 75]) by (repeat constructor; done).
  split_and!.
  - eapply runs_mono; [by apply (ctl_expect_correct _ [79; 75] [79; 75] [1; 2])|by intros r ? [-> _]].
  - eapply runs_mono; [by apply (ctl_expect_correct _ [79; 75] [79; 75; 46] [1; 2])|by intros r ? [-> _]].
  - eapply runs_mono; [by apply (ctl_expect_correct _ [79; 75] [79] [1; 2])|by intros r ? [-> _]].
Defined.

(** ** Errors *)

(** A message that is cut: the integer fails with an error; a string fails too, and
    the block for its characters is not freed. *)
Theorem ctl_recv_truncated s bs len :
  cn_error s = None → 0 < len < 2 ^ 31 - 1 → zlen bs < len → len + 1 ≤ cn_malloc s →
  cn_in s = le_bytes 4 (u32 len) ++ bs →
  runs ctl_recv_chars s (λ r s', r = None ∧ is_Some (cn_error s') ∧ cn_in s' = [] ∧ cn_blocks s' = cn_blocks s + 1).
Proof.
  intros He Hl Hb Hm E. pose proof (zlen_nonneg bs). unfold ctl_recv_chars.
  apply runs_bind, (runs_recv_int _ len _ _ ltac:(unfold is_int32; lia) E). call runs_has_error. simpl. rewrite He. simpl.
  step; [apply bool_decide_true; lia|]. rewrite u64_small by lia. call runs_cmalloc; [done|]. simpl. rewrite u64_small by lia.
  unfold read. apply runs_bind. step. rewrite bool_decide_false by lia. simpl. rewrite ztake_ge by lia. step. step. cbn [cn_in set_in set_blocks]. rewrite zdrop_ge by lia.
  unfold ctl_check_error. apply runs_bind. destruct (bool_decide_reflect (zlen bs = 0)) as [Hz|Hz]; simpl.
  - unfold ctl_error. step. step. apply runs_ret. simpl. rewrite He. split_and!; [done|by eexists|done|done].
  - rewrite bool_decide_false by lia. rewrite bool_decide_false by lia. simpl. unfold ctl_error. step. step. apply runs_ret. simpl. rewrite He. split_and!; [done|by eexists|done|done].
Qed.

(** ** Outside the intended domain *)

(** An empty string: its length is sent, then the write of no bytes is taken for a
    failure; a status without a text fails in the same way, and so does its
    reception. *)
Theorem empty_string_not_sent :
  runs (ctl_send_chars [0] size_max) (Chan [] [] 100 100 0 None) (λ ok s', ok = false ∧ cn_out s' = [0; 0; 0; 0]) ∧
  runs (ctl_send_status (-1) None) (Chan [] [] 100 100 0 None) (λ ok _, ok = false) ∧
  runs ctl_recv_chars (Chan [0; 0; 0; 0; 1; 2] [] 0 100 0 None) (λ r s', r = None ∧ cn_error s' = Some "end of file"%string).
Proof. split_and!; (eapply runs_eq; [vm_compute; reflexivity|done]). Qed.

(** The length of a wide string is sent as it was passed, the characters up to the
    terminator: the receiver takes the others for the next message. *)
Theorem wide_length_ignored :
  runs (ctl_send_wchars [65; 66; 67; 0] 1) (Chan [] [] 100 100 0 None)
    (λ ok s', ok = true ∧ cn_out s' = [1; 0; 0; 0; 65; 0; 0; 0; 66; 0; 0; 0; 67; 0; 0; 0]).
Proof. eapply runs_eq; [vm_compute; reflexivity|done]. Qed.
