(* ===== verification/Engine.v ===== *)
(** * Launching work on an engine thread: lib/haka/engine.c

    An engine thread runs the loop of src/haka/thread.c: it receives a packet,
    handles it, and then runs what other threads have asked it to run. Another thread
    asks with [engine_thread_remote_launch]: it puts a record that lives on its own
    stack into the list of the thread, wakes the thread up through a pipe, and waits
    on the semaphore of the record.

    The threads are interleaved at every access to something they share: a lock, the
    atomic counter, the pipe, the list, a semaphore. Each of the three programs is a
    set of program points; its step function carries out the access at one point and
    gives the next point, [None] when the thread has to wait there. A step that reads a
    record which is gone, or the thread after it was freed, has no result.

    A callback with its data is a value of [J]; it changes the world [W] of the engine
    thread (its Lua state) and may raise an error. *)

From S2P Require Import Prelude List2.

(** ** Data *)

Inductive thread_status := THREAD_RUNNING | THREAD_WAITING | THREAD_DEBUG | THREAD_DEFUNC | THREAD_STOPPED.

(** The record of a launch. [rl_sync] is the value of its semaphore. *)
Record remote_launch (J : Type) := RL {
  rl_callback : J; rl_state : Z; rl_error : option string; rl_own_error : bool; rl_sync : Z }.
#[global] Arguments RL {J} _ _ _ _ _.
#[global] Arguments rl_callback {J} _.
#[global] Arguments rl_state {J} _.
#[global] Arguments rl_error {J} _.
#[global] Arguments rl_own_error {J} _.
#[global] Arguments rl_sync {J} _.

Inductive owner := by_engine | by_launch (p : loc).
#[export] Instance owner_eq_dec : EqDecision owner.
Proof. solve_decision. Defined.

(** [et_fd] holds the bytes that are in the pipe, [et_launches] is the head of the list. *)
Record engine_thread := ET {
  et_status : thread_status; et_lock : option owner; et_count : Z; et_fd : list Z; et_launches : loc }.

(** The points of [engine_thread_remote_launch]. *)
Inductive launch_pc (J : Type) :=
  | L_init (callback : J) | L_lock | L_inc | L_write | L_insert | L_unlock | L_wait | L_result
  | L_return (error : option string).
#[global] Arguments L_init {J} _.
#[global] Arguments L_lock {J}.
#[global] Arguments L_inc {J}.
#[global] Arguments L_write {J}.
#[global] Arguments L_insert {J}.
#[global] Arguments L_unlock {J}.
#[global] Arguments L_wait {J}.
#[global] Arguments L_result {J}.
#[global] Arguments L_return {J} _.

(** The points of the main loop with [engine_thread_check_remote_launch]. *)
Inductive engine_pc :=
  | E_receive | E_empty | E_lock | E_begin | E_loop (iter : loc) | E_run (iter : loc) | E_dec (iter : loc)
  | E_read (iter : loc) | E_erase (iter : loc) | E_post (iter next : loc) | E_unlock | E_stop | E_finished.

#[export] Instance engine_pc_eq_dec : EqDecision engine_pc.
Proof. solve_decision. Defined.

(** What ends the wait for a packet: the pipe only, a packet, the end of the capture. *)
Inductive arrival := Nothing | Packet | Closed.

(** The points of [thread_pool_stop]. *)
Inductive stop_pc := S_idle | S_inc | S_write | S_done.

Record sys (J W : Type) := Sys {
  thread : option engine_thread;
  links : lmem;
  frames : gmap loc (remote_launch J);
  launches : gmap loc (launch_pc J);
  engine_at : engine_pc;
  stop_at : stop_pc;
  stop : bool;
  world : W;
  pending : option string;
  interrupt_errors : nat }.
#[global] Arguments Sys {J W} _ _ _ _ _ _ _ _ _ _.
#[global] Arguments thread {J W} _.
#[global] Arguments links {J W} _.
#[global] Arguments frames {J W} _.
#[global] Arguments launches {J W} _.
#[global] Arguments engine_at {J W} _.
#[global] Arguments stop_at {J W} _.
#[global] Arguments stop {J W} _.
#[global] Arguments world {J W} _.
#[global] Arguments pending {J W} _.
#[global] Arguments interrupt_errors {J W} _.

Section engine.
Context {J W : Type} (run_job : J → W → W * option string).
Abbreviation state := (sys J W).
Abbreviation EM := (M (sys J W)).

(** ** Access *)

Definition set_thread (t : option engine_thread) (s : state) : state :=
  Sys t (links s) (frames s) (launches s) (engine_at s) (stop_at s) (stop s) (world s) (pending s) (interrupt_errors s).
Definition set_links (l : lmem) (s : state) : state :=
  Sys (thread s) l (frames s) (launches s) (engine_at s) (stop_at s) (stop s) (world s) (pending s) (interrupt_errors s).
Definition set_frames (f : gmap loc (remote_launch J)) (s : state) : state :=
  Sys (thread s) (links s) f (launches s) (engine_at s) (stop_at s) (stop s) (world s) (pending s) (interrupt_errors s).
Definition set_launch (p : loc) (pc : launch_pc J) (s : state) : state :=
  Sys (thread s) (links s) (frames s) (<[p := pc]> (launches s)) (engine_at s) (stop_at s) (stop s) (world s) (pending s)
    (interrupt_errors s).
Definition set_engine (pc : engine_pc) (s : state) : state :=
  Sys (thread s) (links s) (frames s) (launches s) pc (stop_at s) (stop s) (world s) (pending s) (interrupt_errors s).
Definition set_stop (pc : stop_pc) (b : bool) (s : state) : state :=
  Sys (thread s) (links s) (frames s) (launches s) (engine_at s) pc b (world s) (pending s) (interrupt_errors s).
Definition set_world (w : W) (e : option string) (s : state) : state :=
  Sys (thread s) (links s) (frames s) (launches s) (engine_at s) (stop_at s) (stop s) w e (interrupt_errors s).
Definition log_interrupt_error : EM unit := modify (λ s,
  Sys (thread s) (links s) (frames s) (launches s) (engine_at s) (stop_at s) (stop s) (world s) (pending s)
    (S (interrupt_errors s))).

Definition rd_thread : EM engine_thread := t ← gets thread; deref t.
Definition wr_thread (t : engine_thread) : EM unit := modify (set_thread (Some t)).
Definition rd_frame (p : loc) : EM (remote_launch J) := f ← gets (λ s, frames s !! p); deref f.
Definition wr_frame (p : loc) (f : remote_launch J) : EM unit := modify (λ s, set_frames (<[p := f]> (frames s)) s).
Definition elnk {A} (m : M lmem A) : EM A := zoom links set_links m.

(** The stack frame of a call is left. *)
Definition free_frame (p : loc) : EM unit :=
  modify (λ s, set_links (delete p (links s)) (set_frames (delete p (frames s)) s)).

(** [mutex_lock]: the value says whether the lock was taken. No thread takes it twice. *)
Definition mutex_lock (o : owner) : EM bool :=
  t ← rd_thread;
  match et_lock t with
  | Some _ => ret false
  | None => wr_thread (ET (et_status t) (Some o) (et_count t) (et_fd t) (et_launches t));; ret true
  end.
Definition mutex_unlock : EM unit :=
  t ← rd_thread; wr_thread (ET (et_status t) None (et_count t) (et_fd t) (et_launches t)).

(** The new value of the counter, 32 bits wide. *)
Definition atomic_inc : EM Z :=
  t ← rd_thread; let c := u32 (et_count t + 1) in
  wr_thread (ET (et_status t) (et_lock t) c (et_fd t) (et_launches t));; ret c.
Definition atomic_dec : EM Z :=
  t ← rd_thread; let c := u32 (et_count t - 1) in
  wr_thread (ET (et_status t) (et_lock t) c (et_fd t) (et_launches t));; ret c.

Definition interrupt_magic : Z := 170.
Definition pipe_size : Z := 65536.

(** The second part of [engine_thread_interrupt_begin] and [engine_thread_interrupt_end]:
    one byte is written to or read from the pipe, which does not block. *)
Definition interrupt_write : EM unit :=
  t ← rd_thread;
  if bool_decide (zlen (et_fd t) < pipe_size) then
    wr_thread (ET (et_status t) (et_lock t) (et_count t) (et_fd t ++ [interrupt_magic]) (et_launches t))
  else log_interrupt_error.

Definition interrupt_read : EM unit :=
  t ← rd_thread;
  match et_fd t with
  | [] => log_interrupt_error
  | byte :: fd =>
      wr_thread (ET (et_status t) (et_lock t) (et_count t) fd (et_launches t));;
      if bool_decide (byte = interrupt_magic) then skip else log_interrupt_error
  end.

Definition engine_thread_update_status (status : thread_status) : EM thread_status :=
  t ← rd_thread;
  wr_thread (ET status (et_lock t) (et_count t) (et_fd t) (et_launches t));; ret (et_status t).

Definition semaphore_post (p : loc) : EM unit :=
  f ← rd_frame p; wr_frame p (RL (rl_callback f) (rl_state f) (rl_error f) (rl_own_error f) (rl_sync f + 1)).

(** The value says whether the semaphore was taken. *)
Definition semaphore_wait (p : loc) : EM bool :=
  f ← rd_frame p;
  if bool_decide (0 < rl_sync f) then
    wr_frame p (RL (rl_callback f) (rl_state f) (rl_error f) (rl_own_error f) (rl_sync f - 1));; ret true
  else ret false.

Definition remote_launch_release (current : loc) : EM unit := semaphore_post current.

(** ** The calling thread *)

Definition engine_thread_remote_launch (new : loc) (pc : launch_pc J) : EM (option (launch_pc J)) :=
  match pc with
  | L_init callback =>
      elnk (list2_elem_init new);; wr_frame new (RL callback (-1) None false 0);; ret (Some L_lock)
  | L_lock => taken ← mutex_lock (by_launch new); ret (if taken : bool then Some L_inc else None)
  | L_inc => c ← atomic_inc; ret (Some (if bool_decide (c = 1) then L_write else L_insert))
  | L_write => interrupt_write;; ret (Some L_insert)
  | L_insert => t ← rd_thread; _ ← elnk (list2_insert (list2_end (et_launches t)) new); ret (Some L_unlock)
  | L_unlock => mutex_unlock;; ret (Some L_wait)
  | L_wait => taken ← semaphore_wait new; ret (if taken : bool then Some L_result else None)
  | L_result => f ← rd_frame new; free_frame new;; ret (Some (L_return (rl_error f)))
  | L_return _ => ret None
  end.

(** ** The engine thread *)

(** The callback of [iter] runs and its error is handed to the caller. *)
Definition run_launch (iter : loc) : EM unit :=
  f ← rd_frame iter;
  w ← gets world;
  let '(w', e) := run_job (rl_callback f) w in
  p ← gets pending;
  match (if p is Some m then Some m else e) with
  | Some m => modify (set_world w' None);; wr_frame iter (RL (rl_callback f) (-1) (Some m) true (rl_sync f))
  | None => modify (set_world w' None);; wr_frame iter (RL (rl_callback f) 0 (rl_error f) (rl_own_error f) (rl_sync f))
  end.

Definition engine_thread_check_remote_launch (pc : engine_pc) : EM (option engine_pc) :=
  match pc with
  | E_empty =>
      t ← rd_thread; empty ← elnk (list2_empty (et_launches t));
      ret (Some (if empty : bool then E_stop else E_lock))
  | E_lock => taken ← mutex_lock by_engine; ret (if taken : bool then Some E_begin else None)
  | E_begin => t ← rd_thread; b ← elnk (list2_begin (et_launches t)); b ← deref b; ret (Some (E_loop b))
  | E_loop iter =>
      t ← rd_thread;
      ret (Some (if bool_decide (iter = list2_end (et_launches t)) then E_unlock else E_run iter))
  | E_run iter => run_launch iter;; ret (Some (E_dec iter))
  | E_dec iter => c ← atomic_dec; ret (Some (if bool_decide (c = 0) then E_read iter else E_erase iter))
  | E_read iter => interrupt_read;; ret (Some (E_erase iter))
  | E_erase iter => n ← elnk (list2_erase iter); n ← deref n; ret (Some (E_post iter n))
  | E_post iter next => remote_launch_release iter;; ret (Some (E_loop next))
  | E_unlock => mutex_unlock;; ret (Some E_stop)
  | _ => ret None
  end.

(** [thread_main_loop]. The wait for a packet ends when a packet arrives or the pipe can
    be read. What is done with the packet is not part of this model: it is taken to leave no
    error pending, which the next callback would be charged with. *)
Definition thread_main_loop (a : arrival) (pc : engine_pc) : EM (option engine_pc) :=
  match pc with
  | E_receive =>
      t ← rd_thread;
      match a with
      | Nothing =>
          if bool_decide (et_fd t = []) then ret None
          else _ ← engine_thread_update_status THREAD_RUNNING; ret (Some E_empty)
      | Packet => _ ← engine_thread_update_status THREAD_RUNNING; ret (Some E_empty)
      | Closed => _ ← engine_thread_update_status THREAD_STOPPED; ret (Some E_finished)
      end
  | E_stop =>
      _ ← engine_thread_update_status THREAD_WAITING;
      b ← gets stop;
      if b : bool then _ ← engine_thread_update_status THREAD_STOPPED; ret (Some E_finished) else ret (Some E_receive)
  | E_finished => ret None
  | _ => engine_thread_check_remote_launch pc
  end.

(** [thread_pool_stop] with one thread and [force] 1; the main thread does it once. *)
Definition thread_pool_stop (pc : stop_pc) : EM (option (stop_pc * bool)) :=
  match pc with
  | S_idle => t ← gets thread; ret (Some (if is_null t then S_done else S_inc, true))
  | S_inc => c ← atomic_inc; ret (Some (if bool_decide (c = 1) then S_write else S_done, true))
  | S_write => interrupt_write;; ret (Some (S_done, true))
  | S_done => ret None
  end.

(** ** The end of the thread *)

Fixpoint abort_loop (fuel : nat) (end_ iter : loc) : EM unit :=
  if bool_decide (iter = end_) then skip else
  match fuel with
  | O => stuck
  | S fuel =>
      f ← rd_frame iter;
      wr_frame iter (RL (rl_callback f) (-1) (Some "aborted") false (rl_sync f));;
      n ← elnk (list2_erase iter);
      n ← deref n;
      remote_launch_release iter;;
      abort_loop fuel end_ n
  end.

(** It runs under the lock, the woken callers only look at their own records. *)
Definition engine_thread_cleanup : EM unit :=
  taken ← mutex_lock by_engine;
  c_assert taken;;
  t ← rd_thread;
  b ← elnk (list2_begin (et_launches t));
  b ← deref b;
  fuel ← gets (λ s, S (size (frames s)));
  abort_loop fuel (list2_end (et_launches t)) b;;
  mutex_unlock;;
  modify (set_thread None).

(** ** The threads together *)

(** What can be seen of a step: a call starts, a launch is inserted, its callback runs, a
    packet arrives or the capture ends, the program is stopped, the thread is freed. *)
Inductive event :=
  | Called (p : loc) (j : J) | Inserted (p : loc) (j : J) | Ran (p : loc) (j : J) | Arrived (a : arrival)
  | Stopping | Freed.

(** An assumption on the main thread: it frees the thread when it has finished, is not being
    stopped and no call is on its way to it, that is, every call has put its record into the
    list. The code does not check this, the order of the program's exit has to provide it. *)
Definition can_free (s : state) : Prop :=
  thread s ≠ None ∧ engine_at s = E_finished ∧ (stop_at s = S_idle ∨ stop_at s = S_done) ∧
  map_Forall (λ _ pc, pc = L_wait ∨ pc = L_result ∨ ∃ e, pc = L_return e) (launches s).

(** A call starts while the thread is in the table of [engine_thread_byid] and has a new
    record; a machine has fewer than 2^31 stacks. No thread is cancelled: neither a caller
    that waits (as the end of the control server does) nor the engine thread (as the forced
    end of the pool does). *)
Inductive estep : state → list event → state → Prop :=
  | step_new p j s :
      thread s ≠ None → launches s !! p = None → frames s !! p = None → links s !! p = None →
      estep s [Called p j] (set_launch p (L_init j) s)
  | step_init p j pc s s' :
      launches s !! p = Some (L_init j) → Z.of_nat (size (frames s)) < 2 ^ 31 →
      engine_thread_remote_launch p (L_init j) s = Some (Some pc, s') →
      estep s [] (set_launch p pc s')
  | step_insert p pc f s s' :
      launches s !! p = Some L_insert → frames s !! p = Some f →
      engine_thread_remote_launch p L_insert s = Some (Some pc, s') →
      estep s [Inserted p (rl_callback f)] (set_launch p pc s')
  | step_launch p pc pc' s s' :
      launches s !! p = Some pc → (∀ j, pc ≠ L_init j) → pc ≠ L_insert →
      engine_thread_remote_launch p pc s = Some (Some pc', s') →
      estep s [] (set_launch p pc' s')
  | step_run iter pc f s s' :
      engine_at s = E_run iter → frames s !! iter = Some f →
      thread_main_loop Nothing (E_run iter) s = Some (Some pc, s') →
      estep s [Ran iter (rl_callback f)] (set_engine pc s')
  | step_engine a pc s s' :
      (∀ iter, engine_at s ≠ E_run iter) →
      thread_main_loop a (engine_at s) s = Some (Some pc, s') →
      estep s (match a with Nothing => [] | _ => [Arrived a] end) (set_engine pc s')
  | step_stop pc b s s' :
      thread_pool_stop (stop_at s) s = Some (Some (pc, b), s') →
      estep s [Stopping] (set_stop pc b s')
  | step_cleanup s s' :
      can_free s → engine_thread_cleanup s = Some (tt, s') →
      estep s [Freed] s'.

Inductive esteps (s : state) : list event → state → Prop :=
  | esteps_refl : esteps s [] s
  | esteps_step tr s1 ev s2 : esteps s tr s1 → estep s1 ev s2 → esteps s (tr ++ ev) s2.

(** Some thread is at a point where the code reads memory that is gone. *)
Definition crashes (s : state) : Prop :=
  (∃ p pc, launches s !! p = Some pc ∧ engine_thread_remote_launch p pc s = None) ∨
  (∃ a, thread_main_loop a (engine_at s) s = None) ∨
  thread_pool_stop (stop_at s) s = None ∨
  (can_free s ∧ engine_thread_cleanup s = None).

(** [engine_thread_init], then the thread waits for its first packet. *)
Definition engine_thread_init (head : loc) (w : W) : state :=
  Sys (Some (ET THREAD_WAITING None 0 [] head)) {[ head := Elem (Some head) (Some head) ]} ∅ ∅ E_receive S_idle false w None 0.
End engine.
