(* ===== verification/EngineInv.v ===== *)
(** * The invariant of the threads of Engine

    [inv] relates the list, the records, the lock, the counter and the pipe to the
    program points of all threads, and the world to the launches that have run. Every
    step of every thread preserves it. *)

From S2P Require Import Prelude List2 Engine.

(** Reduces a step of the code in a state of which [Ht] is an equation. *)
Ltac run_step Ht :=
  unfold rd_thread, wr_thread, rd_frame, wr_frame, elnk, free_frame, log_interrupt_error, bind, ret, gets, modify, deref,
    c_assert, skip, zoom in *; simpl in *; rewrite ?Ht in *; simpl in *.

(** Calls other than [p] are looked up as before. *)
Ltac at_call p q := destruct (decide (q = p)) as [->|?]; [rewrite ?lookup_insert_eq, ?lookup_delete_eq|
  rewrite ?lookup_insert_ne, ?lookup_delete_ne by done].

Section spec.
Context {J W : Type} (run_job : J → W → W * option string).
Implicit Types s : sys J W.

(** ** The sequential view *)

Definition inserted (tr : list (event (J := J))) : list (loc * J) :=
  omap (λ ev, match ev with Inserted p j => Some (p, j) | _ => None end) tr.
Definition ran (tr : list (event (J := J))) : list (loc * J) :=
  omap (λ ev, match ev with Ran p j => Some (p, j) | _ => None end) tr.

(** The world after the launches [rs], one after the other. *)
Definition after (w : W) (rs : list (loc * J)) : W := foldl (λ w pj, (run_job pj.2 w).1) w rs.

(** [e] is the error of the launch [p] of the sequence [rs]. *)
Definition answers (w : W) (rs : list (loc * J)) (p : loc) (e : option string) : Prop :=
  ∃ rs1 j rs2, rs = rs1 ++ (p, j) :: rs2 ∧ e = (run_job j (after w rs1)).2.

Lemma answers_app w rs rs' p e : answers w rs p e → answers w (rs ++ rs') p e.
Proof. intros (rs1 & j & rs2 & -> & ->). exists rs1, j, (rs2 ++ rs'). by rewrite <- app_assoc. Qed.

Lemma answers_last w rs p j : answers w (rs ++ [(p, j)]) p (run_job j (after w rs)).2.
Proof. by exists rs, j, []. Qed.

Lemma answers_in w rs p e : answers w rs p e → p ∈ rs.*1.
Proof. intros (rs1 & j & rs2 & -> & _). rewrite fmap_app. set_solver. Qed.

Lemma after_last w rs p j : after w (rs ++ [(p, j)]) = (run_job j (after w rs)).1.
Proof. unfold after. by rewrite foldl_app. Qed.

(** ** The invariant *)

Definition launch_locked (pc : launch_pc J) : bool :=
  match pc with L_inc | L_write | L_insert | L_unlock => true | _ => false end.
Definition engine_locked (pc : engine_pc) : bool :=
  match pc with E_receive | E_empty | E_lock | E_stop | E_finished => false | _ => true end.

(** The launch that the engine has run and not yet released, the launches of the list
    that it has not run, those whose interrupt it has not ended. *)
Definition current (pc : engine_pc) : option loc :=
  match pc with E_dec p | E_read p | E_erase p | E_post p _ => Some p | _ => None end.
Definition to_run (pc : engine_pc) (L : list loc) : list loc :=
  match pc with E_dec _ | E_read _ | E_erase _ => tail L | _ => L end.
Definition to_end (pc : engine_pc) (L : list loc) : list loc :=
  match pc with E_read _ | E_erase _ => tail L | _ => L end.

Definition engine_ok (hd : loc) (pc : engine_pc) (L : list loc) : Prop :=
  match pc with
  | E_loop it => it = at_head hd L
  | E_run it | E_dec it | E_read it | E_erase it => ∃ L', L = it :: L'
  | E_post it n => n = at_head hd L ∧ it ∉ L
  | E_unlock => L = []
  | _ => True
  end.

Definition new_frame (j : J) : remote_launch J := RL j (-1) None false 0.

Section at_time.
Context (w0 : W) (ins rs : list (loc * J)) (freed : bool) (epc : engine_pc) (L : list loc).

(** The answer that a caller gets: that of its callback, or none when the thread ended. *)
Definition fate (p : loc) (e : option string) : Prop :=
  answers w0 rs p e ∨ freed = true ∧ p ∈ ins.*1 ∧ p ∉ rs.*1 ∧ e = Some "aborted"%string.

Definition waiting (p : loc) (f : remote_launch J) : Prop :=
  (p ∈ to_run epc L ∧ ∃ j, f = new_frame j ∧ (p, j) ∈ ins) ∨
  (current epc = Some p ∧ rl_sync f = 0 ∧ answers w0 rs p (rl_error f)) ∨
  (p ∉ L ∧ current epc ≠ Some p ∧ rl_sync f = 1 ∧ fate p (rl_error f)).

Definition launch_ok (fr : gmap loc (remote_launch J)) (ln : lmem) (p : loc) (pc : launch_pc J) : Prop :=
  match pc with
  | L_init _ => fr !! p = None ∧ ln !! p = None ∧ p ∉ ins.*1
  | L_lock | L_inc | L_write | L_insert =>
      (∃ j, fr !! p = Some (new_frame j)) ∧ ln !! p = Some (Elem None None) ∧ p ∉ ins.*1
  | L_unlock | L_wait => ∃ f, fr !! p = Some f ∧ waiting p f
  | L_result => ∃ f, fr !! p = Some f ∧ p ∉ L ∧ current epc ≠ Some p ∧ fate p (rl_error f)
  | L_return e => fr !! p = None ∧ p ∉ L ∧ current epc ≠ Some p ∧ fate p e
  end.
End at_time.

(** What the counter and the pipe owe to the call that holds the lock and to the stop. *)
Definition holder (la : gmap loc (launch_pc J)) (t : engine_thread) : option (launch_pc J) :=
  match et_lock t with Some (by_launch p) => la !! p | _ => None end.
Definition inc_done (pc : option (launch_pc J)) : Z := match pc with Some L_write | Some L_insert => 1 | _ => 0 end.
Definition to_write (pc : option (launch_pc J)) : Z := match pc with Some L_write => 1 | _ => 0 end.
Definition stop_inc (pc : stop_pc) : Z := match pc with S_write | S_done => 1 | _ => 0 end.
Definition stop_write (pc : stop_pc) : Z := match pc with S_write => 1 | _ => 0 end.
Definition to_read (pc : engine_pc) : Z := match pc with E_read _ => 1 | _ => 0 end.
Definition positive_count (c : Z) : Z := if bool_decide (0 < c) then 1 else 0.

Record thread_ok (la : gmap loc (launch_pc J)) (epc : engine_pc) (spc : stop_pc) (hd : loc) (L : list loc) (t : engine_thread) : Prop := {
  t_head : et_launches t = hd;
  t_engine : engine_locked epc = true ↔ et_lock t = Some by_engine;
  t_launch : ∀ p pc, la !! p = Some pc → launch_locked pc = true ↔ et_lock t = Some (by_launch p);
  t_owner : ∀ p, et_lock t = Some (by_launch p) → is_Some (la !! p);
  t_count : et_count t = zlen (to_end epc L) + inc_done (holder la t) + stop_inc spc;
  t_pipe : zlen (et_fd t) + to_write (holder la t) + stop_write spc = positive_count (et_count t) + to_read epc;
  t_magic : Forall (λ b, b = interrupt_magic) (et_fd t);
}.

Record inv (w0 : W) (hd : loc) (tr : list (event (J := J))) (s : sys J W) (L : list loc) : Prop := {
  i_list : dlist (links s) hd L;
  i_head : launches s !! hd = None;
  i_engine : engine_ok hd (engine_at s) L;
  i_launches : map_Forall (launch_ok w0 (inserted tr) (ran tr) (is_null (thread s)) (engine_at s) L (frames s) (links s)) (launches s);
  i_listed : ∀ p, p ∈ L ∨ current (engine_at s) = Some p → launches s !! p = Some L_unlock ∨ launches s !! p = Some L_wait;
  i_order : ∃ rest, inserted tr = ran tr ++ rest ∧ (is_null (thread s) = false → rest.*1 = to_run (engine_at s) L);
  i_nodup : NoDup (inserted tr).*1;
  i_size : Z.of_nat (size (frames s)) ≤ 2 ^ 31;
  i_known : ∀ p, p ∈ (inserted tr).*1 → is_Some (launches s !! p);
  i_world : world s = after w0 (ran tr);
  i_pending : pending s = None;
  i_errors : interrupt_errors s = 0%nat;
  i_thread : ∀ t, thread s = Some t → thread_ok (launches s) (engine_at s) (stop_at s) hd L t;
  i_stop : stop s = false → stop_at s = S_idle;
  i_freed : thread s = None → engine_at s = E_finished ∧ (stop_at s = S_idle ∨ stop_at s = S_done) ∧ L = [] ∧
    map_Forall (λ _ pc, pc = L_wait ∨ pc = L_result ∨ ∃ e, pc = L_return e) (launches s);
}.

(** ** Steps of the callers *)

Lemma inv_launch w0 hd tr s L p pc : inv w0 hd tr s L → launches s !! p = Some pc →
  launch_ok w0 (inserted tr) (ran tr) (is_null (thread s)) (engine_at s) L (frames s) (links s) p pc.
Proof. intros I H. by apply (i_launches _ _ _ _ _ I p pc). Qed.

(** A launch that is not inserted is not in the list. *)
Lemma not_listed w0 hd tr s L p pc : inv w0 hd tr s L → launches s !! p = Some pc →
  pc ≠ L_unlock → pc ≠ L_wait → p ∉ L ∧ current (engine_at s) ≠ Some p.
Proof.
  intros I H N1 N2. split; intros Hp; destruct (i_listed _ _ _ _ _ I p) as [E|E]; try (by auto); congruence.
Qed.

(** The call [p] moves between points with the same record. *)
Lemma move_call w0 hd tr s L p pc pc' t t' :
  inv w0 hd tr s L → launches s !! p = Some pc → thread s = Some t →
  (∀ fr ln, launch_ok w0 (inserted tr) (ran tr) false (engine_at s) L fr ln p pc →
    launch_ok w0 (inserted tr) (ran tr) false (engine_at s) L fr ln p pc') →
  (pc = L_unlock → pc' = L_wait) → pc ≠ L_wait →
  thread_ok (<[p := pc']> (launches s)) (engine_at s) (stop_at s) hd L t' →
  inv w0 hd tr (set_launch p pc' (set_thread (Some t') s)) L.
Proof.
  intros I Hp Ht Hok Hu Hw T. pose proof (inv_launch _ _ _ _ _ _ _ I Hp) as O. destruct I. split; simpl in *; try done.
  - rewrite lookup_insert_ne; [done|]. intros ->. congruence.
  - rewrite Ht in *. simpl in *. apply map_Forall_insert_2; [by apply Hok|done].
  - intros q Hq. destruct (decide (q = p)) as [->|Hne]; [|rewrite lookup_insert_ne by done; auto].
    rewrite lookup_insert_eq. destruct (i_listed0 p Hq) as [E|E]; rewrite Hp in E; simplify_eq; auto.
    rewrite Hu by done. auto.
  - rewrite Ht in *. done.
  - intros q Hq. destruct (decide (q = p)) as [->|Hne]; [rewrite lookup_insert_eq; eauto|].
    rewrite lookup_insert_ne by done. auto.
  - intros t1 [= <-]. done.
Qed.

Lemma holder_is la t p pc : et_lock t = Some (by_launch p) → la !! p = Some pc → holder la t = Some pc.
Proof. intros Hl Hp. unfold holder. by rewrite Hl. Qed.
Lemma holder_none la t : (∀ p, et_lock t ≠ Some (by_launch p)) → holder la t = None.
Proof. intros Hl. unfold holder. destruct (et_lock t) as [[]|]; [done|naive_solver|done]. Qed.

(** The call [p] that holds the lock moves and keeps it. *)
Lemma thread_ok_held la epc spc hd L L' t p pc pc' c fd :
  thread_ok la epc spc hd L t → la !! p = Some pc → launch_locked pc = true → launch_locked pc' = true →
  c - inc_done (Some pc') - zlen (to_end epc L') = et_count t - inc_done (Some pc) - zlen (to_end epc L) →
  zlen fd + to_write (Some pc') - positive_count c =
    zlen (et_fd t) + to_write (Some pc) - positive_count (et_count t) →
  Forall (λ b, b = interrupt_magic) fd →
  thread_ok (<[p := pc']> la) epc spc hd L' (ET (et_status t) (et_lock t) c fd (et_launches t)).
Proof.
  intros [] Hp Hl Hl' Hc Hf Hm. assert (et_lock t = Some (by_launch p)) as Hlk by (by apply (t_launch0 p pc)).
  rewrite (holder_is la t p pc) in * by done. split; simpl; try done.
  - intros q qc. destruct (decide (q = p)) as [->|Hne].
    + rewrite lookup_insert_eq. intros [= <-]. done.
    + rewrite lookup_insert_ne by done. intros Hq. rewrite <- (t_launch0 q qc Hq). done.
  - intros q Hq. simplify_eq. rewrite lookup_insert_eq. eauto.
  - rewrite (holder_is _ _ p pc'); [lia|done|apply lookup_insert_eq].
  - rewrite (holder_is _ _ p pc'); [lia|done|apply lookup_insert_eq].
Qed.

(** A call moves without the lock. *)
Lemma thread_ok_free la epc spc hd L t p pc' :
  thread_ok la epc spc hd L t → (∀ pc, la !! p = Some pc → launch_locked pc = false) → launch_locked pc' = false →
  thread_ok (<[p := pc']> la) epc spc hd L t.
Proof.
  intros [] Hp Hl. assert (et_lock t ≠ Some (by_launch p)) as Hlk.
  { intros E. destruct (t_owner0 p E) as [pc Hpc]. pose proof (Hp pc Hpc). apply (t_launch0 p pc) in E; congruence. }
  assert (holder (<[p := pc']> la) t = holder la t) as Eh.
  { unfold holder. destruct (et_lock t) as [[|q]|]; [done| |done]. apply lookup_insert_ne. congruence. }
  split; try done; rewrite ?Eh; try done.
  - intros q qc. destruct (decide (q = p)) as [->|Hne].
    + rewrite lookup_insert_eq. intros [= <-]. rewrite Hl. naive_solver.
    + rewrite lookup_insert_ne by done. auto.
  - intros q E. rewrite lookup_insert_ne by congruence. auto.
Qed.

Lemma listed_size w0 hd tr s L : inv w0 hd tr s L → zlen L ≤ 2 ^ 31.
Proof.
  intros I. pose proof (i_size _ _ _ _ _ I). assert (length L ≤ size (frames s))%nat; [|unfold zlen; lia].
  pose proof (dlist_nodup _ _ _ (i_list _ _ _ _ _ I)) as [_ Hn]%NoDup_cons.
  rewrite <- size_dom, <- (size_list_to_set (C := gset loc)) by done. apply subseteq_size. intros q Hq%elem_of_list_to_set.
  apply elem_of_dom. destruct (i_listed _ _ _ _ _ I q) as [E|E]; [by left|..];
    apply (inv_launch _ _ _ _ _ _ _ I) in E as (f & ? & _); eauto.
Qed.

(** The counter is in range. *)
Lemma count_range w0 hd tr s L t : inv w0 hd tr s L → thread s = Some t → 0 ≤ et_count t ≤ 2 ^ 31 + 2.
Proof.
  intros I Ht. destruct (i_thread _ _ _ _ _ I t Ht). pose proof (listed_size _ _ _ _ _ I).
  assert (0 ≤ zlen (to_end (engine_at s) L) ≤ zlen L).
  { unfold zlen. destruct (engine_at s), L; simpl; lia. }
  assert (0 ≤ inc_done (holder (launches s) t) ≤ 1) by (destruct (holder (launches s) t) as [[]|]; simpl; lia).
  assert (0 ≤ stop_inc (stop_at s) ≤ 1) by (destruct (stop_at s); simpl; lia). lia.
Qed.

Lemma pipe_range w0 hd tr s L t : inv w0 hd tr s L → thread s = Some t → zlen (et_fd t) ≤ 2.
Proof.
  intros I Ht. destruct (i_thread _ _ _ _ _ I t Ht).
  assert (0 ≤ to_write (holder (launches s) t)) by (destruct (holder (launches s) t) as [[]|]; simpl; lia).
  assert (0 ≤ stop_write (stop_at s)) by (destruct (stop_at s); simpl; lia).
  assert (to_read (engine_at s) ≤ 1) by (destruct (engine_at s); simpl; lia).
  unfold positive_count in *. case_bool_decide; lia.
Qed.

Lemma alive w0 hd tr s L p pc : inv w0 hd tr s L → launches s !! p = Some pc →
  pc ≠ L_wait → pc ≠ L_result → (∀ e, pc ≠ L_return e) → ∃ t, thread s = Some t ∧ thread_ok (launches s) (engine_at s) (stop_at s) hd L t.
Proof.
  intros I Hp H1 H2 H3. destruct (thread s) as [t|] eqn:Ht; [exists t; split; [done|by eapply i_thread]|].
  destruct (i_freed _ _ _ _ _ I Ht) as (_ & _ & _ & H). destruct (H p pc Hp) as [?|[?|[e ?]]]; subst; naive_solver.
Qed.

Lemma inv_lock w0 hd tr s L p pc' s' : inv w0 hd tr s L → launches s !! p = Some L_lock →
  engine_thread_remote_launch p L_lock s = Some (Some pc', s') → inv w0 hd tr (set_launch p pc' s') L.
Proof.
  intros I Hp. destruct (alive _ _ _ _ _ _ _ I Hp) as (t & Ht & T); [done..|].
  unfold engine_thread_remote_launch, mutex_lock. run_step Ht. destruct (et_lock t) eqn:El; [done|].
  simpl. intros [= <- <-]. eapply move_call; [done|done|done|done|done|done|].
  destruct T. rewrite (holder_none (launches s) t) in * by congruence. split; simpl; rewrite ?(holder_is _ _ p L_inc) by (simpl; by rewrite ?lookup_insert_eq); simpl; try done.
  - rewrite t_engine0. naive_solver.
  - intros q qc. destruct (decide (q = p)) as [->|Hne].
    + rewrite lookup_insert_eq. intros [= <-]. done.
    + rewrite lookup_insert_ne by done. intros Hq. rewrite (t_launch0 q qc Hq). naive_solver.
  - intros q [= ->]. rewrite lookup_insert_eq. eauto.
Qed.

Lemma inv_inc w0 hd tr s L p pc' s' : inv w0 hd tr s L → launches s !! p = Some L_inc →
  engine_thread_remote_launch p L_inc s = Some (Some pc', s') → inv w0 hd tr (set_launch p pc' s') L.
Proof.
  intros I Hp. destruct (alive _ _ _ _ _ _ _ I Hp) as (t & Ht & T); [done..|].
  pose proof (count_range _ _ _ _ _ _ I Ht) as Hc.
  unfold engine_thread_remote_launch, atomic_inc. run_step Ht. rewrite u32_small by lia. intros [= <- <-].
  eapply move_call; [done|done|done| |by case_bool_decide|done|].
  { intros fr ln. by case_bool_decide. }
  eapply (thread_ok_held _ _ _ _ L); [done|done|done|by case_bool_decide| | |by destruct T].
  - case_bool_decide; simpl; lia.
  - unfold positive_count. repeat case_bool_decide; simpl; lia.
Qed.

Lemma inv_write w0 hd tr s L p pc' s' : inv w0 hd tr s L → launches s !! p = Some L_write →
  engine_thread_remote_launch p L_write s = Some (Some pc', s') → inv w0 hd tr (set_launch p pc' s') L.
Proof.
  intros I Hp. destruct (alive _ _ _ _ _ _ _ I Hp) as (t & Ht & T); [done..|].
  pose proof (pipe_range _ _ _ _ _ _ I Ht) as Hc.
  unfold engine_thread_remote_launch, interrupt_write, pipe_size. run_step Ht. rewrite bool_decide_true by lia. simpl.
  intros [= <- <-]. eapply move_call; [done|done|done|done|done|done|].
  eapply (thread_ok_held _ _ _ _ L); [done|done|done|done|simpl; lia| |].
  - rewrite zlen_app, zlen_cons, zlen_nil. simpl. lia.
  - apply Forall_app. destruct T. by split; [|repeat constructor].
Qed.

Lemma inv_unlock w0 hd tr s L p pc' s' : inv w0 hd tr s L → launches s !! p = Some L_unlock →
  engine_thread_remote_launch p L_unlock s = Some (Some pc', s') → inv w0 hd tr (set_launch p pc' s') L.
Proof.
  intros I Hp. destruct (alive _ _ _ _ _ _ _ I Hp) as (t & Ht & T); [done..|].
  unfold engine_thread_remote_launch, mutex_unlock. run_step Ht. intros [= <- <-].
  eapply move_call; [done|done|done|done|done|done|].
  destruct T. assert (et_lock t = Some (by_launch p)) as Hlk by (by apply (t_launch0 p L_unlock)).
  rewrite (holder_is (launches s) t p L_unlock) in * by done. split; simpl; rewrite ?(holder_none _ _) by done; simpl; try done.
  - rewrite t_engine0. naive_solver.
  - intros q qc. destruct (decide (q = p)) as [->|Hne].
    + rewrite lookup_insert_eq. intros [= <-]. done.
    + rewrite lookup_insert_ne by done. intros Hq. rewrite (t_launch0 q qc Hq). naive_solver.
Qed.

(** What is known of a call depends on its own record, and on its links before it is
    inserted. *)
Lemma launch_ok_ext w0 ins rs fd epc L fr fr' ln ln' q pc :
  launch_ok w0 ins rs fd epc L fr ln q pc → fr' !! q = fr !! q →
  (match pc with L_unlock | L_wait | L_result | L_return _ => True | _ => ln' !! q = ln !! q end) →
  launch_ok w0 ins rs fd epc L fr' ln' q pc.
Proof. intros H Hf Hl. destruct pc; simpl in *; rewrite Hf, ?Hl; done. Qed.

Lemma inv_new w0 hd tr s L p j : inv w0 hd tr s L →
  thread s ≠ None → launches s !! p = None → frames s !! p = None → links s !! p = None →
  inv w0 hd tr (set_launch p (L_init j) s) L.
Proof.
  intros I Ht Hp Hf Hl. assert (p ∉ (inserted tr).*1) as Hi.
  { intros E. destruct (i_known _ _ _ _ _ I p E). congruence. }
  destruct I. split; simpl in *; try done.
  - at_call p hd; [|done]. destruct (dlist_alloc _ _ _ p i_list0); [by left|congruence].
  - by apply map_Forall_insert_2.
  - intros q Hq. at_call p q; [|auto]. destruct (i_listed0 p Hq); congruence.
  - intros q Hq. at_call p q; [eauto|auto].
  - intros t Et. eapply thread_ok_free; [by auto|congruence|done].
Qed.

(** One call moves to [pc'], the others keep what is known of them. *)
Lemma calls_insert (P : loc → launch_pc J → Prop) (la : gmap loc (launch_pc J)) p pc' :
  P p pc' → (∀ q qc, q ≠ p → la !! q = Some qc → P q qc) → map_Forall P (<[p := pc']> la).
Proof.
  intros Hp Hq q qc. at_call p q; [by intros [= <-]|auto].
Qed.

Lemma inv_init w0 hd tr s L p j pc' s' : inv w0 hd tr s L → launches s !! p = Some (L_init j) →
  Z.of_nat (size (frames s)) < 2 ^ 31 →
  engine_thread_remote_launch p (L_init j) s = Some (Some pc', s') → inv w0 hd tr (set_launch p pc' s') L.
Proof.
  intros I Hp Hs. destruct (alive _ _ _ _ _ _ _ I Hp) as (t & Ht & T); [done..|].
  pose proof (inv_launch _ _ _ _ _ _ _ I Hp) as (Hf & Hl & Hi). destruct (not_listed _ _ _ _ _ _ _ I Hp) as [HL HC]; [done..|].
  unfold engine_thread_remote_launch, list2_elem_init. run_step Ht. intros [= <- <-].
  destruct I. assert (p ≠ hd) by congruence. split; simpl in *; try done.
  - eapply (dlist_same_out (links s) _ _ _ [p]); [|set_solver|done]. intros x Hx. apply lookup_insert_ne. set_solver.
  - by at_call p hd.
  - apply calls_insert; [simpl; rewrite !lookup_insert_eq; eauto|]. intros q qc Hne Hq.
    eapply launch_ok_ext; [by apply (i_launches0 q qc)|by rewrite lookup_insert_ne|].
    destruct qc; by rewrite ?lookup_insert_ne.
  - intros q Hq. at_call p q; [|auto]. destruct (i_listed0 p Hq); congruence.
  - rewrite map_size_insert_None by done. lia.
  - intros q Hq. at_call p q; [eauto|auto].
  - intros t' Et. eapply thread_ok_free; [by auto| |done]. intros pc E. rewrite Hp in E. by simplify_eq.
  - congruence.
Qed.

Lemma inv_wait w0 hd tr s L p pc' s' : inv w0 hd tr s L → launches s !! p = Some L_wait →
  engine_thread_remote_launch p L_wait s = Some (Some pc', s') → inv w0 hd tr (set_launch p pc' s') L.
Proof.
  intros I Hp. pose proof (inv_launch _ _ _ _ _ _ _ I Hp) as (f & Hf & Hw).
  unfold engine_thread_remote_launch, semaphore_wait. run_step Hf.
  case_bool_decide as Hs; [|done]. intros [= <- <-].
  destruct Hw as [(_ & j & -> & _)|[(_ & Hs' & _)|(HL & HC & Hs' & Ha)]]; [simpl in Hs; lia|lia|].
  destruct I. split; simpl in *; try done.
  - by at_call p hd; [congruence|].
  - apply calls_insert; [simpl; rewrite !lookup_insert_eq; eauto|]. intros q qc Hne Hq.
    eapply launch_ok_ext; [by apply (i_launches0 q qc)|by rewrite lookup_insert_ne|by destruct qc].
  - intros q Hq. at_call p q; [naive_solver|auto].
  - rewrite map_size_insert_Some by eauto. lia.
  - intros q Hq. at_call p q; [eauto|auto].
  - intros t' Et. eapply thread_ok_free; [by auto| |done]. intros pc E. rewrite Hp in E. by simplify_eq.
  - intros E. destruct (i_freed0 E) as (? & ? & ? & Hall). split_and!; [done..|].
    apply map_Forall_insert_2; [by right; left|done].
Qed.

Lemma inv_result w0 hd tr s L p pc' s' : inv w0 hd tr s L → launches s !! p = Some L_result →
  engine_thread_remote_launch p L_result s = Some (Some pc', s') → inv w0 hd tr (set_launch p pc' s') L.
Proof.
  intros I Hp. pose proof (inv_launch _ _ _ _ _ _ _ I Hp) as (f & Hf & HL & HC & Ha).
  unfold engine_thread_remote_launch. run_step Hf. intros [= <- <-].
  destruct I. assert (p ≠ hd) by congruence. split; simpl in *; try done.
  - eapply (dlist_same_out (links s) _ _ _ [p]); [|set_solver|done]. intros x Hx. apply lookup_delete_ne. set_solver.
  - by at_call p hd.
  - apply calls_insert; [simpl; by rewrite lookup_delete_eq|]. intros q qc Hne Hq.
    eapply launch_ok_ext; [by apply (i_launches0 q qc)|by rewrite lookup_delete_ne|].
    destruct qc; by rewrite ?lookup_delete_ne.
  - intros q Hq. at_call p q; [naive_solver|auto].
  - rewrite map_size_delete_Some by eauto. lia.
  - intros q Hq. at_call p q; [eauto|auto].
  - intros t' Et. eapply thread_ok_free; [by auto| |done]. intros pc E. rewrite Hp in E. by simplify_eq.
  - intros E. destruct (i_freed0 E) as (? & ? & ? & Hall). split_and!; [done..|].
    apply map_Forall_insert_2; [by eauto|done].
Qed.

Lemma inserted_app tr tr' : inserted (tr ++ tr') = inserted tr ++ inserted tr'.
Proof. apply omap_app. Qed.
Lemma ran_app tr tr' : ran (tr ++ tr') = ran tr ++ ran tr'.
Proof. apply omap_app. Qed.

(** While the engine does not hold the lock it is not serving anybody. *)
Lemma engine_free la epc spc hd L t : thread_ok la epc spc hd L t → et_lock t ≠ Some by_engine →
  current epc = None ∧ (∀ L, to_run epc L = L) ∧ (∀ L, to_end epc L = L) ∧ ∀ L, engine_ok hd epc L.
Proof.
  intros [] Hn. destruct epc; simpl in *; try done; exfalso; apply Hn; by apply t_engine0.
Qed.

Lemma launch_ok_inserted w0 ins rs epc L fr ln ln' q qc p j :
  launch_ok w0 ins rs false epc L fr ln q qc → q ≠ p → (∀ L, to_run epc L = L) →
  (ln !! q = Some (Elem None None) ∨ ln !! q = None → ln' !! q = ln !! q) →
  launch_ok w0 (ins ++ [(p, j)]) rs false epc (L ++ [p]) fr ln' q qc.
Proof.
  intros H Hne Ht Hl. assert (q ∉ ins.*1 → q ∉ (ins ++ [(p, j)]).*1) as Hi by (rewrite fmap_app; set_solver).
  assert (∀ e, fate w0 ins rs false q e → fate w0 (ins ++ [(p, j)]) rs false q e) as Hfa.
  { intros e [?|[? _]]; [by left|done]. }
  assert (q ∉ L → q ∉ L ++ [p]) by set_solver.
  destruct qc; simpl in *; try (destruct H as (? & E & ?); rewrite Hl, E by eauto; by eauto);
    [| |destruct H as (f & ? & ? & ? & ?); by eauto 10|destruct H as (? & ? & ? & ?); by eauto 10];
    destruct H as (f & Hf & Hw); exists f; (split; [done|]); (destruct Hw as [(Hr & j' & -> & Hj)|[?|(? & ? & ? & ?)]];
      [left; rewrite Ht in *; split; [set_solver|exists j'; set_solver]|by right; left|by right; right; auto]).
Qed.

Lemma inv_insert w0 hd tr s L p f pc' s' : inv w0 hd tr s L → launches s !! p = Some L_insert → frames s !! p = Some f →
  engine_thread_remote_launch p L_insert s = Some (Some pc', s') →
  inv w0 hd (tr ++ [Inserted p (rl_callback f)]) (set_launch p pc' s') (L ++ [p]).
Proof.
  intros I Hp Hf. destruct (alive _ _ _ _ _ _ _ I Hp) as (t & Ht & T); [done..|].
  pose proof (inv_launch _ _ _ _ _ _ _ I Hp) as ([j Hf'] & Hl & Hi). rewrite Hf in Hf'. simplify_eq.
  destruct (not_listed _ _ _ _ _ _ _ I Hp) as [HL HC]; [done..|].
  pose proof (i_list _ _ _ _ _ I) as Hd. rewrite <- (app_nil_r L) in Hd.
  destruct (list2_insert_spec _ _ _ _ p Hd Hl) as (r & ln' & Hins & -> & Hd' & [Hfr Hfo]).
  assert (et_launches t = hd) as Hh by (by destruct T).
  assert (et_lock t = Some (by_launch p)) as Hlk by (by apply (t_launch _ _ _ _ _ _ T p L_insert)).
  destruct (engine_free _ _ _ _ _ _ T) as (Ec & Er & Ee & Eo); [congruence|].
  unfold engine_thread_remote_launch. run_step Ht. rewrite Hh. unfold list2_end. rewrite Hins. simpl.
  intros [= <- <-]. destruct I. assert (p ≠ hd) by congruence.
  split; simpl in *; rewrite ?inserted_app, ?ran_app; simpl; rewrite ?app_nil_r, ?Er; try done.
  - by at_call p hd.
  - rewrite Ht in *. apply calls_insert.
    + simpl. exists (new_frame j). split; [done|]. left. rewrite Er. split; [set_solver|]. exists j. set_solver.
    + intros q qc Hne Hq. eapply launch_ok_inserted; [by apply (i_launches0 q qc)|done|done|].
      intros Hq'. apply Hfr. intros Hin. rewrite app_nil_r in *. apply elem_of_cons in Hin as [->|[->|Hin]%elem_of_cons]; [|done|].
      * destruct (dlist_links _ _ _ hd i_list0) as (? & ? & E); [by left|]. destruct Hq'; congruence.
      * destruct (dlist_links _ _ _ q i_list0) as (? & ? & E); [by right|]. destruct Hq'; congruence.
  - intros q Hq. at_call p q; [by left|]. apply i_listed0. set_solver.
  - destruct i_order0 as (rest & -> & Hr). exists (rest ++ [(p, j)]). rewrite <- app_assoc. split; [done|].
    intros E. rewrite fmap_app, Hr by done. by rewrite Er.
  - rewrite fmap_app. apply NoDup_app. split_and!; [done|set_solver|apply NoDup_singleton].
  - intros q Hq. at_call p q; [eauto|]. apply i_known0. rewrite fmap_app in Hq. set_solver.
  - intros t' Et. rewrite Ht in Et. simplify_eq. destruct t'.
    eapply (thread_ok_held _ _ _ _ _ _ (ET _ _ _ _ _) p L_insert); [by apply i_thread0|done|done|done| |simpl; lia|by destruct T].
    rewrite !Ee, zlen_app. unfold zlen. simpl. lia.
  - congruence.
Qed.

(** ** Steps of the engine *)

Lemma launch_ok_engine w0 ins rs fd epc epc' L fr ln q qc :
  launch_ok w0 ins rs fd epc L fr ln q qc → current epc' = current epc → to_run epc' L = to_run epc L →
  launch_ok w0 ins rs fd epc' L fr ln q qc.
Proof. intros H Ec Er. destruct qc; simpl in *; unfold waiting in *; by rewrite ?Ec, ?Er. Qed.

(** The engine moves and the list and the records stay. *)
Lemma move_engine w0 hd tr s L t t' pc' :
  inv w0 hd tr s L → thread s = Some t → current pc' = current (engine_at s) →
  to_run pc' L = to_run (engine_at s) L → engine_ok hd pc' L →
  thread_ok (launches s) pc' (stop_at s) hd L t' →
  inv w0 hd tr (set_engine pc' (set_thread (Some t') s)) L.
Proof.
  intros I Ht Ec Er Eo T. destruct I. split; simpl in *; try done.
  - intros q qc Hq. rewrite Ht in i_launches0. eapply launch_ok_engine; [by apply i_launches0|done|done].
  - rewrite Ec. done.
  - rewrite Er. rewrite Ht in i_order0. done.
  - intros t1 [= <-]. done.
Qed.

(** The engine keeps the lock, or does without it. *)
Lemma thread_ok_engine la epc epc' spc hd L L' t st c fd :
  thread_ok la epc spc hd L t → engine_locked epc' = engine_locked epc →
  c - zlen (to_end epc' L') = et_count t - zlen (to_end epc L) →
  zlen fd - positive_count c - to_read epc' = zlen (et_fd t) - positive_count (et_count t) - to_read epc →
  Forall (λ b, b = interrupt_magic) fd →
  thread_ok la epc' spc hd L' (ET st (et_lock t) c fd (et_launches t)).
Proof.
  intros [] El Hc Hp Hm. split; simpl; try done.
  - by rewrite El.
  - change (holder la (ET st (et_lock t) c fd (et_launches t))) with (holder la t). lia.
  - change (holder la (ET st (et_lock t) c fd (et_launches t))) with (holder la t). lia.
Qed.

(** Steps that touch nothing but the status. *)
Lemma move_status w0 hd tr s L t pc' st :
  inv w0 hd tr s L → thread s = Some t → current pc' = current (engine_at s) →
  to_run pc' L = to_run (engine_at s) L → engine_ok hd pc' L → to_end pc' L = to_end (engine_at s) L →
  engine_locked pc' = engine_locked (engine_at s) → to_read pc' = to_read (engine_at s) →
  inv w0 hd tr (set_engine pc' (set_thread (Some (ET st (et_lock t) (et_count t) (et_fd t) (et_launches t))) s)) L.
Proof.
  intros I Ht Ec Er Eo Ee El Erd. pose proof (i_thread _ _ _ _ _ I t Ht) as T. eapply move_engine; [done..|].
  eapply thread_ok_engine; [done|done|by rewrite Ee|by rewrite Erd|by destruct T].
Qed.

Lemma thread_id s t : thread s = Some t →
  set_thread (Some (ET (et_status t) (et_lock t) (et_count t) (et_fd t) (et_launches t))) s = s.
Proof. destruct s, t. simpl. by intros ->. Qed.

Lemma move_only w0 hd tr s L t pc' :
  inv w0 hd tr s L → thread s = Some t → current pc' = current (engine_at s) →
  to_run pc' L = to_run (engine_at s) L → engine_ok hd pc' L → to_end pc' L = to_end (engine_at s) L →
  engine_locked pc' = engine_locked (engine_at s) → to_read pc' = to_read (engine_at s) →
  inv w0 hd tr (set_engine pc' s) L.
Proof.
  intros I Ht Ec Er Eo Ee El Erd. pose proof (move_status _ _ _ _ _ _ pc' (et_status t) I Ht) as H.
  rewrite thread_id in H by done. by apply H.
Qed.

Lemma thread_ok_lock la epc' epc spc hd L t : thread_ok la epc spc hd L t → et_lock t = None →
  engine_locked epc' = true → to_end epc' L = to_end epc L → to_read epc' = to_read epc →
  thread_ok la epc' spc hd L (ET (et_status t) (Some by_engine) (et_count t) (et_fd t) (et_launches t)).
Proof.
  intros [] Hl El Ee Er. rewrite (holder_none la t) in * by congruence.
  split; simpl; rewrite ?(holder_none la) by done; simpl; rewrite ?Ee, ?Er; try done.
  intros p pc Hp. rewrite (t_launch0 p pc Hp). rewrite Hl. naive_solver.
Qed.

Lemma thread_ok_unlock la epc' epc spc hd L t : thread_ok la epc spc hd L t → et_lock t = Some by_engine →
  engine_locked epc' = false → to_end epc' L = to_end epc L → to_read epc' = to_read epc →
  thread_ok la epc' spc hd L (ET (et_status t) None (et_count t) (et_fd t) (et_launches t)).
Proof.
  intros [] Hl El Ee Er. rewrite (holder_none la t) in * by congruence.
  split; simpl; rewrite ?(holder_none la) by done; simpl; rewrite ?Ee, ?Er, ?El; try done.
  intros p pc Hp. rewrite (t_launch0 p pc Hp). rewrite Hl. naive_solver.
Qed.

Lemma engine_alive w0 hd tr s L : inv w0 hd tr s L → engine_at s ≠ E_finished →
  ∃ t, thread s = Some t ∧ thread_ok (launches s) (engine_at s) (stop_at s) hd L t.
Proof.
  intros I He. destruct (thread s) as [t|] eqn:Ht; [exists t; split; [done|by eapply i_thread]|].
  by destruct (i_freed _ _ _ _ _ I Ht) as (? & _).
Qed.

Lemma list_begin s hd L : dlist (links s) hd L → list2_begin hd (links s) = Some (Some (at_head hd L), links s).
Proof.
  intros Hd. destruct (dlist_link _ _ [] L Hd) as [Hn _]. unfold nxt, at_last in Hn. simpl in Hn.
  unfold list2_begin, rd_elem, bind, gets, deref, ret. destruct (links s !! hd) as [e|]; [|done]. simpl in *. by rewrite Hn.
Qed.

Lemma list_empty s hd L : dlist (links s) hd L → list2_empty hd (links s) = Some (bool_decide (L = []), links s).
Proof.
  intros Hd. unfold list2_empty, bind. rewrite (list_begin _ _ _ Hd). unfold ret. do 2 f_equal. apply bool_decide_ext.
  unfold list2_end. destruct L as [|x L]; simpl; [done|]. split; [|done]. intros [= ->].
  apply dlist_nodup, NoDup_cons in Hd as [Hn _]. set_solver.
Qed.

Lemma inv_dec w0 hd tr s L it pc' s' : inv w0 hd tr s L → engine_at s = E_dec it →
  engine_thread_check_remote_launch run_job (E_dec it) s = Some (Some pc', s') → inv w0 hd tr (set_engine pc' s') L.
Proof.
  intros I He. destruct (engine_alive _ _ _ _ _ I) as (t & Ht & T); [by rewrite He|].
  pose proof (i_engine _ _ _ _ _ I) as Eo. rewrite He in *. destruct Eo as [L' ->].
  pose proof (count_range _ _ _ _ _ _ I Ht) as Hc. pose proof (t_count _ _ _ _ _ _ T) as Ec. simpl in Ec. rewrite zlen_cons in Ec.
  assert (0 ≤ inc_done (holder (launches s) t)) by (destruct (holder (launches s) t) as [[]|]; simpl; lia).
  assert (0 ≤ stop_inc (stop_at s)) by (destruct (stop_at s); simpl; lia). pose proof (zlen_nonneg L').
  unfold engine_thread_check_remote_launch, atomic_dec. run_step Ht. rewrite u32_small by lia. intros [= <- <-].
  eapply move_engine; [done|done|by rewrite He; case_bool_decide|by rewrite He; case_bool_decide|by case_bool_decide; eexists|].
  eapply (thread_ok_engine _ _ _ _ _ (it :: L')); [done|by case_bool_decide| | |by destruct T].
  - case_bool_decide; simpl; rewrite zlen_cons; lia.
  - unfold positive_count. repeat case_bool_decide; simpl; lia.
Qed.

Lemma inv_read w0 hd tr s L it pc' s' : inv w0 hd tr s L → engine_at s = E_read it →
  engine_thread_check_remote_launch run_job (E_read it) s = Some (Some pc', s') → inv w0 hd tr (set_engine pc' s') L.
Proof.
  intros I He. destruct (engine_alive _ _ _ _ _ I) as (t & Ht & T); [by rewrite He|].
  pose proof (i_engine _ _ _ _ _ I) as Eo. rewrite He in *. destruct Eo as [L' ->].
  pose proof T as [_ Te _ _ Tc Tp Tm]. assert (et_lock t = Some by_engine) as Hl by (by apply Te).
  rewrite (holder_none (launches s) t) in * by congruence. simpl in Tp, Tc.
  assert (stop_write (stop_at s) ≤ positive_count (et_count t)).
  { unfold positive_count. pose proof (zlen_nonneg L'). destruct (stop_at s); simpl in *; case_bool_decide; lia. }
  unfold engine_thread_check_remote_launch, interrupt_read. run_step Ht.
  destruct (et_fd t) as [|b fd] eqn:Ef; [unfold zlen in Tp; simpl in Tp; lia|]. rewrite zlen_cons in Tp.
  apply Forall_cons in Tm as [-> Tm]. rewrite bool_decide_true by done. intros [= <- <-].
  eapply move_engine; [done|done|by rewrite He|by rewrite He|by eexists|].
  eapply (thread_ok_engine _ _ _ _ _ (it :: L')); [done|done|done| |done].
  rewrite Ef, zlen_cons. simpl. lia.
Qed.

(** The steps of the engine that leave the records and the list alone. *)
Lemma inv_control w0 hd tr s L a pc' s' : inv w0 hd tr s L →
  match engine_at s with E_run _ | E_erase _ | E_post _ _ => False | _ => True end →
  thread_main_loop run_job a (engine_at s) s = Some (Some pc', s') → inv w0 hd tr (set_engine pc' s') L.
Proof.
  intros I Hpc. destruct (decide (engine_at s = E_finished)) as [Ef|Ef]; [by rewrite Ef|].
  destruct (engine_alive _ _ _ _ _ I Ef) as (t & Ht & T). pose proof (i_list _ _ _ _ _ I) as Hd.
  pose proof (i_engine _ _ _ _ _ I) as Eo. pose proof (t_head _ _ _ _ _ _ T) as Hh. pose proof (t_engine _ _ _ _ _ _ T) as Te.
  destruct (engine_at s) eqn:He; simpl in Hpc; try done; clear Hpc Ef; simpl in Te.
  - assert (pc' = E_empty ∨ pc' = E_finished → ∀ st, inv w0 hd tr
      (set_engine pc' (set_thread (Some (ET st (et_lock t) (et_count t) (et_fd t) (et_launches t))) s)) L) as Hok.
    { intros H st. apply move_status; try done; rewrite ?He; by destruct H; subst. }
    unfold thread_main_loop, engine_thread_update_status. run_step Ht. destruct a; simpl;
      [case_bool_decide; [done|]|..]; rewrite ?Ht; simpl; intros [= <- <-]; apply Hok; auto.
  - unfold thread_main_loop, engine_thread_check_remote_launch. run_step Ht. rewrite Hh, (list_empty _ _ _ Hd). intros [= <- <-].
    replace (set_links (links s) s) with s by (by destruct s).
    eapply move_only; [done|done|..]; rewrite ?He; by case_bool_decide.
  - unfold thread_main_loop, engine_thread_check_remote_launch, mutex_lock. run_step Ht.
    destruct (et_lock t) eqn:Hl; [done|]. intros [= <- <-]. eapply move_engine; [done|done|by rewrite He..|done|].
    by eapply thread_ok_lock.
  - unfold thread_main_loop, engine_thread_check_remote_launch. run_step Ht. rewrite Hh, (list_begin _ _ _ Hd). intros [= <- <-].
    replace (set_links (links s) s) with s by (by destruct s).
    eapply move_only; [done|done|..]; by rewrite ?He.
  - unfold thread_main_loop, engine_thread_check_remote_launch. run_step Ht. rewrite Hh. intros [= <- <-].
    eapply move_only; [done|done|..]; rewrite ?He; unfold list2_end; subst; case_bool_decide as Hi; try done; simpl.
    + destruct L as [|x L]; [done|]. simpl in Hi. subst. apply dlist_nodup, NoDup_cons in Hd as [Hn _]. set_solver.
    + destruct L as [|x L]; [done|]. by exists L.
  - by eapply inv_dec.
  - by eapply inv_read.
  - unfold thread_main_loop, engine_thread_check_remote_launch, mutex_unlock. run_step Ht. intros [= <- <-].
    eapply move_engine; [done|done|by rewrite He..|done|]. eapply thread_ok_unlock; [done|by apply Te|done..].
  - unfold thread_main_loop, engine_thread_update_status. run_step Ht. destruct (stop s); simpl; rewrite ?Ht; simpl; intros [= <- <-].
    + replace (set_thread _ (set_thread _ s)) with (set_thread (Some (ET THREAD_STOPPED (et_lock t) (et_count t) (et_fd t) (et_launches t))) s) by (by destruct s).
      apply move_status; try done; by rewrite ?He.
    + apply move_status; try done; by rewrite ?He.
Qed.

(** A launch that is not the one the engine serves. *)
Lemma launch_ok_serve w0 ins rs rs' epc epc' L L' fr fr' ln ln' q qc :
  launch_ok w0 ins rs false epc L fr ln q qc → current epc ≠ Some q → current epc' ≠ Some q →
  (q ∈ to_run epc L → q ∈ to_run epc' L') → (q ∉ L → q ∉ L') → fr' !! q = fr !! q →
  (ln !! q = Some (Elem None None) ∨ ln !! q = None → ln' !! q = ln !! q) →
  launch_ok w0 ins (rs ++ rs') false epc' L' fr' ln' q qc.
Proof.
  intros H Hc Hc' Hr HL Hf Hl.
  assert (∀ e, fate w0 ins rs false q e → fate w0 ins (rs ++ rs') false q e) as Hfa.
  { intros e [?|[? _]]; [left; by apply answers_app|done]. }
  destruct qc; simpl in *; rewrite ?Hf; try (destruct H as (? & E & ?); rewrite Hl, E by eauto; by eauto);
    [| |destruct H as (f & ? & ? & ? & ?); by eauto 10|destruct H as (? & ? & ? & ?); by eauto 10];
    destruct H as (f & Hq & Hw); exists f; (split; [done|]); (destruct Hw as [(? & ?)|[(? & _)|(? & ? & ? & ?)]];
      [left; by auto|done|by right; right; auto]).
Qed.

(** The record and the job of the launch whose turn it is. *)
Lemma next_launch w0 hd tr s L it L' : inv w0 hd tr s L → engine_at s = E_run it → L = it :: L' → thread s ≠ None →
  ∃ j rest, frames s !! it = Some (new_frame j) ∧ inserted tr = ran tr ++ (it, j) :: rest ∧ rest.*1 = L'.
Proof.
  intros I He -> Ht. destruct (i_order _ _ _ _ _ I) as (rest & Hins & Hr). rewrite He in Hr. simpl in Hr.
  destruct rest as [|[it' j'] rest]; [specialize (Hr ltac:(by destruct (thread s))); done|].
  specialize (Hr ltac:(by destruct (thread s))). simpl in Hr. injection Hr as -> Hr.
  assert (∃ f, frames s !! it = Some f ∧ waiting w0 (inserted tr) (ran tr) (is_null (thread s)) (engine_at s) (it :: L') it f) as (f & Hf & Hw).
  { destruct (i_listed _ _ _ _ _ I it) as [E|E]; [by left; left|..]; by apply (inv_launch _ _ _ _ _ _ _ I) in E. }
  rewrite He in Hw. destruct Hw as [(_ & j & -> & Hj)|[(? & _)|(Hn & _)]]; [|done|set_solver].
  exists j, rest. rewrite Hf, Hins. split_and!; [done| |done]. do 2 f_equal. f_equal.
  pose proof (i_nodup _ _ _ _ _ I) as Hnd. rewrite Hins in Hj, Hnd. rewrite fmap_app in Hnd. simpl in Hnd.
  apply NoDup_app in Hnd as (_ & Hd1 & [Hd2 _]%NoDup_cons).
  apply elem_of_app in Hj as [Hj|[Hj|Hj]%elem_of_cons]; [|congruence|].
  - exfalso. apply (Hd1 it); [|by left]. apply list_elem_of_fmap. by exists (it, j).
  - exfalso. apply Hd2, list_elem_of_fmap. by exists (it, j).
Qed.

(** The launch [it] is served: its own record is rewritten. *)
Lemma inv_serve w0 hd tr s L L' t it f pc' ln' fr' ev w :
  inv w0 hd tr s L → thread s = Some t → dlist ln' hd L' → engine_ok hd pc' L' →
  fr' = <[it := f]> (frames s) → (∀ q, q ∈ L' ∨ current pc' = Some q → q ∈ L ∨ current (engine_at s) = Some q) →
  it ∈ L ∨ current (engine_at s) = Some it → inserted ev = [] →
  current (engine_at s) = None ∨ current (engine_at s) = Some it → current pc' = None ∨ current pc' = Some it →
  waiting w0 (inserted tr) (ran tr ++ ran ev) false pc' L' it f →
  (∀ q, q ≠ it → q ∈ to_run (engine_at s) L → q ∈ to_run pc' L') → (∀ q, q ∈ L' → q ∈ L) →
  (∀ q, links s !! q = Some (Elem None None) ∨ links s !! q = None → ln' !! q = links s !! q) →
  (∃ rest, inserted tr = (ran tr ++ ran ev) ++ rest ∧ rest.*1 = to_run pc' L') →
  w = after w0 (ran tr ++ ran ev) → thread_ok (launches s) pc' (stop_at s) hd L' t →
  inv w0 hd (tr ++ ev) (set_engine pc' (set_links ln' (set_frames fr' (set_world w None s)))) L'.
Proof.
  intros I Ht Hd Eo -> Hin Hit Hev Hc1 Hc2 Hw Hr HL Hl Ho -> T.
  assert (∃ f0, frames s !! it = Some f0) as [f0 Hf0].
  { destruct (i_listed _ _ _ _ _ I it Hit) as [E|E]; apply (inv_launch _ _ _ _ _ _ _ I) in E as (f0 & ? & _); eauto. }
  pose proof (i_listed _ _ _ _ _ I it Hit) as Hpc.
  destruct I. split; simpl in *; rewrite ?inserted_app, ?ran_app, ?Hev, ?app_nil_r, ?Ht in *; simpl in *; try done.
  - intros q qc Hq. destruct (decide (q = it)) as [->|Hne].
    + assert (qc = L_unlock ∨ qc = L_wait) as [-> | ->] by (destruct Hpc; [left|right]; congruence);
        simpl; rewrite lookup_insert_eq; eauto.
    + eapply launch_ok_serve; [by apply i_launches0|naive_solver|naive_solver|naive_solver|naive_solver|by rewrite lookup_insert_ne|auto].
  - intros q Hq. apply i_listed0. auto.
  - destruct Ho as (rest & ? & ?). eauto.
  - rewrite map_size_insert_Some by eauto. lia.
  - congruence.
Qed.

(** The links of a launch that is not in the list. *)
Lemma links_apart ln ln' hd L ws q : dlist ln hd L → frame ws ln ln' → (∀ x, x ∈ ws → x ∈ hd :: L) →
  ln !! q = Some (Elem None None) ∨ ln !! q = None → ln' !! q = ln !! q.
Proof.
  intros Hd [Ho _] Hw Hq. apply Ho. intros Hin%Hw. destruct (dlist_links _ _ _ _ Hd Hin) as (? & ? & ?).
  destruct Hq; congruence.
Qed.

Lemma inv_run w0 hd tr s L it f pc' s' : inv w0 hd tr s L → engine_at s = E_run it → frames s !! it = Some f →
  thread_main_loop run_job Nothing (E_run it) s = Some (Some pc', s') →
  inv w0 hd (tr ++ [Ran it (rl_callback f)]) (set_engine pc' s') L.
Proof.
  intros I He Hf. destruct (engine_alive _ _ _ _ _ I) as (t & Ht & T); [by rewrite He|].
  pose proof (i_engine _ _ _ _ _ I) as Eo. rewrite He in *. destruct Eo as [L' EL].
  destruct (next_launch _ _ _ _ _ _ _ I He EL) as (j & rest & Hf' & Ho & Hr); [congruence|]. rewrite Hf in Hf'. simplify_eq.
  unfold thread_main_loop, engine_thread_check_remote_launch, run_launch. run_step Hf.
  destruct (run_job j (world s)) as [w' e] eqn:Er. rewrite (i_pending _ _ _ _ _ I). unfold bind, modify. simpl.
  assert (∀ st own, inv w0 hd (tr ++ [Ran it j]) (set_engine (E_dec it)
    (set_frames (<[it := RL j st e own 0]> (frames s)) (set_world w' None s))) (it :: rest.*1)) as Hok.
  { intros st own. pose proof (i_world _ _ _ _ _ I) as Ew.
    replace (set_frames (<[it := RL j st e own 0]> (frames s)) (set_world w' None s)) with
      (set_links (links s) (set_frames (<[it := RL j st e own 0]> (frames s)) (set_world w' None s))) by (by destruct s).
    eapply (inv_serve _ _ _ _ _ _ t it); rewrite ?He; simpl; try done.
    - apply (i_list _ _ _ _ _ I).
    - by eexists.
    - intros q [?|[= <-]]; left; [done|by left].
    - left. by left.
    - by left.
    - by right.
    - right; left. split_and!; [done|done|]. replace e with (run_job j (after w0 (ran tr))).2 by (by rewrite <- Ew, Er).
      apply answers_last.
    - intros q ? [?|?]%elem_of_cons; done.
    - exists rest. rewrite <- app_assoc. by rewrite Ho.
    - by rewrite after_last, <- Ew, Er.
    - destruct t. eapply (thread_ok_engine _ _ _ _ _ _ _ (ET _ _ _ _ _)); [done|done|done|done|by destruct T]. }
  destruct e as [m|]; simpl; intros [= <- <-]; apply Hok.
Qed.

Lemma inv_erase w0 hd tr s L a it pc' s' : inv w0 hd tr s L → engine_at s = E_erase it →
  thread_main_loop run_job a (E_erase it) s = Some (Some pc', s') → inv w0 hd tr (set_engine pc' s') (tail L).
Proof.
  intros I He. destruct (engine_alive _ _ _ _ _ I) as (t & Ht & T); [by rewrite He|].
  pose proof (i_engine _ _ _ _ _ I) as Eo. rewrite He in *. destruct Eo as [L' ->]. simpl.
  destruct (list2_erase_spec _ _ [] L' it (i_list _ _ _ _ _ I)) as (r & ln' & Her & -> & Hd' & Hn & Hfr).
  assert (∃ f, frames s !! it = Some f ∧ waiting w0 (inserted tr) (ran tr) false (E_erase it) (it :: L') it f) as (f & Hf & Hw).
  { destruct (i_listed _ _ _ _ _ I it) as [E|E]; [by left; left|..]; apply (inv_launch _ _ _ _ _ _ _ I) in E; by rewrite Ht, He in E. }
  pose proof (dlist_nodup _ _ _ (i_list _ _ _ _ _ I)) as [Hn1 [Hn2 _]%NoDup_cons]%NoDup_cons.
  destruct Hw as [(Hw & _)|[(_ & Hs & Ha)|(Hw & _)]]; [done| |set_solver].
  unfold thread_main_loop, engine_thread_check_remote_launch. unfold bind, elnk, zoom. rewrite Her. simpl. intros [= <- <-].
  replace (set_links ln' s) with (set_links ln' (set_frames (<[it := f]> (frames s)) (set_world (world s) None s))).
  2: { rewrite insert_id by done. pose proof (i_pending _ _ _ _ _ I). destruct s. simpl in *. by subst. }
  rewrite <- (app_nil_r tr). eapply (inv_serve _ _ _ _ _ _ t it); rewrite ?He; simpl; rewrite ?app_nil_r; try done.
  - intros q [?|?]; [left; by right|by right].
  - by right.
  - by right.
  - by right.
  - by right; left.
  - intros q ?. by right.
  - intros q Hq. eapply links_apart; [exact (i_list _ _ _ _ _ I)|exact Hfr|done|done].
  - destruct (i_order _ _ _ _ _ I) as (rest & ? & Hr). rewrite He, Ht in Hr. exists rest. split; [done|]. by apply Hr.
  - apply (i_world _ _ _ _ _ I).
  - destruct t. eapply (thread_ok_engine _ _ _ _ _ _ _ (ET _ _ _ _ _)); [done|done|done|done|by destruct T].
Qed.

Lemma inv_post w0 hd tr s L a it n pc' s' : inv w0 hd tr s L → engine_at s = E_post it n →
  thread_main_loop run_job a (E_post it n) s = Some (Some pc', s') → inv w0 hd tr (set_engine pc' s') L.
Proof.
  intros I He. destruct (engine_alive _ _ _ _ _ I) as (t & Ht & T); [by rewrite He|].
  pose proof (i_engine _ _ _ _ _ I) as Eo. rewrite He in *. destruct Eo as [-> Hn].
  assert (∃ f, frames s !! it = Some f ∧ waiting w0 (inserted tr) (ran tr) false (E_post it (at_head hd L)) L it f) as (f & Hf & Hw).
  { destruct (i_listed _ _ _ _ _ I it) as [E|E]; [right; by rewrite He|..]; apply (inv_launch _ _ _ _ _ _ _ I) in E; by rewrite Ht, He in E. }
  destruct Hw as [(Hw & _)|[(_ & Hs & Ha)|(_ & Hw & _)]]; [done| |done].
  unfold thread_main_loop, engine_thread_check_remote_launch, remote_launch_release, semaphore_post. run_step Hf. intros [= <- <-].
  match goal with |- context [set_frames ?fr s] => replace (set_frames fr s) with
    (set_links (links s) (set_frames fr (set_world (world s) None s))) by
    (pose proof (i_pending _ _ _ _ _ I); destruct s; simpl in *; by subst) end.
  rewrite <- (app_nil_r tr). eapply (inv_serve _ _ _ _ _ _ t it); rewrite ?He; simpl; rewrite ?app_nil_r; try done.
  - apply (i_list _ _ _ _ _ I).
  - intros q [?|?]; [by left|done].
  - by right.
  - by right.
  - by left.
  - right; right. split_and!; [done|done|simpl; lia|by left].
  - destruct (i_order _ _ _ _ _ I) as (rest & ? & Hr). rewrite He, Ht in Hr. exists rest. split; [done|]. by apply Hr.
  - apply (i_world _ _ _ _ _ I).
  - destruct t. eapply (thread_ok_engine _ _ _ _ _ _ _ (ET _ _ _ _ _)); [done|done|done|done|by destruct T].
Qed.

(** ** The stop and the end *)

Lemma thread_ok_stop la epc spc spc' hd L t c fd : thread_ok la epc spc hd L t →
  c - stop_inc spc' = et_count t - stop_inc spc →
  zlen fd + stop_write spc' - positive_count c = zlen (et_fd t) + stop_write spc - positive_count (et_count t) →
  Forall (λ b, b = interrupt_magic) fd →
  thread_ok la epc spc' hd L (ET (et_status t) (et_lock t) c fd (et_launches t)).
Proof.
  intros [] Hc Hp Hm. split; simpl; try done.
  - change (holder la (ET (et_status t) (et_lock t) c fd (et_launches t))) with (holder la t). lia.
  - change (holder la (ET (et_status t) (et_lock t) c fd (et_launches t))) with (holder la t). lia.
Qed.

Lemma move_stop w0 hd tr s L t spc' c fd : inv w0 hd tr s L → thread s = Some t →
  thread_ok (launches s) (engine_at s) spc' hd L (ET (et_status t) (et_lock t) c fd (et_launches t)) →
  inv w0 hd tr (set_stop spc' true (set_thread (Some (ET (et_status t) (et_lock t) c fd (et_launches t))) s)) L.
Proof.
  intros I Ht T. destruct I. split; simpl in *; rewrite ?Ht in *; simpl in *; try done.
  intros t' [= <-]. done.
Qed.

Lemma inv_stop w0 hd tr s L pc b s' : inv w0 hd tr s L → thread_pool_stop (stop_at s) s = Some (Some (pc, b), s') →
  inv w0 hd tr (set_stop pc b s') L.
Proof.
  intros I. destruct (thread s) as [t|] eqn:Ht.
  - pose proof (i_thread _ _ _ _ _ I t Ht) as T. pose proof (count_range _ _ _ _ _ _ I Ht) as Hc.
    pose proof (pipe_range _ _ _ _ _ _ I Ht) as Hp.
    unfold thread_pool_stop, atomic_inc, interrupt_write, pipe_size. destruct (stop_at s) eqn:Es; run_step Ht; [| | |done].
    + intros [= <- <- <-]. rewrite <- (thread_id s t Ht). eapply move_stop; [done..|]. eapply thread_ok_stop; [done|done|done|by destruct T].
    + rewrite u32_small by lia. intros [= <- <- <-]. eapply move_stop; [done..|].
      eapply thread_ok_stop; [done| | |by destruct T].
      * case_bool_decide; simpl; lia.
      * unfold positive_count. repeat case_bool_decide; simpl; lia.
    + rewrite bool_decide_true by lia. simpl. intros [= <- <- <-]. eapply move_stop; [done..|].
      eapply thread_ok_stop; [done|done| |].
      * rewrite zlen_app. unfold zlen. simpl. lia.
      * apply Forall_app. destruct T. by split; [|repeat constructor].
  - destruct (i_freed _ _ _ _ _ I Ht) as (He & [Es|Es] & HL & Hall); rewrite Es; unfold thread_pool_stop; run_step Ht; [|done].
    intros [= <- <- <-]. destruct I. split; simpl in *; rewrite ?Ht in *; simpl in *; try done. intros _. auto.
Qed.

Lemma abort_loop_spec hd L fuel s : dlist (links s) hd L → (length L < fuel)%nat →
  (∀ p, p ∈ L → is_Some (frames s !! p)) →
  runs (abort_loop fuel hd (at_head hd L)) s (λ _ s', ∃ ln fr,
    s' = set_links ln (set_frames fr s) ∧ dlist ln hd [] ∧ size fr = size (frames s) ∧
    (∀ p f, p ∈ L → frames s !! p = Some f →
      fr !! p = Some (RL (rl_callback f) (-1) (Some "aborted"%string) false (rl_sync f + 1))) ∧
    (∀ p, p ∉ L → fr !! p = frames s !! p)).
Proof.
  revert fuel s. induction L as [|x L IH]; intros fuel s Hd Hf Hs.
  - destruct fuel; simpl; rewrite bool_decide_true by done; unfold skip; step; exists (links s), (frames s);
      (split_and!; [by destruct s|done|done|set_solver|done]).
  - destruct fuel as [|fuel]; [simpl in Hf; lia|]. simpl.
    pose proof (dlist_nodup _ _ _ Hd) as [Hn1 [Hn2 _]%NoDup_cons]%NoDup_cons.
    rewrite bool_decide_false by set_solver. destruct (Hs x) as [f Hx]; [by left|].
    unfold rd_frame, wr_frame, elnk, remote_launch_release, semaphore_post. step. rewrite Hx. step. step. step.
    eapply runs_mono; [exact (list2_erase_spec _ _ [] L x Hd)|]. intros r ln (-> & Hd' & _ & _). step. step. unfold rd_frame, wr_frame. step.
    simpl. rewrite lookup_insert_eq. step. step. simpl.
    eapply runs_mono; [apply IH; [done|simpl in Hf; lia|]|].
    + intros p Hp. simpl. destruct (decide (p = x)) as [->|Hne]; [done|]. rewrite !lookup_insert_ne by done. apply Hs. by right.
    + simpl. intros _ s' (ln' & fr' & -> & Hd2 & Hsz & H1 & H2). exists ln', fr'. split_and!; [by destruct s|done|..].
      * rewrite Hsz. rewrite !map_size_insert_Some; [done|by eauto|]. rewrite lookup_insert_eq. eauto.
      * intros p g [->|Hp]%elem_of_cons Hg.
        -- rewrite H2 by done. rewrite lookup_insert_eq. simplify_eq. done.
        -- apply H1; [done|]. by rewrite !lookup_insert_ne by set_solver.
      * intros p Hp. rewrite H2 by set_solver. by rewrite !lookup_insert_ne by set_solver.
Qed.

Lemma listed_frames w0 hd tr s L p : inv w0 hd tr s L → p ∈ L → is_Some (frames s !! p).
Proof.
  intros I Hp. destruct (i_listed _ _ _ _ _ I p) as [E|E]; [by left|..];
    apply (inv_launch _ _ _ _ _ _ _ I) in E as (f & ? & _); eauto.
Qed.

Lemma cleanup_runs w0 hd tr s L : inv w0 hd tr s L → can_free s →
  runs engine_thread_cleanup s (λ _ s', ∃ ln fr, s' = set_thread None (set_links ln (set_frames fr s)) ∧
    dlist ln hd [] ∧ size fr = size (frames s) ∧
    (∀ p f, p ∈ L → frames s !! p = Some f →
      fr !! p = Some (RL (rl_callback f) (-1) (Some "aborted"%string) false (rl_sync f + 1))) ∧
    (∀ p, p ∉ L → fr !! p = frames s !! p)).
Proof.
  intros I (Ha & He & Hst & Hall). destruct (thread s) as [t|] eqn:Ht; [clear Ha|done].
  pose proof (i_thread _ _ _ _ _ I t Ht) as T. assert (et_lock t = None) as Hlk.
  { destruct (et_lock t) as [[|p]|] eqn:E; [| |done].
    - apply (t_engine _ _ _ _ _ _ T) in E. by rewrite He in E.
    - destruct (t_owner _ _ _ _ _ _ T p E) as [pc Hp]. apply (t_launch _ _ _ _ _ _ T p pc Hp) in E.
      destruct (Hall p pc Hp) as [->|[->|[e ->]]]; done. }
  assert (length L < S (size (frames s)))%nat as Hlen.
  { pose proof (dlist_nodup _ _ _ (i_list _ _ _ _ _ I)) as [_ Hn]%NoDup_cons.
    rewrite <- size_dom, <- (size_list_to_set (C := gset loc)) by done. apply Nat.lt_succ_r, subseteq_size.
    intros q Hq%elem_of_list_to_set. apply elem_of_dom. by eapply listed_frames. }
  unfold engine_thread_cleanup, mutex_lock, mutex_unlock, rd_thread, wr_thread, elnk. step. step. rewrite Hlk. repeat (step; simpl).
  rewrite (t_head _ _ _ _ _ _ T). eapply runs_eq; [exact (list_begin s _ _ (i_list _ _ _ _ _ I))|]. simpl. step. step. unfold list2_end.
  post (abort_loop_spec hd L); [apply (i_list _ _ _ _ _ I)|done|intros p Hp; by eapply (listed_frames w0 hd tr s L)|].
  simpl. intros _ s1 (ln & fr & -> & ? & ? & ? & ?). step. step. simpl. step. step. step. exists ln, fr.
  split_and!; [by destruct s|done..].
Qed.

Lemma inv_cleanup w0 hd tr s L s' : inv w0 hd tr s L → can_free s → engine_thread_cleanup s = Some (tt, s') → inv w0 hd tr s' [].
Proof.
  intros I Hfree Hcl. apply (runs_det _ _ _ _ _ (cleanup_runs _ _ _ _ _ I Hfree)) in Hcl as (ln & fr & -> & Hd & Hsz & H1 & H2).
  destruct Hfree as (Ha & He & Hst & Hall). destruct (thread s) as [t|] eqn:Ht; [clear Ha|done].
  destruct I. rewrite Ht, He in *. simpl in *. split; simpl; rewrite ?Ht, ?He, ?Hsz; simpl; try done.
  - destruct i_order0 as (rest & Hrest & Hr). specialize (Hr eq_refl). rewrite Hrest in i_nodup0. rewrite fmap_app, Hr in i_nodup0.
    apply NoDup_app in i_nodup0 as (_ & Hdis & _).
    intros p pc Hp. pose proof (i_launches0 p pc Hp) as Hok. destruct (Hall p pc Hp) as [->|[->|[e ->]]]; simpl in *.
    + destruct Hok as (f & Hf & [(Hin & j & -> & Hj)|[(? & _)|(? & _ & ? & [?|[? _]])]]); [|done| |done].
      * eexists. split; [by apply H1|]. right; right. simpl. split_and!; [set_solver|done|done|]. right. split_and!; [done| |by intros ?%Hdis|done].
        apply list_elem_of_fmap. by exists (p, j).
      * exists f. rewrite H2 by done. split; [done|]. right; right. split_and!; [set_solver|done|done|by left].
    + destruct Hok as (f & Hf & ? & _ & [?|[? _]]); [|done]. exists f. rewrite H2 by done. split_and!; [done|set_solver|done|by left].
    + destruct Hok as (Hf & ? & _ & [?|[? _]]); [|done]. rewrite H2 by done. split_and!; [done|set_solver|done|by left].
  - set_solver.
  - destruct i_order0 as (rest & ? & _). by exists rest.
Qed.

(** An event that is neither an insertion nor a run. *)
Lemma inv_event w0 hd tr s L ev : inserted ev = [] → ran ev = [] → inv w0 hd tr s L → inv w0 hd (tr ++ ev) s L.
Proof.
  intros E1 E2 []. split; rewrite ?inserted_app, ?ran_app, ?E1, ?E2, ?app_nil_r; done.
Qed.

(** ** Every reachable state *)

Lemma inv_call w0 hd tr s L p pc pc' s' : inv w0 hd tr s L → launches s !! p = Some pc → (∀ j, pc ≠ L_init j) → pc ≠ L_insert →
  engine_thread_remote_launch p pc s = Some (Some pc', s') → inv w0 hd tr (set_launch p pc' s') L.
Proof.
  intros I Hp Hn1 Hn2 Hm. destruct pc; try done; [by destruct (Hn1 callback)|by eapply inv_lock|by eapply inv_inc|by eapply inv_write|
    by eapply inv_unlock|by eapply inv_wait|by eapply inv_result].
Qed.

Lemma inv_step w0 hd tr s L ev s' : inv w0 hd tr s L → estep run_job s ev s' → ∃ L', inv w0 hd (tr ++ ev) s' L'.
Proof.
  intros I H. destruct H as [p j s ? ? ? ?|p j pc s s' ? ? Hm|p pc f s s' ? ? Hm|p pc pc' s s' Hp Hn1 Hn2 Hm|it pc f s s' He Hf Hm
    |a pc s s' Hn Hm|pc b s s' Hm|s s' ? Hm]; rewrite ?app_nil_r.
  - exists L. apply inv_event; [done..|]. by apply inv_new.
  - exists L. by eapply inv_init.
  - exists (L ++ [p]). by eapply inv_insert.
  - exists L. by eapply inv_call.
  - exists L. by eapply inv_run.
  - assert (∃ L', inv w0 hd tr (set_engine pc s') L') as [L' I'].
    { destruct (engine_at s) eqn:He; try (exists L; eapply inv_control; by rewrite ?He); [by destruct (Hn iter)|..].
      - exists (tail L). by eapply inv_erase.
      - exists L. by eapply inv_post. }
    exists L'. by apply inv_event; [destruct a..|].
  - exists L. apply inv_event; [done..|]. by eapply inv_stop.
  - exists []. apply inv_event; [done..|]. by eapply inv_cleanup.
Qed.

Lemma inv_start hd w : inv w hd [] (engine_thread_init hd w) [].
Proof.
  split; simpl; try done.
  - split; [apply NoDup_singleton|]. simpl. unfold link, nxt, prv. by rewrite lookup_singleton_eq.
  - set_solver.
  - by exists [].
  - constructor.
  - set_solver.
  - intros t [= <-]. by split.
Qed.

Lemma inv_reachable hd w tr s : esteps run_job (engine_thread_init hd w) tr s → ∃ L, inv w hd tr s L.
Proof.
  induction 1 as [|tr s1 ev s2 _ [L I] Hs]; [exists []; apply inv_start|]. by eapply inv_step.
Qed.
End spec.
