(* ===== verification/EngineSpec.v ===== *)
(** * Every interleaving of launches

    Launches run one after the other in the order of their insertion, each caller gets
    the answer of its own callback, no record is used after its caller has left, and a
    wake-up is never lost. *)

From S2P Require Import Prelude List2 Engine EngineInv.

Section acts.
Context {J W : Type} (run_job : J → W → W * option string).
Implicit Types s : sys J W.

(** ** No step reads memory that is gone *)

Lemma call_acts w0 hd tr s L p pc : inv run_job w0 hd tr s L → launches s !! p = Some pc →
  ∃ r s', engine_thread_remote_launch p pc s = Some (r, s').
Proof.
  intros I Hp. pose proof (inv_launch _ _ _ _ _ _ _ _ I Hp) as O.
  assert (pc = L_wait ∨ pc = L_result ∨ (∃ e, pc = L_return e) ∨ ∃ t, thread s = Some t ∧ thread_ok (launches s) (engine_at s) (stop_at s) hd L t) as Ha.
  { destruct pc; eauto; right; right; right; by eapply (alive run_job). }
  destruct Ha as [->|[->|[[e ->]|(t & Ht & T)]]].
  - destruct O as (f & Hf & _). unfold engine_thread_remote_launch, semaphore_wait. run_step Hf. case_bool_decide; eauto.
  - destruct O as (f & Hf & _). unfold engine_thread_remote_launch. run_step Hf. eauto.
  - simpl. unfold ret. eauto.
  - destruct pc; simpl in O.
    + unfold engine_thread_remote_launch, list2_elem_init. run_step Ht. eauto.
    + unfold engine_thread_remote_launch, mutex_lock. run_step Ht. destruct (et_lock t); simpl; eauto.
    + unfold engine_thread_remote_launch, atomic_inc. run_step Ht. eauto.
    + unfold engine_thread_remote_launch, interrupt_write. run_step Ht. case_bool_decide; simpl; eauto.
    + destruct O as (_ & Hl & _). pose proof (i_list _ _ _ _ _ _ I) as Hd. rewrite <- (app_nil_r L) in Hd.
      destruct (list2_insert_spec _ _ _ _ p Hd Hl) as (r & ln' & Hins & _). simpl in Hins.
      unfold engine_thread_remote_launch. run_step Ht. rewrite (t_head _ _ _ _ _ _ T). unfold list2_end. rewrite Hins. simpl. eauto.
    + unfold engine_thread_remote_launch, mutex_unlock. run_step Ht. eauto.
    + destruct O as (f & Hf & _). unfold engine_thread_remote_launch, semaphore_wait. run_step Hf. case_bool_decide; eauto.
    + destruct O as (f & Hf & _). unfold engine_thread_remote_launch. run_step Hf. eauto.
    + simpl. unfold ret. eauto.
Qed.

Lemma served_frame w0 hd tr s L it : inv run_job w0 hd tr s L → it ∈ L ∨ current (engine_at s) = Some it →
  ∃ f, frames s !! it = Some f.
Proof.
  intros I H. destruct (i_listed _ _ _ _ _ _ I it H) as [E|E]; apply (inv_launch _ _ _ _ _ _ _ _ I) in E as (f & ? & _); eauto.
Qed.

Lemma engine_acts w0 hd tr s L a : inv run_job w0 hd tr s L → ∃ r s', thread_main_loop run_job a (engine_at s) s = Some (r, s').
Proof.
  intros I. destruct (decide (engine_at s = E_finished)) as [Ef|Ef]; [rewrite Ef; simpl; unfold ret; eauto|].
  destruct (engine_alive _ _ _ _ _ _ I Ef) as (t & Ht & T). pose proof (i_list _ _ _ _ _ _ I) as Hd.
  pose proof (i_engine _ _ _ _ _ _ I) as Eo. pose proof (t_head _ _ _ _ _ _ T) as Hh. pose proof (served_frame w0 hd tr s L) as Hs.
  destruct (engine_at s) eqn:He; simpl in Eo; unfold thread_main_loop, engine_thread_check_remote_launch.
  - unfold engine_thread_update_status. run_step Ht. destruct a; [case_bool_decide|..]; simpl; rewrite ?Ht; simpl; eauto.
  - run_step Ht. rewrite Hh, (list_empty _ _ _ Hd). eauto.
  - unfold mutex_lock. run_step Ht. destruct (et_lock t); simpl; eauto.
  - run_step Ht. rewrite Hh, (list_begin _ _ _ Hd). simpl. eauto.
  - run_step Ht. eauto.
  - destruct Eo as [L' ->]. destruct (Hs iter I) as [f Hf]; [by left; left|]. unfold run_launch. run_step Hf.
    destruct (run_job (rl_callback f) (world s)) as [w' e]. destruct (pending s); [|destruct e]; unfold bind, modify; simpl; eauto.
  - unfold atomic_dec. run_step Ht. eauto.
  - unfold interrupt_read. run_step Ht. destruct (et_fd t); simpl; [eauto|]. case_bool_decide; simpl; eauto.
  - destruct Eo as [L' ->]. destruct (list2_erase_spec _ _ [] L' iter Hd) as (r & ln' & Her & -> & _).
    unfold bind, elnk, zoom. rewrite Her. simpl. eauto.
  - destruct (Hs iter I) as [f Hf]; [by right|]. unfold remote_launch_release, semaphore_post. run_step Hf. eauto.
  - unfold mutex_unlock. run_step Ht. eauto.
  - unfold engine_thread_update_status. run_step Ht. destruct (stop s); simpl; rewrite ?Ht; simpl; eauto.
  - done.
Qed.

Lemma stop_acts w0 hd tr s L : inv run_job w0 hd tr s L → ∃ r s', thread_pool_stop (stop_at s) s = Some (r, s').
Proof.
  intros I. unfold thread_pool_stop, atomic_inc, interrupt_write. destruct (thread s) as [t|] eqn:Ht.
  - destruct (stop_at s); run_step Ht; [eauto|eauto| |eauto]. case_bool_decide; simpl; eauto.
  - destruct (i_freed _ _ _ _ _ _ I Ht) as (_ & [->| ->] & _); run_step Ht; eauto.
Qed.

(** ** Progress *)

(** How far a call is from its end, and how far the engine is from waiting with an empty
    list. *)
Definition call_left (pc : launch_pc J) : Z :=
  match pc with
  | L_init _ => 200 | L_lock => 100 | L_inc => 90 | L_write => 89 | L_insert => 88 | L_unlock => 40
  | L_wait => 30 | L_result => 20 | L_return _ => 0
  end.

Definition engine_left (pc : engine_pc) (L : list loc) : Z :=
  match pc with
  | E_receive => if decide (L = []) then 8 else 15
  | E_empty => if decide (L = []) then 10 else 14
  | E_stop => if decide (L = []) then 9 else 16
  | E_lock => 13 | E_begin => 12 | E_loop _ => 11 | E_run _ => 10 | E_dec _ => 9 | E_read _ => 8 | E_erase _ => 7
  | E_post _ _ => 12 | E_unlock => 10 | E_finished => 0
  end + 20 * zlen L.

(** The work before the call [p] returns: its own, that of the call that has the lock,
    that of the engine. *)
Definition holder_left (p : loc) (s : sys J W) : Z :=
  match thread s with
  | Some t =>
      match et_lock t with
      | Some (by_launch q) => if decide (q = p) then 0 else from_option call_left 0 (launches s !! q)
      | _ => 0
      end
  | None => 0
  end.
Definition left (p : loc) (s : sys J W) (L : list loc) : Z :=
  from_option call_left 0 (launches s !! p) + holder_left p s + engine_left (engine_at s) L.

Lemma engine_left_app pc L q : engine_left pc (L ++ [q]) ≤ engine_left pc L + 27.
Proof.
  unfold engine_left. rewrite zlen_app. unfold zlen at 2. destruct L as [|x L]; simpl (length [q]);
    destruct pc; repeat case_decide; simplify_eq/=; try lia; unfold zlen; simpl; lia.
Qed.

(** Events of the calls and the engine alone. *)
Definition internal (ev : list (event (J := J))) : Prop :=
  Forall (λ e, match e with Inserted _ _ | Ran _ _ => True | _ => False end) ev.

(** The call [q] can go on when the lock is free or its own. *)
Definition may_go (s : sys J W) (L : list loc) (q : loc) (pc : launch_pc J) : Prop :=
  match pc with
  | L_init _ | L_return _ => False
  | L_wait => q ∉ L ∧ current (engine_at s) ≠ Some q
  | L_lock => ∀ t, thread s = Some t → et_lock t = None
  | _ => True
  end.

Lemma call_goes w0 hd tr s L q pc t : inv run_job w0 hd tr s L → launches s !! q = Some pc → thread s = Some t →
  et_lock t = None ∨ et_lock t = Some (by_launch q) → may_go s L q pc →
  ∃ pc' s', engine_thread_remote_launch q pc s = Some (Some pc', s') ∧ call_left pc' + (if pc is L_insert then 48 else 1) ≤ call_left pc ∧
    (∀ j, pc' ≠ L_init j) ∧ launches s' = launches s ∧ engine_at s' = engine_at s ∧ stop s' = stop s ∧
    ∃ t', thread s' = Some t' ∧ (et_lock t' = None ∨ et_lock t' = Some (by_launch q)).
Proof.
  intros I Hq Ht Hlk Hm. pose proof (inv_launch _ _ _ _ _ _ _ _ I Hq) as O.
  assert (∀ pc', pc ≠ L_insert → call_left pc' + 1 ≤ call_left pc → call_left pc' + (if pc is L_insert then 48 else 1) ≤ call_left pc) as Hle by (by destruct pc).
  destruct (call_acts _ _ _ _ _ _ _ I Hq) as (r & s' & Hr). destruct pc; try done; simpl in Hm.
  - exists L_inc, (set_thread (Some (ET (et_status t) (Some (by_launch q)) (et_count t) (et_fd t) (et_launches t))) s).
    unfold engine_thread_remote_launch, mutex_lock. run_step Ht. rewrite (Hm t) by done. split_and!; try done. eexists. split; [done|]. by right.
  - unfold engine_thread_remote_launch, atomic_inc in *. run_step Ht. simplify_eq. do 2 eexists. split; [done|].
    split_and!; try done; [by case_bool_decide|by case_bool_decide|]. by eexists.
  - unfold engine_thread_remote_launch, interrupt_write in *. run_step Ht. case_bool_decide; simplify_eq/=; do 2 eexists; (split; [done|]);
      (split_and!; try done; by eexists).
  - destruct O as (_ & Hl & _). pose proof (i_list _ _ _ _ _ _ I) as Hd. rewrite <- (app_nil_r L) in Hd.
    destruct (list2_insert_spec _ _ _ _ q Hd Hl) as (r' & ln' & Hins & _). simpl in Hins.
    pose proof (i_thread _ _ _ _ _ _ I t Ht) as T.
    unfold engine_thread_remote_launch in *. run_step Ht. rewrite (t_head _ _ _ _ _ _ T) in *. unfold list2_end in *. rewrite Hins in *. simplify_eq/=.
    do 2 eexists. split; [done|]. split_and!; try done. by eexists.
  - unfold engine_thread_remote_launch, mutex_unlock in *. run_step Ht. simplify_eq. do 2 eexists. split; [done|].
    split_and!; try done. eexists. split; [done|]. by left.
  - destruct O as (f & Hf & [(HL & _)|[(HC & _)|(_ & _ & Hs & _)]]).
    + exfalso. destruct Hm as [Hm1 Hm2]. destruct (engine_at s); simpl in *; try done; destruct L; simpl in *; set_solver.
    + naive_solver.
    + unfold engine_thread_remote_launch, semaphore_wait in *. run_step Hf. rewrite bool_decide_true in * by lia. simplify_eq/=.
      do 2 eexists. split; [done|]. split_and!; try done. by eexists.
  - destruct O as (f & Hf & _). unfold engine_thread_remote_launch in *. run_step Hf. simplify_eq. do 2 eexists. split; [done|].
    split_and!; try done. by eexists.
Qed.

Lemma call_progress w0 hd tr s L q pc t : inv run_job w0 hd tr s L → launches s !! q = Some pc → thread s = Some t →
  et_lock t = None ∨ et_lock t = Some (by_launch q) → may_go s L q pc →
  ∃ ev s' L' pc', estep run_job s ev s' ∧ inv run_job w0 hd (tr ++ ev) s' L' ∧ internal ev ∧
    call_left pc' + engine_left (engine_at s') L' < call_left pc + engine_left (engine_at s) L ∧ (∀ j, pc' ≠ L_init j) ∧
    launches s' = <[q := pc']> (launches s) ∧ engine_at s' = engine_at s ∧ stop s' = stop s ∧
    ∃ t', thread s' = Some t' ∧ (et_lock t' = None ∨ et_lock t' = Some (by_launch q)).
Proof.
  intros I Hq Ht Hlk Hm. destruct (call_goes _ _ _ _ _ _ _ _ I Hq Ht Hlk Hm) as (pc' & s' & Hr & Hl & Hn & El & Ee & Es & Hth).
  assert (∀ j, pc ≠ L_init j) as Hni by (by destruct pc).
  assert (pc = L_insert ∨ pc ≠ L_insert) as [->|Hne] by (destruct pc; auto).
  - pose proof (inv_launch _ _ _ _ _ _ _ _ I Hq) as ([j Hf] & _ & _).
    exists [Inserted q j], (set_launch q pc' s'), (L ++ [q]), pc'. split_and!; try done.
    + by apply (step_insert run_job q pc' (new_frame j)).
    + by apply (inv_insert run_job w0 hd tr s L q (new_frame j) pc' s').
    + by repeat constructor.
    + simpl. rewrite Ee. pose proof (engine_left_app (engine_at s) L q). simpl in Hl. lia.
    + simpl. by rewrite El.
  - exists [], (set_launch q pc' s'), L, pc'. rewrite app_nil_r. split_and!; try done.
    + by apply (step_launch run_job q pc).
    + by eapply inv_call.
    + constructor.
    + simpl. rewrite Ee. destruct pc; try done; simpl in *; lia.
    + simpl. by rewrite El.
Qed.

(** The list after a step of the engine. *)
Definition list_after (pc : engine_pc) (L : list loc) : list loc := match pc with E_erase _ => tail L | _ => L end.

Lemma engine_goes w0 hd tr s L t : inv run_job w0 hd tr s L → thread s = Some t →
  et_lock t = None ∨ et_lock t = Some by_engine → engine_at s ≠ E_finished → (engine_at s = E_receive → et_fd t ≠ [] ∧ L ≠ []) →
  stop s = false →
  ∃ pc' s', thread_main_loop run_job Nothing (engine_at s) s = Some (Some pc', s') ∧
    engine_left pc' (list_after (engine_at s) L) < engine_left (engine_at s) L ∧ pc' ≠ E_finished ∧
    launches s' = launches s ∧ stop s' = stop s ∧
    ∃ t', thread s' = Some t' ∧ (et_lock t' = None ∨ et_lock t' = Some by_engine).
Proof.
  intros I Ht Hlk Hf Hr Hst. destruct (engine_acts _ _ _ _ _ Nothing I) as (r & s' & Hact).
  pose proof (i_thread _ _ _ _ _ _ I t Ht) as T. pose proof (i_list _ _ _ _ _ _ I) as Hd.
  pose proof (i_engine _ _ _ _ _ _ I) as Eo. pose proof (t_head _ _ _ _ _ _ T) as Hh. pose proof (t_engine _ _ _ _ _ _ T) as Te.
  pose proof (served_frame w0 hd tr s L) as Hs.
  destruct (engine_at s) eqn:He; simpl in Eo, Te; unfold thread_main_loop, engine_thread_check_remote_launch, engine_left in *; simpl list_after.
  - destruct (Hr eq_refl) as [Hfd HL]. unfold engine_thread_update_status in *. run_step Ht. rewrite bool_decide_false in * by done.
    rewrite Ht in *. simpl in *. simplify_eq/=. do 2 eexists. split; [done|]. split_and!; try done; [|by eexists].
    case_decide; [done|lia].
  - run_step Ht. rewrite Hh, (list_empty _ _ _ Hd) in *. simplify_eq/=. do 2 eexists. split; [done|].
    split_and!; try done; [|by case_bool_decide|by eexists].
    case_decide; case_bool_decide; try done; rewrite ?decide_True, ?decide_False by done; lia.
  - assert (et_lock t = None) as El by (destruct Hlk as [|Hlk]; [done|by apply Te in Hlk]).
    unfold mutex_lock in *. run_step Ht. rewrite El in *. simplify_eq/=. do 2 eexists. split; [done|]. split_and!; try done; [lia|]. eexists. split; [done|]. by right.
  - run_step Ht. rewrite Hh, (list_begin _ _ _ Hd) in *. simplify_eq/=. do 2 eexists. split; [done|]. split_and!; try done; [lia|by eexists].
  - run_step Ht. simplify_eq/=. do 2 eexists. split; [done|]. split_and!; try done; [case_bool_decide; lia|by case_bool_decide|by eexists].
  - destruct Eo as [L' EL]. destruct (Hs iter I) as [f Hfr]; [left; subst; by left|]. unfold run_launch in *. run_step Hfr.
    destruct (run_job (rl_callback f) (world s)) as [w' e].
    destruct (pending s); [|destruct e]; unfold bind, modify in *; simplify_eq/=; do 2 eexists; (split; [done|]);
      (split_and!; try done; [lia|by eexists]).
  - unfold atomic_dec in *. run_step Ht. simplify_eq/=. do 2 eexists. split; [done|]. split_and!; try done; [case_bool_decide; lia|by case_bool_decide|by eexists].
  - unfold interrupt_read in *. run_step Ht. destruct (et_fd t) as [|b fd]; [|case_bool_decide]; simplify_eq/=; do 2 eexists; (split; [done|]);
      (split_and!; try done; [lia|by eexists]).
  - destruct Eo as [L' EL]. subst L. destruct (list2_erase_spec _ _ [] L' iter Hd) as (r' & ln' & Her & -> & _).
    unfold bind, elnk, zoom in *. rewrite Her in *. simplify_eq/=. do 2 eexists. split; [done|]. split_and!; try done; [|by eexists].
    rewrite zlen_cons. lia.
  - destruct (Hs iter I) as [f Hfr]; [by right|]. unfold remote_launch_release, semaphore_post in *. run_step Hfr. simplify_eq/=.
    do 2 eexists. split; [done|]. split_and!; try done; [lia|by eexists].
  - unfold mutex_unlock in *. run_step Ht. simplify_eq/=. do 2 eexists. split; [done|]. split_and!; try done. eexists. split; [done|]. by left.
  - unfold engine_thread_update_status in *. run_step Ht. rewrite Hst in *. simplify_eq/=. do 2 eexists. split; [done|].
    split_and!; try done; [|by eexists]. case_decide; lia.
  - done.
Qed.

Lemma engine_progress w0 hd tr s L t : inv run_job w0 hd tr s L → thread s = Some t →
  et_lock t = None ∨ et_lock t = Some by_engine → engine_at s ≠ E_finished → (engine_at s = E_receive → et_fd t ≠ [] ∧ L ≠ []) →
  stop s = false →
  ∃ ev s' L', estep run_job s ev s' ∧ inv run_job w0 hd (tr ++ ev) s' L' ∧ internal ev ∧
    engine_left (engine_at s') L' < engine_left (engine_at s) L ∧ engine_at s' ≠ E_finished ∧
    launches s' = launches s ∧ stop s' = stop s ∧
    ∃ t', thread s' = Some t' ∧ (et_lock t' = None ∨ et_lock t' = Some by_engine).
Proof.
  intros I Ht Hlk Hf Hr Hst. destruct (engine_goes _ _ _ _ _ _ I Ht Hlk Hf Hr Hst) as (pc' & s' & Hact & Hl & Hn & El & Es & Hth).
  destruct (engine_at s) eqn:He; try (exists [], (set_engine pc' s'), L; rewrite app_nil_r;
    (split_and!; try done; [|by eapply inv_control; rewrite ?He|constructor]);
    apply (step_engine run_job Nothing); by rewrite He).
  - pose proof (i_engine _ _ _ _ _ _ I) as Eo. rewrite He in Eo. destruct Eo as [L' EL].
    destruct (served_frame _ _ _ _ _ iter I) as [f Hfr]; [left; subst; by left|].
    exists [Ran iter (rl_callback f)], (set_engine pc' s'), L. split_and!; try done.
    + by apply (step_run run_job iter).
    + by eapply inv_run.
    + by repeat constructor.
  - exists [], (set_engine pc' s'), (tail L). rewrite app_nil_r. split_and!; try done; [|by eapply inv_erase|constructor].
    apply (step_engine run_job Nothing); by rewrite He.
  - exists [], (set_engine pc' s'), L. rewrite app_nil_r. split_and!; try done; [|by eapply inv_post|constructor].
    apply (step_engine run_job Nothing); by rewrite He.
  - done.
Qed.
(** A waiting thread whose list is not empty can read its pipe. *)
Lemma woken w0 hd tr s L t : inv run_job w0 hd tr s L → thread s = Some t → engine_at s = E_receive → L ≠ [] →
  holder (launches s) t = None → stop_at s = S_idle → et_fd t ≠ [].
Proof.
  intros I Ht He HL Hh Hs. pose proof (i_thread _ _ _ _ _ _ I t Ht) as [_ _ _ _ Tc Tp _].
  rewrite He, Hh, Hs in *. simpl in *. intros Hfd. rewrite Hfd in Tp. unfold positive_count in Tp. destruct L as [|x L]; [done|].
  rewrite zlen_cons in Tc. pose proof (zlen_nonneg L). rewrite bool_decide_true in Tp by lia. unfold zlen in Tp. simpl in Tp. lia.
Qed.

(** Some step of the calls and the engine brings the call [p] nearer to its end. *)
Lemma launch_progress w0 hd tr s L p pc : inv run_job w0 hd tr s L → launches s !! p = Some pc →
  (∀ j, pc ≠ L_init j) → (∀ e, pc ≠ L_return e) → engine_at s ≠ E_finished → stop s = false →
  ∃ ev s' L' pc', estep run_job s ev s' ∧ inv run_job w0 hd (tr ++ ev) s' L' ∧ internal ev ∧
    left p s' L' < left p s L ∧ launches s' !! p = Some pc' ∧ (∀ j, pc' ≠ L_init j) ∧ engine_at s' ≠ E_finished ∧ stop s' = false.
Proof.
  intros I Hp Hni Hnr Hf Hst. destruct (engine_alive _ _ _ _ _ _ I Hf) as (t & Ht & T).
  destruct (et_lock t) as [[|q]|] eqn:Hlk.
  - destruct (engine_progress _ _ _ _ _ _ I Ht) as (ev & s' & L' & ? & ? & ? & ? & ? & El & Es & t' & Ht' & Hl'); [by right|done| |done|].
    { intros E. rewrite E in T. apply (t_engine _ _ _ _ _ _ T) in Hlk. done. }
    exists ev, s', L', pc. rewrite El, Es. split_and!; try done. unfold left, holder_left. rewrite El, Ht, Ht', Hlk.
    destruct Hl' as [-> | ->]; lia.
  - destruct (t_owner _ _ _ _ _ _ T q Hlk) as [qc Hq]. pose proof (proj2 (t_launch _ _ _ _ _ _ T q qc Hq) Hlk) as Hqc.
    destruct (call_progress _ _ _ _ _ _ _ _ I Hq Ht) as (ev & s' & L' & pc' & ? & ? & ? & Hlt & Hni' & El & Ee & Es & t' & Ht' & Hl');
      [by right|by destruct qc|].
    destruct (decide (q = p)) as [->|Hne].
    + exists ev, s', L', pc'. rewrite El, lookup_insert_eq, Ee, Es. split_and!; try done.
      unfold left, holder_left. rewrite El, lookup_insert_eq, Hp, Ht, Ht', Hlk, decide_True by done. simplify_eq/=.
      destruct Hl' as [-> | ->]; rewrite ?decide_True by done; lia.
    + exists ev, s', L', pc. rewrite El, lookup_insert_ne, Ee, Es by done. split_and!; try done.
      unfold left, holder_left. rewrite El, lookup_insert_ne, Hp, Ht, Ht', Hlk, decide_False by done. rewrite Hq. simpl.
      assert (0 ≤ call_left pc') by (by destruct pc').
      destruct Hl' as [-> | ->]; rewrite ?decide_False, ?lookup_insert_eq by done; simpl; lia.
  - assert (holder (launches s) t = None) as Hh by (by apply holder_none; congruence).
    destruct (decide (engine_at s = E_receive ∧ L = [])) as [[He ->]|Hne].
    + destruct (call_progress _ _ _ _ _ _ _ _ I Hp Ht) as (ev & s' & L' & pc' & ? & ? & ? & Hlt & Hni' & El & Ee & Es & t' & Ht' & Hl');
        [by left| |].
      { pose proof (t_launch _ _ _ _ _ _ T p pc Hp) as Hl. rewrite Hlk in Hl. destruct pc; simpl in Hl |- *; try done;
          try (by discriminate (proj1 Hl eq_refl)).
        - by destruct (Hni callback).
        - intros t0 Ht0. congruence.
        - rewrite He. split; [set_solver|done].
        - by destruct (Hnr error). }
      exists ev, s', L', pc'. rewrite El, lookup_insert_eq, Ee, Es. split_and!; try done.
      unfold left, holder_left. rewrite El, lookup_insert_eq, Hp, Ht, Ht', Hlk. simpl. destruct Hl' as [-> | ->]; rewrite ?decide_True by done; lia.
    + destruct (engine_progress _ _ _ _ _ _ I Ht) as (ev & s' & L' & ? & ? & ? & ? & ? & El & Es & t' & Ht' & Hl'); [by left|done| |done|].
      { intros E. assert (L ≠ []) by naive_solver. split; [|done]. eapply woken; try done. by apply (i_stop _ _ _ _ _ _ I). }
      exists ev, s', L', pc. rewrite El, Es. split_and!; try done. unfold left, holder_left. rewrite El, Ht, Ht', Hlk.
      destruct Hl' as [-> | ->]; lia.
Qed.

Lemma left_nonneg p s L : 0 ≤ left p s L.
Proof.
  assert (∀ o : option (launch_pc J), 0 ≤ from_option call_left 0 o) as Hc by (by intros [[]|]).
  assert (0 ≤ holder_left p s).
  { unfold holder_left. destruct (thread s) as [t|]; [|done]. destruct (et_lock t) as [[]|]; try done. case_decide; [done|apply Hc]. }
  assert (0 ≤ engine_left (engine_at s) L).
  { unfold engine_left. pose proof (zlen_nonneg L). destruct (engine_at s); try case_decide; lia. }
  unfold left. pose proof (Hc (launches s !! p)). lia.
Qed.

Lemma launch_returns w0 hd tr s L p pc : inv run_job w0 hd tr s L → launches s !! p = Some pc →
  (∀ j, pc ≠ L_init j) → engine_at s ≠ E_finished → stop s = false →
  ∃ tr' s' e, esteps run_job s tr' s' ∧ internal tr' ∧ launches s' !! p = Some (L_return e).
Proof.
  remember (Z.to_nat (left p s L)) as n eqn:Hn. revert tr s L pc Hn. induction n as [n IH] using lt_wf_ind.
  intros tr s L pc -> I Hp Hni Hf Hst.
  assert ((∃ e, pc = L_return e) ∨ ∀ e, pc ≠ L_return e) as [[e ->]|Hnr] by (destruct pc; naive_solver).
  - exists [], s, e. split_and!; [constructor|constructor|done].
  - destruct (launch_progress _ _ _ _ _ _ _ I Hp Hni Hnr Hf Hst) as (ev & s1 & L1 & pc1 & Hs & I1 & Hint & Hlt & Hp1 & Hni1 & Hf1 & Hst1).
    pose proof (left_nonneg p s1 L1).
    destruct (IH (Z.to_nat (left p s1 L1)) ltac:(lia) _ _ _ _ eq_refl I1 Hp1 Hni1 Hf1 Hst1) as (tr' & s' & e & Hr & Hint' & He).
    exists (ev ++ tr'), s', e. split_and!; [|by apply Forall_app|done].
    clear - Hs Hr. induction Hr as [|tr1 s2 ev2 s3 _ IH' H3].
    + rewrite app_nil_r. apply (esteps_step run_job s [] s ev s1); [constructor|done].
    + rewrite app_assoc. by eapply esteps_step.
Qed.
End acts.

(** ** Whose callback runs *)

Section called.
Context {J W : Type} (run_job : J → W → W * option string).
Implicit Types s : sys J W.

(** The callback of a record is the one its caller gave. *)
Definition frames_from (tr : list (event (J := J))) (fr : gmap loc (remote_launch J)) : Prop :=
  map_Forall (λ p f, Called p (rl_callback f) ∈ tr) fr.

Record called (tr : list (event (J := J))) (s : sys J W) : Prop := {
  c_init : ∀ p j, launches s !! p = Some (L_init j) → Called p j ∈ tr;
  c_frames : frames_from tr (frames s);
  c_inserted : ∀ p j, (p, j) ∈ inserted tr → Called p j ∈ tr;
}.

Lemma frames_update tr fr p f f' : frames_from tr fr → fr !! p = Some f → rl_callback f' = rl_callback f →
  frames_from tr (<[p := f']> fr).
Proof. intros H Hp E. apply map_Forall_insert_2; [rewrite E; by apply (H p)|done]. Qed.

(** The step [m] keeps the callbacks of the records. *)
Definition keeps_callbacks (s s' : sys J W) : Prop :=
  launches s' = launches s ∧ ∀ tr, frames_from tr (frames s) → frames_from tr (frames s').

(** Every way the step [Hm] can take. *)
Ltac ways Hm :=
  run_step Hm; simplify_eq/=; repeat (case_match; unfold ret, stuck in *; simplify_eq/=; try done).

Lemma keeps_call p pc r s s' : (∀ j, pc ≠ L_init j) → engine_thread_remote_launch p pc s = Some (r, s') → keeps_callbacks s s'.
Proof.
  intros Hni Hm. destruct pc as [j| | | | | | | |e]; [by destruct (Hni j)|..];
    unfold engine_thread_remote_launch, mutex_lock, mutex_unlock, atomic_inc, interrupt_write, semaphore_wait in Hm; ways Hm;
    split; simpl; try done; intros tr Hok.
  - by eapply frames_update.
  - by apply map_Forall_delete.
Qed.

Lemma keeps_engine a pc r s s' : thread_main_loop run_job a pc s = Some (r, s') → keeps_callbacks s s'.
Proof.
  intros Hm. destruct pc; unfold thread_main_loop, engine_thread_check_remote_launch, run_launch, mutex_lock, mutex_unlock, atomic_dec,
    interrupt_read, engine_thread_update_status, remote_launch_release, semaphore_post in Hm; ways Hm;
    split; simpl; try done; intros tr Hok; by eapply frames_update.
Qed.

Lemma called_mono tr ev s s' : called tr s → inserted ev = [] → launches s' = launches s → frames_from tr (frames s') → called (tr ++ ev) s'.
Proof.
  intros [] Hev El Hf. split.
  - intros p j. rewrite El. intros Hp. apply elem_of_app. left. auto.
  - eapply map_Forall_impl; [exact Hf|]. intros p f Hp. apply elem_of_app. by left.
  - intros p j. rewrite inserted_app, Hev, app_nil_r. intros Hp. apply elem_of_app. left. auto.
Qed.

Lemma called_move tr s p pc : called tr s → (∀ j, pc ≠ L_init j) → called tr (set_launch p pc s).
Proof.
  intros [] Hn. split; simpl; try done. intros q j. at_call p q; [|auto]. intros [= ->]. by destruct (Hn j).
Qed.

(** No step but the first leads to the first point. *)
Lemma call_next p pc pc' s s' : engine_thread_remote_launch p pc s = Some (Some pc', s') → ∀ j, pc' ≠ L_init j.
Proof.
  intros Hm j. destruct pc; unfold engine_thread_remote_launch, mutex_lock, mutex_unlock, atomic_inc, interrupt_write, semaphore_wait in Hm;
    ways Hm; try case_bool_decide; done.
Qed.

Lemma called_step w0 hd tr s L ev s' : inv run_job w0 hd tr s L → called tr s → estep run_job s ev s' → called (tr ++ ev) s'.
Proof.
  intros I C H. destruct H as [p j s ? ? ? ?|p j pc s s' Hp ? Hm|p pc f s s' ? Hf Hm|p pc pc' s s' Hp Hn1 Hn2 Hm|it pc f s s' He Hf Hm
    |a pc s s' Hn Hm|pc b s s' Hm|s s' Hfree Hm].
  - destruct C as [C1 C2 C3]. split; simpl.
    + intros q k. at_call p q; [intros [= ->]; set_solver|]. intros Hq. apply elem_of_app. left. auto.
    + eapply map_Forall_impl; [exact C2|]. intros q f Hq. apply elem_of_app. by left.
    + intros q k. rewrite inserted_app, app_nil_r. intros Hq. apply elem_of_app. left. auto.
  - apply called_move; [|by eapply call_next]. destruct C as [C1 C2 C3]. rewrite app_nil_r.
    unfold engine_thread_remote_launch, list2_elem_init in Hm. ways Hm. split; simpl; [done| |done].
    apply map_Forall_insert_2; [by apply C1|done].
  - apply called_move; [|by eapply call_next]. destruct (keeps_call p L_insert _ _ _ (λ j E, ltac:(discriminate E)) Hm) as [El Hk]. destruct C as [C1 C2 C3]. split.
    + intros q k. rewrite El. intros Hq. apply elem_of_app. left. auto.
    + eapply map_Forall_impl; [by apply Hk|]. intros q g Hq. apply elem_of_app. by left.
    + intros q k. rewrite inserted_app. intros [Hq|Hq]%elem_of_app; apply elem_of_app; left; [auto|].
      apply list_elem_of_singleton in Hq. simplify_eq. by apply C2.
  - apply called_move; [|by eapply call_next]. destruct (keeps_call _ _ _ _ _ Hn1 Hm) as [El Hk].
    eapply called_mono; [done|done|done|by apply Hk, c_frames].
  - destruct (keeps_engine _ _ _ _ _ Hm) as [El Hk]. eapply called_mono; [done|done|done|by apply Hk, c_frames].
  - destruct (keeps_engine _ _ _ _ _ Hm) as [El Hk]. eapply called_mono; [done|by destruct a|done|by apply Hk, c_frames].
  - unfold thread_pool_stop, atomic_inc, interrupt_write in Hm. eapply (called_mono _ _ s); [done|done|..]; destruct (stop_at s); ways Hm; try done; by apply C.
  - apply (runs_det _ _ _ _ _ (cleanup_runs _ _ _ _ _ _ I Hfree)) in Hm as (ln & fr & -> & _ & _ & H1 & H2).
    eapply called_mono; [done|done|done|]. intros p f Hp. simpl in Hp. destruct C as [_ C2 _]. destruct (decide (p ∈ L)) as [Hin|Hout].
    + destruct (listed_frames _ _ _ _ _ _ _ I Hin) as [f0 Hf0]. rewrite (H1 p f0) in Hp by done. simplify_eq/=. by apply (C2 p).
    + rewrite H2 in Hp by done. by apply (C2 p).
Qed.

Lemma called_reachable hd w tr s : esteps run_job (engine_thread_init hd w) tr s → called tr s.
Proof.
  induction 1 as [|tr s1 ev s2 Hs IH Hst].
  - split; [done|done|]. intros p j. simpl. set_solver.
  - destruct (inv_reachable _ _ _ _ _ Hs) as [L I]. by eapply called_step.
Qed.
End called.

(** ** The theorems *)

(** C11 Launches are executed one after the other in the order of their insertion,
    whatever the interleaving of the calling threads, the engine and a stop: the
    callbacks that have run are the first of those inserted, each is inserted at most
    once and is the one its caller gave, and the world of the engine is the result of
    running them in sequence. A call that has returned has the error of its own callback
    at its place in that sequence, or "aborted" if the thread was freed before its turn. No
    thread is cancelled, and the handling of packets leaves no error pending. *)
Theorem engine_launches_in_order {J W} (run_job : J → W → W * option string) hd w tr s :
  esteps run_job (engine_thread_init hd w) tr s →
  (∃ rest, inserted tr = ran tr ++ rest) ∧ NoDup (inserted tr).*1 ∧
  (∀ p j, (p, j) ∈ inserted tr → Called p j ∈ tr) ∧
  world s = after run_job w (ran tr) ∧
  ∀ p e, launches s !! p = Some (L_return e) →
    answers run_job w (ran tr) p e ∨ thread s = None ∧ p ∉ (ran tr).*1 ∧ e = Some "aborted"%string.
Proof.
  intros Hs. pose proof (called_reachable _ _ _ _ _ Hs) as C. destruct (inv_reachable _ _ _ _ _ Hs) as [L I]. split_and!.
  - destruct (i_order _ _ _ _ _ _ I) as (rest & ? & _). eauto.
  - apply I.
  - apply C.
  - apply I.
  - intros p e Hp. apply (inv_launch _ _ _ _ _ _ _ _ I) in Hp as (_ & _ & _ & [Ha|(Hf & _ & Hn & ->)]); [by left|right].
    by destruct (thread s).
Qed.

(** C12 The records and the wake-ups of launches, under two assumptions on the rest of the
    program: no calling thread and no engine thread is cancelled, and the thread is freed
    only when it has finished and every call has put its record into the list (so that the
    callers do not use the thread afterwards is assumed, not shown). Then no interleaving
    makes the code read the record of a caller that has left or follow a broken list, also
    when the list is emptied at the end of the thread; the pipe never fails: a byte is
    written exactly when one is owed and read exactly when one is there; and while the
    engine thread waits for a packet with launches in its list, either a byte is in the pipe
    or the thread that will write it is about to. *)
Theorem engine_threads_safe {J W} (run_job : J → W → W * option string) hd w tr s :
  esteps run_job (engine_thread_init hd w) tr s →
  ¬ crashes run_job s ∧ interrupt_errors s = 0%nat ∧
  ∀ t, thread s = Some t → engine_at s = E_receive → list2_empty hd (links s) ≠ Some (true, links s) →
    et_fd t ≠ [] ∨ stop_at s = S_write ∨ ∃ p, et_lock t = Some (by_launch p) ∧ launches s !! p = Some L_write.
Proof.
  intros Hs. destruct (inv_reachable _ _ _ _ _ Hs) as [L I]. split_and!.
  - intros [(p & pc & Hp & Hn)|[[a Hn]|[Hn|[Hf Hn]]]].
    + destruct (call_acts _ _ _ _ _ _ _ _ I Hp) as (? & ? & ?). congruence.
    + destruct (engine_acts _ _ _ _ _ _ a I) as (? & ? & ?). congruence.
    + destruct (stop_acts _ _ _ _ _ _ I) as (? & ? & ?). congruence.
    + destruct (cleanup_runs _ _ _ _ _ _ I Hf) as (? & ? & ? & _). congruence.
  - apply I.
  - intros t Ht He Hl. pose proof (i_thread _ _ _ _ _ _ I t Ht) as [_ _ _ _ Tc Tp _]. rewrite He in *. simpl in *.
    rewrite (list_empty _ _ _ (i_list _ _ _ _ _ _ I)) in Hl. assert (L ≠ []) by (intros ->; by apply Hl).
    assert (0 < et_count t).
    { rewrite Tc. destruct L as [|x L]; [done|]. rewrite zlen_cons. pose proof (zlen_nonneg L).
      destruct (holder _ _) as [[]|], (stop_at s); simpl; lia. }
    unfold positive_count in Tp. rewrite bool_decide_true in Tp by done.
    destruct (decide (et_fd t = [])) as [E|E]; [right|by left]. rewrite E in Tp. unfold zlen in Tp. simpl in Tp.
    destruct (stop_at s); simpl in Tp; try (by left); right;
      (destruct (holder (launches s) t) as [pc|] eqn:Eh; [|simpl in Tp; lia]); destruct pc; simpl in Tp; try lia;
      unfold holder in Eh; destruct (et_lock t) as [[|p]|]; try done; eauto.
Qed.

(** C13 No launch can be forgotten: from every state that the threads can reach while the
    engine runs and was not told to stop, the calling threads and the engine alone, without
    any packet, can go on so that a call that has begun returns. *)
Theorem engine_launch_served {J W} (run_job : J → W → W * option string) hd w tr s p pc :
  esteps run_job (engine_thread_init hd w) tr s →
  launches s !! p = Some pc → (∀ j, pc ≠ L_init j) → engine_at s ≠ E_finished → stop s = false →
  ∃ tr' s' e, esteps run_job s tr' s' ∧ internal tr' ∧ launches s' !! p = Some (L_return e).
Proof.
  intros Hs Hp Hn Hf Hst. destruct (inv_reachable _ _ _ _ _ Hs) as [L I]. by eapply launch_returns.
Qed.

(** ** Runs *)

Section execute.
Context {J W : Type} (run_job : J → W → W * option string).

(** One step of a given thread. *)
Inductive turn := New (p : loc) (j : J) | Call (p : loc) | Engine (a : arrival).

Definition take_turn (x : turn) (s : sys J W) : option (list (event (J := J)) * sys J W) :=
  match x with
  | New p j =>
      if decide (is_null (thread s) = false ∧ launches s !! p = None ∧ frames s !! p = None ∧ links s !! p = None)
      then Some ([Called p j], set_launch p (L_init j) s) else None
  | Call p =>
      pc ← launches s !! p;
      if decide (Z.of_nat (size (frames s)) < 2 ^ 31) then
        match engine_thread_remote_launch p pc s with
        | Some (Some pc', s') =>
            match pc with
            | L_insert => f ← frames s !! p; Some ([Inserted p (rl_callback f)], set_launch p pc' s')
            | _ => Some ([], set_launch p pc' s')
            end
        | _ => None
        end
      else None
  | Engine a =>
      match thread_main_loop run_job a (engine_at s) s with
      | Some (Some pc', s') =>
          match engine_at s, a with
          | E_run it, Nothing => f ← frames s !! it; Some ([Ran it (rl_callback f)], set_engine pc' s')
          | E_run _, _ => None
          | _, Nothing => Some ([], set_engine pc' s')
          | _, _ => Some ([Arrived a], set_engine pc' s')
          end
      | _ => None
      end
  end%stdpp.

Lemma take_turn_step x s ev s' : take_turn x s = Some (ev, s') → estep run_job s ev s'.
Proof.
  destruct x as [p j|p|a]; simpl.
  - case_decide as H; [|done]. destruct H as (? & ? & ? & ?). intros [= <- <-]. apply step_new; try done. by destruct (thread s).
  - destruct (launches s !! p) as [pc|] eqn:Hp; [|done]. simpl. case_decide; [|done].
    destruct (engine_thread_remote_launch p pc s) as [[[pc'|] s1]|] eqn:Hm; [|done|done].
    destruct pc; try (intros [= <- <-]; by eapply step_launch); [intros [= <- <-]; by eapply step_init|].
    destruct (frames s !! p) as [f|] eqn:Hf; [|done]. intros [= <- <-]. by eapply step_insert.
  - destruct (thread_main_loop run_job a (engine_at s) s) as [[[pc'|] s1]|] eqn:Hm; [|done|done].
    destruct (engine_at s) eqn:He; try (intros E; assert (ev = match a with Nothing => [] | _ => [Arrived a] end ∧ s' = set_engine pc' s1)
      as [-> ->] by (by destruct a; simplify_eq); apply (step_engine run_job a); by rewrite He).
    destruct a; try done. destruct (frames s !! iter) as [f|] eqn:Hf; [|done]. intros [= <- <-]. by eapply step_run.
Qed.

Fixpoint take_turns (xs : list turn) (tr : list (event (J := J))) (s : sys J W) : option (list (event (J := J)) * sys J W) :=
  match xs with
  | [] => Some (tr, s)
  | x :: xs => match take_turn x s with Some (ev, s') => take_turns xs (tr ++ ev) s' | None => None end
  end.

Lemma take_turns_steps s0 xs tr s tr' s' : esteps run_job s0 tr s → take_turns xs tr s = Some (tr', s') → esteps run_job s0 tr' s'.
Proof.
  revert tr s. induction xs as [|x xs IH]; simpl; intros tr s Hs; [by intros [= <- <-]|].
  destruct (take_turn x s) as [[ev s1]|] eqn:E; [|done]. apply IH. eapply esteps_step; [done|]. by eapply take_turn_step.
Qed.
End execute.
#[global] Arguments turn J : clear implicits.

(** Two callers, 2 and 3; the second callback fails. *)
Definition ex_job (j w : Z) : Z * option string := (w + j, if bool_decide (j < 0) then Some "negative"%string else None).

Definition ex_calls : list (turn Z) :=
  [New 2 5; New 3 (-1); Call 2; Call 2; Call 2; Call 3; Call 2; Call 2; Call 2; Call 3; Call 3; Call 3; Call 3].
Definition ex_engine : list (turn Z) := repeat (Engine Nothing) 18.
Definition ex_returns : list (turn Z) := [Call 3; Call 2; Call 3; Call 2].

Definition ex_start : sys Z Z := engine_thread_init 1 0.
Definition ex_run (xs : list (turn Z)) : list (event (J := Z)) * sys Z Z := default ([], ex_start) (take_turns ex_job xs [] ex_start).

Lemma ex_run_steps xs : is_null (take_turns ex_job xs [] ex_start) = false → esteps ex_job ex_start (ex_run xs).1 (ex_run xs).2.
Proof.
  unfold ex_run. destruct (take_turns ex_job xs [] ex_start) as [[tr s]|] eqn:E; [|done]. intros _. simpl.
  eapply take_turns_steps; [constructor|done].
Qed.

Lemma engine_launches_in_order_witness :
  let '(tr, s) := ex_run (ex_calls ++ ex_engine ++ ex_returns) in
  world s = 4 ∧ launches s !! 2%positive = Some (L_return None) ∧ launches s !! 3%positive = Some (L_return (Some "negative"%string)) ∧
  world s = after ex_job 0 (ran tr) ∧ NoDup (inserted tr).*1.
Proof.
  pose proof (engine_launches_in_order ex_job 1 0 _ _ (ex_run_steps (ex_calls ++ ex_engine ++ ex_returns) ltac:(by vm_compute))) as (_ & H1 & _ & H2 & _).
  destruct (ex_run (ex_calls ++ ex_engine ++ ex_returns)) as [tr s] eqn:E. vm_compute in E. injection E as <- <-.
  split_and!; [by vm_compute|by vm_compute|by vm_compute|exact H2|exact H1].
Defined.

Lemma engine_threads_safe_witness :
  let s := (ex_run ex_calls).2 in
  engine_at s = E_receive ∧ list2_empty 1 (links s) = Some (false, links s) ∧ ¬ crashes ex_job s.
Proof.
  pose proof (engine_threads_safe ex_job 1 0 _ _ (ex_run_steps ex_calls ltac:(by vm_compute))) as (H & _ & _).
  split_and!; [by vm_compute|by vm_compute|exact H].
Defined.

Lemma engine_launch_served_witness :
  ∃ tr' s' e, esteps ex_job (ex_run ex_calls).2 tr' s' ∧ internal tr' ∧ launches s' !! 3%positive = Some (L_return e).
Proof.
  apply (engine_launch_served ex_job 1 0 (ex_run ex_calls).1 (ex_run ex_calls).2 3 L_wait).
  - apply ex_run_steps. by vm_compute.
  - by vm_compute.
  - done.
  - by vm_compute.
  - by vm_compute.
Defined.

(** ** Outside the intended domain *)

(** A caller that is cancelled while it waits leaves its record in the list: the engine
    then runs the callback of a record on a stack that is gone. *)
Theorem cancelled_launch_read :
  let s := (ex_run (ex_calls ++ repeat (Engine Nothing) 5)).2 in
  launches s !! 2%positive = Some L_wait ∧ engine_at s = E_run 2 ∧
  match free_frame 2 s with
  | Some (_, s') => thread_main_loop ex_job Nothing (engine_at s') s' = None
  | None => False
  end.
Proof. by vm_compute. Qed.

(** A thread that ends does not answer the launches in its list, the callers wait until
    it is freed. *)
Theorem finished_thread_answers_nobody :
  let s := (ex_run (ex_calls ++ [Engine Closed])).2 in
  engine_at s = E_finished ∧ list2_empty 1 (links s) = Some (false, links s) ∧
  (∀ a, thread_main_loop ex_job a (engine_at s) s = Some (None, s)) ∧
  engine_thread_remote_launch 2 L_wait s = Some (None, s) ∧ engine_thread_remote_launch 3 L_wait s = Some (None, s).
Proof. by vm_compute. Qed.
