(* ===== verification/Vector.v ===== *)
(** * The growable array of include/haka/container/vector.h

    The elements are opaque words: [vc_data] is the allocated memory, one word for
    each of the [allocated_count] places, NULL when there is none. [vc_mem] is the
    number of [realloc] calls that succeed, [vc_junk] what fresh memory holds and
    [vc_destructed] the elements given to the destructor. *)

From S2P Require Import Prelude.

Record vector := Vector {
  vc_count : Z;
  vc_allocated : Z;
  vc_data : option (list Z);
  vc_destruct : bool;
  vc_mem : nat;
  vc_junk : Z;
  vc_destructed : list Z;
  vc_error : option string;
}.

Abbreviation VCM := (M vector).

Definition set_count (n : Z) : VCM unit :=
  modify (λ v, Vector n (vc_allocated v) (vc_data v) (vc_destruct v) (vc_mem v) (vc_junk v) (vc_destructed v) (vc_error v)).
Definition set_memory (n : Z) (d : option (list Z)) : VCM unit :=
  modify (λ v, Vector (vc_count v) n d (vc_destruct v) (vc_mem v) (vc_junk v) (vc_destructed v) (vc_error v)).
Definition vec_error (msg : string) : VCM unit :=
  modify (λ v, Vector (vc_count v) (vc_allocated v) (vc_data v) (vc_destruct v) (vc_mem v) (vc_junk v) (vc_destructed v)
    (if vc_error v is Some e then Some e else Some msg)).

(** [realloc] to [n] places: the common part is kept; none is left for 0. *)
Definition realloc (n : Z) : VCM (option (list Z)) :=
  v ← gets id;
  if bool_decide (n = 0) then ret None else
  match vc_mem v with
  | O => ret None
  | S mem =>
      modify (λ v, Vector (vc_count v) (vc_allocated v) (vc_data v) (vc_destruct v) mem (vc_junk v) (vc_destructed v) (vc_error v));;
      let old := default [] (vc_data v) in
      ret (Some (ztake n old ++ replicate (Z.to_nat (n - zlen old)) (vc_junk v)))
  end.

Definition vector_reserve (count : Z) : VCM bool :=
  v ← gets id;
  let count := if bool_decide (count < vc_count v) then vc_count v else count in
  if bool_decide (count = vc_allocated v) then ret true else
  data ← realloc count;
  if is_null data && bool_decide (count > 0) then
    set_memory (vc_allocated v) None;; vec_error "memory error";; ret false
  else
    set_memory count data;; ret true.

(** The destructor runs on the elements from [count] on. *)
Definition vector_resize (count : Z) : VCM bool :=
  v ← gets id;
  if bool_decide (count < vc_count v) then
    (if vc_destruct v then
       d ← deref (vc_data v);
       modify (λ v, Vector (vc_count v) (vc_allocated v) (vc_data v) (vc_destruct v) (vc_mem v) (vc_junk v)
         (vc_destructed v ++ zslice count (vc_count v - count) d) (vc_error v))
     else skip);;
    set_count count;; ret true
  else if bool_decide (count > vc_count v) then
    set_count count;;
    if bool_decide (count ≤ vc_allocated v) then ret true else vector_reserve count
  else ret true.

Definition vector_destroy : VCM unit := _ ← vector_resize 0; _ ← vector_reserve 0; skip.

Definition vector_pop : VCM unit :=
  v ← gets id;
  c_assert (bool_decide (vc_count v > 1));;
  _ ← vector_resize (vc_count v - 1); skip.

(** The place of an element; loads and stores through the pointer. *)
Definition _vector_get (index : Z) : VCM Z :=
  v ← gets id;
  c_assert (negb (is_null (vc_data v)));;
  c_assert (bool_decide (0 ≤ index) && bool_decide (index < vc_count v));;
  ret index.

Definition elem_load (index : Z) : VCM Z :=
  v ← gets id; d ← deref (vc_data v); deref (d !! Z.to_nat index).
Definition elem_store (index x : Z) : VCM unit :=
  v ← gets id; d ← deref (vc_data v);
  c_assert (bool_decide (index < zlen d));;
  set_memory (vc_allocated v) (Some (<[Z.to_nat index := x]> d)).

Definition vector_grow : VCM bool := v ← gets id; vector_reserve (vc_count v * 2 + 1).

Definition _vector_push : VCM (option Z) :=
  v ← gets id;
  ok ← (if bool_decide (vc_count v = vc_allocated v) then vector_grow else ret true);
  if negb ok then ret None else
  _ ← vector_resize (vc_count v + 1);
  v ← gets id;
  p ← _vector_get (vc_count v - 1);
  ret (Some p).

Definition _vector_create (reservecount : Z) (destruct : bool) (mem : nat) (junk : Z) : bool * vector :=
  if bool_decide (reservecount > 0) then
    match mem with
    | O => (false, Vector 0 reservecount None destruct O junk [] (Some "memory error"%string))
    | S mem => (true, Vector 0 reservecount (Some (replicate (Z.to_nat reservecount) junk)) destruct mem junk [] None)
    end
  else (true, Vector 0 reservecount None destruct mem junk [] None).

(** ** The elements of a vector *)

Record vec_rep (v : vector) (xs : list Z) : Prop := {
  vr_count : vc_count v = zlen xs;
  vr_room : zlen xs ≤ vc_allocated v;
  vr_data : zlen (default [] (vc_data v)) = vc_allocated v;
  vr_elems : ztake (zlen xs) (default [] (vc_data v)) = xs;
}.

Section rep.
Lemma create_rep n d mem junk v : 0 ≤ n → _vector_create n d mem junk = (true, v) → vec_rep v [].
Proof.
  intros Hn. unfold _vector_create. case_bool_decide; [destruct mem|]; intros [= <-]; split; simpl; try done.
  - unfold zlen. rewrite length_replicate. lia.
  - rewrite zlen_nil. lia.
Qed.

(** Growing keeps the elements. *)
Lemma runs_reserve v xs n mem Q :
  vec_rep v xs → zlen xs ≤ n → vc_mem v = S mem →
  (∀ v', vec_rep v' xs → vc_allocated v' = n → vc_destruct v' = vc_destruct v →
     (vc_mem v ≤ S (vc_mem v'))%nat → Q true v') →
  runs (vector_reserve n) v Q.
Proof.
  intros [H1 H2 H3 H4] Hn Hm HQ. pose proof (zlen_nonneg xs). unfold vector_reserve. step.
  rewrite (bool_decide_false (n < vc_count (id v))) by (simpl; lia). case_test as He.
  { step. apply HQ; try done. simpl. lia. }
  unfold realloc. apply runs_bind. step. simpl in *. case_test as Hz.
  { subst n. step. simpl. unfold set_memory. step. step. apply HQ; try done; [|simpl; lia].
    assert (xs = []) as -> by (apply zlen_0_inv; lia). split; try done; simpl; lia. }
  rewrite Hm. step. step. simpl. unfold set_memory. step. step.
  set (old := default [] (vc_data v)) in *. apply HQ; try done; [|simpl; lia]. split; simpl.
  - done.
  - done.
  - rewrite zlen_app. unfold zlen at 2. rewrite length_replicate.
    destruct (decide (zlen old ≤ n)) as [Hl|Hl].
    + rewrite ztake_ge by done. lia.
    + rewrite zlen_ztake by lia. lia.
  - rewrite ztake_app_le; [rewrite ztake_ztake by lia; done|].
    destruct (decide (zlen old ≤ n)); [rewrite ztake_ge by done; lia|rewrite zlen_ztake; lia].
Qed.

(** One place more: it holds whatever the memory held. *)
Lemma runs_resize_one v xs Q :
  vec_rep v xs → zlen xs + 1 ≤ vc_allocated v →
  (∀ x v', vec_rep v' (xs ++ [x]) → vc_destruct v' = vc_destruct v → vc_allocated v' = vc_allocated v →
     vc_mem v' = vc_mem v → Q true v') →
  runs (vector_resize (vc_count v + 1)) v Q.
Proof.
  intros [H1 H2 H3 H4] Hr HQ. pose proof (zlen_nonneg xs). unfold vector_resize. step.
  rewrite bool_decide_false, bool_decide_true by (simpl; lia). unfold set_count. step.
  rewrite bool_decide_true by (simpl; lia). step.
  destruct (default [] (vc_data v) !! length xs) as [x|] eqn:E.
  2:{ apply lookup_ge_None_1 in E. unfold zlen in *. lia. }
  apply (HQ x); [|done..]. split; simpl.
  - rewrite zlen_app, H1. done.
  - rewrite zlen_app. done.
  - done.
  - rewrite zlen_app. change (zlen [x]) with 1. rewrite <- H4 at 2. unfold ztake, zlen in *.
    rewrite <- (take_S_r _ _ x); [f_equal; lia|]. rewrite Nat2Z.id. done.
Qed.
End rep.

Section push.
(** The push once there is room: the place of the new element. *)
Lemma runs_vector_push_room v xs n Q :
  vec_rep v xs → zlen xs + 1 ≤ vc_allocated v → n = vc_count v →
  (∀ y v', vec_rep v' (xs ++ [y]) → vc_allocated v' = vc_allocated v → vc_mem v' = vc_mem v →
     Q (Some (zlen xs)) v') →
  runs (_ ← vector_resize (n + 1); v2 ← gets id; p ← _vector_get (vc_count v2 - 1); ret (Some p)) v Q.
Proof.
  intros H1 Hr -> HQ. pose proof (zlen_nonneg xs). call runs_resize_one; [exact H1|done|]. intros y v' H' _ A' M'. step.
  unfold _vector_get. apply runs_bind. step. pose proof H' as [C' R' D' _].
  rewrite zlen_app in C', R'. change (zlen [y]) with 1 in C', R'.
  step; [simpl; destruct (vc_data v'); [done|simpl in D'; rewrite zlen_nil in D'; lia]|].
  step; [simpl; rewrite !bool_decide_true by lia; done|]. step. step. simpl.
  replace (vc_count v' - 1) with (zlen xs) by lia. by eapply HQ.
Qed.

Lemma runs_vector_push v xs mem Q :
  vec_rep v xs → vc_mem v = S mem → (∀ y v', vec_rep v' (xs ++ [y]) → Q (Some (zlen xs)) v') →
  runs _vector_push v Q.
Proof.
  intros H Hm HQ. pose proof (zlen_nonneg xs). pose proof H as [C R D E]. unfold _vector_push. step. simpl.
  case_test as Hg.
  - unfold vector_grow. apply runs_bind. step. simpl.
    eapply runs_reserve; [exact H|lia|exact Hm|]. intros v1 H1 A1 _ _. cbn [negb].
    pose proof H1 as [C1 _ _ _]. eapply runs_vector_push_room; [exact H1|lia|lia|]. intros y v' H' _ _. by eapply HQ.
  - step. cbn [negb]. eapply runs_vector_push_room; [exact H|lia|done|]. intros y v' H' _ _. by eapply HQ.
Qed.

Lemma runs_store v xs y x Q :
  vec_rep v (xs ++ [y]) →
  (∀ v', vec_rep v' (xs ++ [x]) → vc_allocated v' = vc_allocated v → vc_mem v' = vc_mem v → Q tt v') →
  runs (elem_store (zlen xs) x) v Q.
Proof.
  intros [C R D E] HQ. unfold elem_store. step. rewrite zlen_app in *. change (zlen [y]) with 1 in *.
  pose proof (zlen_nonneg xs). destruct (vc_data v) as [d|] eqn:Ed; simpl in *; [|rewrite zlen_nil in D; lia].
  rewrite Ed. step. step; [apply bool_decide_true; lia|]. unfold set_memory. step. apply HQ; [|done..].
  split; simpl; rewrite ?zlen_app; change (zlen [x]) with 1; [done|done|unfold zlen; by rewrite length_insert|].
  assert (take (length xs) d = xs) as Ex.
  { apply (f_equal (ztake (zlen xs))) in E. rewrite ztake_ztake, ztake_app_le, (ztake_ge _ xs) in E by lia.
    unfold ztake, zlen in E. by rewrite Nat2Z.id in E. }
  unfold ztake, zlen in *. replace (Z.to_nat (Z.of_nat (length xs) + 1)) with (S (length xs)) by lia.
  rewrite Nat2Z.id, (take_S_r _ _ x) by (apply list_lookup_insert_eq; lia).
  by rewrite take_insert_ge, Ex by lia.
Qed.
(** A push that needs no growth, and the load of an element. *)
Lemma runs_vector_push_fits v xs Q :
  vec_rep v xs → zlen xs + 1 ≤ vc_allocated v →
  (∀ y v', vec_rep v' (xs ++ [y]) → vc_allocated v' = vc_allocated v → vc_mem v' = vc_mem v →
     Q (Some (zlen xs)) v') →
  runs _vector_push v Q.
Proof.
  intros H Hr HQ. pose proof H as [C _ _ _]. unfold _vector_push. step. simpl. rewrite bool_decide_false by lia.
  step. cbn [negb]. by eapply runs_vector_push_room; [exact H|lia|done|].
Qed.

Lemma runs_load v xs i x Q :
  vec_rep v xs → xs !! i = Some x → Q x v → runs (j ← _vector_get (Z.of_nat i); elem_load j) v Q.
Proof.
  intros [C R D E] Hi HQ. pose proof (lookup_lt_Some _ _ _ Hi) as Hl.
  unfold _vector_get. apply runs_bind. step.
  destruct (vc_data v) as [d|] eqn:Ed; simpl in *; [|unfold zlen in *; simpl in D; lia].
  step; [simpl; by rewrite Ed|]. step; [simpl; rewrite !bool_decide_true by (unfold zlen in *; lia); done|]. step.
  unfold elem_load. step. simpl. rewrite Ed. step.
  assert (d !! i = Some x) as Ex.
  { rewrite <- E in Hi. unfold ztake in Hi. by apply lookup_take_Some in Hi as [? _]. }
  rewrite Nat2Z.id, Ex. by step.
Qed.
End push.

(** Pushing an element: when memory is available, [_vector_push] returns a place, and
    storing the new element there appends it: the vector holds the old elements in
    their order and then the new one, whether or not the array had to grow. *)
Theorem vector_push_correct v xs x mem :
  vec_rep v xs → vc_mem v = S mem →
  runs (p ← _vector_push; match p with Some i => elem_store i x;; ret true | None => ret false end) v
    (λ r v', r = true ∧ vec_rep v' (xs ++ [x])).
Proof.
  intros H Hm. call runs_vector_push; [exact H|exact Hm|]. intros y v1 H1. call runs_store; [exact H1|].
  intros v2 H2 _ _. by step.
Qed.

Definition ex_vector : vector := Vector 2 2 (Some [7; 8]) false 3 85 [] None.

Lemma vector_push_correct_witness :
  runs (p ← _vector_push; match p with Some i => elem_store i 9;; ret true | None => ret false end) ex_vector
    (λ r v', r = true ∧ vec_rep v' [7; 8; 9]).
Proof. apply (vector_push_correct ex_vector [7; 8] 9 2); [by split|reflexivity]. Defined.

(** ** Behaviour outside the intended domain *)

(** A failed growth frees the array and keeps the count: the vector still claims its
    elements, and destroying it runs the destructor through a null pointer. *)
Theorem failed_growth_dangles :
  let v := Vector 2 2 (Some [7; 8]) true 0 85 [] None in
  runs _vector_push v (λ r v', r = None ∧ vc_count v' = 2 ∧ vc_data v' = None ∧ vector_destroy v' = None).
Proof. eapply runs_eq; [vm_compute; reflexivity|]. by vm_compute. Qed.

(** The last element cannot be popped. *)
Theorem pop_last_refused v : vc_count v = 1 → vector_pop v = None.
Proof. intros H. unfold vector_pop, bind, gets, c_assert. simpl. by rewrite H. Qed.
