(* ===== verification/StateMachine.v ===== *)
(** * State machines (lib/haka/state_machine.c)

    One machine and one instance of it, with the timers of the network time below
    (file Timer) and growable arrays (file Vector), whose words are the addresses of
    the elements. A callback of a client is a function [client] from its own data
    [U] to the state it asks for; the calls are recorded. The updates of an instance
    call themselves through the enter transitions: the depth is bounded by a fuel.

    The structures [timeout_data] are places of the array [timers], and the timers
    keep pointers to them: [ms_data] gives for a timer the array and the place. Every
    [realloc] moves the array, so that the budget of [realloc] calls that is left
    identifies the array a pointer goes to. *)

From S2P Require Import Prelude List2 Time Timer Vector.

(** ** Data *)

Inductive transition_type :=
  | TRANSITION_NONE | TRANSITION_FAIL | TRANSITION_TIMEOUT | TRANSITION_ENTER
  | TRANSITION_LEAVE | TRANSITION_INIT | TRANSITION_FINISH.

Record transition := Transition {
  tn_type : transition_type;
  tn_timeout : time;
  tn_callback : ptr;
}.

Record state := State {
  sa_name : option string;
  sa_fail : transition;
  sa_enter : transition;
  sa_leave : transition;
  sa_init : transition;
  sa_finish : transition;
  sa_timeouts : vector;
}.

Record state_machine := Machine {
  sm_name : string;
  sm_compiled : bool;
  sm_states : list loc;
  sm_initial : ptr;
}.

Record state_machine_instance := Instance {
  si_current : ptr;
  si_timers : vector;
  si_used_timer : Z;
  si_in_transition : bool;
  si_finished : bool;
  si_failed : bool;
  si_in_failure : bool;
}.

(** The two static states. *)
Definition state_machine_fail_state : loc := 1%positive.
Definition state_machine_finish_state : loc := 2%positive.

Section state_machine.
Context {U : Type} (client : loc → U → ptr * U).

(** [ms_room]: the budget of [realloc] of a new array. *)
Record mstate := MState {
  ms_machine : state_machine;
  ms_states : gmap loc state;
  ms_trans : gmap loc transition;
  ms_inst : state_machine_instance;
  ms_realm : time_realm_state;
  ms_data : gmap loc (nat * Z);
  ms_mem : nat;
  ms_fresh : loc;
  ms_room : nat;
  ms_error : option string;
  ms_calls : list loc;
  ms_user : U;
}.

Abbreviation MM := (M mstate).

Definition set_machine (m : state_machine) (s : mstate) : mstate :=
  MState m (ms_states s) (ms_trans s) (ms_inst s) (ms_realm s) (ms_data s) (ms_mem s) (ms_fresh s) (ms_room s) (ms_error s) (ms_calls s) (ms_user s).
Definition set_states (m : gmap loc state) (s : mstate) : mstate :=
  MState (ms_machine s) m (ms_trans s) (ms_inst s) (ms_realm s) (ms_data s) (ms_mem s) (ms_fresh s) (ms_room s) (ms_error s) (ms_calls s) (ms_user s).
Definition set_trans (m : gmap loc transition) (s : mstate) : mstate :=
  MState (ms_machine s) (ms_states s) m (ms_inst s) (ms_realm s) (ms_data s) (ms_mem s) (ms_fresh s) (ms_room s) (ms_error s) (ms_calls s) (ms_user s).
Definition set_inst (i : state_machine_instance) (s : mstate) : mstate :=
  MState (ms_machine s) (ms_states s) (ms_trans s) i (ms_realm s) (ms_data s) (ms_mem s) (ms_fresh s) (ms_room s) (ms_error s) (ms_calls s) (ms_user s).
Definition set_realm (r : time_realm_state) (s : mstate) : mstate :=
  MState (ms_machine s) (ms_states s) (ms_trans s) (ms_inst s) r (ms_data s) (ms_mem s) (ms_fresh s) (ms_room s) (ms_error s) (ms_calls s) (ms_user s).
Definition set_data (m : gmap loc (nat * Z)) (s : mstate) : mstate :=
  MState (ms_machine s) (ms_states s) (ms_trans s) (ms_inst s) (ms_realm s) m (ms_mem s) (ms_fresh s) (ms_room s) (ms_error s) (ms_calls s) (ms_user s).
Definition set_merror (e : option string) (s : mstate) : mstate :=
  MState (ms_machine s) (ms_states s) (ms_trans s) (ms_inst s) (ms_realm s) (ms_data s) (ms_mem s) (ms_fresh s) (ms_room s) e (ms_calls s) (ms_user s).

Definition merror (msg : string) : MM unit :=
  modify (λ s, set_merror (if ms_error s is Some e then Some e else Some msg) s).
Definition clear_merror : MM unit := modify (set_merror None).

(** A new address, NULL without memory. *)
Definition mmalloc : MM ptr := λ s,
  match ms_mem s with
  | O => Some (None, s)
  | S n => Some (Some (ms_fresh s), MState (ms_machine s) (ms_states s) (ms_trans s) (ms_inst s) (ms_realm s)
      (ms_data s) n (Pos.succ (ms_fresh s)) (ms_room s) (ms_error s) (ms_calls s) (ms_user s))
  end.

Definition rd_state (p : loc) : MM state := o ← gets (λ s, ms_states s !! p); deref o.
Definition wr_state (p : loc) (st : state) : MM unit := modify (λ s, set_states (<[p := st]> (ms_states s)) s).
Definition upd_inst (f : state_machine_instance → state_machine_instance) : MM unit :=
  modify (λ s, set_inst (f (ms_inst s)) s).

Definition set_current (c : ptr) (i : state_machine_instance) : state_machine_instance :=
  Instance c (si_timers i) (si_used_timer i) (si_in_transition i) (si_finished i) (si_failed i) (si_in_failure i).
Definition set_timers (v : vector) (i : state_machine_instance) : state_machine_instance :=
  Instance (si_current i) v (si_used_timer i) (si_in_transition i) (si_finished i) (si_failed i) (si_in_failure i).
Definition set_used (n : Z) (i : state_machine_instance) : state_machine_instance :=
  Instance (si_current i) (si_timers i) n (si_in_transition i) (si_finished i) (si_failed i) (si_in_failure i).
Definition set_in_transition (b : bool) (i : state_machine_instance) : state_machine_instance :=
  Instance (si_current i) (si_timers i) (si_used_timer i) b (si_finished i) (si_failed i) (si_in_failure i).
Definition set_finished (b : bool) (i : state_machine_instance) : state_machine_instance :=
  Instance (si_current i) (si_timers i) (si_used_timer i) (si_in_transition i) b (si_failed i) (si_in_failure i).
Definition set_failed (b : bool) (i : state_machine_instance) : state_machine_instance :=
  Instance (si_current i) (si_timers i) (si_used_timer i) (si_in_transition i) (si_finished i) b (si_in_failure i).
Definition set_in_failure (b : bool) (i : state_machine_instance) : state_machine_instance :=
  Instance (si_current i) (si_timers i) (si_used_timer i) (si_in_transition i) (si_finished i) (si_failed i) b.

(** The components below: the array of the timers, the one of a state, the realm. *)
Definition on_timers {A} (m : M vector A) : MM A :=
  zoom (λ s, si_timers (ms_inst s)) (λ v s, set_inst (set_timers v (ms_inst s)) s) m.
Definition on_realm {A} (m : TM A) : MM A := realm ms_realm set_realm m.
Definition with_timeouts (v : vector) (st : state) : state :=
  State (sa_name st) (sa_fail st) (sa_enter st) (sa_leave st) (sa_init st) (sa_finish st) v.
Definition on_timeouts {A} (p : loc) (m : M vector A) : MM A :=
  st ← rd_state p;
  match m (sa_timeouts st) with
  | None => stuck
  | Some (a, v) => wr_state p (with_timeouts v st);; ret a
  end.

(** The word of an array is an address. *)
Definition to_loc (z : Z) : MM loc := match z with Z.pos p => ret p | _ => stuck end.

(** ** States *)

Definition no_transition : transition := Transition TRANSITION_NONE invalid_time None.

(** [vector_create] allocates nothing. *)
Definition state_machine_create_state (name : option string) : MM ptr :=
  p ← mmalloc;
  match p with
  | None => merror "memory error";; ret None
  | Some st =>
      dup ← (match name with None => ret true | Some _ => q ← mmalloc; ret (negb (is_null q)) end);
      if negb dup then merror "memory error";; ret None else
      room ← gets ms_room;
      wr_state st (State name no_transition no_transition no_transition no_transition no_transition
        (_vector_create 0 true room 0).2);;
      modify (λ s, let m := ms_machine s in
        set_machine (Machine (sm_name m) (sm_compiled m) (sm_states m ++ [st]) (sm_initial m)) s);;
      ret (Some st)
  end.

(** The result of the push is not tested. *)
Definition state_add_timeout_transition (st : loc) (timeout : time) (data : ptr) : MM bool :=
  p ← on_timeouts st _vector_push;
  i ← deref p;
  t ← gets ms_fresh;
  modify (λ s, MState (ms_machine s) (ms_states s) (<[t := Transition TRANSITION_TIMEOUT timeout data]> (ms_trans s))
    (ms_inst s) (ms_realm s) (ms_data s) (ms_mem s) (Pos.succ t) (ms_room s) (ms_error s) (ms_calls s) (ms_user s));;
  on_timeouts st (elem_store i (Z.pos t));;
  c_assert (negb (is_null data));;
  ret true.

Definition set_transition (st : loc) (f : state → state) (data : ptr) : MM bool :=
  x ← rd_state st;
  wr_state st (f x);;
  c_assert (negb (is_null data));;
  ret true.

Definition state_set_fail_transition (st : loc) (data : ptr) : MM bool :=
  set_transition st (λ x, State (sa_name x) (Transition TRANSITION_FAIL (tn_timeout (sa_fail x)) data) (sa_enter x)
    (sa_leave x) (sa_init x) (sa_finish x) (sa_timeouts x)) data.
Definition state_set_enter_transition (st : loc) (data : ptr) : MM bool :=
  set_transition st (λ x, State (sa_name x) (sa_fail x) (Transition TRANSITION_ENTER (tn_timeout (sa_enter x)) data)
    (sa_leave x) (sa_init x) (sa_finish x) (sa_timeouts x)) data.
Definition state_set_leave_transition (st : loc) (data : ptr) : MM bool :=
  set_transition st (λ x, State (sa_name x) (sa_fail x) (sa_enter x)
    (Transition TRANSITION_LEAVE (tn_timeout (sa_leave x)) data) (sa_init x) (sa_finish x) (sa_timeouts x)) data.
Definition state_set_init_transition (st : loc) (data : ptr) : MM bool :=
  set_transition st (λ x, State (sa_name x) (sa_fail x) (sa_enter x) (sa_leave x)
    (Transition TRANSITION_INIT (tn_timeout (sa_init x)) data) (sa_finish x) (sa_timeouts x)) data.
Definition state_set_finish_transition (st : loc) (data : ptr) : MM bool :=
  set_transition st (λ x, State (sa_name x) (sa_fail x) (sa_enter x) (sa_leave x) (sa_init x)
    (Transition TRANSITION_FINISH (tn_timeout (sa_finish x)) data) (sa_timeouts x)) data.

(** ** The machine *)

Definition state_compile (st : loc) : MM bool :=
  x ← rd_state st;
  ok ← on_timeouts st (vector_reserve (vc_count (sa_timeouts x)));
  (if ok : bool then skip else merror "memory error");;
  e ← gets ms_error;
  ret (is_null e).

Fixpoint compile_loop (states : list loc) : MM bool :=
  match states with
  | [] => ret true
  | st :: states => ok ← state_compile st; if ok : bool then compile_loop states else ret false
  end.

Definition state_machine_compile : MM bool :=
  m ← gets ms_machine;
  if sm_compiled m then ret true else
  ok ← compile_loop (sm_states m);
  if negb ok then ret false else
  if is_null (sm_initial m) then merror "no initial state";; ret false else
  modify (set_machine (Machine (sm_name m) true (sm_states m) (sm_initial m)));; ret true.

Definition state_machine_set_initial (initial : ptr) : MM bool :=
  m ← gets ms_machine;
  modify (set_machine (Machine (sm_name m) (sm_compiled m) (sm_states m) initial));; ret true.

Definition state_machine_create (name : string) : MM bool :=
  p ← mmalloc;
  match p with
  | None => merror "memory error";; ret false
  | Some _ =>
      q ← mmalloc;
      if is_null q then merror "memory error";; ret false else
      modify (set_machine (Machine name false [] None));; ret true
  end.

(** The destructors of the callbacks, as the list of the callbacks. *)
Definition transition_destroy (trans : transition) : list loc := option_list (tn_callback trans).

Fixpoint destroy_timeouts (words : list Z) : MM (list loc) :=
  match words with
  | [] => ret []
  | z :: words =>
      t ← to_loc z;
      o ← gets (λ s, ms_trans s !! t);
      trans ← deref o;
      l ← destroy_timeouts words;
      ret (transition_destroy trans ++ l)
  end.

(** The memory of the state is freed at the end. *)
Definition state_destroy (p : loc) : MM (list loc) :=
  on_timeouts p vector_destroy;;
  st ← rd_state p;
  l ← destroy_timeouts (vc_destructed (sa_timeouts st));
  modify (λ s, set_states (delete p (ms_states s)) s);;
  ret (l ++ transition_destroy (sa_fail st) ++ transition_destroy (sa_enter st) ++ transition_destroy (sa_leave st) ++
    transition_destroy (sa_init st) ++ transition_destroy (sa_finish st)).

Fixpoint destroy_states (states : list loc) : MM (list loc) :=
  match states with
  | [] => ret []
  | p :: states => l ← state_destroy p; r ← destroy_states states; ret (l ++ r)
  end.

Definition state_machine_destroy : MM (list loc) := m ← gets ms_machine; destroy_states (sm_states m).

(** ** Transitions *)

Definition have_transition (trans : transition) : bool := negb (is_null (tn_callback trans)).

Definition do_transition (trans : transition) : MM ptr :=
  cb ← deref (tn_callback trans);
  λ s, let '(r, u) := client cb (ms_user s) in
    Some (r, MState (ms_machine s) (ms_states s) (ms_trans s) (ms_inst s) (ms_realm s) (ms_data s) (ms_mem s)
      (ms_fresh s) (ms_room s) (ms_error s) (ms_calls s ++ [cb]) u).

(** [vector_get] of a timer of the instance. *)
Definition get_timer (i : Z) : MM loc := z ← on_timers (j ← _vector_get i; elem_load j); to_loc z.

Fixpoint stop_loop (n : nat) (i : Z) : MM unit :=
  match n with
  | O => skip
  | S n => t ← get_timer i; _ ← on_realm (timer_stop t); stop_loop n (i + 1)
  end.

Definition state_machine_leave_state : MM ptr :=
  i ← gets ms_inst;
  match si_current i with
  | None => ret None
  | Some c =>
      stop_loop (Z.to_nat (si_used_timer i)) 0;;
      st ← rd_state c;
      newstate ← (if have_transition (sa_leave st) then do_transition (sa_leave st) else ret None);
      upd_inst (set_current None);;
      ret newstate
  end.

(** ** The end of an instance *)

Definition state_machine_instance_finish : MM unit :=
  i ← gets ms_inst;
  if si_finished i then merror "state machine instance has finished" else
  (match si_current i with
   | None => skip
   | Some c =>
       _ ← state_machine_leave_state;
       st ← rd_state c;
       if have_transition (sa_finish st) then _ ← do_transition (sa_finish st); skip else skip
   end);;
  upd_inst (set_finished true).

Definition state_machine_instance_fail : MM unit :=
  i ← gets ms_inst;
  if si_in_failure i then skip else
  if si_finished i then merror "state machine instance has finished" else
  upd_inst (set_failed true);;
  upd_inst (set_in_failure true);;
  (match si_current i with
   | None => skip
   | Some c =>
       st ← rd_state c;
       if have_transition (sa_fail st) then _ ← do_transition (sa_fail st); skip else skip
   end);;
  state_machine_instance_finish;;
  upd_inst (set_in_failure false).

(** ** Entering a state *)

(** The destructor of an element of the array: the word is the address of the timer. *)
Definition timeout_data_destroy (timer : Z) : MM unit := t ← to_loc timer; on_realm (timer_destroy t).

(** The missing timers; [false] when one cannot be allocated. [vector_pop] runs the
    destructor of the element it removes. *)
Fixpoint create_loop (n : nat) (i : Z) : MM bool :=
  match n with
  | O => ret true
  | S n =>
      p ← on_timers _vector_push;
      match p with
      | None => clear_merror;; ret false
      | Some j =>
          t ← mmalloc;
          match t with
          | None =>
              merror "memory error";; on_timers (elem_store j 0);;
              on_timers vector_pop;; timeout_data_destroy 0;; clear_merror;; ret false
          | Some t =>
              on_realm (time_realm_timer t);;
              on_timers (elem_store j (Z.pos t));;
              modify (λ s, set_data (<[t := (vc_mem (si_timers (ms_inst s)), i)]> (ms_data s)) s);;
              create_loop n (i + 1)
          end
      end
  end.

Definition get_timeout (st : loc) (i : Z) : MM transition :=
  z ← on_timeouts st (j ← _vector_get i; elem_load j);
  t ← to_loc z;
  o ← gets (λ s, ms_trans s !! t);
  deref o.

Fixpoint start_loop (n : nat) (st : loc) (i : Z) : MM unit :=
  match n with
  | O => skip
  | S n =>
      t ← get_timer i;
      trans ← get_timeout st i;
      c_assert (if tn_type trans is TRANSITION_TIMEOUT then true else false);;
      _ ← on_realm (timer_repeat t (tn_timeout trans));
      start_loop n st (i + 1)
  end.

(** The timers of the state that was entered; [false] when one is missing. *)
Definition arm_timers (st : loc) (count : Z) : MM bool :=
  i ← gets ms_inst;
  let tcount := vc_count (si_timers i) in
  (if bool_decide (count > tcount) then _ ← on_timers (vector_reserve count); skip else skip);;
  ok ← create_loop (Z.to_nat (count - tcount)) tcount;
  if negb ok then _ ← state_machine_leave_state; ret false else
  upd_inst (set_used count);;
  start_loop (Z.to_nat count) st 0;;
  ret true.

(** [state_machine_instance_update], with the entering of a state as [enter]. *)
Definition update_with (enter : loc → MM unit) (newstate : loc) : MM unit :=
  i ← gets ms_inst;
  if si_finished i then merror "state machine instance has finished" else
  if bool_decide (newstate = state_machine_fail_state) then state_machine_instance_fail else
  if bool_decide (newstate = state_machine_finish_state) then state_machine_instance_finish else
  enter newstate.

(** The flag [in_transition] is not restored when a timer is missing. *)
Fixpoint state_machine_enter_state (fuel : nat) (state : ptr) : MM unit :=
  match fuel with
  | O => stuck
  | S fuel =>
      let update := update_with (λ st, state_machine_enter_state fuel (Some st)) in
      i ← gets ms_inst;
      let was_in_transition := si_in_transition i in
      upd_inst (set_in_transition true);;
      newstate ← state_machine_leave_state;
      match newstate with
      | Some n => update n;; upd_inst (set_in_transition was_in_transition)
      | None =>
          match state with
          | None => upd_inst (set_in_transition was_in_transition)
          | Some st =>
              x ← rd_state st;
              upd_inst (set_current (Some st));;
              newstate ← (if have_transition (sa_enter x) then do_transition (sa_enter x) else ret None);
              match newstate with
              | Some n => update n;; upd_inst (set_in_transition was_in_transition)
              | None =>
                  ok ← arm_timers st (vc_count (sa_timeouts x));
                  if ok : bool then upd_inst (set_in_transition was_in_transition) else skip
              end
          end
      end
  end.

Definition state_machine_instance_update (fuel : nat) (newstate : loc) : MM unit :=
  update_with (λ st, state_machine_enter_state fuel (Some st)) newstate.

(** ** Instances *)

Definition state_machine_instance_create : MM bool :=
  p ← mmalloc;
  match p with
  | None => merror "memory error";; ret false
  | Some _ =>
      room ← gets ms_room;
      modify (set_inst (Instance None (_vector_create 0 true room 0).2 0 false false false false));;
      ret true
  end.

(** [current] is read after the initial state was entered without a test. *)
Definition state_machine_instance_init (fuel : nat) : MM unit :=
  i ← gets ms_inst;
  c_assert (is_null (si_current i));;
  m ← gets ms_machine;
  state_machine_enter_state fuel (sm_initial m);;
  upd_inst (set_finished false);;
  upd_inst (set_failed false);;
  upd_inst (set_in_failure false);;
  i ← gets ms_inst;
  c ← deref (si_current i);
  st ← rd_state c;
  if have_transition (sa_init st) then _ ← do_transition (sa_init st); skip else skip.

(** The timers are destroyed with their array. *)
Fixpoint destroy_loop (timers : list Z) : MM unit :=
  match timers with
  | [] => skip
  | z :: timers => timeout_data_destroy z;; destroy_loop timers
  end.

Definition state_machine_instance_destroy : MM unit :=
  i ← gets ms_inst;
  (if si_finished i then skip else state_machine_instance_finish);;
  i ← gets ms_inst;
  destroy_loop (ztake (vc_count (si_timers i)) (default [] (vc_data (si_timers i))));;
  on_timers vector_destroy.

Definition state_machine_instance_state : MM ptr := i ← gets ms_inst; ret (si_current i).
Definition state_machine_instance_isfinished : MM bool := i ← gets ms_inst; ret (si_finished i).
Definition state_machine_instance_isfailed : MM bool := i ← gets ms_inst; ret (si_failed i).

(** ** Timeouts *)

(** The callback of the timer [t]: its [data] has to be in the array the instance
    has now. *)
Definition transition_timeout (fuel : nat) (t : loc) (count : Z) : MM unit :=
  o ← gets (λ s, ms_data s !! t);
  '(array, timer_index) ← deref o;
  i ← gets ms_inst;
  c_assert (bool_decide (array = vc_mem (si_timers i)));;
  c_assert (bool_decide (timer_index < si_used_timer i));;
  if si_in_transition i then skip else
  c ← deref (si_current i);
  trans ← get_timeout c timer_index;
  newstate ← do_transition trans;
  match newstate with
  | Some n => state_machine_instance_update fuel n
  | None => skip
  end.

(** The network time moves on: the timers that are due call [transition_timeout]. *)
Definition network_time_update (fuel : nat) (value : time) : MM unit :=
  update_and_check_timers ms_realm set_realm (transition_timeout fuel) value.
End state_machine.

Arguments mstate : clear implicits.
