(* ===== verification/StateMachineRep.v ===== *)
(** * The timers of a state machine instance

    [clock chk r xs rs tl os]: in the realm [r], whose armed timers are [xs] and, during
    a check, [rs], the timers [tl] of the instance are at rest or armed with a delay,
    as [os] says. [evolves] is what happens to the other timers. The lemmas give the
    effects on [os] of the operations of lib/haka/timer.c. *)

From stdpp Require Import sorting.
From S2P Require Import Prelude List2 Time Timer TimerSpec Vector StateMachine.

(** ** Timers as slots *)

Definition slot (r : time_realm_state) (xs rs : list tseg) (t : loc) (o : option time) : Prop :=
  match o with
  | None => ∃ tm, unlinked r t tm ∧ tm_armed tm = false
  | Some d => ∃ tm, (t, tm) ∈ xs ++ rs ∧ tm_armed tm = true ∧ tm_repeat tm = true ∧ tm_delay tm = d
  end.

(** The list of the repeating timers is there during a check only; one timer at most
    is due then. *)
Definition waiting (chk : bool) (r : time_realm_state) (xs rs : list tseg) : Prop :=
  if chk then repeating r xs rs else rs = [].

Record clock (chk : bool) (r : time_realm_state) (xs rs : list tseg) (tl : list loc) (os : list (option time)) : Prop := {
  ck_armed : armed r xs;
  ck_sorted : StronglySorted le_trigger xs;
  ck_repeat : waiting chk r xs rs;
  ck_few : (length rs ≤ 1)%nat;
  ck_now : time_ok (now r);
  ck_nodup : NoDup tl;
  ck_head : tr_repeat r ∉ tr_sorted r :: xs.*1 ++ tl;
  ck_slots : Forall2 (slot r xs rs) tl os;
}.

(** A timer that triggers in the future. *)
Definition later (r : time_realm_state) (q : loc) : Prop :=
  ∃ t, trigger_of r q = Some t ∧ time_ok t ∧ ns (now r) < ns t.

Record evolves (r r' : time_realm_state) : Prop := {
  ev_realm : same_realm r r';
  ev_later : ∀ q, later r q → later r' q;
}.

(** No address from [f] on is used. *)
Definition below (r : time_realm_state) (f : loc) : Prop :=
  (tr_repeat r < f)%positive ∧ ∀ x, (f ≤ x)%positive → tr_links r !! x = None ∧ tr_timers r !! x = None.

Section clock.
Implicit Types r : time_realm_state.

#[export] Instance evolves_preorder : PreOrder evolves.
Proof.
  split.
  - intros r. split; [by split_and!|done].
  - intros r1 r2 r3 [A1 A2] [B1 B2]. split; [|auto]. unfold same_realm in *. intuition congruence.
Qed.

Lemma evolves_stop r r' : same_realm r r' → (∀ q, trigger_of r' q = trigger_of r q) → evolves r r'.
Proof.
  intros Hr Ht. split; [done|]. intros q (t & Hq & Hok & Hlt). exists t. destruct Hr as (_ & _ & _ & -> & _).
  by rewrite Ht.
Qed.

Lemma below_touches r r' ws p f :
  below r f → same_realm r r' → touches r ws p r' → (∀ x, x ∈ p :: ws → is_Some (tr_links r !! x)) → tr_timers r !! p ≠ None →
  below r' f.
Proof.
  intros [B1 B2] Hr [T1 T2] Hw Hp. split; [destruct Hr as (_ & -> & _); done|]. intros x Hx. destruct (B2 x Hx) as [L1 L2].
  split.
  - rewrite T1; [done|]. intros Hi. destruct (Hw x) as [? ?]; [by right|congruence].
  - rewrite T2; [done|]. congruence.
Qed.

(** The slots of the other timers. *)
Lemma slots_change r xs rs r' xs' rs' t tl os i o :
  Forall2 (slot r xs rs) tl os → NoDup tl → tl !! i = Some t →
  (∀ q u, q ≠ t → unlinked r q u → unlinked r' q u) →
  (∀ x, x ∈ xs ++ rs → x.1 ≠ t → x ∈ xs' ++ rs') → slot r' xs' rs' t o → Forall2 (slot r' xs' rs') tl (<[i := o]> os).
Proof.
  intros Hs Hnd Hi Hk Hx Ht. pose proof (Forall2_length _ _ _ Hs) as Hl. apply Forall2_same_length_lookup.
  split; [by rewrite length_insert|]. intros j q w Hq Hw. destruct (decide (j = i)) as [->|Hne].
  - assert (q = t) as -> by congruence. rewrite list_lookup_insert_eq in Hw by (rewrite <- Hl; by eapply lookup_lt_Some).
    by injection Hw as <-.
  - rewrite list_lookup_insert_ne in Hw by done.
    assert (q ≠ t) as Hqt by (intros ->; apply Hne; by eapply NoDup_lookup).
    pose proof (Forall2_lookup_lr _ _ _ _ _ _ Hs Hq Hw) as Hsl. destruct w as [d|]; simpl in *.
    + destruct Hsl as (tm & Hi' & ?). exists tm. split; [by apply Hx|done].
    + destruct Hsl as (tm & Hu & Ha). exists tm. split; [by apply Hk|done].
Qed.

Lemma unlinked_not_repeating chk r xs rs q u : waiting chk r xs rs → unlinked r q u → q ∉ rs.*1.
Proof.
  destruct chk; [intros R|intros ->]; intros [Hq _]; [|by apply not_elem_of_nil]. intros Hi. eapply dlist_not_in; [apply (rp_list _ _ _ R)|exact Hq|].
  by right.
Qed.

(** What an operation on the sorted list keeps. *)
Lemma repeat_kept chk r xs rs r' ys p :
  waiting chk r xs rs → touches r (tr_sorted r :: p :: xs.*1) p r' → same_realm r r' →
  p ∉ rs.*1 → p ≠ tr_repeat r → (∀ x, x ∈ ys.*1 → x ∈ p :: xs.*1) → waiting chk r' ys rs.
Proof.
  destruct chk; [intros R T S Hp Hr Hy|done]. eapply repeating_frame; [exact R|exact T|exact S| |exact Hy].
  pose proof (rp_disj _ _ _ R) as Hd. intros x Hx. rewrite !elem_of_cons in Hx.
  destruct Hx as [->|[->|[->|Hx]]]; [set_solver|apply Hd; by left|set_solver|apply Hd; by right].
Qed.

Lemma touches_weaken r ws ws' p r' : touches r ws p r' → (∀ x, x ∈ ws → x ∈ ws') → touches r ws' p r'.
Proof. intros [T1 T2] Hw. split; [|done]. intros x Hx. apply T1. auto. Qed.

(** ** Stopping *)

Lemma elem_of_keys (l1 l2 : list tseg) p t : p ∈ (l1 ++ (p, t) :: l2).*1.
Proof. apply list_elem_of_fmap. exists (p, t). split; [done|]. set_solver. Qed.

Lemma armed_alloc r xs x : armed r xs → x ∈ tr_sorted r :: xs.*1 → is_Some (tr_links r !! x).
Proof. intros H. apply dlist_alloc, (ar_list _ _ H). Qed.

Lemma clock_stop_sorted chk r xs rs tl os i t ys f Q :
  clock chk r xs rs tl os → below r f → tl !! i = Some t → timer_at r xs t ys → t ∉ rs.*1 →
  (∀ x, x ∈ xs → x.1 ≠ t → x ∈ ys) → StronglySorted le_trigger ys →
  (∀ b r' xs' rs', clock chk r' xs' rs' tl (<[i := None]> os) → evolves r r' → below r' f → Q b r') →
  runs (timer_stop t) r Q.
Proof.
  intros [C1 C2 CR CF C3 C4 CH C5] Hf Hi Hat Hrs Hkeep Hsort HQ.
  assert (is_Some (tr_links r !! t) ∧ tr_timers r !! t ≠ None) as [At1 At2].
  { destruct Hat as [(u & [U1 U2] & _)|(u & l1 & l2 & -> & _)]; [by rewrite U1, U2|].
    split; [eapply armed_alloc; [exact C1|]; right; apply elem_of_keys|]. destruct (armed_at _ _ _ _ _ C1) as [-> _]. done. }
  eapply runs_stop; [exact C1|done|exact Hat|]. intros r' tm b H' Hu Ha Hr Ht Htr.
  pose proof (timer_at_sub _ _ _ _ Hat) as Hsub. apply (HQ b r' ys rs).
  - split; try done.
    + eapply repeat_kept; [exact CR| |exact Hr|exact Hrs| |].
      * eapply touches_weaken; [exact Ht|]. set_solver.
      * intros ->. apply CH. right. apply elem_of_app. right. by eapply list_elem_of_lookup_2.
      * intros x Hx. right. auto.
    + destruct Hr as (_ & _ & _ & -> & _). done.
    + destruct Hr as (-> & -> & _). set_solver.
    + eapply slots_change; try done; [| |by exists tm].
      * intros q u Hq U. eapply touches_unlinked; [exact Ht| |exact U].
        pose proof (unlinked_not_in _ _ _ _ C1 U). set_solver.
      * intros x [Hx|Hx]%elem_of_app Hne; apply elem_of_app; auto.
  - by apply evolves_stop.
  - eapply below_touches; [exact Hf|exact Hr|exact Ht| |done].
    intros x [->|Hx]%elem_of_cons; [done|by eapply armed_alloc].
Qed.

Lemma clock_stop chk r xs rs tl os i t f Q :
  clock chk r xs rs tl os → below r f → tl !! i = Some t →
  (∀ b r' xs' rs', clock chk r' xs' rs' tl (<[i := None]> os) → evolves r r' → below r' f → Q b r') →
  runs (timer_stop t) r Q.
Proof.
  intros C Hf Hi HQ. destruct (Forall2_lookup_l _ _ _ _ _ (ck_slots _ _ _ _ _ _ C) Hi) as (o & Ho & Hsl).
  pose proof C as [C1 C2 CR CF C3 C4 CH C5]. destruct o as [d|]; simpl in Hsl.
  - destruct Hsl as (tm & [Hx|Hx]%elem_of_app & Ha & _).
    + apply list_elem_of_split in Hx as (l1 & l2 & ->).
      eapply (clock_stop_sorted _ _ _ _ _ _ _ _ (l1 ++ l2)); [exact C|exact Hf|exact Hi| | | | |exact HQ].
      * right. by exists tm, l1, l2.
      * destruct chk; [rename CR into R|simpl in CR; subst; by apply not_elem_of_nil]. intros Hr. apply (rp_disj _ _ _ R t); right; [apply elem_of_keys|done].
      * intros x. rewrite !elem_of_app, elem_of_cons. intros [?|[->|?]] Hx; auto. done.
      * apply StronglySorted_app in C2 as (H1 & H2 & H3). inversion_clear H3 as [|? ? H4 _].
        apply StronglySorted_app. split_and!; [|done|done]. intros x y Hx Hy. apply H1; [done|by right].
    + destruct chk; [rename CR into R|simpl in CR; subst; by inversion Hx]. apply list_elem_of_split in Hx as (l1 & l2 & ->).
      eapply runs_stop_repeating; [exact C1|exact R|done|done|]. intros r' tm' b H' R' Hu' Ha' Hr Ht Htr.
      apply (HQ b r' xs (l1 ++ l2)).
      * split; try done; [rewrite length_app in *; simpl in *; lia|destruct Hr as (_ & _ & _ & -> & _); done|destruct Hr as (-> & -> & _); done|].
        eapply slots_change; try done; [| |by exists tm'].
        -- intros q u Hq U. eapply touches_unlinked; [exact Ht| |exact U].
           pose proof (dlist_not_in _ _ _ _ _ (rp_list _ _ _ R) (proj1 U)). set_solver.
        -- intros x. rewrite !elem_of_app, elem_of_cons. intros [?|[?|[->|?]]] Hx; auto. done.
      * by apply evolves_stop.
      * eapply below_touches; [exact Hf|exact Hr|exact Ht| |rewrite (rp_timers _ _ _ R t tm) by set_solver; done].
        intros x [->|Hx]%elem_of_cons; (eapply dlist_alloc; [apply (rp_list _ _ _ R)|]); [right; apply elem_of_keys|done].
  - destruct Hsl as (tm & Hu & Ha).
    eapply (clock_stop_sorted _ _ _ _ _ _ _ _ xs); [exact C|exact Hf|exact Hi| | |by auto|done|exact HQ].
    + left. by exists tm.
    + by eapply unlinked_not_repeating.
Qed.

(** ** Starting a timer at rest, creating one *)

Lemma clock_start chk r xs rs tl os i t d f Q :
  clock chk r xs rs tl os → below r f → tl !! i = Some t → os !! i = Some None →
  time_ok d → 0 < ns d → ns (now r) + ns d < 2 ^ 61 →
  (∀ b r' xs', clock chk r' xs' rs tl (<[i := Some d]> os) → evolves r r' → below r' f → Q b r') →
  runs (timer_repeat t d) r Q.
Proof.
  intros [C1 C2 CR CF C3 C4 CH C5] Hf Hi Ho Hd Hp Hb HQ.
  destruct (Forall2_lookup_lr _ _ _ _ _ _ C5 Hi Ho) as (tm & U & Ha).
  pose proof (unlinked_not_in _ _ _ _ C1 U) as Hni. pose proof (unlinked_not_repeating _ _ _ _ _ _ CR U) as Hnr.
  assert (t ≠ tr_repeat r) as Hne.
  { intros ->. apply CH. right. apply elem_of_app. right. by eapply list_elem_of_lookup_2. }
  unfold timer_repeat. eapply runs_start; [exact C1|exact C2|left; by exists tm|done..|].
  intros r' xs' tm' Hr Ht H' Hs' Hperm Et Htr.
  assert (∀ x, x ∈ xs'.*1 ↔ x ∈ t :: xs.*1) as Hkeys by (intros x; by rewrite Hperm).
  apply (HQ true r' xs').
  - split; try done.
    + eapply repeat_kept; [exact CR|exact Ht|exact Hr|exact Hnr|done|]. intros x. apply Hkeys.
    + destruct Hr as (_ & _ & _ & -> & _). done.
    + destruct Hr as (-> & -> & _). rewrite elem_of_cons, elem_of_app, Hkeys. set_solver.
    + eapply slots_change; try done.
      * intros q u Hq Uq. eapply touches_unlinked; [exact Ht| |exact Uq].
        pose proof (unlinked_not_in _ _ _ _ C1 Uq). set_solver.
      * intros x [Hx|Hx]%elem_of_app Hx1; apply elem_of_app; [left; rewrite Hperm; by right|by right].
      * exists tm'. rewrite elem_of_app, Hperm. subst tm'. split; [left; by left|done].
  - split; [done|]. intros q (u & Hq & Hok & Hlt). destruct Hr as (_ & _ & _ & En & _). unfold later. rewrite En.
    destruct (decide (q = t)) as [->|Hqt].
    + exists (tm_trigger_time tm'). split; [unfold trigger_of|].
      * rewrite (ar_timers _ _ H' t tm'); [done|]. rewrite Hperm. by left.
      * subst tm'. simpl in *. destruct (time_add_ok (now r) d) as [? E]; [done|done|done|]. split; [done|lia].
    + exists u. split; [|done]. unfold trigger_of in *. by rewrite (proj2 Ht).
  - eapply below_touches; [exact Hf|exact Hr|exact Ht| |by rewrite (proj2 U)].
    intros x Hx. destruct (decide (x = t)) as [->|]; [by rewrite (proj1 U)|].
    eapply armed_alloc; [exact C1|]. set_solver.
Qed.

Lemma clock_new chk r xs rs tl os f Q :
  clock chk r xs rs tl os → below r f →
  (∀ r', clock chk r' xs rs (tl ++ [f]) (os ++ [None]) → evolves r r' → below r' (Pos.succ f) → Q tt r') →
  runs (time_realm_timer f) r Q.
Proof.
  intros [C1 C2 CR CF C3 C4 CH C5] [Hf1 Hf2] HQ. destruct (Hf2 f) as [Hl Ht]; [lia|].
  assert (f ∉ tr_sorted r :: xs.*1) as Hx.
  { intros Hi. destruct (armed_alloc _ _ _ C1 Hi) as [? ?]. congruence. }
  assert (f ∉ rs.*1) as Hrs.
  { destruct chk; [rename CR into R|simpl in CR; subst; by apply not_elem_of_nil]. intros Hi.
    destruct (dlist_alloc _ _ _ f (rp_list _ _ _ R)) as [? ?]; [by right|]. congruence. }
  assert (∀ q o, slot r xs rs q o → q ≠ f) as Hq.
  { intros q [d|] Hs ->; simpl in Hs; [|destruct Hs as (tm & [? _] & _); congruence].
    destruct Hs as (tm & [Hi|Hi]%elem_of_app & _); [apply Hx; right|apply Hrs]; apply list_elem_of_fmap; by exists (f, tm). }
  assert (f ∉ tl) as Htl.
  { intros [i Hi]%list_elem_of_lookup. destruct (Forall2_lookup_l _ _ _ _ _ C5 Hi) as (o & _ & Hs). by eapply Hq. }
  unfold time_realm_timer, list2_elem_init, tlnk, wr_timer. step. step. step. set (r' := with_timers _ _).
  assert (touches r [f] f r') as T.
  { split; [intros x Hn; simpl; rewrite lookup_insert_ne; set_solver|]. intros q Hn. simpl. by rewrite lookup_insert_ne. }
  assert (same_realm r r') as Sr by (by split_and!).
  apply HQ.
  - split; try done.
    + apply armed_write; [|set_solver]. destruct C1 as [A1 A2 A3]. split; [|done|done].
      eapply (dlist_same_out _ _ _ _ [f]); [exact (proj1 T)| |exact A1]. set_solver.
    + destruct chk; [rename CR into R|done]. eapply repeating_frame; [exact R|exact T|exact Sr| |set_solver].
      assert (f ≠ tr_repeat r) by lia. set_solver.
    + apply NoDup_app. split_and!; [done| |by apply NoDup_singleton]. intros x Hi ->%list_elem_of_singleton. done.
    + assert (tr_repeat r ≠ f) by lia. simpl. set_solver.
    + apply Forall2_app.
      * eapply Forall2_impl; [exact C5|]. intros q o Hs. pose proof (Hq q o Hs). destruct o as [d|]; simpl in *; [done|].
        destruct Hs as (tm & U & ?). exists tm. split; [|done]. eapply touches_unlinked; [exact T| |exact U]. set_solver.
      * constructor; [|constructor]. exists (Timer false false invalid_time invalid_time).
        split; [|done]. split; simpl; by rewrite lookup_insert_eq.
  - split; [done|]. intros q (u & E & Hok & Hlt). exists u. split_and!; [|done|exact Hlt].
    unfold trigger_of in *. rewrite (proj2 T); [done|]. intros ->. by rewrite Ht in E.
  - split; [simpl; lia|]. intros x Hn. destruct (Hf2 x) as [? ?]; [lia|]. simpl.
    rewrite !lookup_insert_ne by lia. done.
Qed.
End clock.
