(* ===== verification/StateMachineSim.v ===== *)
(** * The states of an instance as an abstract machine

    [a_update] is the behaviour without timers: the current state, the flags and the
    callbacks that are called. [core] ties a state of the model to the timers of the
    instance, [inv] says that exactly the timers of the current state are armed. The
    operations of lib/haka/state_machine.c simulate the abstract ones and keep [inv]. *)

From stdpp Require Import sorting.
From S2P Require Import Prelude List2 Time Timer TimerSpec Vector StateMachine StateMachineRep.

(** ** The abstract machine *)

Record aview (U : Type) := AView {
  av_current : ptr;
  av_finished : bool;
  av_failed : bool;
  av_user : U;
  av_calls : list loc;
}.
Arguments AView {U} _ _ _ _ _.
Arguments av_current {U} _.
Arguments av_finished {U} _.
Arguments av_failed {U} _.
Arguments av_user {U} _.
Arguments av_calls {U} _.

Section abstract.
Context {U : Type} (client : loc → U → ptr * U) (states : gmap loc state).
Implicit Types a : aview U.

Definition goto (c : ptr) a : aview U := AView c (av_finished a) (av_failed a) (av_user a) (av_calls a).

Definition a_call (trans : transition) a : ptr * aview U :=
  match tn_callback trans with
  | None => (None, a)
  | Some cb =>
      let '(r, u) := client cb (av_user a) in
      (r, AView (av_current a) (av_finished a) (av_failed a) u (av_calls a ++ [cb]))
  end.

Definition a_leave a : option (ptr * aview U) :=
  match av_current a with
  | None => Some (None, a)
  | Some c =>
      match states !! c with
      | None => None
      | Some st => let '(r, a) := a_call (sa_leave st) a in Some (r, goto None a)
      end
  end.

Definition a_end a : aview U := AView (av_current a) true (av_failed a) (av_user a) (av_calls a).

Definition a_finish a : option (aview U) :=
  if av_finished a then Some a else
  match av_current a with
  | None => Some (a_end a)
  | Some c =>
      match a_leave a, states !! c with
      | Some (_, a), Some st => Some (a_end (a_call (sa_finish st) a).2)
      | _, _ => None
      end
  end.

Definition a_fail a : option (aview U) :=
  if av_finished a then Some a else
  let a := AView (av_current a) (av_finished a) true (av_user a) (av_calls a) in
  match av_current a with
  | None => a_finish a
  | Some c =>
      match states !! c with
      | None => None
      | Some st => a_finish (a_call (sa_fail st) a).2
      end
  end.

Definition a_update_with (enter : loc → aview U → option (aview U)) (n : loc) a : option (aview U) :=
  if av_finished a then Some a else
  if bool_decide (n = state_machine_fail_state) then a_fail a else
  if bool_decide (n = state_machine_finish_state) then a_finish a else
  enter n a.

Fixpoint a_enter (fuel : nat) (st : loc) a : option (aview U) :=
  match fuel with
  | O => None
  | S fuel =>
      match a_leave a with
      | None => None
      | Some (Some n, a) => a_update_with (a_enter fuel) n a
      | Some (None, a) =>
          match states !! st with
          | None => None
          | Some x =>
              let '(n, a) := a_call (sa_enter x) (goto (Some st) a) in
              match n with Some n => a_update_with (a_enter fuel) n a | None => Some a end
          end
      end
  end.

Definition a_update (fuel : nat) (n : loc) a : option (aview U) := a_update_with (a_enter fuel) n a.
End abstract.

(** ** The timers of a state *)

Definition timeouts_of (trans : gmap loc transition) (st : state) : list transition :=
  omap (λ z, match z with Z.pos p => trans !! p | _ => None end)
    (ztake (vc_count (sa_timeouts st)) (default [] (vc_data (sa_timeouts st)))).

Definition delays (states : gmap loc state) (trans : gmap loc transition) (c : ptr) : list time :=
  match c ≫= λ c, states !! c with None => [] | Some st => tn_timeout <$> timeouts_of trans st end.

(** A timeout transition as [state_add_timeout_transition] makes it. *)
Definition timeout_ok (t : transition) : Prop :=
  tn_type t = TRANSITION_TIMEOUT ∧ is_Some (tn_callback t) ∧ time_ok (tn_timeout t) ∧ 0 < ns (tn_timeout t) < 2 ^ 60.

Record state_ok (trans : gmap loc transition) (K : nat) (st : state) : Prop := {
  so_elems : ∃ ls, vec_rep (sa_timeouts st) (Z.pos <$> ls) ∧ Forall2 (λ l t, trans !! l = Some t) ls (timeouts_of trans st);
  so_trans : Forall timeout_ok (timeouts_of trans st);
  so_count : (length (timeouts_of trans st) ≤ K)%nat;
}.

Section core.
Context {U : Type} (client : loc → U → ptr * U).
Context (S0 : gmap loc state) (T0 : gmap loc transition) (K : nat).

Definition view (s : mstate U) : aview U :=
  AView (si_current (ms_inst s)) (si_finished (ms_inst s)) (si_failed (ms_inst s)) (ms_user s) (ms_calls s).

Definition states_ok : Prop := map_Forall (λ _ st, state_ok T0 K st) S0.

(** Every state has no timeout or [K] of them. *)
Definition uniform : Prop :=
  map_Forall (λ _ st, length (timeouts_of T0 st) = 0%nat ∨ length (timeouts_of T0 st) = K) S0.

Record core (chk : bool) (s : mstate U) (tl : list loc) (os : list (option time)) (xs rs : list tseg) : Prop := {
  co_states : ms_states s = S0;
  co_trans : ms_trans s = T0;
  co_vec : vec_rep (si_timers (ms_inst s)) (Z.pos <$> tl);
  co_clock : clock chk (ms_realm s) xs rs tl os;
  co_time : ns (now (ms_realm s)) < 2 ^ 60;
  co_below : below (ms_realm s) (ms_fresh s);
  co_mem : (K ≤ length tl + ms_mem s)%nat;
  co_used : 0 ≤ si_used_timer (ms_inst s) ≤ zlen tl;
  co_slots : ∀ i o, os !! i = Some o → si_used_timer (ms_inst s) ≤ Z.of_nat i → o = None;
  co_none : si_current (ms_inst s) = None → Forall (λ o, o = None) os;
}.

(** The timers point to their places in the array. *)
Definition data_ok (s : mstate U) (tl : list loc) : Prop :=
  ∀ i t, tl !! i = Some t → ms_data s !! t = Some (vc_mem (si_timers (ms_inst s)), Z.of_nat i).

(** There is memory for the array to grow. *)
Definition data_inv (s : mstate U) (tl : list loc) : Prop :=
  (K ≤ length tl + vc_mem (si_timers (ms_inst s)))%nat ∧ (uniform → (tl = [] ∨ length tl = K) ∧ data_ok s tl).

(** Exactly the timers of the current state are armed, with its delays. *)
Definition armed_for (c : ptr) (os : list (option time)) : Prop :=
  ∃ k, os = (Some <$> delays S0 T0 c) ++ replicate k None.

Definition tracked (chk : bool) (s : mstate U) (tl : list loc) (os : list (option time)) (xs rs : list tseg) : Prop :=
  core chk s tl os xs rs ∧ data_inv s tl ∧ armed_for (si_current (ms_inst s)) os ∧
  (is_Some (si_current (ms_inst s)) → si_used_timer (ms_inst s) = zlen (delays S0 T0 (si_current (ms_inst s)))).

Definition inv (chk : bool) (s : mstate U) : Prop := ∃ tl os xs rs, tracked chk s tl os xs rs.

(** The two flags of the calls under way. *)
Definition same_flags (s s' : mstate U) : Prop :=
  si_in_transition (ms_inst s') = si_in_transition (ms_inst s) ∧ si_in_failure (ms_inst s') = si_in_failure (ms_inst s).
Definition evolved (s s' : mstate U) : Prop := evolves (ms_realm s) (ms_realm s').
End core.

(** ** Reading and stopping the timers *)

Definition set_client {U} (calls : list loc) (u : U) (s : mstate U) : mstate U :=
  MState (ms_machine s) (ms_states s) (ms_trans s) (ms_inst s) (ms_realm s) (ms_data s) (ms_mem s) (ms_fresh s)
    (ms_room s) (ms_error s) calls u.

Section steps.
Context {U : Type} (client : loc → U → ptr * U).
Context (S0 : gmap loc state) (T0 : gmap loc transition) (K : nat).
Implicit Types s : mstate U.
Local Abbreviation core := (core (U:=U) S0 T0 K).
Local Abbreviation inv := (inv (U:=U) S0 T0 K).

Lemma set_realm_id s : set_realm (ms_realm s) s = s.
Proof. by destruct s. Qed.

Lemma runs_get_timer s tl i t Q :
  vec_rep (si_timers (ms_inst s)) (Z.pos <$> tl) → tl !! i = Some t → Q t s → runs (get_timer (Z.of_nat i)) s Q.
Proof.
  intros Hv Hi HQ. unfold get_timer, on_timers. apply runs_bind. step.
  eapply runs_load; [exact Hv|by rewrite list_lookup_fmap, Hi|]. simpl. step.
  replace (set_inst _ s) with s; [done|]. by destruct s as [? ? ? []].
Qed.

Lemma runs_stop_loop chk s tl f n : vec_rep (si_timers (ms_inst s)) (Z.pos <$> tl) → ∀ i r xs rs os Q,
  clock chk r xs rs tl os → below r f → (i + n ≤ length tl)%nat →
  (∀ r' xs' rs' os', clock chk r' xs' rs' tl os' → evolves r r' → below r' f →
     (∀ j o, os' !! j = Some o → o = None ∨ ¬ (i ≤ j < i + n)%nat ∧ os !! j = Some o) → Q tt (set_realm r' s)) →
  runs (stop_loop n (Z.of_nat i)) (set_realm r s) Q.
Proof.
  intros Hv. induction n as [|n IH]; intros i r xs rs os Q C Hf Hn HQ; cbn [stop_loop].
  - unfold skip. step. eapply HQ; [exact C|done|done|]. intros j o Hj. right. split; [lia|done].
  - destruct (lookup_lt_is_Some_2 tl i) as [t Ht]; [lia|]. apply runs_bind.
    eapply runs_get_timer; [exact Hv|exact Ht|]. apply runs_bind. unfold on_realm, realm. step.
    eapply clock_stop; [exact C|exact Hf|exact Ht|]. intros b r1 xs1 rs1 C1 E1 F1. simpl.
    change (set_realm r1 (set_realm r s)) with (set_realm r1 s).
    replace (Z.of_nat i + 1) with (Z.of_nat (S i)) by lia.
    eapply IH; [exact C1|exact F1|lia|]. intros r2 xs2 rs2 os2 C2 E2 F2 Ho2.
    eapply HQ; [exact C2|by etrans|exact F2|]. intros j o Hj. destruct (Ho2 j o Hj) as [?|[Hj1 Hj2]]; [by left|].
    destruct (decide (j = i)) as [->|Hne].
    + left. rewrite list_lookup_insert_eq in Hj2; [congruence|]. apply lookup_lt_Some in Hj2. by rewrite length_insert in Hj2.
    + right. rewrite list_lookup_insert_ne in Hj2 by done. split; [lia|done].
Qed.

(** The call of a callback changes the data of the client. *)
Lemma runs_call s trans r a' Q :
  a_call client trans (view s) = (r, a') →
  (∀ s', s' = set_client (av_calls a') (av_user a') s → view s' = a' → Q r s') →
  runs (if have_transition trans then do_transition client trans else ret None) s Q.
Proof.
  unfold a_call, have_transition, do_transition. destruct (tn_callback trans) as [cb|]; simpl.
  - destruct (client cb (ms_user s)) as [r1 u] eqn:Ec. intros [= <- <-] HQ. step.
    eapply runs_eq; [by rewrite Ec|]. by apply HQ.
  - intros [= <- <-] HQ. step. apply HQ; by destruct s.
Qed.

Lemma core_client chk s tl os xs rs c u : core chk s tl os xs rs → core chk (set_client c u s) tl os xs rs.
Proof. intros [C1 C2 C3 C4 C5 C6 C7 C9 C10 C11]. by split. Qed.

(** The fields of the instance that matter to the timers. *)
Definition same_place (i i' : state_machine_instance) : Prop :=
  si_timers i' = si_timers i ∧ si_used_timer i' = si_used_timer i.

Lemma core_inst chk s i tl os xs rs :
  core chk s tl os xs rs → same_place (ms_inst s) i → (si_current i = None → Forall (λ o, o = None) os) →
  core chk (set_inst i s) tl os xs rs.
Proof.
  intros [C1 C2 C3 C4 C5 C6 C7 C9 C10 C11] [E1 E2] Hn. split; simpl; try done.
  - by rewrite E1.
  - by rewrite E2.
  - by rewrite E2.
Qed.

(** ** Leaving a state *)

Record kept s s' : Prop := {
  kp_place : same_place (ms_inst s) (ms_inst s');
  kp_data : ms_data s' = ms_data s;
  kp_flags : same_flags s s';
  kp_evolved : evolved s s';
}.

Lemma data_same s s' tl :
  data_inv S0 T0 K s tl → si_timers (ms_inst s') = si_timers (ms_inst s) → ms_data s' = ms_data s → data_inv S0 T0 K s' tl.
Proof.
  intros [Hm Hi] E Hd. split; [by rewrite E|]. intros Hu. destruct (Hi Hu) as [Hl Ho]. split; [done|].
  intros i t Ht. rewrite Hd, E. by apply Ho.
Qed.

Lemma kept_data s s' tl : kept s s' → data_inv S0 T0 K s tl → data_inv S0 T0 K s' tl.
Proof. intros [[E _] Hd _ _] Hi. by eapply data_same. Qed.

Lemma runs_leave chk s tl os xs rs r a' Q :
  core chk s tl os xs rs → a_leave client S0 (view s) = Some (r, a') →
  (∀ s' os' xs' rs', core chk s' tl os' xs' rs' → Forall (λ o, o = None) os' → view s' = a' →
     si_current (ms_inst s') = None → kept s s' → Q r s') →
  runs (state_machine_leave_state client) s Q.
Proof.
  intros C Ha HQ. pose proof C as [C1 C2 C3 C4 C5 C6 C7 C9 C10 C11]. unfold state_machine_leave_state. step.
  unfold a_leave in Ha. simpl in Ha. destruct (si_current (ms_inst s)) as [c|] eqn:Ec.
  - destruct (S0 !! c) as [st|] eqn:Est; [|done]. destruct (a_call client (sa_leave st) (view s)) as [r1 a1] eqn:Eca.
    injection Ha as <- <-. apply runs_bind. rewrite <- (set_realm_id s) at 2.
    change 0 with (Z.of_nat 0). eapply runs_stop_loop; [exact C3|exact C4|exact C6|unfold zlen in *; lia|].
    intros r' xs' rs' os' C' E' F' Ho'. unfold rd_state. apply runs_bind. step. simpl. rewrite C1, Est. step.
    apply runs_bind. eapply runs_call; [exact Eca|]. intros s' -> Ev. unfold upd_inst. step. step.
    assert (Forall (λ o, o = None) os') as Hall.
    { apply Forall_lookup. intros j o Hj. destruct (Ho' j o Hj) as [?|[Hj1 Hj2]]; [done|].
      eapply C10; [exact Hj2|]. lia. }
    eapply HQ; [|exact Hall| |done|].
    + apply core_inst; [|done|done]. apply core_client. split; simpl; try done.
      * destruct (ev_realm _ _ E') as (_ & _ & _ & -> & _). done.
      * intros i o Ho _. rewrite Forall_lookup in Hall. by eapply Hall.
    + simpl. destruct a1. unfold view in *. simpl in *. unfold goto. simpl. by simplify_eq.
    + by split.
  - injection Ha as <- <-. step. eapply HQ; [exact C|by apply C11|done|done|]. by split.
Qed.

(** ** The end of an instance *)

Lemma kept_trans s1 s2 s3 : kept s1 s2 → kept s2 s3 → kept s1 s3.
Proof.
  intros [[A1 A2] B1 [D1 D2] E1] [[A3 A4] B2 [D3 D4] E2]. split.
  - split; congruence.
  - congruence.
  - split; congruence.
  - unfold evolved in *. by etrans.
Qed.

Lemma kept_client s c u : kept s (set_client c u s).
Proof. by split. Qed.

Lemma runs_rd_state chk s tl os xs rs c st Q :
  core chk s tl os xs rs → S0 !! c = Some st → Q st s → runs (rd_state c) s Q.
Proof. intros C H HQ. unfold rd_state. step. rewrite (co_states _ _ _ _ _ _ _ _ _ C), H. by step. Qed.

(** A callback whose answer is not used. *)
Lemma runs_notify s trans a' Q :
  (a_call client trans (view s)).2 = a' →
  (∀ s', s' = set_client (av_calls a') (av_user a') s → view s' = a' → Q tt s') →
  runs (if have_transition trans then _ ← do_transition client trans; skip else skip) s Q.
Proof.
  destruct (a_call client trans (view s)) as [r a1] eqn:E. simpl. intros -> HQ.
  pose proof (runs_call s trans r a' (λ _ s', Q tt s') E HQ) as H. destruct (have_transition trans).
  - apply runs_bind. eapply runs_mono; [exact H|]. intros b s' Hs. unfold skip. by step.
  - apply runs_eq with tt s; [done|]. destruct H as (b & s' & [= _ <-] & Hs). done.
Qed.

Lemma a_call_current trans (a : aview U) : av_current (a_call client trans a).2 = av_current a.
Proof. unfold a_call. destruct (tn_callback trans); [|done]. by destruct (client _ _). Qed.

Lemma runs_finish_instance chk s tl os xs rs a' Q :
  core chk s tl os xs rs → av_finished (view s) = false → a_finish client S0 (view s) = Some a' →
  (∀ s' os' xs' rs', core chk s' tl os' xs' rs' → Forall (λ o, o = None) os' → view s' = a' →
     si_current (ms_inst s') = None → kept s s' → Q tt s') →
  runs (state_machine_instance_finish client) s Q.
Proof.
  intros C Hf Ha HQ. unfold state_machine_instance_finish. step. unfold a_finish in Ha. rewrite Hf in Ha. simpl in Hf, Ha.
  rewrite Hf. apply runs_bind. destruct (si_current (ms_inst s)) as [c|] eqn:Ec.
  - destruct (a_leave client S0 (view s)) as [[r1 a1]|] eqn:El; [|done]. destruct (S0 !! c) as [st|] eqn:Est; [|done].
    injection Ha as <-. apply runs_bind. eapply runs_leave; [exact C|exact El|].
    intros s1 os1 xs1 rs1 C1 Hn1 Ev1 Ec1 K1. apply runs_bind. eapply runs_rd_state; [exact C1|exact Est|].
    eapply runs_notify; [by rewrite Ev1|]. intros s2 -> Ev2. unfold upd_inst. step.
    eapply HQ; [|exact Hn1| |simpl; exact Ec1|].
    + apply core_inst; [by apply core_client|done|done].
    + unfold a_end. rewrite <- Ev2. done.
    + eapply kept_trans; [exact K1|]. by split.
  - injection Ha as <-. unfold skip. step. unfold upd_inst. step.
    eapply HQ; [|exact (co_none _ _ _ _ _ _ _ _ _ C Ec)|done|exact Ec|by split].
    apply core_inst; [exact C|done|]. intros _. exact (co_none _ _ _ _ _ _ _ _ _ C Ec).
Qed.

Lemma runs_fail_instance chk s tl os xs rs a' Q :
  core chk s tl os xs rs → av_finished (view s) = false → si_in_failure (ms_inst s) = false →
  a_fail client S0 (view s) = Some a' →
  (∀ s' os' xs' rs', core chk s' tl os' xs' rs' → Forall (λ o, o = None) os' → view s' = a' →
     si_current (ms_inst s') = None → kept s s' → Q tt s') →
  runs (state_machine_instance_fail client) s Q.
Proof.
  intros C Hf Hif Ha HQ. unfold state_machine_instance_fail. step. rewrite Hif. unfold a_fail in Ha. rewrite Hf in Ha.
  simpl in Hf, Ha. rewrite Hf. unfold upd_inst at 1 2. step. step. set (s1 := set_inst _ _).
  assert (core chk s1 tl os xs rs) as C1.
  { apply core_inst; [apply core_inst; [exact C|done|]|done|]; exact (co_none _ _ _ _ _ _ _ _ _ C). }
  assert (∀ s2, core chk s2 tl os xs rs → same_place (ms_inst s) (ms_inst s2) → ms_data s2 = ms_data s →
    evolved s s2 → si_in_transition (ms_inst s2) = si_in_transition (ms_inst s) → av_finished (view s2) = false →
    a_finish client S0 (view s2) = Some a' →
    runs (state_machine_instance_finish client;; upd_inst (set_in_failure false)) s2 Q) as Hfin.
  { intros s2 C2 P2 D2 V2 T2 F2 E2. apply runs_bind. eapply runs_finish_instance; [exact C2|exact F2|exact E2|].
    intros s3 os3 xs3 rs3 C3 Hn3 Ev3 Ec3 K3. unfold upd_inst. step.
    eapply HQ; [|exact Hn3|done|exact Ec3|].
    - apply core_inst; [exact C3|done|done].
    - destruct K3 as [[A1 A2] B1 [D3 D4] E3], P2 as [P2 P3]. split.
      + split; simpl; congruence.
      + simpl. congruence.
      + split; simpl; congruence.
      + unfold evolved in *. simpl. by etrans. }
  destruct (si_current (ms_inst s)) as [c|] eqn:Ec.
  - destruct (S0 !! c) as [st|] eqn:Est; [|done]. apply runs_bind, runs_bind.
    eapply runs_rd_state; [exact C1|exact Est|]. eapply runs_notify; [done|]. intros s2 -> Ev2.
    eapply Hfin; try done; [by apply core_client|].
    rewrite Ev2. unfold s1 at 1. unfold view. simpl. by rewrite Ec, Hf.
  - unfold skip. step. eapply Hfin; try done. unfold s1, view. simpl. by rewrite Ec, Hf.
Qed.

(** ** Arming the timers of a state *)

Lemma runs_get_timeout s st x i t Q :
  ms_states s = S0 → ms_trans s = T0 → S0 !! st = Some x → state_ok T0 K x → timeouts_of T0 x !! i = Some t →
  Q t s → runs (get_timeout st (Z.of_nat i)) s Q.
Proof.
  intros E1 E2 Hx [(ls & Hv & Hls) _ _] Hi HQ. destruct (Forall2_lookup_r _ _ _ _ _ Hls Hi) as (l & Hl & Ht).
  unfold get_timeout, on_timeouts, rd_state. apply runs_bind, runs_bind, runs_bind. step. rewrite E1, Hx. step.
  destruct (runs_load (sa_timeouts x) (Z.pos <$> ls) i (Z.pos l) (λ y v, y = Z.pos l ∧ v = sa_timeouts x)) as (y & v & -> & -> & ->);
    [exact Hv|by rewrite list_lookup_fmap, Hl|done|].
  unfold wr_state. step. step. simpl. step. step. simpl. rewrite E2, Ht. step.
  replace (set_states _ s) with s; [done|]. destruct s as [? ms]. simpl in *. subst ms. unfold set_states. simpl. f_equal.
  symmetry. apply insert_id. rewrite Hx. by destruct x.
Qed.

Lemma runs_start_loop chk s tl f st x n : 
  vec_rep (si_timers (ms_inst s)) (Z.pos <$> tl) → ms_states s = S0 → ms_trans s = T0 → S0 !! st = Some x → state_ok T0 K x →
  (length (timeouts_of T0 x) ≤ length tl)%nat → ∀ i r xs rs os Q,
  clock chk r xs rs tl os → below r f → ns (now r) < 2 ^ 60 → (i + n = length (timeouts_of T0 x))%nat →
  (∀ j o, (i ≤ j)%nat → os !! j = Some o → o = None) →
  (∀ r' xs' os', clock chk r' xs' rs tl os' → evolves r r' → below r' f → ns (now r') < 2 ^ 60 →
     (∀ j, (i ≤ j)%nat → (j < i + n)%nat → os' !! j = Some <$> (tn_timeout <$> timeouts_of T0 x !! j)) →
     (∀ j, ¬ (i ≤ j < i + n)%nat → os' !! j = os !! j) → Q tt (set_realm r' s)) →
  runs (start_loop n st (Z.of_nat i)) (set_realm r s) Q.
Proof.
  intros Hv E1 E2 Hx Hok Hlen. induction n as [|n IH]; intros i r xs rs os Q C Hf Hnow Hn Ho HQ; cbn [start_loop].
  - unfold skip. step. eapply HQ; [exact C|done|done|done|intros; lia|done].
  - destruct (lookup_lt_is_Some_2 tl i) as [t Ht]; [lia|].
    destruct (lookup_lt_is_Some_2 (timeouts_of T0 x) i) as [tr Htr]; [lia|].
    destruct (lookup_lt_is_Some_2 os i) as [o Hoi].
    { rewrite <- (Forall2_length _ _ _ (ck_slots _ _ _ _ _ _ C)). lia. }
    assert (o = None) as -> by (eapply Ho; [|exact Hoi]; lia).
    pose proof (so_trans _ _ _ Hok) as Htrs. rewrite Forall_lookup in Htrs. destruct (Htrs i tr Htr) as (Hty & _ & Hd & Hdp & Hdb).
    apply runs_bind. eapply runs_get_timer; [exact Hv|exact Ht|]. apply runs_bind.
    eapply runs_get_timeout; [done|done|exact Hx|exact Hok|exact Htr|]. step; [by rewrite Hty|].
    apply runs_bind. unfold on_realm, realm. step.
    eapply clock_start; [exact C|exact Hf|exact Ht|exact Hoi|done|done|simpl in *; lia|]. intros b r1 xs1 C1 V1 F1. simpl.
    change (set_realm r1 (set_realm r s)) with (set_realm r1 s).
    replace (Z.of_nat i + 1) with (Z.of_nat (S i)) by lia.
    assert (now r1 = now r) as En by apply (ev_realm _ _ V1).
    eapply IH; [exact C1|exact F1|by rewrite En|lia| |].
    + intros j w Hj. rewrite list_lookup_insert_ne by lia. apply Ho. lia.
    + intros r2 xs2 os2 C2 V2 F2 N2 Hin Hout. eapply HQ; [exact C2|by etrans|done|done| |].
      * intros j Hj1 Hj2. destruct (decide (j = i)) as [->|]; [|apply Hin; lia]. rewrite Hout by lia.
        rewrite list_lookup_insert_eq by (by eapply lookup_lt_Some). by rewrite Htr.
      * intros j Hj. rewrite Hout by lia. rewrite list_lookup_insert_ne by lia. done.
Qed.

(** What the creation of timers keeps. *)
Record grown s s' : Prop := {
  gr_view : view s' = view s;
  gr_used : si_used_timer (ms_inst s') = si_used_timer (ms_inst s);
  gr_flags : same_flags s s';
  gr_evolved : evolved s s';
}.

Lemma grown_trans s1 s2 s3 : grown s1 s2 → grown s2 s3 → grown s1 s3.
Proof.
  intros [A1 A2 [A3 A4] A5] [B1 B2 [B3 B4] B5]. split; [congruence|congruence|split; congruence|].
  unfold evolved in *. by etrans.
Qed.

(** One new timer, when the array has a place for it. *)
Lemma runs_create_one chk s tl os xs rs n Q :
  core chk s tl os xs rs → zlen tl + 1 ≤ vc_allocated (si_timers (ms_inst s)) → (length tl < K)%nat →
  (∀ s', core chk s' (tl ++ [ms_fresh s]) (os ++ [None]) xs rs → grown s s' → ms_fresh s ∉ tl →
     vc_allocated (si_timers (ms_inst s')) = vc_allocated (si_timers (ms_inst s)) →
     vc_mem (si_timers (ms_inst s')) = vc_mem (si_timers (ms_inst s)) →
     ms_data s' = <[ms_fresh s := (vc_mem (si_timers (ms_inst s)), zlen tl)]> (ms_data s) →
     runs (create_loop n (zlen tl + 1)) s' Q) →
  runs (create_loop (S n) (zlen tl)) s Q.
Proof.
  intros C Hal HK HQ. pose proof C as [C1 C2 C3 C4 C5 C6 C7 C9 C10 C11]. cbn [create_loop].
  assert (zlen (Z.pos <$> tl) = zlen tl) as Ez by (unfold zlen; by rewrite length_fmap).
  apply runs_bind. unfold on_timers at 1. step.
  eapply runs_vector_push_fits; [exact C3|lia|]. intros y v1 V1 A1 M1. rewrite Ez.
  apply runs_bind. unfold mmalloc. destruct (ms_mem s) as [|mem] eqn:Em; [lia|].
  eapply runs_eq; [cbn [set_inst ms_mem]; rewrite Em; reflexivity|].
  apply runs_bind. unfold on_realm, realm. step. cbn [ms_realm set_inst ms_fresh].
  eapply clock_new; [exact C4|exact C6|]. intros r2 C2' E2 F2.
  apply runs_bind. unfold on_timers. step. cbn [ms_inst set_realm set_inst si_timers set_timers].
  rewrite <- Ez at 1. eapply runs_store; [exact V1|]. intros v3 V3 A3 M3. step.
  assert (ms_fresh s ∉ tl) as Hni.
  { pose proof (ck_nodup _ _ _ _ _ _ C2') as Hnd. apply NoDup_app in Hnd as (_ & Hnd & _). intros Hi.
    apply (Hnd _ Hi). by left. }
  assert (length os = length tl) as Hlo by (symmetry; apply (Forall2_length _ _ _ (ck_slots _ _ _ _ _ _ C4))).
  eapply HQ; [|by split|exact Hni|simpl; congruence|simpl; congruence|simpl; rewrite M3, M1; reflexivity].
  split; simpl; try done.
  - rewrite fmap_app. exact V3.
  - destruct (ev_realm _ _ E2) as (_ & _ & _ & -> & _). done.
  - rewrite length_app. simpl. lia.
  - rewrite zlen_app. change (zlen [ms_fresh s]) with 1. lia.
  - intros i o Hi Hu. apply lookup_app_Some in Hi as [Hi|[_ Hi]]; [by eapply C10|].
    by apply list_lookup_singleton_Some in Hi as [_ <-].
  - intros Hc. apply Forall_app. split; [by apply C11|by constructor].
Qed.

Lemma runs_create_loop chk n : ∀ s tl os xs rs Q,
  core chk s tl os xs rs → zlen tl + Z.of_nat n ≤ vc_allocated (si_timers (ms_inst s)) → (length tl + n ≤ K)%nat →
  (∀ s' new, core chk s' (tl ++ new) (os ++ replicate n None) xs rs → grown s s' → length new = n →
     vc_mem (si_timers (ms_inst s')) = vc_mem (si_timers (ms_inst s)) →
     (∀ t, t ∈ tl → ms_data s' !! t = ms_data s !! t) →
     (∀ i t, new !! i = Some t → ms_data s' !! t = Some (vc_mem (si_timers (ms_inst s)), zlen tl + Z.of_nat i)) →
     Q true s') →
  runs (create_loop n (zlen tl)) s Q.
Proof.
  induction n as [|n IH]; intros s tl os xs rs Q C Hal HK HQ.
  - cbn [create_loop]. step. apply (HQ s []); try done. by rewrite !app_nil_r.
  - eapply runs_create_one; [exact C|lia|lia|]. intros s1 C1 G1 Hni A1 M1 D1.
    assert (zlen tl + 1 = zlen (tl ++ [ms_fresh s])) as -> by (by rewrite zlen_app).
    eapply IH; [exact C1| |rewrite length_app; simpl; lia|].
    { rewrite zlen_app, A1. change (zlen [ms_fresh s]) with 1. lia. }
    intros s2 new C2 G2 Hl M2 D2 D2'. apply (HQ s2 (ms_fresh s :: new)).
    + rewrite <- !app_assoc in C2. exact C2.
    + by eapply grown_trans.
    + simpl. by rewrite Hl.
    + congruence.
    + intros t Ht. rewrite D2 by (apply elem_of_app; by left). rewrite D1. apply lookup_insert_ne. by intros <-.
    + intros [|i] t Ht; simpl in Ht.
      * injection Ht as <-. rewrite D2 by (apply elem_of_app; right; by left). rewrite D1, lookup_insert_eq.
        do 2 f_equal. simpl. lia.
      * rewrite (D2' _ _ Ht), M1, zlen_app. change (zlen [ms_fresh s]) with 1. do 2 f_equal. lia.
Qed.

(** All the slots at rest, then the ones of the state armed. *)
Lemma armed_slots (os os' : list (option time)) ds :
  Forall (λ o, o = None) os → length os' = length os → (length ds ≤ length os)%nat →
  (∀ j, (j < length ds)%nat → os' !! j = Some <$> (ds !! j)) → (∀ j, (length ds ≤ j)%nat → os' !! j = os !! j) →
  os' = (Some <$> ds) ++ replicate (length os - length ds) None.
Proof.
  intros Hn Hl Hd H1 H2. apply list_eq_same_length with (length os); [rewrite length_app, length_fmap, length_replicate; lia|done|].
  intros j x y Hj. destruct (decide (j < length ds)%nat) as [Hlt|Hge].
  - rewrite H1, lookup_app_l, list_lookup_fmap by (rewrite ?length_fmap; lia). intros E1 E2. congruence.
  - rewrite H2 by lia. rewrite lookup_app_r by (rewrite length_fmap; lia).
    rewrite length_fmap, lookup_replicate_2 by lia. intros E1 [= <-]. rewrite Forall_lookup in Hn. by eapply Hn.
Qed.

Lemma runs_grow chk s tl os xs rs count Q :
  core chk s tl os xs rs → data_inv S0 T0 K s tl → zlen tl < count ≤ Z.of_nat K →
  (∀ s', core chk s' tl os xs rs → grown s s' → vc_allocated (si_timers (ms_inst s')) = count →
     (K ≤ S (length tl + vc_mem (si_timers (ms_inst s'))))%nat → ms_data s' = ms_data s → Q true s') →
  runs (on_timers (vector_reserve count)) s Q.
Proof.
  intros C [Hm _] Hc HQ. pose proof C as [C1 C2 C3 C4 C5 C6 C7 C9 C10 C11]. unfold on_timers. step.
  destruct (vc_mem (si_timers (ms_inst s))) as [|mem] eqn:Em; [unfold zlen in *; lia|].
  eapply runs_reserve; [exact C3|unfold zlen in *; rewrite length_fmap; lia|exact Em|]. intros v V A _ M.
  eapply HQ; [by split|by split|exact A|simpl; lia|done].
Qed.

(** The missing timers are created. *)
Lemma runs_missing chk s tl os xs rs st x Q :
  core chk s tl os xs rs → data_inv S0 T0 K s tl → Forall (λ o, o = None) os → S0 !! st = Some x → state_ok T0 K x →
  (∀ s' tl' os', core chk s' tl' os' xs rs → data_inv S0 T0 K s' tl' → Forall (λ o, o = None) os' →
     (length (timeouts_of T0 x) ≤ length tl')%nat → grown s s' → Q true s') →
  let count := zlen (timeouts_of T0 x) in let tcount := zlen tl in
  runs ((if bool_decide (count > tcount) then _ ← on_timers (vector_reserve count); skip else skip);;
        create_loop (Z.to_nat (count - tcount)) tcount) s Q.
Proof.
  intros C Hdi Hn Hst Hok HQ count tcount. pose proof (so_count _ _ _ Hok) as HcK.
  assert (Forall (λ o, o = None) (os ++ replicate (Z.to_nat (count - tcount)) None)) as Hn'
    by (apply Forall_app; split; [done|by apply Forall_replicate]).
  unfold count, tcount in *. apply runs_bind. case_test as Hgt.
  - apply runs_bind. eapply runs_grow; [exact C|exact Hdi|unfold zlen in *; lia|]. intros s1 C1 G1 A1 M1 D1.
    unfold skip. step. eapply runs_create_loop; [exact C1|rewrite A1; unfold zlen in *; lia|unfold zlen in *; lia|].
    intros s2 new C2 G2 Hl M2 D2 D2'. eapply HQ; [exact C2| |exact Hn'| |by eapply grown_trans].
    + split; [rewrite M2, length_app; unfold zlen in *; lia|]. intros Hu. destruct Hdi as [_ Hdi].
      destruct (Hdi Hu) as [[->|Hl'] Ho].
      * destruct (Hu _ _ Hst) as [E0|EK]; [unfold zlen in *; lia|]. simpl in Hl, D2'. split.
        -- right. simpl. unfold zlen in *. simpl in *. lia.
        -- intros i t Hi. simpl in Hi. rewrite (D2' _ _ Hi), M2. done.
      * unfold zlen in *. lia.
    + rewrite length_app. unfold zlen in *. lia.
  - unfold skip. step. assert (Z.to_nat (zlen (timeouts_of T0 x) - zlen tl) = 0%nat) as E by lia. rewrite E in *.
    cbn [create_loop]. step. rewrite app_nil_r in Hn'.
    eapply HQ; [exact C|exact Hdi|exact Hn|unfold zlen in *; lia|by split].
Qed.

Lemma runs_arm chk s tl os xs rs st x Q :
  core chk s tl os xs rs → data_inv S0 T0 K s tl → Forall (λ o, o = None) os →
  si_current (ms_inst s) = Some st → S0 !! st = Some x → state_ok T0 K x →
  (∀ s', inv chk s' → view s' = view s → same_flags s s' → evolved s s' → Q true s') →
  runs (arm_timers client st (vc_count (sa_timeouts x))) s Q.
Proof.
  intros C Hdi Hn Hcur Hst Hok HQ.
  assert (vc_count (sa_timeouts x) = zlen (timeouts_of T0 x)) as ->.
  { destruct Hok as [(ls & Hv & Hls) _ _]. rewrite (vr_count _ _ Hv). unfold zlen. rewrite length_fmap.
    by rewrite (Forall2_length _ _ _ Hls). }
  assert (vc_count (si_timers (ms_inst s)) = zlen tl) as Etc.
  { rewrite (vr_count _ _ (co_vec _ _ _ _ _ _ _ _ _ C)). unfold zlen. by rewrite length_fmap. }
  unfold arm_timers. step. cbv zeta. rewrite Etc. apply runs_assoc, runs_bind.
  eapply runs_missing; [exact C|exact Hdi|exact Hn|exact Hst|exact Hok|].
  intros s1 tl1 os1 C1 D1 Hn1 Hl1 [G1 G2 [G3 G4] G5]. cbn [negb]. unfold upd_inst. step. set (s2 := set_inst _ s1).
  pose proof C1 as [A1 A2 A3 A4 A5 A6 A7 A9 A10 A11]. apply runs_bind. rewrite <- (set_realm_id s2).
  unfold zlen. rewrite Nat2Z.id. change 0 with (Z.of_nat 0).
  eapply (runs_start_loop chk s2); [exact A3|exact A1|exact A2|exact Hst|exact Hok|exact Hl1|exact A4|exact A6|exact A5|done| |].
  { intros j o _ Ho. rewrite Forall_lookup in Hn1. by eapply Hn1. }
  intros r3 xs3 os3 C3 E3 F3 N3 Hin Hout. step.
  assert (si_current (ms_inst s1) = Some st) as Ec1.
  { rewrite <- Hcur. by injection G1. }
  assert (delays S0 T0 (Some st) = tn_timeout <$> timeouts_of T0 x) as Ed by (unfold delays; simpl; by rewrite Hst).
  pose proof (Forall2_length _ _ _ (ck_slots _ _ _ _ _ _ C3)) as L3.
  pose proof (Forall2_length _ _ _ (ck_slots _ _ _ _ _ _ A4)) as L4.
  assert (os3 = (Some <$> delays S0 T0 (Some st)) ++ replicate (length os1 - length (delays S0 T0 (Some st))) None) as Eos.
  { rewrite Ed. apply armed_slots; [exact Hn1|congruence|rewrite length_fmap; lia| |].
    - intros j Hj. rewrite length_fmap in Hj. rewrite list_lookup_fmap. apply Hin; lia.
    - intros j Hj. rewrite length_fmap in Hj. apply Hout. lia. }
  apply HQ; [|exact G1|by split|unfold evolved in *; simpl; by etrans].
  exists tl1, os3, xs3, rs. unfold tracked. split_and!.
  - split; simpl; try done.
    + unfold zlen. lia.
    + intros i o Hi Hu. unfold zlen in Hu. rewrite Hout in Hi by lia. rewrite Forall_lookup in Hn1. by eapply Hn1.
    + by rewrite Ec1.
  - exact D1.
  - simpl. rewrite Ec1. by eexists.
  - simpl. rewrite Ec1, Ed. intros _. unfold zlen. by rewrite length_fmap.
Qed.

(** ** Entering a state *)

(** The timers of a state that is being entered or left may be missing. *)
Definition loose chk s : Prop := ∃ tl os xs rs, core chk s tl os xs rs ∧ data_inv S0 T0 K s tl.

Lemma inv_loose chk s : inv chk s → loose chk s.
Proof. intros (tl & os & xs & rs & C & D & _). by exists tl, os, xs, rs. Qed.

Lemma inv_rest chk s tl os xs rs :
  core chk s tl os xs rs → data_inv S0 T0 K s tl → Forall (λ o, o = None) os → si_current (ms_inst s) = None → inv chk s.
Proof.
  intros C D Hn Hc. exists tl, os, xs, rs. unfold tracked. split_and!; [done|done| |rewrite Hc; by intros [? [=]]].
  exists (length os). rewrite Hc. simpl. apply list_eq_same_length with (length os); [by rewrite length_replicate|done|].
  intros j x y Hj Hx Hy. rewrite lookup_replicate_2 in Hy by done. injection Hy as <-. rewrite Forall_lookup in Hn. by eapply Hn.
Qed.

Lemma inv_flags chk s i :
  inv chk s → same_place (ms_inst s) i → si_current i = si_current (ms_inst s) → inv chk (set_inst i s).
Proof.
  intros (tl & os & xs & rs & C & D & Ha & Hu) [E1 E2] Ec. exists tl, os, xs, rs. unfold tracked. simpl. rewrite Ec, E2. split_and!; try done.
  - apply core_inst; [done|done|]. rewrite Ec. apply (co_none _ _ _ _ _ _ _ _ _ C).
  - by eapply data_same.
Qed.

(** An operation that simulates an abstract step. *)
Definition simulates (m : M (mstate U) unit) (f : aview U → option (aview U)) : Prop :=
  ∀ chk s a', loose chk s → av_finished (view s) = false → si_in_failure (ms_inst s) = false → f (view s) = Some a' →
    runs m s (λ _ s', inv chk s' ∧ view s' = a' ∧ same_flags s s' ∧ evolved s s').

Lemma sim_finish : simulates (state_machine_instance_finish client) (a_finish client S0).
Proof.
  intros chk s a' (tl & os & xs & rs & C & D) Hf _ Ha. eapply runs_finish_instance; [exact C|exact Hf|exact Ha|].
  intros s' os' xs' rs' C' Hn Ev Ec K'. split_and!; [|done|apply K'|apply K'].
  eapply inv_rest; [exact C'|by eapply kept_data|done|done].
Qed.

Lemma sim_fail : simulates (state_machine_instance_fail client) (a_fail client S0).
Proof.
  intros chk s a' (tl & os & xs & rs & C & D) Hf Hif Ha. eapply runs_fail_instance; [exact C|exact Hf|exact Hif|exact Ha|].
  intros s' os' xs' rs' C' Hn Ev Ec K'. split_and!; [|done|apply K'|apply K'].
  eapply inv_rest; [exact C'|by eapply kept_data|done|done].
Qed.

Lemma sim_update_with enter a_ent n :
  (∀ st, simulates (enter st) (a_ent st)) →
  simulates (update_with client enter n) (a_update_with client S0 a_ent n).
Proof.
  intros IH chk s a' L Hf Hif Ha. unfold update_with. step. unfold a_update_with in Ha. rewrite Hf in Ha. simpl in Hf. rewrite Hf.
  repeat case_bool_decide.
  - by apply sim_fail.
  - by apply sim_finish.
  - by apply IH.
Qed.

(** The end of [state_machine_enter_state]: the flag is restored. *)
Lemma sim_restore m f chk s0 s a' :
  simulates m f → loose chk s → av_finished (view s) = false → si_in_failure (ms_inst s) = si_in_failure (ms_inst s0) →
  si_in_failure (ms_inst s0) = false → evolved s0 s → f (view s) = Some a' →
  runs (m;; upd_inst (set_in_transition (si_in_transition (ms_inst s0)))) s
    (λ _ s', inv chk s' ∧ view s' = a' ∧ same_flags s0 s' ∧ evolved s0 s').
Proof.
  intros Hm L Hf Ei E0 V Ha. post Hm; [exact L|exact Hf|congruence|exact Ha|].
  intros [] s1 (I1 & V1 & [F1 F2] & Ev1). unfold upd_inst. step. split_and!; [|done|split; simpl; congruence|].
  - by apply inv_flags.
  - unfold evolved in *. simpl. by etrans.
Qed.

Lemma view_finished_call trans (a : aview U) r a' : a_call client trans a = (r, a') → av_finished a' = av_finished a.
Proof. unfold a_call. destruct (tn_callback trans); [|by intros [= _ <-]]. destruct (client _ _). by intros [= _ <-]. Qed.

Lemma view_finished_leave (a : aview U) r a' : a_leave client S0 a = Some (r, a') → av_finished a' = av_finished a.
Proof.
  unfold a_leave. destruct (av_current a) as [c|]; [|by intros [= _ <-]]. destruct (S0 !! c); [|done].
  destruct (a_call _ _ _) as [r1 a1] eqn:E. intros [= _ <-]. simpl. by eapply view_finished_call.
Qed.

Lemma sim_enter fuel : states_ok S0 T0 K → ∀ st,
  simulates (state_machine_enter_state client fuel (Some st)) (a_enter client S0 fuel st).
Proof.
  intros Hok. induction fuel as [|fuel IH]; intros st chk s a' (tl & os & xs & rs & C & D) Hf Hif Ha; [done|].
  cbn [a_enter] in Ha. cbn [state_machine_enter_state]. step. cbv zeta. unfold upd_inst at 1. step. set (s1 := set_inst _ s).
  assert (core chk s1 tl os xs rs) as C1 by (apply core_inst; [done|done|]; apply (co_none _ _ _ _ _ _ _ _ _ C)).
  destruct (a_leave client S0 (view s)) as [[n a1]|] eqn:El; [|done]. pose proof (view_finished_leave _ _ _ El) as Hf1.
  apply runs_bind. eapply runs_leave; [exact C1|exact El|]. intros s2 os2 xs2 rs2 C2 Hn2 Ev2 Ec2 [P2 D2 [F2 F2'] E2].
  assert (data_inv S0 T0 K s2 tl) as D2' by (eapply data_same; [exact D|apply P2|exact D2]).
  destruct n as [n|].
  - eapply sim_restore; [by apply sim_update_with| | | | | |]; [by exists tl, os2, xs2, rs2|by rewrite Ev2, Hf1|done|done|done|].
    by rewrite Ev2.
  - destruct (S0 !! st) as [x|] eqn:Est; [|done]. apply runs_bind. eapply runs_rd_state; [exact C2|exact Est|].
    unfold upd_inst at 1. step. set (s3 := set_inst _ s2).
    destruct (a_call client (sa_enter x) (goto (Some st) a1)) as [n a2] eqn:Eca.
    apply runs_bind. assert (core chk s3 tl os2 xs2 rs2) as C3 by (by apply core_inst).
    eapply runs_call; [rewrite <- Ev2 in Eca; exact Eca|]. intros s4 -> Ev4. destruct n as [n|].
    + eapply sim_restore; [by apply sim_update_with| | | | | |].
      * exists tl, os2, xs2, rs2. split; [by apply core_client|]. by eapply data_same.
      * rewrite Ev4. rewrite (view_finished_call _ _ _ _ Eca). simpl. by rewrite Hf1.
      * done.
      * done.
      * done.
      * by rewrite Ev4.
    + injection Ha as <-. apply runs_bind.
      eapply (runs_arm chk); [apply core_client; exact C3|by eapply data_same|exact Hn2|done|exact Est|by apply (Hok st)|].
      intros s5 I5 V5 [F5 F5'] E5. unfold upd_inst. step. split_and!.
      * by apply inv_flags.
      * simpl. rewrite <- Ev4, <- V5. done.
      * split; [done|]. simpl in *. congruence.
      * unfold evolved in *. simpl in *. by etrans.
Qed.
End steps.
