(* ===== verification/StateMachineSpec.v ===== *)
(** * Properties of the state machines

    An update of an instance behaves as the abstract machine says and leaves exactly
    the timers of the new current state armed; it returns when the enter and leave
    transitions go down in a rank; a timeout that is due takes its transition. *)

From stdpp Require Import sorting.
From S2P Require Import Prelude List2 Time Timer TimerSpec Vector StateMachine StateMachineRep StateMachineSim.

(** ** Termination *)

Definition special (n : loc) : Prop := n = state_machine_fail_state ∨ n = state_machine_finish_state.

Section rank.
Context {U : Type} (client : loc → U → ptr * U) (S0 : gmap loc state) (rank : loc → nat).
Implicit Types a : aview U.

(** The answers of the callback of a transition are states below [st]. *)
Definition descends (st : loc) (trans : transition) : Prop := ∀ cb u n u',
  tn_callback trans = Some cb → client cb u = (Some n, u') → special n ∨ is_Some (S0 !! n) ∧ (rank n < rank st)%nat.

Definition ranked : Prop := map_Forall (λ st x, descends st (sa_enter x) ∧ descends st (sa_leave x)) S0.

Definition valid a : Prop := ∀ c, av_current a = Some c → is_Some (S0 !! c).

Definition measure (st : loc) a : nat :=
  match av_current a with None => 2 * rank st + 1 | Some c => (2 * rank c) `max` (2 * rank st + 1) end.

Lemma a_call_answer trans a r a' :
  a_call client trans a = (r, a') → av_current a' = av_current a ∧
  ∀ n st, descends st trans → r = Some n → special n ∨ is_Some (S0 !! n) ∧ (rank n < rank st)%nat.
Proof.
  unfold a_call. destruct (tn_callback trans) as [cb|] eqn:E; [|by intros [= <- <-]].
  destruct (client cb (av_user a)) as [r1 u] eqn:Ec. intros [= <- <-]. split; [done|]. intros n st Hd ->. by eapply Hd.
Qed.

Lemma a_leave_total a : ranked → valid a → ∃ r a', a_leave client S0 a = Some (r, a') ∧ av_current a' = None ∧
  ∀ n, r = Some n → ∃ c, av_current a = Some c ∧ (special n ∨ is_Some (S0 !! n) ∧ (rank n < rank c)%nat).
Proof.
  intros Hr Hv. unfold a_leave. destruct (av_current a) as [c|] eqn:Ec; [|by exists None, a].
  destruct (Hv c Ec) as [st Hst]. rewrite Hst. destruct (a_call client (sa_leave st) a) as [r a1] eqn:Eca.
  exists r, (goto None a1). split_and!; [done|done|]. intros n Hn. exists c. split; [done|].
  eapply (a_call_answer _ _ _ _ Eca); [|done]. apply (Hr _ _ Hst).
Qed.

Lemma a_finish_total a : ranked → valid a → ∃ a', a_finish client S0 a = Some a' ∧ valid a'.
Proof.
  intros Hr Hv. unfold a_finish. destruct (av_finished a); [eauto|]. destruct (av_current a) as [c|] eqn:Ec.
  - destruct (Hv c Ec) as [st Hst]. destruct (a_leave_total a Hr Hv) as (r & a1 & -> & Hc1 & _). rewrite Hst. eexists. split; [done|].
    intros d. simpl. rewrite a_call_current, Hc1. done.
  - eexists. split; [done|]. intros d. simpl. by rewrite Ec.
Qed.

Lemma a_fail_total a : ranked → valid a → ∃ a', a_fail client S0 a = Some a' ∧ valid a'.
Proof.
  intros Hr Hv. unfold a_fail. destruct (av_finished a); [eauto|]. simpl. destruct (av_current a) as [c|] eqn:Ec.
  - destruct (Hv c Ec) as [st Hst]. rewrite Hst. apply a_finish_total; [done|].
    intros d. rewrite a_call_current. simpl. intros [= <-]. eauto.
  - apply a_finish_total; [done|]. by intros d.
Qed.

Lemma a_update_with_total ent n a : ranked → valid a →
  (¬ special n → ∃ a', ent n a = Some a' ∧ valid a') → ∃ a', a_update_with client S0 ent n a = Some a' ∧ valid a'.
Proof.
  intros Hr Hv He. unfold a_update_with. destruct (av_finished a); [eauto|].
  case_bool_decide; [by apply a_fail_total|]. case_bool_decide; [by apply a_finish_total|].
  apply He. by intros [?|?].
Qed.

Lemma a_enter_total fuel : ranked → ∀ st a, valid a → is_Some (S0 !! st) → (measure st a < fuel)%nat →
  ∃ a', a_enter client S0 fuel st a = Some a' ∧ valid a'.
Proof.
  intros Hr. induction fuel as [|fuel IH]; intros st a Hv Hst Hm; [lia|]. cbn [a_enter].
  destruct (a_leave_total a Hr Hv) as (r & a1 & -> & Hc1 & Hn1).
  assert (valid a1) as Hv1 by (intros c; by rewrite Hc1). destruct r as [n|].
  - destruct (Hn1 n eq_refl) as (c & Ec & Hn). apply a_update_with_total; [done|done|]. intros Hs.
    destruct Hn as [?|[Hn1' Hn2]]; [done|]. apply IH; [done|done|]. unfold measure in *. rewrite Hc1. rewrite Ec in Hm. lia.
  - destruct Hst as [x Hx]. rewrite Hx. destruct (a_call client (sa_enter x) (goto (Some st) a1)) as [n a2] eqn:Eca.
    destruct (a_call_answer _ _ _ _ Eca) as [Ec2 Hn2]. simpl in Ec2.
    assert (valid a2) as Hv2 by (intros c; rewrite Ec2; intros [= <-]; by eexists).
    destruct n as [n|]; [|by exists a2]. apply a_update_with_total; [done|done|]. intros Hs.
    destruct (Hn2 n st (proj1 (Hr _ _ Hx)) eq_refl) as [?|[Hn3 Hn4]]; [done|]. apply IH; [done|done|].
    unfold measure in *. rewrite Ec2. destruct (av_current a); lia.
Qed.

(** [R] bounds the ranks: the depth of the calls. *)
Lemma a_update_total R n a : ranked → (∀ st, is_Some (S0 !! st) → (rank st ≤ R)%nat) → valid a →
  special n ∨ is_Some (S0 !! n) → ∃ a', a_update client S0 (2 * R + 2) n a = Some a' ∧ valid a'.
Proof.
  intros Hr HR Hv Hn. apply a_update_with_total; [done|done|]. intros Hs. destruct Hn as [?|Hn]; [done|].
  apply a_enter_total; [done|done|done|]. unfold measure. pose proof (HR _ Hn).
  destruct (av_current a) as [c|] eqn:Ec; [pose proof (HR _ (Hv c Ec))|]; lia.
Qed.
End rank.

(** ** Updates *)

Section update.
Context {U : Type} (client : loc → U → ptr * U) (S0 : gmap loc state) (T0 : gmap loc transition) (K : nat).
Implicit Types s : mstate U.

Lemma inv_error chk s e : inv S0 T0 K chk s → inv S0 T0 K chk (set_merror e s).
Proof.
  intros (tl & os & xs & rs & [C1 C2 C3 C4 C5 C6 C7 C9 C10 C11] & D & A & Hu). exists tl, os, xs, rs.
  unfold tracked. split_and!; [by split|done|done|done].
Qed.

Lemma runs_update chk s fuel n a' Q :
  states_ok S0 T0 K → inv S0 T0 K chk s → si_in_failure (ms_inst s) = false →
  a_update client S0 fuel n (view s) = Some a' →
  (∀ s', inv S0 T0 K chk s' → view s' = a' → same_flags s s' → evolved s s' → Q tt s') →
  runs (state_machine_instance_update client fuel n) s Q.
Proof.
  intros Hok I Hif Ha HQ. unfold state_machine_instance_update. destruct (av_finished (view s)) eqn:Ef.
  - unfold a_update, a_update_with in Ha. rewrite Ef in Ha. injection Ha as <-. unfold update_with. step. simpl in Ef.
    rewrite Ef. unfold merror. step. apply HQ; try done. by apply inv_error.
  - eapply runs_mono; [eapply (sim_update_with client S0 T0 K); [by apply sim_enter|by apply inv_loose|exact Ef|exact Hif|exact Ha]|].
    intros [] s' (? & ? & ? & ?). by apply HQ.
Qed.
End update.



