(* ===== verification/StateMachineFire.v ===== *)
(** * Timeouts of the state machines

    The network time moves on and one timer is due: the check takes it off the sorted
    list, [transition_timeout] runs while it waits among the repeating ones, and what
    is left of them is inserted again. *)

From stdpp Require Import sorting.
From S2P Require Import Prelude List2 Time Timer TimerSpec Vector StateMachine StateMachineRep StateMachineSim StateMachineSpec.

(** ** The check of the realm *)

Section realm.
Implicit Types r : time_realm_state.

Lemma slots_mono r xs rs r' xs' rs' tl os :
  Forall2 (slot r xs rs) tl os → (∀ q u, q ∈ tl → unlinked r q u → unlinked r' q u) →
  (∀ x, x ∈ xs ++ rs → x ∈ xs' ++ rs') → Forall2 (slot r' xs' rs') tl os.
Proof.
  intros Hs Hu Hx. apply Forall2_same_length_lookup. split; [by eapply Forall2_length|]. intros j q w Hq Hw.
  pose proof (Forall2_lookup_lr _ _ _ _ _ _ Hs Hq Hw) as Hsl. destruct w as [d|]; simpl in *.
  - destruct Hsl as (tm & Hi & ?). exists tm. split; [by apply Hx|done].
  - destruct Hsl as (tm & U & ?). exists tm. split; [|done]. apply Hu; [by eapply list_elem_of_lookup_2|done].
Qed.

(** The network time is set. *)
Lemma clock_set_time r xs tl os value b :
  clock false r xs [] tl os → tr_mode r = TIME_REALM_STATIC → time_ok value →
  clock false (with_check b (with_time value r)) xs [] tl os ∧ now (with_check b (with_time value r)) = value.
Proof.
  intros [C1 C2 CR CF C3 C4 CH C5] Hm Hv.
  assert (now (with_check b (with_time value r)) = value) as En by (unfold now; simpl; by rewrite Hm).
  split; [|done]. split; try done; [destruct C1; by split|by rewrite En].
Qed.

(** The list of the repeating timers is set up. *)
Lemma clock_begin r xs tl os f Q :
  clock false r xs [] tl os → below r f →
  (∀ r', clock true r' xs [] tl os → same_realm r r' → tr_timers r' = tr_timers r → below r' f → Q tt r') →
  runs (tlnk (list2_init (tr_repeat r))) r Q.
Proof.
  intros [C1 C2 CR CF C3 C4 CH C5] [B1 B2] HQ. eapply runs_init_repeat; [exact C1|set_solver|]. intros l H1 R1 Ho.
  apply HQ; [|by split_and!|done|].
  - split; try done. eapply slots_mono; [exact C5| |done]. intros q u Hq [U1 U2]. split; [|done]. simpl.
    rewrite (Ho q); [done|]. set_solver.
  - split; [done|]. intros x Hx. simpl. rewrite (Ho x); [by apply B2|]. intros ->%list_elem_of_singleton. simpl in *. lia.
Qed.

(** The timer [t] expires. *)
Lemma clock_expire r t tm rest tl os i d cur f :
  clock true r ((t, tm) :: rest) [] tl os → below r f → tl !! i = Some t → os !! i = Some (Some d) →
  cur = now r → trig (t, tm) ≤ ns cur → repeat_ok (ns cur) tm →
  runs (tlnk (list2_erase t)) r (λ n r1, n = Some (at_head (tr_sorted r) rest.*1) ∧
    runs (expire t cur) r1 (λ _ r2, ∃ tm', clock true r2 rest [(t, tm')] tl os ∧ evolves r r2 ∧ below r2 f)).
Proof.
  intros [C1 C2 CR CF C3 C4 CH C5] B Hi Ho -> Hd Hr. simpl in CR.
  destruct (armed_at r [] t tm rest C1) as [Hp Hpt].
  destruct (Forall2_lookup_lr _ _ _ _ _ _ C5 Hi Ho) as (u & Hu & Ha & Hrep & Hdl).
  assert (u = tm) as ->.
  { rewrite app_nil_r in Hu. pose proof (ar_timers _ _ C1 _ _ Hu). congruence. }
  eapply runs_take; [exact C1|exact CR|]. intros l H1 R1 U1 T1. split; [done|].
  eapply runs_expire; [exact H1|exact R1|exact U1|done|done|exact Hd|exact Hr|]. intros r2 H2 R2 E2 F2 V2 T2.
  rewrite Hrep in R2. simpl in R2, T2. set (tm' := next_of _ tm) in *.
  assert (same_realm r r2) as Sr.
  { destruct V2 as (A1 & A2 & A3 & A4 & A5 & A6). simpl in *. split_and!; try done. unfold now. by rewrite A3, A4, A5. }
  assert (∀ x, x ≠ t → x ∉ tr_sorted r :: tr_repeat r :: rest.*1 → tr_links r2 !! x = tr_links r !! x) as Hl.
  { intros x Hx1 Hx2. rewrite (proj1 T2 x) by set_solver. apply (proj1 T1). set_solver. }
  assert (∀ x, x ≠ t → tr_timers r2 !! x = tr_timers r !! x) as Htm.
  { intros x Hx. rewrite (proj2 T2 x Hx). apply (proj2 T1 x Hx). }
  assert (tm_armed tm' = true ∧ tm_repeat tm' = true ∧ tm_delay tm' = d) as Htm'.
  { unfold tm', next_of. by rewrite Hrep. }
  exists tm'. split_and!.
  - split; try done.
    + by inversion_clear C2.
    + destruct Sr as (_ & _ & _ & -> & _). done.
    + destruct Sr as (-> & -> & _). set_solver.
    + replace os with (<[i := Some d]> os) by (by apply list_insert_id).
      eapply slots_change; [exact C5|done|exact Hi| | |].
      * intros q v Hq [V1' V3]. split; [|by rewrite Htm]. rewrite Hl; [done|done|].
        pose proof (unlinked_not_in _ _ _ _ C1 (conj V1' V3)).
        pose proof (dlist_not_in _ _ _ _ _ (rp_list _ _ _ CR) V1'). set_solver.
      * intros x Hx Hne. rewrite app_nil_r, elem_of_cons in Hx. destruct Hx as [->|Hx]; [done|]. apply elem_of_app. by left.
      * exists tm'. split; [apply elem_of_app; right; by left|done].
  - split; [done|]. intros q (v & Hq & Hv & Hlt). destruct (decide (q = t)) as [->|Hne].
    + exfalso. unfold trigger_of in Hq. rewrite Hp in Hq. injection Hq as <-. unfold trig in Hd. simpl in Hd. lia.
    + exists v. split_and!; [unfold trigger_of in *; by rewrite Htm|done|]. destruct Sr as (_ & _ & _ & -> & _). done.
  - destruct B as [B1 B2]. split; [destruct Sr as (_ & -> & _); done|]. intros x Hx. destruct (B2 x Hx) as [L1 L2].
    assert (x ≠ t) as Hne by congruence. rewrite Htm by done. split; [|done]. rewrite Hl; [done|done|]. intros Hi'.
    rewrite !elem_of_cons in Hi'. destruct Hi' as [->|[->|Hi']].
    + destruct (armed_alloc _ _ (tr_sorted r) C1) as [? ?]; [by left|congruence].
    + lia.
    + destruct (armed_alloc _ _ x C1) as [? ?]; [right; by right|congruence].
Qed.

(** The end of the check. *)
Lemma clock_end r xs rs tl os f fuel upd Q :
  clock true r xs rs tl os → below r f → (1 ≤ fuel)%nat →
  (∀ r' xs', clock false r' xs' [] tl os → same_realm r r' → below r' f → Q true r') →
  runs (empty ← tlnk (list2_empty (tr_repeat r));
        (if negb empty then b ← tlnk (list2_begin (tr_repeat r)); b ← deref b; reinsert_loop fuel (list2_end (tr_repeat r)) b
         else skip);;
        time_realm_update_timer_list upd) r Q.
Proof.
  intros [C1 C2 CR CF C3 C4 CH C5] [B1 B2] Hf HQ. simpl in CR.
  eapply runs_finish; [exact C1|exact CR|exact C2|exact C3|lia|]. intros r' xs' H' Hs Hp Ht Hfi Sr Ho.
  assert (∀ x, x ∈ tr_repeat r :: tr_sorted r :: rs.*1 ++ xs.*1 → x = tr_repeat r ∨ is_Some (tr_links r !! x)) as Hin.
  { intros x Hx. rewrite !elem_of_cons, elem_of_app in Hx. destruct Hx as [->|[->|[Hx|Hx]]]; [by left|right..].
    - eapply armed_alloc; [exact C1|by left].
    - eapply dlist_alloc; [apply (rp_list _ _ _ CR)|by right].
    - eapply armed_alloc; [exact C1|by right]. }
  apply (HQ r' xs'); [|done|].
  - split; try done; [simpl; lia|destruct Sr as (_ & _ & _ & -> & _); done| |].
    + destruct Sr as (-> & -> & _). rewrite elem_of_cons, elem_of_app, Hp, fmap_app, elem_of_app.
      pose proof (rp_list _ _ _ CR) as Hd. apply dlist_nodup, NoDup_cons in Hd as [Hd _]. set_solver.
    + eapply slots_mono; [exact C5| |].
      * intros q u Hq [U1 U2]. split; [|by rewrite Ht]. rewrite (Ho q); [done|].
        pose proof (unlinked_not_in _ _ _ _ C1 (conj U1 U2)).
        pose proof (dlist_not_in _ _ _ _ _ (rp_list _ _ _ CR) U1). set_solver.
      * intros x. rewrite app_nil_r, Hp, !elem_of_app. tauto.
  - split; [destruct Sr as (_ & -> & _); done|]. intros x Hx. destruct (B2 x Hx) as [L1 L2]. rewrite Ht. split; [|done].
    rewrite (Ho x); [done|]. intros [->|[? ?]]%Hin; [lia|congruence].
Qed.
End realm.

Section fire.
Context {U : Type} (client : loc → U → ptr * U) (S0 : gmap loc state) (T0 : gmap loc transition) (K : nat).
Context (Hok : states_ok S0 T0 K).
Implicit Types s : mstate U.
Local Abbreviation tracked := (tracked (U:=U) S0 T0 K).
Local Abbreviation inv := (inv (U:=U) S0 T0 K).

(** The transition of a timeout. *)
Definition a_timeout (fuel : nat) (trans : transition) (a : aview U) : option (aview U) :=
  let '(r, a) := a_call client trans a in
  match r with Some n => a_update client S0 fuel n a | None => Some a end.

Lemma armed_for_used chk s tl os xs rs i d c x :
  tracked chk s tl os xs rs → os !! i = Some (Some d) → si_current (ms_inst s) = Some c → S0 !! c = Some x →
  Z.of_nat i < si_used_timer (ms_inst s) ∧ ∃ trans, timeouts_of T0 x !! i = Some trans ∧ tn_timeout trans = d.
Proof.
  intros (C & D & [k ->] & Hu) Hi Hc Hx. rewrite Hc in *. rewrite Hu by eauto. unfold delays in *. simpl in *. rewrite Hx in *.
  apply lookup_app_Some in Hi as [Hi|[_ Hi]]; [|by apply lookup_replicate_1 in Hi as [Hi _]].
  rewrite !list_lookup_fmap in Hi. destruct (timeouts_of T0 x !! i) as [tr|] eqn:Et; [|done]. simpl in Hi. injection Hi as <-.
  split; [|by exists tr]. apply lookup_lt_Some in Et. unfold zlen. rewrite length_fmap. lia.
Qed.

Lemma runs_timeout chk s tl os xs rs i t d c x trans fuel count a' Q :
  tracked chk s tl os xs rs → data_ok s tl → tl !! i = Some t → os !! i = Some (Some d) →
  si_in_transition (ms_inst s) = false → si_in_failure (ms_inst s) = false →
  si_current (ms_inst s) = Some c → S0 !! c = Some x → timeouts_of T0 x !! i = Some trans →
  a_timeout fuel trans (view s) = Some a' →
  (∀ s', inv chk s' → view s' = a' → same_flags s s' → evolved s s' → Q tt s') →
  runs (transition_timeout client fuel t count) s Q.
Proof using Hok.
  intros T Hd Ht Ho Hit Hif Hc Hx Htr Ha HQ. destruct (armed_for_used _ _ _ _ _ _ _ _ _ _ T Ho Hc Hx) as [Hlt _].
  pose proof T as (C & _). unfold transition_timeout. step. rewrite (Hd _ _ Ht). step.
  cbv beta iota. step. step; [by apply bool_decide_true|]. step; [by apply bool_decide_true|]. rewrite Hit, Hc. step.
  apply runs_bind. eapply (runs_get_timeout S0 T0 K); [apply C|apply C|exact Hx|by apply (Hok c)|exact Htr|].
  unfold a_timeout in Ha. destruct (a_call client trans (view s)) as [r a1] eqn:Eca.
  pose proof (so_trans _ _ _ (Hok c x Hx)) as Htrs. rewrite Forall_lookup in Htrs. destruct (Htrs i trans Htr) as (_ & [cb Hcb] & _).
  apply runs_bind.
  pose proof (runs_call client s trans r a1 (λ r s', runs (match r with
    Some n => state_machine_instance_update client fuel n | None => skip end) s' Q) Eca) as Hcall.
  unfold have_transition in Hcall. rewrite Hcb in Hcall. apply Hcall. intros s1 -> V1.
  assert (inv chk (set_client (av_calls a1) (av_user a1) s)) as I1.
  { exists tl, os, xs, rs. destruct T as (_ & T). split; [by apply core_client|exact T]. }
  destruct r as [n|].
  - eapply runs_update; [exact Hok|exact I1|exact Hif|by rewrite V1|]. exact HQ.
  - injection Ha as <-. unfold skip. step. by apply HQ.
Qed.

Lemma tracked_realm chk s tl os xs rs chk' r' xs' rs' :
  tracked chk s tl os xs rs → clock chk' r' xs' rs' tl os → below r' (ms_fresh s) → ns (now r') < 2 ^ 60 →
  tracked chk' (set_realm r' s) tl os xs' rs'.
Proof. intros ([C1 C2 C3 C4 C5 C6 C7 C9 C10 C11] & D & A & Hu) Hc Hb Hn. split; [by split|]. done. Qed.

(** The timer that expires is one of the state, with a delay in range. *)
Lemma due_slot chk s tl os xs rs i t tm c x :
  tracked chk s tl os xs rs → tl !! i = Some t → (t, tm) ∈ xs → si_current (ms_inst s) = Some c → S0 !! c = Some x →
  os !! i = Some (Some (tm_delay tm)) ∧ time_ok (tm_delay tm) ∧ 0 < ns (tm_delay tm) < 2 ^ 60.
Proof using Hok.
  intros T Hi Hx Hc Hs. pose proof T as (C & _). pose proof (co_clock _ _ _ _ _ _ _ _ _ C) as [K1 K2 KR KF K3 K4 KH K5].
  destruct (Forall2_lookup_l _ _ _ _ _ K5 Hi) as ([d|] & Ho & Hsl); simpl in Hsl.
  - assert (d = tm_delay tm) as ->.
    { destruct Hsl as (u & [Hu|Hu]%elem_of_app & _ & _ & <-).
      - pose proof (ar_timers _ _ K1 _ _ Hu). pose proof (ar_timers _ _ K1 _ _ Hx). congruence.
      - destruct chk; [|simpl in KR; subst; by inversion Hu].
        pose proof (rp_timers _ _ _ KR _ _ Hu). pose proof (ar_timers _ _ K1 _ _ Hx). congruence. }
    split; [done|]. destruct (armed_for_used _ _ _ _ _ _ _ _ _ _ T Ho Hc Hs) as (_ & tr & Htr & <-).
    pose proof (so_trans _ _ _ (Hok c x Hs)) as H. rewrite Forall_lookup in H. apply (H _ _ Htr).
  - destruct Hsl as (u & Hu & _). exfalso. eapply (unlinked_not_in _ _ _ _ K1 Hu). right. apply list_elem_of_fmap. by exists (t, tm).
Qed.

(** The rest of the loop: no other timer is due. *)
Lemma runs_check_rest cl s fuel n cur upd Q :
  n = tr_sorted (ms_realm s) ∨ later (ms_realm s) n → cur = now (ms_realm s) → time_ok cur → (1 ≤ fuel)%nat → Q upd s →
  runs (check_loop ms_realm set_realm cl fuel (tr_sorted (ms_realm s)) n cur upd) s Q.
Proof.
  intros Hn -> Hc Hf HQ. destruct fuel as [|fuel]; [lia|]. cbn [check_loop]. case_test as He; [by step|].
  destruct Hn as [?|(t & Ht & Hok' & Hlt)]; [done|]. unfold trigger_of in Ht.
  destruct (tr_timers (ms_realm s) !! n) as [tm|] eqn:Et; [|done]. injection Ht as <-.
  apply runs_bind. unfold realm. step. eapply runs_rd_timer; [exact Et|]. rewrite time_cmp_ns by done.
  rewrite bool_decide_false by lia. step. by rewrite set_realm_id.
Qed.

Lemma runs_realm_gets {A} (f : time_realm_state → A) s Q :
  Q (f (ms_realm s)) s → runs (realm ms_realm set_realm (gets f)) s Q.
Proof. intros HQ. unfold realm. step. step. by rewrite set_realm_id. Qed.

Lemma runs_realm_read {A} (m : TM A) s Q :
  runs m (ms_realm s) (λ a r, r = ms_realm s ∧ Q a s) → runs (realm ms_realm set_realm m) s Q.
Proof. intros H. unfold realm. step. eapply runs_mono; [exact H|]. intros a r [-> HQ]. by rewrite set_realm_id. Qed.

(** The time and the mode of the realm. *)
Definition same_clock s s' : Prop :=
  now (ms_realm s') = now (ms_realm s) ∧ tr_mode (ms_realm s') = tr_mode (ms_realm s).

(** One timer is due, the timer [i] of the current state. *)
Record due s (tl : list loc) (t : loc) (tm : timer) (rest : list tseg) (i : nat) (trans : transition) : Prop := {
  du_timer : tl !! i = Some t;
  du_trans : ∃ c x, si_current (ms_inst s) = Some c ∧ S0 !! c = Some x ∧ timeouts_of T0 x !! i = Some trans;
  du_flags : si_in_transition (ms_inst s) = false ∧ si_in_failure (ms_inst s) = false;
  du_due : trig (t, tm) ≤ ns (now (ms_realm s));
  du_rest : Forall (λ y, ns (now (ms_realm s)) < trig y) rest;
  du_count : count_of (ns (now (ms_realm s))) tm < 2 ^ 31;
}.

(** The iteration of the loop for the timer that is due. *)
Lemma runs_check_one s tl os t tm rest i trans fuel cfuel a' Q :
  tracked true s tl os ((t, tm) :: rest) [] → data_ok s tl → due s tl t tm rest i trans → a_timeout fuel trans (view s) = Some a' →
  (2 ≤ cfuel)%nat →
  (∀ s', inv true s' → view s' = a' → same_flags s s' → evolved s s' → Q true s') →
  runs (check_loop ms_realm set_realm (transition_timeout client fuel) cfuel (tr_sorted (ms_realm s)) t
    (now (ms_realm s)) false) s Q.
Proof using Hok.
  intros T Hdat [Hi (c & x & Hc & Hx & Htr) [Hit Hif] Hd Hr Hcn] Ha Hcf HQ. pose proof T as (C & _).
  pose proof (co_clock _ _ _ _ _ _ _ _ _ C) as K1. pose proof (co_below _ _ _ _ _ _ _ _ _ C) as B1.
  pose proof (co_time _ _ _ _ _ _ _ _ _ C) as N1. pose proof (ck_now _ _ _ _ _ _ K1) as N2.
  pose proof (ck_armed _ _ _ _ _ _ K1) as A1. destruct (armed_at _ [] t tm rest A1) as [Hp Hpt].
  destruct (due_slot _ _ _ _ _ _ _ _ _ _ _ T Hi ltac:(by left) Hc Hx) as (Ho & Hd1 & Hd2).
  destruct cfuel as [|cfuel]; [lia|]. cbn [check_loop].
  rewrite bool_decide_false by exact (at_cons_ne _ _ [] t rest.*1 (ar_list _ _ A1)).
  apply runs_bind, runs_realm_read. eapply runs_rd_timer; [exact Hp|]. split; [done|]. rewrite time_cmp_ns by done.
  unfold trig in Hd. simpl in Hd. rewrite bool_decide_true by lia. apply runs_bind. unfold realm at 1. step.
  eapply runs_mono; [eapply clock_expire; [exact K1|exact B1|exact Hi|exact Ho|done|exact Hd|]|].
  { intros _. split_and!; [done|lia|simpl in *; lia|done]. }
  intros n r2 [-> Hexp]. step. apply runs_bind. unfold realm at 1. step.
  change (ms_realm (set_realm r2 s)) with r2. eapply runs_mono; [exact Hexp|]. intros count r3 (tm' & K3 & V3 & B3).
  change (set_realm r3 (set_realm r2 s)) with (set_realm r3 s).
  assert (now r3 = now (ms_realm s)) as N3 by apply (ev_realm _ _ V3).
  assert (tracked true (set_realm r3 s) tl os rest [(t, tm')]) as T3 by (eapply tracked_realm; [exact T|done|done|by rewrite N3]).
  apply runs_bind. eapply runs_timeout; [exact T3|exact Hdat|exact Hi|exact Ho|done|done|exact Hc|exact Hx|exact Htr|exact Ha|].
  intros s4 I4 V4 F4 E4.
  assert (evolves (ms_realm s) (ms_realm s4)) as V by (etrans; [exact V3|exact E4]).
  pose proof (ev_realm _ _ V) as (S1 & _ & _ & S4 & _). rewrite <- S1, <- S4.
  apply runs_check_rest; [|done|by rewrite S4|lia|by apply HQ].
  destruct rest as [|[q u] rest]; simpl; [by left|right]. apply (ev_later _ _ V).
  exists (tm_trigger_time u). inversion_clear Hr. pose proof (armed_at _ [(t, tm)] q u rest A1) as [Hq Hqt].
  unfold trigger_of. by rewrite Hq.
Qed.

Lemma runs_check_timers s tl os t tm rest i trans fuel a' Q :
  tracked false s tl os ((t, tm) :: rest) [] → data_ok s tl → due s tl t tm rest i trans →
  tr_mode (ms_realm s) = TIME_REALM_STATIC → a_timeout fuel trans (view s) = Some a' →
  (∀ s', inv false s' → view s' = a' → same_flags s s' → same_clock s s' → Q true s') →
  runs (check_timers ms_realm set_realm (transition_timeout client fuel)) s Q.
Proof using Hok.
  intros T Hdat Hdue Hm Ha HQ. pose proof T as (C & _). pose proof (co_clock _ _ _ _ _ _ _ _ _ C) as K0.
  pose proof (co_below _ _ _ _ _ _ _ _ _ C) as B0. pose proof (co_time _ _ _ _ _ _ _ _ _ C) as N0.
  pose proof (ck_armed _ _ _ _ _ _ K0) as A0. unfold check_timers. apply runs_bind, runs_realm_read.
  eapply runs_current_time. split; [unfold at_now, now; rewrite Hm; by destruct (ms_realm s)|].
  call runs_realm_gets. apply runs_bind, runs_realm_read, runs_tlnk_read.
  eapply (runs_list2_next _ (tr_sorted (ms_realm s))); [by eapply dlist_begin, (ar_list _ _ A0)|]. split; [done|]. split; [done|].
  step. apply runs_bind. unfold realm at 1. step. step. set (r1 := with_check false (ms_realm s)).
  assert (clock false r1 ((t, tm) :: rest) [] tl os) as K1 by (destruct K0 as [[] ? ? ? ? ? ? ?]; by split).
  rewrite fmap_cons. simpl at_head. unfold list2_end.
  rewrite bool_decide_false by exact (at_cons_ne _ _ [] t rest.*1 (ar_list _ _ A0)). call runs_realm_gets.
  apply runs_bind. unfold realm at 1. step. change (ms_realm (set_realm r1 s)) with r1.
  eapply clock_begin; [exact K1|exact B0|]. intros r2 K2 S2 T2 B2. change (set_realm r2 (set_realm r1 s)) with (set_realm r2 s).
  unfold timer_fuel. call runs_realm_gets. change (ms_realm (set_realm r2 s)) with r2.
  assert (now r2 = now (ms_realm s)) as N2 by apply S2. assert (tr_sorted r2 = tr_sorted (ms_realm s)) as E2 by apply S2.
  assert (2 ≤ S (size (tr_timers r2)))%nat as Hfu by (pose proof (armed_fuel _ _ (ck_armed _ _ _ _ _ _ K2)); simpl in *; lia).
  assert (tracked true (set_realm r2 s) tl os ((t, tm) :: rest) []) as T3 by (eapply tracked_realm; [exact T|done|done|by rewrite N2]).
  rewrite <- N2, <- E2. apply runs_bind. eapply (runs_check_one (set_realm r2 s)); [exact T3|exact Hdat| |exact Ha|exact Hfu|].
  { destruct Hdue. split; simpl; rewrite ?N2; done. }
  intros s4 (tl4 & os4 & xs4 & rs4 & T4) V4 F4 E4. pose proof T4 as (C4 & _).
  pose proof (ev_realm _ _ E4) as (_ & R4 & M4 & N4 & _). unfold realm. step.
  replace (tr_repeat r1) with (tr_repeat (ms_realm s4)) by (rewrite R4; apply S2).
  eapply clock_end; [apply C4|apply C4|lia|]. intros r5 xs5 K5 S5 B5.
  assert (now r5 = now (ms_realm s)) as N5 by (destruct S5 as (_ & _ & _ & -> & _); rewrite N4; exact N2).
  assert (tr_mode r5 = tr_mode (ms_realm s)) as M5.
  { destruct S5 as (_ & _ & -> & _). rewrite M4. apply S2. }
  apply HQ; [|exact V4|exact F4|by split].
  exists tl4, os4, xs5, []. eapply tracked_realm; [exact T4|exact K5|exact B5|by rewrite N5].
Qed.

(** No timer is due. *)
Lemma runs_check_quiet s tl os xs fuel Q :
  tracked false s tl os xs [] → tr_mode (ms_realm s) = TIME_REALM_STATIC →
  Forall (λ y, ns (now (ms_realm s)) < trig y) xs →
  (∀ s', inv false s' → view s' = view s → same_flags s s' → same_clock s s' → Q true s') →
  runs (check_timers ms_realm set_realm (transition_timeout client fuel)) s Q.
Proof.
  intros T Hm Hl HQ. pose proof T as (C & _). pose proof (co_clock _ _ _ _ _ _ _ _ _ C) as K0.
  pose proof (co_below _ _ _ _ _ _ _ _ _ C) as B0. pose proof (co_time _ _ _ _ _ _ _ _ _ C) as N0.
  pose proof (ck_armed _ _ _ _ _ _ K0) as A0. unfold check_timers. apply runs_bind, runs_realm_read.
  eapply runs_current_time. split; [unfold at_now, now; rewrite Hm; by destruct (ms_realm s)|].
  call runs_realm_gets. apply runs_bind, runs_realm_read, runs_tlnk_read.
  eapply (runs_list2_next _ (tr_sorted (ms_realm s))); [by eapply dlist_begin, (ar_list _ _ A0)|]. split; [done|]. split; [done|].
  step. apply runs_bind. unfold realm at 1. step. step. set (r1 := with_check false (ms_realm s)).
  assert (clock false r1 xs [] tl os) as K1 by (destruct K0 as [[] ? ? ? ? ? ? ?]; by split).
  destruct xs as [|[q u] xs].
  { rewrite bool_decide_true by done. step. apply HQ; [|done|by split|by split]. exists tl, os, [], [].
    eapply tracked_realm; [exact T|exact K1|exact B0|exact N0]. }
  rewrite fmap_cons. simpl at_head. unfold list2_end.
  rewrite bool_decide_false by exact (at_cons_ne _ _ [] q xs.*1 (ar_list _ _ A0)). call runs_realm_gets.
  apply runs_bind. unfold realm at 1. step. change (ms_realm (set_realm r1 s)) with r1.
  eapply clock_begin; [exact K1|exact B0|]. intros r2 K2 S2 T2 B2. change (set_realm r2 (set_realm r1 s)) with (set_realm r2 s).
  unfold timer_fuel. call runs_realm_gets. change (ms_realm (set_realm r2 s)) with r2.
  assert (now r2 = now (ms_realm s)) as N2 by apply S2. assert (tr_sorted r2 = tr_sorted (ms_realm s)) as E2 by apply S2.
  rewrite <- N2, <- E2. apply runs_bind. apply (runs_check_rest _ (set_realm r2 s)).
  { right. inversion_clear Hl. destruct (armed_at _ [] q u xs (ck_armed _ _ _ _ _ _ K2)) as [Hq Hqt].
    exists (tm_trigger_time u). unfold trigger_of. simpl. rewrite Hq, N2. done. }
  { done. } { rewrite N2. apply (ck_now _ _ _ _ _ _ K0). } { lia. }
  unfold realm. step. replace (tr_repeat r1) with (tr_repeat r2) by apply S2. change (ms_realm (set_realm r2 s)) with r2.
  eapply clock_end; [exact K2|exact B2|lia|]. intros r5 xs5 K5 S5 B5.
  assert (now r5 = now (ms_realm s)) as N5 by (destruct S5 as (_ & _ & _ & -> & _); exact N2).
  assert (tr_mode r5 = tr_mode (ms_realm s)) as M5 by (destruct S5 as (_ & _ & -> & _); apply S2).
  change (set_realm r5 (set_realm r2 s)) with (set_realm r5 s).
  apply HQ; [|done|by split|by split]. exists tl, os, xs5, []. eapply tracked_realm; [exact T|exact K5|exact B5|by rewrite N5].
Qed.

(** The time of the realm is set, then the timers are checked. *)
Lemma runs_set_time s tl os xs fuel value (Q : unit → mstate U → Prop) :
  tr_mode (ms_realm s) = TIME_REALM_STATIC → tracked false s tl os xs [] →
  time_ok value → ns (now (ms_realm s)) ≤ ns value < 2 ^ 60 →
  (let s1 := set_realm (with_check true (with_time value (ms_realm s))) s in
   tracked false s1 tl os xs [] → now (ms_realm s1) = value →
   runs (check_timers ms_realm set_realm (transition_timeout client fuel)) s1 (λ _ s', Q tt s')) →
  runs (network_time_update client fuel value) s Q.
Proof.
  intros Hm T Hv Hr HQ. pose proof T as (C & _). pose proof (co_clock _ _ _ _ _ _ _ _ _ C) as K0.
  assert (tr_time (ms_realm s) = now (ms_realm s)) as En by (unfold now; by rewrite Hm).
  unfold network_time_update, update_and_check_timers. call runs_realm_gets. step; [by rewrite Hm|].
  call runs_realm_gets. rewrite En, time_cmp_ns by (done || apply (ck_now _ _ _ _ _ _ K0)).
  rewrite bool_decide_false by lia. unfold realm at 1 2. step. step. step. step. apply runs_bind.
  destruct (clock_set_time _ _ _ _ value true K0 Hm Hv) as [K1 N1].
  set (r1 := with_check true (with_time value (ms_realm s))) in *.
  change (set_realm _ (set_realm _ _)) with (set_realm r1 s).
  eapply runs_mono; [apply HQ; [|exact N1]; eapply tracked_realm; [exact T|exact K1|apply C|rewrite N1; lia]|].
  intros b s' H. unfold skip. step. exact H.
Qed.
End fire.

(** The network time moves on. *)
Lemma runs_network_time {U} (client : loc → U → ptr * U) S0 T0 K (s : mstate U) tl os t tm rest i trans fuel value a' :
  states_ok S0 T0 K → data_ok s tl → tr_mode (ms_realm s) = TIME_REALM_STATIC →
  tracked S0 T0 K false s tl os ((t, tm) :: rest) [] →
  time_ok value → ns (now (ms_realm s)) ≤ ns value < 2 ^ 60 →
  due S0 T0 (set_realm (with_time value (ms_realm s)) s) tl t tm rest i trans →
  a_timeout client S0 fuel trans (view s) = Some a' →
  runs (network_time_update client fuel value) s (λ _ s', inv S0 T0 K false s' ∧ view s' = a' ∧ same_flags s s' ∧
    now (ms_realm s') = value ∧ tr_mode (ms_realm s') = TIME_REALM_STATIC).
Proof.
  intros Hok Hdat Hm T Hv Hr Hd Ha. eapply runs_set_time; [exact Hm|exact T|exact Hv|exact Hr|]. intros s1 T1 N1.
  eapply (runs_check_timers client S0 T0 K Hok s1); [exact T1|exact Hdat|destruct Hd; by split|exact Hm|exact Ha|].
  intros s' I' V' F' [N' M']. split_and!; [done|done|exact F'|by rewrite N'|by rewrite M'].
Qed.

Lemma runs_network_quiet {U} (client : loc → U → ptr * U) S0 T0 K (s : mstate U) tl os xs fuel value :
  tr_mode (ms_realm s) = TIME_REALM_STATIC → tracked S0 T0 K false s tl os xs [] →
  time_ok value → ns (now (ms_realm s)) ≤ ns value < 2 ^ 60 → Forall (λ y, ns value < trig y) xs →
  runs (network_time_update client fuel value) s (λ _ s', inv S0 T0 K false s' ∧ view s' = view s ∧ same_flags s s' ∧
    now (ms_realm s') = value ∧ tr_mode (ms_realm s') = TIME_REALM_STATIC).
Proof.
  intros Hm T Hv Hr Hl. eapply runs_set_time; [exact Hm|exact T|exact Hv|exact Hr|]. intros s1 T1 N1.
  eapply (runs_check_quiet client S0 T0 K s1); [exact T1|exact Hm|by rewrite N1|].
  intros s' I' V' F' [N' M']. split_and!; [done|done|exact F'|by rewrite N'|by rewrite M'].
Qed.

