(* ===== verification/StateMachineReach.v ===== *)
(** * Runs of a state machine instance

    The states an instance can reach by updates, failures, ends and the progress of
    the network time; examples; where the code departs from what it means to do. *)

From stdpp Require Import sorting.
From S2P Require Import Prelude List2 Time Timer TimerSpec Vector StateMachine StateMachineRep StateMachineSim StateMachineSpec StateMachineFire.

(** ** Reachable states *)

Section ended.
Context {U : Type} (client : loc → U → ptr * U) (S0 : gmap loc state).
Implicit Types a : aview U.

(** An instance that has finished has no current state. *)
Definition ended a : Prop := av_finished a = true → av_current a = None.

Lemma a_finish_ended a a' : ended a → a_finish client S0 a = Some a' → ended a'.
Proof.
  unfold a_finish. intros He. destruct (av_finished a) eqn:Ef; [by intros [= <-]|]. destruct (av_current a) as [c|] eqn:Ec.
  - destruct (a_leave client S0 a) as [[r a1]|] eqn:El; [|done]. destruct (S0 !! c); [|done]. intros [= <-] _. simpl.
    rewrite a_call_current. unfold a_leave in El. rewrite Ec in El. destruct (S0 !! c); [|done].
    destruct (a_call client _ a). by injection El as _ <-.
  - intros [= <-] _. done.
Qed.

Lemma a_fail_ended a a' : ended a → a_fail client S0 a = Some a' → ended a'.
Proof.
  unfold a_fail. intros He. destruct (av_finished a) eqn:Ef; [by intros [= <-]|]. simpl. destruct (av_current a) as [c|] eqn:Ec.
  - destruct (S0 !! c); [|done]. apply a_finish_ended. unfold ended.
    destruct (a_call client (sa_fail s) _) as [r1 a1] eqn:E. simpl. rewrite (view_finished_call client _ _ _ _ E). done.
  - by apply a_finish_ended.
Qed.

Lemma a_update_with_ended ent n a a' :
  (∀ a', av_finished a = false → ent n a = Some a' → ended a') → ended a →
  a_update_with client S0 ent n a = Some a' → ended a'.
Proof.
  intros Hent He. unfold a_update_with. destruct (av_finished a) eqn:Ef; [by intros [= <-]|].
  case_bool_decide; [by apply a_fail_ended|]. case_bool_decide; [by apply a_finish_ended|]. by apply Hent.
Qed.

Lemma a_enter_ended fuel : ∀ st a a', av_finished a = false → a_enter client S0 fuel st a = Some a' → ended a'.
Proof.
  induction fuel as [|fuel IH]; intros st a a' Hf; [done|]. cbn [a_enter].
  destruct (a_leave client S0 a) as [[n a1]|] eqn:El; [|done]. pose proof (view_finished_leave _ _ _ _ _ El) as Hf1.
  destruct n as [n|]; [apply a_update_with_ended; [intros ? ?; by apply IH|unfold ended; congruence]|].
  destruct (S0 !! st) as [x|]; [|done]. destruct (a_call client (sa_enter x) _) as [n a2] eqn:Eca.
  pose proof (view_finished_call client _ _ _ _ Eca) as Hf2. simpl in Hf2.
  destruct n as [n|]; [apply a_update_with_ended; [intros ? ?; by apply IH|unfold ended; congruence]|].
  intros [= <-]. unfold ended. congruence.
Qed.

Lemma a_update_ended fuel n a a' : ended a → a_update client S0 fuel n a = Some a' → ended a'.
Proof. intros He. apply a_update_with_ended; [|done]. intros a1 Hf. by apply a_enter_ended. Qed.
End ended.

Section reach.
Context {U : Type} (client : loc → U → ptr * U) (S0 : gmap loc state) (T0 : gmap loc transition) (K : nat).
Context (rank : loc → nat) (R : nat).

(** The machine: its timeouts are well-formed, its answers are states, its enter and
    leave transitions go down. *)
Record machine_ok : Prop := {
  mo_states : states_ok S0 T0 K;
  mo_uniform : uniform S0 T0 K;
  mo_ranked : ranked client S0 rank;
  mo_bound : ∀ st, is_Some (S0 !! st) → (rank st ≤ R)%nat;
  mo_timeouts : map_Forall (λ _ x, Forall (λ tr, ∀ cb u n u', tn_callback tr = Some cb → client cb u = (Some n, u') →
    special n ∨ is_Some (S0 !! n)) (timeouts_of T0 x)) S0;
}.

Definition fuel : nat := 2 * R + 2.

(** What happens to an instance. *)
Inductive event : Type :=
  | EvUpdate (n : loc)
  | EvFinish
  | EvFail
  | EvTick (value : time).

Definition perform (e : event) : M (mstate U) unit :=
  match e with
  | EvUpdate n => state_machine_instance_update client fuel n
  | EvFinish => state_machine_instance_finish client
  | EvFail => state_machine_instance_fail client
  | EvTick value => network_time_update client fuel value
  end.

(** The events considered: an update asks for a state of the machine or for one of the two
    special ones; the network time goes back, moves on with no timer due, or moves on with
    one timer due, which is a timer of the instance. *)
Inductive legal (s : mstate U) : event → Prop :=
  | legal_update n : special n ∨ is_Some (S0 !! n) → legal s (EvUpdate n)
  | legal_finish : legal s EvFinish
  | legal_fail : legal s EvFail
  | legal_back value : time_ok value → ns value < ns (now (ms_realm s)) → legal s (EvTick value)
  | legal_quiet value tl os xs :
      tracked S0 T0 K false s tl os xs [] → time_ok value → ns (now (ms_realm s)) ≤ ns value < 2 ^ 60 →
      Forall (λ y, ns value < trig y) xs → legal s (EvTick value)
  | legal_due value tl os t tm rest i trans :
      tracked S0 T0 K false s tl os ((t, tm) :: rest) [] → time_ok value → ns (now (ms_realm s)) ≤ ns value < 2 ^ 60 →
      due S0 T0 (set_realm (with_time value (ms_realm s)) s) tl t tm rest i trans → legal s (EvTick value).

Definition mstep (s s' : mstate U) : Prop := ∃ e, legal s e ∧ perform e s = Some (tt, s').

Record good (s : mstate U) : Prop := {
  go_inv : inv S0 T0 K false s;
  go_valid : valid S0 (view s);
  go_ended : ended (view s);
  go_transition : si_in_transition (ms_inst s) = false;
  go_failure : si_in_failure (ms_inst s) = false;
  go_static : tr_mode (ms_realm s) = TIME_REALM_STATIC;
}.

Lemma good_after s s' a' :
  good s → inv S0 T0 K false s' → view s' = a' → same_flags s s' → tr_mode (ms_realm s') = tr_mode (ms_realm s) →
  valid S0 a' → ended a' → good s'.
Proof. intros [G1 G2 G3 G4 G5 G6] I <- [F1 F2] Hm Hv He. split; congruence || done. Qed.

Lemma good_error s e : good s → good (set_merror e s).
Proof. intros [G1 G2 G3 G4 G5 G6]. split; try done. by apply inv_error. Qed.

Lemma good_sim (m : M (mstate U) unit) f s :
  simulates S0 T0 K m f → (∃ a', f (view s) = Some a' ∧ valid S0 a') → (∀ a', f (view s) = Some a' → ended a') →
  (si_finished (ms_inst s) = true → runs m s (λ _ s', ∃ e, s' = set_merror e s)) → good s → runs m s (λ _ s', good s').
Proof.
  intros Hs (a' & Ha & Hv) He Hfin G. destruct (si_finished (ms_inst s)) eqn:Ef.
  - eapply runs_mono; [by apply Hfin|]. intros [] s' [e ->]. by apply good_error.
  - pose proof G as [G1 G2 G3 G4 G5 G6].
    eapply runs_mono; [eapply Hs; [by apply inv_loose|exact Ef|exact G5|exact Ha]|]. intros [] s1 (I & V & F & E).
    eapply good_after; [exact G|exact I|exact V|exact F|apply (ev_realm _ _ E)|exact Hv|by apply He].
Qed.

Lemma uniform_data (s : mstate U) tl os xs : machine_ok → tracked S0 T0 K false s tl os xs [] → data_ok s tl.
Proof. intros M (_ & [_ D] & _). apply D, M. Qed.

Lemma due_good s value tl os t tm rest i trans :
  machine_ok → good s → tracked S0 T0 K false s tl os ((t, tm) :: rest) [] →
  time_ok value → ns (now (ms_realm s)) ≤ ns value < 2 ^ 60 →
  due S0 T0 (set_realm (with_time value (ms_realm s)) s) tl t tm rest i trans →
  runs (network_time_update client fuel value) s (λ _ s', good s').
Proof.
  intros M G T Hv Hr Hd. pose proof M as [M1 M2 M3 M4 M5]. pose proof G as [G1 G2 G3 G4 G5 G6].
  pose proof Hd as [_ (c & x & Hc & Hx & Htr) _ _ _ _].
  destruct (a_call client trans (view s)) as [r a1] eqn:Eca.
  destruct (a_call_answer client S0 rank trans (view s) r a1 Eca) as [Ec1 _].
  assert (valid S0 a1) as Hv1 by (intros d; rewrite Ec1; apply G2).
  assert (ended a1) as He1.
  { unfold ended. rewrite Ec1, (view_finished_call client _ _ _ _ Eca). exact G3. }
  assert (∀ n, r = Some n → special n ∨ is_Some (S0 !! n)) as Hn.
  { intros n ->. pose proof (M5 _ _ Hx) as Ht. rewrite Forall_lookup in Ht. specialize (Ht _ _ Htr).
    unfold a_call in Eca. destruct (tn_callback trans) as [cb|]; [|done]. destruct (client cb _) as [r2 u2] eqn:Ecl.
    simplify_eq. by eapply Ht. }
  assert (∃ a', a_timeout client S0 fuel trans (view s) = Some a' ∧ valid S0 a' ∧ ended a') as (a' & Ha & Hva & Hea).
  { unfold a_timeout. rewrite Eca. destruct r as [n|]; [|by exists a1].
    destruct (a_update_total client S0 rank R n a1) as (a' & Ha & Hva); [done|done|done|by apply Hn|].
    exists a'. split_and!; [done|done|by eapply a_update_ended]. }
  pose proof (uniform_data _ _ _ _ M T) as Hdat.
  eapply runs_mono; [by eapply (runs_network_time client S0 T0 K)|]. intros [] s1 (I & V & F & _ & Hm).
  eapply good_after; [exact G|exact I|exact V|exact F|congruence|done|done].
Qed.

(** Every event that is considered is served and keeps the invariant. *)
Lemma legal_good s e : machine_ok → good s → legal s e → runs (perform e) s (λ _ s', good s').
Proof.
  intros M G He. pose proof M as [M1 M2 M3 M4 M5]. pose proof G as [G1 G2 G3 G4 G5 G6].
  destruct He as [n Hn| | |value Hv Hlt|value tl os xs T Hv Hr Hl|value tl os t tm rest i trans T Hv Hr Hd]; simpl.
  - destruct (a_update_total client S0 rank R n (view s)) as (a' & Ha & Hv); [done..|].
    eapply runs_update; [done|done|done|exact Ha|]. intros s1 I V F E.
    eapply good_after; [exact G|exact I|exact V|exact F|apply (ev_realm _ _ E)|exact Hv|by eapply a_update_ended].
  - eapply good_sim; [apply sim_finish| | | |exact G]; [by eapply a_finish_total| |].
    + intros a'. by apply a_finish_ended.
    + intros Ef. unfold state_machine_instance_finish. step. rewrite Ef. unfold merror. step. eauto.
  - eapply good_sim; [apply sim_fail| | | |exact G]; [by eapply a_fail_total| |].
    + intros a'. by apply a_fail_ended.
    + intros Ef. unfold state_machine_instance_fail. step. rewrite G5, Ef. unfold merror. step. eauto.
  - destruct G1 as (tl & os & xs & rs & C & _). pose proof (ck_now _ _ _ _ _ _ (co_clock _ _ _ _ _ _ _ _ _ C)) as Hn.
    assert (tr_time (ms_realm s) = now (ms_realm s)) as En by (unfold now; by rewrite G6).
    unfold network_time_update, update_and_check_timers. call runs_realm_gets. step; [by rewrite G6|].
    call runs_realm_gets. rewrite En, time_cmp_ns by done. rewrite bool_decide_true by lia. unfold skip. by step.
  - eapply runs_mono; [by eapply runs_network_quiet|]. intros [] s1 (I & V & F & _ & Hm).
    eapply good_after; [exact G|exact I|exact V|exact F|congruence|done|done].
  - by eapply due_good.
Qed.

Lemma mstep_good s s' : machine_ok → mstep s s' → good s → good s'.
Proof. intros M (e & He & Hp) G. exact (runs_det _ _ _ _ _ (legal_good s e M G He) Hp). Qed.

(** A new instance. *)
Record fresh_instance (s : mstate U) (st : loc) : Prop := {
  fi_loose : loose S0 T0 K false s;
  fi_current : si_current (ms_inst s) = None;
  fi_flags : si_finished (ms_inst s) = false ∧ si_in_transition (ms_inst s) = false ∧ si_in_failure (ms_inst s) = false;
  fi_initial : sm_initial (ms_machine s) = Some st;
  fi_static : tr_mode (ms_realm s) = TIME_REALM_STATIC;
}.

Lemma runs_init s st a' c x : machine_ok → fresh_instance s st → a_enter client S0 fuel st (view s) = Some a' →
  av_current a' = Some c → S0 !! c = Some x →
  runs (state_machine_instance_init client fuel) s (λ _ s', good s' ∧
    view s' = (a_call client (sa_init x) (AView (Some c) false false (av_user a') (av_calls a'))).2).
Proof.
  intros [M1 M2 M3 M4 M5] [L Hc (Hf & Ht & Hif) Hini Hst] Ha Hca Hx. unfold state_machine_instance_init. step. rewrite Hc.
  step. step. rewrite Hini. apply runs_bind.
  eapply runs_mono; [eapply (sim_enter client S0 T0 K); [exact M1|exact L|exact Hf|exact Hif|exact Ha]|].
  intros [] s1 (I1 & V1 & [F1 F2] & E1). unfold upd_inst. step. step. step. step. set (s2 := set_inst _ _).
  assert (view s2 = AView (Some c) false false (av_user a') (av_calls a')) as V2.
  { rewrite <- V1 in *. unfold view in *. simpl in *. by rewrite Hca. }
  assert (inv S0 T0 K false s2) as I2 by (by repeat apply inv_flags).
  assert (si_current (ms_inst s2) = Some c) as Ec by (by injection V2). rewrite Ec. step. apply runs_bind.
  destruct (inv_loose _ _ _ _ _ I2) as (tl & os & xs & rs & C & _).
  eapply (runs_rd_state S0 T0 K); [exact C|exact Hx|]. eapply runs_notify; [done|]. intros s3 -> V3. split; [|by rewrite V3, V2].
  split.
  - destruct I2 as (tl' & os' & xs' & rs' & C' & T'). exists tl', os', xs', rs'. split; [by apply core_client|exact T'].
  - rewrite V3. intros d. rewrite a_call_current. rewrite V2. intros [= <-]. by eexists.
  - rewrite V3. unfold ended. destruct (a_call client (sa_init x) (view s2)) as [r3 a3] eqn:E3.
    simpl. by rewrite (view_finished_call client _ _ _ _ E3), V2.
  - simpl. by rewrite F1, Ht.
  - done.
  - simpl. rewrite <- Hst. apply (ev_realm _ _ E1).
Qed.
End reach.


(** The initialisation of a new instance: the initial state is entered, with the
    redirections of the enter transitions, the flags are reset, the init transition of the
    state that was reached is called, and the instance satisfies its invariant. *)
Theorem state_machine_init_correct {U} (client : loc → U → ptr * U) S0 T0 K rank R (s : mstate U) st a' c x :
  machine_ok client S0 T0 K rank R → fresh_instance S0 T0 K s st →
  a_enter client S0 (fuel R) st (view s) = Some a' → av_current a' = Some c → S0 !! c = Some x →
  runs (state_machine_instance_init client (fuel R)) s (λ _ s', good S0 T0 K s' ∧
    view s' = (a_call client (sa_init x) (AView (Some c) false false (av_user a') (av_calls a'))).2).
Proof. apply runs_init. Qed.

(** ** An example *)

(** The states 10, 11 and 12: 10 goes to 11 after a second, 11 stays there, with a timeout
    every two seconds, 12 redirects to 10. The data of the client counts the calls. *)
Definition ex_client (cb : loc) (u : Z) : ptr * Z :=
  (match cb with 50 => Some 11 | 57 => Some 10 | _ => None end%positive, u + 1).

Definition ex_callback (ty : transition_type) (cb : loc) : transition := Transition ty invalid_time (Some cb).
Definition ex_timeouts (l : loc) : vector := Vector 1 1 (Some [Z.pos l]) true 3 0 [] None.

Definition ex_10 : state := State (Some "open"%string) (ex_callback TRANSITION_FAIL 53) no_transition (ex_callback TRANSITION_LEAVE 52)
  (ex_callback TRANSITION_INIT 55) (ex_callback TRANSITION_FINISH 54) (ex_timeouts 20).
Definition ex_11 : state := State (Some "idle"%string) no_transition (ex_callback TRANSITION_ENTER 56) no_transition
  no_transition no_transition (ex_timeouts 21).
Definition ex_12 : state := State (Some "new"%string) no_transition (ex_callback TRANSITION_ENTER 57) no_transition
  no_transition no_transition (_vector_create 0 true 3 0).2.
Definition ex_states : gmap loc state := <[10%positive := ex_10]> (<[11%positive := ex_11]> (<[12%positive := ex_12]> ∅)).
Definition ex_trans : gmap loc transition :=
  <[20%positive := Transition TRANSITION_TIMEOUT (Time 1 0) (Some 50%positive)]>
    (<[21%positive := Transition TRANSITION_TIMEOUT (Time 2 0) (Some 51%positive)]> ∅).
Definition ex_rank (st : loc) : nat := if bool_decide (st = 12%positive) then 1 else 0.

Definition ex_network : time_realm_state :=
  TR 100 101 {[100%positive := Elem (Some 100%positive) (Some 100%positive)]} ∅ TIME_REALM_STATIC (Time 10 0) false
    invalid_time None [] None.
Definition ex_start : mstate Z :=
  MState (Machine "example" true [10%positive; 11%positive; 12%positive] (Some 12%positive)) ex_states ex_trans
    (Instance None (_vector_create 0 true 3 0).2 0 false false false false) ex_network ∅ 3 200 3 None [] 0.

Lemma ex_state_ok st ls : vec_rep (sa_timeouts st) (Z.pos <$> ls) → Forall2 (λ l t, ex_trans !! l = Some t) ls (timeouts_of ex_trans st) →
  (length ls ≤ 1)%nat → Forall timeout_ok (timeouts_of ex_trans st) → state_ok ex_trans 1 st.
Proof. intros H1 H2 H3 H4. split; [by exists ls|done|]. by rewrite <- (Forall2_length _ _ _ H2). Qed.

Lemma ex_machine_ok : machine_ok ex_client ex_states ex_trans 1 ex_rank 1.
Proof.
  split.
  - repeat apply map_Forall_insert_2; [| | |apply map_Forall_empty].
    + apply (ex_state_ok _ [20%positive]); [by split|by repeat constructor|done|].
      apply Forall_cons_2; [|apply Forall_nil_2]. split_and!; [done|by eexists|by vm_compute..].
    + apply (ex_state_ok _ [21%positive]); [by split|by repeat constructor|done|].
      apply Forall_cons_2; [|apply Forall_nil_2]. split_and!; [done|by eexists|by vm_compute..].
    + apply (ex_state_ok _ []); [by split|by repeat constructor|simpl; lia|]. apply Forall_nil_2.
  - repeat apply map_Forall_insert_2; [by right|by right|by left|apply map_Forall_empty].
  - repeat apply map_Forall_insert_2; [| | |apply map_Forall_empty]; (split; intros cb u n u' Hcb Hcl; vm_compute in Hcb; simplify_eq; unfold ex_client in Hcl; simplify_eq).
    right. split; [by eexists|]. vm_compute. lia.
  - intros st _. unfold ex_rank. case_bool_decide; lia.
  - repeat apply map_Forall_insert_2; [| |apply Forall_nil_2|apply map_Forall_empty];
      (apply Forall_cons_2; [|apply Forall_nil_2]); intros cb u n u' Hcb Hcl; vm_compute in Hcb; simplify_eq;
      unfold ex_client in Hcl; simplify_eq. right. by eexists.
Qed.

Lemma ex_fresh : fresh_instance ex_states ex_trans 1 ex_start 12.
Proof.
  split; [|done|done|done|done]. exists [], [], [], []. split.
  - split; try done; [| |simpl; lia].
    + split; try done; [|apply SSorted_nil|simpl; lia|apply NoDup_nil_2|simpl; set_solver].
      split; [|by intros ? ? Hi; inversion Hi|done]. split; [apply NoDup_singleton|by vm_compute].
    + split; [done|]. intros x Hx. simpl in Hx. split; [|done]. simpl. apply lookup_singleton_ne. lia.
  - split; [simpl; lia|]. intros _. split; [by left|]. intros i t Hi. done.
Qed.

(** After the initialisation. *)
Definition ex_timer : timer := Timer true true (Time 11 0) (Time 1 0).
Definition ex_armed_network : time_realm_state :=
  TR 100 101
    (<[100%positive := Elem (Some 200%positive) (Some 200%positive)]>
      {[200%positive := Elem (Some 100%positive) (Some 100%positive)]})
    {[200%positive := ex_timer]} TIME_REALM_STATIC (Time 10 0) false invalid_time None [] None.
Definition ex_ready : mstate Z :=
  MState (Machine "example" true [10%positive; 11%positive; 12%positive] (Some 12%positive)) ex_states ex_trans
    (Instance (Some 10%positive) (Vector 1 1 (Some [200]) true 2 0 [] None) 1 false false false false)
    ex_armed_network {[200%positive := (2%nat, 0)]} 2 201 3 None [57; 55]%positive 2.

Lemma ex_init_runs : state_machine_instance_init ex_client (fuel 1) ex_start = Some (tt, ex_ready).
Proof. vm_compute. reflexivity. Qed.

Lemma ex_ready_good : good ex_states ex_trans 1 ex_ready.
Proof.
  refine (proj1 (runs_det _ _ _ _ _ (runs_init ex_client ex_states ex_trans 1 ex_rank 1 ex_start 12 _ 10 ex_10
    ex_machine_ok ex_fresh _ _ _) ex_init_runs)); [vm_compute; reflexivity|reflexivity|reflexivity].
Qed.

Lemma ex_ready_tracked :
  tracked ex_states ex_trans 1 false ex_ready [200%positive] [Some (Time 1 0)] [(200%positive, ex_timer)] [].
Proof.
  split; [|split_and!].
  - split; try done.
    + split; try done.
      * split; [|by intros p t [= -> ->]%list_elem_of_singleton|by repeat constructor].
        split; [|by vm_compute]. repeat (apply NoDup_cons_2; [set_solver|]). apply NoDup_nil_2.
      * repeat constructor.
      * simpl. lia.
      * apply NoDup_singleton.
      * simpl. set_solver.
      * repeat constructor. exists ex_timer. split; [by left|done].
    + split; [done|]. intros x Hx. simpl in Hx. split; simpl.
      * rewrite lookup_insert_ne by lia. apply lookup_singleton_ne. lia.
      * apply lookup_singleton_ne. lia.
    + simpl. lia.
    + intros [|i] o Ho Hu; [simpl in Hu; lia|done].
  - split; [simpl; lia|]. intros _. split; [by right|]. intros [|i] t Hi; [by injection Hi as <-|done].
  - by exists 0%nat.
  - done.
Qed.

Lemma state_machine_init_correct_witness :
  runs (state_machine_instance_init ex_client (fuel 1)) ex_start (λ _ s', good ex_states ex_trans 1 s' ∧
    view s' = AView (Some 10%positive) false false 2 [57; 55]%positive).
Proof.
  eapply runs_mono; [apply (state_machine_init_correct ex_client ex_states ex_trans 1 ex_rank 1 ex_start 12
    (AView (Some 10%positive) false false 1 [57%positive]) 10 ex_10)|].
  - exact ex_machine_ok.
  - exact ex_fresh.
  - vm_compute. reflexivity.
  - reflexivity.
  - reflexivity.
  - intros [] s' H. exact H.
Defined.





(** The timeout of the state 10, then the end of the instance. *)
Definition ex_after (m : M (mstate Z) unit) (s : mstate Z) : mstate Z := from_option snd s (m s).
Definition ex_moved : mstate Z := ex_after (network_time_update ex_client (fuel 1) (Time 11 500)) ex_ready.
Definition ex_ended : mstate Z := ex_after (state_machine_instance_finish ex_client) ex_moved.

Lemma ex_due : due ex_states ex_trans (set_realm (with_time (Time 11 500) ex_armed_network) ex_ready) [200%positive] 200 ex_timer
  [] 0 (Transition TRANSITION_TIMEOUT (Time 1 0) (Some 50%positive)).
Proof.
  split; try done. by exists 10%positive, ex_10.
Qed.

Lemma ex_tick : mstep ex_client ex_states ex_trans 1 1 ex_ready ex_moved.
Proof.
  exists (EvTick (Time 11 500)). split; [|vm_compute; reflexivity].
  eapply (legal_due _ _ _ _ (Time 11 500)); [exact ex_ready_tracked| | |exact ex_due].
  - vm_compute. repeat split; congruence.
  - vm_compute. split; congruence.
Qed.

Lemma ex_finish : mstep ex_client ex_states ex_trans 1 1 ex_moved ex_ended.
Proof. exists EvFinish. split; [constructor|vm_compute; reflexivity]. Qed.


(** Destroying the machine frees its states and destroys each callback once. *)
Example ex_destroy :
  runs state_machine_destroy ex_ready (λ l s', l = [50; 53; 52; 55; 54; 51; 56; 57]%positive ∧ ms_states s' = ∅).
Proof. eapply runs_eq; [vm_compute; reflexivity|]. by vm_compute. Qed.

(** ** Behaviour outside the intended domain *)

(** A state machine with the states 10 and 11 and the timeouts [ts] in 10; the callback [cb]
    answers the state 11 when it is [go]. *)
Definition bad_client (go cb : loc) (u : Z) : ptr * Z := (if bool_decide (cb = go) then Some 11%positive else None, u).
Definition bad_state (enter : transition) (ts : list Z) : state :=
  State None no_transition enter no_transition no_transition no_transition (Vector (zlen ts) (zlen ts) (Some ts) true 3 0 [] None).
Definition bad_trans : gmap loc transition :=
  <[20%positive := Transition TRANSITION_TIMEOUT (Time 1 0) (Some 50%positive)]>
    (<[21%positive := Transition TRANSITION_TIMEOUT (Time 2 0) (Some 51%positive)]> ∅).
Definition bad_start (mem room : nat) (enter : transition) (ts10 ts11 : list Z) : mstate Z :=
  MState (Machine "bad" true [10%positive; 11%positive] (Some 10%positive))
    (<[10%positive := bad_state enter ts10]> (<[11%positive := bad_state no_transition ts11]> ∅)) bad_trans
    (Instance None (_vector_create 0 true room 0).2 0 false false false false) ex_network ∅ mem 200 3 None [] 0.

(** Two timeouts are due in one check and the first one leaves for a state without timers:
    the loop goes on with the second timer, which the transition has stopped, and takes it
    off a list it is not in, through a null pointer. *)
Theorem two_timeouts_crash :
  (state_machine_instance_init (bad_client 50) 4;; network_time_update (bad_client 50) 4 (Time 11 500))
    (bad_start 3 3 no_transition [20; 21] []) ≠ None ∧
  (state_machine_instance_init (bad_client 50) 4;; network_time_update (bad_client 50) 4 (Time 13 0))
    (bad_start 3 3 no_transition [20; 21] []) = None.
Proof. split; [intros H; vm_compute in H; discriminate|vm_compute; reflexivity]. Qed.

(** A state with more timeouts than the states before it moves the array of the timers: the
    older timers keep pointers into the old one. *)
Theorem grown_timers_dangle :
  (state_machine_instance_init (bad_client 50) 4;; network_time_update (bad_client 50) 4 (Time 11 0))
    (bad_start 3 3 no_transition [20] [20; 21]) ≠ None ∧
  (state_machine_instance_init (bad_client 50) 4;; network_time_update (bad_client 50) 4 (Time 11 0);;
   network_time_update (bad_client 50) 4 (Time 12 0)) (bad_start 3 3 no_transition [20] [20; 21]) = None.
Proof. split; [intros H; vm_compute in H; discriminate|vm_compute; reflexivity]. Qed.

(** When the array of the timers cannot be allocated the state is left again and the flag
    [in_transition] stays set: no timeout of the instance is taken from then on. *)
Theorem missing_array_blocks :
  runs (state_machine_instance_update (bad_client 50) 4 10) (bad_start 3 0 no_transition [20] [])
    (λ _ s', si_current (ms_inst s') = None ∧ si_in_transition (ms_inst s') = true ∧ ms_error s' = None).
Proof. eapply runs_eq; [vm_compute; reflexivity|]. by vm_compute. Qed.

(** When a timer cannot be allocated, the removal of its element destroys a timer through a
    null pointer (and the assertion of [vector_pop] fails for the first one). *)
Theorem missing_timer_crash :
  state_machine_instance_update (bad_client 50) 4 10 (bad_start 0 3 no_transition [20] []) = None ∧
  state_machine_instance_update (bad_client 50) 4 10 (bad_start 1 3 no_transition [20; 21] []) = None ∧
  state_machine_instance_update (bad_client 50) 4 10 (bad_start 2 3 no_transition [20; 21] []) ≠ None.
Proof. split_and!; [vm_compute; reflexivity..|]. intros H. vm_compute in H. discriminate. Qed.

(** The initial state whose enter transition ends the instance: [init] reads the current
    state through a null pointer. *)
Theorem init_finished_crash :
  state_machine_instance_init (λ _ u, (Some state_machine_finish_state, u)) 4
    (bad_start 3 3 (ex_callback TRANSITION_ENTER 60) [] []) = None.
Proof. vm_compute. reflexivity. Qed.

(** An enter transition that answers its own state never returns. *)
Theorem enter_loop_diverges fuel :
  a_enter (λ _ u, (Some 10%positive, u)) (<[10%positive := bad_state (ex_callback TRANSITION_ENTER 60) []]> ∅) fuel 10
    (AView None false false 0 []) = None.
Proof.
  set (S0 := (<[10%positive := _]> ∅ : gmap loc state)). set (cl := λ (_ : loc) (u : Z), (Some 10%positive, u)).
  assert (S0 !! 10%positive = Some (bad_state (ex_callback TRANSITION_ENTER 60) [])) as Hst by done. clearbody S0.
  assert (∀ a : aview Z, av_finished a = false → (∀ c, av_current a = Some c → c = 10%positive) →
    a_enter cl S0 fuel 10 a = None) as H; [|by apply H].
  induction fuel as [|fuel IH]; intros a Hf Hc; [done|]. cbn [a_enter].
  assert (∃ a1, a_leave cl S0 a = Some (None, a1) ∧ av_finished a1 = false) as (a1 & -> & Hf1).
  { unfold a_leave. destruct (av_current a) as [c|] eqn:Ec; [|by exists a]. rewrite (Hc c eq_refl), Hst. by eexists. }
  rewrite Hst. cbn. unfold a_update_with. cbn. rewrite Hf1. apply IH; [done|]. by intros ? [= <-].
Qed.

(** The timeout of a state cannot be stored without memory: the result of the push is used
    without a test. *)
Theorem add_timeout_no_memory :
  state_add_timeout_transition 10 (Time 1 0) (Some 50%positive)
    (set_states (<[10%positive := State None no_transition no_transition no_transition no_transition no_transition
       (_vector_create 0 true 0 0).2]> ∅) (bad_start 3 3 no_transition [] [])) = None.
Proof. vm_compute. reflexivity. Qed.
